(* ===== verification/_CoqProject ===== *)
-Q . S2P
Prelude.v
Machine.v
Encoding.v
Order.v
Ids.v
Table.v
Cards.v
Holdem.v
HoldemInv.v
HoldemAct.v
Showdown.v
PublicState.v
TablePool.v
Membership.v
HandRoster.v
Receipt.v
Identity.v
SignedReceipt.v
UseCases.v
Wire.v
Session.v
NetworkAddress.v
HandAction.v
Room.v
PoolProtocol.v
TableSession.v
RosterProtocol.v
MentalPoker.v
ReceiptRuntime.v
Swarm.v
SessionState.v
SessionRuntime.v
SessionInv.v
SessionDelivery.v
SessionSafety.v
SessionSpec.v
PoolRuntime.v
PoolSpec.v
PoolDecide.v
PoolExample.v
HandState.v
HandRuntime.v
HandLog.v
HandInv.v
HandDelivery.v
HandLoops.v
HandSafe.v
HandBet.v
HandSteps.v
HandSpec.v
HandLive.v
HandExample.v
ConnectionLease.v
ArchiveStore.v
ArchiveNode.v
ArchiveKeep.v
ArchiveRuntime.v
ArchiveInv.v
ArchiveClient.v
ArchiveSpec.v
ArchiveExample.v
Command.v
RuntimeProtocol.v
JournalSpec.v
Supervisor.v
SupervisorSpec.v
SupervisorExample.v
Volunteer.v
Discovery.v
DiscoverySpec.v
DiscoveryExample.v
Recovery.v
Startup.v
SidecarState.v
SidecarEvents.v
SidecarCommands.v
SidecarNetwork.v
SidecarStart.v
SidecarInv.v
SidecarSpec.v
