(* ===== verification/Prelude.v ===== *)
(** * Token Hold'em: a verification library

    Token Hold'em is a peer-to-peer poker program.  There is no server: every
    peer runs the same betting engine, signs what it does, and checks what it
    receives.  This library models the Rust crates under [src/crates] and
    proves the properties the peers rely on.  Every definition is executable
    and follows the control flow of the function it models; its name is the
    source's, with a prefix where two modules use the same name.

    ** The program and its model

    token-holdem-domain (pure rules)
    - chips.rs, identity.rs: [Ids] (amounts, byte-array identifiers);
    - table.rs: [Table] (stake levels, buy-ins, the stack of a player);
    - holdem.rs: [Cards] (five and seven card evaluation), [Holdem] (the hand:
      [start], [act], [raise_to], [advance_street], [settle_showdown]),
      [PublicState] (the bytes behind [public_state_hash]);
    - table_pool.rs: [TablePool]; membership.rs: [Membership];
      hand_roster.rs: [HandRoster]; receipt.rs and statistics.rs: [Receipt].

    token-holdem-identity (signatures and recovery)
    - signed_time.rs, certificate.rs, attestation.rs: [Identity];
      receipt_signature.rs: [SignedReceipt]; recovery.rs: [Recovery].

    token-holdem-application (use cases against ports)
    - join_table.rs, create_hand_receipt.rs, publish_receipt.rs, ports.rs,
      content.rs: [UseCases].  The ports are type classes.

    token-holdem-mental-poker (the card protocol)
    - lib.rs: [MentalPoker], over the external crate ziffle.

    token-holdem-network (signed documents, stores, connections)
    - protocol_encoding.rs, session_endpoint.rs: [Session]; hand.rs:
      [HandAction]; room.rs: [Room]; table_pool.rs: [PoolProtocol];
      table_session.rs: [TableSession] (join and leave intents, membership
      proposals and acceptances); hand_roster_protocol.rs: [RosterProtocol];
      connection_lease.rs: [ConnectionLease]; archive_store.rs: [ArchiveStore],
      which implements the port of [UseCases]; wire.rs: [Wire] and [Swarm];
      code.rs: [Recovery]; behaviour.rs: [SidecarStart].

    token-holdem-sidecar (the processes on a player's computer)
    - network_address.rs: [NetworkAddress]; [Swarm]: the libp2p swarm as the
      runtimes see it;
    - table_session_runtime.rs, in which the members of a table agree on who is
      seated and who plays the next hand: [SessionState] (the record
      [ActiveSession] and the functions that only read it), [SessionRuntime]
      (the handlers of messages), [SessionDelivery] (the handlers that also use
      the swarm: [tick], [request_leave], [create], [join]), [SessionInv] and
      [SessionSafety] (the invariant), [SessionSpec] (the theorems);
    - table_pool_runtime.rs, the search for a public table: [PoolRuntime];
      [PoolSpec] and [PoolDecide] (theorems), [PoolExample];
    - hand_runtime.rs, a hand from the key exchange to the receipt:
      [HandState] (the record [ActiveHand]), [HandRuntime] (the handlers);
      [HandLog] (the betting as a replay of signed actions), [HandInv] (the
      invariant), [HandDelivery], [HandSafe], [HandBet], [HandSteps] (every
      handler keeps it), [HandLoops] (the loops end), [HandSpec], [HandLive]
      (theorems), [HandExample] (two players); receipt_runtime.rs:
      [ReceiptRuntime];
    - archive_runtime.rs, receipts and recovery packages on volunteer nodes:
      [ArchiveNode] (the node and its directory), [ArchiveRuntime] (the
      client); [ArchiveKeep], [ArchiveInv], [ArchiveClient] (lemmas),
      [ArchiveSpec] (theorems), [ArchiveExample];
    - volunteer.rs, volunteer_runtime.rs: [Volunteer]; discovery_runtime.rs,
      relay_runtime.rs: [Discovery], with [DiscoverySpec], [DiscoveryExample];
    - command.rs: [Command]; runtime_protocol.rs, the journal that windows
      follow: [RuntimeProtocol], [JournalSpec]; runtime_supervisor.rs, the
      process that owns the worker: [Supervisor], [SupervisorSpec],
      [SupervisorExample];
    - main.rs, the worker that plays, which owns the runtimes above:
      [Startup] (its options), [SidecarState] (the record [RuntimeState]),
      [SidecarEvents] (what it does with the events of the runtimes),
      [SidecarCommands] (commands and the tick), [SidecarNetwork] (events of
      the swarm and the loop), [SidecarStart] (node_identity.rs and the start),
      [SidecarInv] and [SidecarSpec] (theorems).

    How they interact: the supervisor starts a worker and passes commands and
    events between it and the windows.  The worker selects among commands,
    events of the swarm and a tick ([main_step]) and calls the runtimes, each
    with its part of [RuntimeState] ([on_part]).  The pool decides which table
    to create or join ([process_pool_decision]); the session runtime certifies
    a roster and hands it to the hand runtime
    ([process_table_session_events]); the end of the hand goes back to the
    session and its receipt to the archive ([process_hand_events]).

    Shared files: [Prelude] (this file: results, the state monad, tactics,
    lists and sums), [Machine] (u8 to u128 and i128 with their checked,
    saturating and wrapping operations, big-endian bytes), [Encoding]
    (prefix-injective encoders, from which every signed document is proved
    injective), [Order] (orders as classes, stable sorting, iteration of
    [BTreeMap] and [BTreeSet], minima and maxima).  [HoldemInv], [HoldemAct]
    and [Showdown] hold the invariants and theorems of the betting engine.

    ** How the code is modelled

    A fallible function returns a [result]: [Ok], [Err] with the source's
    error, or [Panic] where Rust would abort (indexing out of range, integer
    underflow, [unwrap]).  A method on [&mut self] is a computation of the
    state monad [M]; an error keeps the state changes made before it, as in
    Rust.  [HashMap] and [BTreeMap] are [gmap]s, sets are [gset]s, iteration of
    the B-tree ones is sorted; the order of a [HashSet] is a parameter.
    Machine integers are [Z]; where a bound matters it is a hypothesis
    ([is_u64], [hand_fits], [amounts_ok], ...) that the type of the field
    guarantees.  Times of [std::time::Instant] are nanoseconds in [Z].  The
    messages of errors and warnings are constructors, not texts.

    External code is a parameter; what it documents is a class of laws:
    BLAKE3 and Ed25519 ([Crypto], [CryptoLaws]), the parsers and addresses of
    libp2p ([Libp2p], [MultiaddrText]), the swarm ([World], [WorldLaws]), its
    requests, rendezvous client and builder ([RequestLog], [Rendezvous],
    [SwarmBuilder]), the keys of a node ([NodeKeys]), ziffle and
    ark-serialize ([Ziffle], [CanonicalSerialize]) with its random source
    ([OsRandom]), the codecs ([RoomCodec], [HandCodec], [PoolCodec], [Cbor],
    [Base64], [HexCodec], [ReceiptJson], [SerdeJson]), password encryption
    ([RecoveryCrypto]), processes and pipes ([Os], [Describe]), standard
    output, clocks and response channels ([Host]), and the ports of the
    application layer.  [std::fs] is modelled in [ArchiveNode]: files,
    directories, and for every call whether it succeeds, fails (a write after
    some bytes) or, for a rename, is refused because another process was first
    (a rename that replaces the other's file is one that succeeds).  Theorems that need collision
    freedom assume it for the documents at hand.  The instances named toy_
    are small and only show that hypotheses can hold.

    Fuel: [advance_street] calls itself while fewer than two players can act;
    it runs at most four times, the model has fuel 6 and [act_spec] shows that
    the fuel is never used up.  [search_window] halves a window and
    [trim_start] removes a character in each round, so the length of the list
    is enough.  The loops of the hand runtime have fuel for 255 shuffles and
    for every deferred action; [hand_loops_end] shows that it is enough.  The
    functions of main.rs that process events call each other; they have a bound
    on the depth, and [archive_depth] and [session_depth] show that the bound
    of one gives the same runs as every larger one.  Hands are assumed to hold
    at most half of u64 in chips altogether ([hc_funds]), so that no checked
    addition fails.

    ** What is proved

    - The betting engine: [hand_core] and [betting] are invariants; legal
      actions are exactly the accepted ones, rejected ones change nothing,
      chips are conserved, streets close when bets match, hands terminate,
      fold-outs and showdowns pay the pot ([HoldemAct], [Showdown]).
    - Cards: the evaluator agrees with a declarative definition of poker hands
      and finds the best five of seven ([Cards]); a deck whose shuffles and
      shares verify deals the cards of one permutation ([MentalPoker]).
    - Tables: stacks balance, the membership invariant, queueing and hand
      boundaries, rosters and dealers ([Table], [Membership], [HandRoster]);
      the choice of a table is optimal and the network layer refines it
      ([TablePool], [PoolProtocol]).
    - Receipts: validation means zero-sum, the binary search is a lookup, the
      statistics are sums, every finished hand has a receipt ([Receipt],
      [UseCases]); an honest table ends up with a signed one
      ([ReceiptRuntime]).
    - Signed documents: what is issued verifies, what verifies is bound to its
      bytes, its domain and its place ([Identity], [SignedReceipt],
      [HandAction], [Room], [PoolProtocol], [PublicState]); a recovery package
      opens with its passphrase and account, and codes are read back
      ([Recovery]).
    - Agreement on memberships and rosters: a certificate means that everyone
      named in it has signed, an honest round completes, a proposal that
      verifies is a membership of the domain, a roster freezes the whole
      membership ([TableSession], [RosterProtocol]).
    - The table session: [session_step] is the step relation of a member under
      arbitrary messages, timers and network behaviour; [session_ok] is its
      invariant, the membership moves only along certified successors, what a
      coordinator proposes is the hand boundary of the domain, deliveries are
      bounded, a certificate moves exactly the players it applies to (during a
      hand none whom it would unseat or move), leaving always ends
      ([SessionState], [SessionSpec]).
    - The hand: in every reachable state the betting is the replay of signed
      actions, a common action means a common history, a signature is good for
      one place and state, shares go only to those who may see the card, a
      double action is caught and freezes the hand, the final receipt is that
      of the settlement, queues are bounded; at an undisturbed table a local
      action reaches the log of the others, and a player out of time still acts
      ([HandSpec], [HandLive]).
    - The pool: its invariant, which table may be joined, that searches end
      and that tables with one player merge without swapping ([PoolSpec],
      [PoolDecide]).
    - The archive: what is reported as archived was signed for by enough nodes,
      a node never loses or changes a file, and what it accepted is found again
      ([ArchiveSpec]); untrusted peers cannot forge or hide content
      ([ArchiveStore]).
    - The runtime: the journal refines the history of a generation, a window
      gets every later event once and in order, a replaced worker is not heard,
      requests are checked ([JournalSpec], [SupervisorSpec]); what the network
      can make a host remember is bounded ([DiscoverySpec]); nothing is served
      without consent ([Volunteer]); connection leases converge under every
      interleaving ([ConnectionLease]).
    - The worker: it starts with the servers it was asked for and the key of
      its file ([startup_as_asked], [node_key_persists]); after any inputs the
      identity is the one of the observed account, and a player at a table
      keeps it; nobody enters a table with more than the account has; no error
      stops the process, and errors are reported (a repeated one of the network
      or the tick once in five seconds); the statistics shown add up and the
      recent hands are the latest ([SidecarSpec]).
    - Behaviours of the code that are not intended are theorems as well:
      [deep_folds_block_settlement] and [completed_hand_pays_twice] (betting),
      [foreign_seats_accepted] (proposals), [certified_roster_keeps_stale_clock],
      [membership_changes_during_hand], [bare_peer_address_blocks] and
      [shared_device_blocks] (table session), [start_drops_unfinished_hand]
      (hand), [trailing_part_blocks_search] (pool), [interrupted_index_blocks]
      and [failed_fetch_not_retried] (archive), [replay_loses_statistics]
      (journal), [failed_configure_half_applied] and [huge_ttl_panics]
      (discovery), [concurrent_start_replaces_key] (node key).

    ** What is not modelled

    The inside of the external crates above; the derived serializers; the
    accept loop, the environment variable and the pipes of the supervisor; the
    texts of messages; key generation of identities; crate roots and the entry
    point of the supervisor, which only call the modelled code; fuzz targets
    and tests; and the parts written in other languages. *)

From stdpp Require Export prelude gmap strings list sorting.
From Stdlib Require Export ZArith Lia.

#[global] Open Scope Z_scope.

(** ** Results of fallible code

    A Rust method returning [Result<A, E>] either returns [Ok a], returns
    [Err e], or panics (an index out of bounds, a failed [expect], an
    arithmetic overflow in a checked build). *)
Inductive result (E A : Type) : Type :=
  | Ok (a : A)
  | Err (e : E)
  | Panic.
Arguments Ok {E A} a.
Arguments Err {E A} e.
Arguments Panic {E A}.

#[export] Instance result_ret E : MRet (result E) := λ A a, Ok a.
#[export] Instance result_bind E : MBind (result E) := λ A B f r,
  match r with Ok a => f a | Err e => Err e | Panic => Panic end.

(** [Option::ok_or] and [Result::map_err]. *)
Definition ok_or {E A} (o : option A) (e : E) : result E A :=
  match o with Some a => Ok a | None => Err e end.
Definition map_err {E F A} (f : E → F) (r : result E A) : result F A :=
  match r with Ok a => Ok a | Err e => Err (f e) | Panic => Panic end.
(** [expect] and slice indexing: the absent case panics. *)
Definition expect {E A} (o : option A) : result E A :=
  match o with Some a => Ok a | None => Panic end.
(** An early [return Err(e)] under a condition. *)
Definition reject_if {E} (b : bool) (e : E) : result E unit :=
  if b then Err e else Ok tt.
(** [Result::is_ok]. *)
Definition is_ok {E A} (r : result E A) : bool :=
  match r with Ok _ => true | _ => false end.
Definition not_panic {E A} (r : result E A) : Prop :=
  match r with Panic => False | _ => True end.

(** A loop [for x in l { f(x)?; }] over a pure fallible body, and the
    [collect::<Result<Vec<_>, _>>] of a fallible map. *)
Fixpoint try_each {E A} (f : A → result E unit) (l : list A) : result E unit :=
  match l with
  | [] => Ok tt
  | x :: l => _ ← f x; try_each f l
  end.
Fixpoint try_collect {E A B} (f : A → result E B) (l : list A) : result E (list B) :=
  match l with
  | [] => Ok []
  | x :: l => y ← f x; ys ← try_collect f l; Ok (y :: ys)
  end.
(** [Iterator::try_fold]. *)
Fixpoint try_fold {E A B} (f : B → A → result E B) (acc : B) (l : list A) : result E B :=
  match l with
  | [] => Ok acc
  | x :: l => acc' ← f acc x; try_fold f acc' l
  end.

(** ** Methods on [&mut self]

    A method that mutates its receiver and returns a [Result] keeps the
    mutations made before an early return, so the state is threaded through
    the error path too. *)
Definition M (S E A : Type) : Type := S → result E A * S.
#[export] Instance M_ret S E : MRet (M S E) := λ A a s, (Ok a, s).
#[export] Instance M_bind S E : MBind (M S E) := λ A B f m s,
  match m s with
  | (Ok a, s') => f a s'
  | (Err e, s') => (Err e, s')
  | (Panic, s') => (Panic, s')
  end.
Definition lift {S E A} (r : result E A) : M S E A := λ s, (r, s).
Definition gets {S E A} (f : S → A) : M S E A := λ s, (Ok (f s), s).
Definition modify {S E} (f : S → S) : M S E unit := λ s, (Ok tt, f s).
Definition run {S E A} (m : M S E A) (s : S) : result E A * S := m s.

(** [for x in l { f(x)?; }] in a mutating method. *)
Fixpoint for_each {S E A} (f : A → M S E unit) (l : list A) : M S E unit :=
  match l with
  | [] => mret tt
  | x :: l => _ ← f x; for_each f l
  end.

(** ** Tactics of the development *)

(** Split a goal or hypothesis along the [match]/[if] the code branches on. *)
Ltac case_code :=
  match goal with
  | H : context [match ?x with _ => _ end] |- _ =>
      lazymatch type of x with
      | sumbool _ _ => destruct x
      | _ => destruct x eqn:?
      end
  | |- context [match ?x with _ => _ end] =>
      lazymatch type of x with
      | sumbool _ _ => destruct x
      | _ => destruct x eqn:?
      end
  end.
Ltac case_all := repeat (case_code; simplify_eq/=; try done).

(** Turn boolean tests of the code into propositions. *)
Ltac bool_props :=
  repeat match goal with
  | H : _ && _ = true |- _ => apply andb_true_iff in H as [? ?]
  | H : _ && _ = false |- _ => apply andb_false_iff in H
  | H : _ || _ = false |- _ => apply orb_false_iff in H as [? ?]
  | H : _ || _ = true |- _ => apply orb_true_iff in H
  | H : negb _ = true |- _ => apply negb_true_iff in H
  | H : negb _ = false |- _ => apply negb_false_iff in H
  | H : (_ =? _) = true |- _ => apply Z.eqb_eq in H
  | H : (_ =? _) = false |- _ => apply Z.eqb_neq in H
  | H : (_ <? _) = true |- _ => apply Z.ltb_lt in H
  | H : (_ <? _) = false |- _ => apply Z.ltb_ge in H
  | H : (_ <=? _) = true |- _ => apply Z.leb_le in H
  | H : (_ <=? _) = false |- _ => apply Z.leb_gt in H
  | H : (_ =? _)%nat = true |- _ => apply Nat.eqb_eq in H
  | H : (_ =? _)%nat = false |- _ => apply Nat.eqb_neq in H
  | H : (_ <? _)%nat = true |- _ => apply Nat.ltb_lt in H
  | H : (_ <? _)%nat = false |- _ => apply Nat.ltb_ge in H
  | H : (_ <=? _)%nat = true |- _ => apply Nat.leb_le in H
  | H : (_ <=? _)%nat = false |- _ => apply Nat.leb_gt in H
  | H : bool_decide _ = true |- _ => apply bool_decide_eq_true in H
  | H : bool_decide _ = false |- _ => apply bool_decide_eq_false in H
  end.

(** Unfold the monad of mutating methods so that the code's branches show. *)
Ltac run_code :=
  unfold mbind, mret, M_bind, M_ret, result_bind, result_ret, lift, gets, modify, reject_if, ok_or;
  simpl.

(** Close an equivalence between an outcome of the code and arithmetic
    conditions, once the branch is known. *)
Ltac solve_branch :=
  split; intros; repeat case_match; simplify_eq/=; destruct_and?; simplify_eq/=;
  split_and?; try done; try lia; try (exfalso; lia).

(** ** Results: inversion lemmas *)

Lemma bind_Ok {E A B} (r : result E A) (f : A → result E B) (b : B) :
  r ≫= f = Ok b ↔ ∃ a, r = Ok a ∧ f a = Ok b.
Proof. destruct r; simpl; split; naive_solver. Qed.

(** A guard before the rest, and a value that must be present. *)
Lemma guard_Ok {E B} (r : result E unit) (k : result E B) (b : B) :
  (r ≫= λ _, k) = Ok b ↔ r = Ok tt ∧ k = Ok b.
Proof. destruct r as [[]| |]; simpl; split; naive_solver. Qed.

Lemma bind_ok_or {E A B} (o : option A) (e : E) (f : A → result E B) (b : B) :
  ok_or o e ≫= f = Ok b ↔ ∃ a, o = Some a ∧ f a = Ok b.
Proof. destruct o; simpl; split; naive_solver. Qed.

Lemma reject_if_Ok {E} (b : bool) (e : E) (u : unit) : reject_if b e = Ok u ↔ b = false.
Proof. destruct b, u; simpl; split; done. Qed.

Lemma ok_or_Ok {E A} (o : option A) (e : E) (a : A) : ok_or o e = Ok a ↔ o = Some a.
Proof. destruct o; simpl; split; naive_solver. Qed.

Lemma map_err_Ok {E F A} (f : E → F) (r : result E A) (a : A) :
  map_err f r = Ok a ↔ r = Ok a.
Proof. destruct r; simpl; split; naive_solver. Qed.

Lemma expect_Ok {E A} (o : option A) (a : A) : expect (E:=E) o = Ok a ↔ o = Some a.
Proof. destruct o; simpl; split; naive_solver. Qed.

Lemma is_ok_true {E A} (r : result E A) : is_ok r = true ↔ ∃ a, r = Ok a.
Proof. destruct r; simpl; naive_solver. Qed.

Lemma try_each_Ok {E A} (f : A → result E unit) (l : list A) (u : unit) :
  try_each f l = Ok u ↔ Forall (λ x, f x = Ok tt) l.
Proof.
  destruct u. induction l as [|x l IH]; simpl; [by split|].
  rewrite Forall_cons, <-IH. destruct (f x) as [[]| |]; simpl; naive_solver.
Qed.

Lemma try_collect_Ok {E A B} (f : A → result E B) (l : list A) (ys : list B) :
  try_collect f l = Ok ys ↔ Forall2 (λ x y, f x = Ok y) l ys.
Proof.
  revert ys; induction l as [|x l IH]; intros ys; simpl.
  - split; [intros [= <-]; constructor|by inversion 1].
  - rewrite bind_Ok. setoid_rewrite bind_Ok. split.
    + intros (y & Hy & ys' & Hl & [= <-]). constructor; [done|]. by apply IH.
    + inversion 1 as [|? y ? ys' Hy Hl]; subst. exists y; split; [done|].
      exists ys'. split; [by apply IH|done].
Qed.

Lemma try_fold_app {E A B} (f : B → A → result E B) (acc : B) (l k : list A) :
  try_fold f acc (l ++ k) = try_fold f acc l ≫= λ acc', try_fold f acc' k.
Proof.
  revert acc; induction l as [|x l IH]; intros acc; [done|]. simpl.
  destruct (f acc x); simpl; auto.
Qed.

Lemma try_fold_map {E A B C} (f : B → C → result E B) (g : A → C) (acc : B) (l : list A) :
  try_fold f acc (map g l) = try_fold (λ acc x, f acc (g x)) acc l.
Proof.
  revert acc; induction l as [|x l IH]; intros acc; [done|]. simpl. destruct (f acc (g x)); simpl; auto.
Qed.

(** Take apart a successful computation: every step that succeeded leaves
    its equation behind. *)
Ltac inv_ok :=
  repeat match goal with
  | H : mret _ = Ok _ |- _ => injection H as H
  | H : Ok _ = Ok _ |- _ => injection H as H
  | H : Err _ = Ok _ |- _ => discriminate H
  | H : Panic = Ok _ |- _ => discriminate H
  | H : _ ≫= _ = Ok _ |- _ => apply bind_Ok in H as (? & ? & ?)
  | H : reject_if _ _ = Ok _ |- _ => apply reject_if_Ok in H
  | H : ok_or _ _ = Ok _ |- _ => apply ok_or_Ok in H
  | H : map_err _ _ = Ok _ |- _ => apply map_err_Ok in H
  | H : expect _ = Ok _ |- _ => apply expect_Ok in H
  | H : try_each _ _ = Ok _ |- _ => apply try_each_Ok in H
  | H : try_collect _ _ = Ok _ |- _ => apply try_collect_Ok in H
  | H : (if ?b then Ok _ else Err _) = Ok _ |- _ => destruct b eqn:?; [|discriminate H]
  | H : (if ?b then Err _ else _) = Ok _ |- _ => destruct b eqn:?; [discriminate H|]
  end; subst.

(** A check is equivalent to the conjunction of the conditions it tests. *)
Ltac ok_iff :=
  cbn zeta;
  repeat first [rewrite guard_Ok | rewrite reject_if_Ok | rewrite map_err_Ok | rewrite ok_or_Ok
               | rewrite orb_false_iff | rewrite negb_false_iff | rewrite andb_true_iff
               | rewrite bool_decide_eq_true | rewrite bool_decide_eq_false | rewrite Z.eqb_eq
               | rewrite Z.eqb_neq | rewrite Z.ltb_ge | rewrite Z.leb_gt].

(** ** Mutating methods: equations *)

Lemma run_bind {S E A B} (m : M S E A) (f : A → M S E B) (s : S) :
  (m ≫= f) s = match m s with
               | (Ok a, s') => f a s' | (Err e, s') => (Err e, s') | (Panic, s') => (Panic, s')
               end.
Proof. done. Qed.

Lemma run_lift {S E A B} (r : result E A) (f : A → M S E B) (s : S) :
  (lift r ≫= f) s = match r with Ok v => f v s | Err x => (Err x, s) | Panic => (Panic, s) end.
Proof. by destruct r. Qed.

(** A run that has succeeded. *)
Lemma bind_run {S E A B} (m : M S E A) (f : A → M S E B) s b s' :
  (m ≫= f) s = (Ok b, s') → ∃ a u, m s = (Ok a, u) ∧ f a u = (Ok b, s').
Proof. rewrite run_bind. destruct (m s) as [[a| |] u]; [|done..]. eauto. Qed.
Lemma lift_run {S E A} (r : result E A) (s : S) a s' : lift r s = (Ok a, s') → r = Ok a ∧ s' = s.
Proof. unfold lift. by intros [= -> ->]. Qed.
(** Split a run that has succeeded into the runs of its parts. *)
Ltac inv_run :=
  repeat match goal with
  | H : (_ ≫= _) _ = (Ok _, _) |- _ => apply bind_run in H as (? & ? & ? & H)
  | H : lift _ _ = (Ok _, _) |- _ => apply lift_run in H as [H ->]
  | H : gets _ _ = (Ok _, _) |- _ => injection H as <- <-
  | H : mret _ _ = (Ok _, _) |- _ => injection H as <- <-
  | H : (let '(_, _) := ?x in _) _ = (Ok _, _) |- _ => destruct x
  end.

Lemma for_each_app {S E A} (f : A → M S E unit) (l k : list A) (s : S) :
  for_each f (l ++ k) s
  = match for_each f l s with
    | (Ok _, s') => for_each f k s' | (Err e, s') => (Err e, s') | (Panic, s') => (Panic, s')
    end.
Proof.
  revert s; induction l as [|x l IH]; intros s; [done|].
  simpl. rewrite !run_bind. destruct (f x s) as [[|e|] s']; auto.
Qed.

(** A loop whose body preserves a property of the state. *)
Lemma for_each_inv {S E A} (P : S → Prop) (f : A → M S E unit) (l : list A) (s : S) :
  (∀ x s, x ∈ l → P s → P (f x s).2) → P s → P (for_each f l s).2.
Proof.
  revert s; induction l as [|x l IH]; intros s Hf Hs; [done|].
  simpl. rewrite run_bind. destruct (f x s) as [r s'] eqn:Hr.
  assert (P s') as Hs'.
  { replace s' with (f x s).2 by (by rewrite Hr). apply Hf; [apply list_elem_of_here|done]. }
  destruct r; simpl; try done. apply IH; [|done]. intros; apply Hf; [|done]. by constructor.
Qed.

(** Every run of a method relates the state before and after, also when it
    fails. *)
Section steps.
Context {S E : Type} (R : relation S) `{!PreOrder R}.

Definition steps {A} (m : M S E A) : Prop := ∀ s, R s (m s).2.
Lemma steps_ret {A} (v : A) : steps (mret v).
Proof. by intros s. Qed.
Lemma steps_lift {A} (r : result E A) : steps (lift r).
Proof. by intros s. Qed.
Lemma steps_gets {A} (f : S → A) : steps (gets f).
Proof. by intros s. Qed.
Lemma steps_bind {A B} (m : M S E A) (f : A → M S E B) : steps m → (∀ v, steps (f v)) → steps (m ≫= f).
Proof.
  intros Hm Hf s. rewrite run_bind. specialize (Hm s). destruct (m s) as [[v| |] u]; [|done..].
  etrans; [exact Hm|apply Hf].
Qed.
(** Reading the state first: the rest may use what it is. *)
Lemma steps_read {A B} (g : S → A) (f : A → M S E B) : (∀ s, R s (f (g s) s).2) → steps (gets g ≫= f).
Proof. intros Hf s. apply Hf. Qed.
Lemma steps_for_each {A} (f : A → M S E unit) l : (∀ v, steps (f v)) → steps (for_each f l).
Proof. intros Hf. induction l as [|v l IH]; cbn [for_each]; [apply steps_ret|]. by apply steps_bind. Qed.
End steps.

(** ** Sums over lists *)

Definition sum_with {A} (f : A → Z) (l : list A) : Z := foldr (λ x acc, f x + acc) 0 l.
Arguments sum_with : simpl never.

Section sums.
Context {A : Type}.
Implicit Types (f g : A → Z) (l k : list A).

Lemma sum_with_nil f : sum_with f [] = 0.
Proof. done. Qed.
Lemma sum_with_cons f x l : sum_with f (x :: l) = f x + sum_with f l.
Proof. done. Qed.
Lemma sum_with_app f l k : sum_with f (l ++ k) = sum_with f l + sum_with f k.
Proof. induction l as [|x l IH]; [done|]. cbn [app]. rewrite !sum_with_cons, IH. lia. Qed.
Lemma sum_with_ext f g l : (∀ x, x ∈ l → f x = g x) → sum_with f l = sum_with g l.
Proof.
  induction l as [|x l IH]; [done|]. intros H. rewrite !sum_with_cons, IH, H; set_solver.
Qed.
Lemma sum_with_le f g l : (∀ x, x ∈ l → f x <= g x) → sum_with f l <= sum_with g l.
Proof.
  induction l as [|x l IH]; intros H; [done|]. rewrite !sum_with_cons.
  assert (f x <= g x) by set_solver. assert (sum_with f l <= sum_with g l) by set_solver. lia.
Qed.
Lemma sum_with_nonneg f l : (∀ x, x ∈ l → 0 <= f x) → 0 <= sum_with f l.
Proof.
  intros H. replace 0 with (sum_with (λ _, 0) l); [by apply sum_with_le|].
  clear H. induction l as [|x l IH]; [done|]. rewrite sum_with_cons. lia.
Qed.
Lemma sum_with_elem_le f l x : (∀ y, y ∈ l → 0 <= f y) → x ∈ l → f x <= sum_with f l.
Proof.
  induction l as [|y l IH]; intros H Hx; [by apply not_elem_of_nil in Hx|].
  rewrite sum_with_cons.
  assert (0 <= sum_with f l) by (apply sum_with_nonneg; set_solver).
  assert (0 <= f y) by set_solver.
  apply elem_of_cons in Hx as [->|Hx]; [lia|].
  assert (f x <= sum_with f l); [apply IH; set_solver|lia].
Qed.
Lemma sum_with_add f g l : sum_with (λ x, f x + g x) l = sum_with f l + sum_with g l.
Proof. induction l as [|x l IH]; [done|]. rewrite !sum_with_cons, IH. lia. Qed.
Lemma sum_with_scale c f l : sum_with (λ x, c * f x) l = c * sum_with f l.
Proof. induction l as [|x l IH]; rewrite ?sum_with_nil, ?sum_with_cons, ?IH; lia. Qed.
Lemma sum_with_sub f g l : sum_with (λ x, f x - g x) l = sum_with f l - sum_with g l.
Proof. induction l as [|x l IH]; [done|]. rewrite !sum_with_cons, IH. lia. Qed.
Lemma sum_with_const c l : sum_with (λ _, c) l = c * Z.of_nat (length l).
Proof.
  induction l as [|x l IH]; rewrite ?sum_with_nil, ?sum_with_cons, ?IH; simpl length; lia.
Qed.
Lemma sum_with_perm f l k : l ≡ₚ k → sum_with f l = sum_with f k.
Proof. induction 1; rewrite ?sum_with_cons in *; lia. Qed.
Lemma sum_with_filter f (P : A → Prop) `{!∀ x, Decision (P x)} l :
  sum_with f (filter P l) = sum_with (λ x, if decide (P x) then f x else 0) l.
Proof.
  induction l as [|x l IH]; [done|]. rewrite filter_cons, sum_with_cons, <-IH.
  case_decide; rewrite ?sum_with_cons; lia.
Qed.
(** Updating one element moves the sum by the difference. *)
Lemma sum_with_insert f l i x y :
  l !! i = Some x → sum_with f (<[i:=y]> l) = sum_with f l - f x + f y.
Proof.
  revert i; induction l as [|z l IH]; intros [|i] Hi; simplify_eq/=;
    rewrite ?sum_with_cons; [lia|]. rewrite (IH i) by done. lia.
Qed.
End sums.

Lemma sum_with_map {A B} (f : B → Z) (g : A → B) (l : list A) :
  sum_with f (map g l) = sum_with (λ x, f (g x)) l.
Proof. induction l as [|x l IH]; [done|]. simpl. rewrite !sum_with_cons, IH. done. Qed.

(** Exchange of two finite sums. *)
Lemma sum_with_comm {A B} (f : A → B → Z) (l : list A) (k : list B) :
  sum_with (λ x, sum_with (f x) k) l = sum_with (λ y, sum_with (λ x, f x y) l) k.
Proof.
  induction l as [|x l IH].
  - change (0 = sum_with (λ _, 0) k). rewrite sum_with_const. lia.
  - rewrite sum_with_cons, IH, <-sum_with_add. done.
Qed.

(** ** Lists *)

(** [Iterator::find]. *)
Fixpoint find_first {A} (p : A → bool) (l : list A) : option A :=
  match l with
  | [] => None
  | x :: l => if p x then Some x else find_first p l
  end.

Lemma find_first_Some {A} (p : A → bool) (l : list A) (x : A) :
  find_first p l = Some x → x ∈ l ∧ p x = true.
Proof. induction l as [|y l IH]; simpl; [done|]. case_match; set_solver. Qed.

Lemma find_first_None {A} (p : A → bool) (l : list A) :
  find_first p l = None ↔ Forall (λ x, p x = false) l.
Proof.
  induction l as [|y l IH]; simpl; [by split; [constructor|]|].
  rewrite Forall_cons. destruct (p y); naive_solver.
Qed.

Lemma find_first_is_Some {A} (p : A → bool) (l : list A) (x : A) :
  x ∈ l → p x = true → is_Some (find_first p l).
Proof.
  intros Hx Hp. destruct (find_first p l) eqn:Hf; [done|].
  apply find_first_None in Hf. rewrite Forall_forall in Hf. apply Hf in Hx. congruence.
Qed.

(** [Iterator::position]. *)
Fixpoint position {A} (p : A → bool) (l : list A) : option nat :=
  match l with
  | [] => None
  | x :: l => if p x then Some O else S <$> position p l
  end.

Lemma position_Some {A} (p : A → bool) (l : list A) i :
  position p l = Some i → ∃ x, l !! i = Some x ∧ p x = true.
Proof.
  revert i. induction l as [|x l IH]; intros i; simpl; [done|]. destruct (p x) eqn:Hp; [intros [= <-]; eauto|].
  destruct (position p l); [|done]. intros [= <-]. by apply IH.
Qed.
Lemma position_None {A} (p : A → bool) (l : list A) : position p l = None → Forall (λ x, p x = false) l.
Proof.
  induction l as [|x l IH]; simpl; [done|]. destruct (p x) eqn:Hp; [done|].
  destruct (position p l); [done|]. constructor; auto.
Qed.

(** With distinct keys, looking up a key finds the one element that has it. *)
Lemma find_first_key {A K} `{EqDecision K} (key : A → K) (l : list A) (x : A) :
  NoDup (map key l) → x ∈ l → find_first (λ y, bool_decide (key y = key x)) l = Some x.
Proof.
  induction l as [|y l IH]; simpl; [set_solver|].
  intros [Hy Hl]%NoDup_cons Hx. case_bool_decide as Hk.
  - apply elem_of_cons in Hx as [->|Hx]; [done|]. destruct Hy. rewrite Hk.
    by apply (list_elem_of_fmap_2 key).
  - apply elem_of_cons in Hx as [->|Hx]; [done|]. by apply IH.
Qed.

Lemma NoDup_key_eq {A K} (key : A → K) (l : list A) (x y : A) :
  NoDup (map key l) → x ∈ l → y ∈ l → key x = key y → x = y.
Proof.
  induction l as [|z l IH]; simpl; [set_solver|].
  intros [Hz Hl]%NoDup_cons Hx Hy Hk.
  apply elem_of_cons in Hx as [->|Hx]; apply elem_of_cons in Hy as [->|Hy]; auto.
  - destruct Hz. rewrite Hk. by apply (list_elem_of_fmap_2 key).
  - destruct Hz. rewrite <-Hk. by apply (list_elem_of_fmap_2 key).
Qed.

Lemma NoDup_map_insert {A K} (key : A → K) (l : list A) (i : nat) (x y : A) :
  l !! i = Some x → key y = key x → map key (<[i:=y]> l) = map key l.
Proof.
  intros Hi Hk. rewrite (list_fmap_insert key). apply list_insert_id.
  rewrite Hk. by rewrite list_lookup_fmap, Hi.
Qed.

Lemma map_alter_key {A K} (key : A → K) (f : A → A) (l : list A) (i : nat) :
  (∀ x, key (f x) = key x) → map key (alter f i l) = map key l.
Proof.
  intros Hk. revert i; induction l as [|x l IH]; intros [|i]; simpl; [done..| |].
  - by rewrite Hk.
  - f_equal. apply IH.
Qed.

Lemma NoDup_map_filter {A K} (key : A → K) (P : A → Prop) `{!∀ x, Decision (P x)} (l : list A) :
  NoDup (map key l) → NoDup (map key (filter P l)).
Proof.
  induction l as [|x l IH]; [done|]. simpl. intros [Hx Hl]%NoDup_cons. rewrite filter_cons.
  case_decide; simpl; [|auto]. constructor; [|auto].
  intros (y & Hk & [_ Hy]%list_elem_of_filter)%list_elem_of_fmap. apply Hx. rewrite Hk.
  by apply (list_elem_of_fmap_2 key).
Qed.

Lemma sublist_map {A B} (f : A → B) (l k : list A) :
  l `sublist_of` k → map f l `sublist_of` map f k.
Proof. induction 1; simpl; by constructor. Qed.

Lemma filter_iff_in {A} (P Q : A → Prop) `{!∀ x, Decision (P x), !∀ x, Decision (Q x)} (l : list A) :
  (∀ x, x ∈ l → P x ↔ Q x) → filter P l = filter Q l.
Proof.
  induction l as [|x l IH]; intros Hiff; [done|]. rewrite !filter_cons.
  assert (P x ↔ Q x) as Hx by set_solver. rewrite (IH ltac:(set_solver)).
  destruct (decide (P x)), (decide (Q x)); tauto.
Qed.

Lemma filter_all {A} (P : A → Prop) `{!∀ x, Decision (P x)} (l : list A) :
  (∀ x, x ∈ l → P x) → filter P l = l.
Proof.
  induction l as [|x l IH]; intros Hall; [done|]. rewrite filter_cons, decide_True by set_solver.
  f_equal. apply IH. set_solver.
Qed.

(** Exactly one element has a given key. *)
Lemma sum_with_key {A K} `{EqDecision K} (key : A → K) (f : A → Z) (l : list A) (x : A) :
  NoDup (map key l) → x ∈ l →
  sum_with (λ y, if decide (key y = key x) then f y else 0) l = f x.
Proof.
  induction l as [|y l IH]; simpl; [set_solver|]. intros [Hy Hl]%NoDup_cons Hx.
  rewrite sum_with_cons. case_decide as Hk.
  - apply elem_of_cons in Hx as [->|Hx]; [|destruct Hy; rewrite Hk; by apply (list_elem_of_fmap_2 key)].
    rewrite (sum_with_ext _ (λ _, 0)); [rewrite sum_with_const; lia|].
    intros z Hz. rewrite decide_False; [done|]. intros E. destruct Hy. rewrite <-E.
    by apply (list_elem_of_fmap_2 key).
  - apply elem_of_cons in Hx as [->|Hx]; [done|]. rewrite IH by done. lia.
Qed.

(** Collecting into a set loses nothing exactly when there are no duplicates. *)
Section set_size.
Context {A : Type} `{Countable A}.
Implicit Types l : list A.

Lemma size_list_to_set_le l : (size (list_to_set l : gset A) <= length l)%nat.
Proof.
  induction l as [|x l IH]; [by vm_compute|]. cbn [list_to_set list_fmap length].
  change (list_to_set (x :: l) : gset A) with ({[x]} ∪ list_to_set l : gset A).
  rewrite size_union_alt, size_singleton.
  pose proof (subseteq_size (list_to_set l ∖ {[x]} : gset A) (list_to_set l) ltac:(set_solver)).
  lia.
Qed.

Lemma size_eq_NoDup l : size (list_to_set l : gset A) = length l ↔ NoDup l.
Proof.
  split; [|apply size_list_to_set]. induction l as [|x l IH]; [constructor|].
  change (list_to_set (x :: l) : gset A) with ({[x]} ∪ list_to_set l : gset A).
  cbn [length]. intros Hsz. pose proof (size_list_to_set_le l).
  destruct (decide (x ∈ (list_to_set l : gset A))) as [Hin|Hin].
  - rewrite (subseteq_union_1_L {[x]} (list_to_set l)) in Hsz by set_solver. lia.
  - rewrite size_union, size_singleton in Hsz by set_solver.
    constructor; [by rewrite elem_of_list_to_set in Hin|apply IH; lia].
Qed.

(** A loop that checks every element and refuses a repeated key. *)
Lemma fold_insert_new {E B} (f : gset A → B → result E (gset A)) (good : B → Prop) (key : B → A) :
  (∀ s x s', f s x = Ok s' ↔ good x ∧ key x ∉ s ∧ s' = {[key x]} ∪ s) →
  ∀ (l : list B) s s', try_fold f s l = Ok s' ↔
    Forall good l ∧ NoDup (map key l) ∧ (∀ x, x ∈ l → key x ∉ s)
    ∧ s' = list_to_set (map key l) ∪ s.
Proof.
  intros Hf l. induction l as [|x l IH]; intros s s'; cbn [try_fold map list_to_set].
  - rewrite (left_id_L ∅ (∪)). split; [intros [= <-]|naive_solver].
    split; [done|]. split; [constructor|]. set_solver.
  - rewrite bind_Ok, Forall_cons, NoDup_cons. setoid_rewrite Hf. setoid_rewrite IH. split.
    + intros (t & (Hg & Hk & ->) & Hgs & Hd & Hns & ->). split; [done|].
      split; [|split; [set_solver|by apply leibniz_equiv; set_solver]].
      split; [|done]. intros (y & E' & Hy)%list_elem_of_fmap. specialize (Hns y Hy). set_solver.
    + intros ([Hg Hgs] & [Hx Hd] & Hns & ->). eexists. split; [split; [done|split; [set_solver|done]]|].
      split; [done|]. split; [done|]. split; [|by apply leibniz_equiv; set_solver]. intros y Hy.
      rewrite not_elem_of_union, not_elem_of_singleton. split; [|set_solver].
      intros E'. apply Hx. rewrite <-E'. by apply (list_elem_of_fmap_2 key).
Qed.
End set_size.

Lemma Forall_insert_lookup {A} (P : A → Prop) (l : list A) (i : nat) (y : A) :
  Forall P l → P y → Forall P (<[i:=y]> l).
Proof. intros. by apply Forall_insert. Qed.

(** Replies matched with the questions they answer: the replies are good,
    have different keys and exactly the keys of the questions if and only if
    they are, in some order, one reply for each question. *)
Lemma matched_replies {Q A K} (kq : Q → K) (ka : A → K) (good : A → Prop) (R : Q → A → Prop)
    (qs : list Q) (replies : list A) :
  NoDup (map kq qs) →
  (∀ q a, q ∈ qs → R q a ↔ good a ∧ ka a = kq q) →
  (Forall good replies ∧ NoDup (map ka replies) ∧ ∀ k, k ∈ map ka replies ↔ k ∈ map kq qs) ↔
  ∃ l, l ≡ₚ replies ∧ Forall2 R qs l.
Proof.
  intros Hnd HR. split.
  - intros (Hall & Hnda & Hk).
    assert (map kq qs ≡ₚ map ka replies) as Hp by (by apply NoDup_Permutation).
    apply Permutation_map_inv in Hp as (l & Hl & Hperm). exists l. split; [done|].
    rewrite Hperm, Forall_forall in Hall. apply Forall2_same_length_lookup. split.
    { by rewrite <-(length_map kq), Hl, length_map. }
    intros i q a Hq Ha. apply HR; [by eapply list_elem_of_lookup_2|].
    split; [by apply Hall; eapply list_elem_of_lookup_2|].
    pose proof (f_equal (lookup i) Hl) as E. rewrite !list_lookup_fmap, Hq, Ha in E. by injection E.
  - intros (l & Hl & Hf).
    assert (Forall good l ∧ map ka l = map kq qs) as [Hg Hm].
    { clear Hnd Hl. induction Hf as [|q a qs l Hqa Hf IH]; [done|].
      apply HR in Hqa as [? Hk]; [|set_solver]. destruct IH as [? ?]; [intros; apply HR; set_solver|].
      split; [by constructor|]. simpl. by f_equal. }
    assert (map ka replies ≡ₚ map kq qs) as Hmp by (by rewrite <-Hl, Hm).
    split; [by rewrite <-Hl|]. split; [by rewrite Hmp|]. intros k. by rewrite Hmp.
Qed.

Lemma list_choose {A B} (R : A → B → Prop) (l : list A) :
  (∀ x, x ∈ l → ∃ y, R x y) → ∃ k, Forall2 R l k.
Proof.
  induction l as [|x l IH]; intros Hl; [by exists []|]. destruct (Hl x) as [y Hy]; [set_solver|].
  destruct IH as [k Hk]; [set_solver|]. exists (y :: k). by constructor.
Qed.

(** Two lists that agree by a view that determines another one. *)
Lemma map_view_determines {A B C} (f : A → B) (g : A → C) (l k : list A) :
  map f l = map f k → (∀ x y, x ∈ l → y ∈ k → f x = f y → g x = g y) → map g l = map g k.
Proof.
  revert k. induction l as [|x l IH]; intros [|y k] Hm Hd; simplify_eq/=; [done|].
  f_equal; [apply Hd; set_solver|apply IH; [done|set_solver]].
Qed.

Create HintDb poker.
#[export] Hint Resolve sum_with_nonneg Forall_insert_lookup : poker.
