(* ===== verification/Machine.v ===== *)
(** * Machine: fixed-width integers, byte arrays and strings

    The integer types of the Rust code are [Z] with an explicit range; the
    checked, saturating and panicking operations the code uses are written
    out at their width.  A byte is a [Z] in [0, 256); [uN::to_be_bytes] is
    [be_bytes].  Strings are UTF-8 byte strings. *)

From S2P Require Import Prelude.

(** ** Widths *)
Definition u8_max : Z := 2 ^ 8 - 1.
Definition u16_max : Z := 2 ^ 16 - 1.
Definition u32_max : Z := 2 ^ 32 - 1.
Definition u64_max : Z := 2 ^ 64 - 1.
Definition u128_max : Z := 2 ^ 128 - 1.
Definition i128_min : Z := - 2 ^ 127.
Definition i128_max : Z := 2 ^ 127 - 1.

Definition is_u8 (x : Z) : Prop := 0 <= x <= u8_max.
Definition is_u64 (x : Z) : Prop := 0 <= x <= u64_max.
#[export] Instance is_u64_dec x : Decision (is_u64 x).
Proof. unfold is_u64. apply _. Defined.

(** ** Checked and saturating arithmetic *)
Definition checked_add_w (max x y : Z) : option Z :=
  if x + y <=? max then Some (x + y) else None.
Definition u64_checked_add := checked_add_w u64_max.
Definition u128_checked_add := checked_add_w u128_max.
Definition u64_checked_sub (x y : Z) : option Z :=
  if y <=? x then Some (x - y) else None.
Definition u64_checked_mul (x y : Z) : option Z :=
  if x * y <=? u64_max then Some (x * y) else None.
Definition u64_saturating_sub (x y : Z) : Z := Z.max 0 (x - y).
Definition u64_saturating_add (x y : Z) : Z := Z.min u64_max (x + y).
Definition u16_saturating_add (x y : Z) : Z := Z.min u16_max (x + y).
Definition u8_saturating_add (x y : Z) : Z := Z.min u8_max (x + y).
Definition u32_saturating_add (x y : Z) : Z := Z.min u32_max (x + y).
Definition u32_saturating_sub (x y : Z) : Z := Z.max 0 (x - y).
Definition i128_checked_add (x y : Z) : option Z :=
  if (i128_min <=? x + y) && (x + y <=? i128_max) then Some (x + y) else None.
Definition i128_checked_abs (x : Z) : option Z :=
  if Z.abs x <=? i128_max then Some (Z.abs x) else None.
(** [u8::try_from] of a [usize]. *)
Definition u8_try_from (n : nat) : option Z :=
  if Z.of_nat n <=? u8_max then Some (Z.of_nat n) else None.
(** [u8::try_from(n).unwrap_or(u8::MAX)]. *)
Definition u8_or_max (n : nat) : Z := if Z.of_nat n <=? u8_max then Z.of_nat n else u8_max.
(** [u64::try_from] of a signed value. *)
Definition u64_try_from (x : Z) : option Z :=
  if (0 <=? x) && (x <=? u64_max) then Some x else None.
(** [usize as u8] truncates. *)
Definition as_u8 (x : Z) : Z := x mod 256.
Definition as_u32 (x : Z) : Z := x mod 2 ^ 32.
Definition as_u64 (x : Z) : Z := x mod 2 ^ 64.
(** A plain [-] on an unsigned type panics below zero. *)
Definition u64_sub {E} (x y : Z) : result E Z :=
  if y <=? x then Ok (x - y) else Panic.

Lemma checked_add_w_Some max x y z : checked_add_w max x y = Some z ↔ z = x + y ∧ x + y <= max.
Proof. unfold checked_add_w. case_match eqn:H; bool_props; naive_solver lia. Qed.

Lemma u64_checked_add_ok x y : x + y <= u64_max → u64_checked_add x y = Some (x + y).
Proof. intros. by apply checked_add_w_Some. Qed.

Lemma u64_checked_sub_ok x y : y <= x → u64_checked_sub x y = Some (x - y).
Proof. intros. unfold u64_checked_sub. case_match; bool_props; [done|lia]. Qed.

Lemma u64_checked_mul_ok x y : x * y <= u64_max → u64_checked_mul x y = Some (x * y).
Proof. intros. unfold u64_checked_mul. case_match; bool_props; [done|lia]. Qed.

(** ** Big-endian bytes *)
Fixpoint be_bytes (n : nat) (v : Z) : list Z :=
  match n with
  | O => []
  | S n' => (v / 256 ^ Z.of_nat n') mod 256 :: be_bytes n' v
  end.
Fixpoint be_value (acc : Z) (l : list Z) : Z :=
  match l with
  | [] => acc
  | b :: l => be_value (acc * 256 + b) l
  end.


Definition is_byte (b : Z) : Prop := 0 <= b < 256.

Lemma length_be_bytes n v : length (be_bytes n v) = n.
Proof. induction n; simpl; congruence. Qed.

Lemma be_bytes_are_bytes n v : Forall is_byte (be_bytes n v).
Proof.
  induction n as [|n IH]; simpl; constructor; [|done].
  apply Z.mod_pos_bound. lia.
Qed.

Lemma be_value_bytes n v acc : 0 <= v →
  be_value acc (be_bytes n v) = acc * 256 ^ Z.of_nat n + v mod 256 ^ Z.of_nat n.
Proof.
  intros Hv. revert acc. induction n as [|n IH]; intros acc; cbn [be_bytes be_value].
  - change (256 ^ Z.of_nat 0) with 1. rewrite Z.mod_1_r. lia.
  - rewrite IH. set (p := 256 ^ Z.of_nat n).
    assert (0 < p) by (apply Z.pow_pos_nonneg; lia).
    replace (256 ^ Z.of_nat (S n)) with (p * 256)
      by (rewrite Nat2Z.inj_succ, Z.pow_succ_r by lia; unfold p; lia).
    rewrite (Z.rem_mul_r v p 256) by lia. nia.
Qed.

(** Decoding the big-endian bytes of an in-range value gives the value. *)
Lemma be_bytes_roundtrip n v : 0 <= v < 256 ^ Z.of_nat n → be_value 0 (be_bytes n v) = v.
Proof. intros. rewrite be_value_bytes by lia. rewrite Z.mod_small; lia. Qed.

Lemma be_bytes_inj n v w :
  0 <= v < 256 ^ Z.of_nat n → 0 <= w < 256 ^ Z.of_nat n → be_bytes n v = be_bytes n w → v = w.
Proof. intros Hv Hw H. rewrite <-(be_bytes_roundtrip n v), <-(be_bytes_roundtrip n w), H; done. Qed.

(** ** Strings *)
Definition ascii_byte (a : Ascii.ascii) : Z := Z.of_N (Ascii.N_of_ascii a).
Fixpoint string_bytes (s : string) : list Z :=
  match s with
  | EmptyString => []
  | String a s => ascii_byte a :: string_bytes s
  end.
(** A domain separator [b"...\0"]. *)
Definition domain_bytes (s : string) : list Z := string_bytes s ++ [0].

Lemma ascii_byte_inj a b : ascii_byte a = ascii_byte b → a = b.
Proof.
  unfold ascii_byte. intros H%N2Z.inj.
  rewrite <-(Ascii.ascii_N_embedding a), <-(Ascii.ascii_N_embedding b). by rewrite H.
Qed.

Lemma string_bytes_inj s t : string_bytes s = string_bytes t → s = t.
Proof.
  revert t; induction s as [|a s IH]; intros [|b t]; simpl; try done.
  intros [= Ha%ascii_byte_inj Hs%IH]. by subst.
Qed.

(** [s.trim().is_empty()]: every character of the UTF-8 string has the
    Unicode [White_Space] property. *)
Fixpoint blank_bytes (l : list Z) : bool :=
  match l with
  | [] => true
  | a :: l1 =>
      if ((9 <=? a) && (a <=? 13)) || (a =? 32) then blank_bytes l1
      else match l1 with
      | b :: l2 =>
          if (a =? 194) && ((b =? 133) || (b =? 160)) then blank_bytes l2
          else match l2 with
          | c :: l3 =>
              if ((a =? 225) && (b =? 154) && (c =? 128))
                 || ((a =? 226) && (b =? 128)
                     && (((128 <=? c) && (c <=? 138)) || (c =? 168) || (c =? 169) || (c =? 175)))
                 || ((a =? 226) && (b =? 129) && (c =? 159))
                 || ((a =? 227) && (b =? 128) && (c =? 128))
              then blank_bytes l3 else false
          | [] => false
          end
      | [] => false
      end
  end.
Definition trim_is_empty (s : string) : bool := blank_bytes (string_bytes s).

Definition string_len (s : string) : Z := Z.of_nat (String.length s).
