(* ===== verification/Encoding.v ===== *)
(** * Encoding: canonical byte strings

    The documents the peers sign are hashed over hand-written canonical byte
    strings.  An encoder is prefix-injective when the encoded value can be
    read back off the front of any longer byte string; prefix-injective
    encoders compose, so every document encoder of the program is proved
    injective from the encoders of its fields. *)

From S2P Require Import Prelude Machine.

(** [enc] is injective on the values that satisfy [P], even when followed by
    other bytes. *)
Definition prefix_inj {A} (P : A → Prop) (enc : A → list Z) : Prop :=
  ∀ x y r s, P x → P y → enc x ++ r = enc y ++ s → x = y ∧ r = s.

(** Fixed-length encoders are prefix-injective as soon as they are injective. *)
Lemma prefix_inj_fixed {A} (P : A → Prop) (enc : A → list Z) (n : nat) :
  (∀ x, P x → length (enc x) = n) →
  (∀ x y, P x → P y → enc x = enc y → x = y) →
  prefix_inj P enc.
Proof.
  intros Hlen Hinj x y r s Hx Hy H.
  apply app_inj_1 in H as [He Hr]; [|rewrite !Hlen; done]. split; [by apply Hinj|done].
Qed.

(** A byte array of a fixed length. *)
Definition bytes_of_len (n : nat) (l : list Z) : Prop := length l = n.

Lemma prefix_inj_array n : prefix_inj (bytes_of_len n) (λ l, l).
Proof. apply (prefix_inj_fixed _ _ n); done. Qed.

Lemma prefix_inj_be n : prefix_inj (λ v, 0 <= v < 256 ^ Z.of_nat n) (be_bytes n).
Proof. apply (prefix_inj_fixed _ _ n); intros; [apply length_be_bytes|by eapply be_bytes_inj]. Qed.

Lemma prefix_inj_u64 : prefix_inj is_u64 (be_bytes 8).
Proof. intros x y r s Hx Hy. apply (prefix_inj_be 8); unfold is_u64, u64_max in *; lia. Qed.

Lemma prefix_inj_u32 : prefix_inj (λ v, 0 <= v <= u32_max) (be_bytes 4).
Proof. intros x y r s Hx Hy. apply (prefix_inj_be 4); unfold u32_max in *; lia. Qed.

(** A single byte pushed as such. *)
Lemma prefix_inj_byte {A} (P : A → Prop) (f : A → Z) :
  (∀ x y, P x → P y → f x = f y → x = y) → prefix_inj P (λ x, [f x]).
Proof. intros H x y r s Hx Hy [= Hf ->]. eauto. Qed.

Lemma prefix_inj_u8 : prefix_inj (λ _, True) (λ x : Z, [x]).
Proof. by apply prefix_inj_byte. Qed.

(** A small count cast to a byte. *)
Lemma prefix_inj_small_nat : prefix_inj (λ n, 0 <= n < 256) (λ n, [as_u8 n]).
Proof.
  apply prefix_inj_byte. intros x y Hx Hy. unfold as_u8. by rewrite !Z.mod_small by lia.
Qed.

(** Two fields in a row. *)
Lemma prefix_inj_app {A} (P : A → Prop) {B C} (f : A → B) (g : A → C)
    (PB : B → Prop) (PC : C → Prop) (eB : B → list Z) (eC : C → list Z) :
  (∀ x, P x → PB (f x)) → (∀ x, P x → PC (g x)) →
  (∀ x y, P x → P y → f x = f y → g x = g y → x = y) →
  prefix_inj PB eB → prefix_inj PC eC →
  prefix_inj P (λ x, eB (f x) ++ eC (g x)).
Proof.
  intros HB HC Hinj HeB HeC x y r s Hx Hy. rewrite <-!(assoc_L (++)). intros H.
  apply HeB in H as [Hf H]; [|by auto..]. apply HeC in H as [Hg ->]; [|by auto..]. eauto.
Qed.

(** Elements one after another, for two lists of the same length. *)
Definition enc_list {A} (enc : A → list Z) (l : list A) : list Z := flat_map enc l.

Lemma prefix_inj_list {A} (P : A → Prop) (enc : A → list Z) (l k : list A) (r s : list Z) :
  prefix_inj P enc → length l = length k → Forall P l → Forall P k →
  enc_list enc l ++ r = enc_list enc k ++ s → l = k ∧ r = s.
Proof.
  intros He Hlen Hl Hk. revert k Hlen Hk. induction Hl as [|x l Hx Hl IH]; intros [|y k] Hlen Hk H;
    simplify_eq/=; [done|]. rewrite <-!(assoc_L (++)) in H.
  apply Forall_cons in Hk as [Hy Hk].
  apply He in H as [-> H]; [|done..]. apply IH in H as [-> ->]; done.
Qed.

(** Elements one after another up to the end of the input: the number of
    elements is determined as well. *)
Lemma prefix_inj_stream {A} (P : A → Prop) (enc : A → list Z) (l k : list A) :
  prefix_inj P enc → (∀ x, P x → enc x ≠ []) → Forall P l → Forall P k →
  flat_map enc l = flat_map enc k → l = k.
Proof.
  intros He Hne Hl. revert k. induction Hl as [|x l Hx Hl IH]; intros k Hk Hb.
  - destruct Hk as [|y k Hy _]; [done|]. simpl in Hb. symmetry in Hb. apply app_eq_nil in Hb as [Hy' _].
    by apply Hne in Hy'.
  - destruct Hk as [|y k Hy Hk]; simpl in Hb.
    + apply app_eq_nil in Hb as [Hx' _]. by apply Hne in Hx'.
    + apply He in Hb as [-> Hb]; [|done..]. f_equal. by apply IH.
Qed.

(** The elements one after another by what each is written as: equal bytes
    give equal views. *)
Lemma flat_map_view_inj {A B} (P : B → Prop) (enc : B → list Z) (view : A → B) (l k : list A)
    (r s : list Z) :
  prefix_inj P enc → (∀ x, x ∈ l ∨ x ∈ k → P (view x)) → length l = length k →
  flat_map (λ x, enc (view x)) l ++ r = flat_map (λ x, enc (view x)) k ++ s →
  map view l = map view k ∧ r = s.
Proof.
  intros He HP Hlen Hb.
  assert (∀ l', flat_map (λ x, enc (view x)) l' = enc_list enc (map view l')) as Hm
    by (intros l'; induction l' as [|x l' IH]; simpl; [done|by rewrite IH]).
  rewrite !Hm in Hb.
  eapply prefix_inj_list in Hb; [done|done|by rewrite !length_map|..];
    apply Forall_map, Forall_forall; auto.
Qed.

(** A count, then the elements. *)
Definition enc_counted {A} (count : Z → list Z) (enc : A → list Z) (l : list A) : list Z :=
  count (Z.of_nat (length l)) ++ enc_list enc l.

Lemma prefix_inj_counted {A} (Pn : Z → Prop) (P : A → Prop) count (enc : A → list Z) :
  prefix_inj Pn count → prefix_inj P enc →
  prefix_inj (λ l, Pn (Z.of_nat (length l)) ∧ Forall P l) (enc_counted count enc).
Proof.
  intros Hc He x y r s [Hnx Hx] [Hny Hy] H. unfold enc_counted in H.
  rewrite <-!(assoc_L (++)) in H. apply Hc in H as [Hn H]; [|done..].
  eapply prefix_inj_list in H; [done..| |done|done]. lia.
Qed.

(** An optional value: a tag byte, then the value when there is one. *)
Definition enc_option {A} (enc : A → list Z) (o : option A) : list Z :=
  match o with Some x => 1 :: enc x | None => [0] end.

Lemma prefix_inj_option {A} (P : A → Prop) (enc : A → list Z) :
  prefix_inj P enc → prefix_inj (λ o, ∀ x, o = Some x → P x) (enc_option enc).
Proof.
  intros He [x|] [y|] r s Hx Hy H; simplify_eq/=; [|done].
  apply He in H as [-> ->]; eauto.
Qed.

(** ** Length-prefixed byte strings *)

(** [write_bytes] (protocol_encoding.rs), [append_bytes] (receipt.rs): the
    length as a big-endian u32, then the bytes. *)
Definition write_bytes (value : list Z) : list Z :=
  be_bytes 4 (as_u32 (Z.of_nat (length value))) ++ value.

Definition short (l : list Z) : Prop := Z.of_nat (length l) <= u32_max.

Lemma prefix_inj_write_bytes : prefix_inj short write_bytes.
Proof.
  intros x y r s Hx Hy H. unfold write_bytes, short, as_u32, u32_max in *.
  rewrite <-!(assoc_L (++)) in H. rewrite !Z.mod_small in H by lia.
  apply prefix_inj_u32 in H as [Hn H]; [|unfold u32_max; lia..].
  apply app_inj_1 in H; [done|lia].
Qed.

(** The length of a list of documents, as a u32. *)
Lemma prefix_inj_count_u32 :
  prefix_inj (λ n, 0 <= n <= u32_max) (λ n, be_bytes 4 (as_u32 n)).
Proof.
  intros x y r s Hx Hy H. unfold as_u32, u32_max in *. rewrite !Z.mod_small in H by lia.
  by apply prefix_inj_u32 in H; [|unfold u32_max; lia..].
Qed.

(** [append_bytes] of holdem.rs uses a u64 length. *)
Definition append_bytes_u64 (value : list Z) : list Z :=
  be_bytes 8 (as_u64 (Z.of_nat (length value))) ++ value.

Lemma prefix_inj_append_bytes_u64 :
  prefix_inj (λ l, Z.of_nat (length l) <= u64_max) append_bytes_u64.
Proof.
  intros x y r s Hx Hy H. unfold append_bytes_u64, as_u64, u64_max in *.
  rewrite <-!(assoc_L (++)) in H. rewrite !Z.mod_small in H by lia.
  apply prefix_inj_u64 in H as [Hn H]; [|unfold is_u64, u64_max; lia..].
  apply app_inj_1 in H; [done|lia].
Qed.

(** A whole document: injective as such. *)
Lemma prefix_inj_inj {A} (P : A → Prop) (enc : A → list Z) (x y : A) :
  prefix_inj P enc → P x → P y → enc x = enc y → x = y.
Proof. intros He Hx Hy H. apply (He x y [] []); rewrite ?(right_id_L [] (++)); done. Qed.

(** Read one field off the front of two equal byte strings. *)
Ltac peel H lem :=
  apply lem in H; [let E := fresh "E" in destruct H as [E H]|try done..].
