(* ===== verification/Order.v ===== *)
(** * Order: comparison, sorting and ordered iteration

    [Ord] stands for Rust's derived [Ord]: a three-way comparison.  Structs and
    arrays compare lexicographically.  [sort_by_key] is the stable sort;
    [btree_iter] is the iteration order of a [BTreeSet] kept as a [gset]. *)

From S2P Require Import Prelude Machine.

Class Ord (A : Type) := compare : A → A → comparison.

Class OrdLaws (A : Type) `{Ord A} : Prop := {
  compare_eq : ∀ x y : A, compare x y = Eq ↔ x = y;
  compare_opp : ∀ x y : A, compare y x = CompOpp (compare x y);
  compare_lt_trans : ∀ x y z : A, compare x y = Lt → compare y z = Lt → compare x z = Lt;
}.

Definition ord_leb `{Ord A} (x y : A) : bool :=
  match compare x y with Gt => false | _ => true end.
Definition ord_ltb `{Ord A} (x y : A) : bool :=
  match compare x y with Lt => true | _ => false end.
(** [Ord::max] returns the second argument when the two are equal. *)
Definition ord_max `{Ord A} (x y : A) : A := if ord_leb x y then y else x.
(** [Ordering::then_with]. *)
Definition then_with (c d : comparison) : comparison :=
  match c with Eq => d | _ => c end.

(** ** Instances *)
#[export] Instance Z_ord : Ord Z := Z.compare.
#[export] Instance pair_ord `{Ord A, Ord B} : Ord (A * B) :=
  λ p q, then_with (compare p.1 q.1) (compare p.2 q.2).
Fixpoint list_compare `{Ord A} (l k : list A) : comparison :=
  match l, k with
  | [], [] => Eq
  | [], _ :: _ => Lt
  | _ :: _, [] => Gt
  | x :: l, y :: k => then_with (compare x y) (list_compare l k)
  end.
#[export] Instance list_ord `{Ord A} : Ord (list A) := list_compare.

#[export] Instance Z_ord_laws : OrdLaws Z.
Proof.
  split; unfold compare, Z_ord.
  - apply Z.compare_eq_iff.
  - intros. apply Z.compare_antisym.
  - intros x y z. rewrite !Z.compare_lt_iff. lia.
Qed.

#[export] Instance pair_ord_laws `{OrdLaws A, OrdLaws B} : OrdLaws (A * B).
Proof.
  split; unfold compare, pair_ord.
  - intros [a b] [c d]; simpl. destruct (compare a c) eqn:Hac; simpl.
    + apply compare_eq in Hac as ->. rewrite compare_eq. naive_solver.
    + split; [done|]. intros [= -> ->]. by rewrite (proj2 (compare_eq c c) eq_refl) in Hac.
    + split; [done|]. intros [= -> ->]. by rewrite (proj2 (compare_eq c c) eq_refl) in Hac.
  - intros [a b] [c d]; simpl. rewrite (compare_opp a c), (compare_opp b d).
    by destruct (compare a c).
  - intros [a b] [c d] [e f]; simpl.
    destruct (compare a c) eqn:Hac, (compare c e) eqn:Hce; simpl; try done.
    + apply compare_eq in Hac as ->. apply compare_eq in Hce as ->.
      rewrite (proj2 (compare_eq e e) eq_refl). simpl. apply compare_lt_trans.
    + apply compare_eq in Hac as ->. by rewrite Hce.
    + apply compare_eq in Hce as ->. by rewrite Hac.
    + by rewrite (compare_lt_trans a c e).
Qed.

#[export] Instance list_ord_laws `{OrdLaws A} : OrdLaws (list A).
Proof.
  split; unfold compare, list_ord.
  - induction x as [|a l IH]; intros [|b k]; simpl; try done.
    destruct (compare a b) eqn:Hab; simpl.
    + apply compare_eq in Hab as ->. rewrite IH. naive_solver.
    + split; [done|]. intros [= -> ->]. by rewrite (proj2 (compare_eq b b) eq_refl) in Hab.
    + split; [done|]. intros [= -> ->]. by rewrite (proj2 (compare_eq b b) eq_refl) in Hab.
  - induction x as [|a l IH]; intros [|b k]; simpl; try done.
    rewrite (compare_opp a b), (IH k). by destruct (compare a b).
  - induction x as [|a l IH]; intros [|b k] [|c m]; simpl; try done.
    destruct (compare a b) eqn:Hab, (compare b c) eqn:Hbc; simpl; try done.
    + apply compare_eq in Hab as ->. apply compare_eq in Hbc as ->.
      rewrite (proj2 (compare_eq c c) eq_refl). simpl. apply IH.
    + apply compare_eq in Hab as ->. by rewrite Hbc.
    + apply compare_eq in Hbc as ->. by rewrite Hab.
    + by rewrite (compare_lt_trans a b c).
Qed.

(** A newtype ordered through an injective projection. *)
Lemma ord_laws_inj {A B} `{Ord A} `{OrdLaws B} (f : A → B) :
  (∀ x y, f x = f y → x = y) → (∀ x y : A, compare x y = compare (f x) (f y)) → OrdLaws A.
Proof.
  intros Hinj Hc. split; setoid_rewrite Hc.
  - intros x y. rewrite compare_eq. split; [apply Hinj|congruence].
  - intros. apply compare_opp.
  - intros x y z. apply compare_lt_trans.
Qed.

(** ** Total order facts *)
Section order.
Context `{OrdLaws A}.
Implicit Types x y z : A.

Lemma compare_refl x : compare x x = Eq.
Proof. by apply compare_eq. Qed.
Lemma compare_gt x y : compare x y = Gt ↔ compare y x = Lt.
Proof. rewrite (compare_opp x y). by destruct (compare x y). Qed.
Lemma ord_leb_refl x : ord_leb x x = true.
Proof. unfold ord_leb. by rewrite compare_refl. Qed.
Lemma ord_leb_total x y : ord_leb x y = true ∨ ord_leb y x = true.
Proof. unfold ord_leb. rewrite (compare_opp x y). destruct (compare x y); auto. Qed.
Lemma ord_leb_antisym x y : ord_leb x y = true → ord_leb y x = true → x = y.
Proof.
  unfold ord_leb. rewrite (compare_opp x y). destruct (compare x y) eqn:E; simpl; try done.
  intros. by apply compare_eq.
Qed.
Lemma ord_leb_trans x y z : ord_leb x y = true → ord_leb y z = true → ord_leb x z = true.
Proof.
  unfold ord_leb. destruct (compare x y) eqn:E, (compare y z) eqn:F; try done; intros _ _.
  - apply compare_eq in E as ->. by rewrite F.
  - apply compare_eq in E as ->. by rewrite F.
  - apply compare_eq in F as ->. by rewrite E.
  - by rewrite (compare_lt_trans x y z).
Qed.
Lemma ord_ltb_lt x y : ord_ltb x y = true ↔ compare x y = Lt.
Proof. unfold ord_ltb. by destruct (compare x y). Qed.
Lemma ord_ltb_leb x y : ord_ltb x y = true → ord_leb x y = true.
Proof. unfold ord_ltb, ord_leb. by destruct (compare x y). Qed.
Lemma ord_ltb_irrefl x : ord_ltb x x = false.
Proof. unfold ord_ltb. by rewrite compare_refl. Qed.
Lemma ord_ltb_ne x y : ord_ltb x y = true → x ≠ y.
Proof. intros Hlt ->. by rewrite ord_ltb_irrefl in Hlt. Qed.
Lemma ord_ltb_not_leb x y : ord_ltb x y = negb (ord_leb y x).
Proof. unfold ord_ltb, ord_leb. rewrite (compare_opp x y). by destruct (compare x y). Qed.
Lemma ord_leb_neq_ltb x y : ord_leb x y = true → x ≠ y → ord_ltb x y = true.
Proof.
  unfold ord_leb, ord_ltb. destruct (compare x y) eqn:E; try done.
  intros _ []. by apply compare_eq.
Qed.
Lemma ord_max_spec x y :
  ord_leb x (ord_max x y) = true ∧ ord_leb y (ord_max x y) = true
  ∧ (ord_max x y = x ∨ ord_max x y = y).
Proof.
  unfold ord_max. destruct (ord_leb x y) eqn:E.
  - auto using ord_leb_refl.
  - destruct (ord_leb_total x y); [congruence|]. auto using ord_leb_refl.
Qed.
End order.

(** ** The stable sort *)
Section sort.
Context {A K : Type} `{OrdLaws K} (key : A → K).
Implicit Types (l k : list A).

Definition key_le (x y : A) : Prop := ord_leb (key x) (key y) = true.
Definition key_lt (x y : A) : Prop := ord_ltb (key x) (key y) = true.

Fixpoint insert_by_key (x : A) l : list A :=
  match l with
  | [] => [x]
  | y :: l' => if ord_leb (key x) (key y) then x :: l else y :: insert_by_key x l'
  end.
Fixpoint sort_by_key l : list A :=
  match l with
  | [] => []
  | x :: l => insert_by_key x (sort_by_key l)
  end.

Lemma insert_by_key_perm x l : insert_by_key x l ≡ₚ x :: l.
Proof.
  induction l as [|y l IH]; simpl; [done|]. case_match; [done|].
  rewrite IH. apply Permutation_swap.
Qed.
Lemma sort_by_key_perm l : sort_by_key l ≡ₚ l.
Proof. induction l as [|x l IH]; simpl; [done|]. by rewrite insert_by_key_perm, IH. Qed.

Lemma insert_by_key_sorted x l :
  StronglySorted key_le l → StronglySorted key_le (insert_by_key x l).
Proof.
  induction 1 as [|y l Hl IH Hy]; simpl; [by repeat constructor|].
  destruct (ord_leb (key x) (key y)) eqn:E.
  - constructor; [by constructor|]. constructor; [done|].
    rewrite Forall_forall in Hy |- *. intros z Hz. eapply ord_leb_trans; [exact E|by apply Hy].
  - constructor; [done|]. rewrite insert_by_key_perm. constructor; [|done].
    destruct (ord_leb_total (key x) (key y)); [congruence|done].
Qed.
Lemma sort_by_key_sorted l : StronglySorted key_le (sort_by_key l).
Proof. induction l; simpl; [constructor|by apply insert_by_key_sorted]. Qed.

Lemma sort_by_key_id l : StronglySorted key_le l → sort_by_key l = l.
Proof.
  induction 1 as [|x l Hl IH Hx]; simpl; [done|]. rewrite IH.
  destruct l as [|y l]; simpl; [done|]. apply Forall_cons in Hx as [Hxy _].
  unfold key_le in Hxy. by rewrite Hxy.
Qed.

(** Sorted lists with distinct keys are determined by their elements. *)
Lemma sorted_perm_eq l k :
  NoDup (map key l) → StronglySorted key_le l → StronglySorted key_le k → l ≡ₚ k → l = k.
Proof.
  intros Hnd Hl. revert k Hnd. induction Hl as [|x l Hl IH Hx]; intros k Hnd Hk Hp.
  - symmetry in Hp. by apply Permutation_nil_r in Hp.
  - destruct k as [|y k]; [symmetry in Hp; by apply Permutation_nil_l in Hp|].
    assert (x = y) as ->.
    { assert (x ∈ y :: k) as Hxk by (rewrite <-Hp; left).
      assert (y ∈ x :: l) as Hyl by (rewrite Hp; left).
      apply elem_of_cons in Hxk as [?|Hxk]; [done|].
      apply elem_of_cons in Hyl as [?|Hyl]; [done|].
      inversion Hk as [|?? _ Hyk]; subst. rewrite Forall_forall in Hx, Hyk.
      eapply (NoDup_key_eq key (x :: l)); [done|left|by right|].
      apply ord_leb_antisym; [by apply Hx|by apply Hyk]. }
    f_equal. apply IH.
    + by apply NoDup_cons in Hnd as [_ ?].
    + by inversion Hk.
    + by apply Permutation_cons_inv in Hp.
Qed.

(** The sorted list does not depend on the input order when keys are distinct. *)
Lemma sort_by_key_perm_eq l k : NoDup (map key l) → l ≡ₚ k → sort_by_key l = sort_by_key k.
Proof.
  intros Hnd Hp. apply sorted_perm_eq; try apply sort_by_key_sorted.
  - assert (map key (sort_by_key l) ≡ₚ map key l) as E by (apply fmap_Permutation, sort_by_key_perm).
    by rewrite E.
  - by rewrite !sort_by_key_perm.
Qed.

Lemma elem_of_sort_by_key x l : x ∈ sort_by_key l ↔ x ∈ l.
Proof. by rewrite sort_by_key_perm. Qed.
Lemma length_sort_by_key l : length (sort_by_key l) = length l.
Proof. by rewrite sort_by_key_perm. Qed.

(** Consecutive comparison, as [windows(2).all(...)] tests it, is sortedness. *)
Fixpoint windows_all (p : A → A → bool) l : bool :=
  match l with
  | x :: ((y :: _) as l') => p x y && windows_all p l'
  | _ => true
  end.

Lemma windows_lt_sorted l :
  windows_all (λ x y, ord_ltb (key x) (key y)) l = true ↔ StronglySorted key_lt l.
Proof.
  induction l as [|x [|y l] IH]; simpl in *; [by split; [constructor|]|by split; [repeat constructor|]|].
  rewrite andb_true_iff, IH. split.
  - intros [Hxy Hs]. constructor; [done|]. constructor; [done|].
    inversion Hs as [|?? _ Hy]; subst. rewrite Forall_forall in Hy |- *.
    intros z Hz. apply Hy in Hz. unfold key_lt in *. rewrite ord_ltb_lt in *.
    by eapply compare_lt_trans.
  - inversion 1 as [|?? Hs Hx]; subst. split; [by apply Forall_cons in Hx as [? _]|done].
Qed.

Lemma sorted_lt_le l : StronglySorted key_lt l → StronglySorted key_le l.
Proof.
  induction 1 as [|x l Hl IH Hx]; constructor; [done|].
  eapply Forall_impl; [exact Hx|]. intros y. apply ord_ltb_leb.
Qed.
Lemma sorted_lt_NoDup l : StronglySorted key_lt l → NoDup (map key l).
Proof.
  induction 1 as [|x l Hl IH Hx]; simpl; constructor; [|done].
  intros (y & Hk & Hy)%list_elem_of_fmap_1. rewrite Forall_forall in Hx.
  apply Hx in Hy. unfold key_lt in Hy. by rewrite Hk, ord_ltb_irrefl in Hy.
Qed.
Lemma sorted_le_lt l : NoDup (map key l) → StronglySorted key_le l → StronglySorted key_lt l.
Proof.
  intros Hnd Hs. induction Hs as [|x l Hl IH Hx]; constructor.
  - apply IH. by apply NoDup_cons in Hnd as [_ ?].
  - apply NoDup_cons in Hnd as [Hnx _]. rewrite Forall_forall in Hx |- *.
    intros y Hy. apply ord_leb_neq_ltb; [by apply Hx|].
    intros Hk. apply Hnx. rewrite Hk. by apply (list_elem_of_fmap_2 key).
Qed.
End sort.
Arguments windows_all {A} p l.

(** Sorting values by themselves is a function of the multiset. *)
Definition sort `{Ord A} (l : list A) : list A := sort_by_key (λ x, x) l.

Lemma sorted_unique `{OrdLaws A} (l k : list A) :
  StronglySorted (key_le (λ x, x)) l → StronglySorted (key_le (λ x, x)) k → l ≡ₚ k → l = k.
Proof.
  intros Hl. revert k. induction Hl as [|x l Hl IH Hx]; intros k Hk Hp.
  - symmetry in Hp. by apply Permutation_nil_r in Hp.
  - destruct k as [|y k]; [symmetry in Hp; by apply Permutation_nil_l in Hp|].
    assert (x = y) as ->.
    { inversion Hk as [|?? _ Hyk]; subst. rewrite Forall_forall in Hx, Hyk.
      assert (x ∈ y :: k) as Hxk by (rewrite <-Hp; left).
      assert (y ∈ x :: l) as Hyl by (rewrite Hp; left).
      apply elem_of_cons in Hxk as [?|Hxk]; [done|].
      apply elem_of_cons in Hyl as [?|Hyl]; [done|].
      apply ord_leb_antisym; [by apply Hx|by apply Hyk]. }
    f_equal. apply IH; [by inversion Hk|by apply Permutation_cons_inv in Hp].
Qed.

Lemma sort_perm_eq `{OrdLaws A} (l k : list A) : l ≡ₚ k → sort l = sort k.
Proof.
  intros Hp. apply sorted_unique; try apply sort_by_key_sorted.
  unfold sort. by rewrite !sort_by_key_perm.
Qed.

#[export] Instance sort_proper `{OrdLaws A} : Proper ((≡ₚ) ==> (=)) (sort (A:=A)).
Proof. intros l k. apply sort_perm_eq. Qed.

(** ** [BTreeSet] iteration: increasing order *)
Definition btree_iter `{Countable A, Ord A} (s : gset A) : list A := sort (elements s).

Section btree.
Context `{Countable A, OA : Ord A, !OrdLaws A}.
Implicit Types s : gset A.

Lemma elem_of_btree_iter s x : x ∈ btree_iter s ↔ x ∈ s.
Proof. unfold btree_iter, sort. by rewrite elem_of_sort_by_key, elem_of_elements. Qed.
Lemma NoDup_btree_iter s : NoDup (btree_iter s).
Proof. unfold btree_iter, sort. rewrite sort_by_key_perm. apply NoDup_elements. Qed.
Lemma btree_iter_sorted s : StronglySorted (key_lt (λ x, x)) (btree_iter s).
Proof.
  apply sorted_le_lt; [|apply sort_by_key_sorted].
  rewrite list_fmap_id. apply NoDup_btree_iter.
Qed.
Lemma length_btree_iter s : length (btree_iter s) = size s.
Proof. unfold btree_iter, sort. by rewrite length_sort_by_key. Qed.
Lemma btree_iter_inj s t : btree_iter s = btree_iter t → s = t.
Proof.
  intros Hst. apply set_eq. intros x. by rewrite <-!elem_of_btree_iter, Hst.
Qed.
End btree.

(** ** Iterating a [BTreeMap]: keys in increasing order *)
Definition btree_entries `{Countable K, Ord K} {A} (m : gmap K A) : list (K * A) :=
  sort_by_key fst (map_to_list m).
Definition btree_values `{Countable K, Ord K} {A} (m : gmap K A) : list A :=
  map snd (btree_entries m).

Section btree_map.
Context `{Countable K, OrdLaws K} {A : Type}.
Implicit Types m : gmap K A.

Lemma elem_of_btree_entries m k x : (k, x) ∈ btree_entries m ↔ m !! k = Some x.
Proof. unfold btree_entries. by rewrite elem_of_sort_by_key, elem_of_map_to_list. Qed.
Lemma elem_of_btree_values m x : x ∈ btree_values m ↔ ∃ k, m !! k = Some x.
Proof.
  unfold btree_values. rewrite list_elem_of_fmap. split.
  - intros ([k y] & -> & Hk). exists k. by apply elem_of_btree_entries.
  - intros [k Hk]. exists (k, x). split; [done|]. by apply elem_of_btree_entries.
Qed.
Lemma btree_entries_perm m : btree_entries m ≡ₚ map_to_list m.
Proof. apply sort_by_key_perm. Qed.
Lemma NoDup_btree_keys m : NoDup (map fst (btree_entries m)).
Proof.
  unfold btree_entries. rewrite (Permutation_map fst (sort_by_key_perm fst (map_to_list m))).
  apply NoDup_fst_map_to_list.
Qed.
Lemma length_btree_values m : length (btree_values m) = size m.
Proof.
  unfold btree_values, btree_entries. rewrite length_map, length_sort_by_key.
  apply length_map_to_list.
Qed.
Lemma btree_entries_sorted m : StronglySorted (key_lt fst) (btree_entries m).
Proof. apply sorted_le_lt; [apply NoDup_btree_keys|apply sort_by_key_sorted]. Qed.
End btree_map.

(** ** [Iterator::min_by] and [max]: first minimum, a maximum *)
Definition min_by {A} (cmp : A → A → comparison) (l : list A) : option A :=
  match l with
  | [] => None
  | x :: l => Some (fold_left (λ best y, match cmp best y with Gt => y | _ => best end) l x)
  end.
Definition iter_max `{Ord A} (l : list A) : option A :=
  match l with
  | [] => None
  | x :: l => Some (fold_left ord_max l x)
  end.

Lemma fold_ord_max_spec `{OrdLaws A} (l : list A) (x : A) :
  ord_leb x (fold_left ord_max l x) = true
  ∧ (∀ y, y ∈ l → ord_leb y (fold_left ord_max l x) = true)
  ∧ (fold_left ord_max l x = x ∨ fold_left ord_max l x ∈ l).
Proof.
  revert x; induction l as [|y l IH]; intros x; simpl.
  - split; [apply ord_leb_refl|]. split; [set_solver|auto].
  - destruct (IH (ord_max x y)) as (Hx & Hl & Hin). pose proof (ord_max_spec x y) as (Hm1 & Hm2 & Hm3).
    split; [by eapply ord_leb_trans|]. split.
    + intros z [->|Hz]%elem_of_cons; [by eapply ord_leb_trans|by apply Hl].
    + destruct Hin as [Hin|Hin]; [|right; by right].
      rewrite Hin. destruct Hm3 as [->| ->]; [by left|right; left].
Qed.

(** [iter_max] returns an element that is at least every other one. *)
Lemma iter_max_spec `{OrdLaws A} (l : list A) (m : A) :
  iter_max l = Some m → m ∈ l ∧ ∀ y, y ∈ l → ord_leb y m = true.
Proof.
  destruct l as [|x l]; simpl; [done|]. intros [= <-].
  destruct (fold_ord_max_spec l x) as (Hx & Hl & Hin). split.
  - rewrite elem_of_cons. tauto.
  - intros y [->|Hy]%elem_of_cons; auto.
Qed.

(** [min_by] with a total preorder returns an element no other one precedes. *)
Lemma min_by_spec {A} (cmp : A → A → comparison) (l : list A) (m : A) :
  (∀ x y, cmp y x = CompOpp (cmp x y)) →
  (∀ x y z, cmp x y ≠ Gt → cmp y z ≠ Gt → cmp x z ≠ Gt) →
  min_by cmp l = Some m → m ∈ l ∧ ∀ y, y ∈ l → cmp m y ≠ Gt.
Proof.
  intros Hopp Htr. destruct l as [|x l]; simpl; [done|]. intros [= <-].
  assert (∀ a, cmp a a ≠ Gt) as Hrefl.
  { intros a Ha. pose proof (Hopp a a) as Haa. rewrite Ha in Haa. done. }
  revert x; induction l as [|y l IH]; intros x; simpl.
  - split; [set_solver|]. intros y ->%list_elem_of_singleton. apply Hrefl.
  - set (b := match cmp x y with Gt => y | _ => x end).
    destruct (IH b) as [Hin Hmin]. split.
    + apply elem_of_cons in Hin as [->|Hin]; [|set_solver]. unfold b. case_match; set_solver.
    + assert (cmp b x ≠ Gt ∧ cmp b y ≠ Gt) as [Hbx Hby].
      { unfold b. destruct (cmp x y) eqn:E; rewrite ?(Hopp x y), ?E; auto. }
      intros z Hz. rewrite !elem_of_cons in Hz. destruct Hz as [->|[->|Hz]].
      * eapply Htr; [|exact Hbx]. apply Hmin. left.
      * eapply Htr; [|exact Hby]. apply Hmin. left.
      * apply Hmin. by right.
Qed.

Lemma min_by_map {A B} (f : A → B) (cmp : B → B → comparison) (l : list A) :
  min_by cmp (map f l) = f <$> min_by (λ x y, cmp (f x) (f y)) l.
Proof.
  destruct l as [|x l]; [done|]. simpl. f_equal. revert x.
  induction l as [|y l IH]; intros x; [done|]. simpl. rewrite <-IH. f_equal. by case_match.
Qed.
