(* ===== verification/Ids.v ===== *)
(** * Ids: chip amounts and byte-array identifiers

    [Chips(u64)] and [SignedChips(i128)] are transparent newtypes over
    machine integers, compared as integers.  The identifiers of the program
    ([PlayerId], [DevicePublicKey], [TableId], ...) are newtypes over byte
    arrays with derived equality and (lexicographic) order. *)

From S2P Require Import Prelude Machine Encoding Order.

Abbreviation Chips := Z (only parsing).
Abbreviation SignedChips := Z (only parsing).

Definition Chips_ZERO : Chips := 0.
Definition Chips_checked_add (self other : Chips) : option Chips := u64_checked_add self other.
Definition Chips_checked_sub (self other : Chips) : option Chips := u64_checked_sub self other.
Definition SignedChips_ZERO : SignedChips := 0.
Definition SignedChips_checked_add (self other : SignedChips) : option SignedChips :=
  i128_checked_add self other.

(** ** Identifiers *)
Inductive id_tag : Set :=
  | TagPlayer | TagDevice | TagAccount | TagTable | TagClaim | TagMatch | TagHand
  | TagTranscript | TagContent | TagTicket | TagLeave | TagStateHash.

(** A newtype [struct Name([u8; N])]; the tag is the name. *)
Record ident (t : id_tag) : Type := Ident { as_bytes : list Z }.
Arguments Ident {t} as_bytes.
Arguments as_bytes {t} _.

Definition PlayerId : Type := ident TagPlayer.
Definition DevicePublicKey : Type := ident TagDevice.
Definition AccountFingerprint : Type := ident TagAccount.

(** The array has the length its type says. *)
Definition id_len {t} (n : nat) (i : ident t) : Prop := length (as_bytes i) = n.

#[export] Instance id_len_dec {t} n (i : ident t) : Decision (id_len n i).
Proof. unfold id_len. apply _. Defined.

Lemma as_bytes_inj {t} (x y : ident t) : as_bytes x = as_bytes y → x = y.
Proof. destruct x, y; simpl; congruence. Qed.

#[export] Instance ident_eq_dec t : EqDecision (ident t).
Proof. solve_decision. Defined.
#[export] Instance ident_countable t : Countable (ident t).
Proof. refine (inj_countable' as_bytes Ident _). by intros []. Defined.
#[export] Instance ident_ord t : Ord (ident t) := λ x y, compare (as_bytes x) (as_bytes y).
#[export] Instance ident_ord_laws t : OrdLaws (ident t).
Proof. apply (ord_laws_inj as_bytes); [apply as_bytes_inj|done]. Qed.

#[export] Instance PlayerId_eq_dec : EqDecision PlayerId := ident_eq_dec _.
#[export] Instance PlayerId_countable : Countable PlayerId := ident_countable _.
#[export] Instance PlayerId_ord : Ord PlayerId := ident_ord _.
#[export] Instance PlayerId_ord_laws : OrdLaws PlayerId := ident_ord_laws _.
#[export] Instance DevicePublicKey_eq_dec : EqDecision DevicePublicKey := ident_eq_dec _.
#[export] Instance DevicePublicKey_countable : Countable DevicePublicKey := ident_countable _.
#[export] Instance AccountFingerprint_eq_dec : EqDecision AccountFingerprint := ident_eq_dec _.

(** An identifier of [n] bytes in an encoded document. *)
Lemma prefix_inj_id {t} (n : nat) : prefix_inj (id_len n) (as_bytes (t:=t)).
Proof. apply (prefix_inj_fixed _ _ n); [done|]. intros. by apply as_bytes_inj. Qed.

(** The identifier [[b; n]] used in examples. *)
Definition repeat_id {t} (n : nat) (b : Z) : ident t := Ident (replicate n b).

Lemma repeat_id_len {t} n b : id_len n (repeat_id (t:=t) n b).
Proof. apply length_replicate. Qed.
