(* ===== verification/Table.v ===== *)
(** * Table: stake levels, buy-ins and table stacks (table.rs)

    A stake level fixes the blinds, the buy-in range and the number of
    players; a player's stack at a table is opened by a buy-in, topped up
    between hands and moved by the result of each hand. *)

From S2P Require Import Prelude Machine Encoding Order Ids.

(** ** Data *)
Record StakeLevel := mkStakeLevel {
  level_id : string;
  small_blind : Chips;
  big_blind : Chips;
  minimum_buy_in : Chips;
  maximum_buy_in : Chips;
  minimum_players : Z;
  maximum_players : Z;
}.
#[export] Instance StakeLevel_eq_dec : EqDecision StakeLevel.
Proof. solve_decision. Defined.

Inductive StakeLevelError := EmptyId | InvalidBlinds | InvalidBuyInRange | InvalidPlayerRange.

Record OfficialTokenSnapshot := mkSnapshot {
  account : AccountFingerprint;
  lifetime_tokens : Chips;
  observed_at_unix_ms : Z;
}.

Inductive TablePhase := BetweenHands | HandInProgress | Closed.
#[export] Instance TablePhase_eq_dec : EqDecision TablePhase.
Proof. solve_decision. Defined.

Inductive BuyInError :=
  | BelowMinimum (minimum requested : Chips)
  | AboveMaximum (maximum requested : Chips)
  | ExceedsOfficialTokens (available requested : Chips)
  | TopUpOutsideHandBoundary
  | ZeroTopUp
  | TopUpExceedsMaximum (maximum resulting_stack : Chips)
  | Overflow
  | InvalidResultingStack.

Record TableStack := mkTableStack { current : Chips; total_top_ups : Chips }.

(** ** Stake levels *)

(** [StakeLevel::new]. *)
Definition StakeLevel_new (id : string) (sb bb min_buy max_buy min_players max_players : Z)
    : result StakeLevelError StakeLevel :=
  _ ← reject_if (trim_is_empty id) EmptyId;
  _ ← reject_if ((sb =? 0) || (bb <=? sb)) InvalidBlinds;
  _ ← reject_if ((min_buy <? bb) || (max_buy <? min_buy)) InvalidBuyInRange;
  _ ← reject_if (negb ((2 <=? min_players) && (min_players <=? 9))
                 || negb ((min_players <=? max_players) && (max_players <=? 9)))
        InvalidPlayerRange;
  Ok (mkStakeLevel id sb bb min_buy max_buy min_players max_players).

Record StakeLevelDefinition := StakeLevelDefinition_new {
  def_id : string;
  def_small_blind : Chips;
  def_big_blind : Chips;
  def_minimum_buy_in : Chips;
  def_maximum_buy_in : Chips;
  def_minimum_players : Z;
  def_maximum_players : Z;
}.

Definition StakeLevelDefinition_build (d : StakeLevelDefinition)
    : result StakeLevelError StakeLevel :=
  StakeLevel_new (def_id d) (def_small_blind d) (def_big_blind d) (def_minimum_buy_in d)
    (def_maximum_buy_in d) (def_minimum_players d) (def_maximum_players d).

Definition DEFAULT_PUBLIC_STAKE_LEVEL_ID : string := "1m-2m".

Definition PUBLIC_STAKE_LEVELS : list StakeLevelDefinition := [
  StakeLevelDefinition_new "100k-200k" 100000 200000 8000000 20000000 2 6;
  StakeLevelDefinition_new "1m-2m" 1000000 2000000 80000000 200000000 2 6;
  StakeLevelDefinition_new "10m-20m" 10000000 20000000 800000000 2000000000 2 6;
  StakeLevelDefinition_new "100m-200m" 100000000 200000000 8000000000 20000000000 2 6
].

(** [public_stake_level]: find, build, transpose. *)
Definition public_stake_level (id : string) : result StakeLevelError (option StakeLevel) :=
  match find_first (λ d, String.eqb (def_id d) id) PUBLIC_STAKE_LEVELS with
  | Some d => level ← StakeLevelDefinition_build d; Ok (Some level)
  | None => Ok None
  end.

(** [StakeLevel::validate_buy_in]. *)
Definition validate_buy_in (self : StakeLevel) (snapshot : OfficialTokenSnapshot)
    (requested : Chips) : result BuyInError unit :=
  _ ← reject_if (requested <? minimum_buy_in self) (BelowMinimum (minimum_buy_in self) requested);
  _ ← reject_if (maximum_buy_in self <? requested) (AboveMaximum (maximum_buy_in self) requested);
  _ ← reject_if (lifetime_tokens snapshot <? requested)
        (ExceedsOfficialTokens (lifetime_tokens snapshot) requested);
  Ok tt.

(** ** Table stacks *)

Definition set_current (v : Chips) (s : TableStack) := mkTableStack v (total_top_ups s).
Definition set_total_top_ups (v : Chips) (s : TableStack) := mkTableStack (current s) v.

(** [TableStack::open]. *)
Definition TableStack_open (level : StakeLevel) (snapshot : OfficialTokenSnapshot)
    (buy_in : Chips) : result BuyInError TableStack :=
  _ ← validate_buy_in level snapshot buy_in;
  Ok (mkTableStack buy_in Chips_ZERO).

(** [TableStack::top_up]: the stack is raised before the top-up counter. *)
Definition top_up (level : StakeLevel) (phase : TablePhase) (amount : Chips)
    : M TableStack BuyInError unit :=
  self ← gets id;
  _ ← lift (reject_if (negb (bool_decide (phase = BetweenHands))) TopUpOutsideHandBoundary);
  _ ← lift (reject_if (amount =? 0) ZeroTopUp);
  next ← lift (ok_or (Chips_checked_add (current self) amount) Overflow);
  _ ← lift (reject_if (maximum_buy_in level <? next)
              (TopUpExceedsMaximum (maximum_buy_in level) next));
  _ ← modify (set_current next);
  total ← lift (ok_or (Chips_checked_add (total_top_ups self) amount) Overflow);
  modify (set_total_top_ups total).

(** [TableStack::apply_hand_delta]: the delta is an i128. *)
Definition apply_hand_delta (delta : Z) : M TableStack BuyInError unit :=
  self ← gets id;
  next ← lift (ok_or (i128_checked_add (current self) delta) Overflow);
  _ ← lift (reject_if ((next <? 0) || (u64_max <? next)) InvalidResultingStack);
  modify (set_current next).

(** ** Well-formedness *)

Definition level_wf (l : StakeLevel) : Prop :=
  trim_is_empty (level_id l) = false
  ∧ 0 < small_blind l ∧ small_blind l < big_blind l
  ∧ big_blind l <= minimum_buy_in l ∧ minimum_buy_in l <= maximum_buy_in l
  ∧ 2 <= minimum_players l ∧ minimum_players l <= maximum_players l ∧ maximum_players l <= 9.

(** The arguments are unsigned integers of their types. *)
Lemma StakeLevel_new_wf id sb bb mn mx mnp mxp l :
  0 <= sb → StakeLevel_new id sb bb mn mx mnp mxp = Ok l →
  level_wf l ∧ l = mkStakeLevel id sb bb mn mx mnp mxp.
Proof.
  intros Hsb H. unfold StakeLevel_new in H. inv_ok. bool_props. split; [|done].
  unfold level_wf; simpl. split_and!; try done; lia.
Qed.

Lemma StakeLevel_new_complete id sb bb mn mx mnp mxp :
  level_wf (mkStakeLevel id sb bb mn mx mnp mxp) →
  StakeLevel_new id sb bb mn mx mnp mxp = Ok (mkStakeLevel id sb bb mn mx mnp mxp).
Proof.
  unfold level_wf, StakeLevel_new; simpl. intros (-> & ? & ? & ? & ? & ? & ? & ?). simpl.
  repeat match goal with
  | |- context [?a =? ?b] => replace (a =? b) with false by lia
  | |- context [?a <? ?b] => replace (a <? b) with false by lia
  | |- context [?a <=? ?b] =>
      first [replace (a <=? b) with true by lia | replace (a <=? b) with false by lia]
  end; done.
Qed.

(** ** Stack histories

    Everything that can happen to a table stack after it is opened. *)
Inductive stack_event := TopUp (phase : TablePhase) (amount : Chips) | HandDelta (delta : Z).

Definition stack_step (level : StakeLevel) (e : stack_event) : M TableStack BuyInError unit :=
  match e with
  | TopUp phase amount => top_up level phase amount
  | HandDelta d => apply_hand_delta d
  end.

(** A history of accepted events, oldest first. *)
Inductive stack_history (level : StakeLevel) (s0 : TableStack) : list stack_event → TableStack → Prop :=
  | history_nil : stack_history level s0 [] s0
  | history_snoc es e s s' :
      stack_history level s0 es s → stack_step level e s = (Ok tt, s') →
      stack_history level s0 (es ++ [e]) s'.

Definition event_top_up (e : stack_event) : Z := match e with TopUp _ a => a | _ => 0 end.
Definition event_delta (e : stack_event) : Z := match e with HandDelta d => d | _ => 0 end.

Lemma top_up_Ok level phase amount s s' :
  top_up level phase amount s = (Ok tt, s') ↔
  phase = BetweenHands ∧ amount ≠ 0 ∧ current s + amount <= u64_max
  ∧ current s + amount <= maximum_buy_in level ∧ total_top_ups s + amount <= u64_max
  ∧ s' = mkTableStack (current s + amount) (total_top_ups s + amount).
Proof.
  unfold top_up, Chips_checked_add, u64_checked_add, checked_add_w,
    set_total_top_ups, set_current; run_code.
  destruct phase; simpl; repeat (case_match; simpl); bool_props; solve_branch.
Qed.

Lemma apply_hand_delta_Ok delta s s' :
  apply_hand_delta delta s = (Ok tt, s') ↔
  i128_min <= current s + delta <= i128_max ∧ 0 <= current s + delta <= u64_max
  ∧ s' = mkTableStack (current s + delta) (total_top_ups s).
Proof.
  unfold apply_hand_delta, i128_checked_add, set_current; run_code.
  repeat (case_match; simpl); bool_props; solve_branch.
Qed.

Lemma validate_buy_in_Ok level snapshot requested u :
  validate_buy_in level snapshot requested = Ok u ↔
  minimum_buy_in level <= requested <= maximum_buy_in level
  ∧ requested <= lifetime_tokens snapshot.
Proof.
  destruct u. unfold validate_buy_in, reject_if. simpl.
  repeat (case_match; simpl); bool_props; solve_branch.
Qed.

(** One accepted event moves the balance by exactly what it says and keeps
    it a u64. *)
Lemma stack_step_Ok level e s s' :
  stack_step level e s = (Ok tt, s') → 0 <= current s → 0 <= event_top_up e →
  current s' = current s + event_top_up e + event_delta e
  ∧ total_top_ups s' = total_top_ups s + event_top_up e ∧ 0 <= current s' <= u64_max.
Proof.
  destruct e; simpl.
  - intros (_ & _ & ? & _ & _ & ->)%top_up_Ok; simpl. lia.
  - intros (? & ? & ->)%apply_hand_delta_Ok; simpl. lia.
Qed.

(** conservation of a player's table balance.  However many top-ups and
    hand results are applied after the buy-in, the current stack is the
    buy-in plus the accepted top-ups plus the accepted hand deltas, the
    top-up counter is exactly the sum of the accepted top-ups, and the stack
    stays a u64. *)
Theorem stack_history_balance level snapshot buy_in s0 es s :
  TableStack_open level snapshot buy_in = Ok s0 →
  level_wf level → maximum_buy_in level <= u64_max →
  Forall (λ e, 0 <= event_top_up e) es →
  stack_history level s0 es s →
  current s = buy_in + sum_with event_top_up es + sum_with event_delta es
  ∧ total_top_ups s = sum_with event_top_up es
  ∧ 0 <= current s <= u64_max.
Proof.
  intros Ho Hwf Hmax Hes Hh. unfold TableStack_open in Ho. inv_ok.
  match goal with H : validate_buy_in _ _ _ = _ |- _ => apply validate_buy_in_Ok in H end.
  unfold level_wf, Chips_ZERO in *.
  induction Hh as [|es e s s' Hh IH Hstep]; [simpl; rewrite !sum_with_nil; lia|].
  apply Forall_app in Hes as [Hes He]. rewrite Forall_singleton in He.
  destruct (IH Hes) as (Hc & Ht & Hr).
  pose proof (stack_step_Ok _ _ _ _ Hstep (proj1 Hr) He) as (Hc' & Ht' & Hr').
  rewrite !sum_with_app, !sum_with_cons, !sum_with_nil. lia.
Qed.

Definition example_level : StakeLevel := mkStakeLevel "10k-20k" 10000 20000 800000 2000000 2 6.
Definition example_snapshot (tokens : Z) : OfficialTokenSnapshot :=
  mkSnapshot (repeat_id 32 7) tokens 1.

Lemma stack_history_balance_witness :
  current (mkTableStack 1700000 800000) = 1200000 + 800000 + -300000
  ∧ total_top_ups (mkTableStack 1700000 800000) = 800000
  ∧ 0 <= current (mkTableStack 1700000 800000) <= u64_max.
Proof.
  apply (stack_history_balance example_level (example_snapshot 10000000) 1200000
           (mkTableStack 1200000 0) [TopUp BetweenHands 800000; HandDelta (-300000)]).
  - vm_compute. reflexivity.
  - unfold level_wf. vm_compute. intuition congruence.
  - vm_compute. congruence.
  - repeat constructor; vm_compute; congruence.
  - apply (history_snoc _ _ [TopUp BetweenHands 800000] (HandDelta (-300000))
             (mkTableStack 2000000 800000)); [|vm_compute; reflexivity].
    apply (history_snoc _ _ [] (TopUp BetweenHands 800000) (mkTableStack 1200000 0));
      [constructor|vm_compute; reflexivity].
Defined.

(** the public catalogue.  Every public stake level builds, is
    well-formed, allows two to six players and a buy-in of 40 to 100 big
    blinds that fits a u64 even for a full table; the identifiers are pairwise
    distinct, the default identifier is one of them, and [public_stake_level]
    returns a level exactly for the identifiers of the catalogue. *)
Theorem public_stake_levels_valid :
  NoDup (map def_id PUBLIC_STAKE_LEVELS)
  ∧ DEFAULT_PUBLIC_STAKE_LEVEL_ID ∈ map def_id PUBLIC_STAKE_LEVELS
  ∧ (∀ d, d ∈ PUBLIC_STAKE_LEVELS → ∃ l,
       public_stake_level (def_id d) = Ok (Some l) ∧ level_wf l
       ∧ level_id l = def_id d
       ∧ minimum_buy_in l = 40 * big_blind l ∧ maximum_buy_in l = 100 * big_blind l
       ∧ minimum_players l = 2 ∧ maximum_players l = 6
       ∧ 6 * maximum_buy_in l <= u64_max)
  ∧ (∀ i, i ∉ map def_id PUBLIC_STAKE_LEVELS → public_stake_level i = Ok None).
Proof.
  split_and!.
  - apply (bool_decide_unpack _). vm_compute. done.
  - apply (bool_decide_unpack _). vm_compute. done.
  - intros d Hd. unfold PUBLIC_STAKE_LEVELS in Hd.
    repeat (apply elem_of_cons in Hd as [->|Hd];
      [eexists; split; [vm_compute; reflexivity|];
       unfold level_wf; vm_compute; intuition congruence|]).
    by apply not_elem_of_nil in Hd.
  - intros i Hi. unfold public_stake_level.
    destruct (find_first _ _) as [d|] eqn:Hf; [|done].
    apply find_first_Some in Hf as [Hd Hi'%String.eqb_eq]. destruct Hi. rewrite <-Hi'.
    by apply (list_elem_of_fmap_2 def_id).
Qed.
