(* ===== verification/Cards.v ===== *)
(** * Cards: the deck and the hand evaluator (holdem.rs, lines 8 to 189)

    [evaluate_five] ranks five cards, [evaluate_seven] takes the best of the
    21 five-card hands of seven cards.  An index out of bounds or a failed
    [unwrap] of the Rust code is [None]. *)

From S2P Require Import Prelude Machine Order Ids.

(** ** Data *)
Inductive Suit := Clubs | Diamonds | Hearts | Spades.
#[export] Instance Suit_eq_dec : EqDecision Suit.
Proof. solve_decision. Defined.
Definition suit_index (s : Suit) : Z :=
  match s with Clubs => 0 | Diamonds => 1 | Hearts => 2 | Spades => 3 end.
Definition suit_of_index (i : Z) : Suit :=
  if i =? 0 then Clubs else if i =? 1 then Diamonds else if i =? 2 then Hearts else Spades.

Record Card := mkCard { card_rank : Z; card_suit : Suit }.
#[export] Instance Card_eq_dec : EqDecision Card.
Proof. solve_decision. Defined.
#[export] Instance Card_countable : Countable Card.
Proof.
  refine (inj_countable' (λ c, (card_rank c, suit_index (card_suit c)))
            (λ p, mkCard p.1 (suit_of_index p.2)) _).
  by intros [? []].
Defined.

Inductive HandCategory :=
  | HighCard | OnePair | TwoPair | ThreeOfAKind | Straight | Flush | FullHouse
  | FourOfAKind | StraightFlush.
#[export] Instance HandCategory_eq_dec : EqDecision HandCategory.
Proof. solve_decision. Defined.
(** The discriminants of the derived order. *)
Definition category_tag (c : HandCategory) : Z :=
  match c with
  | HighCard => 0 | OnePair => 1 | TwoPair => 2 | ThreeOfAKind => 3 | Straight => 4
  | Flush => 5 | FullHouse => 6 | FourOfAKind => 7 | StraightFlush => 8
  end.

Record HandRank := mkHandRank { category : HandCategory; kickers : list Z }.
#[export] Instance HandRank_eq_dec : EqDecision HandRank.
Proof. solve_decision. Defined.
(** [derive(Ord)]: the category first, then the kickers. *)
Definition hand_key (r : HandRank) : Z * list Z := (category_tag (category r), kickers r).
#[export] Instance HandRank_ord : Ord HandRank := λ x y, compare (hand_key x) (hand_key y).
Lemma hand_key_inj x y : hand_key x = hand_key y → x = y.
Proof. destruct x as [[] ?], y as [[] ?]; unfold hand_key; simpl; congruence. Qed.
#[export] Instance HandRank_ord_laws : OrdLaws HandRank.
Proof. apply (ord_laws_inj hand_key); [apply hand_key_inj|done]. Qed.

Inductive CardError := InvalidCardRank (rank : Z) | InvalidDeckIndex (index : Z).

(** ** The deck *)

(** [Card::new]. *)
Definition Card_new (rank : Z) (suit : Suit) : result CardError Card :=
  if negb ((2 <=? rank) && (rank <=? 14)) then Err (InvalidCardRank rank)
  else Ok (mkCard rank suit).

(** [Card::from_deck_index]. *)
Definition Card_from_deck_index (index : Z) : result CardError Card :=
  if 52 <=? index then Err (InvalidDeckIndex index)
  else
    let suit := match index / 13 with
                | 0 => Clubs | 1 => Diamonds | 2 => Hearts | _ => Spades end in
    Ok (mkCard (index mod 13 + 2) suit).

Definition valid_card (c : Card) : Prop := 2 <= card_rank c <= 14.

(** ** Evaluation of five cards *)

(** [rank]: the values, padded with zeros to five. *)
Definition rank_hand (c : HandCategory) (values : list Z) : HandRank :=
  mkHandRank c (values ++ replicate (5 - length values) 0).

(** [straight_high], on sorted distinct ranks. *)
Definition straight_high (sorted_unique : list Z) : option Z :=
  match sorted_unique with
  | [a; _; _; _; e] =>
      if bool_decide (sorted_unique = [2; 3; 4; 5; 14]) then Some 5
      else if e - a =? 4 then Some e else None
  | _ => None
  end.

(** [Vec::dedup] removes consecutive repetitions. *)
Fixpoint dedup (l : list Z) : list Z :=
  match l with
  | x :: ((y :: _) as l') => if x =? y then dedup l' else x :: dedup l'
  | _ => l
  end.

Definition sort_desc `{Ord A} (l : list A) : list A := reverse (sort l).

(** The [counts] map: [*counts.entry(rank).or_default() += 1] per card. *)
Definition bump (m : gmap Z Z) (r : Z) : gmap Z Z := <[r := default 0 (m !! r) + 1]> m.
Definition rank_counts (ranks : list Z) : gmap Z Z := fold_left bump ranks ∅.
(** The [groups] vector: (count, rank), in decreasing order. *)
Definition rank_groups (ranks : list Z) : list (Z * Z) :=
  sort_desc (map (λ p, (p.2, p.1)) (map_to_list (rank_counts ranks))).

Definition ranks_with_count (n : Z) (groups : list (Z * Z)) : list Z :=
  map snd (filter (λ g, g.1 = n) groups).

(** The body of [evaluate_five]: it reads the cards only through the flush
    test and their ranks. *)
Definition evaluate_ranks (flush : bool) (ranks : list Z) : option HandRank :=
  let straight := straight_high (dedup (sort ranks)) in
  match flush, straight with
  | true, Some high => Some (rank_hand StraightFlush [high])
  | _, _ =>
    let groups := rank_groups ranks in
    g0 ← groups !! 0%nat;
    if g0.1 =? 4 then
      g1 ← groups !! 1%nat; Some (rank_hand FourOfAKind [g0.2; g1.2])
    else
    full ← (if g0.1 =? 3 then g1 ← groups !! 1%nat; Some (if g1.1 =? 2 then Some g1 else None)
            else Some None);
    match full with
    | Some g1 => Some (rank_hand FullHouse [g0.2; g1.2])
    | None =>
      let descending := sort_desc ranks in
      if (flush : bool) then Some (rank_hand Flush descending) else
      match straight with
      | Some high => Some (rank_hand Straight [high])
      | None =>
        if g0.1 =? 3 then
          let ks := sort_desc (ranks_with_count 1 groups) in
          k0 ← ks !! 0%nat; k1 ← ks !! 1%nat;
          Some (rank_hand ThreeOfAKind [g0.2; k0; k1])
        else
        let pairs := ranks_with_count 2 groups in
        if (length pairs =? 2)%nat then
          p0 ← pairs !! 0%nat; p1 ← pairs !! 1%nat;
          kicker ← find_first (λ g, g.1 =? 1) groups;
          Some (rank_hand TwoPair [Z.max p0 p1; Z.min p0 p1; snd kicker])
        else if (length pairs =? 1)%nat then
          let ks := sort_desc (ranks_with_count 1 groups) in
          p0 ← pairs !! 0%nat; k0 ← ks !! 0%nat; k1 ← ks !! 1%nat; k2 ← ks !! 2%nat;
          Some (rank_hand OnePair [p0; k0; k1; k2])
        else Some (rank_hand HighCard descending)
      end
    end
  end.

(** [cards.iter().all(|card| card.suit == cards[0].suit)]. *)
Definition is_flush (cards : list Card) : bool :=
  match cards with
  | [] => true
  | c0 :: _ => forallb (λ c, bool_decide (card_suit c = card_suit c0)) cards
  end.

Definition evaluate_five (cards : list Card) : option HandRank :=
  evaluate_ranks (is_flush cards) (map card_rank cards).

(** ** Evaluation of seven cards *)

(** [a..b] as a list. *)
Definition range (a b : nat) : list nat := seq a (b - a).

(** The five nested loops, in the order they run. *)
Definition five_indices : list (list nat) :=
  flat_map (λ first, flat_map (λ second, flat_map (λ third, flat_map (λ fourth,
    map (λ fifth, [first; second; third; fourth; fifth]) (range (S fourth) 7))
    (range (S third) 6)) (range (S second) 5)) (range (S first) 4)) (range 0 3).

Definition pick (cards : list Card) (idx : list nat) : option (list Card) :=
  mapM (λ i, cards !! i) idx.

Definition best_of (best : HandRank) (five : option HandRank) : option HandRank :=
  r ← five; Some (ord_max best r).

Fixpoint best_loop (cards : list Card) (best : HandRank) (idx : list (list nat)) : option HandRank :=
  match idx with
  | [] => Some best
  | i :: idx =>
      five ← pick cards i;
      best' ← best_of best (evaluate_five five);
      best_loop cards best' idx
  end.

Definition worst_rank : HandRank := mkHandRank HighCard (replicate 5 0).

Definition evaluate_seven (cards : list Card) : option HandRank :=
  best_loop cards worst_rank five_indices.

(** ** Independence of the order of the cards *)

Definition occ (r : Z) (l : list Z) : Z := Z.of_nat (length (filter (λ x, x = r) l)).

Lemma occ_cons r x l : occ r (x :: l) = occ r l + (if decide (x = r) then 1 else 0).
Proof. unfold occ. rewrite filter_cons. case_decide; simpl length; lia. Qed.
Lemma occ_nonneg r l : 0 <= occ r l.
Proof. unfold occ. lia. Qed.
#[export] Instance occ_proper r : Proper ((≡ₚ) ==> (=)) (occ r).
Proof. intros l k Hp. unfold occ. by rewrite Hp. Qed.

Lemma fold_bump_lookup l m r :
  default 0 (fold_left bump l m !! r) = default 0 (m !! r) + occ r l.
Proof.
  revert m; induction l as [|x l IH]; intros m; simpl.
  - unfold occ; simpl. lia.
  - rewrite IH, occ_cons. unfold bump. rewrite lookup_insert.
    destruct (decide (x = r)) as [->|]; simpl; lia.
Qed.

Lemma fold_bump_is_Some l m r :
  is_Some (fold_left bump l m !! r) ↔ is_Some (m !! r) ∨ r ∈ l.
Proof.
  revert m; induction l as [|x l IH]; intros m; simpl; [set_solver|].
  rewrite IH. unfold bump. rewrite lookup_insert_is_Some, elem_of_cons.
  destruct (decide (x = r)); naive_solver.
Qed.

Lemma rank_counts_perm l k : l ≡ₚ k → rank_counts l = rank_counts k.
Proof.
  intros Hp. apply map_eq. intros r. unfold rank_counts.
  pose proof (fold_bump_lookup l ∅ r) as Hl. pose proof (fold_bump_lookup k ∅ r) as Hk.
  pose proof (fold_bump_is_Some l ∅ r) as Sl. pose proof (fold_bump_is_Some k ∅ r) as Sk.
  assert (occ r l = occ r k) as Ho by (by rewrite Hp).
  assert (r ∈ l ↔ r ∈ k) as Hm by (by rewrite Hp).
  rewrite <-Hm, <-Sl in Sk. rewrite <-Ho, <-Hl in Hk. clear -Hk Sk.
  destruct (fold_left bump l ∅ !! r) as [a|], (fold_left bump k ∅ !! r) as [b|]; simpl in *;
    [by f_equal|..|done]; exfalso; unfold is_Some in Sk; naive_solver.
Qed.

Lemma evaluate_ranks_perm flush l k : l ≡ₚ k → evaluate_ranks flush l = evaluate_ranks flush k.
Proof.
  intros Hp. unfold evaluate_ranks, rank_groups, sort_desc.
  by rewrite (sort_perm_eq l k Hp), (rank_counts_perm l k Hp).
Qed.

Definition all_same_suit (cards : list Card) : Prop :=
  ∀ c d, c ∈ cards → d ∈ cards → card_suit c = card_suit d.

Lemma is_flush_spec cards : is_flush cards = true ↔ all_same_suit cards.
Proof.
  unfold all_same_suit. destruct cards as [|c0 cards]; [set_solver|]. unfold is_flush.
  rewrite forallb_forall. setoid_rewrite <-list_elem_of_In. split.
  - intros H c d Hc%H Hd%H. bool_props. congruence.
  - intros H c Hc. apply bool_decide_eq_true. apply H; [done|left].
Qed.

Lemma is_flush_perm l k : l ≡ₚ k → is_flush l = is_flush k.
Proof.
  intros Hp. apply eq_true_iff_eq. rewrite !is_flush_spec. unfold all_same_suit.
  by setoid_rewrite Hp.
Qed.

Lemma evaluate_five_perm l k : l ≡ₚ k → evaluate_five l = evaluate_five k.
Proof.
  intros Hp. unfold evaluate_five. rewrite (is_flush_perm l k Hp).
  apply evaluate_ranks_perm. by apply fmap_Permutation.
Qed.

(** ** The rules of poker

    The category by definition, from the multiplicities of the ranks, and the
    tie-break vector: the distinct ranks, most frequent first and higher
    first among equally frequent ones. *)

Definition all_ranks : list Z := [2; 3; 4; 5; 6; 7; 8; 9; 10; 11; 12; 13; 14].
Definition ranks_occurring (n : Z) (ranks : list Z) : list Z :=
  filter (λ r, occ r ranks = n) (reverse all_ranks).

(** The five ranks ending at [high], with the ace low in a five-high run. *)
Definition run_to (high : Z) : list Z :=
  if high =? 5 then [14; 2; 3; 4; 5] else [high - 4; high - 3; high - 2; high - 1; high].
Definition straight_to (ranks : list Z) (high : Z) : bool :=
  forallb (λ r, occ r ranks =? 1) (run_to high).
Definition straight_of (ranks : list Z) : option Z :=
  find_first (straight_to ranks) [5; 6; 7; 8; 9; 10; 11; 12; 13; 14].

Definition poker_rank (flush : bool) (ranks : list Z) : HandRank :=
  let fours := ranks_occurring 4 ranks in
  let threes := ranks_occurring 3 ranks in
  let pairs := ranks_occurring 2 ranks in
  let singles := ranks_occurring 1 ranks in
  let by_frequency := fours ++ threes ++ pairs ++ singles in
  match flush, straight_of ranks, fours, threes, pairs with
  | true, Some high, _, _, _ => rank_hand StraightFlush [high]
  | _, _, _ :: _, _, _ => rank_hand FourOfAKind by_frequency
  | _, _, _, _ :: _, _ :: _ => rank_hand FullHouse by_frequency
  | true, _, _, _, _ => rank_hand Flush by_frequency
  | _, Some high, _, _, _ => rank_hand Straight [high]
  | _, _, _, _ :: _, _ => rank_hand ThreeOfAKind by_frequency
  | _, _, _, _, _ :: _ :: _ => rank_hand TwoPair by_frequency
  | _, _, _, _, [_] => rank_hand OnePair by_frequency
  | _, _, _, _, _ => rank_hand HighCard by_frequency
  end.

(** Non-decreasing lists of [n] ranks. *)
Fixpoint rising (n : nat) (lo : list Z) : list (list Z) :=
  match n with
  | O => [[]]
  | S n =>
      (fix go (lo : list Z) : list (list Z) :=
        match lo with
        | [] => []
        | r :: lo' => map (cons r) (rising n lo) ++ go lo'
        end) lo
  end.

Lemma rising_complete n lo l :
  StronglySorted Z.lt lo → StronglySorted (key_le (λ x : Z, x)) l → length l = n →
  Forall (λ r, r ∈ lo) l → l ∈ rising n lo.
Proof.
  revert lo l; induction n as [|n IHn]; intros lo l Hlo Hl Hlen Hin.
  - destruct l; [|done]. left.
  - destruct l as [|x l]; [done|]. apply Forall_cons in Hin as [Hx Hin].
    inversion Hl as [|?? Hl' Hxl]; subst. simplify_eq/=.
    induction Hlo as [|r lo Hlo IHlo Hr]; [by apply not_elem_of_nil in Hx|].
    apply elem_of_app. destruct (decide (x = r)) as [->|Hne].
    + left. apply list_elem_of_fmap_2. apply IHn; [by constructor|done..].
    + right. apply elem_of_cons in Hx as [?|Hx]; [done|]. apply IHlo; [done|].
      rewrite Forall_forall in Hin, Hxl, Hr |- *. intros y Hy.
      pose proof (Hin _ Hy) as Hyr. apply elem_of_cons in Hyr as [->|?]; [|done].
      exfalso. specialize (Hxl _ Hy). specialize (Hr _ Hx). unfold key_le, ord_leb in Hxl.
      unfold compare, Z_ord in Hxl. rewrite Z.lt_gt_cases in *. destruct (x ?= r) eqn:E; try done.
      * apply Z.compare_eq in E. lia.
      * rewrite Z.compare_lt_iff in E. lia.
Qed.

(** Five cards of a deck: no rank five times, and no rank twice in a flush. *)
Definition deck_shape (flush : bool) (ranks : list Z) : bool :=
  forallb (λ r, occ r ranks <=? (if flush then 1 else 4)) ranks.

Definition well_kicked (r : HandRank) : bool :=
  (length (kickers r) =? 5)%nat && forallb (λ k, 0 <=? k) (kickers r).

Definition shape_checks (ranks : list Z) : bool :=
  forallb (λ flush, implb (deck_shape flush ranks)
    (bool_decide (evaluate_ranks flush ranks = Some (poker_rank flush ranks))
     && well_kicked (poker_rank flush ranks))) [true; false].

Lemma all_shapes_checked : forallb shape_checks (rising 5 all_ranks) = true.
Proof. vm_compute. reflexivity. Qed.

Lemma all_ranks_sorted : StronglySorted Z.lt all_ranks.
Proof. repeat constructor; lia. Qed.

Lemma elem_of_all_ranks r : r ∈ all_ranks ↔ 2 <= r <= 14.
Proof. unfold all_ranks. set_unfold. lia. Qed.

Lemma ranks_occurring_perm n l k : l ≡ₚ k → ranks_occurring n l = ranks_occurring n k.
Proof. intros Hp. apply list_filter_iff. intros r. by rewrite Hp. Qed.

Lemma straight_to_perm l k high : l ≡ₚ k → straight_to l high = straight_to k high.
Proof.
  intros Hp. unfold straight_to. induction (run_to high) as [|r run IH]; simpl; [done|].
  by rewrite Hp, IH.
Qed.

Lemma straight_of_perm l k : l ≡ₚ k → straight_of l = straight_of k.
Proof.
  intros Hp. unfold straight_of. induction [5; 6; 7; 8; 9; 10; 11; 12; 13; 14] as [|h hs IH];
    simpl; [done|]. by rewrite (straight_to_perm l k h Hp), IH.
Qed.

Lemma poker_rank_perm flush l k : l ≡ₚ k → poker_rank flush l = poker_rank flush k.
Proof.
  intros Hp. unfold poker_rank. rewrite (straight_of_perm l k Hp).
  by rewrite !(ranks_occurring_perm _ l k Hp).
Qed.

Lemma evaluate_ranks_poker (flush : bool) (ranks : list Z) :
  length ranks = 5%nat → Forall (λ r, 2 <= r <= 14) ranks →
  (∀ r, occ r ranks <= (if flush then 1 else 4)) →
  evaluate_ranks flush ranks = Some (poker_rank flush ranks)
  ∧ well_kicked (poker_rank flush ranks) = true.
Proof.
  intros Hlen Hval Hocc. assert (sort ranks ≡ₚ ranks) as Hp by apply sort_by_key_perm.
  rewrite <-(evaluate_ranks_perm flush _ _ Hp), <-(poker_rank_perm flush _ _ Hp).
  pose proof all_shapes_checked as Hall. rewrite forallb_forall in Hall.
  assert (In (sort ranks) (rising 5 all_ranks)) as Hin.
  { apply list_elem_of_In, rising_complete; [apply all_ranks_sorted|apply sort_by_key_sorted|..].
    - by rewrite Hp.
    - rewrite Hp. eapply Forall_impl; [exact Hval|]. intros r. by rewrite elem_of_all_ranks. }
  specialize (Hall _ Hin). unfold shape_checks in Hall. rewrite forallb_forall in Hall.
  assert (In flush [true; false]) as Hf by (destruct flush; simpl; auto).
  specialize (Hall _ Hf). replace (deck_shape flush (sort ranks)) with true in Hall.
  - simpl in Hall. bool_props. done.
  - symmetry. unfold deck_shape. apply forallb_forall. intros r _. apply Z.leb_le.
    rewrite Hp. apply Hocc.
Qed.

(** ** Five distinct cards of a deck *)

Lemma suits_bound (l : list Suit) : NoDup l → (length l <= 4)%nat.
Proof.
  intros Hnd. transitivity (length [Clubs; Diamonds; Hearts; Spades]); [|done].
  apply submseteq_length, NoDup_submseteq; [done|]. intros [] _; set_solver.
Qed.

Lemma occ_cards_filter r cards :
  occ r (map card_rank cards) = Z.of_nat (length (filter (λ c, card_rank c = r) cards)).
Proof.
  unfold occ. f_equal. induction cards as [|c cards IH]; [done|]. simpl.
  rewrite !filter_cons. case_decide; simpl; by rewrite IH.
Qed.

Lemma NoDup_suits_of_rank r cards :
  NoDup cards → NoDup (map card_suit (filter (λ c, card_rank c = r) cards)).
Proof.
  intros Hnd. apply (NoDup_fmap_2_strong card_suit); [|by apply NoDup_filter].
  intros [r1 s1] [r2 s2] [H1 _]%list_elem_of_filter [H2 _]%list_elem_of_filter Hs.
  simpl in *. congruence.
Qed.

Lemma occ_distinct_cards r cards :
  NoDup cards → occ r (map card_rank cards) <= (if is_flush cards then 1 else 4).
Proof.
  intros Hnd. rewrite occ_cards_filter.
  pose proof (NoDup_suits_of_rank r cards Hnd) as Hs.
  destruct (is_flush cards) eqn:Hf.
  - apply is_flush_spec in Hf.
    destruct (filter (λ c, card_rank c = r) cards) as [|c [|d l]] eqn:E; simpl length in *; try lia.
    exfalso. simpl in Hs. apply NoDup_cons in Hs as [Hn _]. apply Hn.
    assert (∀ x, x ∈ c :: d :: l → x ∈ cards) as Hsub.
    { intros x. rewrite <-E. intros [_ ?]%list_elem_of_filter. done. }
    rewrite (Hf c d); [left|apply Hsub..]; set_solver.
  - apply suits_bound in Hs. rewrite length_fmap in Hs. lia.
Qed.

Lemma evaluate_five_poker_rank cards :
  length cards = 5%nat → NoDup cards → Forall valid_card cards →
  evaluate_five cards = Some (poker_rank (is_flush cards) (map card_rank cards))
  ∧ well_kicked (poker_rank (is_flush cards) (map card_rank cards)) = true.
Proof.
  intros Hlen Hnd Hval. apply evaluate_ranks_poker.
  - by rewrite length_fmap.
  - by apply Forall_fmap.
  - intros r. by apply occ_distinct_cards.
Qed.

(** the five-card evaluator follows the rules of poker.  On every five
    distinct cards of the deck it returns (it never indexes out of bounds) the
    category defined by rank multiplicities, flush and straight, the ace-low
    straight counting five high, with the tie-break vector ordered by
    frequency and then by rank. *)
Theorem evaluate_five_is_poker_rank cards :
  length cards = 5%nat → NoDup cards → Forall valid_card cards →
  evaluate_five cards = Some (poker_rank (is_flush cards) (map card_rank cards)).
Proof. intros; by apply evaluate_five_poker_rank. Qed.

Definition wheel : list Card :=
  [mkCard 14 Spades; mkCard 2 Spades; mkCard 3 Spades; mkCard 4 Spades; mkCard 5 Spades].

Lemma evaluate_five_is_poker_rank_witness :
  evaluate_five wheel = Some (mkHandRank StraightFlush [5; 0; 0; 0; 0]).
Proof.
  change (mkHandRank StraightFlush [5; 0; 0; 0; 0])
    with (poker_rank (is_flush wheel) (map card_rank wheel)).
  apply evaluate_five_is_poker_rank.
  - reflexivity.
  - apply (bool_decide_unpack _). vm_compute. exact I.
  - repeat constructor; vm_compute; congruence.
Defined.

(** ** Seven cards *)

(** All sublists of length [k]. *)
Fixpoint choose {A} (k : nat) (l : list A) : list (list A) :=
  match k, l with
  | O, _ => [[]]
  | S _, [] => []
  | S k', x :: l' => map (cons x) (choose k' l') ++ choose k l'
  end.

Lemma elem_of_choose {A} k (l m : list A) : m ∈ choose k l ↔ sublist m l ∧ length m = k.
Proof.
  revert k m; induction l as [|x l IH]; intros [|k] m; simpl.
  - rewrite list_elem_of_singleton, sublist_nil_r. destruct m; naive_solver.
  - rewrite sublist_nil_r, elem_of_nil. destruct m; naive_solver.
  - rewrite list_elem_of_singleton. split; [intros ->; split; [apply sublist_nil_l|done]|].
    destruct m; naive_solver.
  - rewrite elem_of_app, IH, list_elem_of_fmap. setoid_rewrite IH. rewrite sublist_cons_r. split.
    + intros [(m' & -> & Hs & <-)|[Hs <-]]; [|by split; [left|]].
      split; [right; by eexists|done].
    + intros [[Hs|(m' & -> & Hs)] Hlen]; [by right|left]. exists m'. simplify_eq/=. done.
Qed.

(** The nested loops visit exactly the five-card sublists. *)
Lemma pick_five_indices a b c d e f g :
  map (pick [a; b; c; d; e; f; g]) five_indices = map Some (choose 5 [a; b; c; d; e; f; g]).
Proof. reflexivity. Qed.

Lemma best_loop_fold cards idx hands best :
  map (pick cards) idx = map Some hands →
  Forall (λ h, is_Some (evaluate_five h)) hands →
  best_loop cards best idx = Some (fold_left ord_max (omap evaluate_five hands) best).
Proof.
  revert hands best; induction idx as [|i idx IH]; intros [|h hands] best Heq Hh; simplify_eq/=;
    [done|]. apply Forall_cons in Hh as [[r Hr] Hh].
  match goal with H : pick _ _ = Some _ |- _ => rewrite H end. simpl.
  rewrite Hr. simpl. by apply IH.
Qed.

Lemma zeros_least n (l : list Z) : length l = n → Forall (λ k, 0 <= k) l →
  list_compare (replicate n 0) l ≠ Gt.
Proof.
  revert l; induction n as [|n IH]; intros [|k l] Hlen Hl; simplify_eq/=; [done|].
  apply Forall_cons in Hl as [Hk Hl]. unfold compare, Z_ord.
  destruct (0 ?= k) eqn:E; simpl; [by apply IH|done|]. rewrite Z.compare_gt_iff in E. lia.
Qed.

Lemma worst_rank_least r :
  length (kickers r) = 5%nat → Forall (λ k, 0 <= k) (kickers r) → ord_leb worst_rank r = true.
Proof.
  intros Hlen Hk. pose proof (zeros_least 5 _ Hlen Hk) as Hz.
  change (match then_with (0 ?= category_tag (category r)) (list_compare (replicate 5 0) (kickers r))
          with Gt => false | _ => true end = true).
  destruct (category r); simpl category_tag; try done.
  change (0 ?= 0) with Eq. cbn [then_with]. by destruct (list_compare _ _).
Qed.


(** Every five of seven distinct cards have a rank above the initial [best]. *)
Lemma five_of_seven_rank cards five :
  NoDup cards → Forall valid_card cards → five ⊆+ cards → length five = 5%nat →
  ∃ r, evaluate_five five = Some r ∧ ord_leb worst_rank r = true.
Proof.
  intros Hnd Hval Hsub Hlen.
  destruct (evaluate_five_poker_rank five) as [He Hk]; [done|..].
  - apply submseteq_Permutation in Hsub as [k Hk]. rewrite Hk in Hnd.
    by apply NoDup_app in Hnd as [? _].
  - rewrite Forall_forall in Hval |- *. intros c Hc. apply Hval. by eapply elem_of_submseteq.
  - eexists; split; [exact He|]. unfold well_kicked in Hk. bool_props.
    apply worst_rank_least; [done|]. rewrite Forall_forall.
    match goal with H : forallb _ _ = true |- _ => rewrite forallb_forall in H end.
    intros k Hk%list_elem_of_In. by apply Z.leb_le, H0.
Qed.

(** [r] is the best rank of the five-card hands that can be made of [cards]. *)
Definition best_five (cards : list Card) (r : HandRank) : Prop :=
  (∃ five, five ⊆+ cards ∧ length five = 5%nat ∧ evaluate_five five = Some r)
  ∧ ∀ five, five ⊆+ cards → length five = 5%nat →
      ∃ r', evaluate_five five = Some r' ∧ ord_leb r' r = true.

Lemma best_five_unique cards r r' : best_five cards r → best_five cards r' → r = r'.
Proof.
  intros [(f & Hf & Hl & He) Hmax] [(f' & Hf' & Hl' & He') Hmax'].
  destruct (Hmax f' Hf' Hl') as (? & ? & ?). destruct (Hmax' f Hf Hl) as (? & ? & ?).
  simplify_eq. by apply ord_leb_antisym.
Qed.

Lemma evaluate_seven_best_five cards :
  length cards = 7%nat → NoDup cards → Forall valid_card cards →
  ∃ r, evaluate_seven cards = Some r ∧ best_five cards r.
Proof.
  intros Hlen Hnd Hval. do 8 (destruct cards as [|? cards]; [try done|]); [|done].
  match goal with |- context [evaluate_seven ?cs] => set (cards := cs) in * end.
  assert (∀ five, five ∈ choose 5 cards → ∃ r, evaluate_five five = Some r ∧ ord_leb worst_rank r = true)
    as Hfive.
  { intros five [Hs Hl]%elem_of_choose. apply (five_of_seven_rank cards); [done..| |done].
    by apply sublist_submseteq. }
  assert (∀ five r, five ∈ choose 5 cards → evaluate_five five = Some r →
            r ∈ omap evaluate_five (choose 5 cards)) as Hom.
  { intros five r Hin He. apply list_elem_of_omap. eauto. }
  unfold evaluate_seven. rewrite (best_loop_fold cards five_indices (choose 5 cards)).
  2: { apply pick_five_indices. }
  2: { rewrite Forall_forall. intros five Hin. destruct (Hfive _ Hin) as (r & -> & _). eauto. }
  eexists; split; [done|].
  destruct (fold_ord_max_spec (omap evaluate_five (choose 5 cards)) worst_rank) as (Hw & Hub & Hat).
  set (m := fold_left _ _ _) in *. split.
  - assert (∃ five, five ∈ choose 5 cards ∧ evaluate_five five = Some m) as (five & Hin & He).
    { destruct Hat as [Hm|Hm]; [|by apply list_elem_of_omap in Hm].
      assert (take 5 cards ∈ choose 5 cards) as Hin by (apply elem_of_choose; split; [apply sublist_take|done]).
      destruct (Hfive _ Hin) as (r & He & Hr). exists (take 5 cards); split; [done|].
      rewrite He. f_equal. apply ord_leb_antisym; [by eapply Hub, Hom|]. by rewrite Hm. }
    apply elem_of_choose in Hin as [Hs Hl]. exists five. split; [by apply sublist_submseteq|done].
  - intros five Hsub Hl. apply submseteq_sublist_r in Hsub as (five' & Hp & Hs).
    assert (five' ∈ choose 5 cards) as Hin by (apply elem_of_choose; split; [done|by rewrite <-Hp]).
    destruct (Hfive _ Hin) as (r & He & _). exists r. split; [by rewrite (evaluate_five_perm _ _ Hp)|].
    by eapply Hub, Hom.
Qed.

(** C13: the seven-card evaluator returns the best five-card hand.  On seven
    distinct cards of the deck [evaluate_seven] returns the rank of some five
    of them, and no five of them (in whatever order) rank higher. *)
Theorem evaluate_seven_is_best cards :
  length cards = 7%nat → NoDup cards → Forall valid_card cards →
  ∃ r, evaluate_seven cards = Some r ∧ best_five cards r.
Proof. apply evaluate_seven_best_five. Qed.

Definition seven_example : list Card := wheel ++ [mkCard 13 Hearts; mkCard 13 Clubs].

Lemma evaluate_seven_is_best_witness :
  ∃ r, evaluate_seven seven_example = Some r ∧ best_five seven_example r.
Proof.
  apply evaluate_seven_is_best.
  - reflexivity.
  - apply (bool_decide_unpack _). vm_compute. exact I.
  - repeat constructor; vm_compute; congruence.
Defined.

(** The order in which hole cards and board are listed does not matter. *)
Lemma evaluate_seven_perm cards cards' :
  length cards = 7%nat → NoDup cards → Forall valid_card cards →
  cards ≡ₚ cards' → evaluate_seven cards = evaluate_seven cards'.
Proof.
  intros Hlen Hnd Hval Hp.
  destruct (evaluate_seven_best_five cards) as (r & -> & Hr); [done..|].
  destruct (evaluate_seven_best_five cards') as (r' & -> & Hr').
  - by rewrite <-Hp.
  - by rewrite <-Hp.
  - by rewrite <-Hp.
  - f_equal. apply (best_five_unique cards); [done|]. revert Hr'. unfold best_five.
    by setoid_rewrite Hp.
Qed.

(** ** The deck *)

(** deck indices and cards correspond one to one.  The indices 0 to 51
    are mapped to 52 distinct valid cards, every card [Card::new] accepts is
    the card of exactly the index [13 * suit + rank - 2], and larger indices
    are rejected. *)
Theorem deck_index_bijection :
  (∀ i, 0 <= i < 52 → ∃ c, Card_from_deck_index i = Ok c ∧ valid_card c
     ∧ 13 * suit_index (card_suit c) + card_rank c - 2 = i)
  ∧ (∀ r s c, Card_new r s = Ok c →
       Card_from_deck_index (13 * suit_index s + r - 2) = Ok c)
  ∧ (∀ i, 52 <= i → Card_from_deck_index i = Err (InvalidDeckIndex i)).
Proof.
  split_and!.
  - intros i Hi. unfold Card_from_deck_index. replace (52 <=? i) with false by lia.
    eexists; split; [done|]. unfold valid_card; simpl.
    pose proof (Z.mod_pos_bound i 13). split; [lia|].
    assert (i / 13 = 0 ∨ i / 13 = 1 ∨ i / 13 = 2 ∨ i / 13 = 3) as Hq
      by (pose proof (Z.div_mod i 13); lia).
    pose proof (Z.div_mod i 13). destruct Hq as [Hq|[Hq|[Hq|Hq]]]; rewrite Hq in *; simpl; lia.
  - intros r s c H. unfold Card_new in H. inv_ok. bool_props. unfold Card_from_deck_index.
    assert (0 <= suit_index s <= 3) by (destruct s; simpl; lia).
    replace (52 <=? 13 * suit_index s + r - 2) with false by lia.
    replace ((13 * suit_index s + r - 2) / 13) with (suit_index s)
      by (apply (Z.div_unique _ _ _ (r - 2)); lia).
    replace ((13 * suit_index s + r - 2) mod 13) with (r - 2)
      by (apply (Z.mod_unique _ _ (suit_index s)); lia).
    do 2 f_equal; [lia|]. by destruct s.
  - intros i Hi. unfold Card_from_deck_index. by replace (52 <=? i) with true by lia.
Qed.
