(* ===== verification/Holdem.v ===== *)
(** * Holdem: the betting engine of one hand (holdem.rs, lines 191 to 854)

    [HoldemHand] is the state of one hand of no-limit hold'em: the seats with
    their chips, the players whose action is still due ([pending]) and those
    who may still raise ([raise_rights]).  The methods that mutate it are
    state-passing computations; a state change made before an early error
    return persists, as it does in the Rust code. *)

From S2P Require Import Prelude Machine Order Ids Table Cards.

(** ** Data *)
Inductive Street := Preflop | Flop | Turn | River | Showdown | Complete.
#[export] Instance Street_eq_dec : EqDecision Street.
Proof. solve_decision. Defined.

Inductive SeatStatus := Active | Folded | AllIn.
#[export] Instance SeatStatus_eq_dec : EqDecision SeatStatus.
Proof. solve_decision. Defined.

Inductive PlayerAction := Fold | Check | Call | RaiseTo (target : Chips).
#[export] Instance PlayerAction_eq_dec : EqDecision PlayerAction.
Proof. solve_decision. Defined.

Record SeatState := mkSeat {
  seat_player : PlayerId;
  starting_stack : Chips;
  stack : Chips;
  total_committed : Chips;
  street_committed : Chips;
  status : SeatStatus;
}.
#[export] Instance SeatState_eq_dec : EqDecision SeatState.
Proof. solve_decision. Defined.

Record PlayerSettlement := mkSettlement {
  settled_player : PlayerId;
  settled_starting : Chips;
  settled_ending : Chips;
  settled_delta : SignedChips;
}.
Record HoldemSettlement := mkHoldemSettlement { settled_players : list PlayerSettlement }.

Inductive ActionOutcome :=
  | WaitingFor (p : PlayerId)
  | StreetAdvanced (s : Street) (p : option PlayerId)
  | ShowdownReady
  | HandComplete (s : HoldemSettlement).

Inductive HoldemError :=
  | InvalidSeatCount | InvalidDealerIndex | DuplicatePlayer | StackOutsideBuyInRange
  | NoActionExpected | OutOfTurn | CannotCheck | NothingToCall | RaiseMustIncreaseBet
  | RaiseNotReopened | InsufficientStack | RaiseBelowMinimum (minimum_target : Chips)
  | ShowdownNotReady | MissingHoleCards | DuplicateCard | UnknownPlayer | ChipOverflow
  | StateInvariant.

Record HoldemHand := mkHand {
  level : StakeLevel;
  dealer_index : nat;
  street : Street;
  seats : list SeatState;
  pending : gset PlayerId;
  raise_rights : gset PlayerId;
  current_bet : Chips;
  last_full_raise : Chips;
  next_to_act : option nat;
}.

Abbreviation HM := (M HoldemHand HoldemError).

(** Field updates. *)
Definition set_stack v s := mkSeat (seat_player s) (starting_stack s) v
  (total_committed s) (street_committed s) (status s).
Definition set_total_committed v s := mkSeat (seat_player s) (starting_stack s) (stack s)
  v (street_committed s) (status s).
Definition set_street_committed v s := mkSeat (seat_player s) (starting_stack s) (stack s)
  (total_committed s) v (status s).
Definition set_status v s := mkSeat (seat_player s) (starting_stack s) (stack s)
  (total_committed s) (street_committed s) v.
Definition set_street v h := mkHand (level h) (dealer_index h) v (seats h) (pending h)
  (raise_rights h) (current_bet h) (last_full_raise h) (next_to_act h).
Definition set_seats v h := mkHand (level h) (dealer_index h) (street h) v (pending h)
  (raise_rights h) (current_bet h) (last_full_raise h) (next_to_act h).
Definition set_pending v h := mkHand (level h) (dealer_index h) (street h) (seats h) v
  (raise_rights h) (current_bet h) (last_full_raise h) (next_to_act h).
Definition set_raise_rights v h := mkHand (level h) (dealer_index h) (street h) (seats h)
  (pending h) v (current_bet h) (last_full_raise h) (next_to_act h).
Definition set_current_bet v h := mkHand (level h) (dealer_index h) (street h) (seats h)
  (pending h) (raise_rights h) v (last_full_raise h) (next_to_act h).
Definition set_last_full_raise v h := mkHand (level h) (dealer_index h) (street h) (seats h)
  (pending h) (raise_rights h) (current_bet h) v (next_to_act h).
Definition set_next_to_act v h := mkHand (level h) (dealer_index h) (street h) (seats h)
  (pending h) (raise_rights h) (current_bet h) (last_full_raise h) v.

(** [self.seats[index]] and an assignment to one of its fields. *)
Definition seat_at (index : nat) : HM SeatState := λ h, (expect (seats h !! index), h).
Definition update_seat (index : nat) (f : SeatState → SeatState) : HM unit :=
  modify (λ h, set_seats (alter f index (seats h)) h).

Definition player_count (h : HoldemHand) : nat := length (seats h).

(** ** Queries *)

(** [remaining_contenders]. *)
Definition remaining_contenders (h : HoldemHand) : list PlayerId :=
  map seat_player (filter (λ s, status s ≠ Folded) (seats h)).

(** [actionable_players]. *)
Definition actionable_players (h : HoldemHand) (excluded : option PlayerId) : gset PlayerId :=
  list_to_set (map seat_player
    (filter (λ s, status s = Active ∧ Some (seat_player s) ≠ excluded) (seats h))).

(** [next_pending_from]: the first pending seat, clockwise from [start]. *)
Definition is_pending_index (h : HoldemHand) (index : nat) : bool :=
  match seats h !! index with
  | Some s => bool_decide (seat_player s ∈ pending h)
  | None => false
  end.
Definition next_pending_from (h : HoldemHand) (start : nat) : option nat :=
  let n := player_count h in
  find_first (is_pending_index h) (map (λ offset, (start + offset) `mod` n)%nat (seq 0 n)).

(** [next_player]. *)
Definition next_player (h : HoldemHand) : result HoldemError (option PlayerId) :=
  match next_to_act h with
  | Some index => s ← expect (seats h !! index); Ok (Some (seat_player s))
  | None => Ok None
  end.

(** [seat]. *)
Definition find_seat (h : HoldemHand) (player : PlayerId) : option SeatState :=
  find_first (λ s, bool_decide (seat_player s = player)) (seats h).

(** [pot], [amount_to_call], [minimum_raise_to]. *)
Definition pot (h : HoldemHand) : result HoldemError Chips :=
  try_fold (λ acc s, ok_or (Chips_checked_add acc (total_committed s)) ChipOverflow)
    Chips_ZERO (seats h).
Definition amount_to_call (h : HoldemHand) (player : PlayerId) : result HoldemError Chips :=
  s ← ok_or (find_seat h player) UnknownPlayer;
  Ok (u64_saturating_sub (current_bet h) (street_committed s)).
Definition minimum_raise_to (h : HoldemHand) : result HoldemError Chips :=
  ok_or (Chips_checked_add (current_bet h) (last_full_raise h)) ChipOverflow.

(** [blind_positions]: small blind, big blind, first to act. *)
Definition blind_positions (h : HoldemHand) : nat * nat * nat :=
  let n := player_count h in
  let d := dealer_index h in
  if (n =? 2)%nat then (d, ((d + 1) `mod` 2)%nat, d)
  else (((d + 1) `mod` n)%nat, ((d + 2) `mod` n)%nat, ((d + 3) `mod` n)%nat).

(** [build_settlement].  The deltas are sums of at most nine u64 differences,
    far inside an i128. *)
Definition settle_seat (s : SeatState) : PlayerSettlement :=
  mkSettlement (seat_player s) (starting_stack s) (stack s) (stack s - starting_stack s).
Definition build_settlement (h : HoldemHand) : result HoldemError HoldemSettlement :=
  let players := map settle_seat (seats h) in
  let total_delta := sum_with settled_delta players in
  if negb (total_delta =? 0) then Err StateInvariant else Ok (mkHoldemSettlement players).

(** ** Primitive mutations *)

(** [commit]: move chips from the stack into the pot, all-in when it empties. *)
Definition commit (index : nat) (requested : Chips) : HM unit :=
  s ← seat_at index;
  let amount := Z.min requested (stack s) in
  stack' ← lift (ok_or (Chips_checked_sub (stack s) amount) StateInvariant);
  _ ← update_seat index (set_stack stack');
  total' ← lift (ok_or (Chips_checked_add (total_committed s) amount) ChipOverflow);
  _ ← update_seat index (set_total_committed total');
  street' ← lift (ok_or (Chips_checked_add (street_committed s) amount) ChipOverflow);
  _ ← update_seat index (set_street_committed street');
  if stack' =? 0 then update_seat index (set_status AllIn) else mret tt.

(** [reset_pending_for_street]. *)
Definition reset_pending_for_street : HM unit :=
  _ ← modify (λ h, set_pending (actionable_players h None) h);
  modify (λ h, set_raise_rights (pending h) h).

(** [consume_action]. *)
Definition consume_action (player : PlayerId) : HM unit :=
  _ ← modify (λ h, set_pending (pending h ∖ {[player]}) h);
  modify (λ h, set_raise_rights (raise_rights h ∖ {[player]}) h).

(** [award], through [seat_mut]. *)
Definition award (player : PlayerId) (amount : Z) : HM unit :=
  h ← gets id;
  match list_find (λ s, seat_player s = player) (seats h) with
  | None => lift (Err UnknownPlayer)
  | Some (index, s) =>
      stack' ← lift (ok_or (Chips_checked_add (stack s) amount) ChipOverflow);
      update_seat index (set_stack stack')
  end.

(** [award_split]: equal shares, then the odd chips one by one clockwise from
    the dealer's left. *)
Definition clockwise_players (h : HoldemHand) : list PlayerId :=
  let n := player_count h in
  omap (λ offset, seat_player <$> (seats h !! ((dealer_index h + offset) `mod` n)%nat)) (seq 1 n).
Definition award_split (pot : Z) (winners : list PlayerId) : HM unit :=
  let count := Z.of_nat (length winners) in
  if count =? 0 then lift Panic else
  let share := pot / count in
  let remainder := pot mod count in
  _ ← for_each (λ winner, award winner share) winners;
  h ← gets id;
  let ordered := filter (λ p, p ∈ winners) (clockwise_players h) in
  for_each (λ winner, award winner 1) (take (Z.to_nat remainder) ordered).

(** [finish_uncontested]. *)
Definition committed_total (h : HoldemHand) : option Z :=
  foldl (λ acc s, total ← acc; u64_checked_add total (total_committed s)) (Some 0) (seats h).
Definition finish_uncontested (winner : PlayerId) : HM HoldemSettlement :=
  h ← gets id;
  pot ← lift (ok_or (committed_total h) ChipOverflow);
  _ ← award winner pot;
  _ ← modify (set_street Complete);
  h ← gets id;
  lift (build_settlement h).

(** ** Starting a hand *)

Definition fresh_seat (p : PlayerId * Chips) : SeatState :=
  mkSeat p.1 p.2 p.2 0 0 Active.

Definition fresh_hand (l : StakeLevel) (players : list (PlayerId * Chips)) (dealer : nat) :=
  mkHand l dealer Preflop (map fresh_seat players) ∅ ∅ (big_blind l) (big_blind l) None.

(** The blinds, once the seats are filled. *)
Definition post_blinds : HM unit :=
  h ← gets id;
  let '(small_index, big_index, first) := blind_positions h in
  _ ← commit small_index (small_blind (level h));
  _ ← commit big_index (big_blind (level h));
  _ ← reset_pending_for_street;
  modify (λ h, set_next_to_act (next_pending_from h first) h).

(** [HoldemHand::start]. *)
Definition start (l : StakeLevel) (players : list (PlayerId * Chips)) (dealer : nat)
    : result HoldemError HoldemHand :=
  let n := Z.of_nat (length players) in
  _ ← reject_if ((n <? minimum_players l) || (maximum_players l <? n)) InvalidSeatCount;
  _ ← reject_if (n <=? Z.of_nat dealer) InvalidDealerIndex;
  _ ← reject_if (negb (bool_decide (size (list_to_set (map fst players) : gset PlayerId)
                                    = length players))) DuplicatePlayer;
  _ ← reject_if (existsb (λ p, (snd p <? minimum_buy_in l) || (maximum_buy_in l <? snd p)) players)
        StackOutsideBuyInRange;
  match post_blinds (fresh_hand l players dealer) with
  | (Ok _, h) => Ok h
  | (Err e, _) => Err e
  | (Panic, _) => Panic
  end.

(** ** Acting *)

(** The short all-in branch of [raise_to]: players who now face more chips get
    an action, and the right to raise only when they face a full raise. *)
Definition reopen (h : HoldemHand) (sets : gset PlayerId * gset PlayerId) (s : SeatState)
    : gset PlayerId * gset PlayerId :=
  if bool_decide (status s = Active) && (street_committed s <? current_bet h) then
    ({[seat_player s]} ∪ sets.1,
     if last_full_raise h <=? current_bet h - street_committed s
     then {[seat_player s]} ∪ sets.2 else sets.2)
  else sets.

(** [raise_to]. *)
Definition raise_to (actor_index : nat) (target : Chips) : HM unit :=
  h ← gets id;
  s ← seat_at actor_index;
  let player := seat_player s in
  _ ← lift (reject_if (negb (bool_decide (player ∈ raise_rights h))) RaiseNotReopened);
  _ ← lift (reject_if ((target <=? current_bet h) || (target <=? street_committed s))
              RaiseMustIncreaseBet);
  additional ← lift (ok_or (Chips_checked_sub target (street_committed s)) StateInvariant);
  _ ← lift (reject_if (stack s <? additional) InsufficientStack);
  minimum_target ← lift (if current_bet h =? 0 then Ok (big_blind (level h))
                         else ok_or (Chips_checked_add (current_bet h) (last_full_raise h))
                                ChipOverflow);
  let is_all_in := additional =? stack s in
  _ ← lift (reject_if ((target <? minimum_target) && negb is_all_in)
              (RaiseBelowMinimum minimum_target));
  let previous_bet := current_bet h in
  _ ← commit actor_index additional;
  _ ← modify (set_current_bet target);
  _ ← consume_action player;
  if minimum_target <=? target then
    full_raise ← lift (ok_or (Chips_checked_sub target previous_bet) StateInvariant);
    _ ← modify (set_last_full_raise full_raise);
    _ ← modify (λ h, set_pending (actionable_players h (Some player)) h);
    modify (λ h, set_raise_rights (pending h) h)
  else
    modify (λ h, let sets := foldl (reopen h) (pending h, raise_rights h) (seats h) in
                 set_raise_rights sets.2 (set_pending sets.1 h)).

(** The street after, while betting goes on. *)
Definition next_street (s : Street) : option Street :=
  match s with
  | Preflop => Some Flop | Flop => Some Turn | Turn => Some River | River => Some Showdown
  | Showdown | Complete => None
  end.

(** [advance_street]: it calls itself while fewer than two players can act.
    Four calls reach the showdown from any betting street; the fuel of
    [advance_street] is more than that. *)
Fixpoint advance_street_from (fuel : nat) : HM ActionOutcome :=
  match fuel with
  | O => lift Panic
  | S fuel =>
      h ← gets id;
      next ← lift (ok_or (next_street (street h)) StateInvariant);
      _ ← modify (set_street next);
      if bool_decide (next = Showdown) then
        _ ← modify (set_next_to_act None);
        mret ShowdownReady
      else
        _ ← modify (λ h, set_seats (map (set_street_committed 0) (seats h)) h);
        _ ← modify (set_current_bet 0);
        _ ← modify (λ h, set_last_full_raise (big_blind (level h)) h);
        _ ← reset_pending_for_street;
        _ ← modify (λ h, set_next_to_act
                      (next_pending_from h ((dealer_index h + 1) `mod` player_count h)%nat) h);
        h ← gets id;
        if (size (pending h) <? 2)%nat then
          _ ← modify (set_pending ∅);
          advance_street_from fuel
        else
          p ← lift (next_player h);
          mret (StreetAdvanced (street h) p)
  end.
Definition advance_street : HM ActionOutcome := advance_street_from 6.

(** The part of [act] that applies the player's own action. *)
Definition apply_action (actor_index : nat) (player : PlayerId) (action : PlayerAction) : HM unit :=
  match action with
  | Fold =>
      _ ← update_seat actor_index (set_status Folded);
      consume_action player
  | Check =>
      h ← gets id;
      s ← seat_at actor_index;
      _ ← lift (reject_if (negb (street_committed s =? current_bet h)) CannotCheck);
      consume_action player
  | Call =>
      h ← gets id;
      s ← seat_at actor_index;
      let needed := u64_saturating_sub (current_bet h) (street_committed s) in
      _ ← lift (reject_if (needed =? 0) NothingToCall);
      let paid := Z.min needed (stack s) in
      _ ← commit actor_index paid;
      consume_action player
  | RaiseTo target => raise_to actor_index target
  end.

(** The part of [act] after the action: the last contender wins, the street
    advances, or the turn passes on. *)
Definition finish_turn (actor_index : nat) : HM ActionOutcome :=
  h ← gets id;
  match remaining_contenders h with
  | [winner] =>
      settlement ← finish_uncontested winner;
      mret (HandComplete settlement)
  | _ =>
      if bool_decide (pending h = ∅) then advance_street else
      _ ← modify (λ h, set_next_to_act
                    (next_pending_from h ((actor_index + 1) `mod` player_count h)%nat) h);
      h ← gets id;
      p ← lift (next_player h);
      p ← lift (ok_or p StateInvariant);
      mret (WaitingFor p)
  end.

(** [act]. *)
Definition act (player : PlayerId) (action : PlayerAction) : HM ActionOutcome :=
  h ← gets id;
  actor_index ← lift (ok_or (next_to_act h) NoActionExpected);
  s ← seat_at actor_index;
  _ ← lift (reject_if (negb (bool_decide (seat_player s = player))) OutOfTurn);
  _ ← apply_action actor_index player action;
  finish_turn actor_index.

(** ** Showdown *)

(** Insert cards into the [seen_cards] set, failing on a repetition. *)
Definition see_card (seen : gset Card) (c : Card) : result HoldemError (gset Card) :=
  if bool_decide (c ∈ seen) then Err DuplicateCard else Ok ({[c]} ∪ seen).

Definition hole_list (hole : Card * Card) : list Card := [hole.1; hole.2].

(** [evaluate_seven] of a player's hole cards and the board. *)
Definition showdown_rank (board : list Card) (hole : Card * Card) : result HoldemError HandRank :=
  expect (evaluate_seven (hole_list hole ++ board)).

(** The seats that reach a layer. *)
Definition reaches (threshold : Z) (s : SeatState) : Prop := threshold <= total_committed s.
#[export] Instance reaches_dec t s : Decision (reaches t s).
Proof. unfold reaches. apply _. Defined.

Definition player_reaches (h : HoldemHand) (threshold : Z) (p : PlayerId) : Prop :=
  match find_seat h p with Some s => reaches threshold s | None => False end.
#[export] Instance player_reaches_dec h t p : Decision (player_reaches h t p).
Proof. unfold player_reaches. destruct (find_seat h p); apply _. Defined.

Definition eligible_for (h : HoldemHand) (threshold : Z) (contenders : list PlayerId)
    : list PlayerId :=
  filter (player_reaches h threshold) contenders.

(** One layer of the pot. *)
Definition settle_layer (contenders : list PlayerId) (ranks : gmap PlayerId HandRank)
    (previous threshold : Z) : HM unit :=
  h ← gets id;
  let contributors := Z.of_nat (length (filter (reaches threshold) (seats h))) in
  slice ← lift (u64_sub threshold previous);
  pot ← lift (ok_or (u64_checked_mul slice contributors) ChipOverflow);
  let eligible := eligible_for h threshold contenders in
  match eligible with
  | [] =>
      match map seat_player (filter (reaches threshold) (seats h)) with
      | [p] => award p pot
      | _ => lift (Err StateInvariant)
      end
  | _ :: _ =>
      eligible_ranks ← lift (try_collect (λ p, expect (ranks !! p)) eligible);
      best ← lift (ok_or (iter_max eligible_ranks) StateInvariant);
      let winners := filter (λ p, ranks !! p = Some best) eligible in
      award_split pot winners
  end.

Fixpoint settle_layers (contenders : list PlayerId) (ranks : gmap PlayerId HandRank)
    (previous : Z) (thresholds : list Z) : HM unit :=
  match thresholds with
  | [] => mret tt
  | threshold :: rest =>
      _ ← settle_layer contenders ranks previous threshold;
      settle_layers contenders ranks threshold rest
  end.

(** The distinct positive commitments, in increasing order. *)
Definition pot_thresholds (h : HoldemHand) : list Z :=
  btree_iter (list_to_set (filter (λ v, 0 < v) (map total_committed (seats h))) : gset Z).

(** The checks at the head of [settle_showdown], and the ranks. *)
Definition showdown_ranks (h : HoldemHand) (board : list Card)
    (hole_cards : gmap PlayerId (Card * Card)) : result HoldemError (gmap PlayerId HandRank) :=
  let contenders := remaining_contenders h in
  _ ← reject_if (negb (bool_decide (street h = Showdown))) ShowdownNotReady;
  _ ← reject_if (existsb (λ p, bool_decide (hole_cards !! p = None)) contenders) MissingHoleCards;
  holes ← try_collect (λ p, expect (hole_cards !! p)) contenders;
  _ ← try_fold see_card ∅ (board ++ flat_map hole_list holes);
  ranks ← try_collect (showdown_rank board) holes;
  Ok (list_to_map (zip contenders ranks)).

(** [settle_showdown]. *)
Definition settle_showdown (board : list Card) (hole_cards : gmap PlayerId (Card * Card))
    : HM HoldemSettlement :=
  h ← gets id;
  ranks ← lift (showdown_ranks h board hole_cards);
  _ ← settle_layers (remaining_contenders h) ranks 0 (pot_thresholds h);
  _ ← modify (set_street Complete);
  h ← gets id;
  lift (build_settlement h).
