(* ===== verification/HoldemInv.v ===== *)
(** * HoldemInv: the invariant of the betting engine

    [hand_core] is the chip and bookkeeping invariant of a hand, [betting] adds
    that an action is due.  Every accepted action preserves it, every rejected
    one leaves the state unchanged, and no reachable state panics. *)

From S2P Require Import Prelude Machine Order Ids Table Cards Holdem.

(** ** The invariant *)

(** A seat: the chips of the player are split between the stack and the pot,
    nobody has put more than the current bet in on this street, all-in means
    an empty stack, and a player who can act has chips. *)
Definition seat_ok (bb bet : Z) (s : SeatState) : Prop :=
  0 <= stack s ∧ 0 <= street_committed s ∧ street_committed s <= total_committed s
  ∧ stack s + total_committed s = starting_stack s
  ∧ street_committed s <= bet ∧ bb <= starting_stack s
  ∧ (status s = AllIn → stack s = 0) ∧ (status s = Active → 0 < stack s).

Definition bankroll (h : HoldemHand) : Z := sum_with starting_stack (seats h).

Record hand_core (h : HoldemHand) : Prop := {
  hc_level : level_wf (level h);
  hc_dealer : (dealer_index h < player_count h)%nat;
  hc_nodup : NoDup (map seat_player (seats h));
  hc_seats : Forall (seat_ok (big_blind (level h)) (current_bet h)) (seats h);
  hc_funds : 2 * bankroll h <= u64_max;
  hc_bet : 0 <= current_bet h <= bankroll h;
  hc_raise : big_blind (level h) <= last_full_raise h <= bankroll h;
  hc_pending : ∀ p, p ∈ pending h →
    ∃ s, s ∈ seats h ∧ seat_player s = p ∧ status s = Active;
  hc_matched : ∀ s, s ∈ seats h → status s = Active → seat_player s ∉ pending h →
    street_committed s = current_bet h;
}.

Definition betting_street (s : Street) : Prop := is_Some (next_street s).

(** An action is due from the seat [next_to_act]. *)
Record betting (h : HoldemHand) : Prop := {
  bt_core : hand_core h;
  bt_rights : raise_rights h ⊆ pending h;
  bt_street : betting_street (street h);
  bt_contenders : (2 <= length (remaining_contenders h))%nat;
  bt_next : ∃ i s, next_to_act h = Some i ∧ seats h !! i = Some s ∧ seat_player s ∈ pending h;
}.

(** Betting is over, the cards decide. *)
Record at_showdown (h : HoldemHand) : Prop := {
  sd_core : hand_core h;
  sd_street : street h = Showdown;
  sd_contenders : (2 <= length (remaining_contenders h))%nat;
  sd_closed : pending h = ∅ ∧ next_to_act h = None;
}.

(** What no step of a hand changes. *)
Record same_table (h h' : HoldemHand) : Prop := {
  st_level : level h' = level h;
  st_dealer : dealer_index h' = dealer_index h;
  st_players : map seat_player (seats h') = map seat_player (seats h);
  st_starting : map starting_stack (seats h') = map starting_stack (seats h);
}.

#[export] Instance same_table_preorder : PreOrder same_table.
Proof.
  split; [by intros h; split|]. intros h1 h2 h3 [] []. split; congruence.
Qed.

Lemma same_table_length h h' : same_table h h' → player_count h' = player_count h.
Proof.
  intros [_ _ Hp _]. unfold player_count. apply (f_equal length) in Hp. by rewrite !length_map in Hp.
Qed.

Lemma bankroll_map h : bankroll h = sum_with (λ x, x) (map starting_stack (seats h)).
Proof. unfold bankroll. by rewrite sum_with_map. Qed.

Lemma same_table_bankroll h h' : same_table h h' → bankroll h' = bankroll h.
Proof. intros [_ _ _ Hs]. by rewrite !bankroll_map, Hs. Qed.

(** ** Facts about seats *)

Lemma seat_ok_lookup h i s :
  hand_core h → seats h !! i = Some s → seat_ok (big_blind (level h)) (current_bet h) s.
Proof. intros Hc Hi. eapply Forall_lookup_1; [apply Hc|done]. Qed.

Lemma bankroll_elem h s : hand_core h → s ∈ seats h → starting_stack s <= bankroll h.
Proof.
  intros Hc Hs. apply sum_with_elem_le; [|done]. intros t Ht.
  pose proof (hc_seats _ Hc) as Hok. rewrite Forall_forall in Hok.
  specialize (Hok _ Ht) as (? & ? & ? & ? & _). lia.
Qed.

Lemma seat_ok_bet_mono bb bet bet' s : bet <= bet' → seat_ok bb bet s → seat_ok bb bet' s.
Proof. unfold seat_ok. intros. intuition lia. Qed.

Lemma lookup_seat_player h i s p :
  hand_core h → seats h !! i = Some s → seat_player s = p →
  ∀ t, t ∈ seats h → seat_player t = p → t = s.
Proof.
  intros Hc Hi Hp t Ht Htp. apply (NoDup_key_eq seat_player (seats h)); [apply Hc|done| |congruence].
  by eapply list_elem_of_lookup_2.
Qed.

Lemma pending_active h i s :
  hand_core h → seats h !! i = Some s → seat_player s ∈ pending h → status s = Active.
Proof.
  intros Hc Hi Hp. destruct (hc_pending _ Hc _ Hp) as (t & Ht & Htp & Hact).
  by rewrite <-(lookup_seat_player h i s _ Hc Hi eq_refl t Ht Htp).
Qed.

Lemma elem_of_insert_seat (l : list SeatState) i s' t :
  t ∈ <[i:=s']> l → t = s' ∨ ∃ j, j ≠ i ∧ l !! j = Some t.
Proof.
  intros [j Hj]%list_elem_of_lookup. destruct (decide (i = j)) as [->|Hne].
  - destruct (decide (j < length l)%nat).
    + rewrite list_lookup_insert_eq in Hj by done. left. congruence.
    + rewrite list_insert_ge in Hj by lia. apply lookup_lt_Some in Hj. lia.
  - rewrite list_lookup_insert_ne in Hj by done. eauto.
Qed.

Lemma other_seat_player h i s j t :
  hand_core h → seats h !! i = Some s → seats h !! j = Some t → j ≠ i →
  seat_player t ≠ seat_player s.
Proof.
  intros Hc Hi Hj Hne Heq. apply Hne. eapply (NoDup_lookup (map seat_player (seats h)));
    [apply Hc| |]; rewrite list_lookup_fmap; [by rewrite Hj|by rewrite Hi; simpl; rewrite Heq].
Qed.

(** ** [commit] *)

(** A seat that has put [amount] more chips in. *)
Definition pay (amount : Z) (s : SeatState) : SeatState :=
  mkSeat (seat_player s) (starting_stack s) (stack s - amount) (total_committed s + amount)
    (street_committed s + amount) (if stack s - amount =? 0 then AllIn else status s).

Lemma alter_insert_seat {A} (f : A → A) (l : list A) i (s : A) :
  l !! i = Some s → alter f i l = <[i := f s]> l.
Proof.
  revert i; induction l as [|x l IH]; intros [|i] Hi; simplify_eq/=; [done|].
  change (x :: alter f i l = x :: <[i := f s]> l). by rewrite IH.
Qed.

Lemma alter_insert_same {A} (f : A → A) (l : list A) i (s : A) :
  (i < length l)%nat → alter f i (<[i := s]> l) = <[i := f s]> l.
Proof.
  intros Hi. rewrite (alter_insert_seat f _ i s) by (by apply list_lookup_insert_eq).
  apply list_insert_insert_eq.
Qed.

Lemma commit_spec h i s requested :
  seats h !! i = Some s → 0 <= requested <= stack s →
  0 <= street_committed s <= total_committed s → stack s + total_committed s <= u64_max →
  commit i requested h = (Ok tt, set_seats (<[i := pay requested s]> (seats h)) h).
Proof.
  intros Hi Hr Hst Hmax. unfold commit, seat_at, update_seat; run_code. rewrite Hi; simpl.
  rewrite Z.min_l by lia. unfold Chips_checked_sub, Chips_checked_add.
  rewrite u64_checked_sub_ok, !u64_checked_add_ok by lia. simpl.
  unfold set_seats; simpl.
  assert (i < length (seats h))%nat as Hlt by (by eapply lookup_lt_Some).
  rewrite (alter_insert_seat _ _ i _ Hi).
  unfold pay. destruct (stack s - requested =? 0); simpl;
    by rewrite !(alter_insert_same _ _ i _ Hlt).
Qed.

(** ** [award] *)

Lemma list_find_player (l : list SeatState) i s :
  NoDup (map seat_player l) → l !! i = Some s →
  list_find (λ t, seat_player t = seat_player s) l = Some (i, s).
Proof.
  intros Hnd Hi. apply list_find_Some. split_and!; [done|done|]. intros j t Hj Hlt Heq.
  assert (j = i); [|lia]. eapply (NoDup_lookup (map seat_player l)); [done| |];
    rewrite list_lookup_fmap; [by rewrite Hj|by rewrite Hi; simpl; rewrite Heq].
Qed.

Definition grant (amount : Z) (s : SeatState) : SeatState := set_stack (stack s + amount) s.

Lemma award_spec h i s amount :
  NoDup (map seat_player (seats h)) → seats h !! i = Some s → stack s + amount <= u64_max →
  award (seat_player s) amount h = (Ok tt, set_seats (<[i := grant amount s]> (seats h)) h).
Proof.
  intros Hnd Hi Hmax. unfold award; run_code. rewrite (list_find_player _ i s) by done.
  unfold Chips_checked_add. rewrite u64_checked_add_ok by done. run_code. unfold update_seat; run_code.
  by rewrite (alter_insert_seat _ _ i s Hi).
Qed.

(** ** The state after an action *)

Definition after (h : HoldemHand) (ss : list SeatState) (pend rights : gset PlayerId)
    (bet lfr : Z) : HoldemHand :=
  mkHand (level h) (dealer_index h) (street h) ss pend rights bet lfr (next_to_act h).

Lemma same_table_insert h i s s' pend rights bet lfr :
  seats h !! i = Some s → seat_player s' = seat_player s → starting_stack s' = starting_stack s →
  same_table h (after h (<[i:=s']> (seats h)) pend rights bet lfr).
Proof. intros Hi Hp Hs. split; simpl; [done..| |]; by eapply NoDup_map_insert. Qed.

(** Replacing the acting seat re-establishes the invariant. *)
Lemma hand_core_update h i s s' pend rights bet lfr :
  hand_core h → seats h !! i = Some s →
  seat_player s' = seat_player s → starting_stack s' = starting_stack s →
  seat_ok (big_blind (level h)) bet s' →
  current_bet h <= bet <= bankroll h → big_blind (level h) <= lfr <= bankroll h →
  seat_player s ∉ pend →
  (∀ p, p ∈ pend → ∃ t, t ∈ seats h ∧ seat_player t = p ∧ status t = Active) →
  (status s' = Active → street_committed s' = bet) →
  (∀ j t, j ≠ i → seats h !! j = Some t → status t = Active → seat_player t ∉ pend →
     street_committed t = bet) →
  hand_core (after h (<[i:=s']> (seats h)) pend rights bet lfr).
Proof.
  intros Hc Hi Hp Hst Hok Hbet Hlfr Hactor Hpend Hs' Hother.
  pose proof (same_table_insert h i s s' pend rights bet lfr Hi Hp Hst) as Hsame.
  pose proof (same_table_bankroll _ _ Hsame) as Hbank.
  assert (map seat_player (<[i:=s']> (seats h)) = map seat_player (seats h)) as Hpl
    by apply Hsame.
  split; cbn [after level dealer_index seats pending raise_rights current_bet last_full_raise];
    rewrite ?Hbank, ?Hpl; try (by apply Hc); try done.
  - rewrite (same_table_length _ _ Hsame). apply Hc.
  - apply Forall_insert; [|done]. eapply Forall_impl; [apply Hc|].
    intros t. apply seat_ok_bet_mono. lia.
  - pose proof (hc_bet _ Hc). lia.
  - intros p Hpp. destruct (Hpend p Hpp) as (t & [j Hj]%list_elem_of_lookup & Htp & Ht).
    exists t. split; [|done]. apply list_elem_of_lookup. exists j.
    rewrite list_lookup_insert_ne; [done|]. intros ->. congruence.
  - intros t Ht Hact Hn. apply elem_of_insert_seat in Ht as [->|(j & Hj & Ht)]; [auto|].
    by eapply Hother.
Qed.

Definition chips_behind (h : HoldemHand) : Z := sum_with stack (seats h).

(** An accepted action makes progress: it uses up the actor's turn and either
    moves chips into the pot or shortens the list of pending players. *)
Record progress (h : HoldemHand) (player : PlayerId) (action : PlayerAction) (h' : HoldemHand)
    : Prop := {
  pg_core : hand_core h';
  pg_rights : raise_rights h' ⊆ pending h';
  pg_table : same_table h h';
  pg_street : street h' = street h;
  pg_next : next_to_act h' = next_to_act h;
  pg_actor : player ∉ pending h';
  pg_measure : chips_behind h' < chips_behind h
    ∨ chips_behind h' = chips_behind h ∧ (size (pending h') < size (pending h))%nat;
  pg_contenders : match action with
    | Fold => length (remaining_contenders h) = S (length (remaining_contenders h'))
    | _ => remaining_contenders h' = remaining_contenders h
    end;
}.

(** The rule violations [act] reports; none of them is an internal error. *)
Definition rule_error (e : HoldemError) : Prop :=
  match e with
  | NoActionExpected | OutOfTurn | CannotCheck | NothingToCall | RaiseMustIncreaseBet
  | RaiseNotReopened | InsufficientStack | RaiseBelowMinimum _ => True
  | _ => False
  end.

Definition contender (s : SeatState) : Prop := status s ≠ Folded.
#[export] Instance contender_dec s : Decision (contender s).
Proof. unfold contender. apply _. Defined.

Lemma contenders_insert (l : list SeatState) i s s' :
  l !! i = Some s → seat_player s' = seat_player s → (contender s' ↔ contender s) →
  map seat_player (filter contender (<[i:=s']> l)) = map seat_player (filter contender l).
Proof.
  revert i; induction l as [|t l IH]; intros [|i] Hi Hp Hc; simplify_eq/=; rewrite !filter_cons.
  - destruct (decide (contender s')), (decide (contender s)); simpl; [|tauto..|done]. by rewrite Hp.
  - case_decide; simpl; [f_equal|]; by apply IH.
Qed.

Lemma contenders_fold (l : list SeatState) i s :
  l !! i = Some s → contender s →
  length (filter contender l) = S (length (filter contender (<[i:=set_status Folded s]> l))).
Proof.
  revert i; induction l as [|t l IH]; intros [|i] Hi Hc; simplify_eq/=; rewrite !filter_cons.
  - rewrite decide_True by done. rewrite decide_False by (unfold contender; simpl; tauto). done.
  - case_decide; simpl; [f_equal|]; by apply IH.
Qed.

Lemma elem_of_actionable h excluded p :
  p ∈ actionable_players h excluded ↔
  ∃ s, s ∈ seats h ∧ seat_player s = p ∧ status s = Active ∧ Some p ≠ excluded.
Proof.
  unfold actionable_players. rewrite elem_of_list_to_set, list_elem_of_fmap.
  setoid_rewrite list_elem_of_filter. naive_solver.
Qed.

(** What the short all-in loop of [raise_to] computes: who faces more chips,
    and who faces a full raise. *)
Definition faces_bet (h : HoldemHand) (s : SeatState) : Prop :=
  status s = Active ∧ street_committed s < current_bet h.
Definition faces_full_raise (h : HoldemHand) (s : SeatState) : Prop :=
  faces_bet h s ∧ last_full_raise h <= current_bet h - street_committed s.

Lemma elem_of_reopen_one h P R s p :
  (p ∈ (reopen h (P, R) s).1 ↔ p ∈ P ∨ seat_player s = p ∧ faces_bet h s) ∧
  (p ∈ (reopen h (P, R) s).2 ↔ p ∈ R ∨ seat_player s = p ∧ faces_full_raise h s).
Proof.
  unfold reopen, faces_full_raise, faces_bet; simpl.
  assert ((street_committed s <? current_bet h) = true ↔ street_committed s < current_bet h)
    as HA by apply Z.ltb_lt.
  assert ((last_full_raise h <=? current_bet h - street_committed s) = true
    ↔ last_full_raise h <= current_bet h - street_committed s) as HB by apply Z.leb_le.
  destruct (street_committed s <? current_bet h), (last_full_raise h <=? _),
    (bool_decide_reflect (status s = Active)); simpl; rewrite ?elem_of_union, ?elem_of_singleton;
    naive_solver.
Qed.

Lemma elem_of_reopen h l P R p :
  (p ∈ (foldl (reopen h) (P, R) l).1 ↔ p ∈ P ∨ ∃ s, s ∈ l ∧ seat_player s = p ∧ faces_bet h s) ∧
  (p ∈ (foldl (reopen h) (P, R) l).2 ↔
     p ∈ R ∨ ∃ s, s ∈ l ∧ seat_player s = p ∧ faces_full_raise h s).
Proof.
  revert P R; induction l as [|s l IH]; intros P R; [set_solver|]. simpl.
  pose proof (elem_of_reopen_one h P R s p) as [H1 H2].
  destruct (reopen h (P, R) s) as [P' R'] eqn:Hr. simpl in *.
  destruct (IH P' R') as [-> ->]. rewrite H1, H2. setoid_rewrite elem_of_cons. naive_solver.
Qed.

Section act_step.
Context (h : HoldemHand) (i : nat) (s : SeatState).
Hypothesis Hcore : hand_core h.
Hypothesis Hi : seats h !! i = Some s.
Hypothesis Hpend : seat_player s ∈ pending h.
Hypothesis Hrights : raise_rights h ⊆ pending h.
Let player := seat_player s.

Let Hactive : status s = Active := pending_active h i s Hcore Hi Hpend.
Let Hok : seat_ok (big_blind (level h)) (current_bet h) s := seat_ok_lookup h i s Hcore Hi.

Lemma actor_funds : starting_stack s <= bankroll h.
Proof. apply bankroll_elem; [done|]. by eapply list_elem_of_lookup_2. Qed.

Lemma size_consume : (size (pending h ∖ {[player]}) < size (pending h))%nat.
Proof. apply subset_size. set_solver. Qed.

Lemma consume_rights : raise_rights h ∖ {[player]} ⊆ pending h ∖ {[player]}.
Proof. set_solver. Qed.

(** The bets stay, the actor's seat changes and the actor is done. *)
Lemma consume_core s' :
  seat_player s' = player → starting_stack s' = starting_stack s →
  seat_ok (big_blind (level h)) (current_bet h) s' →
  (status s' = Active → street_committed s' = current_bet h) →
  hand_core (after h (<[i:=s']> (seats h)) (pending h ∖ {[player]}) (raise_rights h ∖ {[player]})
               (current_bet h) (last_full_raise h)).
Proof.
  intros Hp Hs Hok' Hm. apply (hand_core_update h i s); try done.
  - pose proof (hc_bet _ Hcore). lia.
  - apply Hcore.
  - set_solver.
  - intros p Hp'. apply (hc_pending _ Hcore). set_solver.
  - intros j t Hj Ht Hact Hn. apply (hc_matched _ Hcore); [by eapply list_elem_of_lookup_2|done|].
    pose proof (other_seat_player h i s j t Hcore Hi Ht Hj). set_solver.
Qed.

Lemma fold_step :
  ∃ h', apply_action i player Fold h = (Ok tt, h') ∧ progress h player Fold h'.
Proof.
  exists (after h (<[i:=set_status Folded s]> (seats h)) (pending h ∖ {[player]})
            (raise_rights h ∖ {[player]}) (current_bet h) (last_full_raise h)).
  split.
  { unfold apply_action, update_seat, consume_action; run_code.
    by rewrite (alter_insert_seat _ _ i s Hi). }
  split; simpl; try done.
  - apply consume_core; [done..| |done]. unfold seat_ok in *; simpl. intuition congruence.
  - apply consume_rights.
  - by eapply same_table_insert.
  - set_solver.
  - right. split; [|apply size_consume]. unfold chips_behind; simpl.
    rewrite (sum_with_insert stack _ i s) by done. simpl. lia.
  - unfold remaining_contenders; simpl. rewrite !length_map.
    apply (contenders_fold _ i s Hi). unfold contender. congruence.
Qed.

Lemma check_rejected :
  street_committed s ≠ current_bet h → apply_action i player Check h = (Err CannotCheck, h).
Proof.
  intros Hne. unfold apply_action, seat_at; run_code. rewrite Hi; simpl.
  by replace (street_committed s =? current_bet h) with false by lia.
Qed.

Lemma check_step :
  street_committed s = current_bet h →
  ∃ h', apply_action i player Check h = (Ok tt, h') ∧ progress h player Check h'.
Proof.
  intros Heq. unfold apply_action, seat_at, consume_action; run_code. rewrite Hi; simpl.
  replace (street_committed s =? current_bet h) with true by lia. simpl.
  eexists; split; [done|].
  assert (<[i:=s]> (seats h) = seats h) as Hid by (by apply list_insert_id).
  pose proof (consume_core s eq_refl eq_refl Hok (λ _, Heq)) as Hc. rewrite Hid in Hc.
  split; simpl; try done.
  - apply consume_rights.
  - set_solver.
  - right. split; [done|apply size_consume].
Qed.

Lemma pay_status amount : stack s - amount ≠ 0 → status (pay amount s) = Active.
Proof. intros. unfold pay; simpl. by replace (stack s - amount =? 0) with false by lia. Qed.

Lemma pay_ok amount bet :
  0 <= amount <= stack s → street_committed s + amount <= bet →
  seat_ok (big_blind (level h)) bet (pay amount s).
Proof.
  intros Ha Hb. unfold seat_ok, pay in *; simpl. destruct (stack s - amount =? 0) eqn:E;
    bool_props; intuition (congruence || lia).
Qed.

Lemma pay_contenders amount ss pend rights bet lfr :
  ss = <[i:=pay amount s]> (seats h) →
  remaining_contenders (after h ss pend rights bet lfr) = remaining_contenders h.
Proof.
  intros ->. unfold remaining_contenders; simpl. apply (contenders_insert _ i s); [done..|].
  unfold contender, pay; simpl. destruct (_ =? _); naive_solver congruence.
Qed.

Lemma pay_behind amount ss pend rights bet lfr :
  ss = <[i:=pay amount s]> (seats h) →
  chips_behind (after h ss pend rights bet lfr) = chips_behind h - amount.
Proof.
  intros ->. unfold chips_behind; simpl. rewrite (sum_with_insert stack _ i s) by done.
  simpl. lia.
Qed.

Lemma commit_actor amount :
  0 <= amount <= stack s →
  commit i amount h = (Ok tt, set_seats (<[i := pay amount s]> (seats h)) h).
Proof.
  intros Ha. pose proof (hc_funds _ Hcore). pose proof actor_funds.
  unfold seat_ok in Hok. apply commit_spec; [done|lia..].
Qed.

Lemma call_rejected :
  current_bet h <= street_committed s → apply_action i player Call h = (Err NothingToCall, h).
Proof.
  intros Hge. unfold apply_action, seat_at; run_code. rewrite Hi; simpl.
  unfold u64_saturating_sub.
  by replace (Z.max 0 (current_bet h - street_committed s) =? 0) with true by lia.
Qed.

Lemma call_step :
  street_committed s < current_bet h →
  ∃ h', apply_action i player Call h = (Ok tt, h') ∧ progress h player Call h'.
Proof.
  intros Hlt. unfold apply_action, seat_at; run_code. rewrite Hi; simpl.
  unfold u64_saturating_sub.
  replace (Z.max 0 (current_bet h - street_committed s) =? 0) with false by lia.
  assert (seat_ok (big_blind (level h)) (current_bet h) s) as Hs by done. unfold seat_ok in Hs.
  set (paid := Z.min (Z.max 0 (current_bet h - street_committed s)) (stack s)).
  assert (0 < paid <= stack s ∧ street_committed s + paid <= current_bet h) as (Hpd & Hpb).
  { unfold paid. pose proof Hactive. intuition lia. }
  rewrite commit_actor by lia. unfold consume_action; run_code. eexists; split; [done|].
  match goal with |- progress _ _ _ ?h' => change h' with
    (after h (<[i:=pay paid s]> (seats h)) (pending h ∖ {[player]}) (raise_rights h ∖ {[player]})
       (current_bet h) (last_full_raise h)) end.
  split; simpl; try done.
  - apply consume_core; [done..|apply pay_ok; lia|]. unfold pay; simpl.
    destruct (stack s - paid =? 0) eqn:E; bool_props; [done|]. unfold paid in *. lia.
  - apply consume_rights.
  - by eapply same_table_insert.
  - set_solver.
  - left. rewrite (pay_behind paid) by done. lia.
  - by apply (pay_contenders paid).
Qed.

(** The conditions under which [raise_to] accepts a target. *)
Definition minimum_target : Z :=
  if current_bet h =? 0 then big_blind (level h) else current_bet h + last_full_raise h.
Definition raise_allowed (target : Z) : Prop :=
  player ∈ raise_rights h ∧ current_bet h < target ∧ target <= street_committed s + stack s
  ∧ (minimum_target <= target ∨ target = street_committed s + stack s).

(** The pending players and raise rights after a raise to [target]. *)
Definition raised_seats (target : Z) : list SeatState :=
  <[i := pay (target - street_committed s) s]> (seats h).
Definition raised_hand (target : Z) : HoldemHand :=
  after h (raised_seats target) (pending h ∖ {[player]}) (raise_rights h ∖ {[player]})
    target (last_full_raise h).
Definition raise_result (target : Z) : HoldemHand :=
  if minimum_target <=? target then
    let others := actionable_players (raised_hand target) (Some player) in
    after h (raised_seats target) others others target (target - current_bet h)
  else
    let h1 := raised_hand target in
    let sets := foldl (reopen h1) (pending h1, raise_rights h1) (seats h1) in
    after h (raised_seats target) sets.1 sets.2 target (last_full_raise h).

Lemma raise_code target :
  raise_allowed target → raise_to i target h = (Ok tt, raise_result target).
Proof.
  intros (Hr & Hgt & Hle & Hmin). unfold raise_to, seat_at; run_code. rewrite Hi; simpl.
  pose proof (hc_funds _ Hcore) as Hf. pose proof actor_funds as Ha.
  pose proof (hc_raise _ Hcore) as Hl. pose proof (hc_bet _ Hcore) as Hb.
  pose proof (hc_level _ Hcore) as Hlv. unfold level_wf in Hlv.
  assert (seat_ok (big_blind (level h)) (current_bet h) s) as Hs by done. unfold seat_ok in Hs.
  rewrite bool_decide_true by done. simpl.
  replace (target <=? current_bet h) with false by lia.
  replace (target <=? street_committed s) with false by lia. simpl.
  unfold Chips_checked_sub, Chips_checked_add. rewrite u64_checked_sub_ok by lia. simpl.
  replace (stack s <? target - street_committed s) with false by lia. simpl.
  rewrite (u64_checked_add_ok (current_bet h)) by lia.
  replace (if current_bet h =? 0 then Ok (big_blind (level h))
           else Ok (current_bet h + last_full_raise h))
    with (@Ok HoldemError _ minimum_target) by (unfold minimum_target; by case_match).
  replace ((target <? minimum_target) && negb (target - street_committed s =? stack s))
    with false by (unfold minimum_target in *; case_match; lia).
  rewrite commit_actor by lia. unfold consume_action, raise_result; run_code.
  destruct (minimum_target <=? target); [|done].
  rewrite u64_checked_sub_ok by lia. done.
Qed.

Lemma raise_rejected target :
  ¬ raise_allowed target → ∃ e, raise_to i target h = (Err e, h) ∧ rule_error e.
Proof.
  intros Hno. unfold raise_to, seat_at; run_code. rewrite Hi; simpl.
  pose proof (hc_funds _ Hcore) as Hf. pose proof (hc_raise _ Hcore) as Hl.
  pose proof (hc_bet _ Hcore) as Hb. pose proof (hc_level _ Hcore) as Hlv.
  unfold level_wf in Hlv.
  case_bool_decide as Hr; simpl; [|by eexists].
  destruct (_ || _) eqn:E; simpl; [by eexists|]. bool_props.
  unfold Chips_checked_sub, Chips_checked_add. unfold u64_checked_sub at 1.
  replace (street_committed s <=? target) with true by lia. simpl.
  destruct (stack s <? _) eqn:E; simpl; [by eexists|]. bool_props.
  rewrite (u64_checked_add_ok (current_bet h)) by lia.
  replace (if current_bet h =? 0 then Ok (big_blind (level h))
           else Ok (current_bet h + last_full_raise h))
    with (@Ok HoldemError _ minimum_target) by (unfold minimum_target; by case_match).
  destruct (_ && _) eqn:E'; simpl; [by eexists|].
  destruct Hno. unfold raise_allowed. split_and!; [done|lia..|].
  destruct (target <? minimum_target) eqn:?; simpl in E'; bool_props; lia.
Qed.

(** Everybody else who can still act is pending after a raise. *)
Lemma raised_others target j t :
  raise_allowed target → j ≠ i → seats h !! j = Some t → status t = Active →
  seat_player t ∈ pending (raise_result target).
Proof.
  intros (_ & Hgt & _) Hj Ht Hact.
  pose proof (other_seat_player h i s j t Hcore Hi Ht Hj) as Hne.
  assert (t ∈ raised_seats target) as Hin.
  { apply list_elem_of_lookup. exists j. unfold raised_seats. by rewrite list_lookup_insert_ne. }
  unfold raise_result. case_match; simpl.
  - apply elem_of_actionable. exists t. simpl. split_and!; try done. unfold player. congruence.
  - apply elem_of_reopen. right. exists t. split_and!; try done. split; [done|].
    pose proof (seat_ok_lookup h j t Hcore Ht) as Hs. unfold seat_ok in Hs. simpl. lia.
Qed.

Lemma raised_pending target p :
  raise_allowed target → p ∈ pending (raise_result target) →
  p ≠ player ∧ ∃ t, t ∈ seats h ∧ seat_player t = p ∧ status t = Active.
Proof.
  intros (_ & Hgt & Hle & Hmin). unfold raise_result.
  assert (∀ t, t ∈ raised_seats target → status t = Active → seat_player t ≠ player →
    seat_player t ≠ player ∧
    ∃ t', t' ∈ seats h ∧ seat_player t' = seat_player t ∧ status t' = Active) as Hold.
  { intros t Ht Hact Hne. apply elem_of_insert_seat in Ht as [->|(j & Hj & Ht)]; [done|].
    split; [done|]. exists t. split_and!; try done. by eapply list_elem_of_lookup_2. }
  case_match; simpl.
  - intros (t & Ht & <- & Hact & Hne)%elem_of_actionable. apply Hold; [done..|congruence].
  - bool_props. rewrite (proj1 (elem_of_reopen _ _ _ _ p)). intros [Hp|(t & Ht & <- & Hact & _)].
    + split; [set_solver|]. apply (hc_pending _ Hcore). set_solver.
    + apply Hold; [done..|]. apply elem_of_insert_seat in Ht as [->|(j & Hj & Ht)].
      * unfold pay in Hact; simpl in Hact. case_match; [done|]. bool_props. lia.
      * eapply other_seat_player; eauto.
Qed.

Lemma raise_result_shape target :
  raise_result target
  = after h (raised_seats target) (pending (raise_result target))
      (raise_rights (raise_result target)) target (last_full_raise (raise_result target)).
Proof. unfold raise_result. by case_match. Qed.

Lemma raise_core target : raise_allowed target → hand_core (raise_result target).
Proof.
  intros Hall. pose proof Hall as (_ & Hgt & Hle & Hmin).
  pose proof (hc_raise _ Hcore) as Hl. pose proof (hc_bet _ Hcore) as Hb.
  pose proof actor_funds as Ha. pose proof (hc_level _ Hcore) as Hlv. unfold level_wf in Hlv.
  assert (seat_ok (big_blind (level h)) (current_bet h) s) as Hs by done.
  unfold seat_ok in Hs.
  rewrite raise_result_shape. apply (hand_core_update h i s); try done.
  - apply pay_ok; lia.
  - lia.
  - unfold raise_result, minimum_target. repeat case_match; simpl; bool_props; lia.
  - intros Hp. apply raised_pending in Hp as [Hp _]; done.
  - intros p Hp. by apply raised_pending in Hp as [_ Hp].
  - intros Hact. simpl. lia.
  - intros j t Hj Ht Hact []. by eapply raised_others.
Qed.

Lemma raised_rights target :
  raise_rights (raise_result target) ⊆ pending (raise_result target).
Proof.
  intros p. unfold raise_result. case_match; simpl; [done|].
  rewrite (proj1 (elem_of_reopen _ _ _ _ p)), (proj2 (elem_of_reopen _ _ _ _ p)).
  unfold faces_full_raise. set_solver.
Qed.

Lemma raise_step target :
  raise_allowed target →
  ∃ h', apply_action i player (RaiseTo target) h = (Ok tt, h')
        ∧ progress h player (RaiseTo target) h'.
Proof.
  intros Hall. exists (raise_result target). split; [by apply raise_code|].
  pose proof Hall as (_ & Hgt & _ & _). pose proof (raise_core target Hall).
  pose proof (raised_rights target).
  assert (seat_ok (big_blind (level h)) (current_bet h) s) as Hs by done. unfold seat_ok in Hs.
  split; [done|done|rewrite raise_result_shape..].
  - by eapply same_table_insert.
  - done.
  - done.
  - simpl. intros Hp. by apply raised_pending in Hp as [Hp _].
  - left. rewrite (pay_behind (target - street_committed s)) by done. lia.
  - by apply (pay_contenders (target - street_committed s)).
Qed.

(** The rules of the game: when the player to act may take an action. *)
Definition legal (action : PlayerAction) : Prop :=
  match action with
  | Fold => True
  | Check => street_committed s = current_bet h
  | Call => street_committed s < current_bet h
  | RaiseTo target => raise_allowed target
  end.
#[export] Instance legal_dec action : Decision (legal action).
Proof. destruct action; simpl; unfold raise_allowed; apply _. Defined.

Lemma legal_step action :
  legal action →
  ∃ h', apply_action i player action h = (Ok tt, h') ∧ progress h player action h'.
Proof.
  destruct action; simpl; intros Hl;
    [apply fold_step|by apply check_step|by apply call_step|by apply raise_step].
Qed.

Lemma illegal_step action :
  ¬ legal action → ∃ e, apply_action i player action h = (Err e, h) ∧ rule_error e.
Proof.
  destruct action; intros Hl; cbn [legal] in Hl; [done| | |by apply raise_rejected].
  - rewrite check_rejected by done. by eexists.
  - rewrite call_rejected by lia. by eexists.
Qed.
End act_step.
