(* ===== verification/HoldemAct.v ===== *)
(** * HoldemAct: a hand from the blinds to its end

    [start], [act] and [advance_street] keep the invariant of [HoldemInv]; the
    rules decide which actions are accepted, a rejected action changes nothing,
    and every hand ends after finitely many accepted actions. *)

From S2P Require Import Prelude Machine Order Ids Table Cards Holdem HoldemInv.

(** ** Turn order *)

(** Walking [n] steps clockwise visits every seat. *)
Lemma clockwise_covers (start n j : nat) :
  (j < n)%nat → j ∈ map (λ offset, (start + offset) `mod` n)%nat (seq 0 n).
Proof.
  intros Hj. apply list_elem_of_fmap. exists ((j + (n - start `mod` n)) `mod` n)%nat.
  pose proof (Nat.mod_upper_bound start n ltac:(lia)) as Hs.
  split.
  - rewrite Nat.Div0.add_mod_idemp_r, <-Nat.Div0.add_mod_idemp_l.
    replace (start `mod` n + (j + (n - start `mod` n)))%nat with (j + 1 * n)%nat by lia.
    rewrite Nat.Div0.mod_add. symmetry. by apply Nat.mod_small.
  - apply elem_of_seq. pose proof (Nat.mod_upper_bound (j + (n - start `mod` n)) n ltac:(lia)). lia.
Qed.

Lemma next_pending_Some h start j :
  next_pending_from h start = Some j →
  ∃ t, seats h !! j = Some t ∧ seat_player t ∈ pending h.
Proof.
  intros [_ Hp]%find_first_Some. unfold is_pending_index in Hp.
  destruct (seats h !! j) as [t|]; [|done]. bool_props. by exists t.
Qed.

Lemma next_pending_exists h start s :
  s ∈ seats h → seat_player s ∈ pending h → is_Some (next_pending_from h start).
Proof.
  intros [j Hj]%list_elem_of_lookup Hp. unfold next_pending_from.
  apply (find_first_is_Some _ _ j).
  - apply clockwise_covers. by eapply lookup_lt_Some.
  - unfold is_pending_index. rewrite Hj. by apply bool_decide_true.
Qed.

(** With an action due, the turn passes to a pending player. *)
Lemma pass_turn h start :
  hand_core h → pending h ≠ ∅ →
  ∃ j t, next_pending_from h start = Some j ∧ seats h !! j = Some t ∧ seat_player t ∈ pending h.
Proof.
  intros Hc [p Hp]%set_choose_L. destruct (hc_pending _ Hc p Hp) as (s & Hs & <- & _).
  destruct (next_pending_exists h start s Hs Hp) as [j Hj].
  destruct (next_pending_Some _ _ _ Hj) as (t & ? & ?). eauto.
Qed.

Lemma hand_core_set_next h v : hand_core h → hand_core (set_next_to_act v h).
Proof. intros []. by split. Qed.

(** ** Opening a street *)

Definition cleared (h : HoldemHand) (st : Street) : HoldemHand :=
  set_last_full_raise (big_blind (level h))
    (set_current_bet 0 (set_seats (map (set_street_committed 0) (seats h)) (set_street st h))).
Definition opened (h : HoldemHand) (st : Street) : HoldemHand :=
  let acts := actionable_players (cleared h st) None in
  let h1 := set_raise_rights acts (set_pending acts (cleared h st)) in
  set_next_to_act (next_pending_from h1 ((dealer_index h1 + 1) `mod` player_count h1)%nat) h1.

Lemma opened_table h st : same_table h (opened h st).
Proof. split; [done..| |]; simpl; rewrite map_map; by apply map_ext. Qed.

Lemma opened_contenders h st : remaining_contenders (opened h st) = remaining_contenders h.
Proof.
  unfold remaining_contenders; simpl. induction (seats h) as [|s l IH]; [done|].
  simpl. rewrite !filter_cons. simpl. case_decide; simpl; by rewrite IH.
Qed.

Lemma bankroll_blind h : hand_core h → big_blind (level h) <= bankroll h.
Proof.
  intros Hc. pose proof (hc_dealer _ Hc) as Hd. unfold player_count in Hd.
  destruct (lookup_lt_is_Some_2 _ _ Hd) as [s Hs].
  pose proof (bankroll_elem h s Hc ltac:(by eapply list_elem_of_lookup_2)).
  pose proof (seat_ok_lookup h _ s Hc Hs) as Hok. unfold seat_ok in Hok. lia.
Qed.

Lemma opened_core h st : hand_core h → hand_core (opened h st).
Proof.
  intros Hc. pose proof (opened_table h st) as Hsame.
  pose proof (same_table_bankroll _ _ Hsame) as Hbank.
  pose proof (bankroll_blind h Hc). pose proof (hc_level _ Hc) as Hl. pose proof (hc_bet _ Hc).
  split; rewrite ?Hbank, ?(st_players _ _ Hsame); try (by apply Hc); try (simpl; lia).
  - rewrite (same_table_length _ _ Hsame). apply Hc.
  - simpl. apply Forall_map. eapply Forall_impl; [apply Hc|]. unfold seat_ok. simpl.
    intros s Hs. intuition lia.
  - simpl. intros p (s & Hs & Hp & Ha & _)%elem_of_actionable. by exists s.
  - simpl. intros s Hs Ha []. apply elem_of_actionable. by exists s.
Qed.

(** How many betting rounds are left after the current one. *)
Definition rounds_left (s : Street) : nat :=
  match s with Preflop => 3 | Flop => 2 | Turn => 1 | _ => 0 end.

Lemma pending_size h : hand_core h → (size (pending h) <= player_count h)%nat.
Proof.
  intros Hc. unfold player_count. rewrite <-(length_map seat_player (seats h)).
  rewrite <-(size_list_to_set (C:=gset PlayerId) _ (hc_nodup _ Hc)). apply subseteq_size.
  intros p (s & Hs & <- & _)%(hc_pending _ Hc). apply elem_of_list_to_set.
  by apply (list_elem_of_fmap_2 seat_player).
Qed.

(** ** [advance_street] *)

(** Apart from the commitments of the street, the seats stay. *)
Definition same_chips (h h' : HoldemHand) : Prop :=
  map (set_street_committed 0) (seats h') = map (set_street_committed 0) (seats h).

Lemma opened_chips h st : same_chips h (opened h st).
Proof. unfold same_chips; simpl. rewrite map_map. by apply map_ext. Qed.

Lemma same_chips_behind h h' : same_chips h h' → chips_behind h' = chips_behind h.
Proof.
  intros E. pose proof (f_equal (sum_with stack) E) as Hs.
  rewrite (sum_with_map stack _ (seats h)), (sum_with_map stack _ (seats h')) in Hs. exact Hs.
Qed.

Lemma advance_last fuel h :
  next_street (street h) = Some Showdown →
  advance_street_from (S fuel) h
  = (Ok ShowdownReady, set_next_to_act None (set_street Showdown h)).
Proof. intros Hn. simpl. run_code. by rewrite Hn. Qed.

Lemma advance_open fuel h st :
  next_street (street h) = Some st → st ≠ Showdown →
  advance_street_from (S fuel) h
  = if (size (pending (opened h st)) <? 2)%nat
    then advance_street_from fuel (set_pending ∅ (opened h st))
    else match next_player (opened h st) with
         | Ok p => (Ok (StreetAdvanced st p), opened h st)
         | Err e => (Err e, opened h st)
         | Panic => (Panic, opened h st)
         end.
Proof.
  intros Hn Hne. simpl. unfold reset_pending_for_street. run_code. rewrite Hn.
  rewrite bool_decide_false by done.
  match goal with |- (if ?b then _ else _) _ = (if ?c then _ else _) =>
    change c with b; by destruct b end.
Qed.

Record advanced (h : HoldemHand) (out : ActionOutcome) (h' : HoldemHand) : Prop := {
  ad_table : same_table h h';
  ad_chips : same_chips h h';
  ad_contenders : remaining_contenders h' = remaining_contenders h;
  ad_outcome :
    match out with
    | StreetAdvanced st q =>
        betting h' ∧ street h' = st ∧ (rounds_left st < rounds_left (street h))%nat
        ∧ next_player h' = Ok q ∧ is_Some q
    | ShowdownReady => at_showdown h'
    | _ => False
    end;
}.

Lemma opened_betting h st :
  hand_core h → betting_street st → (2 <= length (remaining_contenders h))%nat →
  pending (opened h st) ≠ ∅ →
  betting (opened h st) ∧ ∃ q, next_player (opened h st) = Ok (Some q).
Proof.
  intros Hc Hst H2 Hp. pose proof (opened_core h st Hc) as Ho.
  destruct (pass_turn (opened h st) ((dealer_index h + 1) `mod` player_count (opened h st)) Ho Hp)
    as (j & t & Hj & Ht & Htp).
  assert (next_to_act (opened h st) = Some j) as Hn by exact Hj.
  split.
  - split; [done|done|done| |eauto]. by rewrite opened_contenders.
  - exists (seat_player t). unfold next_player. by rewrite Hn, Ht.
Qed.

Lemma hand_core_clear h :
  hand_core h → current_bet h = 0 → hand_core (set_pending ∅ h).
Proof.
  intros Hc Hb. pose proof (hc_seats _ Hc) as Hs. split; try (by apply Hc); [done|].
  simpl. intros s Hin _ _. rewrite Forall_forall in Hs. pose proof (Hs s Hin) as Hok.
  unfold seat_ok in Hok. lia.
Qed.

Lemma advance_from_spec fuel h :
  hand_core h → betting_street (street h) → (2 <= length (remaining_contenders h))%nat →
  pending h = ∅ → (rounds_left (street h) < fuel)%nat →
  ∃ out h', advance_street_from fuel h = (Ok out, h') ∧ advanced h out h'.
Proof.
  revert h; induction fuel as [|fuel IH]; intros h Hc [st Hst] H2 Hp Hf; [lia|].
  destruct (decide (st = Showdown)) as [->|Hne].
  { rewrite advance_last by done. do 2 eexists. split; [done|].
    split; [by split|done|done|]. split; [|done|done|done]. destruct Hc. by split. }
  assert (betting_street st ∧ rounds_left (street h) = S (rounds_left st)) as [Hbs Hrl].
  { destruct (street h); simplify_eq/=; split; try done; by eexists. }
  rewrite (advance_open _ _ st) by done. case_match eqn:Hsz; bool_props.
  - set (h1 := set_pending ∅ (opened h st)).
    destruct (IH h1) as (out & h' & -> & [A B C D]);
      [by apply hand_core_clear; [apply opened_core|]|done| |done|simpl; lia|].
    { change (2 <= length (remaining_contenders (opened h st)))%nat. by rewrite opened_contenders. }
    exists out, h'. split; [done|]. split.
    + etrans; [|exact A]. destruct (opened_table h st). by split.
    + unfold same_chips in *. rewrite B. apply (opened_chips h st).
    + rewrite C. apply (opened_contenders h st).
    + destruct out; try done. simpl in D. destruct D as (? & ? & ? & ?).
      split_and!; try done; try lia; tauto.
  - destruct (opened_betting h st) as [Hb [q Hq]]; try done.
    { intros E. rewrite E, size_empty in Hsz. lia. }
    rewrite Hq. do 2 eexists. split; [done|].
    split; [apply opened_table|apply opened_chips|apply opened_contenders|].
    split_and!; try done. lia.
Qed.

(** ** The last player left wins the pot *)

Definition total_pot (h : HoldemHand) : Z := sum_with total_committed (seats h).

Lemma committed_total_spec h :
  (∀ s, s ∈ seats h → 0 <= total_committed s) → total_pot h <= u64_max →
  committed_total h = Some (total_pot h).
Proof.
  unfold committed_total, total_pot. intros Hpos Hmax.
  assert (∀ l acc, (∀ s, s ∈ l → 0 <= total_committed s) →
    acc + sum_with total_committed l <= u64_max →
    foldl (λ acc s, total ← acc; u64_checked_add total (total_committed s)) (Some acc) l
    = Some (acc + sum_with total_committed l)) as Hgen.
  { induction l as [|s l IH]; intros acc Hp Hm; simpl; rewrite ?sum_with_nil, ?sum_with_cons in *.
    - f_equal. lia.
    - pose proof (sum_with_nonneg total_committed l ltac:(set_solver)).
      rewrite u64_checked_add_ok by lia. rewrite IH; [f_equal; lia|set_solver|lia]. }
  by rewrite Hgen.
Qed.

Lemma hand_core_funds h :
  hand_core h → chips_behind h + total_pot h = bankroll h.
Proof.
  intros Hc. unfold chips_behind, total_pot, bankroll. rewrite <-sum_with_add.
  apply sum_with_ext. intros s [i Hi]%list_elem_of_lookup.
  pose proof (seat_ok_lookup h i s Hc Hi) as Hok. unfold seat_ok in Hok. lia.
Qed.

Lemma hand_core_nonneg h s :
  hand_core h → s ∈ seats h → 0 <= stack s ∧ 0 <= total_committed s.
Proof.
  intros Hc [i Hi]%list_elem_of_lookup.
  pose proof (seat_ok_lookup h i s Hc Hi) as Hok. unfold seat_ok in Hok. lia.
Qed.

(** What each player takes home when everybody but [w] has folded. *)
Definition uncontested_result (h : HoldemHand) (w : PlayerId) (s : SeatState) : PlayerSettlement :=
  let delta := if decide (seat_player s = w) then total_pot h - total_committed s
               else - total_committed s in
  mkSettlement (seat_player s) (starting_stack s) (starting_stack s + delta) delta.

Lemma build_settlement_spec h :
  sum_with stack (seats h) = bankroll h →
  build_settlement h = Ok (mkHoldemSettlement (map settle_seat (seats h))).
Proof.
  intros Hsum. unfold build_settlement.
  replace (sum_with settled_delta (map settle_seat (seats h))) with 0; [done|].
  rewrite sum_with_map. unfold bankroll in Hsum. simpl.
  rewrite (sum_with_sub stack starting_stack). lia.
Qed.

Lemma finish_uncontested_spec h w :
  hand_core h → remaining_contenders h = [w] →
  ∃ h', finish_uncontested w h
        = (Ok (mkHoldemSettlement (map (uncontested_result h w) (seats h))), h')
      ∧ map (uncontested_result h w) (seats h) = map settle_seat (seats h')
      ∧ street h' = Complete ∧ same_table h h'.
Proof.
  intros Hc Hw. pose proof (hand_core_funds h Hc) as Hfund. pose proof (hc_funds _ Hc).
  assert (0 <= chips_behind h) by (apply sum_with_nonneg; intros; by eapply hand_core_nonneg).
  assert (0 <= total_pot h) by (apply sum_with_nonneg; intros; by eapply hand_core_nonneg).
  assert (w ∈ remaining_contenders h) as Hin by (rewrite Hw; set_solver).
  unfold remaining_contenders in Hin. apply list_elem_of_fmap in Hin as (s & -> & Hs).
  apply list_elem_of_filter in Hs as [_ Hs]. pose proof Hs as [i Hi]%list_elem_of_lookup.
  assert (stack s <= chips_behind h).
  { apply (sum_with_elem_le stack); [|done]. intros; by eapply hand_core_nonneg. }
  unfold finish_uncontested; run_code. rewrite committed_total_spec; [|by intros; eapply hand_core_nonneg|lia].
  rewrite (award_spec h i s) by (apply Hc || done || lia). simpl.
  rewrite build_settlement_spec.
  2: { simpl. unfold bankroll; simpl. rewrite !(sum_with_insert _ _ i s) by done.
       simpl. unfold bankroll, chips_behind in *. lia. }
  match goal with |- context [mkHoldemSettlement (map settle_seat ?l)] =>
    assert (map settle_seat l = map (uncontested_result h (seat_player s)) (seats h)) as Hmap end.
  { simpl. apply list_eq. intros j. rewrite !list_lookup_fmap.
    destruct (decide (j = i)) as [->|Hne].
    + rewrite Hi, list_lookup_insert_eq by (by eapply lookup_lt_Some). simpl. f_equal.
      pose proof (seat_ok_lookup h i s Hc Hi) as Hok. unfold seat_ok in Hok.
      unfold settle_seat, uncontested_result, grant; simpl. rewrite decide_True by done.
      f_equal; lia.
    + rewrite list_lookup_insert_ne by done. destruct (seats h !! j) as [t|] eqn:Ht; [|done].
      simpl. f_equal. pose proof (other_seat_player h i s j t Hc Hi Ht Hne).
      pose proof (seat_ok_lookup h j t Hc Ht) as Hok. unfold seat_ok in Hok.
      unfold settle_seat, uncontested_result; simpl. rewrite decide_False by done. f_equal; lia. }
  rewrite Hmap. eexists. split; [done|]. split; [by rewrite <-Hmap|]. split; [done|]. split; [done..| |]; by eapply NoDup_map_insert.
Qed.

(** ** The end of a turn *)

Record turned (h : HoldemHand) (out : ActionOutcome) (h' : HoldemHand) : Prop := {
  tn_table : same_table h h';
  tn_outcome :
    match out with
    | WaitingFor q =>
        betting h' ∧ next_player h' = Ok (Some q) ∧ h' = set_next_to_act (next_to_act h') h
    | HandComplete st =>
        street h' = Complete
        ∧ ∃ w, remaining_contenders h = [w]
             ∧ settled_players st = map (uncontested_result h w) (seats h)
             ∧ settled_players st = map settle_seat (seats h')
    | _ => pending h = ∅ ∧ advanced h out h'
    end;
}.

Lemma finish_turn_spec i h :
  hand_core h → raise_rights h ⊆ pending h → betting_street (street h) →
  (1 <= length (remaining_contenders h))%nat →
  ∃ out h', finish_turn i h = (Ok out, h') ∧ turned h out h'.
Proof.
  intros Hc Hr Hst H1. unfold finish_turn; run_code.
  destruct (remaining_contenders h) as [|w [|w' rest]] eqn:Hw; [simpl in H1; lia| |].
  { destruct (finish_uncontested_spec h w Hc Hw) as (h' & -> & Hm & Hs & Ht).
    do 2 eexists. split; [done|]. split; [done|]. split; [done|]. by exists w. }
  case_bool_decide as Hp.
  { destruct (advance_from_spec 6 h) as (out & h' & E & A); try done.
    { rewrite Hw; simpl; lia. } { destruct (street h); simpl; lia. }
    exists out, h'. split; [exact E|]. split; [apply A|]. destruct A as [? ? ? A].
    by destruct out. }
  destruct (pass_turn h ((i + 1) `mod` player_count h) Hc Hp) as (j & t & Hj & Ht & Htp).
  rewrite Hj. unfold next_player; simpl. rewrite Ht; simpl.
  do 2 eexists. split; [done|]. split; [by split|]. simpl.
  split_and!; [|by unfold next_player; simpl; rewrite Ht|done].
  split; [by apply hand_core_set_next|done|done| |simpl; eauto].
  change (2 <= length (remaining_contenders h))%nat. rewrite Hw. simpl. lia.
Qed.

(** ** [act] *)

(** Every call of [act] on a hand that waits for an action. *)
Inductive act_result (h : HoldemHand) (p : PlayerId) (a : PlayerAction)
    : result HoldemError ActionOutcome * HoldemHand → Prop :=
  | act_out_of_turn i s :
      next_to_act h = Some i → seats h !! i = Some s → seat_player s ≠ p →
      act_result h p a (Err OutOfTurn, h)
  | act_illegal i s e :
      next_to_act h = Some i → seats h !! i = Some s → seat_player s = p →
      ¬ legal h s a → rule_error e → act_result h p a (Err e, h)
  | act_accepted i s h1 out h' :
      next_to_act h = Some i → seats h !! i = Some s → seat_player s = p →
      legal h s a → progress h p a h1 → apply_action i p a h = (Ok tt, h1) →
      turned h1 out h' → act_result h p a (Ok out, h').

Lemma progress_contenders h p a h' :
  progress h p a h' → (2 <= length (remaining_contenders h))%nat →
  (1 <= length (remaining_contenders h'))%nat
  ∧ (a ≠ Fold → remaining_contenders h' = remaining_contenders h).
Proof.
  intros Hg H2. pose proof (pg_contenders _ _ _ _ Hg) as Hk.
  destruct a; split; try done; rewrite ?Hk in *; lia.
Qed.

Lemma act_spec h p a : betting h → act_result h p a (act p a h).
Proof.
  intros Hb. destruct (bt_next _ Hb) as (i & s & Hi & Hs & Hp).
  pose proof (bt_core _ Hb) as Hc. pose proof (bt_rights _ Hb) as Hr.
  unfold act, seat_at; run_code. rewrite Hi; simpl. rewrite Hs; simpl.
  case_bool_decide as Hpl; simpl; [|by eapply act_out_of_turn]. subst p.
  destruct (decide (legal h s a)) as [Hl|Hl].
  - destruct (legal_step h i s Hc Hs Hp Hr a Hl) as (h1 & E & Hg). rewrite E.
    destruct (progress_contenders _ _ _ _ Hg (bt_contenders _ Hb)) as [H1 _].
    destruct (finish_turn_spec i h1) as (out & h' & E' & Ht);
      [apply Hg|apply Hg|by rewrite (pg_street _ _ _ _ Hg); apply Hb|done|].
    rewrite E'. by eapply act_accepted.
  - destruct (illegal_step h i s Hc Hs a Hl) as (e & E & He). rewrite E.
    by eapply act_illegal.
Qed.

(** ** Termination *)

(** Bounds the number of actions a hand can still take. *)
Definition measure (h : HoldemHand) : Z :=
  (Z.of_nat (rounds_left (street h)) + chips_behind h) * (Z.of_nat (player_count h) + 1)
  + Z.of_nat (size (pending h)).

Lemma measure_nonneg h : hand_core h → 0 <= measure h.
Proof.
  intros Hc. assert (0 <= chips_behind h).
  { apply sum_with_nonneg. intros. by eapply hand_core_nonneg. }
  unfold measure. nia.
Qed.

Lemma measure_decreases h h' :
  hand_core h' → player_count h' = player_count h →
  chips_behind h' < chips_behind h ∧ (rounds_left (street h') <= rounds_left (street h))%nat
  ∨ chips_behind h' <= chips_behind h ∧ (rounds_left (street h') < rounds_left (street h))%nat
  ∨ chips_behind h' = chips_behind h ∧ rounds_left (street h') = rounds_left (street h)
    ∧ (size (pending h') < size (pending h))%nat →
  measure h' < measure h.
Proof.
  intros Hc Hn Hcase. pose proof (pending_size h' Hc) as Hp. unfold measure. rewrite Hn in *.
  set (n := player_count h) in *.
  destruct Hcase as [[? ?]|[[? ?]|(-> & -> & ?)]]; [nia|nia|lia].
Qed.

(** A state the hand goes on from. *)
Definition goes_on (out : ActionOutcome) : Prop :=
  match out with WaitingFor _ | StreetAdvanced _ _ => True | _ => False end.

Lemma accepted_measure h p a h1 out h' :
  progress h p a h1 → turned h1 out h' → goes_on out → betting h' ∧ measure h' < measure h.
Proof.
  intros Hg [Ht Ho] Hgo. pose proof (pg_measure _ _ _ _ Hg) as Hm.
  pose proof (pg_street _ _ _ _ Hg) as Hs.
  assert (player_count h' = player_count h) as Hn.
  { apply same_table_length. etrans; [apply Hg|done]. }
  destruct out as [q|st q| |st]; try done.
  - destruct Ho as (Hb & _ & E). split; [done|]. apply measure_decreases; [apply Hb|done|].
    rewrite E. unfold chips_behind in *; simpl. rewrite Hs. lia.
  - destruct Ho as (_ & [_ Hch _ (Hb & Hst & Hr & _)]). split; [done|].
    apply measure_decreases; [apply Hb|done|].
    rewrite (same_chips_behind _ _ Hch), Hst, <-Hs. lia.
Qed.

(** ** [start] *)

Lemma mod_step (n d k : nat) :
  (d + k < n + n)%nat → ((d + k) `mod` n)%nat = if (d + k <? n)%nat then (d + k)%nat else (d + k - n)%nat.
Proof.
  intros Hlt. case_match; bool_props; [by apply Nat.mod_small|].
  replace (d + k)%nat with ((d + k - n) + 1 * n)%nat at 1 by lia.
  rewrite Nat.Div0.mod_add. apply Nat.mod_small. lia.
Qed.

Lemma blind_positions_spec h si bi f :
  (2 <= player_count h)%nat → (dealer_index h < player_count h)%nat →
  blind_positions h = (si, bi, f) →
  (si < player_count h ∧ bi < player_count h ∧ f < player_count h ∧ si ≠ bi ∧ f ≠ bi)%nat.
Proof.
  unfold blind_positions. intros H2 Hd Hb. case_match eqn:E; bool_props.
  - rewrite E in *. rewrite (mod_step 2 (dealer_index h) 1) in Hb by lia.
    simplify_eq/=. case_match; bool_props; lia.
  - rewrite !mod_step in Hb by lia. simplify_eq/=. repeat case_match; bool_props; lia.
Qed.

(** The seats once the blinds are posted. *)
Definition blinds_posted (l : StakeLevel) (players : list (PlayerId * Chips)) (dealer : nat)
    : HoldemHand :=
  let h := fresh_hand l players dealer in
  let '(si, bi, first) := blind_positions h in
  let ss := alter (pay (big_blind l)) bi (alter (pay (small_blind l)) si (seats h)) in
  let acts := actionable_players (set_seats ss h) None in
  mkHand l dealer Preflop ss acts acts (big_blind l) (big_blind l) (Some first).

(** What [start] checks, and the bound under which no sum of chips overflows. *)
Definition buy_ins_ok (l : StakeLevel) (players : list (PlayerId * Chips)) : Prop :=
  Forall (λ p, minimum_buy_in l <= p.2 <= maximum_buy_in l) players.

Section start.
Context (l : StakeLevel) (players : list (PlayerId * Chips)) (dealer : nat).
Hypothesis Hlevel : level_wf l.
Hypothesis Hseats : minimum_players l <= Z.of_nat (length players) <= maximum_players l.
Hypothesis Hdealer : (dealer < length players)%nat.
Hypothesis Hnodup : NoDup (map fst players).
Hypothesis Hstacks : buy_ins_ok l players.
Hypothesis Hfunds : 2 * sum_with snd players <= u64_max.

Let h0 := fresh_hand l players dealer.

Lemma fresh_lookup i s :
  seats h0 !! i = Some s → ∃ p, s = fresh_seat p ∧ minimum_buy_in l <= p.2 <= maximum_buy_in l.
Proof.
  unfold h0; simpl. rewrite list_lookup_fmap. intros (p & Hp & ->)%fmap_Some.
  exists p. split; [done|]. unfold buy_ins_ok in Hstacks. by rewrite Forall_lookup in Hstacks; eapply Hstacks.
Qed.

Lemma start_funds p : p ∈ players → p.2 <= sum_with snd players.
Proof.
  apply (sum_with_elem_le snd). intros q Hq. unfold buy_ins_ok in Hstacks.
  rewrite Forall_forall in Hstacks. specialize (Hstacks q Hq). unfold level_wf in Hlevel. lia.
Qed.

Lemma fresh_commit h i p amount :
  seats h !! i = Some (fresh_seat p) → p.2 <= u64_max → 0 <= amount <= p.2 →
  commit i amount h = (Ok tt, set_seats (alter (pay amount) i (seats h)) h).
Proof.
  intros Hi Hmax Ha. rewrite (alter_insert_seat _ _ _ _ Hi). apply commit_spec; simpl; [done|lia..].
Qed.

Lemma fresh_counts : (2 <= player_count h0 ∧ dealer_index h0 < player_count h0)%nat.
Proof.
  unfold player_count; simpl. rewrite length_map. unfold level_wf in Hlevel. lia.
Qed.

(** The seats after the blinds, one by one. *)
Lemma posted_lookup si bi f i s :
  blind_positions h0 = (si, bi, f) → seats (blinds_posted l players dealer) !! i = Some s →
  ∃ p, p ∈ players ∧ seats h0 !! i = Some (fresh_seat p)
    ∧ minimum_buy_in l <= p.2 <= maximum_buy_in l
    ∧ s = (if decide (i = bi) then pay (big_blind l)
           else if decide (i = si) then pay (small_blind l) else id) (fresh_seat p).
Proof.
  intros Hb Hs. unfold blinds_posted in Hs. fold h0 in Hs. rewrite Hb in Hs; simpl in Hs.
  destruct fresh_counts as [H2 Hd].
  destruct (blind_positions_spec h0 si bi f H2 Hd Hb) as (_ & _ & _ & Hne & _).
  assert (∃ p, map fresh_seat players !! i = Some (fresh_seat p) ∧ players !! i = Some p
    ∧ s = (if decide (i = bi) then pay (big_blind l)
           else if decide (i = si) then pay (small_blind l) else id) (fresh_seat p))
    as (p & Hp & Hp' & Hs').
  { destruct (players !! i) as [p|] eqn:Hi.
    - assert (map fresh_seat players !! i = Some (fresh_seat p)) as Hm
        by (by rewrite list_lookup_fmap, Hi).
      exists p. split; [done|]. split; [done|]. rewrite !list_lookup_alter in Hs.
      repeat case_decide; subst; rewrite ?Hm in Hs; simplify_eq/=; done.
    - apply lookup_lt_Some in Hs. rewrite !length_alter, length_map in Hs.
      apply lookup_ge_None in Hi. lia. }
  exists p. split_and!; try done; [by eapply list_elem_of_lookup_2| |];
    unfold buy_ins_ok in Hstacks; rewrite Forall_lookup in Hstacks; by eapply Hstacks.
Qed.

Lemma posted_table : same_table h0 (blinds_posted l players dealer).
Proof.
  unfold blinds_posted. fold h0. destruct (blind_positions h0) as [[si bi] f].
  split; simpl; [done..| |]; by rewrite !map_alter_key.
Qed.

Lemma posted_seat_ok i s :
  seats (blinds_posted l players dealer) !! i = Some s →
  seat_ok (big_blind l) (big_blind l) s ∧ status s ≠ Folded.
Proof.
  destruct (blind_positions h0) as [[si bi] f] eqn:Hb. intros Hs.
  destruct (posted_lookup si bi f i s Hb Hs) as (p & _ & _ & Hst & ->).
  unfold level_wf in Hlevel. unfold seat_ok.
  repeat case_decide; unfold pay; simpl; repeat case_match; bool_props; simpl;
    split; try done; split_and!; try done; lia.
Qed.

Lemma fresh_bankroll : bankroll h0 = sum_with snd players.
Proof. unfold bankroll; simpl. by rewrite sum_with_map. Qed.

Lemma posted_shape :
  ∃ ss f, blinds_posted l players dealer
    = mkHand l dealer Preflop ss (actionable_players (blinds_posted l players dealer) None)
        (actionable_players (blinds_posted l players dealer) None) (big_blind l) (big_blind l)
        (Some f)
    ∧ seats (blinds_posted l players dealer) = ss ∧ (blind_positions h0).2 = f.
Proof.
  unfold blinds_posted. fold h0. destruct (blind_positions h0) as [[si bi] f]. by do 2 eexists.
Qed.

(** The seat that acts first is pending. *)
Lemma posted_first f :
  (blind_positions h0).2 = f →
  ∃ s, seats (blinds_posted l players dealer) !! f = Some s ∧ status s = Active.
Proof.
  destruct (blind_positions h0) as [[si bi] f'] eqn:Hb. simpl. intros ->.
  destruct fresh_counts as [H2 Hd].
  destruct (blind_positions_spec h0 si bi f H2 Hd Hb) as (_ & _ & Hf & _ & Hne).
  rewrite <-(same_table_length _ _ posted_table) in Hf. unfold player_count in Hf.
  apply lookup_lt_is_Some_2 in Hf as [s Hs]. exists s. split; [done|].
  destruct (posted_lookup si bi f f s Hb Hs) as (p & _ & _ & Hst & ->).
  rewrite decide_False by done. unfold level_wf in Hlevel.
  destruct (decide (f = si)); [|reflexivity].
  unfold pay; simpl. by replace (p.2 - small_blind l =? 0) with false by lia.
Qed.

Lemma posted_core : hand_core (blinds_posted l players dealer).
Proof.
  destruct posted_shape as (ss & f & E & Hss & Hf). pose proof posted_table as Ht.
  destruct fresh_counts as [H2 Hd]. pose proof (same_table_bankroll _ _ Ht) as Hbank.
  rewrite fresh_bankroll in Hbank.
  assert (big_blind l <= sum_with snd players) as Hbb.
  { destruct (lookup_lt_is_Some_2 players dealer Hdealer) as [p Hp].
    pose proof (start_funds p ltac:(by eapply list_elem_of_lookup_2)).
    pose proof Hstacks as Hin. unfold buy_ins_ok in Hin. rewrite Forall_lookup in Hin.
    specialize (Hin dealer p Hp). unfold level_wf in Hlevel. lia. }
  pose proof Hlevel as Hl. unfold level_wf in Hl.
  split; rewrite ?Hbank, ?(st_players _ _ Ht), ?(same_table_length _ _ Ht).
  - by rewrite E.
  - by rewrite E.
  - simpl. rewrite map_map. exact Hnodup.
  - apply Forall_lookup. intros i s Hs. apply posted_seat_ok in Hs as [Hs _].
    rewrite E. simpl. exact Hs.
  - lia.
  - rewrite E; simpl. lia.
  - rewrite E; simpl. lia.
  - intros p. rewrite (f_equal pending E). simpl.
    intros (s & ? & ? & ? & _)%elem_of_actionable. by exists s.
  - intros s Hs Ha []. rewrite (f_equal pending E). simpl. apply elem_of_actionable.
    by exists s.
Qed.

Lemma posted_betting : betting (blinds_posted l players dealer).
Proof.
  destruct posted_shape as (ss & f & E & Hss & Hf).
  destruct (posted_first f Hf) as (s & Hs & Ha).
  split.
  - apply posted_core.
  - by rewrite E.
  - rewrite E. by eexists.
  - unfold remaining_contenders. rewrite length_map, filter_all.
    2: { intros t [i Ht]%list_elem_of_lookup. by eapply posted_seat_ok. }
    pose proof (same_table_length _ _ posted_table) as Hn. unfold player_count in Hn at 1.
    rewrite Hn. apply fresh_counts.
  - exists f, s. split; [by rewrite E|]. split; [done|].
    rewrite (f_equal pending E). apply elem_of_actionable. exists s. split_and!; try done. by eapply list_elem_of_lookup_2.
Qed.

Lemma posted_next f :
  (blind_positions h0).2 = f →
  ∀ h, seats h = seats (blinds_posted l players dealer) →
    pending h = pending (blinds_posted l players dealer) → next_pending_from h f = Some f.
Proof.
  intros Hf h Hs Hp. destruct (posted_first f Hf) as (s & Hfs & Ha).
  unfold next_pending_from, player_count. rewrite Hs.
  pose proof (lookup_lt_Some _ _ _ Hfs) as Hlt.
  destruct (length (seats (blinds_posted l players dealer))) as [|n] eqn:En; [lia|].
  cbn [seq map find_first]. rewrite Nat.add_0_r, Nat.mod_small by lia.
  replace (is_pending_index h f) with true; [done|]. unfold is_pending_index.
  rewrite Hs, Hfs. symmetry. apply bool_decide_true. rewrite Hp.
  destruct posted_shape as (ss & f' & E & _). rewrite (f_equal pending E).
  apply elem_of_actionable. exists s. split_and!; try done. by eapply list_elem_of_lookup_2.
Qed.

Lemma post_blinds_code : post_blinds h0 = (Ok tt, blinds_posted l players dealer).
Proof.
  destruct fresh_counts as [H2 Hd].
  destruct (blind_positions h0) as [[si bi] f] eqn:Hb.
  destruct (blind_positions_spec h0 si bi f H2 Hd Hb) as (Hsi & Hbi & _ & Hne & _).
  assert (∀ i, (i < player_count h0)%nat → ∃ p, seats h0 !! i = Some (fresh_seat p)
    ∧ big_blind l <= p.2 <= u64_max) as Hlook.
  { intros i Hi. unfold player_count in Hi; simpl in Hi. rewrite length_map in Hi.
    apply lookup_lt_is_Some_2 in Hi as [p Hp]. exists p. simpl. rewrite list_lookup_fmap, Hp.
    split; [done|]. pose proof (start_funds p ltac:(by eapply list_elem_of_lookup_2)).
    pose proof Hstacks as Hin. unfold buy_ins_ok in Hin. rewrite Forall_lookup in Hin.
    specialize (Hin i p Hp). unfold level_wf in Hlevel.
    pose proof (sum_with_nonneg snd players). lia. }
  pose proof Hlevel as Hl. unfold level_wf in Hl.
  destruct (Hlook si Hsi) as (p1 & Hp1 & Hm1). destruct (Hlook bi Hbi) as (p2 & Hp2 & Hm2).
  unfold post_blinds; run_code. rewrite Hb. run_code.
  rewrite (fresh_commit h0 si p1) by (done || lia).
  rewrite (fresh_commit _ bi p2) by (simpl in *; rewrite ?list_lookup_alter_ne by done; done || lia).
  unfold reset_pending_for_street; run_code. f_equal.
  assert (Hf : (blind_positions h0).2 = f) by (by rewrite Hb).
  erewrite (posted_next f Hf); unfold blinds_posted; fold h0; rewrite ?Hb; reflexivity.
Qed.

Lemma posted_pot : total_pot (blinds_posted l players dealer) = small_blind l + big_blind l.
Proof.
  destruct fresh_counts as [H2 Hd]. destruct (blind_positions h0) as [[si bi] f] eqn:Hb.
  destruct (blind_positions_spec h0 si bi f H2 Hd Hb) as (Hsi & Hbi & _ & Hne & _).
  unfold blinds_posted. fold h0. rewrite Hb. unfold total_pot; simpl.
  unfold player_count in Hsi, Hbi; simpl in Hsi, Hbi.
  apply lookup_lt_is_Some_2 in Hsi as [s1 H1], Hbi as [s2 Hs2].
  rewrite (alter_insert_seat _ (alter _ _ _) bi s2) by (by rewrite list_lookup_alter_ne).
  rewrite (sum_with_insert _ _ bi s2) by (by rewrite list_lookup_alter_ne).
  rewrite (alter_insert_seat _ _ si s1), (sum_with_insert _ _ si s1) by done. simpl.
  rewrite sum_with_map. simpl. rewrite sum_with_const. lia.
Qed.
End start.

(** The preconditions [start] checks, in its order. *)
Definition start_ok (l : StakeLevel) (players : list (PlayerId * Chips)) (dealer : nat) : Prop :=
  minimum_players l <= Z.of_nat (length players) <= maximum_players l
  ∧ (dealer < length players)%nat ∧ NoDup (map fst players) ∧ buy_ins_ok l players.

Lemma start_checks l players dealer :
  start l players dealer
  = if decide (minimum_players l <= Z.of_nat (length players) <= maximum_players l) then
      if decide (dealer < length players)%nat then
        if decide (NoDup (map fst players)) then
          if decide (buy_ins_ok l players) then
            match post_blinds (fresh_hand l players dealer) with
            | (Ok _, h) => Ok h | (Err e, _) => Err e | (Panic, _) => Panic
            end
          else Err StackOutsideBuyInRange
        else Err DuplicatePlayer
      else Err InvalidDealerIndex
    else Err InvalidSeatCount.
Proof.
  unfold start; run_code.
  destruct (decide (minimum_players l <= _ <= _)) as [[H1 H2]|Hn];
    [replace (_ || _) with false by lia|replace (_ || _) with true by lia; done].
  destruct (decide (dealer < _)%nat);
    [replace (_ <=? _) with false by lia|replace (_ <=? _) with true by lia; done].
  destruct (decide (NoDup _)) as [Hd|Hd];
    (rewrite <-(size_eq_NoDup (map fst players)), length_map in Hd);
    [rewrite bool_decide_true by done|rewrite bool_decide_false by done; done]. simpl.
  destruct (decide (buy_ins_ok l players)) as [Hb|Hb]; unfold buy_ins_ok in Hb.
  - replace (existsb _ players) with false; [done|]. symmetry. apply not_true_is_false.
    rewrite existsb_exists. intros (p & Hp & Hq). rewrite Forall_forall in Hb.
    apply list_elem_of_In, Hb in Hp. lia.
  - replace (existsb _ players) with true; [done|]. symmetry. apply existsb_exists.
    apply not_Forall_Exists in Hb; [|apply _]. apply Exists_exists in Hb as (p & Hp & Hq).
    exists p. split; [by apply list_elem_of_In|]. simpl in Hq. lia.
Qed.

Lemma uncontested_zero_sum h s :
  NoDup (map seat_player (seats h)) → s ∈ seats h →
  sum_with settled_delta (map (uncontested_result h (seat_player s)) (seats h)) = 0.
Proof.
  intros Hnd Hs. rewrite sum_with_map. simpl.
  rewrite (sum_with_ext _ (λ t, (if decide (seat_player t = seat_player s) then total_pot h else 0)
                                 - total_committed t)).
  2: { intros t _. case_decide; lia. }
  rewrite sum_with_sub, (sum_with_key seat_player (λ _, total_pot h)) by done.
  unfold total_pot. lia.
Qed.

Lemma fold_seats i p h h1 s :
  seats h !! i = Some s → apply_action i p Fold h = (Ok tt, h1) →
  seats h1 = <[i:=set_status Folded s]> (seats h).
Proof.
  intros Hi. unfold apply_action, update_seat, consume_action; run_code.
  intros [= <-]. simpl. by apply alter_insert_seat.
Qed.

(** ** Theorems *)

(** [HoldemHand::start] checks its arguments in order and rejects the first
    fault it finds; otherwise it deals a hand in which the blinds are in the
    pot, the betting invariant holds, the chips on the table are the buy-ins,
    and the player after the big blind acts first (the dealer, who posts the
    small blind, when two play). *)
Theorem start_spec l players dealer :
  level_wf l → 2 * sum_with snd players <= u64_max →
  if decide (start_ok l players dealer) then
    ∃ h, start l players dealer = Ok h ∧ betting h ∧ street h = Preflop
      ∧ map seat_player (seats h) = map fst players
      ∧ bankroll h = sum_with snd players
      ∧ total_pot h = small_blind l + big_blind l
      ∧ next_to_act h = Some (if (length players =? 2)%nat then dealer
                              else ((dealer + 3) `mod` length players)%nat)
  else ∃ e, start l players dealer = Err e
      ∧ e ∈ [InvalidSeatCount; InvalidDealerIndex; DuplicatePlayer; StackOutsideBuyInRange].
Proof.
  intros Hl Hf. rewrite start_checks. case_decide as Hok.
  - destruct Hok as (H1 & H2 & H3 & H4). rewrite !decide_True by done.
    rewrite post_blinds_code by done. eexists. split; [done|].
    pose proof (posted_table l players dealer) as Ht.
    destruct (posted_shape l players dealer) as (ss & f & E & _ & Hfirst).
    split; [by apply posted_betting|].
    split; [by rewrite E|]. split; [rewrite (st_players _ _ Ht); simpl; by rewrite map_map|].
    split; [rewrite (same_table_bankroll _ _ Ht); apply fresh_bankroll|].
    split; [by apply posted_pot|]. rewrite E. simpl. f_equal. rewrite <-Hfirst.
    unfold blind_positions, player_count; simpl. rewrite length_map. by destruct (_ =? 2)%nat.
  - unfold start_ok in Hok. repeat case_decide; try (eexists; split; [done|set_solver]).
    destruct Hok. tauto.
Qed.

(** C2: While a hand waits for an action, [act] accepts exactly the legal
    actions of the player whose turn it is: a fold always, a check when the
    bet is matched, a call when it is not, a raise when the player has the
    right to raise, can pay it, and it reaches the minimum or is all-in. *)
Theorem act_accepts_iff_legal h p a :
  betting h →
  (is_ok (act p a h).1 = true ↔
   ∃ i s, next_to_act h = Some i ∧ seats h !! i = Some s ∧ seat_player s = p ∧ legal h s a).
Proof.
  intros Hb. destruct (act_spec h p a Hb) as [i s Hi Hs Hp|i s e Hi Hs Hp Hl He|]; simpl.
  - split; [done|]. intros (i' & s' & ? & ? & ? & _). by simplify_eq.
  - split; [done|]. intros (i' & s' & ? & ? & ? & ?). by simplify_eq.
  - split; [|done]. eauto 10.
Qed.

(** A rejected action is one of the rule violations, never an internal
    error or a panic, and it leaves the hand exactly as it was. *)
Theorem act_rejection_is_pure h p a :
  betting h →
  match act p a h with
  | (Ok _, _) => True
  | (Err e, h') => rule_error e ∧ h' = h
  | (Panic, _) => False
  end.
Proof. intros Hb. by destruct (act_spec h p a Hb). Qed.

(** A run of accepted actions that keeps the hand going. *)
Inductive plays : HoldemHand → list (PlayerId * PlayerAction) → HoldemHand → Prop :=
  | plays_nil h : plays h [] h
  | plays_step h p a out h' acts h'' :
      act p a h = (Ok out, h') → goes_on out → plays h' acts h'' →
      plays h ((p, a) :: acts) h''.

Lemma act_goes_on h p a out h' :
  betting h → act p a h = (Ok out, h') → goes_on out →
  betting h' ∧ same_table h h' ∧ measure h' < measure h.
Proof.
  intros Hb Ha Hg. pose proof (act_spec h p a Hb) as Hr. rewrite Ha in Hr.
  inversion Hr as [| |i s h1 ? ? ? ? ? ? Hpg _ Ht]; simplify_eq.
  destruct (accepted_measure _ _ _ _ _ _ Hpg Ht Hg) as [? ?].
  split_and!; [done| |done]. etrans; [apply Hpg|apply Ht].
Qed.

Lemma plays_betting h acts h' :
  plays h acts h' → betting h →
  betting h' ∧ same_table h h' ∧ measure h' + Z.of_nat (length acts) <= measure h.
Proof.
  induction 1 as [h|h p a out h' acts h'' Ha Hg _ IH]; intros Hb.
  - split_and!; [done|done|simpl; lia].
  - destruct (act_goes_on _ _ _ _ _ Hb Ha Hg) as (Hb' & Ht & Hm).
    destruct (IH Hb') as (Hb'' & Ht' & Hm'). split_and!; [done|by etrans|].
    cbn [length]. lia.
Qed.

(** C8: A hand is finite.  Whatever the players do, a run of accepted actions
    that keeps the hand going has at most [measure h] steps, and at each point
    of it the player to act can at least fold, so the hand is never stuck. *)
Theorem hand_terminates h acts h' :
  betting h → plays h acts h' →
  Z.of_nat (length acts) <= measure h
  ∧ ∃ p, next_player h' = Ok (Some p) ∧ is_ok (act p Fold h').1 = true.
Proof.
  intros Hb Hp. destruct (plays_betting _ _ _ Hp Hb) as (Hb' & _ & Hm).
  pose proof (measure_nonneg h' (bt_core _ Hb')). split; [lia|].
  destruct (bt_next _ Hb') as (i & s & Hi & Hs & Hpend).
  exists (seat_player s). split; [unfold next_player; by rewrite Hi, Hs|].
  destruct (act_spec h' (seat_player s) Fold Hb') as [i' s'|i' s'|]; simplify_eq; [|done].
  by exfalso; simpl in *.
Qed.

(** The chips of a hand that is not over: behind and in the pot they are
    [total], and every amount is non-negative and fits its u64. *)
Definition chips_in_play (total : Z) (h : HoldemHand) : Prop :=
  sum_with stack (seats h) + sum_with total_committed (seats h) = total
  ∧ 0 <= sum_with total_committed (seats h) <= u64_max ∧ 0 <= current_bet h <= u64_max ∧ 0 <= last_full_raise h <= u64_max
  ∧ Forall (λ s, 0 <= stack s <= u64_max ∧ 0 <= total_committed s <= u64_max
                 ∧ stack s + total_committed s = starting_stack s
                 ∧ 0 <= street_committed s <= total_committed s ∧ street_committed s <= current_bet h) (seats h).
(** The chips of a hand that everybody but one has folded: the pot has been
    paid, the stacks are [total], and they are what the settlement says. *)
Definition chips_paid (total : Z) (st : HoldemSettlement) (h : HoldemHand) : Prop :=
  sum_with stack (seats h) = total
  ∧ Forall (λ s, 0 <= stack s <= u64_max) (seats h)
  ∧ map (λ s, (seat_player s, stack s)) (seats h)
    = map (λ r, (settled_player r, settled_ending r)) (settled_players st).

Lemma core_chips h : hand_core h → chips_in_play (bankroll h) h.
Proof.
  intros Hc. pose proof (hand_core_funds h Hc) as Hfund. pose proof (hc_funds _ Hc). pose proof (hc_bet _ Hc). pose proof (hc_raise _ Hc).
  assert (0 <= chips_behind h) by (apply sum_with_nonneg; intros; by eapply hand_core_nonneg).
  assert (0 <= total_pot h) by (apply sum_with_nonneg; intros; by eapply hand_core_nonneg).
  assert (0 < big_blind (level h)) by (pose proof (hc_level _ Hc) as Hl; unfold level_wf in Hl; lia).
  unfold chips_in_play. unfold chips_behind, total_pot in *. split_and!; try lia.
  apply Forall_forall. intros s Hs. pose proof (bankroll_elem h s Hc Hs). apply list_elem_of_lookup in Hs as [i Hi].
  pose proof (seat_ok_lookup h i s Hc Hi) as Hok. unfold seat_ok in Hok. lia.
Qed.
(** The winner of an uncontested pot has all of it. *)
Lemma uncontested_paid h w :
  hand_core h → remaining_contenders h = [w] →
  sum_with settled_ending (map (uncontested_result h w) (seats h)) = bankroll h
  ∧ Forall (λ r, 0 <= settled_ending r <= bankroll h) (map (uncontested_result h w) (seats h)).
Proof.
  intros Hc Hw. assert (w ∈ remaining_contenders h) as Hin by (rewrite Hw; set_solver).
  unfold remaining_contenders in Hin. apply list_elem_of_fmap in Hin as (s & -> & Hs). apply list_elem_of_filter in Hs as [_ Hs].
  pose proof (hand_core_funds h Hc) as Hfund.
  assert (0 <= total_pot h) by (apply sum_with_nonneg; intros; by eapply hand_core_nonneg).
  split.
  - pose proof (uncontested_zero_sum h s (hc_nodup _ Hc) Hs) as Hz. rewrite sum_with_map in Hz |- *. cbn in Hz |- *.
    rewrite sum_with_add, Hz. unfold bankroll. lia.
  - apply Forall_map, Forall_forall. intros t Ht. cbn. assert (stack t <= chips_behind h).
    { apply (sum_with_elem_le stack); [|done]. intros; by eapply hand_core_nonneg. }
    apply list_elem_of_lookup in Ht as [i Hi]. pose proof (seat_ok_lookup h i t Hc Hi) as Hok. unfold seat_ok in Hok. case_decide; lia.
Qed.
Lemma act_chips h p a out h' :
  betting h → act p a h = (Ok out, h') →
  match out with HandComplete st => chips_paid (bankroll h) st h' | _ => chips_in_play (bankroll h) h' end.
Proof.
  intros Hb Ha. pose proof (act_spec h p a Hb) as Hr. rewrite Ha in Hr.
  inversion Hr as [| |i s h1 ? ? Hi Hs Hsp Hleg Hpg E Ht]; simplify_eq. clear Hr.
  assert (bankroll h = bankroll h') as ->.
  { rewrite (same_table_bankroll _ _ (tn_table _ _ _ Ht)). symmetry. apply same_table_bankroll, Hpg. }
  destruct Ht as [Htb Ht]. destruct out as [q|st q| |st].
  - destruct Ht as (Hb' & _). apply core_chips, Hb'.
  - destruct Ht as (_ & [_ _ _ (Hb' & _)]). apply core_chips, Hb'.
  - destruct Ht as (_ & [_ _ _ Hd]). apply core_chips, Hd.
  - destruct Ht as (_ & w & Hw & Hu & Hst). pose proof (pg_core _ _ _ _ Hpg) as Hc1.
    pose proof (uncontested_paid h1 w Hc1 Hw) as (Hsum & Hnn). rewrite <-Hu, Hst in Hsum, Hnn.
    pose proof (same_table_bankroll _ _ Htb) as Hbk. pose proof (hc_funds _ Hc1). unfold chips_paid. rewrite sum_with_map in Hsum. cbn in Hsum.
    split_and!; [rewrite Hbk; exact Hsum| |by rewrite Hst, map_map].
    apply Forall_forall. intros t Ht. rewrite Forall_map in Hnn. rewrite Forall_forall in Hnn. specialize (Hnn t Ht). cbn in Hnn. lia.
Qed.

(** C1: Chips are neither made nor lost, for buy-ins that are together at most
    half of a u64.  From the start of a hand, after any run of accepted actions
    the chips behind and the chips in the pot add up to the buy-ins, every
    stack, commitment, bet and raise is non-negative and fits its u64, and
    nobody has committed more on the street than the current bet.  The same
    holds after one more accepted action that opens a street or the showdown;
    and when that action ends the hand because all others have folded, the pot
    has been paid: the stacks alone add up to the buy-ins, fit their u64, and
    are those of the settlement. *)
Theorem hand_conserves_chips l players dealer h0 acts h :
  level_wf l → 2 * sum_with snd players <= u64_max →
  start l players dealer = Ok h0 → plays h0 acts h →
  chips_in_play (sum_with snd players) h
  ∧ ∀ p a out h', act p a h = (Ok out, h') →
      match out with
      | HandComplete st => chips_paid (sum_with snd players) st h'
      | _ => chips_in_play (sum_with snd players) h'
      end.
Proof.
  intros Hl Hf Hs Hp. rewrite start_checks in Hs. repeat case_decide; try done.
  rewrite post_blinds_code in Hs by done. simplify_eq.
  pose proof (posted_betting l players dealer) as Hb. specialize (Hb ltac:(done)).
  destruct (plays_betting _ _ _ Hp) as (Hb' & Ht & _); [by apply Hb|].
  assert (bankroll h = sum_with snd players) as <-.
  { rewrite (same_table_bankroll _ _ Ht), (same_table_bankroll _ _ (posted_table l players dealer)).
    apply fresh_bankroll. }
  split; [apply core_chips, Hb'|]. intros p a out h'. by apply act_chips.
Qed.

(** A betting round closes only when it should: when [act] ends a street,
    the state after the player's own action has every player who can still act
    at the current bet, and opening the next street or the showdown changes
    nobody's chips. *)
Theorem street_closes_when_matched h p a out h' :
  betting h → act p a h = (Ok out, h') →
  (out = ShowdownReady ∨ ∃ st q, out = StreetAdvanced st q) →
  ∃ i h1, next_to_act h = Some i ∧ apply_action i p a h = (Ok tt, h1)
    ∧ (∀ s, s ∈ seats h1 → status s = Active → street_committed s = current_bet h1)
    ∧ map (set_street_committed 0) (seats h') = map (set_street_committed 0) (seats h1)
    ∧ (street h' = Showdown ∨ (rounds_left (street h') < rounds_left (street h))%nat).
Proof.
  intros Hb Ha Ho. pose proof (act_spec h p a Hb) as Hr. rewrite Ha in Hr.
  inversion Hr as [| |i s h1 ? ? Hi ? ? ? Hpg E Ht]; simplify_eq.
  exists i, h1. destruct Ht as [_ Ht]. pose proof (pg_street _ _ _ _ Hpg) as Hst.
  assert (pending h1 = ∅ ∧ advanced h1 out h') as [Hpend Had]
    by (by destruct Ho as [->|(st & q & ->)]).
  split_and!; [done|done| |apply Had|].
  - intros t Hin Hact. apply (hc_matched _ (pg_core _ _ _ _ Hpg)); [done..|]. set_solver.
  - destruct Had as [_ _ _ Had]. rewrite <-Hst.
    destruct Ho as [->|(st & q & ->)]; [left; apply Had|right].
    destruct Had as (_ & -> & ? & _). done.
Qed.

(** When everybody else has folded, the last player takes the pot: the
    settlement gives the winner the others' commitments, takes from each of
    the others what they had put in, and its deltas add up to zero.  Only a
    fold can end a hand this way. *)
Theorem fold_out_pays_pot h p a st h' :
  betting h → act p a h = (Ok (HandComplete st), h') →
  a = Fold ∧ street h' = Complete
  ∧ ∃ w, w ≠ p
    ∧ settled_players st = map (uncontested_result h w) (seats h)
    ∧ sum_with settled_delta (settled_players st) = 0.
Proof.
  intros Hb Ha. pose proof (act_spec h p a Hb) as Hr. rewrite Ha in Hr.
  inversion Hr as [| |i s h1 ? ? Hi Hs Hsp Hleg Hpg E Ht]; simplify_eq.
  destruct Ht as [_ (Hc & w & Hw & Hst & _)].
  destruct (progress_contenders _ _ _ _ Hpg (bt_contenders _ Hb)) as [_ Hfold].
  assert (a = Fold) as ->.
  { destruct (decide (a = Fold)) as [|Hn]; [done|]. pose proof (bt_contenders _ Hb) as H2.
    rewrite <-(Hfold Hn), Hw in H2. simpl in H2. lia. }
  split; [done|]. split; [done|].
  pose proof (fold_seats _ _ _ _ _ Hs E) as Hss.
  assert (w ∈ remaining_contenders h1) as Hin by (rewrite Hw; set_solver).
  unfold remaining_contenders in Hin. apply list_elem_of_fmap in Hin as (t & -> & Ht).
  apply list_elem_of_filter in Ht as [Hnf Ht]. rewrite Hss in Ht.
  apply elem_of_insert_seat in Ht as [->|(j & Hj & Ht)]; [done|].
  assert (settled_players st = map (uncontested_result h (seat_player t)) (seats h)) as Heq.
  { assert (total_pot h1 = total_pot h) as Hpot.
    { unfold total_pot. rewrite Hss, (sum_with_insert _ _ i s) by done. simpl. lia. }
    rewrite Hst, Hss. unfold uncontested_result. rewrite Hpot. by eapply NoDup_map_insert. }
  exists (seat_player t). split_and!; [|done|].
  - intros Hp. pose proof (other_seat_player h i s j t (bt_core _ Hb) Hs Ht Hj). congruence.
  - rewrite Heq. apply uncontested_zero_sum; [apply (bt_core _ Hb)|].
    by eapply list_elem_of_lookup_2.
Qed.

(** ** The theorems at concrete hands *)

Definition example_player (n : Z) : PlayerId := repeat_id 32 n.
Definition example_players : list (PlayerId * Chips) :=
  [(example_player 1, 800000); (example_player 2, 1200000); (example_player 3, 2000000)].
Definition example_hand : HoldemHand := blinds_posted example_level example_players 0.
(** Three players, the first two fold. *)
Definition example_heads_up : HoldemHand := (act (example_player 1) Fold example_hand).2.

Lemma example_level_wf : level_wf example_level.
Proof. unfold level_wf. vm_compute. intuition congruence. Qed.

Lemma example_start_ok : start_ok example_level example_players 0.
Proof.
  split; [vm_compute; split; congruence|]. split; [simpl; lia|]. split.
  - apply (bool_decide_unpack _). vm_compute. reflexivity.
  - repeat constructor; vm_compute; congruence.
Qed.

Lemma example_betting : betting example_hand.
Proof.
  destruct example_start_ok as (? & ? & ? & ?).
  apply posted_betting; try done; first [apply example_level_wf | vm_compute; congruence].
Qed.

Lemma example_heads_up_betting : betting example_heads_up.
Proof.
  eapply (act_goes_on example_hand (example_player 1) Fold (WaitingFor (example_player 2)));
    [apply example_betting|vm_compute; reflexivity|done].
Qed.

Lemma start_spec_witness :
  ∃ h, start example_level example_players 0 = Ok h ∧ betting h ∧ next_to_act h = Some 0%nat.
Proof.
  pose proof (start_spec example_level example_players 0 example_level_wf
                ltac:(vm_compute; congruence)) as H.
  rewrite decide_True in H by apply example_start_ok.
  destruct H as (h & H1 & H2 & _ & _ & _ & _ & H3).
  exists h. split; [exact H1|]. split; [exact H2|]. exact H3.
Defined.

Lemma act_accepts_iff_legal_witness :
  is_ok (act (example_player 1) (RaiseTo 39999) example_hand).1 = true ↔
   ∃ i s, next_to_act example_hand = Some i ∧ seats example_hand !! i = Some s
     ∧ seat_player s = example_player 1 ∧ legal example_hand s (RaiseTo 39999).
Proof. apply act_accepts_iff_legal, example_betting. Defined.

Lemma act_rejection_is_pure_witness :
  match act (example_player 1) (RaiseTo 39999) example_hand with
  | (Ok _, _) => True
  | (Err e, h') => rule_error e ∧ h' = example_hand
  | (Panic, _) => False
  end.
Proof. apply act_rejection_is_pure, example_betting. Defined.

Lemma hand_terminates_witness :
  Z.of_nat 1 <= measure example_hand
  ∧ ∃ p, next_player example_heads_up = Ok (Some p) ∧ is_ok (act p Fold example_heads_up).1 = true.
Proof.
  apply (hand_terminates example_hand [(example_player 1, Fold)] example_heads_up example_betting).
  eapply (plays_step _ _ _ (WaitingFor (example_player 2)));
    [vm_compute; reflexivity|done|apply plays_nil].
Defined.

Lemma hand_conserves_chips_witness :
  chips_in_play (sum_with snd example_players) example_heads_up
  ∧ chips_paid (sum_with snd example_players)
      (mkHoldemSettlement [mkSettlement (example_player 1) 800000 800000 0;
         mkSettlement (example_player 2) 1200000 1190000 (-10000);
         mkSettlement (example_player 3) 2000000 2010000 10000])
      (act (example_player 2) Fold example_heads_up).2.
Proof.
  destruct (hand_conserves_chips example_level example_players 0 example_hand
              [(example_player 1, Fold)] example_heads_up) as [Hin Hact].
  - apply example_level_wf.
  - vm_compute. congruence.
  - vm_compute. reflexivity.
  - eapply (plays_step _ _ _ (WaitingFor (example_player 2)));
      [vm_compute; reflexivity|done|apply plays_nil].
  - split; [exact Hin|]. apply (Hact (example_player 2) Fold (HandComplete (mkHoldemSettlement _))). vm_compute. reflexivity.
Defined.

(** The small blind calls, then the big blind checks and the flop opens. *)
Definition example_called : HoldemHand := (act (example_player 2) Call example_heads_up).2.

Lemma example_called_betting : betting example_called.
Proof.
  eapply (act_goes_on example_heads_up (example_player 2) Call (WaitingFor (example_player 3)));
    [apply example_heads_up_betting|vm_compute; reflexivity|done].
Qed.

Lemma street_closes_when_matched_witness :
  ∃ i h1, next_to_act example_called = Some i
    ∧ apply_action i (example_player 3) Check example_called = (Ok tt, h1)
    ∧ (∀ s, s ∈ seats h1 → status s = Active → street_committed s = current_bet h1)
    ∧ map (set_street_committed 0) (seats (act (example_player 3) Check example_called).2)
      = map (set_street_committed 0) (seats h1)
    ∧ (street (act (example_player 3) Check example_called).2 = Showdown
       ∨ (rounds_left (street (act (example_player 3) Check example_called).2)
          < rounds_left (street example_called))%nat).
Proof.
  apply (street_closes_when_matched example_called (example_player 3) Check
           (StreetAdvanced Flop (Some (example_player 2)))).
  - apply example_called_betting.
  - vm_compute. reflexivity.
  - right. by do 2 eexists.
Defined.

Lemma fold_out_pays_pot_witness :
  Fold = Fold ∧ street (act (example_player 2) Fold example_heads_up).2 = Complete
  ∧ ∃ w, w ≠ example_player 2
    ∧ [mkSettlement (example_player 1) 800000 800000 0;
       mkSettlement (example_player 2) 1200000 1190000 (-10000);
       mkSettlement (example_player 3) 2000000 2010000 10000]
      = map (uncontested_result example_heads_up w) (seats example_heads_up)
    ∧ sum_with settled_delta
        [mkSettlement (example_player 1) 800000 800000 0;
         mkSettlement (example_player 2) 1200000 1190000 (-10000);
         mkSettlement (example_player 3) 2000000 2010000 10000] = 0.
Proof.
  apply (fold_out_pays_pot example_heads_up (example_player 2) Fold (mkHoldemSettlement _)).
  - apply example_heads_up_betting.
  - vm_compute. reflexivity.
Defined.
