(* ===== verification/Showdown.v ===== *)
(** * Showdown: the side pots of [settle_showdown]

    [layer_payout] is the reference definition of one layer of the pot: who
    reaches it, who of them may win it, the equal shares of the best hands and
    the odd chips.  [settle_showdown] pays every player the sum of the layers;
    the theorems give the total, the cap of an all-in player, the winner's
    takings, and when the settlement fails. *)

From S2P Require Import Prelude Machine Order Ids Table Cards Holdem HoldemInv HoldemAct.

(** ** Paying out *)

Definition pay_out (g : PlayerId → Z) (h : HoldemHand) : HoldemHand :=
  set_seats (map (λ s, grant (g (seat_player s)) s) (seats h)) h.
Definition granted (h : HoldemHand) (g : PlayerId → Z) : Z :=
  sum_with (λ s, g (seat_player s)) (seats h).
Definition credit (g : PlayerId → Z) (p : PlayerId) (amount : Z) : PlayerId → Z :=
  λ q, if decide (q = p) then g q + amount else g q.
Definition credit_all (g : PlayerId → Z) (ps : list PlayerId) (amount : Z) : PlayerId → Z :=
  foldl (λ g p, credit g p amount) g ps.
Definition plus_grants (g d : PlayerId → Z) : PlayerId → Z := λ q, g q + d q.

Lemma pay_out_ext h g g' : (∀ q, g q = g' q) → pay_out g h = pay_out g' h.
Proof. intros H. unfold pay_out. f_equal. apply map_ext. intros s. by rewrite H. Qed.

Lemma pay_out_none h : pay_out (λ _, 0) h = h.
Proof.
  unfold pay_out. destruct h as [l d st ss ? ? ? ? ?]. unfold set_seats; simpl. f_equal.
  rewrite <-(list_fmap_id ss) at 2. apply map_ext. intros [????? ?]. unfold grant, set_stack; simpl.
  f_equal. lia.
Qed.

Lemma credit_all_value g ps a q :
  NoDup ps → credit_all g ps a q = g q + if decide (q ∈ ps) then a else 0.
Proof.
  revert g; induction ps as [|p ps IH]; intros g Hnd; [simpl; lia|].
  apply NoDup_cons in Hnd as [Hp Hnd]. unfold credit_all in *; simpl. rewrite IH by done.
  unfold credit. destruct (decide (q = p)) as [->|Hne].
  - rewrite decide_False, decide_True by set_solver. lia.
  - destruct (decide (q ∈ ps)); [rewrite decide_True by set_solver|rewrite decide_False by set_solver]; lia.
Qed.

Section awarding.
Context (h : HoldemHand).
Hypothesis Hcore : hand_core h.
Let players := map seat_player (seats h).

Lemma granted_credit g p a : p ∈ players → granted h (credit g p a) = granted h g + a.
Proof.
  intros (s & -> & Hs)%list_elem_of_fmap. unfold granted, credit.
  rewrite (sum_with_ext _ (λ t, g (seat_player t)
    + (if decide (seat_player t = seat_player s) then a else 0))) by (intros; case_decide; lia).
  rewrite sum_with_add, (sum_with_key seat_player (λ _, a)); [done|apply Hcore|done].
Qed.

Lemma granted_nonneg g : (∀ q, 0 <= g q) → 0 <= granted h g.
Proof. intros Hg. by apply sum_with_nonneg. Qed.

(** Within the pot, no award overflows. *)
Lemma award_fits g i s a :
  (∀ q, 0 <= g q) → 0 <= a → granted h g + a <= total_pot h → seats h !! i = Some s →
  stack s + g (seat_player s) + a <= u64_max.
Proof.
  intros Hg Ha Hb Hi. assert (s ∈ seats h) as Hs by (by eapply list_elem_of_lookup_2).
  pose proof (hand_core_funds h Hcore). pose proof (hc_funds _ Hcore).
  assert (stack s <= chips_behind h).
  { apply (sum_with_elem_le stack); [|done]. intros; by eapply hand_core_nonneg. }
  assert (g (seat_player s) <= granted h g).
  { apply (sum_with_elem_le (λ s, g (seat_player s))); [by intros|done]. }
  pose proof (granted_nonneg g Hg).
  assert (0 <= chips_behind h) by (apply sum_with_nonneg; intros; by eapply hand_core_nonneg).
  assert (0 <= total_pot h) by (apply sum_with_nonneg; intros; by eapply hand_core_nonneg). lia.
Qed.

Lemma award_pay_out g p a :
  p ∈ players → (∀ q, 0 <= g q) → 0 <= a → granted h g + a <= total_pot h →
  award p a (pay_out g h) = (Ok tt, pay_out (credit g p a) h).
Proof.
  intros (s & -> & [i Hi]%list_elem_of_lookup)%list_elem_of_fmap Hg Ha Hb.
  pose proof (award_fits g i s a Hg Ha Hb Hi) as Hfit.
  rewrite (award_spec (pay_out g h) i (grant (g (seat_player s)) s)).
  - f_equal. unfold pay_out, set_seats; simpl. f_equal. apply list_eq. intros j.
    destruct (decide (j = i)) as [->|Hne].
    + rewrite list_lookup_insert_eq by (rewrite length_map; by eapply lookup_lt_Some).
      rewrite list_lookup_fmap, Hi; simpl. f_equal. unfold grant, set_stack, credit; simpl.
      rewrite decide_True by done. f_equal. lia.
    + rewrite list_lookup_insert_ne by done. rewrite !list_lookup_fmap.
      destruct (seats h !! j) as [t|] eqn:Ht; [|done]. simpl. f_equal. unfold credit.
      by rewrite decide_False by (by eapply other_seat_player).
  - simpl. rewrite map_map. apply Hcore.
  - simpl. by rewrite list_lookup_fmap, Hi.
  - simpl. lia.
Qed.

Lemma credit_nonneg g p a : (∀ q, 0 <= g q) → 0 <= a → ∀ q, 0 <= credit g p a q.
Proof. intros Hg Ha q. unfold credit. pose proof (Hg q). case_decide; lia. Qed.

(** Awarding the same amount to several players. *)
Lemma award_all ps g a :
  Forall (λ p, p ∈ players) ps → (∀ q, 0 <= g q) → 0 <= a →
  granted h g + a * Z.of_nat (length ps) <= total_pot h →
  for_each (λ p, award p a) ps (pay_out g h) = (Ok tt, pay_out (credit_all g ps a) h)
  ∧ granted h (credit_all g ps a) = granted h g + a * Z.of_nat (length ps)
  ∧ ∀ q, 0 <= credit_all g ps a q.
Proof.
  revert g; induction ps as [|p ps IH]; intros g Hps Hg Ha Hb.
  - split_and!; [done|simpl; lia|done].
  - apply Forall_cons in Hps as [Hp Hps]. cbn [length] in *. cbn [for_each]. rewrite run_bind.
    rewrite award_pay_out by (done || lia).
    destruct (IH (credit g p a) Hps) as (E & Hgr & Hnn); [by apply credit_nonneg|done| |].
    { rewrite granted_credit by done. lia. }
    rewrite E. split_and!; [done| |done]. unfold credit_all in *; simpl. rewrite Hgr.
    rewrite granted_credit by done. lia.
Qed.
End awarding.

(** ** Splitting a layer *)

Lemma omap_lookup_seq {A B} (f : A → B) (l : list A) :
  omap (λ i, f <$> l !! i) (seq 0 (length l)) = map f l.
Proof.
  induction l as [|x l IH]; [done|]. cbn [length seq omap list_omap map]. simpl. f_equal.
  rewrite <-IH, <-fmap_S_seq. generalize (seq 0 (length l)). intros k.
  induction k as [|i k IHk]; [done|]. cbn [fmap list_fmap omap list_omap]. simpl.
  destruct (l !! i); simpl; [f_equal|]; apply IHk.
Qed.

Lemma clockwise_perm h :
  clockwise_players h ≡ₚ map seat_player (seats h).
Proof.
  unfold clockwise_players. set (n := player_count h).
  assert (omap (λ o, seat_player <$> seats h !! ((dealer_index h + o) `mod` n)%nat) (seq 1 n)
    = omap (λ i, seat_player <$> seats h !! i)
        (map (λ o, (dealer_index h + 1 + o) `mod` n)%nat (seq 0 n))) as ->.
  { rewrite <-fmap_S_seq. generalize (seq 0 n). intros k. induction k as [|o k IH]; [done|].
    cbn [fmap list_fmap map omap list_omap] in *. rewrite IH.
    by replace (dealer_index h + S o)%nat with (dealer_index h + 1 + o)%nat by lia. }
  assert (seq 0 n ≡ₚ map (λ o, (dealer_index h + 1 + o) `mod` n)%nat (seq 0 n)) as Hp.
  { apply submseteq_length_Permutation; [|by rewrite length_map].
    apply NoDup_submseteq; [apply NoDup_seq|]. intros j Hj%elem_of_seq.
    apply clockwise_covers. lia. }
  rewrite <-Hp. unfold n, player_count. by rewrite omap_lookup_seq.
Qed.

(** The share of each winner of a pot: equal parts, and one odd chip each for
    the first winners clockwise from the dealer. *)
Definition odd_chip_players (h : HoldemHand) (pot : Z) (winners : list PlayerId) : list PlayerId :=
  take (Z.to_nat (pot mod Z.of_nat (length winners)))
    (filter (λ p, p ∈ winners) (clockwise_players h)).
Definition split_payout (h : HoldemHand) (pot : Z) (winners : list PlayerId) (q : PlayerId) : Z :=
  (if decide (q ∈ winners) then pot / Z.of_nat (length winners) else 0)
  + (if decide (q ∈ odd_chip_players h pot winners) then 1 else 0).

Section splitting.
Context (h : HoldemHand).
Hypothesis Hcore : hand_core h.
Let players := map seat_player (seats h).

Lemma ordered_winners winners :
  NoDup winners → Forall (λ p, p ∈ players) winners →
  filter (λ p, p ∈ winners) (clockwise_players h) ≡ₚ winners.
Proof.
  intros Hnd Hin. apply NoDup_Permutation; [|done|].
  - apply NoDup_filter. rewrite clockwise_perm. apply Hcore.
  - intros p. rewrite list_elem_of_filter, clockwise_perm. rewrite Forall_forall in Hin.
    split; [by intros [? _]|auto].
Qed.

Lemma odd_chip_facts pot winners :
  NoDup winners → winners ≠ [] → Forall (λ p, p ∈ players) winners → 0 <= pot →
  NoDup (odd_chip_players h pot winners)
  ∧ Forall (λ p, p ∈ players) (odd_chip_players h pot winners)
  ∧ (∀ p, p ∈ odd_chip_players h pot winners → p ∈ winners)
  ∧ Z.of_nat (length (odd_chip_players h pot winners)) = pot mod Z.of_nat (length winners).
Proof.
  intros Hnd Hne Hin Hpot. pose proof (ordered_winners winners Hnd Hin) as Hp.
  assert (0 < Z.of_nat (length winners)) by (destruct winners; [done|simpl; lia]).
  pose proof (Z.mod_pos_bound pot (Z.of_nat (length winners)) ltac:(lia)) as Hm.
  unfold odd_chip_players.
  assert (∀ p, p ∈ take (Z.to_nat (pot mod Z.of_nat (length winners)))
      (filter (λ p, p ∈ winners) (clockwise_players h)) → p ∈ winners) as Hsub.
  { intros p Hq. rewrite <-Hp. apply (elem_of_sublist _ _ _ Hq), sublist_take. }
  split_and!.
  - apply (sublist_NoDup _ (filter (λ p, p ∈ winners) (clockwise_players h)));
      [by rewrite Hp|apply sublist_take].
  - apply Forall_forall. intros p Hq. rewrite Forall_forall in Hin. auto.
  - done.
  - rewrite length_take, Hp. lia.
Qed.

Lemma award_split_pay_out g pot winners :
  NoDup winners → winners ≠ [] → Forall (λ p, p ∈ players) winners → 0 <= pot →
  (∀ q, 0 <= g q) → granted h g + pot <= total_pot h →
  award_split pot winners (pay_out g h)
    = (Ok tt, pay_out (plus_grants g (split_payout h pot winners)) h)
  ∧ granted h (plus_grants g (split_payout h pot winners)) = granted h g + pot
  ∧ ∀ q, 0 <= plus_grants g (split_payout h pot winners) q.
Proof.
  intros Hnd Hne Hin Hpot Hg Hb.
  destruct (odd_chip_facts pot winners Hnd Hne Hin Hpot) as (Hnd' & Hin' & Hsub & Hlen).
  set (count := Z.of_nat (length winners)) in *.
  assert (0 < count) by (unfold count; destruct winners; [done|simpl; lia]).
  pose proof (Z_div_mod_eq_full pot count) as Hdm.
  pose proof (Z.mod_pos_bound pot count ltac:(lia)) as Hm.
  assert (0 <= pot / count) by (apply Z.div_pos; lia).
  assert (pot / count * count + pot mod count = pot) as Hsum by lia.
  clear Hdm.
  destruct (award_all h Hcore winners g (pot / count)) as (E1 & G1 & N1); [done..|fold count; lia|].
  destruct (award_all h Hcore (odd_chip_players h pot winners)
              (credit_all g winners (pot / count)) 1) as (E2 & G2 & N2); [done..| |].
  { rewrite G1, Hlen. fold count. lia. }
  assert (∀ q, credit_all (credit_all g winners (pot / count)) (odd_chip_players h pot winners) 1 q
    = plus_grants g (split_payout h pot winners) q) as Hq.
  { intros q. rewrite !credit_all_value by done. unfold plus_grants, split_payout.
    fold count. repeat case_decide; lia. }
  split_and!.
  - unfold award_split. fold count. replace (count =? 0) with false by lia.
    rewrite run_bind, E1, run_bind. cbn [gets].
    change (filter _ (clockwise_players _)) with
      (filter (λ p, p ∈ winners) (clockwise_players (pay_out (credit_all g winners (pot/count)) h))).
    assert (clockwise_players (pay_out (credit_all g winners (pot / count)) h)
            = clockwise_players h) as ->.
    { unfold clockwise_players, player_count; simpl. rewrite length_map.
      generalize (seq 1 (length (seats h))). intros k. induction k as [|o k IH]; [done|].
      cbn [omap list_omap]. rewrite IH. rewrite !list_lookup_fmap. by destruct (seats h !! _). }
    unfold odd_chip_players in E2. fold count in E2. rewrite E2. f_equal. by apply pay_out_ext.
  - transitivity (granted h (credit_all (credit_all g winners (pot / count))
      (odd_chip_players h pot winners) 1)).
    + apply sum_with_ext. intros. symmetry. apply Hq.
    + rewrite G2, G1, Hlen. fold count. lia.
  - intros q. rewrite <-Hq. apply N2.
Qed.
End splitting.

(** ** One layer of the pot *)

(** The seats that put chips into a layer, and the contenders among them. *)
Definition layer_contributors (h : HoldemHand) (t : Z) : list PlayerId :=
  map seat_player (filter (reaches t) (seats h)).
Definition layer_eligible (h : HoldemHand) (t : Z) : list PlayerId :=
  eligible_for h t (remaining_contenders h).
Definition layer_pot (h : HoldemHand) (prev t : Z) : Z :=
  (t - prev) * Z.of_nat (length (layer_contributors h t)).

(** [q]'s hand is at most as good as [p]'s. *)
Definition not_better (ranks : gmap PlayerId HandRank) (q p : PlayerId) : Prop :=
  match ranks !! q, ranks !! p with
  | Some a, Some b => ord_leb a b = true
  | _, _ => False
  end.
#[export] Instance not_better_dec ranks q p : Decision (not_better ranks q p).
Proof. unfold not_better. repeat case_match; apply _. Defined.

(** The eligible players whom no eligible player beats. *)
Definition layer_winners (h : HoldemHand) (ranks : gmap PlayerId HandRank) (t : Z) : list PlayerId :=
  filter (λ p, Forall (λ q, not_better ranks q p) (layer_eligible h t)) (layer_eligible h t).

Definition layer_payout (h : HoldemHand) (ranks : gmap PlayerId HandRank) (prev t : Z)
    (q : PlayerId) : Z :=
  if decide (layer_eligible h t = []) then
    if decide (q ∈ layer_contributors h t) then layer_pot h prev t else 0
  else split_payout h (layer_pot h prev t) (layer_winners h ranks t) q.

(** A layer can be settled: somebody may win it, or it goes back to the only
    player who paid it. *)
Definition layer_settles (h : HoldemHand) (t : Z) : Prop :=
  layer_eligible h t ≠ [] ∨ length (layer_contributors h t) = 1%nat.
#[export] Instance layer_settles_dec h t : Decision (layer_settles h t).
Proof. unfold layer_settles. apply _. Defined.

Section layer.
Context (h : HoldemHand) (ranks : gmap PlayerId HandRank).
Hypothesis Hcore : hand_core h.
Hypothesis Hranks : ∀ p, p ∈ remaining_contenders h → is_Some (ranks !! p).
Let players := map seat_player (seats h).

Lemma contenders_players : Forall (λ p, p ∈ players) (remaining_contenders h).
Proof.
  apply Forall_forall. intros p (s & -> & Hs)%list_elem_of_fmap.
  apply list_elem_of_filter in Hs as [_ Hs]. by apply (list_elem_of_fmap_2 seat_player).
Qed.

Lemma NoDup_winners t : NoDup (layer_winners h ranks t).
Proof. do 2 apply NoDup_filter. apply NoDup_map_filter, Hcore. Qed.

Lemma eligible_spec t p :
  p ∈ layer_eligible h t ↔
  ∃ s, s ∈ seats h ∧ seat_player s = p ∧ status s ≠ Folded ∧ t <= total_committed s.
Proof.
  unfold layer_eligible, eligible_for. rewrite list_elem_of_filter.
  unfold remaining_contenders. rewrite list_elem_of_fmap.
  setoid_rewrite list_elem_of_filter. unfold player_reaches, find_seat.
  split.
  - intros [Hr (s & -> & Hst & Hs)]. exists s. split_and!; [done..|].
    rewrite (find_first_key seat_player _ s) in Hr by (done || apply Hcore). done.
  - intros (s & Hs & <- & Hst & Ht). split; [|by exists s].
    rewrite (find_first_key seat_player _ s) by (done || apply Hcore). done.
Qed.

Lemma winners_players t : Forall (λ p, p ∈ players) (layer_winners h ranks t).
Proof.
  apply Forall_forall. intros p [_ (s & Hs & <- & _)%eligible_spec]%list_elem_of_filter.
  by apply (list_elem_of_fmap_2 seat_player).
Qed.

(** The code's winners, those whose rank equals the maximum, are the unbeaten
    eligible players. *)
Lemma winners_code t rs best :
  Forall2 (λ p r, ranks !! p = Some r) (layer_eligible h t) rs → iter_max rs = Some best →
  filter (λ p, ranks !! p = Some best) (layer_eligible h t) = layer_winners h ranks t
  ∧ layer_winners h ranks t ≠ [].
Proof.
  intros Hf Hmax. destruct (iter_max_spec rs best Hmax) as [Hbest Hub].
  assert (∀ p, p ∈ layer_eligible h t → (ranks !! p = Some best ↔
    Forall (λ q, not_better ranks q p) (layer_eligible h t))) as Hiff.
  { intros p Hp. apply list_elem_of_lookup in Hp as [i Hi].
    destruct (Forall2_lookup_l _ _ _ _ _ Hf Hi) as (r & Hr & Hpr).
    split.
    - intros Hpb. apply Forall_forall. intros q [j Hj]%list_elem_of_lookup.
      destruct (Forall2_lookup_l _ _ _ _ _ Hf Hj) as (r' & Hr' & Hqr).
      unfold not_better. rewrite Hqr, Hpb. apply Hub. by eapply list_elem_of_lookup_2.
    - intros Hall. apply list_elem_of_lookup in Hbest as [j Hj].
      destruct (Forall2_lookup_r _ _ _ _ _ Hf Hj) as (q & Hq & Hqb).
      rewrite Forall_forall in Hall. specialize (Hall q ltac:(by eapply list_elem_of_lookup_2)).
      unfold not_better in Hall. rewrite Hqb, Hpr in Hall. rewrite Hpr. f_equal.
      apply ord_leb_antisym; [|done]. apply Hub. by eapply list_elem_of_lookup_2. }
  assert (filter (λ p, ranks !! p = Some best) (layer_eligible h t) = layer_winners h ranks t)
    as <- by (by apply filter_iff_in).
  split; [done|]. intros Hnil. apply list_elem_of_lookup in Hbest as [j Hj].
  destruct (Forall2_lookup_r _ _ _ _ _ Hf Hj) as (q & Hq & Hqb).
  eapply (filter_nil_not_elem_of (λ p, ranks !! p = Some best) _ q); [exact Hnil|done|].
  by eapply list_elem_of_lookup_2.
Qed.

(** Payments do not change what a layer looks at. *)
Lemma pay_out_reaches g t :
  map seat_player (filter (reaches t) (seats (pay_out g h))) = layer_contributors h t.
Proof.
  unfold layer_contributors; simpl. induction (seats h) as [|s l IH]; [done|].
  cbn [map]. rewrite !filter_cons.
  change (reaches t (grant _ s)) with (reaches t s).
  destruct (decide (reaches t s)); cbn [map]; [f_equal|]; exact IH.
Qed.

Lemma pay_out_eligible g t :
  eligible_for (pay_out g h) t (remaining_contenders h) = layer_eligible h t.
Proof.
  apply filter_iff_in. intros p _. unfold player_reaches, find_seat; simpl.
  assert (find_first (λ s, bool_decide (seat_player s = p))
    (map (λ s, grant (g (seat_player s)) s) (seats h))
    = (λ s, grant (g (seat_player s)) s) <$> find_first (λ s, bool_decide (seat_player s = p)) (seats h)) as ->.
  { induction (seats h) as [|s l IH]; [done|]. simpl. by case_bool_decide. }
  by destruct (find_first _ _).
Qed.

Lemma eligible_nil_grant t prev q :
  layer_eligible h t = [] → length (layer_contributors h t) = 1%nat →
  ∃ p, layer_contributors h t = [p] ∧ p ∈ players
    ∧ layer_payout h ranks prev t q = if decide (q = p) then layer_pot h prev t else 0.
Proof.
  intros He Hl. destruct (layer_contributors h t) as [|p [|]] eqn:Hc; try done.
  exists p. split; [done|]. split.
  - assert (p ∈ layer_contributors h t) as (s & -> & Hs)%list_elem_of_fmap by (rewrite Hc; set_solver).
    apply list_elem_of_filter in Hs as [_ Hs]. by apply (list_elem_of_fmap_2 seat_player).
  - unfold layer_payout. rewrite decide_True, Hc by done.
    destruct (decide (q = p)) as [->|]; [by rewrite decide_True by set_solver|].
    by rewrite decide_False by set_solver.
Qed.

Lemma contributors_count g t :
  Z.of_nat (length (filter (reaches t) (seats (pay_out g h))))
  = Z.of_nat (length (layer_contributors h t)).
Proof. by rewrite <-(pay_out_reaches g t), length_map. Qed.

Lemma total_pot_fits : total_pot h <= u64_max.
Proof.
  pose proof (hand_core_funds h Hcore). pose proof (hc_funds _ Hcore).
  assert (0 <= chips_behind h) by (apply sum_with_nonneg; intros; by eapply hand_core_nonneg).
  assert (0 <= total_pot h) by (apply sum_with_nonneg; intros; by eapply hand_core_nonneg). lia.
Qed.

(** [settle_layer] in terms of the layer of the hand before any payment. *)
Lemma settle_layer_code g prev t :
  0 <= prev < t → layer_pot h prev t <= total_pot h →
  settle_layer (remaining_contenders h) ranks prev t (pay_out g h)
  = match layer_eligible h t with
    | [] => match layer_contributors h t with
            | [p] => award p (layer_pot h prev t)
            | _ => lift (Err StateInvariant)
            end
    | _ :: _ =>
        rs ← lift (try_collect (λ p, expect (ranks !! p)) (layer_eligible h t));
        best ← lift (ok_or (iter_max rs) StateInvariant);
        award_split (layer_pot h prev t)
          (filter (λ p, ranks !! p = Some best) (layer_eligible h t))
    end (pay_out g h).
Proof.
  intros Hpt Hpot. pose proof total_pot_fits.
  unfold settle_layer. rewrite run_bind. cbn [gets id]. rewrite contributors_count.
  unfold u64_sub. replace (prev <=? t) with true by lia. rewrite run_bind; cbn [lift].
  unfold u64_checked_mul. fold (layer_pot h prev t).
  replace (layer_pot h prev t <=? u64_max) with true by lia.
  rewrite run_bind; cbn [lift ok_or]. rewrite pay_out_eligible, pay_out_reaches.
  by destruct (layer_eligible h t).
Qed.

Lemma eligible_ranks t :
  layer_eligible h t ≠ [] →
  ∃ rs best, Forall2 (λ p r, ranks !! p = Some r) (layer_eligible h t) rs
    ∧ try_collect (E:=HoldemError) (λ p, expect (ranks !! p)) (layer_eligible h t) = Ok rs
    ∧ iter_max rs = Some best.
Proof.
  intros Hne.
  assert (∃ rs, Forall2 (λ p r, ranks !! p = Some r) (layer_eligible h t) rs) as [rs Hrs].
  { assert (Forall (λ p, is_Some (ranks !! p)) (layer_eligible h t)) as Hall.
    { apply Forall_forall. intros p [_ Hp]%list_elem_of_filter. by apply Hranks. }
    clear Hne.
    induction Hall as [|p l [r Hr] _ [rs IH]]; [by exists []|]. exists (r :: rs). by constructor. }
  destruct (iter_max rs) as [best|] eqn:Hmax.
  - exists rs, best. split_and!; [done| |done]. apply try_collect_Ok.
    eapply Forall2_impl; [exact Hrs|]. intros p r Hpr. by rewrite Hpr.
  - destruct Hrs; done.
Qed.

(** What the code does with a layer that fits in the rest of the pot. *)
Lemma settle_layer_ok g prev t :
  0 <= prev < t → (∀ q, 0 <= g q) → granted h g + layer_pot h prev t <= total_pot h →
  layer_settles h t →
  settle_layer (remaining_contenders h) ranks prev t (pay_out g h)
    = (Ok tt, pay_out (plus_grants g (layer_payout h ranks prev t)) h)
  ∧ granted h (plus_grants g (layer_payout h ranks prev t)) = granted h g + layer_pot h prev t
  ∧ (∀ q, 0 <= plus_grants g (layer_payout h ranks prev t) q).
Proof.
  intros Hpt Hg Hb Hs.
  assert (0 <= layer_pot h prev t) as Hpot by (unfold layer_pot; nia).
  pose proof (granted_nonneg h g Hg) as Hgn. rewrite settle_layer_code by lia.
  destruct (layer_eligible h t) as [|p0 ps] eqn:He.
  - destruct Hs as [Hs|Hs]; [done|].
    destruct (eligible_nil_grant t prev (repeat_id 0 0) He Hs) as (p & Hc & Hp & _).
    assert (∀ q, credit g p (layer_pot h prev t) q
                 = plus_grants g (layer_payout h ranks prev t) q) as Hq.
    { intros q. unfold credit, plus_grants.
      destruct (eligible_nil_grant t prev q He Hs) as (p' & Hc' & _ & ->). assert (p' = p) as -> by congruence. case_decide; lia. }
    rewrite Hc, award_pay_out by done. split_and!.
    + f_equal. by apply pay_out_ext.
    + rewrite <-(granted_credit h Hcore g p) by done. apply sum_with_ext.
      intros. symmetry. apply Hq.
    + intros q. rewrite <-Hq. by apply credit_nonneg.
  - destruct (eligible_ranks t ltac:(congruence)) as (rs & best & Hrs & Hc & Hmax).
    rewrite <-He, run_bind. cbn [lift]. rewrite Hc, run_bind, Hmax. cbn [lift ok_or].
    destruct (winners_code t rs best Hrs Hmax) as [-> Hne].
    pose proof (award_split_pay_out h Hcore g (layer_pot h prev t) (layer_winners h ranks t)
      (NoDup_winners t) Hne (winners_players t) Hpot Hg Hb) as (E & G & N).
    assert (layer_payout h ranks prev t
      = split_payout h (layer_pot h prev t) (layer_winners h ranks t)) as ->; [|done].
    unfold layer_payout. destruct (decide (layer_eligible h t = [])); [congruence|done].
Qed.

Lemma settle_layer_err g prev t :
  0 <= prev < t → layer_pot h prev t <= total_pot h → ¬ layer_settles h t →
  settle_layer (remaining_contenders h) ranks prev t (pay_out g h)
  = (Err StateInvariant, pay_out g h).
Proof.
  intros Hpt Hb Hs. rewrite settle_layer_code by lia. unfold layer_settles in Hs.
  destruct (layer_eligible h t); [|destruct Hs; by left].
  destruct (layer_contributors h t) as [|p [|]]; try done. destruct Hs. by right.
Qed.
End layer.

(** ** All layers *)

Fixpoint payouts (h : HoldemHand) (ranks : gmap PlayerId HandRank) (prev : Z) (ts : list Z)
    (q : PlayerId) : Z :=
  match ts with
  | [] => 0
  | t :: ts => layer_payout h ranks prev t q + payouts h ranks t ts q
  end.

(** The layers up to a commitment of [c]. *)
Fixpoint pots_upto (h : HoldemHand) (c prev : Z) (ts : list Z) : Z :=
  match ts with
  | [] => 0
  | t :: ts => (if t <=? c then layer_pot h prev t else 0) + pots_upto h c t ts
  end.

Definition chain (prev : Z) (ts : list Z) : Prop := StronglySorted Z.lt (prev :: ts).

Lemma chain_cons prev t ts : chain prev (t :: ts) ↔ prev < t ∧ chain t ts ∧ Forall (Z.lt prev) ts.
Proof.
  unfold chain. split.
  - inversion 1 as [|? ? Hs Hf]; subst. by apply Forall_cons in Hf as [? ?].
  - intros (? & ? & ?). constructor; [done|]. by constructor.
Qed.

Lemma layer_pot_sum h prev t :
  layer_pot h prev t = sum_with (λ s, if decide (reaches t s) then t - prev else 0) (seats h).
Proof.
  unfold layer_pot, layer_contributors.
  by rewrite <-(sum_with_filter (λ _, t - prev)), sum_with_const, length_map.
Qed.

Lemma pots_upto_zero h c prev ts : c <= prev → chain prev ts → pots_upto h c prev ts = 0.
Proof.
  revert prev; induction ts as [|t ts IH]; intros prev Hc Hch; [done|]. simpl.
  apply chain_cons in Hch as (? & ? & _). replace (t <=? c) with false by lia.
  rewrite IH; [lia|lia|done].
Qed.

Lemma pots_upto_nonneg h c prev ts : chain prev ts → 0 <= pots_upto h c prev ts.
Proof.
  revert prev; induction ts as [|t ts IH]; intros prev Hch; [done|]. simpl.
  apply chain_cons in Hch as (? & Hch & _). pose proof (IH t Hch).
  case_match; [|lia]. unfold layer_pot. nia.
Qed.

(** The layers up to [c] hold what each seat put in between [prev] and [c]. *)
Lemma pots_upto_sum h c prev ts :
  chain prev ts → (c <= prev ∨ c ∈ ts) →
  (∀ s, s ∈ seats h → total_committed s <= prev ∨ total_committed s ∈ ts) →
  pots_upto h c prev ts
  = sum_with (λ s, Z.max 0 (Z.min (total_committed s) c - prev)) (seats h).
Proof.
  revert prev; induction ts as [|t ts IH]; intros prev Hch Hc Hs.
  - simpl. rewrite (sum_with_ext _ (λ _, 0)); [rewrite sum_with_const; lia|].
    intros s Hin. destruct (Hs s Hin); [|set_solver]. lia.
  - pose proof Hch as (Hlt & Ht & _)%chain_cons.
    assert (∀ x, x ∈ ts → t < x) as Hgt.
    { intros x Hx. inversion Ht as [|? ? _ Hf]; subst. rewrite Forall_forall in Hf. auto. }
    destruct (decide (c <= prev)) as [Hle|Hnle].
    { rewrite pots_upto_zero by done. rewrite (sum_with_ext _ (λ _, 0)); [rewrite sum_with_const; lia|].
      intros. lia. }
    assert (t <= c) as Htc.
    { destruct Hc as [?|[->|Hx]%elem_of_cons]; [lia|lia|]. apply Hgt in Hx. lia. }
    simpl. replace (t <=? c) with true by lia. rewrite (IH t Ht); cycle 1.
    { destruct Hc as [?|[->|Hx]%elem_of_cons]; [lia|left; lia|by right]. }
    { intros s Hin. destruct (Hs s Hin) as [?|[->|Hx]%elem_of_cons]; [left; lia|left; lia|by right]. }
    rewrite layer_pot_sum, <-sum_with_add. apply sum_with_ext. intros s Hin.
    unfold reaches. case_decide; [lia|].
    destruct (Hs s Hin) as [?|[Heq|Hx]%elem_of_cons]; [lia|lia|]. apply Hgt in Hx. lia.
Qed.

Lemma elem_of_thresholds h t :
  t ∈ pot_thresholds h ↔ 0 < t ∧ ∃ s, s ∈ seats h ∧ total_committed s = t.
Proof.
  unfold pot_thresholds. rewrite elem_of_btree_iter, elem_of_list_to_set, list_elem_of_filter.
  rewrite list_elem_of_fmap. naive_solver.
Qed.

Lemma thresholds_chain h : chain 0 (pot_thresholds h).
Proof.
  unfold chain. constructor.
  - unfold pot_thresholds. generalize (btree_iter_sorted
      (list_to_set (filter (λ v, 0 < v) (map total_committed (seats h))) : gset Z)).
    induction 1 as [|x l Hl IH Hx]; constructor; [done|].
    eapply Forall_impl; [exact Hx|]. intros y Hy. unfold key_lt in Hy.
    by apply ord_ltb_lt, Z.compare_lt_iff in Hy.
  - apply Forall_forall. intros t [? _]%elem_of_thresholds. done.
Qed.

Lemma thresholds_cover h s :
  hand_core h → s ∈ seats h →
  total_committed s <= 0 ∨ total_committed s ∈ pot_thresholds h.
Proof.
  intros Hc Hs. rewrite elem_of_thresholds. pose proof (hand_core_nonneg h s Hc Hs) as [_ ?].
  destruct (decide (total_committed s = 0)); [left; lia|right]. split; [lia|]. by exists s.
Qed.

Lemma pots_all h c prev ts :
  Forall (λ t, t <= c) ts →
  match ts with
  | [] => pots_upto h c prev ts = 0
  | t :: ts => pots_upto h c prev (t :: ts) = layer_pot h prev t + pots_upto h c t ts
  end.
Proof.
  destruct ts as [|t ts]; [done|]. intros [? _]%Forall_cons. simpl.
  by replace (t <=? c) with true by lia.
Qed.

Section layers.
Context (h : HoldemHand) (ranks : gmap PlayerId HandRank).
Hypothesis Hcore : hand_core h.
Hypothesis Hranks : ∀ p, p ∈ remaining_contenders h → is_Some (ranks !! p).

(** [c] is any bound of the thresholds. *)
Lemma settle_layers_ok c ts prev g :
  0 <= prev → chain prev ts → Forall (λ t, t <= c) ts → Forall (layer_settles h) ts →
  (∀ q, 0 <= g q) → granted h g + pots_upto h c prev ts <= total_pot h →
  settle_layers (remaining_contenders h) ranks prev ts (pay_out g h)
    = (Ok tt, pay_out (plus_grants g (payouts h ranks prev ts)) h)
  ∧ granted h (plus_grants g (payouts h ranks prev ts)) = granted h g + pots_upto h c prev ts
  ∧ (∀ q, 0 <= plus_grants g (payouts h ranks prev ts) q).
Proof.
  revert prev g; induction ts as [|t ts IH]; intros prev g Hp Hch Hle Hset Hg Hb.
  - simpl. split_and!.
    + unfold mret, M_ret. f_equal. apply pay_out_ext. intros q. unfold plus_grants. lia.
    + unfold granted, plus_grants. rewrite Z.add_0_r. apply sum_with_ext. intros. lia.
    + intros q. unfold plus_grants. pose proof (Hg q). lia.
  - rewrite (pots_all h c prev (t :: ts) Hle) in *.
    apply chain_cons in Hch as (Hlt & Hch & _). apply Forall_cons in Hle as [_ Hle], Hset as [Ht Hset].
    pose proof (pots_upto_nonneg h c t ts Hch) as Hnn.
    destruct (settle_layer_ok h ranks Hcore Hranks g prev t) as (E & G & N); [lia|done|lia|done|].
    destruct (IH t (plus_grants g (layer_payout h ranks prev t))) as (E' & G' & N');
      [lia|done..|lia|].
    assert (∀ q, plus_grants (plus_grants g (layer_payout h ranks prev t)) (payouts h ranks t ts) q
      = plus_grants g (payouts h ranks prev (t :: ts)) q) as Hq
      by (intros q; unfold plus_grants; simpl; lia).
    cbn [settle_layers]. rewrite run_bind, E, E'. split_and!.
    + f_equal. by apply pay_out_ext.
    + transitivity (granted h (plus_grants (plus_grants g (layer_payout h ranks prev t))
                                 (payouts h ranks t ts))); [|lia].
      apply sum_with_ext. intros. symmetry. apply Hq.
    + intros q. rewrite <-Hq. apply N'.
Qed.

(** A layer nobody can win and several paid makes the settlement fail, after
    the layers below it were paid out. *)
Lemma settle_layers_err c ts prev g :
  0 <= prev → chain prev ts → Forall (λ t, t <= c) ts → ¬ Forall (layer_settles h) ts →
  (∀ q, 0 <= g q) → granted h g + pots_upto h c prev ts <= total_pot h →
  ∃ h', settle_layers (remaining_contenders h) ranks prev ts (pay_out g h)
        = (Err StateInvariant, h').
Proof.
  revert prev g; induction ts as [|t ts IH]; intros prev g Hp Hch Hle Hset Hg Hb.
  - by destruct Hset.
  - rewrite (pots_all h c prev (t :: ts) Hle) in *.
    apply chain_cons in Hch as (Hlt & Hch & _). apply Forall_cons in Hle as [_ Hle].
    pose proof (pots_upto_nonneg h c t ts Hch) as Hnn. pose proof (granted_nonneg h g Hg).
    cbn [settle_layers]. rewrite run_bind.
    destruct (decide (layer_settles h t)) as [Ht|Ht].
    + destruct (settle_layer_ok h ranks Hcore Hranks g prev t) as (E & G & N); [lia|done|lia|done|].
      rewrite E. apply IH; [lia|done|done| |done|lia]. intros Hf. apply Hset. by constructor.
    + rewrite (settle_layer_err h ranks Hcore g prev t) by (done || lia). by eexists.
Qed.
End layers.

(** ** [settle_showdown] *)

Definition showdown_payout (h : HoldemHand) (ranks : gmap PlayerId HandRank) : PlayerId → Z :=
  payouts h ranks 0 (pot_thresholds h).

(** Every layer of the hand can be settled. *)
Definition settles (h : HoldemHand) : Prop := Forall (layer_settles h) (pot_thresholds h).

Lemma list_to_map_zip_lookup (ps : list PlayerId) (rs : list HandRank) i p r :
  NoDup ps → ps !! i = Some p → rs !! i = Some r →
  (list_to_map (zip ps rs) : gmap PlayerId HandRank) !! p = Some r.
Proof.
  intros Hnd Hp Hr. apply elem_of_list_to_map_1.
  - clear Hp Hr. revert rs; induction ps as [|x ps IH]; intros rs; [constructor|].
    apply NoDup_cons in Hnd as [Hx Hnd]. destruct rs as [|y rs]; [constructor|]. simpl.
    constructor; [|by apply IH]. intros ([a b] & -> & Hin)%list_elem_of_fmap.
    apply Hx. simpl. by eapply elem_of_zip_l.
  - apply list_elem_of_lookup. exists i. by rewrite lookup_zip_with, Hp, Hr.
Qed.

(** The ranks [settle_showdown] works with: one for every contender, of the
    contender's hole cards and the board. *)
Lemma showdown_ranks_spec h board holes ranks :
  hand_core h → showdown_ranks h board holes = Ok ranks →
  street h = Showdown ∧
  ∀ p, p ∈ remaining_contenders h →
    ∃ hole r, holes !! p = Some hole ∧ ranks !! p = Some r
      ∧ evaluate_seven (hole_list hole ++ board) = Some r.
Proof.
  intros Hc Hok. unfold showdown_ranks in Hok. inv_ok. bool_props. split; [done|].
  intros p [i Hi]%list_elem_of_lookup.
  match goal with
  | H1 : Forall2 _ (remaining_contenders h) ?hs, H2 : Forall2 _ ?hs ?rs |- _ =>
      destruct (Forall2_lookup_l _ _ _ _ _ H1 Hi) as (hole & Hh & Hhole);
      destruct (Forall2_lookup_l _ _ _ _ _ H2 Hh) as (r & Hr & Hrank)
  end.
  apply expect_Ok in Hhole. unfold showdown_rank in Hrank. apply expect_Ok in Hrank.
  exists hole, r. split_and!; [done| |done].
  eapply list_to_map_zip_lookup; [|done..]. apply NoDup_map_filter, Hc.
Qed.

Section settle.
Context (h : HoldemHand) (board : list Card) (holes : gmap PlayerId (Card * Card)).
Context (ranks : gmap PlayerId HandRank).
Hypothesis Hsd : at_showdown h.
Hypothesis Hr : showdown_ranks h board holes = Ok ranks.

Let Hcore : hand_core h := sd_core _ Hsd.

Lemma contender_ranks p : p ∈ remaining_contenders h → is_Some (ranks !! p).
Proof.
  intros Hp. destruct (showdown_ranks_spec h board holes ranks Hcore Hr) as [_ H].
  destruct (H p Hp) as (? & ? & _ & ? & _). by eexists.
Qed.

Lemma all_pots c :
  Forall (λ t, t <= c) (pot_thresholds h) → pots_upto h c 0 (pot_thresholds h) = total_pot h.
Proof.
  intros Hle. destruct (decide (pot_thresholds h = [])) as [Hnil|Hne].
  - rewrite Hnil. simpl. symmetry. unfold total_pot.
    rewrite (sum_with_ext _ (λ _, 0)); [rewrite sum_with_const; lia|].
    intros s Hs. destruct (thresholds_cover h s Hcore Hs) as [?|Hin].
    + pose proof (hand_core_nonneg h s Hcore Hs). lia.
    + rewrite Hnil in Hin. set_solver.
  - assert (∃ m, m ∈ pot_thresholds h ∧ Forall (λ t, t <= m) (pot_thresholds h)) as (m & Hm & Hmax).
    { destruct (iter_max (pot_thresholds h)) as [m|] eqn:E.
      - destruct (iter_max_spec _ _ E) as [? Hub]. exists m. split; [done|].
        apply Forall_forall. intros t Ht%Hub. unfold ord_leb, compare, Z_ord in Ht.
        destruct (t ?= m) eqn:Ecmp; [apply Z.compare_eq in Ecmp; lia|rewrite Z.compare_lt_iff in Ecmp; lia|done].
      - by destruct (pot_thresholds h). }
    assert (∀ prev ts, Forall (λ t, t <= c) ts → Forall (λ t, t <= m) ts →
      pots_upto h c prev ts = pots_upto h m prev ts) as Heq.
    { intros prev ts Hc'. revert prev. induction ts as [|t ts IH]; intros prev Hm'; [done|].
      apply Forall_cons in Hc' as [? ?], Hm' as [? ?]. simpl.
      replace (t <=? c) with true by lia. replace (t <=? m) with true by lia. f_equal. auto. }
    rewrite Heq by done. rewrite pots_upto_sum; [|apply thresholds_chain|by right|].
    + apply sum_with_ext. intros s Hs. rewrite Forall_forall in Hmax.
      pose proof (hand_core_nonneg h s Hcore Hs).
      apply elem_of_thresholds in Hm as [Hm0 _].
      destruct (thresholds_cover h s Hcore Hs) as [?|Hin]; [|apply Hmax in Hin]; lia.
    + intros s Hs. by apply thresholds_cover.
Qed.

Lemma thresholds_bound : Forall (λ t, t <= total_pot h) (pot_thresholds h).
Proof.
  apply Forall_forall. intros t (_ & s & Hs & <-)%elem_of_thresholds.
  apply (sum_with_elem_le total_committed); [|done]. intros; by eapply hand_core_nonneg.
Qed.

Lemma granted_none : granted h (λ _, 0) = 0.
Proof. unfold granted. rewrite sum_with_const. lia. Qed.

Lemma layers_paid :
  settles h →
  settle_layers (remaining_contenders h) ranks 0 (pot_thresholds h) h
    = (Ok tt, pay_out (showdown_payout h ranks) h)
  ∧ granted h (showdown_payout h ranks) = total_pot h
  ∧ ∀ q, 0 <= showdown_payout h ranks q.
Proof.
  intros Hset.
  destruct (settle_layers_ok h ranks Hcore contender_ranks (total_pot h) (pot_thresholds h) 0
    (λ _, 0)) as (E & G & N); [done|apply thresholds_chain|apply thresholds_bound|done|done| |].
  { rewrite granted_none, all_pots by apply thresholds_bound. lia. }
  rewrite pay_out_none in E. rewrite granted_none, all_pots in G by apply thresholds_bound.
  split_and!.
  - rewrite E. f_equal.
  - exact G.
  - exact N.
Qed.

(** The settlement pays every player the layers won. *)
Lemma settle_showdown_ok :
  settles h →
  settle_showdown board holes h
  = (Ok (mkHoldemSettlement (map settle_seat (seats (pay_out (showdown_payout h ranks) h)))),
     set_street Complete (pay_out (showdown_payout h ranks) h)).
Proof.
  intros Hset. destruct (layers_paid Hset) as (E & G & _).
  unfold settle_showdown. rewrite run_bind. cbn [gets id]. rewrite run_bind. cbn [lift].
  rewrite Hr, run_bind, E. unfold mbind, M_bind, modify, gets, lift, id.
  rewrite build_settlement_spec; [done|].
  unfold bankroll; simpl. rewrite !sum_with_map. simpl.
  rewrite sum_with_add. fold (granted h (showdown_payout h ranks)). rewrite G.
  apply (hand_core_funds h Hcore).
Qed.

Lemma settle_showdown_err :
  ¬ settles h → ∃ h', settle_showdown board holes h = (Err StateInvariant, h').
Proof.
  intros Hset.
  destruct (settle_layers_err h ranks Hcore contender_ranks (total_pot h) (pot_thresholds h) 0
    (λ _, 0)) as (h' & E); [done|apply thresholds_chain|apply thresholds_bound|done|done| |].
  { rewrite granted_none, all_pots by apply thresholds_bound. lia. }
  rewrite pay_out_none in E. exists h'.
  unfold settle_showdown. rewrite run_bind. cbn [gets id]. rewrite run_bind. cbn [lift].
  by rewrite Hr, run_bind, E.
Qed.

(** ** What a player can win *)

Lemma layer_payout_beyond prev t s :
  s ∈ seats h → total_committed s < t → 0 <= layer_pot h prev t →
  layer_payout h ranks prev t (seat_player s) = 0.
Proof.
  intros Hs Hlt Hpot. unfold layer_payout. case_decide as He.
  - rewrite decide_False; [done|]. intros (s' & Hp & [Hre Hs']%list_elem_of_filter)%list_elem_of_fmap.
    rewrite <-(NoDup_key_eq seat_player (seats h) s s') in Hre by (done || apply Hcore).
    unfold reaches in Hre. lia.
  - assert (seat_player s ∉ layer_winners h ranks t) as Hnw.
    { intros [_ (s' & Hs' & Hp & _ & Hre)%eligible_spec]%list_elem_of_filter; [|done].
      rewrite <-(NoDup_key_eq seat_player (seats h) s' s) in Hlt by (done || apply Hcore). lia. }
    unfold split_payout. rewrite !decide_False; [done| |done].
    intros Hin. apply Hnw. destruct (eligible_ranks h ranks contender_ranks t He)
      as (rs & best & Hrs & _ & Hmax).
    destruct (winners_code h ranks t rs best Hrs Hmax) as [_ Hne].
    destruct (odd_chip_facts h Hcore (layer_pot h prev t) (layer_winners h ranks t))
      as (_ & _ & Hsub & _); [by apply NoDup_winners|done|by apply winners_players|done|].
    by apply Hsub.
Qed.

Lemma layer_pot_le prev t : 0 <= prev < t → 0 <= layer_pot h prev t <= total_pot h.
Proof.
  intros Hpt. split; [unfold layer_pot; nia|]. rewrite layer_pot_sum. apply sum_with_le.
  intros s Hs. pose proof (hand_core_nonneg h s Hcore Hs). unfold reaches.
  case_decide; lia.
Qed.

Lemma layer_payout_bounds prev t s :
  0 <= prev < t → layer_settles h t → s ∈ seats h →
  0 <= layer_payout h ranks prev t (seat_player s) <= if t <=? total_committed s
                                                      then layer_pot h prev t else 0.
Proof.
  intros Hpt Hset Hs. pose proof (layer_pot_le prev t Hpt) as Hpot.
  destruct (t <=? total_committed s) eqn:E; bool_props.
  - destruct (settle_layer_ok h ranks Hcore contender_ranks (λ _, 0) prev t) as (_ & G & N);
      [done|done|rewrite granted_none; lia|done|].
    rewrite granted_none in G. split; [apply (N (seat_player s))|]. rewrite <-G at 1.
    apply (sum_with_elem_le (λ s, plus_grants (λ _, 0) (layer_payout h ranks prev t) (seat_player s)));
      [by intros|done].
  - rewrite layer_payout_beyond; [done|done|lia|lia].
Qed.

Lemma payouts_bounds prev ts s :
  0 <= prev → chain prev ts → Forall (layer_settles h) ts → s ∈ seats h →
  0 <= payouts h ranks prev ts (seat_player s) <= pots_upto h (total_committed s) prev ts.
Proof.
  revert prev; induction ts as [|t ts IH]; intros prev Hp Hch Hset Hs; [done|].
  apply chain_cons in Hch as (Hlt & Hch & _). apply Forall_cons in Hset as [Ht Hset].
  pose proof (layer_payout_bounds prev t s ltac:(lia) Ht Hs).
  pose proof (IH t ltac:(lia) Hch Hset Hs). simpl. lia.
Qed.

Lemma committed_cap s :
  s ∈ seats h →
  pots_upto h (total_committed s) 0 (pot_thresholds h)
  = sum_with (λ t, Z.min (total_committed t) (total_committed s)) (seats h).
Proof.
  intros Hs. pose proof (hand_core_nonneg h s Hcore Hs).
  rewrite pots_upto_sum; [|apply thresholds_chain| |by intros; apply thresholds_cover].
  - apply sum_with_ext. intros t Ht. pose proof (hand_core_nonneg h t Hcore Ht). lia.
  - destruct (thresholds_cover h s Hcore Hs); [left; lia|by right].
Qed.

(** Somebody who beats every other contender. *)
Definition beats_all (p : PlayerId) : Prop :=
  p ∈ remaining_contenders h ∧
  ∀ q, q ∈ remaining_contenders h → q ≠ p → not_better ranks q p ∧ ¬ not_better ranks p q.

Lemma not_better_refl p : p ∈ remaining_contenders h → not_better ranks p p.
Proof.
  intros [r Hrank]%contender_ranks. unfold not_better. rewrite Hrank. apply ord_leb_refl.
Qed.

Lemma sole_winner_layer prev t s :
  0 <= prev < t → s ∈ seats h → status s ≠ Folded → beats_all (seat_player s) →
  layer_payout h ranks prev t (seat_player s)
  = if t <=? total_committed s then layer_pot h prev t else 0.
Proof.
  intros Hpt Hs Hst [Hin Hbest]. pose proof (layer_pot_le prev t Hpt) as Hpot.
  destruct (t <=? total_committed s) eqn:E; bool_props.
  - assert (seat_player s ∈ layer_eligible h t) as Hel by (apply eligible_spec; [done|eauto]).
    assert (layer_winners h ranks t ≡ₚ [seat_player s]) as Hw.
    { apply NoDup_Permutation; [by apply NoDup_winners|repeat constructor; set_solver|].
      intros q. unfold layer_winners. rewrite list_elem_of_filter, list_elem_of_singleton.
      split.
      - intros [Hall Hq]. destruct (decide (q = seat_player s)) as [|Hne]; [done|].
        rewrite Forall_forall in Hall. apply Hall in Hel.
        apply list_elem_of_filter in Hq as [_ Hq]. by destruct (Hbest q Hq Hne).
      - intros ->. split; [|done]. apply Forall_forall. intros q [_ Hq]%list_elem_of_filter.
        destruct (decide (q = seat_player s)) as [->|Hne]; [by apply not_better_refl|].
        by apply Hbest. }
    apply Permutation_singleton_r in Hw.
    unfold layer_payout. rewrite decide_False by (intros Hn; rewrite Hn in Hel; set_solver).
    unfold split_payout, odd_chip_players. rewrite Hw. cbn [length].
    change (Z.of_nat 1) with 1. rewrite Z.mod_1_r, Z.div_1_r. cbn [Z.to_nat take].
    rewrite decide_True by set_solver. rewrite decide_False by set_solver. lia.
  - apply layer_payout_beyond; [done|lia|lia].
Qed.

Lemma sole_winner_payouts prev ts s :
  0 <= prev → chain prev ts → s ∈ seats h → status s ≠ Folded → beats_all (seat_player s) →
  payouts h ranks prev ts (seat_player s) = pots_upto h (total_committed s) prev ts.
Proof.
  revert prev; induction ts as [|t ts IH]; intros prev Hp Hch Hs Hst Hb; [done|].
  apply chain_cons in Hch as (Hlt & Hch & _). simpl.
  rewrite sole_winner_layer, IH by (done || lia). done.
Qed.
End settle.

(** ** Playing to the showdown *)

(** The hand after a sequence of actions that ends the betting. *)
Fixpoint play_to_showdown (h : HoldemHand) (acts : list (PlayerId * PlayerAction))
    : option HoldemHand :=
  match acts with
  | [] => None
  | (p, a) :: rest =>
      match act p a h with
      | (Ok ShowdownReady, h') => if rest is [] then Some h' else None
      | (Ok (HandComplete _), _) => None
      | (Ok _, h') => play_to_showdown h' rest
      | _ => None
      end
  end.

Lemma act_showdown h p a h' :
  betting h → act p a h = (Ok ShowdownReady, h') → at_showdown h'.
Proof.
  intros Hb Ha. pose proof (act_spec h p a Hb) as Hr. rewrite Ha in Hr.
  inversion Hr as [| |i s h1 ? ? ? ? ? ? Hpg _ Ht]; simplify_eq.
  destruct Ht as [_ [_ Had]]. exact (ad_outcome _ _ _ Had).
Qed.

Lemma play_to_showdown_spec h acts h' :
  betting h → play_to_showdown h acts = Some h' → at_showdown h'.
Proof.
  revert h; induction acts as [|[p a] acts IH]; intros h Hb Hp; [done|]. cbn [play_to_showdown] in Hp.
  destruct (act p a h) as [[out| |] h1] eqn:Ha; try done. destruct out as [q|st q| |st]; try done.
  - eapply IH; [|done]. by eapply act_goes_on.
  - eapply IH; [|done]. by eapply act_goes_on.
  - destruct acts; simplify_eq. by eapply act_showdown.
Qed.

(** ** Theorems *)

(** C3: [settle_showdown] pays the side pots.  When it succeeds, every player
    ends with the chips left behind plus the payout of the layered pot, the
    payouts of all players add up to the pot, and the deltas add up to zero. *)
Theorem showdown_pays_layers h board holes st h' :
  at_showdown h → settle_showdown board holes h = (Ok st, h') →
  ∃ ranks, showdown_ranks h board holes = Ok ranks
    ∧ settled_players st
      = map (λ s, mkSettlement (seat_player s) (starting_stack s)
                    (stack s + showdown_payout h ranks (seat_player s))
                    (stack s + showdown_payout h ranks (seat_player s) - starting_stack s)) (seats h)
    ∧ sum_with (λ s, showdown_payout h ranks (seat_player s)) (seats h) = total_pot h
    ∧ sum_with settled_delta (settled_players st) = 0
    ∧ street h' = Complete.
Proof.
  intros Hsd Hset. destruct (showdown_ranks h board holes) as [ranks| |] eqn:Hr;
    [|unfold settle_showdown in Hset; rewrite run_bind in Hset; cbn [gets id] in Hset;
      rewrite run_bind in Hset; cbn [lift] in Hset; rewrite Hr in Hset; done..].
  exists ranks. split; [done|].
  destruct (decide (settles h)) as [Hs|Hs].
  - rewrite (settle_showdown_ok h board holes ranks Hsd Hr Hs) in Hset. simplify_eq/=.
    destruct (layers_paid h board holes ranks Hsd Hr Hs) as (_ & G & _).
    rewrite map_map. unfold settle_seat; simpl. split_and!; [done|exact G| |done].
    rewrite sum_with_map. simpl. rewrite sum_with_sub, sum_with_add.
    pose proof (hand_core_funds h (sd_core _ Hsd)). unfold granted, chips_behind, bankroll in *. lia.
  - destruct (settle_showdown_err h board holes ranks Hsd Hr Hs) as [h1 E]. congruence.
Qed.

(** Once the cards are shown and valid, the settlement succeeds exactly
    when every layer of the pot has a contender in it or a single contributor;
    otherwise it reports [StateInvariant].  In particular it succeeds whenever
    nobody has committed more than the deepest contender. *)
Theorem showdown_settles_iff h board holes ranks :
  at_showdown h → showdown_ranks h board holes = Ok ranks →
  (settles h → is_ok (settle_showdown board holes h).1 = true)
  ∧ (¬ settles h → (settle_showdown board holes h).1 = Err StateInvariant)
  ∧ ((∃ s, s ∈ seats h ∧ status s ≠ Folded ∧
        ∀ t, t ∈ seats h → total_committed t <= total_committed s) → settles h).
Proof.
  intros Hsd Hr. split_and!.
  - intros Hs. by rewrite (settle_showdown_ok h board holes ranks Hsd Hr Hs).
  - intros Hs. by destruct (settle_showdown_err h board holes ranks Hsd Hr Hs) as [h' ->].
  - intros (s & Hin & Hst & Hmax). apply Forall_forall.
    intros t (_ & s' & Hs' & <-)%elem_of_thresholds. left. intros Hnil.
    assert (seat_player s ∈ layer_eligible h (total_committed s')) as Hel.
    { apply eligible_spec; [apply Hsd|]. exists s. split_and!; [done..|]. by apply Hmax. }
    rewrite Hnil in Hel. set_solver.
Qed.

(** Table stakes.  No player takes out of a showdown more than each
    opponent matched: the payout of a player who committed [c] is at most the
    sum of everybody's commitments, each capped at [c]. *)
Theorem showdown_payout_capped h board holes ranks s :
  at_showdown h → showdown_ranks h board holes = Ok ranks → settles h → s ∈ seats h →
  0 <= showdown_payout h ranks (seat_player s)
  <= sum_with (λ t, Z.min (total_committed t) (total_committed s)) (seats h).
Proof.
  intros Hsd Hr Hs Hin. rewrite <-(committed_cap h Hsd) by done.
  apply (payouts_bounds h board holes ranks Hsd Hr); [done|apply thresholds_chain|done|done].
Qed.

(** The best hand wins all it can.  A contender whose hand beats every other
    contender's takes from each player that player's commitment up to the own
    one, whatever the side pots. *)
Theorem best_hand_wins h board holes ranks s :
  at_showdown h → showdown_ranks h board holes = Ok ranks → s ∈ seats h → status s ≠ Folded →
  beats_all h ranks (seat_player s) →
  showdown_payout h ranks (seat_player s)
  = sum_with (λ t, Z.min (total_committed t) (total_committed s)) (seats h).
Proof.
  intros Hsd Hr Hin Hst Hb. rewrite <-(committed_cap h Hsd) by done.
  apply (sole_winner_payouts h board holes ranks Hsd Hr); [done|apply thresholds_chain|done..].
Qed.

(** ** Concrete hands *)

Definition small_level : StakeLevel := mkStakeLevel "1-2" 1 2 40 200 2 6.
Definition P (n : Z) : PlayerId := example_player n.

Lemma small_level_wf : level_wf small_level.
Proof. unfold level_wf. vm_compute. intuition congruence. Qed.

Lemma small_hand_betting players dealer :
  bool_decide (NoDup (map fst players)) = true →
  forallb (λ p, (40 <=? p.2) && (p.2 <=? 200)) players = true →
  (2 <= length players <= 6)%nat → (dealer < length players)%nat →
  betting (blinds_posted small_level players dealer).
Proof.
  intros Hnd Hb Hlen Hd. bool_props.
  assert (Forall (λ p, 40 <= p.2 <= 200) players) as Hf.
  { apply Forall_forall. intros p Hp. apply list_elem_of_In in Hp.
    rewrite forallb_forall in Hb. specialize (Hb p Hp). bool_props. lia. }
  apply posted_betting; [apply small_level_wf|simpl; lia|done|done|exact Hf|].
  assert (sum_with snd players <= sum_with (λ _, 200) players) as Hs.
  { apply sum_with_le. intros p Hp. rewrite Forall_forall in Hf. apply Hf in Hp. lia. }
  rewrite sum_with_const in Hs. unfold u64_max. lia.
Qed.

(** Three players, one all-in for 40, two for 100. *)
Definition three_way : HoldemHand :=
  blinds_posted small_level [(P 1, 40); (P 2, 100); (P 3, 200)] 0.
Definition three_way_actions : list (PlayerId * PlayerAction) :=
  [(P 1, RaiseTo 40); (P 2, Call); (P 3, RaiseTo 100); (P 2, Call)].
Definition three_way_showdown : HoldemHand :=
  default three_way (play_to_showdown three_way three_way_actions).
Definition example_board : list Card :=
  [mkCard 2 Clubs; mkCard 3 Diamonds; mkCard 4 Hearts; mkCard 9 Spades; mkCard 13 Diamonds].
Definition three_way_cards : gmap PlayerId (Card * Card) :=
  {[P 1 := (mkCard 14 Spades, mkCard 5 Spades); P 2 := (mkCard 13 Hearts, mkCard 12 Hearts);
    P 3 := (mkCard 12 Clubs, mkCard 11 Clubs)]}.
Definition three_way_ranks : gmap PlayerId HandRank :=
  match showdown_ranks three_way_showdown example_board three_way_cards with
  | Ok r => r | _ => ∅
  end.

Lemma three_way_at_showdown : at_showdown three_way_showdown.
Proof.
  apply (play_to_showdown_spec three_way three_way_actions).
  - apply small_hand_betting; [vm_compute; reflexivity|vm_compute; reflexivity|simpl; lia|simpl; lia].
  - vm_compute. reflexivity.
Qed.

Lemma three_way_ranks_ok :
  showdown_ranks three_way_showdown example_board three_way_cards = Ok three_way_ranks.
Proof. vm_compute. reflexivity. Qed.

Lemma three_way_settles : settles three_way_showdown.
Proof. apply (bool_decide_unpack _). vm_compute. exact I. Qed.

(** The first player wins the main pot of 120, the second the side pot. *)
Lemma showdown_pays_layers_witness :
  ∃ ranks, showdown_ranks three_way_showdown example_board three_way_cards = Ok ranks
    ∧ [mkSettlement (P 1) 40 120 80; mkSettlement (P 2) 100 120 20; mkSettlement (P 3) 200 100 (-100)]
      = map (λ s, mkSettlement (seat_player s) (starting_stack s)
              (stack s + showdown_payout three_way_showdown ranks (seat_player s))
              (stack s + showdown_payout three_way_showdown ranks (seat_player s) - starting_stack s))
          (seats three_way_showdown)
    ∧ sum_with (λ s, showdown_payout three_way_showdown ranks (seat_player s))
        (seats three_way_showdown) = total_pot three_way_showdown
    ∧ sum_with settled_delta [mkSettlement (P 1) 40 120 80; mkSettlement (P 2) 100 120 20;
        mkSettlement (P 3) 200 100 (-100)] = 0
    ∧ street (settle_showdown example_board three_way_cards three_way_showdown).2 = Complete.
Proof.
  apply (showdown_pays_layers three_way_showdown example_board three_way_cards
           (mkHoldemSettlement [mkSettlement (P 1) 40 120 80; mkSettlement (P 2) 100 120 20;
              mkSettlement (P 3) 200 100 (-100)])).
  - apply three_way_at_showdown.
  - vm_compute. reflexivity.
Defined.

Lemma showdown_settles_iff_witness :
  (settles three_way_showdown →
     is_ok (settle_showdown example_board three_way_cards three_way_showdown).1 = true)
  ∧ (¬ settles three_way_showdown →
     (settle_showdown example_board three_way_cards three_way_showdown).1 = Err StateInvariant)
  ∧ ((∃ s, s ∈ seats three_way_showdown ∧ status s ≠ Folded ∧
        ∀ t, t ∈ seats three_way_showdown → total_committed t <= total_committed s) →
     settles three_way_showdown).
Proof.
  exact (showdown_settles_iff three_way_showdown example_board three_way_cards three_way_ranks
           three_way_at_showdown three_way_ranks_ok).
Defined.

Definition three_way_seat : SeatState := mkSeat (P 1) 40 0 40 0 AllIn.

Lemma three_way_seat_in : three_way_seat ∈ seats three_way_showdown.
Proof. apply list_elem_of_lookup. exists 0%nat. vm_compute. reflexivity. Qed.

Lemma showdown_payout_capped_witness :
  0 <= showdown_payout three_way_showdown three_way_ranks (P 1) <= 120.
Proof.
  exact (showdown_payout_capped three_way_showdown example_board three_way_cards three_way_ranks
    three_way_seat three_way_at_showdown three_way_ranks_ok three_way_settles three_way_seat_in).
Defined.

Lemma best_hand_wins_witness :
  showdown_payout three_way_showdown three_way_ranks (P 1) = 120.
Proof.
  refine (best_hand_wins three_way_showdown example_board three_way_cards three_way_ranks
    three_way_seat three_way_at_showdown three_way_ranks_ok three_way_seat_in _ _).
  - done.
  - split; [apply (bool_decide_unpack _); vm_compute; exact I|].
    assert (Forall (λ q, q ≠ P 1 → not_better three_way_ranks q (P 1)
      ∧ ¬ not_better three_way_ranks (P 1) q) (remaining_contenders three_way_showdown)) as Hf
      by (apply (bool_decide_unpack _); vm_compute; exact I).
    intros q Hq. rewrite Forall_forall in Hf. exact (Hf q Hq).
Defined.

(** ** Where the code does not settle *)

Definition deep_players : list (PlayerId * Chips) := [(P 1, 200); (P 2, 200); (P 3, 40); (P 4, 40)].
Definition deep_actions : list (PlayerId * PlayerAction) :=
  [(P 4, RaiseTo 40); (P 1, RaiseTo 100); (P 2, Call); (P 3, Call); (P 2, Fold); (P 1, Fold)].
Definition deep_cards : gmap PlayerId (Card * Card) :=
  {[P 3 := (mkCard 14 Spades, mkCard 5 Spades); P 4 := (mkCard 13 Hearts, mkCard 12 Hearts)]}.
Definition deep_hand : HoldemHand := blinds_posted small_level deep_players 0.
Definition deep_showdown : HoldemHand := default deep_hand (play_to_showdown deep_hand deep_actions).

(** Two deep players who fold after two short players are all-in leave a
    layer of the pot that nobody can win: the hand reaches its showdown by
    legal play, yet [settle_showdown] fails with [StateInvariant], and it has
    already paid the main pot out. *)
Theorem deep_folds_block_settlement :
  ∃ h0 h h', start small_level deep_players 0 = Ok h0 ∧ play_to_showdown h0 deep_actions = Some h
    ∧ is_ok (showdown_ranks h example_board deep_cards) = true
    ∧ settle_showdown example_board deep_cards h = (Err StateInvariant, h')
    ∧ stack <$> find_seat h (P 3) = Some 0 ∧ stack <$> find_seat h' (P 3) = Some 160.
Proof.
  exists deep_hand, deep_showdown, (settle_showdown example_board deep_cards deep_showdown).2.
  split_and!; vm_compute; reflexivity.
Qed.

(** A finished hand still takes actions.  [finish_uncontested] leaves
    [next_to_act] in place, so after the hand is complete the folded player may
    act once more: the call is not refused with [NoActionExpected], it fails
    with [StateInvariant] after paying the pot to the winner a second time. *)
Theorem completed_hand_pays_twice :
  ∃ h0 h1 h2 st, start small_level [(P 1, 100); (P 2, 100)] 0 = Ok h0
    ∧ act (P 1) Fold h0 = (Ok (HandComplete st), h1)
    ∧ act (P 1) Fold h1 = (Err StateInvariant, h2)
    ∧ stack <$> find_seat h1 (P 2) = Some 101 ∧ stack <$> find_seat h2 (P 2) = Some 104.
Proof.
  set (h0 := blinds_posted small_level [(P 1, 100); (P 2, 100)] 0).
  set (h1 := (act (P 1) Fold h0).2).
  exists h0, h1, (act (P 1) Fold h1).2,
    (mkHoldemSettlement [mkSettlement (P 1) 100 99 (-1); mkSettlement (P 2) 100 101 1]).
  split_and!; vm_compute; reflexivity.
Qed.
