(* ===== verification/PublicState.v ===== *)
(** * PublicState: the digest of the public betting state (holdem.rs)

    [public_state_hash] feeds a hand-written byte string to BLAKE3; the peers
    compare the digests to agree on the state of the hand.  The hash function
    is a parameter; the theorem is about the bytes it is applied to. *)

From S2P Require Import Prelude Machine Encoding Order Ids Table Cards Holdem HoldemInv HoldemAct.

Definition PUBLIC_BETTING_STATE_DOMAIN : list Z := domain_bytes "token-holdem/public-betting-state/v1".

(** [street_tag] and [seat_status_tag]. *)
Definition street_tag (s : Street) : Z :=
  match s with Preflop => 0 | Flop => 1 | Turn => 2 | River => 3 | Showdown => 4 | Complete => 5 end.
Definition seat_status_tag (s : SeatStatus) : Z :=
  match s with Active => 0 | Folded => 1 | AllIn => 2 end.

(** [append_player_set]. *)
Definition append_player_set (players : gset PlayerId) : list Z :=
  enc_counted (λ n, [as_u8 n]) as_bytes (btree_iter players).

Definition seat_state_bytes (s : SeatState) : list Z :=
  as_bytes (seat_player s) ++ be_bytes 8 (starting_stack s) ++ be_bytes 8 (stack s)
  ++ be_bytes 8 (total_committed s) ++ be_bytes 8 (street_committed s)
  ++ [seat_status_tag (status s)].

Definition next_to_act_bytes (n : option nat) : list Z :=
  match n with Some index => [1; as_u8 (Z.of_nat index)] | None => [0; 0] end.

(** The bytes hashed by [public_state_hash]. *)
Definition public_state_bytes (h : HoldemHand) : list Z :=
  PUBLIC_BETTING_STATE_DOMAIN
  ++ append_bytes_u64 (string_bytes (level_id (level h)))
  ++ be_bytes 8 (small_blind (level h)) ++ be_bytes 8 (big_blind (level h))
  ++ [as_u8 (Z.of_nat (dealer_index h))] ++ [street_tag (street h)]
  ++ enc_counted (λ n, [as_u8 n]) seat_state_bytes (seats h)
  ++ append_player_set (pending h) ++ append_player_set (raise_rights h)
  ++ be_bytes 8 (current_bet h) ++ be_bytes 8 (last_full_raise h)
  ++ next_to_act_bytes (next_to_act h).

(** [public_state_hash], over any hash function. *)
Definition public_state_hash (blake3 : list Z → list Z) (h : HoldemHand) : ident TagStateHash :=
  Ident (blake3 (public_state_bytes h)).

(** Everything of the hand that is public: all of it but the limits of the
    level, which the level's name stands for. *)
Definition public_view (h : HoldemHand) :=
  (level_id (level h), small_blind (level h), big_blind (level h), dealer_index h, street h, seats h,
   pending h, raise_rights h, current_bet h, last_full_raise h, next_to_act h).

(** The machine widths of the fields. *)
Definition seat_fits (s : SeatState) : Prop :=
  id_len 32 (seat_player s) ∧ is_u64 (starting_stack s) ∧ is_u64 (stack s)
  ∧ is_u64 (total_committed s) ∧ is_u64 (street_committed s).
Definition players_fit (ps : gset PlayerId) : Prop :=
  Z.of_nat (size ps) < 256 ∧ Forall (id_len 32) (btree_iter ps).
Definition index_fits (n : option nat) : Prop :=
  match n with Some i => Z.of_nat i < 256 | None => True end.
Definition hand_fits (h : HoldemHand) : Prop :=
  Z.of_nat (length (string_bytes (level_id (level h)))) <= u64_max
  ∧ is_u64 (small_blind (level h)) ∧ is_u64 (big_blind (level h))
  ∧ Z.of_nat (dealer_index h) < 256 ∧ Z.of_nat (length (seats h)) < 256
  ∧ Forall seat_fits (seats h) ∧ players_fit (pending h) ∧ players_fit (raise_rights h)
  ∧ is_u64 (current_bet h) ∧ is_u64 (last_full_raise h) ∧ index_fits (next_to_act h).
#[export] Instance hand_fits_dec h : Decision (hand_fits h).
Proof.
  unfold hand_fits, players_fit, seat_fits, index_fits. destruct (next_to_act h); apply _.
Defined.

(** ** The encoders of the fields are prefix-injective *)

Lemma prefix_inj_street : prefix_inj (λ _, True) (λ s, [street_tag s]).
Proof. apply prefix_inj_byte. by intros [] []. Qed.

Lemma prefix_inj_status : prefix_inj (λ _, True) (λ s, [seat_status_tag s]).
Proof. apply prefix_inj_byte. by intros [] []. Qed.

Lemma prefix_inj_players : prefix_inj players_fit append_player_set.
Proof.
  intros x y r s Hx Hy H.
  apply (prefix_inj_counted (λ n, 0 <= n < 256) (id_len 32)) in H as [E ->].
  - split; [by apply btree_iter_inj|done].
  - apply prefix_inj_small_nat.
  - apply prefix_inj_id.
  - destruct Hx as [Hn ?]. split; [split; [lia|]|done]. rewrite length_btree_iter. exact Hn.
  - destruct Hy as [Hn ?]. split; [split; [lia|]|done]. rewrite length_btree_iter. exact Hn.
Qed.

Lemma prefix_inj_next :
  prefix_inj index_fits next_to_act_bytes.
Proof.
  intros [i|] [j|] r s Hi Hj H; simplify_eq/=; [|done]. unfold as_u8 in *.
  rewrite !Z.mod_small in * by lia. split; [|done]. f_equal. lia.
Qed.

Lemma prefix_inj_seat : prefix_inj seat_fits seat_state_bytes.
Proof.
  intros x y r s (Hx1 & Hx2 & Hx3 & Hx4 & Hx5) (Hy1 & Hy2 & Hy3 & Hy4 & Hy5) H.
  unfold seat_state_bytes in H. rewrite <-!(assoc_L (++)) in H.
  peel H (prefix_inj_id (t:=TagPlayer) 32). peel H prefix_inj_u64. peel H prefix_inj_u64.
  peel H prefix_inj_u64. peel H prefix_inj_u64. peel H prefix_inj_status.
  destruct x, y; simplify_eq/=. by f_equal.
Qed.

Lemma public_state_bytes_view h h' :
  hand_fits h → hand_fits h' → public_state_bytes h = public_state_bytes h' →
  public_view h = public_view h'.
Proof.
  intros (? & ? & ? & ? & ? & ? & ? & ? & ? & ? & ?) (? & ? & ? & ? & ? & ? & ? & ? & ? & ? & ?) Hb.
  unfold public_state_bytes in Hb. apply app_inj_1 in Hb as [_ Hb]; [|done].
  rewrite <-(app_nil_r (next_to_act_bytes (next_to_act h))),
    <-(app_nil_r (next_to_act_bytes (next_to_act h'))) in Hb.
  peel Hb prefix_inj_append_bytes_u64. peel Hb prefix_inj_u64. peel Hb prefix_inj_u64.
  peel Hb prefix_inj_small_nat; [|lia|lia]. peel Hb prefix_inj_street.
  apply (prefix_inj_counted (λ n, 0 <= n < 256) seat_fits) in Hb as [Eseats Hb];
    [|apply prefix_inj_small_nat|apply prefix_inj_seat|split; [cbn beta; lia|done]..].
  peel Hb prefix_inj_players. peel Hb prefix_inj_players. peel Hb prefix_inj_u64.
  peel Hb prefix_inj_u64. peel Hb prefix_inj_next.
  apply string_bytes_inj in E. apply Nat2Z.inj in E2.
  unfold public_view. clear -E E0 E1 E2 E3 E4 E5 E6 E7 E8 Eseats. congruence.
Qed.

(** The bytes behind [public_state_hash] determine the public state: two
    hands are fed to the hash with the same bytes exactly when they agree on
    the level, the blinds, the dealer, the street, every seat, the pending
    players, the raise rights, the bets and the player to act. *)
Theorem public_state_bytes_inj h h' :
  hand_fits h → hand_fits h' →
  (public_state_bytes h = public_state_bytes h' ↔ public_view h = public_view h').
Proof.
  intros Hh Hh'. split; [by apply public_state_bytes_view|].
  unfold public_view, public_state_bytes. intros Hb. by simplify_eq; congruence.
Qed.

Lemma public_state_bytes_inj_witness :
  public_state_bytes example_hand = public_state_bytes example_heads_up
  ↔ public_view example_hand = public_view example_heads_up.
Proof.
  apply public_state_bytes_inj; apply (bool_decide_unpack _); vm_compute; exact I.
Defined.
