(* ===== verification/TablePool.v ===== *)
(** * TablePool: which open table a player is seated at (table_pool.rs, domain)

    Every peer chooses among the advertised tables by itself; the choice is a
    total order, so peers that know the same tables choose the same one. *)

From S2P Require Import Prelude Machine Order Ids.

Definition TableId : Type := ident TagTable.
#[export] Instance TableId_eq_dec : EqDecision TableId := ident_eq_dec _.
#[export] Instance TableId_countable : Countable TableId := ident_countable _.
#[export] Instance TableId_ord : Ord TableId := ident_ord _.
#[export] Instance TableId_ord_laws : OrdLaws TableId := ident_ord_laws _.

Definition TABLE_ID_DOMAIN : list Z := domain_bytes "token-holdem/table-id/v1".

(** [TableId::derive], over any hash function. *)
Definition TableId_derive (blake3 : list Z → list Z) (creator : PlayerId)
    (device_public_key : DevicePublicKey) (nonce : list Z) : TableId :=
  Ident (blake3 (TABLE_ID_DOMAIN ++ as_bytes creator ++ as_bytes device_public_key ++ nonce)).

Inductive TableLifecycle := Waiting | HandInProgress | Closing.
#[export] Instance TableLifecycle_eq_dec : EqDecision TableLifecycle.
Proof. solve_decision. Defined.

Inductive TablePoolError :=
  | EmptyLevelId | InvalidCapacity (capacity : Z) | MemberCountExceedsCapacity | PoolWaitingListFull.

Record TableCandidate := mkCandidate {
  cand_table_id : TableId;
  cand_level_id : string;
  member_count : Z;
  waiting_count : Z;
  capacity : Z;
  lifecycle : TableLifecycle;
}.
#[export] Instance TableCandidate_eq_dec : EqDecision TableCandidate.
Proof. solve_decision. Defined.

(** [TableCandidate::new]. *)
Definition TableCandidate_new (table_id : TableId) (level_id : string)
    (member_count waiting_count capacity : Z) (lifecycle : TableLifecycle)
    : result TablePoolError TableCandidate :=
  _ ← reject_if (trim_is_empty level_id) EmptyLevelId;
  _ ← reject_if (negb ((2 <=? capacity) && (capacity <=? 6))) (InvalidCapacity capacity);
  _ ← reject_if (capacity <? member_count) MemberCountExceedsCapacity;
  _ ← reject_if (6 <? waiting_count) PoolWaitingListFull;
  Ok (mkCandidate table_id level_id member_count waiting_count capacity lifecycle).

(** [is_joinable_for]. *)
Definition is_joinable_for (c : TableCandidate) (level_id : string) : bool :=
  bool_decide (cand_level_id c = level_id) && negb (bool_decide (lifecycle c = Closing))
  && (member_count c <? capacity c) && (waiting_count c <? 6).

(** [compare_candidates]: most members first, then the fewest waiting, then
    the table id. *)
Definition compare_candidates (left right : TableCandidate) : comparison :=
  then_with (compare (member_count right) (member_count left))
    (then_with (compare (waiting_count left) (waiting_count right))
       (compare (cand_table_id left) (cand_table_id right))).

(** [select_compatible_table]. *)
Definition select_compatible_table (candidates : list TableCandidate) (level_id : string)
    : option TableCandidate :=
  min_by compare_candidates (filter (λ c, is_joinable_for c level_id = true) candidates).

(** ** The order behind the choice *)

Definition candidate_key (c : TableCandidate) : Z * (Z * TableId) :=
  (- member_count c, (waiting_count c, cand_table_id c)).

Lemma compare_candidates_key l r :
  compare_candidates l r = compare (candidate_key l) (candidate_key r).
Proof.
  unfold compare_candidates, candidate_key.
  change (then_with (compare (member_count r) (member_count l))
            (compare (waiting_count l, cand_table_id l) (waiting_count r, cand_table_id r))
          = then_with (compare (- member_count l) (- member_count r))
              (compare (waiting_count l, cand_table_id l) (waiting_count r, cand_table_id r))).
  f_equal. unfold compare, Z_ord. by rewrite <-Z.compare_opp.
Qed.

Lemma compare_candidates_opp x y : compare_candidates y x = CompOpp (compare_candidates x y).
Proof. rewrite !compare_candidates_key. apply compare_opp. Qed.

Lemma compare_candidates_trans x y z :
  compare_candidates x y ≠ Gt → compare_candidates y z ≠ Gt → compare_candidates x z ≠ Gt.
Proof.
  rewrite !compare_candidates_key. intros Hxy Hyz.
  assert (∀ a b : Z * (Z * TableId), compare a b ≠ Gt ↔ ord_leb a b = true) as Hle.
  { intros a b. unfold ord_leb. destruct (compare a b); done. }
  rewrite Hle in *. by eapply ord_leb_trans.
Qed.

Lemma compare_candidates_le x y :
  compare_candidates x y ≠ Gt ↔
  member_count y < member_count x
  ∨ member_count x = member_count y
    ∧ (waiting_count x < waiting_count y
       ∨ waiting_count x = waiting_count y ∧ ord_leb (cand_table_id x) (cand_table_id y) = true).
Proof.
  unfold compare_candidates, then_with, ord_leb.
  change (compare (member_count y) (member_count x)) with (member_count y ?= member_count x).
  change (compare (waiting_count x) (waiting_count y)) with (waiting_count x ?= waiting_count y).
  destruct (Z.compare_spec (member_count y) (member_count x)),
    (Z.compare_spec (waiting_count x) (waiting_count y)), (compare (cand_table_id x) _);
    intuition (congruence || lia).
Qed.

Lemma min_by_is_Some {A} (cmp : A → A → comparison) (l : list A) :
  min_by cmp l = None ↔ l = [].
Proof. by destruct l. Qed.

(** Matchmaking picks the right table.  [select_compatible_table] finds a
    table whenever a joinable one of the level is known, and the one it picks
    has the most members, among those the fewest waiting, among those the
    smallest id. *)
Theorem select_compatible_table_spec candidates level_id :
  (select_compatible_table candidates level_id = None ↔
     ∀ c, c ∈ candidates → is_joinable_for c level_id = false)
  ∧ ∀ m, select_compatible_table candidates level_id = Some m →
      m ∈ candidates ∧ is_joinable_for m level_id = true
      ∧ ∀ c, c ∈ candidates → is_joinable_for c level_id = true →
          member_count c < member_count m
          ∨ member_count m = member_count c
            ∧ (waiting_count m < waiting_count c
               ∨ waiting_count m = waiting_count c
                 ∧ ord_leb (cand_table_id m) (cand_table_id c) = true).
Proof.
  unfold select_compatible_table. split.
  - rewrite min_by_is_Some. split.
    + intros Hnil c Hc. apply not_true_is_false. intros Hj.
      assert (c ∈ filter (λ c, is_joinable_for c level_id = true) candidates) as Hin
        by (by apply list_elem_of_filter). rewrite Hnil in Hin. set_solver.
    + intros Hno. apply elem_of_nil_inv. intros c [Hj Hc]%list_elem_of_filter.
      apply Hno in Hc. congruence.
  - intros m Hm.
    apply min_by_spec in Hm as [[Hj Hin]%list_elem_of_filter Hmin];
      [|apply compare_candidates_opp|apply compare_candidates_trans].
    split_and!; [done..|]. intros c Hc Hcj. apply compare_candidates_le, Hmin.
    by apply list_elem_of_filter.
Qed.

Lemma min_by_unique (l k : list TableCandidate) :
  l ≡ₚ k → NoDup (map cand_table_id l) →
  min_by compare_candidates l = min_by compare_candidates k.
Proof.
  intros Hp Hnd.
  destruct (min_by compare_candidates l) as [m|] eqn:Hm.
  - destruct (min_by compare_candidates k) as [m'|] eqn:Hm'.
    2: { apply min_by_is_Some in Hm' as ->. apply Permutation_nil_r in Hp. by rewrite Hp in Hm. }
    apply min_by_spec in Hm as [Hin Hmin]; [|apply compare_candidates_opp|apply compare_candidates_trans].
    apply min_by_spec in Hm' as [Hin' Hmin']; [|apply compare_candidates_opp|apply compare_candidates_trans].
    f_equal. apply (NoDup_key_eq cand_table_id l); [done|done|by rewrite Hp|].
    assert (m' ∈ l) as Hl by (by rewrite Hp). rewrite Hp in Hin.
    pose proof (Hmin m' Hl) as H1. pose proof (Hmin' m Hin) as H2.
    apply compare_candidates_le in H1, H2.
    destruct H1 as [?|(? & [?|[? ?]])], H2 as [?|(? & [?|[? ?]])]; try lia.
    by apply ord_leb_antisym.
  - apply min_by_is_Some in Hm as ->. apply Permutation_nil_l in Hp. by subst k.
Qed.

(** Peers agree.  The choice does not depend on the order in which the
    tables became known. *)
Theorem select_compatible_table_perm candidates candidates' level_id :
  candidates ≡ₚ candidates' → NoDup (map cand_table_id candidates) →
  select_compatible_table candidates level_id = select_compatible_table candidates' level_id.
Proof.
  intros Hp Hnd. apply min_by_unique.
  - by rewrite Hp.
  - by apply NoDup_map_filter.
Qed.

Definition example_candidate (id members : Z) : TableCandidate :=
  mkCandidate (repeat_id 32 id) "10k-20k" members 0 6 HandInProgress.

Lemma select_compatible_table_perm_witness :
  select_compatible_table [example_candidate 2 3; example_candidate 1 3; example_candidate 3 6] "10k-20k"
  = select_compatible_table [example_candidate 3 6; example_candidate 1 3; example_candidate 2 3]
      "10k-20k".
Proof.
  apply select_compatible_table_perm.
  - apply (bool_decide_unpack _). vm_compute. exact I.
  - apply (bool_decide_unpack _). vm_compute. exact I.
Defined.
