(* ===== verification/Membership.v ===== *)
(** * Membership: who sits where, who waits (membership.rs)

    [TableMembership] is the replicated membership of a table: physical seats
    1 to 6 and a waiting list ordered by claim.  Its three operations are
    pure: [new], [queue_joins] and [reconcile_at_hand_boundary]. *)

From S2P Require Import Prelude Machine Order Ids TablePool.

Definition TABLE_CAPACITY : Z := 6.
Definition WAITING_CAPACITY : Z := 6.

Inductive MembershipError :=
  | InvalidPhysicalSeat (value : Z) | TooManyMembers | WaitingListFull | DupPlayer | DupDevice
  | DuplicatePhysicalSeat | SeatKeyMismatch | VersionOverflow.

(** A [PhysicalSeat] is a u8; [new] checks that it is one of the six. *)
Abbreviation PhysicalSeat := Z (only parsing).
Definition PhysicalSeat_new (value : Z) : result MembershipError PhysicalSeat :=
  if negb ((1 <=? value) && (value <=? TABLE_CAPACITY)) then Err (InvalidPhysicalSeat value)
  else Ok value.

Definition JoinClaimId : Type := ident TagClaim.
#[export] Instance JoinClaimId_eq_dec : EqDecision JoinClaimId := ident_eq_dec _.
#[export] Instance JoinClaimId_ord : Ord JoinClaimId := ident_ord _.
#[export] Instance JoinClaimId_ord_laws : OrdLaws JoinClaimId := ident_ord_laws _.

Record TableMember := mkMember {
  mem_player : PlayerId;
  mem_device : DevicePublicKey;
  mem_buy_in : Z;
  physical_seat : PhysicalSeat;
}.
#[export] Instance TableMember_eq_dec : EqDecision TableMember.
Proof. solve_decision. Defined.

Record JoinCandidate := mkJoin {
  claim_id : JoinClaimId;
  join_player : PlayerId;
  join_device : DevicePublicKey;
  join_buy_in : Z;
}.
#[export] Instance JoinCandidate_eq_dec : EqDecision JoinCandidate.
Proof. solve_decision. Defined.

Record TableMembership := mkMembership {
  ms_table_id : TableId;
  version : Z;
  ms_seats : gmap PhysicalSeat TableMember;
  waiting : list JoinCandidate;
}.

(** [members]: in seat order. *)
Definition members (m : TableMembership) : list TableMember := btree_values (ms_seats m).

(** [BTreeSet::insert] in a test position: the element must be new. *)
Definition insert_new {E} `{Countable A} (s : gset A) (x : A) (e : E) : result E (gset A) :=
  if bool_decide (x ∈ s) then Err e else Ok ({[x]} ∪ s).

(** [validate]: the players and devices seen so far are threaded through the
    two loops. *)
Definition seen_people : Type := gset PlayerId * gset DevicePublicKey.
Definition see_person (seen : seen_people) (p : PlayerId) (d : DevicePublicKey)
    : result MembershipError seen_people :=
  players ← insert_new seen.1 p DupPlayer;
  devices ← insert_new seen.2 d DupDevice;
  Ok (players, devices).
Definition validate_member (seen : seen_people) (entry : PhysicalSeat * TableMember)
    : result MembershipError seen_people :=
  _ ← reject_if (negb (physical_seat entry.2 =? entry.1)) SeatKeyMismatch;
  see_person seen (mem_player entry.2) (mem_device entry.2).
Definition validate (m : TableMembership) : result MembershipError unit :=
  _ ← reject_if (TABLE_CAPACITY <? Z.of_nat (size (ms_seats m))) TooManyMembers;
  _ ← reject_if (WAITING_CAPACITY <? Z.of_nat (length (waiting m))) WaitingListFull;
  seen ← try_fold validate_member (∅, ∅) (btree_entries (ms_seats m));
  _ ← try_fold (λ seen c, see_person seen (join_player c) (join_device c)) seen (waiting m);
  Ok tt.

(** [TableMembership::new]. *)
Definition add_seat (seats : gmap PhysicalSeat TableMember) (m : TableMember)
    : result MembershipError (gmap PhysicalSeat TableMember) :=
  if bool_decide (is_Some (seats !! physical_seat m)) then Err DuplicatePhysicalSeat
  else Ok (<[physical_seat m := m]> seats).
Definition TableMembership_new (table_id : TableId) (version : Z) (members : list TableMember)
    (waiting : list JoinCandidate) : result MembershipError TableMembership :=
  seats ← try_fold add_seat ∅ members;
  let membership := mkMembership table_id version seats (sort_by_key claim_id waiting) in
  _ ← validate membership;
  Ok membership.

(** [deduplicate_waiting]: a player or device that is seated, or was already
    seen in the list, is dropped.  The test short-circuits, so the player of a
    candidate dropped for its device counts as seen. *)
Definition retain_step (seated : seen_people) (acc : seen_people * list JoinCandidate)
    (c : JoinCandidate) : seen_people * list JoinCandidate :=
  let '((players, devices), kept) := acc in
  if bool_decide (join_player c ∈ seated.1) || bool_decide (join_device c ∈ seated.2) then acc else
  if bool_decide (join_player c ∈ players) then acc else
  let players := {[join_player c]} ∪ players in
  if bool_decide (join_device c ∈ devices) then ((players, devices), kept) else
  ((players, {[join_device c]} ∪ devices), kept ++ [c]).
Definition seated_people (seats : gmap PhysicalSeat TableMember) : seen_people :=
  (list_to_set (map mem_player (btree_values seats)),
   list_to_set (map mem_device (btree_values seats))).
Definition deduplicate_waiting (m : TableMembership) : TableMembership :=
  mkMembership (ms_table_id m) (version m) (ms_seats m)
    (foldl (retain_step (seated_people (ms_seats m))) ((∅, ∅), []) (waiting m)).2.

(** [queue_joins]. *)
Definition queue_joins (m : TableMembership) (joins : list JoinCandidate)
    : result MembershipError TableMembership :=
  version' ← ok_or (u64_checked_add (version m) 1) VersionOverflow;
  let next := mkMembership (ms_table_id m) version' (ms_seats m)
                (sort_by_key claim_id (waiting m ++ joins)) in
  let next := deduplicate_waiting next in
  _ ← validate next;
  Ok next.

(** The loop of [reconcile_at_hand_boundary] over the waiting list. *)
Definition member_of (c : JoinCandidate) (seat : PhysicalSeat) : TableMember :=
  mkMember (join_player c) (join_device c) (join_buy_in c) seat.
Record boundary := mkBoundary {
  b_seats : gmap PhysicalSeat TableMember;
  b_people : seen_people;
  b_available : list PhysicalSeat;
  b_remaining : list JoinCandidate;
}.
Definition admit_candidate (leaving : gset PlayerId) (b : boundary) (c : JoinCandidate) : boundary :=
  if bool_decide (join_player c ∈ leaving) || bool_decide (join_player c ∈ (b_people b).1)
     || bool_decide (join_device c ∈ (b_people b).2) then b else
  match b_available b with
  | seat :: rest =>
      mkBoundary (<[seat := member_of c seat]> (b_seats b))
        ({[join_player c]} ∪ (b_people b).1, {[join_device c]} ∪ (b_people b).2) rest (b_remaining b)
  | [] =>
      if Z.of_nat (length (b_remaining b)) <? WAITING_CAPACITY
      then mkBoundary (b_seats b) (b_people b) [] (b_remaining b ++ [c]) else b
  end.

Definition staying_seats (m : TableMembership) (leaving : gset PlayerId)
    : gmap PhysicalSeat TableMember :=
  filter (λ kv : PhysicalSeat * TableMember, mem_player kv.2 ∉ leaving) (ms_seats m).
Definition all_seats : list PhysicalSeat :=
  omap (λ v, match PhysicalSeat_new v with Ok s => Some s | _ => None end) [1; 2; 3; 4; 5; 6].
Definition boundary_start (m : TableMembership) (leaving : gset PlayerId) : boundary :=
  let next_seats := staying_seats m leaving in
  mkBoundary next_seats (seated_people next_seats)
    (filter (λ seat, next_seats !! seat = None) all_seats) [].

(** [reconcile_at_hand_boundary]. *)
Definition reconcile_at_hand_boundary (m : TableMembership) (leaving : gset PlayerId)
    : result MembershipError TableMembership :=
  let b := foldl (admit_candidate leaving) (boundary_start m leaving) (waiting m) in
  version' ← ok_or (u64_checked_add (version m) 1) VersionOverflow;
  TableMembership_new (ms_table_id m) version' (btree_values (b_seats b)) (b_remaining b).

(** ** Who is at the table *)

Definition person : Type := PlayerId * DevicePublicKey.
Definition member_person (x : TableMember) : person := (mem_player x, mem_device x).
Definition join_person (c : JoinCandidate) : person := (join_player c, join_device c).
Definition people (m : TableMembership) : list person :=
  map member_person (members m) ++ map join_person (waiting m).

Definition distinct (l : list person) : Prop := NoDup (map fst l) ∧ NoDup (map snd l).
Definition unseen (seen : seen_people) (l : list person) : Prop :=
  Forall (λ x, x.1 ∉ seen.1 ∧ x.2 ∉ seen.2) l.

Lemma see_person_Ok seen p d seen' :
  see_person seen p d = Ok seen' ↔
  p ∉ seen.1 ∧ d ∉ seen.2 ∧ seen' = ({[p]} ∪ seen.1, {[d]} ∪ seen.2).
Proof.
  unfold see_person, insert_new. repeat case_bool_decide; simpl; split; naive_solver.
Qed.

(** A loop of [BTreeSet::insert] tests succeeds exactly on distinct people. *)
Lemma see_all_ok seen (l : list person) :
  is_ok (try_fold (λ s x, see_person s x.1 x.2) seen l) = true ↔ distinct l ∧ unseen seen l.
Proof.
  revert seen; induction l as [|[p d] l IH]; intros seen; simpl.
  { split; [intros _; repeat split; constructor|done]. }
  unfold distinct, unseen in *. cbn [map fst snd]. rewrite !NoDup_cons, Forall_cons.
  destruct (see_person seen p d) as [seen'| |] eqn:E; simpl.
  - apply see_person_Ok in E as (Hp & Hd & ->). rewrite IH. rewrite !Forall_forall. simpl.
    assert ((∀ x, x ∈ l → x.1 ∉ {[p]} ∪ seen.1 ∧ x.2 ∉ {[d]} ∪ seen.2) ↔
      p ∉ map fst l ∧ d ∉ map snd l ∧ ∀ x, x ∈ l → x.1 ∉ seen.1 ∧ x.2 ∉ seen.2) as ->; [|tauto].
    rewrite !list_elem_of_fmap. split.
    + intros H. split_and!; [|set_solver..]; intros (x & -> & Hx); destruct (H x Hx); set_solver.
    + intros (H1 & H2 & H3) x Hx. destruct (H3 x Hx). split; [|set_solver].
      rewrite not_elem_of_union, not_elem_of_singleton. split; [|done]. intros <-. eauto.
  - split; [done|]. intros [_ [[Hp Hd] _]]. unfold see_person, insert_new in E.
    rewrite !bool_decide_false in E by done. done.
  - split; [done|]. intros _. unfold see_person, insert_new in E. by repeat case_bool_decide.
Qed.

Definition seat_key_ok (entry : PhysicalSeat * TableMember) : Prop :=
  physical_seat entry.2 = entry.1.

Lemma validate_members_ok seen es seen' :
  try_fold validate_member seen es = Ok seen' ↔
  Forall seat_key_ok es
  ∧ try_fold (λ s x, see_person s x.1 x.2) seen (map (λ e, member_person e.2) es) = Ok seen'.
Proof.
  revert seen; induction es as [|e es IH]; intros seen; simpl.
  { split; [by intros [= ->]|by intros [_ ?]]. }
  rewrite Forall_cons. unfold seat_key_ok at 1.
  assert (validate_member seen e = if negb (physical_seat e.2 =? e.1) then Err SeatKeyMismatch
    else see_person seen (mem_player e.2) (mem_device e.2)) as ->
    by (unfold validate_member, reject_if; by destruct (physical_seat e.2 =? e.1)).
  destruct (physical_seat e.2 =? e.1) eqn:Ek; bool_props; simpl.
  - destruct (see_person seen (mem_player e.2) (mem_device e.2)); simpl.
    + rewrite IH. tauto.
    + split; [done|by intros [_ ?]].
    + split; [done|by intros [_ ?]].
  - split; [done|]. intros [[? _] _]. done.
Qed.

Lemma entries_people m :
  map (λ e, member_person e.2) (btree_entries (ms_seats m)) = map member_person (members m).
Proof. unfold members, btree_values. by rewrite map_map. Qed.

Lemma validate_ok m :
  validate m = Ok tt ↔
  Z.of_nat (size (ms_seats m)) <= 6 ∧ Z.of_nat (length (waiting m)) <= 6
  ∧ (∀ k x, ms_seats m !! k = Some x → physical_seat x = k) ∧ distinct (people m).
Proof.
  assert ((∀ k x, ms_seats m !! k = Some x → physical_seat x = k) ↔
    Forall seat_key_ok (btree_entries (ms_seats m))) as ->.
  { rewrite Forall_forall. split.
    - intros H [k x] Hin%elem_of_btree_entries. by apply H.
    - intros H k x Hk%elem_of_btree_entries. exact (H (k, x) Hk). }
  assert (distinct (people m) ↔ is_ok (try_fold (λ s x, see_person s x.1 x.2) (∅, ∅) (people m)) = true)
    as ->.
  { rewrite see_all_ok. split; [|by intros [? _]]. intros H. split; [done|].
    apply Forall_forall. set_solver. }
  unfold validate, people. rewrite try_fold_app, <-entries_people. split.
  - intros H. inv_ok. bool_props. unfold TABLE_CAPACITY, WAITING_CAPACITY in *.
    match goal with Hv : try_fold validate_member _ _ = Ok _ |- _ =>
      apply validate_members_ok in Hv as [Hk Hsee] end.
    split_and!; [lia|lia|done|]. rewrite Hsee. simpl. rewrite try_fold_map. simpl.
    match goal with Hw : try_fold _ _ (waiting m) = Ok _ |- _ => by rewrite Hw end.
  - intros (Hs & Hw & Hk & Hd). apply is_ok_true in Hd as [seen' Hd].
    apply bind_Ok in Hd as (seen & H1 & H2). rewrite try_fold_map in H2. simpl in H2.
    unfold TABLE_CAPACITY, WAITING_CAPACITY, reject_if.
    replace (6 <? Z.of_nat (size (ms_seats m))) with false by lia.
    replace (6 <? Z.of_nat (length (waiting m))) with false by lia. simpl.
    rewrite (proj2 (validate_members_ok _ _ seen)) by done. simpl. by rewrite H2.
Qed.

(** ** The invariant of a membership *)
Record membership_wf (m : TableMembership) : Prop := {
  wf_seat : ∀ k x, ms_seats m !! k = Some x → physical_seat x = k ∧ 1 <= k <= 6;
  wf_distinct : distinct (people m);
  wf_waiting : Z.of_nat (length (waiting m)) <= 6;
  wf_sorted : StronglySorted (key_le claim_id) (waiting m);
}.

Lemma add_seats_ok ms seats seats' :
  try_fold add_seat seats ms = Ok seats' ↔
  NoDup (map physical_seat ms) ∧ (∀ x, x ∈ ms → seats !! physical_seat x = None)
  ∧ seats' = list_to_map (map (λ x, (physical_seat x, x)) ms) ∪ seats.
Proof.
  revert seats; induction ms as [|x ms IH]; intros seats; simpl.
  { rewrite (left_id_L ∅ (∪)). split; [|naive_solver]. intros H. injection H as ->.
    split; [constructor|]. split; [set_solver|done]. }
  assert (add_seat seats x = if bool_decide (is_Some (seats !! physical_seat x))
    then Err DuplicatePhysicalSeat else Ok (<[physical_seat x := x]> seats)) as -> by done.
  rewrite NoDup_cons. case_bool_decide as Hx; simpl.
  - split; [done|]. intros (_ & H & _). destruct Hx as [? Hx]. rewrite (H x) in Hx; [done|set_solver].
  - rewrite <-eq_None_not_Some in Hx. rewrite IH. split.
    + intros (Hnd & Hfree & ->). split_and!; [|done| |].
      * intros (y & Hk & Hy)%list_elem_of_fmap. specialize (Hfree y Hy).
        rewrite <-Hk, lookup_insert_eq in Hfree. done.
      * intros y [->|Hy]%elem_of_cons; [done|]. specialize (Hfree y Hy).
        by apply lookup_insert_None in Hfree as [? _].
      * rewrite <-insert_union_r; [by rewrite insert_union_l|].
        apply not_elem_of_list_to_map. rewrite map_map. simpl.
        intros (y & Hk & Hy)%list_elem_of_fmap. specialize (Hfree y Hy).
        rewrite <-Hk, lookup_insert_eq in Hfree. done.
    + intros ([Hnx Hnd] & Hfree & ->). split_and!; [done| |].
      * intros y Hy. apply lookup_insert_None. split; [apply Hfree; set_solver|].
        intros Hk. apply Hnx. rewrite Hk. by apply (list_elem_of_fmap_2 physical_seat).
      * rewrite <-insert_union_r; [by rewrite insert_union_l|].
        apply not_elem_of_list_to_map. rewrite map_map. simpl.
        intros Hin. by apply Hnx.
Qed.

(** ** [new] *)

Definition seats_of (ms : list TableMember) : gmap PhysicalSeat TableMember :=
  list_to_map (map (λ x, (physical_seat x, x)) ms).

Lemma values_seats_of ms : NoDup (map physical_seat ms) → btree_values (seats_of ms) ≡ₚ ms.
Proof.
  intros Hnd. unfold btree_values, seats_of. rewrite btree_entries_perm.
  rewrite map_to_list_to_map by (rewrite map_map; exact Hnd). rewrite map_map. simpl.
  by rewrite list_fmap_id.
Qed.

Lemma lookup_seats_of ms k x :
  NoDup (map physical_seat ms) → seats_of ms !! k = Some x ↔ x ∈ ms ∧ physical_seat x = k.
Proof.
  intros Hnd. unfold seats_of.
  rewrite <-elem_of_list_to_map by (rewrite map_map; exact Hnd).
  rewrite list_elem_of_fmap. naive_solver.
Qed.

Lemma distinct_perm l k : l ≡ₚ k → distinct l → distinct k.
Proof. intros Hp [? ?]. split; by rewrite <-Hp. Qed.

Lemma new_ok id v ms ws m :
  TableMembership_new id v ms ws = Ok m ↔
  NoDup (map physical_seat ms) ∧ (length ms <= 6)%nat ∧ (length ws <= 6)%nat
  ∧ distinct (map member_person ms ++ map join_person ws)
  ∧ m = mkMembership id v (seats_of ms) (sort_by_key claim_id ws).
Proof.
  unfold TableMembership_new. rewrite bind_Ok. setoid_rewrite add_seats_ok.
  set (m0 := mkMembership id v (seats_of ms) (sort_by_key claim_id ws)).
  assert (∀ Hnd : NoDup (map physical_seat ms),
    validate m0 = Ok tt ↔ (length ms <= 6)%nat ∧ (length ws <= 6)%nat
    ∧ distinct (map member_person ms ++ map join_person ws)) as Hval.
  { intros Hnd. rewrite validate_ok. simpl. rewrite length_sort_by_key.
    rewrite <-(length_btree_values (seats_of ms)), (values_seats_of ms Hnd).
    assert (people m0 ≡ₚ map member_person ms ++ map join_person ws) as Hpp.
    { unfold people, members; simpl. by rewrite values_seats_of, sort_by_key_perm. }
    split.
    - intros (? & ? & _ & Hd). split_and!; [lia|lia|by eapply distinct_perm].
    - intros (? & ? & Hd). split_and!; [lia|lia| |by eapply distinct_perm].
      intros k x [_ ?]%lookup_seats_of; done. }
  split.
  - intros (seats & (Hnd & _ & ->) & Hm). rewrite (right_id_L ∅ (∪)) in Hm. fold (seats_of ms) in Hm.
    fold m0 in Hm. apply bind_Ok in Hm as ([] & Hv & [= <-]).
    apply (Hval Hnd) in Hv. tauto.
  - intros (Hnd & Hl & Hw & Hd & ->). exists (seats_of ms). split.
    + split; [done|]. split; [by intros|]. by rewrite (right_id_L ∅ (∪)).
    + fold m0. rewrite (proj2 (Hval Hnd)) by done. done.
Qed.

Lemma new_wf id v ms ws m :
  Forall (λ x, 1 <= physical_seat x <= 6) ms → TableMembership_new id v ms ws = Ok m →
  membership_wf m ∧ members m ≡ₚ ms ∧ waiting m ≡ₚ ws.
Proof.
  intros Hr (Hnd & Hl & Hw & Hd & ->)%new_ok. split_and!.
  - split; simpl.
    + intros k x [Hx <-]%lookup_seats_of; [|done]. split; [done|].
      rewrite Forall_forall in Hr. by apply Hr.
    + eapply distinct_perm; [|exact Hd]. unfold people, members; simpl.
      by rewrite values_seats_of, sort_by_key_perm.
    + rewrite length_sort_by_key. lia.
    + apply sort_by_key_sorted.
  - unfold members; simpl. by apply values_seats_of.
  - simpl. apply sort_by_key_perm.
Qed.

(** A membership built by [TableMembership::new] from members with valid
    seats satisfies the invariant: seats between 1 and 6 hold one member each,
    no player or device appears twice among members and waiting candidates,
    at most six wait, and they wait in claim order.  Nothing is lost or added,
    and [new] rejects exactly the lists for which this is impossible. *)
Theorem new_establishes_wf id v ms ws :
  Forall (λ x, 1 <= physical_seat x <= 6) ms →
  (∀ m, TableMembership_new id v ms ws = Ok m →
     membership_wf m ∧ ms_table_id m = id ∧ version m = v ∧ members m ≡ₚ ms ∧ waiting m ≡ₚ ws)
  ∧ (is_ok (TableMembership_new id v ms ws) = true ↔
     NoDup (map physical_seat ms) ∧ (length ms <= 6)%nat ∧ (length ws <= 6)%nat
     ∧ distinct (map member_person ms ++ map join_person ws)).
Proof.
  intros Hr. split.
  - intros m Hm. destruct (new_wf id v ms ws m Hr Hm) as (? & ? & ?).
    apply new_ok in Hm as (_ & _ & _ & _ & ->). done.
  - rewrite is_ok_true. setoid_rewrite new_ok. naive_solver.
Qed.

(** ** [queue_joins] *)

Section dedup.
Context (seated : seen_people).

Definition dedup_inv (acc : seen_people * list JoinCandidate) : Prop :=
  distinct (map join_person acc.2)
  ∧ Forall (λ c, join_player c ∈ acc.1.1 ∧ join_device c ∈ acc.1.2
                 ∧ join_player c ∉ seated.1 ∧ join_device c ∉ seated.2) acc.2.

Lemma retain_step_inv acc c :
  dedup_inv acc →
  dedup_inv (retain_step seated acc c)
  ∧ ((retain_step seated acc c).2 = acc.2 ∨ (retain_step seated acc c).2 = acc.2 ++ [c]).
Proof.
  destruct acc as [[P D] kept]. intros [[Hp Hd] Hf]. unfold retain_step. simpl in *.
  case_match eqn:E1; [by split; [split|left]|]. bool_props.
  case_bool_decide as E2; [by split; [split|left]|].
  assert (∀ P' D', P ⊆ P' → D ⊆ D' → Forall (λ c, join_player c ∈ P' ∧ join_device c ∈ D'
    ∧ join_player c ∉ seated.1 ∧ join_device c ∉ seated.2) kept) as Hmono.
  { intros P' D' HP HD. eapply Forall_impl; [exact Hf|]. set_solver. }
  case_bool_decide as E3; split; [|by left| |by right]; split; simpl.
  - by split.
  - apply Hmono; set_solver.
  - rewrite Forall_forall in Hf.
    split; rewrite map_app, map_app; simpl; apply NoDup_app; (split_and!;
      [done| |repeat constructor; set_solver]); intros y Hy ->%list_elem_of_singleton;
      rewrite map_map in Hy; apply list_elem_of_fmap in Hy as (c' & Hc' & Hin);
      destruct (Hf c' Hin) as (? & ? & _); simpl in Hc'; congruence.
  - apply Forall_app. split; [apply Hmono; set_solver|]. repeat constructor; try done; set_solver.
Qed.

Lemma dedup_spec l acc :
  dedup_inv acc →
  dedup_inv (foldl (retain_step seated) acc l)
  ∧ ∃ s, s `sublist_of` l ∧ (foldl (retain_step seated) acc l).2 = acc.2 ++ s.
Proof.
  revert acc; induction l as [|c l IH]; intros acc Hacc; simpl.
  { split; [done|]. exists []. by rewrite app_nil_r. }
  destruct (retain_step_inv acc c Hacc) as [Hinv Hstep].
  destruct (IH _ Hinv) as [Hinv' (s & Hs & ->)]. split; [done|].
  destruct Hstep as [->| ->].
  - exists s. split; [by constructor|done].
  - exists (c :: s). split; [by constructor|]. by rewrite <-(assoc_L (++)).
Qed.

(** Candidate [c] at position [i] of the claims [l] is known already: it is
    seated, or an earlier claim names the same player or device. *)
Definition known_earlier (l : list JoinCandidate) (i : nat) (c : JoinCandidate) : Prop :=
  join_player c ∈ seated.1 ∨ join_device c ∈ seated.2
  ∨ ∃ j c', (j < i)%nat ∧ l !! j = Some c'
      ∧ (join_player c' = join_player c ∨ join_device c' = join_device c).

Notation retained l := (foldl (retain_step seated) ((∅, ∅), []) l).

Lemma dedup_seen l :
  (∀ p, p ∈ (retained l).1.1 → ∃ j c, l !! j = Some c ∧ join_player c = p)
  ∧ ∀ x, x ∈ (retained l).1.2 → ∃ j c, l !! j = Some c ∧ join_device c = x.
Proof.
  induction l as [|c l [IHp IHd]] using rev_ind; [set_solver|]. rewrite foldl_app; simpl.
  assert (∀ {B} (f : JoinCandidate → B) b, (∃ j c', l !! j = Some c' ∧ f c' = b) →
    ∃ j c', (l ++ [c]) !! j = Some c' ∧ f c' = b) as Hold.
  { intros B f b (j & c' & Hj & Hf). exists j, c'. split; [by apply lookup_app_l_Some|done]. }
  assert (∀ {B} (f : JoinCandidate → B), ∃ j c', (l ++ [c]) !! j = Some c' ∧ f c' = f c) as Hnew.
  { intros B f. exists (length l), c. split; [by apply list_lookup_middle|done]. }
  destruct (retained l) as [[P D] kept]. simpl in *. unfold retain_step.
  repeat case_match; simpl; split; intros x Hx; repeat (apply elem_of_union in Hx as [Hx|Hx]);
    rewrite ?elem_of_singleton in Hx; subst; auto.
Qed.

Lemma dedup_complete l i c :
  l !! i = Some c → c ∈ (retained l).2 ∨ known_earlier l i c.
Proof.
  revert i c. induction l as [|x l IH] using rev_ind; [done|]. intros i c Hi. rewrite foldl_app; simpl.
  assert (∀ a, a ∈ (retained l).2 → a ∈ (retain_step seated (retained l) x).2) as Hkeep.
  { intros a Ha. destruct (retained l) as [[P D] kept]. unfold retain_step.
    repeat case_match; simpl in *; set_solver. }
  apply lookup_app_Some in Hi as [Hi|[Hlen Hi]].
  - destruct (IH i c Hi) as [Hin|[H1|[H1|(j & c' & Hj & Hc' & Hs)]]];
      [left; auto|right; by left|right; by right; left|].
    right. right. right. exists j, c'. split; [done|]. split; [by apply lookup_app_l_Some|done].
  - assert (i = length l ∧ x = c) as [-> ->].
    { pose proof (lookup_lt_Some _ _ _ Hi). simpl in *. destruct (i - length l)%nat eqn:E; [|lia].
      simplify_eq/=. split; [lia|done]. }
    destruct (dedup_seen l) as [Hp Hd].
    assert (∀ j c', l !! j = Some c' → (j < length l)%nat ∧ (l ++ [c]) !! j = Some c') as Hlt.
    { intros j c' Hj. split; [by eapply lookup_lt_Some|by apply lookup_app_l_Some]. }
    unfold known_earlier. destruct (retained l) as [[P D] kept]. simpl in *.
    unfold retain_step. case_match eqn:E1; [right; bool_props; destruct E1; bool_props; auto|].
    case_bool_decide as E2.
    { right. right. right. destruct (Hp _ E2) as (j & c' & Hj & Hc'). destruct (Hlt j c' Hj). eauto 10. }
    case_bool_decide as E3; [|left; simpl; set_solver].
    right. right. right. destruct (Hd _ E3) as (j & c' & Hj & Hc'). destruct (Hlt j c' Hj). eauto 10.
Qed.
End dedup.

Lemma distinct_app l k :
  distinct (l ++ k) ↔ distinct l ∧ distinct k
    ∧ ∀ x y, x ∈ l → y ∈ k → x.1 ≠ y.1 ∧ x.2 ≠ y.2.
Proof.
  unfold distinct. rewrite !map_app, !NoDup_app. split.
  - intros [(? & H1 & ?) (? & H2 & ?)]. split_and!; try done. intros x y Hx Hy.
    split; intros E.
    + apply (H1 x.1); [by apply (list_elem_of_fmap_2 fst)|]. rewrite E. by apply (list_elem_of_fmap_2 fst).
    + apply (H2 x.2); [by apply (list_elem_of_fmap_2 snd)|]. rewrite E. by apply (list_elem_of_fmap_2 snd).
  - intros ([? ?] & [? ?] & Hne). split_and!; try done;
      intros e (x & -> & Hx)%list_elem_of_fmap (y & E & Hy)%list_elem_of_fmap;
      destruct (Hne x y Hx Hy); congruence.
Qed.

(** The waiting list after queueing [joins]. *)
Definition queued (m : TableMembership) (joins : list JoinCandidate) : list JoinCandidate :=
  (foldl (retain_step (seated_people (ms_seats m))) ((∅, ∅), [])
     (sort_by_key claim_id (waiting m ++ joins))).2.

Lemma queued_spec m joins :
  distinct (map member_person (members m)) →
  queued m joins `sublist_of` sort_by_key claim_id (waiting m ++ joins)
  ∧ distinct (map member_person (members m) ++ map join_person (queued m joins)).
Proof.
  intros Hm. destruct (dedup_spec (seated_people (ms_seats m))
    (sort_by_key claim_id (waiting m ++ joins)) ((∅, ∅), [])) as [[Hd Hf] (s & Hs & Heq)].
  { split; simpl; [split; constructor|constructor]. }
  unfold queued. split; [by rewrite Heq|]. apply distinct_app. split_and!; [done|done|].
  intros x y (a & -> & Ha)%list_elem_of_fmap (c & -> & Hc)%list_elem_of_fmap. simpl.
  rewrite Forall_forall in Hf. destruct (Hf c Hc) as (_ & _ & Hp & Hdv). unfold seated_people in *.
  simpl in *. rewrite elem_of_list_to_set in Hp. rewrite elem_of_list_to_set in Hdv.
  fold (members m) in Hp, Hdv.
  split; intros E; [apply Hp|apply Hdv]; rewrite <-E;
    [by apply (list_elem_of_fmap_2 mem_player)|by apply (list_elem_of_fmap_2 mem_device)].
Qed.

Lemma sublist_sorted {A} (R : relation A) (l k : list A) :
  l `sublist_of` k → StronglySorted R k → StronglySorted R l.
Proof.
  induction 1 as [|x l k Hs IH|x l k Hs IH]; intros Hk; [constructor| |].
  - inversion Hk as [|? ? Hk' Hx]; subst. constructor; [by apply IH|].
    rewrite Forall_forall in Hx |- *. intros y Hy. apply Hx. by eapply elem_of_sublist.
  - inversion Hk; subst. by apply IH.
Qed.

Lemma distinct_members m : membership_wf m → distinct (map member_person (members m)).
Proof. intros Hw. pose proof (wf_distinct _ Hw) as Hd. unfold people in Hd. by apply distinct_app in Hd as [? _]. Qed.

Lemma wf_size m : membership_wf m → (size (ms_seats m) <= 6)%nat.
Proof.
  intros Hw. rewrite <-(size_dom (D:=gset Z)).
  transitivity (size (list_to_set [1; 2; 3; 4; 5; 6] : gset Z)); [|by vm_compute; lia].
  apply subseteq_size. intros k [x Hx]%elem_of_dom.
  pose proof (wf_seat _ Hw k x Hx) as [_ Hk].
  rewrite elem_of_list_to_set, !elem_of_cons. lia.
Qed.

(** Queueing join claims at a well-formed membership can only fail on a
    version overflow or a full waiting list, both reported as such; otherwise
    the version grows by one, the seats are untouched, the invariant holds,
    and the new waiting list is what is left, in claim order, of the old list
    and the joins: a claim is dropped only when its player or device is seated
    or named by an earlier claim. *)
Theorem queue_joins_spec m joins :
  membership_wf m → 0 <= version m <= u64_max →
  if decide (version m = u64_max) then queue_joins m joins = Err VersionOverflow
  else if decide (6 < length (queued m joins))%nat then queue_joins m joins = Err WaitingListFull
  else ∃ m', queue_joins m joins = Ok m' ∧ membership_wf m' ∧ version m' = version m + 1
       ∧ ms_table_id m' = ms_table_id m ∧ ms_seats m' = ms_seats m
       ∧ waiting m' `sublist_of` sort_by_key claim_id (waiting m ++ joins)
       ∧ ∀ i c, sort_by_key claim_id (waiting m ++ joins) !! i = Some c →
           c ∈ waiting m' ∨ known_earlier (seated_people (ms_seats m))
                              (sort_by_key claim_id (waiting m ++ joins)) i c.
Proof.
  intros Hw Hv. unfold queue_joins.
  destruct (queued_spec m joins (distinct_members m Hw)) as [Hsub Hd].
  case_decide as Hmax.
  { unfold u64_checked_add, checked_add_w. rewrite Hmax.
    by replace (u64_max + 1 <=? u64_max) with false by lia. }
  rewrite u64_checked_add_ok by lia. unfold deduplicate_waiting; simpl. fold (queued m joins).
  set (m' := mkMembership (ms_table_id m) (version m + 1) (ms_seats m) (queued m joins)).
  pose proof (wf_size m Hw) as Hsz.
  case_decide as Hlen.
  - unfold validate, reject_if, TABLE_CAPACITY, WAITING_CAPACITY; simpl.
    replace (6 <? Z.of_nat (size (ms_seats m))) with false by lia.
    by replace (6 <? Z.of_nat (length (queued m joins))) with true by lia.
  - assert (membership_wf m') as Hwf'.
    { split; [apply Hw|exact Hd|simpl; lia|]. eapply sublist_sorted; [exact Hsub|].
      apply sort_by_key_sorted. }
    rewrite (proj2 (validate_ok m')).
    2: { split_and!; [simpl; lia|simpl; lia| |exact Hd]. intros k x Hk. by apply Hw in Hk as [? _]. }
    exists m'. split_and!; try done. intros i c. apply dedup_complete.
Qed.

(** Replicas agree.  With distinct claim ids the result of [queue_joins]
    does not depend on the order in which the join requests arrived. *)
Theorem queue_joins_order_independent m joins joins' :
  joins ≡ₚ joins' → NoDup (map claim_id (waiting m ++ joins)) →
  queue_joins m joins = queue_joins m joins'.
Proof.
  intros Hp Hnd. unfold queue_joins.
  rewrite (sort_by_key_perm_eq claim_id (waiting m ++ joins) (waiting m ++ joins')); [done|done|].
  by rewrite Hp.
Qed.

(** ** [reconcile_at_hand_boundary] *)

Definition free_seats (seats : gmap PhysicalSeat TableMember) : list PhysicalSeat :=
  filter (λ seat, seats !! seat = None) all_seats.

Lemma free_seats_take seats seat rest x :
  free_seats seats = seat :: rest →
  seats !! seat = None ∧ 1 <= seat <= 6 ∧ free_seats (<[seat := x]> seats) = rest.
Proof.
  unfold free_seats. intros Hf.
  assert (seat ∈ filter (λ s, seats !! s = None) all_seats) as Hin by (rewrite Hf; set_solver).
  apply list_elem_of_filter in Hin as [Hn Hin]. split; [done|].
  split. { unfold all_seats in Hin. simpl in Hin. rewrite !elem_of_cons in Hin.
           pose proof (not_elem_of_nil seat). intuition lia. }
  assert (∀ l, NoDup l → filter (λ s, seats !! s = None) l = seat :: rest →
    filter (λ s, <[seat := x]> seats !! s = None) l = rest) as Hgen.
  { induction l as [|s l IH]; intros Hnd H; [done|]. apply NoDup_cons in Hnd as [Hs Hnd].
    rewrite filter_cons in H |- *. destruct (decide (seats !! s = None)) as [Hsn|Hsn].
    - injection H as -> Hrest. rewrite decide_False by (rewrite lookup_insert_eq; done).
      rewrite <-Hrest. apply filter_iff_in. intros y Hy.
      rewrite lookup_insert_ne by (intros ->; done). done.
    - rewrite decide_False; [by apply IH|]. rewrite lookup_insert_ne; [done|]. intros ->. done. }
  apply Hgen; [|done]. apply (bool_decide_unpack _). vm_compute. exact I.
Qed.

Lemma NoDup_values {K} (f : TableMember → K) (seats : gmap PhysicalSeat TableMember) :
  (∀ k1 x1 k2 x2, seats !! k1 = Some x1 → seats !! k2 = Some x2 → f x1 = f x2 → k1 = k2) →
  NoDup (map f (btree_values seats)).
Proof.
  intros Hf. unfold btree_values. rewrite map_map. pose proof (NoDup_btree_keys seats) as Hnd.
  assert (∀ e, e ∈ btree_entries seats → seats !! e.1 = Some e.2) as Hin
    by (intros [k x] ?; by apply elem_of_btree_entries).
  induction (btree_entries seats) as [|[k x] es IH]; simpl in *; [constructor|].
  apply NoDup_cons in Hnd as [Hk Hnd]. constructor; [|apply IH; [done|set_solver]].
  intros (e & He & Hes)%list_elem_of_fmap. apply Hk.
  rewrite (Hf k x e.1 e.2); [by apply (list_elem_of_fmap_2 fst)| |apply Hin; set_solver|done].
  exact (Hin (k, x) ltac:(set_solver)).
Qed.

Section reconcile.
Context (m : TableMembership) (leaving : gset PlayerId).
Hypothesis Hw : membership_wf m.

Definition from_queue (pre : list JoinCandidate) (k : PhysicalSeat) (x : TableMember) : Prop :=
  ∃ c, c ∈ pre ∧ join_player c ∉ leaving ∧ x = member_of c k.

(** What holds after the candidates [pre] have been looked at. *)
Record admitted (pre : list JoinCandidate) (b : boundary) : Prop := {
  ad_kept : ∀ k x, staying_seats m leaving !! k = Some x → b_seats b !! k = Some x;
  ad_from : ∀ k x, b_seats b !! k = Some x →
    staying_seats m leaving !! k = Some x ∨ 1 <= k <= 6 ∧ from_queue pre k x;
  ad_free : b_available b = free_seats (b_seats b);
  ad_players : ∀ p, p ∈ (b_people b).1 ↔ ∃ k x, b_seats b !! k = Some x ∧ mem_player x = p;
  ad_devices : ∀ d, d ∈ (b_people b).2 ↔ ∃ k x, b_seats b !! k = Some x ∧ mem_device x = d;
  ad_served : ∀ c, c ∈ pre → join_player c ∉ leaving →
    c ∈ b_remaining b ∨ ∃ k, b_seats b !! k = Some (member_of c k);
  ad_queue : b_remaining b `sublist_of` pre;
  ad_stays : Forall (λ c, join_player c ∉ leaving) (b_remaining b);
  ad_full : b_remaining b ≠ [] → b_available b = [];
  ad_distinct : ∀ k1 x1 k2 x2, b_seats b !! k1 = Some x1 → b_seats b !! k2 = Some x2 →
    mem_player x1 = mem_player x2 ∨ mem_device x1 = mem_device x2 → k1 = k2;
  ad_apart : ∀ k x c, b_seats b !! k = Some x → c ∈ b_remaining b →
    mem_player x ≠ join_player c ∧ mem_device x ≠ join_device c;
  ad_fair : ∀ c k x, c ∈ b_remaining b → b_seats b !! k = Some x →
    staying_seats m leaving !! k = Some x
    ∨ ∃ c', c' ∈ pre ∧ x = member_of c' k ∧ key_le claim_id c' c;
}.

Lemma staying_lookup k x :
  staying_seats m leaving !! k = Some x ↔ ms_seats m !! k = Some x ∧ mem_player x ∉ leaving.
Proof. unfold staying_seats. by rewrite map_lookup_filter_Some. Qed.

Lemma wf_members_key k1 x1 k2 x2 :
  ms_seats m !! k1 = Some x1 → ms_seats m !! k2 = Some x2 →
  mem_player x1 = mem_player x2 ∨ mem_device x1 = mem_device x2 → k1 = k2.
Proof.
  intros H1 H2 He. destruct (distinct_members m Hw) as [Hp Hd]. rewrite map_map in Hp, Hd.
  assert (x1 ∈ members m ∧ x2 ∈ members m) as [Hx1 Hx2]
    by (split; apply elem_of_btree_values; eauto).
  assert (x1 = x2) as ->.
  { destruct He as [He|He];
      [by eapply (NoDup_key_eq (λ x, fst (member_person x)))
      |by eapply (NoDup_key_eq (λ x, snd (member_person x)))]. }
  apply Hw in H1 as [<- _], H2 as [<- _]. done.
Qed.

Lemma wf_seated_waiting k x c :
  ms_seats m !! k = Some x → c ∈ waiting m →
  mem_player x ≠ join_player c ∧ mem_device x ≠ join_device c.
Proof.
  intros Hx Hc. pose proof (wf_distinct _ Hw) as Hd. unfold people in Hd.
  apply distinct_app in Hd as (_ & _ & Hd).
  apply (Hd (member_person x) (join_person c)).
  - apply (list_elem_of_fmap_2 member_person), elem_of_btree_values. eauto.
  - by apply (list_elem_of_fmap_2 join_person).
Qed.

Lemma boundary_start_admitted : admitted [] (boundary_start m leaving).
Proof.
  split; simpl.
  - done.
  - by left.
  - done.
  - intros p. rewrite elem_of_list_to_set, list_elem_of_fmap.
    setoid_rewrite (elem_of_btree_values (staying_seats m leaving)). naive_solver.
  - intros p. rewrite elem_of_list_to_set, list_elem_of_fmap.
    setoid_rewrite (elem_of_btree_values (staying_seats m leaving)). naive_solver.
  - set_solver.
  - constructor.
  - constructor.
  - done.
  - intros k1 x1 k2 x2 [? _]%staying_lookup [? _]%staying_lookup. by apply wf_members_key.
  - set_solver.
  - set_solver.
Qed.

(** Claims are looked at in increasing order. *)
Lemma earlier_claim pre c post c' :
  waiting m = pre ++ c :: post → c' ∈ pre → key_le claim_id c' c.
Proof.
  intros Heq Hc'. pose proof (wf_sorted _ Hw) as Hs. rewrite Heq in Hs.
  by apply (StronglySorted_app_1_elem_of _ _ _ _ _ Hs); [|set_solver].
Qed.

Lemma earlier_apart pre c post c' :
  waiting m = pre ++ c :: post → c' ∈ pre →
  join_player c' ≠ join_player c ∧ join_device c' ≠ join_device c.
Proof.
  intros Heq Hc'. pose proof (wf_distinct _ Hw) as Hd. unfold people in Hd.
  apply distinct_app in Hd as (_ & Hd & _). rewrite Heq, map_app in Hd.
  apply distinct_app in Hd as (_ & _ & Hd). apply (Hd (join_person c') (join_person c)).
  - by apply (list_elem_of_fmap_2 join_person).
  - apply list_elem_of_fmap. exists c. split; [done|set_solver].
Qed.

(** A waiting candidate has not been seated yet. *)
Lemma candidate_apart pre c post b k x :
  waiting m = pre ++ c :: post → admitted pre b → b_seats b !! k = Some x →
  mem_player x ≠ join_player c ∧ mem_device x ≠ join_device c.
Proof.
  intros Heq Hb Hk. destruct (ad_from _ _ Hb k x Hk) as [Hs|(_ & c' & Hc' & _ & ->)].
  - apply staying_lookup in Hs as [Hs _]. apply (wf_seated_waiting k x c Hs).
    rewrite Heq. set_solver.
  - simpl. by eapply earlier_apart.
Qed.

(** Skipping a candidate who leaves. *)
Lemma admitted_skip pre c b :
  join_player c ∈ leaving → admitted pre b → admitted (pre ++ [c]) b.
Proof.
  intros Hl Hb. destruct Hb as [? Hfrom ? ? ? Hserved Hq ? ? ? ? Hfair]. split; try done.
  - intros k x Hk. destruct (Hfrom k x Hk) as [|(? & c' & ? & ?)]; [by left|right].
    split; [done|]. exists c'. set_solver.
  - intros c' [Hc'|Hc']%elem_of_app Hn; [by apply Hserved|set_solver].
  - etrans; [exact Hq|]. apply sublist_inserts_r. done.
  - intros c1 k x Hc1 Hk. destruct (Hfair c1 k x Hc1 Hk) as [|(c' & ? & ?)]; [by left|right].
    exists c'. set_solver.
Qed.

Lemma admitted_wait pre c post b :
  waiting m = pre ++ c :: post → join_player c ∉ leaving → b_available b = [] → admitted pre b →
  admitted (pre ++ [c]) (mkBoundary (b_seats b) (b_people b) [] (b_remaining b ++ [c])).
Proof.
  intros Heq Hn Hav Hb. pose proof (candidate_apart pre c post b) as Hap.
  destruct Hb as [? Hfrom Hfree ? ? Hserved Hq ? ? ? Hapart Hfair] eqn:E. split; simpl; try done.
  - intros k x Hk. destruct (Hfrom k x Hk) as [|(? & c' & ? & ?)]; [by left|right].
    split; [done|]. exists c'. set_solver.
  - by rewrite <-Hav.
  - intros c' [Hc'|Hc']%elem_of_app Hn'.
    + destruct (Hserved c' Hc' Hn'); [left; set_solver|by right].
    + left. set_solver.
  - by apply sublist_app.
  - apply Forall_app. split; [done|]. by repeat constructor.
  - intros k x c' Hk [Hc'|Hc']%elem_of_app; [by eapply Hapart|].
    apply list_elem_of_singleton in Hc' as ->. by eapply Hap.
  - intros c1 k x [Hc1|Hc1%list_elem_of_singleton]%elem_of_app Hk.
    + destruct (Hfair c1 k x Hc1 Hk) as [|(c' & ? & ?)]; [by left|right]. exists c'. set_solver.
    + subst c1. destruct (Hfrom k x Hk) as [|(_ & c' & Hc' & _ & ->)]; [by left|right].
      exists c'. split; [set_solver|]. split; [done|]. by eapply earlier_claim.
Qed.

(** The people at the table after one more seat is taken. *)
Lemma seen_insert {K} `{Countable K} (f : TableMember → K) (seen : gset K)
    (seats : gmap PhysicalSeat TableMember) seat x :
  seats !! seat = None → (∀ p, p ∈ seen ↔ ∃ k y, seats !! k = Some y ∧ f y = p) →
  ∀ p, p ∈ {[f x]} ∪ seen ↔ ∃ k y, <[seat := x]> seats !! k = Some y ∧ f y = p.
Proof.
  intros Hnone Hseen p. rewrite elem_of_union, elem_of_singleton, Hseen. split.
  - intros [->|(k & y & Hk & <-)].
    + exists seat, x. by rewrite lookup_insert_eq.
    + exists k, y. split; [|done]. rewrite lookup_insert_ne; [done|]. intros <-. congruence.
  - intros (k & y & Hk & <-). apply lookup_insert_Some in Hk as [[_ ->]|[_ Hk]]; [by left|right; eauto].
Qed.

Lemma admitted_seat pre c post b seat rest :
  waiting m = pre ++ c :: post → join_player c ∉ leaving → b_available b = seat :: rest →
  admitted pre b →
  admitted (pre ++ [c])
    (mkBoundary (<[seat := member_of c seat]> (b_seats b))
       ({[join_player c]} ∪ (b_people b).1, {[join_device c]} ∪ (b_people b).2)
       rest (b_remaining b)).
Proof.
  intros Heq Hn Hav Hb. pose proof (λ k x, candidate_apart pre c post b k x Heq Hb) as Hap.
  pose proof Hb as [Hkept Hfrom Hfree Hpl Hdv Hserved Hq ? Hfull Hdist Hapart _].
  rewrite Hfree in Hav.
  destruct (free_seats_take _ _ _ (member_of c seat) Hav) as (Hnone & Hrange & Hrest).
  assert (b_remaining b = []) as Hnil.
  { destruct (b_remaining b) eqn:E; [done|]. rewrite Hfree in Hfull. rewrite Hav in Hfull.
    by discriminate Hfull. }
  assert (∀ k x, <[seat := member_of c seat]> (b_seats b) !! k = Some x →
    k = seat ∧ x = member_of c seat ∨ k ≠ seat ∧ b_seats b !! k = Some x) as Hlook.
  { intros k x [[<- <-]|[? ?]]%lookup_insert_Some; auto. }
  split; simpl.
  - intros k x Hk. rewrite lookup_insert_ne; [by apply Hkept|].
    intros <-. apply Hkept in Hk. congruence.
  - intros k x [[-> ->]|[_ Hk]]%Hlook.
    + right. split; [done|]. exists c. set_solver.
    + destruct (Hfrom k x Hk) as [|(? & c' & ? & ?)]; [by left|right].
      split; [done|]. exists c'. set_solver.
  - done.
  - exact (seen_insert mem_player (b_people b).1 _ seat (member_of c seat) Hnone Hpl).
  - exact (seen_insert mem_device (b_people b).2 _ seat (member_of c seat) Hnone Hdv).
  - intros c' [Hc'|Hc'%list_elem_of_singleton]%elem_of_app Hn'; right.
    + destruct (Hserved c' Hc' Hn') as [Hr|[k Hk]]; [rewrite Hnil in Hr; set_solver|].
      exists k. rewrite lookup_insert_ne; [done|]. intros <-. congruence.
    + subst c'. exists seat. by rewrite lookup_insert_eq.
  - rewrite Hnil. apply sublist_nil_l.
  - done.
  - by rewrite Hnil.
  - intros k1 x1 k2 x2 [[-> ->]|[Hk1 H1]]%Hlook [[-> ->]|[Hk2 H2]]%Hlook Hsame; simpl in Hsame.
    + done.
    + destruct (Hap k2 x2 H2). destruct Hsame; congruence.
    + destruct (Hap k1 x1 H1). destruct Hsame; congruence.
    + by eapply Hdist.
  - rewrite Hnil. set_solver.
  - rewrite Hnil. set_solver.
Qed.

Lemma admit_candidate_admitted pre c post b :
  waiting m = pre ++ c :: post → admitted pre b →
  admitted (pre ++ [c]) (admit_candidate leaving b c).
Proof.
  intros Heq Hb. unfold admit_candidate.
  destruct (decide (join_player c ∈ leaving)) as [Hl|Hl].
  { rewrite bool_decide_true by done. by apply admitted_skip. }
  rewrite !bool_decide_false; try done.
  - simpl. destruct (b_available b) as [|seat rest] eqn:Hav.
    + pose proof (sublist_length _ _ (ad_queue _ _ Hb)) as Hlen.
      pose proof (wf_waiting _ Hw) as H6. rewrite Heq, length_app in H6. cbn [length] in H6.
      unfold WAITING_CAPACITY. replace (_ <? 6) with true by lia.
      by eapply admitted_wait.
    + by eapply admitted_seat.
  - intros (k & x & Hk & Hx)%(ad_devices _ _ Hb).
    destruct (candidate_apart pre c post b k x Heq Hb Hk). done.
  - intros (k & x & Hk & Hx)%(ad_players _ _ Hb).
    destruct (candidate_apart pre c post b k x Heq Hb Hk). done.
Qed.

Definition boundary_end : boundary :=
  foldl (admit_candidate leaving) (boundary_start m leaving) (waiting m).

Lemma boundary_end_admitted : admitted (waiting m) boundary_end.
Proof.
  unfold boundary_end.
  assert (∀ post pre b, waiting m = pre ++ post → admitted pre b →
    admitted (waiting m) (foldl (admit_candidate leaving) b post)) as Hgen.
  { induction post as [|c post IH]; intros pre b Heq Hb; simpl.
    - by rewrite Heq, app_nil_r.
    - apply (IH (pre ++ [c])); [by rewrite <-(assoc_L (++))|].
      by eapply admit_candidate_admitted. }
  apply (Hgen (waiting m) []); [done|apply boundary_start_admitted].
Qed.

(** The seats after the boundary are well-keyed and hold distinct people. *)
Lemma boundary_key k x : b_seats boundary_end !! k = Some x → physical_seat x = k ∧ 1 <= k <= 6.
Proof.
  intros Hk. destruct (ad_from _ _ boundary_end_admitted k x Hk) as [Hs|(? & c & _ & _ & ->)].
  - apply staying_lookup in Hs as [Hs _]. by apply Hw in Hs.
  - done.
Qed.

Lemma boundary_new v :
  ∃ m', TableMembership_new (ms_table_id m) v (btree_values (b_seats boundary_end))
          (b_remaining boundary_end) = Ok m'
    ∧ ms_seats m' = b_seats boundary_end ∧ waiting m' = b_remaining boundary_end
    ∧ version m' = v ∧ ms_table_id m' = ms_table_id m ∧ membership_wf m'.
Proof.
  pose proof boundary_end_admitted as Hb. set (b := boundary_end) in *.
  set (m' := mkMembership (ms_table_id m) v (b_seats b) (b_remaining b)).
  assert (NoDup (map physical_seat (btree_values (b_seats b)))) as Hnd.
  { apply NoDup_values. intros k1 x1 k2 x2 H1 H2 E.
    apply boundary_key in H1 as [<- _], H2 as [<- _]. done. }
  assert (StronglySorted (key_le claim_id) (b_remaining b)) as Hsort.
  { eapply sublist_sorted; [apply Hb|apply Hw]. }
  assert (membership_wf m') as Hwf.
  { split; simpl.
    - apply boundary_key.
    - unfold people, members; simpl. apply distinct_app. split_and!.
      + split; rewrite map_map; apply NoDup_values; intros k1 x1 k2 x2 H1 H2 E;
          eapply (ad_distinct _ _ Hb); eauto.
      + pose proof (wf_distinct _ Hw) as Hd. unfold people in Hd.
        apply distinct_app in Hd as (_ & [Hp Hd] & _). pose proof (ad_queue _ _ Hb) as Hq.
        split; rewrite map_map in *; (eapply sublist_NoDup; [|by apply sublist_map]); done.
      + intros x y (a & -> & [k Ha]%elem_of_btree_values)%list_elem_of_fmap
          (c & -> & Hc)%list_elem_of_fmap. by eapply (ad_apart _ _ Hb).
    - pose proof (sublist_length _ _ (ad_queue _ _ Hb)). pose proof (wf_waiting _ Hw). lia.
    - done. }
  exists m'. split; [|done]. apply new_ok.
  assert (seats_of (btree_values (b_seats b)) = b_seats b) as Hseats.
  { apply map_eq. intros k. apply option_eq. intros x. rewrite lookup_seats_of by done.
    rewrite elem_of_btree_values. split.
    - intros [[k' Hk'] <-]. by destruct (boundary_key k' x Hk') as [-> _].
    - intros Hk. split; [by exists k|]. by apply boundary_key in Hk as [? _]. }
  split_and!; [done| | | |].
  - rewrite length_btree_values. apply (wf_size m' Hwf).
  - pose proof (wf_waiting _ Hwf). simpl in *. lia.
  - apply Hwf.
  - unfold m'. rewrite Hseats, sort_by_key_id by done. done.
Qed.
End reconcile.

(** C14: The hand boundary.  From a well-formed membership the reconciliation
    fails only when the version would overflow.  Otherwise the invariant holds
    again; the players who leave are gone from seats and queue; everybody else
    who was seated keeps the seat; a new member is a waiting candidate; every
    candidate who does not leave is either seated or still waiting, in order;
    somebody waits only while all six seats are taken, and then everybody newly
    seated had an earlier claim. *)
Theorem reconcile_spec m leaving :
  membership_wf m → 0 <= version m <= u64_max →
  if decide (version m = u64_max) then reconcile_at_hand_boundary m leaving = Err VersionOverflow
  else ∃ m', reconcile_at_hand_boundary m leaving = Ok m' ∧ membership_wf m'
    ∧ version m' = version m + 1 ∧ ms_table_id m' = ms_table_id m
    ∧ (∀ k x, ms_seats m !! k = Some x → mem_player x ∉ leaving → ms_seats m' !! k = Some x)
    ∧ (∀ k x, ms_seats m' !! k = Some x → mem_player x ∉ leaving ∧
         (ms_seats m !! k = Some x ∨ ∃ c, c ∈ waiting m ∧ x = member_of c k))
    ∧ (∀ c, c ∈ waiting m → join_player c ∉ leaving →
         c ∈ waiting m' ∨ ∃ k, ms_seats m' !! k = Some (member_of c k))
    ∧ waiting m' `sublist_of` waiting m
    ∧ (∀ c, c ∈ waiting m' → join_player c ∉ leaving)
    ∧ (waiting m' ≠ [] → ∀ k, 1 <= k <= 6 → is_Some (ms_seats m' !! k))
    ∧ (∀ c k x, c ∈ waiting m' → ms_seats m' !! k = Some x →
         ms_seats m !! k = Some x
         ∨ ∃ c', c' ∈ waiting m ∧ x = member_of c' k
             ∧ ord_leb (claim_id c') (claim_id c) = true).
Proof.
  intros Hw Hv. unfold reconcile_at_hand_boundary. fold (boundary_end m leaving).
  case_decide as Hmax.
  { unfold u64_checked_add, checked_add_w. rewrite Hmax.
    by replace (u64_max + 1 <=? u64_max) with false by lia. }
  rewrite u64_checked_add_ok by lia. simpl.
  destruct (boundary_new m leaving Hw (version m + 1)) as (m' & -> & Hs & Hq & Hver & Hid & Hwf).
  pose proof (boundary_end_admitted m leaving Hw) as Hb.
  exists m'. rewrite Hs, Hq. split_and!; try done.
  - intros k x Hk Hn. apply (ad_kept _ _ _ _ Hb). by apply staying_lookup.
  - intros k x Hk. destruct (ad_from _ _ _ _ Hb k x Hk) as [Hst|(_ & c & Hc & Hn & ->)].
    + apply staying_lookup in Hst as [? ?]. auto.
    + simpl. split; [done|]. right. eauto.
  - apply (ad_served _ _ _ _ Hb).
  - apply (ad_queue _ _ _ _ Hb).
  - pose proof (ad_stays _ _ _ _ Hb) as Hst. by rewrite Forall_forall in Hst.
  - intros Hne k Hk. pose proof (ad_full _ _ _ _ Hb Hne) as Hfree.
    rewrite (ad_free _ _ _ _ Hb) in Hfree. unfold free_seats in Hfree.
    destruct (b_seats (boundary_end m leaving) !! k) as [x|] eqn:E; [done|exfalso].
    eapply (filter_nil_not_elem_of _ _ k); [exact Hfree|done|].
    assert (k = 1 ∨ k = 2 ∨ k = 3 ∨ k = 4 ∨ k = 5 ∨ k = 6) as Hcase by lia.
    unfold all_seats; simpl. rewrite !elem_of_cons. lia.
  - intros c k x Hc Hk. destruct (ad_fair _ _ _ _ Hb c k x Hc Hk) as [Hst|(c' & ? & ? & ?)]; [left|eauto 10].
    by apply staying_lookup in Hst as [? _].
Qed.

(** ** A table of six with two waiting *)
Definition example_member (n seat : Z) : TableMember :=
  mkMember (repeat_id 32 n) (repeat_id 32 (100 + n)) 800000 seat.
Definition example_join (claim n : Z) : JoinCandidate :=
  mkJoin (repeat_id 32 claim) (repeat_id 32 n) (repeat_id 32 (100 + n)) 800000.
Definition example_members : list TableMember :=
  map (λ n, example_member n n) [1; 2; 3; 4; 5; 6].
Definition example_waiting : list JoinCandidate := [example_join 9 7; example_join 4 8].
Definition example_membership : TableMembership :=
  mkMembership (repeat_id 32 1) 7 (seats_of example_members)
    (sort_by_key claim_id example_waiting).

Lemma example_members_range : Forall (λ x, 1 <= physical_seat x <= 6) example_members.
Proof. repeat constructor; vm_compute; congruence. Qed.

#[export] Instance distinct_dec l : Decision (distinct l).
Proof. unfold distinct. apply _. Defined.

Lemma example_membership_ok :
  TableMembership_new (repeat_id 32 1) 7 example_members example_waiting = Ok example_membership.
Proof. vm_compute. reflexivity. Qed.

Lemma example_membership_wf : membership_wf example_membership.
Proof.
  exact (proj1 (new_wf _ _ _ _ _ example_members_range example_membership_ok)).
Qed.

Lemma new_establishes_wf_witness :
  (∀ m, TableMembership_new (repeat_id 32 1) 7 example_members example_waiting = Ok m →
     membership_wf m ∧ ms_table_id m = repeat_id 32 1 ∧ version m = 7
     ∧ members m ≡ₚ example_members ∧ waiting m ≡ₚ example_waiting)
  ∧ (is_ok (TableMembership_new (repeat_id 32 1) 7 example_members example_waiting) = true ↔
     NoDup (map physical_seat example_members) ∧ (length example_members <= 6)%nat
     ∧ (length example_waiting <= 6)%nat
     ∧ distinct (map member_person example_members ++ map join_person example_waiting)).
Proof. apply new_establishes_wf, example_members_range. Defined.

Lemma queue_joins_spec_witness :
  ∃ m', queue_joins example_membership [example_join 2 9] = Ok m' ∧ membership_wf m'
    ∧ version m' = 8.
Proof.
  pose proof (queue_joins_spec example_membership [example_join 2 9] example_membership_wf
    ltac:(vm_compute; split; congruence)) as H.
  rewrite decide_False in H by (vm_compute; congruence).
  rewrite decide_False in H by (vm_compute; lia).
  destruct H as (m' & H1 & H2 & H3 & _). exists m'. split; [exact H1|]. split; [exact H2|exact H3].
Defined.

Lemma queue_joins_order_independent_witness :
  queue_joins example_membership [example_join 2 9; example_join 1 10]
  = queue_joins example_membership [example_join 1 10; example_join 2 9].
Proof.
  apply queue_joins_order_independent.
  - apply Permutation_swap.
  - apply (bool_decide_unpack _). vm_compute. exact I.
Defined.

(** Player 3 leaves, the waiting player with the smaller claim takes seat 3. *)
Lemma reconcile_spec_witness :
  ∃ m', reconcile_at_hand_boundary example_membership {[repeat_id 32 3]} = Ok m' ∧ membership_wf m'
    ∧ ∀ c, c ∈ waiting example_membership → join_player c ∉ ({[repeat_id 32 3]} : gset PlayerId) →
         c ∈ waiting m' ∨ ∃ k, ms_seats m' !! k = Some (member_of c k).
Proof.
  pose proof (reconcile_spec example_membership {[repeat_id 32 3]} example_membership_wf
    ltac:(vm_compute; split; congruence)) as H.
  rewrite decide_False in H by (vm_compute; congruence).
  destruct H as (m' & H1 & H2 & _ & _ & _ & _ & H3 & _). exists m'.
  split; [exact H1|]. split; [exact H2|exact H3].
Defined.
