(* ===== verification/HandRoster.v ===== *)
(** * HandRoster: the roster every player signs before a hand (hand_roster.rs)

    [ReadyHandRoster] fixes the players, their hand indices and the dealer of
    one hand.  It is derived from the membership, hashed over canonical bytes,
    and re-validated by every peer. *)

From S2P Require Import Prelude Machine Encoding Order Ids TablePool Membership.

Definition HAND_ROSTER_DOMAIN : list Z := domain_bytes "token-holdem/hand-roster/v1".

Inductive HandRosterError :=
  | InvalidHandNumber | InvalidPlayerCount (count : Z) | RosterDuplicatePhysicalSeat
  | DuplicateHandIndex | RosterDuplicatePlayer | RosterDuplicateDevice
  | NonContiguousHandIndices | DealerSeatMissing | RosterHashMismatch
  | RosterMembership (e : MembershipError).

Record HandRosterSeat := mkRosterSeat {
  rs_physical_seat : PhysicalSeat;
  hand_index : Z;
  rs_player : PlayerId;
  rs_device : DevicePublicKey;
  rs_buy_in : Z;
}.
#[export] Instance HandRosterSeat_eq_dec : EqDecision HandRosterSeat.
Proof. solve_decision. Defined.

Record ReadyHandRoster := mkRoster {
  ro_table_id : TableId;
  hand_number : Z;
  membership_version : Z;
  previous_receipt_hash : option (list Z);
  dealer_seat : PhysicalSeat;
  ro_seats : list HandRosterSeat;
  roster_hash : list Z;
}.
#[export] Instance ReadyHandRoster_eq_dec : EqDecision ReadyHandRoster.
Proof. solve_decision. Defined.

(** [next_dealer].  The seat numbers are u8; a seat number outside 1 to 6,
    which the type excludes, would overflow them. *)
Definition next_dealer_value {E} (previous offset : Z) : result E Z :=
  if (previous <? 1) || (255 <? previous - 1 + offset) then Panic
  else Ok ((previous - 1 + offset) mod 6 + 1).
Fixpoint next_dealer_from {E} (previous : Z) (occupied : gset Z) (offsets : list Z)
    : result E (option PhysicalSeat) :=
  match offsets with
  | [] => Ok None
  | offset :: rest =>
      value ← next_dealer_value previous offset;
      if is_ok (PhysicalSeat_new value) && bool_decide (value ∈ occupied) then Ok (Some value)
      else next_dealer_from previous occupied rest
  end.
Definition next_dealer {E} (previous : option PhysicalSeat) (occupied : gset Z)
    : result E (option PhysicalSeat) :=
  match previous with
  | None => Ok (head (btree_iter occupied))
  | Some previous => next_dealer_from previous occupied [1; 2; 3; 4; 5; 6]
  end.

(** [validate]: four sets are filled side by side. *)
Definition seen_seats : Type := gset Z * gset Z * gset PlayerId * gset DevicePublicKey.
Definition see_seat (seen : seen_seats) (s : HandRosterSeat) : result HandRosterError seen_seats :=
  let '(seats, indices, players, devices) := seen in
  seats ← insert_new seats (rs_physical_seat s) RosterDuplicatePhysicalSeat;
  indices ← insert_new indices (hand_index s) DuplicateHandIndex;
  players ← insert_new players (rs_player s) RosterDuplicatePlayer;
  devices ← insert_new devices (rs_device s) RosterDuplicateDevice;
  Ok (seats, indices, players, devices).
Definition roster_validate (r : ReadyHandRoster) : result HandRosterError unit :=
  let n := Z.of_nat (length (ro_seats r)) in
  _ ← reject_if (negb ((2 <=? n) && (n <=? 6))) (InvalidPlayerCount n);
  seen ← try_fold see_seat (∅, ∅, ∅, ∅) (ro_seats r);
  let '(seats, indices, _, _) := seen in
  _ ← reject_if (negb (bool_decide (dealer_seat r ∈ seats))) DealerSeatMissing;
  let expected : gset Z := list_to_set (map Z.of_nat (seq 0 (length (ro_seats r)))) in
  _ ← reject_if (negb (bool_decide (indices = expected))) NonContiguousHandIndices;
  Ok tt.

(** [canonical_bytes].  The source asserts that the number of seats is a u8;
    [validate] has limited it to six before. *)
Definition roster_seat_bytes (s : HandRosterSeat) : list Z :=
  [rs_physical_seat s] ++ [hand_index s] ++ as_bytes (rs_player s) ++ as_bytes (rs_device s)
  ++ be_bytes 8 (rs_buy_in s).
Definition roster_canonical_bytes (r : ReadyHandRoster) : list Z :=
  HAND_ROSTER_DOMAIN ++ as_bytes (ro_table_id r) ++ be_bytes 8 (hand_number r)
  ++ be_bytes 8 (membership_version r) ++ enc_option (λ hash, hash) (previous_receipt_hash r)
  ++ [dealer_seat r] ++ enc_counted (λ n, [as_u8 n]) roster_seat_bytes (ro_seats r).

Definition set_roster_hash (hash : list Z) (r : ReadyHandRoster) : ReadyHandRoster :=
  mkRoster (ro_table_id r) (hand_number r) (membership_version r) (previous_receipt_hash r)
    (dealer_seat r) (ro_seats r) hash.

Definition roster_seat (entry : nat * TableMember) : HandRosterSeat :=
  mkRosterSeat (physical_seat entry.2) (Z.of_nat entry.1) (mem_player entry.2)
    (mem_device entry.2) (mem_buy_in entry.2).
(** The enumeration of the members; a u8 always holds the index of six. *)
Definition roster_seats (ms : list TableMember) : list HandRosterSeat :=
  map roster_seat (zip (seq 0 (length ms)) ms).

Section hashed.
Variable blake3 : list Z → list Z.

(** [from_membership]. *)
Definition from_membership (m : TableMembership) (hand_number : Z)
    (previous_receipt_hash : option (list Z)) (previous_dealer_seat : option PhysicalSeat)
    : result HandRosterError ReadyHandRoster :=
  _ ← reject_if (hand_number =? 0) InvalidHandNumber;
  let ms := members m in
  let n := Z.of_nat (length ms) in
  _ ← reject_if (negb ((2 <=? n) && (n <=? 6))) (InvalidPlayerCount n);
  let occupied : gset Z := list_to_set (map physical_seat ms) in
  dealer ← next_dealer previous_dealer_seat occupied;
  dealer_seat ← ok_or dealer DealerSeatMissing;
  let roster := mkRoster (ms_table_id m) hand_number (version m) previous_receipt_hash
                  dealer_seat (roster_seats ms) (replicate 32 0) in
  _ ← roster_validate roster;
  Ok (set_roster_hash (blake3 (roster_canonical_bytes roster)) roster).

(** [verify]. *)
Definition roster_verify (r : ReadyHandRoster) : result HandRosterError unit :=
  _ ← roster_validate r;
  reject_if (negb (bool_decide (blake3 (roster_canonical_bytes r) = roster_hash r)))
    RosterHashMismatch.
End hashed.

(** [hand_index_for_player]. *)
Definition hand_index_for_player (r : ReadyHandRoster) (p : PlayerId) : option Z :=
  hand_index <$> find_first (λ s, bool_decide (rs_player s = p)) (ro_seats r).

(** ** What a validated roster guarantees *)

Definition fresh {A} `{Countable A} (S : gset A) (xs : list A) : Prop :=
  NoDup xs ∧ ∀ x, x ∈ xs → x ∉ S.

Lemma fresh_cons {A} `{Countable A} (S : gset A) x xs :
  fresh S (x :: xs) ↔ x ∉ S ∧ fresh ({[x]} ∪ S) xs.
Proof. unfold fresh. rewrite NoDup_cons. set_solver. Qed.

Lemma insert_new_Ok {E A} `{Countable A} (S : gset A) x (e : E) S' :
  insert_new S x e = Ok S' ↔ x ∉ S ∧ S' = {[x]} ∪ S.
Proof. unfold insert_new. case_bool_decide; split; naive_solver. Qed.

Lemma see_seat_Ok A B C D s seen' :
  see_seat (A, B, C, D) s = Ok seen' ↔
  rs_physical_seat s ∉ A ∧ hand_index s ∉ B ∧ rs_player s ∉ C ∧ rs_device s ∉ D
  ∧ seen' = ({[rs_physical_seat s]} ∪ A, {[hand_index s]} ∪ B, {[rs_player s]} ∪ C,
             {[rs_device s]} ∪ D).
Proof.
  unfold see_seat. rewrite bind_Ok. setoid_rewrite bind_Ok. setoid_rewrite bind_Ok.
  setoid_rewrite bind_Ok. setoid_rewrite insert_new_Ok. naive_solver.
Qed.

Lemma see_seats_ok l A B C D seen' :
  try_fold see_seat (A, B, C, D) l = Ok seen' ↔
  fresh A (map rs_physical_seat l) ∧ fresh B (map hand_index l)
  ∧ fresh C (map rs_player l) ∧ fresh D (map rs_device l)
  ∧ seen' = (list_to_set (map rs_physical_seat l) ∪ A, list_to_set (map hand_index l) ∪ B,
             list_to_set (map rs_player l) ∪ C, list_to_set (map rs_device l) ∪ D).
Proof.
  revert A B C D; induction l as [|s l IH]; intros A B C D; cbn [try_fold map].
  - simpl. rewrite !(left_id_L ∅ (∪)). unfold fresh. split; [|naive_solver].
    intros [= <-]. split_and!; try done; try constructor; set_solver.
  - rewrite !fresh_cons, bind_Ok. setoid_rewrite see_seat_Ok.
    assert (∀ (X : Type) `{Countable X} (x : X) xs (S : gset X),
      list_to_set (x :: xs) ∪ S = list_to_set xs ∪ ({[x]} ∪ S)) as Hset by set_solver.
    rewrite !Hset. split.
    + intros (a & (? & ? & ? & ? & ->) & Hl). apply IH in Hl. tauto.
    + intros ([? ?] & [? ?] & [? ?] & [? ?] & ->). eexists. split; [by split_and!|].
      by apply IH.
Qed.

Record roster_wf (r : ReadyHandRoster) : Prop := {
  rw_count : (2 <= length (ro_seats r) <= 6)%nat;
  rw_seats : NoDup (map rs_physical_seat (ro_seats r));
  rw_indices : NoDup (map hand_index (ro_seats r));
  rw_players : NoDup (map rs_player (ro_seats r));
  rw_devices : NoDup (map rs_device (ro_seats r));
  rw_dealer : dealer_seat r ∈ map rs_physical_seat (ro_seats r);
  rw_contiguous : ∀ i, i ∈ map hand_index (ro_seats r) ↔ 0 <= i < Z.of_nat (length (ro_seats r));
}.

Lemma fresh_empty {A} `{Countable A} (xs : list A) : fresh ∅ xs ↔ NoDup xs.
Proof. unfold fresh. set_solver. Qed.

Lemma elem_of_indices n i :
  i ∈ (list_to_set (map Z.of_nat (seq 0 n)) : gset Z) ↔ 0 <= i < Z.of_nat n.
Proof.
  rewrite elem_of_list_to_set, list_elem_of_fmap. setoid_rewrite elem_of_seq. split.
  - intros (k & -> & ?). lia.
  - intros Hi. exists (Z.to_nat i). lia.
Qed.

Lemma roster_validate_ok r : roster_validate r = Ok tt ↔ roster_wf r.
Proof.
  unfold roster_validate. split.
  - intros Hv. apply bind_Ok in Hv as (? & Hn & Hv). apply bind_Ok in Hv as (seen & Hs & Hv).
    apply see_seats_ok in Hs as (H1 & H2 & H3 & H4 & ->). inv_ok. bool_props.
    rewrite !(right_id_L ∅ (∪)) in *.
    rewrite fresh_empty in H1, H2. rewrite fresh_empty in H3. rewrite fresh_empty in H4.
    split; try done; [lia|set_solver|].
    intros i. rewrite <-elem_of_indices.
    match goal with He : list_to_set _ = list_to_set _ |- _ => rewrite <-He end.
    by rewrite elem_of_list_to_set.
  - intros [? H1 H2 H3 H4 Hd Hc].
    unfold reject_if. replace (negb _) with false by lia. simpl.
    rewrite (proj2 (see_seats_ok (ro_seats r) ∅ ∅ ∅ ∅ _))
      by (rewrite !fresh_empty; split_and!; done). simpl.
    rewrite !(right_id_L ∅ (∪)).
    assert (list_to_set (map hand_index (ro_seats r))
      = (list_to_set (map Z.of_nat (seq 0 (length (ro_seats r)))) : gset Z)) as ->.
    { apply set_eq. intros i. by rewrite elem_of_indices, elem_of_list_to_set, Hc. }
    rewrite (bool_decide_true (dealer_seat r ∈ _)) by (by apply elem_of_list_to_set). simpl.
    by rewrite bool_decide_true.
Qed.

(** ** The dealer button *)

(** How many seats clockwise from [previous] to [seat], from 1 to 6. *)
Definition clockwise_distance (previous seat : Z) : Z := (seat - previous - 1) mod 6 + 1.

Lemma one_of_six seat : 1 <= seat <= 6 →
  seat = 1 ∨ seat = 2 ∨ seat = 3 ∨ seat = 4 ∨ seat = 5 ∨ seat = 6.
Proof. lia. Qed.

Lemma next_dealer_spec {E} previous occupied :
  1 <= previous <= 6 → (∀ s, s ∈ occupied → 1 <= s <= 6) → occupied ≠ ∅ →
  ∃ d, next_dealer (E:=E) (Some previous) occupied = Ok (Some d) ∧ d ∈ occupied
    ∧ ∀ s, s ∈ occupied → clockwise_distance previous d <= clockwise_distance previous s.
Proof.
  intros Hp Hocc [s0 Hs0]%set_choose_L.
  assert (∀ s, s ∈ occupied → s = 1 ∨ s = 2 ∨ s = 3 ∨ s = 4 ∨ s = 5 ∨ s = 6) as Hall
    by (intros s Hs; by apply one_of_six, Hocc).
  pose proof (Hall s0 Hs0) as Hcase. unfold next_dealer.
  destruct (one_of_six previous Hp) as [->|[->|[->|[->|[->| ->]]]]];
    unfold next_dealer_from, next_dealer_value; simpl;
    repeat (case_bool_decide; simpl;
      [eexists; split; [reflexivity|]; split; [assumption|]; intros s Hs;
       destruct (Hall s Hs) as [->|[->|[->|[->|[->| ->]]]]]; (contradiction || (vm_compute; congruence))|]);
    destruct Hcase as [->|[->|[->|[->|[->| ->]]]]]; contradiction.
Qed.

Lemma next_dealer_first {E} (occupied : gset Z) :
  occupied ≠ ∅ →
  ∃ d, next_dealer (E:=E) None occupied = Ok (Some d) ∧ d ∈ occupied
    ∧ ∀ s, s ∈ occupied → d <= s.
Proof.
  intros [s0 Hs0]%set_choose_L. unfold next_dealer.
  pose proof (btree_iter_sorted occupied) as Hs.
  destruct (btree_iter occupied) as [|d l] eqn:E0.
  - apply elem_of_btree_iter in Hs0. rewrite E0 in Hs0. set_solver.
  - exists d. split; [done|]. split; [apply elem_of_btree_iter; rewrite E0; set_solver|].
    intros s Hin. apply elem_of_btree_iter in Hin. rewrite E0 in Hin.
    apply elem_of_cons in Hin as [->|Hin]; [done|]. inversion Hs as [|? ? _ Hf]; subst.
    rewrite Forall_forall in Hf. apply Hf in Hin. unfold key_lt in Hin.
    apply ord_ltb_lt, Z.compare_lt_iff in Hin. cbv beta in Hin. by apply Z.lt_le_incl.
Qed.

(** ** The seats of a roster *)

Lemma roster_seats_field {B} (f : HandRosterSeat → B) (g : TableMember → B) ms :
  (∀ i x, f (roster_seat (i, x)) = g x) → map f (roster_seats ms) = map g ms.
Proof.
  intros Hf. unfold roster_seats. rewrite map_map. generalize 0%nat.
  induction ms as [|x ms IH]; intros k; [done|]. simpl. rewrite Hf. f_equal. apply IH.
Qed.

Lemma roster_seats_indices ms :
  map hand_index (roster_seats ms) = map Z.of_nat (seq 0 (length ms)).
Proof.
  unfold roster_seats. rewrite map_map. generalize 0%nat.
  induction ms as [|x ms IH]; intros k; [done|]. simpl. f_equal. apply IH.
Qed.

Lemma roster_seats_length ms : length (roster_seats ms) = length ms.
Proof. unfold roster_seats. rewrite length_map, length_zip_with, length_seq. lia. Qed.

Lemma members_roster_wf m id n v prev dealer hash :
  membership_wf m → (2 <= length (members m) <= 6)%nat →
  dealer ∈ map physical_seat (members m) →
  roster_wf (mkRoster id n v prev dealer (roster_seats (members m)) hash).
Proof.
  intros Hw Hn Hd. destruct (distinct_members m Hw) as [Hp Hdv]. rewrite map_map in Hp, Hdv.
  split; simpl; rewrite ?roster_seats_length, ?roster_seats_indices.
  - done.
  - rewrite (roster_seats_field _ physical_seat) by done. apply NoDup_values.
    intros k1 x1 k2 x2 [<- _]%(wf_seat _ Hw) [<- _]%(wf_seat _ Hw). done.
  - apply (NoDup_fmap_2 Z.of_nat), NoDup_seq.
  - by rewrite (roster_seats_field _ mem_player).
  - by rewrite (roster_seats_field _ mem_device).
  - by rewrite (roster_seats_field _ physical_seat).
  - intros i. rewrite <-elem_of_indices. by rewrite elem_of_list_to_set.
Qed.

(** ** Theorems *)

Definition dealer_ok (m : TableMembership) (previous : option PhysicalSeat) (dealer : Z) : Prop :=
  dealer ∈ map physical_seat (members m)
  ∧ ∀ s, s ∈ map physical_seat (members m) →
      match previous with
      | None => dealer <= s
      | Some p => clockwise_distance p dealer <= clockwise_distance p s
      end.

Lemma occupied_range m s :
  membership_wf m → s ∈ map physical_seat (members m) → 1 <= s <= 6.
Proof.
  intros Hw (x & -> & [k Hk]%elem_of_btree_values)%list_elem_of_fmap.
  by destruct (wf_seat _ Hw k x Hk) as [-> ?].
Qed.

Lemma choose_dealer {E} m previous :
  membership_wf m → (2 <= length (members m))%nat →
  (∀ p, previous = Some p → 1 <= p <= 6) →
  ∃ d, next_dealer (E:=E) previous (list_to_set (map physical_seat (members m))) = Ok (Some d)
    ∧ dealer_ok m previous d.
Proof.
  intros Hw Hn Hp. set (occ := list_to_set (map physical_seat (members m)) : gset Z).
  assert (occ ≠ ∅) as Hne.
  { destruct (members m) as [|x ms] eqn:E0; [simpl in Hn; lia|]. unfold occ. set_solver. }
  assert (∀ s, s ∈ occ ↔ s ∈ map physical_seat (members m)) as Hin
    by (intros; unfold occ; by rewrite elem_of_list_to_set).
  destruct previous as [p|].
  - destruct (next_dealer_spec (E:=E) p occ) as (d & Hd & Hdo & Hmin); [by apply Hp| |done|].
    { intros s Hs%Hin. by eapply occupied_range. }
    exists d. split; [done|]. split; [by apply Hin|]. intros s Hs. by apply Hmin, Hin.
  - destruct (next_dealer_first (E:=E) occ Hne) as (d & Hd & Hdo & Hmin).
    exists d. split; [done|]. split; [by apply Hin|]. intros s Hs. by apply Hmin, Hin.
Qed.

(** The roster [from_membership] builds. *)
Lemma from_membership_result (blake3 : list Z → list Z) m n prev_hash prev_dealer :
  membership_wf m → (2 <= length (members m) <= 6)%nat → n ≠ 0 →
  (∀ p, prev_dealer = Some p → 1 <= p <= 6) →
  ∃ d, dealer_ok m prev_dealer d
    ∧ let r := mkRoster (ms_table_id m) n (version m) prev_hash d (roster_seats (members m))
                 (replicate 32 0) in
      from_membership blake3 m n prev_hash prev_dealer
      = Ok (set_roster_hash (blake3 (roster_canonical_bytes r)) r).
Proof.
  intros Hw Hn Hnum Hp. unfold from_membership, reject_if.
  replace (n =? 0) with false by lia. cbn [mbind result_bind].
  replace (negb ((2 <=? Z.of_nat (length (members m))) && (Z.of_nat (length (members m)) <=? 6)))
    with false by lia. cbn [mbind result_bind].
  destruct (choose_dealer (E:=HandRosterError) m prev_dealer Hw) as (d & Hd & Hdok); [lia|done|].
  exists d. split; [done|]. cbn zeta. rewrite Hd. cbn [mbind result_bind ok_or].
  set (r := mkRoster (ms_table_id m) n (version m) prev_hash d (roster_seats (members m))
              (replicate 32 0)).
  by rewrite (proj2 (roster_validate_ok r)) by (apply members_roster_wf; [done..|apply Hdok]).
Qed.

(** The roster of a hand.  From a well-formed membership with two to six
    members, a positive hand number and a valid previous dealer,
    [from_membership] succeeds; the roster passes [verify] at every peer; it
    lists exactly the members, in seat order, with hand indices 0, 1, 2, ...;
    and the button moves to the next occupied seat clockwise (to the lowest
    seat in the first hand). *)
Theorem from_membership_spec (blake3 : list Z → list Z) m n prev_hash prev_dealer :
  membership_wf m → (2 <= length (members m) <= 6)%nat → n ≠ 0 →
  (∀ p, prev_dealer = Some p → 1 <= p <= 6) →
  ∃ r, from_membership blake3 m n prev_hash prev_dealer = Ok r
    ∧ roster_verify blake3 r = Ok tt
    ∧ map rs_player (ro_seats r) = map mem_player (members m)
    ∧ map rs_physical_seat (ro_seats r) = map physical_seat (members m)
    ∧ map hand_index (ro_seats r) = map Z.of_nat (seq 0 (length (members m)))
    ∧ hand_number r = n ∧ membership_version r = version m
    ∧ previous_receipt_hash r = prev_hash
    ∧ dealer_ok m prev_dealer (dealer_seat r).
Proof.
  intros Hw Hn Hnum Hp.
  destruct (from_membership_result blake3 m n prev_hash prev_dealer Hw Hn Hnum Hp) as (d & Hdok & Hr).
  eexists. split; [exact Hr|]. cbn zeta. simpl.
  rewrite (roster_seats_field _ mem_player), (roster_seats_field _ physical_seat) by done.
  split_and!; try done; [|apply roster_seats_indices].
  unfold roster_verify.
  rewrite (proj2 (roster_validate_ok _)) by (apply members_roster_wf; [done..|apply Hdok]).
  simpl. unfold reject_if. rewrite bool_decide_true; [done|]. done.
Qed.

(** A verified roster indexes its players: every listed player has an
    index below the number of players, two players never share one, and
    nobody else has one. *)
Theorem roster_indices (blake3 : list Z → list Z) r :
  roster_verify blake3 r = Ok tt →
  (∀ p, p ∈ map rs_player (ro_seats r) →
     ∃ i, hand_index_for_player r p = Some i ∧ 0 <= i < Z.of_nat (length (ro_seats r)))
  ∧ (∀ p q i, hand_index_for_player r p = Some i → hand_index_for_player r q = Some i → p = q)
  ∧ (∀ p, p ∉ map rs_player (ro_seats r) → hand_index_for_player r p = None)
  ∧ dealer_seat r ∈ map rs_physical_seat (ro_seats r).
Proof.
  intros Hv. unfold roster_verify in Hv. apply bind_Ok in Hv as ([] & Hv%roster_validate_ok & _).
  unfold hand_index_for_player. split_and!.
  - intros p (s & -> & Hs)%list_elem_of_fmap. exists (hand_index s).
    rewrite (find_first_key rs_player _ s) by (done || apply Hv). split; [done|].
    apply (rw_contiguous _ Hv). by apply (list_elem_of_fmap_2 hand_index).
  - intros p q i Hp Hq. apply fmap_Some in Hp as (s & Hs & ->), Hq as (t & Ht & Hi).
    apply find_first_Some in Hs as [Hs ?], Ht as [Ht ?]. bool_props. subst.
    f_equal. by apply (NoDup_key_eq hand_index (ro_seats r)); [apply Hv|..].
  - intros p Hp. destruct (find_first _ _) as [s|] eqn:E; [|done].
    apply find_first_Some in E as [Hs ?]. bool_props. subst. destruct Hp.
    by apply (list_elem_of_fmap_2 rs_player).
  - apply Hv.
Qed.

(** The widths of the fields of a roster. *)
Definition roster_seat_fits (s : HandRosterSeat) : Prop :=
  id_len 32 (rs_player s) ∧ id_len 32 (rs_device s) ∧ is_u64 (rs_buy_in s).
Definition roster_fits (r : ReadyHandRoster) : Prop :=
  id_len 32 (ro_table_id r) ∧ is_u64 (hand_number r) ∧ is_u64 (membership_version r)
  ∧ (∀ h, previous_receipt_hash r = Some h → bytes_of_len 32 h)
  ∧ Z.of_nat (length (ro_seats r)) < 256 ∧ Forall roster_seat_fits (ro_seats r).

Lemma prefix_inj_roster_seat : prefix_inj roster_seat_fits roster_seat_bytes.
Proof.
  intros x y r s (Hx1 & Hx2 & Hx3) (Hy1 & Hy2 & Hy3) H.
  unfold roster_seat_bytes in H. rewrite <-!(assoc_L (++)) in H.
  peel H prefix_inj_u8. peel H prefix_inj_u8. peel H (prefix_inj_id (t:=TagPlayer) 32).
  peel H (prefix_inj_id (t:=TagDevice) 32). peel H prefix_inj_u64.
  destruct x, y; simplify_eq/=. done.
Qed.

(** The canonical bytes of a roster determine it, so a signature on the
    roster hash commits to the table, the hand, the version, the previous
    receipt, the dealer and every seat. *)
Theorem roster_canonical_bytes_inj r r' :
  roster_fits r → roster_fits r' →
  roster_canonical_bytes r = roster_canonical_bytes r' →
  set_roster_hash [] r = set_roster_hash [] r'.
Proof.
  intros (? & ? & ? & ? & ? & ?) (? & ? & ? & ? & ? & ?) Hb. unfold roster_canonical_bytes in Hb.
  apply app_inj_1 in Hb as [_ Hb]; [|done].
  rewrite <-(app_nil_r (enc_counted _ _ (ro_seats r))), <-(app_nil_r (enc_counted _ _ (ro_seats r'))) in Hb.
  peel Hb (prefix_inj_id (t:=TagTable) 32). peel Hb prefix_inj_u64. peel Hb prefix_inj_u64.
  apply (prefix_inj_option _ _ (prefix_inj_array 32)) in Hb as [Eh Hb]; [|done..].
  peel Hb prefix_inj_u8.
  apply (prefix_inj_counted (λ n, 0 <= n < 256) roster_seat_fits) in Hb as [Es _];
    [|apply prefix_inj_small_nat|apply prefix_inj_roster_seat|split; [cbn beta; lia|done]..].
  unfold set_roster_hash. clear -E E0 E1 Eh E2 Es. congruence.
Qed.

(** ** A roster of six *)

(** A stand-in for the hash in the examples: the sum of the bytes, 32 times. *)
Definition toy_hash (bytes : list Z) : list Z := replicate 32 (sum_with (λ b, b) bytes mod 256).

Definition example_roster : ReadyHandRoster :=
  match from_membership toy_hash example_membership 1 None (Some 4) with
  | Ok r => r | _ => mkRoster (repeat_id 32 0) 0 0 None 0 [] []
  end.

Lemma from_membership_spec_witness :
  ∃ r, from_membership toy_hash example_membership 1 None (Some 4) = Ok r
    ∧ roster_verify toy_hash r = Ok tt ∧ dealer_ok example_membership (Some 4) (dealer_seat r).
Proof.
  destruct (from_membership_spec toy_hash example_membership 1 None (Some 4) example_membership_wf)
    as (r & H1 & H2 & _ & _ & _ & _ & _ & _ & H3).
  - vm_compute. lia.
  - done.
  - intros p [= <-]. lia.
  - exists r. split; [exact H1|]. split; [exact H2|exact H3].
Defined.

Lemma roster_indices_witness :
  (∀ p, p ∈ map rs_player (ro_seats example_roster) →
     ∃ i, hand_index_for_player example_roster p = Some i
          ∧ 0 <= i < Z.of_nat (length (ro_seats example_roster)))
  ∧ (∀ p q i, hand_index_for_player example_roster p = Some i →
       hand_index_for_player example_roster q = Some i → p = q)
  ∧ (∀ p, p ∉ map rs_player (ro_seats example_roster) → hand_index_for_player example_roster p = None)
  ∧ dealer_seat example_roster ∈ map rs_physical_seat (ro_seats example_roster).
Proof. apply (roster_indices toy_hash). vm_compute. reflexivity. Defined.

#[export] Instance roster_seat_fits_dec s : Decision (roster_seat_fits s).
Proof. unfold roster_seat_fits. apply _. Defined.

Lemma example_roster_fits : roster_fits example_roster.
Proof.
  split; [vm_compute; reflexivity|]. split; [vm_compute; split; congruence|].
  split; [vm_compute; split; congruence|]. split; [|split; [vm_compute; reflexivity|]].
  - intros h Hh. vm_compute in Hh. done.
  - apply (bool_decide_unpack _). vm_compute. exact I.
Qed.

Lemma roster_canonical_bytes_inj_witness :
  set_roster_hash [] example_roster = set_roster_hash [] (set_roster_hash [] example_roster).
Proof.
  apply roster_canonical_bytes_inj; [apply example_roster_fits|apply example_roster_fits|].
  vm_compute. reflexivity.
Defined.
