(* ===== verification/Receipt.v ===== *)
(** * Receipt: the settlement document of a hand (receipt.rs, statistics.rs)

    A [HandReceipt] lists, sorted by player, the chips each player started and
    ended a hand with.  [settle] builds one, [validate] is what every peer
    re-checks, [outcome_for] is a binary search, and [PlayerStatistics] sums
    receipts up. *)

From S2P Require Import Prelude Machine Encoding Order Ids.

Definition MatchId : Type := ident TagMatch.
Definition HandId : Type := ident TagHand.
Definition TranscriptHash : Type := ident TagTranscript.

Record HandOutcome := mkOutcome {
  out_player : PlayerId;
  out_device : DevicePublicKey;
  out_starting : Z;
  out_ending : Z;
}.
#[export] Instance HandOutcome_eq_dec : EqDecision HandOutcome.
Proof. solve_decision. Defined.

(** [HandOutcome::delta]. *)
Definition delta (o : HandOutcome) : Z := out_ending o - out_starting o.

Record HandReceipt := mkReceipt {
  rc_version : Z;
  match_id : MatchId;
  rc_hand_number : Z;
  stake_level_id : string;
  transcript_hash : TranscriptHash;
  settled_at_unix_ms : Z;
  outcomes : list HandOutcome;
}.
#[export] Instance HandReceipt_eq_dec : EqDecision HandReceipt.
Proof. solve_decision. Defined.

Inductive ReceiptError :=
  | UnsupportedVersion (v : Z) | EmptyStakeLevelId | NotEnoughPlayers
  | ReceiptDuplicatePlayer (p : PlayerId) | ReceiptDuplicateDevice (d : DevicePublicKey)
  | NonCanonicalPlayerOrder | NotZeroSum (total_start total_end : Z) | ReceiptOverflow.

(** The loop over [outcomes.windows(2)]. *)
Fixpoint check_player_order (l : list HandOutcome) : result ReceiptError unit :=
  match l with
  | a :: (b :: _) as rest =>
      if bool_decide (out_player a = out_player b) then Err (ReceiptDuplicatePlayer (out_player a))
      else if ord_ltb (out_player b) (out_player a) then Err NonCanonicalPlayerOrder
      else check_player_order rest
  | _ => Ok tt
  end.

(** The loop over the devices and the chip totals (u128). *)
Definition add_outcome (acc : gset DevicePublicKey * Z * Z) (o : HandOutcome)
    : result ReceiptError (gset DevicePublicKey * Z * Z) :=
  let '(devices, total_start, total_end) := acc in
  if bool_decide (out_device o ∈ devices) then Err (ReceiptDuplicateDevice (out_device o)) else
  total_start ← ok_or (u128_checked_add total_start (out_starting o)) ReceiptOverflow;
  total_end ← ok_or (u128_checked_add total_end (out_ending o)) ReceiptOverflow;
  Ok ({[out_device o]} ∪ devices, total_start, total_end).

(** [HandReceipt::validate]. *)
Definition receipt_validate (r : HandReceipt) : result ReceiptError unit :=
  _ ← reject_if (negb (rc_version r =? 1)) (UnsupportedVersion (rc_version r));
  _ ← reject_if (trim_is_empty (stake_level_id r)) EmptyStakeLevelId;
  _ ← reject_if (length (outcomes r) <? 2)%nat NotEnoughPlayers;
  _ ← check_player_order (outcomes r);
  totals ← try_fold add_outcome (∅, 0, 0) (outcomes r);
  let '(_, total_start, total_end) := totals in
  reject_if (negb (total_start =? total_end)) (NotZeroSum total_start total_end).

(** [HandReceipt::settle]. *)
Definition settle (match_id : MatchId) (hand_number : Z) (stake_level_id : string)
    (transcript_hash : TranscriptHash) (settled_at_unix_ms : Z) (outcomes : list HandOutcome)
    : result ReceiptError HandReceipt :=
  _ ← reject_if (trim_is_empty stake_level_id) EmptyStakeLevelId;
  _ ← reject_if (length outcomes <? 2)%nat NotEnoughPlayers;
  let receipt := mkReceipt 1 match_id hand_number stake_level_id transcript_hash
                   settled_at_unix_ms (sort_by_key out_player outcomes) in
  _ ← receipt_validate receipt;
  Ok receipt.

(** [binary_search_by_key] of the standard library: halve the window while it
    has more than one element, then compare once. *)
Fixpoint search_window (fuel : nat) (key : PlayerId) (l : list HandOutcome) (base size : nat) : nat :=
  match fuel with
  | O => base
  | S fuel =>
      if (size <=? 1)%nat then base else
      let half := (size / 2)%nat in
      let mid := (base + half)%nat in
      let base' := match l !! mid with
                   | Some o => match compare (out_player o) key with Gt => base | _ => mid end
                   | None => base
                   end in
      search_window fuel key l base' (size - half)
  end.
Definition binary_search_by_key (key : PlayerId) (l : list HandOutcome) : option nat :=
  if (length l =? 0)%nat then None else
  let base := search_window (length l) key l 0 (length l) in
  match l !! base with
  | Some o => match compare (out_player o) key with Eq => Some base | _ => None end
  | None => None
  end.

(** [outcome_for]. *)
Definition outcome_for (r : HandReceipt) (player_id : PlayerId) : option HandOutcome :=
  index ← binary_search_by_key player_id (outcomes r);
  outcomes r !! index.

(** [canonical_bytes], and the [HandId] over any hash function. *)
Definition RECEIPT_DOMAIN : list Z := domain_bytes "token-holdem/hand-receipt/v1".
Definition outcome_bytes (o : HandOutcome) : list Z :=
  as_bytes (out_player o) ++ as_bytes (out_device o) ++ be_bytes 8 (out_starting o)
  ++ be_bytes 8 (out_ending o).
Definition receipt_canonical_bytes (r : HandReceipt) : list Z :=
  RECEIPT_DOMAIN ++ [rc_version r] ++ as_bytes (match_id r) ++ be_bytes 8 (rc_hand_number r)
  ++ write_bytes (string_bytes (stake_level_id r)) ++ as_bytes (transcript_hash r)
  ++ be_bytes 8 (settled_at_unix_ms r)
  ++ enc_counted (λ n, be_bytes 4 (as_u32 n)) outcome_bytes (outcomes r).
Definition receipt_id (blake3 : list Z → list Z) (r : HandReceipt) : HandId :=
  Ident (blake3 (receipt_canonical_bytes r)).

(** ** Statistics *)

Record PlayerStatistics := mkStatistics {
  completed_hands : Z;
  gross_won : Z;
  gross_lost : Z;
  net_chips : Z;
  largest_win : Z;
  largest_loss : Z;
}.
Inductive StatisticsError := StatisticsOverflow.

(** The body of the loop of [PlayerStatistics::derive]. *)
Definition add_receipt (player_id : PlayerId) (s : PlayerStatistics) (r : HandReceipt)
    : result StatisticsError PlayerStatistics :=
  match outcome_for r player_id with
  | None => Ok s
  | Some outcome =>
      let d := delta outcome in
      hands ← ok_or (u64_checked_add (completed_hands s) 1) StatisticsOverflow;
      net ← ok_or (SignedChips_checked_add (net_chips s) d) StatisticsOverflow;
      if 0 <=? d then
        won ← ok_or (u64_try_from d) StatisticsOverflow;
        total ← ok_or (Chips_checked_add (gross_won s) won) StatisticsOverflow;
        Ok (mkStatistics hands total (gross_lost s) net (Z.max (largest_win s) won) (largest_loss s))
      else
        absolute ← ok_or (i128_checked_abs d) StatisticsOverflow;
        lost ← ok_or (u64_try_from absolute) StatisticsOverflow;
        total ← ok_or (Chips_checked_add (gross_lost s) lost) StatisticsOverflow;
        Ok (mkStatistics hands (gross_won s) total net (largest_win s) (Z.max (largest_loss s) lost))
  end.
Definition derive (player_id : PlayerId) (receipts : list HandReceipt)
    : result StatisticsError PlayerStatistics :=
  try_fold (add_receipt player_id) (mkStatistics 0 0 0 0 0 0) receipts.

(** ** What validation guarantees *)

Record receipt_wf (r : HandReceipt) : Prop := {
  rcw_version : rc_version r = 1;
  rcw_level : trim_is_empty (stake_level_id r) = false;
  rcw_count : (2 <= length (outcomes r))%nat;
  rcw_sorted : StronglySorted (key_lt out_player) (outcomes r);
  rcw_devices : NoDup (map out_device (outcomes r));
  rcw_zero_sum : sum_with out_starting (outcomes r) = sum_with out_ending (outcomes r);
}.

Definition amounts_ok (l : list HandOutcome) : Prop :=
  Forall (λ o, is_u64 (out_starting o) ∧ is_u64 (out_ending o)) l
  ∧ Z.of_nat (length l) <= u64_max.
#[export] Instance amounts_ok_proper : Proper ((≡ₚ) ==> iff) amounts_ok.
Proof. intros l k Hp. unfold amounts_ok. by rewrite Hp. Qed.

Lemma amounts_fit l :
  amounts_ok l → 0 <= sum_with out_starting l <= u128_max ∧ 0 <= sum_with out_ending l <= u128_max.
Proof.
  intros [Hf Hn]. rewrite Forall_forall in Hf.
  assert (∀ f : HandOutcome → Z, (∀ o, o ∈ l → is_u64 (f o)) → 0 <= sum_with f l <= u128_max) as H.
  { intros f Hfo. split; [apply sum_with_nonneg; intros o Ho; by apply Hfo|].
    transitivity (sum_with (λ _, u64_max) l).
    - apply sum_with_le. intros o Ho. by apply Hfo.
    - rewrite sum_with_const. unfold u64_max, u128_max in *. nia. }
  split; apply H; intros o Ho; by apply Hf.
Qed.

Lemma check_player_order_ok l :
  check_player_order l = Ok tt ↔ StronglySorted (key_lt out_player) l.
Proof.
  rewrite <-windows_lt_sorted. induction l as [|a l IH]; [done|]. destruct l as [|b l]; [done|].
  cbn [check_player_order windows_all]. rewrite andb_true_iff, <-IH.
  case_bool_decide as Heq.
  - split; [done|]. intros [Hlt _]. by rewrite Heq, ord_ltb_irrefl in Hlt.
  - destruct (ord_ltb (out_player b) (out_player a)) eqn:Eba.
    + split; [done|]. intros [Hab _]. rewrite ord_ltb_lt in *.
      pose proof (compare_lt_trans _ _ _ Eba Hab) as Hbb. by rewrite compare_refl in Hbb.
    + split; [|by intros [_ ?]]. intros Hok. split; [|done].
      rewrite ord_ltb_not_leb in Eba. bool_props. by apply ord_leb_neq_ltb.
Qed.

Lemma add_outcomes_ok l devices ts te :
  0 <= ts → 0 <= te → Forall (λ o, 0 <= out_starting o ∧ 0 <= out_ending o) l →
  ts + sum_with out_starting l <= u128_max → te + sum_with out_ending l <= u128_max →
  NoDup (map out_device l) ∧ (∀ o, o ∈ l → out_device o ∉ devices) ↔
  ∃ d, try_fold add_outcome (devices, ts, te) l
       = Ok (d, ts + sum_with out_starting l, te + sum_with out_ending l).
Proof.
  revert devices ts te; induction l as [|o l IH]; intros devices ts te H1 H2 Hf Hs He.
  - rewrite !sum_with_nil, !Z.add_0_r. simpl. split; [|intros _; split; [constructor|set_solver]]. eauto.
  - rewrite !sum_with_cons in *. apply Forall_cons in Hf as [[Ho1 Ho2] Hf]. cbn [map try_fold].
    assert (0 <= sum_with out_starting l ∧ 0 <= sum_with out_ending l) as [Hn1 Hn2].
    { rewrite Forall_forall in Hf. split; apply sum_with_nonneg; intros x Hx; by apply Hf. }
    assert (add_outcome (devices, ts, te) o
      = if bool_decide (out_device o ∈ devices) then Err (ReceiptDuplicateDevice (out_device o))
        else Ok ({[out_device o]} ∪ devices, ts + out_starting o, te + out_ending o)) as ->.
    { unfold add_outcome. case_bool_decide; [done|]. unfold u128_checked_add.
      rewrite (proj2 (checked_add_w_Some u128_max ts (out_starting o) _)) by (split; [done|lia]).
      by rewrite (proj2 (checked_add_w_Some u128_max te (out_ending o) _)) by (split; [done|lia]). }
    rewrite NoDup_cons. case_bool_decide as Hd.
    + split; [intros [_ H]; exfalso; by eapply (H o), Hd; left|]. intros (d & Hc). done.
    + cbn [mbind result_bind].
      rewrite !Z.add_assoc. rewrite <-(IH ({[out_device o]} ∪ devices)) by (done || lia).
      rewrite list_elem_of_fmap. split.
      * intros [[Hnx Hnd] Hfresh]. split; [done|]. intros x Hx.
        rewrite not_elem_of_union, not_elem_of_singleton. split; [|set_solver].
        intros E. apply Hnx. eauto.
      * intros [Hnd Hfresh]. split; [split; [|done]|].
        -- intros (x & E & Hx). specialize (Hfresh x Hx). set_solver.
        -- intros x [->|Hx]%elem_of_cons; [done|]. specialize (Hfresh x Hx). set_solver.
Qed.

Lemma add_outcomes_totals l d s e d' s' e' :
  try_fold add_outcome (d, s, e) l = Ok (d', s', e') →
  s' = s + sum_with out_starting l ∧ e' = e + sum_with out_ending l.
Proof.
  revert d s e; induction l as [|o l IH]; intros d s e; simpl.
  - intros [= -> -> ->]. rewrite !sum_with_nil. lia.
  - unfold add_outcome at 1. intros Hf. apply bind_Ok in Hf as ([[d1 s1] e1] & H1 & H2).
    apply IH in H2 as [-> ->]. rewrite !sum_with_cons.
    unfold add_outcome in H1. case_bool_decide; [done|]. inv_ok.
    repeat match goal with H : u128_checked_add _ _ = Some _ |- _ =>
      unfold u128_checked_add in H; apply checked_add_w_Some in H as [-> _] end.
    simplify_eq. lia.
Qed.

Lemma receipt_validate_ok r :
  amounts_ok (outcomes r) → receipt_validate r = Ok tt ↔ receipt_wf r.
Proof.
  intros Ham. destruct (amounts_fit _ Ham) as [Hs He]. destruct Ham as [Hf _].
  pose proof (add_outcomes_ok (outcomes r) ∅ 0 0 ltac:(lia) ltac:(lia)) as Hadd.
  assert (Forall (λ o, 0 <= out_starting o ∧ 0 <= out_ending o) (outcomes r)) as Hpos.
  { eapply Forall_impl; [exact Hf|]. intros o [[? ?] [? ?]]. done. }
  rewrite !Z.add_0_l in Hadd. specialize (Hadd Hpos ltac:(lia) ltac:(lia)).
  unfold receipt_validate. split.
  - intros Hv. apply bind_Ok in Hv as (? & H1 & Hv). apply bind_Ok in Hv as (? & H2 & Hv).
    apply bind_Ok in Hv as (? & H3 & Hv). apply bind_Ok in Hv as ([] & H4 & Hv).
    apply bind_Ok in Hv as ([[d ts] te] & H5 & Hv). inv_ok. bool_props.
    apply check_player_order_ok in H4. destruct (add_outcomes_totals _ _ _ _ _ _ _ H5) as [-> ->].
    split; try done.
    apply Hadd. exists d. rewrite H5. by rewrite !Z.add_0_l.
  - intros [Hv Hl Hc Ho Hd Hz]. unfold reject_if.
    rewrite Hv, Hl, (proj2 (Nat.ltb_ge _ _) Hc). simpl.
    rewrite (proj2 (check_player_order_ok _)) by done. simpl.
    destruct (proj1 Hadd) as [d Hd']; [split; [done|set_solver]|]. rewrite Hd'. simpl.
    by rewrite Hz, Z.eqb_refl.
Qed.

(** Every receipt that passes [validate] is a fair settlement: at least two
    players, in strictly increasing order, each with a device of its own, and
    the chips they lose are exactly the chips they win. *)
Theorem validated_receipt_zero_sum r :
  amounts_ok (outcomes r) → receipt_validate r = Ok tt →
  sum_with delta (outcomes r) = 0 ∧ NoDup (map out_player (outcomes r))
  ∧ NoDup (map out_device (outcomes r)) ∧ (2 <= length (outcomes r))%nat.
Proof.
  intros Ham Hv. apply receipt_validate_ok in Hv; [|done]. split_and!.
  - unfold delta. rewrite sum_with_sub, (rcw_zero_sum _ Hv). lia.
  - apply (sorted_lt_NoDup out_player), Hv.
  - apply Hv.
  - apply Hv.
Qed.

Lemma settle_ok mid n lvl th t os r :
  amounts_ok os →
  settle mid n lvl th t os = Ok r ↔
  trim_is_empty lvl = false ∧ (2 <= length os)%nat ∧ NoDup (map out_player os)
  ∧ NoDup (map out_device os) ∧ sum_with out_starting os = sum_with out_ending os
  ∧ r = mkReceipt 1 mid n lvl th t (sort_by_key out_player os).
Proof.
  intros Ham. set (r0 := mkReceipt 1 mid n lvl th t (sort_by_key out_player os)).
  pose proof (sort_by_key_perm out_player os) as Hp.
  assert (amounts_ok (outcomes r0)) as Ham'.
  { simpl. by rewrite Hp. }
  assert (receipt_wf r0 ↔ trim_is_empty lvl = false ∧ (2 <= length os)%nat
    ∧ NoDup (map out_player os) ∧ NoDup (map out_device os)
    ∧ sum_with out_starting os = sum_with out_ending os) as Hwf.
  { split.
    - intros [_ ? Hc Hs Hd Hz]. simpl in *. rewrite length_sort_by_key in Hc.
      apply (sorted_lt_NoDup out_player) in Hs. rewrite Hp in Hs, Hd.
      rewrite !(sum_with_perm _ _ _ Hp) in Hz. done.
    - intros (? & ? & Hnd & Hd & Hz). split; simpl; try done.
      + by rewrite length_sort_by_key.
      + apply sorted_le_lt; [by rewrite Hp|apply sort_by_key_sorted].
      + by rewrite Hp.
      + by rewrite !(sum_with_perm _ _ _ Hp). }
  unfold settle. fold r0. split.
  - intros Hs. apply bind_Ok in Hs as (? & H1 & Hs). apply bind_Ok in Hs as (? & H2 & Hs).
    apply bind_Ok in Hs as ([] & H3 & [= <-]).
    apply (receipt_validate_ok r0 Ham') in H3. apply Hwf in H3. tauto.
  - intros (H1 & H2 & H3 & H4 & H5 & ->). unfold reject_if.
    rewrite H1, (proj2 (Nat.ltb_ge _ _) H2). cbn [mbind result_bind].
    rewrite (proj2 (receipt_validate_ok r0 Ham')) by (apply Hwf; tauto). done.
Qed.

(** [HandReceipt::settle] accepts exactly the zero-sum outcomes of at least
    two distinct players on distinct devices, and the receipt it makes passes
    [validate]; the order in which the outcomes are given does not matter, so
    all participants sign the same document. *)
Theorem settle_spec mid n lvl th t os os' :
  amounts_ok os → os ≡ₚ os' →
  (is_ok (settle mid n lvl th t os) = true ↔
     trim_is_empty lvl = false ∧ (2 <= length os)%nat ∧ NoDup (map out_player os)
     ∧ NoDup (map out_device os) ∧ sum_with delta os = 0)
  ∧ ∀ r, settle mid n lvl th t os = Ok r →
      receipt_validate r = Ok tt ∧ outcomes r ≡ₚ os ∧ settle mid n lvl th t os' = Ok r.
Proof.
  intros Ham Hp. split.
  - rewrite is_ok_true. setoid_rewrite settle_ok; [|done]. unfold delta. rewrite sum_with_sub.
    split; [intros (r & ? & ? & ? & ? & ? & _); split_and!; done || lia|].
    intros (? & ? & ? & ? & ?). eexists. split_and!; done || lia.
  - intros r (H1 & H2 & H3 & H4 & H5 & ->)%settle_ok; [|done].
    assert (amounts_ok os') as Ham' by (by rewrite <-Hp).
    pose proof (proj2 (settle_ok mid n lvl th t os _ Ham)
      (conj H1 (conj H2 (conj H3 (conj H4 (conj H5 eq_refl)))))) as Hs.
    unfold settle in Hs. apply bind_Ok in Hs as (? & _ & Hs). apply bind_Ok in Hs as (? & _ & Hs).
    apply bind_Ok in Hs as ([] & Hv & _).
    split_and!; [done|simpl; apply sort_by_key_perm|]. apply settle_ok; [done|].
    rewrite (sort_by_key_perm_eq out_player os os') by done.
    assert (length os' = length os) as Hlen by (by rewrite Hp).
    split; [done|]. split; [by rewrite Hlen|]. split; [by rewrite <-(Permutation_map out_player Hp)|].
    split; [by rewrite <-(Permutation_map out_device Hp)|]. split; [|done].
    by rewrite <-(sum_with_perm out_starting _ _ Hp), <-(sum_with_perm out_ending _ _ Hp).
Qed.

(** ** The binary search *)

Lemma sorted_lookup_lt l i j a b :
  StronglySorted (key_lt out_player) l → l !! i = Some a → l !! j = Some b → (i < j)%nat →
  compare (out_player a) (out_player b) = Lt.
Proof.
  intros Hs. revert i j. induction Hs as [|x l Hl IH Hx]; intros i j Hi Hj Hij; [done|].
  destruct j as [|j]; [lia|]. destruct i as [|i]; simplify_eq/=.
  - rewrite Forall_forall in Hx. apply ord_ltb_lt. apply (Hx b). by eapply list_elem_of_lookup_2.
  - apply (IH i j); [done|done|lia].
Qed.

(** The window always contains the index looked for. *)
Lemma search_window_spec fuel l base size t o :
  StronglySorted (key_lt out_player) l → l !! t = Some o →
  (base <= t < base + size)%nat → (base + size <= length l)%nat → (size <= fuel)%nat →
  search_window fuel (out_player o) l base size = t.
Proof.
  intros Hs Ht. revert base size; induction fuel as [|fuel IH]; intros base size Hw Hlen Hf; [lia|].
  cbn [search_window]. destruct (size <=? 1)%nat eqn:E1; bool_props; [lia|].
  set (half := (size / 2)%nat).
  assert (1 <= half ∧ half + half <= size)%nat as [Hh1 Hh2].
  { unfold half. pose proof (Nat.div_mod_eq size 2). pose proof (Nat.mod_upper_bound size 2). lia. }
  destruct (l !! (base + half)%nat) as [m|] eqn:Em.
  - destruct (compare (out_player m) (out_player o)) eqn:Ec.
    + apply compare_eq in Ec. assert (t = base + half)%nat; [|apply IH; lia].
      destruct (lt_eq_lt_dec t (base + half)%nat) as [[Hl| ->]|Hl]; [|done|].
      * pose proof (sorted_lookup_lt l _ _ _ _ Hs Ht Em Hl) as H. by rewrite Ec, compare_refl in H.
      * pose proof (sorted_lookup_lt l _ _ _ _ Hs Em Ht Hl) as H. by rewrite Ec, compare_refl in H.
    + assert (base + half <= t)%nat; [|apply IH; lia].
      destruct (decide (base + half <= t)%nat) as [|Hn]; [done|].
      pose proof (sorted_lookup_lt l _ _ _ _ Hs Ht Em ltac:(lia)) as H.
      rewrite compare_opp, Ec in H. done.
    + assert (t < base + half)%nat; [|apply IH; lia].
      destruct (decide (t < base + half)%nat) as [|Hn]; [done|].
      destruct (decide (t = base + half)%nat) as [->|Hne].
      * rewrite Em in Ht. simplify_eq. by rewrite compare_refl in Ec.
      * pose proof (sorted_lookup_lt l _ _ _ _ Hs Em Ht ltac:(lia)) as H. congruence.
  - apply lookup_ge_None in Em. lia.
Qed.

Lemma binary_search_found l t o :
  StronglySorted (key_lt out_player) l → l !! t = Some o →
  binary_search_by_key (out_player o) l = Some t.
Proof.
  intros Hs Ht. pose proof (lookup_lt_Some _ _ _ Ht). unfold binary_search_by_key.
  destruct (length l =? 0)%nat eqn:E0; bool_props; [lia|].
  rewrite (search_window_spec (length l) l 0 (length l) t o) by (done || lia).
  by rewrite Ht, compare_refl.
Qed.

Lemma outcome_for_found r o :
  receipt_wf r → o ∈ outcomes r → outcome_for r (out_player o) = Some o.
Proof.
  intros Hw [t Ht]%list_elem_of_lookup. unfold outcome_for.
  by rewrite (binary_search_found (outcomes r) t o (rcw_sorted _ Hw) Ht).
Qed.

Lemma outcome_for_sound r p o : outcome_for r p = Some o → o ∈ outcomes r ∧ out_player o = p.
Proof.
  unfold outcome_for, binary_search_by_key. case_match; [done|].
  destruct (outcomes r !! _) as [x|] eqn:Ex; [|done].
  destruct (compare (out_player x) p) eqn:Ec; [|done..]. simpl. rewrite Ex. intros [= <-].
  split; [by eapply list_elem_of_lookup_2|by apply compare_eq].
Qed.

(** The binary search of [outcome_for] is right: on a validated receipt it
    returns exactly the outcome of the player asked for. *)
Theorem outcome_for_spec r p o :
  receipt_wf r → outcome_for r p = Some o ↔ o ∈ outcomes r ∧ out_player o = p.
Proof.
  intros Hw. split; [apply outcome_for_sound|]. intros [Ho <-]. by apply outcome_for_found.
Qed.

(** ** The signed bytes *)

Definition outcome_fits (o : HandOutcome) : Prop :=
  id_len 32 (out_player o) ∧ id_len 32 (out_device o) ∧ is_u64 (out_starting o)
  ∧ is_u64 (out_ending o).
Definition receipt_fits (r : HandReceipt) : Prop :=
  id_len 16 (match_id r) ∧ is_u64 (rc_hand_number r) ∧ short (string_bytes (stake_level_id r))
  ∧ id_len 32 (transcript_hash r) ∧ is_u64 (settled_at_unix_ms r)
  ∧ Z.of_nat (length (outcomes r)) <= u32_max ∧ Forall outcome_fits (outcomes r).

Lemma prefix_inj_outcome : prefix_inj outcome_fits outcome_bytes.
Proof.
  intros x y r s (Hx1 & Hx2 & Hx3 & Hx4) (Hy1 & Hy2 & Hy3 & Hy4) H.
  unfold outcome_bytes in H. rewrite <-!(assoc_L (++)) in H.
  peel H (prefix_inj_id (t:=TagPlayer) 32). peel H (prefix_inj_id (t:=TagDevice) 32).
  peel H prefix_inj_u64. peel H prefix_inj_u64. destruct x, y; simplify_eq/=. done.
Qed.

Lemma receipt_bytes_inj r r' :
  receipt_fits r → receipt_fits r' →
  receipt_canonical_bytes r = receipt_canonical_bytes r' → r = r'.
Proof.
  intros (? & ? & ? & ? & ? & ? & ?) (? & ? & ? & ? & ? & ? & ?) Hb.
  unfold receipt_canonical_bytes in Hb. apply app_inj_1 in Hb as [_ Hb]; [|done].
  rewrite <-(app_nil_r (enc_counted _ _ (outcomes r))), <-(app_nil_r (enc_counted _ _ (outcomes r'))) in Hb.
  peel Hb prefix_inj_u8. peel Hb (prefix_inj_id (t:=TagMatch) 16). peel Hb prefix_inj_u64. peel Hb prefix_inj_write_bytes.
  peel Hb (prefix_inj_id (t:=TagTranscript) 32). peel Hb prefix_inj_u64.
  apply (prefix_inj_counted (λ n, 0 <= n <= u32_max) outcome_fits) in Hb as [Eo _];
    [|apply prefix_inj_count_u32|apply prefix_inj_outcome|split; [cbn beta; lia|done]..].
  apply string_bytes_inj in E2. destruct r, r'; simpl in *. congruence.
Qed.

(** The signed bytes of a receipt determine the receipt: signatures over
    [canonical_bytes] cannot be moved to a different settlement. *)
Theorem receipt_canonical_bytes_inj r r' :
  receipt_fits r → receipt_fits r' →
  receipt_canonical_bytes r = receipt_canonical_bytes r' → r = r'.
Proof. apply receipt_bytes_inj. Qed.

(** ** Statistics *)

Definition list_max (l : list Z) : Z := foldr Z.max 0 l.
(** The deltas of a player over a list of receipts. *)
Definition player_deltas (p : PlayerId) (rs : list HandReceipt) : list Z :=
  map delta (omap (λ r, outcome_for r p) rs).
(** The statistics of a list of deltas, without machine bounds. *)
Definition statistics_of (ds : list Z) : PlayerStatistics :=
  mkStatistics (Z.of_nat (length ds)) (sum_with (Z.max 0) ds) (sum_with (λ d, Z.max 0 (- d)) ds)
    (sum_with (λ d, d) ds) (list_max (map (Z.max 0) ds)) (list_max (map (λ d, Z.max 0 (- d)) ds)).
Definition statistics_fit (ds : list Z) : Prop :=
  Z.of_nat (length ds) <= u64_max ∧ sum_with (Z.max 0) ds <= u64_max
  ∧ sum_with (λ d, Z.max 0 (- d)) ds <= u64_max.
#[export] Instance statistics_fit_dec ds : Decision (statistics_fit ds).
Proof. unfold statistics_fit. apply _. Defined.

Lemma list_max_app l k : list_max (l ++ k) = Z.max (list_max l) (list_max k).
Proof.
  unfold list_max. induction l as [|x l IH]; simpl; [|rewrite IH; lia].
  induction k as [|y k IHk]; simpl; lia.
Qed.

Lemma list_max_nonneg l : 0 <= list_max l.
Proof. unfold list_max. induction l; simpl; lia. Qed.

Lemma net_is_won_minus_lost ds :
  sum_with (λ d, d) ds = sum_with (Z.max 0) ds - sum_with (λ d, Z.max 0 (- d)) ds.
Proof. rewrite <-sum_with_sub. apply sum_with_ext. intros. lia. Qed.

Lemma statistics_fit_app l k : statistics_fit (l ++ k) → statistics_fit l.
Proof.
  unfold statistics_fit. rewrite length_app, !sum_with_app.
  pose proof (sum_with_nonneg (Z.max 0) k ltac:(intros; lia)).
  pose proof (sum_with_nonneg (λ d, Z.max 0 (- d)) k ltac:(intros; lia)). lia.
Qed.

Lemma statistics_of_snoc pre d :
  statistics_of (pre ++ [d])
  = mkStatistics (Z.of_nat (length pre) + 1) (sum_with (Z.max 0) pre + Z.max 0 d)
      (sum_with (λ d, Z.max 0 (- d)) pre + Z.max 0 (- d)) (sum_with (λ d, d) pre + d)
      (Z.max (list_max (map (Z.max 0) pre)) (Z.max 0 d))
      (Z.max (list_max (map (λ d, Z.max 0 (- d)) pre)) (Z.max 0 (- d))).
Proof.
  unfold statistics_of. rewrite length_app. rewrite !sum_with_app. rewrite !map_app.
  rewrite !list_max_app. cbn [length map list_max foldr]. rewrite !sum_with_cons, !sum_with_nil.
  f_equal; lia.
Qed.

Lemma statistics_fit_snoc pre d :
  statistics_fit (pre ++ [d]) ↔
  Z.of_nat (length pre) + 1 <= u64_max ∧ sum_with (Z.max 0) pre + Z.max 0 d <= u64_max
  ∧ sum_with (λ d, Z.max 0 (- d)) pre + Z.max 0 (- d) <= u64_max.
Proof.
  unfold statistics_fit. rewrite length_app. rewrite !sum_with_app. cbn [length].
  rewrite !sum_with_cons, !sum_with_nil. lia.
Qed.

(** One receipt in which the player took part. *)
Lemma add_receipt_step p pre r o :
  outcome_for r p = Some o → is_u64 (out_starting o) → is_u64 (out_ending o) → statistics_fit pre →
  add_receipt p (statistics_of pre) r
  = if decide (statistics_fit (pre ++ [delta o])) then Ok (statistics_of (pre ++ [delta o]))
    else Err StatisticsOverflow.
Proof.
  intros Ho Hs He (Hn & Hw & Hl). unfold add_receipt. rewrite Ho. cbn [statistics_of completed_hands
    gross_won gross_lost net_chips largest_win largest_loss].
  set (d := delta o). assert (- u64_max <= d <= u64_max) as Hd by (unfold d, delta, is_u64 in *; lia).
  clearbody d.
  rewrite statistics_of_snoc. pose proof (statistics_fit_snoc pre d) as Hfit.
  pose proof (net_is_won_minus_lost pre) as Hnet.
  pose proof (sum_with_nonneg (Z.max 0) pre ltac:(intros; lia)) as Hw0.
  pose proof (sum_with_nonneg (λ d, Z.max 0 (- d)) pre ltac:(intros; lia)) as Hl0.
  pose proof (list_max_nonneg (map (Z.max 0) pre)).
  pose proof (list_max_nonneg (map (λ d, Z.max 0 (- d)) pre)).
  set (W := sum_with (Z.max 0) pre) in *. set (L := sum_with (λ d, Z.max 0 (- d)) pre) in *.
  set (N := sum_with (λ d, d) pre) in *. clearbody W L N.
  unfold SignedChips_checked_add, i128_checked_add, i128_checked_abs, u64_try_from, Chips_checked_add,
    u64_checked_add, checked_add_w.
  assert (i128_min <= N + d <= i128_max) as Hi
    by (unfold i128_min, i128_max, u64_max in *; lia).
  replace ((i128_min <=? _) && _) with true by lia.
  replace (Z.abs d <=? i128_max) with true by (unfold i128_max, u64_max in *; lia).
  case_decide as Hdec.
  - apply Hfit in Hdec as (H1 & H2 & H3).
    replace (Z.of_nat (length pre) + 1 <=? u64_max) with true by lia. cbn [mbind result_bind ok_or].
    destruct (0 <=? d) eqn:Es; bool_props.
    + replace (d <=? u64_max) with true by lia. cbn [andb mbind result_bind ok_or].
      replace (W + d <=? u64_max) with true by lia. cbn [mbind result_bind ok_or].
      do 2 f_equal; lia.
    + replace ((0 <=? Z.abs d) && (Z.abs d <=? u64_max)) with true by lia. cbn [mbind result_bind ok_or].
      replace (L + Z.abs d <=? u64_max) with true by lia.
      cbn [mbind result_bind ok_or]. do 2 f_equal; lia.
  - rewrite Hfit in Hdec. destruct (Z.of_nat (length pre) + 1 <=? u64_max) eqn:E1; [|done].
    bool_props. cbn [mbind result_bind ok_or]. destruct (0 <=? d) eqn:Es; bool_props.
    + replace (d <=? u64_max) with true by lia. cbn [andb mbind result_bind ok_or].
      by replace (W + d <=? u64_max) with false by lia.
    + replace ((0 <=? Z.abs d) && (Z.abs d <=? u64_max)) with true by lia. cbn [mbind result_bind ok_or].
      by replace (L + Z.abs d <=? u64_max) with false by lia.
Qed.

Definition receipt_amounts_ok (r : HandReceipt) : Prop :=
  Forall (λ o, is_u64 (out_starting o) ∧ is_u64 (out_ending o)) (outcomes r).

Lemma derive_from p pre rs :
  Forall receipt_amounts_ok rs → statistics_fit pre →
  try_fold (add_receipt p) (statistics_of pre) rs
  = if decide (statistics_fit (pre ++ player_deltas p rs))
    then Ok (statistics_of (pre ++ player_deltas p rs)) else Err StatisticsOverflow.
Proof.
  intros Hrs. revert pre; induction Hrs as [|r rs Hr Hrs IH]; intros pre Hpre; cbn [try_fold].
  { unfold player_deltas; simpl. rewrite app_nil_r, decide_True by done. done. }
  unfold player_deltas. cbn [omap list_omap].
  destruct (outcome_for r p) as [o|] eqn:Ho.
  - unfold receipt_amounts_ok in Hr. rewrite Forall_forall in Hr.
    destruct (outcome_for_sound _ _ _ Ho) as [Hin _]. destruct (Hr o Hin) as [H1 H2].
    rewrite (add_receipt_step p pre r o Ho H1 H2 Hpre). cbn [map]. fold (player_deltas p rs).
    replace (pre ++ delta o :: player_deltas p rs) with ((pre ++ [delta o]) ++ player_deltas p rs)
      by (by rewrite <-(assoc_L (++))).
    destruct (decide (statistics_fit (pre ++ [delta o]))) as [Hf|Hf]; cbn [mbind result_bind].
    + by apply IH.
    + rewrite decide_False; [done|]. by intros ?%statistics_fit_app.
  - assert (add_receipt p (statistics_of pre) r = Ok (statistics_of pre)) as ->
      by (unfold add_receipt; by rewrite Ho).
    cbn [mbind result_bind]. by apply IH.
Qed.

(** The statistics of a player are the right sums.  Over any receipts with
    u64 stacks, [PlayerStatistics::derive] returns the number of hands, the
    total won and lost, their difference, and the largest win and loss of the
    hands the player took part in; it reports an overflow exactly when a total
    does not fit its type. *)
Theorem derive_spec p rs :
  Forall receipt_amounts_ok rs →
  derive p rs
  = if decide (statistics_fit (player_deltas p rs))
    then Ok (statistics_of (player_deltas p rs)) else Err StatisticsOverflow.
Proof.
  intros Hrs. unfold derive. change (mkStatistics 0 0 0 0 0 0) with (statistics_of []).
  rewrite (derive_from p [] rs Hrs); [done|]. unfold statistics_fit. rewrite !sum_with_nil.
  unfold u64_max. simpl. lia.
Qed.

(** ** Examples *)
Definition example_outcome (n start fin : Z) : HandOutcome :=
  mkOutcome (repeat_id 32 n) (repeat_id 32 (100 + n)) start fin.
Definition example_outcomes : list HandOutcome :=
  [example_outcome 3 500 650; example_outcome 1 800 700; example_outcome 2 400 350].
Definition example_receipt : HandReceipt :=
  mkReceipt 1 (repeat_id 16 1) 1 "10k-20k" (repeat_id 32 9) 1000
    (sort_by_key out_player example_outcomes).

#[export] Instance amounts_ok_dec l : Decision (amounts_ok l).
Proof. unfold amounts_ok. apply _. Defined.
#[export] Instance receipt_fits_dec r : Decision (receipt_fits r).
Proof. unfold receipt_fits, outcome_fits, short. apply _. Defined.

Lemma example_outcomes_ok : amounts_ok example_outcomes.
Proof. apply (bool_decide_unpack _). vm_compute. exact I. Qed.
Lemma example_receipt_ok : amounts_ok (outcomes example_receipt).
Proof. apply (bool_decide_unpack _). vm_compute. exact I. Qed.
Lemma example_receipt_valid : receipt_validate example_receipt = Ok tt.
Proof. vm_compute. reflexivity. Qed.
Lemma example_receipt_wf : receipt_wf example_receipt.
Proof. apply receipt_validate_ok; [apply example_receipt_ok|apply example_receipt_valid]. Qed.
Lemma example_receipt_fits : receipt_fits example_receipt.
Proof. apply (bool_decide_unpack _). vm_compute. exact I. Qed.

Lemma validated_receipt_zero_sum_witness :
  sum_with delta (outcomes example_receipt) = 0 ∧ NoDup (map out_player (outcomes example_receipt))
  ∧ NoDup (map out_device (outcomes example_receipt)) ∧ (2 <= length (outcomes example_receipt))%nat.
Proof.
  apply validated_receipt_zero_sum; [apply example_receipt_ok|apply example_receipt_valid].
Defined.

Lemma settle_spec_witness :
  receipt_validate example_receipt = Ok tt ∧ outcomes example_receipt ≡ₚ example_outcomes
  ∧ settle (repeat_id 16 1) 1 "10k-20k" (repeat_id 32 9) 1000 (reverse example_outcomes)
    = Ok example_receipt.
Proof.
  destruct (settle_spec (repeat_id 16 1) 1 "10k-20k" (repeat_id 32 9) 1000 example_outcomes
    (reverse example_outcomes) example_outcomes_ok) as [_ H].
  - symmetry. apply reverse_Permutation.
  - apply H. vm_compute. reflexivity.
Defined.

Lemma outcome_for_spec_witness :
  outcome_for example_receipt (repeat_id 32 2) = Some (example_outcome 2 400 350)
  ↔ example_outcome 2 400 350 ∈ outcomes example_receipt
    ∧ out_player (example_outcome 2 400 350) = repeat_id 32 2.
Proof. apply outcome_for_spec, example_receipt_wf. Defined.

Lemma receipt_canonical_bytes_inj_witness : example_receipt = example_receipt.
Proof.
  apply receipt_canonical_bytes_inj; [apply example_receipt_fits|apply example_receipt_fits|reflexivity].
Defined.

Lemma derive_spec_witness :
  derive (repeat_id 32 1) [example_receipt; example_receipt]
  = if decide (statistics_fit (player_deltas (repeat_id 32 1) [example_receipt; example_receipt]))
    then Ok (statistics_of (player_deltas (repeat_id 32 1) [example_receipt; example_receipt]))
    else Err StatisticsOverflow.
Proof.
  apply derive_spec. repeat constructor; vm_compute; congruence.
Defined.
