(* ===== verification/Identity.v ===== *)
(** * Identity: device certificates and attestations (token-holdem-identity)

    A root key names a player (the player id is the hash of the key) and
    certifies device keys; a device attests payloads.  Hashing and signing are
    external: they are the operations of the class [Crypto], with the laws the
    code relies on in [CryptoLaws]. *)

From S2P Require Import Prelude Machine Encoding Order Ids.

(** ** The external operations: BLAKE3 and Ed25519 *)
Class Crypto := {
  blake3 : list Z → list Z;
  verifying_key : list Z → list Z;           (* of a signing key's seed *)
  key_valid : list Z → bool;                 (* [VerifyingKey::from_bytes] succeeds *)
  sign : list Z → list Z → list Z;           (* seed, message *)
  verify_sig : list Z → list Z → list Z → bool;  (* key bytes, message, signature *)
}.

(** What the libraries document: keys have 32 bytes and decode, and a signature
    made with a key verifies under it. *)
Class CryptoLaws `{Crypto} : Prop := {
  blake3_len : ∀ m, length (blake3 m) = 32%nat;
  verifying_key_len : ∀ k, length (verifying_key k) = 32%nat;
  verifying_key_valid : ∀ k, key_valid (verifying_key k) = true;
  sign_verifies : ∀ k m, verify_sig (verifying_key k) m (sign k m) = true;
}.

(** ** Signed time (signed_time.rs) *)
Definition MAX_SIGNED_MESSAGE_CLOCK_SKEW_MS : Z := 5 * 60 * 1000.
Definition is_signed_time_not_future (timestamp now : Z) : bool :=
  timestamp <=? u64_saturating_add now MAX_SIGNED_MESSAGE_CLOCK_SKEW_MS.
Definition is_signed_time_before_expiry (timestamp expires_at : Z) : bool :=
  timestamp <? u64_saturating_add expires_at MAX_SIGNED_MESSAGE_CLOCK_SKEW_MS.
Definition is_signed_time_window_active (created_at expires_at now : Z) : bool :=
  is_signed_time_not_future created_at now && is_signed_time_before_expiry now expires_at.
Definition is_signed_time_window_expired (expires_at now : Z) : bool :=
  negb (is_signed_time_before_expiry now expires_at).

(** ** Device certificates (certificate.rs) *)
Definition DEVICE_CERTIFICATE_VERSION : Z := 1.
Definition PLAYER_ID_DOMAIN : list Z := domain_bytes "token-holdem/player-id/v1".
Definition DEVICE_CERTIFICATE_DOMAIN : list Z := domain_bytes "token-holdem/device-certificate/v1".

Inductive CertificateError :=
  | InvalidValidityWindow | InvalidLabel | CertUnsupportedVersion (v : Z) | InvalidRootPublicKey
  | InvalidDevicePublicKey | PlayerIdMismatch | InvalidRootSignature | InvalidDeviceSignature
  | OutsideValidityWindow.

Record DeviceCertificate := mkCertificate {
  cert_version : Z;
  cert_player_id : PlayerId;
  root_public_key : list Z;
  cert_device : DevicePublicKey;
  label : string;
  issued_at_unix_ms : Z;
  expires_at_unix_ms : Z;
  root_signature : list Z;
}.
#[export] Instance DeviceCertificate_eq_dec : EqDecision DeviceCertificate.
Proof. solve_decision. Defined.

Definition set_root_signature (s : list Z) (c : DeviceCertificate) : DeviceCertificate :=
  mkCertificate (cert_version c) (cert_player_id c) (root_public_key c) (cert_device c) (label c)
    (issued_at_unix_ms c) (expires_at_unix_ms c) s.

(** [canonical_unsigned_bytes]. *)
Definition canonical_unsigned_bytes (c : DeviceCertificate) : list Z :=
  DEVICE_CERTIFICATE_DOMAIN ++ [cert_version c] ++ as_bytes (cert_player_id c) ++ root_public_key c
  ++ as_bytes (cert_device c) ++ write_bytes (string_bytes (label c))
  ++ be_bytes 8 (issued_at_unix_ms c) ++ be_bytes 8 (expires_at_unix_ms c).

Section identity.
Context `{Crypto}.

(** [player_id_from_root_key]. *)
Definition player_id_from_root_key (root_key : list Z) : PlayerId :=
  Ident (blake3 (PLAYER_ID_DOMAIN ++ root_key)).

(** [RootIdentity] and [DeviceIdentity] hold a signing key, here its seed. *)
Definition root_player_id (seed : list Z) : PlayerId :=
  player_id_from_root_key (verifying_key seed).
Definition device_public_key (seed : list Z) : DevicePublicKey := Ident (verifying_key seed).

(** The certificate before it is signed. *)
Definition unsigned_certificate (root : list Z) (device : DevicePublicKey) (label : string)
    (issued_at expires_at : Z) : DeviceCertificate :=
  mkCertificate DEVICE_CERTIFICATE_VERSION (root_player_id root) (verifying_key root) device label
    issued_at expires_at (replicate 64 0).

(** [issue_device_certificate]. *)
Definition issue_device_certificate (root : list Z) (device : DevicePublicKey) (label : string)
    (issued_at expires_at : Z) : result CertificateError DeviceCertificate :=
  _ ← reject_if (expires_at <=? issued_at) InvalidValidityWindow;
  _ ← reject_if (trim_is_empty label || (80 <? string_len label)) InvalidLabel;
  let certificate := unsigned_certificate root device label issued_at expires_at in
  Ok (set_root_signature (sign root (canonical_unsigned_bytes certificate)) certificate).

(** [verify_at]. *)
Definition verify_at (c : DeviceCertificate) (now : Z) : result CertificateError unit :=
  _ ← reject_if (negb (cert_version c =? DEVICE_CERTIFICATE_VERSION))
        (CertUnsupportedVersion (cert_version c));
  _ ← reject_if (negb (key_valid (root_public_key c))) InvalidRootPublicKey;
  _ ← reject_if (negb (bool_decide (player_id_from_root_key (root_public_key c)
                                    = cert_player_id c))) PlayerIdMismatch;
  _ ← reject_if (negb (verify_sig (root_public_key c) (canonical_unsigned_bytes c)
                         (root_signature c))) InvalidRootSignature;
  reject_if (negb (is_signed_time_window_active (issued_at_unix_ms c) (expires_at_unix_ms c) now))
    OutsideValidityWindow.

(** [verify_device_signature]. *)
Definition verify_device_signature (c : DeviceCertificate) (message signature : list Z)
    : result CertificateError unit :=
  _ ← reject_if (negb (key_valid (as_bytes (cert_device c)))) InvalidDevicePublicKey;
  reject_if (negb (verify_sig (as_bytes (cert_device c)) message signature)) InvalidDeviceSignature.

(** ** Attestations (attestation.rs) *)
Definition DEVICE_ATTESTATION_DOMAIN : list Z := domain_bytes "token-holdem/device-attestation/v1".
Inductive DeviceAttestationError :=
  | AttCertificate (e : CertificateError) | DeviceKeyMismatch | PayloadHashMismatch.
Record DeviceAttestation := mkAttestation {
  att_certificate : DeviceCertificate;
  payload_hash : list Z;
  att_signature : list Z;
}.
#[export] Instance DeviceAttestation_eq_dec : EqDecision DeviceAttestation.
Proof. solve_decision. Defined.

(** [canonical_signing_bytes]. *)
Definition canonical_signing_bytes (domain payload_hash : list Z) : list Z :=
  DEVICE_ATTESTATION_DOMAIN ++ write_bytes domain ++ payload_hash.

(** [DeviceAttestation::issue]. *)
Definition attestation_issue (domain payload : list Z) (now : Z) (device : list Z)
    (certificate : DeviceCertificate) : result DeviceAttestationError DeviceAttestation :=
  _ ← map_err AttCertificate (verify_at certificate now);
  _ ← reject_if (negb (bool_decide (cert_device certificate = device_public_key device)))
        DeviceKeyMismatch;
  let payload_hash := blake3 payload in
  Ok (mkAttestation certificate payload_hash
        (sign device (canonical_signing_bytes domain payload_hash))).

(** [DeviceAttestation::verify]. *)
Definition attestation_verify (a : DeviceAttestation) (domain payload : list Z) (now : Z)
    : result DeviceAttestationError unit :=
  _ ← map_err AttCertificate (verify_at (att_certificate a) now);
  _ ← reject_if (negb (bool_decide (blake3 payload = payload_hash a))) PayloadHashMismatch;
  map_err AttCertificate
    (verify_device_signature (att_certificate a) (canonical_signing_bytes domain (payload_hash a))
       (att_signature a)).
End identity.

(** ** Signed time *)

(** Clocks may differ.  A message that is inside its signed window at some
    moment [t] is accepted by every peer whose clock is at most five minutes
    away from [t] in either direction; and a window a peer finds expired stays
    expired when the clock moves on. *)
Theorem signed_time_tolerates_skew created_at expires_at t now now' :
  0 <= created_at <= t → t < expires_at <= u64_max → 0 <= now < u64_max →
  Z.abs (now - t) <= MAX_SIGNED_MESSAGE_CLOCK_SKEW_MS → now <= now' →
  is_signed_time_window_active created_at expires_at now = true
  ∧ (is_signed_time_window_expired expires_at now = true →
     is_signed_time_window_expired expires_at now' = true).
Proof.
  unfold is_signed_time_window_active, is_signed_time_window_expired, is_signed_time_not_future,
    is_signed_time_before_expiry, u64_saturating_add.
  set (skew := MAX_SIGNED_MESSAGE_CLOCK_SKEW_MS). intros. split; [apply andb_true_iff; split|]; lia.
Qed.

Lemma signed_time_tolerates_skew_witness :
  is_signed_time_window_active 1000000 1060000 (1059999 + 300000) = true
  ∧ (is_signed_time_window_expired 1060000 (1059999 + 300000) = true →
     is_signed_time_window_expired 1060000 (1059999 + 300001) = true).
Proof.
  apply (signed_time_tolerates_skew 1000000 1060000 1059999);
    unfold u64_max, MAX_SIGNED_MESSAGE_CLOCK_SKEW_MS; lia.
Defined.

(** ** Certificates *)

Definition certificate_fits (c : DeviceCertificate) : Prop :=
  id_len 32 (cert_player_id c) ∧ bytes_of_len 32 (root_public_key c) ∧ id_len 32 (cert_device c)
  ∧ short (string_bytes (label c)) ∧ is_u64 (issued_at_unix_ms c) ∧ is_u64 (expires_at_unix_ms c).

(** The bytes a root key signs determine the certificate, and the bytes a
    device signs determine the domain and the payload hash, so no signature
    can be reused for another certificate, domain or payload. *)
Theorem signed_bytes_inj c c' domain domain' h h' :
  (certificate_fits c → certificate_fits c' →
   canonical_unsigned_bytes c = canonical_unsigned_bytes c' →
   set_root_signature [] c = set_root_signature [] c')
  ∧ (short domain → short domain' →
     canonical_signing_bytes domain h = canonical_signing_bytes domain' h' →
     domain = domain' ∧ h = h').
Proof.
  split.
  - intros (? & ? & ? & ? & ? & ?) (? & ? & ? & ? & ? & ?) Hb. unfold canonical_unsigned_bytes in Hb.
    apply app_inj_1 in Hb as [_ Hb]; [|done].
    rewrite <-(app_nil_r (be_bytes 8 (expires_at_unix_ms c))),
      <-(app_nil_r (be_bytes 8 (expires_at_unix_ms c'))) in Hb.
    peel Hb prefix_inj_u8. peel Hb (prefix_inj_id (t:=TagPlayer) 32).
    peel Hb (prefix_inj_array 32). peel Hb (prefix_inj_id (t:=TagDevice) 32).
    peel Hb prefix_inj_write_bytes. peel Hb prefix_inj_u64. peel Hb prefix_inj_u64.
    apply string_bytes_inj in E3. unfold set_root_signature. congruence.
  - intros Hd Hd' Hb. unfold canonical_signing_bytes in Hb.
    apply app_inj_1 in Hb as [_ Hb]; [|done]. by apply prefix_inj_write_bytes in Hb.
Qed.

(** ** Attestations, as the signed documents of the network use them *)
Section attestations.
Context `{Crypto}.

Lemma verify_device_signature_Ok c m sg :
  verify_device_signature c m sg = Ok tt ↔
  key_valid (as_bytes (cert_device c)) = true ∧ verify_sig (as_bytes (cert_device c)) m sg = true.
Proof.
  unfold verify_device_signature, reject_if.
  destruct (key_valid _), (verify_sig _ _ _); simpl; split; intuition congruence.
Qed.

Lemma attestation_verify_Ok a domain payload now :
  attestation_verify a domain payload now = Ok tt ↔
  verify_at (att_certificate a) now = Ok tt ∧ blake3 payload = payload_hash a
  ∧ verify_device_signature (att_certificate a) (canonical_signing_bytes domain (payload_hash a))
      (att_signature a) = Ok tt.
Proof.
  unfold attestation_verify. split.
  - intros Hv. apply bind_Ok in Hv as ([] & Hc%map_err_Ok & Hv). apply bind_Ok in Hv as (? & Hp & Hv).
    apply map_err_Ok in Hv. inv_ok. by bool_props.
  - intros (-> & Hp & Hs). cbn [map_err mbind result_bind]. unfold reject_if at 1.
    rewrite bool_decide_true by done. cbn [negb mbind result_bind]. by rewrite Hs.
Qed.

Lemma attestation_issue_Ok domain payload now device c a :
  attestation_issue domain payload now device c = Ok a ↔
  verify_at c now = Ok tt ∧ cert_device c = device_public_key device
  ∧ a = mkAttestation c (blake3 payload)
          (sign device (canonical_signing_bytes domain (blake3 payload))).
Proof.
  unfold attestation_issue. split.
  - intros Hv. apply bind_Ok in Hv as ([] & Hc%map_err_Ok & Hv). apply bind_Ok in Hv as (? & Hd & [= <-]).
    inv_ok. by bool_props.
  - intros (-> & Hd & ->). cbn [map_err mbind result_bind]. unfold reject_if.
    by rewrite bool_decide_true.
Qed.

(** An attestation is good for one payload hash. *)
Lemma attestation_binds a domain domain' payload payload' now now' :
  attestation_verify a domain payload now = Ok tt →
  attestation_verify a domain' payload' now' = Ok tt → blake3 payload = blake3 payload'.
Proof. intros (_ & -> & _)%attestation_verify_Ok (_ & -> & _)%attestation_verify_Ok. done. Qed.

(** What a device issued is accepted as long as its certificate is. *)
Lemma attestation_issue_verify `{!CryptoLaws} domain payload now now' device c a :
  attestation_issue domain payload now device c = Ok a → verify_at c now' = Ok tt →
  attestation_verify a domain payload now' = Ok tt.
Proof.
  intros (_ & Hd & ->)%attestation_issue_Ok Hc. apply attestation_verify_Ok. simpl.
  split; [done|]. split; [done|]. apply verify_device_signature_Ok. rewrite Hd. simpl.
  by rewrite verifying_key_valid, sign_verifies.
Qed.

(** A certified device can attest, and what it attests is accepted as long as
    its certificate is. *)
Lemma attestation_complete `{!CryptoLaws} domain payload now device c :
  verify_at c now = Ok tt → cert_device c = device_public_key device →
  ∃ a, attestation_issue domain payload now device c = Ok a ∧ att_certificate a = c
    ∧ ∀ now', verify_at c now' = Ok tt → attestation_verify a domain payload now' = Ok tt.
Proof.
  intros Hc Hd.
  assert (∃ a, attestation_issue domain payload now device c = Ok a) as [a Ha]
    by (eexists; by apply attestation_issue_Ok).
  exists a. split; [done|]. split; [by apply attestation_issue_Ok in Ha as (_ & _ & ->)|].
  intros now' Hc'. by eapply attestation_issue_verify.
Qed.
End attestations.

Section completeness.
Context `{CryptoLaws}.

Definition label_ok (l : string) : Prop := trim_is_empty l = false ∧ string_len l <= 80.

Lemma issue_certificate_ok root device l issued expires c :
  issue_device_certificate root device l issued expires = Ok c ↔
  issued < expires ∧ label_ok l
  ∧ c = set_root_signature
          (sign root (canonical_unsigned_bytes (unsigned_certificate root device l issued expires)))
          (unsigned_certificate root device l issued expires).
Proof.
  unfold issue_device_certificate, label_ok. split.
  - intros Hi. inv_ok. bool_props. split; [lia|]. split; [split; [done|lia]|]. done.
  - intros (Hlt & [Hb Hlen] & ->). unfold reject_if.
    replace (expires <=? issued) with false by lia. rewrite Hb.
    replace (80 <? string_len l) with false by lia. done.
Qed.

Lemma issued_verifies root device l issued expires c now :
  issue_device_certificate root device l issued expires = Ok c →
  is_signed_time_window_active issued expires now = true → verify_at c now = Ok tt.
Proof.
  intros (_ & _ & ->)%issue_certificate_ok Hnow. unfold verify_at, reject_if.
  set (c0 := unsigned_certificate root device l issued expires).
  change (canonical_unsigned_bytes (set_root_signature _ c0)) with (canonical_unsigned_bytes c0).
  unfold c0 at 1 2 3 5 6 7 8. simpl.
  rewrite verifying_key_valid, bool_decide_true by done. simpl.
  rewrite sign_verifies. simpl. by rewrite Hnow.
Qed.

(** Certificates and attestations verify.  A root key issues a certificate
    for every non-empty validity window and label of 1 to 80 bytes, and the
    certificate is accepted throughout its signed window.  An attestation
    a certified device issues is accepted for its domain and payload, at any
    moment the certificate is valid, and for no payload with another hash. *)
Theorem attestation_roundtrip root device_seed l issued expires domain payload now now' :
  is_signed_time_window_active issued expires now = true →
  is_signed_time_window_active issued expires now' = true →
  issued < expires → label_ok l →
  ∃ c a, issue_device_certificate root (device_public_key device_seed) l issued expires = Ok c
    ∧ verify_at c now = Ok tt
    ∧ attestation_issue domain payload now device_seed c = Ok a
    ∧ attestation_verify a domain payload now' = Ok tt
    ∧ ∀ payload', blake3 payload' ≠ blake3 payload →
        attestation_verify a domain payload' now' = Err PayloadHashMismatch.
Proof.
  intros Hnow Hnow' Hlt Hl.
  set (c0 := unsigned_certificate root (device_public_key device_seed) l issued expires).
  set (c := set_root_signature (sign root (canonical_unsigned_bytes c0)) c0).
  assert (issue_device_certificate root (device_public_key device_seed) l issued expires = Ok c) as Hi
    by (by apply issue_certificate_ok).
  pose proof (issued_verifies _ _ _ _ _ _ _ Hi Hnow) as Hv.
  pose proof (issued_verifies _ _ _ _ _ _ _ Hi Hnow') as Hv'.
  assert (∃ a, attestation_issue domain payload now device_seed c = Ok a) as [a Ha].
  { eexists. by apply attestation_issue_Ok. }
  exists c, a. split; [done|]. split; [done|]. split; [done|]. split.
  - by eapply attestation_issue_verify.
  - intros payload' Hne. apply attestation_issue_Ok in Ha as (_ & _ & ->).
    unfold attestation_verify. cbn [att_certificate]. rewrite Hv'.
    cbn [map_err mbind result_bind]. unfold reject_if at 1. by rewrite bool_decide_false.
Qed.
End completeness.

(** ** A toy instance of the laws, for the examples *)
Definition toy_blake3 (bytes : list Z) : list Z := replicate 32 (sum_with (λ b, b) bytes mod 256).
Definition toy_key (seed : list Z) : list Z := take 32 (seed ++ replicate 32 0).
Definition toy_crypto : Crypto := {|
  blake3 := toy_blake3;
  verifying_key := toy_key;
  key_valid := λ k, bool_decide (length k = 32%nat);
  sign := λ k m, toy_key k ++ m;
  verify_sig := λ k m s, bool_decide (s = k ++ m);
|}.
Lemma toy_crypto_laws : @CryptoLaws toy_crypto.
Proof.
  split; simpl.
  - intros m. done.
  - intros k. unfold toy_key. rewrite length_take, length_app, length_replicate. lia.
  - intros k. apply bool_decide_true. unfold toy_key.
    rewrite length_take, length_app, length_replicate. lia.
  - intros k m. by apply bool_decide_true.
Qed.

(** A certified device, and what it attests. *)
Definition phone_certificate : DeviceCertificate :=
  let c := @unsigned_certificate toy_crypto [1] (@device_public_key toy_crypto [2]) "phone" 1000 900000 in
  set_root_signature (@sign toy_crypto [1] (canonical_unsigned_bytes c)) c.
Definition phone_attestation (domain bytes : list Z) : DeviceAttestation :=
  mkAttestation phone_certificate (toy_blake3 bytes)
    (@sign toy_crypto [2] (canonical_signing_bytes domain (toy_blake3 bytes))).

Lemma attestation_roundtrip_witness :
  ∃ c a, @issue_device_certificate toy_crypto [1] (@device_public_key toy_crypto [2]) "phone" 1000 2000
         = Ok c
    ∧ @verify_at toy_crypto c 1500 = Ok tt
    ∧ @attestation_issue toy_crypto [7] [8; 9] 1500 [2] c = Ok a
    ∧ @attestation_verify toy_crypto a [7] [8; 9] 1700 = Ok tt
    ∧ ∀ payload', toy_blake3 payload' ≠ toy_blake3 [8; 9] →
        @attestation_verify toy_crypto a [7] payload' 1700 = Err PayloadHashMismatch.
Proof.
  apply (@attestation_roundtrip toy_crypto toy_crypto_laws).
  - reflexivity.
  - reflexivity.
  - lia.
  - split; [reflexivity|vm_compute; congruence].
Defined.

Definition example_certificate : DeviceCertificate :=
  set_root_signature [1] (mkCertificate 1 (repeat_id 32 1) (replicate 32 2) (repeat_id 32 3) "phone" 1 2 []).

Lemma signed_bytes_inj_witness :
  set_root_signature [] example_certificate
  = set_root_signature [] (set_root_signature [] example_certificate)
  ∧ [7] = [7] ∧ replicate 32 5 = replicate 32 5.
Proof.
  destruct (signed_bytes_inj example_certificate (set_root_signature [] example_certificate) [7] [7]
    (replicate 32 5) (replicate 32 5)) as [H1 H2].
  split; [apply H1|apply H2]; try reflexivity; try (vm_compute; congruence);
    (split_and!; vm_compute; (reflexivity || congruence || (split; congruence))).
Defined.
