(* ===== verification/SignedReceipt.v ===== *)
(** * SignedReceipt: receipts signed by every player (receipt_signature.rs)

    Each participant signs the canonical bytes of the receipt with the device
    the receipt names; a co-signed receipt is accepted when every participant
    has signed exactly once. *)

From S2P Require Import Prelude Machine Encoding Order Ids Receipt Identity.

Definition RECEIPT_SIGNATURE_DOMAIN : list Z := domain_bytes "token-holdem/receipt-signature/v1".

Inductive SignedReceiptError :=
  | SrReceipt (e : ReceiptError) | SrCertificate (e : CertificateError)
  | CertificateDoesNotMatchDevice | PlayerMissingFromReceipt | ReceiptUsesDifferentDevice
  | DuplicatePlayerSignature (p : PlayerId) | UnexpectedSigner (p : PlayerId)
  | MissingSignatures (expected actual : nat) | ReceiptFromFuture (settled_at now : Z).

Record ParticipantSignature := mkParticipant {
  ps_certificate : DeviceCertificate;
  ps_signature : list Z;
}.
#[export] Instance ParticipantSignature_eq_dec : EqDecision ParticipantSignature.
Proof. solve_decision. Defined.
Record CoSignedReceipt := mkCoSigned {
  co_receipt : HandReceipt;
  co_signatures : list ParticipantSignature;
}.

(** [signature_message] and [validate_receipt_time]. *)
Definition signature_message (r : HandReceipt) : list Z :=
  RECEIPT_SIGNATURE_DOMAIN ++ receipt_canonical_bytes r.
Definition validate_receipt_time (r : HandReceipt) (now : Z) : result SignedReceiptError unit :=
  reject_if (negb (is_signed_time_not_future (settled_at_unix_ms r) now))
    (ReceiptFromFuture (settled_at_unix_ms r) now).

Section signing.
Context `{Crypto}.

(** [ParticipantSignature::create]. *)
Definition participant_create (r : HandReceipt) (device : list Z) (certificate : DeviceCertificate)
    (now : Z) : result SignedReceiptError ParticipantSignature :=
  _ ← map_err SrReceipt (receipt_validate r);
  _ ← map_err SrCertificate (verify_at certificate now);
  _ ← validate_receipt_time r now;
  _ ← map_err SrCertificate (verify_at certificate (settled_at_unix_ms r));
  _ ← reject_if (negb (bool_decide (cert_device certificate = device_public_key device)))
        CertificateDoesNotMatchDevice;
  outcome ← ok_or (outcome_for r (cert_player_id certificate)) PlayerMissingFromReceipt;
  _ ← reject_if (negb (bool_decide (out_device outcome = cert_device certificate)))
        ReceiptUsesDifferentDevice;
  Ok (mkParticipant certificate (sign device (signature_message r))).

(** [verify_for]. *)
Definition verify_for (p : ParticipantSignature) (r : HandReceipt) (now : Z)
    : result SignedReceiptError unit :=
  _ ← map_err SrReceipt (receipt_validate r);
  _ ← validate_receipt_time r now;
  _ ← map_err SrCertificate (verify_at (ps_certificate p) (settled_at_unix_ms r));
  let player_id := cert_player_id (ps_certificate p) in
  outcome ← ok_or (outcome_for r player_id) (UnexpectedSigner player_id);
  _ ← reject_if (negb (bool_decide (out_device outcome = cert_device (ps_certificate p))))
        ReceiptUsesDifferentDevice;
  map_err SrCertificate
    (verify_device_signature (ps_certificate p) (signature_message r) (ps_signature p)).

(** One round of the loop of [CoSignedReceipt::verify]. *)
Definition check_participant (r : HandReceipt) (now : Z) (expected : gmap PlayerId DevicePublicKey)
    (signed : gset PlayerId) (p : ParticipantSignature) : result SignedReceiptError (gset PlayerId) :=
  _ ← verify_for p r now;
  let player_id := cert_player_id (ps_certificate p) in
  if bool_decide (player_id ∈ signed) then Err (DuplicatePlayerSignature player_id) else
  expected_device ← ok_or (expected !! player_id) (UnexpectedSigner player_id);
  _ ← reject_if (negb (bool_decide (expected_device = cert_device (ps_certificate p))))
        ReceiptUsesDifferentDevice;
  Ok ({[player_id]} ∪ signed).

(** [CoSignedReceipt::verify]. *)
Definition cosigned_verify (c : CoSignedReceipt) (now : Z) : result SignedReceiptError unit :=
  _ ← map_err SrReceipt (receipt_validate (co_receipt c));
  let expected : gmap PlayerId DevicePublicKey :=
    list_to_map (map (λ o, (out_player o, out_device o)) (outcomes (co_receipt c))) in
  signed ← try_fold (check_participant (co_receipt c) now expected) ∅ (co_signatures c);
  reject_if (negb (size signed =? size expected)%nat)
    (MissingSignatures (size expected) (size signed)).
End signing.

(** ** What a signature shows *)
Section soundness.
Context `{Crypto}.

(** The signature of [p] stands for outcome [o] of the receipt. *)
Record signs_for (r : HandReceipt) (o : HandOutcome) (p : ParticipantSignature) : Prop := {
  sf_player : cert_player_id (ps_certificate p) = out_player o;
  sf_device : cert_device (ps_certificate p) = out_device o;
  sf_certificate : verify_at (ps_certificate p) (settled_at_unix_ms r) = Ok tt;
  sf_signature : verify_sig (as_bytes (out_device o)) (signature_message r) (ps_signature p) = true;
}.

Lemma verify_for_sound p r now :
  verify_for p r now = Ok tt →
  ∃ o, outcome_for r (cert_player_id (ps_certificate p)) = Some o ∧ signs_for r o p.
Proof.
  unfold verify_for. intros Hv. apply bind_Ok in Hv as (? & _ & Hv).
  apply bind_Ok in Hv as (? & _ & Hv). apply bind_Ok in Hv as ([] & Hc & Hv).
  apply bind_Ok in Hv as (o & Ho & Hv). apply bind_Ok in Hv as (? & Hd & Hs).
  inv_ok. bool_props. exists o. split; [done|]. unfold verify_device_signature in *. inv_ok. bool_props.
  destruct (outcome_for_sound _ _ _ Ho) as [_ Hp].
  split; [done|done|done|]. by rewrite Hd.
Qed.

Lemma verify_for_complete p r o now :
  receipt_validate r = Ok tt → is_signed_time_not_future (settled_at_unix_ms r) now = true →
  outcome_for r (cert_player_id (ps_certificate p)) = Some o → signs_for r o p →
  key_valid (as_bytes (out_device o)) = true →
  verify_for p r now = Ok tt.
Proof.
  intros Hv Ht Ho [Hp Hd Hc Hs] Hk. unfold verify_for, validate_receipt_time, reject_if.
  rewrite Hv, Ht, Hc, Ho. simpl. rewrite Hd, bool_decide_true by done. simpl.
  unfold verify_device_signature, reject_if. rewrite Hd, Hk. simpl. by rewrite Hs.
Qed.
End soundness.

Definition signer (p : ParticipantSignature) : PlayerId := cert_player_id (ps_certificate p).

Section cosigned.
Context `{Crypto}.
Context (r : HandReceipt) (now : Z).

Definition expected_devices : gmap PlayerId DevicePublicKey :=
  list_to_map (map (λ o, (out_player o, out_device o)) (outcomes r)).

Lemma expected_lookup o :
  receipt_wf r → o ∈ outcomes r → expected_devices !! out_player o = Some (out_device o).
Proof.
  intros Hw Ho. apply elem_of_list_to_map_1.
  - rewrite map_map. apply (sorted_lt_NoDup out_player), Hw.
  - apply list_elem_of_fmap. by exists o.
Qed.

Lemma expected_size : receipt_wf r → size expected_devices = length (outcomes r).
Proof.
  intros Hw. unfold expected_devices. rewrite map_size_list_to_map; [by rewrite length_map|].
  rewrite map_map. apply (sorted_lt_NoDup out_player), Hw.
Qed.

Lemma check_participants_ok sigs signed signed' :
  try_fold (check_participant r now expected_devices) signed sigs = Ok signed' ↔
  NoDup (map signer sigs) ∧ (∀ p, p ∈ sigs → signer p ∉ signed)
  ∧ Forall (λ p, verify_for p r now = Ok tt
                 ∧ expected_devices !! signer p = Some (cert_device (ps_certificate p))) sigs
  ∧ signed' = list_to_set (map signer sigs) ∪ signed.
Proof.
  revert signed; induction sigs as [|p sigs IH]; intros signed; cbn [try_fold map].
  { simpl. rewrite (left_id_L ∅ (∪)). split; [|naive_solver]. intros Hs. injection Hs as ->.
    split; [constructor|]. split; [set_solver|]. split; [constructor|done]. }
  rewrite NoDup_cons, Forall_cons, bind_Ok.
  assert (∀ x, check_participant r now expected_devices signed p = Ok x ↔
    verify_for p r now = Ok tt ∧ signer p ∉ signed
    ∧ expected_devices !! signer p = Some (cert_device (ps_certificate p))
    ∧ x = {[signer p]} ∪ signed) as Hone.
  { intros x. unfold check_participant. fold (signer p). split.
    - intros Hc. apply bind_Ok in Hc as ([] & Hv & Hc). case_bool_decide; [done|].
      apply bind_Ok in Hc as (d & Hd & Hc). inv_ok. bool_props. by subst.
    - intros (Hv & Hn & Hd & ->). rewrite Hv. simpl. rewrite bool_decide_false by done.
      rewrite Hd. simpl. unfold reject_if. by rewrite bool_decide_true. }
  setoid_rewrite Hone. split.
  - intros (x & (Hv & Hn & Hd & ->) & (Hnd & Hfr & Hf & ->)%IH). split_and!; try done.
    + intros (q & Hq & Hin)%list_elem_of_fmap. specialize (Hfr q Hin). set_solver.
    + intros q [->|Hq]%elem_of_cons; [done|]. specialize (Hfr q Hq). set_solver.
    + rewrite list_to_set_cons. set_solver.
  - intros ([Hnp Hnd] & Hfr & [[Hv Hd] Hf] & ->). exists ({[signer p]} ∪ signed).
    split; [split_and!; [done|apply Hfr; set_solver|done|done]|]. apply IH. split_and!; try done.
    + intros q Hq. rewrite not_elem_of_union, not_elem_of_singleton. split; [|apply Hfr; set_solver].
      intros E. apply Hnp. rewrite <-E. by apply (list_elem_of_fmap_2 signer).
    + rewrite list_to_set_cons. set_solver.
Qed.

(** Verified signatures of all players, in any order, are enough. *)
Lemma cosigned_verify_intro sigs :
  amounts_ok (outcomes r) → receipt_validate r = Ok tt →
  map signer sigs ≡ₚ map out_player (outcomes r) → Forall (λ p, verify_for p r now = Ok tt) sigs →
  cosigned_verify (mkCoSigned r sigs) now = Ok tt.
Proof.
  intros Ham Hv Hp Hf. rewrite Forall_forall in Hf.
  pose proof (proj1 (receipt_validate_ok r Ham) Hv) as Hw.
  pose proof (sorted_lt_NoDup out_player _ (rcw_sorted _ Hw)) as Hnd.
  assert (NoDup (map signer sigs)) as Hnds by (by rewrite Hp).
  assert (try_fold (check_participant r now expected_devices) ∅ sigs
    = Ok (list_to_set (map signer sigs))) as Hfold.
  { apply check_participants_ok. split; [done|]. split; [set_solver|].
    split; [|by rewrite (right_id_L ∅ (∪))]. apply Forall_forall. intros p Hpin. split; [by apply Hf|].
    destruct (verify_for_sound _ _ _ (Hf p Hpin)) as (o & Ho & Hsf).
    fold (signer p) in Ho. destruct (outcome_for_sound _ _ _ Ho) as [Hin <-].
    rewrite (expected_lookup o Hw Hin). f_equal. symmetry. apply Hsf. }
  unfold cosigned_verify. cbn [co_receipt co_signatures]. rewrite Hv.
  cbn [map_err mbind result_bind]. fold expected_devices. rewrite Hfold.
  cbn [mbind result_bind]. unfold reject_if.
  rewrite size_list_to_set by done. rewrite (expected_size Hw), length_map.
  apply Permutation_length in Hp. rewrite !length_map in Hp. rewrite Hp, Nat.eqb_refl. done.
Qed.

(** C20: A co-signed receipt that verifies is signed by everybody: the receipt is
    a valid zero-sum settlement, there are as many signatures as players, and
    for every outcome exactly one signature is by its player, made with the
    device the outcome names and certified by the player's root key, over
    bytes that determine the receipt. *)
Theorem cosigned_sound sigs :
  amounts_ok (outcomes r) → cosigned_verify (mkCoSigned r sigs) now = Ok tt →
  receipt_wf r ∧ map signer sigs ≡ₚ map out_player (outcomes r)
  ∧ ∀ o, o ∈ outcomes r → ∃ p, p ∈ sigs ∧ signs_for r o p
      ∧ ∀ q, q ∈ sigs → signer q = out_player o → q = p.
Proof.
  intros Ham Hv. unfold cosigned_verify in Hv. cbn [co_receipt co_signatures] in Hv.
  fold expected_devices in Hv.
  apply bind_Ok in Hv as ([] & Hw & Hv). apply bind_Ok in Hv as (signed & Hs & Hv).
  apply map_err_Ok, receipt_validate_ok in Hw; [|done].
  apply check_participants_ok in Hs as (Hnd & _ & Hf & ->). inv_ok. bool_props.
  rewrite (right_id_L ∅ (∪)), size_list_to_set, expected_size, length_map in Hv by done.
  rewrite Forall_forall in Hf.
  assert (map signer sigs ≡ₚ map out_player (outcomes r)) as Hp.
  { apply submseteq_length_Permutation; [|rewrite !length_map; lia].
    apply NoDup_submseteq; [done|]. intros x (p & -> & Hp)%list_elem_of_fmap.
    destruct (Hf p Hp) as [Hvp _]. destruct (verify_for_sound _ _ _ Hvp) as (o & Ho & _).
    apply outcome_for_sound in Ho as [Hin Ho]. unfold signer. rewrite <-Ho.
    by apply (list_elem_of_fmap_2 out_player). }
  split; [done|]. split; [done|]. intros o Ho.
  assert (out_player o ∈ map signer sigs) as (p & Hpo & Hps)%list_elem_of_fmap
    by (rewrite Hp; by apply (list_elem_of_fmap_2 out_player)).
  exists p. split; [done|]. split.
  - destruct (Hf p Hps) as [Hvp _]. destruct (verify_for_sound _ _ _ Hvp) as (o' & Ho' & Hsf).
    change (outcome_for r (signer p) = Some o') in Ho'. rewrite <-Hpo in Ho'.
    rewrite (outcome_for_found r o) in Ho' by done. by simplify_eq.
  - intros q Hq Hqo. apply (NoDup_key_eq signer sigs); [done..|congruence].
Qed.
End cosigned.

Section roundtrip.
Context `{CryptoLaws}.

Lemma create_sound r seed c now p :
  participant_create r seed c now = Ok p →
  ∃ o, outcome_for r (cert_player_id c) = Some o ∧ signs_for r o p ∧ signer p = cert_player_id c
    ∧ key_valid (as_bytes (out_device o)) = true ∧ receipt_validate r = Ok tt.
Proof.
  unfold participant_create. intros Hc. apply bind_Ok in Hc as ([] & Hv & Hc).
  apply bind_Ok in Hc as (? & _ & Hc). apply bind_Ok in Hc as (? & _ & Hc).
  apply bind_Ok in Hc as ([] & Hcert & Hc). inv_ok. bool_props.
  match goal with Ho : outcome_for r _ = Some ?o |- _ => exists o; rename Ho into Hout end.
  destruct (outcome_for_sound _ _ _ Hout) as [_ Hp].
  match goal with Hd : cert_device c = device_public_key seed, Ho : out_device _ = cert_device c |- _ =>
    rewrite Hd in Ho; rename Ho into Hdev; rename Hd into Hcd end.
  split; [done|]. split; [|split; [done|split; [|done]]].
  - split; cbn [ps_certificate ps_signature]; [done|congruence|done|].
    rewrite Hdev. simpl. apply sign_verifies.
  - rewrite Hdev. simpl. apply verifying_key_valid.
Qed.

(** Signing completes.  When every player of a receipt has created a
    signature, in whatever order they are collected, the co-signed receipt
    verifies at any time that is not before the settlement. *)
Theorem cosigned_complete r sigs now :
  amounts_ok (outcomes r) → map signer sigs ≡ₚ map out_player (outcomes r) →
  Forall (λ p, ∃ seed c t, participant_create r seed c t = Ok p) sigs → outcomes r ≠ [] →
  is_signed_time_not_future (settled_at_unix_ms r) now = true →
  cosigned_verify (mkCoSigned r sigs) now = Ok tt.
Proof.
  intros Ham Hp Hf Hne Ht. rewrite Forall_forall in Hf.
  assert (receipt_validate r = Ok tt) as Hv.
  { destruct sigs as [|p sigs].
    - apply Permutation_nil_l in Hp. by destruct (outcomes r).
    - destruct (Hf p) as (seed & c & t & Hc); [set_solver|]. by apply create_sound in Hc as (? & _ & _ & _ & _ & ?). }
  apply cosigned_verify_intro; [done..|]. apply Forall_forall. intros p Hpin.
  destruct (Hf p Hpin) as (seed & c & t & Hc).
  destruct (create_sound _ _ _ _ _ Hc) as (o & Ho & Hsf & Hsg & Hk & _).
  eapply verify_for_complete; [done|done| |done|done]. fold (signer p). by rewrite Hsg.
Qed.
End roundtrip.

(** ** Two players sign a receipt *)
Definition toy_cert (root device : Z) : DeviceCertificate :=
  match @issue_device_certificate toy_crypto [root] (@device_public_key toy_crypto [device])
          "laptop" 1000 900000 with
  | Ok c => c | _ => example_certificate
  end.
Definition toy_receipt : HandReceipt :=
  mkReceipt 1 (repeat_id 16 1) 1 "10k-20k" (repeat_id 32 9) 5000
    (sort_by_key out_player
       [mkOutcome (@root_player_id toy_crypto [1]) (@device_public_key toy_crypto [3]) 500 650;
        mkOutcome (@root_player_id toy_crypto [2]) (@device_public_key toy_crypto [4]) 800 650]).
Definition toy_signature (root device : Z) : ParticipantSignature :=
  mkParticipant (toy_cert root device)
    (@sign toy_crypto [device] (signature_message toy_receipt)).
Definition toy_signatures : list ParticipantSignature := [toy_signature 2 4; toy_signature 1 3].

Lemma toy_receipt_amounts : amounts_ok (outcomes toy_receipt).
Proof. apply (bool_decide_unpack _). vm_compute. exact I. Qed.

Lemma cosigned_sound_witness :
  receipt_wf toy_receipt ∧ map signer toy_signatures ≡ₚ map out_player (outcomes toy_receipt)
  ∧ ∀ o, o ∈ outcomes toy_receipt → ∃ p, p ∈ toy_signatures ∧ @signs_for toy_crypto toy_receipt o p
      ∧ ∀ q, q ∈ toy_signatures → signer q = out_player o → q = p.
Proof.
  apply (@cosigned_sound toy_crypto toy_receipt 6000).
  - apply toy_receipt_amounts.
  - vm_compute. reflexivity.
Defined.

Lemma cosigned_complete_witness :
  @cosigned_verify toy_crypto (mkCoSigned toy_receipt toy_signatures) 6000 = Ok tt.
Proof.
  apply (@cosigned_complete toy_crypto toy_crypto_laws).
  - apply toy_receipt_amounts.
  - apply (bool_decide_unpack _). vm_compute. exact I.
  - apply Forall_cons. split; [|apply Forall_cons; split; [|constructor]].
    + exists [4], (toy_cert 2 4), 5500. vm_compute. reflexivity.
    + exists [3], (toy_cert 1 3), 5500. vm_compute. reflexivity.
  - done.
  - vm_compute. reflexivity.
Defined.
