(* ===== verification/UseCases.v ===== *)
(** * UseCases: the application layer (token-holdem-application)

    Joining a table, turning a settlement into a receipt, and publishing a
    co-signed receipt.  The ports (token source, remote store) and the JSON
    serializer are external: they are classes and parameters. *)

From S2P Require Import Prelude Machine Order Ids Table Cards Holdem HoldemInv HoldemAct Showdown.
From S2P Require Import Receipt Identity SignedReceipt.

(** ** Ports (ports.rs) and content addresses (content.rs) *)
Inductive StoreError := Unavailable (reason : string) | Rejected (reason : string) | IntegrityMismatch.

Definition ContentAddress : Type := ident TagContent.
#[export] Instance ContentAddress_eq_dec : EqDecision ContentAddress := ident_eq_dec _.
Definition from_content `{Crypto} (content : list Z) : ContentAddress := Ident (blake3 content).
Record ReplicatedContent := mkReplicated { address : ContentAddress; confirmed_replicas : Z }.

Class AccountTokenSource := {
  latest_snapshot : result StoreError OfficialTokenSnapshot;
}.
Class RemoteEventStore := {
  put : list Z → result StoreError ReplicatedContent;
  get : ContentAddress → result StoreError (option (list Z));
}.

(** ** Joining a table (join_table.rs) *)
Inductive JoinTableError := TokenSource (e : StoreError) | BuyIn (e : BuyInError).
Record JoinTableResult := mkJoined {
  joined_level : StakeLevel;
  joined_snapshot : OfficialTokenSnapshot;
  joined_stack : TableStack;
}.
Definition join_table `{AccountTokenSource} (l : StakeLevel) (buy_in : Chips)
    : result JoinTableError JoinTableResult :=
  snapshot ← map_err TokenSource latest_snapshot;
  stack ← map_err BuyIn (TableStack_open l snapshot buy_in);
  Ok (mkJoined l snapshot stack).

(** ** Creating a receipt (create_hand_receipt.rs) *)
Record CreateHandReceiptRequest := mkRequest {
  req_match_id : MatchId;
  req_hand_number : Z;
  req_stake_level_id : string;
  req_transcript_hash : TranscriptHash;
  req_settled_at : Z;
  participant_devices : gmap PlayerId DevicePublicKey;
  req_settlement : HoldemSettlement;
}.
Inductive CreateReceiptError :=
  | ParticipantSetMismatch | MissingDevice (p : PlayerId) | CreateReceipt (e : ReceiptError).

Definition outcome_of (devices : gmap PlayerId DevicePublicKey) (s : PlayerSettlement)
    : result CreateReceiptError HandOutcome :=
  device ← ok_or (devices !! settled_player s) (MissingDevice (settled_player s));
  Ok (mkOutcome (settled_player s) device (settled_starting s) (settled_ending s)).
Definition create_hand_receipt (r : CreateHandReceiptRequest) : result CreateReceiptError HandReceipt :=
  _ ← reject_if (negb (size (participant_devices r) =? length (settled_players (req_settlement r)))%nat)
        ParticipantSetMismatch;
  outcomes ← try_collect (outcome_of (participant_devices r)) (settled_players (req_settlement r));
  map_err CreateReceipt
    (settle (req_match_id r) (req_hand_number r) (req_stake_level_id r) (req_transcript_hash r)
       (req_settled_at r) outcomes).

(** ** Publishing a receipt (publish_receipt.rs) *)
Inductive PublishReceiptError :=
  | InvalidReplicationPolicy | InvalidReceipt (e : SignedReceiptError) | Serialization (reason : string)
  | Store (e : StoreError) | InsufficientReplicas (required confirmed : Z).
Record ReplicationPolicy := mkPolicy { minimum_confirmed_replicas : Z }.
Definition ReplicationPolicy_new (minimum : Z) : result PublishReceiptError ReplicationPolicy :=
  _ ← reject_if (minimum =? 0) InvalidReplicationPolicy;
  Ok (mkPolicy minimum).

Definition publish_receipt `{Crypto, RemoteEventStore}
    (to_json : CoSignedReceipt → result string (list Z)) (policy : ReplicationPolicy)
    (receipt : CoSignedReceipt) (now : Z) : result PublishReceiptError ReplicatedContent :=
  _ ← map_err InvalidReceipt (cosigned_verify receipt now);
  content ← map_err Serialization (to_json receipt);
  let expected_address := from_content content in
  replicated ← map_err Store (put content);
  _ ← reject_if (negb (bool_decide (address replicated = expected_address))) (Store IntegrityMismatch);
  _ ← reject_if (confirmed_replicas replicated <? minimum_confirmed_replicas policy)
        (InsufficientReplicas (minimum_confirmed_replicas policy) (confirmed_replicas replicated));
  Ok replicated.

(** ** Joining *)

(** A player joins a table exactly when the fresh token snapshot can be read
    and the buy-in lies in the level's range and does not exceed the tokens of
    that snapshot; the stack then is the buy-in. *)
Theorem join_table_spec `{AccountTokenSource} l buy_in j :
  join_table l buy_in = Ok j ↔
  ∃ snapshot, latest_snapshot = Ok snapshot
    ∧ minimum_buy_in l <= buy_in <= maximum_buy_in l ∧ buy_in <= lifetime_tokens snapshot
    ∧ j = mkJoined l snapshot (mkTableStack buy_in 0).
Proof.
  unfold join_table. rewrite bind_Ok. setoid_rewrite map_err_Ok. split.
  - intros (sn & Hs & Hj). apply bind_Ok in Hj as (st & Ho%map_err_Ok & [= <-]).
    unfold TableStack_open in Ho. apply bind_Ok in Ho as (u & Hv & [= <-]). destruct u.
    apply validate_buy_in_Ok in Hv. exists sn. split; [done|]. split; [lia|]. split; [lia|done].
  - intros (sn & Hs & H1 & H2 & ->). exists sn. split; [done|]. unfold TableStack_open.
    rewrite (proj2 (validate_buy_in_Ok _ _ _ tt)); [done|lia].
Qed.

(** ** Publishing *)

(** A receipt counts as published only when every participant's signature
    verifies, the store holds exactly its bytes (the address it returns is the
    hash of what was sent) and enough replicas confirmed it. *)
Lemma publish_receipt_Ok `{Crypto, RemoteEventStore} to_json policy receipt now replicated :
  publish_receipt to_json policy receipt now = Ok replicated ↔
  cosigned_verify receipt now = Ok tt
  ∧ ∃ content, to_json receipt = Ok content ∧ put content = Ok replicated
      ∧ address replicated = from_content content
      ∧ minimum_confirmed_replicas policy <= confirmed_replicas replicated.
Proof.
  unfold publish_receipt. split.
  - intros Hp. apply bind_Ok in Hp as ([] & Hv%map_err_Ok & Hp).
    apply bind_Ok in Hp as (content & Hc%map_err_Ok & Hp). apply bind_Ok in Hp as (x & Hx%map_err_Ok & Hp).
    apply bind_Ok in Hp as (? & Ha & Hp). apply bind_Ok in Hp as (? & Hr & [= ->]).
    inv_ok. bool_props. split; [done|]. exists content. split_and!; [done|done|done|lia].
  - intros (Hv & content & Hc & Hput & Ha & Hr). rewrite Hv, Hc. simpl. rewrite Hput. simpl.
    unfold reject_if. rewrite bool_decide_true by done. simpl.
    by replace (confirmed_replicas replicated <? minimum_confirmed_replicas policy) with false by lia.
Qed.

(** ** From a finished hand to its receipt *)

(** What the betting engine hands over. *)
Record settlement_ok (st : HoldemSettlement) : Prop := {
  so_count : (2 <= length (settled_players st))%nat;
  so_players : NoDup (map settled_player (settled_players st));
  so_amounts : Forall (λ s, is_u64 (settled_starting s) ∧ is_u64 (settled_ending s))
                 (settled_players st);
  so_length : Z.of_nat (length (settled_players st)) <= u64_max;
  so_zero_sum : sum_with settled_starting (settled_players st)
                = sum_with settled_ending (settled_players st);
}.

(** Every player started with at least a big blind, so the funds bound the players. *)
Lemma player_count_bound h : hand_core h → Z.of_nat (player_count h) <= u64_max.
Proof.
  intros Hc. pose proof (hc_funds _ Hc) as Hf. pose proof (hc_level _ Hc) as Hl. pose proof (hc_bet _ Hc).
  transitivity (bankroll h); [|lia]. unfold bankroll, player_count.
  transitivity (sum_with (λ _, 1) (seats h)); [rewrite sum_with_const; lia|].
  apply sum_with_le. intros s [i Hi]%list_elem_of_lookup. pose proof (seat_ok_lookup h i s Hc Hi) as Hok.
  unfold seat_ok in Hok. unfold level_wf in Hl. lia.
Qed.

(** A settlement that pays [g] on top of the stacks of a hand, where the
    payouts are the pot. *)
Lemma paid_settlement_ok h g :
  hand_core h → (2 <= player_count h)%nat →
  sum_with (λ s, g (seat_player s)) (seats h) = total_pot h →
  (∀ s, s ∈ seats h → 0 <= g (seat_player s)) →
  settlement_ok (mkHoldemSettlement (map settle_seat (seats (pay_out g h)))).
Proof.
  intros Hc Hn Hsum Hg. pose proof (hand_core_funds h Hc) as Hf. pose proof (hc_funds _ Hc) as Hfit.
  unfold pay_out; split; simpl.
  - by rewrite !length_map.
  - rewrite !map_map. apply Hc.
  - rewrite map_map. apply Forall_map, Forall_forall. intros s Hs. simpl.
    pose proof (hand_core_nonneg h s Hc Hs). pose proof (bankroll_elem h s Hc Hs).
    apply list_elem_of_lookup in Hs as [i Hi]. pose proof (seat_ok_lookup h i s Hc Hi) as Hok.
    destruct Hok as (_ & _ & _ & Hok & _).
    assert (s ∈ seats h) as Hs by (by eapply list_elem_of_lookup_2).
    assert (g (seat_player s) <= total_pot h).
    { rewrite <-Hsum. by apply (sum_with_elem_le (λ s, g (seat_player s))). }
    assert (stack s <= chips_behind h).
    { apply (sum_with_elem_le stack); [|done]. intros; by eapply hand_core_nonneg. }
    pose proof (Hg s Hs) as Hgs. unfold is_u64. clear Hsum Hg. split; lia.
  - rewrite !length_map. by apply player_count_bound.
  - rewrite map_map, !sum_with_map. simpl. rewrite sum_with_add, Hsum.
    symmetry. exact (hand_core_funds h Hc).
Qed.

Lemma contenders_count h : (length (remaining_contenders h) <= player_count h)%nat.
Proof. unfold remaining_contenders, player_count. rewrite length_map. apply length_filter. Qed.

Lemma showdown_settlement_ok h board holes st h' :
  at_showdown h → settle_showdown board holes h = (Ok st, h') → settlement_ok st.
Proof.
  intros Hsd Hset. destruct (showdown_ranks h board holes) as [ranks| |] eqn:Hr;
    [|unfold settle_showdown in Hset; rewrite run_bind in Hset; cbn [gets id] in Hset;
      rewrite run_bind in Hset; cbn [lift] in Hset; rewrite Hr in Hset; done..].
  destruct (decide (settles h)) as [Hs|Hs].
  - rewrite (settle_showdown_ok h board holes ranks Hsd Hr Hs) in Hset. simplify_eq.
    destruct (layers_paid h board holes ranks Hsd Hr Hs) as (_ & G & N).
    apply paid_settlement_ok; [apply Hsd| |exact G|auto].
    pose proof (sd_contenders _ Hsd). pose proof (contenders_count h). lia.
  - destruct (settle_showdown_err h board holes ranks Hsd Hr Hs) as [h1 E]. congruence.
Qed.

Lemma fold_settlement_ok h p a st h' :
  betting h → act p a h = (Ok (HandComplete st), h') → settlement_ok st.
Proof.
  intros Hb Ha. pose proof (act_spec h p a Hb) as Hr. rewrite Ha in Hr.
  inversion Hr as [| |i s h1 ? ? Hi Hs Hsp Hleg Hpg E Ht]; simplify_eq.
  destruct Ht as [_ (_ & w & Hw & Hst & _)]. pose proof (pg_core _ _ _ _ Hpg) as Hc.
  assert (w ∈ remaining_contenders h1) as Hin by (rewrite Hw; set_solver).
  unfold remaining_contenders in Hin. apply list_elem_of_fmap in Hin as (t & -> & Ht).
  apply list_elem_of_filter in Ht as [_ Ht].
  set (g := λ q, if decide (q = seat_player t) then total_pot h1 else 0).
  assert (0 <= total_pot h1) as Hpot
    by (apply sum_with_nonneg; intros; by eapply hand_core_nonneg).
  replace st with (mkHoldemSettlement (map settle_seat (seats (pay_out g h1)))).
  - apply paid_settlement_ok; [done| | |].
    + rewrite (same_table_length _ _ (pg_table _ _ _ _ Hpg)).
      pose proof (bt_contenders _ Hb). pose proof (contenders_count h). lia.
    + apply (sum_with_key seat_player (λ _, total_pot h1)); [apply Hc|done].
    + intros x _. unfold g. case_decide; [done|lia].
  - destruct st as [ps]. simpl in Hst. f_equal. rewrite Hst. unfold pay_out; simpl. rewrite map_map.
    apply map_ext_in. intros x Hx%list_elem_of_In. apply list_elem_of_lookup in Hx as [k Hk].
    pose proof (seat_ok_lookup h1 k x Hc Hk) as Hok. unfold seat_ok in Hok.
    unfold settle_seat, uncontested_result, grant, g; simpl. case_decide; f_equal; lia.
Qed.

(** A hand [h] ends with settlement [st]: the last fold, or the showdown. *)
Inductive hand_result (h : HoldemHand) (st : HoldemSettlement) : Prop :=
  | by_fold p a h' : betting h → act p a h = (Ok (HandComplete st), h') → hand_result h st
  | by_showdown board holes h' :
      at_showdown h → settle_showdown board holes h = (Ok st, h') → hand_result h st.

Lemma hand_result_ok h st : hand_result h st → settlement_ok st.
Proof. intros [p a h' Hb Ha|board holes h' Hs Ht]; eauto using fold_settlement_ok, showdown_settlement_ok. Qed.

(** One device per player of the settlement, none shared. *)
Record devices_ok (devices : gmap PlayerId DevicePublicKey) (st : HoldemSettlement) : Prop := {
  dv_players : dom devices = list_to_set (map settled_player (settled_players st));
  dv_inj : ∀ p q d, devices !! p = Some d → devices !! q = Some d → p = q;
}.

Lemma outcome_of_Ok devices s o :
  outcome_of devices s = Ok o ↔
  ∃ d, devices !! settled_player s = Some d
    ∧ o = mkOutcome (settled_player s) d (settled_starting s) (settled_ending s).
Proof.
  unfold outcome_of. rewrite bind_Ok. split.
  - intros (d & Hd & [= <-]). exists d. split; [|done]. destruct (devices !! _); by inversion Hd.
  - intros (d & Hd & ->). exists d. by rewrite Hd.
Qed.

Section outcomes.
Context (devices : gmap PlayerId DevicePublicKey) (ps : list PlayerSettlement).
Notation st := (mkHoldemSettlement ps).
Context (os : list HandOutcome) (Hos : Forall2 (λ s o, outcome_of devices s = Ok o) ps os).

Lemma outcomes_map {B} (f : PlayerSettlement → B) (g : HandOutcome → B) :
  (∀ s o, outcome_of devices s = Ok o → f s = g o) → map f ps = map g os.
Proof. intros Hfg. induction Hos as [|s o l k Ho Hl IH]; simpl; [done|]. by rewrite (Hfg s o Ho), IH. Qed.

Lemma outcomes_sum (f : PlayerSettlement → Z) (g : HandOutcome → Z) :
  (∀ s o, outcome_of devices s = Ok o → f s = g o) → sum_with f ps = sum_with g os.
Proof.
  intros Hfg. rewrite <-(sum_with_map (λ z, z) f), <-(sum_with_map (λ z, z) g).
  by rewrite (outcomes_map f g Hfg).
Qed.

Lemma outcomes_devices :
  (∀ p q d, devices !! p = Some d → devices !! q = Some d → p = q) →
  NoDup (map settled_player ps) → NoDup (map out_device os).
Proof.
  intros Hinj. induction Hos as [|s o l k Ho Hl IH]; simpl; [constructor|].
  rewrite !NoDup_cons. intros [Hs Hnd]. split; [|auto]. intros Hin. apply Hs.
  apply outcome_of_Ok in Ho as (d & Hd & ->). simpl in Hin.
  apply list_elem_of_fmap in Hin as (o' & -> & Ho').
  apply list_elem_of_lookup in Ho' as [i Hi].
  destruct (Forall2_lookup_r _ _ _ _ _ Hl Hi) as (s' & Hs' & (d' & Hd' & ->)%outcome_of_Ok).
  rewrite (Hinj _ _ _ Hd Hd'). apply list_elem_of_fmap_2. by eapply list_elem_of_lookup_2.
Qed.

Lemma outcomes_amounts : settlement_ok st → amounts_ok os.
Proof.
  intros [_ _ Ham Hlen _]. split; [|by rewrite <-(Forall2_length _ _ _ Hos)].
  apply Forall_forall. intros o [i Hi]%list_elem_of_lookup.
  destruct (Forall2_lookup_r _ _ _ _ _ Hos Hi) as (s & Hs & (d & _ & ->)%outcome_of_Ok).
  exact (Forall_lookup_1 _ _ _ _ Ham Hs).
Qed.

Lemma outcomes_settle mid n lvl th t :
  settlement_ok st → (∀ p q d, devices !! p = Some d → devices !! q = Some d → p = q) →
  trim_is_empty lvl = false →
  ∃ r, settle mid n lvl th t os = Ok r ∧ receipt_wf r ∧ outcomes r ≡ₚ os.
Proof.
  intros Hst Hinj Hlvl. pose proof (outcomes_amounts Hst) as Ham.
  assert (settle mid n lvl th t os = Ok (mkReceipt 1 mid n lvl th t (sort_by_key out_player os))) as Hr.
  { apply settle_ok; [done|]. split_and!; [done| | | | |done].
    - rewrite <-(Forall2_length _ _ _ Hos). apply Hst.
    - rewrite <-(outcomes_map settled_player out_player); [apply Hst|].
      by intros s o (d & _ & ->)%outcome_of_Ok.
    - apply outcomes_devices; [done|apply Hst].
    - rewrite <-(outcomes_sum settled_starting), <-(outcomes_sum settled_ending);
        [apply Hst|by intros s o (d & _ & ->)%outcome_of_Ok..]. }
  eexists. split; [exact Hr|]. split; [|apply sort_by_key_perm].
  apply receipt_validate_ok; [simpl; by rewrite sort_by_key_perm|].
  unfold settle in Hr. apply bind_Ok in Hr as (? & _ & Hr). apply bind_Ok in Hr as (? & _ & Hr).
  by apply bind_Ok in Hr as ([] & Hv & _).
Qed.
End outcomes.

Lemma outcomes_exist devices ps :
  (∀ s, s ∈ ps → settled_player s ∈ dom devices) →
  ∃ os, Forall2 (λ s o, outcome_of devices s = Ok o) ps os.
Proof.
  induction ps as [|s ps IH]; intros Hd; [by exists []|].
  destruct IH as [os Hos]; [set_solver|].
  assert (settled_player s ∈ dom devices) as [d Hs]%elem_of_dom by set_solver.
  eexists (_ :: os). constructor; [|done]. apply outcome_of_Ok. eauto.
Qed.

(** Every hand that ends, by folds or by a showdown, can be turned into a
    receipt as soon as each player has a device of its own: the receipt passes
    [validate], and [outcome_for] finds the chips each player started and ended
    with, exactly as the betting engine settled them. *)
Theorem hand_result_gives_receipt h st mid n lvl th t devices :
  hand_result h st → devices_ok devices st → trim_is_empty lvl = false →
  ∃ r, create_hand_receipt (mkRequest mid n lvl th t devices st) = Ok r
    ∧ receipt_validate r = Ok tt ∧ length (outcomes r) = length (settled_players st)
    ∧ ∀ s, s ∈ settled_players st →
        ∃ d, devices !! settled_player s = Some d
          ∧ outcome_for r (settled_player s)
            = Some (mkOutcome (settled_player s) d (settled_starting s) (settled_ending s)).
Proof.
  intros Hst%hand_result_ok [Hdom Hinj] Hlvl. destruct st as [ps]. unfold create_hand_receipt; simpl.
  destruct (outcomes_exist devices ps) as [os Hos].
  { intros s Hs. rewrite Hdom. apply elem_of_list_to_set, list_elem_of_fmap. eauto. }
  assert (size devices = length ps) as ->.
  { rewrite <-size_dom, Hdom, size_list_to_set by apply Hst. apply length_map. }
  rewrite Nat.eqb_refl. simpl. rewrite (proj2 (try_collect_Ok _ _ _) Hos). simpl.
  destruct (outcomes_settle devices _ os Hos mid n lvl th t Hst Hinj Hlvl) as (r & Hr & Hv & Hp).
  exists r. rewrite Hr. split; [done|]. split; [apply receipt_validate_ok; [|done]|split].
  - rewrite Hp. by eapply outcomes_amounts.
  - by rewrite Hp, (Forall2_length _ _ _ Hos).
  - intros s [i Hi]%list_elem_of_lookup.
    destruct (Forall2_lookup_l _ _ _ _ _ Hos Hi) as (o & Ho & (d & Hd & ->)%outcome_of_Ok).
    exists d. split; [done|]. apply (outcome_for_found r (mkOutcome _ d _ _) Hv). rewrite Hp.
    by eapply list_elem_of_lookup_2.
Qed.

(** Two players fold to the third, whose receipt is written. *)
Definition example_devices : gmap PlayerId DevicePublicKey :=
  {[example_player 1 := repeat_id 32 11; example_player 2 := repeat_id 32 12;
    example_player 3 := repeat_id 32 13]}.
Definition example_settlement : HoldemSettlement :=
  mkHoldemSettlement [mkSettlement (example_player 1) 800000 800000 0;
                      mkSettlement (example_player 2) 1200000 1190000 (-10000);
                      mkSettlement (example_player 3) 2000000 2010000 10000].
Definition example_request : CreateHandReceiptRequest :=
  mkRequest (repeat_id 16 1) 7 "micro" (repeat_id 32 2) 1000 example_devices example_settlement.

Lemma example_devices_ok : devices_ok example_devices example_settlement.
Proof.
  split; [vm_compute; reflexivity|]. intros p q d Hp Hq. unfold example_devices in *.
  rewrite !lookup_insert_Some, lookup_singleton_Some in Hp, Hq.
  destruct Hp as [[? ?]|[? [[? ?]|[? [? ?]]]]], Hq as [[? ?]|[? [[? ?]|[? [? ?]]]]];
    first [congruence | exfalso; subst; discriminate].
Qed.

Lemma hand_result_gives_receipt_witness :
  ∃ r, create_hand_receipt example_request = Ok r
    ∧ receipt_validate r = Ok tt ∧ length (outcomes r) = 3%nat
    ∧ ∀ s, s ∈ settled_players example_settlement →
        ∃ d, example_devices !! settled_player s = Some d
          ∧ outcome_for r (settled_player s)
            = Some (mkOutcome (settled_player s) d (settled_starting s) (settled_ending s)).
Proof.
  apply (hand_result_gives_receipt example_heads_up).
  - eapply (by_fold _ _ (example_player 2) Fold).
    + apply example_heads_up_betting.
    + vm_compute. reflexivity.
  - apply example_devices_ok.
  - vm_compute. reflexivity.
Defined.
