(* ===== verification/Wire.v ===== *)
(** * Wire: the documents of the archive (token-holdem-network wire.rs)

    What a node asks volunteer archive nodes to keep or to return, and their
    signed answers.  The messages between players are in [Room],
    [PoolProtocol] and [HandAction]. *)

From S2P Require Import Prelude Order Ids UseCases.

#[export] Instance ContentAddress_countable : Countable ContentAddress := ident_countable _.
#[export] Instance ContentAddress_ord : Ord ContentAddress := ident_ord _.
#[export] Instance ContentAddress_ord_laws : OrdLaws ContentAddress := ident_ord_laws _.

(** A locator: the 32 bytes under which an encrypted recovery package is kept. *)
Notation Locator := (list Z) (only parsing).

Record ArchiveRequest := mkArchiveRequest {
  request_address : ContentAddress;
  request_content : list Z;
  requested_seconds : Z;
}.
Record ArchiveResponse := mkArchiveResponse {
  response_address : ContentAddress;
  accepted_until_unix_ms : Z;
  response_node_key : list Z;
  response_node_signature : list Z;
}.
Record ArchiveFetchResponse := mkFetchResponse {
  fetch_address : ContentAddress;
  fetch_content : option (list Z);
  fetch_node_key : list Z;
  fetch_node_signature : list Z;
}.
Record ArchiveListResponse := mkListResponse {
  list_player : PlayerId;
  list_addresses : list ContentAddress;
  list_node_key : list Z;
  list_node_signature : list Z;
}.
Record RecoveryStoreRequest := mkRecoveryRequest {
  store_locator : Locator;
  store_envelope : list Z;
  store_seconds : Z;
}.
Record RecoveryStoreResponse := mkRecoveryStored {
  stored_locator : Locator;
  stored_until : Z;
  stored_node_key : list Z;
  stored_node_signature : list Z;
}.
Record RecoveryFetchResponse := mkRecoveryFetched {
  recovered_locator : Locator;
  recovered_envelope : option (list Z);
  recovered_node_key : list Z;
  recovered_node_signature : list Z;
}.
