(* ===== verification/Session.v ===== *)
(** * Session: endpoints and encodings shared by the signed network documents

    session_endpoint.rs and protocol_encoding.rs of token-holdem-network.  The
    libp2p types are external: a peer id is an abstract type, and its parser
    and that of a multi-address are operations of the class [Libp2p]. *)

From S2P Require Import Prelude Machine Encoding Order Ids Table TablePool Identity.

(** ** The external types and operations of libp2p *)

(** The protocols of a multi-address that the code looks at; an Ip4 host is its
    four octets, an Ip6 host its eight 16-bit segments. *)
Inductive Protocol (peer : Type) :=
  | Ip4 (first second third fourth : Z) | Ip6 (segments : list Z)
  | Dns (name : string) | Dns4 (name : string) | Dns6 (name : string) | Dnsaddr (name : string)
  | Tcp (port : Z) | P2p (p : peer) | P2pCircuit | OtherProtocol (code : Z).
Arguments Ip4 {_}. Arguments Ip6 {_}. Arguments Dns {_}. Arguments Dns4 {_}. Arguments Dns6 {_}.
Arguments Dnsaddr {_}. Arguments Tcp {_}. Arguments P2p {_}. Arguments P2pCircuit {_}.
Arguments OtherProtocol {_}.
#[export] Instance Protocol_eq_dec {peer} `{EqDecision peer} : EqDecision (Protocol peer).
Proof. solve_decision. Defined.

Class Libp2p := {
  PeerId : Type;
  PeerId_eq_dec :: EqDecision PeerId;
  PeerId_countable :: Countable PeerId;
  PeerId_ord :: Ord PeerId;
  OutboundRequestId : Type;
  OutboundRequestId_eq_dec :: EqDecision OutboundRequestId;
  OutboundRequestId_countable :: Countable OutboundRequestId;
  peer_id_from_bytes : list Z → option PeerId;
  peer_id_to_bytes : PeerId → list Z;
  multiaddr_from_bytes : list Z → option (list (Protocol PeerId));
  multiaddr_to_bytes : list (Protocol PeerId) → list Z;
}.
Definition Multiaddr `{Libp2p} : Type := list (Protocol PeerId).

(** What libp2p documents: peer ids are totally ordered, and are read back from
    their bytes. *)
Class Libp2pLaws `{Libp2p} : Prop := {
  PeerId_ord_laws :: OrdLaws PeerId;
  peer_id_roundtrip : ∀ p, peer_id_from_bytes (peer_id_to_bytes p) = Some p;
}.

Definition p2p_peer {peer} (protocol : Protocol peer) : option peer :=
  match protocol with P2p p => Some p | _ => None end.

(** ** [validate_session_endpoint] *)
Inductive SessionEndpointError := InvalidPeerId | InvalidAddresses | AddressPeerIdMismatch.

(** One address of the loop; [unique] is the set of the addresses seen. *)
Definition check_address `{Libp2p} (expected : PeerId) (unique : gset (list Z)) (raw : list Z)
    : result SessionEndpointError (gset (list Z)) :=
  _ ← reject_if ((length raw =? 0)%nat || (512 <? length raw)%nat || bool_decide (raw ∈ unique))
        InvalidAddresses;
  protocols ← ok_or (multiaddr_from_bytes raw) InvalidAddresses;
  _ ← reject_if (negb (bool_decide (last (omap p2p_peer protocols) = Some expected))) AddressPeerIdMismatch;
  Ok ({[raw]} ∪ unique).
Definition validate_session_endpoint `{Libp2p} (peer_id : list Z) (addresses : list (list Z))
    : result SessionEndpointError PeerId :=
  expected ← ok_or (peer_id_from_bytes peer_id) InvalidPeerId;
  _ ← reject_if ((length addresses =? 0)%nat || (8 <? length addresses)%nat) InvalidAddresses;
  _ ← try_fold (check_address expected) ∅ addresses;
  Ok expected.

(** ** The writers of protocol_encoding.rs (with [write_bytes] of Encoding) *)
Definition write_addresses (addresses : list (list Z)) : list Z :=
  enc_counted (λ n, be_bytes 4 (as_u32 n)) write_bytes addresses.
Definition write_level (l : StakeLevel) : list Z :=
  write_bytes (string_bytes (level_id l)) ++ be_bytes 8 (small_blind l) ++ be_bytes 8 (big_blind l)
  ++ be_bytes 8 (minimum_buy_in l) ++ be_bytes 8 (maximum_buy_in l)
  ++ [minimum_players l] ++ [maximum_players l].
Definition write_table_id (t : TableId) : list Z := as_bytes t.
Definition write_optional_hash (hash : option (list Z)) : list Z := enc_option (λ h, h) hash.

(** ** The endpoint check *)

Section endpoint.
Context `{Libp2p}.

(** An address of 1 to 512 bytes that ends at the peer. *)
Definition address_ok (expected : PeerId) (raw : list Z) : Prop :=
  (1 <= length raw <= 512)%nat
  ∧ ∃ protocols, multiaddr_from_bytes raw = Some protocols
      ∧ last (omap p2p_peer protocols) = Some expected.

(** 1 to 8 distinct addresses, all of the peer the document names. *)
Record endpoint_ok (peer_id : list Z) (addresses : list (list Z)) (expected : PeerId) : Prop := {
  ep_peer : peer_id_from_bytes peer_id = Some expected;
  ep_count : (1 <= length addresses <= 8)%nat;
  ep_distinct : NoDup addresses;
  ep_addresses : Forall (address_ok expected) addresses;
}.

Lemma check_address_Ok expected unique raw unique' :
  check_address expected unique raw = Ok unique' ↔
  address_ok expected raw ∧ raw ∉ unique ∧ unique' = {[raw]} ∪ unique.
Proof.
  unfold check_address, address_ok. split.
  - intros Hc. inv_ok. bool_props. simplify_eq. split; [|done]. split; [lia|]. eauto.
  - intros ([Hl (ps & Hp & Hlast)] & Hn & ->). rewrite Hp. unfold reject_if.
    rewrite (proj2 (Nat.eqb_neq _ _)), (proj2 (Nat.ltb_ge _ _)), bool_decide_false by (done || lia).
    simpl. by rewrite bool_decide_true.
Qed.

Lemma check_addresses_Ok expected addresses unique :
  is_ok (try_fold (check_address expected) unique addresses) = true ↔
  Forall (address_ok expected) addresses ∧ NoDup addresses ∧ ∀ a, a ∈ addresses → a ∉ unique.
Proof.
  revert unique. induction addresses as [|a l IH]; intros unique; cbn [try_fold].
  - split; [|done]. intros _. split; [done|]. split; [constructor|set_solver].
  - destruct (check_address expected unique a) as [u| |] eqn:Ha; simpl.
    + apply check_address_Ok in Ha as (Hok & Hnew & ->). rewrite IH, Forall_cons, NoDup_cons.
      split; [intros (? & ? & ?); set_solver|]. intros (? & [? ?] & ?). set_solver.
    + split; [done|]. rewrite Forall_cons, NoDup_cons. intros ([Hok _] & _ & Hnew).
      assert (check_address expected unique a = Ok ({[a]} ∪ unique)) as Ha'
        by (apply check_address_Ok; set_solver). congruence.
    + split; [done|]. rewrite Forall_cons, NoDup_cons. intros ([Hok _] & _ & Hnew).
      assert (check_address expected unique a = Ok ({[a]} ∪ unique)) as Ha'
        by (apply check_address_Ok; set_solver). congruence.
Qed.

Lemma validate_session_endpoint_Ok peer_id addresses expected :
  validate_session_endpoint peer_id addresses = Ok expected ↔ endpoint_ok peer_id addresses expected.
Proof.
  unfold validate_session_endpoint. split.
  - intros Hv. apply bind_Ok in Hv as (p & Hp & Hv). apply bind_Ok in Hv as (? & Hn & Hv).
    apply bind_Ok in Hv as (u & Hf & [= <-]). inv_ok. bool_props.
    assert (is_ok (try_fold (check_address p) ∅ addresses) = true) as Hok by (by rewrite Hf).
    apply check_addresses_Ok in Hok as (? & ? & _). split; [done|lia|done|done].
  - intros [Hp Hn Hd Ha]. rewrite Hp. cbn [ok_or mbind result_bind]. unfold reject_if.
    rewrite (proj2 (Nat.eqb_neq _ _)), (proj2 (Nat.ltb_ge _ _)) by lia.
    cbn [orb mbind result_bind].
    assert (is_ok (try_fold (check_address expected) ∅ addresses) = true) as Hok.
    { apply check_addresses_Ok. split; [done|]. split; [done|set_solver]. }
    destruct (try_fold (check_address expected) ∅ addresses); done.
Qed.
End endpoint.

(** ** The writers are injective *)

Definition addresses_fit (l : list (list Z)) : Prop :=
  0 <= Z.of_nat (length l) <= u32_max ∧ Forall short l.

Lemma prefix_inj_addresses : prefix_inj addresses_fit write_addresses.
Proof. exact (prefix_inj_counted _ _ _ _ prefix_inj_count_u32 prefix_inj_write_bytes). Qed.

Definition level_fits (l : StakeLevel) : Prop :=
  short (string_bytes (level_id l)) ∧ is_u64 (small_blind l) ∧ is_u64 (big_blind l)
  ∧ is_u64 (minimum_buy_in l) ∧ is_u64 (maximum_buy_in l).

Lemma prefix_inj_level : prefix_inj level_fits write_level.
Proof.
  intros x y r s (? & ? & ? & ? & ?) (? & ? & ? & ? & ?) Hb. unfold write_level in Hb.
  rewrite <-!(assoc_L (++)) in Hb. peel Hb prefix_inj_write_bytes.
  do 4 peel Hb prefix_inj_u64. do 2 peel Hb prefix_inj_u8. apply string_bytes_inj in E.
  destruct x, y; simplify_eq/=. done.
Qed.

Lemma prefix_inj_optional_hash :
  prefix_inj (λ o, ∀ h, o = Some h → bytes_of_len 32 h) write_optional_hash.
Proof. apply prefix_inj_option, prefix_inj_array. Qed.

(** The bytes of an endpoint that passed the check fit their length fields. *)
Lemma endpoint_fits `{Libp2p} peer_id addresses p :
  endpoint_ok peer_id addresses p → addresses_fit addresses.
Proof.
  intros [_ Hn _ Ha]. split; [unfold u32_max; lia|]. eapply Forall_impl; [exact Ha|].
  intros a [Hl _]. unfold short, u32_max. lia.
Qed.

(** ** Signed validity windows *)

(** A window of 1 to [maximum] milliseconds; its length cannot overflow. *)
Definition window_ok (created_at expires_at maximum : Z) : Prop :=
  0 < expires_at - created_at <= maximum.

(** The guard every document uses on its window. *)
Definition check_window {E} (created_at expires_at maximum : Z) (e : E) : result E unit :=
  lifetime ← ok_or (u64_checked_sub expires_at created_at) e;
  reject_if ((lifetime =? 0) || (maximum <? lifetime)) e.

Lemma check_window_Ok {E} created_at expires_at maximum (e : E) :
  check_window created_at expires_at maximum e = Ok tt ↔ window_ok created_at expires_at maximum.
Proof.
  unfold check_window, window_ok, u64_checked_sub. case_match; simpl; [rewrite reject_if_Ok|].
  - split; [intros; bool_props; lia|]. intros. apply orb_false_iff. lia.
  - split; [done|lia].
Qed.

(** A toy endpoint for the examples: a peer id is one byte, an address is a
    port (0 for none) and the peers on the way. *)
Definition toy_libp2p : Libp2p := {|
  PeerId := Z;
  PeerId_ord := Z_ord;
  OutboundRequestId := Z;
  peer_id_from_bytes := λ b, head b;
  peer_id_to_bytes := λ p, [p];
  multiaddr_from_bytes := λ b,
    match b with [] => None | port :: peers => Some ((if port =? 0 then [] else [Tcp port]) ++ map P2p peers) end;
  multiaddr_to_bytes := λ a, omap (λ x, match x with Tcp port => Some port | P2p p => Some p | _ => None end) a;
|}.
Lemma toy_libp2p_laws : @Libp2pLaws toy_libp2p.
Proof. split; [exact Z_ord_laws|done]. Qed.
