(* ===== verification/NetworkAddress.v ===== *)
(** * NetworkAddress: which addresses to publish and to dial (token-holdem-sidecar network_address.rs) *)

From S2P Require Import Prelude Machine Order Ids Identity Session.

(** ** The address classes of [std::net] *)
Definition ipv4_is_unspecified (a b c d : Z) : bool := (a =? 0) && (b =? 0) && (c =? 0) && (d =? 0).
Definition ipv4_is_loopback (a : Z) : bool := a =? 127.
Definition ipv4_is_private (a b : Z) : bool :=
  (a =? 10) || ((a =? 172) && (16 <=? b) && (b <=? 31)) || ((a =? 192) && (b =? 168)).
Definition ipv4_is_link_local (a b : Z) : bool := (a =? 169) && (b =? 254).
Definition ipv4_is_multicast (a : Z) : bool := (224 <=? a) && (a <=? 239).
Definition ipv4_is_broadcast (a b c d : Z) : bool :=
  (a =? 255) && (b =? 255) && (c =? 255) && (d =? 255).
Definition segment (segments : list Z) (i : nat) : Z := nth i segments 0.
Definition ipv6_is_unspecified (s : list Z) : bool := forallb (λ x, x =? 0) s.
Definition ipv6_is_loopback (s : list Z) : bool :=
  forallb (λ x, x =? 0) (take 7 s) && (segment s 7 =? 1).
Definition ipv6_is_multicast (s : list Z) : bool := Z.land (segment s 0) 0xff00 =? 0xff00.

Section addresses.
Context `{Libp2p}.

(** [is_public_ipv4], [is_public_ipv6], [is_public_host_protocol]. *)
Definition is_public_ipv4 (a b c d : Z) : bool :=
  negb (ipv4_is_unspecified a b c d) && negb (ipv4_is_loopback a) && negb (ipv4_is_private a b)
  && negb (ipv4_is_link_local a b) && negb (ipv4_is_multicast a) && negb (ipv4_is_broadcast a b c d)
  && negb ((a =? 100) && ((64 <=? b) && (b <=? 127)))
  && negb ((a =? 192) && (b =? 0) && (c =? 0))
  && negb ((a =? 192) && (b =? 0) && (c =? 2))
  && negb ((a =? 198) && ((18 <=? b) && (b <=? 19)))
  && negb ((a =? 198) && (b =? 51) && (c =? 100))
  && negb ((a =? 203) && (b =? 0) && (c =? 113))
  && (a <? 224).
Definition is_public_ipv6 (s : list Z) : bool :=
  negb (ipv6_is_unspecified s) && negb (ipv6_is_loopback s) && negb (ipv6_is_multicast s)
  && negb (Z.land (segment s 0) 0xfe00 =? 0xfc00)
  && negb (Z.land (segment s 0) 0xffc0 =? 0xfe80)
  && negb ((segment s 0 =? 0x2001) && (segment s 1 =? 0x0db8)).
Definition is_public_host_protocol (protocol : Protocol PeerId) : bool :=
  match protocol with
  | Dns _ | Dns4 _ | Dns6 _ | Dnsaddr _ => true
  | Ip4 a b c d => is_public_ipv4 a b c d
  | Ip6 s => is_public_ipv6 s
  | _ => false
  end.

(** [contains_relay_hop], [contains_private_host], [contains_loopback_host]. *)
Definition is_circuit (protocol : Protocol PeerId) : bool :=
  match protocol with P2pCircuit => true | _ => false end.
Definition contains_relay_hop (address : Multiaddr) : bool := existsb is_circuit address.
Definition contains_private_host (address : Multiaddr) : bool :=
  existsb (λ protocol, match protocol with
    | Ip4 a b _ _ => ipv4_is_private a b
    | Ip6 s => Z.land (segment s 0) 0xfe00 =? 0xfc00
    | _ => false
    end) address.
Definition contains_loopback_host (address : Multiaddr) : bool :=
  existsb (λ protocol, match protocol with
    | Ip4 a _ _ _ => ipv4_is_loopback a
    | Ip6 s => ipv6_is_loopback s
    | _ => false
    end) address.

(** [is_public_direct_address], [is_publishable_address]. *)
Definition is_public_direct_address (address : Multiaddr) : bool :=
  negb (contains_relay_hop address) && existsb is_public_host_protocol address.
Definition is_publishable_address (address : Multiaddr) : bool :=
  contains_relay_hop address || existsb is_public_host_protocol address.

(** [dial_priority]. *)
Definition is_tcp (protocol : Protocol PeerId) : bool :=
  match protocol with Tcp _ => true | _ => false end.
Definition dial_priority (address : Multiaddr) : Z * Z :=
  let reachability :=
    if contains_relay_hop address then 0
    else if is_public_direct_address address then 1
    else if contains_private_host address then 2
    else if contains_loopback_host address then 3
    else 4 in
  let transport := if existsb is_tcp address then 0 else 1 in
  (reachability, transport).

(** [preferred_dial_address]: the key is the priority, then the position. *)
Definition dial_key (entry : nat * Multiaddr) : Z * Z * Z :=
  let '(reachability, transport) := dial_priority entry.2 in (reachability, transport, Z.of_nat entry.1).
Definition preferred_dial_address (addresses : list Multiaddr) : option Multiaddr :=
  snd <$> min_by (λ x y, compare (dial_key x) (dial_key y)) (zip (seq 0 (length addresses)) addresses).

(** [should_initiate_peer_dial]. *)
Definition should_initiate_peer_dial (local remote : PeerId) : bool := ord_ltb local remote.

End addresses.

(** ** Public IPv4 addresses *)

(** The address as a 32-bit number, and the first and last number of the
    block [a.b.c.d/prefix]. *)
Definition ipv4_value (a b c d : Z) : Z := ((a * 256 + b) * 256 + c) * 256 + d.
Definition block (a b c d prefix : Z) : Z * Z :=
  let base := ipv4_value a b c d in (base, base + 2 ^ (32 - prefix) - 1).
Definition in_block (v : Z) (b : Z * Z) : Prop := b.1 <= v <= b.2.
(** The special-purpose blocks of the IANA registry that must not be published. *)
Definition reserved_blocks : list (Z * Z) :=
  [block 0 0 0 0 32; block 10 0 0 0 8; block 100 64 0 0 10; block 127 0 0 0 8; block 169 254 0 0 16;
   block 172 16 0 0 12; block 192 0 0 0 24; block 192 0 2 0 24; block 192 168 0 0 16;
   block 198 18 0 0 15; block 198 51 100 0 24; block 203 0 113 0 24; block 224 0 0 0 3].

Lemma reserved_blocks_values :
  reserved_blocks =
  [(0, 0); (167772160, 184549375); (1681915904, 1686110207); (2130706432, 2147483647);
   (2851995648, 2852061183); (2886729728, 2887778303); (3221225472, 3221225727);
   (3221225984, 3221226239); (3232235520, 3232301055); (3323068416, 3323199487);
   (3325256704, 3325256959); (3405803776, 3405804031); (3758096384, 4294967295)].
Proof. reflexivity. Qed.

Lemma negb_block (excluded : bool) (v lo hi : Z) :
  (excluded = true ↔ lo <= v <= hi) → negb excluded = true ↔ ¬ lo <= v <= hi.
Proof. destruct excluded; naive_solver. Qed.

(** The test for a public IPv4 host is arithmetic on the address: an
    address of four octets is public if and only if, as a 32-bit number, it
    lies in none of thirteen reserved blocks (this host, private use, shared
    address space, loopback, link local, protocol assignments, documentation,
    benchmarking, multicast and everything above). *)
Theorem public_ipv4_blocks a b c d :
  0 <= a < 256 → 0 <= b < 256 → 0 <= c < 256 → 0 <= d < 256 →
  is_public_ipv4 a b c d = true ↔ Forall (λ blk, ¬ in_block (ipv4_value a b c d) blk) reserved_blocks.
Proof.
  intros Ha Hb Hc Hd. rewrite reserved_blocks_values, !Forall_cons, Forall_nil.
  unfold in_block, is_public_ipv4. set (v := ipv4_value a b c d). cbn [fst snd].
  assert (v = ((a * 256 + b) * 256 + c) * 256 + d) as Hv by done. clearbody v.
  rewrite !andb_true_iff.
  rewrite (negb_block (ipv4_is_unspecified a b c d) v 0 0) by (unfold ipv4_is_unspecified; lia).
  rewrite (negb_block (ipv4_is_loopback a) v 2130706432 2147483647) by (unfold ipv4_is_loopback; lia).
  rewrite (negb_block (ipv4_is_link_local a b) v 2851995648 2852061183) by (unfold ipv4_is_link_local; lia).
  rewrite (negb_block (_ && (_ && (b <=? 127))) v 1681915904 1686110207) by lia.
  rewrite (negb_block (_ && (c =? 0)) v 3221225472 3221225727) by lia.
  rewrite (negb_block (_ && (c =? 2)) v 3221225984 3221226239) by lia.
  rewrite (negb_block (_ && (_ && (b <=? 19))) v 3323068416 3323199487) by lia.
  rewrite (negb_block (_ && (c =? 100)) v 3325256704 3325256959) by lia.
  rewrite (negb_block (_ && (c =? 113)) v 3405803776 3405804031) by lia.
  assert (negb (ipv4_is_private a b) = true ↔ ¬ 167772160 <= v <= 184549375
    ∧ ¬ 2886729728 <= v <= 2887778303 ∧ ¬ 3232235520 <= v <= 3232301055) as ->
    by (unfold ipv4_is_private; lia).
  assert (negb (ipv4_is_multicast a) = true ∧ negb (ipv4_is_broadcast a b c d) = true ∧ (a <? 224) = true
    ↔ ¬ 3758096384 <= v <= 4294967295) as Hlast by (unfold ipv4_is_multicast, ipv4_is_broadcast; lia).
  tauto.
Qed.

Lemma public_ipv4_blocks_witness :
  is_public_ipv4 8 8 8 8 = true
  ↔ Forall (λ blk, ¬ in_block (ipv4_value 8 8 8 8) blk) reserved_blocks.
Proof. apply (public_ipv4_blocks 8 8 8 8); lia. Defined.
Example carrier_grade_nat_hidden : is_public_ipv4 100 100 3 4 = false.
Proof. reflexivity. Qed.

(** ** The address to dial *)
Section dialling.
Context `{Libp2pLaws}.

Lemma dial_min l m :
  min_by (λ x y, compare (dial_key x) (dial_key y)) l = Some m →
  m ∈ l ∧ ∀ y, y ∈ l → ord_leb (dial_key m) (dial_key y) = true.
Proof.
  intros Hm. apply min_by_spec in Hm as [Hin Hmin].
  - split; [done|]. intros y Hy. specialize (Hmin y Hy). unfold ord_leb. by destruct (compare _ _).
  - intros x y. apply compare_opp.
  - intros x y z Hxy Hyz Hxz. assert (ord_leb (dial_key x) (dial_key z) = true) as Ht.
    { eapply (ord_leb_trans _ (dial_key y)); unfold ord_leb;
        [by destruct (compare (dial_key x) _)|by destruct (compare (dial_key y) _)]. }
    unfold ord_leb in Ht. by rewrite Hxz in Ht.
Qed.

(** [better x y]: the class [x] is dialled rather than [y]. *)
Definition at_least_as_good (x y : Multiaddr) : Prop := ord_leb (dial_priority x) (dial_priority y) = true.

Lemma dial_key_le i j x y :
  ord_leb (dial_key (i, x)) (dial_key (j, y)) = true →
  at_least_as_good x y ∧ (dial_priority x = dial_priority y → (i <= j)%nat).
Proof.
  assert (∀ k a, dial_key (k, a) = (dial_priority a, Z.of_nat k)) as Hk
    by (intros k a; unfold dial_key; cbn [fst snd]; by destruct (dial_priority a)).
  rewrite !Hk. unfold at_least_as_good, ord_leb, compare at 1, pair_ord. simpl.
  destruct (compare (dial_priority x) (dial_priority y)) eqn:E; simpl; [|intros _|done].
  - intros Hij. split; [done|]. intros _. unfold compare, Z_ord in Hij.
    destruct (Z.compare_spec (Z.of_nat i) (Z.of_nat j)); [lia|lia|done].
  - split; [done|]. intros Heq. by rewrite Heq, compare_refl in E.
Qed.

(** One address is dialled, and the best one.  [preferred_dial_address]
    answers exactly when there is an address; its answer comes from the list,
    no address of the list has a better class (relayed, then public, private,
    loopback, other; TCP before other transports), and it is the first of its
    class.  Between two different peers exactly one side takes the initiative
    to dial. *)
Theorem preferred_dial_spec addresses (local remote : PeerId) :
  (preferred_dial_address addresses = None ↔ addresses = [])
  ∧ (∀ x, preferred_dial_address addresses = Some x →
       ∃ i, addresses !! i = Some x
         ∧ ∀ j y, addresses !! j = Some y →
             at_least_as_good x y ∧ (dial_priority x = dial_priority y → (i <= j)%nat))
  ∧ (local ≠ remote →
       should_initiate_peer_dial local remote = negb (should_initiate_peer_dial remote local)).
Proof.
  assert (∀ i x, (i, x) ∈ zip (seq 0 (length addresses)) addresses ↔ addresses !! i = Some x) as Hzip.
  { intros i x. rewrite list_elem_of_lookup. setoid_rewrite lookup_zip_Some.
    split; [intros (k & Hk & Hx); apply lookup_seq in Hk as [-> _]; done|].
    intros Hx. exists i. split; [|done]. apply lookup_seq. split; [done|by eapply lookup_lt_Some]. }
  unfold preferred_dial_address. split; [|split].
  - destruct addresses as [|a l]; [done|]. simpl. split; [done|by intros [=]].
  - intros x Hx. destruct (min_by _ _) as [[i x']|] eqn:Hm; [|done]. injection Hx as <-.
    apply dial_min in Hm as [Hin Hmin]. exists i. split; [by apply Hzip|].
    intros j y Hy. apply dial_key_le, Hmin. by apply Hzip.
  - intros Hne. unfold should_initiate_peer_dial. rewrite ord_ltb_not_leb. f_equal.
    destruct (ord_ltb remote local) eqn:E; [by apply ord_ltb_leb|].
    rewrite ord_ltb_not_leb, negb_false_iff in E.
    destruct (ord_leb remote local) eqn:E'; [|done]. destruct Hne. by apply ord_leb_antisym.
Qed.
End dialling.

Lemma preferred_dial_spec_witness :
  @should_initiate_peer_dial toy_libp2p 3 5 = negb (@should_initiate_peer_dial toy_libp2p 5 3).
Proof. apply (@preferred_dial_spec toy_libp2p toy_libp2p_laws []). simpl. lia. Defined.
Example preferred_dial_example :
  @preferred_dial_address toy_libp2p [[Ip4 192 168 1 2; Tcp 4001]; [Ip4 8 8 8 8; OtherProtocol 1];
    [Ip4 8 8 8 8; Tcp 4001]; [Dns "example.org"; Tcp 4001]]
  = Some [Ip4 8 8 8 8; Tcp 4001].
Proof. reflexivity. Qed.
