(* ===== verification/HandAction.v ===== *)
(** * HandAction: the signed messages of a hand (token-holdem-network hand.rs)

    The public and private envelopes of a hand, and [SignedHandAction]: a
    betting action that a device signs for one table, hand, roster, sequence
    number, public state and seat. *)

From S2P Require Import Prelude Machine Encoding Order Ids Holdem HoldemInv HoldemAct PublicState.
From S2P Require Import Receipt Identity SignedReceipt.

Definition TABLE_TOPIC_PREFIX : string := "/token-holdem/table-hand/2/".
Definition HAND_ACTION_DOMAIN : list Z := domain_bytes "token-holdem/hand-action/v3".

Inductive SignedHandActionError :=
  | ActAttestation (e : DeviceAttestationError) | ActUnsupportedVersion (v : Z) | WrongHand
  | WrongRoster | WrongSequence (expected actual : Z) | WrongPublicStateHash | InvalidSeat
  | ActIdentityMismatch.

Record SignedHandAction := mkAction {
  act_version : Z;
  act_table_id : list Z;
  act_hand_number : Z;
  act_roster_hash : list Z;
  expected_sequence : Z;
  expected_public_state_hash : list Z;
  act_seat : Z;
  act_player_id : PlayerId;
  act_action : PlayerAction;
  act_issued_at : Z;
  act_attestation : DeviceAttestation;
}.
#[export] Instance SignedHandAction_eq_dec : EqDecision SignedHandAction.
Proof. solve_decision. Defined.

(** [canonical_action_bytes]. *)
Definition action_bytes (a : PlayerAction) : list Z :=
  match a with
  | Fold => [0]
  | Check => [1]
  | Call => [2]
  | RaiseTo target => 3 :: be_bytes 8 target
  end.
Definition canonical_action_bytes (version : Z) (table_id : list Z) (hand_number : Z)
    (roster_hash : list Z) (expected_sequence : Z) (expected_public_state_hash : list Z) (seat : Z)
    (player_id : PlayerId) (action : PlayerAction) (issued_at : Z) : list Z :=
  HAND_ACTION_DOMAIN ++ [version] ++ table_id ++ be_bytes 8 hand_number ++ roster_hash
  ++ be_bytes 8 expected_sequence ++ expected_public_state_hash ++ [seat] ++ as_bytes player_id
  ++ action_bytes action ++ be_bytes 8 issued_at.

(** [canonical_unsigned_bytes] of the action. *)
Definition action_unsigned_bytes (a : SignedHandAction) : list Z :=
  canonical_action_bytes (act_version a) (act_table_id a) (act_hand_number a) (act_roster_hash a)
    (expected_sequence a) (expected_public_state_hash a) (act_seat a) (act_player_id a)
    (act_action a) (act_issued_at a).

(** [SignedHandAction::issue]. *)
Definition action_issue `{Crypto} (table_id : list Z) (hand_number : Z) (roster_hash : list Z)
    (sequence : Z) (state_hash : list Z) (seat : Z) (action : PlayerAction) (issued_at : Z)
    (device : list Z) (certificate : DeviceCertificate)
    : result SignedHandActionError SignedHandAction :=
  _ ← reject_if (seat =? 0) InvalidSeat;
  let player_id := cert_player_id certificate in
  let unsigned := canonical_action_bytes 3 table_id hand_number roster_hash sequence state_hash seat
                    player_id action issued_at in
  attestation ← map_err ActAttestation
    (attestation_issue HAND_ACTION_DOMAIN unsigned issued_at device certificate);
  Ok (mkAction 3 table_id hand_number roster_hash sequence state_hash seat player_id action issued_at
        attestation).

(** [SignedHandAction::verify_for]. *)
Definition action_verify_for `{Crypto} (a : SignedHandAction) (table_id : list Z) (hand_number : Z)
    (roster_hash : list Z) (sequence : Z) (state_hash : list Z) (seat : Z) (player_id : PlayerId)
    (device : DevicePublicKey) (now : Z) : result SignedHandActionError unit :=
  _ ← reject_if (negb (act_version a =? 3)) (ActUnsupportedVersion (act_version a));
  _ ← reject_if (negb (bool_decide (act_table_id a = table_id))
                 || negb (act_hand_number a =? hand_number)) WrongHand;
  _ ← reject_if (negb (bool_decide (act_roster_hash a = roster_hash))) WrongRoster;
  _ ← reject_if (negb (expected_sequence a =? sequence))
        (WrongSequence sequence (expected_sequence a));
  _ ← reject_if (negb (bool_decide (expected_public_state_hash a = state_hash))) WrongPublicStateHash;
  _ ← reject_if ((act_seat a =? 0) || negb (act_seat a =? seat)) InvalidSeat;
  let certificate := att_certificate (act_attestation a) in
  _ ← reject_if (negb (bool_decide (act_player_id a = player_id))
                 || negb (bool_decide (cert_player_id certificate = player_id))
                 || negb (bool_decide (cert_device certificate = device))) ActIdentityMismatch;
  map_err ActAttestation
    (attestation_verify (act_attestation a) HAND_ACTION_DOMAIN (action_unsigned_bytes a) now).

(** ** The envelopes; the packets of the card protocol are external types *)
Section messages.
Context {KeyAnnouncement ShufflePacket RevealSharePacket : Type}.

Inductive HandPublicMessage :=
  | KeyAnnounced (table_id : list Z) (hand_number : Z) (roster_hash : list Z) (seat : Z)
      (announcement : KeyAnnouncement)
  | Shuffle (table_id : list Z) (hand_number : Z) (roster_hash : list Z) (seat : Z)
      (packet : ShufflePacket)
  | CommunityRevealShare (table_id : list Z) (hand_number : Z) (roster_hash : list Z) (seat : Z)
      (card_index : Z) (packet : RevealSharePacket)
  | DealReady (table_id : list Z) (hand_number : Z) (roster_hash : list Z) (seat : Z)
  | ReceiptSignature (table_id : list Z) (hand_number : Z) (roster_hash : list Z)
      (receipt : HandReceipt) (signature : ParticipantSignature)
  | ActionCommitted (table_id : list Z) (hand_number : Z) (roster_hash : list Z) (sequence : Z)
      (action : SignedHandAction).
Inductive HandPrivateMessage :=
  | HoleRevealShare (table_id : list Z) (hand_number : Z) (roster_hash : list Z)
      (from_seat to_seat card_index : Z) (packet : RevealSharePacket).

#[export] Instance HandPublicMessage_eq_dec
    `{EqDecision KeyAnnouncement, EqDecision ShufflePacket, EqDecision RevealSharePacket}
  : EqDecision HandPublicMessage.
Proof. solve_decision. Defined.
#[export] Instance HandPrivateMessage_eq_dec `{EqDecision RevealSharePacket} : EqDecision HandPrivateMessage.
Proof. solve_decision. Defined.

(** [table_id], [hand_number] and [roster_hash] of a public message. *)
Definition public_scope (m : HandPublicMessage) : list Z * Z * list Z :=
  match m with
  | KeyAnnounced t n r _ _ | Shuffle t n r _ _ | CommunityRevealShare t n r _ _ _
  | DealReady t n r _ | ReceiptSignature t n r _ _ | ActionCommitted t n r _ _ => (t, n, r)
  end.
(** The same of a private message. *)
Definition private_scope (m : HandPrivateMessage) : list Z * Z * list Z :=
  match m with HoleRevealShare t n r _ _ _ _ => (t, n, r) end.
End messages.

(** ** The signed bytes *)

Definition action_amount_fits (a : PlayerAction) : Prop :=
  match a with RaiseTo target => is_u64 target | _ => True end.
Definition action_fits (a : SignedHandAction) : Prop :=
  bytes_of_len 32 (act_table_id a) ∧ is_u64 (act_hand_number a) ∧ bytes_of_len 32 (act_roster_hash a)
  ∧ is_u64 (expected_sequence a) ∧ bytes_of_len 32 (expected_public_state_hash a)
  ∧ id_len 32 (act_player_id a) ∧ action_amount_fits (act_action a) ∧ is_u64 (act_issued_at a).

#[export] Instance action_fits_dec a : Decision (action_fits a).
Proof.
  unfold action_fits, bytes_of_len, action_amount_fits. destruct (act_action a); apply _.
Defined.

Lemma prefix_inj_action : prefix_inj action_amount_fits action_bytes.
Proof.
  intros x y r s Hx Hy Hb. destruct x, y; try (by simplify_eq/=).
  apply (app_inj_1 [3] [3]) in Hb as [_ Hb]; [|done]. peel Hb prefix_inj_u64. by simplify_eq.
Qed.

Lemma action_bytes_inj a a' :
  action_fits a → action_fits a' → action_unsigned_bytes a = action_unsigned_bytes a' →
  act_attestation a = act_attestation a' → a = a'.
Proof.
  intros (? & ? & ? & ? & ? & ? & ? & ?) (? & ? & ? & ? & ? & ? & ? & ?) Hb Ha.
  unfold action_unsigned_bytes, canonical_action_bytes in Hb. apply app_inj_1 in Hb as [_ Hb]; [|done].
  rewrite <-(app_nil_r (be_bytes 8 (act_issued_at a))),
    <-(app_nil_r (be_bytes 8 (act_issued_at a'))) in Hb.
  peel Hb prefix_inj_u8. peel Hb (prefix_inj_array 32). peel Hb prefix_inj_u64.
  peel Hb (prefix_inj_array 32). peel Hb prefix_inj_u64. peel Hb (prefix_inj_array 32).
  peel Hb prefix_inj_u8. peel Hb (prefix_inj_id (t:=TagPlayer) 32). peel Hb prefix_inj_action.
  peel Hb prefix_inj_u64. destruct a, a'; simplify_eq/=. done.
Qed.

Section actions.
Context `{Crypto}.

Lemma action_verify_for_Ok a table_id n roster seq state seat p d now :
  action_verify_for a table_id n roster seq state seat p d now = Ok tt ↔
  (act_version a = 3 ∧ act_table_id a = table_id ∧ act_hand_number a = n ∧ act_roster_hash a = roster
   ∧ expected_sequence a = seq ∧ expected_public_state_hash a = state ∧ act_seat a = seat ∧ seat ≠ 0
   ∧ act_player_id a = p ∧ cert_player_id (att_certificate (act_attestation a)) = p
   ∧ cert_device (att_certificate (act_attestation a)) = d)
  ∧ attestation_verify (act_attestation a) HAND_ACTION_DOMAIN (action_unsigned_bytes a) now = Ok tt.
Proof.
  unfold action_verify_for. split.
  - intros Hv. do 7 apply bind_Ok in Hv as (? & ? & Hv). apply map_err_Ok in Hv.
    inv_ok. bool_props. split; [|done]. split_and!; congruence.
  - intros ((-> & -> & -> & -> & -> & -> & -> & Hs & -> & -> & ->) & Hv). unfold reject_if.
    rewrite !Z.eqb_refl, !bool_decide_true, (proj2 (Z.eqb_neq _ _) Hs) by done. simpl. by rewrite Hv.
Qed.

(** An action a seated player signs with a valid certificate is accepted:
    given the certificate of the device, [issue] fails exactly for seat 0, and
    what it makes passes [verify_for] in the place it was made for, whenever
    the certificate is valid. *)
Theorem hand_action_roundtrip `{!CryptoLaws} t n r q state seat action issued device c now :
  verify_at c issued = Ok tt → cert_device c = device_public_key device → verify_at c now = Ok tt →
  (seat = 0 → action_issue t n r q state seat action issued device c = Err InvalidSeat)
  ∧ (seat ≠ 0 → ∃ a, action_issue t n r q state seat action issued device c = Ok a
       ∧ act_action a = action
       ∧ action_verify_for a t n r q state seat (cert_player_id c) (cert_device c) now = Ok tt).
Proof.
  intros Hc Hd Hnow. unfold action_issue. split; [by intros ->|]. intros Hs.
  rewrite (proj2 (Z.eqb_neq _ _) Hs). cbn [reject_if mbind result_bind].
  set (bytes := canonical_action_bytes 3 t n r q state seat (cert_player_id c) action issued).
  assert (∃ att, attestation_issue HAND_ACTION_DOMAIN bytes issued device c = Ok att) as [att Hatt].
  { eexists. by apply attestation_issue_Ok. }
  rewrite Hatt. cbn [map_err mbind result_bind]. eexists. split; [done|]. split; [done|].
  apply action_verify_for_Ok. simpl.
  assert (att_certificate att = c) as -> by (by apply attestation_issue_Ok in Hatt as (_ & _ & ->)).
  split; [done|]. by eapply attestation_issue_verify.
Qed.
End actions.

(** ** Witnesses *)
Lemma hand_action_roundtrip_witness :
  (7 = 0 → @action_issue toy_crypto (replicate 32 1) 4 (replicate 32 2) 9 (replicate 32 3) 7 Call 2000
             [2] phone_certificate = Err InvalidSeat)
  ∧ (7 ≠ 0 → ∃ a,
       @action_issue toy_crypto (replicate 32 1) 4 (replicate 32 2) 9 (replicate 32 3) 7 Call 2000
         [2] phone_certificate = Ok a
       ∧ act_action a = Call
       ∧ @action_verify_for toy_crypto a (replicate 32 1) 4 (replicate 32 2) 9 (replicate 32 3) 7
           (cert_player_id phone_certificate) (cert_device phone_certificate) 3000 = Ok tt).
Proof. apply (@hand_action_roundtrip toy_crypto toy_crypto_laws); vm_compute; reflexivity. Defined.
