(* ===== verification/Room.v ===== *)
(** * Room: friend room invitations (token-holdem-network room.rs)

    The host of a private room signs an invitation that carries the room
    secret, the host's endpoint and the stake level; the room id is the hash
    of the secret. *)

From S2P Require Import Prelude Machine Encoding Order Ids Table TablePool Membership Identity Session.

Definition FRIEND_ROOM_DOMAIN : list Z := domain_bytes "token-holdem/friend-room-invite/v3".
Definition ROOM_ID_DOMAIN : list Z := domain_bytes "token-holdem/friend-room-id/v3".
Definition FRIEND_ROOM_VERSION : Z := 3.

Inductive FriendRoomInviteError :=
  | RoomAttestation (e : DeviceAttestationError) | RoomUnsupportedVersion (v : Z) | InvalidSecret
  | RoomInvalidPeerId | RoomInvalidAddresses | RoomAddressPeerIdMismatch | RoomInvalidPlayerRange
  | RoomInvalidValidityWindow | RoomExpired | RoomIdMismatch | RoomIdentityMismatch.

Record FriendRoomInvite := mkInvite {
  inv_version : Z;
  room_id : TableId;
  room_secret : list Z;
  host_player_id : PlayerId;
  host_device_public_key : DevicePublicKey;
  host_session_peer_id : list Z;
  host_session_addresses : list (list Z);
  inv_level : StakeLevel;
  inv_created_at : Z;
  inv_expires_at : Z;
  inv_attestation : DeviceAttestation;
}.

(** [canonical_invite_bytes]. *)
Definition canonical_invite_bytes (version : Z) (room_id : TableId) (room_secret : list Z)
    (host : PlayerId) (device : DevicePublicKey) (peer_id : list Z) (addresses : list (list Z))
    (level : StakeLevel) (created_at expires_at : Z) : list Z :=
  FRIEND_ROOM_DOMAIN ++ [version] ++ write_table_id room_id ++ room_secret ++ as_bytes host
  ++ as_bytes device ++ write_bytes peer_id ++ write_addresses addresses ++ write_level level
  ++ be_bytes 8 created_at ++ be_bytes 8 expires_at.
Definition invite_unsigned_bytes (i : FriendRoomInvite) : list Z :=
  canonical_invite_bytes (inv_version i) (room_id i) (room_secret i) (host_player_id i)
    (host_device_public_key i) (host_session_peer_id i) (host_session_addresses i) (inv_level i)
    (inv_created_at i) (inv_expires_at i).

(** [derive_room_id]. *)
Definition derive_room_id `{Crypto} (secret : list Z) : TableId :=
  Ident (blake3 (ROOM_ID_DOMAIN ++ secret)).

(** The translation of an endpoint error. *)
Definition room_endpoint_error (e : SessionEndpointError) : FriendRoomInviteError :=
  match e with
  | AddressPeerIdMismatch => RoomAddressPeerIdMismatch
  | InvalidPeerId => RoomInvalidPeerId
  | InvalidAddresses => RoomInvalidAddresses
  end.

(** [validate_fields]. *)
Definition room_validate_fields `{Libp2p} (room_secret peer_id : list Z) (addresses : list (list Z))
    (level : StakeLevel) (created_at expires_at : Z) : result FriendRoomInviteError unit :=
  _ ← reject_if (forallb (Z.eqb 0) room_secret) InvalidSecret;
  _ ← map_err room_endpoint_error (validate_session_endpoint peer_id addresses);
  _ ← reject_if (negb (minimum_players level =? 2) || negb (maximum_players level =? TABLE_CAPACITY))
        RoomInvalidPlayerRange;
  check_window created_at expires_at 86400000 RoomInvalidValidityWindow.

(** [FriendRoomInvite::issue]. *)
Definition invite_issue `{Crypto, Libp2p} (room_secret peer_id : list Z) (addresses : list (list Z))
    (level : StakeLevel) (created_at expires_at : Z) (device : list Z)
    (certificate : DeviceCertificate) : result FriendRoomInviteError FriendRoomInvite :=
  _ ← room_validate_fields room_secret peer_id addresses level created_at expires_at;
  let room_id := derive_room_id room_secret in
  let host := cert_player_id certificate in
  let host_device := cert_device certificate in
  let unsigned := canonical_invite_bytes FRIEND_ROOM_VERSION room_id room_secret host host_device
                    peer_id addresses level created_at expires_at in
  attestation ← map_err RoomAttestation
    (attestation_issue FRIEND_ROOM_DOMAIN unsigned created_at device certificate);
  Ok (mkInvite FRIEND_ROOM_VERSION room_id room_secret host host_device peer_id addresses level
        created_at expires_at attestation).

(** [FriendRoomInvite::verify_at]. *)
Definition invite_verify_at `{Crypto, Libp2p} (i : FriendRoomInvite) (now : Z)
    : result FriendRoomInviteError unit :=
  _ ← reject_if (negb (inv_version i =? FRIEND_ROOM_VERSION)) (RoomUnsupportedVersion (inv_version i));
  _ ← room_validate_fields (room_secret i) (host_session_peer_id i) (host_session_addresses i)
        (inv_level i) (inv_created_at i) (inv_expires_at i);
  _ ← reject_if (negb (is_signed_time_window_active (inv_created_at i) (inv_expires_at i) now))
        RoomExpired;
  _ ← reject_if (negb (bool_decide (derive_room_id (room_secret i) = room_id i))) RoomIdMismatch;
  let certificate := att_certificate (inv_attestation i) in
  _ ← reject_if (negb (bool_decide (cert_player_id certificate = host_player_id i))
                 || negb (bool_decide (cert_device certificate = host_device_public_key i)))
        RoomIdentityMismatch;
  map_err RoomAttestation
    (attestation_verify (inv_attestation i) FRIEND_ROOM_DOMAIN (invite_unsigned_bytes i) now).

(** ** What the checks mean *)

Section invites.
Context `{Crypto, Libp2p}.

(** A secret that is not all zero, a reachable host, a two-to-six player
    level and a life of at most 24 hours. *)
Definition room_fields_ok (secret peer_id : list Z) (addresses : list (list Z)) (level : StakeLevel)
    (created_at expires_at : Z) : Prop :=
  ¬ Forall (λ b, b = 0) secret ∧ (∃ p, endpoint_ok peer_id addresses p)
  ∧ minimum_players level = 2 ∧ maximum_players level = TABLE_CAPACITY
  ∧ window_ok created_at expires_at 86400000.

Lemma secret_nonzero secret : forallb (Z.eqb 0) secret = false ↔ ¬ Forall (λ b, b = 0) secret.
Proof.
  rewrite <-not_true_iff_false, forallb_forall, Forall_forall.
  split; intros Hn Hall; apply Hn; intros b Hb; specialize (Hall b);
    rewrite list_elem_of_In in *; [apply Z.eqb_eq; symmetry; auto|].
  symmetry. apply Z.eqb_eq. auto.
Qed.

Lemma room_validate_fields_Ok secret peer_id addresses level created_at expires_at :
  room_validate_fields secret peer_id addresses level created_at expires_at = Ok tt ↔
  room_fields_ok secret peer_id addresses level created_at expires_at.
Proof.
  unfold room_validate_fields, room_fields_ok. rewrite <-secret_nonzero. split.
  - intros Hv. apply bind_Ok in Hv as (? & Hs & Hv). apply bind_Ok in Hv as (p & Hp%map_err_Ok & Hv).
    apply bind_Ok in Hv as (? & Hl & Hw%check_window_Ok). apply validate_session_endpoint_Ok in Hp.
    inv_ok. bool_props. split_and!; eauto.
  - intros (Hs & [p Hp] & -> & -> & Hw). rewrite Hs. apply validate_session_endpoint_Ok in Hp.
    rewrite Hp. cbn [reject_if map_err mbind result_bind]. by apply check_window_Ok.
Qed.

Lemma invite_verify_at_Ok i now :
  invite_verify_at i now = Ok tt ↔
  inv_version i = FRIEND_ROOM_VERSION
  ∧ room_fields_ok (room_secret i) (host_session_peer_id i) (host_session_addresses i) (inv_level i)
      (inv_created_at i) (inv_expires_at i)
  ∧ is_signed_time_window_active (inv_created_at i) (inv_expires_at i) now = true
  ∧ room_id i = derive_room_id (room_secret i)
  ∧ cert_player_id (att_certificate (inv_attestation i)) = host_player_id i
  ∧ cert_device (att_certificate (inv_attestation i)) = host_device_public_key i
  ∧ attestation_verify (inv_attestation i) FRIEND_ROOM_DOMAIN (invite_unsigned_bytes i) now = Ok tt.
Proof.
  unfold invite_verify_at. split.
  - intros Hv. apply bind_Ok in Hv as (? & ? & Hv).
    apply bind_Ok in Hv as ([] & Hf%room_validate_fields_Ok & Hv).
    do 3 apply bind_Ok in Hv as (? & ? & Hv). apply map_err_Ok in Hv. inv_ok. bool_props.
    split_and!; congruence.
  - intros (Hver & Hf%room_validate_fields_Ok & Hw & Hr & Hp & Hd & Hv).
    rewrite Hver, Hf, Hw, Hp, Hd. cbn [reject_if mbind result_bind negb].
    rewrite !bool_decide_true by done. cbn [reject_if mbind result_bind negb orb]. by rewrite Hv.
Qed.

(** The holder of a certificate can invite to a room exactly when the
    secret, endpoint, level and life of the invitation are allowed; the
    invitation then opens the room named by the secret, names the host of
    the certificate, and is accepted at any time both its window and the
    certificate are good. *)
Theorem invite_roundtrip `{!CryptoLaws} secret peer_id addresses level created expires device c now :
  verify_at c created = Ok tt → cert_device c = device_public_key device →
  is_signed_time_window_active created expires now = true → verify_at c now = Ok tt →
  (room_fields_ok secret peer_id addresses level created expires ↔
     ∃ i, invite_issue secret peer_id addresses level created expires device c = Ok i)
  ∧ ∀ i, invite_issue secret peer_id addresses level created expires device c = Ok i →
      invite_verify_at i now = Ok tt ∧ room_id i = derive_room_id secret
      ∧ host_player_id i = cert_player_id c ∧ inv_level i = level.
Proof.
  intros Hc Hd Hnow Hc'. unfold invite_issue. rewrite <-room_validate_fields_Ok.
  set (bytes := canonical_invite_bytes _ _ _ _ _ _ _ _ _ _).
  assert (∃ a, attestation_issue FRIEND_ROOM_DOMAIN bytes created device c = Ok a) as [a Ha].
  { eexists. by apply attestation_issue_Ok. }
  rewrite Ha. split.
  - split; [intros ->; by eexists|]. intros (i & Hi). by apply bind_Ok in Hi as ([] & ? & _).
  - intros i ([] & Hf & [= <-])%bind_Ok. split; [|done]. apply invite_verify_at_Ok. simpl.
    assert (att_certificate a = c) as -> by (by apply attestation_issue_Ok in Ha as (_ & _ & ->)).
    apply room_validate_fields_Ok in Hf. split_and!; try done.
    by apply (attestation_issue_verify _ _ created now device c).
Qed.

(** ** Binding *)

Definition invite_fits (i : FriendRoomInvite) : Prop :=
  id_len 32 (room_id i) ∧ bytes_of_len 32 (room_secret i) ∧ id_len 32 (host_player_id i)
  ∧ id_len 32 (host_device_public_key i) ∧ short (host_session_peer_id i)
  ∧ level_fits (inv_level i) ∧ is_u64 (inv_created_at i) ∧ is_u64 (inv_expires_at i).

Lemma invite_bytes_inj i j :
  invite_fits i → invite_fits j → addresses_fit (host_session_addresses i) →
  addresses_fit (host_session_addresses j) → invite_unsigned_bytes i = invite_unsigned_bytes j →
  inv_attestation i = inv_attestation j → i = j.
Proof.
  intros (? & ? & ? & ? & ? & ? & ? & ?) (? & ? & ? & ? & ? & ? & ? & ?) Hi Hj Hb Ha.
  unfold invite_unsigned_bytes, canonical_invite_bytes, write_table_id in Hb.
  apply app_inj_1 in Hb as [_ Hb]; [|done].
  rewrite <-(app_nil_r (be_bytes 8 (inv_expires_at i))),
    <-(app_nil_r (be_bytes 8 (inv_expires_at j))) in Hb.
  peel Hb prefix_inj_u8. peel Hb (prefix_inj_id (t:=TagTable) 32). peel Hb (prefix_inj_array 32).
  peel Hb (prefix_inj_id (t:=TagPlayer) 32). peel Hb (prefix_inj_id (t:=TagDevice) 32).
  peel Hb prefix_inj_write_bytes. peel Hb prefix_inj_addresses. peel Hb prefix_inj_level.
  do 2 peel Hb prefix_inj_u64. destruct i, j; simplify_eq/=. done.
Qed.

(** An invitation cannot be altered: two invitations that are accepted
    and carry the same attestation are equal, unless BLAKE3 collides on their
    bytes; and every accepted invitation leads to the room of its secret, on
    a level for two to six players, for at most 24 hours. *)
Theorem invite_binding i j now now' :
  (blake3 (invite_unsigned_bytes i) = blake3 (invite_unsigned_bytes j) →
   invite_unsigned_bytes i = invite_unsigned_bytes j) →
  invite_fits i → invite_fits j → inv_attestation i = inv_attestation j →
  invite_verify_at i now = Ok tt → invite_verify_at j now' = Ok tt →
  i = j ∧ room_id i = derive_room_id (room_secret i)
  ∧ room_fields_ok (room_secret i) (host_session_peer_id i) (host_session_addresses i) (inv_level i)
      (inv_created_at i) (inv_expires_at i).
Proof.
  intros Hcol Hi Hj Ha (_ & Hf & _ & Hr & _ & _ & Hv)%invite_verify_at_Ok
    (_ & Hf' & _ & _ & _ & _ & Hv')%invite_verify_at_Ok.
  split; [|done]. rewrite <-Ha in Hv'. pose proof (attestation_binds _ _ _ _ _ _ _ Hv Hv') as Hb.
  destruct Hf as (_ & [p Hp] & _), Hf' as (_ & [p' Hp'] & _).
  apply invite_bytes_inj; eauto using endpoint_fits.
Qed.
End invites.

(** ** Witnesses *)
Definition room_level : StakeLevel := mkStakeLevel "friends" 5 10 400 1000 2 6.
Definition example_secret : list Z := replicate 31 0 ++ [7].

Lemma room_level_fits : level_fits room_level.
Proof. unfold level_fits. split_and!; vm_compute; first [split; congruence | congruence]. Qed.

Lemma example_endpoint_ok : @endpoint_ok toy_libp2p [5] [[1; 5]; [2; 5]] 5.
Proof.
  split; [reflexivity|simpl; lia|apply (bool_decide_unpack _); reflexivity|].
  repeat constructor; simpl; first [lia | by eexists].
Qed.

Lemma example_room_fields_ok : @room_fields_ok toy_libp2p example_secret [5] [[1; 5]; [2; 5]] room_level 2000 5000.
Proof.
  split; [apply secret_nonzero; reflexivity|]. split; [exists 5; apply example_endpoint_ok|].
  split; [reflexivity|]. split; [reflexivity|]. split; vm_compute; congruence.
Qed.

Lemma invite_roundtrip_witness :
  (@room_fields_ok toy_libp2p example_secret [5] [[1; 5]; [2; 5]] room_level 2000 5000 ↔
     ∃ i, @invite_issue toy_crypto toy_libp2p example_secret [5] [[1; 5]; [2; 5]] room_level 2000 5000
            [2] phone_certificate = Ok i)
  ∧ ∀ i, @invite_issue toy_crypto toy_libp2p example_secret [5] [[1; 5]; [2; 5]] room_level 2000 5000
           [2] phone_certificate = Ok i →
      @invite_verify_at toy_crypto toy_libp2p i 3000 = Ok tt
      ∧ room_id i = @derive_room_id toy_crypto example_secret
      ∧ host_player_id i = cert_player_id phone_certificate ∧ inv_level i = room_level.
Proof. apply (@invite_roundtrip toy_crypto toy_libp2p toy_crypto_laws); vm_compute; reflexivity. Defined.

Definition example_invite : FriendRoomInvite :=
  let id := @derive_room_id toy_crypto example_secret in
  mkInvite 3 id example_secret (cert_player_id phone_certificate) (cert_device phone_certificate) [5]
    [[1; 5]; [2; 5]] room_level 2000 5000
    (phone_attestation FRIEND_ROOM_DOMAIN
       (canonical_invite_bytes 3 id example_secret (cert_player_id phone_certificate)
          (cert_device phone_certificate) [5] [[1; 5]; [2; 5]] room_level 2000 5000)).

Lemma invite_binding_witness :
  example_invite = example_invite
  ∧ room_id example_invite = @derive_room_id toy_crypto (room_secret example_invite)
  ∧ @room_fields_ok toy_libp2p (room_secret example_invite) (host_session_peer_id example_invite)
      (host_session_addresses example_invite) (inv_level example_invite) (inv_created_at example_invite)
      (inv_expires_at example_invite).
Proof.
  apply (@invite_binding toy_crypto toy_libp2p example_invite example_invite 2500 4000).
  - done.
  - split_and!; try (vm_compute; first [reflexivity | split; congruence | congruence]); apply room_level_fits.
  - split_and!; try (vm_compute; first [reflexivity | split; congruence | congruence]); apply room_level_fits.
  - reflexivity.
  - vm_compute. reflexivity.
  - vm_compute. reflexivity.
Defined.
