(* ===== verification/PoolProtocol.v ===== *)
(** * PoolProtocol: the public table pool (token-holdem-network table_pool.rs)

    Players who look for a table broadcast signed tickets, tables broadcast
    signed advertisements.  Every peer ranks the tickets and picks a table by
    itself from what it has received. *)

From S2P Require Import Prelude Machine Encoding Order Ids Table TablePool Membership Identity Session.

Definition POOL_TICKET_DOMAIN : list Z := domain_bytes "token-holdem/pool-ticket/v2".
Definition TABLE_ADVERTISEMENT_DOMAIN : list Z := domain_bytes "token-holdem/table-advertisement/v2".
Definition POOL_DOCUMENT_VERSION : Z := 2.
Definition MAX_TICKET_LIFETIME_MS : Z := 60 * 60 * 1000.
Definition MAX_ADVERTISEMENT_LIFETIME_MS : Z := 30000.

Definition PoolTicketId : Type := ident TagTicket.
#[export] Instance PoolTicketId_ord : Ord PoolTicketId := ident_ord _.
#[export] Instance PoolTicketId_ord_laws : OrdLaws PoolTicketId := ident_ord_laws _.

Inductive TablePoolProtocolError :=
  | UnsupportedTicketVersion (v : Z) | UnsupportedAdvertisementVersion (v : Z) | PoolInvalidPeerId
  | PoolInvalidAddresses | PoolAddressPeerIdMismatch | InvalidPublicLevelPlayerRange | InvalidBuyIn
  | InvalidTicketValidityWindow | InvalidAdvertisementValidityWindow | TicketExpired
  | AdvertisementExpired | TicketIdentityMismatch | AdvertisementIdentityMismatch
  | InvalidMemberCount (n : Z) | InvalidWaitingCount (n : Z)
  | PoolAttestation (e : DeviceAttestationError) | PoolDomain (e : TablePoolError).

(** ** Field checks *)

(** [validate_public_level]. *)
Definition validate_public_level (level : StakeLevel) : result TablePoolProtocolError unit :=
  reject_if (negb (minimum_players level =? 2) || negb (maximum_players level =? TABLE_CAPACITY))
    InvalidPublicLevelPlayerRange.
(** [validate_active_window]. *)
Definition validate_active_window (created_at expires_at now : Z) (e : TablePoolProtocolError)
    : result TablePoolProtocolError unit :=
  reject_if (negb (is_signed_time_window_active created_at expires_at now)) e.
(** [validate_endpoint]. *)
Definition pool_endpoint_error (e : SessionEndpointError) : TablePoolProtocolError :=
  match e with
  | InvalidPeerId => PoolInvalidPeerId
  | InvalidAddresses => PoolInvalidAddresses
  | AddressPeerIdMismatch => PoolAddressPeerIdMismatch
  end.
Definition validate_endpoint `{Libp2p} (peer_id : list Z) (addresses : list (list Z))
    : result TablePoolProtocolError unit :=
  _ ← map_err pool_endpoint_error (validate_session_endpoint peer_id addresses);
  Ok tt.
(** [validate_ticket_fields]. *)
Definition validate_ticket_fields `{Libp2p} (peer_id : list Z) (addresses : list (list Z))
    (level : StakeLevel) (buy_in created_at expires_at : Z) : result TablePoolProtocolError unit :=
  _ ← validate_endpoint peer_id addresses;
  _ ← validate_public_level level;
  _ ← reject_if ((buy_in <? minimum_buy_in level) || (maximum_buy_in level <? buy_in)) InvalidBuyIn;
  check_window created_at expires_at MAX_TICKET_LIFETIME_MS InvalidTicketValidityWindow.
(** [validate_advertisement_fields]. *)
Definition validate_advertisement_fields `{Libp2p} (level : StakeLevel) (members waiting : Z)
    (peer_id : list Z) (addresses : list (list Z)) (created_at expires_at : Z)
    : result TablePoolProtocolError unit :=
  _ ← validate_public_level level;
  _ ← reject_if (TABLE_CAPACITY <? members) (InvalidMemberCount members);
  _ ← reject_if (WAITING_CAPACITY <? waiting) (InvalidWaitingCount waiting);
  _ ← validate_endpoint peer_id addresses;
  check_window created_at expires_at MAX_ADVERTISEMENT_LIFETIME_MS
    InvalidAdvertisementValidityWindow.

(** ** Tickets *)
Record PoolTicket := mkTicket {
  tk_version : Z;
  tk_player_id : PlayerId;
  tk_device : DevicePublicKey;
  tk_peer_id : list Z;
  tk_addresses : list (list Z);
  tk_level : StakeLevel;
  requested_buy_in : Z;
  tk_created_at : Z;
  tk_expires_at : Z;
  tk_nonce : list Z;
  tk_attestation : DeviceAttestation;
}.
#[export] Instance PoolTicket_eq_dec : EqDecision PoolTicket.
Proof. solve_decision. Defined.

(** [canonical_ticket_bytes]. *)
Definition canonical_ticket_bytes (version : Z) (player : PlayerId) (device : DevicePublicKey)
    (peer_id : list Z) (addresses : list (list Z)) (level : StakeLevel)
    (buy_in created_at expires_at : Z) (nonce : list Z) : list Z :=
  POOL_TICKET_DOMAIN ++ [version] ++ as_bytes player ++ as_bytes device ++ write_bytes peer_id
  ++ write_addresses addresses ++ write_level level ++ be_bytes 8 buy_in ++ be_bytes 8 created_at
  ++ be_bytes 8 expires_at ++ nonce.
Definition ticket_unsigned_bytes (t : PoolTicket) : list Z :=
  canonical_ticket_bytes (tk_version t) (tk_player_id t) (tk_device t) (tk_peer_id t) (tk_addresses t)
    (tk_level t) (requested_buy_in t) (tk_created_at t) (tk_expires_at t) (tk_nonce t).

(** [PoolTicket::id]. *)
Definition ticket_id `{Crypto} (t : PoolTicket) : PoolTicketId := Ident (blake3 (ticket_unsigned_bytes t)).

(** [PoolTicket::issue]. *)
Definition ticket_issue `{Crypto, Libp2p} (peer_id : list Z) (addresses : list (list Z))
    (level : StakeLevel) (buy_in created_at expires_at : Z) (nonce device : list Z)
    (certificate : DeviceCertificate) : result TablePoolProtocolError PoolTicket :=
  _ ← validate_ticket_fields peer_id addresses level buy_in created_at expires_at;
  let player := cert_player_id certificate in
  let device_key := cert_device certificate in
  let unsigned := canonical_ticket_bytes POOL_DOCUMENT_VERSION player device_key peer_id addresses
                    level buy_in created_at expires_at nonce in
  attestation ← map_err PoolAttestation
    (attestation_issue POOL_TICKET_DOMAIN unsigned created_at device certificate);
  Ok (mkTicket POOL_DOCUMENT_VERSION player device_key peer_id addresses level buy_in created_at
        expires_at nonce attestation).

(** [PoolTicket::verify_at]. *)
Definition ticket_verify_at `{Crypto, Libp2p} (t : PoolTicket) (now : Z)
    : result TablePoolProtocolError unit :=
  _ ← reject_if (negb (tk_version t =? POOL_DOCUMENT_VERSION)) (UnsupportedTicketVersion (tk_version t));
  _ ← validate_ticket_fields (tk_peer_id t) (tk_addresses t) (tk_level t) (requested_buy_in t)
        (tk_created_at t) (tk_expires_at t);
  _ ← validate_active_window (tk_created_at t) (tk_expires_at t) now TicketExpired;
  let certificate := att_certificate (tk_attestation t) in
  _ ← reject_if (negb (bool_decide (cert_player_id certificate = tk_player_id t))
                 || negb (bool_decide (cert_device certificate = tk_device t))) TicketIdentityMismatch;
  map_err PoolAttestation
    (attestation_verify (tk_attestation t) POOL_TICKET_DOMAIN (ticket_unsigned_bytes t) now).

(** ** Advertisements *)
Record TableAdvertisement := mkAdvertisement {
  ad_version : Z;
  ad_table_id : TableId;
  ad_level : StakeLevel;
  ad_members : Z;
  ad_waiting : Z;
  ad_lifecycle : TableLifecycle;
  ad_membership_version : Z;
  ad_membership_hash : list Z;
  creator_player_id : PlayerId;
  signer_player_id : PlayerId;
  signer_device : DevicePublicKey;
  admission_peer_id : list Z;
  admission_addresses : list (list Z);
  ad_created_at : Z;
  ad_expires_at : Z;
  ad_nonce : list Z;
  ad_attestation : DeviceAttestation;
}.

(** [canonical_advertisement_bytes]. *)
Definition lifecycle_tag (l : TableLifecycle) : Z :=
  match l with Waiting => 0 | HandInProgress => 1 | Closing => 2 end.
Definition canonical_advertisement_bytes (version : Z) (table_id : TableId) (level : StakeLevel)
    (members waiting : Z) (lifecycle : TableLifecycle) (membership_version : Z)
    (membership_hash : list Z) (creator signer : PlayerId) (device : DevicePublicKey)
    (peer_id : list Z) (addresses : list (list Z)) (created_at expires_at : Z) (nonce : list Z)
    : list Z :=
  TABLE_ADVERTISEMENT_DOMAIN ++ [version] ++ write_table_id table_id ++ write_level level
  ++ [members] ++ [waiting] ++ [lifecycle_tag lifecycle] ++ be_bytes 8 membership_version
  ++ membership_hash ++ as_bytes creator ++ as_bytes signer ++ as_bytes device
  ++ write_bytes peer_id ++ write_addresses addresses ++ be_bytes 8 created_at
  ++ be_bytes 8 expires_at ++ nonce.
Definition advertisement_unsigned_bytes (a : TableAdvertisement) : list Z :=
  canonical_advertisement_bytes (ad_version a) (ad_table_id a) (ad_level a) (ad_members a)
    (ad_waiting a) (ad_lifecycle a) (ad_membership_version a) (ad_membership_hash a)
    (creator_player_id a) (signer_player_id a) (signer_device a) (admission_peer_id a)
    (admission_addresses a) (ad_created_at a) (ad_expires_at a) (ad_nonce a).

(** [TableAdvertisement::issue]. *)
Definition advertisement_issue `{Crypto, Libp2p} (table_id : TableId) (level : StakeLevel)
    (members waiting : Z) (lifecycle : TableLifecycle) (membership_version : Z)
    (membership_hash : list Z) (creator : PlayerId) (peer_id : list Z) (addresses : list (list Z))
    (created_at expires_at : Z) (nonce device : list Z) (certificate : DeviceCertificate)
    : result TablePoolProtocolError TableAdvertisement :=
  _ ← validate_advertisement_fields level members waiting peer_id addresses created_at expires_at;
  let signer := cert_player_id certificate in
  let device_key := cert_device certificate in
  let unsigned := canonical_advertisement_bytes POOL_DOCUMENT_VERSION table_id level members waiting
                    lifecycle membership_version membership_hash creator signer device_key peer_id
                    addresses created_at expires_at nonce in
  attestation ← map_err PoolAttestation
    (attestation_issue TABLE_ADVERTISEMENT_DOMAIN unsigned created_at device certificate);
  Ok (mkAdvertisement POOL_DOCUMENT_VERSION table_id level members waiting lifecycle
        membership_version membership_hash creator signer device_key peer_id addresses created_at
        expires_at nonce attestation).

(** [TableAdvertisement::verify_at]. *)
Definition advertisement_verify_at `{Crypto, Libp2p} (a : TableAdvertisement) (now : Z)
    : result TablePoolProtocolError unit :=
  _ ← reject_if (negb (ad_version a =? POOL_DOCUMENT_VERSION))
        (UnsupportedAdvertisementVersion (ad_version a));
  _ ← validate_advertisement_fields (ad_level a) (ad_members a) (ad_waiting a) (admission_peer_id a)
        (admission_addresses a) (ad_created_at a) (ad_expires_at a);
  _ ← validate_active_window (ad_created_at a) (ad_expires_at a) now AdvertisementExpired;
  let certificate := att_certificate (ad_attestation a) in
  _ ← reject_if (negb (bool_decide (cert_player_id certificate = signer_player_id a))
                 || negb (bool_decide (cert_device certificate = signer_device a)))
        AdvertisementIdentityMismatch;
  map_err PoolAttestation
    (attestation_verify (ad_attestation a) TABLE_ADVERTISEMENT_DOMAIN (advertisement_unsigned_bytes a)
       now).

(** [as_candidate]. *)
Definition as_candidate (a : TableAdvertisement) : result TablePoolProtocolError TableCandidate :=
  map_err PoolDomain
    (TableCandidate_new (ad_table_id a) (level_id (ad_level a)) (ad_members a) (ad_waiting a)
       TABLE_CAPACITY (ad_lifecycle a)).

Inductive TablePoolMessage := Ticket (t : PoolTicket) | Advertisement (a : TableAdvertisement).

(** ** Choosing *)

(** [compare_advertisements]. *)
Definition compare_advertisements (left right : TableAdvertisement) : comparison :=
  then_with (compare (ad_members right) (ad_members left))
    (then_with (compare (ad_waiting left) (ad_waiting right))
       (compare (ad_table_id left) (ad_table_id right))).

(** [select_table_advertisement]. *)
Definition advertisement_usable `{Crypto, Libp2p} (level : StakeLevel) (now : Z) (a : TableAdvertisement)
    : bool :=
  is_ok (advertisement_verify_at a now) && bool_decide (ad_level a = level)
  && negb (bool_decide (ad_lifecycle a = Closing)) && (ad_members a <? TABLE_CAPACITY)
  && (ad_waiting a <? WAITING_CAPACITY).
Definition select_table_advertisement `{Crypto, Libp2p} (advertisements : list TableAdvertisement)
    (level : StakeLevel) (now : Z) : option TableAdvertisement :=
  min_by compare_advertisements
    (filter (λ a, advertisement_usable level now a = true) advertisements).

(** [rank_pool_tickets]: the smallest ticket of each player, then by id. *)
Definition keep_ticket `{Crypto, Libp2p} (level : StakeLevel) (now : Z)
    (by_player : gmap PlayerId PoolTicket) (t : PoolTicket) : gmap PlayerId PoolTicket :=
  if negb (is_ok (ticket_verify_at t now)) || negb (bool_decide (tk_level t = level)) then by_player
  else match by_player !! tk_player_id t with
       | None => <[tk_player_id t := t]> by_player
       | Some old =>
           if ord_ltb (ticket_id t) (ticket_id old) then <[tk_player_id t := t]> by_player
           else by_player
       end.
Definition rank_pool_tickets `{Crypto, Libp2p} (tickets : list PoolTicket) (level : StakeLevel)
    (now : Z) : list PoolTicket :=
  sort_by_key ticket_id (btree_values (fold_left (keep_ticket level now) tickets ∅)).

(** ** What the checks mean *)
Section pool.
Context `{Crypto, Libp2p}.

Definition public_level (level : StakeLevel) : Prop :=
  minimum_players level = 2 ∧ maximum_players level = TABLE_CAPACITY.

Lemma validate_public_level_Ok level : validate_public_level level = Ok tt ↔ public_level level.
Proof.
  unfold validate_public_level, public_level. rewrite reject_if_Ok, orb_false_iff, !negb_false_iff.
  by rewrite !Z.eqb_eq.
Qed.

Lemma validate_endpoint_Ok peer_id addresses :
  validate_endpoint peer_id addresses = Ok tt ↔ ∃ p, endpoint_ok peer_id addresses p.
Proof.
  unfold validate_endpoint. rewrite bind_Ok. setoid_rewrite map_err_Ok.
  setoid_rewrite validate_session_endpoint_Ok. naive_solver.
Qed.

(** A ticket: reachable player, public level, buy-in in its range, a life of
    at most an hour. *)
Definition ticket_fields_ok (peer_id : list Z) (addresses : list (list Z)) (level : StakeLevel)
    (buy_in created_at expires_at : Z) : Prop :=
  (∃ p, endpoint_ok peer_id addresses p) ∧ public_level level
  ∧ minimum_buy_in level <= buy_in <= maximum_buy_in level
  ∧ window_ok created_at expires_at MAX_TICKET_LIFETIME_MS.

Lemma validate_ticket_fields_Ok peer_id addresses level buy_in created_at expires_at :
  validate_ticket_fields peer_id addresses level buy_in created_at expires_at = Ok tt ↔
  ticket_fields_ok peer_id addresses level buy_in created_at expires_at.
Proof.
  unfold validate_ticket_fields, ticket_fields_ok. split.
  - intros Hv. apply bind_Ok in Hv as ([] & He%validate_endpoint_Ok & Hv).
    apply bind_Ok in Hv as ([] & Hl%validate_public_level_Ok & Hv).
    apply bind_Ok in Hv as (? & Hb & Hw%check_window_Ok). inv_ok. bool_props.
    split_and!; done || lia || apply Hl || apply Hw.
  - intros (He%validate_endpoint_Ok & Hl%validate_public_level_Ok & Hb & Hw).
    rewrite He, Hl. cbn [mbind result_bind]. unfold reject_if.
    rewrite !(proj2 (Z.ltb_ge _ _)) by lia. by apply check_window_Ok.
Qed.

Definition advertisement_fields_ok (level : StakeLevel) (members waiting : Z) (peer_id : list Z)
    (addresses : list (list Z)) (created_at expires_at : Z) : Prop :=
  public_level level ∧ members <= TABLE_CAPACITY ∧ waiting <= WAITING_CAPACITY
  ∧ (∃ p, endpoint_ok peer_id addresses p)
  ∧ window_ok created_at expires_at MAX_ADVERTISEMENT_LIFETIME_MS.

Lemma validate_advertisement_fields_Ok level members waiting peer_id addresses created expires :
  validate_advertisement_fields level members waiting peer_id addresses created expires = Ok tt ↔
  advertisement_fields_ok level members waiting peer_id addresses created expires.
Proof.
  unfold validate_advertisement_fields, advertisement_fields_ok. split.
  - intros Hv. apply bind_Ok in Hv as ([] & Hl%validate_public_level_Ok & Hv).
    do 2 apply bind_Ok in Hv as (? & ? & Hv).
    apply bind_Ok in Hv as ([] & He%validate_endpoint_Ok & Hw%check_window_Ok).
    inv_ok. bool_props. split_and!; done || apply Hl || apply Hw.
  - intros (Hl%validate_public_level_Ok & Hm & Hn & He%validate_endpoint_Ok & Hw).
    rewrite Hl. cbn [mbind result_bind]. unfold reject_if.
    rewrite !(proj2 (Z.ltb_ge _ _)) by lia. cbn [mbind result_bind]. rewrite He. by apply check_window_Ok.
Qed.

Lemma ticket_verify_at_Ok t now :
  ticket_verify_at t now = Ok tt ↔
  tk_version t = POOL_DOCUMENT_VERSION
  ∧ ticket_fields_ok (tk_peer_id t) (tk_addresses t) (tk_level t) (requested_buy_in t)
      (tk_created_at t) (tk_expires_at t)
  ∧ is_signed_time_window_active (tk_created_at t) (tk_expires_at t) now = true
  ∧ cert_player_id (att_certificate (tk_attestation t)) = tk_player_id t
  ∧ cert_device (att_certificate (tk_attestation t)) = tk_device t
  ∧ attestation_verify (tk_attestation t) POOL_TICKET_DOMAIN (ticket_unsigned_bytes t) now = Ok tt.
Proof.
  unfold ticket_verify_at, validate_active_window. split.
  - intros Hv. apply bind_Ok in Hv as (? & ? & Hv).
    apply bind_Ok in Hv as ([] & Hf%validate_ticket_fields_Ok & Hv).
    do 2 apply bind_Ok in Hv as (? & ? & Hv). apply map_err_Ok in Hv. inv_ok. by bool_props.
  - intros (Hver & Hf%validate_ticket_fields_Ok & Hw & Hp & Hd & Hv).
    rewrite Hver, Hf, Hw, Hp, Hd. cbn [reject_if mbind result_bind negb].
    rewrite !bool_decide_true by done. cbn [reject_if mbind result_bind negb orb]. by rewrite Hv.
Qed.

Lemma advertisement_verify_at_Ok a now :
  advertisement_verify_at a now = Ok tt ↔
  ad_version a = POOL_DOCUMENT_VERSION
  ∧ advertisement_fields_ok (ad_level a) (ad_members a) (ad_waiting a) (admission_peer_id a)
      (admission_addresses a) (ad_created_at a) (ad_expires_at a)
  ∧ is_signed_time_window_active (ad_created_at a) (ad_expires_at a) now = true
  ∧ cert_player_id (att_certificate (ad_attestation a)) = signer_player_id a
  ∧ cert_device (att_certificate (ad_attestation a)) = signer_device a
  ∧ attestation_verify (ad_attestation a) TABLE_ADVERTISEMENT_DOMAIN
      (advertisement_unsigned_bytes a) now = Ok tt.
Proof.
  unfold advertisement_verify_at, validate_active_window. split.
  - intros Hv. apply bind_Ok in Hv as (? & ? & Hv).
    apply bind_Ok in Hv as ([] & Hf%validate_advertisement_fields_Ok & Hv).
    do 2 apply bind_Ok in Hv as (? & ? & Hv). apply map_err_Ok in Hv. inv_ok. by bool_props.
  - intros (Hver & Hf%validate_advertisement_fields_Ok & Hw & Hp & Hd & Hv).
    rewrite Hver, Hf, Hw, Hp, Hd. cbn [reject_if mbind result_bind negb].
    rewrite !bool_decide_true by done. cbn [reject_if mbind result_bind negb orb]. by rewrite Hv.
Qed.

(** ** Ranking tickets *)

(** A ticket a peer counts for [level] at [now]. *)
Definition counts (level : StakeLevel) (now : Z) (t : PoolTicket) : Prop :=
  ticket_verify_at t now = Ok tt ∧ tk_level t = level.

Lemma counts_skip level now t :
  negb (is_ok (ticket_verify_at t now)) || negb (bool_decide (tk_level t = level)) = false ↔
  counts level now t.
Proof.
  unfold counts. rewrite orb_false_iff, !negb_false_iff, is_ok_true, bool_decide_eq_true.
  split; [intros [[[] ?] ?]; done|intros [-> ?]; eauto].
Qed.

(** [t] is the best ticket of its player among [l]. *)
Definition best_ticket (level : StakeLevel) (now : Z) (l : list PoolTicket) (t : PoolTicket) : Prop :=
  t ∈ l ∧ counts level now t
  ∧ ∀ t', t' ∈ l → counts level now t' → tk_player_id t' = tk_player_id t →
      ord_leb (ticket_id t) (ticket_id t') = true.

Lemma best_ticket_snoc level now l x t :
  best_ticket level now l t →
  (counts level now x → tk_player_id x = tk_player_id t → ord_leb (ticket_id t) (ticket_id x) = true) →
  best_ticket level now (l ++ [x]) t.
Proof.
  intros (Hin & Hc & Hb) Hx. split; [set_solver|]. split; [done|].
  intros t' [Ht'|Ht']%elem_of_app; [by apply Hb|]. apply list_elem_of_singleton in Ht' as ->. auto.
Qed.

Lemma best_ticket_new level now l x :
  counts level now x →
  (∀ t, t ∈ l → counts level now t → tk_player_id t = tk_player_id x →
     ord_leb (ticket_id x) (ticket_id t) = true) →
  best_ticket level now (l ++ [x]) x.
Proof.
  intros Hx Hl. split; [set_solver|]. split; [done|].
  intros t' [Ht'|Ht']%elem_of_app; [by apply Hl|]. apply list_elem_of_singleton in Ht' as ->.
  intros _ _. apply ord_leb_refl.
Qed.

(** The map after the tickets [l] holds the best ticket of every player who
    has one that counts. *)
Definition kept_ok (level : StakeLevel) (now : Z) (l : list PoolTicket)
    (m : gmap PlayerId PoolTicket) : Prop :=
  (∀ p t, m !! p = Some t → tk_player_id t = p ∧ best_ticket level now l t)
  ∧ ∀ t, t ∈ l → counts level now t → is_Some (m !! tk_player_id t).

Lemma kept_insert level now l m x :
  kept_ok level now l m → counts level now x → best_ticket level now (l ++ [x]) x →
  kept_ok level now (l ++ [x]) (<[tk_player_id x := x]> m).
Proof.
  intros [Hs Hc] Hx Hbest. split.
  - intros p t Ht. apply lookup_insert_Some in Ht as [[<- <-]|[Hne Ht]]; [done|].
    destruct (Hs p t Ht) as [Hp Hb]. split; [done|]. apply best_ticket_snoc; [done|]. congruence.
  - intros t Ht Hct. rewrite lookup_insert_is_Some'. set_solver.
Qed.

Lemma keep_ticket_ok level now l m x :
  kept_ok level now l m → kept_ok level now (l ++ [x]) (keep_ticket level now m x).
Proof.
  intros Hm. pose proof Hm as [Hs Hc]. unfold keep_ticket. destruct (negb _ || negb _) eqn:Hx.
  - assert (¬ counts level now x) as Hn by (intros Hc'%counts_skip; congruence). split; [|set_solver].
    intros p t Ht. destruct (Hs p t Ht) as [Hp Hb]. split; [done|]. by apply best_ticket_snoc.
  - apply counts_skip in Hx. destruct (m !! tk_player_id x) as [old|] eqn:Hold.
    + destruct (Hs _ _ Hold) as (Hpo & _ & _ & Hbo). destruct (ord_ltb _ _) eqn:Hlt.
      * apply kept_insert; [done|done|]. apply best_ticket_new; [done|]. intros t Ht Hct Hpt.
        eapply ord_leb_trans; [by apply ord_ltb_leb|]. apply Hbo; [done|done|congruence].
      * rewrite ord_ltb_not_leb, negb_false_iff in Hlt. split; [|set_solver].
        intros p t Ht. destruct (Hs p t Ht) as [Hp Hb]. split; [done|].
        apply best_ticket_snoc; [done|]. intros _ Hpx. by assert (t = old) as -> by congruence.
    + apply kept_insert; [done|done|]. apply best_ticket_new; [done|]. intros t Ht Hct Hpt.
      destruct (Hc t Ht Hct) as [? Hs']. by rewrite Hpt, Hold in Hs'.
Qed.

Notation kept level now l := (fold_left (keep_ticket level now) l ∅).

Lemma kept_spec level now l : kept_ok level now l (kept level now l).
Proof.
  induction l as [|x l IH] using rev_ind; [by split; set_solver|].
  rewrite fold_left_app. by apply keep_ticket_ok.
Qed.

Lemma elem_of_rank level now l t :
  t ∈ rank_pool_tickets l level now ↔ kept level now l !! tk_player_id t = Some t.
Proof.
  unfold rank_pool_tickets. rewrite elem_of_sort_by_key, elem_of_btree_values. split; [|eauto].
  intros [p Hp]. destruct (proj1 (kept_spec level now l) p t Hp) as [-> _]. done.
Qed.

Lemma NoDup_rank_players level now l : NoDup (map tk_player_id (rank_pool_tickets l level now)).
Proof.
  unfold rank_pool_tickets. rewrite (Permutation_map tk_player_id (sort_by_key_perm _ _)).
  unfold btree_values. rewrite map_map.
  rewrite (map_ext_in _ fst); [apply NoDup_btree_keys|].
  intros [p t] Hpt%list_elem_of_In. apply elem_of_btree_entries in Hpt.
  by destruct (proj1 (kept_spec level now l) p t Hpt).
Qed.

(** The waiting players are ranked fairly.  [rank_pool_tickets] lists, by
    increasing ticket id, exactly one ticket for every player who has a valid
    ticket for the level, and it is that player's smallest one; tickets that
    do not verify or ask for another level are ignored. *)
Theorem rank_pool_tickets_spec l level now :
  StronglySorted (key_le ticket_id) (rank_pool_tickets l level now)
  ∧ NoDup (map tk_player_id (rank_pool_tickets l level now))
  ∧ (∀ t, t ∈ rank_pool_tickets l level now → best_ticket level now l t)
  ∧ ∀ t, t ∈ l → counts level now t →
      ∃ t', t' ∈ rank_pool_tickets l level now ∧ tk_player_id t' = tk_player_id t.
Proof.
  split; [apply sort_by_key_sorted|]. split; [apply NoDup_rank_players|].
  pose proof (kept_spec level now l) as [Hs Hc]. split.
  - intros t Ht%elem_of_rank. by apply Hs in Ht as [_ ?].
  - intros t Ht Hct. destruct (Hc t Ht Hct) as [t' Ht']. exists t'.
    destruct (Hs _ _ Ht') as [Hp _]. split; [|done]. apply elem_of_rank. by rewrite Hp.
Qed.

Lemma best_ticket_unique level now l t t' :
  (∀ x y, x ∈ l → y ∈ l → counts level now x → counts level now y → ticket_id x = ticket_id y → x = y) →
  best_ticket level now l t → best_ticket level now l t' → tk_player_id t = tk_player_id t' → t = t'.
Proof.
  intros Hinj (Hin & Hc & Hb) (Hin' & Hc' & Hb') Hp. apply Hinj; try done.
  apply ord_leb_antisym; [by apply Hb|by apply Hb'].
Qed.

(** Every peer that has received the same tickets ranks them the same
    way, in whatever order and however often they arrived, as long as no two
    different valid tickets have the same id. *)
Theorem rank_pool_tickets_agree l l' level now :
  (∀ x y, x ∈ l → y ∈ l → counts level now x → counts level now y → ticket_id x = ticket_id y → x = y) →
  (∀ t, t ∈ l ↔ t ∈ l') → rank_pool_tickets l level now = rank_pool_tickets l' level now.
Proof.
  intros Hinj Hl. unfold rank_pool_tickets. f_equal. f_equal.
  pose proof (kept_spec level now l) as [Hs Hc]. pose proof (kept_spec level now l') as [Hs' Hc'].
  assert (∀ t, best_ticket level now l t ↔ best_ticket level now l' t) as Hbest.
  { intros t. unfold best_ticket. by setoid_rewrite Hl. }
  apply map_eq. intros p. apply option_eq. intros t. split; intros Ht.
  - destruct (Hs p t Ht) as [<- Hb]. destruct (Hc' t) as [t' Ht']; [by apply Hl, Hb|apply Hb|].
    rewrite Ht'. f_equal. destruct (Hs' _ _ Ht') as [Hp Hb']. symmetry.
    eapply best_ticket_unique; [exact Hinj|done|by apply Hbest|done].
  - destruct (Hs' p t Ht) as [<- Hb]. destruct (Hc t) as [t' Ht']; [by apply Hl, Hb|apply Hb|].
    rewrite Ht'. f_equal. destruct (Hs _ _ Ht') as [Hp Hb'].
    eapply best_ticket_unique; [exact Hinj|done|by apply Hbest|done].
Qed.

(** ** Choosing a table *)

(** The candidate an advertisement stands for. *)
Definition candidate_of (a : TableAdvertisement) : TableCandidate :=
  mkCandidate (ad_table_id a) (level_id (ad_level a)) (ad_members a) (ad_waiting a) TABLE_CAPACITY
    (ad_lifecycle a).

Lemma as_candidate_verified a now :
  advertisement_verify_at a now = Ok tt → trim_is_empty (level_id (ad_level a)) = false →
  as_candidate a = Ok (candidate_of a).
Proof.
  intros (_ & (_ & Hm & Hw & _) & _)%advertisement_verify_at_Ok Hid.
  unfold as_candidate, TableCandidate_new, TABLE_CAPACITY, WAITING_CAPACITY in *. rewrite Hid.
  unfold reject_if. simpl. by rewrite !(proj2 (Z.ltb_ge _ _)) by lia.
Qed.

(** The tables of a level that a peer knows from verified advertisements. *)
Definition known_table (level : StakeLevel) (now : Z) (a : TableAdvertisement) : option TableCandidate :=
  if is_ok (advertisement_verify_at a now) && bool_decide (ad_level a = level)
  then match as_candidate a with Ok c => Some c | _ => None end else None.

Lemma usable_known level now a :
  trim_is_empty (level_id level) = false →
  match known_table level now a with
  | Some c => c = candidate_of a
              ∧ advertisement_usable level now a = is_joinable_for c (level_id level)
  | None => advertisement_usable level now a = false
  end.
Proof.
  intros Hid. unfold known_table, advertisement_usable.
  destruct (is_ok (advertisement_verify_at a now)) eqn:Hv; [|done].
  case_bool_decide as Hl; [|done]. apply is_ok_true in Hv as [[] Hv]. cbn [andb].
  rewrite (as_candidate_verified a now) by congruence. split; [done|].
  unfold is_joinable_for, candidate_of. cbn [cand_level_id lifecycle member_count waiting_count capacity]. rewrite Hl.
  rewrite (bool_decide_true (level_id level = level_id level)) by done. reflexivity.
Qed.

Lemma known_tables_joinable level now ads :
  trim_is_empty (level_id level) = false →
  filter (λ c, is_joinable_for c (level_id level) = true) (omap (known_table level now) ads)
  = map candidate_of (filter (λ a, advertisement_usable level now a = true) ads).
Proof.
  intros Hid. induction ads as [|a ads IH]; [done|]. rewrite filter_cons.
  pose proof (usable_known level now a Hid) as Ha. simpl omap.
  destruct (known_table level now a) as [c|].
  - destruct Ha as [-> Ha]. rewrite filter_cons, Ha. case_decide; [|done]. simpl. by rewrite <-IH.
  - rewrite decide_False by congruence. done.
Qed.

(** The network layer chooses the table the domain would choose: on the
    advertisements a peer holds, [select_table_advertisement] is
    [select_compatible_table] on the tables that the verified advertisements
    of the level stand for. *)
Theorem select_advertisement_refines_pool ads level now :
  trim_is_empty (level_id level) = false →
  candidate_of <$> select_table_advertisement ads level now
  = select_compatible_table (omap (known_table level now) ads) (level_id level).
Proof.
  intros Hid. unfold select_compatible_table, select_table_advertisement.
  by rewrite known_tables_joinable, min_by_map.
Qed.

(** ** Tickets and advertisements cannot be altered *)

Definition ticket_fits (t : PoolTicket) : Prop :=
  id_len 32 (tk_player_id t) ∧ id_len 32 (tk_device t) ∧ short (tk_peer_id t)
  ∧ level_fits (tk_level t) ∧ is_u64 (requested_buy_in t) ∧ is_u64 (tk_created_at t)
  ∧ is_u64 (tk_expires_at t) ∧ bytes_of_len 16 (tk_nonce t).

Lemma ticket_bytes_inj t u :
  ticket_fits t → ticket_fits u → addresses_fit (tk_addresses t) → addresses_fit (tk_addresses u) →
  ticket_unsigned_bytes t = ticket_unsigned_bytes u → tk_attestation t = tk_attestation u → t = u.
Proof.
  intros (? & ? & ? & ? & ? & ? & ? & ?) (? & ? & ? & ? & ? & ? & ? & ?) Ht Hu Hb Ha.
  unfold ticket_unsigned_bytes, canonical_ticket_bytes in Hb. apply app_inj_1 in Hb as [_ Hb]; [|done].
  peel Hb prefix_inj_u8. peel Hb (prefix_inj_id (t:=TagPlayer) 32).
  peel Hb (prefix_inj_id (t:=TagDevice) 32). peel Hb prefix_inj_write_bytes.
  peel Hb prefix_inj_addresses. peel Hb prefix_inj_level. do 3 peel Hb prefix_inj_u64.
  destruct t, u; simplify_eq/=. done.
Qed.

Definition advertisement_fits (a : TableAdvertisement) : Prop :=
  id_len 32 (ad_table_id a) ∧ level_fits (ad_level a) ∧ is_u64 (ad_membership_version a)
  ∧ bytes_of_len 32 (ad_membership_hash a) ∧ id_len 32 (creator_player_id a)
  ∧ id_len 32 (signer_player_id a) ∧ id_len 32 (signer_device a) ∧ short (admission_peer_id a)
  ∧ is_u64 (ad_created_at a) ∧ is_u64 (ad_expires_at a) ∧ bytes_of_len 16 (ad_nonce a).

Lemma prefix_inj_lifecycle : prefix_inj (λ _, True) (λ l, [lifecycle_tag l]).
Proof. apply prefix_inj_byte. by intros [] []. Qed.

Lemma advertisement_bytes_inj a b :
  advertisement_fits a → advertisement_fits b → addresses_fit (admission_addresses a) →
  addresses_fit (admission_addresses b) →
  advertisement_unsigned_bytes a = advertisement_unsigned_bytes b →
  ad_attestation a = ad_attestation b → a = b.
Proof.
  intros (? & ? & ? & ? & ? & ? & ? & ? & ? & ? & ?) (? & ? & ? & ? & ? & ? & ? & ? & ? & ? & ?)
    Hp Hq Hb Ha.
  unfold advertisement_unsigned_bytes, canonical_advertisement_bytes, write_table_id in Hb.
  apply app_inj_1 in Hb as [_ Hb]; [|done].
  peel Hb prefix_inj_u8. peel Hb (prefix_inj_id (t:=TagTable) 32). peel Hb prefix_inj_level.
  do 2 peel Hb prefix_inj_u8. peel Hb prefix_inj_lifecycle. peel Hb prefix_inj_u64.
  peel Hb (prefix_inj_array 32). do 2 peel Hb (prefix_inj_id (t:=TagPlayer) 32).
  peel Hb (prefix_inj_id (t:=TagDevice) 32). peel Hb prefix_inj_write_bytes.
  peel Hb prefix_inj_addresses. do 2 peel Hb prefix_inj_u64.
  destruct a, b; simplify_eq/=. done.
Qed.

(** Pool documents cannot be altered in flight: two tickets, or two
    advertisements, that both verify (at whatever times) and carry the same
    attestation are the same document, unless BLAKE3 collides on them. *)
Theorem pool_documents_binding t u a b now now' :
  (∀ x y, x ∈ [ticket_unsigned_bytes t; advertisement_unsigned_bytes a] →
     y ∈ [ticket_unsigned_bytes u; advertisement_unsigned_bytes b] → blake3 x = blake3 y → x = y) →
  (ticket_fits t → ticket_fits u → tk_attestation t = tk_attestation u →
   ticket_verify_at t now = Ok tt → ticket_verify_at u now' = Ok tt → t = u)
  ∧ (advertisement_fits a → advertisement_fits b → ad_attestation a = ad_attestation b →
     advertisement_verify_at a now = Ok tt → advertisement_verify_at b now' = Ok tt → a = b).
Proof.
  intros Hcol. split.
  - intros Ht Hu Hatt (_ & ((p & Hp) & _) & _ & _ & _ & Hv)%ticket_verify_at_Ok
      (_ & ((q & Hq) & _) & _ & _ & _ & Hv')%ticket_verify_at_Ok.
    rewrite <-Hatt in Hv'. pose proof (attestation_binds _ _ _ _ _ _ _ Hv Hv') as Hb.
    apply Hcol in Hb; [|set_solver..]. apply ticket_bytes_inj; eauto using endpoint_fits.
  - intros Ht Hu Hatt (_ & (_ & _ & _ & (p & Hp) & _) & _ & _ & _ & Hv)%advertisement_verify_at_Ok
      (_ & (_ & _ & _ & (q & Hq) & _) & _ & _ & _ & Hv')%advertisement_verify_at_Ok.
    rewrite <-Hatt in Hv'. pose proof (attestation_binds _ _ _ _ _ _ _ Hv Hv') as Hb.
    apply Hcol in Hb; [|set_solver..]. apply advertisement_bytes_inj; eauto using endpoint_fits.
Qed.

(** A ticket or advertisement is issued exactly when its fields are
    allowed, and is then accepted as long as its window and the certificate
    of its signer are good. *)
Theorem pool_documents_roundtrip `{!CryptoLaws} peer addrs level buy_in created expires nonce device c now
    table members waiting lc version hash creator :
  verify_at c created = Ok tt → cert_device c = device_public_key device →
  is_signed_time_window_active created expires now = true → verify_at c now = Ok tt →
  (ticket_fields_ok peer addrs level buy_in created expires →
   ∃ t, ticket_issue peer addrs level buy_in created expires nonce device c = Ok t
     ∧ ticket_verify_at t now = Ok tt ∧ tk_player_id t = cert_player_id c)
  ∧ (advertisement_fields_ok level members waiting peer addrs created expires →
     ∃ a, advertisement_issue table level members waiting lc version hash creator peer addrs created
            expires nonce device c = Ok a
       ∧ advertisement_verify_at a now = Ok tt ∧ signer_player_id a = cert_player_id c).
Proof.
  intros Hc Hd Hnow Hc'.
  pose proof (λ domain bytes, attestation_complete domain bytes created device c Hc Hd) as Hatt.
  split; intros Hf.
  - unfold ticket_issue. rewrite (proj2 (validate_ticket_fields_Ok _ _ _ _ _ _) Hf). cbn zeta.
    cbn [mbind result_bind]. edestruct Hatt as (a & -> & Hac & Hv). eexists. split; [done|].
    split; [|done]. apply ticket_verify_at_Ok. simpl. rewrite Hac. auto 10.
  - unfold advertisement_issue.
    rewrite (proj2 (validate_advertisement_fields_Ok _ _ _ _ _ _ _) Hf). cbn zeta.
    cbn [mbind result_bind]. edestruct Hatt as (a & -> & Hac & Hv). eexists. split; [done|].
    split; [|done]. apply advertisement_verify_at_Ok. simpl. rewrite Hac. auto 10.
Qed.
End pool.

(** ** Witnesses *)
Definition pool_level : StakeLevel := mkStakeLevel "10k-20k" 10000 20000 800000 2000000 2 6.

Definition example_ticket (nonce : Z) : PoolTicket :=
  mkTicket 2 (cert_player_id phone_certificate) (cert_device phone_certificate) [5] [[1; 5]] pool_level
    900000 2000 5000 (replicate 16 nonce)
    (phone_attestation POOL_TICKET_DOMAIN
       (canonical_ticket_bytes 2 (cert_player_id phone_certificate) (cert_device phone_certificate) [5]
          [[1; 5]] pool_level 900000 2000 5000 (replicate 16 nonce))).
Definition example_advertisement (id members : Z) : TableAdvertisement :=
  mkAdvertisement 2 (repeat_id 32 id) pool_level members 0 Waiting 1 (replicate 32 9)
    (cert_player_id phone_certificate) (cert_player_id phone_certificate) (cert_device phone_certificate)
    [5] [[1; 5]] 2000 5000 (replicate 16 1)
    (phone_attestation TABLE_ADVERTISEMENT_DOMAIN
       (canonical_advertisement_bytes 2 (repeat_id 32 id) pool_level members 0 Waiting 1 (replicate 32 9)
          (cert_player_id phone_certificate) (cert_player_id phone_certificate)
          (cert_device phone_certificate) [5] [[1; 5]] 2000 5000 (replicate 16 1))).

Lemma rank_pool_tickets_agree_witness :
  @rank_pool_tickets toy_crypto toy_libp2p [example_ticket 1; example_ticket 2] pool_level 3000
  = @rank_pool_tickets toy_crypto toy_libp2p [example_ticket 2; example_ticket 2; example_ticket 1]
      pool_level 3000.
Proof.
  apply (@rank_pool_tickets_agree toy_crypto toy_libp2p); [|set_solver].
  intros x y. rewrite !elem_of_cons, !elem_of_nil.
  intros [->|[->|[]]] [->|[->|[]]] _ _ Hid; try reflexivity; exfalso; vm_compute in Hid; discriminate.
Defined.

Lemma select_advertisement_refines_pool_witness :
  candidate_of <$> @select_table_advertisement toy_crypto toy_libp2p
    [example_advertisement 3 2; example_advertisement 4 5; example_advertisement 5 6] pool_level 3000
  = select_compatible_table
      (omap (@known_table toy_crypto toy_libp2p pool_level 3000)
         [example_advertisement 3 2; example_advertisement 4 5; example_advertisement 5 6]) "10k-20k".
Proof. apply (@select_advertisement_refines_pool toy_crypto toy_libp2p). vm_compute. reflexivity. Defined.

Example select_example :
  @select_table_advertisement toy_crypto toy_libp2p
    [example_advertisement 3 2; example_advertisement 4 5; example_advertisement 5 6] pool_level 3000
  = Some (example_advertisement 4 5).
Proof. vm_compute. reflexivity. Qed.

Lemma pool_documents_no_collision x y :
  x ∈ [ticket_unsigned_bytes (example_ticket 1); advertisement_unsigned_bytes (example_advertisement 3 2)] →
  y ∈ [ticket_unsigned_bytes (example_ticket 1); advertisement_unsigned_bytes (example_advertisement 3 2)] →
  toy_blake3 x = toy_blake3 y → x = y.
Proof.
  rewrite !elem_of_cons, !elem_of_nil.
  intros [->|[->|[]]] [->|[->|[]]] Hb; try reflexivity; exfalso; vm_compute in Hb; discriminate.
Qed.

Lemma pool_documents_binding_witness :
  example_ticket 1 = example_ticket 1 ∧ example_advertisement 3 2 = example_advertisement 3 2.
Proof.
  destruct (@pool_documents_binding toy_crypto toy_libp2p (example_ticket 1) (example_ticket 1)
    (example_advertisement 3 2) (example_advertisement 3 2) 3000 4000 pool_documents_no_collision)
    as [Ht Ha].
  split; [apply Ht|apply Ha]; try (vm_compute; reflexivity);
    (repeat split; vm_compute; congruence).
Defined.

Lemma pool_documents_roundtrip_witness :
  (@ticket_fields_ok toy_libp2p [5] [[1; 5]] pool_level 900000 2000 5000 →
   ∃ t, @ticket_issue toy_crypto toy_libp2p [5] [[1; 5]] pool_level 900000 2000 5000 (replicate 16 1) [2]
          phone_certificate = Ok t
     ∧ @ticket_verify_at toy_crypto toy_libp2p t 3000 = Ok tt
     ∧ tk_player_id t = cert_player_id phone_certificate)
  ∧ (@advertisement_fields_ok toy_libp2p pool_level 3 0 [5] [[1; 5]] 2000 5000 →
     ∃ a, @advertisement_issue toy_crypto toy_libp2p (repeat_id 32 7) pool_level 3 0 Waiting 1
            (replicate 32 9) (repeat_id 32 8) [5] [[1; 5]] 2000 5000 (replicate 16 1) [2]
            phone_certificate = Ok a
       ∧ @advertisement_verify_at toy_crypto toy_libp2p a 3000 = Ok tt
       ∧ signer_player_id a = cert_player_id phone_certificate).
Proof. apply (@pool_documents_roundtrip toy_crypto toy_libp2p toy_crypto_laws); vm_compute; reflexivity. Defined.
