(* ===== verification/TableSession.v ===== *)
(** * TableSession: agreeing on who sits at a table (token-holdem-network table_session.rs)

    A player asks to join with a signed intent that carries the pool ticket,
    or to leave with a signed intent.  The member on the lowest physical seat
    collects the intents into a membership proposal, signs it, and every
    seated member answers with a signed acceptance.  The membership is adopted
    when the acceptances of all the seated members are there. *)

From S2P Require Import Prelude Machine Encoding Order Ids Table TablePool Membership.
From S2P Require Import HandRoster Identity Session PoolProtocol.

Definition JOIN_INTENT_DOMAIN : list Z := domain_bytes "token-holdem/join-intent/v1".
Definition LEAVE_INTENT_DOMAIN : list Z := domain_bytes "token-holdem/leave-intent/v1".
Definition MEMBERSHIP_PROPOSAL_DOMAIN : list Z := domain_bytes "token-holdem/membership-proposal/v1".
Definition MEMBERSHIP_ACCEPTANCE_DOMAIN : list Z :=
  domain_bytes "token-holdem/membership-acceptance/v1".
Definition MAX_INTENT_LIFETIME_MS : Z := 60 * 60 * 1000.

Definition LeaveIntentId : Type := ident TagLeave.
#[export] Instance LeaveIntentId_ord : Ord LeaveIntentId := ident_ord _.
#[export] Instance LeaveIntentId_ord_laws : OrdLaws LeaveIntentId := ident_ord_laws _.

Inductive TableSessionProtocolError :=
  | UnsupportedJoinIntentVersion (v : Z) | UnsupportedLeaveIntentVersion (v : Z)
  | UnsupportedMembershipProposalVersion (v : Z) | UnsupportedSignedMembershipProposalVersion (v : Z)
  | UnsupportedMembershipAcceptanceVersion (v : Z) | InvalidIntentValidityWindow
  | JoinIntentOutsideTicketWindow | JoinIntentExpired | LeaveIntentExpired
  | JoinIntentIdentityMismatch | LeaveIntentIdentityMismatch | LeaveInvalidHandNumber
  | InvalidMembershipVersion | InvalidMembershipSize (n : Z) | ProposalWaitingListFull
  | TooManyLeaveIntents | WrongTable | WrongStakeLevel | NonCanonicalOrdering | DuplicateLeaveIntent
  | MembershipProposalHashMismatch | MissingCoordinator | UnauthorizedCoordinator
  | ClaimNotInMembership (c : JoinClaimId) | AcceptanceProposalMismatch | AcceptanceIdentityMismatch
  | AcceptanceOutsideValidityWindow | DuplicateAcceptance | IncompleteAcceptances
  | SessionPool (e : TablePoolProtocolError) | SessionAttestation (e : DeviceAttestationError)
  | SessionMembership (e : MembershipError).

(** [u8::try_from(len).expect(..)], the count byte of a canonical list. *)
Definition len_u8 {E A} (l : list A) : result E Z :=
  if (length l <=? 255)%nat then Ok (Z.of_nat (length l)) else Panic.

(** ** Checks shared by the documents *)

(** [validate_window]. *)
Definition validate_intent_window (created_at expires_at : Z) : result TableSessionProtocolError unit :=
  check_window created_at expires_at MAX_INTENT_LIFETIME_MS InvalidIntentValidityWindow.
(** [validate_active_window]. *)
Definition validate_intent_active (created_at expires_at now : Z) (e : TableSessionProtocolError)
    : result TableSessionProtocolError unit :=
  reject_if (negb (is_signed_time_window_active created_at expires_at now)) e.
(** [validate_join_window]. *)
Definition validate_join_window (t : PoolTicket) (created_at expires_at : Z)
    : result TableSessionProtocolError unit :=
  _ ← validate_intent_window created_at expires_at;
  reject_if (negb (is_signed_time_not_future (tk_created_at t) created_at)
             || negb (is_signed_time_before_expiry expires_at (tk_expires_at t)))
    JoinIntentOutsideTicketWindow.
(** [validate_leave_fields]. *)
Definition validate_leave_fields (after_hand_number : option Z) (created_at expires_at : Z)
    : result TableSessionProtocolError unit :=
  _ ← reject_if (bool_decide (after_hand_number = Some 0)) LeaveInvalidHandNumber;
  validate_intent_window created_at expires_at.
(** [validate_ticket_signer]. *)
Definition validate_ticket_signer `{Crypto} (t : PoolTicket) (device : list Z) (c : DeviceCertificate)
    : result TableSessionProtocolError unit :=
  reject_if (negb (bool_decide (tk_player_id t = cert_player_id c))
             || negb (bool_decide (tk_device t = cert_device c))
             || negb (bool_decide (tk_device t = device_public_key device)))
    JoinIntentIdentityMismatch.

(** ** [JoinIntent] *)
Record JoinIntent := mkJoinIntent {
  ji_version : Z;
  ji_table_id : TableId;
  ji_ticket : PoolTicket;
  ji_created_at : Z;
  ji_expires_at : Z;
  ji_nonce : list Z;
  ji_attestation : DeviceAttestation;
}.
#[export] Instance JoinIntent_eq_dec : EqDecision JoinIntent.
Proof. solve_decision. Defined.
Definition ji_player (j : JoinIntent) : PlayerId := tk_player_id (ji_ticket j).
Definition ji_device (j : JoinIntent) : DevicePublicKey := tk_device (ji_ticket j).
Definition ji_level (j : JoinIntent) : StakeLevel := tk_level (ji_ticket j).

(** [canonical_join_intent_bytes]. *)
Definition canonical_join_intent_bytes (version : Z) (table_id : TableId) (ticket : PoolTicketId)
    (created_at expires_at : Z) (nonce : list Z) : list Z :=
  JOIN_INTENT_DOMAIN ++ [version] ++ write_table_id table_id ++ as_bytes ticket
  ++ be_bytes 8 created_at ++ be_bytes 8 expires_at ++ nonce.

(** ** [LeaveIntent] *)
Record LeaveIntent := mkLeaveIntent {
  li_version : Z;
  li_table_id : TableId;
  after_hand_number : option Z;
  li_membership_version : Z;
  li_player : PlayerId;
  li_device : DevicePublicKey;
  li_created_at : Z;
  li_expires_at : Z;
  li_nonce : list Z;
  li_attestation : DeviceAttestation;
}.
#[export] Instance LeaveIntent_eq_dec : EqDecision LeaveIntent.
Proof. solve_decision. Defined.

(** [canonical_leave_intent_bytes]. *)
Definition canonical_leave_intent_bytes (version : Z) (table_id : TableId)
    (after_hand_number : option Z) (membership_version : Z) (player : PlayerId)
    (device : DevicePublicKey) (created_at expires_at : Z) (nonce : list Z) : list Z :=
  LEAVE_INTENT_DOMAIN ++ [version] ++ write_table_id table_id
  ++ enc_option (be_bytes 8) after_hand_number ++ be_bytes 8 membership_version ++ as_bytes player
  ++ as_bytes device ++ be_bytes 8 created_at ++ be_bytes 8 expires_at ++ nonce.
Definition leave_unsigned_bytes (l : LeaveIntent) : list Z :=
  canonical_leave_intent_bytes (li_version l) (li_table_id l) (after_hand_number l)
    (li_membership_version l) (li_player l) (li_device l) (li_created_at l) (li_expires_at l)
    (li_nonce l).

(** ** Proposals and acceptances *)
Record MembershipSeatClaim := mkSeatClaim {
  sc_seat : PhysicalSeat;
  sc_intent : JoinIntent;
}.
#[export] Instance MembershipSeatClaim_eq_dec : EqDecision MembershipSeatClaim.
Proof. solve_decision. Defined.
Record MembershipProposal := mkProposal {
  mp_version : Z;
  mp_table_id : TableId;
  mp_level : StakeLevel;
  mp_membership_version : Z;
  previous_membership_hash : option (list Z);
  mp_seats : list MembershipSeatClaim;
  mp_waiting : list JoinIntent;
  leave_intents : list LeaveIntent;
  proposal_hash : list Z;
}.
#[export] Instance MembershipProposal_eq_dec : EqDecision MembershipProposal.
Proof. solve_decision. Defined.
Record SignedMembershipProposal := mkSignedProposal {
  sp_version : Z;
  sp_proposal : MembershipProposal;
  sp_coordinator : JoinClaimId;
  sp_attestation : DeviceAttestation;
}.
#[export] Instance SignedMembershipProposal_eq_dec : EqDecision SignedMembershipProposal.
Proof. solve_decision. Defined.
Record MembershipAcceptance := mkAcceptance {
  ac_version : Z;
  ac_proposal_hash : list Z;
  ac_claim : JoinClaimId;
  ac_player : PlayerId;
  ac_device : DevicePublicKey;
  ac_accepted_at : Z;
  ac_attestation : DeviceAttestation;
}.

(** [canonical_signed_membership_bytes], [canonical_membership_acceptance_bytes]. *)
Definition canonical_signed_membership_bytes (version : Z) (hash : list Z) (claim : JoinClaimId)
    : list Z :=
  MEMBERSHIP_PROPOSAL_DOMAIN ++ [version] ++ hash ++ as_bytes claim.
Definition canonical_membership_acceptance_bytes (version : Z) (hash : list Z) (claim : JoinClaimId)
    (player : PlayerId) (device : DevicePublicKey) (accepted_at : Z) : list Z :=
  MEMBERSHIP_ACCEPTANCE_DOMAIN ++ [version] ++ hash ++ as_bytes claim ++ as_bytes player
  ++ as_bytes device ++ be_bytes 8 accepted_at.

Section documents.
Context `{Crypto, Libp2p}.

Definition ji_unsigned_bytes (j : JoinIntent) : list Z :=
  canonical_join_intent_bytes (ji_version j) (ji_table_id j) (ticket_id (ji_ticket j))
    (ji_created_at j) (ji_expires_at j) (ji_nonce j).

(** [JoinIntent::claim_id]. *)
Definition ji_claim_id (j : JoinIntent) : JoinClaimId := Ident (blake3 (ji_unsigned_bytes j)).
(** [JoinIntent::as_candidate]. *)
Definition ji_as_candidate (j : JoinIntent) : JoinCandidate :=
  mkJoin (ji_claim_id j) (ji_player j) (ji_device j) (requested_buy_in (ji_ticket j)).

(** [JoinIntent::issue]. *)
Definition join_issue (table_id : TableId) (t : PoolTicket) (created_at expires_at : Z)
    (nonce device : list Z) (c : DeviceCertificate) : result TableSessionProtocolError JoinIntent :=
  _ ← map_err SessionPool (ticket_verify_at t created_at);
  _ ← validate_join_window t created_at expires_at;
  _ ← validate_ticket_signer t device c;
  let unsigned := canonical_join_intent_bytes 1 table_id (ticket_id t) created_at expires_at nonce in
  attestation ← map_err SessionAttestation
    (attestation_issue JOIN_INTENT_DOMAIN unsigned created_at device c);
  Ok (mkJoinIntent 1 table_id t created_at expires_at nonce attestation).

(** [JoinIntent::verify_at]. *)
Definition join_verify_at (j : JoinIntent) (now : Z) : result TableSessionProtocolError unit :=
  _ ← reject_if (negb (ji_version j =? 1)) (UnsupportedJoinIntentVersion (ji_version j));
  _ ← map_err SessionPool (ticket_verify_at (ji_ticket j) now);
  _ ← validate_join_window (ji_ticket j) (ji_created_at j) (ji_expires_at j);
  _ ← validate_intent_active (ji_created_at j) (ji_expires_at j) now JoinIntentExpired;
  let c := att_certificate (ji_attestation j) in
  _ ← reject_if (negb (bool_decide (cert_player_id c = tk_player_id (ji_ticket j)))
                 || negb (bool_decide (cert_device c = tk_device (ji_ticket j))))
        JoinIntentIdentityMismatch;
  map_err SessionAttestation
    (attestation_verify (ji_attestation j) JOIN_INTENT_DOMAIN (ji_unsigned_bytes j) now).

(** [LeaveIntent::id], [issue] and [verify_at]. *)
Definition leave_id (l : LeaveIntent) : LeaveIntentId := Ident (blake3 (leave_unsigned_bytes l)).
Definition leave_issue (table_id : TableId) (after_hand_number : option Z) (membership_version : Z)
    (created_at expires_at : Z) (nonce device : list Z) (c : DeviceCertificate)
    : result TableSessionProtocolError LeaveIntent :=
  _ ← validate_leave_fields after_hand_number created_at expires_at;
  _ ← reject_if (negb (bool_decide (cert_device c = device_public_key device)))
        LeaveIntentIdentityMismatch;
  let unsigned := canonical_leave_intent_bytes 1 table_id after_hand_number membership_version
                    (cert_player_id c) (cert_device c) created_at expires_at nonce in
  attestation ← map_err SessionAttestation
    (attestation_issue LEAVE_INTENT_DOMAIN unsigned created_at device c);
  Ok (mkLeaveIntent 1 table_id after_hand_number membership_version (cert_player_id c)
        (cert_device c) created_at expires_at nonce attestation).
Definition leave_verify_at (l : LeaveIntent) (now : Z) : result TableSessionProtocolError unit :=
  _ ← reject_if (negb (li_version l =? 1)) (UnsupportedLeaveIntentVersion (li_version l));
  _ ← validate_leave_fields (after_hand_number l) (li_created_at l) (li_expires_at l);
  _ ← validate_intent_active (li_created_at l) (li_expires_at l) now LeaveIntentExpired;
  let c := att_certificate (li_attestation l) in
  _ ← reject_if (negb (bool_decide (cert_player_id c = li_player l))
                 || negb (bool_decide (cert_device c = li_device l))) LeaveIntentIdentityMismatch;
  map_err SessionAttestation
    (attestation_verify (li_attestation l) LEAVE_INTENT_DOMAIN (leave_unsigned_bytes l) now).

(** [MembershipSeatClaim::as_member]. *)
Definition as_member (s : MembershipSeatClaim) : TableMember :=
  mkMember (ji_player (sc_intent s)) (ji_device (sc_intent s))
    (requested_buy_in (ji_ticket (sc_intent s))) (sc_seat s).
Definition seat_claim (s : MembershipSeatClaim) : JoinClaimId := ji_claim_id (sc_intent s).

(** [coordinator_claim_id], [seat_by_claim_id], [seat_by_player]. *)
Definition coordinator_claim_id (p : MembershipProposal) : option JoinClaimId :=
  seat_claim <$> min_by (λ a b, compare (sc_seat a) (sc_seat b)) (mp_seats p).
Definition seat_by_claim_id (p : MembershipProposal) (c : JoinClaimId) : option MembershipSeatClaim :=
  find_first (λ s, bool_decide (seat_claim s = c)) (mp_seats p).
Definition seat_by_player (p : MembershipProposal) (player : PlayerId) : option MembershipSeatClaim :=
  find_first (λ s, bool_decide (ji_player (sc_intent s) = player)) (mp_seats p).

(** [MembershipProposal::as_membership]. *)
Definition as_membership (p : MembershipProposal) : result TableSessionProtocolError TableMembership :=
  map_err SessionMembership
    (TableMembership_new (mp_table_id p) (mp_membership_version p) (map as_member (mp_seats p))
       (map ji_as_candidate (mp_waiting p))).

(** [MembershipProposal::canonical_unsigned_bytes]; the three counts are
    asserted to fit a byte. *)
Definition seat_claim_bytes (s : MembershipSeatClaim) : list Z := [sc_seat s] ++ as_bytes (seat_claim s).
Definition proposal_unsigned_bytes (p : MembershipProposal) : result TableSessionProtocolError (list Z) :=
  seats ← len_u8 (mp_seats p);
  waiting ← len_u8 (mp_waiting p);
  leaving ← len_u8 (leave_intents p);
  Ok (MEMBERSHIP_PROPOSAL_DOMAIN ++ [mp_version p] ++ write_table_id (mp_table_id p)
      ++ write_level (mp_level p) ++ be_bytes 8 (mp_membership_version p)
      ++ write_optional_hash (previous_membership_hash p)
      ++ [seats] ++ flat_map seat_claim_bytes (mp_seats p)
      ++ [waiting] ++ flat_map (λ j, as_bytes (ji_claim_id j)) (mp_waiting p)
      ++ [leaving] ++ flat_map (λ l, as_bytes (leave_id l)) (leave_intents p)).

(** [validate_join_intent]. *)
Definition validate_join_intent (p : MembershipProposal) (now : Z) (j : JoinIntent)
    : result TableSessionProtocolError unit :=
  _ ← join_verify_at j now;
  _ ← reject_if (negb (bool_decide (ji_table_id j = mp_table_id p))) WrongTable;
  reject_if (negb (bool_decide (ji_level j = mp_level p))) WrongStakeLevel.
(** One turn of the loop over the leave intents. *)
Definition validate_leave_intent (p : MembershipProposal) (now : Z) (leaving : gset PlayerId)
    (l : LeaveIntent) : result TableSessionProtocolError (gset PlayerId) :=
  _ ← leave_verify_at l now;
  _ ← reject_if (negb (bool_decide (li_table_id l = mp_table_id p))) WrongTable;
  insert_new leaving (li_player l) DuplicateLeaveIntent.
(** [validate_contents]. *)
Definition canonical_order (p : MembershipProposal) : bool :=
  windows_all (λ a b, ord_ltb (sc_seat a) (sc_seat b)) (mp_seats p)
  && windows_all (λ a b, ord_ltb (ji_claim_id a) (ji_claim_id b)) (mp_waiting p)
  && windows_all (λ a b, ord_ltb (leave_id a) (leave_id b)) (leave_intents p).
Definition validate_contents (p : MembershipProposal) (now : Z) : result TableSessionProtocolError unit :=
  let seats := Z.of_nat (length (mp_seats p)) in
  _ ← reject_if (mp_membership_version p =? 0) InvalidMembershipVersion;
  _ ← reject_if ((seats =? 0) || (TABLE_CAPACITY <? seats)) (InvalidMembershipSize seats);
  _ ← reject_if (WAITING_CAPACITY <? Z.of_nat (length (mp_waiting p))) ProposalWaitingListFull;
  _ ← reject_if (TABLE_CAPACITY + WAITING_CAPACITY <? Z.of_nat (length (leave_intents p)))
        TooManyLeaveIntents;
  _ ← reject_if (negb (canonical_order p)) NonCanonicalOrdering;
  _ ← try_each (λ s, validate_join_intent p now (sc_intent s)) (mp_seats p);
  _ ← try_each (validate_join_intent p now) (mp_waiting p);
  _ ← try_fold (validate_leave_intent p now) ∅ (leave_intents p);
  _ ← as_membership p;
  Ok tt.

Definition set_proposal_hash (hash : list Z) (p : MembershipProposal) : MembershipProposal :=
  mkProposal (mp_version p) (mp_table_id p) (mp_level p) (mp_membership_version p)
    (previous_membership_hash p) (mp_seats p) (mp_waiting p) (leave_intents p) hash.

(** [MembershipProposal::assemble]. *)
Definition assemble (table_id : TableId) (level : StakeLevel) (membership_version : Z)
    (previous : option (list Z)) (seats : list MembershipSeatClaim) (waiting : list JoinIntent)
    (leaving : list LeaveIntent) (now : Z) : result TableSessionProtocolError MembershipProposal :=
  let p := mkProposal 1 table_id level membership_version previous (sort_by_key sc_seat seats)
             (sort_by_key ji_claim_id waiting) (sort_by_key leave_id leaving) (replicate 32 0) in
  _ ← validate_contents p now;
  bytes ← proposal_unsigned_bytes p;
  Ok (set_proposal_hash (blake3 bytes) p).

(** [MembershipProposal::verify_at]. *)
Definition proposal_verify_at (p : MembershipProposal) (now : Z) : result TableSessionProtocolError unit :=
  _ ← reject_if (negb (mp_version p =? 1)) (UnsupportedMembershipProposalVersion (mp_version p));
  _ ← validate_contents p now;
  bytes ← proposal_unsigned_bytes p;
  reject_if (negb (bool_decide (blake3 bytes = proposal_hash p))) MembershipProposalHashMismatch.

(** [validate_join_signer]. *)
Definition validate_join_signer (j : JoinIntent) (device : list Z) (c : DeviceCertificate)
    : result TableSessionProtocolError unit :=
  reject_if (negb (bool_decide (ji_player j = cert_player_id c))
             || negb (bool_decide (ji_device j = cert_device c))
             || negb (bool_decide (ji_device j = device_public_key device)))
    JoinIntentIdentityMismatch.

(** [SignedMembershipProposal::issue] and [verify_at]. *)
Definition signed_issue (p : MembershipProposal) (now : Z) (device : list Z) (c : DeviceCertificate)
    : result TableSessionProtocolError SignedMembershipProposal :=
  _ ← proposal_verify_at p now;
  claim ← ok_or (coordinator_claim_id p) MissingCoordinator;
  coordinator ← ok_or (seat_by_claim_id p claim) MissingCoordinator;
  _ ← map_err (λ _, UnauthorizedCoordinator) (validate_join_signer (sc_intent coordinator) device c);
  let unsigned := canonical_signed_membership_bytes 1 (proposal_hash p) claim in
  attestation ← map_err SessionAttestation
    (attestation_issue MEMBERSHIP_PROPOSAL_DOMAIN unsigned now device c);
  Ok (mkSignedProposal 1 p claim attestation).
Definition signed_verify_at (s : SignedMembershipProposal) (now : Z)
    : result TableSessionProtocolError unit :=
  let p := sp_proposal s in
  _ ← reject_if (negb (sp_version s =? 1)) (UnsupportedSignedMembershipProposalVersion (sp_version s));
  _ ← proposal_verify_at p now;
  _ ← reject_if (negb (bool_decide (coordinator_claim_id p = Some (sp_coordinator s))))
        UnauthorizedCoordinator;
  coordinator ← ok_or (seat_by_claim_id p (sp_coordinator s)) MissingCoordinator;
  let c := att_certificate (sp_attestation s) in
  _ ← reject_if (negb (bool_decide (cert_player_id c = ji_player (sc_intent coordinator)))
                 || negb (bool_decide (cert_device c = ji_device (sc_intent coordinator))))
        UnauthorizedCoordinator;
  map_err SessionAttestation
    (attestation_verify (sp_attestation s) MEMBERSHIP_PROPOSAL_DOMAIN
       (canonical_signed_membership_bytes (sp_version s) (proposal_hash p) (sp_coordinator s)) now).

(** [MembershipAcceptance::issue] and [verify_at]. *)
Definition acceptance_issue (s : SignedMembershipProposal) (claim : JoinClaimId) (accepted_at : Z)
    (device : list Z) (c : DeviceCertificate) : result TableSessionProtocolError MembershipAcceptance :=
  _ ← signed_verify_at s accepted_at;
  seat ← ok_or (seat_by_claim_id (sp_proposal s) claim) (ClaimNotInMembership claim);
  _ ← map_err (λ _, AcceptanceIdentityMismatch) (validate_join_signer (sc_intent seat) device c);
  let hash := proposal_hash (sp_proposal s) in
  let player := ji_player (sc_intent seat) in
  let key := ji_device (sc_intent seat) in
  let unsigned := canonical_membership_acceptance_bytes 1 hash claim player key accepted_at in
  attestation ← map_err SessionAttestation
    (attestation_issue MEMBERSHIP_ACCEPTANCE_DOMAIN unsigned accepted_at device c);
  Ok (mkAcceptance 1 hash claim player key accepted_at attestation).
Definition acceptance_unsigned_bytes (a : MembershipAcceptance) : list Z :=
  canonical_membership_acceptance_bytes (ac_version a) (ac_proposal_hash a) (ac_claim a)
    (ac_player a) (ac_device a) (ac_accepted_at a).
Definition acceptance_verify_at (a : MembershipAcceptance) (s : SignedMembershipProposal) (now : Z)
    : result TableSessionProtocolError unit :=
  _ ← reject_if (negb (ac_version a =? 1)) (UnsupportedMembershipAcceptanceVersion (ac_version a));
  _ ← signed_verify_at s now;
  _ ← reject_if (negb (bool_decide (ac_proposal_hash a = proposal_hash (sp_proposal s))))
        AcceptanceProposalMismatch;
  seat ← ok_or (seat_by_claim_id (sp_proposal s) (ac_claim a)) (ClaimNotInMembership (ac_claim a));
  let c := att_certificate (ac_attestation a) in
  _ ← reject_if (negb (bool_decide (ac_player a = ji_player (sc_intent seat)))
                 || negb (bool_decide (ac_device a = ji_device (sc_intent seat)))
                 || negb (bool_decide (cert_player_id c = ac_player a))
                 || negb (bool_decide (cert_device c = ac_device a))) AcceptanceIdentityMismatch;
  _ ← reject_if (negb (is_signed_time_not_future (ac_accepted_at a) now)
                 || negb (is_signed_time_before_expiry (ac_accepted_at a)
                            (ji_expires_at (sc_intent seat)))) AcceptanceOutsideValidityWindow;
  map_err SessionAttestation
    (attestation_verify (ac_attestation a) MEMBERSHIP_ACCEPTANCE_DOMAIN (acceptance_unsigned_bytes a)
       now).

(** [verify_membership_acceptances]. *)
Definition observe_acceptance (s : SignedMembershipProposal) (now : Z) (observed : gset JoinClaimId)
    (a : MembershipAcceptance) : result TableSessionProtocolError (gset JoinClaimId) :=
  _ ← acceptance_verify_at a s now;
  insert_new observed (ac_claim a) DuplicateAcceptance.
Definition verify_membership_acceptances (s : SignedMembershipProposal)
    (acceptances : list MembershipAcceptance) (now : Z) : result TableSessionProtocolError unit :=
  _ ← signed_verify_at s now;
  let expected : gset JoinClaimId := list_to_set (map seat_claim (mp_seats (sp_proposal s))) in
  observed ← try_fold (observe_acceptance s now) ∅ acceptances;
  reject_if (negb (bool_decide (observed = expected))) IncompleteAcceptances.

End documents.

(** [TableSessionMessage]. *)
Inductive TableSessionMessage :=
  | MsgJoinIntent (j : JoinIntent)
  | MsgLeaveIntent (l : LeaveIntent)
  | MsgMembershipProposal (s : SignedMembershipProposal)
  | MsgMembershipAcceptance (a : MembershipAcceptance).

(** ** What the checks mean *)
Section checks.
Context `{Crypto, Libp2p}.

(** A join intent: a valid ticket, a window inside the ticket's and running
    now, signed by the ticket's player and device. *)
Definition intent_window_ok (t : PoolTicket) (created_at expires_at : Z) : Prop :=
  window_ok created_at expires_at MAX_INTENT_LIFETIME_MS
  ∧ is_signed_time_not_future (tk_created_at t) created_at = true
  ∧ is_signed_time_before_expiry expires_at (tk_expires_at t) = true.

Lemma validate_join_window_Ok t created expires :
  validate_join_window t created expires = Ok tt ↔ intent_window_ok t created expires.
Proof.
  unfold validate_join_window, validate_intent_window, intent_window_ok.
  ok_iff. by rewrite check_window_Ok.
Qed.

Lemma join_verify_at_Ok j now :
  join_verify_at j now = Ok tt ↔
  ji_version j = 1 ∧ ticket_verify_at (ji_ticket j) now = Ok tt
  ∧ intent_window_ok (ji_ticket j) (ji_created_at j) (ji_expires_at j)
  ∧ is_signed_time_window_active (ji_created_at j) (ji_expires_at j) now = true
  ∧ (cert_player_id (att_certificate (ji_attestation j)) = ji_player j
     ∧ cert_device (att_certificate (ji_attestation j)) = ji_device j)
  ∧ attestation_verify (ji_attestation j) JOIN_INTENT_DOMAIN (ji_unsigned_bytes j) now = Ok tt.
Proof. unfold join_verify_at, validate_intent_active. ok_iff. by rewrite validate_join_window_Ok. Qed.

Definition leave_fields_ok (after : option Z) (created_at expires_at : Z) : Prop :=
  after ≠ Some 0 ∧ window_ok created_at expires_at MAX_INTENT_LIFETIME_MS.

Lemma leave_verify_at_Ok l now :
  leave_verify_at l now = Ok tt ↔
  li_version l = 1 ∧ leave_fields_ok (after_hand_number l) (li_created_at l) (li_expires_at l)
  ∧ is_signed_time_window_active (li_created_at l) (li_expires_at l) now = true
  ∧ (cert_player_id (att_certificate (li_attestation l)) = li_player l
     ∧ cert_device (att_certificate (li_attestation l)) = li_device l)
  ∧ attestation_verify (li_attestation l) LEAVE_INTENT_DOMAIN (leave_unsigned_bytes l) now = Ok tt.
Proof.
  unfold leave_verify_at, validate_intent_active, validate_leave_fields, validate_intent_window,
    leave_fields_ok.
  ok_iff. rewrite check_window_Ok. tauto.
Qed.

(** A join or leave intent that belongs to the table of a proposal. *)
Definition intent_for (p : MembershipProposal) (now : Z) (j : JoinIntent) : Prop :=
  join_verify_at j now = Ok tt ∧ ji_table_id j = mp_table_id p ∧ ji_level j = mp_level p.
Definition leave_for (p : MembershipProposal) (now : Z) (l : LeaveIntent) : Prop :=
  leave_verify_at l now = Ok tt ∧ li_table_id l = mp_table_id p.

Lemma validate_join_intent_Ok p now j : validate_join_intent p now j = Ok tt ↔ intent_for p now j.
Proof. unfold validate_join_intent, intent_for. by ok_iff. Qed.

Lemma validate_leave_intents_Ok p now ls s' :
  try_fold (validate_leave_intent p now) ∅ ls = Ok s' ↔
  Forall (leave_for p now) ls ∧ NoDup (map li_player ls) ∧ s' = list_to_set (map li_player ls).
Proof.
  rewrite (fold_insert_new _ (leave_for p now) li_player).
  - rewrite (right_id_L ∅ (∪)). split; [tauto|]. intros (? & ? & ?). split_and!; set_solver.
  - intros s x s''. unfold validate_leave_intent, leave_for. ok_iff. rewrite insert_new_Ok. tauto.
Qed.

(** What [validate_contents] admits. *)
Record proposal_ok (p : MembershipProposal) (now : Z) : Prop := {
  po_version : mp_membership_version p ≠ 0;
  po_size : (1 <= length (mp_seats p) <= 6)%nat;
  po_waiting : (length (mp_waiting p) <= 6)%nat;
  po_leaving : (length (leave_intents p) <= 12)%nat;
  po_seat_order : StronglySorted (key_lt sc_seat) (mp_seats p);
  po_waiting_order : StronglySorted (key_lt ji_claim_id) (mp_waiting p);
  po_leave_order : StronglySorted (key_lt leave_id) (leave_intents p);
  po_seats : Forall (λ s, intent_for p now (sc_intent s)) (mp_seats p);
  po_waiters : Forall (intent_for p now) (mp_waiting p);
  po_leavers : Forall (leave_for p now) (leave_intents p);
  po_leave_once : NoDup (map li_player (leave_intents p));
  po_people : distinct (map member_person (map as_member (mp_seats p))
                        ++ map join_person (map ji_as_candidate (mp_waiting p)));
}.

Lemma as_membership_ok p m :
  StronglySorted (key_lt sc_seat) (mp_seats p) →
  as_membership p = Ok m ↔
  (length (mp_seats p) <= 6)%nat ∧ (length (mp_waiting p) <= 6)%nat
  ∧ distinct (map member_person (map as_member (mp_seats p))
              ++ map join_person (map ji_as_candidate (mp_waiting p)))
  ∧ m = mkMembership (mp_table_id p) (mp_membership_version p) (seats_of (map as_member (mp_seats p)))
          (sort_by_key claim_id (map ji_as_candidate (mp_waiting p))).
Proof.
  intros Hs%sorted_lt_NoDup. unfold as_membership. rewrite map_err_Ok, new_ok, !length_map.
  assert (map physical_seat (map as_member (mp_seats p)) = map sc_seat (mp_seats p)) as ->
    by (by rewrite map_map).
  tauto.
Qed.

Lemma validate_contents_Ok p now : validate_contents p now = Ok tt ↔ proposal_ok p now.
Proof.
  unfold validate_contents, canonical_order. ok_iff.
  rewrite !(windows_lt_sorted _), !try_each_Ok.
  setoid_rewrite validate_join_intent_Ok. rewrite bind_Ok.
  setoid_rewrite validate_leave_intents_Ok. setoid_rewrite bind_Ok. unfold TABLE_CAPACITY, WAITING_CAPACITY. split.
  - intros (? & [? ?] & ? & ? & [[Hs ?] ?] & ? & ? & (? & (? & ? & _) & m & Hm & _)).
    apply as_membership_ok in Hm as (? & ? & ? & _); [|done]. by split; (lia || done).
  - intros []. split_and!; try done; try lia. eexists. split; [by split|].
    eexists. split; [apply as_membership_ok; [done|split_and!; (lia || done)]|done].
Qed.

(** A list of at most six or twelve never makes the count byte overflow. *)
Lemma len_u8_Ok {E A} (l : list A) : (length l <= 255)%nat → len_u8 (E:=E) l = Ok (Z.of_nat (length l)).
Proof. intros Hl. unfold len_u8. by rewrite (proj2 (Nat.leb_le _ _)). Qed.

Definition proposal_bytes (p : MembershipProposal) : list Z :=
  MEMBERSHIP_PROPOSAL_DOMAIN ++ [mp_version p] ++ write_table_id (mp_table_id p)
  ++ write_level (mp_level p) ++ be_bytes 8 (mp_membership_version p)
  ++ write_optional_hash (previous_membership_hash p)
  ++ [Z.of_nat (length (mp_seats p))] ++ flat_map seat_claim_bytes (mp_seats p)
  ++ [Z.of_nat (length (mp_waiting p))] ++ flat_map (λ j, as_bytes (ji_claim_id j)) (mp_waiting p)
  ++ [Z.of_nat (length (leave_intents p))] ++ flat_map (λ l, as_bytes (leave_id l)) (leave_intents p).

Lemma proposal_unsigned_bytes_Ok p now :
  proposal_ok p now → proposal_unsigned_bytes p = Ok (proposal_bytes p).
Proof.
  intros []. unfold proposal_unsigned_bytes. by rewrite !len_u8_Ok by lia.
Qed.

Lemma proposal_verify_at_Ok p now :
  proposal_verify_at p now = Ok tt ↔
  mp_version p = 1 ∧ proposal_ok p now ∧ blake3 (proposal_bytes p) = proposal_hash p.
Proof.
  unfold proposal_verify_at. ok_iff. rewrite validate_contents_Ok, bind_Ok. split.
  - intros (? & Hok & bytes & Hb & He). rewrite (proposal_unsigned_bytes_Ok _ _ Hok) in Hb.
    injection Hb as <-. by revert He; ok_iff.
  - intros (? & Hok & He). split; [done|]. split; [done|]. exists (proposal_bytes p).
    split; [by eapply proposal_unsigned_bytes_Ok|]. by ok_iff.
Qed.

(** [s] is the seated claim of the coordinator. *)
Definition lowest_seat (p : MembershipProposal) (s : MembershipSeatClaim) : Prop :=
  s ∈ mp_seats p ∧ ∀ s', s' ∈ mp_seats p → sc_seat s <= sc_seat s'.

Lemma coordinator_head p s0 rest :
  mp_seats p = s0 :: rest → StronglySorted (key_lt sc_seat) (mp_seats p) →
  coordinator_claim_id p = Some (seat_claim s0) ∧ seat_by_claim_id p (seat_claim s0) = Some s0.
Proof.
  intros Hs Hsort. unfold coordinator_claim_id, seat_by_claim_id. rewrite Hs in *.
  split; [|simpl; by rewrite bool_decide_true]. unfold min_by. cbn [fmap option_fmap option_map].
  do 2 f_equal. inversion Hsort as [|?? _ Hlt]; subst. clear Hsort Hs.
  induction rest as [|s rest IH]; [done|]. apply Forall_cons in Hlt as [Hlt Hall]. cbn [fold_left].
  unfold key_lt in Hlt. rewrite ord_ltb_lt in Hlt. rewrite Hlt. auto.
Qed.

Lemma coordinator_spec p s :
  StronglySorted (key_lt sc_seat) (mp_seats p) → lowest_seat p s →
  coordinator_claim_id p = Some (seat_claim s) ∧ seat_by_claim_id p (seat_claim s) = Some s.
Proof.
  intros Hsort [Hin Hlow]. destruct (mp_seats p) as [|s0 rest] eqn:E; [set_solver|].
  assert (s = s0) as ->; [|rewrite <-E in Hsort; by eapply coordinator_head].
  apply elem_of_cons in Hin as [->|Hin]; [done|].
  inversion Hsort as [|?? _ Hlt]; subst. rewrite Forall_forall in Hlt. apply Hlt in Hin.
  specialize (Hlow s0 ltac:(set_solver)). unfold key_lt in Hin. rewrite ord_ltb_lt in Hin.
  change (sc_seat s0 < sc_seat s) in Hin. lia.
Qed.

Lemma proposal_lowest_seat p now : proposal_ok p now → ∃ s, lowest_seat p s.
Proof.
  intros []. destruct (mp_seats p) as [|s rest] eqn:E; [simpl in *; lia|]. exists s.
  split; rewrite E; [set_solver|]. intros s' [->|Hs']%elem_of_cons; [done|].
  inversion po_seat_order0 as [|?? _ Hlt]; subst. rewrite Forall_forall in Hlt.
  apply Hlt in Hs'. unfold key_lt in Hs'. rewrite ord_ltb_lt in Hs'.
  change (sc_seat s < sc_seat s') in Hs'. lia.
Qed.

(** The person a seated claim belongs to. *)
Definition seat_person (s : MembershipSeatClaim) : person := member_person (as_member s).
Definition cert_person (c : DeviceCertificate) : person := (cert_player_id c, cert_device c).

Lemma seat_by_claim_id_Some p c s :
  seat_by_claim_id p c = Some s → s ∈ mp_seats p ∧ seat_claim s = c.
Proof. intros [Hin Hc]%find_first_Some. by apply bool_decide_eq_true in Hc. Qed.

(** A signed proposal: the coordinator, who sits on the lowest seat, signed
    the hash of a valid proposal. *)
Lemma signed_verify_at_Ok s now :
  signed_verify_at s now = Ok tt ↔
  sp_version s = 1 ∧ proposal_verify_at (sp_proposal s) now = Ok tt
  ∧ ∃ seat, lowest_seat (sp_proposal s) seat ∧ sp_coordinator s = seat_claim seat
      ∧ cert_person (att_certificate (sp_attestation s)) = seat_person seat
      ∧ attestation_verify (sp_attestation s) MEMBERSHIP_PROPOSAL_DOMAIN
          (canonical_signed_membership_bytes (sp_version s) (proposal_hash (sp_proposal s))
             (sp_coordinator s)) now = Ok tt.
Proof.
  unfold signed_verify_at. ok_iff. rewrite bind_ok_or. split.
  - intros (? & Hp & Hc & seat & Hs & Hv). split; [done|]. split; [done|].
    pose proof Hp as (_ & Hok & _)%proposal_verify_at_Ok.
    destruct (proposal_lowest_seat _ _ Hok) as [low Hlow].
    destruct (coordinator_spec _ low (po_seat_order _ _ Hok) Hlow) as [Hcl Hsl].
    exists low. split; [done|]. revert Hv. ok_iff. intros ([? ?] & ?).
    assert (sp_coordinator s = seat_claim low) as Hco by congruence.
    assert (seat = low) as -> by congruence. split; [done|]. split; [|done].
    unfold cert_person, seat_person, member_person. simpl. congruence.
  - intros (? & Hp & seat & Hlow & Hc & Hper & Hv). split; [done|]. split; [done|].
    pose proof Hp as (_ & Hok & _)%proposal_verify_at_Ok.
    destruct (coordinator_spec _ seat (po_seat_order _ _ Hok) Hlow) as [Hcl Hsl].
    rewrite Hc. split; [done|]. exists seat. split; [done|]. ok_iff.
    injection Hper as Hp1 Hp2. rewrite <-Hc. by split.
Qed.

(** The acceptance [a] of the seated claim [seat]: signed by its player, for
    this proposal, before the intent expires. *)
Definition accepts (s : SignedMembershipProposal) (now : Z) (seat : MembershipSeatClaim)
    (a : MembershipAcceptance) : Prop :=
  ac_version a = 1 ∧ ac_proposal_hash a = proposal_hash (sp_proposal s)
  ∧ ac_claim a = seat_claim seat ∧ (ac_player a, ac_device a) = seat_person seat
  ∧ cert_person (att_certificate (ac_attestation a)) = seat_person seat
  ∧ is_signed_time_not_future (ac_accepted_at a) now = true
  ∧ is_signed_time_before_expiry (ac_accepted_at a) (ji_expires_at (sc_intent seat)) = true
  ∧ attestation_verify (ac_attestation a) MEMBERSHIP_ACCEPTANCE_DOMAIN (acceptance_unsigned_bytes a)
      now = Ok tt.

Lemma acceptance_verify_at_Ok a s now :
  acceptance_verify_at a s now = Ok tt ↔
  signed_verify_at s now = Ok tt
  ∧ ∃ seat, seat_by_claim_id (sp_proposal s) (ac_claim a) = Some seat ∧ accepts s now seat a.
Proof.
  unfold acceptance_verify_at, accepts, cert_person, seat_person, member_person. ok_iff.
  rewrite bind_ok_or. split.
  - intros (? & ? & ? & seat & Hs & Hv). split; [done|]. exists seat. split; [done|].
    apply seat_by_claim_id_Some in Hs as [_ Hs]. revert Hv. ok_iff.
    intros ((((? & ?) & ?) & ?) & [? ?] & ?). simpl. split_and!; congruence.
  - intros (? & seat & Hs & ? & ? & ? & Hp & Hc & ? & ? & ?). injection Hp as ??. injection Hc as ??.
    split_and!; try done. exists seat. split; [done|]. ok_iff. split_and!; congruence.
Qed.

(** The acceptances are complete: every one is valid, and exactly the seated
    claims are accepted, each once. *)
Lemma verify_membership_acceptances_Ok s acceptances now :
  verify_membership_acceptances s acceptances now = Ok tt ↔
  signed_verify_at s now = Ok tt
  ∧ Forall (λ a, acceptance_verify_at a s now = Ok tt) acceptances
  ∧ NoDup (map ac_claim acceptances)
  ∧ ∀ c, c ∈ map ac_claim acceptances ↔ c ∈ map seat_claim (mp_seats (sp_proposal s)).
Proof.
  assert (∀ obs a obs', observe_acceptance s now obs a = Ok obs' ↔
    acceptance_verify_at a s now = Ok tt ∧ ac_claim a ∉ obs ∧ obs' = {[ac_claim a]} ∪ obs) as Hobs.
  { intros obs a obs'. unfold observe_acceptance. ok_iff. by rewrite insert_new_Ok. }
  unfold verify_membership_acceptances. ok_iff. rewrite bind_Ok.
  setoid_rewrite (fold_insert_new _ _ _ Hobs). setoid_rewrite reject_if_Ok.
  setoid_rewrite negb_false_iff. setoid_rewrite bool_decide_eq_true. split.
  - intros (? & obs & (? & ? & _ & ->) & Heq). split_and!; try done.
    intros c. rewrite (right_id_L ∅ (∪)) in Heq.
    rewrite <-!(elem_of_list_to_set (C:=gset JoinClaimId)). by rewrite Heq.
  - intros (? & ? & ? & Hc). split; [done|]. eexists. split; [split_and!; [done..|set_solver|done]|].
    apply leibniz_equiv. set_solver.
Qed.
End checks.

(** ** What a verified proposal guarantees *)
Section proposals.
Context `{Crypto, Libp2p}.

Lemma members_seats_of ms :
  StronglySorted (key_lt physical_seat) ms →
  btree_values (seats_of ms) = ms.
Proof.
  intros Hs. pose proof (sorted_lt_NoDup _ _ Hs) as Hnd.
  apply (sorted_perm_eq physical_seat); [..|by apply values_seats_of].
  - by rewrite (Permutation_map physical_seat (values_seats_of ms Hnd)).
  - pose proof (btree_entries_sorted (seats_of ms)) as He. apply sorted_lt_le.
    assert (∀ kx, kx ∈ btree_entries (seats_of ms) → physical_seat kx.2 = kx.1) as Hk.
    { intros [k x] Hx%elem_of_btree_entries. by apply lookup_seats_of in Hx as [_ ?]. }
    unfold btree_values. revert Hk He. generalize (btree_entries (seats_of ms)) as es.
    induction es as [|e es IH]; intros Hk He; [constructor|]. inversion He as [|?? He' Hf]; subst.
    simpl. constructor; [apply IH; set_solver|]. rewrite Forall_map. rewrite Forall_forall in Hf |- *.
    intros e' He''. unfold key_lt. rewrite !Hk by set_solver. by apply Hf.
  - by apply sorted_lt_le.
Qed.

Lemma sorted_map {A B K} `{Ord K} (f : A → B) (key : B → K) (l : list A) :
  StronglySorted (key_lt (λ x, key (f x))) l → StronglySorted (key_lt key) (map f l).
Proof. induction 1; simpl; constructor; [done|]. by apply Forall_map. Qed.

(** The membership a proposal stands for. *)
Definition membership_of (p : MembershipProposal) : TableMembership :=
  mkMembership (mp_table_id p) (mp_membership_version p) (seats_of (map as_member (mp_seats p)))
    (map ji_as_candidate (mp_waiting p)).

Lemma proposal_membership p now :
  proposal_ok p now →
  as_membership p = Ok (membership_of p) ∧ members (membership_of p) = map as_member (mp_seats p).
Proof.
  intros []. split.
  - apply as_membership_ok; [done|]. split_and!; [lia|lia|done|]. unfold membership_of. f_equal. symmetry.
    apply sort_by_key_id, sorted_lt_le, sorted_map. exact po_waiting_order0.
  - unfold members. apply members_seats_of. by apply sorted_map.
Qed.

Lemma membership_of_wf p now :
  proposal_ok p now → Forall (λ s, 1 <= sc_seat s <= 6) (mp_seats p) → membership_wf (membership_of p).
Proof.
  intros Hok Hr. destruct (proposal_membership p now Hok) as [Hm _].
  unfold as_membership in Hm. apply map_err_Ok, new_wf in Hm as [? _]; [done|]. by apply Forall_map.
Qed.

(** The signed intent by which the person [x] asked for this table. *)
Definition consented (p : MembershipProposal) (now : Z) (x : person) : Prop :=
  ∃ j, (j ∈ map sc_intent (mp_seats p) ∨ j ∈ mp_waiting p) ∧ intent_for p now j
    ∧ x = (ji_player j, ji_device j) ∧ cert_person (att_certificate (ji_attestation j)) = x
    ∧ minimum_buy_in (mp_level p) <= requested_buy_in (ji_ticket j) <= maximum_buy_in (mp_level p).

Lemma intent_consented p now j :
  (j ∈ map sc_intent (mp_seats p) ∨ j ∈ mp_waiting p) → intent_for p now j →
  consented p now (ji_player j, ji_device j).
Proof.
  intros Hin Hj. exists j. split; [done|]. split; [done|]. split; [done|].
  destruct Hj as (Hv & _ & Hl). apply join_verify_at_Ok in Hv as (_ & Ht & _ & _ & [Hp Hd] & _).
  apply ticket_verify_at_Ok in Ht as (_ & (_ & _ & Hb & _) & _). split; [|by rewrite <-Hl].
  unfold cert_person. congruence.
Qed.

(** C40: A proposal that verifies describes a table.  It converts to a
    membership whose members are the seated claims in seat order and whose
    waiting list is the waiting claims; no player or device occurs twice among
    them; everyone at the table, seated or waiting, asked for this table with
    an intent that is valid now, signed by that player's device, with a buy-in
    the level allows; and if the seats are physical seats the membership
    satisfies the invariant of the domain. *)
Theorem verified_proposal_membership p now :
  proposal_verify_at p now = Ok tt →
  ∃ m, as_membership p = Ok m
    ∧ ms_table_id m = mp_table_id p ∧ version m = mp_membership_version p ∧ members m ≠ []
    ∧ members m = map as_member (mp_seats p) ∧ waiting m = map ji_as_candidate (mp_waiting p)
    ∧ distinct (people m) ∧ (∀ x, x ∈ people m → consented p now x)
    ∧ (Forall (λ s, 1 <= sc_seat s <= 6) (mp_seats p) → membership_wf m).
Proof.
  intros (_ & Hok & _)%proposal_verify_at_Ok. pose proof Hok as [].
  destruct (proposal_membership p now Hok) as [Hm Hmem].
  exists (membership_of p). split; [exact Hm|]. unfold people. rewrite Hmem.
  cbn [membership_of ms_table_id version waiting].
  split_and!; try done; [by destruct (mp_seats p); simpl in *; [lia|]| |].
  - intros x [Hx|Hx]%elem_of_app; rewrite map_map in Hx; apply list_elem_of_fmap in Hx as (y & -> & Hy).
    + rewrite Forall_forall in po_seats0. apply (intent_consented p now (sc_intent y)); [|by apply po_seats0].
      left. by apply (list_elem_of_fmap_2 sc_intent).
    + rewrite Forall_forall in po_waiters0. apply (intent_consented p now y); [by right|by apply po_waiters0].
  - by eapply membership_of_wf.
Qed.

(** ** Unanimity *)

Lemma seat_by_own_claim p s :
  NoDup (map seat_claim (mp_seats p)) → s ∈ mp_seats p → seat_by_claim_id p (seat_claim s) = Some s.
Proof. intros. by apply (find_first_key seat_claim). Qed.

(** C16: A membership is adopted exactly when everyone who is to be seated has
    signed.  If the seated claims have different ids, the acceptances of a
    signed proposal verify if and only if the proposal does and the
    acceptances, in whatever order they came, are one for each seat: signed by
    the player and device of that seat, for this proposal hash, in time.  No
    acceptance may be missing, doubled or foreign. *)
Theorem acceptances_unanimous s acceptances now :
  NoDup (map seat_claim (mp_seats (sp_proposal s))) →
  verify_membership_acceptances s acceptances now = Ok tt ↔
  signed_verify_at s now = Ok tt
  ∧ ∃ l, l ≡ₚ acceptances ∧ Forall2 (accepts s now) (mp_seats (sp_proposal s)) l.
Proof.
  intros Hnd. rewrite verify_membership_acceptances_Ok.
  enough (signed_verify_at s now = Ok tt → ∀ seat a, seat ∈ mp_seats (sp_proposal s) →
    accepts s now seat a ↔ acceptance_verify_at a s now = Ok tt ∧ ac_claim a = seat_claim seat) as HR.
  { split; intros [Hs Hrest]; split; try done; revert Hrest;
      apply (matched_replies seat_claim ac_claim); auto. }
  intros Hs seat a Hin. rewrite acceptance_verify_at_Ok. split.
  - intros Ha. pose proof Ha as (_ & _ & Hc & _). split; [|done]. split; [done|]. exists seat.
    split; [|done]. rewrite Hc. by apply seat_by_own_claim.
  - intros [(_ & seat' & Hs' & Ha) Hc]. rewrite Hc, seat_by_own_claim in Hs' by done. by injection Hs' as <-.
Qed.

(** ** One acceptance, one membership *)

(** No BLAKE3 collision between the two families of byte strings. *)
Definition collision_free (l k : list (list Z)) : Prop :=
  ∀ x y, x ∈ l → y ∈ k → blake3 x = blake3 y → x = y.

(** The machine widths of the fields. *)
Definition intent_fits (j : JoinIntent) : Prop :=
  id_len 32 (ji_table_id j) ∧ is_u64 (ji_created_at j) ∧ is_u64 (ji_expires_at j)
  ∧ bytes_of_len 16 (ji_nonce j) ∧ ticket_fits (ji_ticket j).
Definition leave_fits (l : LeaveIntent) : Prop :=
  id_len 32 (li_table_id l) ∧ (∀ n, after_hand_number l = Some n → is_u64 n)
  ∧ is_u64 (li_membership_version l) ∧ id_len 32 (li_player l) ∧ id_len 32 (li_device l)
  ∧ is_u64 (li_created_at l) ∧ is_u64 (li_expires_at l) ∧ bytes_of_len 16 (li_nonce l).
Definition proposal_intents (p : MembershipProposal) : list JoinIntent :=
  map sc_intent (mp_seats p) ++ mp_waiting p.
Definition proposal_fits (p : MembershipProposal) : Prop :=
  id_len 32 (mp_table_id p) ∧ level_fits (mp_level p) ∧ is_u64 (mp_membership_version p)
  ∧ (∀ h, previous_membership_hash p = Some h → bytes_of_len 32 h)
  ∧ Forall intent_fits (proposal_intents p) ∧ Forall leave_fits (leave_intents p).
(** Everything that is hashed on the way to the proposal hash. *)
Definition hashed_bytes (p : MembershipProposal) : list (list Z) :=
  proposal_bytes p :: map ji_unsigned_bytes (proposal_intents p)
  ++ map (λ j, ticket_unsigned_bytes (ji_ticket j)) (proposal_intents p)
  ++ map leave_unsigned_bytes (leave_intents p).

(** A ticket without its attestation. *)
Lemma ticket_content_inj t u :
  ticket_fits t → ticket_fits u → addresses_fit (tk_addresses t) → addresses_fit (tk_addresses u) →
  ticket_unsigned_bytes t = ticket_unsigned_bytes u →
  tk_player_id t = tk_player_id u ∧ tk_device t = tk_device u
  ∧ requested_buy_in t = requested_buy_in u ∧ tk_level t = tk_level u.
Proof.
  intros Ht Hu Hat Hau Hb.
  set (u' := mkTicket (tk_version u) (tk_player_id u) (tk_device u) (tk_peer_id u) (tk_addresses u)
    (tk_level u) (requested_buy_in u) (tk_created_at u) (tk_expires_at u) (tk_nonce u) (tk_attestation t)).
  assert (t = u') as E by (by apply ticket_bytes_inj). by rewrite E.
Qed.

Lemma join_verified_addresses j now :
  join_verify_at j now = Ok tt → addresses_fit (tk_addresses (ji_ticket j)).
Proof.
  intros (_ & Ht & _)%join_verify_at_Ok. apply ticket_verify_at_Ok in Ht as (_ & ((q & Hq) & _) & _).
  by eapply endpoint_fits.
Qed.

Lemma claim_binds `{!CryptoLaws} p p' now now' j k :
  collision_free (hashed_bytes p) (hashed_bytes p') → proposal_fits p → proposal_fits p' →
  j ∈ proposal_intents p → k ∈ proposal_intents p' →
  join_verify_at j now = Ok tt → join_verify_at k now' = Ok tt →
  ji_claim_id j = ji_claim_id k → ji_as_candidate j = ji_as_candidate k.
Proof.
  intros Hcol (_ & _ & _ & _ & Hf & _) (_ & _ & _ & _ & Hf' & _) Hj Hk Hvj Hvk Hc.
  rewrite Forall_forall in Hf, Hf'.
  pose proof (Hf j Hj) as (? & ? & ? & ? & Htj). pose proof (Hf' k Hk) as (? & ? & ? & ? & Htk).
  unfold ji_as_candidate. rewrite Hc. unfold ji_claim_id in Hc. injection Hc as Hb.
  apply Hcol in Hb; [|right; apply elem_of_app; left; by apply (list_elem_of_fmap_2 ji_unsigned_bytes)..].
  unfold ji_unsigned_bytes, canonical_join_intent_bytes, write_table_id in Hb.
  apply app_inj_1 in Hb as [_ Hb]; [|done]. peel Hb prefix_inj_u8.
  peel Hb (prefix_inj_id (t:=TagTable) 32).
  peel Hb (prefix_inj_id (t:=TagTicket) 32); [|apply blake3_len..].
  unfold ticket_id in E1. injection E1 as E1.
  apply Hcol in E1; [|right; apply elem_of_app; right; apply elem_of_app; left;
    by apply (list_elem_of_fmap_2 (λ j, ticket_unsigned_bytes (ji_ticket j)))..].
  apply ticket_content_inj in E1 as (Hp & Hd & Hbuy & _);
    [|done|done|by eapply join_verified_addresses..].
  unfold ji_player, ji_device. by rewrite Hp, Hd, Hbuy.
Qed.

Lemma leave_binds p p' l k :
  collision_free (hashed_bytes p) (hashed_bytes p') → proposal_fits p → proposal_fits p' →
  l ∈ leave_intents p → k ∈ leave_intents p' → leave_id l = leave_id k →
  li_player l = li_player k ∧ after_hand_number l = after_hand_number k.
Proof.
  intros Hcol (_ & _ & _ & _ & _ & Hf) (_ & _ & _ & _ & _ & Hf') Hl Hk Hc.
  rewrite Forall_forall in Hf, Hf'.
  pose proof (Hf l Hl) as (? & ? & ? & ? & ? & ? & ? & ?).
  pose proof (Hf' k Hk) as (? & ? & ? & ? & ? & ? & ? & ?).
  unfold leave_id in Hc. injection Hc as Hb.
  apply Hcol in Hb; [|right; apply elem_of_app; right; apply elem_of_app; right;
    by apply (list_elem_of_fmap_2 leave_unsigned_bytes)..].
  unfold leave_unsigned_bytes, canonical_leave_intent_bytes, write_table_id in Hb.
  apply app_inj_1 in Hb as [_ Hb]; [|done]. peel Hb prefix_inj_u8.
  peel Hb (prefix_inj_id (t:=TagTable) 32). peel Hb (prefix_inj_option _ _ prefix_inj_u64).
  peel Hb prefix_inj_u64. by peel Hb (prefix_inj_id (t:=TagPlayer) 32).
Qed.

Lemma prefix_inj_seat_claim :
  prefix_inj (λ x : PhysicalSeat * JoinClaimId, id_len 32 x.2) (λ x, [x.1] ++ as_bytes x.2).
Proof.
  intros [a c] [b d] r s Hx Hy Hb. simpl in *. injection Hb as -> Hb.
  peel Hb (prefix_inj_id (t:=TagClaim) 32). by subst.
Qed.

(** What the proposal hash commits to. *)
Definition seat_view (s : MembershipSeatClaim) : PhysicalSeat * JoinClaimId := (sc_seat s, seat_claim s).
Lemma proposal_bytes_inj `{!CryptoLaws} p p' :
  proposal_fits p → proposal_fits p' → proposal_bytes p = proposal_bytes p' →
  mp_table_id p = mp_table_id p' ∧ mp_level p = mp_level p'
  ∧ mp_membership_version p = mp_membership_version p'
  ∧ previous_membership_hash p = previous_membership_hash p'
  ∧ map seat_view (mp_seats p) = map seat_view (mp_seats p')
  ∧ map ji_claim_id (mp_waiting p) = map ji_claim_id (mp_waiting p')
  ∧ map leave_id (leave_intents p) = map leave_id (leave_intents p').
Proof.
  intros (? & ? & ? & ? & _ & _) (? & ? & ? & ? & _ & _) Hb.
  unfold proposal_bytes, write_table_id in Hb. apply app_inj_1 in Hb as [_ Hb]; [|done].
  peel Hb prefix_inj_u8. peel Hb (prefix_inj_id (t:=TagTable) 32). peel Hb prefix_inj_level.
  peel Hb prefix_inj_u64. peel Hb prefix_inj_optional_hash. peel Hb prefix_inj_u8.
  apply (flat_map_view_inj (λ x, id_len 32 x.2) (λ x, [x.1] ++ as_bytes x.2) seat_view) in Hb as [E5 Hb];
    [|apply prefix_inj_seat_claim|intros; apply blake3_len|lia].
  peel Hb prefix_inj_u8.
  apply (flat_map_view_inj (id_len 32) as_bytes ji_claim_id) in Hb as [E7 Hb];
    [|apply (prefix_inj_id (t:=TagClaim) 32)|intros; apply blake3_len|lia].
  peel Hb prefix_inj_u8.
  rewrite <-(app_nil_r (flat_map _ (leave_intents p))), <-(app_nil_r (flat_map _ (leave_intents p'))) in Hb.
  apply (flat_map_view_inj (id_len 32) as_bytes leave_id) in Hb as [E9 _];
    [|apply (prefix_inj_id (t:=TagLeave) 32)|intros; apply blake3_len|lia].
  done.
Qed.

(** An acceptance commits its signer to one membership.  If the same
    acceptance verifies for two signed proposals, at whatever times, then the
    proposals stand for the same membership of the same table: the same
    players, devices and buy-ins on the same seats and in the waiting list, at
    the same level and version, after the same previous membership, with the
    same players leaving after the same hands (unless BLAKE3 collides on what
    the two proposals hash). *)
Theorem acceptance_binds_membership `{!CryptoLaws} s s' a now now' :
  let p := sp_proposal s in let p' := sp_proposal s' in
  collision_free (hashed_bytes p) (hashed_bytes p') → proposal_fits p → proposal_fits p' →
  acceptance_verify_at a s now = Ok tt → acceptance_verify_at a s' now' = Ok tt →
  as_membership p = as_membership p' ∧ mp_level p = mp_level p'
  ∧ previous_membership_hash p = previous_membership_hash p'
  ∧ map (λ l, (li_player l, after_hand_number l)) (leave_intents p)
    = map (λ l, (li_player l, after_hand_number l)) (leave_intents p').
Proof.
  intros p p' Hcol Hf Hf' (Hs & x & _ & (_ & Hh & _))%acceptance_verify_at_Ok
    (Hs' & x' & _ & (_ & Hh' & _))%acceptance_verify_at_Ok.
  apply signed_verify_at_Ok in Hs as (_ & (_ & Hok & Hb)%proposal_verify_at_Ok & _).
  apply signed_verify_at_Ok in Hs' as (_ & (_ & Hok' & Hb')%proposal_verify_at_Ok & _).
  fold p in Hok, Hb, Hh. fold p' in Hok', Hb', Hh'.
  assert (proposal_bytes p = proposal_bytes p') as Hbytes
    by (apply Hcol; [left|left|congruence]).
  destruct (proposal_bytes_inj p p' Hf Hf' Hbytes) as (Ht & Hl & Hv & Hprev & Hseats & Hwait & Hleave).
  assert (∀ j k, j ∈ proposal_intents p → k ∈ proposal_intents p' →
    ji_claim_id j = ji_claim_id k → ji_as_candidate j = ji_as_candidate k) as Hclaim.
  { destruct Hok, Hok'. intros j k Hj Hk. eapply claim_binds; try done.
    - apply (Forall_forall (λ j, join_verify_at j now = Ok tt) (proposal_intents p)); [|done].
      apply Forall_app. split; [apply Forall_map|]; (eapply Forall_impl; [done|]); intros y Hy; apply Hy.
    - apply (Forall_forall (λ j, join_verify_at j now' = Ok tt) (proposal_intents p')); [|done].
      apply Forall_app. split; [apply Forall_map|]; (eapply Forall_impl; [done|]); intros y Hy; apply Hy. }
  split; [|split; [done|split; [done|]]].
  - unfold as_membership. rewrite Ht, Hv. f_equal. f_equal.
    + apply (map_view_determines seat_view); [done|]. intros y z Hy Hz E.
      pose proof (f_equal fst E) as E1. pose proof (f_equal snd E) as E2. simpl in E1, E2.
      assert (ji_as_candidate (sc_intent y) = ji_as_candidate (sc_intent z)) as Hc.
      { apply Hclaim; [apply elem_of_app; left; by apply (list_elem_of_fmap_2 sc_intent)..|done]. }
      unfold ji_as_candidate, as_member in *. congruence.
    + apply (map_view_determines ji_claim_id); [done|]. intros y z Hy Hz.
      apply Hclaim; apply elem_of_app; by right.
  - apply (map_view_determines leave_id); [done|]. intros y z Hy Hz E.
    destruct (leave_binds p p' y z) as [-> ->]; done.
Qed.

(** ** The round of a membership change *)

(** The key and the certificate of the person on a seat. *)
Definition can_sign (key : list Z * DeviceCertificate) (seat : MembershipSeatClaim) (now : Z) : Prop :=
  cert_person key.2 = seat_person seat ∧ device_public_key key.1 = ji_device (sc_intent seat)
  ∧ verify_at key.2 now = Ok tt.

Lemma validate_join_signer_Ok j device c :
  validate_join_signer j device c = Ok tt ↔
  cert_person c = (ji_player j, ji_device j) ∧ ji_device j = device_public_key device.
Proof.
  unfold validate_join_signer, cert_person. ok_iff. split; [|naive_solver].
  intros [[-> ->] ?]. done.
Qed.

Lemma can_sign_signer key seat now :
  can_sign key seat now → validate_join_signer (sc_intent seat) key.1 key.2 = Ok tt.
Proof. intros (Hp & Hd & _). apply validate_join_signer_Ok. by split. Qed.

Lemma can_sign_device key seat now : can_sign key seat now → cert_device key.2 = device_public_key key.1.
Proof. intros (Hp & Hd & _). injection Hp as _ Hp. congruence. Qed.

Lemma signed_issue_complete `{!CryptoLaws} p low key now :
  proposal_verify_at p now = Ok tt → lowest_seat p low → can_sign key low now →
  ∃ s, signed_issue p now key.1 key.2 = Ok s ∧ sp_proposal s = p
    ∧ ∀ now', proposal_verify_at p now' = Ok tt → verify_at key.2 now' = Ok tt →
        signed_verify_at s now' = Ok tt.
Proof.
  intros Hp Hlow Hk. pose proof Hp as (_ & Hok & _)%proposal_verify_at_Ok.
  destruct (coordinator_spec _ low (po_seat_order _ _ Hok) Hlow) as [Hc Hs].
  destruct (attestation_complete MEMBERSHIP_PROPOSAL_DOMAIN
    (canonical_signed_membership_bytes 1 (proposal_hash p) (seat_claim low)) now key.1 key.2)
    as (a & Ha & Hcert & Hv); [apply Hk|by eapply can_sign_device|].
  exists (mkSignedProposal 1 p (seat_claim low) a). split; [|split; [done|]].
  - unfold signed_issue. rewrite Hp, Hc. cbn [ok_or mbind result_bind]. rewrite Hs.
    cbn [ok_or mbind result_bind]. erewrite can_sign_signer by done.
    cbn [map_err mbind result_bind]. by rewrite Ha.
  - intros now' Hp' Hc'. apply signed_verify_at_Ok. cbn [sp_version sp_proposal sp_coordinator sp_attestation].
    split; [done|]. split; [done|]. exists low. split; [done|]. split; [done|]. rewrite Hcert.
    split; [apply Hk|]. by apply Hv.
Qed.

Lemma seat_expiry p now seat :
  proposal_ok p now → seat ∈ mp_seats p →
  is_signed_time_before_expiry now (ji_expires_at (sc_intent seat)) = true.
Proof.
  intros Hok Hin. pose proof (po_seats _ _ Hok) as Hseats. rewrite Forall_forall in Hseats.
  destruct (Hseats seat Hin) as ((_ & _ & _ & Hact & _)%join_verify_at_Ok & _).
  unfold is_signed_time_window_active in Hact. by apply andb_true_iff in Hact as [_ ?].
Qed.

Lemma not_future_later now now' :
  now <= now' → now <= u64_max → is_signed_time_not_future now now' = true.
Proof.
  intros Hle Hmax. unfold is_signed_time_not_future, u64_saturating_add.
  unfold MAX_SIGNED_MESSAGE_CLOCK_SKEW_MS. lia.
Qed.

Lemma acceptance_issue_complete `{!CryptoLaws} s seat key now now' :
  NoDup (map seat_claim (mp_seats (sp_proposal s))) → seat ∈ mp_seats (sp_proposal s) →
  signed_verify_at s now = Ok tt → can_sign key seat now → verify_at key.2 now' = Ok tt →
  now <= now' → now <= u64_max →
  ∃ a, acceptance_issue s (seat_claim seat) now key.1 key.2 = Ok a ∧ accepts s now' seat a.
Proof.
  intros Hnd Hin Hs Hk Hc' Hle Hmax. pose proof Hs as (_ & (_ & Hok & _)%proposal_verify_at_Ok & _)%signed_verify_at_Ok.
  pose proof (seat_expiry _ _ _ Hok Hin) as Hexp.
  set (p := sp_proposal s) in *.
  destruct (attestation_complete MEMBERSHIP_ACCEPTANCE_DOMAIN
    (canonical_membership_acceptance_bytes 1 (proposal_hash p) (seat_claim seat)
       (ji_player (sc_intent seat)) (ji_device (sc_intent seat)) now) now key.1 key.2)
    as (a & Ha & Hcert & Hv); [apply Hk|by eapply can_sign_device|].
  eexists (mkAcceptance 1 (proposal_hash p) (seat_claim seat) (ji_player (sc_intent seat))
    (ji_device (sc_intent seat)) now a). split.
  - unfold acceptance_issue. rewrite Hs. cbn [mbind result_bind]. fold p.
    rewrite seat_by_own_claim by done. cbn [ok_or mbind result_bind]. erewrite can_sign_signer by done.
    cbn [map_err mbind result_bind]. by rewrite Ha.
  - unfold accepts. cbn. rewrite Hcert. split_and!; try done; [apply Hk|by apply not_future_later|by apply Hv].
Qed.

(** A membership change everyone agrees to goes through.  When a proposal
    verifies and each seated member can sign, the member on the lowest seat
    and nobody else can open the round; every seated member then gets an
    acceptance from the signed proposal, and the acceptances, in any order,
    complete the round at any later moment at which the proposal and the
    certificates are still valid. *)
Theorem membership_round_completes `{!CryptoLaws} p key now now' :
  NoDup (map seat_claim (mp_seats p)) → now <= now' → now <= u64_max →
  proposal_verify_at p now = Ok tt → proposal_verify_at p now' = Ok tt →
  (∀ seat, seat ∈ mp_seats p → can_sign (key seat) seat now ∧ verify_at (key seat).2 now' = Ok tt) →
  ∃ low s acceptances,
    lowest_seat p low ∧ signed_issue p now (key low).1 (key low).2 = Ok s ∧ sp_proposal s = p
    ∧ (∀ device c, cert_person c ≠ seat_person low →
         signed_issue p now device c = Err UnauthorizedCoordinator)
    ∧ Forall2 (λ seat a, acceptance_issue s (seat_claim seat) now (key seat).1 (key seat).2 = Ok a)
        (mp_seats p) acceptances
    ∧ ∀ l, l ≡ₚ acceptances → verify_membership_acceptances s l now' = Ok tt.
Proof.
  intros Hnd Hle Hmax Hp Hp' Hkey. pose proof Hp as (_ & Hok & _)%proposal_verify_at_Ok.
  destruct (proposal_lowest_seat _ _ Hok) as [low Hlow].
  destruct (Hkey low (proj1 Hlow)) as [Hk Hk'].
  destruct (signed_issue_complete p low (key low) now Hp Hlow Hk) as (s & Hs & Hsp & Hv).
  assert (∃ l, Forall2 (λ seat a, acceptance_issue s (seat_claim seat) now (key seat).1 (key seat).2 = Ok a
    ∧ accepts s now' seat a) (mp_seats p) l) as [l Hl].
  { apply list_choose. intros seat Hseat. destruct (Hkey seat Hseat).
    apply acceptance_issue_complete; try done; [by rewrite Hsp..|by apply Hv; [|apply Hk]]. }
  exists low, s, l. split; [done|]. split; [done|]. split; [done|]. split.
  - intros device c Hne. unfold signed_issue. rewrite Hp.
    destruct (coordinator_spec _ low (po_seat_order _ _ Hok) Hlow) as [Hc Hb].
    rewrite Hc. cbn [ok_or mbind result_bind]. rewrite Hb. cbn [ok_or mbind result_bind].
    destruct (validate_join_signer (sc_intent low) device c) as [[]|e|] eqn:E; [|done|].
    + apply validate_join_signer_Ok in E as [? _]. done.
    + unfold validate_join_signer, reject_if in E. by case_match.
  - split; [by eapply Forall2_impl; [exact Hl|intros ??[? _]]|]. intros l' Hl'.
    apply acceptances_unanimous; [by rewrite Hsp|]. split; [by apply Hv|]. exists l. split; [done|].
    rewrite Hsp. by eapply Forall2_impl; [exact Hl|intros ??[_ ?]].
Qed.

(** ** Assembling a proposal *)

(** The proposal [assemble] checks, before it is hashed. *)
Definition draft (table_id : TableId) (level : StakeLevel) (membership_version : Z)
    (previous : option (list Z)) (seats : list MembershipSeatClaim) (waiting : list JoinIntent)
    (leaving : list LeaveIntent) : MembershipProposal :=
  mkProposal 1 table_id level membership_version previous (sort_by_key sc_seat seats)
    (sort_by_key ji_claim_id waiting) (sort_by_key leave_id leaving) (replicate 32 0).

Lemma windows_sorted_perm {A K} `{OrdLaws K} (key : A → K) (l k : list A) :
  l ≡ₚ k → windows_all (λ x y, ord_ltb (key x) (key y)) (sort_by_key key l) = true →
  sort_by_key key l = sort_by_key key k.
Proof.
  intros Hp Hw. apply (windows_lt_sorted key), sorted_lt_NoDup in Hw. apply sort_by_key_perm_eq; [|done].
  by rewrite <-(Permutation_map key (sort_by_key_perm key l)).
Qed.

Lemma draft_perm table_id level v previous seats seats' waiting waiting' leaving leaving' :
  seats ≡ₚ seats' → waiting ≡ₚ waiting' → leaving ≡ₚ leaving' →
  canonical_order (draft table_id level v previous seats waiting leaving) = true →
  draft table_id level v previous seats waiting leaving
  = draft table_id level v previous seats' waiting' leaving'.
Proof.
  intros Hs Hw Hl [[H1 H2]%andb_true_iff H3]%andb_true_iff. unfold draft.
  by rewrite (windows_sorted_perm sc_seat _ _ Hs H1), (windows_sorted_perm ji_claim_id _ _ Hw H2),
    (windows_sorted_perm leave_id _ _ Hl H3).
Qed.

Lemma validate_contents_unordered p p' now :
  mp_membership_version p = mp_membership_version p' →
  length (mp_seats p) = length (mp_seats p') → length (mp_waiting p) = length (mp_waiting p') →
  length (leave_intents p) = length (leave_intents p') →
  canonical_order p = false → canonical_order p' = false →
  ∃ e, validate_contents p now = Err e ∧ validate_contents p' now = Err e.
Proof.
  intros Hv H1 H2 H3 Hc Hc'. unfold validate_contents, reject_if. rewrite Hv, H1, H2, H3, Hc, Hc'.
  destruct (mp_membership_version p' =? 0); [eexists; by split|]. cbn [mbind result_bind].
  destruct (_ || _); [eexists; by split|]. cbn [mbind result_bind].
  destruct (WAITING_CAPACITY <? _); [eexists; by split|]. cbn [mbind result_bind].
  destruct (_ <? _); eexists; by split.
Qed.

(** The proposal is canonical.  [assemble] gives the same answer, proposal
    or error, for the same claims and intents in whatever order they were
    collected; what it assembles verifies, has a hash of its contents, and
    holds exactly the given claims and intents. *)
Theorem assemble_canonical table_id level v previous seats seats' waiting waiting' leaving leaving' now :
  seats ≡ₚ seats' → waiting ≡ₚ waiting' → leaving ≡ₚ leaving' →
  assemble table_id level v previous seats waiting leaving now
  = assemble table_id level v previous seats' waiting' leaving' now
  ∧ ∀ p, assemble table_id level v previous seats waiting leaving now = Ok p →
      proposal_verify_at p now = Ok tt ∧ proposal_hash p = blake3 (proposal_bytes p)
      ∧ mp_seats p ≡ₚ seats ∧ mp_waiting p ≡ₚ waiting ∧ leave_intents p ≡ₚ leaving
      ∧ mp_table_id p = table_id ∧ mp_level p = level ∧ mp_membership_version p = v
      ∧ previous_membership_hash p = previous.
Proof.
  intros Hs Hw Hl. unfold assemble. cbn zeta.
  fold (draft table_id level v previous seats waiting leaving).
  fold (draft table_id level v previous seats' waiting' leaving').
  set (d := draft table_id level v previous seats waiting leaving).
  set (d' := draft table_id level v previous seats' waiting' leaving'). split.
  - destruct (canonical_order d) eqn:Hd.
    { by rewrite (draft_perm table_id level v previous seats seats' _ _ _ _ Hs Hw Hl Hd : d = d'). }
    destruct (canonical_order d') eqn:Hd'.
    { symmetry in Hs, Hw, Hl.
      by rewrite (draft_perm table_id level v previous seats' seats _ _ _ _ Hs Hw Hl Hd' : d' = d). }
    destruct (validate_contents_unordered d d' now) as (e & He & He'); [done|..|done|done|by rewrite He, He'];
      simpl; rewrite !length_sort_by_key; by apply Permutation_length.
  - intros p Hp. apply bind_Ok in Hp as ([] & Hv%validate_contents_Ok & Hp).
    apply bind_Ok in Hp as (bytes & Hb & [= <-]). rewrite (proposal_unsigned_bytes_Ok _ _ Hv) in Hb.
    injection Hb as <-. split.
    + apply proposal_verify_at_Ok. split; [done|]. split; [|done]. destruct Hv. by constructor; assumption.
    + split; [done|]. simpl. by rewrite !sort_by_key_perm.
Qed.
End proposals.

(** ** Examples: three devices, two seats and a waiting player *)
Definition device_of (root device : Z) : list Z * DeviceCertificate :=
  let c := @unsigned_certificate toy_crypto [root] (@device_public_key toy_crypto [device]) "phone"
             1000 900000 in
  ([device], set_root_signature (@sign toy_crypto [root] (canonical_unsigned_bytes c)) c).
Definition attest_as (key : list Z * DeviceCertificate) (domain bytes : list Z) : DeviceAttestation :=
  mkAttestation key.2 (toy_blake3 bytes)
    (@sign toy_crypto key.1 (canonical_signing_bytes domain (toy_blake3 bytes))).
Definition ticket_as (key : list Z * DeviceCertificate) (peer : Z) : PoolTicket :=
  mkTicket 2 (cert_player_id key.2) (cert_device key.2) [peer] [[1; peer]] pool_level 900000 2000 900000
    (replicate 16 7)
    (attest_as key POOL_TICKET_DOMAIN
       (canonical_ticket_bytes 2 (cert_player_id key.2) (cert_device key.2) [peer] [[1; peer]] pool_level
          900000 2000 900000 (replicate 16 7))).
Definition table_nine : TableId := repeat_id 32 9.
Definition intent_as (key : list Z * DeviceCertificate) (peer : Z) : JoinIntent :=
  mkJoinIntent 1 table_nine (ticket_as key peer) 2500 800000 (peer :: 1 :: replicate 14 3)
    (attest_as key JOIN_INTENT_DOMAIN
       (canonical_join_intent_bytes 1 table_nine (@ticket_id toy_crypto (ticket_as key peer)) 2500 800000
          (peer :: 1 :: replicate 14 3))).
Definition leave_as (key : list Z * DeviceCertificate) : LeaveIntent :=
  mkLeaveIntent 1 table_nine (Some 4) 2 (cert_player_id key.2) (cert_device key.2) 2500 800000
    (replicate 16 5)
    (attest_as key LEAVE_INTENT_DOMAIN
       (canonical_leave_intent_bytes 1 table_nine (Some 4) 2 (cert_player_id key.2) (cert_device key.2)
          2500 800000 (replicate 16 5))).

Definition anna : list Z * DeviceCertificate := device_of 1 2.
Definition ben : list Z * DeviceCertificate := device_of 3 4.
Definition cleo : list Z * DeviceCertificate := device_of 5 6.
Definition example_seats (first second : Z) : list MembershipSeatClaim :=
  [mkSeatClaim first (intent_as anna 11); mkSeatClaim second (intent_as ben 12)].
Definition example_proposal (first second : Z) : MembershipProposal :=
  let p := @draft toy_crypto table_nine pool_level 3 (Some (replicate 32 8))
             (example_seats first second) [intent_as cleo 13] [leave_as ben] in
  set_proposal_hash (toy_blake3 (@proposal_bytes toy_crypto p)) p.
Definition key_of (s : MembershipSeatClaim) : list Z * DeviceCertificate :=
  if bool_decide (ji_player (sc_intent s) = cert_player_id anna.2) then anna else ben.
Definition example_signed (first second : Z) : SignedMembershipProposal :=
  let p := example_proposal first second in
  let claim := @seat_claim toy_crypto (mkSeatClaim first (intent_as anna 11)) in
  mkSignedProposal 1 p claim
    (attest_as anna MEMBERSHIP_PROPOSAL_DOMAIN
       (canonical_signed_membership_bytes 1 (proposal_hash p) claim)).
Definition acceptance_as (key : list Z * DeviceCertificate) (hash : list Z) (j : JoinIntent)
    : MembershipAcceptance :=
  let claim := @ji_claim_id toy_crypto j in
  mkAcceptance 1 hash claim (ji_player j) (ji_device j) 3000
    (attest_as key MEMBERSHIP_ACCEPTANCE_DOMAIN
       (canonical_membership_acceptance_bytes 1 hash claim (ji_player j) (ji_device j) 3000)).
Definition example_acceptances : list MembershipAcceptance :=
  let hash := proposal_hash (example_proposal 2 5) in
  [acceptance_as ben hash (intent_as ben 12); acceptance_as anna hash (intent_as anna 11)].

Lemma example_proposal_seats : mp_seats (example_proposal 2 5) = example_seats 2 5.
Proof. reflexivity. Qed.
Lemma example_claims_distinct : NoDup (map (@seat_claim toy_crypto) (mp_seats (example_proposal 2 5))).
Proof. apply (bool_decide_eq_true_1 (NoDup _)). vm_compute. reflexivity. Qed.
Lemma example_signed_verifies : @signed_verify_at toy_crypto toy_libp2p (example_signed 2 5) 3000 = Ok tt.
Proof. vm_compute. reflexivity. Qed.

Lemma verified_proposal_membership_witness :
  ∃ m, @as_membership toy_crypto (example_proposal 2 5) = Ok m ∧ membership_wf m
    ∧ map mem_player (members m) = [cert_player_id anna.2; cert_player_id ben.2].
Proof.
  destruct (@verified_proposal_membership toy_crypto toy_libp2p (example_proposal 2 5) 3000)
    as (m & Hm & _ & _ & _ & Hms & _ & _ & _ & Hwf); [vm_compute; reflexivity|].
  exists m. split; [exact Hm|]. split; [|by rewrite Hms].
  apply Hwf. rewrite example_proposal_seats. repeat constructor; simpl; lia.
Defined.

Lemma acceptances_unanimous_witness :
  ∃ l, l ≡ₚ example_acceptances
    ∧ Forall2 (@accepts toy_crypto (example_signed 2 5) 3000) (example_seats 2 5) l.
Proof.
  rewrite <-example_proposal_seats.
  apply (@acceptances_unanimous toy_crypto toy_libp2p (example_signed 2 5) example_acceptances 3000).
  - exact example_claims_distinct.
  - vm_compute. reflexivity.
Defined.

(** Collisions between concrete byte strings can be ruled out by evaluation. *)
Lemma collision_free_check (l k : list (list Z)) :
  bool_decide (Forall (λ x, Forall (λ y, toy_blake3 x ≠ toy_blake3 y ∨ x = y) k) l) = true →
  @collision_free toy_crypto l k.
Proof.
  intros Hf%bool_decide_eq_true x y Hx Hy Hb. rewrite Forall_forall in Hf.
  specialize (Hf x Hx). rewrite Forall_forall in Hf. destruct (Hf y Hy); done.
Qed.

Lemma example_u64 v : (0 <=? v) && (v <=? u64_max) = true → is_u64 v.
Proof. intros [? ?]%andb_true_iff. unfold is_u64. lia. Qed.
Lemma intent_as_fits key peer :
  id_len 32 (cert_player_id key.2) → id_len 32 (cert_device key.2) → intent_fits (intent_as key peer).
Proof.
  intros. unfold intent_fits, ticket_fits, level_fits, short. simpl.
  split_and!; done || (apply example_u64; reflexivity) || (vm_compute; congruence).
Qed.
Lemma leave_as_fits key :
  id_len 32 (cert_player_id key.2) → id_len 32 (cert_device key.2) → leave_fits (leave_as key).
Proof.
  intros. unfold leave_fits. simpl.
  split_and!; done || (apply example_u64; reflexivity) || idtac.
  intros n [= <-]. apply example_u64. reflexivity.
Qed.
Lemma example_fits : proposal_fits (example_proposal 2 5).
Proof.
  unfold proposal_fits. split; [reflexivity|].
  split; [unfold level_fits, short; simpl; split_and!; (apply example_u64; reflexivity) || (vm_compute; congruence)|].
  split; [apply example_u64; reflexivity|]. split; [intros h [= <-]; reflexivity|].
  split.
  - change (Forall intent_fits [intent_as anna 11; intent_as ben 12; intent_as cleo 13]).
    rewrite !Forall_cons. split_and!; done || (apply intent_as_fits; reflexivity).
  - change (Forall leave_fits [leave_as ben]). rewrite Forall_cons.
    split; [apply leave_as_fits; reflexivity|done].
Qed.

Lemma acceptance_binds_membership_witness :
  @as_membership toy_crypto (example_proposal 2 5) = @as_membership toy_crypto (example_proposal 2 5).
Proof.
  apply (@acceptance_binds_membership toy_crypto toy_libp2p toy_crypto_laws (example_signed 2 5)
           (example_signed 2 5) (acceptance_as anna (proposal_hash (example_proposal 2 5)) (intent_as anna 11))
           3000 4000).
  - apply collision_free_check. vm_compute. reflexivity.
  - exact example_fits.
  - exact example_fits.
  - vm_compute. reflexivity.
  - vm_compute. reflexivity.
Defined.

Lemma membership_round_completes_witness :
  ∃ low s acceptances,
    lowest_seat (example_proposal 2 5) low
    ∧ @signed_issue toy_crypto toy_libp2p (example_proposal 2 5) 3000 (key_of low).1 (key_of low).2 = Ok s
    ∧ sp_proposal s = example_proposal 2 5
    ∧ (∀ device c, cert_person c ≠ seat_person low →
         @signed_issue toy_crypto toy_libp2p (example_proposal 2 5) 3000 device c
         = Err UnauthorizedCoordinator)
    ∧ Forall2 (λ seat a, @acceptance_issue toy_crypto toy_libp2p s (@seat_claim toy_crypto seat) 3000
                           (key_of seat).1 (key_of seat).2 = Ok a)
        (mp_seats (example_proposal 2 5)) acceptances
    ∧ ∀ l, l ≡ₚ acceptances →
        @verify_membership_acceptances toy_crypto toy_libp2p s l 4000 = Ok tt.
Proof.
  apply (@membership_round_completes toy_crypto toy_libp2p toy_crypto_laws).
  - exact example_claims_distinct.
  - lia.
  - unfold u64_max. lia.
  - vm_compute. reflexivity.
  - vm_compute. reflexivity.
  - intros seat. rewrite example_proposal_seats. unfold example_seats.
    rewrite !elem_of_cons, elem_of_nil. intros [->|[->|[]]]; vm_compute; repeat split; reflexivity.
Defined.

Lemma assemble_canonical_witness :
  @assemble toy_crypto toy_libp2p table_nine pool_level 3 None (example_seats 2 5) [] [] 3000
  = @assemble toy_crypto toy_libp2p table_nine pool_level 3 None (rev (example_seats 2 5)) [] [] 3000.
Proof.
  apply (@assemble_canonical toy_crypto toy_libp2p).
  - apply Permutation_rev.
  - done.
  - done.
Defined.

(** ** Seats off the table *)

(** A seat number from the network is not checked: [PhysicalSeat] is
    deserialised as a plain byte and neither [validate_contents] nor
    [TableMembership::new] looks at its range.  A proposal that seats two
    players on the seats 200 and 201 verifies; the roster of the first hand
    can be made and its dealer is seat 200, and after that hand no dealer is
    found and no further hand can be dealt at the table. *)
Theorem foreign_seats_accepted :
  let p := example_proposal 200 201 in
  @proposal_verify_at toy_crypto toy_libp2p p 3000 = Ok tt
  ∧ PhysicalSeat_new 200 = Err (InvalidPhysicalSeat 200)
  ∧ ∃ m r, @as_membership toy_crypto p = Ok m
      ∧ from_membership toy_blake3 m 1 None None = Ok r ∧ dealer_seat r = 200
      ∧ from_membership toy_blake3 m 2 None (Some (dealer_seat r)) = Err DealerSeatMissing.
Proof.
  split; [vm_compute; reflexivity|]. split; [reflexivity|].
  eexists _, _. split; [reflexivity|]. split; [reflexivity|]. split; reflexivity.
Qed.
