(* ===== verification/RosterProtocol.v ===== *)
(** * RosterProtocol: freezing the players of a hand (token-holdem-network hand_roster_protocol.rs)

    Before a hand, the coordinator of the membership proposes the roster: the
    domain roster of HandRoster with the session endpoint of every player, tied
    to the membership by its hash.  Every player of the roster signs an
    acceptance; the hand starts when all acceptances are there. *)

From S2P Require Import Prelude Machine Encoding Order Ids Table TablePool Membership.
From S2P Require Import HandRoster Identity Session PoolProtocol TableSession.

Definition HAND_ROSTER_PROPOSAL_DOMAIN : list Z := domain_bytes "token-holdem/hand-roster-proposal/v1".
Definition HAND_ROSTER_ACCEPTANCE_DOMAIN : list Z :=
  domain_bytes "token-holdem/hand-roster-acceptance/v1".

Inductive HandRosterProtocolError :=
  | UnsupportedRosterProposalVersion (v : Z) | UnsupportedSignedRosterProposalVersion (v : Z)
  | UnsupportedRosterAcceptanceVersion (v : Z) | WrongMembershipProposal
  | RosterDoesNotFreezeAllMembers | RosterPlayerMissingFromMembership | RosterMemberMismatch
  | EndpointCountMismatch | EndpointIdentityMismatch | RosterProposalHashMismatch
  | RosterMissingCoordinator | RosterUnauthorizedCoordinator | ClaimNotInRoster (c : JoinClaimId)
  | RosterAcceptanceProposalMismatch | AcceptancePlayerMismatch | AcceptanceDeviceMismatch
  | AcceptanceCertificateMismatch | AcceptanceSignerMismatch | RosterAcceptanceOutsideValidityWindow
  | RosterDuplicateAcceptance | RosterIncompleteAcceptances
  | RosterSession (e : TableSessionProtocolError) | RosterDomain (e : HandRosterError)
  | RosterAttestation (e : DeviceAttestationError).

(** ** Data *)
Record RosterEndpoint := mkEndpoint {
  ep_hand_index : Z;
  ep_claim : JoinClaimId;
  ep_player : PlayerId;
  ep_device : DevicePublicKey;
  ep_peer_id : list Z;
  ep_session_addresses : list (list Z);
}.
#[export] Instance RosterEndpoint_eq_dec : EqDecision RosterEndpoint.
Proof. solve_decision. Defined.
Record HandRosterProposal := mkRosterProposal {
  hp_version : Z;
  ready_roster : ReadyHandRoster;
  membership_proposal_hash : list Z;
  hp_endpoints : list RosterEndpoint;
  hp_hash : list Z;
}.
#[export] Instance HandRosterProposal_eq_dec : EqDecision HandRosterProposal.
Proof. solve_decision. Defined.
Record SignedHandRosterProposal := mkSignedRoster {
  sr_version : Z;
  sr_proposal : HandRosterProposal;
  sr_membership : SignedMembershipProposal;
  sr_coordinator : JoinClaimId;
  sr_attestation : DeviceAttestation;
}.
#[export] Instance SignedHandRosterProposal_eq_dec : EqDecision SignedHandRosterProposal.
Proof. solve_decision. Defined.
Record HandRosterAcceptance := mkRosterAcceptance {
  ra_version : Z;
  ra_proposal_hash : list Z;
  ra_claim : JoinClaimId;
  ra_player : PlayerId;
  ra_device : DevicePublicKey;
  ra_accepted_at : Z;
  ra_attestation : DeviceAttestation;
}.

(** [endpoint_for_player]. *)
Definition endpoint_for_player (p : HandRosterProposal) (player : PlayerId) : option RosterEndpoint :=
  find_first (λ e, bool_decide (ep_player e = player)) (hp_endpoints p).

(** [canonical_unsigned_bytes] of the proposal; the count is asserted to fit. *)
Definition endpoint_bytes (e : RosterEndpoint) : list Z :=
  [ep_hand_index e] ++ as_bytes (ep_claim e) ++ as_bytes (ep_player e) ++ as_bytes (ep_device e)
  ++ write_bytes (ep_peer_id e) ++ write_addresses (ep_session_addresses e).
Definition roster_unsigned_bytes (p : HandRosterProposal) : result HandRosterProtocolError (list Z) :=
  count ← len_u8 (hp_endpoints p);
  Ok (HAND_ROSTER_PROPOSAL_DOMAIN ++ [hp_version p] ++ roster_hash (ready_roster p)
      ++ membership_proposal_hash p ++ [count] ++ flat_map endpoint_bytes (hp_endpoints p)).

(** [canonical_signed_roster_bytes], [canonical_roster_acceptance_bytes]. *)
Definition canonical_signed_roster_bytes (version : Z) (hash : list Z) (claim : JoinClaimId) : list Z :=
  HAND_ROSTER_PROPOSAL_DOMAIN ++ [version] ++ hash ++ as_bytes claim.
Definition canonical_roster_acceptance_bytes (version : Z) (hash : list Z) (claim : JoinClaimId)
    (player : PlayerId) (device : DevicePublicKey) (accepted_at : Z) : list Z :=
  HAND_ROSTER_ACCEPTANCE_DOMAIN ++ [version] ++ hash ++ as_bytes claim ++ as_bytes player
  ++ as_bytes device ++ be_bytes 8 accepted_at.
Definition roster_acceptance_bytes (a : HandRosterAcceptance) : list Z :=
  canonical_roster_acceptance_bytes (ra_version a) (ra_proposal_hash a) (ra_claim a) (ra_player a)
    (ra_device a) (ra_accepted_at a).

Section documents.
Context `{Crypto, Libp2p}.

(** [RosterEndpoint::from_seat]. *)
Definition from_seat (hand_index : Z) (s : MembershipSeatClaim) : RosterEndpoint :=
  let j := sc_intent s in
  mkEndpoint hand_index (ji_claim_id j) (ji_player j) (ji_device j) (tk_peer_id (ji_ticket j))
    (tk_addresses (ji_ticket j)).

(** [validate_roster_membership]. *)
Definition check_roster_seat (p : MembershipProposal) (rs : HandRosterSeat)
    : result HandRosterProtocolError unit :=
  seat ← ok_or (seat_by_player p (rs_player rs)) RosterPlayerMissingFromMembership;
  let member := as_member seat in
  reject_if (negb (rs_physical_seat rs =? physical_seat member)
             || negb (bool_decide (rs_device rs = mem_device member))
             || negb (rs_buy_in rs =? mem_buy_in member)) RosterMemberMismatch.
Definition validate_roster_membership (r : ReadyHandRoster) (s : SignedMembershipProposal)
    : result HandRosterProtocolError unit :=
  let p := sp_proposal s in
  _ ← reject_if (negb (bool_decide (ro_table_id r = mp_table_id p))
                 || negb (membership_version r =? mp_membership_version p)) WrongMembershipProposal;
  _ ← reject_if (negb (length (ro_seats r) =? length (mp_seats p))%nat) RosterDoesNotFreezeAllMembers;
  try_each (check_roster_seat p) (ro_seats r).

(** [HandRosterProposal::validate_contents]. *)
Definition check_endpoint (p : MembershipProposal) (pair : HandRosterSeat * RosterEndpoint)
    : result HandRosterProtocolError unit :=
  let '(rs, e) := pair in
  _ ← reject_if (negb (ep_hand_index e =? hand_index rs) || negb (bool_decide (ep_player e = rs_player rs))
                 || negb (bool_decide (ep_device e = rs_device rs))) EndpointIdentityMismatch;
  seat ← ok_or (seat_by_player p (ep_player e)) RosterPlayerMissingFromMembership;
  let j := sc_intent seat in
  reject_if (negb (bool_decide (ep_claim e = ji_claim_id j))
             || negb (bool_decide (ep_peer_id e = tk_peer_id (ji_ticket j)))
             || negb (bool_decide (ep_session_addresses e = tk_addresses (ji_ticket j))))
    EndpointIdentityMismatch.
Definition roster_validate_contents (p : HandRosterProposal) (s : SignedMembershipProposal)
    : result HandRosterProtocolError unit :=
  _ ← reject_if (negb (bool_decide (membership_proposal_hash p = proposal_hash (sp_proposal s))))
        WrongMembershipProposal;
  _ ← validate_roster_membership (ready_roster p) s;
  _ ← reject_if (negb (length (hp_endpoints p) =? length (ro_seats (ready_roster p)))%nat)
        EndpointCountMismatch;
  try_each (check_endpoint (sp_proposal s)) (zip (ro_seats (ready_roster p)) (hp_endpoints p)).

(** [HandRosterProposal::assemble]. *)
Definition endpoint_of (p : MembershipProposal) (rs : HandRosterSeat)
    : result HandRosterProtocolError RosterEndpoint :=
  seat ← ok_or (seat_by_player p (rs_player rs)) RosterPlayerMissingFromMembership;
  Ok (from_seat (hand_index rs) seat).
Definition set_hp_hash (hash : list Z) (p : HandRosterProposal) : HandRosterProposal :=
  mkRosterProposal (hp_version p) (ready_roster p) (membership_proposal_hash p) (hp_endpoints p) hash.
Definition roster_assemble (r : ReadyHandRoster) (s : SignedMembershipProposal) (now : Z)
    : result HandRosterProtocolError HandRosterProposal :=
  _ ← map_err RosterSession (signed_verify_at s now);
  _ ← map_err RosterDomain (roster_verify blake3 r);
  _ ← validate_roster_membership r s;
  endpoints ← try_collect (endpoint_of (sp_proposal s)) (ro_seats r);
  let p := mkRosterProposal 1 r (proposal_hash (sp_proposal s)) endpoints (replicate 32 0) in
  _ ← roster_validate_contents p s;
  bytes ← roster_unsigned_bytes p;
  Ok (set_hp_hash (blake3 bytes) p).

(** [HandRosterProposal::verify]. *)
Definition roster_proposal_verify (p : HandRosterProposal) (s : SignedMembershipProposal)
    : result HandRosterProtocolError unit :=
  _ ← reject_if (negb (hp_version p =? 1)) (UnsupportedRosterProposalVersion (hp_version p));
  _ ← map_err RosterDomain (roster_verify blake3 (ready_roster p));
  _ ← roster_validate_contents p s;
  bytes ← roster_unsigned_bytes p;
  reject_if (negb (bool_decide (blake3 bytes = hp_hash p))) RosterProposalHashMismatch.

(** [validate_intent_signer]. *)
Definition validate_intent_signer (j : JoinIntent) (device : list Z) (c : DeviceCertificate)
    : result HandRosterProtocolError unit :=
  reject_if (negb (bool_decide (ji_player j = cert_player_id c))
             || negb (bool_decide (ji_device j = cert_device c))
             || negb (bool_decide (ji_device j = device_public_key device))) AcceptanceSignerMismatch.

(** [SignedHandRosterProposal::issue] and [verify_at]. *)
Definition signed_roster_issue (p : HandRosterProposal) (s : SignedMembershipProposal) (now : Z)
    (device : list Z) (c : DeviceCertificate) : result HandRosterProtocolError SignedHandRosterProposal :=
  _ ← map_err RosterSession (signed_verify_at s now);
  _ ← roster_proposal_verify p s;
  claim ← ok_or (coordinator_claim_id (sp_proposal s)) RosterMissingCoordinator;
  coordinator ← ok_or (seat_by_claim_id (sp_proposal s) claim) RosterMissingCoordinator;
  _ ← validate_intent_signer (sc_intent coordinator) device c;
  let unsigned := canonical_signed_roster_bytes 1 (hp_hash p) claim in
  attestation ← map_err RosterAttestation
    (attestation_issue HAND_ROSTER_PROPOSAL_DOMAIN unsigned now device c);
  Ok (mkSignedRoster 1 p s claim attestation).
Definition signed_roster_verify_at (r : SignedHandRosterProposal) (now : Z)
    : result HandRosterProtocolError unit :=
  let m := sp_proposal (sr_membership r) in
  _ ← reject_if (negb (sr_version r =? 1)) (UnsupportedSignedRosterProposalVersion (sr_version r));
  _ ← map_err RosterSession (signed_verify_at (sr_membership r) now);
  _ ← roster_proposal_verify (sr_proposal r) (sr_membership r);
  _ ← reject_if (negb (bool_decide (coordinator_claim_id m = Some (sr_coordinator r))))
        RosterUnauthorizedCoordinator;
  coordinator ← ok_or (seat_by_claim_id m (sr_coordinator r)) RosterMissingCoordinator;
  let c := att_certificate (sr_attestation r) in
  _ ← reject_if (negb (bool_decide (cert_player_id c = ji_player (sc_intent coordinator)))
                 || negb (bool_decide (cert_device c = ji_device (sc_intent coordinator))))
        RosterUnauthorizedCoordinator;
  map_err RosterAttestation
    (attestation_verify (sr_attestation r) HAND_ROSTER_PROPOSAL_DOMAIN
       (canonical_signed_roster_bytes (sr_version r) (hp_hash (sr_proposal r)) (sr_coordinator r)) now).

(** [intent_for_endpoint]. *)
Definition intent_for_endpoint (r : SignedHandRosterProposal) (e : RosterEndpoint)
    : result HandRosterProtocolError JoinIntent :=
  ok_or (sc_intent <$> seat_by_claim_id (sp_proposal (sr_membership r)) (ep_claim e))
    (ClaimNotInRoster (ep_claim e)).
Definition endpoint_by_claim (p : HandRosterProposal) (c : JoinClaimId) : option RosterEndpoint :=
  find_first (λ e, bool_decide (ep_claim e = c)) (hp_endpoints p).

(** [HandRosterAcceptance::issue] and [verify_at]. *)
Definition roster_acceptance_issue (r : SignedHandRosterProposal) (claim : JoinClaimId)
    (accepted_at : Z) (device : list Z) (c : DeviceCertificate)
    : result HandRosterProtocolError HandRosterAcceptance :=
  _ ← signed_roster_verify_at r accepted_at;
  endpoint ← ok_or (endpoint_by_claim (sr_proposal r) claim) (ClaimNotInRoster claim);
  intent ← intent_for_endpoint r endpoint;
  _ ← validate_intent_signer intent device c;
  let hash := hp_hash (sr_proposal r) in
  let unsigned := canonical_roster_acceptance_bytes 1 hash claim (ep_player endpoint)
                    (ep_device endpoint) accepted_at in
  attestation ← map_err RosterAttestation
    (attestation_issue HAND_ROSTER_ACCEPTANCE_DOMAIN unsigned accepted_at device c);
  Ok (mkRosterAcceptance 1 hash claim (ep_player endpoint) (ep_device endpoint) accepted_at attestation).
Definition roster_acceptance_verify_at (a : HandRosterAcceptance) (r : SignedHandRosterProposal)
    (now : Z) : result HandRosterProtocolError unit :=
  _ ← reject_if (negb (ra_version a =? 1)) (UnsupportedRosterAcceptanceVersion (ra_version a));
  _ ← signed_roster_verify_at r now;
  _ ← reject_if (negb (bool_decide (ra_proposal_hash a = hp_hash (sr_proposal r))))
        RosterAcceptanceProposalMismatch;
  endpoint ← ok_or (endpoint_by_claim (sr_proposal r) (ra_claim a)) (ClaimNotInRoster (ra_claim a));
  intent ← intent_for_endpoint r endpoint;
  _ ← reject_if (negb (bool_decide (ra_player a = ep_player endpoint))) AcceptancePlayerMismatch;
  _ ← reject_if (negb (bool_decide (ra_device a = ep_device endpoint))) AcceptanceDeviceMismatch;
  let c := att_certificate (ra_attestation a) in
  _ ← reject_if (negb (bool_decide (cert_player_id c = ra_player a))
                 || negb (bool_decide (cert_device c = ra_device a))) AcceptanceCertificateMismatch;
  _ ← reject_if (negb (is_signed_time_not_future (ra_accepted_at a) now)
                 || negb (is_signed_time_before_expiry (ra_accepted_at a) (ji_expires_at intent)))
        RosterAcceptanceOutsideValidityWindow;
  map_err RosterAttestation
    (attestation_verify (ra_attestation a) HAND_ROSTER_ACCEPTANCE_DOMAIN (roster_acceptance_bytes a)
       now).

(** [verify_hand_roster_acceptances]. *)
Definition observe_roster_acceptance (r : SignedHandRosterProposal) (now : Z)
    (observed : gset JoinClaimId) (a : HandRosterAcceptance)
    : result HandRosterProtocolError (gset JoinClaimId) :=
  _ ← roster_acceptance_verify_at a r now;
  insert_new observed (ra_claim a) RosterDuplicateAcceptance.
Definition verify_hand_roster_acceptances (r : SignedHandRosterProposal)
    (acceptances : list HandRosterAcceptance) (now : Z) : result HandRosterProtocolError unit :=
  _ ← signed_roster_verify_at r now;
  let expected : gset JoinClaimId := list_to_set (map ep_claim (hp_endpoints (sr_proposal r))) in
  observed ← try_fold (observe_roster_acceptance r now) ∅ acceptances;
  reject_if (negb (bool_decide (expected = observed))) RosterIncompleteAcceptances.
End documents.

(** [HandRosterMessage]. *)
Inductive HandRosterMessage :=
  | RosterProposalMsg (r : SignedHandRosterProposal)
  | RosterAcceptanceMsg (a : HandRosterAcceptance).

(** ** What the checks mean *)
Section checks.
Context `{Crypto, Libp2p}.

(** A roster seat that copies the member of the same player. *)
Definition copies_member (p : MembershipProposal) (rs : HandRosterSeat) : Prop :=
  ∃ seat, seat_by_player p (rs_player rs) = Some seat
    ∧ rs_physical_seat rs = sc_seat seat ∧ rs_device rs = ji_device (sc_intent seat)
    ∧ rs_buy_in rs = requested_buy_in (ji_ticket (sc_intent seat)).

Lemma check_roster_seat_Ok p rs : check_roster_seat p rs = Ok tt ↔ copies_member p rs.
Proof.
  unfold check_roster_seat, copies_member. rewrite bind_ok_or.
  split; intros (seat & Hs & Hr); exists seat; (split; [done|]); revert Hr; ok_iff; simpl; tauto.
Qed.

Lemma validate_roster_membership_Ok r s :
  validate_roster_membership r s = Ok tt ↔
  ro_table_id r = mp_table_id (sp_proposal s)
  ∧ membership_version r = mp_membership_version (sp_proposal s)
  ∧ length (ro_seats r) = length (mp_seats (sp_proposal s))
  ∧ Forall (copies_member (sp_proposal s)) (ro_seats r).
Proof.
  unfold validate_roster_membership. ok_iff. rewrite Nat.eqb_eq, try_each_Ok.
  setoid_rewrite check_roster_seat_Ok. tauto.
Qed.

(** The endpoint of a roster seat: hand index and identity of the seat, claim
    and network endpoint of the player's join intent. *)
Definition endpoint_for (p : MembershipProposal) (rs : HandRosterSeat) (e : RosterEndpoint) : Prop :=
  ep_device e = rs_device rs
  ∧ ∃ seat, seat_by_player p (rs_player rs) = Some seat ∧ ji_player (sc_intent seat) = rs_player rs
      ∧ e = mkEndpoint (hand_index rs) (seat_claim seat) (rs_player rs) (ep_device e)
              (tk_peer_id (ji_ticket (sc_intent seat))) (tk_addresses (ji_ticket (sc_intent seat))).

Lemma seat_by_player_Some p player s :
  seat_by_player p player = Some s → s ∈ mp_seats p ∧ ji_player (sc_intent s) = player.
Proof. intros [Hin Hc]%find_first_Some. by apply bool_decide_eq_true in Hc. Qed.

Lemma check_endpoint_Ok p rs e : check_endpoint p (rs, e) = Ok tt ↔ endpoint_for p rs e.
Proof.
  unfold check_endpoint, endpoint_for. ok_iff. rewrite bind_ok_or. split.
  - intros ([[Hi Hp] Hd] & seat & Hs & Hr). split; [done|]. rewrite Hp in Hs. exists seat.
    split; [done|]. split; [by apply seat_by_player_Some in Hs as [_ ?]|].
    revert Hr. ok_iff. destruct e; simpl in *. intros [[-> ->] ->]. by subst.
  - intros (Hd & seat & Hs & Hpl & ->). simpl. split; [split; [done|exact Hd]|].
    exists seat. split; [done|]. by ok_iff.
Qed.

Lemma roster_validate_contents_Ok p s :
  roster_validate_contents p s = Ok tt ↔
  membership_proposal_hash p = proposal_hash (sp_proposal s)
  ∧ validate_roster_membership (ready_roster p) s = Ok tt
  ∧ Forall2 (endpoint_for (sp_proposal s)) (ro_seats (ready_roster p)) (hp_endpoints p).
Proof.
  unfold roster_validate_contents. ok_iff. rewrite Nat.eqb_eq, try_each_Ok.
  enough (∀ (rss : list HandRosterSeat) es,
    (length es = length rss ∧ Forall (λ x, check_endpoint (sp_proposal s) x = Ok tt) (zip rss es)) ↔
    Forall2 (endpoint_for (sp_proposal s)) rss es) as <- by done.
  induction rss as [|rs rss IH]; intros [|e es]; simpl.
  - split; [|done]. constructor.
  - split; [by intros [? _]|]. by inversion 1.
  - split; [by intros [? _]|]. by inversion 1.
  - rewrite Forall_cons, Forall2_cons, <-IH, check_endpoint_Ok. naive_solver lia.
Qed.

Definition roster_bytes (p : HandRosterProposal) : list Z :=
  HAND_ROSTER_PROPOSAL_DOMAIN ++ [hp_version p] ++ roster_hash (ready_roster p)
  ++ membership_proposal_hash p ++ [Z.of_nat (length (hp_endpoints p))]
  ++ flat_map endpoint_bytes (hp_endpoints p).

(** What [HandRosterProposal::verify] admits. *)
Record roster_proposal_ok (p : HandRosterProposal) (s : SignedMembershipProposal) : Prop := {
  rp_version : hp_version p = 1;
  rp_roster : roster_verify blake3 (ready_roster p) = Ok tt;
  rp_membership_hash : membership_proposal_hash p = proposal_hash (sp_proposal s);
  rp_membership : validate_roster_membership (ready_roster p) s = Ok tt;
  rp_endpoints : Forall2 (endpoint_for (sp_proposal s)) (ro_seats (ready_roster p)) (hp_endpoints p);
  rp_hash : blake3 (roster_bytes p) = hp_hash p;
}.

Lemma roster_verify_Ok r :
  roster_verify blake3 r = Ok tt ↔ roster_wf r ∧ blake3 (roster_canonical_bytes r) = roster_hash r.
Proof. unfold roster_verify. ok_iff. by rewrite roster_validate_ok. Qed.

Lemma roster_unsigned_bytes_Ok p s :
  Forall2 (endpoint_for (sp_proposal s)) (ro_seats (ready_roster p)) (hp_endpoints p) →
  roster_wf (ready_roster p) → roster_unsigned_bytes p = Ok (roster_bytes p).
Proof.
  intros Hf%Forall2_length Hw. destruct Hw. unfold roster_unsigned_bytes. by rewrite len_u8_Ok by lia.
Qed.

Lemma roster_proposal_verify_Ok p s :
  roster_proposal_verify p s = Ok tt ↔ roster_proposal_ok p s.
Proof.
  unfold roster_proposal_verify. ok_iff. rewrite roster_validate_contents_Ok, bind_Ok. split.
  - intros (? & Hr & (? & ? & Hf) & bytes & Hb & He). pose proof Hr as [Hw _]%roster_verify_Ok.
    rewrite (roster_unsigned_bytes_Ok p s Hf Hw) in Hb. injection Hb as <-. revert He. ok_iff.
    intros. by split.
  - intros []. pose proof rp_roster0 as [Hw _]%roster_verify_Ok. split_and!; try done.
    eexists. split; [by eapply roster_unsigned_bytes_Ok|]. by ok_iff.
Qed.

Lemma signed_roster_verify_at_Ok r now :
  let m := sp_proposal (sr_membership r) in
  signed_roster_verify_at r now = Ok tt ↔
  sr_version r = 1 ∧ signed_verify_at (sr_membership r) now = Ok tt
  ∧ roster_proposal_ok (sr_proposal r) (sr_membership r)
  ∧ ∃ seat, lowest_seat m seat ∧ sr_coordinator r = seat_claim seat
      ∧ cert_person (att_certificate (sr_attestation r)) = seat_person seat
      ∧ attestation_verify (sr_attestation r) HAND_ROSTER_PROPOSAL_DOMAIN
          (canonical_signed_roster_bytes (sr_version r) (hp_hash (sr_proposal r)) (sr_coordinator r)) now
        = Ok tt.
Proof.
  intros m. unfold signed_roster_verify_at. fold m. ok_iff. rewrite bind_ok_or, roster_proposal_verify_Ok.
  enough (signed_verify_at (sr_membership r) now = Ok tt → ∃ low, lowest_seat m low
    ∧ coordinator_claim_id m = Some (seat_claim low) ∧ seat_by_claim_id m (seat_claim low) = Some low
    ∧ ∀ seat, lowest_seat m seat → seat = low) as Hlow.
  - split.
    + intros (? & Hs & ? & Hc & seat & Hseat & Hv). destruct (Hlow Hs) as (low & Hl & Hcl & Hbl & _).
      split_and!; try done. exists low. split; [done|]. revert Hv. ok_iff. intros ([? ?] & ?).
      assert (sr_coordinator r = seat_claim low) as Hco by congruence.
      assert (seat = low) as -> by congruence. split; [done|]. split; [|done].
      unfold cert_person, seat_person, member_person. simpl. congruence.
    + intros (? & Hs & ? & seat & Hseat & Hc & Hper & Hv).
      destruct (Hlow Hs) as (low & Hl & Hcl & Hbl & Huniq). rewrite (Huniq seat Hseat) in *.
      split_and!; try done; [by rewrite Hc|]. exists low. rewrite Hc. split; [done|]. ok_iff.
      injection Hper as Hp1 Hp2. rewrite <-Hc. by split.
  - intros Hs. apply signed_verify_at_Ok in Hs as (_ & (_ & Hok & _)%proposal_verify_at_Ok & _).
    destruct (proposal_lowest_seat _ _ Hok) as [low Hl]. exists low. split; [done|].
    destruct (coordinator_spec _ low (po_seat_order _ _ Hok) Hl) as [Hcl Hbl]. split_and!; try done.
    intros seat Hseat. apply (NoDup_key_eq sc_seat (mp_seats m)); [|apply Hseat|apply Hl|].
    + apply sorted_lt_NoDup, Hok.
    + apply Z.le_antisymm; [apply Hseat, Hl|apply Hl, Hseat].
Qed.

(** ** The roster freezes the membership *)

Lemma proposal_players_distinct p now :
  proposal_ok p now → NoDup (map (λ s, ji_player (sc_intent s)) (mp_seats p)).
Proof.
  intros Hok. destruct (po_people _ _ Hok) as [Hd _]. rewrite !map_app, !map_map in Hd.
  by apply NoDup_app in Hd as [? _].
Qed.

Lemma seat_by_own_player p s now :
  proposal_ok p now → s ∈ mp_seats p → seat_by_player p (ji_player (sc_intent s)) = Some s.
Proof.
  intros Hok Hs. unfold seat_by_player.
  by apply (find_first_key (λ s, ji_player (sc_intent s))); [eapply proposal_players_distinct|].
Qed.

(** The seat claims of the roster's players, in the order of the roster. *)
Lemma roster_seats_claims p now rss :
  proposal_ok p now → NoDup (map rs_player rss) → length rss = length (mp_seats p) →
  Forall (copies_member p) rss →
  ∃ claims, claims ≡ₚ mp_seats p
    ∧ Forall2 (λ rs c, seat_by_player p (rs_player rs) = Some c ∧ ji_player (sc_intent c) = rs_player rs
                ∧ mkMember (rs_player rs) (rs_device rs) (rs_buy_in rs) (rs_physical_seat rs) = as_member c)
        rss claims.
Proof.
  intros Hok Hnd Hlen Hall.
  destruct (list_choose (λ rs c, seat_by_player p (rs_player rs) = Some c
    ∧ ji_player (sc_intent c) = rs_player rs
    ∧ mkMember (rs_player rs) (rs_device rs) (rs_buy_in rs) (rs_physical_seat rs) = as_member c) rss)
    as [claims Hc].
  { intros rs Hrs. rewrite Forall_forall in Hall. destruct (Hall rs Hrs) as (c & Hc & Hs & Hd & Hb).
    exists c. split; [done|]. apply seat_by_player_Some in Hc as [_ Hc]. split; [done|].
    unfold as_member. by rewrite Hc, <-Hs, <-Hd, <-Hb. }
  exists claims. split; [|done].
  assert (map (λ s, ji_player (sc_intent s)) claims = map rs_player rss) as Hm.
  { clear Hnd Hlen Hall. induction Hc as [|rs c rss claims (_ & Hp & _) _ IH]; [done|]. simpl. by f_equal. }
  rewrite <-Hm in Hnd. apply NoDup_fmap_1 in Hnd.
  apply submseteq_length_Permutation; [|by rewrite <-Hlen, (Forall2_length _ _ _ Hc)].
  apply NoDup_submseteq; [done|]. intros c [i Hi]%list_elem_of_lookup.
  destruct (Forall2_lookup_r _ _ _ _ _ Hc Hi) as (rs & _ & Hs & _).
  by apply seat_by_player_Some in Hs as [? _].
Qed.

(** The member a roster seat stands for. *)
Definition roster_member (rs : HandRosterSeat) : TableMember :=
  mkMember (rs_player rs) (rs_device rs) (rs_buy_in rs) (rs_physical_seat rs).
(** The endpoint [e] of a roster seat is that of the same player: it has the
    index, the player and the device of the seat, and the claim, the peer and
    the addresses of the join intent of the one seat of the membership that is
    the player's. *)
Definition reaches (p : MembershipProposal) (rs : HandRosterSeat) (e : RosterEndpoint) : Prop :=
  ep_hand_index e = hand_index rs ∧ ep_player e = rs_player rs ∧ ep_device e = rs_device rs
  ∧ (∃ peer, endpoint_ok (ep_peer_id e) (ep_session_addresses e) peer)
  ∧ ∃ seat, seat ∈ mp_seats p ∧ as_member seat = roster_member rs
      ∧ ep_claim e = ji_claim_id (sc_intent seat) ∧ ep_peer_id e = tk_peer_id (ji_ticket (sc_intent seat))
      ∧ ep_session_addresses e = tk_addresses (ji_ticket (sc_intent seat))
      ∧ ∀ other, other ∈ mp_seats p → ji_player (sc_intent other) = rs_player rs → other = seat.

Lemma endpoints_claims p rss es claims :
  Forall2 (endpoint_for p) rss es →
  Forall2 (λ rs c, seat_by_player p (rs_player rs) = Some c ∧ ji_player (sc_intent c) = rs_player rs
            ∧ roster_member rs = as_member c) rss claims →
  map ep_claim es = map seat_claim claims.
Proof.
  intros Hf. revert claims. induction Hf as [|rs e rss es He Hf IH]; intros claims Hc.
  - by apply Forall2_nil_inv_l in Hc as ->.
  - apply Forall2_cons_inv_l in Hc as (c & cs & (Hs & _) & Hcs & ->). simpl. f_equal; [|by apply IH].
    destruct He as (_ & seat & Hs' & _ & ->). simpl. congruence.
Qed.

Lemma verified_seat_endpoint p now s :
  proposal_ok p now → s ∈ mp_seats p →
  ∃ peer, endpoint_ok (tk_peer_id (ji_ticket (sc_intent s))) (tk_addresses (ji_ticket (sc_intent s))) peer.
Proof.
  intros Hok Hs. pose proof (po_seats _ _ Hok) as Hall. rewrite Forall_forall in Hall.
  destruct (Hall s Hs) as ((_ & Ht & _)%join_verify_at_Ok & _).
  by apply ticket_verify_at_Ok in Ht as (_ & (? & _) & _).
Qed.

Lemma endpoint_reaches p now rs e :
  proposal_ok p now → copies_member p rs → endpoint_for p rs e → reaches p rs e.
Proof.
  intros Hok (c & Hc & Hps & Hdev & Hbuy) (Hd & seat & Hs & Hp & He). assert (c = seat) as -> by congruence.
  rewrite He. unfold reaches. simpl. apply seat_by_player_Some in Hs as [Hin _].
  split_and!; [done|done|done|by eapply verified_seat_endpoint|]. exists seat. split_and!; try done.
  - unfold as_member, roster_member. by rewrite Hp, <-Hps, <-Hdev, <-Hbuy.
  - intros other Hother Ho. apply (NoDup_key_eq (λ s, ji_player (sc_intent s)) (mp_seats p)); [|done|done|congruence].
    by eapply proposal_players_distinct.
Qed.

(** What verification says about a signed roster and the seated claims. *)
Lemma verified_roster_claims r now :
  let p := sp_proposal (sr_membership r) in
  let ro := ready_roster (sr_proposal r) in
  signed_roster_verify_at r now = Ok tt →
  proposal_ok p now ∧ roster_proposal_ok (sr_proposal r) (sr_membership r) ∧ roster_wf ro
  ∧ Forall (copies_member p) (ro_seats ro)
  ∧ ∃ claims, claims ≡ₚ mp_seats p ∧ map ep_claim (hp_endpoints (sr_proposal r)) = map seat_claim claims
      ∧ map roster_member (ro_seats ro) = map as_member claims.
Proof.
  intros p ro (_ & Hs & Hrp & _)%signed_roster_verify_at_Ok. pose proof Hrp as [].
  apply signed_verify_at_Ok in Hs as (_ & (_ & Hok & _)%proposal_verify_at_Ok & _).
  pose proof rp_membership0 as (_ & _ & Hlen & Hall)%validate_roster_membership_Ok.
  pose proof rp_roster0 as [Hw _]%roster_verify_Ok.
  destruct (roster_seats_claims _ now _ Hok (rw_players _ Hw) Hlen Hall) as (claims & Hp & Hc).
  split_and!; try done. exists claims. split; [done|]. split; [by eapply endpoints_claims|].
  clear -Hc. subst ro. induction Hc as [|rs c rss cs (_ & _ & E) _ IH]; [done|]. simpl.
  unfold roster_member at 1. by rewrite E, IH.
Qed.

(** C17: A roster that verifies freezes the whole membership.  The players of
    the hand, with their devices, buy-ins and physical seats, are exactly the
    members of the membership it refers to, nobody missing and nobody added;
    the domain roster is well formed (two to six players, contiguous hand
    indices, the dealer sits at the table); and the endpoint on every place of
    the roster is that of the player there: it has the player, the device, and
    the claim, peer and addresses of that player's own join intent in the
    membership, which are a valid network endpoint. *)
Theorem verified_roster_freezes_membership r now :
  let p := sp_proposal (sr_membership r) in
  let ro := ready_roster (sr_proposal r) in
  let es := hp_endpoints (sr_proposal r) in
  signed_roster_verify_at r now = Ok tt →
  ∃ m, as_membership p = Ok m ∧ ro_table_id ro = ms_table_id m ∧ membership_version ro = version m
    ∧ roster_wf ro ∧ map roster_member (ro_seats ro) ≡ₚ members m
    ∧ Forall2 (reaches p) (ro_seats ro) es ∧ map ep_claim es ≡ₚ map seat_claim (mp_seats p).
Proof.
  intros p ro es Hr. destruct (verified_roster_claims r now Hr) as (Hok & [] & Hw & Hcopy & claims & Hp & Hc & Hmem').
  fold p in Hok, Hp. fold ro in Hw, Hmem'. fold es in Hc.
  pose proof rp_membership0 as (Ht & Hv & _)%validate_roster_membership_Ok.
  destruct (proposal_membership p now Hok) as [Hm Hmem].
  exists (membership_of p). split_and!; try done.
  - by rewrite Hmem, Hmem', Hp.
  - fold ro p in rp_endpoints0. fold es in rp_endpoints0. clear -Hok Hcopy rp_endpoints0. fold p ro in Hcopy. induction rp_endpoints0 as [|rs e rss es' He _ IH]; [constructor|].
    apply Forall_cons in Hcopy as [Hcp Hcopy]. constructor; [by eapply endpoint_reaches|by apply IH].
  - by rewrite Hc, Hp.
Qed.

(** ** Unanimity *)

(** The acceptance [a] of the player of endpoint [e]. *)
Definition roster_accepts (r : SignedHandRosterProposal) (now : Z) (e : RosterEndpoint)
    (a : HandRosterAcceptance) : Prop :=
  ra_version a = 1 ∧ ra_proposal_hash a = hp_hash (sr_proposal r) ∧ ra_claim a = ep_claim e
  ∧ (ra_player a, ra_device a) = (ep_player e, ep_device e)
  ∧ cert_person (att_certificate (ra_attestation a)) = (ep_player e, ep_device e)
  ∧ is_signed_time_not_future (ra_accepted_at a) now = true
  ∧ (∃ j, intent_for_endpoint r e = Ok j
       ∧ is_signed_time_before_expiry (ra_accepted_at a) (ji_expires_at j) = true)
  ∧ attestation_verify (ra_attestation a) HAND_ROSTER_ACCEPTANCE_DOMAIN (roster_acceptance_bytes a)
      now = Ok tt.

Lemma roster_acceptance_verify_at_Ok a r now :
  roster_acceptance_verify_at a r now = Ok tt ↔
  signed_roster_verify_at r now = Ok tt
  ∧ ∃ e, endpoint_by_claim (sr_proposal r) (ra_claim a) = Some e ∧ roster_accepts r now e a.
Proof.
  unfold roster_acceptance_verify_at, roster_accepts, cert_person. ok_iff. rewrite bind_ok_or. split.
  - intros (? & ? & ? & e & He & Hv). apply bind_Ok in Hv as (j & Hj & Hv). split; [done|]. exists e. split; [done|].
    apply find_first_Some in He as [_ He]. apply bool_decide_eq_true in He. revert Hv. ok_iff.
    intros (? & ? & [? ?] & [? ?] & ?). split_and!; try congruence; eauto.
  - intros (? & e & He & ? & ? & ? & Hp & Hc & ? & (j & ? & ?) & ?). injection Hp as ??.
    injection Hc as ??. split_and!; try done. exists e. split; [done|].
    apply bind_Ok. exists j. split; [done|]. ok_iff. split_and!; congruence.
Qed.

Lemma verify_hand_roster_acceptances_Ok r acceptances now :
  verify_hand_roster_acceptances r acceptances now = Ok tt ↔
  signed_roster_verify_at r now = Ok tt
  ∧ Forall (λ a, roster_acceptance_verify_at a r now = Ok tt) acceptances
  ∧ NoDup (map ra_claim acceptances)
  ∧ ∀ c, c ∈ map ra_claim acceptances ↔ c ∈ map ep_claim (hp_endpoints (sr_proposal r)).
Proof.
  assert (∀ obs a obs', observe_roster_acceptance r now obs a = Ok obs' ↔
    roster_acceptance_verify_at a r now = Ok tt ∧ ra_claim a ∉ obs ∧ obs' = {[ra_claim a]} ∪ obs) as Hobs.
  { intros obs a obs'. unfold observe_roster_acceptance. ok_iff. by rewrite insert_new_Ok. }
  unfold verify_hand_roster_acceptances. ok_iff. rewrite bind_Ok.
  setoid_rewrite (fold_insert_new _ _ _ Hobs). setoid_rewrite reject_if_Ok.
  setoid_rewrite negb_false_iff. setoid_rewrite bool_decide_eq_true. split.
  - intros (? & obs & (? & ? & _ & ->) & Heq). split_and!; try done.
    intros c. rewrite (right_id_L ∅ (∪)) in Heq.
    rewrite <-!(elem_of_list_to_set (C:=gset JoinClaimId)). by rewrite Heq.
  - intros (? & ? & ? & Hc). split; [done|]. eexists. split; [split_and!; [done..|set_solver|done]|].
    apply leibniz_equiv. set_solver.
Qed.

(** A hand starts exactly when all its players have signed its roster.  If
    the claims of the roster are different, the acceptances of a signed roster
    verify if and only if the roster does and the acceptances, in whatever
    order they came, are one for each player: signed by that player's device,
    for this roster, while the player's join intent was running. *)
Theorem roster_acceptances_unanimous r acceptances now :
  NoDup (map ep_claim (hp_endpoints (sr_proposal r))) →
  verify_hand_roster_acceptances r acceptances now = Ok tt ↔
  signed_roster_verify_at r now = Ok tt
  ∧ ∃ l, l ≡ₚ acceptances ∧ Forall2 (roster_accepts r now) (hp_endpoints (sr_proposal r)) l.
Proof.
  intros Hnd. rewrite verify_hand_roster_acceptances_Ok.
  assert (∀ e, e ∈ hp_endpoints (sr_proposal r) → endpoint_by_claim (sr_proposal r) (ep_claim e) = Some e)
    as Hown by (intros; by apply (find_first_key ep_claim)).
  enough (signed_roster_verify_at r now = Ok tt → ∀ e a, e ∈ hp_endpoints (sr_proposal r) →
    roster_accepts r now e a ↔ roster_acceptance_verify_at a r now = Ok tt ∧ ra_claim a = ep_claim e) as HR.
  { split; intros [Hs Hrest]; split; try done; revert Hrest;
      apply (matched_replies ep_claim ra_claim); auto. }
  intros Hs e a Hin. rewrite roster_acceptance_verify_at_Ok. split.
  - intros Ha. pose proof Ha as (_ & _ & Hc & _). split; [|done]. split; [done|]. exists e.
    split; [|done]. rewrite Hc. by apply Hown.
  - intros [(_ & e' & He' & Ha) Hc]. rewrite Hc, Hown in He' by done. by injection He' as <-.
Qed.

(** ** The round of a hand roster *)

Lemma from_membership_Ok m n prev dealer r :
  from_membership blake3 m n prev dealer = Ok r →
  roster_verify blake3 r = Ok tt ∧ map roster_member (ro_seats r) = members m
  ∧ ro_table_id r = ms_table_id m ∧ membership_version r = version m ∧ hand_number r = n.
Proof.
  unfold from_membership. intros Hr. apply bind_Ok in Hr as (_ & _ & Hr).
  apply bind_Ok in Hr as (_ & _ & Hr). apply bind_Ok in Hr as (d & _ & Hr).
  apply bind_Ok in Hr as (d' & _ & Hr). apply bind_Ok in Hr as ([] & Hv & [= <-]).
  split; [|split; [|done]].
  - apply roster_verify_Ok. apply roster_validate_ok in Hv. split; [by destruct Hv; split|done].
  - simpl. rewrite (roster_seats_field _ (λ x, x)); [by rewrite map_id|]. by intros i [].
Qed.

Lemma roster_copies p now r s :
  sp_proposal s = p → proposal_ok p now → map roster_member (ro_seats r) = map as_member (mp_seats p) →
  ro_table_id r = mp_table_id p → membership_version r = mp_membership_version p →
  validate_roster_membership r s = Ok tt.
Proof.
  intros <- Hok Hm Ht Hv. apply validate_roster_membership_Ok. split_and!; try done.
  - by rewrite <-(length_map roster_member), Hm, length_map.
  - apply Forall_forall. intros rs Hrs.
    assert (roster_member rs ∈ map as_member (mp_seats (sp_proposal s))) as Hin.
    { rewrite <-Hm. by apply (list_elem_of_fmap_2 roster_member). }
    apply list_elem_of_fmap in Hin as (c & [= Hp Hd Hb Hs] & Hc). exists c.
    rewrite Hp. split; [by eapply seat_by_own_player|]. done.
Qed.

Lemma roster_assemble_complete r s now :
  signed_verify_at s now = Ok tt → roster_verify blake3 r = Ok tt →
  validate_roster_membership r s = Ok tt →
  ∃ p, roster_assemble r s now = Ok p ∧ ready_roster p = r ∧ roster_proposal_ok p s.
Proof.
  intros Hs Hr Hm. pose proof Hm as (_ & _ & _ & Hall)%validate_roster_membership_Ok.
  destruct (list_choose (λ rs e, endpoint_of (sp_proposal s) rs = Ok e ∧ endpoint_for (sp_proposal s) rs e)
    (ro_seats r)) as [es Hes].
  { intros rs Hrs. rewrite Forall_forall in Hall. destruct (Hall rs Hrs) as (c & Hc & _ & Hd & _).
    exists (from_seat (hand_index rs) c). unfold endpoint_of. rewrite Hc. split; [done|].
    pose proof Hc as [_ Hp]%seat_by_player_Some. split; [done|]. exists c. split; [done|].
    split; [done|]. unfold from_seat, seat_claim. simpl. by rewrite Hp. }
  set (p0 := mkRosterProposal 1 r (proposal_hash (sp_proposal s)) es (replicate 32 0)).
  assert (Forall2 (endpoint_for (sp_proposal s)) (ro_seats r) es) as Hf
    by (eapply Forall2_impl; [exact Hes|by intros ?? [_ ?]]).
  assert (roster_unsigned_bytes p0 = Ok (roster_bytes p0)) as Hb.
  { apply (roster_unsigned_bytes_Ok p0 s Hf). by apply roster_verify_Ok in Hr as [? _]. }
  exists (set_hp_hash (blake3 (roster_bytes p0)) p0). split; [|split; [done|by split]].
  unfold roster_assemble. rewrite Hs, Hr, Hm. cbn [map_err mbind result_bind].
  rewrite (proj2 (try_collect_Ok (endpoint_of (sp_proposal s)) (ro_seats r) es)).
  2: { eapply Forall2_impl; [exact Hes|by intros ?? [? _]]. }
  cbn [mbind result_bind]. fold p0. rewrite (proj2 (roster_validate_contents_Ok p0 s)) by done.
  cbn [mbind result_bind]. by rewrite Hb.
Qed.

Lemma intent_signer_Ok key seat now :
  can_sign key seat now → validate_intent_signer (sc_intent seat) key.1 key.2 = Ok tt.
Proof.
  intros ([= Hp Hd] & Hk & _). unfold validate_intent_signer. ok_iff. by rewrite Hp, Hd.
Qed.

Lemma signed_roster_issue_complete `{!CryptoLaws} p s low key now :
  signed_verify_at s now = Ok tt → roster_proposal_ok p s → lowest_seat (sp_proposal s) low →
  can_sign key low now →
  ∃ r, signed_roster_issue p s now key.1 key.2 = Ok r ∧ sr_proposal r = p ∧ sr_membership r = s
    ∧ ∀ now', signed_verify_at s now' = Ok tt → verify_at key.2 now' = Ok tt →
        signed_roster_verify_at r now' = Ok tt.
Proof.
  intros Hs Hp Hlow Hk.
  pose proof Hs as (_ & (_ & Hok & _)%proposal_verify_at_Ok & _)%signed_verify_at_Ok.
  destruct (coordinator_spec _ low (po_seat_order _ _ Hok) Hlow) as [Hc Hb].
  destruct (attestation_complete HAND_ROSTER_PROPOSAL_DOMAIN
    (canonical_signed_roster_bytes 1 (hp_hash p) (seat_claim low)) now key.1 key.2)
    as (a & Ha & Hcert & Hv); [apply Hk|by eapply can_sign_device|].
  exists (mkSignedRoster 1 p s (seat_claim low) a). split; [|split; [done|split; [done|]]].
  - unfold signed_roster_issue. rewrite Hs. cbn [map_err mbind result_bind].
    rewrite (proj2 (roster_proposal_verify_Ok p s) Hp), Hc. cbn [ok_or mbind result_bind]. rewrite Hb.
    cbn [ok_or mbind result_bind]. erewrite intent_signer_Ok by done. cbn [mbind result_bind]. by rewrite Ha.
  - intros now' Hs' Hc'. apply signed_roster_verify_at_Ok. cbn [sr_version sr_proposal sr_membership sr_coordinator sr_attestation].
    split_and!; try done. exists low. rewrite Hcert. split_and!; try done; [apply Hk|by apply Hv].
Qed.

(** The endpoint of a seated claim. *)
Lemma seat_endpoint r now seat :
  signed_roster_verify_at r now = Ok tt → NoDup (map seat_claim (mp_seats (sp_proposal (sr_membership r)))) →
  seat ∈ mp_seats (sp_proposal (sr_membership r)) →
  ∃ e, endpoint_by_claim (sr_proposal r) (seat_claim seat) = Some e
    ∧ (ep_player e, ep_device e) = seat_person seat ∧ ep_claim e = seat_claim seat
    ∧ intent_for_endpoint r e = Ok (sc_intent seat).
Proof.
  intros Hr Hnd Hin. destruct (verified_roster_claims r now Hr) as (Hok & [] & Hw & Hall & claims & Hp & Hm & _).
  assert (seat_claim seat ∈ map ep_claim (hp_endpoints (sr_proposal r))) as He.
  { rewrite Hm, Hp. by apply (list_elem_of_fmap_2 seat_claim). }
  apply list_elem_of_fmap in He as (e & Hce & He). exists e.
  assert (endpoint_by_claim (sr_proposal r) (seat_claim seat) = Some e) as Hby.
  { rewrite Hce. apply (find_first_key ep_claim); [|done]. by rewrite Hm, Hp. }
  split; [done|]. apply list_elem_of_lookup in He as [k He].
  destruct (Forall2_lookup_r _ _ _ _ _ rp_endpoints0 He) as (rs & Hrs & Hd & c & Hby' & Hpl & Hee).
  assert (c = seat) as ->.
  { apply seat_by_player_Some in Hby' as [Hcin _].
    apply (NoDup_key_eq seat_claim (mp_seats (sp_proposal (sr_membership r)))); try done.
    rewrite Hce, Hee. done. }
  rewrite Forall_forall in Hall. destruct (Hall rs) as (c' & Hc' & _ & Hdev & _);
    [by eapply list_elem_of_lookup_2|]. assert (c' = seat) as -> by congruence.
  split; [|split; [done|]].
  - unfold seat_person, member_person. simpl. rewrite Hd, Hdev. f_equal. rewrite Hee. simpl. done.
  - unfold intent_for_endpoint. rewrite <-Hce. by rewrite seat_by_own_claim.
Qed.

Lemma roster_acceptance_complete `{!CryptoLaws} r seat key now now' :
  NoDup (map seat_claim (mp_seats (sp_proposal (sr_membership r)))) →
  seat ∈ mp_seats (sp_proposal (sr_membership r)) → signed_roster_verify_at r now = Ok tt →
  signed_roster_verify_at r now' = Ok tt → can_sign key seat now → verify_at key.2 now' = Ok tt →
  now <= now' → now <= u64_max →
  ∃ a, roster_acceptance_issue r (seat_claim seat) now key.1 key.2 = Ok a
    ∧ roster_acceptance_verify_at a r now' = Ok tt ∧ ra_claim a = seat_claim seat.
Proof.
  intros Hnd Hin Hr Hr' Hk Hc' Hle Hmax.
  destruct (seat_endpoint r now seat Hr Hnd Hin) as (e & He & Hper & Hce & Hint).
  pose proof Hr as (_ & (_ & (_ & Hok & _)%proposal_verify_at_Ok & _)%signed_verify_at_Ok & _ & _)%signed_roster_verify_at_Ok.
  pose proof (seat_expiry _ _ _ Hok Hin) as Hexp.
  destruct (attestation_complete HAND_ROSTER_ACCEPTANCE_DOMAIN
    (canonical_roster_acceptance_bytes 1 (hp_hash (sr_proposal r)) (seat_claim seat) (ep_player e)
       (ep_device e) now) now key.1 key.2) as (a & Ha & Hcert & Hv); [apply Hk|by eapply can_sign_device|].
  exists (mkRosterAcceptance 1 (hp_hash (sr_proposal r)) (seat_claim seat) (ep_player e) (ep_device e)
    now a). split; [|split; [|done]].
  - unfold roster_acceptance_issue. rewrite Hr. cbn [mbind result_bind]. rewrite He.
    cbn [ok_or mbind result_bind]. rewrite Hint. cbn [mbind result_bind].
    erewrite intent_signer_Ok by done. cbn [mbind result_bind]. by rewrite Ha.
  - apply roster_acceptance_verify_at_Ok. split; [done|]. exists e. split; [done|].
    unfold roster_accepts. cbn. rewrite Hcert. split_and!; try done.
    + rewrite Hper. apply Hk.
    + by apply not_future_later.
    + eauto.
    + by apply Hv.
Qed.

Lemma acceptances_complete r now l l' :
  signed_roster_verify_at r now = Ok tt →
  NoDup (map seat_claim (mp_seats (sp_proposal (sr_membership r)))) →
  Forall2 (λ seat a, roster_acceptance_verify_at a r now = Ok tt ∧ ra_claim a = seat_claim seat)
    (mp_seats (sp_proposal (sr_membership r))) l →
  l' ≡ₚ l → verify_hand_roster_acceptances r l' now = Ok tt.
Proof.
  intros Hr Hnd Hl Hl'. apply verify_hand_roster_acceptances_Ok. split; [done|].
  assert (Forall (λ a, roster_acceptance_verify_at a r now = Ok tt) l
    ∧ map ra_claim l = map seat_claim (mp_seats (sp_proposal (sr_membership r)))) as [Hv Hm].
  { clear -Hl. induction Hl as [|seat a seats l [? ?] _ [? ?]]; [done|]. simpl.
    split; [by constructor|by f_equal]. }
  destruct (verified_roster_claims r now Hr) as (_ & _ & _ & _ & claims & Hp & Hm' & _).
  assert (map ra_claim l' ≡ₚ map ep_claim (hp_endpoints (sr_proposal r))) as Hmp
    by (by rewrite Hl', Hm, Hm', Hp).
  split; [by rewrite Hl'|]. split; [by rewrite Hl', Hm|]. intros c. by rewrite Hmp.
Qed.

(** From an agreed membership to a hand everyone has signed.  When a signed
    membership with two to six members on physical seats verifies and its
    members can sign, the roster the domain derives for hand number [n] is
    accepted by the network layer: it assembles, the member on the lowest seat
    can issue it, every member can accept it, and the acceptances in any order
    complete the round as long as the membership and the certificates are
    valid. *)
Theorem roster_round_completes `{!CryptoLaws} s key n prev prev_dealer now now' :
  let p := sp_proposal s in
  NoDup (map seat_claim (mp_seats p)) → now <= now' → now <= u64_max →
  signed_verify_at s now = Ok tt → signed_verify_at s now' = Ok tt →
  (∀ seat, seat ∈ mp_seats p → can_sign (key seat) seat now ∧ verify_at (key seat).2 now' = Ok tt) →
  Forall (λ seat, 1 <= sc_seat seat <= 6) (mp_seats p) → (2 <= length (mp_seats p))%nat →
  n ≠ 0 → (∀ d, prev_dealer = Some d → 1 <= d <= 6) →
  ∃ m ro low hp r acceptances,
    as_membership p = Ok m ∧ from_membership blake3 m n prev prev_dealer = Ok ro ∧ hand_number ro = n
    ∧ roster_assemble ro s now = Ok hp
    ∧ lowest_seat p low ∧ signed_roster_issue hp s now (key low).1 (key low).2 = Ok r
    ∧ Forall2 (λ seat a, roster_acceptance_issue r (seat_claim seat) now (key seat).1 (key seat).2 = Ok a)
        (mp_seats p) acceptances
    ∧ ∀ l, l ≡ₚ acceptances → verify_hand_roster_acceptances r l now' = Ok tt.
Proof.
  intros p Hnd Hle Hmax Hs Hs' Hkey Hseats Hlen Hn Hdealer.
  pose proof Hs as (_ & (_ & Hok & _)%proposal_verify_at_Ok & _)%signed_verify_at_Ok. fold p in Hok.
  destruct (proposal_membership p now Hok) as [Hm Hmem].
  assert (∃ ro, from_membership blake3 (membership_of p) n prev prev_dealer = Ok ro) as [ro Hro].
  { edestruct (from_membership_result blake3 (membership_of p) n prev prev_dealer) as (d & _ & Hd);
      [by eapply membership_of_wf|rewrite Hmem, length_map; destruct Hok; lia|done|done|]. eauto. }
  pose proof (from_membership_Ok _ _ _ _ _ Hro) as (Hv & Hmap & Ht & Hver & Hnum).
  destruct (roster_assemble_complete ro s now Hs Hv) as (hp & Hhp & _ & Hhok).
  { eapply roster_copies; [done|exact Hok|by rewrite Hmap|done|done]. }
  destruct (proposal_lowest_seat _ _ Hok) as [low Hlow].
  destruct (Hkey low (proj1 Hlow)) as [Hk Hk'].
  destruct (signed_roster_issue_complete hp s low (key low) now Hs Hhok Hlow Hk)
    as (r & Hr & Hrp & Hrm & Hrv).
  assert (signed_roster_verify_at r now = Ok tt) as Hr0 by (apply Hrv; [done|apply Hk]).
  assert (signed_roster_verify_at r now' = Ok tt) as Hr1 by (by apply Hrv).
  destruct (list_choose (λ seat a, roster_acceptance_issue r (seat_claim seat) now (key seat).1 (key seat).2 = Ok a
    ∧ roster_acceptance_verify_at a r now' = Ok tt ∧ ra_claim a = seat_claim seat) (mp_seats p)) as [l Hl].
  { intros seat Hseat. destruct (Hkey seat Hseat). apply roster_acceptance_complete; by rewrite ?Hrm. }
  exists (membership_of p), ro, low, hp, r, l. split_and!; try done.
  - eapply Forall2_impl; [exact Hl|by intros ?? [? _]].
  - intros l' Hl'. eapply (acceptances_complete r now' l l'); [done|by rewrite Hrm| |done].
    rewrite Hrm. eapply Forall2_impl; [exact Hl|by intros ?? [_ ?]].
Qed.
End checks.

(** ** Examples *)
Definition example_ready_roster : ReadyHandRoster :=
  let r := mkRoster table_nine 4 3 None 2 (roster_seats (map as_member (example_seats 2 5))) (replicate 32 0) in
  set_roster_hash (toy_blake3 (roster_canonical_bytes r)) r.
Definition example_roster_proposal : HandRosterProposal :=
  let p := mkRosterProposal 1 example_ready_roster (proposal_hash (example_proposal 2 5))
             [@from_seat toy_crypto 0 (mkSeatClaim 2 (intent_as anna 11));
              @from_seat toy_crypto 1 (mkSeatClaim 5 (intent_as ben 12))] (replicate 32 0) in
  set_hp_hash (toy_blake3 (roster_bytes p)) p.
Definition example_signed_roster : SignedHandRosterProposal :=
  let claim := @ji_claim_id toy_crypto (intent_as anna 11) in
  mkSignedRoster 1 example_roster_proposal (example_signed 2 5) claim
    (attest_as anna HAND_ROSTER_PROPOSAL_DOMAIN
       (canonical_signed_roster_bytes 1 (hp_hash example_roster_proposal) claim)).
Definition roster_acceptance_as (key : list Z * DeviceCertificate) (j : JoinIntent) : HandRosterAcceptance :=
  let claim := @ji_claim_id toy_crypto j in
  let hash := hp_hash example_roster_proposal in
  mkRosterAcceptance 1 hash claim (ji_player j) (ji_device j) 3000
    (attest_as key HAND_ROSTER_ACCEPTANCE_DOMAIN
       (canonical_roster_acceptance_bytes 1 hash claim (ji_player j) (ji_device j) 3000)).

Lemma verified_roster_freezes_membership_witness :
  ∃ m, @as_membership toy_crypto (example_proposal 2 5) = Ok m
    ∧ map roster_member (ro_seats example_ready_roster) ≡ₚ members m
    ∧ Forall2 (@reaches toy_crypto toy_libp2p (example_proposal 2 5)) (ro_seats example_ready_roster) (hp_endpoints example_roster_proposal).
Proof.
  destruct (@verified_roster_freezes_membership toy_crypto toy_libp2p example_signed_roster 3000)
    as (m & Hm & _ & _ & _ & Hp & Hr & _); [vm_compute; reflexivity|].
  exists m. split; [exact Hm|]. split; [exact Hp|exact Hr].
Defined.

Lemma roster_acceptances_unanimous_witness :
  ∃ l, l ≡ₚ [roster_acceptance_as ben (intent_as ben 12); roster_acceptance_as anna (intent_as anna 11)]
    ∧ Forall2 (@roster_accepts toy_crypto example_signed_roster 3000)
        (hp_endpoints example_roster_proposal) l.
Proof.
  apply (@roster_acceptances_unanimous toy_crypto toy_libp2p example_signed_roster
    [roster_acceptance_as ben (intent_as ben 12); roster_acceptance_as anna (intent_as anna 11)] 3000).
  - apply (bool_decide_eq_true_1 (NoDup _)). vm_compute. reflexivity.
  - vm_compute. reflexivity.
Defined.

Lemma roster_round_completes_witness :
  ∃ m ro low hp r acceptances,
    @as_membership toy_crypto (example_proposal 2 5) = Ok m
    ∧ from_membership toy_blake3 m 4 None (Some 2) = Ok ro ∧ hand_number ro = 4
    ∧ @roster_assemble toy_crypto toy_libp2p ro (example_signed 2 5) 3000 = Ok hp
    ∧ lowest_seat (example_proposal 2 5) low
    ∧ @signed_roster_issue toy_crypto toy_libp2p hp (example_signed 2 5) 3000 (key_of low).1 (key_of low).2
      = Ok r
    ∧ Forall2 (λ seat a, @roster_acceptance_issue toy_crypto toy_libp2p r (@seat_claim toy_crypto seat) 3000
                           (key_of seat).1 (key_of seat).2 = Ok a)
        (mp_seats (example_proposal 2 5)) acceptances
    ∧ ∀ l, l ≡ₚ acceptances →
        @verify_hand_roster_acceptances toy_crypto toy_libp2p r l 4000 = Ok tt.
Proof.
  apply (@roster_round_completes toy_crypto toy_libp2p toy_crypto_laws (example_signed 2 5)).
  - exact example_claims_distinct.
  - lia.
  - unfold u64_max. lia.
  - vm_compute. reflexivity.
  - vm_compute. reflexivity.
  - intros seat. change (mp_seats (sp_proposal (example_signed 2 5))) with (example_seats 2 5).
    unfold example_seats. rewrite !elem_of_cons, elem_of_nil.
    intros [->|[->|[]]]; vm_compute; repeat split; reflexivity.
  - change (mp_seats (sp_proposal (example_signed 2 5))) with (example_seats 2 5).
    unfold example_seats. rewrite !Forall_cons. simpl. split_and!; done || lia.
  - vm_compute. lia.
  - lia.
  - intros d [= <-]. lia.
Defined.
