(* ===== verification/MentalPoker.v ===== *)
(** * MentalPoker: the card protocol (token-holdem-mental-poker lib.rs)

    The adapter around the external crate ziffle: keys with a proof of
    ownership, shuffles and decryption shares with proofs, all exchanged as
    serialized packets, and the transcript that records them.  The primitives
    of ziffle and the encodings of ark-serialize are the operations of the
    classes [CanonicalSerialize] and [Ziffle]; what the crate documents about
    honest use is [ZiffleLaws].  A function that draws random numbers is a
    computation over the state of the generator. *)

From S2P Require Import Prelude Machine Encoding Order Ids Cards.

Definition STANDARD_DECK_SIZE : nat := 52.
Definition TRANSCRIPT_DOMAIN : list Z := domain_bytes "token-holdem/mental-poker-transcript/v1".

Inductive MentalPokerError :=
  | ContextTooShort | NotEnoughParticipants | Serialization | TrailingBytes (n : nat)
  | InvalidOwnershipProof | InvalidShuffleProof | InvalidRevealProof
  | CardIndexOutOfRange (index : nat) | MissingRevealShares (expected actual : nat)
  | UnableToRevealCard | InvalidRevealedCard (card : nat).

Record KeyAnnouncement := mkAnnouncement {
  ka_public_key : list Z;
  ownership_proof : list Z;
}.
Record ShufflePacket := mkShuffle {
  sh_deck : list Z;
  sh_proof : list Z;
}.
Record RevealSharePacket := mkShare {
  share_token : list Z;
  share_proof : list Z;
}.
#[export] Instance KeyAnnouncement_eq_dec : EqDecision KeyAnnouncement.
Proof. solve_decision. Defined.
#[export] Instance ShufflePacket_eq_dec : EqDecision ShufflePacket.
Proof. solve_decision. Defined.
#[export] Instance RevealSharePacket_eq_dec : EqDecision RevealSharePacket.
Proof. solve_decision. Defined.

(** ** The external crates *)

(** A value is read from the front of the bytes; the rest is returned. *)
Class CanonicalSerialize (T : Type) := {
  serialize_compressed : T → option (list Z);
  deserialize_compressed : list Z → option (T * list Z);
}.

Class Ziffle := {
  rng : Type;
  SecretKey : Type;
  PublicKey : Type;
  OwnershipProof : Type;
  MaskedDeck : Type;
  ShuffleProof : Type;
  MaskedCard : Type;
  RevealToken : Type;
  RevealTokenProof : Type;
  AggregatePublicKey : Type;
  VerifiedPublicKey : Type;
  VerifiedMaskedDeck : Type;
  VerifiedRevealToken : Type;
  key_serial :: CanonicalSerialize PublicKey;
  ownership_serial :: CanonicalSerialize OwnershipProof;
  deck_serial :: CanonicalSerialize MaskedDeck;
  shuffle_serial :: CanonicalSerialize ShuffleProof;
  token_serial :: CanonicalSerialize RevealToken;
  token_proof_serial :: CanonicalSerialize RevealTokenProof;
  keygen : list Z → rng → (SecretKey * PublicKey * OwnershipProof) * rng;
  verify_ownership : OwnershipProof → PublicKey → list Z → option VerifiedPublicKey;
  aggregate_public_key : list VerifiedPublicKey → AggregatePublicKey;
  shuffle_initial_deck : AggregatePublicKey → list Z → rng → (MaskedDeck * ShuffleProof) * rng;
  verify_initial_deck : AggregatePublicKey → MaskedDeck → ShuffleProof → list Z → option VerifiedMaskedDeck;
  shuffle_deck : AggregatePublicKey → VerifiedMaskedDeck → list Z → rng → (MaskedDeck * ShuffleProof) * rng;
  verify_shuffle : AggregatePublicKey → VerifiedMaskedDeck → MaskedDeck → ShuffleProof → list Z
    → option VerifiedMaskedDeck;
  deck_get : VerifiedMaskedDeck → nat → option MaskedCard;
  reveal_token : MaskedCard → SecretKey → PublicKey → list Z → rng → (RevealToken * RevealTokenProof) * rng;
  verify_token : RevealTokenProof → VerifiedPublicKey → RevealToken → MaskedCard → list Z
    → option VerifiedRevealToken;
  reveal_masked_card : list VerifiedRevealToken → MaskedCard → option nat;
}.

Section engine.
Context `{Ziffle}.

Definition Drawing (A : Type) : Type := M rng MentalPokerError A.
Definition draw {A} (f : rng → A * rng) : Drawing A := λ r, let '(x, r) := f r in (Ok x, r).

(** [serialize] and [deserialize]: the whole input has to be read. *)
Definition serialize {T} `{CanonicalSerialize T} (value : T) : result MentalPokerError (list Z) :=
  ok_or (serialize_compressed value) Serialization.
Definition deserialize {T} `{CanonicalSerialize T} (bytes : list Z) : result MentalPokerError T :=
  '(value, remaining) ← ok_or (deserialize_compressed bytes) Serialization;
  if (length remaining =? 0)%nat then Ok value else Err (TrailingBytes (length remaining)).

Record PlayerKeyMaterial := mkKeyMaterial {
  km_secret_key : SecretKey;
  km_public_key : PublicKey;
  announcement : KeyAnnouncement;
}.
Record VerifiedDeck := mkVerifiedDeck {
  vd_deck : VerifiedMaskedDeck;
  vd_encoded : list Z;
}.

(** [MentalPokerEngine] is its context: [Shuffle::default] has no state. *)
Definition MentalPokerEngine : Type := list Z.
Definition engine_new (context : list Z) : result MentalPokerError MentalPokerEngine :=
  if (length context <? 16)%nat then Err ContextTooShort else Ok context.

(** [PlayerKeyMaterial::generate]. *)
Definition generate (engine : MentalPokerEngine) : Drawing PlayerKeyMaterial :=
  '(sk, pk, proof) ← draw (keygen engine);
  key ← lift (serialize pk);
  ownership ← lift (serialize proof);
  mret (mkKeyMaterial sk pk (mkAnnouncement key ownership)).

(** [verify_key_announcement], [aggregate_key]. *)
Definition verify_key_announcement (engine : MentalPokerEngine) (k : KeyAnnouncement)
    : result MentalPokerError VerifiedPublicKey :=
  pk ← deserialize (ka_public_key k);
  proof ← deserialize (ownership_proof k);
  ok_or (verify_ownership proof pk engine) InvalidOwnershipProof.
Definition aggregate_key (participants : list VerifiedPublicKey)
    : result MentalPokerError AggregatePublicKey :=
  if (length participants <? 2)%nat then Err NotEnoughParticipants
  else Ok (aggregate_public_key participants).

(** Shuffles. *)
Definition shuffle_packet (shuffled : MaskedDeck * ShuffleProof) : result MentalPokerError ShufflePacket :=
  deck ← serialize shuffled.1;
  proof ← serialize shuffled.2;
  Ok (mkShuffle deck proof).
Definition initial_shuffle (engine : MentalPokerEngine) (aggregate : AggregatePublicKey)
    : Drawing ShufflePacket :=
  shuffled ← draw (shuffle_initial_deck aggregate engine);
  lift (shuffle_packet shuffled).
Definition verify_initial_shuffle (engine : MentalPokerEngine) (aggregate : AggregatePublicKey)
    (p : ShufflePacket) : result MentalPokerError VerifiedDeck :=
  deck ← deserialize (sh_deck p);
  proof ← deserialize (sh_proof p);
  verified ← ok_or (verify_initial_deck aggregate deck proof engine) InvalidShuffleProof;
  Ok (mkVerifiedDeck verified (sh_deck p)).
Definition reshuffle (engine : MentalPokerEngine) (aggregate : AggregatePublicKey)
    (previous : VerifiedDeck) : Drawing ShufflePacket :=
  shuffled ← draw (shuffle_deck aggregate (vd_deck previous) engine);
  lift (shuffle_packet shuffled).
Definition verify_reshuffle (engine : MentalPokerEngine) (aggregate : AggregatePublicKey)
    (previous : VerifiedDeck) (p : ShufflePacket) : result MentalPokerError VerifiedDeck :=
  deck ← deserialize (sh_deck p);
  proof ← deserialize (sh_proof p);
  verified ← ok_or (verify_shuffle aggregate (vd_deck previous) deck proof engine) InvalidShuffleProof;
  Ok (mkVerifiedDeck verified (sh_deck p)).

(** Decryption shares. *)
Definition create_reveal_share (engine : MentalPokerEngine) (deck : VerifiedDeck) (card_index : nat)
    (player : PlayerKeyMaterial) : Drawing RevealSharePacket :=
  card ← lift (ok_or (deck_get (vd_deck deck) card_index) (CardIndexOutOfRange card_index));
  '(token, proof) ← draw (reveal_token card (km_secret_key player) (km_public_key player) engine);
  token ← lift (serialize token);
  proof ← lift (serialize proof);
  mret (mkShare token proof).
Definition verify_reveal_share (engine : MentalPokerEngine) (deck : VerifiedDeck) (card_index : nat)
    (key : VerifiedPublicKey) (p : RevealSharePacket) : result MentalPokerError VerifiedRevealToken :=
  card ← ok_or (deck_get (vd_deck deck) card_index) (CardIndexOutOfRange card_index);
  token ← deserialize (share_token p);
  proof ← deserialize (share_proof p);
  ok_or (verify_token proof key token card engine) InvalidRevealProof.

(** [reveal_card], [reveal_holdem_card]. *)
Definition reveal_card (deck : VerifiedDeck) (card_index : nat) (shares : list VerifiedRevealToken)
    (participant_count : nat) : result MentalPokerError nat :=
  if negb (length shares =? participant_count)%nat
  then Err (MissingRevealShares participant_count (length shares)) else
  card ← ok_or (deck_get (vd_deck deck) card_index) (CardIndexOutOfRange card_index);
  ok_or (reveal_masked_card shares card) UnableToRevealCard.
Definition reveal_holdem_card (deck : VerifiedDeck) (card_index : nat)
    (shares : list VerifiedRevealToken) (participant_count : nat) : result MentalPokerError Card :=
  revealed ← reveal_card deck card_index shares participant_count;
  let deck_index := Z.of_nat revealed in
  if u8_max <? deck_index then Err (InvalidRevealedCard revealed) else
  map_err (λ _, InvalidRevealedCard revealed) (Card_from_deck_index deck_index).
End engine.

(** ** [ProtocolTranscript]: the bytes fed to the hasher so far *)
Definition ProtocolTranscript : Type := list Z.
Definition transcript_default : ProtocolTranscript := TRANSCRIPT_DOMAIN.
Definition append_parts (event_type : list Z) (parts : list (list Z)) (t : ProtocolTranscript)
    : ProtocolTranscript :=
  t ++ write_bytes event_type ++ flat_map write_bytes parts.
Definition append_key (k : KeyAnnouncement) : ProtocolTranscript → ProtocolTranscript :=
  append_parts (string_bytes "key") [ka_public_key k; ownership_proof k].
Definition append_shuffle (p : ShufflePacket) : ProtocolTranscript → ProtocolTranscript :=
  append_parts (string_bytes "shuffle") [sh_deck p; sh_proof p].
Definition append_reveal_share (p : RevealSharePacket) : ProtocolTranscript → ProtocolTranscript :=
  append_parts (string_bytes "reveal") [share_token p; share_proof p].

(** ** The transcript binds the protocol *)
Inductive TranscriptEvent :=
  | KeyEvent (k : KeyAnnouncement) | ShuffleEvent (p : ShufflePacket) | ShareEvent (p : RevealSharePacket).
Definition append_event (t : ProtocolTranscript) (e : TranscriptEvent) : ProtocolTranscript :=
  match e with
  | KeyEvent k => append_key k t
  | ShuffleEvent p => append_shuffle p t
  | ShareEvent p => append_reveal_share p t
  end.
Definition transcript_of (l : list TranscriptEvent) : ProtocolTranscript :=
  fold_left append_event l transcript_default.

Definition event_bytes (e : TranscriptEvent) : list Z := append_event [] e.
Definition event_short (e : TranscriptEvent) : Prop :=
  match e with
  | KeyEvent k => short (ka_public_key k) ∧ short (ownership_proof k)
  | ShuffleEvent p => short (sh_deck p) ∧ short (sh_proof p)
  | ShareEvent p => short (share_token p) ∧ short (share_proof p)
  end.

Lemma transcript_of_bytes l : transcript_of l = TRANSCRIPT_DOMAIN ++ flat_map event_bytes l.
Proof.
  unfold transcript_of. change TRANSCRIPT_DOMAIN with transcript_default. generalize transcript_default.
  induction l as [|e l IH]; intros t; simpl; [by rewrite app_nil_r|].
  rewrite IH, (assoc_L (++)). f_equal. by destruct e.
Qed.

Lemma prefix_inj_event : prefix_inj event_short event_bytes.
Proof.
  assert (∀ t a b r, append_parts t [a; b] [] ++ r = write_bytes t ++ write_bytes a ++ write_bytes b ++ r) as E.
  { intros. unfold append_parts. cbn [flat_map app]. by rewrite app_nil_r, <-!(assoc_L (++)). }
  intros x y r s Hx Hy. destruct x, y; simpl in Hx, Hy; destruct Hx, Hy; unfold event_bytes; cbn [append_event];
    unfold append_key, append_shuffle, append_reveal_share; rewrite !E; intros Hb;
    apply prefix_inj_write_bytes in Hb as [Ht Hb]; try (by vm_compute);
    try (by exfalso; vm_compute in Ht; discriminate).
  all: peel Hb prefix_inj_write_bytes; peel Hb prefix_inj_write_bytes.
  all: match goal with |- ?c ?a = ?c ?b ∧ _ => destruct a, b; simplify_eq/=; done end.
Qed.

Lemma transcript_determines l k :
  Forall event_short l → Forall event_short k → transcript_of l = transcript_of k → l = k.
Proof.
  rewrite !transcript_of_bytes. intros Hl Hk Hb%(inj _).
  eapply prefix_inj_stream; [apply prefix_inj_event| |done..]. by intros [] _.
Qed.

(** ** What ziffle documents *)

(** Values are read back from their encoding. *)
Class SerializeLaws (T : Type) `{CanonicalSerialize T} : Prop :=
  serial_roundtrip (x : T) : ∃ b, serialize_compressed x = Some b ∧ deserialize_compressed b = Some (x, []).

(** Honest keys, shuffles and shares verify; a verified shuffle is a
    permutation; and the shares of all key holders open a card.  [holds] is
    the relation between a key pair and its verified public key, [contents]
    gives the cards of a deck under an aggregate key. *)
Class ZiffleLaws `{Ziffle} := {
  holds : SecretKey → PublicKey → VerifiedPublicKey → Prop;
  contents : AggregatePublicKey → VerifiedMaskedDeck → list nat → Prop;
  key_serial_laws :: SerializeLaws PublicKey;
  ownership_serial_laws :: SerializeLaws OwnershipProof;
  deck_serial_laws :: SerializeLaws MaskedDeck;
  shuffle_serial_laws :: SerializeLaws ShuffleProof;
  token_serial_laws :: SerializeLaws RevealToken;
  token_proof_serial_laws :: SerializeLaws RevealTokenProof;
  keygen_holds : ∀ context r sk pk proof r', keygen context r = ((sk, pk, proof), r') →
    ∃ vk, verify_ownership proof pk context = Some vk ∧ holds sk pk vk;
  initial_permutes : ∀ agg deck proof context v, verify_initial_deck agg deck proof context = Some v →
    ∃ l, contents agg v l ∧ l ≡ₚ seq 0 STANDARD_DECK_SIZE;
  shuffle_permutes : ∀ agg v l deck proof context v', contents agg v l →
    verify_shuffle agg v deck proof context = Some v' → ∃ l', contents agg v' l' ∧ l' ≡ₚ l;
  initial_verifies : ∀ agg context r deck proof r', shuffle_initial_deck agg context r = ((deck, proof), r') →
    is_Some (verify_initial_deck agg deck proof context);
  shuffle_verifies : ∀ agg v context r deck proof r', shuffle_deck agg v context r = ((deck, proof), r') →
    is_Some (verify_shuffle agg v deck proof context);
  deck_cards : ∀ agg v l i, contents agg v l → is_Some (deck_get v i) ↔ (i < length l)%nat;
  token_verifies : ∀ sk pk vk card context r token proof r', holds sk pk vk →
    reveal_token card sk pk context r = ((token, proof), r') →
    is_Some (verify_token proof vk token card context);
  tokens_open : ∀ keys v l i card context tokens,
    contents (aggregate_public_key keys) v l → deck_get v i = Some card →
    Forall2 (λ vk vt, ∃ token proof, verify_token proof vk token card context = Some vt) keys tokens →
    reveal_masked_card tokens card = l !! i;
}.

Section dealing.
Context `{Ziffle}.

Lemma deserialize_Ok {T} `{CanonicalSerialize T} bytes (x : T) :
  deserialize bytes = Ok x ↔ deserialize_compressed bytes = Some (x, []).
Proof.
  unfold deserialize. destruct (deserialize_compressed bytes) as [[y rest]|]; simpl; [|done].
  destruct rest; simpl; split; intros [=]; by subst.
Qed.
Lemma serialize_roundtrip {T} `{SerializeLaws T} (x : T) :
  ∃ b, serialize x = Ok b ∧ deserialize b = Ok x.
Proof.
  destruct (serial_roundtrip x) as (b & Hs & Hd). exists b. unfold serialize. rewrite Hs.
  split; [done|]. by apply deserialize_Ok.
Qed.

(** The deck at the end of a chain of verified shuffles, whoever made them. *)
Inductive shuffled (engine : MentalPokerEngine) (agg : AggregatePublicKey) : VerifiedDeck → Prop :=
  | shuffled_first p d : verify_initial_shuffle engine agg p = Ok d → shuffled engine agg d
  | shuffled_again d p d' : shuffled engine agg d → verify_reshuffle engine agg d p = Ok d' →
      shuffled engine agg d'.

Context {laws : ZiffleLaws}.

Lemma shuffled_contents engine agg d :
  shuffled engine agg d → ∃ l, contents agg (vd_deck d) l ∧ l ≡ₚ seq 0 STANDARD_DECK_SIZE.
Proof.
  induction 1 as [p d Hv|d p d' _ (l & Hl & Hp) Hv].
  - unfold verify_initial_shuffle in Hv. apply bind_Ok in Hv as (? & _ & Hv).
    apply bind_Ok in Hv as (? & _ & Hv). apply bind_Ok in Hv as (v & Hv & [= <-]).
    apply ok_or_Ok in Hv. by eapply initial_permutes.
  - unfold verify_reshuffle in Hv. apply bind_Ok in Hv as (? & _ & Hv).
    apply bind_Ok in Hv as (? & _ & Hv). apply bind_Ok in Hv as (v & Hv & [= <-]).
    apply ok_or_Ok in Hv. destruct (shuffle_permutes _ _ _ _ _ _ _ Hl Hv) as (l' & Hl' & Hp').
    exists l'. split; [done|]. by etrans.
Qed.

Lemma deck_card_of i : (i < 52)%nat → ∃ c, Card_from_deck_index (Z.of_nat i) = Ok c ∧ valid_card c
  ∧ 13 * suit_index (card_suit c) + card_rank c - 2 = Z.of_nat i.
Proof. intros Hi. apply deck_index_bijection. lia. Qed.

(** Opening a card of a shuffled deck with the verified shares of all keys. *)
Lemma reveal_holdem_card_opens engine keys d l i packets shares :
  contents (aggregate_public_key keys) (vd_deck d) l → l ≡ₚ seq 0 STANDARD_DECK_SIZE → (i < 52)%nat →
  Forall2 (λ '(key, p) share, verify_reveal_share engine d i key p = Ok share)
    (zip keys packets) shares → length packets = length keys →
  ∃ n c, l !! i = Some n ∧ (n < 52)%nat ∧ Card_from_deck_index (Z.of_nat n) = Ok c
    ∧ reveal_holdem_card d i shares (length keys) = Ok c.
Proof.
  intros Hl Hp Hi Hs Hlen.
  assert (length l = 52%nat) as Hll by (by rewrite Hp, length_seq).
  destruct (lookup_lt_is_Some_2 l i) as [n Hn]; [lia|].
  assert (n < 52)%nat as Hn52.
  { apply list_elem_of_lookup_2 in Hn. rewrite Hp in Hn. apply elem_of_seq in Hn. unfold STANDARD_DECK_SIZE in Hn. lia. }
  destruct (deck_card_of n Hn52) as (c & Hc & _). exists n, c. split_and!; [done..|].
  pose proof (Forall2_length _ _ _ Hs) as Hsl. rewrite length_zip_with in Hsl.
  destruct (proj2 (deck_cards _ _ _ i Hl)) as [card Hcard]; [lia|].
  unfold reveal_holdem_card, reveal_card.
  replace (length shares =? length keys)%nat with true by (symmetry; apply Nat.eqb_eq; lia).
  rewrite Hcard. cbn [negb ok_or mbind result_bind].
  rewrite (tokens_open keys (vd_deck d) l i card engine shares Hl Hcard), Hn.
  - cbn [ok_or mbind result_bind]. unfold u8_max. replace (_ <? _) with false by lia. by rewrite Hc.
  - clear -Hs Hlen Hcard. revert packets shares Hs Hlen. induction keys as [|k keys IH]; intros [|p ps] shares Hs Hlen;
      simplify_eq/=; inversion Hs as [|? share ? rest Hv Hs']; subst; constructor; [|by eapply IH].
    unfold verify_reveal_share in Hv. rewrite Hcard in Hv. cbn [ok_or mbind result_bind] in Hv.
    apply bind_Ok in Hv as (token & _ & Hv). apply bind_Ok in Hv as (proof & _ & Hv).
    apply ok_or_Ok in Hv. eauto.
Qed.

(** A player who holds a key can always make a share that verifies. *)
Lemma reveal_share_complete engine agg d l i km key r :
  contents agg (vd_deck d) l → (i < length l)%nat → holds (km_secret_key km) (km_public_key km) key →
  ∃ p r', create_reveal_share engine d i km r = (Ok p, r')
    ∧ is_ok (verify_reveal_share engine d i key p) = true.
Proof.
  intros Hl Hi Hk. destruct (proj2 (deck_cards _ _ _ i Hl) Hi) as [card Hcard].
  destruct (reveal_token card (km_secret_key km) (km_public_key km) engine r) as [[token proof] r'] eqn:Ht.
  destruct (serialize_roundtrip token) as (tb & Hts & Htd).
  destruct (serialize_roundtrip proof) as (pb & Hps & Hpd).
  destruct (token_verifies _ _ _ _ _ _ _ _ _ Hk Ht) as [vt Hvt].
  exists (mkShare tb pb), r'. unfold create_reveal_share, verify_reveal_share, draw, lift, mbind, M_bind.
  rewrite Hcard. cbn [ok_or mbind result_bind]. rewrite Ht. cbv beta iota. rewrite Hts, Hps. split; [done|].
  cbn [share_token share_proof]. rewrite Htd, Hpd. cbn [mbind result_bind]. by rewrite Hvt.
Qed.

(** C34: Whoever shuffled, the deck at the end of a chain of verified shuffles
    is the 52 cards, each once: there is an arrangement of all of them such
    that opening index [i] with verified shares of all keys gives its [i]-th
    card, so no card is dealt twice; and whoever holds a key can always make a
    share that verifies. *)
Theorem verified_deck_deals engine keys d :
  shuffled engine (aggregate_public_key keys) d →
  ∃ cards : list Card, NoDup cards ∧ length cards = 52%nat ∧ Forall valid_card cards
    ∧ (∀ i packets shares, (i < 52)%nat → length packets = length keys →
         Forall2 (λ '(key, p) share, verify_reveal_share engine d i key p = Ok share)
           (zip keys packets) shares →
         ∃ c, cards !! i = Some c ∧ reveal_holdem_card d i shares (length keys) = Ok c)
    ∧ ∀ i km key r, (i < 52)%nat → holds (km_secret_key km) (km_public_key km) key →
         ∃ p r', create_reveal_share engine d i km r = (Ok p, r')
           ∧ is_ok (verify_reveal_share engine d i key p) = true.
Proof.
  intros (l & Hl & Hp)%shuffled_contents.
  assert (length l = 52%nat) as Hll by (by rewrite Hp, length_seq).
  assert (NoDup l) as Hnd by (rewrite Hp; apply NoDup_seq).
  assert (∃ cards, Forall2 (λ n c, Card_from_deck_index (Z.of_nat n) = Ok c ∧ valid_card c
    ∧ 13 * suit_index (card_suit c) + card_rank c - 2 = Z.of_nat n) l cards) as [cards Hc].
  { apply list_choose. intros n Hn. apply deck_card_of. rewrite Hp in Hn. apply elem_of_seq in Hn.
    unfold STANDARD_DECK_SIZE in Hn. lia. }
  exists cards. split_and!.
  - apply NoDup_alt. intros i j c Hi Hj.
    destruct (Forall2_lookup_r _ _ _ _ _ Hc Hi) as (n & Hn & _ & _ & E).
    destruct (Forall2_lookup_r _ _ _ _ _ Hc Hj) as (m & Hm & _ & _ & E').
    assert (n = m) as -> by lia. by eapply NoDup_lookup.
  - rewrite <-Hll. symmetry. by eapply Forall2_length.
  - apply Forall_forall. intros c [i Hi]%list_elem_of_lookup.
    by destruct (Forall2_lookup_r _ _ _ _ _ Hc Hi) as (n & _ & _ & ? & _).
  - intros i packets shares Hi Hlen Hs.
    destruct (reveal_holdem_card_opens _ _ _ _ _ _ _ Hl Hp Hi Hs Hlen) as (n & c & Hn & _ & Hcn & Hr).
    destruct (Forall2_lookup_l _ _ _ _ _ Hc Hn) as (c' & Hc' & Hcn' & _).
    exists c. split; [congruence|done].
  - intros i km key r Hi. apply reveal_share_complete with (aggregate_public_key keys) l; [done|lia].
Qed.
End dealing.

(** ** A toy instance: cards in the open, keys that are numbers *)
#[export] Instance number_serial : CanonicalSerialize Z := {|
  serialize_compressed x := Some [x];
  deserialize_compressed b := match b with x :: r => Some (x, r) | [] => None end;
|}.
#[export] Instance unit_serial : CanonicalSerialize unit := {|
  serialize_compressed _ := Some [];
  deserialize_compressed b := Some (tt, b);
|}.
#[export] Instance cards_serial : CanonicalSerialize (list nat) := {|
  serialize_compressed l := Some (map Z.of_nat l);
  deserialize_compressed b := Some (map Z.to_nat b, []);
|}.
Definition open_deck : list nat := seq 0 STANDARD_DECK_SIZE.
Definition is_open_deck (d : list nat) : bool :=
  (length d =? 52)%nat && forallb (λ n, bool_decide (n ∈ d)) open_deck.
Definition check_deck (d : list nat) : option (list nat) := if is_open_deck d then Some d else None.

Definition toy_ziffle : Ziffle := {|
  rng := Z; SecretKey := Z; PublicKey := Z; OwnershipProof := unit; MaskedDeck := list nat;
  ShuffleProof := unit; MaskedCard := nat; RevealToken := Z; RevealTokenProof := unit;
  AggregatePublicKey := list Z; VerifiedPublicKey := Z; VerifiedMaskedDeck := list nat;
  VerifiedRevealToken := Z * nat;
  keygen _ r := ((r, r, tt), r + 1);
  verify_ownership _ pk _ := Some pk;
  aggregate_public_key keys := keys;
  shuffle_initial_deck _ _ r := ((rev open_deck, tt), r);
  verify_initial_deck _ d _ _ := check_deck d;
  shuffle_deck _ _ _ r := ((rev open_deck, tt), r);
  verify_shuffle _ _ d _ _ := check_deck d;
  deck_get d i := d !! i;
  reveal_token _ _ pk _ r := ((pk, tt), r);
  verify_token _ vk token card _ := if token =? vk then Some (vk, card) else None;
  reveal_masked_card _ card := Some card;
|}.

Lemma check_deck_perm d v : check_deck d = Some v → v ≡ₚ open_deck.
Proof.
  unfold check_deck, is_open_deck. destruct (_ && _) eqn:E; [|done]. intros [= ->].
  apply andb_true_iff in E as [El%Nat.eqb_eq Ef]. symmetry.
  apply submseteq_length_Permutation; [|rewrite El; unfold open_deck; by rewrite length_seq].
  apply NoDup_submseteq; [apply NoDup_seq|]. intros n Hn.
  rewrite forallb_forall in Ef. apply list_elem_of_In, Ef in Hn. by apply bool_decide_eq_true in Hn.
Qed.

Lemma toy_serial_laws : SerializeLaws Z ∧ SerializeLaws unit ∧ SerializeLaws (list nat).
Proof.
  split_and!; intros x; eexists; (split; [reflexivity|]); simpl; [done|by destruct x|].
  rewrite map_map, (map_ext _ id), map_id; [done|]. intros n. apply Nat2Z.id.
Qed.

Definition toy_ziffle_laws : @ZiffleLaws toy_ziffle.
Proof.
  destruct toy_serial_laws as (Hz & Hu & Hl).
  refine {| holds := (λ _ pk vk, pk = vk) : @SecretKey toy_ziffle → @PublicKey toy_ziffle →
                       @VerifiedPublicKey toy_ziffle → Prop;
            contents := (λ _ v l, v = l ∧ l ≡ₚ open_deck) : @AggregatePublicKey toy_ziffle →
                       @VerifiedMaskedDeck toy_ziffle → list nat → Prop |}; try assumption; simpl.
  - intros ?????? [= <- <- <- <-]. by eexists.
  - intros agg d ? ? v Hp%check_deck_perm. by exists v.
  - intros agg v l d ? ? v' [_ Hv] Hp%check_deck_perm. exists v'. split; [done|]. by rewrite Hv.
  - intros ?????? [= <- <- <-]. eexists. vm_compute. reflexivity.
  - intros ??????? [= <- <- <-]. eexists. vm_compute. reflexivity.
  - intros agg v l i [-> _]. apply lookup_lt_is_Some.
  - intros ????????? -> [= <- <- <-]. by rewrite Z.eqb_refl.
  - intros keys v l i card ?? [-> _] Hc _. done.
Defined.

Definition toy_context : list Z := replicate 16 7.
Definition toy_deck : @VerifiedDeck toy_ziffle :=
  @mkVerifiedDeck toy_ziffle (rev open_deck) (map Z.of_nat (rev open_deck)).

Lemma verified_deck_deals_witness :
  ∃ cards : list Card, NoDup cards ∧ length cards = 52%nat
    ∧ ∃ c, cards !! 3%nat = Some c
        ∧ @reveal_holdem_card toy_ziffle toy_deck 3 [(1, 48%nat); (2, 48%nat)] 2 = Ok c.
Proof.
  destruct (@verified_deck_deals toy_ziffle toy_ziffle_laws toy_context [1; 2] toy_deck)
    as (cards & ? & ? & _ & Hopen & _).
  - set (p := mkShuffle (map Z.of_nat (rev open_deck)) []).
    apply (@shuffled_again toy_ziffle _ _ toy_deck p); [apply (@shuffled_first toy_ziffle _ _ p)|];
      vm_compute; reflexivity.
  - exists cards. split; [done|]. split; [done|].
    apply (Hopen 3%nat [mkShare [1] []; mkShare [2] []] [(1, 48%nat); (2, 48%nat)]); [lia|done|].
    repeat constructor.
Defined.
