(* ===== verification/ReceiptRuntime.v ===== *)
(** * ReceiptRuntime: collecting the signatures of a receipt (token-holdem-sidecar receipt_runtime.rs)

    Every player settles a hand on its own, signs the receipt it comes to, and
    collects the signatures of the others for exactly that receipt. *)

From S2P Require Import Prelude Machine Encoding Order Ids Receipt Identity SignedReceipt.

Inductive ConsensusError :=
  | ConflictingReceipt | ConflictingSignature (p : PlayerId) | CsSigned (e : SignedReceiptError).

Record ReceiptConsensus := mkConsensus {
  cs_receipt : HandReceipt;
  cs_signatures : gmap PlayerId ParticipantSignature;
  cs_finalized : bool;
}.

Section consensus.
Context `{Crypto}.

(** [ReceiptConsensus::start]. *)
Definition consensus_start (r : HandReceipt) (device : list Z) (certificate : DeviceCertificate) (now : Z)
    : result ConsensusError (ReceiptConsensus * ParticipantSignature) :=
  signature ← map_err CsSigned (participant_create r device certificate now);
  Ok (mkConsensus r {[signer signature := signature]} false, signature).

(** [accept]: [true] when the signature is new. *)
Definition consensus_accept (r : HandReceipt) (signature : ParticipantSignature) (now : Z)
    : M ReceiptConsensus ConsensusError bool :=
  c ← gets id;
  _ ← lift (reject_if (negb (bool_decide (r = cs_receipt c))) ConflictingReceipt);
  _ ← lift (map_err CsSigned (verify_for signature r now));
  let player_id := signer signature in
  match cs_signatures c !! player_id with
  | Some existing =>
      if bool_decide (existing = signature) then mret false
      else lift (Err (ConflictingSignature player_id))
  | None =>
      _ ← modify (λ c, mkConsensus (cs_receipt c) (<[player_id := signature]> (cs_signatures c))
                         (cs_finalized c));
      mret true
  end.

(** [try_finalize], [signature_count]. *)
Definition consensus_try_finalize (now : Z) : M ReceiptConsensus ConsensusError (option CoSignedReceipt) :=
  c ← gets id;
  if cs_finalized c || negb (size (cs_signatures c) =? length (outcomes (cs_receipt c)))%nat
  then mret None else
  let receipt := mkCoSigned (cs_receipt c) (btree_values (cs_signatures c)) in
  _ ← lift (map_err CsSigned (cosigned_verify receipt now));
  _ ← modify (λ c, mkConsensus (cs_receipt c) (cs_signatures c) true);
  mret (Some receipt).
Definition signature_count (c : ReceiptConsensus) : nat := size (cs_signatures c).

(** ** The invariant *)

(** The signatures are filed under their signers and are signatures of
    participants for the receipt. *)
Record consensus_ok (c : ReceiptConsensus) : Prop := {
  co_keys : ∀ p s, cs_signatures c !! p = Some s → signer s = p;
  co_signed : ∀ p s, cs_signatures c !! p = Some s →
    ∃ o, o ∈ outcomes (cs_receipt c) ∧ out_player o = p ∧ signs_for (cs_receipt c) o s
      ∧ key_valid (as_bytes (out_device o)) = true;
  co_receipt_valid : receipt_validate (cs_receipt c) = Ok tt;
}.

Lemma verify_for_key p r now :
  verify_for p r now = Ok tt → receipt_validate r = Ok tt
  ∧ ∃ o, outcome_for r (signer p) = Some o ∧ signs_for r o p ∧ key_valid (as_bytes (out_device o)) = true.
Proof.
  intros Hv. destruct (verify_for_sound _ _ _ Hv) as (o & Ho & Hs). fold (signer p) in Ho.
  unfold verify_for in Hv. apply bind_Ok in Hv as ([] & Hr & Hv). apply map_err_Ok in Hr.
  split; [done|]. exists o. split_and!; [done..|]. destruct Hs as [_ Hd _ _].
  do 4 apply bind_Ok in Hv as (? & _ & Hv). apply map_err_Ok in Hv.
  unfold verify_device_signature in Hv. apply bind_Ok in Hv as ([] & Hk & _).
  inv_ok. bool_props. by rewrite <-Hd.
Qed.

Lemma consensus_accept_ok r s now c :
  consensus_ok c → consensus_ok (consensus_accept r s now c).2
    ∧ cs_receipt (consensus_accept r s now c).2 = cs_receipt c
    ∧ cs_finalized (consensus_accept r s now c).2 = cs_finalized c
    ∧ cs_signatures c ⊆ cs_signatures (consensus_accept r s now c).2.
Proof.
  intros Hc. unfold consensus_accept, gets, lift, mbind, M_bind. cbv beta iota.
  destruct (decide (r = cs_receipt c)) as [->|Hr]; [rewrite bool_decide_true by done|by rewrite bool_decide_false].
  cbn [negb reject_if id]. destruct (verify_for s (cs_receipt c) now) as [[]| |] eqn:Hv; [|done..].
  cbn [map_err]. destruct (cs_signatures c !! signer s) as [e|] eqn:He; [by case_bool_decide|].
  simpl. destruct (verify_for_key _ _ _ Hv) as (_ & o & Ho & Hs & Hk).
  destruct (outcome_for_sound _ _ _ Ho) as [Hin Hp].
  split_and!; [|done|done|by apply insert_subseteq]. destruct Hc as [Hkeys Hsig Hval]. split; simpl.
  - intros p t [[<- <-]|[_ Ht]]%lookup_insert_Some; [done|eauto].
  - intros p t [[<- <-]|[_ Ht]]%lookup_insert_Some; [|eauto]. by exists o.
  - done.
Qed.

(** A run: the messages as they arrive, rejected ones without effect. *)
Definition receive (c : ReceiptConsensus) (m : HandReceipt * ParticipantSignature * Z) : ReceiptConsensus :=
  (consensus_accept m.1.1 m.1.2 m.2 c).2.

Lemma receive_counts c r s now :
  r = cs_receipt c → verify_for s r now = Ok tt → is_Some (cs_signatures (receive c (r, s, now)) !! signer s).
Proof.
  intros -> Hv. unfold receive, consensus_accept, gets, lift, mbind, M_bind. simpl.
  rewrite bool_decide_true, Hv by done. simpl.
  destruct (cs_signatures c !! signer s) eqn:He; [case_bool_decide; simpl; by rewrite He|].
  simpl. by rewrite lookup_insert_eq.
Qed.

Lemma receive_all msgs c :
  consensus_ok c →
  let c' := fold_left receive msgs c in
  consensus_ok c' ∧ cs_receipt c' = cs_receipt c ∧ cs_finalized c' = cs_finalized c
  ∧ cs_signatures c ⊆ cs_signatures c'
  ∧ ∀ s t, (cs_receipt c, s, t) ∈ msgs → verify_for s (cs_receipt c) t = Ok tt →
      is_Some (cs_signatures c' !! signer s).
Proof.
  revert c. induction msgs as [|[[r s] t] msgs IH]; intros c Hc; cbn [fold_left]; [set_solver|].
  destruct (consensus_accept_ok r s t c Hc) as (Hc1 & Hr & Hf & Hsub).
  change (consensus_accept r s t c).2 with (receive c (r, s, t)) in Hc1, Hr, Hf, Hsub.
  destruct (IH _ Hc1) as (Hc' & Hr' & Hf' & Hsub' & Hin). split_and!; [done|congruence..|by etrans|].
  intros s' t' [E|Hm]%elem_of_cons Hv; [|apply (Hin s' t'); by rewrite Hr].
  injection E as <- -> ->. destruct (receive_counts c (cs_receipt c) s t eq_refl Hv) as [x Hx].
  exists x. by eapply lookup_weaken.
Qed.

(** The signatures of a valid state are those of different participants; when
    there are as many as players, nobody is missing. *)
Lemma consensus_signers c :
  consensus_ok c → amounts_ok (outcomes (cs_receipt c)) →
  size (cs_signatures c) = length (outcomes (cs_receipt c)) ↔
  ∀ o, o ∈ outcomes (cs_receipt c) → is_Some (cs_signatures c !! out_player o).
Proof.
  intros [Hk Hs Hv] Ham. pose proof (proj1 (receipt_validate_ok _ Ham) Hv) as Hw.
  pose proof (sorted_lt_NoDup out_player _ (rcw_sorted _ Hw)) as Hnd.
  assert (dom (cs_signatures c) ⊆ list_to_set (map out_player (outcomes (cs_receipt c)))) as Hsub.
  { intros p [s Hp]%elem_of_dom. destruct (Hs p s Hp) as (o & Ho & <- & _).
    apply elem_of_list_to_set. by apply (list_elem_of_fmap_2 out_player). }
  assert (size (list_to_set (map out_player (outcomes (cs_receipt c))) : gset PlayerId)
    = length (outcomes (cs_receipt c))) as Hsz by (by rewrite size_list_to_set, length_map).
  rewrite <-size_dom, <-Hsz. split.
  - intros E o Ho. apply elem_of_dom.
    rewrite (set_subseteq_size_eq (dom (cs_signatures c)) _ Hsub) by lia.
    apply elem_of_list_to_set. by apply (list_elem_of_fmap_2 out_player).
  - intros Hall. f_equal. apply set_eq_subseteq. split; [done|]. intros p Hp%elem_of_list_to_set.
    apply list_elem_of_fmap in Hp as (o & -> & Ho). by apply elem_of_dom, Hall.
Qed.

(** What is finalised is what [try_finalize] verified. *)
Lemma try_finalize_spec now c :
  consensus_ok c → amounts_ok (outcomes (cs_receipt c)) → cs_finalized c = false →
  is_signed_time_not_future (settled_at_unix_ms (cs_receipt c)) now = true →
  let co := mkCoSigned (cs_receipt c) (btree_values (cs_signatures c)) in
  (size (cs_signatures c) ≠ length (outcomes (cs_receipt c)) → consensus_try_finalize now c = (Ok None, c))
  ∧ (size (cs_signatures c) = length (outcomes (cs_receipt c)) →
     cosigned_verify co now = Ok tt
     ∧ consensus_try_finalize now c = (Ok (Some co), mkConsensus (cs_receipt c) (cs_signatures c) true)).
Proof.
  intros Hc Ham Hf Ht co. unfold consensus_try_finalize, gets, lift, mbind, M_bind. cbv beta iota. cbn [id].
  rewrite Hf. cbn [orb]. split; intros Hsz; [apply Nat.eqb_neq in Hsz; by rewrite Hsz|].
  pose proof (proj1 (consensus_signers c Hc Ham) Hsz) as Hall. rewrite Hsz, Nat.eqb_refl. cbn [negb].
  destruct Hc as [Hk Hs Hv]. pose proof (proj1 (receipt_validate_ok _ Ham) Hv) as Hw.
  assert (∀ s, s ∈ btree_values (cs_signatures c) → cs_signatures c !! signer s = Some s) as Hval.
  { intros s (p & Hp)%elem_of_btree_values. by rewrite (Hk p s Hp). }
  assert (cosigned_verify co now = Ok tt) as Hco; [|by fold co; rewrite Hco].
  apply cosigned_verify_intro; [done..| |].
  - apply NoDup_Permutation.
    + unfold btree_values. change (map signer (map snd ?l)) with (signer <$> (snd <$> l)).
      rewrite <-list_fmap_compose. rewrite (list_fmap_ext _ fst); [apply NoDup_btree_keys|].
      intros i [p s] Hi%list_elem_of_lookup_2. apply elem_of_btree_entries in Hi. simpl. eauto.
    + apply (sorted_lt_NoDup out_player), Hw.
    + intros p. rewrite !list_elem_of_fmap. split.
      * intros (s & -> & Hin%Hval). destruct (Hs _ _ Hin) as (o & Ho & E & _). eauto.
      * intros (o & -> & Ho). destruct (Hall o Ho) as [s Hso]. exists s. split; [symmetry; eauto|].
        apply elem_of_btree_values. eauto.
  - apply Forall_forall. intros s Hin%Hval. destruct (Hs _ _ Hin) as (o & Ho & E & Hsf & Hkey).
    eapply verify_for_complete; [done|done| |done|done]. fold (signer s). rewrite <-E.
    by apply outcome_for_found.
Qed.
End consensus.

Section finalisation.
Context `{CryptoLaws}.

Lemma consensus_start_ok r device certificate now c s :
  consensus_start r device certificate now = Ok (c, s) →
  consensus_ok c ∧ cs_receipt c = r ∧ cs_finalized c = false ∧ cs_signatures c = {[signer s := s]}.
Proof.
  unfold consensus_start. intros Hc. apply bind_Ok in Hc as (s' & Hs & [= <- <-]). apply map_err_Ok in Hs.
  destruct (create_sound _ _ _ _ _ Hs) as (o & Ho & Hsf & Hsg & Hk & Hv). split; [|done].
  apply outcome_for_sound in Ho as [Hin Hp]. split; simpl; [..|done].
  - by intros p t [<- <-]%lookup_singleton_Some.
  - intros p t [<- <-]%lookup_singleton_Some. exists o. split_and!; [done|congruence|done..].
Qed.

(** C21: A receipt is final when, and only when, everyone at the table has
    signed it.  After any sequence of messages, valid or not, the receipt is
    the one the player settled itself, its own signature is kept, every
    signature held is by a participant for that receipt, and a participant
    whose signature arrived is counted.  Once nobody is missing,
    [try_finalize] gives a co-signed receipt that verifies, and does so once;
    before that it changes nothing. *)
Theorem receipt_consensus_finalizes r device certificate now c0 s0 msgs t :
  amounts_ok (outcomes r) → is_signed_time_not_future (settled_at_unix_ms r) t = true →
  consensus_start r device certificate now = Ok (c0, s0) →
  let c := fold_left receive msgs c0 in
  cs_receipt c = r ∧ cs_signatures c !! signer s0 = Some s0
  ∧ (∀ p s, cs_signatures c !! p = Some s → ∃ o, o ∈ outcomes r ∧ out_player o = p ∧ signs_for r o s)
  ∧ (∀ s now', (r, s, now') ∈ msgs → verify_for s r now' = Ok tt → is_Some (cs_signatures c !! signer s))
  ∧ ((∃ o, o ∈ outcomes r ∧ cs_signatures c !! out_player o = None) →
     consensus_try_finalize t c = (Ok None, c))
  ∧ ((∀ o, o ∈ outcomes r → is_Some (cs_signatures c !! out_player o)) →
     ∃ co c', consensus_try_finalize t c = (Ok (Some co), c') ∧ co_receipt co = r
       ∧ cosigned_verify co t = Ok tt ∧ ∀ t', consensus_try_finalize t' c' = (Ok None, c')).
Proof.
  intros Ham Ht Hstart c. destruct (consensus_start_ok _ _ _ _ _ _ Hstart) as (Hc0 & Hr0 & Hf0 & Hs0).
  destruct (receive_all msgs c0 Hc0) as (Hc & Hr & Hf & Hsub & Hin). fold c in Hc, Hr, Hf, Hsub, Hin.
  rewrite Hr0 in Hr, Hin. rewrite Hf0 in Hf.
  destruct (try_finalize_spec t c Hc) as [Hno Hyes]; [by rewrite Hr|done|by rewrite Hr|].
  pose proof (consensus_signers c Hc) as Hall. rewrite Hr in Hno, Hyes, Hall.
  split_and!; [done| | |done| |].
  - eapply lookup_weaken; [|exact Hsub]. by rewrite Hs0, lookup_singleton_eq.
  - intros p s Hp. destruct (co_signed _ Hc p s Hp) as (o & Ho & Hpo & Hsf & _). rewrite Hr in *. eauto.
  - intros (o & Ho & Hn). apply Hno. rewrite Hall by done. intros Hc'. destruct (Hc' o Ho). congruence.
  - intros Hc'. apply Hall, Hyes in Hc' as [Hv E]; [|done]. eexists _, _. split; [exact E|].
    split; [done|]. split; [done|]. done.
Qed.
End finalisation.

(** The two players of [toy_receipt] sign it. *)
Definition toy_consensus : ReceiptConsensus :=
  mkConsensus toy_receipt {[signer (toy_signature 2 4) := toy_signature 2 4]} false.

Lemma receipt_consensus_finalizes_witness :
  ∃ co c', @consensus_try_finalize toy_crypto 6000
      (fold_left (@receive toy_crypto) [(toy_receipt, toy_signature 1 3, 6000)] toy_consensus)
      = (Ok (Some co), c')
    ∧ co_receipt co = toy_receipt ∧ @cosigned_verify toy_crypto co 6000 = Ok tt.
Proof.
  destruct (@receipt_consensus_finalizes toy_crypto toy_crypto_laws toy_receipt [4] (toy_cert 2 4) 6000
    toy_consensus (toy_signature 2 4) [(toy_receipt, toy_signature 1 3, 6000)] 6000)
    as (_ & _ & _ & _ & _ & Hfin).
  - apply toy_receipt_amounts.
  - vm_compute. reflexivity.
  - vm_compute. reflexivity.
  - destruct Hfin as (co & c' & E & Hr & Hv & _).
    + apply Forall_forall. apply (bool_decide_unpack _). vm_compute. exact I.
    + exists co, c'. split; [exact E|]. split; [exact Hr|exact Hv].
Defined.
