(* ===== verification/Swarm.v ===== *)
(** * Swarm: the outside of the sidecar's runtimes

    The requests of wire.rs that the runtimes send, and the operations of the
    libp2p swarm and of the operating system's random source that they use.
    The swarm, the random source and the switch that tests use to drop gossip
    are external: they are operations on an abstract state. *)

From S2P Require Import Prelude Machine Encoding Order Ids Table TablePool Receipt Identity SignedReceipt Wire.
From S2P Require Import UseCases Session HandAction MentalPoker Room PoolProtocol.

(** The messages of a hand, with the packets of the card protocol. *)
Notation PublicMessage := (@HandPublicMessage KeyAnnouncement ShufflePacket RevealSharePacket).
Notation PrivateMessage := (@HandPrivateMessage RevealSharePacket).

(** [ControlRequest]. *)
Inductive ControlRequest :=
  | RqFriendRoom (invite : FriendRoomInvite)
  | RqTablePoolSync (messages : list TablePoolMessage)
  | RqTableSession (payload : list Z)
  | RqHandPublic (m : PublicMessage)
  | RqHandPrivate (m : PrivateMessage)
  | RqArchive (r : ArchiveRequest)
  | RqFetchArchive (a : ContentAddress)
  | RqListPlayerArchives (player : PlayerId)
  | RqStoreRecovery (r : RecoveryStoreRequest)
  | RqFetchRecovery (locator : Locator).

(** [ControlResponse]. *)
Inductive ControlResponse :=
  | RsAccepted
  | RsRejected (reason : string)
  | RsTablePoolSync (messages : list TablePoolMessage)
  | RsArchive (a : ArchiveResponse)
  | RsArchiveFetch (a : ArchiveFetchResponse)
  | RsArchiveList (a : ArchiveListResponse)
  | RsRecoveryStored (a : RecoveryStoreResponse)
  | RsRecoveryFetch (a : RecoveryFetchResponse).

(** What a table session tells the pool about its table. *)
Record LocalTableAdvertisement := mkLocalAdvertisement {
  la_table_id : TableId;
  la_members : Z;
  la_waiting : Z;
  la_lifecycle : TableLifecycle;
  la_membership_version : Z;
  la_membership_hash : list Z;
  la_creator : PlayerId;
  convergence_eligible : bool;
}.
#[export] Instance LocalTableAdvertisement_eq_dec : EqDecision LocalTableAdvertisement.
Proof. solve_decision. Defined.

Class World `{Libp2p} := {
  world : Type;
  local_peer_id : world → PeerId;
  is_connected : world → PeerId → bool;
  room_gossip_enabled : world → bool;
  pool_gossip_enabled : world → bool;
  add_peer_address : PeerId → Multiaddr → world → world;
  add_explicit_peer : PeerId → world → world;
  remove_explicit_peer : PeerId → world → world;
  retain_peer_connection : PeerId → world → world;
  release_peer_connection : PeerId → world → world;
  dial : PeerId → list Multiaddr → world → bool * world;
  send_request : PeerId → ControlRequest → world → OutboundRequestId * world;
  gossip_publish : string → list Z → world → bool * world;
  gossip_subscribe : string → world → bool * world;
  gossip_unsubscribe : string → world → world;
  fill_bytes : nat → world → list Z * world;
  hex_encode : list Z → string;
}.

(** A swarm keeps its peer id. *)
Class WorldLaws `{World} : Prop := {
  peer_add_address : ∀ p a w, local_peer_id (add_peer_address p a w) = local_peer_id w;
  peer_add_explicit : ∀ p w, local_peer_id (add_explicit_peer p w) = local_peer_id w;
  peer_remove_explicit : ∀ p w, local_peer_id (remove_explicit_peer p w) = local_peer_id w;
  peer_retain : ∀ p w, local_peer_id (retain_peer_connection p w) = local_peer_id w;
  peer_release : ∀ p w, local_peer_id (release_peer_connection p w) = local_peer_id w;
  peer_dial : ∀ p l w, local_peer_id (dial p l w).2 = local_peer_id w;
  peer_send : ∀ p m w, local_peer_id (send_request p m w).2 = local_peer_id w;
  peer_publish : ∀ t m w, local_peer_id (gossip_publish t m w).2 = local_peer_id w;
  peer_subscribe : ∀ t w, local_peer_id (gossip_subscribe t w).2 = local_peer_id w;
  peer_unsubscribe : ∀ t w, local_peer_id (gossip_unsubscribe t w) = local_peer_id w;
  peer_fill : ∀ n w, local_peer_id (fill_bytes n w).2 = local_peer_id w;
}.
