(* ===== verification/SessionState.v ===== *)
(** * SessionState: what a player knows about the table (token-holdem-sidecar table_session_runtime.rs)

    [ActiveSession] is the state the sidecar keeps for the table it is at:
    the join and leave intents it has heard of, the membership everyone has
    signed and the one being signed, the roster of the hand being signed and
    of the hand being played, the hand clock, and its own wish to leave.  This
    file has the data and the functions that only read it; SessionRuntime has
    the handlers that change it.

    Time on the monotonic clock is in nanoseconds.  The events carry the
    identifiers themselves where the code prints them. *)

From S2P Require Import Prelude Machine Encoding Order Ids Table TablePool Membership.
From S2P Require Import HandRoster Identity Session NetworkAddress PoolProtocol TableSession.
From S2P Require Import RosterProtocol.

Definition seconds (n : Z) : Z := n * 1000000000.
Definition JOIN_INTENT_LIFETIME_MS : Z := 30 * 60 * 1000.
Definition SESSION_TICKET_LIFETIME_MS : Z := 30 * 60 * 1000.
Definition JOIN_RENEWAL_MARGIN_MS : Z := 5 * 60 * 1000.
Definition HAND_START_DELAY : Z := seconds 3.
Definition SIGNED_LEAVER_DISCONNECT_GRACE : Z := seconds 10.
Definition STALLED_SAFE_LEAVE_TIMEOUT : Z := seconds 10.
Definition IDLE_SAFE_LEAVE_TIMEOUT : Z := seconds 15.
Definition ABSOLUTE_SAFE_LEAVE_TIMEOUT : Z := seconds 120.
Definition MAX_MESSAGE_BYTES : Z := 256 * 1024.
Definition ROOM_WIRE_ENVELOPE_VERSION : Z := 2.
Definition ABANDONED_HAND_DOMAIN : list Z := domain_bytes "token-holdem/abandoned-hand/v1".

(** [Instant::saturating_duration_since], [Duration::as_millis]. *)
Definition since (now earlier : Z) : Z := Z.max 0 (now - earlier).
Definition as_millis (d : Z) : Z := d / 1000000.

(** What the methods report through [anyhow]. *)
Inductive RoomError :=
  | NotInRoom | MessageSize | MessageNotCbor | UnsupportedEnvelopeVersion
  | JoinForOtherTable | JoinForOtherLevel | LeaveForOtherTable
  | ProposalForOtherTable | ProposalForOtherLevel | VersionNotContinuous | PreviousHashMismatch
  | ParticipantRemovedDuringHand | ParticipantMovedDuringHand | LocalPlayerMissing
  | FirstVersionHasPrevious | LaterVersionLacksPrevious
  | RosterBeforeMembership | RosterForOtherMembership | RosterHandNumberMismatch
  | SourceMissing | SourcePeerInvalid | SourceMismatch | LeaverUnknown
  | CertificateSourceNotParticipant | RosterSourceNotParticipant
  | CoordinatorClaimMissing | NoPendingMembership | AcceptanceClaimUnknown
  | NoPendingRoster | RosterClaimUnknown | PendingLost
  | NoActiveHand | HandNumberOverflow | DeadlineOverflow | LeaveStartMissing
  | LayoutSeatMissing | WaitingJoinMissing | LocalPlayerNotInRoster | DealerNotInRoster
  | RosterPlayerNotInMembership | DialAddressInvalid | DialPeerMismatch | DialTransportMissing
  | NoDialAddress | PeerIdInvalid | EncodingFailed | SubscribeFailed | AdmissionIsLocal
  | RoomSession (e : TableSessionProtocolError) | RoomRoster (e : HandRosterProtocolError)
  | RoomHandRoster (e : HandRosterError) | RoomTicket (e : TablePoolProtocolError).

(** ** Data *)
Inductive LocalRoomRole := Joining | RoleWaiting | Seated | Playing | Leaving.
Record RoomSeatProjection := mkSeatProjection {
  proj_seat : Z;
  proj_player : PlayerId;
  proj_buy_in : Z;
}.
Inductive TableSessionEvent :=
  | RoomEntered (table_id : TableId) (level_id : string)
  | RoomSnapshot (table_id : TableId) (membership_version : Z) (seats : list RoomSeatProjection)
      (waiting : list PlayerId) (capacity : Z) (role : LocalRoomRole) (hand_number : option Z)
      (next_hand_countdown_ms : option Z)
  | MembershipConfirmation (table_id : TableId) (confirmed required : Z)
  | HandRosterConfirmation (table_id : TableId) (hand_number confirmed required : Z)
  | NextHandReady (table_id : TableId) (hand_number players : Z)
  | SafeLeaveRequested (table_id : TableId) (after_hand_number : option Z) (force_after_unix_ms : Z)
  | SafeLeaveForced (table_id : TableId) (reason : string) (waited_ms : Z)
  | SafeLeaveCompleted (table_id : TableId)
  | HandAbortedForLeave (table_id : TableId) (hand_number : Z) (player : PlayerId)
      (evidence_hash : list Z)
  | RoomClosed (table_id : TableId).

Record CertifiedMembership := mkCertifiedMembership {
  cm_proposal : SignedMembershipProposal;
  cm_acceptances : list MembershipAcceptance;
}.
Record CertifiedRoster := mkCertifiedRoster {
  cr_proposal : SignedHandRosterProposal;
  cr_acceptances : list HandRosterAcceptance;
}.
Inductive RoomWireMessage :=
  | WireSession (m : TableSessionMessage)
  | WireRoster (m : HandRosterMessage)
  | WireCertifiedMembership (c : CertifiedMembership)
  | WireCertifiedRoster (c : CertifiedRoster).
Record RoomWireEnvelope := mkEnvelope {
  env_version : Z;
  env_emission_nonce : list Z;
  env_message : RoomWireMessage;
}.
Inductive ForcedLeaveReason := HandStalled | MembershipTimeout | AbsoluteTimeout.
Definition reason_str (r : ForcedLeaveReason) : string :=
  match r with
  | HandStalled => "hand_stalled"
  | MembershipTimeout => "membership_timeout"
  | AbsoluteTimeout => "absolute_timeout"
  end.
Record SignedLeaveAbandonment := mkAbandonment {
  ab_player : PlayerId;
  ab_hand_number : Z;
  ab_dealer_seat : PhysicalSeat;
  ab_evidence_hash : list Z;
}.

Section state.
Context `{Crypto, Libp2p}.

(** [DirectRoomTarget] is a peer and the hash of a message. *)
Definition DirectRoomTarget : Type := PeerId * list Z.
Record DirectRoomRecipient := mkRecipient {
  rec_peer_id : PeerId;
  rec_addresses : list Multiaddr;
}.
Record ConsensusGossipDelivery := mkGossip {
  gd_message_hash : list Z;
  successful_attempts : Z;
  last_attempted_at : option Z;
}.
Record ReadyTable := mkReadyTable {
  rt_table_id : list Z;
  rt_roster_hash : list Z;
  rt_hand_number : Z;
  rt_level : StakeLevel;
  local_seat : nat;
  dealer_index : nat;
  rt_physical_seats : list Z;
  rt_players : list PlayerId;
  rt_devices : list DevicePublicKey;
  rt_peer_ids : list PeerId;
  rt_peer_addresses : list (list Multiaddr);
  rt_buy_ins : list Z;
}.

Record ActiveSession := mkSession {
  as_table_id : TableId;
  as_creator : PlayerId;
  as_level : StakeLevel;
  as_topic : string;
  local_join : JoinIntent;
  admission_recipient : option DirectRoomRecipient;
  joins : gmap JoinClaimId JoinIntent;
  leaves : gmap PlayerId LeaveIntent;
  membership : option SignedMembershipProposal;
  membership_certificate : option CertifiedMembership;
  last_session_messages_published_at : option Z;
  last_membership_certificate_published_at : option Z;
  pending_room_deliveries : gmap OutboundRequestId DirectRoomTarget;
  completed_room_deliveries : gset DirectRoomTarget;
  consensus_gossip_deliveries : list ConsensusGossipDelivery;
  explicit_peers : gset PeerId;
  disconnected_explicit_peers : gmap PeerId Z;
  owns_explicit_peers : bool;
  pending_membership : option SignedMembershipProposal;
  membership_acceptances : gmap JoinClaimId MembershipAcceptance;
  local_membership_acceptance : option MembershipAcceptance;
  pending_roster : option SignedHandRosterProposal;
  active_roster : option SignedHandRosterProposal;
  roster_certificate : option CertifiedRoster;
  last_roster_certificate_published_at : option Z;
  roster_acceptances : gmap JoinClaimId HandRosterAcceptance;
  local_roster_acceptance : option HandRosterAcceptance;
  countdown_started_at : option Z;
  hand_active : bool;
  hand_clock_known : bool;
  next_hand_number : Z;
  as_previous_receipt_hash : option (list Z);
  previous_dealer_seat : option PhysicalSeat;
  ready_table : option ReadyTable;
  local_leave : option LeaveIntent;
  local_leave_started_at : option Z;
  local_leave_membership_started_at : option Z;
  leave_completed : bool;
}.

(** [ActiveSession::new]. *)
Definition ActiveSession_new (table_id : TableId) (creator : PlayerId) (join : JoinIntent)
    (topic : string) (admission : option DirectRoomRecipient) : ActiveSession :=
  mkSession table_id creator (ji_level join) topic join admission {[ji_claim_id join := join]} ∅ None
    None None None ∅ ∅ [] ∅ ∅ false None ∅ None None None None None ∅ None None false false 1 None
    None None None None None false.

(** [CertifiedMembership::assemble] and [verify_at]; the same for rosters. *)
Definition certified_membership_assemble (s : SignedMembershipProposal)
    (acceptances : list MembershipAcceptance) (now : Z) : result RoomError CertifiedMembership :=
  let acceptances := sort_by_key ac_claim acceptances in
  _ ← map_err RoomSession (verify_membership_acceptances s acceptances now);
  Ok (mkCertifiedMembership s acceptances).
Definition certified_membership_verify_at (c : CertifiedMembership) (now : Z) : result RoomError unit :=
  map_err RoomSession (verify_membership_acceptances (cm_proposal c) (cm_acceptances c) now).
Definition certified_roster_assemble (r : SignedHandRosterProposal)
    (acceptances : list HandRosterAcceptance) (now : Z) : result RoomError CertifiedRoster :=
  let acceptances := sort_by_key ra_claim acceptances in
  _ ← map_err RoomRoster (verify_hand_roster_acceptances r acceptances now);
  Ok (mkCertifiedRoster r acceptances).
Definition certified_roster_verify_at (c : CertifiedRoster) (now : Z) : result RoomError unit :=
  map_err RoomRoster (verify_hand_roster_acceptances (cr_proposal c) (cr_acceptances c) now).

(** ** Where the local player stands *)

(** [contains_local_player]. *)
Definition contains_player (p : MembershipProposal) (player : PlayerId) : bool :=
  bool_decide (is_Some (seat_by_player p player))
  || existsb (λ j, bool_decide (ji_player j = player)) (mp_waiting p).
Definition contains_local_player (a : ActiveSession) (p : MembershipProposal) : bool :=
  contains_player p (ji_player (local_join a)).

(** [can_converge_singleton]. *)
Definition can_converge_singleton (a : ActiveSession) : bool :=
  negb (hand_active a) && bool_decide (local_leave a = None) && bool_decide (pending_membership a = None)
  && bool_decide (pending_roster a = None) && (size (joins a) =? 1)%nat && bool_decide (leaves a = ∅)
  && match membership a with
     | None => false
     | Some m =>
         let p := sp_proposal m in
         (mp_membership_version p =? 1) && (length (mp_seats p) =? 1)%nat && bool_decide (mp_waiting p = [])
         && match mp_seats p with
            | [] => false
            | seat :: _ => bool_decide (seat_claim seat = ji_claim_id (local_join a))
            end
     end.

(** [local_is_only_seat]. *)
Definition local_is_only_seat (a : ActiveSession) : bool :=
  match membership a with
  | None => false
  | Some m =>
      (length (mp_seats (sp_proposal m)) =? 1)%nat
      && match mp_seats (sp_proposal m) with
         | [] => false
         | seat :: _ => bool_decide (ji_player (sc_intent seat) = ji_player (local_join a))
         end
  end.

(** [local_role]. *)
Definition local_role (a : ActiveSession) : LocalRoomRole :=
  match local_leave a with
  | Some _ => Leaving
  | None =>
      match membership a with
      | None => Joining
      | Some m =>
          let p := sp_proposal m in
          let player := ji_player (local_join a) in
          match seat_by_player p player with
          | Some _ => if hand_active a then Playing else Seated
          | None =>
              if existsb (λ j, bool_decide (ji_player j = player)) (mp_waiting p) then RoleWaiting
              else Joining
          end
      end
  end.

(** [local_admission_acknowledged]. *)
Definition local_admission_acknowledged (a : ActiveSession) : bool :=
  match (match pending_membership a with Some m => Some m | None => membership a end) with
  | None => false
  | Some m => contains_local_player a (sp_proposal m)
  end.

(** [snapshot]. *)
Definition current_hand (a : ActiveSession) : option Z :=
  if hand_active a then Some (next_hand_number a) else None.
Definition countdown_ms (a : ActiveSession) (now : Z) : option Z :=
  (λ started, Z.min (as_millis (Z.max 0 (HAND_START_DELAY - since now started))) u64_max)
    <$> countdown_started_at a.
Definition snapshot (a : ActiveSession) (now : Z) : TableSessionEvent :=
  match membership a with
  | None => RoomSnapshot (as_table_id a) 0 [] [] TABLE_CAPACITY (local_role a) (current_hand a) None
  | Some m =>
      let p := sp_proposal m in
      RoomSnapshot (as_table_id a) (mp_membership_version p)
        (map (λ s, mkSeatProjection (sc_seat s) (ji_player (sc_intent s))
                     (requested_buy_in (ji_ticket (sc_intent s)))) (mp_seats p))
        (map ji_player (mp_waiting p)) TABLE_CAPACITY (local_role a) (current_hand a)
        (countdown_ms a now)
  end.

(** ** Guards on what the network says *)

(** [validate_join_scope]. *)
Definition validate_join_scope (a : ActiveSession) (j : JoinIntent) : result RoomError unit :=
  _ ← reject_if (negb (bool_decide (ji_table_id j = as_table_id a))) JoinForOtherTable;
  reject_if (negb (bool_decide (ji_level j = as_level a))) JoinForOtherLevel.

(** [validate_membership_scope]. *)
Definition keeps_participant (p : MembershipProposal) (seat : MembershipSeatClaim)
    : result RoomError unit :=
  next ← ok_or (seat_by_player p (ji_player (sc_intent seat))) ParticipantRemovedDuringHand;
  reject_if (negb (sc_seat next =? sc_seat seat)) ParticipantMovedDuringHand.
Definition validate_membership_scope (a : ActiveSession) (s : SignedMembershipProposal)
    : result RoomError unit :=
  let p := sp_proposal s in
  _ ← reject_if (negb (bool_decide (mp_table_id p = as_table_id a))) ProposalForOtherTable;
  _ ← reject_if (negb (bool_decide (mp_level p = as_level a))) ProposalForOtherLevel;
  match membership a with
  | Some current =>
      let c := sp_proposal current in
      _ ← reject_if (negb (mp_membership_version p =? u64_saturating_add (mp_membership_version c) 1))
            VersionNotContinuous;
      _ ← reject_if (negb (bool_decide (previous_membership_hash p = Some (proposal_hash c))))
            PreviousHashMismatch;
      if hand_active a then try_each (keeps_participant p) (mp_seats c) else Ok tt
  | None =>
      _ ← reject_if (negb (contains_player p (ji_player (local_join a)))) LocalPlayerMissing;
      if mp_membership_version p =? 1
      then reject_if (bool_decide (is_Some (previous_membership_hash p))) FirstVersionHasPrevious
      else reject_if (bool_decide (previous_membership_hash p = None)) LaterVersionLacksPrevious
  end.

(** [validate_roster_scope]. *)
Definition validate_roster_scope (a : ActiveSession) (r : SignedHandRosterProposal)
    : result RoomError unit :=
  m ← ok_or (membership a) RosterBeforeMembership;
  _ ← reject_if (negb (bool_decide (sr_membership r = m))) RosterForOtherMembership;
  let roster := ready_roster (sr_proposal r) in
  let hand_number_matches := hand_number roster =? next_hand_number a in
  let can_adopt_signed_clock :=
    negb (hand_clock_known a) && (next_hand_number a <? hand_number roster)
    && bool_decide (is_Some (previous_receipt_hash roster))
    && bool_decide (is_Some (endpoint_for_player (sr_proposal r) (ji_player (local_join a)))) in
  reject_if (negb (hand_number_matches || can_adopt_signed_clock)) RosterHandNumberMismatch.

(** [verify_source], [verify_player_source] and the sources of certificates. *)
Definition verify_source (source : option PeerId) (expected : list Z) : result RoomError unit :=
  source ← ok_or source SourceMissing;
  expected ← ok_or (peer_id_from_bytes expected) SourcePeerInvalid;
  reject_if (negb (bool_decide (source = expected))) SourceMismatch.
Definition verify_player_source (a : ActiveSession) (source : option PeerId) (player : PlayerId)
    : result RoomError unit :=
  expected ← ok_or (find_first (λ j, bool_decide (ji_player j = player)) (btree_values (joins a)))
               LeaverUnknown;
  verify_source source (tk_peer_id (ji_ticket expected)).
Definition verify_membership_certificate_source (source : option PeerId) (p : MembershipProposal)
    : result RoomError unit :=
  source ← ok_or source SourceMissing;
  reject_if (negb (existsb (λ j, bool_decide (peer_id_from_bytes (tk_peer_id (ji_ticket j)) = Some source))
                     (map sc_intent (mp_seats p) ++ mp_waiting p))) CertificateSourceNotParticipant.
Definition verify_roster_certificate_source (source : option PeerId) (p : HandRosterProposal)
    : result RoomError unit :=
  source ← ok_or source SourceMissing;
  reject_if (negb (existsb (λ e, bool_decide (peer_id_from_bytes (ep_peer_id e) = Some source))
                     (hp_endpoints p))) RosterSourceNotParticipant.

(** ** Dial addresses *)

(** [peer_dial_address]: the address must end with the peer and have a
    transport before it. *)
Definition peer_dial_address (raw : list Z) (expected : PeerId) : result RoomError Multiaddr :=
  address ← ok_or (multiaddr_from_bytes raw) DialAddressInvalid;
  _ ← reject_if (negb (bool_decide (last address = Some (P2p expected)))) DialPeerMismatch;
  let address := removelast address in
  _ ← reject_if (bool_decide (address = [])) DialTransportMissing;
  Ok address.
(** [direct_room_recipient], [membership_recipients], [roster_recipients]. *)
Definition direct_room_recipient (raw_peer_id : list Z) (raw_addresses : list (list Z))
    : result RoomError DirectRoomRecipient :=
  peer ← ok_or (peer_id_from_bytes raw_peer_id) PeerIdInvalid;
  addresses ← try_collect (λ raw, peer_dial_address raw peer) raw_addresses;
  address ← ok_or (preferred_dial_address addresses) NoDialAddress;
  Ok (mkRecipient peer [address]).
Definition membership_recipients (p : MembershipProposal) : result RoomError (list DirectRoomRecipient) :=
  try_collect (λ j, direct_room_recipient (tk_peer_id (ji_ticket j)) (tk_addresses (ji_ticket j)))
    (map sc_intent (mp_seats p) ++ mp_waiting p).
Definition roster_recipients (p : HandRosterProposal) : result RoomError (list DirectRoomRecipient) :=
  try_collect (λ e, direct_room_recipient (ep_peer_id e) (ep_session_addresses e)) (hp_endpoints p).

(** ** The next membership *)

(** [canonical_player_joins]: the newest valid intent of each player, a tie
    going to the smaller claim. *)
Definition newer_join (j current : JoinIntent) : bool :=
  (ji_created_at current <? ji_created_at j)
  || ((ji_created_at j =? ji_created_at current) && ord_ltb (ji_claim_id j) (ji_claim_id current)).
Definition keep_join (a : ActiveSession) (now : Z) (by_player : gmap PlayerId JoinIntent)
    (j : JoinIntent) : gmap PlayerId JoinIntent :=
  if negb (is_ok (join_verify_at j now)) || negb (bool_decide (ji_table_id j = as_table_id a))
     || negb (bool_decide (ji_level j = as_level a)) then by_player
  else match by_player !! ji_player j with
       | None => <[ji_player j := j]> by_player
       | Some current => if newer_join j current then <[ji_player j := j]> by_player else by_player
       end.
Definition canonical_player_joins (a : ActiveSession) (now : Z) : list JoinIntent :=
  sort_by_key ji_claim_id
    (btree_values (fold_left (keep_join a now) (btree_values (joins a)) ∅)).

(** [next_membership_layout]: the seats kept from the current membership ... *)
Definition keep_seat (joins_by_player : gmap PlayerId JoinIntent) (leaving : gset PlayerId)
    (hand_active : bool) (seats : gmap PhysicalSeat JoinIntent) (seat : MembershipSeatClaim)
    : gmap PhysicalSeat JoinIntent :=
  let player := ji_player (sc_intent seat) in
  if negb hand_active && bool_decide (player ∈ leaving) then seats
  else match joins_by_player !! player with
       | Some j => <[sc_seat seat := j]> seats
       | None => seats
       end.
(** ... then one candidate after the other gets the first free seat, or waits ... *)
Definition place_candidate (hand_active : bool) (acc : gmap PhysicalSeat JoinIntent * list JoinIntent)
    (j : JoinIntent) : result RoomError (gmap PhysicalSeat JoinIntent * list JoinIntent) :=
  let '(seats, waiting) := acc in
  if hand_active || (6 <=? size seats)%nat then
    Ok (seats, if (length waiting <? 6)%nat then waiting ++ [j] else waiting)
  else
    physical ← ok_or (find_first (λ s, bool_decide (seats !! s = None)) all_seats) LayoutSeatMissing;
    Ok (<[physical := j]> seats, waiting).
(** ... and during a hand those who wait go on waiting. *)
Definition keep_waiting (joins_by_player : gmap PlayerId JoinIntent) (waiting : list JoinIntent)
    (j : JoinIntent) : list JoinIntent :=
  if existsb (λ c, bool_decide (ji_player c = ji_player j)) waiting then waiting
  else match joins_by_player !! ji_player j with
       | Some k => if (length waiting <? 6)%nat then waiting ++ [k] else waiting
       | None => waiting
       end.
Definition next_membership_layout (a : ActiveSession) (valid_joins : list JoinIntent)
    : result RoomError (list MembershipSeatClaim * list JoinIntent) :=
  let joins_by_player : gmap PlayerId JoinIntent :=
    fold_left (λ m j, <[ji_player j := j]> m) valid_joins ∅ in
  let leaving : gset PlayerId := dom (leaves a) in
  let seats :=
    match membership a with
    | Some current =>
        fold_left (keep_seat joins_by_player leaving (hand_active a)) (mp_seats (sp_proposal current)) ∅
    | None => ∅
    end in
  let occupied : gset PlayerId := list_to_set (map ji_player (btree_values seats)) in
  let candidates := filter (λ j, ji_player j ∉ occupied ∧ (ji_player j ∉ leaving ∨ hand_active a = true))
                      valid_joins in
  placed ← try_fold (place_candidate (hand_active a)) (seats, []) (sort_by_key ji_claim_id candidates);
  let '(seats, waiting) := placed in
  let waiting :=
    if hand_active a then
      match membership a with
      | Some current => fold_left (keep_waiting joins_by_player) (mp_waiting (sp_proposal current)) waiting
      | None => waiting
      end
    else waiting in
  Ok (map (λ entry, mkSeatClaim entry.1 entry.2) (btree_entries seats), sort_by_key ji_claim_id waiting).

(** [membership_layout_unchanged]. *)
Definition membership_layout_unchanged (current : option SignedMembershipProposal)
    (seats : list MembershipSeatClaim) (waiting : list JoinIntent) : bool :=
  match current with
  | None => false
  | Some current =>
      let p := sp_proposal current in
      (length (mp_seats p) =? length seats)%nat && (length (mp_waiting p) =? length waiting)%nat
      && forallb (λ x : MembershipSeatClaim * MembershipSeatClaim,
           (sc_seat x.1 =? sc_seat x.2) && bool_decide (seat_claim x.1 = seat_claim x.2))
           (zip (mp_seats p) seats)
      && forallb (λ x : JoinIntent * JoinIntent, bool_decide (ji_claim_id x.1 = ji_claim_id x.2))
           (zip (mp_waiting p) waiting)
  end.

(** ** Leaving *)

(** [forced_leave_reason]. *)
Definition forced_leave_reason (hand_active hand_stalled : bool) (total_elapsed : Z)
    (membership_elapsed : option Z) : option ForcedLeaveReason :=
  if hand_active && hand_stalled && (STALLED_SAFE_LEAVE_TIMEOUT <=? total_elapsed) then Some HandStalled
  else if negb hand_active
          && match membership_elapsed with
             | Some elapsed => IDLE_SAFE_LEAVE_TIMEOUT <=? elapsed
             | None => false
             end then Some MembershipTimeout
  else if ABSOLUTE_SAFE_LEAVE_TIMEOUT <=? total_elapsed then Some AbsoluteTimeout
  else None.

(** [abandoned_hand_evidence_hash]. *)
Definition abandoned_hand_bytes (table_id : list Z) (hand_number : Z) (roster_hash leave_id : list Z)
    : list Z :=
  ABANDONED_HAND_DOMAIN ++ table_id ++ be_bytes 8 hand_number ++ roster_hash ++ leave_id.
Definition abandoned_hand_evidence_hash (table_id : list Z) (hand_number : Z)
    (roster_hash leave_id : list Z) : list Z :=
  blake3 (abandoned_hand_bytes table_id hand_number roster_hash leave_id).

(** [signed_disconnected_leaver]. *)
Definition abandoned_by (a : ActiveSession) (m : SignedMembershipProposal) (now : Z) (l : LeaveIntent)
    : bool :=
  bool_decide (after_hand_number l = Some (next_hand_number a))
  && match seat_by_player (sp_proposal m) (li_player l) with
     | None => false
     | Some seat =>
         match peer_id_from_bytes (tk_peer_id (ji_ticket (sc_intent seat))) with
         | None => false
         | Some peer =>
             match disconnected_explicit_peers a !! peer with
             | None => false
             | Some at_ => SIGNED_LEAVER_DISCONNECT_GRACE <=? since now at_
             end
         end
     end.
Definition signed_disconnected_leaver (a : ActiveSession) (now : Z) : option SignedLeaveAbandonment :=
  if negb (hand_active a) then None
  else match membership a, active_roster a with
       | Some m, Some roster =>
           match min_by (λ x y, compare (leave_id x) (leave_id y))
                   (filter (λ l, abandoned_by a m now l = true) (btree_values (leaves a))) with
           | None => None
           | Some l =>
               let ready := ready_roster (sr_proposal roster) in
               Some (mkAbandonment (li_player l) (next_hand_number a) (dealer_seat ready)
                       (abandoned_hand_evidence_hash (as_bytes (as_table_id a)) (next_hand_number a)
                          (roster_hash ready) (as_bytes (leave_id l))))
           end
       | _, _ => None
       end.

(** ** The table a hand is played at *)

(** [ready_table_from_proposal]. *)
Definition ready_endpoint (p : MembershipProposal) (rs : HandRosterSeat)
    : result RoomError (PeerId * list Multiaddr) :=
  claim ← ok_or (seat_by_player p (rs_player rs)) RosterPlayerNotInMembership;
  let t := ji_ticket (sc_intent claim) in
  peer ← ok_or (peer_id_from_bytes (tk_peer_id t)) PeerIdInvalid;
  addresses ← try_collect (λ raw, peer_dial_address raw peer) (tk_addresses t);
  address ← ok_or (preferred_dial_address addresses) NoDialAddress;
  Ok (peer, [address]).
Definition ready_table_from_proposal (r : SignedHandRosterProposal) (local_player : PlayerId)
    : result RoomError ReadyTable :=
  let roster := ready_roster (sr_proposal r) in
  let p := sp_proposal (sr_membership r) in
  let seats := sort_by_key hand_index (ro_seats roster) in
  local ← ok_or (position (λ s, bool_decide (rs_player s = local_player)) seats) LocalPlayerNotInRoster;
  dealer ← ok_or (position (λ s, rs_physical_seat s =? dealer_seat roster) seats) DealerNotInRoster;
  endpoints ← try_collect (ready_endpoint p) seats;
  Ok (mkReadyTable (as_bytes (ro_table_id roster)) (hp_hash (sr_proposal r)) (hand_number roster)
        (mp_level p) local dealer (map rs_physical_seat seats) (map rs_player seats)
        (map rs_device seats) (map fst endpoints) (map snd endpoints) (map rs_buy_in seats)).

End state.

(** ** The layout of the next membership *)

Lemma sort_by_key_map {A B K} `{Ord K} (f : A → B) (key : B → K) (l : list A) :
  sort_by_key key (map f l) = map f (sort_by_key (λ x, key (f x)) l).
Proof.
  induction l as [|x l IH]; simpl; [done|]. rewrite IH. generalize (sort_by_key (λ x, key (f x)) l).
  intros k. induction k as [|y k IHk]; simpl; [done|]. case_match; simpl; [done|]. by rewrite IHk.
Qed.

(** A loop that inserts under distinct keys: the entry of [k] comes from the
    one element with that key. *)
Lemma lookup_fold_insert {A K V} `{Countable K} (key : A → K) (f : A → option V) (l : list A)
    (m0 : gmap K V) (k : K) :
  NoDup (map key l) →
  fold_left (λ m x, match f x with Some v => <[key x := v]> m | None => m end) l m0 !! k
  = match find_first (λ x, bool_decide (key x = k)) l ≫= f with Some v => Some v | None => m0 !! k end.
Proof.
  revert m0. induction l as [|x l IH]; intros m0; [done|]. cbn [map fold_left].
  intros [Hx Hl]%NoDup_cons. rewrite IH by done. cbn [find_first]. case_bool_decide as Hk.
  - assert (find_first (λ y, bool_decide (key y = k)) l = None) as ->.
    { apply find_first_None, Forall_forall. intros y Hy. apply bool_decide_eq_false. intros Hyk.
      apply Hx. rewrite Hk, <-Hyk. by apply (list_elem_of_fmap_2 key). }
    simpl. destruct (f x); [by rewrite Hk, lookup_insert_eq|done].
  - destruct (find_first _ l ≫= f); [done|]. destruct (f x); [by rewrite lookup_insert_ne|done].
Qed.

Lemma fold_left_ext {A B} (f g : A → B → A) (l : list B) (a : A) :
  (∀ a x, f a x = g a x) → fold_left f l a = fold_left g l a.
Proof. intros Hfg. revert a. induction l as [|x l IH]; intros a; simpl; [done|]. by rewrite Hfg, IH. Qed.

(** An invariant of a loop over a list, stated of the elements passed. *)
Lemma fold_left_snoc_inv {A B} (P : list B → A → Prop) (f : A → B → A) (l : list B) (a : A) :
  P [] a → (∀ l a x, P l a → P (l ++ [x]) (f a x)) → P l (fold_left f l a).
Proof.
  intros Ha Hstep. induction l as [|x l IH] using rev_ind; [done|].
  rewrite fold_left_app. simpl. by apply Hstep.
Qed.

(** Fewer than six seats taken: one of the six is free. *)
Lemma free_seat {V} (seats : gmap PhysicalSeat V) :
  (size seats < 6)%nat → is_Some (find_first (λ s, bool_decide (seats !! s = None)) all_seats).
Proof.
  intros Hsz. destruct (find_first _ all_seats) eqn:E; [done|]. apply find_first_None in E.
  assert ((list_to_set all_seats : gset Z) ⊆ dom seats) as Hsub.
  { intros s Hs%elem_of_list_to_set. rewrite Forall_forall in E. apply E, bool_decide_eq_false in Hs.
    apply elem_of_dom. by apply not_eq_None_Some. }
  apply subseteq_size in Hsub. rewrite size_dom in Hsub.
  assert (size (list_to_set all_seats : gset Z) = 6%nat) as H6 by (vm_compute; reflexivity). lia.
Qed.

Lemma size_six {V} (seats : gmap PhysicalSeat V) :
  (∀ s, is_Some (seats !! s) → s ∈ all_seats) →
  (6 <=? size seats)%nat = true ↔ filter (λ s, seats !! s = None) all_seats = [].
Proof.
  intros Hsub. rewrite Nat.leb_le. split.
  - intros Hsz. destruct (filter _ all_seats) as [|s l] eqn:E; [done|]. exfalso.
    assert (s ∈ filter (λ s, seats !! s = None) all_seats) as [Hn Hs]%list_elem_of_filter
      by (rewrite E; left).
    assert (dom seats ⊆ (list_to_set all_seats : gset Z) ∖ {[s]}) as Hd%subseteq_size.
    { intros k Hk%elem_of_dom. apply elem_of_difference. split; [by apply elem_of_list_to_set, Hsub|].
      rewrite elem_of_singleton. intros ->. rewrite Hn in Hk. by destruct Hk. }
    rewrite size_dom, size_difference in Hd
      by (intros k ->%elem_of_singleton; by apply elem_of_list_to_set).
    rewrite size_singleton in Hd.
    assert (size (list_to_set all_seats : gset Z) = 6%nat) as H6 by (vm_compute; reflexivity). lia.
  - intros E. destruct (decide (size seats < 6)%nat) as [Hlt|]; [|lia]. exfalso.
    destruct (free_seat seats Hlt) as [s Hs]. apply find_first_Some in Hs as [Hin Hn].
    apply bool_decide_eq_true in Hn.
    assert (s ∈ filter (λ s, seats !! s = None) all_seats) as Hf by (by apply list_elem_of_filter).
    rewrite E in Hf. set_solver.
Qed.

(** The first free seat is the head of the free seats. *)
Lemma find_first_filter {A} (P : A → Prop) (d d' : ∀ x, Decision (P x)) (l : list A) :
  find_first (λ x, @bool_decide (P x) (d x)) l = head (@filter _ _ list_filter P d' l).
Proof.
  induction l as [|x l IH]; [done|]. cbn [find_first]. rewrite filter_cons. case_bool_decide; by case_decide.
Qed.

(** Taking the first free seat leaves the others free. *)
Lemma filter_insert_head {V} (seats : gmap PhysicalSeat V) (l : list PhysicalSeat) s rest v :
  NoDup l → filter (λ k, seats !! k = None) l = s :: rest →
  filter (λ k, <[s := v]> seats !! k = None) l = rest.
Proof.
  induction l as [|x l IH]; [done|]. intros [Hx Hl]%NoDup_cons. rewrite !filter_cons. case_decide as Hn.
  - intros [= -> Hr]. rewrite lookup_insert_eq. rewrite decide_False by done. rewrite <-Hr.
    apply filter_iff_in. intros k Hk. rewrite lookup_insert_ne; [done|]. intros ->. done.
  - intros Hf. assert (s ∈ filter (λ k, seats !! k = None) l) as [Hsn _]%list_elem_of_filter
      by (rewrite Hf; left).
    rewrite lookup_insert_ne by congruence. rewrite decide_False by done. by apply IH.
Qed.

(** Renaming the values of a map entry by entry. *)
Lemma btree_entries_imap {V W} (f : PhysicalSeat → V → W) (m : gmap PhysicalSeat V) :
  btree_entries (map_imap (λ k v, Some (f k v)) m) = map (λ e, (e.1, f e.1 e.2)) (btree_entries m).
Proof.
  apply (sorted_perm_eq fst).
  - apply NoDup_btree_keys.
  - apply sorted_lt_le, btree_entries_sorted.
  - apply sorted_lt_le, sorted_map. exact (btree_entries_sorted m).
  - apply NoDup_Permutation.
    + eapply NoDup_fmap_1, NoDup_btree_keys.
    + eapply (NoDup_fmap_1 fst). change (NoDup (map fst (map (λ e, (e.1, f e.1 e.2)) (btree_entries m)))).
      rewrite map_map. apply NoDup_btree_keys.
    + intros [k w]. rewrite elem_of_btree_entries, map_lookup_imap, list_elem_of_fmap. split.
      * destruct (m !! k) as [v|] eqn:E; [|done]. intros [= <-]. exists (k, v).
        split; [done|]. by apply elem_of_btree_entries.
      * intros ([k' v] & [= -> ->] & Hkv%elem_of_btree_entries). by rewrite Hkv.
Qed.

Section layout.
Context `{Crypto, Libp2p}.

(** The members a map of seated intents stands for. *)
Definition to_members (seats : gmap PhysicalSeat JoinIntent) : gmap PhysicalSeat TableMember :=
  map_imap (λ s j, Some (as_member (mkSeatClaim s j))) seats.

(** The placement loop and the loop of the domain are at the same point. *)
Record same_point (seats : gmap PhysicalSeat JoinIntent) (waiting : list JoinIntent) (b : boundary)
    : Prop := {
  sp_seats : b_seats b = to_members seats;
  sp_players : ∀ p, p ∈ (b_people b).1 ↔ ∃ s j, seats !! s = Some j ∧ ji_player j = p;
  sp_devices : ∀ d, d ∈ (b_people b).2 ↔ ∃ s j, seats !! s = Some j ∧ ji_device j = d;
  sp_available : b_available b = filter (λ s, seats !! s = None) all_seats;
  sp_remaining : b_remaining b = map ji_as_candidate waiting;
  sp_range : ∀ s, is_Some (seats !! s) → s ∈ all_seats;
}.

Lemma to_members_insert seats s j :
  to_members (<[s := j]> seats) = <[s := as_member (mkSeatClaim s j)]> (to_members seats).
Proof.
  apply map_eq. intros k. unfold to_members. rewrite map_lookup_imap.
  destruct (decide (s = k)) as [->|]; [by rewrite !lookup_insert_eq|].
  by rewrite !lookup_insert_ne, map_lookup_imap by done.
Qed.

(** One candidate who is not leaving and is new to the table. *)
Lemma place_simulates leaving seats waiting b j :
  same_point seats waiting b → ji_player j ∉ leaving →
  (∀ s k, seats !! s = Some k → ji_player j ≠ ji_player k ∧ ji_device j ≠ ji_device k) →
  ∃ seats' waiting', place_candidate false (seats, waiting) j = Ok (seats', waiting')
    ∧ same_point seats' waiting' (admit_candidate leaving b (ji_as_candidate j))
    ∧ (seats' = seats ∨ ∃ s, seats' = <[s := j]> seats).
Proof.
  intros [Hs Hp Hd Ha Hr Hrange] Hl Hnew. unfold admit_candidate. cbn [ji_as_candidate join_player join_device].
  rewrite (bool_decide_false (_ ∈ leaving)) by done.
  rewrite (bool_decide_false (_ ∈ (b_people b).1)).
  2: { intros (s & k & Hk & E)%Hp. by destruct (Hnew s k Hk). }
  rewrite (bool_decide_false (_ ∈ (b_people b).2)).
  2: { intros (s & k & Hk & E)%Hd. by destruct (Hnew s k Hk). }
  cbn [orb]. unfold place_candidate. cbn [orb].
  pose proof (size_six seats Hrange) as H6.
  erewrite (find_first_filter (λ s, seats !! s = None)). rewrite Ha.
  destruct (filter _ all_seats) as [|s rest] eqn:E.
  - rewrite (proj2 H6) by done. eexists _, _. split; [done|]. split; [|by left].
    rewrite Hr, length_map. unfold WAITING_CAPACITY.
    destruct (Nat.ltb_spec (length waiting) 6), (Z.ltb_spec (Z.of_nat (length waiting)) 6); try lia.
    + split; simpl; try done. by rewrite map_app.
    + constructor; try done. by rewrite Ha, E.
  - destruct (6 <=? size seats)%nat eqn:Esz; [by apply proj1 in H6; specialize (H6 eq_refl)|]. simpl.
    eexists _, _. split; [done|]. split; [|right; eauto].
    assert (s ∈ filter (λ s, seats !! s = None) all_seats) as [Hfree Hin]%list_elem_of_filter
      by (rewrite E; left).
    assert (∀ (P : JoinIntent → Prop), (∃ k i, <[s := j]> seats !! k = Some i ∧ P i) ↔
      P j ∨ ∃ k i, seats !! k = Some i ∧ P i) as Hex.
    { intros P. split.
      - intros (k & i & [[<- <-]|[_ ?]]%lookup_insert_Some & ?); [by left|right; eauto].
      - intros [?|(k & i & Hk & ?)]; [exists s, j; by rewrite lookup_insert_eq|].
        exists k, i. rewrite lookup_insert_ne; [done|]. intros ->. congruence. }
    split; simpl.
    + rewrite to_members_insert, Hs. done.
    + intros p. rewrite (Hex (λ i, ji_player i = p)), elem_of_union, elem_of_singleton, Hp. naive_solver.
    + intros d. rewrite (Hex (λ i, ji_device i = d)), elem_of_union, elem_of_singleton, Hd. naive_solver.
    + symmetry. apply filter_insert_head; [|done].
      apply (bool_decide_eq_true_1 (NoDup all_seats)). vm_compute. reflexivity.
    + done.
    + intros k [i [[<- _]|[_ ?]]%lookup_insert_Some]; [done|]. apply Hrange. eauto.
Qed.

(** All the candidates. *)
Lemma place_all_simulates leaving l seats waiting b :
  same_point seats waiting b → NoDup (map ji_player l) → NoDup (map ji_device l) →
  (∀ j s k, j ∈ l → seats !! s = Some k → ji_player j ≠ ji_player k ∧ ji_device j ≠ ji_device k) →
  ∃ seats' waiting',
    try_fold (place_candidate false) (seats, waiting) (filter (λ j, ji_player j ∉ leaving) l)
    = Ok (seats', waiting')
    ∧ same_point seats' waiting' (foldl (admit_candidate leaving) b (map ji_as_candidate l)).
Proof.
  revert seats waiting b. induction l as [|j l IH]; intros seats waiting b Hsp Hp Hd Hnew.
  { by exists seats, waiting. }
  cbn [map] in Hp, Hd. apply NoDup_cons in Hp as [Hpj Hp]. apply NoDup_cons in Hd as [Hdj Hd].
  rewrite filter_cons. cbn [map foldl]. case_decide as Hlv.
  - destruct (place_simulates leaving seats waiting b j) as (seats1 & waiting1 & Hpl & Hsp1 & Hor);
      [done|done|intros; by eapply Hnew; [left|]|].
    cbn [try_fold]. rewrite Hpl. cbn [mbind result_bind]. apply IH; try done.
    intros j' s k Hj' Hk.
    assert (k = j ∨ seats !! s = Some k) as [->|Hold].
    { destruct Hor as [->|(s' & ->)]; [by right|].
      apply lookup_insert_Some in Hk as [[_ ->]|[_ ?]]; [by left|by right]. }
    + split; intros E; [apply Hpj|apply Hdj]; rewrite <-E;
        [by apply (list_elem_of_fmap_2 ji_player)|by apply (list_elem_of_fmap_2 ji_device)].
    + eapply Hnew; [by right|done].
  - destruct (decide (ji_player j ∈ leaving)) as [Hin|]; [|done].
    assert (admit_candidate leaving b (ji_as_candidate j) = b) as ->.
    { unfold admit_candidate. cbn [ji_as_candidate join_player join_device].
      by rewrite (bool_decide_true (_ ∈ leaving)) by done. }
    apply IH; try done. intros; by eapply Hnew; [right|].
Qed.

(** The seats of the current membership whose players have a valid intent. *)
Definition seats_kept (vj : list JoinIntent) (leaving : gset PlayerId)
    (current : list MembershipSeatClaim) : gmap PhysicalSeat JoinIntent :=
  fold_left (keep_seat (fold_left (λ m j, <[ji_player j := j]> m) vj ∅) leaving false) current ∅.
Definition players_of (seats : gmap PhysicalSeat JoinIntent) : gset PlayerId :=
  list_to_set (map ji_player (btree_values seats)).

Lemma joins_by_player_lookup (vj : list JoinIntent) p :
  NoDup (map ji_player vj) →
  fold_left (λ m j, <[ji_player j := j]> m) vj (∅ : gmap PlayerId JoinIntent) !! p
  = find_first (λ j, bool_decide (ji_player j = p)) vj.
Proof.
  intros Hnd. rewrite (lookup_fold_insert ji_player Some vj ∅ p Hnd). by destruct (find_first _ vj).
Qed.

Lemma seats_kept_lookup vj leaving current s :
  NoDup (map ji_player vj) → NoDup (map sc_seat current) →
  seats_kept vj leaving current !! s
  = find_first (λ c, bool_decide (sc_seat c = s)) current ≫= λ c,
      if bool_decide (ji_player (sc_intent c) ∈ leaving) then None
      else find_first (λ j, bool_decide (ji_player j = ji_player (sc_intent c))) vj.
Proof.
  intros Hp Hs. unfold seats_kept.
  rewrite (fold_left_ext _ (λ m c, match (if bool_decide (ji_player (sc_intent c) ∈ leaving) then None
      else find_first (λ j, bool_decide (ji_player j = ji_player (sc_intent c))) vj) with
      | Some v => <[sc_seat c := v]> m | None => m end)).
  - rewrite lookup_fold_insert by done. rewrite lookup_empty. by destruct (find_first _ current ≫= _).
  - intros m c. unfold keep_seat. cbn [negb andb].
    destruct (bool_decide _); [done|]. by rewrite joins_by_player_lookup.
Qed.

(** A kept seat is a seat of the current membership, held by the valid intent
    of its player. *)
Lemma seats_kept_Some vj leaving current s j :
  NoDup (map ji_player vj) → NoDup (map sc_seat current) →
  seats_kept vj leaving current !! s = Some j →
  j ∈ vj ∧ ji_player j ∉ leaving
  ∧ ∃ c, c ∈ current ∧ sc_seat c = s ∧ ji_player (sc_intent c) = ji_player j.
Proof.
  intros Hp Hs. rewrite seats_kept_lookup by done.
  destruct (find_first _ current) as [c|] eqn:Hc; [|done]. simpl. case_bool_decide as Hl; [done|].
  intros [Hj E]%find_first_Some. apply find_first_Some in Hc as [Hc Es].
  apply bool_decide_eq_true in E, Es. rewrite E. eauto 6.
Qed.

Lemma elem_of_players_of seats p :
  p ∈ players_of seats ↔ ∃ s j, seats !! s = Some j ∧ ji_player j = p.
Proof.
  unfold players_of. rewrite elem_of_list_to_set, list_elem_of_fmap. split.
  - intros (j & -> & [s Hs]%elem_of_btree_values). eauto.
  - intros (s & j & Hs & <-). exists j. split; [done|]. apply elem_of_btree_values. eauto.
Qed.

(** The domain's people of the seats. *)
Lemma seated_people_to_members seats :
  (∀ p, p ∈ (seated_people (to_members seats)).1 ↔ ∃ s j, seats !! s = Some j ∧ ji_player j = p)
  ∧ (∀ d, d ∈ (seated_people (to_members seats)).2 ↔ ∃ s j, seats !! s = Some j ∧ ji_device j = d).
Proof.
  assert (∀ x, x ∈ btree_values (to_members seats) ↔
    ∃ s j, seats !! s = Some j ∧ x = as_member (mkSeatClaim s j)) as Hv.
  { intros x. rewrite elem_of_btree_values. unfold to_members. setoid_rewrite map_lookup_imap. split.
    - intros (s & Hs). destruct (seats !! s) as [j|] eqn:E; [|done]. simpl in Hs. simplify_eq. eauto.
    - intros (s & j & Hs & ->). exists s. by rewrite Hs. }
  split; intros y; simpl; rewrite elem_of_list_to_set, list_elem_of_fmap; split.
  1, 3: intros (x & -> & (s & j & Hs & ->)%Hv); simpl; eauto.
  all: intros (s & j & Hs & <-); eexists; split; [|apply Hv; eauto]; done.
Qed.

(** The seats the domain keeps are the seats the runtime keeps. *)
Lemma staying_seats_kept vj leaving current id v w :
  NoDup (map ji_player vj) → NoDup (map sc_seat current) →
  staying_seats (mkMembership id v (to_members (seats_kept vj ∅ current)) w) leaving
  = to_members (seats_kept vj leaving current).
Proof.
  intros Hp Hs. apply map_eq. intros s. unfold staying_seats, to_members. cbn [ms_seats].
  rewrite map_lookup_filter, !map_lookup_imap, !seats_kept_lookup by done.
  destruct (find_first _ current) as [c|]; [|done]. simpl.
  rewrite (bool_decide_false (_ ∈ ∅)) by set_solver.
  destruct (find_first _ vj) as [j|] eqn:E; simpl; [|by case_match].
  apply find_first_Some in E as [_ E%bool_decide_eq_true].
  rewrite <-E. case_guard as Hl.
  - by rewrite (bool_decide_false (_ ∈ leaving)).
  - rewrite (bool_decide_true (_ ∈ leaving)); [done|exact Hl].
Qed.

(** [TableMembership::new] sorts the waiting list itself. *)
Lemma new_resorted id v members members' waiting :
  members = members' →
  TableMembership_new id v members (map ji_as_candidate waiting)
  = TableMembership_new id v members' (map ji_as_candidate (sort_by_key ji_claim_id waiting)).
Proof.
  intros <-. unfold TableMembership_new. rewrite !sort_by_key_map.
  by rewrite (sort_by_key_id _ (sort_by_key ji_claim_id waiting)) by apply sort_by_key_sorted.
Qed.

(** What the domain is told at a hand boundary: the current seats with the
    intents that renew them, and everyone else who wants in. *)
Definition renewed_membership (a : ActiveSession) (current : SignedMembershipProposal)
    (vj : list JoinIntent) : TableMembership :=
  let p := sp_proposal current in
  mkMembership (mp_table_id p) (mp_membership_version p) (to_members (seats_kept vj ∅ (mp_seats p)))
    (map ji_as_candidate
       (filter (λ j, ji_player j ∉ players_of (seats_kept vj (dom (leaves a)) (mp_seats p))) vj)).

Lemma boundary_start_point a current vj :
  let p := sp_proposal current in
  NoDup (map ji_player vj) → NoDup (map sc_seat (mp_seats p)) →
  Forall (λ c, sc_seat c ∈ all_seats) (mp_seats p) →
  same_point (seats_kept vj (dom (leaves a)) (mp_seats p)) []
    (boundary_start (renewed_membership a current vj) (dom (leaves a))).
Proof.
  intros p Hp Hs Hr. unfold boundary_start, renewed_membership. fold p.
  rewrite staying_seats_kept by done.
  destruct (seated_people_to_members (seats_kept vj (dom (leaves a)) (mp_seats p))) as [H1 H2].
  split; simpl; try done.
  - apply filter_iff_in. intros k _. unfold to_members. rewrite map_lookup_imap.
    by destruct (seats_kept _ _ _ !! k).
  - intros s [j Hj]. apply seats_kept_Some in Hj as (_ & _ & c & Hc & <- & _); [|done..].
    rewrite Forall_forall in Hr. by apply Hr.
Qed.

(** C15: Between hands the layout a coordinator proposes is the one the domain
    computes: [next_membership_layout] always succeeds, and reconciling the
    membership at the hand boundary, with the intents renewed and everyone
    else waiting, is building the domain membership of the proposed seats and
    waiting list.  The runtime's loop over intents is thus an implementation
    of [reconcile_at_hand_boundary], for intents of distinct players and
    devices. *)
Theorem layout_refines_reconcile a current vj :
  hand_active a = false → membership a = Some current →
  NoDup (map sc_seat (mp_seats (sp_proposal current))) →
  Forall (λ c, sc_seat c ∈ all_seats) (mp_seats (sp_proposal current)) →
  NoDup (map ji_player vj) → NoDup (map ji_device vj) →
  StronglySorted (key_le ji_claim_id) vj →
  ∃ seats waiting, next_membership_layout a vj = Ok (seats, waiting)
    ∧ reconcile_at_hand_boundary (renewed_membership a current vj) (dom (leaves a))
      = (v ← ok_or (u64_checked_add (mp_membership_version (sp_proposal current)) 1) VersionOverflow;
         TableMembership_new (mp_table_id (sp_proposal current)) v (map as_member seats)
           (map ji_as_candidate waiting)).
Proof.
  intros Hact Hm Hs Hr Hp Hd Hsort. set (p := sp_proposal current) in *.
  set (kept := seats_kept vj (dom (leaves a)) (mp_seats p)).
  set (l := filter (λ j, ji_player j ∉ players_of kept) vj).
  destruct (place_all_simulates (dom (leaves a)) l kept [] (boundary_start (renewed_membership a current vj)
    (dom (leaves a)))) as (seats & queue & Hplace & Hend).
  - by apply boundary_start_point.
  - by apply NoDup_map_filter.
  - by apply NoDup_map_filter.
  - intros j s k [Hj Hjv]%list_elem_of_filter Hk. rewrite elem_of_players_of in Hj.
    apply seats_kept_Some in Hk as Hkv; [|done..]. destruct Hkv as [Hkv _].
    split; intros E; apply Hj; exists s, k; [done|]. by rewrite (NoDup_key_eq ji_device vj j k).
  - unfold next_membership_layout. rewrite Hact, Hm. cbn zeta. fold p.
    change (fold_left _ (mp_seats p) ∅) with kept. fold (players_of kept).
    rewrite sort_by_key_id.
    2: { eapply sublist_sorted, Hsort. apply sublist_filter. }
    rewrite (filter_iff_in _ (λ j, ji_player j ∉ dom (leaves a) ∧ ji_player j ∉ players_of kept)).
    2: { intros j _. naive_solver. }
    rewrite <-list_filter_filter.
    fold l. rewrite Hplace. cbn [mbind result_bind]. eexists _, _. split; [done|].
    unfold reconcile_at_hand_boundary. cbn [renewed_membership version waiting ms_table_id]. fold p kept l.
    destruct Hend as [Hb _ _ _ Hrem _]. rewrite Hb, Hrem.
    destruct (ok_or (u64_checked_add _ 1) VersionOverflow) as [v| |]; [|done|done]. cbn [mbind result_bind].
    apply new_resorted.
    unfold to_members, btree_values. by rewrite btree_entries_imap, !map_map.
Qed.

(** ** One intent per player *)

Definition usable_join (a : ActiveSession) (now : Z) (j : JoinIntent) : Prop :=
  join_verify_at j now = Ok tt ∧ ji_table_id j = as_table_id a ∧ ji_level j = as_level a.
Definition outdated_by (j k : JoinIntent) : Prop :=
  ji_created_at j < ji_created_at k
  ∨ ji_created_at j = ji_created_at k ∧ ord_leb (ji_claim_id k) (ji_claim_id j) = true.

Lemma outdated_refl j : outdated_by j j.
Proof. right. split; [done|]. unfold ord_leb. by rewrite compare_refl. Qed.
Lemma outdated_trans i j k : outdated_by i j → outdated_by j k → outdated_by i k.
Proof.
  intros [?|[? Hij]] [?|[? Hjk]]; [left; lia..|]. right. split; [lia|].
  eapply ord_leb_trans; [exact Hjk|exact Hij].
Qed.
Lemma newer_join_total j k : if newer_join j k then outdated_by k j else outdated_by j k.
Proof.
  unfold newer_join, outdated_by.
  destruct (Z.ltb_spec (ji_created_at k) (ji_created_at j)); simpl; [by left|].
  destruct (Z.eqb_spec (ji_created_at j) (ji_created_at k)); simpl; [|left; lia].
  rewrite ord_ltb_not_leb. destruct (ord_leb (ji_claim_id k) (ji_claim_id j)) eqn:E; simpl; right; [done|].
  split; [done|]. destruct (ord_leb_total (ji_claim_id j) (ji_claim_id k)); [done|congruence].
Qed.

(** An intent is passed over, or replaces an older one. *)
Lemma keep_join_cases a now m j :
  keep_join a now m j = m
    ∧ (usable_join a now j → ∃ k, m !! ji_player j = Some k ∧ outdated_by j k)
  ∨ keep_join a now m j = <[ji_player j := j]> m ∧ usable_join a now j
    ∧ (∀ k, m !! ji_player j = Some k → outdated_by k j).
Proof.
  unfold keep_join, usable_join.
  destruct (join_verify_at j now) as [[]| |] eqn:Hv; simpl; [|left; split; [done|naive_solver]..].
  do 2 (case_bool_decide; simpl; [|left; split; [done|naive_solver]]).
  destruct (m !! ji_player j) as [k|] eqn:Hk; [|right; naive_solver].
  pose proof (newer_join_total j k) as Ht. destruct (newer_join j k); [right|left]; naive_solver.
Qed.

(** What the loop has kept after the intents [l]. *)
Record newest (a : ActiveSession) (now : Z) (l : list JoinIntent) (m : gmap PlayerId JoinIntent)
    : Prop := {
  nw_key : ∀ p j, m !! p = Some j → ji_player j = p ∧ j ∈ l ∧ usable_join a now j;
  nw_newest : ∀ j, j ∈ l → usable_join a now j → ∃ k, m !! ji_player j = Some k ∧ outdated_by j k;
}.

Lemma keep_join_newest a now l m j :
  newest a now l m → newest a now (l ++ [j]) (keep_join a now m j).
Proof.
  intros [Hk Hn]. destruct (keep_join_cases a now m j) as [[-> Hold]|(-> & Hu & Hnew)]; split.
  - intros p i Hi%Hk. set_solver.
  - intros i [Hi| ->%list_elem_of_singleton]%elem_of_app; eauto.
  - intros p i [[<- <-]|[? Hi%Hk]]%lookup_insert_Some; set_solver.
  - intros i [Hi| ->%list_elem_of_singleton]%elem_of_app Hui.
    2: { exists j. rewrite lookup_insert_eq. by split; [|apply outdated_refl]. }
    destruct (Hn i Hi Hui) as (k & Hki & Hout). destruct (decide (ji_player j = ji_player i)) as [E|].
    + exists j. rewrite E, lookup_insert_eq. split; [done|]. eapply outdated_trans, Hnew; [done|by rewrite E].
    + exists k. by rewrite lookup_insert_ne.
Qed.

(** The list of intents a coordinator lays the table out with: one per player,
    in claim order, each valid and of this table, and the newest the player
    has sent. *)
Lemma canonical_player_joins_spec a now :
  let vj := canonical_player_joins a now in
  NoDup (map ji_player vj) ∧ StronglySorted (key_le ji_claim_id) vj
  ∧ (∀ j, j ∈ vj → usable_join a now j ∧ ∃ c, joins a !! c = Some j)
  ∧ (∀ c j, joins a !! c = Some j → usable_join a now j →
       ∃ k, k ∈ vj ∧ ji_player k = ji_player j ∧ outdated_by j k).
Proof.
  intros vj. set (m := fold_left (keep_join a now) (btree_values (joins a)) ∅).
  assert (newest a now (btree_values (joins a)) m) as [Hk Hn].
  { apply (fold_left_snoc_inv (newest a now)); [split; [done|set_solver]|]. intros. by apply keep_join_newest. }
  assert (∀ j, j ∈ vj ↔ m !! ji_player j = Some j) as Hvj.
  { intros j. unfold vj, canonical_player_joins. fold m. rewrite elem_of_sort_by_key, elem_of_btree_values.
    split; [|eauto]. intros [p Hp]. by destruct (Hk p j Hp) as [-> _]. }
  split_and!.
  - unfold vj, canonical_player_joins. fold m.
    rewrite (Permutation_map ji_player (sort_by_key_perm ji_claim_id (btree_values m))).
    unfold btree_values. rewrite map_map.
    rewrite (map_ext_in (λ e, ji_player e.2) fst); [apply NoDup_btree_keys|].
    intros [p j] Hpj%list_elem_of_In%elem_of_btree_entries. by apply Hk in Hpj as [? _].
  - apply sort_by_key_sorted.
  - intros j Hj%Hvj%Hk. destruct Hj as (_ & Hj%elem_of_btree_values & Hu). done.
  - intros c j Hc Hu. destruct (Hn j) as (k & Hkj & Hout); [apply elem_of_btree_values; eauto|done|].
    exists k. apply Hk in Hkj as Hk'. destruct Hk' as [E _]. split_and!; [|done|done].
    apply Hvj. by rewrite E.
Qed.
End layout.

(** ** Example: anna at seat 2 and ben at seat 5, cleo waiting; ben leaves *)
Definition example_intents : list JoinIntent :=
  @sort_by_key _ _ (ident_ord _) (@ji_claim_id toy_crypto)
    [intent_as anna 11; intent_as ben 12; intent_as cleo 13].
Definition example_session : @ActiveSession toy_libp2p :=
  let a := @ActiveSession_new toy_crypto toy_libp2p table_nine (cert_player_id anna.2)
             (intent_as anna 11) "room" None in
  @mkSession toy_libp2p (as_table_id a) (as_creator a) (as_level a) (as_topic a) (local_join a) None
    (list_to_map (map (λ j, (@ji_claim_id toy_crypto j, j)) example_intents))
    {[cert_player_id ben.2 := leave_as ben]} (Some (example_signed 2 5))
    None None None ∅ ∅ [] ∅ ∅ false None ∅ None None None None None ∅ None None false true 5 None
    None None None None None false.

Lemma example_layout :
  @next_membership_layout toy_crypto toy_libp2p example_session example_intents
  = Ok ([mkSeatClaim 1 (intent_as cleo 13); mkSeatClaim 2 (intent_as anna 11)], []).
Proof. vm_compute. reflexivity. Qed.

Lemma layout_refines_reconcile_witness :
  ∃ seats waiting,
    @next_membership_layout toy_crypto toy_libp2p example_session example_intents = Ok (seats, waiting)
    ∧ reconcile_at_hand_boundary
        (@renewed_membership toy_crypto toy_libp2p example_session (example_signed 2 5) example_intents)
        (dom (leaves example_session))
      = (v ← ok_or (u64_checked_add (mp_membership_version (example_proposal 2 5)) 1) VersionOverflow;
         TableMembership_new (mp_table_id (example_proposal 2 5)) v
           (map (@as_member) seats) (map (@ji_as_candidate toy_crypto) waiting)).
Proof.
  apply (@layout_refines_reconcile toy_crypto toy_libp2p example_session (example_signed 2 5)
           example_intents).
  - reflexivity.
  - reflexivity.
  - apply (bool_decide_unpack _). vm_compute. exact I.
  - apply (bool_decide_unpack _). vm_compute. exact I.
  - apply (bool_decide_unpack _). vm_compute. exact I.
  - apply (bool_decide_unpack _). vm_compute. exact I.
  - apply sort_by_key_sorted.
Defined.
