(* ===== verification/SessionRuntime.v ===== *)
(** * SessionRuntime: the handlers of a table session (token-holdem-sidecar table_session_runtime.rs)

    The methods of [TableSessionRuntime] that do not touch the swarm, on the
    state of SessionState: what arrives from the network ([handle_message]),
    the two signature rounds (memberships and hand rosters: propose, accept,
    finalise, activate), hand boundaries and leaving.  A handler is a method on
    [&mut ActiveSession]: the mutations made before an error stay.  [options]
    of events stand for the early [return Ok(Vec::new())].

    CBOR is external: [RoomCodec] reads a payload as an envelope. *)

From S2P Require Import Prelude Machine Encoding Order Ids Table TablePool Membership.
From S2P Require Import HandRoster Identity Session NetworkAddress PoolProtocol TableSession.
From S2P Require Import RosterProtocol SessionState.
From coqutil Require Import Datatypes.RecordSetters.
Import OCamlLikeNotations.

(** [cbor4ii::serde]: an envelope, a message and their bytes. *)
Class RoomCodec := {
  decode_envelope : list Z → option RoomWireEnvelope;
  encode_envelope : RoomWireEnvelope → option (list Z);
  encode_message : RoomWireMessage → option (list Z);
}.

Section handlers.
Context `{Crypto, Libp2p, RoomCodec}.
Implicit Types a : ActiveSession.

Definition Handler (A : Type) : Type := M ActiveSession RoomError A.
Definition get : Handler ActiveSession := gets (λ a, a).
Definition Event : Type := TableSessionEvent.

(** [self.snapshot(now)?] as the last event. *)
Definition snapshot_now (now_monotonic : Z) : Handler Event := gets (λ a, snapshot a now_monotonic).

(** [remember_embedded_joins]. *)
Definition remember_join a (j : JoinIntent) : ActiveSession :=
  { a with joins ::= λ m, <[ji_claim_id j := j]> m }.
Definition remember_leave a (l : LeaveIntent) : ActiveSession :=
  { a with leaves ::= λ m, <[li_player l := l]> m }.
Definition remember_embedded_joins (p : MembershipProposal) : Handler unit :=
  modify (λ a, fold_left remember_leave (leave_intents p)
                 (fold_left remember_join (map sc_intent (mp_seats p) ++ mp_waiting p) a)).

(** ** The membership round *)

(** [accept_membership_proposal]: a newer proposal, or one with a smaller hash,
    replaces the pending one, and gets the local signature. *)
Definition supersedes (p : SignedMembershipProposal) (current : option SignedMembershipProposal) : bool :=
  match current with
  | None => true
  | Some c =>
      let v := mp_membership_version (sp_proposal p) in
      let w := mp_membership_version (sp_proposal c) in
      (w <? v) || ((v =? w) && ord_ltb (proposal_hash (sp_proposal p)) (proposal_hash (sp_proposal c)))
  end.
Definition accept_membership_proposal (p : SignedMembershipProposal) (device : list Z)
    (certificate : DeviceCertificate) (now : Z) : Handler unit :=
  a ← get;
  if negb (supersedes p (pending_membership a)) then mret tt else
  _ ← modify (λ a, { a with pending_membership := Some p; membership_acceptances := ∅;
                     local_membership_acceptance := None });
  match seat_by_player (sp_proposal p) (ji_player (local_join a)) with
  | None => mret tt
  | Some seat =>
      acceptance ← lift (map_err RoomSession
                          (acceptance_issue p (seat_claim seat) now device certificate));
      modify (λ a, { a with membership_acceptances ::= λ m, <[ac_claim acceptance := acceptance]> m;
                     local_membership_acceptance := Some acceptance })
  end.

(** [activate_membership]. *)
Definition activate_membership (c : CertifiedMembership) (now_monotonic : Z) : Handler (list Event) :=
  _ ← modify (λ a, { a with membership := Some (cm_proposal c); membership_certificate := Some c;
                     last_membership_certificate_published_at := None; pending_membership := None;
                     membership_acceptances := ∅; pending_roster := None; roster_acceptances := ∅;
                     local_roster_acceptance := None });
  _ ← modify (λ a,
        if negb (hand_active a) && (2 <=? length (mp_seats (sp_proposal (cm_proposal c))))%nat
        then { a with countdown_started_at ::= λ t, Some (default now_monotonic t) } else a);
  a ← get;
  left ← (if bool_decide (is_Some (local_leave a))
             && negb (contains_local_player a (sp_proposal (cm_proposal c)))
          then _ ← modify (λ a, { a with leave_completed := true });
               mret [SafeLeaveCompleted (as_table_id a)]
          else mret []);
  s ← snapshot_now now_monotonic;
  mret (left ++ [s]).

(** [finalize_membership_if_ready]. *)
Definition finalize_membership_if_ready (now now_monotonic : Z) : Handler (list Event) :=
  a ← get;
  match pending_membership a with
  | None => mret []
  | Some p =>
      let required := length (mp_seats (sp_proposal p)) in
      let confirmed := size (membership_acceptances a) in
      let accepted := btree_values (membership_acceptances a) in
      let events := [MembershipConfirmation (as_table_id a) (u8_or_max confirmed) (u8_or_max required)] in
      if negb (confirmed =? required)%nat
         || negb (is_ok (verify_membership_acceptances p accepted now))
      then mret events
      else
        _ ← modify (λ a, { a with pending_membership := None });
        c ← lift (certified_membership_assemble p accepted now);
        activated ← activate_membership c now_monotonic;
        mret (events ++ activated)
  end.

(** [maybe_propose_membership]. *)
Definition maybe_propose_membership (device : list Z) (certificate : DeviceCertificate) (now : Z)
    : Handler unit :=
  a ← get;
  match pending_membership a, membership a with
  | None, Some current =>
      let valid_joins := canonical_player_joins a now in
      if bool_decide (valid_joins = []) then mret tt else
      layout ← lift (next_membership_layout a valid_joins);
      let '(seats, waiting) := layout in
      match min_by (λ x y, compare (sc_seat x) (sc_seat y)) seats with
      | None => mret tt
      | Some coordinator =>
          let local_claim :=
            seat_claim <$> find_first (λ s, bool_decide (ji_player (sc_intent s)
                                                         = ji_player (local_join a))) seats in
          if negb (bool_decide (local_claim = Some (seat_claim coordinator))) then mret tt else
          if membership_layout_unchanged (Some current) seats waiting then mret tt else
          p ← lift (map_err RoomSession
                (assemble (as_table_id a) (as_level a)
                   (u64_saturating_add (mp_membership_version (sp_proposal current)) 1)
                   (Some (proposal_hash (sp_proposal current))) seats waiting
                   (btree_values (leaves a)) now));
          signed ← lift (map_err RoomSession (signed_issue p now device certificate));
          accept_membership_proposal signed device certificate now
      end
  | _, _ => mret tt
  end.

(** ** The roster round *)

(** [accept_roster_proposal]. *)
Definition roster_supersedes (r : SignedHandRosterProposal) (current : option SignedHandRosterProposal)
    : bool :=
  match current with
  | None => true
  | Some c =>
      let n := hand_number (ready_roster (sr_proposal r)) in
      let k := hand_number (ready_roster (sr_proposal c)) in
      (k <? n) || ((n =? k) && ord_ltb (hp_hash (sr_proposal r)) (hp_hash (sr_proposal c)))
  end.
Definition accept_roster_proposal (r : SignedHandRosterProposal) (device : list Z)
    (certificate : DeviceCertificate) (now : Z) : Handler unit :=
  a ← get;
  match endpoint_for_player (sr_proposal r) (ji_player (local_join a)) with
  | None => mret tt
  | Some endpoint =>
      if negb (roster_supersedes r (pending_roster a)) then mret tt else
      acceptance ← lift (map_err RoomRoster
                          (roster_acceptance_issue r (ep_claim endpoint) now device certificate));
      modify (λ a, { a with pending_roster := Some r;
                     roster_acceptances := {[ra_claim acceptance := acceptance]};
                     local_roster_acceptance := Some acceptance })
  end.

(** [activate_roster]. *)
Definition activate_roster (c : CertifiedRoster) : Handler (list Event) :=
  let r := cr_proposal c in
  let required := length (hp_endpoints (sr_proposal r)) in
  let number := hand_number (ready_roster (sr_proposal r)) in
  a ← get;
  ready ← lift (ready_table_from_proposal r (ji_player (local_join a)));
  _ ← modify (λ a, { a with ready_table := Some ready; active_roster := Some r;
                     roster_certificate := Some c; last_roster_certificate_published_at := None;
                     pending_roster := None; roster_acceptances := ∅; hand_active := true;
                     countdown_started_at := None });
  mret [HandRosterConfirmation (as_table_id a) number (u8_or_max required) (u8_or_max required);
        NextHandReady (as_table_id a) number
          (if Z.of_nat required <=? u8_max then Z.of_nat required else TABLE_CAPACITY)].

(** [finalize_roster_if_ready]. *)
Definition finalize_roster_if_ready (now : Z) : Handler (list Event) :=
  a ← get;
  match pending_roster a with
  | None => mret []
  | Some r =>
      let required := length (hp_endpoints (sr_proposal r)) in
      let confirmed := size (roster_acceptances a) in
      let accepted := btree_values (roster_acceptances a) in
      if negb (confirmed =? required)%nat
         || negb (is_ok (verify_hand_roster_acceptances r accepted now))
      then mret [HandRosterConfirmation (as_table_id a) (hand_number (ready_roster (sr_proposal r)))
                   (u8_or_max confirmed) (u8_or_max required)]
      else
        _ ← modify (λ a, { a with pending_roster := None });
        c ← lift (certified_roster_assemble r accepted now);
        activate_roster c
  end.

(** [maybe_propose_roster]. *)
Definition maybe_propose_roster (device : list Z) (certificate : DeviceCertificate)
    (now now_monotonic : Z) : Handler unit :=
  a ← get;
  if hand_active a || bool_decide (is_Some (pending_roster a))
     || bool_decide (is_Some (pending_membership a)) then mret tt else
  match membership a with
  | None => mret tt
  | Some m =>
      if (length (mp_seats (sp_proposal m)) <? 2)%nat
      then modify (λ a, { a with countdown_started_at := None })
      else
        let started := default now_monotonic (countdown_started_at a) in
        _ ← modify (λ a, { a with countdown_started_at := Some started });
        if since now_monotonic started <? HAND_START_DELAY then mret tt else
        coordinator ← lift (ok_or (coordinator_claim_id (sp_proposal m)) CoordinatorClaimMissing);
        let local_claim := seat_claim <$> seat_by_player (sp_proposal m) (ji_player (local_join a)) in
        if negb (bool_decide (local_claim = Some coordinator)) then mret tt else
        domain_membership ← lift (map_err RoomSession (as_membership (sp_proposal m)));
        ready ← lift (map_err RoomHandRoster
                  (from_membership blake3 domain_membership (next_hand_number a)
                     (as_previous_receipt_hash a) (previous_dealer_seat a)));
        p ← lift (map_err RoomRoster (roster_assemble ready m now));
        signed ← lift (map_err RoomRoster (signed_roster_issue p m now device certificate));
        accept_roster_proposal signed device certificate now
  end.

(** ** Hand boundaries *)

(** [finish_hand_boundary]. *)
Definition finish_hand_boundary (evidence_hash : list Z) (dealer : PhysicalSeat) (now_monotonic : Z)
    : Handler (list Event) :=
  a ← get;
  _ ← lift (reject_if (negb (hand_active a)) NoActiveHand);
  _ ← modify (λ a, { a with hand_active := false; hand_clock_known := true;
                     as_previous_receipt_hash := Some evidence_hash;
                     previous_dealer_seat := Some dealer });
  next ← lift (ok_or (u64_checked_add (next_hand_number a) 1) HandNumberOverflow);
  _ ← modify (λ a, { a with next_hand_number := next; pending_roster := None; active_roster := None;
                     roster_certificate := None; last_roster_certificate_published_at := None;
                     roster_acceptances := ∅; local_roster_acceptance := None;
                     pending_membership := None; membership_acceptances := ∅;
                     local_membership_acceptance := None;
                     countdown_started_at := Some now_monotonic });
  s ← snapshot_now now_monotonic;
  a ← get;
  if bool_decide (is_Some (local_leave a)) then
    if local_is_only_seat a then
      _ ← modify (λ a, { a with leave_completed := true });
      mret [s; SafeLeaveCompleted (as_table_id a)]
    else
      _ ← modify (λ a, { a with local_leave_membership_started_at := Some now_monotonic });
      mret [s]
  else mret [s].

(** ** Messages *)

(** [verify_at] of a document inside [handle_message], with its error. *)
Definition check_session (r : result TableSessionProtocolError unit) : Handler unit :=
  lift (map_err RoomSession r).
Definition check_roster (r : result HandRosterProtocolError unit) : Handler unit :=
  lift (map_err RoomRoster r).

(** The arms of [handle_message]; [None] is the early return. *)
Definition on_join_intent (source : option PeerId) (j : JoinIntent) (now : Z)
    : Handler (option (list Event)) :=
  _ ← check_session (join_verify_at j now);
  a ← get;
  _ ← lift (validate_join_scope a j);
  _ ← lift (verify_source source (tk_peer_id (ji_ticket j)));
  _ ← modify (λ a, remember_join a j);
  mret (Some []).
Definition on_leave_intent (source : option PeerId) (l : LeaveIntent) (now : Z)
    : Handler (option (list Event)) :=
  _ ← check_session (leave_verify_at l now);
  a ← get;
  _ ← lift (reject_if (negb (bool_decide (li_table_id l = as_table_id a))) LeaveForOtherTable);
  _ ← lift (verify_player_source a source (li_player l));
  _ ← modify (λ a, remember_leave a l);
  mret (Some []).
Definition on_membership_proposal (source : option PeerId) (p : SignedMembershipProposal)
    (device : list Z) (certificate : DeviceCertificate) (now : Z) : Handler (option (list Event)) :=
  a ← get;
  if bool_decide (membership a = Some p) then mret None else
  _ ← check_session (signed_verify_at p now);
  _ ← lift (validate_membership_scope a p);
  coordinator ← lift (ok_or (seat_by_claim_id (sp_proposal p) (sp_coordinator p))
                        CoordinatorClaimMissing);
  _ ← lift (verify_source source (tk_peer_id (ji_ticket (sc_intent coordinator))));
  _ ← remember_embedded_joins (sp_proposal p);
  _ ← accept_membership_proposal p device certificate now;
  mret (Some []).
Definition on_membership_acceptance (source : option PeerId) (c : MembershipAcceptance) (now : Z)
    : Handler (option (list Event)) :=
  a ← get;
  if match membership a with
     | Some m => bool_decide (ac_proposal_hash c = proposal_hash (sp_proposal m))
     | None => false
     end then mret None else
  p ← lift (ok_or (pending_membership a) NoPendingMembership);
  _ ← check_session (acceptance_verify_at c p now);
  seat ← lift (ok_or (seat_by_claim_id (sp_proposal p) (ac_claim c)) AcceptanceClaimUnknown);
  _ ← lift (verify_source source (tk_peer_id (ji_ticket (sc_intent seat))));
  _ ← modify (λ a, { a with membership_acceptances ::= λ m, <[ac_claim c := c]> m });
  mret (Some []).
Definition on_certified_membership (source : option PeerId) (c : CertifiedMembership)
    (now now_monotonic : Z) : Handler (option (list Event)) :=
  let p := sp_proposal (cm_proposal c) in
  a ← get;
  if match membership a with
     | Some m =>
         bool_decide (proposal_hash (sp_proposal m) = proposal_hash p)
         || (mp_membership_version p <=? mp_membership_version (sp_proposal m))
     | None => false
     end then mret None else
  _ ← lift (certified_membership_verify_at c now);
  _ ← lift (validate_membership_scope a (cm_proposal c));
  _ ← lift (verify_membership_certificate_source source p);
  _ ← remember_embedded_joins p;
  let required := u8_or_max (length (mp_seats p)) in
  activated ← activate_membership c now_monotonic;
  mret (Some (MembershipConfirmation (as_table_id a) required required :: activated)).
Definition on_certified_roster (source : option PeerId) (c : CertifiedRoster) (now : Z)
    : Handler (option (list Event)) :=
  let p := sr_proposal (cr_proposal c) in
  a ← get;
  if match active_roster a with
     | Some r => bool_decide (hp_hash (sr_proposal r) = hp_hash p)
     | None => false
     end then mret None else
  _ ← lift (certified_roster_verify_at c now);
  _ ← lift (verify_roster_certificate_source source p);
  match endpoint_for_player p (ji_player (local_join a)) with
  | None => mret None
  | Some _ =>
      _ ← lift (validate_roster_scope a (cr_proposal c));
      activated ← activate_roster c;
      mret (Some activated)
  end.
(** A signed roster for the local player settles the hand clock. *)
Definition adopt_clock (number : Z) (receipt : option (list Z)) a : ActiveSession :=
  if negb (hand_clock_known a) && (next_hand_number a <? number)
  then { a with next_hand_number := number; as_previous_receipt_hash := receipt; hand_clock_known := true }
  else { a with hand_clock_known := true }.
Definition on_roster_proposal (source : option PeerId) (r : SignedHandRosterProposal)
    (device : list Z) (certificate : DeviceCertificate) (now : Z) : Handler (option (list Event)) :=
  a ← get;
  if bool_decide (active_roster a = Some r) then mret None else
  _ ← check_roster (signed_roster_verify_at r now);
  _ ← lift (validate_roster_scope a r);
  coordinator ← lift (ok_or (seat_by_claim_id (sp_proposal (sr_membership r)) (sr_coordinator r))
                        RosterClaimUnknown);
  _ ← lift (verify_source source (tk_peer_id (ji_ticket (sc_intent coordinator))));
  let synchronizes := bool_decide (is_Some (endpoint_for_player (sr_proposal r)
                                              (ji_player (local_join a)))) in
  let number := hand_number (ready_roster (sr_proposal r)) in
  let receipt := previous_receipt_hash (ready_roster (sr_proposal r)) in
  _ ← accept_roster_proposal r device certificate now;
  _ ← modify (λ a, if synchronizes then adopt_clock number receipt a else a);
  mret (Some []).
Definition on_roster_acceptance (source : option PeerId) (c : HandRosterAcceptance) (now : Z)
    : Handler (option (list Event)) :=
  a ← get;
  if match active_roster a with
     | Some r => bool_decide (ra_proposal_hash c = hp_hash (sr_proposal r))
     | None => false
     end then mret None else
  r ← lift (ok_or (pending_roster a) NoPendingRoster);
  _ ← check_roster (roster_acceptance_verify_at c r now);
  endpoint ← lift (ok_or (endpoint_by_claim (sr_proposal r) (ra_claim c)) RosterClaimUnknown);
  _ ← lift (verify_source source (ep_peer_id endpoint));
  _ ← modify (λ a, { a with roster_acceptances ::= λ m, <[ra_claim c := c]> m });
  mret (Some []).
Definition on_message (source : option PeerId) (m : RoomWireMessage) (device : list Z)
    (certificate : DeviceCertificate) (now now_monotonic : Z) : Handler (option (list Event)) :=
  match m with
  | WireSession (MsgJoinIntent j) => on_join_intent source j now
  | WireSession (MsgLeaveIntent l) => on_leave_intent source l now
  | WireSession (MsgMembershipProposal p) => on_membership_proposal source p device certificate now
  | WireSession (MsgMembershipAcceptance c) => on_membership_acceptance source c now
  | WireCertifiedMembership c => on_certified_membership source c now now_monotonic
  | WireCertifiedRoster c => on_certified_roster source c now
  | WireRoster (RosterProposalMsg r) => on_roster_proposal source r device certificate now
  | WireRoster (RosterAcceptanceMsg c) => on_roster_acceptance source c now
  end.

(** [handle_message]. *)
Definition settle (device : list Z) (certificate : DeviceCertificate) (now now_monotonic : Z)
    (events : list Event) : Handler (list Event) :=
  e1 ← finalize_membership_if_ready now now_monotonic;
  _ ← maybe_propose_roster device certificate now now_monotonic;
  e2 ← finalize_roster_if_ready now;
  mret (events ++ e1 ++ e2).
Definition process_message (source : option PeerId) (m : RoomWireMessage) (device : list Z)
    (certificate : DeviceCertificate) (now now_monotonic : Z) : Handler (list Event) :=
  outcome ← on_message source m device certificate now now_monotonic;
  match outcome with
  | None => mret []
  | Some events => settle device certificate now now_monotonic events
  end.
Definition handle_message (source : option PeerId) (payload device : list Z)
    (certificate : DeviceCertificate) (now now_monotonic : Z) : Handler (list Event) :=
  _ ← lift (reject_if ((length payload =? 0)%nat || (MAX_MESSAGE_BYTES <? Z.of_nat (length payload)))
              MessageSize);
  envelope ← lift (ok_or (decode_envelope payload) MessageNotCbor);
  _ ← lift (reject_if (negb (env_version envelope =? ROOM_WIRE_ENVELOPE_VERSION))
              UnsupportedEnvelopeVersion);
  process_message source (env_message envelope) device certificate now now_monotonic.

(** ** Leaving *)

(** [force_local_leave_if_due]. *)
Definition force_local_leave_if_due (hand_stalled : bool) (now_monotonic : Z) : Handler (list Event) :=
  a ← get;
  if bool_decide (local_leave a = None) || leave_completed a then mret [] else
  started_at ← lift (ok_or (local_leave_started_at a) LeaveStartMissing);
  let elapsed := since now_monotonic started_at in
  let membership_elapsed := since now_monotonic <$> local_leave_membership_started_at a in
  match forced_leave_reason (hand_active a) hand_stalled elapsed membership_elapsed with
  | None => mret []
  | Some reason =>
      _ ← modify (λ a, { a with leave_completed := true });
      mret [SafeLeaveForced (as_table_id a) (reason_str reason) (Z.min (as_millis elapsed) u64_max);
            SafeLeaveCompleted (as_table_id a)]
  end.

(** ** The small methods *)

(** [handles_topic], [manages_peer]. *)
Definition handles_topic a (topic : string) : bool := bool_decide (as_topic a = topic).
Definition manages_peer a (peer : PeerId) : bool := bool_decide (peer ∈ explicit_peers a).
(** [take_ready_table], [take_leave_completed]. *)
Definition take_ready_table : Handler (option ReadyTable) :=
  a ← get;
  if bool_decide (local_leave a = None) then
    _ ← modify (λ a, { a with ready_table := None }); mret (ready_table a)
  else mret None.
Definition take_leave_completed : Handler bool :=
  a ← get;
  _ ← modify (λ a, { a with leave_completed := false }); mret (leave_completed a).

(** [adopt_explicit_peers], [peer_connected], [peer_disconnected]. *)
Definition adopt_explicit_peers (peers : list PeerId) : Handler unit :=
  modify (λ a, { a with explicit_peers ::= λ s, s ∪ list_to_set peers; owns_explicit_peers := true }).
Definition peer_connected (peer : PeerId) : Handler unit :=
  modify (λ a, { a with disconnected_explicit_peers ::= delete peer }).
Definition peer_disconnected (peer : PeerId) (now_monotonic : Z) : Handler unit :=
  modify (λ a,
    if bool_decide (peer ∈ explicit_peers a)
    then { a with disconnected_explicit_peers ::=
             λ m, <[peer := default now_monotonic (m !! peer)]> m }
    else a).

(** [handle_direct_response], [handle_direct_failure]. *)
Definition handle_direct_response (request : OutboundRequestId) (accepted : bool) : Handler bool :=
  a ← get;
  match pending_room_deliveries a !! request with
  | None => mret false
  | Some target =>
      _ ← modify (λ a, { a with pending_room_deliveries ::= delete request });
      _ ← modify (λ a, if accepted then { a with completed_room_deliveries ::= λ s, {[target]} ∪ s } else a);
      mret true
  end.
Definition handle_direct_failure (request : OutboundRequestId) : Handler bool :=
  a ← get;
  _ ← modify (λ a, { a with pending_room_deliveries ::= delete request });
  mret (bool_decide (is_Some (pending_room_deliveries a !! request))).
End handlers.
