(* ===== verification/SessionInv.v ===== *)
(** * SessionInv: what a table session can rely on (table_session_runtime.rs)

    The invariant of [ActiveSession] and that every handler keeps it: what is
    taken for the membership or the roster of a hand carries the signatures of
    everyone in it, memberships follow one another by hash and version, and
    hand numbers never go back. *)

From S2P Require Import Prelude Machine Encoding Order Ids Table TablePool Membership.
From S2P Require Import HandRoster Identity Session NetworkAddress PoolProtocol TableSession.
From S2P Require Import RosterProtocol SessionState SessionRuntime.
From coqutil Require Import Datatypes.RecordSetters.
Import OCamlLikeNotations.

(** ** What a session knows is signed *)

Section invariant.
Context `{Crypto, Libp2p, RoomCodec}.
Implicit Types a : ActiveSession.

(** The proposal comes right after the current membership. *)
Definition follows (current : option SignedMembershipProposal) (p : SignedMembershipProposal) : Prop :=
  ∀ m, current = Some m →
    mp_membership_version (sp_proposal p)
      = u64_saturating_add (mp_membership_version (sp_proposal m)) 1
    ∧ previous_membership_hash (sp_proposal p) = Some (proposal_hash (sp_proposal m)).
Definition of_table (table : TableId) (level : StakeLevel) (p : SignedMembershipProposal) : Prop :=
  mp_table_id (sp_proposal p) = table ∧ mp_level (sp_proposal p) = level.

(** At most one request to a peer waits for its reply. *)
Definition one_slot_per_peer (slots : gmap OutboundRequestId DirectRoomTarget) : Prop :=
  ∀ i j (t u : DirectRoomTarget), slots !! i = Some t → slots !! j = Some u → t.1 = u.1 → i = j.
(** At most 256 messages are remembered, each once, and none was gossiped more
    than six times. *)
Definition gossip_ok (gossip : list ConsensusGossipDelivery) : Prop :=
  (length gossip <= 256)%nat ∧ NoDup (map gd_message_hash gossip)
  ∧ Forall (λ d, 0 <= successful_attempts d <= 6) gossip.

(** The invariant, on the fields it is about: every intent was verified, for
    this table; the current membership carries the verified acceptances of all
    its seats; the pending one is a valid proposal that follows it; a pending
    roster is for the current membership and the next hand; during a hand the
    roster carries the verified acceptances of all its players; and delivery is
    bounded. *)
Record facts (table : TableId) (level : StakeLevel) (js : gmap JoinClaimId JoinIntent)
    (ls : gmap PlayerId LeaveIntent) (current : option SignedMembershipProposal)
    (certificate : option CertifiedMembership) (pending : option SignedMembershipProposal)
    (roster : option SignedHandRosterProposal) (active : bool)
    (played : option SignedHandRosterProposal) (roster_cert : option CertifiedRoster) (next : Z)
    (slots : gmap OutboundRequestId DirectRoomTarget) (gossip : list ConsensusGossipDelivery) : Prop := {
  f_joins : ∀ c j, js !! c = Some j →
    c = ji_claim_id j ∧ ji_table_id j = table ∧ ji_level j = level ∧ ∃ t, join_verify_at j t = Ok tt;
  f_leaves : ∀ p l, ls !! p = Some l →
    p = li_player l ∧ li_table_id l = table ∧ ∃ t, leave_verify_at l t = Ok tt;
  f_membership : ∀ m, current = Some m →
    of_table table level m
    ∧ ∃ c t, certificate = Some c ∧ cm_proposal c = m ∧ certified_membership_verify_at c t = Ok tt;
  f_pending : ∀ p, pending = Some p →
    of_table table level p ∧ follows current p ∧ ∃ t, proposal_verify_at (sp_proposal p) t = Ok tt;
  f_roster : ∀ r, roster = Some r →
    current = Some (sr_membership r) ∧ hand_number (ready_roster (sr_proposal r)) = next
    ∧ ∃ t, signed_roster_verify_at r t = Ok tt;
  f_hand : active = true →
    ∃ c t, roster_cert = Some c ∧ played = Some (cr_proposal c) ∧ certified_roster_verify_at c t = Ok tt;
  f_slots : one_slot_per_peer slots;
  f_gossip : gossip_ok gossip;
}.
Definition session_ok a : Prop :=
  facts (as_table_id a) (as_level a) (joins a) (leaves a) (membership a) (membership_certificate a)
    (pending_membership a) (pending_roster a) (hand_active a) (active_roster a) (roster_certificate a)
    (next_hand_number a) (pending_room_deliveries a) (consensus_gossip_deliveries a).

(** How the membership moves: a first one is adopted, then each follows the
    one before. *)
Inductive succeeds : option SignedMembershipProposal → option SignedMembershipProposal → Prop :=
  | succeeds_by current m : follows current m → succeeds current (Some m).

(** From [a] the session moves to [b]: same table, membership along the chain,
    hand numbers never back, invariant kept. *)
Record moves a b : Prop := {
  mv_ok : session_ok b;
  mv_table : as_table_id b = as_table_id a ∧ as_level b = as_level a;
  mv_membership : rtc succeeds (membership a) (membership b);
  mv_hand : next_hand_number a <= next_hand_number b;
}.

Lemma moves_refl a : session_ok a → moves a a.
Proof. by split. Qed.
Lemma moves_trans a b c : moves a b → moves b c → moves a c.
Proof.
  intros [? [? ?] ? ?] [? [? ?] ? ?]. split; [done|split; congruence|by etrans|lia].
Qed.

(** A handler that is safe to call in any state that satisfies the invariant. *)
Definition safe {A} (h : Handler A) : Prop := ∀ a, session_ok a → moves a (h a).2.

(** The rules: [a0] is where the run started and [a] where it is now. *)
Lemma moves_ret {A} (x : A) a0 a : moves a0 a → moves a0 ((mret x : Handler A) a).2.
Proof. done. Qed.
Lemma moves_lift {A} (r : result RoomError A) a0 a : moves a0 a → moves a0 ((lift r : Handler A) a).2.
Proof. done. Qed.
Lemma moves_bind_lift {A B} (r : result RoomError A) (f : A → Handler B) a0 a :
  moves a0 a → (∀ x, r = Ok x → moves a0 (f x a).2) → moves a0 ((lift r ≫= f) a).2.
Proof. intros Ha Hf. unfold lift, mbind, M_bind. destruct r; simpl; auto. Qed.
Lemma moves_bind_safe {A B} (h : Handler A) (f : A → Handler B) a0 a :
  safe h → moves a0 a → (∀ x b, moves a0 b → moves a0 (f x b).2) → moves a0 ((h ≫= f) a).2.
Proof.
  intros Hh Ha Hf. assert (moves a0 (h a).2) as Hh' by (eapply moves_trans; [done|apply Hh, Ha]).
  unfold mbind, M_bind. destruct (h a) as [[x| |] b]; simpl in *; auto.
Qed.
Lemma safe_moves {A} (h : Handler A) a0 a : safe h → moves a0 a → moves a0 (h a).2.
Proof. intros Hh Ha. eapply moves_trans; [done|apply Hh, Ha]. Qed.

Lemma moves_get {B} (f : ActiveSession → Handler B) a0 a :
  moves a0 (f a a).2 → moves a0 ((get ≫= f) a).2.
Proof. done. Qed.
Ltac read_state := apply moves_get; cbv beta zeta.
Lemma moves_modify {B} (g : ActiveSession → ActiveSession) (f : unit → Handler B) a0 a :
  moves a0 (g a) → (∀ b, b = g a → moves a0 b → moves a0 (f tt b).2) → moves a0 ((modify g ≫= f) a).2.
Proof. intros Hg Hf. by apply Hf. Qed.
Lemma moves_then_ret {A B} (h : Handler A) (k : A → B) a0 a :
  moves a0 (h a).2 → moves a0 ((h ≫= λ x, mret (k x)) a).2.
Proof. intros Hh. unfold mbind, M_bind. by destruct (h a) as [[] ?]. Qed.

(** A change of fields the invariant is not about. *)
Lemma moves_same a0 a b :
  moves a0 a → session_ok b → as_table_id b = as_table_id a → as_level b = as_level a →
  membership b = membership a → next_hand_number b = next_hand_number a → moves a0 b.
Proof.
  intros [? [? ?] ? ?] ? E1 E2 E3 E4. split; [done|split; congruence|by rewrite E3|by rewrite E4].
Qed.

(** ** Intents *)

Definition join_of (table : TableId) (level : StakeLevel) (j : JoinIntent) : Prop :=
  ji_table_id j = table ∧ ji_level j = level ∧ ∃ t, join_verify_at j t = Ok tt.
Definition leave_of (table : TableId) (l : LeaveIntent) : Prop :=
  li_table_id l = table ∧ ∃ t, leave_verify_at l t = Ok tt.

Lemma remember_join_moves a0 a j :
  moves a0 a → join_of (as_table_id a) (as_level a) j → moves a0 (remember_join a j).
Proof.
  intros Ha Hj. apply (moves_same a0 a); try done. destruct (mv_ok _ _ Ha). split; try assumption.
  intros c k Hk. cbn in Hk. apply lookup_insert_Some in Hk as [[<- <-]|[_ ?]]; [by split|eauto].
Qed.
Lemma remember_leave_moves a0 a l :
  moves a0 a → leave_of (as_table_id a) l → moves a0 (remember_leave a l).
Proof.
  intros Ha Hl. apply (moves_same a0 a); try done. destruct (mv_ok _ _ Ha). split; try assumption.
  intros c k Hk. cbn in Hk. apply lookup_insert_Some in Hk as [[<- <-]|[_ ?]]; [by split|eauto].
Qed.

(** The intents inside a verified proposal of this table. *)
Lemma proposal_intents_ok table level s t :
  of_table table level s → proposal_verify_at (sp_proposal s) t = Ok tt →
  Forall (join_of table level) (map sc_intent (mp_seats (sp_proposal s)) ++ mp_waiting (sp_proposal s))
  ∧ Forall (leave_of table) (leave_intents (sp_proposal s)).
Proof.
  intros [Ht Hl] (_ & Hok & _)%proposal_verify_at_Ok. destruct Hok.
  rewrite Forall_app, Forall_map. split_and!.
  - eapply Forall_impl; [exact po_seats|]. intros x (? & ? & ?). split_and!; [congruence..|eauto].
  - eapply Forall_impl; [exact po_waiters|]. intros x (? & ? & ?). split_and!; [congruence..|eauto].
  - eapply Forall_impl; [exact po_leavers|]. intros x (? & ?). split; [congruence|eauto].
Qed.

(** Remembering a list of intents changes nothing else. *)
Lemma remember_joins_moves l a0 a :
  moves a0 a → Forall (join_of (as_table_id a) (as_level a)) l →
  moves a0 (fold_left remember_join l a) ∧ membership (fold_left remember_join l a) = membership a
  ∧ as_table_id (fold_left remember_join l a) = as_table_id a.
Proof.
  revert a. induction l as [|j l IH]; intros a Ha Hl; [done|]. inversion_clear Hl as [|?? Hj Hl'].
  cbn [fold_left]. apply (IH (remember_join a j)); [by apply remember_join_moves|done].
Qed.
Lemma remember_leaves_moves l a0 a :
  moves a0 a → Forall (leave_of (as_table_id a)) l →
  moves a0 (fold_left remember_leave l a) ∧ membership (fold_left remember_leave l a) = membership a.
Proof.
  revert a. induction l as [|j l IH]; intros a Ha Hl; [done|]. inversion_clear Hl as [|?? Hj Hl'].
  cbn [fold_left]. apply (IH (remember_leave a j)); [by apply remember_leave_moves|done].
Qed.
Lemma remember_embedded_moves {B} s t (f : unit → Handler B) a0 a :
  moves a0 a → of_table (as_table_id a) (as_level a) s → proposal_verify_at (sp_proposal s) t = Ok tt →
  (∀ b, moves a0 b → membership b = membership a → moves a0 (f tt b).2) →
  moves a0 ((remember_embedded_joins (sp_proposal s) ≫= f) a).2.
Proof.
  intros Ha Ht Hv Hf. destruct (proposal_intents_ok _ _ s t Ht Hv) as [Hj Hl].
  apply Hf; destruct (remember_joins_moves _ a0 a Ha Hj) as (Hm & Hsame & Htab).
  - apply remember_leaves_moves; [done|by rewrite Htab].
  - rewrite <-Hsame. apply (remember_leaves_moves _ a0); [done|by rewrite Htab].
Qed.

(** ** The membership round *)

(** An update of other fields, from a state the run reached. *)
Lemma moves_update a0 a b :
  moves a0 a → (session_ok a → session_ok b) → as_table_id b = as_table_id a → as_level b = as_level a →
  membership b = membership a → next_hand_number b = next_hand_number a → moves a0 b.
Proof. intros Ha Hok. by apply (moves_same a0 a), Hok, Ha. Qed.

Lemma accept_membership_moves p device certificate now a0 a :
  moves a0 a → of_table (as_table_id a) (as_level a) p → follows (membership a) p →
  (∃ t, proposal_verify_at (sp_proposal p) t = Ok tt) →
  moves a0 (accept_membership_proposal p device certificate now a).2.
Proof.
  intros Ha Ht Hf Hv. read_state. destruct (supersedes p (pending_membership a)); [|done].
  apply moves_modify.
  { apply (moves_update a0 a); try done. intros []. split; try assumption. intros q [= <-]. done. }
  intros b _ Hb. case_match; [|done]. apply moves_bind_lift; [done|]. intros acceptance _.
  by apply (moves_update a0 b).
Qed.

Lemma activate_membership_moves c now_monotonic a0 a t :
  moves a0 a → of_table (as_table_id a) (as_level a) (cm_proposal c) →
  follows (membership a) (cm_proposal c) → certified_membership_verify_at c t = Ok tt →
  moves a0 (activate_membership c now_monotonic a).2.
Proof.
  intros Ha Ht Hf Hv. apply moves_modify.
  { destruct Ha as [Hok [Htab Hlev] Hm Hn]. split; [|by split| |done].
    - destruct Hok. split; try done. intros m [= <-]. split; [done|]. by exists c, t.
    - eapply rtc_r; [exact Hm|]. by constructor. }
  intros b _ Hb. apply moves_modify.
  { cbv beta. case_match; [|done]. by apply (moves_update a0 b). }
  intros b' _ Hb'. read_state.
  destruct (bool_decide (is_Some (local_leave b')) && _); [|done]. by apply (moves_update a0 b').
Qed.

Lemma finalize_membership_safe now now_monotonic : safe (finalize_membership_if_ready now now_monotonic).
Proof.
  intros a Ha. apply moves_refl in Ha as Hm. read_state.
  destruct (pending_membership a) as [p|] eqn:Hp; [|done].
  destruct (f_pending _ _ _ _ _ _ _ _ _ _ _ _ _ _ Ha p Hp) as (Ht & Hf & _).
  case_match; [done|]. apply moves_modify.
  { apply (moves_update a a); [done| |done..]. intros []. by split. }
  intros b Eb Hb. apply moves_bind_lift; [exact Hb|]. intros c Hc.
  apply bind_Ok in Hc as ([] & Hv & [= <-]). apply moves_then_ret.
  apply (activate_membership_moves _ _ a b now Hb); [rewrite Eb; exact Ht|rewrite Eb; exact Hf|exact Hv].
Qed.

(** What the coordinator assembles is a valid proposal. *)
Lemma assemble_verified table level v previous seats waiting leaving now p :
  assemble table level v previous seats waiting leaving now = Ok p →
  mp_table_id p = table ∧ mp_level p = level ∧ mp_membership_version p = v
  ∧ previous_membership_hash p = previous.
Proof.
  unfold assemble. intros Hp. apply bind_Ok in Hp as ([] & _ & Hp).
  by apply bind_Ok in Hp as (bytes & _ & [= <-]).
Qed.
Lemma signed_issue_Ok p now device c s :
  signed_issue p now device c = Ok s → sp_proposal s = p ∧ proposal_verify_at p now = Ok tt.
Proof.
  unfold signed_issue. intros Hs. apply bind_Ok in Hs as ([] & Hv & Hs). split; [|done].
  apply bind_Ok in Hs as (? & _ & Hs). apply bind_Ok in Hs as (? & _ & Hs).
  apply bind_Ok in Hs as (? & _ & Hs). by apply bind_Ok in Hs as (? & _ & [= <-]).
Qed.

Lemma maybe_propose_membership_safe device certificate now :
  safe (maybe_propose_membership device certificate now).
Proof.
  intros a Ha. apply moves_refl in Ha as Hm. unfold maybe_propose_membership. read_state.
  destruct (pending_membership a) eqn:Hp; [done|]. destruct (membership a) as [m|] eqn:Hc; [|done].
  case_match; [done|]. apply moves_bind_lift; [done|]. intros [seats waiting] _.
  case_match; [|done]. do 2 (case_match; [done|]).
  apply moves_bind_lift; [done|]. intros p Has%map_err_Ok%assemble_verified.
  destruct Has as (Ht & Hl & Hv & Hprev).
  apply moves_bind_lift; [done|]. intros s Hs%map_err_Ok%signed_issue_Ok. destruct Hs as [<- Hs].
  apply accept_membership_moves; [done|by split| |by exists now].
  rewrite Hc. intros m' [= <-]. by split.
Qed.

(** ** The roster round *)

(** [accept_roster_proposal] leaves the state alone, or takes the roster in
    once it is verified; it passes over a roster only when it is not for the
    local player or the pending one is at least as good. *)
Lemma accept_roster_cases r device certificate now a :
  let out := accept_roster_proposal r device certificate now a in
  (out.2 = a ∧ (out.1 = Ok tt →
     endpoint_for_player (sr_proposal r) (ji_player (local_join a)) = None
     ∨ roster_supersedes r (pending_roster a) = false))
  ∨ (∃ t, signed_roster_verify_at r t = Ok tt)
    ∧ is_Some (endpoint_for_player (sr_proposal r) (ji_player (local_join a)))
    ∧ ∃ acc, out = (Ok tt, { a with pending_roster := Some r; roster_acceptances := {[ra_claim acc := acc]};
                             local_roster_acceptance := Some acc }).
Proof.
  unfold accept_roster_proposal, get, gets, lift, mbind, M_bind. cbv beta iota zeta.
  destruct (endpoint_for_player _ _) as [e|]; [|by left; split; [|left]].
  destruct (roster_supersedes r _); [|by left; split; [|right]]. cbn [negb].
  destruct (roster_acceptance_issue r (ep_claim e) now device certificate) as [acc| |] eqn:Hacc; cbn [map_err];
    [|left; split; [done|]; cbn; intros E; discriminate E..].
  right. split; [|split; [done|by exists acc]]. exists now. by apply bind_Ok in Hacc as ([] & ? & _).
Qed.

(** The roster a coordinator assembles is for the hand and membership it names. *)
Lemma from_membership_number hash m n receipt dealer r :
  from_membership hash m n receipt dealer = Ok r → hand_number r = n.
Proof.
  unfold from_membership. intros Hr. apply bind_Ok in Hr as ([] & _ & Hr).
  apply bind_Ok in Hr as ([] & _ & Hr). do 2 apply bind_Ok in Hr as (? & _ & Hr).
  by apply bind_Ok in Hr as ([] & _ & [= <-]).
Qed.
Lemma roster_assemble_ready r s now p : roster_assemble r s now = Ok p → ready_roster p = r.
Proof.
  unfold roster_assemble. intros Hp. do 3 apply bind_Ok in Hp as (? & _ & Hp).
  apply bind_Ok in Hp as (endpoints & _ & Hp). do 2 apply bind_Ok in Hp as (? & _ & Hp).
  by injection Hp as <-.
Qed.
Lemma signed_roster_issue_Ok p s now device c r :
  signed_roster_issue p s now device c = Ok r → sr_proposal r = p ∧ sr_membership r = s.
Proof.
  unfold signed_roster_issue. intros Hr. repeat apply bind_Ok in Hr as (? & _ & Hr). by injection Hr as <-.
Qed.

Lemma maybe_propose_roster_safe device certificate now now_monotonic :
  safe (maybe_propose_roster device certificate now now_monotonic).
Proof.
  intros a Ha. apply moves_refl in Ha as Hm. unfold maybe_propose_roster. read_state.
  case_match; [done|]. destruct (membership a) as [m|] eqn:Hc; [|done].
  case_match; [by apply (moves_update a a)|]. apply moves_modify; [by apply (moves_update a a)|].
  intros b Eb Hb. case_match; [done|]. apply moves_bind_lift; [done|]. intros coordinator _.
  case_match; [done|]. apply moves_bind_lift; [done|]. intros dm Hdm.
  apply moves_bind_lift; [done|]. intros ready Hready%map_err_Ok.
  apply moves_bind_lift; [done|]. intros p Hp%map_err_Ok.
  apply moves_bind_lift; [done|]. intros r Hr%map_err_Ok.
  assert (hand_number (ready_roster p) = next_hand_number a) as Hn.
  { by rewrite (roster_assemble_ready _ _ _ _ Hp), (from_membership_number _ _ _ _ _ _ Hready). }
  apply signed_roster_issue_Ok in Hr as [Hrp Hrm].
  destruct (accept_roster_cases r device certificate now b) as [[-> _]|([t Ht] & _ & acc & ->)]; [done|].
  apply (moves_update a b); try done. intros []. split; try assumption.
  intros r' [= <-]. rewrite Hrp, Hrm, Hn, Eb. split; [exact Hc|]. split; [done|]. by exists t.
Qed.

Lemma activate_roster_moves c a0 a t :
  moves a0 a → certified_roster_verify_at c t = Ok tt → moves a0 (activate_roster c a).2.
Proof.
  intros Ha Hv. unfold activate_roster. read_state. apply moves_bind_lift; [done|]. intros ready _.
  apply moves_modify; [|done]. apply (moves_update a0 a); try done.
  intros []. split; try assumption; [done|]. intros _. by exists c, t.
Qed.

Lemma finalize_roster_safe now : safe (finalize_roster_if_ready now).
Proof.
  intros a Ha. apply moves_refl in Ha as Hm. unfold finalize_roster_if_ready. read_state.
  destruct (pending_roster a) as [r|] eqn:Hp; [|done]. case_match; [done|]. apply moves_modify.
  { apply (moves_update a a); [done| |done..]. intros []. by split. }
  intros b _ Hb. apply moves_bind_lift; [exact Hb|]. intros c Hc.
  apply bind_Ok in Hc as ([] & Hv & [= <-]). by apply (activate_roster_moves _ a b now).
Qed.

(** ** Hand boundaries *)
Lemma finish_hand_boundary_safe evidence dealer now_monotonic :
  safe (finish_hand_boundary evidence dealer now_monotonic).
Proof.
  intros a Ha. apply moves_refl in Ha as Hm. unfold finish_hand_boundary. read_state.
  apply moves_bind_lift; [done|]. intros [] _. apply moves_modify.
  { apply (moves_update a a); [done| |done..]. intros []. by split. }
  intros b Eb Hb. apply moves_bind_lift; [exact Hb|]. intros next Hnext%ok_or_Ok.
  apply moves_modify.
  { destruct Hb as [Hok Ht Hmem Hn]. split; [|exact Ht|exact Hmem|].
    - destruct Hok. split; try assumption; [done..|]. rewrite Eb. done.
    - change (next_hand_number a <= next). revert Hnext. unfold u64_checked_add, checked_add_w.
      case_match; [|done]. intros [= <-]. lia. }
  intros b' _ Hb'. apply moves_bind_safe; [by intros ??; apply moves_refl|done|].
  intros s b'' Hb''. read_state.
  case_match; [|done]. case_match; by apply (moves_update a b'').
Qed.

(** ** Messages *)

Lemma validate_join_scope_Ok a j :
  validate_join_scope a j = Ok tt ↔ ji_table_id j = as_table_id a ∧ ji_level j = as_level a.
Proof. unfold validate_join_scope. by ok_iff. Qed.

Lemma validate_membership_scope_Ok a p :
  validate_membership_scope a p = Ok tt →
  of_table (as_table_id a) (as_level a) p ∧ follows (membership a) p.
Proof.
  unfold validate_membership_scope, of_table, follows. ok_iff. intros (Ht & Hl & Hm).
  split; [done|]. intros m Hc. rewrite Hc in Hm. revert Hm. ok_iff. by intros (? & ? & _).
Qed.

Lemma validate_roster_scope_Ok a r :
  validate_roster_scope a r = Ok tt →
  membership a = Some (sr_membership r)
  ∧ let n := hand_number (ready_roster (sr_proposal r)) in
    n = next_hand_number a ∨ hand_clock_known a = false ∧ next_hand_number a < n.
Proof.
  unfold validate_roster_scope. rewrite bind_ok_or. intros (m & Hm & Hv). revert Hv. cbv zeta. ok_iff.
  intros (<- & Hor). split; [done|]. apply orb_true_iff in Hor as [?%Z.eqb_eq|Hn]; [by left|right].
  bool_props. split; [done|lia].
Qed.

Lemma on_join_intent_safe source j now : safe (on_join_intent source j now).
Proof.
  intros a Ha. apply moves_refl in Ha as Hm. apply moves_bind_lift; [done|]. intros [] Hv%map_err_Ok.
  read_state. apply moves_bind_lift; [done|]. intros [] [Ht Hl]%validate_join_scope_Ok.
  apply moves_bind_lift; [done|]. intros [] _. apply moves_modify; [|done].
  apply remember_join_moves; [done|]. split_and!; eauto.
Qed.

Lemma on_leave_intent_safe source l now : safe (on_leave_intent source l now).
Proof.
  intros a Ha. apply moves_refl in Ha as Hm. apply moves_bind_lift; [done|]. intros [] Hv%map_err_Ok.
  read_state. apply moves_bind_lift; [done|]. intros []. ok_iff. intros Ht.
  apply moves_bind_lift; [done|]. intros [] _. apply moves_modify; [|done].
  apply remember_leave_moves; [done|]. split; eauto.
Qed.

Lemma on_membership_proposal_safe source p device certificate now :
  safe (on_membership_proposal source p device certificate now).
Proof.
  intros a Ha. apply moves_refl in Ha as Hm. unfold on_membership_proposal. read_state.
  case_match; [done|]. apply moves_bind_lift; [done|].
  intros [] Hv%map_err_Ok%signed_verify_at_Ok. destruct Hv as (_ & Hv & _).
  apply moves_bind_lift; [done|]. intros [] [Ht Hf]%validate_membership_scope_Ok.
  apply moves_bind_lift; [done|]. intros coordinator _. apply moves_bind_lift; [done|]. intros [] _.
  apply (remember_embedded_moves p now); [done..|]. intros b Hb Hmem. apply moves_then_ret.
  destruct (mv_table _ _ Hb) as [E1 E2].
  apply accept_membership_moves; [done|by rewrite E1, E2|by rewrite Hmem|eauto].
Qed.

Lemma on_membership_acceptance_safe source c now : safe (on_membership_acceptance source c now).
Proof.
  intros a Ha. apply moves_refl in Ha as Hm. unfold on_membership_acceptance. read_state.
  case_match; [done|]. apply moves_bind_lift; [done|]. intros p _.
  do 3 (apply moves_bind_lift; [done|]; intros ? _). apply moves_modify; [|done]. by apply (moves_update a a).
Qed.

Lemma on_certified_membership_safe source c now now_monotonic :
  safe (on_certified_membership source c now now_monotonic).
Proof.
  intros a Ha. apply moves_refl in Ha as Hm. unfold on_certified_membership. read_state.
  case_match; [done|]. apply moves_bind_lift; [done|]. intros [] Hc.
  apply moves_bind_lift; [done|]. intros [] [Ht Hf]%validate_membership_scope_Ok.
  apply moves_bind_lift; [done|]. intros [] _.
  pose proof Hc as ((_ & Hv & _)%signed_verify_at_Ok & _)%map_err_Ok%verify_membership_acceptances_Ok.
  apply (remember_embedded_moves _ now); [done..|]. intros b Hb Hmem. apply moves_then_ret.
  destruct (mv_table _ _ Hb) as [E1 E2].
  apply (activate_membership_moves _ _ a b now); [done|by rewrite E1, E2|by rewrite Hmem|done].
Qed.

Lemma on_certified_roster_safe source c now : safe (on_certified_roster source c now).
Proof.
  intros a Ha. apply moves_refl in Ha as Hm. unfold on_certified_roster. read_state.
  case_match; [done|]. apply moves_bind_lift; [done|]. intros [] Hc.
  apply moves_bind_lift; [done|]. intros [] _. destruct (endpoint_for_player _ _); [|done].
  apply moves_bind_lift; [done|]. intros [] _. apply moves_then_ret. by apply (activate_roster_moves _ _ _ now).
Qed.

Lemma on_roster_acceptance_safe source c now : safe (on_roster_acceptance source c now).
Proof.
  intros a Ha. apply moves_refl in Ha as Hm. unfold on_roster_acceptance. read_state.
  case_match; [done|]. apply moves_bind_lift; [done|]. intros r _.
  do 3 (apply moves_bind_lift; [done|]; intros ? _). apply moves_modify; [|done]. by apply (moves_update a a).
Qed.

Lemma adopt_clock_moves n receipt a0 a b :
  moves a0 a → as_table_id b = as_table_id a → as_level b = as_level a → membership b = membership a →
  next_hand_number b = next_hand_number a → hand_clock_known b = hand_clock_known a →
  (∀ next, next = (if negb (hand_clock_known a) && (next_hand_number a <? n) then n else next_hand_number a) →
     facts (as_table_id b) (as_level b) (joins b) (leaves b) (membership b) (membership_certificate b)
       (pending_membership b) (pending_roster b) (hand_active b) (active_roster b) (roster_certificate b) next
       (pending_room_deliveries b) (consensus_gossip_deliveries b)) →
  moves a0 (adopt_clock n receipt b).
Proof.
  intros [Hok [E1 E2] Hm Hle] F1 F2 F3 F4 F5 Hf. unfold adopt_clock. rewrite F4, F5.
  rewrite <-F3 in Hm. pose proof (conj (eq_trans F1 E1) (eq_trans F2 E2)) as Ht.
  destruct (negb (hand_clock_known a) && (next_hand_number a <? n)) eqn:E.
  - split; [exact (Hf _ eq_refl)|exact Ht|exact Hm|]. bool_props.
    change (next_hand_number a0 <= n). lia.
  - rewrite <-F4 in Hf, Hle. split; [exact (Hf _ eq_refl)|exact Ht|exact Hm|exact Hle].
Qed.

Lemma on_roster_proposal_safe source r device certificate now :
  safe (on_roster_proposal source r device certificate now).
Proof.
  intros a Ha. apply moves_refl in Ha as Hm. unfold on_roster_proposal. read_state.
  case_match; [done|]. apply moves_bind_lift; [done|]. intros [] Hv%map_err_Ok.
  apply moves_bind_lift; [done|]. intros [] Hs%validate_roster_scope_Ok. destruct Hs as [Hmem Hnum].
  apply moves_bind_lift; [done|]. intros coordinator _. apply moves_bind_lift; [done|]. intros [] _.
  set (n := hand_number (ready_roster (sr_proposal r))) in *.
  destruct (accept_roster_cases r device certificate now a) as [[Hsame Hwhy]|(_ & He & acc & Hout)].
  - unfold mbind at 1, M_bind at 1.
    destruct (accept_roster_proposal r device certificate now a) as [[[]| |] b]; cbn in Hsame; subst b; [|done..].
    apply moves_modify; [|done]. cbv beta.
    destruct (bool_decide (is_Some (endpoint_for_player _ _))) eqn:He; [|done]. apply bool_decide_eq_true in He.
    apply (adopt_clock_moves _ _ a a); try done. intros next ->.
    destruct (negb (hand_clock_known a) && (next_hand_number a <? n)) eqn:E; [|done]. exfalso. bool_props.
    destruct (Hwhy eq_refl) as [Hn|Hsup]; [by rewrite Hn in He; destruct He|].
    unfold roster_supersedes in Hsup. destruct (pending_roster a) as [c|] eqn:Hc; [|done].
    destruct (f_roster _ _ _ _ _ _ _ _ _ _ _ _ _ _ Ha c Hc) as (_ & Hk & _). bool_props. fold n in H3. lia.
  - unfold mbind at 1, M_bind at 1. rewrite Hout. apply moves_modify; [|done].
    cbv beta. rewrite bool_decide_true by done. apply (adopt_clock_moves _ _ a a _ Hm); try done.
    intros next Hnext. cbn. destruct Ha. split; try done.
    intros r' [= <-]. split; [done|]. fold n. split; [|by exists now].
    destruct Hnum as [Hn|[Hk Hlt]]; rewrite Hnext.
    + by destruct (negb _ && _).
    + by rewrite Hk, (proj2 (Z.ltb_lt _ _) Hlt).
Qed.

(** ** The methods *)

Lemma on_message_safe source m device certificate now now_monotonic :
  safe (on_message source m device certificate now now_monotonic).
Proof.
  destruct m as [[]|[]|c|c]; simpl.
  - apply on_join_intent_safe.
  - apply on_leave_intent_safe.
  - apply on_membership_proposal_safe.
  - apply on_membership_acceptance_safe.
  - apply on_roster_proposal_safe.
  - apply on_roster_acceptance_safe.
  - apply on_certified_membership_safe.
  - apply on_certified_roster_safe.
Qed.

Lemma settle_safe device certificate now now_monotonic events :
  safe (settle device certificate now now_monotonic events).
Proof.
  intros a Ha. apply moves_bind_safe; [apply finalize_membership_safe|by apply moves_refl|]. intros e1 b Hb.
  apply moves_bind_safe; [apply maybe_propose_roster_safe|done|]. intros [] b' Hb'.
  apply moves_then_ret, safe_moves; [apply finalize_roster_safe|done].
Qed.

Lemma handle_message_safe source payload device certificate now now_monotonic :
  safe (handle_message source payload device certificate now now_monotonic).
Proof.
  intros a Ha. apply moves_refl in Ha. unfold handle_message.
  do 3 (apply moves_bind_lift; [done|]; intros ? _).
  apply moves_bind_safe; [apply on_message_safe|done|]. intros [events|] b Hb; [|done].
  apply safe_moves; [apply settle_safe|done].
Qed.

Lemma force_local_leave_safe hand_stalled now_monotonic :
  safe (force_local_leave_if_due hand_stalled now_monotonic).
Proof.
  intros a Ha. apply moves_refl in Ha as Hm. unfold force_local_leave_if_due. read_state. case_match; [done|].
  apply moves_bind_lift; [done|]. intros started _. case_match; [|done].
  apply moves_modify; [|done]. by apply (moves_update a a).
Qed.

(** A method that only touches other fields. *)
Lemma modify_safe (g : ActiveSession → ActiveSession) :
  (∀ a, session_ok a → session_ok (g a)) → (∀ a, as_table_id (g a) = as_table_id a) →
  (∀ a, as_level (g a) = as_level a) → (∀ a, membership (g a) = membership a) →
  (∀ a, next_hand_number (g a) = next_hand_number a) → safe (modify g).
Proof. intros ????? a Ha. change (moves a (g a)). apply (moves_update a a); [by apply moves_refl|auto..]. Qed.

Lemma take_ready_table_safe : safe take_ready_table.
Proof.
  intros a Ha. apply moves_refl in Ha as Hm. unfold take_ready_table. read_state. case_match; [|done].
  apply moves_modify; [|done]. by apply (moves_update a a).
Qed.
Lemma take_leave_completed_safe : safe take_leave_completed.
Proof.
  intros a Ha. apply moves_refl in Ha as Hm. unfold take_leave_completed. read_state.
  apply moves_modify; [|done]. by apply (moves_update a a).
Qed.
Lemma peer_methods_safe :
  (∀ peers, safe (adopt_explicit_peers peers)) ∧ (∀ peer, safe (peer_connected peer))
  ∧ (∀ peer now_monotonic, safe (peer_disconnected peer now_monotonic)).
Proof.
  split_and!; intros; apply modify_safe; intros a; try done; by case_match.
Qed.
Lemma one_slot_delete slots i : one_slot_per_peer slots → one_slot_per_peer (delete i slots).
Proof. intros Hs k l t u [_ Hk]%lookup_delete_Some [_ Hl]%lookup_delete_Some. by apply Hs. Qed.
Lemma one_slot_insert slots i (t : DirectRoomTarget) :
  one_slot_per_peer slots → (∀ j u, slots !! j = Some u → u.1 ≠ t.1) →
  one_slot_per_peer (<[i := t]> slots).
Proof.
  intros Hs Hn k l u v [[<- <-]|[? Hk]]%lookup_insert_Some [[<- <-]|[? Hl]]%lookup_insert_Some E; [done|..].
  - by destruct (Hn l v Hl).
  - by destruct (Hn k u Hk).
  - by apply (Hs k l u v).
Qed.

Lemma delivery_methods_safe :
  (∀ request accepted, safe (handle_direct_response request accepted))
  ∧ (∀ request, safe (handle_direct_failure request)).
Proof.
  assert (∀ request, safe (modify (λ a : ActiveSession, { a with pending_room_deliveries ::= delete request })))
    as Hdel.
  { intros request. apply modify_safe; try done. intros a []. split; try assumption.
    by apply one_slot_delete. }
  split; intros; intros a Ha; apply moves_refl in Ha as Hm.
  - unfold handle_direct_response. read_state. case_match; [|done].
    apply moves_bind_safe; [apply Hdel|done|]. intros _ b Hb.
    apply moves_modify; [|done]. case_match; [by apply (moves_update a b)|done].
  - unfold handle_direct_failure. read_state. apply moves_then_ret, safe_moves; [apply Hdel|done].
Qed.
End invariant.
