(* ===== verification/SessionDelivery.v ===== *)
(** * SessionDelivery: what a table session sends (token-holdem-sidecar table_session_runtime.rs)

    The methods of [TableSessionRuntime] that use the swarm: keeping the room
    a full mesh, delivering consensus messages directly and over gossip, the
    tick that drives the session, entering and leaving a table.  The swarm and
    the random source are the class [World] of Swarm. *)

From S2P Require Import Prelude Machine Encoding Order Ids Table TablePool Membership.
From S2P Require Import HandRoster Identity Session NetworkAddress PoolProtocol TableSession.
From S2P Require Import RosterProtocol Swarm SessionState SessionRuntime.
From coqutil Require Import Datatypes.RecordSetters.
Import OCamlLikeNotations.

Definition SESSION_MESSAGE_REPUBLISH_INTERVAL : Z := seconds 1.
Definition MEMBERSHIP_CERTIFICATE_REPUBLISH_INTERVAL : Z := seconds 5.
Definition CONSENSUS_GOSSIP_REPUBLISH_INTERVAL : Z := seconds 1.
Definition MAX_CONSENSUS_GOSSIP_ATTEMPTS : Z := 6.
Definition NON_OWNER_DIAL_FALLBACK_DELAY : Z := seconds 2.
Definition MAX_GOSSIPED_CONSENSUS_MESSAGES : nat := 256.
Definition TABLE_SESSION_TOPIC_PREFIX : string := "/token-holdem/table-session/2/".

Section delivery.
Context `{Crypto, Libp2p, RoomCodec, !World}.
Implicit Types a : ActiveSession.

Definition NetHandler (A : Type) : Type := M (ActiveSession * world) RoomError A.
Definition on_session {A} (h : Handler A) : NetHandler A := λ s, let '(r, a) := h s.1 in (r, (a, s.2)).
Definition session : NetHandler ActiveSession := gets fst.
Definition update (f : ActiveSession → ActiveSession) : NetHandler unit := modify (λ s, (f s.1, s.2)).
Definition swarm {A} (f : world → A) : NetHandler A := gets (λ s, f s.2).
Definition swarm_mut (f : world → world) : NetHandler unit := modify (λ s, (s.1, f s.2)).
Definition swarm_call {A} (f : world → A * world) : NetHandler A :=
  λ s, let '(x, w) := f s.2 in (Ok x, (s.1, w)).

(** ** Encoding *)

(** [room_message_hash], [encode_room_message]. *)
Definition room_message_hash (m : RoomWireMessage) : result RoomError (list Z) :=
  bytes ← ok_or (encode_message m) EncodingFailed; Ok (blake3 bytes).
Definition encode_room_message (m : RoomWireMessage) : NetHandler (list Z) :=
  nonce ← swarm_call (fill_bytes 16);
  lift (ok_or (encode_envelope (mkEnvelope ROOM_WIRE_ENVELOPE_VERSION nonce m)) EncodingFailed).

(** ** Gossip *)

(** [republish_consensus_over_gossip]: the entry of the message, made at the
    back when there is none (the oldest of 256 goes) ... *)
Definition gossip_entry (hash : list Z) (l : list ConsensusGossipDelivery)
    : nat * list ConsensusGossipDelivery :=
  match position (λ d, bool_decide (gd_message_hash d = hash)) l with
  | Some i => (i, l)
  | None =>
      let l := if (MAX_GOSSIPED_CONSENSUS_MESSAGES <=? length l)%nat then tail l else l in
      let l := l ++ [mkGossip hash 0 None] in
      (pred (length l), l)
  end.
(** ... is tried again after a second, up to six times. *)
Definition gossip_due (d : ConsensusGossipDelivery) (now_monotonic : Z) : bool :=
  negb ((MAX_CONSENSUS_GOSSIP_ATTEMPTS <=? successful_attempts d)
        || match last_attempted_at d with
           | Some last => since now_monotonic last <? CONSENSUS_GOSSIP_REPUBLISH_INTERVAL
           | None => false
           end).
Definition republish_consensus_over_gossip (hash payload : list Z) (now_monotonic : Z)
    : NetHandler unit :=
  enabled ← swarm room_gossip_enabled;
  if negb enabled then mret tt else
  a ← session;
  let '(index, entries) := gossip_entry hash (consensus_gossip_deliveries a) in
  _ ← update (λ a, { a with consensus_gossip_deliveries := entries });
  d ← lift (expect (entries !! index));
  if negb (gossip_due d now_monotonic) then mret tt else
  let d := mkGossip (gd_message_hash d) (successful_attempts d) (Some now_monotonic) in
  _ ← update (λ a, { a with consensus_gossip_deliveries := <[index := d]> entries });
  sent ← swarm_call (gossip_publish (as_topic a) payload);
  if (sent : bool) then
    let d := mkGossip (gd_message_hash d) (u8_saturating_add (successful_attempts d) 1)
               (last_attempted_at d) in
    update (λ a, { a with consensus_gossip_deliveries := <[index := d]> entries })
  else mret tt.

(** [publish]. *)
Definition publish (topic : string) (m : RoomWireMessage) : NetHandler bool :=
  enabled ← swarm room_gossip_enabled;
  if negb enabled then mret false else
  payload ← encode_room_message m;
  swarm_call (gossip_publish topic payload).

(** ** Direct delivery *)

(** [consensus_delivery_complete]. *)
Definition consensus_delivery_complete (m : RoomWireMessage) (recipients : list DirectRoomRecipient)
    : NetHandler bool :=
  local ← swarm local_peer_id;
  hash ← lift (room_message_hash m);
  a ← session;
  mret (forallb (λ r, bool_decide (rec_peer_id r = local)
                      || bool_decide ((rec_peer_id r, hash) ∈ completed_room_deliveries a)) recipients).

(** One recipient of [deliver_consensus_message]: [true] when the peer has the
    message already, or is the local one. *)
Definition awaits_reply (a : ActiveSession) (peer : PeerId) : bool :=
  existsb (λ t : DirectRoomTarget, bool_decide (t.1 = peer))
    (map snd (map_to_list (pending_room_deliveries a))).
Definition deliver_to (hash payload : list Z) (r : DirectRoomRecipient) : NetHandler bool :=
  local ← swarm local_peer_id;
  if bool_decide (rec_peer_id r = local) then mret true else
  let target : DirectRoomTarget := (rec_peer_id r, hash) in
  a ← session;
  if bool_decide (target ∈ completed_room_deliveries a) then mret true else
  if awaits_reply a (rec_peer_id r) then mret false else
  _ ← for_each (λ address, swarm_mut (add_peer_address (rec_peer_id r) address)) (rec_addresses r);
  connected ← swarm (λ w, is_connected w (rec_peer_id r));
  if negb connected then mret false else
  request ← swarm_call (send_request (rec_peer_id r) (RqTableSession payload));
  _ ← update (λ a, { a with pending_room_deliveries ::= λ m, <[request := target]> m });
  mret false.
Fixpoint deliver_all (hash payload : list Z) (recipients : list DirectRoomRecipient) : NetHandler bool :=
  match recipients with
  | [] => mret true
  | r :: recipients =>
      has_it ← deliver_to hash payload r;
      rest ← deliver_all hash payload recipients;
      mret (has_it && rest)
  end.
(** [deliver_consensus_message]. *)
Definition deliver_consensus_message (m : RoomWireMessage) (recipients : list DirectRoomRecipient)
    (now_monotonic : Z) : NetHandler bool :=
  hash ← lift (room_message_hash m);
  payload ← encode_room_message m;
  _ ← republish_consensus_over_gossip hash payload now_monotonic;
  deliver_all hash payload recipients.

(** ** The mesh *)

(** [collect_explicit_recipients]; a [BTreeSet<Multiaddr>] is kept by the bytes
    it is ordered by. *)
Definition collect_recipient (local : PeerId) (desired : gmap PeerId (gmap (list Z) Multiaddr))
    (r : DirectRoomRecipient) : gmap PeerId (gmap (list Z) Multiaddr) :=
  if bool_decide (rec_peer_id r = local) then desired else
  <[rec_peer_id r :=
      fold_left (λ s address, <[multiaddr_to_bytes address := address]> s) (rec_addresses r)
        (default ∅ (desired !! rec_peer_id r))]> desired.
(** The peers the room wants to be connected to, and their addresses. *)
Definition admission_peer (a : ActiveSession) : option PeerId :=
  if local_admission_acknowledged a then None else rec_peer_id <$> admission_recipient a.
Definition desired_peers (a : ActiveSession) (local : PeerId)
    : result RoomError (gmap PeerId (gmap (list Z) Multiaddr)) :=
  let admission := match admission_recipient a with
                   | Some r => if bool_decide (admission_peer a = Some (rec_peer_id r)) then [r] else []
                   | None => []
                   end in
  proposals ← try_collect (λ s, membership_recipients (sp_proposal s))
                (option_list (membership a) ++ option_list (pending_membership a));
  Ok (fold_left (collect_recipient local) (admission ++ concat proposals) ∅).

(** [synchronize_explicit_session_peers]: drop the stale peers ... *)
Definition drop_peer (peer : PeerId) : NetHandler unit :=
  _ ← swarm_mut (remove_explicit_peer peer);
  _ ← swarm_mut (release_peer_connection peer);
  update (λ a, { a with explicit_peers ::= λ s, s ∖ {[peer]};
                 disconnected_explicit_peers ::= delete peer }).
(** ... and keep the desired ones, dialling at most one of them. *)
Definition keep_peer (local : PeerId) (admission : option PeerId) (now_monotonic : Z)
    (dial_started : bool) (entry : PeerId * gmap (list Z) Multiaddr) : NetHandler bool :=
  let '(peer, addresses) := entry in
  match preferred_dial_address (btree_values addresses) with
  | None => mret dial_started
  | Some address =>
      _ ← swarm_mut (add_peer_address peer address);
      _ ← swarm_mut (add_explicit_peer peer);
      _ ← swarm_mut (retain_peer_connection peer);
      _ ← update (λ a, { a with explicit_peers ::= λ s, {[peer]} ∪ s });
      a ← session;
      let owns_dial := bool_decide (admission = Some peer) || should_initiate_peer_dial local peer in
      let fallback_due := match disconnected_explicit_peers a !! peer with
                          | Some at_ => NON_OWNER_DIAL_FALLBACK_DELAY <=? since now_monotonic at_
                          | None => false
                          end in
      connected ← swarm (λ w, is_connected w peer);
      if (owns_dial || fallback_due) && negb dial_started && negb connected then
        dialled ← swarm_call (dial peer [address]);
        mret (dial_started || dialled)
      else mret dial_started
  end.
Fixpoint fold_peers (f : bool → PeerId * gmap (list Z) Multiaddr → NetHandler bool) (b : bool)
    (l : list (PeerId * gmap (list Z) Multiaddr)) : NetHandler bool :=
  match l with
  | [] => mret b
  | x :: l => b ← f b x; fold_peers f b l
  end.
Definition synchronize_explicit_session_peers (now_monotonic : Z) : NetHandler unit :=
  a ← session;
  if negb (owns_explicit_peers a) then mret tt else
  local ← swarm local_peer_id;
  desired ← lift (desired_peers a local);
  let stale := filter (λ peer, desired !! peer = None) (btree_iter (explicit_peers a)) in
  _ ← for_each drop_peer stale;
  _ ← fold_peers (keep_peer local (admission_peer a) now_monotonic) false (btree_entries desired);
  mret tt.

(** ** Who coordinates *)

(** [local_is_membership_coordinator], [local_is_roster_coordinator]. *)
Definition local_is_membership_coordinator (a : ActiveSession) (p : MembershipProposal)
    : result RoomError bool :=
  coordinator ← ok_or (coordinator_claim_id p) CoordinatorClaimMissing;
  Ok (match seat_by_player p (ji_player (local_join a)) with
      | Some seat => bool_decide (seat_claim seat = coordinator)
      | None => false
      end).
Definition local_is_roster_coordinator (a : ActiveSession) (r : SignedHandRosterProposal) : bool :=
  bool_decide (ep_claim <$> endpoint_for_player (sr_proposal r) (ji_player (local_join a))
               = Some (sr_coordinator r)).
(** [membership_coordinator_recipient], [roster_coordinator_recipient]. *)
Definition membership_coordinator_recipient (p : MembershipProposal)
    : result RoomError DirectRoomRecipient :=
  seat ← ok_or (coordinator_claim_id p ≫= seat_by_claim_id p) CoordinatorClaimMissing;
  let t := ji_ticket (sc_intent seat) in
  direct_room_recipient (tk_peer_id t) (tk_addresses t).
Definition roster_coordinator_recipient (r : SignedHandRosterProposal)
    : result RoomError DirectRoomRecipient :=
  endpoint ← ok_or (endpoint_by_claim (sr_proposal r) (sr_coordinator r)) RosterClaimUnknown;
  direct_room_recipient (ep_peer_id endpoint) (ep_session_addresses endpoint).

(** [membership_proposal_for_local_acceptance], [roster_proposal_for_local_acceptance]. *)
Definition membership_proposal_for_local_acceptance (a : ActiveSession)
    : option SignedMembershipProposal :=
  acceptance ← local_membership_acceptance a;
  find_first (λ p, bool_decide (proposal_hash (sp_proposal p) = ac_proposal_hash acceptance))
    (option_list (pending_membership a) ++ option_list (cm_proposal <$> membership_certificate a)).
Definition roster_proposal_for_local_acceptance (a : ActiveSession) : option SignedHandRosterProposal :=
  acceptance ← local_roster_acceptance a;
  find_first (λ r, bool_decide (hp_hash (sr_proposal r) = ra_proposal_hash acceptance))
    (option_list (pending_roster a) ++ option_list (cr_proposal <$> roster_certificate a)).

(** ** Publishing *)

Definition due (last : option Z) (interval now_monotonic : Z) : bool :=
  match last with Some last => interval <=? since now_monotonic last | None => true end.
Definition send (m : RoomWireMessage) (recipients : list DirectRoomRecipient) (now_monotonic : Z)
    : NetHandler unit :=
  _ ← deliver_consensus_message m recipients now_monotonic; mret tt.

(** [publish_membership_certificate_if_needed]. *)
Definition publish_membership_certificate_if_needed (now_monotonic : Z) : NetHandler bool :=
  a ← session;
  match membership_certificate a with
  | None => mret true
  | Some c =>
      let p := sp_proposal (cm_proposal c) in
      coordinates ← lift (local_is_membership_coordinator a p);
      let m := WireCertifiedMembership c in
      recipients ← lift (if (coordinates : bool) then membership_recipients p else Ok []);
      direct ← consensus_delivery_complete m recipients;
      let periodic := due (last_membership_certificate_published_at a)
                        MEMBERSHIP_CERTIFICATE_REPUBLISH_INTERVAL now_monotonic in
      if direct && negb periodic then mret true else
      complete ← deliver_consensus_message m recipients now_monotonic;
      _ ← update (λ a, if (complete : bool)
                       then { a with last_membership_certificate_published_at := Some now_monotonic } else a);
      mret complete
  end.

(** [publish_roster_certificate_if_needed]. *)
Definition publish_roster_certificate_if_needed (now_monotonic : Z) : NetHandler unit :=
  a ← session;
  match roster_certificate a with
  | None => mret tt
  | Some c =>
      let r := cr_proposal c in
      let m := WireCertifiedRoster c in
      recipients ← lift (if local_is_roster_coordinator a r then roster_recipients (sr_proposal r)
                         else Ok []);
      direct ← consensus_delivery_complete m recipients;
      let periodic := due (last_roster_certificate_published_at a)
                        MEMBERSHIP_CERTIFICATE_REPUBLISH_INTERVAL now_monotonic in
      if direct && negb periodic then mret tt else
      complete ← deliver_consensus_message m recipients now_monotonic;
      update (λ a, if (complete : bool)
                   then { a with last_roster_certificate_published_at := Some now_monotonic } else a)
  end.

(** [publish_active_messages], message by message. *)
Definition publish_local_join (now_monotonic : Z) : NetHandler unit :=
  a ← session;
  let m := WireSession (MsgJoinIntent (local_join a)) in
  let recipients := if local_admission_acknowledged a then []
                    else option_list (admission_recipient a) in
  if bool_decide (recipients = []) then _ ← publish (as_topic a) m; mret tt
  else send m recipients now_monotonic.
Definition leave_recipients (a : ActiveSession) : result RoomError (list DirectRoomRecipient) :=
  match membership a with Some m => membership_recipients (sp_proposal m) | None => Ok [] end.
Definition publish_local_leave (now_monotonic : Z) : NetHandler unit :=
  a ← session;
  match local_leave a with
  | None => mret tt
  | Some l =>
      recipients ← lift (leave_recipients a);
      send (WireSession (MsgLeaveIntent l)) recipients now_monotonic
  end.
Definition publish_pending_membership (now_monotonic : Z) : NetHandler unit :=
  a ← session;
  match pending_membership a with
  | None => mret tt
  | Some p =>
      coordinates ← lift (local_is_membership_coordinator a (sp_proposal p));
      if (coordinates : bool) then
        recipients ← lift (membership_recipients (sp_proposal p));
        send (WireSession (MsgMembershipProposal p)) recipients now_monotonic
      else mret tt
  end.
Definition publish_membership_acceptance (now_monotonic : Z) : NetHandler unit :=
  a ← session;
  match local_membership_acceptance a, membership_proposal_for_local_acceptance a with
  | Some c, Some p =>
      coordinates ← lift (local_is_membership_coordinator a (sp_proposal p));
      recipients ← lift (if (coordinates : bool) then Ok []
                         else r ← membership_coordinator_recipient (sp_proposal p); Ok [r]);
      send (WireSession (MsgMembershipAcceptance c)) recipients now_monotonic
  | _, _ => mret tt
  end.
Definition publish_pending_roster (now_monotonic : Z) : NetHandler unit :=
  a ← session;
  match pending_roster a with
  | None => mret tt
  | Some r =>
      if local_is_roster_coordinator a r then
        recipients ← lift (roster_recipients (sr_proposal r));
        send (WireRoster (RosterProposalMsg r)) recipients now_monotonic
      else mret tt
  end.
Definition publish_roster_acceptance (now_monotonic : Z) : NetHandler unit :=
  a ← session;
  match local_roster_acceptance a, roster_proposal_for_local_acceptance a with
  | Some c, Some r =>
      recipients ← lift (if local_is_roster_coordinator a r then Ok []
                         else x ← roster_coordinator_recipient r; Ok [x]);
      send (WireRoster (RosterAcceptanceMsg c)) recipients now_monotonic
  | _, _ => mret tt
  end.
Definition publish_active_messages (now_monotonic : Z) : NetHandler unit :=
  _ ← publish_roster_certificate_if_needed now_monotonic;
  _ ← publish_membership_certificate_if_needed now_monotonic;
  a ← session;
  if due (last_session_messages_published_at a) SESSION_MESSAGE_REPUBLISH_INTERVAL now_monotonic then
    _ ← publish_local_join now_monotonic;
    _ ← publish_local_leave now_monotonic;
    _ ← publish_pending_membership now_monotonic;
    _ ← publish_membership_acceptance now_monotonic;
    _ ← publish_pending_roster now_monotonic;
    _ ← publish_roster_acceptance now_monotonic;
    update (λ a, { a with last_session_messages_published_at := Some now_monotonic })
  else mret tt.

(** ** Signing the local documents *)

(** [issue_join_intent], [issue_local_session_ticket]. *)
Definition issue_join_intent (table : TableId) (ticket : PoolTicket) (device : list Z)
    (certificate : DeviceCertificate) (now : Z) : M world RoomError JoinIntent :=
  desired ← lift (ok_or (u64_checked_add now JOIN_INTENT_LIFETIME_MS) DeadlineOverflow);
  nonce ← (λ w, let '(n, w) := fill_bytes 16 w in (Ok n, w));
  lift (map_err RoomSession
    (join_issue table ticket now (Z.min desired (tk_expires_at ticket)) nonce device certificate)).
Definition issue_local_session_ticket (level : StakeLevel) (buy_in : Z) (addresses : list Multiaddr)
    (device : list Z) (certificate : DeviceCertificate) (now : Z) : M world RoomError PoolTicket :=
  expires ← lift (ok_or (u64_checked_add now SESSION_TICKET_LIFETIME_MS) DeadlineOverflow);
  nonce ← (λ w, let '(n, w) := fill_bytes 16 w in (Ok n, w));
  local ← gets local_peer_id;
  lift (map_err RoomTicket
    (ticket_issue (peer_id_to_bytes local) (map multiaddr_to_bytes addresses) level buy_in now expires
       nonce device certificate)).
Definition on_world {A} (h : M world RoomError A) : NetHandler A :=
  λ s, let '(r, w) := h s.2 in (r, (s.1, w)).

(** ** The tick *)

Definition renew_join (addresses : list Multiaddr) (device : list Z) (certificate : DeviceCertificate)
    (now : Z) : NetHandler unit :=
  a ← session;
  if (u64_saturating_sub (ji_expires_at (local_join a)) now <=? JOIN_RENEWAL_MARGIN_MS)
     && bool_decide (local_leave a = None) then
    ticket ← on_world (issue_local_session_ticket (as_level a)
                         (requested_buy_in (ji_ticket (local_join a))) addresses device certificate now);
    renewed ← on_world (issue_join_intent (as_table_id a) ticket device certificate now);
    update (λ a, { a with local_join := renewed; joins ::= λ m, <[ji_claim_id renewed := renewed]> m })
  else mret tt.
Definition forget_expired (now : Z) : NetHandler unit :=
  update (λ a, { a with
    joins ::= filter (λ e : JoinClaimId * JoinIntent, is_ok (join_verify_at e.2 now) = true);
    leaves ::= filter (λ e : PlayerId * LeaveIntent, is_ok (leave_verify_at e.2 now) = true) }).
Definition abandon_hand (now_monotonic : Z) : NetHandler (list Event) :=
  a ← session;
  match signed_disconnected_leaver a now_monotonic with
  | None => mret []
  | Some ab =>
      events ← on_session (finish_hand_boundary (ab_evidence_hash ab) (ab_dealer_seat ab) now_monotonic);
      mret (HandAbortedForLeave (as_table_id a) (ab_hand_number ab) (ab_player ab) (ab_evidence_hash ab)
            :: events)
  end.
(** [tick]. *)
Definition tick (addresses : list Multiaddr) (device : list Z) (certificate : DeviceCertificate)
    (now now_monotonic : Z) : NetHandler (list Event) :=
  _ ← renew_join addresses device certificate now;
  _ ← forget_expired now;
  e0 ← abandon_hand now_monotonic;
  _ ← on_session (maybe_propose_membership device certificate now);
  e1 ← on_session (finalize_membership_if_ready now now_monotonic);
  _ ← on_session (maybe_propose_roster device certificate now now_monotonic);
  e2 ← on_session (finalize_roster_if_ready now);
  _ ← synchronize_explicit_session_peers now_monotonic;
  _ ← publish_active_messages now_monotonic;
  mret (e0 ++ e1 ++ e2).

(** ** Leaving *)

(** [request_leave]. *)
Definition sign_leave (device : list Z) (certificate : DeviceCertificate) (now now_monotonic : Z)
    : NetHandler LeaveIntent :=
  a ← session;
  nonce ← swarm_call (fill_bytes 16);
  expires ← lift (ok_or (u64_checked_add now JOIN_INTENT_LIFETIME_MS) DeadlineOverflow);
  _ ← lift (ok_or (u64_checked_add now (as_millis ABSOLUTE_SAFE_LEAVE_TIMEOUT)) DeadlineOverflow);
  l ← lift (map_err RoomSession
        (leave_issue (as_table_id a) (current_hand a)
           (match membership a with Some m => mp_membership_version (sp_proposal m) | None => 1 end)
           now expires nonce device certificate));
  _ ← update (λ a, { a with leaves ::= λ m, <[li_player l := l]> m; local_leave := Some l;
                     local_leave_started_at := Some now_monotonic;
                     local_leave_membership_started_at :=
                       if hand_active a then None else Some now_monotonic;
                     ready_table := None });
  mret l.
Definition request_leave (device : list Z) (certificate : DeviceCertificate) (now now_monotonic : Z)
    : NetHandler (list Event) :=
  a ← session;
  if bool_decide (is_Some (local_leave a)) then mret [] else
  l ← sign_leave device certificate now now_monotonic;
  recipients ← lift (leave_recipients a);
  _ ← send (WireSession (MsgLeaveIntent l)) recipients now_monotonic;
  _ ← update (λ a, { a with last_session_messages_published_at := Some now_monotonic });
  _ ← update (λ a, if hand_active a then a else
        let a := { a with pending_membership := None; membership_acceptances := ∅;
                   local_membership_acceptance := None } in
        if local_is_only_seat a then { a with leave_completed := true } else a);
  a' ← session;
  mret ([SafeLeaveRequested (as_table_id a) (current_hand a) (now + as_millis ABSOLUTE_SAFE_LEAVE_TIMEOUT);
         snapshot a' now_monotonic]
        ++ if leave_completed a' then [SafeLeaveCompleted (as_table_id a)] else []).

(** ** Entering and closing *)

(** [session_topic], [subscribe]. *)
Definition session_topic (table : TableId) : string :=
  String.append TABLE_SESSION_TOPIC_PREFIX (hex_encode (as_bytes table)).
Definition subscribe (topic : string) : M world RoomError unit :=
  λ w, let '(ok, w) := gossip_subscribe topic w in ((if (ok : bool) then Ok tt else Err SubscribeFailed), w).

(** [create]. *)
Definition create (table : TableId) (creator : PlayerId) (ticket : PoolTicket) (device : list Z)
    (certificate : DeviceCertificate) (now now_monotonic : Z)
    : M world RoomError (ActiveSession * list Event) :=
  join ← issue_join_intent table ticket device certificate now;
  let topic := session_topic table in
  _ ← subscribe topic;
  seat ← lift (map_err (λ _, LayoutSeatMissing) (PhysicalSeat_new 1));
  p ← lift (map_err RoomSession
        (assemble table (ji_level join) 1 None [mkSeatClaim seat join] [] [] now));
  signed ← lift (map_err RoomSession (signed_issue p now device certificate));
  acceptance ← lift (map_err RoomSession
                 (acceptance_issue signed (ji_claim_id join) now device certificate));
  c ← lift (certified_membership_assemble signed [acceptance] now);
  let a := ActiveSession_new table creator join topic None in
  let a := { a with hand_clock_known := true; membership := Some signed;
             membership_certificate := Some c } in
  mret (a, [RoomEntered table (level_id (as_level a)); snapshot a now_monotonic]).

(** [join]: the swarm calls of a failed join stay. *)
Definition join (table : TableId) (creator : PlayerId) (admission_peer_id : list Z)
    (admission_addresses : list (list Z)) (ticket : PoolTicket) (device : list Z)
    (certificate : DeviceCertificate) (now now_monotonic : Z)
    : M world RoomError (ActiveSession * list Event) :=
  admission ← lift (direct_room_recipient admission_peer_id admission_addresses);
  local ← gets local_peer_id;
  _ ← lift (reject_if (bool_decide (rec_peer_id admission = local)) AdmissionIsLocal);
  join ← issue_join_intent table ticket device certificate now;
  let topic := session_topic table in
  _ ← subscribe topic;
  let a := ActiveSession_new table creator join topic (Some admission) in
  let a := { a with owns_explicit_peers := true } in
  a ← (λ w, let '(r, (a, w)) := synchronize_explicit_session_peers now_monotonic (a, w) in
            (_ ← r; Ok a, w));
  mret (a, [RoomEntered table (level_id (as_level a)); snapshot a now_monotonic]).

(** [close] and [migrate_to_pool] of an active session. *)
Definition close (a : ActiveSession) (w : world) : Event * world :=
  let w := if owns_explicit_peers a
           then fold_left (λ w peer, release_peer_connection peer (remove_explicit_peer peer w))
                  (btree_iter (explicit_peers a)) w
           else w in
  (RoomClosed (as_table_id a), gossip_unsubscribe (as_topic a) w).
Definition migrate_to_pool (a : ActiveSession) (w : world) : (Event * list PeerId) * world :=
  ((RoomClosed (as_table_id a), if owns_explicit_peers a then btree_iter (explicit_peers a) else []),
   gossip_unsubscribe (as_topic a) w).

(** [advertisement]: only the coordinator advertises the table. *)
Definition count_or (n : nat) (d : Z) : Z := if Z.of_nat n <=? u8_max then Z.of_nat n else d.
Definition advertisement (a : ActiveSession) : option LocalTableAdvertisement :=
  m ← membership a;
  let p := sp_proposal m in
  if negb (bool_decide (coordinator_claim_id p = Some (ji_claim_id (local_join a)))) then None else
  Some (mkLocalAdvertisement (as_table_id a) (count_or (length (mp_seats p)) TABLE_CAPACITY)
          (count_or (length (mp_waiting p)) WAITING_CAPACITY)
          (if hand_active a then HandInProgress else Waiting) (mp_membership_version p) (proposal_hash p)
          (as_creator a) (can_converge_singleton a)).
End delivery.
