(* ===== verification/SessionSafety.v ===== *)
(** * SessionSafety: every run of a table session (table_session_runtime.rs)

    The invariant of SessionInv through the methods that use the swarm, and
    the runs of a session as a step relation over all methods of
    [TableSessionRuntime]: what holds in every state a player's sidecar can
    reach, whatever the network sends. *)

From coqutil Require Import Datatypes.RecordSetters.
From S2P Require Import Prelude Machine Encoding Order Ids Table TablePool Membership.
From S2P Require Import HandRoster Identity Session NetworkAddress PoolProtocol TableSession.
From S2P Require Import RosterProtocol Swarm SessionState SessionRuntime SessionInv SessionDelivery.
Import OCamlLikeNotations.

Section net.
Context `{Crypto, Libp2p, RoomCodec, !World}.
Implicit Types (a : ActiveSession) (s : ActiveSession * world).

(** A method with the swarm that keeps the invariant. *)
Definition net_safe {A} (h : NetHandler A) : Prop := ∀ s, session_ok s.1 → moves s.1 (h s).2.1.

Lemma net_ret {A} (x : A) : net_safe (mret x).
Proof. intros s Hs. by apply moves_refl. Qed.
Lemma net_lift {A} (r : result RoomError A) : net_safe (lift r).
Proof. intros s Hs. by apply moves_refl. Qed.
Lemma net_bind {A B} (h : NetHandler A) (f : A → NetHandler B) :
  net_safe h → (∀ x, net_safe (f x)) → net_safe (h ≫= f).
Proof.
  intros Hh Hf s Hs. apply Hh in Hs as Hm. unfold mbind, M_bind.
  destruct (h s) as [[x| |] s']; simpl in *; [|done..].
  eapply moves_trans; [exact Hm|]. apply Hf, Hm.
Qed.
Lemma net_bind_lift {A B} (r : result RoomError A) (f : A → NetHandler B) :
  (∀ x, r = Ok x → net_safe (f x)) → net_safe (lift r ≫= f).
Proof.
  intros Hf s Hs. unfold mbind, M_bind, lift. destruct r; simpl; [by apply Hf|by apply moves_refl..].
Qed.
(** Reading the state: the rest may use what holds of it now. *)
Lemma net_session {B} (f : ActiveSession → NetHandler B) :
  (∀ s, session_ok s.1 → moves s.1 (f s.1 s).2.1) → net_safe (session ≫= f).
Proof. intros Hf s Hs. by apply Hf. Qed.
Lemma net_read {B} (f : ActiveSession → NetHandler B) : (∀ a, net_safe (f a)) → net_safe (session ≫= f).
Proof. intros Hf s Hs. by apply Hf. Qed.
Lemma net_swarm {A} (f : world → A) : net_safe (swarm f).
Proof. intros s Hs. by apply moves_refl. Qed.
Lemma net_swarm_mut f : net_safe (swarm_mut f).
Proof. intros s Hs. by apply moves_refl. Qed.
Lemma net_swarm_call {A} (f : world → A * world) : net_safe (swarm_call f).
Proof. intros s Hs. unfold swarm_call. destruct (f s.2). by apply moves_refl. Qed.
Lemma net_on_world {A} (h : M world RoomError A) : net_safe (on_world h).
Proof. intros s Hs. unfold on_world. destruct (h s.2). by apply moves_refl. Qed.
Lemma net_on_session {A} (h : Handler A) : safe h → net_safe (on_session h).
Proof. intros Hh s Hs. unfold on_session. apply Hh in Hs as Hm. by destruct (h s.1). Qed.
Lemma net_update (g : ActiveSession → ActiveSession) : safe (modify g) → net_safe (update g).
Proof. intros Hg s Hs. exact (Hg _ Hs). Qed.
Lemma net_for_each {A} (f : A → NetHandler unit) l : (∀ x, net_safe (f x)) → net_safe (for_each f l).
Proof. intros Hf. induction l as [|x l IH]; simpl; [apply net_ret|]. by apply net_bind. Qed.
End net.

(** The rules that need no thought. *)
Ltac net_auto :=
  repeat first
    [ apply net_ret | apply net_lift | apply net_swarm | apply net_swarm_mut | apply net_swarm_call
    | apply net_on_world | apply net_for_each; intros ?
    | apply net_read; intros ? | apply net_bind; [|intros ?]
    | apply net_update, modify_safe; intros ?; try done; by case_match
    | match goal with |- net_safe (match ?x with _ => _ end) => destruct x end ].

Section publishing.
Context `{Crypto, Libp2p, RoomCodec, !World}.
Implicit Types (a : ActiveSession) (s : ActiveSession * world).

Lemma encode_room_message_safe m : net_safe (encode_room_message m).
Proof. unfold encode_room_message. net_auto. Qed.
Lemma consensus_delivery_complete_safe m recipients : net_safe (consensus_delivery_complete m recipients).
Proof. unfold consensus_delivery_complete. net_auto. Qed.
Lemma publish_safe topic m : net_safe (publish topic m).
Proof. unfold publish. net_auto. Qed.
Lemma drop_peer_safe peer : net_safe (drop_peer peer).
Proof. unfold drop_peer. net_auto. Qed.
Lemma keep_peer_safe local admission now_monotonic started entry :
  net_safe (keep_peer local admission now_monotonic started entry).
Proof. destruct entry. unfold keep_peer. net_auto. Qed.
Lemma synchronize_safe now_monotonic : net_safe (synchronize_explicit_session_peers now_monotonic).
Proof.
  unfold synchronize_explicit_session_peers. net_auto.
  generalize false. induction (btree_entries _) as [|e l IH]; intros b; simpl; [apply net_ret|].
  apply net_bind; [apply keep_peer_safe|done].
Qed.

(** ** Gossip and direct delivery keep their bounds *)

(** The entry exists, is the message's, and the list keeps its bounds. *)
Lemma gossip_entry_ok hash l i k :
  gossip_ok l → gossip_entry hash l = (i, k) →
  gossip_ok k ∧ ∃ d, k !! i = Some d ∧ gd_message_hash d = hash.
Proof.
  intros (Hlen & Hnd & Hall) He. unfold gossip_entry in He.
  destruct (position _ l) as [j|] eqn:Hp; [injection He as <- <-|].
  { apply position_Some in Hp as (d & Hd & E%bool_decide_eq_true). split; [done|eauto]. }
  apply position_None in Hp. cbv zeta in He.
  set (t := if (MAX_GOSSIPED_CONSENSUS_MESSAGES <=? length l)%nat then tail l else l) in He.
  injection He as <- <-.
  assert ((length t <= 255)%nat ∧ NoDup (map gd_message_hash t)
    ∧ Forall (λ d, 0 <= successful_attempts d <= 6) t
    ∧ Forall (λ d, bool_decide (gd_message_hash d = hash) = false) t) as (Ht & Htd & Hta & Htn).
  { unfold t, MAX_GOSSIPED_CONSENSUS_MESSAGES. case_match; bool_props; [|split_and!; [lia|done..]].
    destruct l as [|d l]; simpl in *; [split_and!; [lia|done..]|].
    apply NoDup_cons in Hnd as [_ ?]. apply Forall_cons in Hall as [_ ?], Hp as [_ ?]. split_and!; [lia|done..]. }
  split; [split_and!|].
  - rewrite length_app. simpl. lia.
  - rewrite map_app. apply NoDup_app. split_and!; [done| |apply NoDup_singleton].
    intros h (d & -> & Hd)%list_elem_of_fmap Hh%list_elem_of_singleton. simpl in Hh.
    rewrite Forall_forall in Htn. by apply Htn, bool_decide_eq_false in Hd.
  - apply Forall_app. split; [done|]. repeat constructor; simpl; lia.
  - exists (mkGossip hash 0 None). split; [|done]. rewrite length_app. simpl.
    replace (pred (length t + 1)) with (length t) by lia. by apply list_lookup_middle.
Qed.

(** Marking an attempt keeps them too. *)
Lemma gossip_mark_ok l i d n at_ :
  gossip_ok l → l !! i = Some d → 0 <= n <= 6 →
  gossip_ok (<[i := mkGossip (gd_message_hash d) n at_]> l).
Proof.
  intros (Hlen & Hnd & Hall) Hi Hn. split_and!.
  - by rewrite length_insert.
  - assert (map gd_message_hash (<[i := mkGossip (gd_message_hash d) n at_]> l) = map gd_message_hash l) as ->;
      [|done]. change (map ?f) with (fmap (M:=list) f). rewrite list_fmap_insert. apply list_insert_id.
    simpl. by rewrite list_lookup_fmap, Hi.
  - apply Forall_insert; [done|]. simpl. lia.
Qed.

(** Replacing the list of gossiped messages by another within the bounds. *)
Lemma set_gossip_moves a0 a gossip :
  moves a0 a → gossip_ok gossip → moves a0 { a with consensus_gossip_deliveries := gossip }.
Proof.
  intros Ha Hg. apply (moves_update a0 a); try done. intros []. by split.
Qed.

Lemma republish_safe hash payload now_monotonic :
  net_safe (republish_consensus_over_gossip hash payload now_monotonic).
Proof.
  apply net_bind; [apply net_swarm|]. intros enabled. destruct enabled; simpl; [|apply net_ret].
  apply net_session. intros [a w] Ha. cbn [fst] in *. apply moves_refl in Ha as Hm.
  destruct (gossip_entry hash _) as [i k] eqn:Hk.
  destruct (gossip_entry_ok _ _ _ _ (f_gossip _ _ _ _ _ _ _ _ _ _ _ _ _ _ Ha) Hk) as (Hok & d & Hd & _).
  unfold update, modify, mbind, M_bind, lift. cbn [fst snd]. rewrite Hd. cbn [expect].
  destruct (gossip_due d now_monotonic) eqn:Hdue; cbn [negb]; [|by apply set_gossip_moves].
  unfold gossip_due, MAX_CONSENSUS_GOSSIP_ATTEMPTS in Hdue. bool_props.
  assert (0 <= successful_attempts d) as Hpos.
  { destruct Hok as (_ & _ & Hall). rewrite Forall_lookup in Hall. by destruct (Hall i d Hd). }
  unfold swarm_call. cbn [fst snd]. destruct (gossip_publish _ payload w) as [sent w'].
  destruct sent; cbn [fst snd].
  - apply (set_gossip_moves a a); [done|]. apply gossip_mark_ok; [done..|].
    unfold u8_saturating_add, u8_max. simpl. lia.
  - apply (set_gossip_moves a a); [done|]. by apply gossip_mark_ok; [..|lia].
Qed.

Lemma deliver_to_safe hash payload r : net_safe (deliver_to hash payload r).
Proof.
  apply net_bind; [apply net_swarm|]. intros local. destruct (bool_decide _); [apply net_ret|].
  apply net_session. intros [a w] Ha. cbn [fst] in *. apply moves_refl in Ha as Hm.
  case_match; [done|]. destruct (awaits_reply a (rec_peer_id r)) eqn:Haw; [done|].
  assert (∀ w, (for_each (λ address, swarm_mut (add_peer_address (rec_peer_id r) address))
                  (rec_addresses r) (a, w)).2.1 = a
             ∧ ∃ u, (for_each (λ address, swarm_mut (add_peer_address (rec_peer_id r) address))
                  (rec_addresses r) (a, w)).1 = Ok u) as Hadd.
  { induction (rec_addresses r) as [|x l IH]; intros v; [by split; [|eexists]|apply IH]. }
  unfold mbind, M_bind. destruct (Hadd w) as [Ha1 [u Ha2]].
  destruct (for_each _ _ _) as [out [a1 w1]]. simpl in Ha1, Ha2. subst.
  unfold swarm, gets. cbn [fst snd]. destruct (is_connected w1 _); cbn [negb]; [|done].
  unfold swarm_call. cbn [fst snd]. destruct (send_request _ _ w1) as [request w2].
  unfold update, modify. cbn [fst snd mret M_ret].
  apply (moves_update a a); try done. intros []. split; try assumption. apply one_slot_insert; [done|].
  intros j v Hj Hv. unfold awaits_reply in Haw.
  assert (existsb (λ t : DirectRoomTarget, bool_decide (t.1 = rec_peer_id r))
    (map snd (map_to_list (pending_room_deliveries a))) = true) as Htrue; [|congruence].
  apply existsb_exists. exists v. split; [|by apply bool_decide_eq_true].
  apply in_map_iff. exists (j, v). split; [done|]. by apply list_elem_of_In, elem_of_map_to_list.
Qed.

Lemma deliver_consensus_message_safe m recipients now_monotonic :
  net_safe (deliver_consensus_message m recipients now_monotonic).
Proof.
  apply net_bind; [apply net_lift|]. intros hash.
  apply net_bind; [apply encode_room_message_safe|]. intros payload.
  apply net_bind; [apply republish_safe|]. intros _.
  induction recipients as [|r l IH]; simpl; [apply net_ret|].
  apply net_bind; [apply deliver_to_safe|]. intros has_it. apply net_bind; [done|]. intros. apply net_ret.
Qed.

Lemma send_safe m recipients now_monotonic : net_safe (send m recipients now_monotonic).
Proof. apply net_bind; [apply deliver_consensus_message_safe|]. intros. apply net_ret. Qed.
End publishing.

(** ** Publishing keeps the invariant *)
Section publishers.
Context `{Crypto, Libp2p, RoomCodec, !World}.
Implicit Types (a : ActiveSession) (s : ActiveSession * world).

Ltac publisher :=
  repeat first
    [ apply net_ret | apply net_lift | apply send_safe | apply publish_safe
    | apply deliver_consensus_message_safe | apply consensus_delivery_complete_safe
    | apply net_read; intros ? | apply net_bind; [|intros ?]
    | apply net_update, modify_safe; intros ?; try done; by case_match
    | match goal with |- net_safe (match ?x with _ => _ end) => destruct x end ].

Lemma publish_active_messages_safe now_monotonic : net_safe (publish_active_messages now_monotonic).
Proof.
  unfold publish_active_messages, publish_roster_certificate_if_needed,
    publish_membership_certificate_if_needed, publish_local_join, publish_local_leave,
    publish_pending_membership, publish_membership_acceptance, publish_pending_roster,
    publish_roster_acceptance.
  publisher.
Qed.

(** ** The tick *)

Lemma forget_expired_safe now : net_safe (forget_expired now).
Proof.
  apply net_update, modify_safe; try done. intros a []. split; try assumption.
  - intros c j [Hj _]%map_lookup_filter_Some. eauto.
  - intros c l [Hl _]%map_lookup_filter_Some. eauto.
Qed.

Lemma abandon_hand_safe now_monotonic : net_safe (abandon_hand now_monotonic).
Proof.
  apply net_read. intros a. destruct (signed_disconnected_leaver _ _); [|apply net_ret].
  apply net_bind; [apply net_on_session, finish_hand_boundary_safe|]. intros. apply net_ret.
Qed.

(** What the local device signs verifies. *)
Lemma signed_now_active created expires :
  created < u64_max → created < expires → is_signed_time_window_active created expires created = true.
Proof.
  intros Hc He. unfold is_signed_time_window_active, is_signed_time_not_future, is_signed_time_before_expiry,
    u64_saturating_add, MAX_SIGNED_MESSAGE_CLOCK_SKEW_MS. lia.
Qed.
Lemma join_issue_verifies `{!CryptoLaws} table t created expires nonce device c j :
  created < u64_max → join_issue table t created expires nonce device c = Ok j →
  join_of table (tk_level t) j.
Proof.
  intros Hmax Hj. unfold join_issue in Hj. apply bind_Ok in Hj as ([] & Ht & Hj).
  apply bind_Ok in Hj as ([] & Hw%validate_join_window_Ok & Hj). apply bind_Ok in Hj as ([] & Hs & Hj).
  apply bind_Ok in Hj as (att & Ha%map_err_Ok & [= <-]). split; [done|]. split; [done|]. exists created.
  unfold validate_ticket_signer in Hs. revert Hs. ok_iff. intros [[Hp Hd] _].
  apply map_err_Ok in Ht. apply attestation_issue_Ok in Ha as Hc.
  apply join_verify_at_Ok. cbn. destruct Hc as (Hcv & _ & Hatt). subst att.
  split_and!; try done.
  - apply signed_now_active; [done|]. destruct Hw as [Hw _]. unfold window_ok in Hw. lia.
  - by eapply attestation_issue_verify.
Qed.
Lemma leave_issue_verifies `{!CryptoLaws} table after v created expires nonce device c l :
  created < u64_max → leave_issue table after v created expires nonce device c = Ok l → leave_of table l.
Proof.
  intros Hmax Hl. unfold leave_issue in Hl. apply bind_Ok in Hl as ([] & Hf & Hl).
  apply bind_Ok in Hl as ([] & _ & Hl). apply bind_Ok in Hl as (att & Ha%map_err_Ok & [= <-]).
  split; [done|]. exists created. apply attestation_issue_Ok in Ha as Hc. destruct Hc as (Hcv & _ & Hatt).
  assert (leave_fields_ok after created expires) as Hfok.
  { revert Hf. unfold validate_leave_fields, validate_intent_window, leave_fields_ok. ok_iff.
    by rewrite check_window_Ok. }
  apply leave_verify_at_Ok. cbn. subst att. split_and!; try done.
  - apply signed_now_active; [done|]. destruct Hfok as [_ Hw]. unfold window_ok in Hw. lia.
  - by eapply attestation_issue_verify.
Qed.

Lemma checked_add_lt now d n : 0 < d → u64_checked_add now d = Some n → now < u64_max.
Proof. intros Hd. unfold u64_checked_add, checked_add_w. case_match; [|done]. lia. Qed.

Lemma issue_join_intent_Ok `{!CryptoLaws} table ticket device c now w j w' :
  issue_join_intent table ticket device c now w = (Ok j, w') → join_of table (tk_level ticket) j.
Proof.
  unfold issue_join_intent, mbind, M_bind, lift. destruct (u64_checked_add _ _) as [d|] eqn:Hd; [|done].
  cbn [ok_or]. destruct (fill_bytes 16 w) as [nonce w1]. destruct (join_issue _ _ _ _ _ _ _) eqn:Hj; [|done..].
  intros [= <- <-]. eapply join_issue_verifies; [|exact Hj].
  eapply checked_add_lt; [|exact Hd]. unfold JOIN_INTENT_LIFETIME_MS. lia.
Qed.

(** The ticket is for the level asked for. *)
Lemma issue_ticket_level level buy_in addresses device c now w t w' :
  issue_local_session_ticket level buy_in addresses device c now w = (Ok t, w') → tk_level t = level.
Proof.
  unfold issue_local_session_ticket, mbind, M_bind, lift, gets.
  destruct (u64_checked_add _ _); [|done]. cbn [ok_or]. destruct (fill_bytes 16 w) as [nonce w1].
  destruct (ticket_issue _ _ _ _ _ _ _ _ _) eqn:Ht; [|done..]. intros [= <- <-].
  unfold ticket_issue in Ht. apply bind_Ok in Ht as (? & _ & Ht).
  by apply bind_Ok in Ht as (? & _ & [= <-]).
Qed.

(** Remembering a freshly signed intent of the local player. *)
Lemma renew_join_safe `{!CryptoLaws} addresses device c now : net_safe (renew_join addresses device c now).
Proof.
  apply net_session. intros [a w] Ha. cbn [fst] in *. apply moves_refl in Ha as Hm.
  case_match; [|done]. unfold on_world, mbind, M_bind. cbn [fst snd].
  destruct (issue_local_session_ticket _ _ _ _ _ _ w) as [[t| |] w1] eqn:Ht; [|done..].
  destruct (issue_join_intent _ _ _ _ _ _) as [[j| |] w2] eqn:Hj; [|done..].
  apply issue_ticket_level in Ht. apply issue_join_intent_Ok in Hj. rewrite Ht in Hj.
  pose proof (remember_join_moves a a j Hm Hj) as Hmv. by apply (moves_update a (remember_join a j)).
Qed.

Lemma tick_safe `{!CryptoLaws} addresses device c now now_monotonic :
  net_safe (tick addresses device c now now_monotonic).
Proof.
  apply net_bind; [apply renew_join_safe|]. intros [].
  apply net_bind; [apply forget_expired_safe|]. intros [].
  apply net_bind; [apply abandon_hand_safe|]. intros e0.
  apply net_bind; [apply net_on_session, maybe_propose_membership_safe|]. intros [].
  apply net_bind; [apply net_on_session, finalize_membership_safe|]. intros e1.
  apply net_bind; [apply net_on_session, maybe_propose_roster_safe|]. intros [].
  apply net_bind; [apply net_on_session, finalize_roster_safe|]. intros e2.
  apply net_bind; [apply synchronize_safe|]. intros [].
  apply net_bind; [apply publish_active_messages_safe|]. intros []. apply net_ret.
Qed.

(** ** Leaving *)
Lemma sign_leave_safe `{!CryptoLaws} device c now now_monotonic :
  net_safe (sign_leave device c now now_monotonic).
Proof.
  apply net_session. intros [a w] Ha. cbn [fst] in *. apply moves_refl in Ha as Hm.
  unfold swarm_call, mbind, M_bind, lift. cbn [fst snd]. destruct (fill_bytes 16 w) as [nonce w1].
  destruct (u64_checked_add now JOIN_INTENT_LIFETIME_MS) as [e|] eqn:He; [|done]. cbn [ok_or].
  destruct (u64_checked_add now (as_millis _)); [|done]. cbn [ok_or].
  destruct (leave_issue _ _ _ _ _ _ _ _) as [l| |] eqn:Hl; [|done..]. cbn [map_err].
  apply leave_issue_verifies in Hl; [|eapply checked_add_lt; [|exact He]; unfold JOIN_INTENT_LIFETIME_MS; lia].
  pose proof (remember_leave_moves a a l Hm Hl) as Hmv. by apply (moves_update a (remember_leave a l)).
Qed.

Lemma request_leave_safe `{!CryptoLaws} device c now now_monotonic :
  net_safe (request_leave device c now now_monotonic).
Proof.
  apply net_read. intros a. destruct (bool_decide _); [apply net_ret|].
  apply net_bind; [apply sign_leave_safe|]. intros l. apply net_bind; [apply net_lift|]. intros recipients.
  apply net_bind; [apply send_safe|]. intros []. apply net_bind; [by apply net_update, modify_safe|].
  intros []. apply net_bind; [|intros []; apply net_read; intros; apply net_ret].
  apply net_update, modify_safe; intros b; cbv zeta; try (by repeat case_match).
  intros Hb. destruct (hand_active b) eqn:E; [exact Hb|].
  destruct (local_is_only_seat _); destruct Hb; split; try assumption; done.
Qed.
End publishers.

(** ** Runs *)
Section runs.
Context `{Crypto, Libp2p, RoomCodec, !World}.
Implicit Types (a b : ActiveSession) (w : world).

(** One method call on the active session, with any arguments.  The swarm also
    moves on its own. *)
Inductive session_step : ActiveSession * world → ActiveSession * world → Prop :=
  | step_message a w source payload device c now mono :
      session_step (a, w) ((handle_message source payload device c now mono a).2, w)
  | step_tick a w addresses device c now mono :
      session_step (a, w) (tick addresses device c now mono (a, w)).2
  | step_request_leave a w device c now mono :
      session_step (a, w) (request_leave device c now mono (a, w)).2
  | step_force_leave a w stalled mono :
      session_step (a, w) ((force_local_leave_if_due stalled mono a).2, w)
  | step_hand_boundary a w receipt dealer mono :
      session_step (a, w) ((finish_hand_boundary receipt dealer mono a).2, w)
  | step_take_ready a w : session_step (a, w) ((take_ready_table a).2, w)
  | step_take_leave a w : session_step (a, w) ((take_leave_completed a).2, w)
  | step_adopt_peers a w peers : session_step (a, w) ((adopt_explicit_peers peers a).2, w)
  | step_connected a w peer : session_step (a, w) ((peer_connected peer a).2, w)
  | step_disconnected a w peer mono : session_step (a, w) ((peer_disconnected peer mono a).2, w)
  | step_response a w request accepted :
      session_step (a, w) ((handle_direct_response request accepted a).2, w)
  | step_failure a w request : session_step (a, w) ((handle_direct_failure request a).2, w)
  | step_world a w w' : session_step (a, w) (a, w').

(** The runtime: no table, or one it created or joined. *)
Inductive room_step : option ActiveSession * world → option ActiveSession * world → Prop :=
  | step_session a w b w' : session_step (a, w) (b, w') → room_step (Some a, w) (Some b, w')
  | step_create o w table creator ticket device c now mono a events w' :
      create table creator ticket device c now mono w = (Ok (a, events), w') →
      room_step (o, w) (Some a, w')
  | step_join o w table creator peer addresses ticket device c now mono a events w' :
      join table creator peer addresses ticket device c now mono w = (Ok (a, events), w') →
      room_step (o, w) (Some a, w')
  | step_close a w : room_step (Some a, w) (None, (close a w).2)
  | step_migrate a w : room_step (Some a, w) (None, (migrate_to_pool a w).2)
  | step_idle o w w' : room_step (o, w) (o, w').
Definition room_reachable (o : option ActiveSession) : Prop :=
  ∃ w0 w, rtc room_step (None, w0) (o, w).

Lemma session_run_room a w b w' :
  rtc session_step (a, w) (b, w') → rtc room_step (Some a, w) (Some b, w').
Proof.
  intros Hr. remember (a, w) as s eqn:E. remember (b, w') as s' eqn:E'. revert a w E.
  induction Hr as [s|s [a1 w1] s' Hs _ IH]; intros a w ->.
  - by injection E' as -> ->.
  - eapply rtc_l; [by apply step_session|by apply IH].
Qed.

Lemma session_step_moves `{!CryptoLaws} s s' : session_step s s' → session_ok s.1 → moves s.1 s'.1.
Proof.
  destruct peer_methods_safe as (Hadopt & Hconn & Hdisc). destruct delivery_methods_safe as [Hresp Hfail].
  destruct 1; intros Hok.
  - by apply handle_message_safe.
  - by apply (tick_safe _ _ _ _ _ (a, w)).
  - by apply (request_leave_safe _ _ _ _ (a, w)).
  - by apply force_local_leave_safe.
  - by apply finish_hand_boundary_safe.
  - by apply take_ready_table_safe.
  - by apply take_leave_completed_safe.
  - by apply Hadopt.
  - by apply Hconn.
  - by apply Hdisc.
  - by apply Hresp.
  - by apply Hfail.
  - by apply moves_refl.
Qed.

Lemma session_run_moves `{!CryptoLaws} s s' : rtc session_step s s' → session_ok s.1 → moves s.1 s'.1.
Proof.
  induction 1 as [s|s s1 s2 Hs _ IH]; intros Hok; [by apply moves_refl|].
  apply session_step_moves in Hs; [|done]. eapply moves_trans; [exact Hs|]. apply IH, Hs.
Qed.

(** A new session knows its own intent and nothing else. *)
Lemma gossip_ok_nil : gossip_ok [].
Proof. split_and!; [simpl; lia|constructor|constructor]. Qed.
Lemma ActiveSession_new_ok table creator j topic admission :
  join_of table (ji_level j) j → session_ok (ActiveSession_new table creator j topic admission).
Proof.
  intros Hj. split; simpl; try done.
  - intros c k [<- <-]%lookup_singleton_Some. by split.
  - apply gossip_ok_nil.
Qed.

Lemma create_ok `{!CryptoLaws} table creator ticket device c now mono w a events w' :
  create table creator ticket device c now mono w = (Ok (a, events), w') → session_ok a.
Proof.
  unfold create. unfold mbind at 1, M_bind at 1. cbv beta.
  destruct (issue_join_intent table ticket device c now w) as [[j| |] w1] eqn:Hj; [|done..].
  apply issue_join_intent_Ok in Hj. destruct Hj as (Ht & Hl & Hv).
  unfold mbind, M_bind, subscribe, lift. destruct (gossip_subscribe _ w1) as [[] w2]; [|done].
  destruct (PhysicalSeat_new 1) as [seat| |]; [|done..]. cbn [map_err].
  destruct (assemble _ _ _ _ _ _ _ _) as [p| |] eqn:Hp; [|done..]. cbn [map_err].
  destruct (signed_issue p now device c) as [signed| |] eqn:Hs; [|done..]. cbn [map_err].
  destruct (acceptance_issue _ _ _ _ _) as [acc| |]; [|done..]. cbn [map_err].
  destruct (certified_membership_assemble _ _ _) as [cert| |] eqn:Hc; [|done..].
  intros [= <- _ _]. apply assemble_verified in Hp as (Hpt & Hpl & _). apply signed_issue_Ok in Hs as [<- _].
  assert (join_of table (ji_level j) j) as Hjo by (split_and!; [done..|exact Hv]).
  destruct (ActiveSession_new_ok table creator j (session_topic table) None Hjo).
  split; try assumption; [|done..]. intros m [= <-]. split; [split; assumption|].
  apply bind_Ok in Hc as ([] & Hcv & [= <-]). eexists _, now. split; [reflexivity|]. split; [done|]. exact Hcv.
Qed.

Lemma join_ok `{!CryptoLaws} table creator peer addresses ticket device c now mono w a events w' :
  join table creator peer addresses ticket device c now mono w = (Ok (a, events), w') → session_ok a.
Proof.
  unfold join, mbind, M_bind, lift, gets. destruct (direct_room_recipient _ _) as [r| |]; [|done..].
  destruct (reject_if _ _) as [[]| |]; [|done..].
  destruct (issue_join_intent table ticket device c now w) as [[j| |] w1] eqn:Hj; [|done..].
  apply issue_join_intent_Ok in Hj. destruct Hj as (Ht & Hl & Hv).
  unfold subscribe. destruct (gossip_subscribe _ w1) as [[] w2]; [|done].
  set (a0 := ActiveSession_new _ _ _ _ _).
  assert (session_ok { a0 with owns_explicit_peers := true }) as Hok.
  { assert (join_of table (ji_level j) j) as Hjo by (split_and!; [done..|exact Hv]).
    exact (ActiveSession_new_ok table creator j (session_topic table) (Some r) Hjo). }
  pose proof (synchronize_safe mono ({ a0 with owns_explicit_peers := true }, w2) Hok) as [Hok' _ _ _].
  destruct (synchronize_explicit_session_peers mono _) as [[[]| |] [a1 w3]]; [|done..].
  cbn [result_bind]. intros [= <- _ _]. exact Hok'.
Qed.

Lemma reachable_session_ok `{!CryptoLaws} o a : room_reachable o → o = Some a → session_ok a.
Proof.
  intros (w0 & w & Hr) ->.
  assert (∀ s s', rtc room_step s s' → (∀ b, s.1 = Some b → session_ok b) → ∀ b, s'.1 = Some b → session_ok b)
    as Hgen.
  { induction 1 as [s|s s1 s2 Hs _ IH]; intros Hok; [done|]. apply IH. intros b.
    destruct Hs as [x v y v' Hst|o' v ?????????? v' Hc|o' v ???????????? v' Hc|x v|x v|o' v v']; simpl in *; try done.
    - intros [= <-]. apply session_step_moves in Hst; [apply Hst|]. by apply Hok.
    - intros [= <-]. by eapply create_ok.
    - intros [= <-]. by eapply join_ok.
    - apply Hok. }
  by eapply (Hgen (None, w0) (Some a, w)).
Qed.
End runs.
