(* ===== verification/SessionSpec.v ===== *)
(** * SessionSpec: what a table session promises (table_session_runtime.rs)

    The theorems about the session runtime: what holds in every reachable
    state, how the membership moves along a run, how a certificate spreads,
    what table a hand is played at, when a leave is forced, and two runs in
    which the code does not do what it means to.  The examples run the
    handlers on a toy swarm. *)

From coqutil Require Import Datatypes.RecordSetters.
From S2P Require Import Prelude Machine Encoding Order Ids Table TablePool Membership.
From S2P Require Import HandRoster Identity Session NetworkAddress PoolProtocol TableSession.
From S2P Require Import RosterProtocol Swarm SessionState SessionRuntime SessionInv SessionDelivery.
From S2P Require Import SessionSafety.
Import OCamlLikeNotations.

Section specs.
Context `{Crypto, Libp2p, RoomCodec, !World}.
Implicit Types (a b : ActiveSession) (w : world).

(** C5: In every state the runtime can reach, whatever messages arrive and
    whoever sends them: every remembered join and leave intent was verified
    and is for this table; the current membership is of this table and level
    and carries the verified acceptances of all its seats; a membership being
    signed is valid and follows the current one by version and hash; a roster
    being signed is for the current membership and the next hand; and while a
    hand is played, its roster carries the verified acceptances of all its
    players. *)
Theorem session_invariant `{!CryptoLaws} a : room_reachable (Some a) → session_ok a.
Proof. intros Hr. by eapply reachable_session_ok. Qed.

Lemma succeeds_version m o : rtc succeeds (Some m) o →
  ∃ m', o = Some m' ∧ (mp_membership_version (sp_proposal m) <= u64_max →
    mp_membership_version (sp_proposal m) <= mp_membership_version (sp_proposal m') <= u64_max).
Proof.
  intros Hr. remember (Some m) as o1 eqn:E. revert m E.
  induction Hr as [o|o o1 o2 Hs _ IH]; intros m ->; [exists m; split; [done|lia]|].
  inversion Hs as [? m1 Hf]; subst. destruct (IH m1 eq_refl) as (m' & -> & Hle). exists m'. split; [done|].
  destruct (Hf m eq_refl) as [Hv _]. rewrite Hv in Hle. unfold u64_saturating_add in Hle. lia.
Qed.

(** C9: Along any run of a session the table and level never change, the
    membership is never lost and only moves to one that follows it by version
    and hash, so versions never go back, and neither do hand numbers. *)
Theorem membership_history `{!CryptoLaws} a w b w' :
  room_reachable (Some a) → rtc session_step (a, w) (b, w') →
  as_table_id b = as_table_id a ∧ as_level b = as_level a
  ∧ rtc succeeds (membership a) (membership b) ∧ next_hand_number a <= next_hand_number b
  ∧ ∀ m, membership a = Some m → ∃ m', membership b = Some m'
      ∧ (mp_membership_version (sp_proposal m) <= u64_max →
         mp_membership_version (sp_proposal m) <= mp_membership_version (sp_proposal m')).
Proof.
  intros Ha Hr. apply reachable_session_ok with (a := a) in Ha; [|done].
  apply session_run_moves in Hr as [_ [Ht Hl] Hm Hn]; [|done]. simpl in *. split_and!; try done.
  intros m Hc. rewrite Hc in Hm. apply succeeds_version in Hm as (m' & -> & Hv). exists m'. split; [done|].
  intros. by apply Hv.
Qed.

(** Delivery is bounded in every reachable state: at most one request to a
    peer waits for its reply, at most 256 consensus messages are remembered,
    each once, and none was published over gossip more than six times. *)
Theorem delivery_bounded `{!CryptoLaws} a :
  room_reachable (Some a) →
  (∀ i j t u, pending_room_deliveries a !! i = Some t → pending_room_deliveries a !! j = Some u →
     t.1 = u.1 → i = j)
  ∧ (length (consensus_gossip_deliveries a) <= MAX_GOSSIPED_CONSENSUS_MESSAGES)%nat
  ∧ NoDup (map gd_message_hash (consensus_gossip_deliveries a))
  ∧ Forall (λ d, successful_attempts d <= MAX_CONSENSUS_GOSSIP_ATTEMPTS) (consensus_gossip_deliveries a).
Proof.
  intros Hr. destruct (reachable_session_ok _ a Hr eq_refl). destruct f_gossip as (Hl & Hn & Hall).
  split; [exact f_slots|]. split; [done|]. split; [done|].
  eapply Forall_impl; [exact Hall|]. by intros d [_ ?].
Qed.

(** A player who asked to leave is let go: after two minutes in any case,
    after ten seconds when the hand is stalled, after fifteen seconds without
    the new membership when no hand is played.  Until one of these the session
    is left as it is; then the leave is completed and reported with the time
    waited. *)
Theorem forced_leave_due a stalled now l started :
  local_leave a = Some l → leave_completed a = false → local_leave_started_at a = Some started →
  let waited := since now started in
  let due := seconds 120 <= waited
             ∨ hand_active a = true ∧ stalled = true ∧ seconds 10 <= waited
             ∨ hand_active a = false
               ∧ ∃ t, local_leave_membership_started_at a = Some t ∧ seconds 15 <= since now t in
  (due → ∃ reason, force_local_leave_if_due stalled now a
     = (Ok [SafeLeaveForced (as_table_id a) (reason_str reason) (Z.min (as_millis waited) u64_max);
            SafeLeaveCompleted (as_table_id a)], { a with leave_completed := true }))
  ∧ (¬ due → force_local_leave_if_due stalled now a = (Ok [], a)).
Proof.
  intros Hl Hc Hs waited due.
  assert (force_local_leave_if_due stalled now a
    = match forced_leave_reason (hand_active a) stalled waited
              (since now <$> local_leave_membership_started_at a) with
      | None => (Ok [], a)
      | Some reason =>
          (Ok [SafeLeaveForced (as_table_id a) (reason_str reason) (Z.min (as_millis waited) u64_max);
               SafeLeaveCompleted (as_table_id a)], { a with leave_completed := true })
      end) as ->.
  { unfold force_local_leave_if_due, get, gets, lift, mbind, M_bind. cbv beta iota zeta.
    rewrite Hl, Hc, Hs. cbn [ok_or orb]. rewrite bool_decide_false by done. cbn [orb].
    fold waited. by destruct (forced_leave_reason _ _ _ _). }
  assert (due ↔ forced_leave_reason (hand_active a) stalled waited
    (since now <$> local_leave_membership_started_at a) ≠ None) as Hdue.
  { unfold due, forced_leave_reason, STALLED_SAFE_LEAVE_TIMEOUT, IDLE_SAFE_LEAVE_TIMEOUT, ABSOLUTE_SAFE_LEAVE_TIMEOUT.
    destruct (hand_active a), stalled, (local_leave_membership_started_at a) as [t|]; simpl;
      repeat (case_match; bool_props); naive_solver lia. }
  destruct (forced_leave_reason _ _ _ _) as [reason|]; split; intros Hd; [by exists reason|..|done].
  - destruct Hd. by apply Hdue.
  - by apply Hdue in Hd.
Qed.

(** ** How a certificate spreads *)

Lemma activate_membership_result c mono a :
  ∃ events b, activate_membership c mono a = (Ok events, b) ∧ membership b = Some (cm_proposal c)
    ∧ membership_certificate b = Some c ∧ pending_membership b = None.
Proof.
  unfold activate_membership, get, gets, modify, snapshot_now, mbind, M_bind, mret, M_ret.
  cbv beta iota zeta. destruct (negb (hand_active _) && _);
    destruct (bool_decide (is_Some (local_leave _)) && _); eexists _, _; (split; [reflexivity|]); done.
Qed.

(** The membership [p] names the player, seated or waiting. *)
Definition names_player (p : MembershipProposal) (player : PlayerId) : Prop :=
  player ∈ map ji_player (map sc_intent (mp_seats p) ++ mp_waiting p).

(** When a player may move to the membership [p]: it is of the player's table
    and level, and either it is the next version of the membership the player
    has, names its hash and, during a hand, keeps everyone who plays in the
    physical seat they have; or the player has none yet and is named in [p],
    which is a first version or names one before it. *)
Definition may_follow b (p : MembershipProposal) : Prop :=
  mp_table_id p = as_table_id b ∧ mp_level p = as_level b
  ∧ match membership b with
    | Some m =>
        let m := sp_proposal m in
        mp_membership_version p = mp_membership_version m + 1 ∧ mp_membership_version p <= u64_max
        ∧ previous_membership_hash p = Some (proposal_hash m) ∧ proposal_hash m ≠ proposal_hash p
        ∧ (hand_active b = true → ∀ s, s ∈ mp_seats m → ∃ s', s' ∈ mp_seats p
             ∧ ji_player (sc_intent s') = ji_player (sc_intent s) ∧ sc_seat s' = sc_seat s)
    | None =>
        names_player p (ji_player (local_join b))
        ∧ (mp_membership_version p = 1 ↔ previous_membership_hash p = None)
    end.

(** The message came from the peer of someone seated or waiting in [p]. *)
Definition from_participant (source : option PeerId) (p : MembershipProposal) : Prop :=
  ∃ peer j, source = Some peer ∧ j ∈ map sc_intent (mp_seats p) ++ mp_waiting p
    ∧ peer_id_from_bytes (tk_peer_id (ji_ticket j)) = Some peer.

Lemma certified_proposal_ok c now :
  certified_membership_verify_at c now = Ok tt → proposal_ok (sp_proposal (cm_proposal c)) now.
Proof.
  unfold certified_membership_verify_at. rewrite map_err_Ok, verify_membership_acceptances_Ok.
  intros (Hs & _). apply signed_verify_at_Ok in Hs as (_ & Hp & _). by apply proposal_verify_at_Ok in Hp as (_ & ? & _).
Qed.

Lemma certificate_source_Ok source p :
  verify_membership_certificate_source source p = Ok tt ↔ from_participant source p.
Proof.
  unfold verify_membership_certificate_source, from_participant. rewrite bind_ok_or.
  setoid_rewrite reject_if_Ok. setoid_rewrite negb_false_iff. setoid_rewrite existsb_exists.
  setoid_rewrite bool_decide_eq_true. setoid_rewrite <-list_elem_of_In. naive_solver.
Qed.

Lemma contains_player_true p player : contains_player p player = true ↔ names_player p player.
Proof.
  unfold contains_player, names_player. rewrite orb_true_iff, bool_decide_eq_true, existsb_exists.
  rewrite map_app, map_map, elem_of_app, !list_elem_of_fmap. setoid_rewrite <-list_elem_of_In.
  setoid_rewrite bool_decide_eq_true. split.
  - intros [[s [Hs <-]%seat_by_player_Some]|(j & ? & <-)]; [left|right]; eauto.
  - intros [(s & -> & Hs)|(j & -> & Hj)]; [left|right; eauto].
    by apply find_first_is_Some with s; [|apply bool_decide_eq_true].
Qed.

Lemma keeps_participant_Ok p now s :
  proposal_ok p now →
  keeps_participant p s = Ok tt ↔ ∃ s', s' ∈ mp_seats p
    ∧ ji_player (sc_intent s') = ji_player (sc_intent s) ∧ sc_seat s' = sc_seat s.
Proof.
  intros Hok. unfold keeps_participant. rewrite bind_ok_or. split.
  - intros (s' & [Hin Hp]%seat_by_player_Some & Hs). revert Hs. ok_iff. eauto.
  - intros (s' & Hin & Hp & Hs). exists s'. rewrite <-Hp. split; [by eapply seat_by_own_player|]. by ok_iff.
Qed.

(** The checks of the handler, and that it does not take the certificate for
    an old one, are [may_follow]. *)
Definition already_has b (p : MembershipProposal) : bool :=
  match membership b with
  | Some m => bool_decide (proposal_hash (sp_proposal m) = proposal_hash p)
              || (mp_membership_version p <=? mp_membership_version (sp_proposal m))
  | None => false
  end.
Lemma may_follow_Ok b p now :
  proposal_ok (sp_proposal p) now →
  already_has b (sp_proposal p) = false ∧ validate_membership_scope b p = Ok tt
  ↔ may_follow b (sp_proposal p).
Proof.
  intros Hok. unfold already_has, validate_membership_scope, may_follow. ok_iff.
  destruct (membership b) as [m|].
  - ok_iff. unfold u64_saturating_add. destruct (hand_active b).
    + rewrite try_each_Ok, Forall_forall. setoid_rewrite keeps_participant_Ok; [|done]. naive_solver lia.
    + naive_solver lia.
  - ok_iff. rewrite contains_player_true. case_match; bool_props; ok_iff; rewrite ?not_is_Some, ?eq_None_not_Some; naive_solver.
Qed.

Lemma adopts_certificate b c source now mono :
  certified_membership_verify_at c now = Ok tt →
  (∃ events b', on_certified_membership source c now mono b = (Ok (Some events), b')
     ∧ membership b' = Some (cm_proposal c) ∧ membership_certificate b' = Some c)
  ↔ from_participant source (sp_proposal (cm_proposal c)) ∧ may_follow b (sp_proposal (cm_proposal c)).
Proof.
  intros Hv. rewrite <-(may_follow_Ok b _ now) by by apply certified_proposal_ok.
  rewrite <-certificate_source_Ok.
  unfold on_certified_membership, get, gets, lift, remember_embedded_joins, modify, mbind, M_bind.
  cbv beta iota zeta. fold (already_has b (sp_proposal (cm_proposal c))).
  destruct (already_has _ _); [split; [by intros (? & ? & [=] & _)|naive_solver]|]. rewrite Hv.
  destruct (validate_membership_scope _ _) as [[]|?|] eqn:Hs; [|split; [by intros (? & ? & [=] & _)|naive_solver]..].
  destruct (verify_membership_certificate_source _ _) as [[]|?|] eqn:Hc; [|split; [by intros (? & ? & [=] & _)|naive_solver]..].
  split; [done|]. intros _.
  match goal with |- context [activate_membership c mono ?x] =>
    destruct (activate_membership_result c mono x) as (ev' & b' & -> & Hm' & Hcert' & _) end.
  by eexists _, b'.
Qed.

(** C18: Once the coordinator of a membership holds the acceptances of all its
    seats, it activates it and keeps the certificate.  At any time at which
    its acceptances still verify, exactly these players end up with the same
    membership and certificate when it reaches them: those who get it from the
    peer of someone seated or waiting in it, at the same table and level, and
    for whom it is the next version, by number and hash, of the membership
    they have (with a hash of its own) and during a hand keeps everyone in
    their seat, or who have none yet, are named in it, and to whom it comes as
    a first version or as one with a predecessor.  In particular, of a
    coordinator in a reachable state, it moves every player at its table and
    level who has its current membership and plays no hand (the version must
    not be at its largest, and the two memberships not collide under the
    hash). *)
Theorem certificate_spreads `{!CryptoLaws} a p now mono :
  pending_membership a = Some p →
  size (membership_acceptances a) = length (mp_seats (sp_proposal p)) →
  verify_membership_acceptances p (btree_values (membership_acceptances a)) now = Ok tt →
  ∃ events a' c, finalize_membership_if_ready now mono a = (Ok events, a')
    ∧ membership a' = Some p ∧ membership_certificate a' = Some c ∧ pending_membership a' = None
    ∧ certified_membership_verify_at c now = Ok tt
    ∧ (∀ b source now' mono', certified_membership_verify_at c now' = Ok tt →
        (∃ events' b', on_certified_membership source c now' mono' b = (Ok (Some events'), b')
          ∧ membership b' = Some p ∧ membership_certificate b' = Some c)
        ↔ from_participant source (sp_proposal p) ∧ may_follow b (sp_proposal p))
    ∧ ∀ b m, room_reachable (Some a) → membership a = Some m → membership b = Some m →
        as_table_id b = as_table_id a → as_level b = as_level a → hand_active b = false →
        mp_membership_version (sp_proposal m) < u64_max →
        proposal_hash (sp_proposal m) ≠ proposal_hash (sp_proposal p) → may_follow b (sp_proposal p).
Proof.
  intros Hp Hsz Hv. set (c := mkCertifiedMembership p
    (sort_by_key ac_claim (btree_values (membership_acceptances a)))).
  assert (certified_membership_assemble p (btree_values (membership_acceptances a)) now = Ok c) as Hc.
  { unfold certified_membership_assemble.
    rewrite (proj2 (map_err_Ok RoomSession _ tt)); [done|].
    revert Hv. rewrite !verify_membership_acceptances_Ok. intros (? & ? & ? & Hcl).
    pose proof (sort_by_key_perm ac_claim (btree_values (membership_acceptances a))) as Hperm.
    pose proof (Permutation_map ac_claim Hperm) as Hmap.
    split_and!; [done|by rewrite Hperm|by rewrite Hmap|intros x; by rewrite Hmap]. }
  unfold finalize_membership_if_ready, get, gets, modify, lift, mbind, M_bind. cbv beta iota zeta.
  rewrite Hp, Hsz, Nat.eqb_refl, Hv. cbn [negb orb is_ok]. rewrite Hc.
  match goal with |- context [activate_membership c mono ?x] =>
    destruct (activate_membership_result c mono x) as (ev & a' & -> & Hm & Hcert & Hpend) end.
  eexists _, a', c. split; [reflexivity|]. split; [done|]. split; [done|]. split; [done|].
  split; [by apply bind_Ok in Hc as ([] & ? & _)|]. split.
  - intros b source now' mono' Hcv. by apply (adopts_certificate b c).
  - intros b m Hr Ha Hb Ht Hl Hh Hlt Hne. destruct (reachable_session_ok _ a Hr eq_refl).
    destruct (f_pending p Hp) as ([Hpt Hpl] & Hf & _). destruct (Hf m Ha) as [Hver Hprev].
    unfold may_follow. rewrite Hb, Hpt, Hpl, Hver, Hh. unfold u64_saturating_add. split_and!; try done; lia.
Qed.

(** ** The table of a hand *)

(** Every address of the intent is a transport followed by its peer. *)
Definition dialable (j : JoinIntent) : Prop :=
  ∃ peer, peer_id_from_bytes (tk_peer_id (ji_ticket j)) = Some peer
    ∧ Forall (λ raw, is_ok (peer_dial_address raw peer) = true) (tk_addresses (ji_ticket j)).

Lemma try_collect_total {E A B} (f : A → result E B) l :
  Forall (λ x, is_ok (f x) = true) l → ∃ ys, try_collect f l = Ok ys.
Proof.
  induction 1 as [|x l Hx _ [ys IH]]; [by exists []|]. simpl. apply is_ok_true in Hx as [y ->].
  cbn [mbind result_bind]. rewrite IH. cbn [mbind result_bind]. by exists (y :: ys).
Qed.

Lemma preferred_dial_some (l : list Multiaddr) : l ≠ [] → is_Some (preferred_dial_address l).
Proof. destruct l as [|x l]; [done|]. intros _. unfold preferred_dial_address, min_by. simpl. by eexists. Qed.

Lemma position_is_Some {A} (p : A → bool) l x : x ∈ l → p x = true → is_Some (position p l).
Proof.
  induction 1 as [x l|x y l _ IH]; intros Hp; simpl; [by rewrite Hp|].
  destruct (p y); [done|]. destruct (IH Hp) as [i ->]. by eexists.
Qed.

Lemma position_of {A K} `{EqDecision K} (key : A → K) k l :
  k ∈ map key l →
  ∃ i, position (λ x, bool_decide (key x = k)) l = Some i ∧ map key l !! i = Some k.
Proof.
  intros (x & -> & Hx)%list_elem_of_fmap.
  destruct (position_is_Some (λ y, bool_decide (key y = key x)) l x) as [i Hi];
    [done|by apply bool_decide_eq_true|].
  exists i. split; [done|]. apply position_Some in Hi as (y & Hy & E%bool_decide_eq_true).
  change (map key l) with (key <$> l). by rewrite list_lookup_fmap, Hy, <-E.
Qed.
Lemma position_ext {A} (p q : A → bool) l : (∀ x, p x = q x) → position p l = position q l.
Proof. intros Hpq. induction l as [|x l IH]; simpl; [done|]. by rewrite Hpq, IH. Qed.
Lemma Zeqb_decide (x y : Z) : (x =? y) = bool_decide (x = y).
Proof. destruct (Z.eqb_spec x y); [by rewrite bool_decide_true|by rewrite bool_decide_false]. Qed.

(** A seat of the roster whose player can be dialled has an endpoint. *)
Lemma ready_endpoint_ok p now rs :
  proposal_ok p now → copies_member p rs → (∀ s, s ∈ mp_seats p → dialable (sc_intent s)) →
  ∃ seat peer address, seat_by_player p (rs_player rs) = Some seat
    ∧ peer_id_from_bytes (tk_peer_id (ji_ticket (sc_intent seat))) = Some peer
    ∧ ready_endpoint p rs = Ok (peer, [address]).
Proof.
  intros Hok (seat & Hs & _) Hd. apply seat_by_player_Some in Hs as Hin. destruct Hin as [Hin _].
  destruct (Hd seat Hin) as (peer & Hp & Ha). destruct (verified_seat_endpoint p now seat Hok Hin) as [? He].
  destruct (try_collect_total _ _ Ha) as [addresses Hc].
  destruct (preferred_dial_some addresses) as [address Hpref].
  { intros ->. apply try_collect_Ok, Forall2_length in Hc. destruct He. simpl in Hc. lia. }
  exists seat, peer, address. split; [done|]. split; [done|]. unfold ready_endpoint. rewrite Hs.
  cbn [ok_or mbind result_bind]. rewrite Hp. cbn [ok_or mbind result_bind]. rewrite Hc.
  cbn [mbind result_bind]. by rewrite Hpref.
Qed.

(** Hand indices are positions. *)
Lemma hand_indices_positions r :
  roster_wf r → map hand_index (sort_by_key hand_index (ro_seats r))
                = map Z.of_nat (seq 0 (length (ro_seats r))).
Proof.
  intros []. apply sorted_unique.
  - pose proof (sort_by_key_sorted hand_index (ro_seats r)) as Hs. induction Hs as [|x l _ IH Hx]; simpl; constructor;
      [done|]. by apply Forall_map.
  - clear. generalize O as k. induction (length (ro_seats r)) as [|n IH]; intros k; simpl; [apply SSorted_nil|apply SSorted_cons; [apply IH|]].
    apply Forall_map, Forall_forall. intros j Hj%elem_of_seq. unfold key_le, ord_leb, compare, Z_ord.
    destruct (Z.compare_spec (Z.of_nat k) (Z.of_nat j)); [done|done|lia].
  - rewrite (Permutation_map hand_index (sort_by_key_perm hand_index (ro_seats r))).
    apply NoDup_Permutation; [done| |].
    + apply NoDup_fmap_2; [apply _|]. apply NoDup_seq.
    + intros i. rewrite rw_contiguous, list_elem_of_fmap. setoid_rewrite elem_of_seq. split.
      * intros Hi. exists (Z.to_nat i). lia.
      * intros (k & -> & ?). lia.
Qed.

(** A verified roster gives every player the same table: when each
    participant can be dialled, the table of the hand exists for each of them,
    its lists run over the roster in hand order (position [i] is hand index
    [i]), the local seat is the local player, the dealer index points at the
    dealer's seat, and the peer at a position is the one the player signed. *)
Theorem ready_table_of_roster r now local :
  signed_roster_verify_at r now = Ok tt →
  is_Some (endpoint_for_player (sr_proposal r) local) →
  (∀ s, s ∈ mp_seats (sp_proposal (sr_membership r)) → dialable (sc_intent s)) →
  let roster := ready_roster (sr_proposal r) in
  let seats := sort_by_key hand_index (ro_seats roster) in
  ∃ t, ready_table_from_proposal r local = Ok t
    ∧ rt_hand_number t = hand_number roster ∧ rt_table_id t = as_bytes (ro_table_id roster)
    ∧ rt_players t = map rs_player seats ∧ rt_devices t = map rs_device seats
    ∧ rt_physical_seats t = map rs_physical_seat seats ∧ rt_buy_ins t = map rs_buy_in seats
    ∧ map hand_index seats = map Z.of_nat (seq 0 (length seats))
    ∧ rt_players t !! local_seat t = Some local
    ∧ rt_physical_seats t !! dealer_index t = Some (dealer_seat roster)
    ∧ Forall2 (λ player peer, ∃ seat,
         seat_by_player (sp_proposal (sr_membership r)) player = Some seat
         ∧ peer_id_from_bytes (tk_peer_id (ji_ticket (sc_intent seat))) = Some peer)
        (rt_players t) (rt_peer_ids t).
Proof.
  intros (_ & (_ & (_ & Hok & _)%proposal_verify_at_Ok & _)%signed_verify_at_Ok & Hr & _)%signed_roster_verify_at_Ok.
  intros [e He] Hd roster seats. destruct Hr as [_ Hrv _ Hrm Hep _].
  apply roster_verify_Ok in Hrv as [Hw _]. fold roster in Hw, Hrm, Hep.
  apply validate_roster_membership_Ok in Hrm as (_ & _ & _ & Hcopy).
  set (p := sp_proposal (sr_membership r)) in *.
  assert (∀ rs, rs ∈ seats ↔ rs ∈ ro_seats roster) as Hin by (intros; apply elem_of_sort_by_key).
  destruct (position_of rs_player local seats) as (li & Hli & Hlat).
  { apply find_first_Some in He as [[i Hi]%list_elem_of_lookup Hpl%bool_decide_eq_true].
    destruct (Forall2_lookup_r _ _ _ _ _ Hep Hi) as (rs & Hrs & _ & seat & _ & _ & E).
    apply list_elem_of_fmap. exists rs. split; [by rewrite E in Hpl|].
    apply Hin. by eapply list_elem_of_lookup_2. }
  destruct (position_of rs_physical_seat (dealer_seat roster) seats) as (di & Hdi & Hdat).
  { unfold seats. rewrite (Permutation_map rs_physical_seat (sort_by_key_perm hand_index (ro_seats roster))).
    apply Hw. }
  destruct (list_choose (λ rs e, ready_endpoint p rs = Ok e ∧ ∃ seat, seat_by_player p (rs_player rs) = Some seat
    ∧ peer_id_from_bytes (tk_peer_id (ji_ticket (sc_intent seat))) = Some e.1) seats) as [es Hes].
  { intros rs Hrs%Hin. rewrite Forall_forall in Hcopy.
    destruct (ready_endpoint_ok p now rs Hok (Hcopy rs Hrs) Hd) as (seat & peer & address & ? & ? & ?). eauto 6. }
  assert (try_collect (ready_endpoint p) seats = Ok es) as Hcol.
  { apply try_collect_Ok. eapply Forall2_impl; [exact Hes|]. by intros ?? [? _]. }
  eexists. split; [unfold ready_table_from_proposal; fold roster p seats; rewrite Hli; cbn [ok_or mbind result_bind]|].
  { erewrite (position_ext _ (λ s, bool_decide (rs_physical_seat s = dealer_seat roster))), Hdi
      by (intros; apply Zeqb_decide). cbn [ok_or mbind result_bind]. rewrite Hcol. reflexivity. }
  simpl. split_and!; try done.
  - unfold seats. by rewrite length_sort_by_key, hand_indices_positions.
  - apply Forall2_fmap. eapply Forall2_impl; [exact Hes|]. by intros ?? [_ ?].
Qed.

(** ** Two ways to block a room *)

Lemma try_collect_Err {E A B} (f : A → result E B) l x :
  Forall (λ y, not_panic (f y)) l → x ∈ l → is_ok (f x) = false → ∃ e, try_collect f l = Err e.
Proof.
  intros Hp Hx Hf. induction l as [|y l IH]; [set_solver|]. apply Forall_cons in Hp as [Hy Hp]. simpl.
  destruct (f y) as [b|e|] eqn:Hfy; simpl in Hy |- *; [|by eexists|done].
  apply elem_of_cons in Hx as [->|Hx]; [by rewrite Hfy in Hf|]. destruct (IH Hp Hx) as [e ->]. by eexists.
Qed.

Lemma peer_dial_address_no_panic raw peer : not_panic (peer_dial_address raw peer).
Proof.
  unfold peer_dial_address. destruct (multiaddr_from_bytes raw); simpl; [|done].
  unfold reject_if. by do 2 (case_bool_decide; simpl).
Qed.
Lemma try_collect_no_panic {E A B} (f : A → result E B) l :
  (∀ x, not_panic (f x)) → not_panic (try_collect f l).
Proof.
  intros Hf. induction l as [|x l IH]; simpl; [done|]. specialize (Hf x). destruct (f x); simpl in *; try done.
  by destruct (try_collect f l).
Qed.
Lemma direct_room_recipient_no_panic raw addresses : not_panic (direct_room_recipient raw addresses).
Proof.
  unfold direct_room_recipient. destruct (peer_id_from_bytes raw) as [peer|]; simpl; [|done].
  pose proof (try_collect_no_panic (λ raw, peer_dial_address raw peer) addresses
    (λ raw, peer_dial_address_no_panic raw peer)) as Hp.
  destruct (try_collect _ addresses); simpl in *; try done. by destruct (preferred_dial_address _).
Qed.

(** The endpoint check accepts an address that is nothing but the peer
    ([/p2p/PEER]), and no such address can be dialled.  So once a player with
    such a ticket is in the current or the pending membership, the mesh of
    every member that manages its peers can no longer be synchronised: the
    tick fails there, before it publishes anything. *)
Theorem bare_peer_address_blocks peer_id raw peer :
  peer_id_from_bytes peer_id = Some peer → multiaddr_from_bytes raw = Some [P2p peer] →
  (1 <= length raw <= 512)%nat →
  validate_session_endpoint peer_id [raw] = Ok peer
  ∧ ∀ a w mono m j, owns_explicit_peers a = true →
      membership a = Some m ∨ pending_membership a = Some m →
      j ∈ map sc_intent (mp_seats (sp_proposal m)) ++ mp_waiting (sp_proposal m) →
      tk_peer_id (ji_ticket j) = peer_id → raw ∈ tk_addresses (ji_ticket j) →
      ∃ e, synchronize_explicit_session_peers mono (a, w) = (Err e, (a, w)).
Proof.
  intros Hp Hraw Hlen. split.
  { apply validate_session_endpoint_Ok. split; [done|simpl; lia|apply NoDup_singleton|].
    apply Forall_singleton. split; [lia|]. by exists [P2p peer]. }
  intros a w mono m j Howns Hm Hj Hpid Hin.
  assert (is_ok (direct_room_recipient (tk_peer_id (ji_ticket j)) (tk_addresses (ji_ticket j))) = false) as Hbad.
  { unfold direct_room_recipient. rewrite Hpid, Hp. cbn [ok_or mbind result_bind].
    destruct (try_collect_Err (λ raw, peer_dial_address raw peer) (tk_addresses (ji_ticket j)) raw) as [e ->]; try done.
    - apply Forall_forall. intros. apply peer_dial_address_no_panic.
    - unfold peer_dial_address. rewrite Hraw. cbn [ok_or mbind result_bind]. simpl.
      by rewrite bool_decide_true. }
  destruct (try_collect_Err (λ j, direct_room_recipient (tk_peer_id (ji_ticket j)) (tk_addresses (ji_ticket j)))
    (map sc_intent (mp_seats (sp_proposal m)) ++ mp_waiting (sp_proposal m)) j) as [e He]; [|done|done|].
  { apply Forall_forall. intros. apply direct_room_recipient_no_panic. }
  destruct (try_collect_Err (λ s, membership_recipients (sp_proposal s))
    (option_list (membership a) ++ option_list (pending_membership a)) m) as [e' He'].
  { apply Forall_forall. intros. apply try_collect_no_panic. intros. apply direct_room_recipient_no_panic. }
  { destruct Hm as [-> | ->]; set_solver. }
  { unfold membership_recipients. by rewrite He. }
  exists e'. unfold synchronize_explicit_session_peers, session, gets, swarm, lift, mbind, M_bind.
  cbv beta iota zeta. cbn [fst snd]. rewrite Howns. cbn [negb]. unfold desired_peers.
  rewrite He'. by cbn [mbind result_bind].
Qed.

(** A player is one account on one device, and a coordinator never asks
    whether two accounts share a device before it lays the table out: while
    two valid intents of the layout do, its proposal cannot be assembled, the
    tick fails at that point, and the session stays as it was. *)
Theorem shared_device_blocks a device c now m seats waiting :
  pending_membership a = None → membership a = Some m →
  next_membership_layout a (canonical_player_joins a now) = Ok (seats, waiting) →
  canonical_player_joins a now ≠ [] →
  seat_claim <$> find_first (λ s, bool_decide (ji_player (sc_intent s) = ji_player (local_join a))) seats
    = seat_claim <$> min_by (λ x y, compare (sc_seat x) (sc_seat y)) seats →
  seats ≠ [] → membership_layout_unchanged (Some m) seats waiting = false →
  ¬ NoDup (map ji_device (map sc_intent seats ++ waiting)) →
  is_ok (maybe_propose_membership device c now a).1 = false
  ∧ (maybe_propose_membership device c now a).2 = a.
Proof.
  intros Hp Hm Hl Hj Hco Hs Hu Hd.
  unfold maybe_propose_membership, get, gets, lift, mbind, M_bind. cbv beta iota zeta.
  rewrite Hp, Hm, bool_decide_false, Hl by done.
  destruct (min_by _ seats) as [low|] eqn:Hmin; [|by destruct seats].
  rewrite Hco. cbn [fmap option_fmap option_map]. rewrite bool_decide_true by done. cbn [negb]. rewrite Hu.
  destruct (assemble _ _ _ _ _ _ _ _) as [p| |] eqn:Has; [|done..]. exfalso. apply Hd.
  unfold assemble in Has. apply bind_Ok in Has as ([] & Hok%validate_contents_Ok & _).
  destruct (po_people _ _ Hok) as [_ Hdev]. simpl in Hdev. rewrite !map_app, !map_map in Hdev |- *.
  rewrite (Permutation_map _ (sort_by_key_perm sc_seat seats)),
    (Permutation_map _ (sort_by_key_perm ji_claim_id waiting)) in Hdev.
  rewrite !map_map in Hdev. exact Hdev.
Qed.
End specs.

(** ** Examples: a toy swarm *)
#[local] Existing Instance toy_crypto.
#[local] Existing Instance toy_libp2p.

(** The payload of one byte is the join intent of Cleo. *)
#[local] Instance toy_codec : RoomCodec := {|
  decode_envelope := λ payload,
    match payload with
    | [_] => Some (mkEnvelope ROOM_WIRE_ENVELOPE_VERSION (replicate 16 0)
                     (WireSession (MsgJoinIntent (intent_as cleo 13))))
    | _ => None
    end;
  encode_envelope := λ e, Some (env_emission_nonce e);
  encode_message := λ _, Some [];
|}.
Definition toy_world (peer : Z) : @World toy_libp2p := {|
  world := Z;
  local_peer_id := λ _, peer;
  is_connected := λ _ _, true;
  room_gossip_enabled := λ _, true;
  pool_gossip_enabled := λ _, true;
  add_peer_address := λ _ _ w, w;
  add_explicit_peer := λ _ w, w;
  remove_explicit_peer := λ _ w, w;
  retain_peer_connection := λ _ w, w;
  release_peer_connection := λ _ w, w;
  dial := λ _ _ w, (true, w);
  send_request := λ _ _ w, (w, w + 1);
  gossip_publish := λ _ _ w, (true, w);
  gossip_subscribe := λ _ w, (true, w);
  gossip_unsubscribe := λ _ w, w;
  fill_bytes := λ n w, (replicate n w, w + 1);
  hex_encode := λ _, "table"%string;
|}.

(** A membership of three without leaves, and its certificate. *)
Definition three_seats : list MembershipSeatClaim :=
  [mkSeatClaim 2 (intent_as anna 11); mkSeatClaim 5 (intent_as ben 12); mkSeatClaim 6 (intent_as cleo 13)].
Definition three_proposal : MembershipProposal :=
  let p := draft table_nine pool_level 1 None three_seats [] [] in
  set_proposal_hash (toy_blake3 (proposal_bytes p)) p.
Definition three_signed : SignedMembershipProposal :=
  let claim := ji_claim_id (intent_as anna 11) in
  mkSignedProposal 1 three_proposal claim
    (attest_as anna MEMBERSHIP_PROPOSAL_DOMAIN
       (canonical_signed_membership_bytes 1 (proposal_hash three_proposal) claim)).
Definition three_certificate : CertifiedMembership :=
  let hash := proposal_hash three_proposal in
  mkCertifiedMembership three_signed
    [acceptance_as anna hash (intent_as anna 11); acceptance_as ben hash (intent_as ben 12);
     acceptance_as cleo hash (intent_as cleo 13)].
Definition room_of (j : JoinIntent) : ActiveSession :=
  ActiveSession_new table_nine (cert_player_id anna.2) j "room" None.
(** What a device does with a message at time 3000. *)
Definition receives (key : list Z * DeviceCertificate) (source : Z) (m : RoomWireMessage) (mono : Z)
    (a : ActiveSession) : ActiveSession :=
  (process_message (Some source) m key.1 key.2 3000 mono a).2.

(** ** A membership that changes during a hand

    Anna coordinates a table of three.  She proposes the roster of the first
    hand; Ben, who has signed it, asks to leave before she has everyone's
    signature, so her tick proposes a membership without him; then the last
    signatures of both arrive, the roster's first. *)
Definition ticks (key : list Z * DeviceCertificate) (peer mono : Z) (a : ActiveSession) : ActiveSession :=
  (@tick _ _ _ (toy_world peer) [] key.1 key.2 3000 mono (a, 0)).2.1.
Definition message_or {A} (r : result TableSessionProtocolError A) (m : A → RoomWireMessage) : RoomWireMessage :=
  match r with Ok x => m x | _ => WireCertifiedMembership three_certificate end.
Definition roster_message_or {A} (r : result HandRosterProtocolError A) (m : A → RoomWireMessage)
    : RoomWireMessage :=
  match r with Ok x => m x | _ => WireCertifiedMembership three_certificate end.
Definition accept_pending_membership (a : ActiveSession) (key : list Z * DeviceCertificate) (j : JoinIntent)
    : RoomWireMessage :=
  match pending_membership a with
  | Some p => message_or (acceptance_issue p (ji_claim_id j) 3000 key.1 key.2)
                (λ c, WireSession (MsgMembershipAcceptance c))
  | None => WireCertifiedMembership three_certificate
  end.
Definition accept_pending_roster (a : ActiveSession) (key : list Z * DeviceCertificate) (j : JoinIntent)
    : RoomWireMessage :=
  match pending_roster a with
  | Some r => roster_message_or (roster_acceptance_issue r (ji_claim_id j) 3000 key.1 key.2)
                (λ c, WireRoster (RosterAcceptanceMsg c))
  | None => WireCertifiedMembership three_certificate
  end.

Definition race_start : ActiveSession :=
  receives anna 11 (WireCertifiedMembership three_certificate) 0 (room_of (intent_as anna 11)).
Definition race_roster : ActiveSession := ticks anna 11 (seconds 3) race_start.
Definition race_leave : ActiveSession :=
  receives anna 12 (WireSession (MsgLeaveIntent (leave_as ben))) (seconds 3) race_roster.
Definition race_both : ActiveSession := ticks anna 11 (seconds 4) race_leave.
Definition race_hand : ActiveSession :=
  receives anna 13 (accept_pending_roster race_both cleo (intent_as cleo 13)) (seconds 5)
    (receives anna 12 (accept_pending_roster race_both ben (intent_as ben 12)) (seconds 5) race_both).
Definition race_end : ActiveSession :=
  receives anna 13 (accept_pending_membership race_both cleo (intent_as cleo 13)) (seconds 5) race_hand.

(** ** A player who comes back during a hand

    Ben lost his session and joins again while hand 7, which he signed, is
    played.  The certificates of the membership and of the roster reach him. *)
Definition example_certificate : CertifiedMembership :=
  mkCertifiedMembership (example_signed 2 5) example_acceptances.
Definition roster_of_hand (n : Z) : ReadyHandRoster :=
  let r := mkRoster table_nine n 3 (Some (replicate 32 8)) 2 (roster_seats (map as_member (example_seats 2 5)))
             (replicate 32 0) in
  set_roster_hash (toy_blake3 (roster_canonical_bytes r)) r.
Definition roster_proposal_of_hand (n : Z) : HandRosterProposal :=
  let p := mkRosterProposal 1 (roster_of_hand n) (proposal_hash (example_proposal 2 5))
             [from_seat 0 (mkSeatClaim 2 (intent_as anna 11)); from_seat 1 (mkSeatClaim 5 (intent_as ben 12))]
             (replicate 32 0) in
  set_hp_hash (toy_blake3 (roster_bytes p)) p.
Definition signed_roster_of_hand (n : Z) : SignedHandRosterProposal :=
  let claim := ji_claim_id (intent_as anna 11) in
  mkSignedRoster 1 (roster_proposal_of_hand n) (example_signed 2 5) claim
    (attest_as anna HAND_ROSTER_PROPOSAL_DOMAIN
       (canonical_signed_roster_bytes 1 (hp_hash (roster_proposal_of_hand n)) claim)).
Definition roster_signature (n : Z) (key : list Z * DeviceCertificate) (j : JoinIntent) : HandRosterAcceptance :=
  let hash := hp_hash (roster_proposal_of_hand n) in
  mkRosterAcceptance 1 hash (ji_claim_id j) (ji_player j) (ji_device j) 3000
    (attest_as key HAND_ROSTER_ACCEPTANCE_DOMAIN
       (canonical_roster_acceptance_bytes 1 hash (ji_claim_id j) (ji_player j) (ji_device j) 3000)).
Definition roster_certificate_of_hand (n : Z) : CertifiedRoster :=
  mkCertifiedRoster (signed_roster_of_hand n)
    [roster_signature n anna (intent_as anna 11); roster_signature n ben (intent_as ben 12)].

Definition back_in_hand : ActiveSession :=
  receives ben 11 (WireCertifiedRoster (roster_certificate_of_hand 7)) 0
    (receives ben 11 (WireCertifiedMembership example_certificate) 0 (room_of (intent_as ben 14))).
Definition back_after_hand : ActiveSession :=
  (finish_hand_boundary (replicate 32 4) 2 (seconds 1) back_in_hand).2.

(** A hand can lose a participant's membership: during the hand of
    [race_end] the current membership, activated meanwhile, has no seat for
    Ben, who plays the hand; the same proposal, had it arrived a moment later,
    would have been refused for removing a participant. *)
Theorem membership_changes_during_hand :
  hand_active race_hand = true ∧ hand_active race_end = true
  ∧ option_map (λ r, map rs_player (ro_seats (ready_roster (sr_proposal r)))) (active_roster race_end)
    = Some [cert_player_id anna.2; cert_player_id ben.2; cert_player_id cleo.2]
  ∧ option_map (λ m, seat_by_player (sp_proposal m) (cert_player_id ben.2)) (membership race_end) = Some None
  ∧ option_map (validate_membership_scope race_hand) (pending_membership race_hand)
    = Some (Err ParticipantRemovedDuringHand).
Proof. vm_compute. repeat split. Qed.

(** A roster certificate that reaches a player whose hand clock is not
    known starts the hand without setting the clock: back at hand 7, the
    session still counts from 1, goes on to 2 when the hand ends, and from
    then on refuses the roster of hand 8 in either form, so it can sign no
    further hand. *)
Theorem certified_roster_keeps_stale_clock :
  hand_active back_in_hand = true ∧ option_map rt_hand_number (ready_table back_in_hand) = Some 7
  ∧ next_hand_number back_in_hand = 1
  ∧ next_hand_number back_after_hand = 2 ∧ hand_clock_known back_after_hand = true
  ∧ (∀ mono, (process_message (Some 11) (WireCertifiedRoster (roster_certificate_of_hand 8)) ben.1 ben.2 3000
       mono back_after_hand).1 = Err RosterHandNumberMismatch)
  ∧ (∀ mono, (process_message (Some 11) (WireRoster (RosterProposalMsg (signed_roster_of_hand 8))) ben.1 ben.2
       3000 mono back_after_hand).1 = Err RosterHandNumberMismatch).
Proof. split_and!; [vm_compute; reflexivity..| |]; intros mono; vm_compute; reflexivity. Qed.

(** ** Witnesses *)
#[local] Existing Instance toy_crypto_laws.
#[local] Instance anna_world : World := toy_world 11.
Definition example_room : ActiveSession :=
  match (create table_nine (cert_player_id anna.2) (ticket_as anna 11) anna.1 anna.2 3000 0 0).1 with
  | Ok (a, _) => a
  | _ => room_of (intent_as anna 11)
  end.
Lemma example_room_reachable : room_reachable (Some example_room).
Proof.
  exists (0 : @world _ anna_world), (1 : @world _ anna_world). apply rtc_once.
  eapply step_create with (table := table_nine) (creator := cert_player_id anna.2)
    (ticket := ticket_as anna 11) (device := anna.1) (c := anna.2) (now := 3000) (mono := 0).
  vm_compute. reflexivity.
Qed.

Lemma session_invariant_witness :
  session_ok example_room ∧ option_map (λ m, length (mp_seats (sp_proposal m))) (membership example_room) = Some 1%nat.
Proof. split; [apply (session_invariant example_room example_room_reachable)|vm_compute; reflexivity]. Defined.

(** Cleo asks to join, and the tick proposes a membership with her. *)
Definition example_room_asked : ActiveSession :=
  (handle_message (Some 13) [0] anna.1 anna.2 3000 (seconds 1) example_room).2.
Definition example_room_later : ActiveSession := ticks anna 11 (seconds 1) example_room_asked.
Definition example_world_later : world :=
  (tick [] anna.1 anna.2 3000 (seconds 1) (example_room_asked, 0 : @world _ anna_world)).2.2.
Lemma example_run :
  rtc session_step (example_room, 0 : @world _ anna_world) (example_room_later, example_world_later).
Proof.
  eapply rtc_l; [exact (step_message example_room (0 : @world _ anna_world) (Some 13) [0] anna.1 anna.2 3000 (seconds 1))|].
  apply rtc_once. pose proof (step_tick example_room_asked (0 : @world _ anna_world) [] anna.1 anna.2 3000 (seconds 1)) as Hs.
  unfold example_room_later, example_world_later, ticks.
  fold example_room_asked. by destruct (tick _ _ _ _ _ _) as [? []].
Qed.

Lemma membership_history_witness :
  rtc succeeds (membership example_room) (membership example_room_later)
  ∧ option_map (λ p, map sc_seat (mp_seats (sp_proposal p))) (pending_membership example_room_later) = Some [1; 2].
Proof.
  split; [|vm_compute; reflexivity].
  apply (membership_history example_room (0 : @world _ anna_world) example_room_later example_world_later);
    [exact example_room_reachable|exact example_run].
Defined.

Lemma example_room_later_reachable : room_reachable (Some example_room_later).
Proof.
  destruct example_room_reachable as (w0 & w & Hr). exists w0, example_world_later.
  eapply rtc_trans; [exact Hr|].
  eapply rtc_l; [exact (step_idle (Some example_room) w (0 : @world _ anna_world))|].
  apply session_run_room, example_run.
Qed.
Lemma delivery_bounded_witness :
  NoDup (map gd_message_hash (consensus_gossip_deliveries example_room_later))
  ∧ length (consensus_gossip_deliveries example_room_later) = 1%nat.
Proof.
  split; [|vm_compute; reflexivity]. apply (delivery_bounded example_room_later example_room_later_reachable).
Defined.

Definition leaving_room : ActiveSession :=
  { (room_of (intent_as anna 11)) with local_leave := Some (leave_as anna);
    local_leave_started_at := Some 0 }.
Lemma forced_leave_due_witness :
  ∃ reason, force_local_leave_if_due false (seconds 120) leaving_room
    = (Ok [SafeLeaveForced table_nine (reason_str reason) 120000; SafeLeaveCompleted table_nine],
       { leaving_room with leave_completed := true }).
Proof.
  apply (forced_leave_due leaving_room false (seconds 120) (leave_as anna) 0); [reflexivity..|].
  left. vm_compute. discriminate.
Defined.

Definition signed_room : ActiveSession :=
  { (room_of (intent_as anna 11)) with pending_membership := Some three_signed;
    membership_acceptances := list_to_map (map (λ c, (ac_claim c, c)) (cm_acceptances three_certificate)) }.
Lemma certificate_spreads_witness :
  ∃ events a' c, finalize_membership_if_ready 3000 0 signed_room = (Ok events, a')
    ∧ membership a' = Some three_signed
    ∧ ∃ events' b', on_certified_membership (Some 11) c 3000 0 (room_of (intent_as ben 12)) = (Ok (Some events'), b')
        ∧ membership b' = Some three_signed.
Proof.
  destruct (certificate_spreads signed_room three_signed 3000 0) as (events & a' & c & Hf & Hm & _ & _ & Hv & Hall & _);
    [reflexivity|vm_compute; reflexivity|vm_compute; reflexivity|].
  exists events, a', c. split; [exact Hf|]. split; [exact Hm|].
  destruct (proj2 (Hall (room_of (intent_as ben 12)) (Some 11) 3000 0 Hv)) as (events' & b' & Ho & Hb & _).
  - split; [exists 11, (intent_as anna 11); split; [reflexivity|]; split; [vm_compute; left|reflexivity]|].
    split; [reflexivity|]. split; [reflexivity|]. split; [vm_compute; right; left|by split].
  - exists events', b'. by split.
Defined.

Lemma ready_table_of_roster_witness :
  ∃ t, ready_table_from_proposal (signed_roster_of_hand 7) (cert_player_id ben.2) = Ok t
    ∧ rt_hand_number t = 7 ∧ rt_players t !! local_seat t = Some (cert_player_id ben.2).
Proof.
  destruct (ready_table_of_roster (signed_roster_of_hand 7) 3000 (cert_player_id ben.2))
    as (t & Ht & Hn & _ & _ & _ & _ & _ & _ & Hl & _).
  - vm_compute. reflexivity.
  - vm_compute. eauto.
  - intros s. change (mp_seats _) with (example_seats 2 5). unfold example_seats.
    rewrite !elem_of_cons, elem_of_nil. intros [->|[->|[]]]; eexists; (split; [reflexivity|]);
      repeat constructor; vm_compute; reflexivity.
  - exists t. split; [exact Ht|]. by split.
Defined.

(** Ben with the bare address [/p2p/12]. *)
Definition bare_ticket : PoolTicket :=
  mkTicket 2 (cert_player_id ben.2) (cert_device ben.2) [12] [[0; 12]] pool_level 900000 2000 900000
    (replicate 16 7)
    (attest_as ben POOL_TICKET_DOMAIN
       (canonical_ticket_bytes 2 (cert_player_id ben.2) (cert_device ben.2) [12] [[0; 12]] pool_level
          900000 2000 900000 (replicate 16 7))).
Definition bare_intent : JoinIntent :=
  mkJoinIntent 1 table_nine bare_ticket 2500 800000 (replicate 16 3)
    (attest_as ben JOIN_INTENT_DOMAIN
       (canonical_join_intent_bytes 1 table_nine (ticket_id bare_ticket) 2500 800000 (replicate 16 3))).
Definition bare_room : ActiveSession :=
  let p := draft table_nine pool_level 1 None [mkSeatClaim 1 (intent_as anna 11); mkSeatClaim 2 bare_intent] [] [] in
  { (room_of (intent_as anna 11)) with owns_explicit_peers := true;
    pending_membership := Some (mkSignedProposal 1 p (ji_claim_id (intent_as anna 11)) (ji_attestation bare_intent)) }.
Lemma bare_peer_address_blocks_witness :
  join_verify_at bare_intent 3000 = Ok tt
  ∧ ∃ e, synchronize_explicit_session_peers 0 (bare_room, 0 : @world _ anna_world)
         = (Err e, (bare_room, 0 : @world _ anna_world)).
Proof.
  split; [vm_compute; reflexivity|].
  destruct (bare_peer_address_blocks [12] [0; 12] (12 : @PeerId toy_libp2p)) as [_ Hall]; [reflexivity|reflexivity|simpl; lia|].
  eapply (Hall bare_room (0 : @world _ anna_world) 0 _ bare_intent); [reflexivity|right; reflexivity| |reflexivity|].
  - vm_compute. right. left.
  - left.
Defined.

(** Dora's account on Ben's device. *)
Definition dora : list Z * DeviceCertificate := device_of 7 4.
Definition crowded_room : ActiveSession :=
  { (room_of (intent_as anna 11)) with membership := Some (example_signed 1 5);
    joins := list_to_map (map (λ j, (ji_claim_id j, j)) [intent_as anna 11; intent_as ben 12; intent_as dora 15]) }.
Lemma shared_device_blocks_witness :
  is_ok (maybe_propose_membership anna.1 anna.2 3000 crowded_room).1 = false
  ∧ (maybe_propose_membership anna.1 anna.2 3000 crowded_room).2 = crowded_room.
Proof.
  eapply (shared_device_blocks crowded_room anna.1 anna.2 3000 (example_signed 1 5)).
  - reflexivity.
  - reflexivity.
  - vm_compute. reflexivity.
  - vm_compute. discriminate.
  - vm_compute. reflexivity.
  - discriminate.
  - vm_compute. reflexivity.
  - intros Hnd. apply (bool_decide_eq_true_2 (NoDup _)) in Hnd. vm_compute in Hnd. discriminate Hnd.
Defined.
