(* ===== verification/PoolRuntime.v ===== *)
(** * PoolRuntime: finding a table (token-holdem-sidecar table_pool_runtime.rs)

    A player looks for a table in a public pool: tickets say who is looking,
    advertisements say which tables have room, and the player joins a table or,
    when it is its turn to, opens one.  [ActivePool] is the state; a method on
    [&mut] with the swarm keeps the changes made before an error.  Time on the
    monotonic clock is in nanoseconds.  CBOR is external ([PoolCodec]). *)

From coqutil Require Import Datatypes.RecordSetters.
From S2P Require Import Prelude Machine Encoding Order Ids Table TablePool Membership.
From S2P Require Import Identity Session NetworkAddress PoolProtocol TableSession SessionState Swarm.
Import OCamlLikeNotations.

Definition TICKET_LIFETIME_MS : Z := 30 * 60 * 1000.
Definition ADVERTISEMENT_LIFETIME_MS : Z := 20000.
Definition TICKET_RENEWAL_MARGIN_MS : Z := 5 * 60 * 1000.
Definition TICKET_REPUBLISH_INTERVAL : Z := seconds 5.
Definition ADVERTISEMENT_REPUBLISH_INTERVAL : Z := seconds 5.
Definition DIRECT_SYNC_INTERVAL : Z := seconds 5.
Definition FIRST_CREATOR_DELAY : Z := seconds 4.
Definition CREATOR_FALLBACK_INTERVAL : Z := seconds 2.
Definition JOIN_ATTEMPT_TIMEOUT : Z := seconds 20.
Definition MAX_POOL_MESSAGE_BYTES : Z := 128 * 1024.
Definition MAX_TICKETS : nat := 256.
Definition MAX_ADVERTISEMENTS : nat := 128.
Definition MAX_DIRECT_SYNC_MESSAGES : nat := 2.
Definition MAX_DIRECT_SYNC_PEERS : nat := 64.

(** [Duration]: at most [u64::MAX] seconds and a second less a nanosecond. *)
Definition DURATION_MAX : Z := u64_max * 1000000000 + 999999999.
Definition duration_saturating_mul (d n : Z) : Z := Z.min DURATION_MAX (d * n).
Definition duration_checked_add (d e : Z) : option Z := if d + e <=? DURATION_MAX then Some (d + e) else None.

(** What the methods report through [anyhow]. *)
Inductive PoolError :=
  | NotInPool | PoolMessageSize | PoolMessageNotCbor | PoolEncodingFailed | PoolSubscribeFailed
  | PoolSourceMissing | PoolPeerInvalid | PoolSourceMismatch
  | TicketForOtherLevel | AdvertisementForOtherLevel | TicketCacheFull | AdvertisementCacheFull
  | TooManySyncMessages | SyncWithoutPool | SyncUnknown | SyncWrongPeer | NotJoiningTable
  | LocalTicketNotRanked | RankOutOfRange | CreatorDelayOverflow | PoolLifetimeOverflow
  | PoolAddressInvalid | PoolAddressPeerMismatch | PoolNoAddress
  | PoolRefused (e : TablePoolProtocolError).

Inductive PoolWarning := IdentityConflict | SyncRejected (reason : string) | SyncUnexpected.
Inductive TablePoolEvent :=
  | PoolJoined (topic level_id : string) (buy_in : Z)
  | TicketPublished (ticket : PoolTicketId) (published_to_mesh : bool)
  | DirectoryUpdated (discovered_tables waiting_players : Z)
  | JoiningTable (table : TableId) (members waiting : Z)
  | JoinAttemptExpired (table : TableId)
  | CreatingTable (table : TableId)
  | TableJoined (table : TableId)
  | PoolCancelled
  | PoolWarned (w : PoolWarning).

Inductive PoolDecision :=
  | PoolJoin (a : TableAdvertisement)
  | PoolCreate (table : TableId) (creator : PlayerId).

Inductive PoolPhase :=
  | Searching
  | PhaseJoining (table : TableId) (started_at : Z)
  | Creating (table : TableId)
  | InRoom.
Record DirectSyncStamp := mkStamp {
  message_hash : list Z;
  sent_at : Z;
}.
Inductive PoolMessageTransport := Gossip | Direct.
#[export] Instance PoolMessageTransport_eq_dec : EqDecision PoolMessageTransport.
Proof. solve_decision. Defined.

(** [cbor4ii::serde]: a message, a directory and their bytes. *)
Class PoolCodec := {
  encode_pool : TablePoolMessage → option (list Z);
  decode_pool : list Z → option TablePoolMessage;
  encode_directory : list TablePoolMessage → option (list Z);
}.

Record ActivePool `{Libp2p} := mkPool {
  pl_topic : string;
  local_ticket : PoolTicket;
  pl_tickets : gmap PoolTicketId PoolTicket;
  pl_advertisements : gmap TableId TableAdvertisement;
  rejected_tables : gset TableId;
  explicit_peers : gset PeerId;
  search_started_at : Z;
  pl_phase : PoolPhase;
  local_advertisement : option LocalTableAdvertisement;
  last_ticket_published_at : option Z;
  last_advertisement_published_at : option Z;
  pending_direct_syncs : gmap OutboundRequestId PeerId;
  direct_sync_stamps : gmap PeerId DirectSyncStamp;
  identity_conflict_peers : gset PeerId;
  last_reported_directory : option (Z * Z);
}.
Definition TablePoolRuntime `{Libp2p} : Type := option ActivePool.

(** A function on [&mut ActivePool], or on [&mut TablePoolRuntime], with the
    swarm. *)
Notation PoolM := (M (ActivePool * world) PoolError).
Notation PoolRuntimeM := (M (TablePoolRuntime * world) PoolError).

Section pool_runtime.
Context `{Crypto, Libp2p, !World, !PoolCodec}.
Implicit Types a : ActivePool.

Definition pool_now : PoolM ActivePool := gets fst.
Definition set_pool (f : ActivePool → ActivePool) : PoolM unit := modify (λ s, (f s.1, s.2)).
Definition pool_net {A} (f : world → A) : PoolM A := gets (λ s, f s.2).
Definition pool_call {A} (f : world → A * world) : PoolM A := λ s, let '(v, w) := f s.2 in (Ok v, (s.1, w)).
Definition pool_effect (f : world → world) : PoolM unit := modify (λ s, (s.1, f s.2)).

(** ** Documents of this player *)

(** [issue_ticket], [issue_advertisement]. *)
Definition issue_ticket (level : StakeLevel) (buy_in : Z) (addresses : list Multiaddr) (device : list Z)
    (certificate : DeviceCertificate) (now : Z) : M world PoolError PoolTicket :=
  expires ← lift (ok_or (u64_checked_add now TICKET_LIFETIME_MS) PoolLifetimeOverflow);
  local ← gets local_peer_id;
  nonce ← (λ w, let '(b, w) := fill_bytes 16 w in (Ok b, w));
  lift (map_err PoolRefused
    (ticket_issue (peer_id_to_bytes local) (map multiaddr_to_bytes addresses) level buy_in now expires nonce
       device certificate)).
Definition issue_advertisement (t : PoolTicket) (snapshot : LocalTableAdvertisement)
    (addresses : list Multiaddr) (device : list Z) (certificate : DeviceCertificate) (now : Z)
    : M world PoolError TableAdvertisement :=
  expires ← lift (ok_or (u64_checked_add now ADVERTISEMENT_LIFETIME_MS) PoolLifetimeOverflow);
  nonce ← (λ w, let '(b, w) := fill_bytes 16 w in (Ok b, w));
  lift (map_err PoolRefused
    (advertisement_issue (la_table_id snapshot) (tk_level t) (la_members snapshot) (la_waiting snapshot)
       (la_lifecycle snapshot) (la_membership_version snapshot) (la_membership_hash snapshot)
       (la_creator snapshot) (tk_peer_id t) (map multiaddr_to_bytes addresses) now expires nonce device
       certificate)).
Definition in_world {A} (m : M world PoolError A) : PoolM A := λ s, let '(v, w) := m s.2 in (v, (s.1, w)).

(** [local_directory_messages]. *)
Definition local_directory_messages a : list TablePoolMessage :=
  Ticket (local_ticket a)
  :: match local_advertisement a with
     | Some local => match pl_advertisements a !! la_table_id local with
                     | Some ad => [Advertisement ad]
                     | None => []
                     end
     | None => []
     end.

(** ** The directory *)

(** [verified_source], [push_identity_conflict_warning]. *)
Definition verified_source (source : option PeerId) (expected : list Z) : result PoolError PeerId :=
  source ← ok_or source PoolSourceMissing;
  expected ← ok_or (peer_id_from_bytes expected) PoolPeerInvalid;
  _ ← reject_if (negb (bool_decide (source = expected))) PoolSourceMismatch;
  Ok source.
Definition push_identity_conflict_warning (source : PeerId) : PoolM (list TablePoolEvent) :=
  a ← pool_now;
  if bool_decide (source ∈ identity_conflict_peers a) then mret [] else
  _ ← set_pool (λ a, { a with identity_conflict_peers ::= λ s, {[source]} ∪ s });
  mret [PoolWarned IdentityConflict].

(** The table of this player still takes players. *)
Definition accepts_players a : bool :=
  match local_advertisement a with
  | Some ad => negb (bool_decide (la_lifecycle ad = Closing)) && (la_members ad <? TABLE_CAPACITY)
  | None => false
  end.

(** [merge_pool_message], its two arms; a newer ticket replaces the older ones
    of its player and session, but not the local ticket. *)
Definition retain_beside (local_id : PoolTicketId) (t : PoolTicket) (m : gmap PoolTicketId PoolTicket)
    : gmap PoolTicketId PoolTicket :=
  filter (λ e : PoolTicketId * PoolTicket,
    e.1 = local_id ∨ tk_player_id e.2 ≠ tk_player_id t ∨ tk_peer_id e.2 ≠ tk_peer_id t) m.
Definition merge_ticket (source : option PeerId) (t : PoolTicket) (now : Z) (transport : PoolMessageTransport)
    : PoolM (list TablePoolEvent) :=
  if bool_decide (transport = Direct) && is_signed_time_window_expired (tk_expires_at t) now then mret [] else
  _ ← lift (map_err PoolRefused (ticket_verify_at t now));
  source ← lift (verified_source source (tk_peer_id t));
  a ← pool_now;
  if negb (bool_decide (tk_level t = tk_level (local_ticket a))) then
    if bool_decide (transport = Direct) then mret [] else lift (Err TicketForOtherLevel)
  else if bool_decide (tk_player_id t = tk_player_id (local_ticket a))
          && negb (bool_decide (tk_peer_id t = tk_peer_id (local_ticket a)))
  then push_identity_conflict_warning source else
  let id := ticket_id t in
  let is_new := bool_decide (pl_tickets a !! id = None) in
  _ ← lift (reject_if ((MAX_TICKETS <=? size (pl_tickets a))%nat && is_new) TicketCacheFull);
  let local_id := ticket_id (local_ticket a) in
  _ ← set_pool (λ a, { a with pl_tickets ::= λ m, <[id := t]> (retain_beside local_id t m) });
  if is_new && accepts_players a
  then _ ← set_pool (λ a, { a with last_advertisement_published_at := None }); mret []
  else mret [].
Definition replaces (ad : TableAdvertisement) (current : option TableAdvertisement) : bool :=
  match current with
  | None => true
  | Some c => (ad_membership_version c <? ad_membership_version ad)
              || ((ad_membership_version ad =? ad_membership_version c) && (ad_expires_at c <? ad_expires_at ad))
  end.
Definition merge_advertisement (source : option PeerId) (ad : TableAdvertisement) (now : Z)
    (transport : PoolMessageTransport) : PoolM (list TablePoolEvent) :=
  if bool_decide (transport = Direct) && is_signed_time_window_expired (ad_expires_at ad) now then mret [] else
  _ ← lift (map_err PoolRefused (advertisement_verify_at ad now));
  source ← lift (verified_source source (admission_peer_id ad));
  a ← pool_now;
  if negb (bool_decide (ad_level ad = tk_level (local_ticket a))) then
    if bool_decide (transport = Direct) then mret [] else lift (Err AdvertisementForOtherLevel)
  else if bool_decide (signer_player_id ad = tk_player_id (local_ticket a))
          && negb (bool_decide (admission_peer_id ad = tk_peer_id (local_ticket a)))
  then push_identity_conflict_warning source else
  let current := pl_advertisements a !! ad_table_id ad in
  _ ← lift (reject_if ((MAX_ADVERTISEMENTS <=? size (pl_advertisements a))%nat && bool_decide (current = None))
              AdvertisementCacheFull);
  if replaces ad current
  then _ ← set_pool (λ a, { a with pl_advertisements ::= λ m, <[ad_table_id ad := ad]> m }); mret []
  else mret [].
Definition merge_pool_message (source : option PeerId) (m : TablePoolMessage) (now : Z)
    (transport : PoolMessageTransport) : PoolM (list TablePoolEvent) :=
  match m with
  | Ticket t => merge_ticket source t now transport
  | Advertisement ad => merge_advertisement source ad now transport
  end.

(** [merge_direct_messages]. *)
Fixpoint merge_all (source : PeerId) (now : Z) (messages : list TablePoolMessage) : PoolM (list TablePoolEvent) :=
  match messages with
  | [] => mret []
  | m :: messages =>
      events ← merge_pool_message (Some source) m now Direct;
      rest ← merge_all source now messages;
      mret (events ++ rest)
  end.
Definition merge_direct_messages (source : PeerId) (messages : list TablePoolMessage) (now : Z)
    : PoolM (list TablePoolEvent) :=
  _ ← lift (reject_if (MAX_DIRECT_SYNC_MESSAGES <? length messages)%nat TooManySyncMessages);
  merge_all source now messages.

(** [push_directory_event_if_changed]. *)
Definition u16_or_max (n : nat) : Z := Z.min u16_max (Z.of_nat n).
Definition push_directory_event_if_changed (now : Z) : PoolM (list TablePoolEvent) :=
  a ← pool_now;
  let tables := u16_or_max (size (pl_advertisements a)) in
  let waiting := u16_or_max (length (rank_pool_tickets (btree_values (pl_tickets a)) (tk_level (local_ticket a)) now)) in
  if bool_decide (last_reported_directory a = Some (tables, waiting)) then mret [] else
  _ ← set_pool (λ a, { a with last_reported_directory := Some (tables, waiting) });
  mret [DirectoryUpdated tables waiting].

(** ** Connections *)

(** The address of a document, without the peer at its end, and the best of
    them. *)
Definition pool_dial_address (peer : PeerId) (raw : list Z) : result PoolError Multiaddr :=
  address ← ok_or (multiaddr_from_bytes raw) PoolAddressInvalid;
  _ ← reject_if (negb (bool_decide (last address = Some (P2p peer)))) PoolAddressPeerMismatch;
  Ok (removelast address).
Definition dial_best (peer : PeerId) (raw_addresses : list (list Z)) : PoolM unit :=
  addresses ← lift (try_collect (pool_dial_address peer) raw_addresses);
  address ← lift (ok_or (preferred_dial_address addresses) PoolNoAddress);
  _ ← pool_call (dial peer [address]);
  mret tt.
(** [dial_advertisement]. *)
Definition dial_advertisement (ad : TableAdvertisement) : PoolM unit :=
  peer ← lift (ok_or (peer_id_from_bytes (admission_peer_id ad)) PoolPeerInvalid);
  local ← pool_net local_peer_id;
  connected ← pool_net (λ w, is_connected w peer);
  if connected || bool_decide (peer = local) || negb (should_initiate_peer_dial local peer) then mret tt
  else dial_best peer (admission_addresses ad).
(** [synchronize_explicit_pool_peers]. *)
Definition synchronize_ticket_peer (t : PoolTicket) : PoolM unit :=
  match peer_id_from_bytes (tk_peer_id t) with
  | None => mret tt
  | Some peer =>
      local ← pool_net local_peer_id;
      a ← pool_now;
      if bool_decide (peer = local) || bool_decide (peer ∈ explicit_peers a)
         || negb (should_initiate_peer_dial local peer) then mret tt else
      connected ← pool_net (λ w, is_connected w peer);
      if (connected : bool) then
        _ ← pool_effect (add_explicit_peer peer);
        _ ← pool_effect (retain_peer_connection peer);
        set_pool (λ a, { a with explicit_peers ::= λ s, {[peer]} ∪ s })
      else dial_best peer (tk_addresses t)
  end.
Definition synchronize_explicit_pool_peers : PoolM unit :=
  a ← pool_now;
  match pl_phase a with
  | InRoom => mret tt
  | _ => if negb (accepts_players a) then mret tt
         else for_each synchronize_ticket_peer (btree_values (pl_tickets a))
  end.
(** The leases of the pool are given back. *)
Definition release_explicit (peer : PeerId) (w : world) : world :=
  release_peer_connection peer (remove_explicit_peer peer w).
Definition release_pool a (w : world) : world :=
  gossip_unsubscribe (pl_topic a) (fold_left (λ w peer, release_explicit peer w) (btree_iter (explicit_peers a)) w).

(** [publish]. *)
Definition publish_pool (topic : string) (m : TablePoolMessage) : PoolM bool :=
  enabled ← pool_net pool_gossip_enabled;
  if negb enabled then mret false else
  payload ← lift (ok_or (encode_pool m) PoolEncodingFailed);
  pool_call (gossip_publish topic payload).

(** [schedule_direct_sync]. *)
Definition sync_peer (messages : list TablePoolMessage) (hash : list Z) (pending : gset PeerId) (mono : Z)
    (peer : PeerId) : PoolM unit :=
  local ← pool_net local_peer_id;
  connected ← pool_net (λ w, is_connected w peer);
  if bool_decide (peer = local) || bool_decide (peer ∈ pending) || negb connected then mret tt else
  a ← pool_now;
  let due := match direct_sync_stamps a !! peer with
             | None => true
             | Some stamp => negb (bool_decide (message_hash stamp = hash))
                             || (DIRECT_SYNC_INTERVAL <=? since mono (sent_at stamp))
             end in
  if negb due then mret tt else
  request ← pool_call (send_request peer (RqTablePoolSync messages));
  set_pool (λ a, { a with pending_direct_syncs ::= λ m, <[request := peer]> m;
                          direct_sync_stamps ::= λ m, <[peer := mkStamp hash mono]> m }).
Definition schedule_direct_sync (peers : list PeerId) (mono : Z) : PoolM unit :=
  a ← pool_now;
  let messages := local_directory_messages a in
  encoded ← lift (ok_or (encode_directory messages) PoolEncodingFailed);
  let pending : gset PeerId := list_to_set (map snd (map_to_list (pending_direct_syncs a))) in
  for_each (sync_peer messages (blake3 encoded) pending mono)
    (take MAX_DIRECT_SYNC_PEERS (btree_iter (list_to_set peers : gset PeerId))).

(** ** Decisions *)

(** [is_remote_admission]. *)
Definition is_remote_admission (admission : list Z) (local : PeerId) : bool :=
  match peer_id_from_bytes admission with Some peer => negb (bool_decide (peer = local)) | None => false end.
(** [decide_singleton_convergence]. *)
Definition convergence_candidate a (local : LocalTableAdvertisement) (peer : PeerId) (ad : TableAdvertisement) : bool :=
  is_remote_admission (admission_peer_id ad) peer && negb (bool_decide (ad_table_id ad = la_table_id local))
  && negb (bool_decide (ad_table_id ad ∈ rejected_tables a))
  && ((2 <=? ad_members ad) || ord_ltb (ad_table_id ad) (la_table_id local)).
Definition decide_singleton_convergence (now : Z) : PoolM (option PoolDecision) :=
  a ← pool_now;
  match local_advertisement a with
  | None => mret None
  | Some local =>
      if negb (convergence_eligible local) then mret None else
      peer ← pool_net local_peer_id;
      let candidates := filter (λ ad, convergence_candidate a local peer ad = true) (btree_values (pl_advertisements a)) in
      match select_table_advertisement candidates (tk_level (local_ticket a)) now with
      | None => mret None
      | Some ad => _ ← dial_advertisement ad; mret (Some (PoolJoin ad))
      end
  end.
(** [decide_next_action]. *)
Definition search_candidate a (peer : PeerId) (ad : TableAdvertisement) : bool :=
  is_remote_admission (admission_peer_id ad) peer && negb (bool_decide (ad_table_id ad ∈ rejected_tables a)).
Definition creator_due a (now : Z) : result PoolError Z :=
  let ranked := rank_pool_tickets (btree_values (pl_tickets a)) (tk_level (local_ticket a)) now in
  rank ← ok_or (position (λ t, bool_decide (ticket_id t = ticket_id (local_ticket a))) ranked) LocalTicketNotRanked;
  rank ← ok_or (if Z.of_nat rank <=? u32_max then Some (Z.of_nat rank) else None) RankOutOfRange;
  ok_or (duration_checked_add FIRST_CREATOR_DELAY (duration_saturating_mul CREATOR_FALLBACK_INTERVAL rank))
    CreatorDelayOverflow.
Definition decide_next_action (now mono : Z) : PoolM (option PoolDecision) :=
  a ← pool_now;
  peer ← pool_net local_peer_id;
  let candidates := filter (λ ad, search_candidate a peer ad = true) (btree_values (pl_advertisements a)) in
  match select_table_advertisement candidates (tk_level (local_ticket a)) now with
  | Some ad => _ ← dial_advertisement ad; mret (Some (PoolJoin ad))
  | None =>
      due ← lift (creator_due a now);
      if since mono (search_started_at a) <? due then mret None else
      nonce ← pool_call (fill_bytes 32);
      mret (Some (PoolCreate (TableId_derive blake3 (tk_player_id (local_ticket a)) (tk_device (local_ticket a)) nonce)
                    (tk_player_id (local_ticket a))))
  end.

(** ** [tick] *)

Definition renew_ticket (addresses : list Multiaddr) (device : list Z) (certificate : DeviceCertificate)
    (now mono : Z) : PoolM unit :=
  a ← pool_now;
  if negb (u64_saturating_sub (tk_expires_at (local_ticket a)) now <=? TICKET_RENEWAL_MARGIN_MS) then mret tt else
  let previous := ticket_id (local_ticket a) in
  renewed ← in_world (issue_ticket (tk_level (local_ticket a)) (requested_buy_in (local_ticket a)) addresses device
                        certificate now);
  set_pool (λ a, { a with pl_tickets ::= λ m, <[ticket_id renewed := renewed]> (delete previous m);
                          local_ticket := renewed; search_started_at := mono; last_ticket_published_at := None }).
(** [is_none_or(|last| ..)]. *)
Definition republish_due (last : option Z) (mono interval : Z) : bool :=
  match last with None => true | Some last => interval <=? since mono last end.
Definition republish_ticket (mono : Z) : PoolM (list TablePoolEvent) :=
  a ← pool_now;
  let looking := match pl_phase a with Searching | PhaseJoining _ _ => true | _ => false end in
  if republish_due (last_ticket_published_at a) mono TICKET_REPUBLISH_INTERVAL && looking then
    published ← publish_pool (pl_topic a) (Ticket (local_ticket a));
    _ ← set_pool (λ a, { a with last_ticket_published_at := Some mono });
    mret [TicketPublished (ticket_id (local_ticket a)) published]
  else mret [].
Definition republish_advertisement (addresses : list Multiaddr) (device : list Z) (certificate : DeviceCertificate)
    (now mono : Z) : PoolM unit :=
  a ← pool_now;
  match local_advertisement a with
  | Some snapshot =>
      if republish_due (last_advertisement_published_at a) mono ADVERTISEMENT_REPUBLISH_INTERVAL then
        ad ← in_world (issue_advertisement (local_ticket a) snapshot addresses device certificate now);
        _ ← set_pool (λ a, { a with pl_advertisements ::= λ m, <[ad_table_id ad := ad]> m });
        _ ← publish_pool (pl_topic a) (Advertisement ad);
        set_pool (λ a, { a with last_advertisement_published_at := Some mono })
      else mret tt
  | None => mret tt
  end.
Definition expire_join (mono : Z) : PoolM (list TablePoolEvent) :=
  a ← pool_now;
  match pl_phase a with
  | PhaseJoining table started =>
      if JOIN_ATTEMPT_TIMEOUT <=? since mono started then
        _ ← set_pool (λ a, { a with rejected_tables ::= λ s, {[table]} ∪ s; pl_phase := Searching });
        mret [JoinAttemptExpired table]
      else mret []
  | _ => mret []
  end.
Definition decide_pool (now mono : Z) : PoolM (option PoolDecision) :=
  a ← pool_now;
  match pl_phase a with
  | Searching => decide_next_action now mono
  | InRoom => decide_singleton_convergence now
  | PhaseJoining _ _ | Creating _ => mret None
  end.
Definition follow_decision (d : option PoolDecision) (mono : Z) : PoolM (list TablePoolEvent) :=
  match d with
  | None => mret []
  | Some (PoolJoin ad) =>
      _ ← set_pool (λ a, { a with pl_phase := PhaseJoining (ad_table_id ad) mono });
      mret [JoiningTable (ad_table_id ad) (ad_members ad) (ad_waiting ad)]
  | Some (PoolCreate table _) =>
      _ ← set_pool (λ a, { a with pl_phase := Creating table });
      mret [CreatingTable table]
  end.
Definition retain_valid (now : Z) a : ActivePool :=
  { a with pl_tickets ::= λ m, filter (λ e : PoolTicketId * PoolTicket, is_ok (ticket_verify_at e.2 now) = true) m;
           pl_advertisements ::= λ m,
             filter (λ e : TableId * TableAdvertisement, is_ok (advertisement_verify_at e.2 now) = true) m }.
Definition tick_pool (direct_sync_peers : list PeerId) (addresses : list Multiaddr) (device : list Z)
    (certificate : DeviceCertificate) (now mono : Z) : PoolM (list TablePoolEvent * option PoolDecision) :=
  _ ← set_pool (retain_valid now);
  _ ← synchronize_explicit_pool_peers;
  _ ← renew_ticket addresses device certificate now mono;
  published ← republish_ticket mono;
  _ ← republish_advertisement addresses device certificate now mono;
  _ ← schedule_direct_sync direct_sync_peers mono;
  expired ← expire_join mono;
  decision ← decide_pool now mono;
  followed ← follow_decision decision mono;
  directory ← push_directory_event_if_changed now;
  mret (published ++ expired ++ followed ++ directory, decision).

(** ** [TablePoolRuntime] *)
Implicit Types r : TablePoolRuntime.
Definition pool_runtime : PoolRuntimeM TablePoolRuntime := gets fst.
Definition set_active (r : TablePoolRuntime) : PoolRuntimeM unit := modify (λ s, (r, s.2)).
Definition runtime_world {A} (m : M world PoolError A) : PoolRuntimeM A := λ s, let '(v, w) := m s.2 in (v, (s.1, w)).
(** [self.active.as_mut().context(..)?]. *)
Definition on_active {A} (e : PoolError) (m : PoolM A) : PoolRuntimeM A :=
  λ s, match s.1 with
       | None => (Err e, s)
       | Some a => let '(v, (a, w)) := m (a, s.2) in (v, (Some a, w))
       end.

(** [join]. *)
Definition fresh_pool (topic : string) (t : PoolTicket) (mono : Z) : ActivePool :=
  mkPool _ topic t {[ticket_id t := t]} ∅ ∅ ∅ mono Searching None None None ∅ ∅ ∅ None.
Definition join_pool (topic : string) (level : StakeLevel) (buy_in : Z) (addresses : list Multiaddr)
    (device : list Z) (certificate : DeviceCertificate) (now mono : Z) : PoolRuntimeM (list TablePoolEvent) :=
  t ← runtime_world (issue_ticket level buy_in addresses device certificate now);
  previous ← pool_runtime;
  _ ← set_active None;
  _ ← runtime_world (modify (λ w, match previous with Some p => release_pool p w | None => w end));
  subscribed ← runtime_world (λ w, let '(ok, w) := gossip_subscribe topic w in (Ok ok, w));
  _ ← lift (reject_if (negb subscribed) PoolSubscribeFailed);
  _ ← set_active (Some (fresh_pool topic t mono));
  mret [PoolJoined topic (level_id (tk_level t)) (requested_buy_in t)].

(** [handles_topic], [set_local_advertisement], [owns_direct_request]. *)
Definition handles_topic r (topic : string) : bool :=
  match r with Some a => String.eqb (pl_topic a) topic | None => false end.
Definition set_local_advertisement (ad : option LocalTableAdvertisement) r : TablePoolRuntime :=
  match r with
  | Some a => Some (if bool_decide (local_advertisement a = ad) then a
                    else { a with local_advertisement := ad; last_advertisement_published_at := None })
  | None => None
  end.
Definition owns_direct_request r (request : OutboundRequestId) : bool :=
  match r with Some a => bool_decide (is_Some (pending_direct_syncs a !! request)) | None => false end.

(** [mark_joined]. *)
Definition enter_room a : ActivePool :=
  { a with pl_phase := InRoom; rejected_tables := ∅; explicit_peers := ∅ }.
Definition mark_joined (table : TableId) r : option (TablePoolEvent * list PeerId) * TablePoolRuntime :=
  match r with
  | None => (None, r)
  | Some a =>
      match pl_phase a with
      | InRoom | Searching => (None, r)
      | PhaseJoining expected _ | Creating expected =>
          if negb (bool_decide (expected = table)) then (None, r)
          else (Some (TableJoined table, btree_iter (explicit_peers a)), Some (enter_room a))
      end
  end.
(** [adopt_explicit_peers], [transfer_explicit_peer], [cancel]. *)
Definition adopt_explicit_peers (peers : list PeerId) r : result PoolError unit * TablePoolRuntime :=
  match r with
  | None => (Err NotInPool, r)
  | Some a =>
      match pl_phase a with
      | PhaseJoining _ _ => (Ok tt, Some { a with explicit_peers ::= λ s, list_to_set peers ∪ s })
      | _ => (Err NotJoiningTable, r)
      end
  end.
Definition transfer_explicit_peer (peer : PeerId) r : TablePoolRuntime :=
  match r with Some a => Some { a with explicit_peers ::= λ s, s ∖ {[peer]} } | None => None end.
Definition cancel_pool : PoolRuntimeM (option TablePoolEvent) :=
  r ← pool_runtime;
  match r with
  | None => mret None
  | Some a =>
      _ ← set_active None;
      _ ← runtime_world (modify (release_pool a));
      mret (Some PoolCancelled)
  end.

(** [tick], [handle_message], [handle_direct_request]. *)
Definition pool_tick (direct_sync_peers : list PeerId) (addresses : list Multiaddr) (device : list Z)
    (certificate : DeviceCertificate) (now mono : Z) : PoolRuntimeM (list TablePoolEvent * option PoolDecision) :=
  r ← pool_runtime;
  match r with
  | None => mret ([], None)
  | Some _ => on_active NotInPool (tick_pool direct_sync_peers addresses device certificate now mono)
  end.
Definition with_directory (now : Z) (m : PoolM (list TablePoolEvent)) : PoolM (list TablePoolEvent) :=
  events ← m; directory ← push_directory_event_if_changed now; mret (events ++ directory).
Definition pool_message (source : option PeerId) (payload : list Z) (now : Z) : PoolRuntimeM (list TablePoolEvent) :=
  on_active NotInPool
    (_ ← lift (reject_if ((length payload =? 0)%nat || (MAX_POOL_MESSAGE_BYTES <? Z.of_nat (length payload)))
                 PoolMessageSize);
     m ← lift (ok_or (decode_pool payload) PoolMessageNotCbor);
     with_directory now (merge_pool_message source m now Gossip)).
Definition pool_direct_request (source : PeerId) (messages : list TablePoolMessage) (now : Z)
    : PoolRuntimeM (list TablePoolEvent * list TablePoolMessage) :=
  r ← pool_runtime;
  match r with
  | None => mret ([], [])
  | Some _ =>
      on_active NotInPool
        (events ← with_directory now (merge_direct_messages source messages now);
         a ← pool_now;
         mret (events, local_directory_messages a))
  end.

(** [handle_direct_response], [handle_direct_failure]. *)
Definition pool_direct_response (request : OutboundRequestId) (source : PeerId) (response : ControlResponse)
    (now : Z) : PoolRuntimeM (list TablePoolEvent) :=
  on_active SyncWithoutPool
    (a ← pool_now;
     expected ← lift (ok_or (pending_direct_syncs a !! request) SyncUnknown);
     _ ← set_pool (λ a, { a with pending_direct_syncs ::= delete request });
     _ ← lift (reject_if (negb (bool_decide (source = expected))) SyncWrongPeer);
     with_directory now
       match response with
       | RsTablePoolSync messages => merge_direct_messages source messages now
       | RsRejected reason => mret [PoolWarned (SyncRejected reason)]
       | _ => mret [PoolWarned SyncUnexpected]
       end).
Definition pool_direct_failure (request : OutboundRequestId) r : bool * TablePoolRuntime :=
  match r with
  | Some a =>
      (bool_decide (is_Some (pending_direct_syncs a !! request)),
       Some { a with pending_direct_syncs ::= delete request })
  | None => (false, None)
  end.
End pool_runtime.
