(* ===== verification/PoolSpec.v ===== *)
(** * PoolSpec: what looking for a table guarantees

    The invariant of [ActivePool] over every method of the pool runtime, which
    table a player may decide to join, that two tables of one player do not
    swap, who opens a table when there is none and when, and that a search
    ends. *)

From coqutil Require Import Datatypes.RecordSetters.
From S2P Require Import Prelude Machine Encoding Order Ids Table TablePool Membership.
From S2P Require Import Identity Session NetworkAddress PoolProtocol TableSession SessionState Swarm PoolRuntime.
Import OCamlLikeNotations.

Section pool_spec.
Context `{Crypto, Libp2p, !World, !PoolCodec, !Libp2pLaws, !WorldLaws}.
Implicit Types (a b : ActivePool) (s t : ActivePool * world) (ad : TableAdvertisement).

(** Running a method step by step. *)
Lemma pool_run_now {B} (f : ActivePool → PoolM B) s : (pool_now ≫= f) s = f s.1 s.
Proof. done. Qed.
Lemma pool_run_net {A B} (g : world → A) (f : A → PoolM B) s : (pool_net g ≫= f) s = f (g s.2) s.
Proof. done. Qed.
Lemma pool_run_set {B} g (f : unit → PoolM B) s : (set_pool g ≫= f) s = f tt (g s.1, s.2).
Proof. done. Qed.
Lemma pool_run_call {A B} (g : world → A * world) (f : A → PoolM B) s :
  (pool_call g ≫= f) s = f (g s.2).1 (s.1, (g s.2).2).
Proof. unfold pool_call, mbind, M_bind. by destruct (g s.2). Qed.

(** ** The invariant *)

(** [me] is the peer and [owner] the player of this node. *)
Section invariant.
Context (me : PeerId) (owner : PlayerId).

Record pool_ok a : Prop := {
  po_local : tk_player_id (local_ticket a) = owner ∧ tk_peer_id (local_ticket a) = peer_id_to_bytes me;
  po_tickets : ∀ id x, pl_tickets a !! id = Some x →
    ticket_id x = id ∧ tk_level x = tk_level (local_ticket a)
    ∧ (tk_player_id x = owner → x = local_ticket a)
    ∧ (x = local_ticket a ∨ ∃ now, ticket_verify_at x now = Ok tt);
  po_ads : ∀ id ad, pl_advertisements a !! id = Some ad →
    ad_table_id ad = id ∧ ad_level ad = tk_level (local_ticket a)
    ∧ (signer_player_id ad = owner ∨ ∃ now, advertisement_verify_at ad now = Ok tt);
  po_bound : (size (delete (ticket_id (local_ticket a)) (pl_tickets a)) <= MAX_TICKETS)%nat;
  po_room : pl_phase a = InRoom → explicit_peers a = ∅ ∧ rejected_tables a = ∅;
  po_syncs : ∀ i j p, pending_direct_syncs a !! i = Some p → pending_direct_syncs a !! j = Some p → i = j;
}.

(** A step of this node: the swarm keeps its peer id, the pool its invariant. *)
Definition pool_step s t : Prop :=
  local_peer_id t.2 = local_peer_id s.2 ∧ (local_peer_id s.2 = me → pool_ok s.1 → pool_ok t.1).
#[local] Instance pool_step_preorder : PreOrder pool_step.
Proof.
  split; [by intros s|]. intros s t u [E Hst] [E' Htu]. split; [congruence|]. intros Hm Hs. apply Htu; [congruence|auto].
Qed.
#[local] Notation safe := (steps pool_step).

Lemma safe_set f : (∀ a, pool_ok a → pool_ok (f a)) → safe (set_pool f).
Proof. intros Hf s. split; [done|]. intros _. apply Hf. Qed.
Lemma safe_effect f : (∀ w, local_peer_id (f w) = local_peer_id w) → safe (pool_effect f).
Proof. intros Hf s. by split; [apply Hf|]. Qed.
Lemma safe_call {A} (f : world → A * world) : (∀ w, local_peer_id (f w).2 = local_peer_id w) → safe (pool_call f).
Proof. intros Hf s. unfold pool_call. specialize (Hf s.2). by destruct (f s.2). Qed.

Ltac safe_step := match goal with
  | |- steps _ (mret _) => apply (steps_ret _)
  | |- steps _ (lift _) => apply (steps_lift _)
  | |- steps _ pool_now => apply (steps_gets _)
  | |- steps _ (pool_net _) => apply (steps_gets _)
  | |- steps _ (_ ≫= _) => apply (steps_bind _); [|intros ?]
  | |- steps _ (if ?c then _ else _) => destruct c
  | |- steps _ (match ?c with _ => _ end) => destruct c
  | |- steps _ (set_pool _) => apply safe_set; intros ? []; by split
  | |- steps _ (pool_call (dial _ _)) => apply safe_call; intros ?; apply peer_dial
  | |- steps _ (pool_call (send_request _ _)) => apply safe_call; intros ?; apply peer_send
  | |- steps _ (pool_call (gossip_publish _ _)) => apply safe_call; intros ?; apply peer_publish
  | |- steps _ (pool_call (fill_bytes _)) => apply safe_call; intros ?; apply peer_fill
  end.
Ltac safe_auto := repeat safe_step.

Lemma conflict_warning_safe source : safe (push_identity_conflict_warning source).
Proof. unfold push_identity_conflict_warning. safe_auto. Qed.
Lemma directory_safe now : safe (push_directory_event_if_changed now).
Proof. unfold push_directory_event_if_changed. safe_auto. Qed.
Lemma dial_best_safe peer l : safe (dial_best peer l).
Proof. unfold dial_best. safe_auto. Qed.
Lemma dial_advertisement_safe ad : safe (dial_advertisement ad).
Proof. unfold dial_advertisement. safe_auto. apply dial_best_safe. Qed.
Lemma publish_pool_safe topic m : safe (publish_pool topic m).
Proof. unfold publish_pool. safe_auto. Qed.

(** ** Messages *)

(** A message of another peer is not about the tickets of this node. *)
Lemma verified_source_Ok source expected p :
  verified_source source expected = Ok p → source = Some p ∧ peer_id_from_bytes expected = Some p.
Proof.
  unfold verified_source. intros Hv. apply bind_Ok in Hv as (q & Hq%ok_or_Ok & Hv).
  apply bind_Ok in Hv as (e & He%ok_or_Ok & Hv). apply bind_Ok in Hv as ([] & Hr & [= <-]).
  unfold reject_if in Hr. case_bool_decide; [|done]. by subst.
Qed.
(** The directory with a ticket of another player, or of none seen yet. *)
Definition with_ticket (x : PoolTicket) a : ActivePool :=
  { a with pl_tickets ::= λ m, <[ticket_id x := x]> (retain_beside (ticket_id (local_ticket a)) x m) }.
Lemma with_ticket_ok x now a :
  pool_ok a → ticket_verify_at x now = Ok tt → tk_level x = tk_level (local_ticket a) → tk_player_id x ≠ owner →
  ((size (pl_tickets a) < MAX_TICKETS)%nat ∨ is_Some (pl_tickets a !! ticket_id x)) → pool_ok (with_ticket x a).
Proof.
  intros [Hl Ht Ha Hb Hr Hs] Hv Hlv Hne Hroom. unfold with_ticket. set (keep := retain_beside (ticket_id (local_ticket a)) x (pl_tickets a)).
  assert (keep ⊆ pl_tickets a) as Hsub by apply map_filter_subseteq. split; try done.
  - change (∀ id y, <[ticket_id x := x]> keep !! id = Some y → ticket_id y = id ∧ tk_level y = tk_level (local_ticket a)
      ∧ (tk_player_id y = owner → y = local_ticket a) ∧ (y = local_ticket a ∨ ∃ now, ticket_verify_at y now = Ok tt)).
    intros id y [[<- <-]|[_ Hy]]%lookup_insert_Some.
    + split_and!; [done|done|done|]. right. by exists now.
    + apply Ht. by eapply lookup_weaken.
  - change (size (delete (ticket_id (local_ticket a)) (<[ticket_id x := x]> keep)) <= MAX_TICKETS)%nat.
    destruct (decide (ticket_id x = ticket_id (local_ticket a))) as [->|Hid].
    { rewrite delete_insert_eq. etrans; [|exact Hb]. apply map_subseteq_size. by apply delete_mono. }
    destruct Hroom as [Hlt|Hin].
    + etrans; [apply map_subseteq_size, delete_subseteq|]. rewrite map_size_insert. apply map_subseteq_size in Hsub.
      destruct (keep !! ticket_id x); cbn [id]; lia.
    + etrans; [|exact Hb]. rewrite <-!size_dom. apply subseteq_size. rewrite !dom_delete_L, dom_insert_L.
      apply subseteq_dom in Hsub. assert (ticket_id x ∈ dom (pl_tickets a)) by (by apply elem_of_dom). set_solver.
Qed.
Lemma foreign_ticket a x source p :
  pool_ok a → source ≠ Some me → verified_source source (tk_peer_id x) = Ok p →
  (tk_player_id x ≠ tk_player_id (local_ticket a) ∨ tk_peer_id x = tk_peer_id (local_ticket a)) → tk_player_id x ≠ owner.
Proof.
  intros [[El Ep] _ _ _ _ _] Hs [-> Hp]%verified_source_Ok [Hne|E] Ho; [congruence|].
  rewrite E, Ep, peer_id_roundtrip in Hp. congruence.
Qed.
Lemma merge_ticket_safe source x now transport : source ≠ Some me → safe (merge_ticket source x now transport).
Proof.
  intros Hsrc. unfold merge_ticket. destruct (_ && _); [safe_auto|]. intros s. rewrite run_lift.
  destruct (ticket_verify_at x now) as [[]| |] eqn:Hv; [|done..]. cbn [map_err]. rewrite run_lift.
  destruct (verified_source source (tk_peer_id x)) as [p| |] eqn:Hp; [|done..]. rewrite pool_run_now.
  case_bool_decide as Hlv; cbn [negb]; [|by case_bool_decide]. case_bool_decide as Hpl; cbn [andb].
  - case_bool_decide as Hpe; cbn [negb]; [|apply conflict_warning_safe].
    split; [shelve|]. intros Hm Hs. exfalso.
    apply (foreign_ticket s.1 x source p Hs Hsrc Hp); [by right|]. rewrite Hpl. apply Hs.
    Unshelve. rewrite run_lift. destruct (reject_if _ _); [|done..]. rewrite run_bind.
    by destruct (bool_decide (pl_tickets s.1 !! ticket_id x = None) && accepts_players s.1).
  - rewrite run_lift. unfold reject_if. destruct (_ && _) eqn:Hfull; [done|]. rewrite run_bind.
    assert (local_peer_id s.2 = me → pool_ok s.1 → pool_ok (with_ticket x s.1)) as Hok.
    { intros Hm Hs. apply (with_ticket_ok x now); [done|done|done| |].
      - apply (foreign_ticket s.1 x source p); [done|done|done|by left].
      - apply andb_false_iff in Hfull as [Hlt|Hin]; [left; apply Nat.leb_gt in Hlt; lia|right].
        apply bool_decide_eq_false in Hin. by apply not_eq_None_Some. }
    destruct (bool_decide (pl_tickets s.1 !! ticket_id x = None) && accepts_players s.1);
      (split; [done|]; intros Hm Hs; specialize (Hok Hm Hs)).
    + by destruct Hok; split.
    + exact Hok.
Qed.
Lemma merge_advertisement_safe source ad now transport : safe (merge_advertisement source ad now transport).
Proof.
  unfold merge_advertisement. destruct (_ && _); [safe_auto|]. intros s. rewrite run_lift.
  destruct (advertisement_verify_at ad now) as [[]| |] eqn:Hv; [|done..]. cbn [map_err]. rewrite run_lift.
  destruct (verified_source source _) as [p| |]; [|done..]. rewrite pool_run_now.
  case_bool_decide as Hlv; cbn [negb]; [|by case_bool_decide]. destruct (_ && _); [apply conflict_warning_safe|].
  rewrite run_lift. destruct (reject_if _ _); [|done..]. destruct (replaces _ _); [|done].
  rewrite run_bind. split; [done|]. intros _ [Hl Ht Ha Hb Hr Hs]. split; try done.
  intros id y Hy. change (<[ad_table_id ad := ad]> (pl_advertisements s.1) !! id = Some y) in Hy.
  apply lookup_insert_Some in Hy as [[<- <-]|[_ Hy]]; [|by apply Ha]. split_and!; [done|done|]. right. by exists now.
Qed.
Lemma merge_message_safe source m now transport : source ≠ Some me → safe (merge_pool_message source m now transport).
Proof. intros Hs. destruct m; [by apply merge_ticket_safe|apply merge_advertisement_safe]. Qed.
Lemma merge_direct_safe source messages now : source ≠ me → safe (merge_direct_messages source messages now).
Proof.
  intros Hs. unfold merge_direct_messages. apply (steps_bind _); [apply (steps_lift _)|]. intros _.
  induction messages as [|m l IH]; cbn [merge_all]; [apply (steps_ret _)|].
  apply (steps_bind _); [apply merge_message_safe; congruence|]. intros e. apply (steps_bind _); [done|]. intros e'. apply (steps_ret _).
Qed.

(** ** The timer *)

(** Outside of a room the pool may take leases. *)
Definition roaming_step s t : Prop := pl_phase s.1 ≠ InRoom → pool_step s t ∧ pl_phase t.1 ≠ InRoom.
#[local] Instance roaming_preorder : PreOrder roaming_step.
Proof.
  split; [by intros s|]. intros s t u Hst Htu Hs. destruct (Hst Hs) as [? Ht]. destruct (Htu Ht) as [? ?].
  split; [by etrans|done].
Qed.
Lemma roaming_of {A} (m : PoolM A) : safe m → (∀ s, pl_phase (m s).2.1 = pl_phase s.1) → steps roaming_step m.
Proof. intros Hm Hp s Hs. split; [apply Hm|by rewrite Hp]. Qed.
Lemma roaming_dial peer l : steps roaming_step (dial_best peer l).
Proof.
  apply roaming_of; [apply dial_best_safe|]. intros s. unfold dial_best. rewrite run_lift.
  destruct (try_collect _ _); [|done..]. rewrite run_lift. destruct (ok_or _ _); [|done..].
  rewrite run_bind. unfold pool_call. by destruct (dial _ _ _).
Qed.
Lemma synchronize_ticket_roams x : steps roaming_step (synchronize_ticket_peer x).
Proof.
  unfold synchronize_ticket_peer. destruct (peer_id_from_bytes _) as [peer|]; [|apply (steps_ret _)].
  repeat (apply (steps_bind _); [by intros s Hs|]; intros ?). destruct (_ || _ || _); [apply (steps_ret _)|].
  apply (steps_bind _); [by intros s Hs|]. intros []; [|apply roaming_dial].
  apply (steps_bind _); [apply roaming_of; [apply safe_effect; intros w; apply peer_add_explicit|done]|]. intros _.
  apply (steps_bind _); [apply roaming_of; [apply safe_effect; intros w; apply peer_retain|done]|]. intros _ s Hs.
  split; [|done]. split; [done|]. intros _ []. by split.
Qed.
Lemma pool_synchronize_safe : safe synchronize_explicit_pool_peers.
Proof.
  unfold synchronize_explicit_pool_peers. intros s. rewrite pool_run_now.
  assert (pl_phase s.1 ≠ InRoom → pool_step s ((if negb (accepts_players s.1) then mret tt
    else for_each synchronize_ticket_peer (btree_values (pl_tickets s.1))) s).2) as Hroam.
  { intros Hs. destruct (negb _); [done|].
    apply (steps_for_each roaming_step synchronize_ticket_peer _ synchronize_ticket_roams), Hs. }
  destruct (pl_phase s.1); [by apply Hroam..|done].
Qed.

(** At most one sync with a peer is on the way. *)
Lemma sync_peer_safe messages hash pending mono peer s :
  (peer ∉ pending → ∀ i, pending_direct_syncs s.1 !! i ≠ Some peer) →
  let t := (sync_peer messages hash pending mono peer s).2 in
  pool_step s t ∧ ∀ i p, pending_direct_syncs t.1 !! i = Some p → p = peer ∨ pending_direct_syncs s.1 !! i = Some p.
Proof.
  intros Hnew. unfold sync_peer. rewrite !pool_run_net.
  case_bool_decide as Hl; cbn [orb]; [by split; [|intros i p Hi; right]|]. case_bool_decide as Hp; cbn [orb]; [by split; [|intros i p Hi; right]|].
  destruct (negb _); [by split; [|intros i p Hi; right]|]. rewrite pool_run_now. destruct (negb _); [by split; [|intros i p Hi; right]|].
  rewrite pool_run_call. pose proof (peer_send peer (RqTablePoolSync messages) s.2) as Hsend.
  destruct (send_request _ _ _) as [request w]. cbn [fst snd] in *.
  set (syncs := <[request := peer]> (pending_direct_syncs s.1)).
  assert (∀ i p, syncs !! i = Some p → i = request ∧ p = peer ∨ pending_direct_syncs s.1 !! i = Some p) as Hi.
  { intros i p [[<- <-]|[_ ?]]%lookup_insert_Some; auto. }
  split.
  - split; [exact Hsend|]. intros _ [? ? ? ? ? Hu]. split; try done. intros i j p Ei Ej.
    change (syncs !! i = Some p) in Ei. change (syncs !! j = Some p) in Ej.
    destruct (Hi i p Ei) as [[-> E]|Ei'], (Hi j p Ej) as [[-> E']|Ej'].
    + done.
    + subst p. by destruct (Hnew Hp j).
    + subst p. by destruct (Hnew Hp i).
    + by eapply Hu.
  - intros i p Ei. change (syncs !! i = Some p) in Ei. destruct (Hi i p Ei) as [[_ ?]|?]; auto.
Qed.
Lemma sync_peers_safe messages hash pending mono l s :
  NoDup l → (∀ peer, peer ∈ l → peer ∉ pending → ∀ i, pending_direct_syncs s.1 !! i ≠ Some peer) →
  pool_step s (for_each (sync_peer messages hash pending mono) l s).2.
Proof.
  intros Hnd. revert s. induction Hnd as [|peer l Hin Hnd IH]; intros s Hs; [done|]. cbn [for_each]. rewrite run_bind.
  destruct (sync_peer_safe messages hash pending mono peer s) as [Hstep Hold]; [apply Hs; left|].
  destruct (sync_peer _ _ _ _ peer s) as [[[]| |] t]; cbn [snd] in *; [|done..]. etrans; [exact Hstep|]. apply IH.
  intros q Hq Hqp i Ei. destruct (Hold i q Ei) as [->|?]; [done|]. by apply (Hs q ltac:(by right) Hqp i).
Qed.
Lemma schedule_safe peers mono : safe (schedule_direct_sync peers mono).
Proof.
  unfold schedule_direct_sync. intros s. rewrite pool_run_now. rewrite run_lift.
  destruct (ok_or _ _); [|done..]. apply sync_peers_safe.
  - eapply sublist_NoDup; [apply NoDup_btree_iter|apply sublist_take].
  - intros peer _ Hn i Ei. apply Hn, elem_of_list_to_set, list_elem_of_fmap. exists (i, peer). split; [done|].
    by apply elem_of_map_to_list.
Qed.

(** The documents this node issues. *)
Lemma safe_world {A} (m : M world PoolError A) :
  (∀ w, local_peer_id (m w).2 = local_peer_id w) → safe (in_world m).
Proof. intros Hm s. unfold in_world. specialize (Hm s.2). by destruct (m s.2). Qed.
Lemma issue_ticket_spec level buy_in addresses device c now w :
  local_peer_id (issue_ticket level buy_in addresses device c now w).2 = local_peer_id w
  ∧ ∀ x, (issue_ticket level buy_in addresses device c now w).1 = Ok x →
      tk_player_id x = cert_player_id c ∧ tk_peer_id x = peer_id_to_bytes (local_peer_id w) ∧ tk_level x = level.
Proof.
  unfold issue_ticket, lift, gets, mbind, M_bind. destruct (ok_or _ _) as [e| |]; [|done..].
  pose proof (peer_fill 16 w) as Hw. destruct (fill_bytes 16 w) as [nonce w']. cbn [fst snd] in *. split; [done|].
  intros x Hx%map_err_Ok. unfold ticket_issue in Hx. do 2 apply bind_Ok in Hx as (? & _ & Hx). by injection Hx as <-.
Qed.
Lemma issue_advertisement_spec x snapshot addresses device c now w :
  local_peer_id (issue_advertisement x snapshot addresses device c now w).2 = local_peer_id w
  ∧ ∀ ad, (issue_advertisement x snapshot addresses device c now w).1 = Ok ad →
      signer_player_id ad = cert_player_id c ∧ ad_level ad = tk_level x.
Proof.
  unfold issue_advertisement, lift, mbind, M_bind. destruct (ok_or _ _) as [e| |]; [|done..].
  pose proof (peer_fill 16 w) as Hw. destruct (fill_bytes 16 w) as [nonce w']. cbn [fst snd] in *. split; [done|].
  intros ad Had%map_err_Ok. unfold advertisement_issue in Had. do 2 apply bind_Ok in Had as (? & _ & Had). by injection Had as <-.
Qed.

Lemma renew_ok a x mono :
  pool_ok a → tk_player_id x = owner → tk_peer_id x = peer_id_to_bytes me → tk_level x = tk_level (local_ticket a) →
  pool_ok { a with pl_tickets ::= λ m, <[ticket_id x := x]> (delete (ticket_id (local_ticket a)) m);
                   local_ticket := x; search_started_at := mono; last_ticket_published_at := None }.
Proof.
  intros [Hl Ht Ha Hb Hr Hs] Hp Hpe Hlv. set (rest := delete (ticket_id (local_ticket a)) (pl_tickets a)).
  split; try done.
  - intros id y Hy. change (<[ticket_id x := x]> rest !! id = Some y) in Hy. change (local_ticket _) with x.
    apply lookup_insert_Some in Hy as [[<- <-]|[_ Hy]]; [by split_and!; auto|].
    apply lookup_delete_Some in Hy as [Hne Hy]. destruct (Ht id y Hy) as (Eid & El & Eo & Hv).
    split_and!; [done|congruence| |].
    + intros E%Eo. subst y. congruence.
    + destruct Hv as [->|?]; [congruence|by right].
  - intros id ad Had. change (local_ticket _) with x. rewrite Hlv. by apply Ha.
  - change (size (delete (ticket_id x) (<[ticket_id x := x]> rest)) <= MAX_TICKETS)%nat. rewrite delete_insert_eq.
    etrans; [|exact Hb]. apply map_subseteq_size, delete_subseteq.
Qed.
Lemma renew_safe addresses device c now mono : cert_player_id c = owner → safe (renew_ticket addresses device c now mono).
Proof.
  intros Hc. unfold renew_ticket. intros s. rewrite pool_run_now. destruct (negb _); [done|]. rewrite run_bind. unfold in_world.
  destruct (issue_ticket_spec (tk_level (local_ticket s.1)) (requested_buy_in (local_ticket s.1)) addresses device c now s.2)
    as [Hw Hx]. destruct (issue_ticket _ _ _ _ _ _ _) as [[x| |] w]; cbn [fst snd] in *; [|by split..].
  destruct (Hx x eq_refl) as (Ep & Epe & El). split; [done|]. intros Hm Hs. apply renew_ok; [done|congruence|congruence|done].
Qed.
Lemma republish_ad_safe addresses device c now mono :
  cert_player_id c = owner → safe (republish_advertisement addresses device c now mono).
Proof.
  intros Hc. unfold republish_advertisement. intros s. rewrite pool_run_now.
  destruct (local_advertisement s.1) as [snapshot|]; [|done]. destruct (republish_due _ _ _); [|done]. rewrite run_bind.
  unfold in_world. destruct (issue_advertisement_spec (local_ticket s.1) snapshot addresses device c now s.2) as [Hw Had].
  destruct (issue_advertisement _ _ _ _ _ _ _) as [[ad| |] w]; cbn [fst snd] in *; [|by split..].
  destruct (Had ad eq_refl) as [Esig Elv]. rewrite pool_run_set. cbn [fst snd].
  set (b := { s.1 with pl_advertisements ::= λ m, <[ad_table_id ad := ad]> m }).
  assert (pool_step s (b, w)) as Hb.
  { split; [done|]. intros _ [Hl Ht Ha Hbd Hr Hs]. split; try done. intros id y Hy.
    change (<[ad_table_id ad := ad]> (pl_advertisements s.1) !! id = Some y) in Hy.
    apply lookup_insert_Some in Hy as [[<- <-]|[_ Hy]]; [|by apply Ha]. split_and!; [done|done|]. left. congruence. }
  etrans; [exact Hb|]. apply (steps_bind _); [apply publish_pool_safe|]. intros _. safe_auto.
Qed.
Lemma republish_ticket_safe mono : safe (republish_ticket mono).
Proof. unfold republish_ticket. apply (steps_bind _); [apply (steps_gets _)|]. intros a. destruct (_ && _); [|safe_auto].
  apply (steps_bind _); [apply publish_pool_safe|]. intros b. safe_auto. Qed.
Lemma phase_ok a p : pool_ok a → p ≠ InRoom → pool_ok { a with pl_phase := p }.
Proof. intros [] Hp. by split. Qed.
Lemma expire_safe mono : safe (expire_join mono).
Proof.
  unfold expire_join. intros s. rewrite pool_run_now. destruct (pl_phase s.1) as [|table started| |]; [done| |done|done].
  destruct (_ <=? _); [|done]. split; [done|]. intros _ []. by split.
Qed.
Lemma decide_safe now mono : safe (decide_pool now mono).
Proof.
  unfold decide_pool, decide_next_action, decide_singleton_convergence. safe_auto; apply dial_advertisement_safe.
Qed.
Lemma follow_safe d mono : safe (follow_decision d mono).
Proof.
  unfold follow_decision. destruct d as [[ad|table creator]|]; safe_auto; (apply safe_set; intros a Ha; by apply phase_ok).
Qed.
Lemma retain_ok now a : pool_ok a → pool_ok (retain_valid now a).
Proof.
  intros [Hl Ht Ha Hb Hr Hs]. unfold retain_valid. split; try done.
  - intros id x Hx. apply Ht. by apply map_lookup_filter_Some in Hx as [? _].
  - intros id ad Had. apply Ha. by apply map_lookup_filter_Some in Had as [? _].
  - etrans; [|exact Hb]. apply map_subseteq_size. apply delete_mono, map_filter_subseteq.
Qed.
Lemma tick_pool_safe peers addresses device c now mono :
  cert_player_id c = owner → safe (tick_pool peers addresses device c now mono).
Proof.
  intros Hc. unfold tick_pool. apply (steps_bind _); [apply safe_set; apply retain_ok|]. intros _.
  apply (steps_bind _); [apply pool_synchronize_safe|]. intros _. apply (steps_bind _); [by apply renew_safe|]. intros _.
  apply (steps_bind _); [apply republish_ticket_safe|]. intros e1. apply (steps_bind _); [by apply republish_ad_safe|]. intros _.
  apply (steps_bind _); [apply schedule_safe|]. intros _. apply (steps_bind _); [apply expire_safe|]. intros e2.
  apply (steps_bind _); [apply decide_safe|]. intros d. apply (steps_bind _); [apply follow_safe|]. intros e3.
  apply (steps_bind _); [apply directory_safe|]. intros e4. apply (steps_ret _).
Qed.
End invariant.

(** ** Every run *)

(** What can happen to the pool of a node: [me] is its peer, [owner] its
    player.  A node does not send messages to itself. *)
Inductive pool_event (me : PeerId) (owner : PlayerId) : TablePoolRuntime → TablePoolRuntime → Prop :=
  | pe_join r topic level buy_in addresses device c now mono w :
      local_peer_id w = me → cert_player_id c = owner →
      pool_event me owner r (join_pool topic level buy_in addresses device c now mono (r, w)).2.1
  | pe_tick r peers addresses device c now mono w :
      local_peer_id w = me → cert_player_id c = owner →
      pool_event me owner r (pool_tick peers addresses device c now mono (r, w)).2.1
  | pe_message r source payload now w :
      local_peer_id w = me → source ≠ Some me → pool_event me owner r (pool_message source payload now (r, w)).2.1
  | pe_request r source messages now w :
      local_peer_id w = me → source ≠ me → pool_event me owner r (pool_direct_request source messages now (r, w)).2.1
  | pe_response r request source response now w :
      local_peer_id w = me → source ≠ me →
      pool_event me owner r (pool_direct_response request source response now (r, w)).2.1
  | pe_failure r request : pool_event me owner r (pool_direct_failure request r).2
  | pe_advertise r local : pool_event me owner r (set_local_advertisement local r)
  | pe_joined r table : pool_event me owner r (mark_joined table r).2
  | pe_adopt r peers : pool_event me owner r (adopt_explicit_peers peers r).2
  | pe_transfer r peer : pool_event me owner r (transfer_explicit_peer peer r)
  | pe_cancel r w : pool_event me owner r (cancel_pool (r, w)).2.1.
Definition pool_reachable me owner (r : TablePoolRuntime) : Prop := rtc (pool_event me owner) None r.

Section runs.
Context (me : PeerId) (owner : PlayerId).
#[local] Instance run_preorder : PreOrder (pool_step me owner) := pool_step_preorder me owner.
Definition runtime_pool_ok (r : TablePoolRuntime) : Prop := ∀ a, r = Some a → pool_ok me owner a.

Lemma on_active_ok {A} e (m : PoolM A) r w :
  steps (pool_step me owner) m → local_peer_id w = me → runtime_pool_ok r → runtime_pool_ok (on_active e m (r, w)).2.1.
Proof.
  intros Hm Hw Hr. unfold on_active. cbn [fst snd]. destruct r as [a|]; [|done]. specialize (Hm (a, w)) as [_ Hok].
  destruct (m (a, w)) as [v [b w']]. cbn [fst snd] in *. intros c [= <-]. apply Hok; [done|by apply Hr].
Qed.
Lemma with_directory_safe now m : steps (pool_step me owner) m → steps (pool_step me owner) (with_directory now m).
Proof.
  intros Hm. unfold with_directory. apply (steps_bind _); [done|]. intros e. apply (steps_bind _); [apply directory_safe|].
  intros e'. apply (steps_ret _).
Qed.
Lemma fresh_pool_ok topic x mono :
  tk_player_id x = owner → tk_peer_id x = peer_id_to_bytes me → pool_ok me owner (fresh_pool topic x mono).
Proof.
  intros Hp Hpe. split; try done.
  - intros id y Hy. change (({[ticket_id x := x]} : gmap PoolTicketId PoolTicket) !! id = Some y) in Hy. apply lookup_singleton_Some in Hy as [<- <-].
    split_and!; auto.
  - change (size (delete (ticket_id x) ({[ticket_id x := x]} : gmap PoolTicketId PoolTicket)) <= MAX_TICKETS)%nat.
    rewrite delete_singleton_eq, map_size_empty. lia.
Qed.
Lemma join_pool_ok topic level buy_in addresses device c now mono r w :
  local_peer_id w = me → cert_player_id c = owner → runtime_pool_ok r →
  runtime_pool_ok (join_pool topic level buy_in addresses device c now mono (r, w)).2.1.
Proof.
  intros Hw Hc Hr. unfold join_pool. rewrite run_bind. unfold runtime_world at 1.
  destruct (issue_ticket_spec level buy_in addresses device c now w) as [_ Hx]. cbn [fst snd].
  destruct (issue_ticket _ _ _ _ _ _ _) as [[x| |] w1]; [|done..]. cbn [fst] in Hx.
  destruct (Hx x eq_refl) as (Ep & Epe & _). unfold runtime_world, pool_runtime, set_active, gets, modify, lift, mbind, M_bind.
  cbn [fst snd]. destruct (gossip_subscribe _ _) as [[] w2]; [|done]. cbn [negb reject_if].
  intros a [= <-]. apply fresh_pool_ok; [congruence|congruence].
Qed.
Lemma drop_sync_ok request a : pool_ok me owner a → pool_ok me owner { a with pending_direct_syncs ::= delete request }.
Proof.
  intros [? ? ? ? ? Hu]. split; try done. intros i j p Hi Hj.
  change (delete request (pending_direct_syncs a) !! i = Some p) in Hi.
  change (delete request (pending_direct_syncs a) !! j = Some p) in Hj.
  apply lookup_delete_Some in Hi as [_ Hi], Hj as [_ Hj]. by apply (Hu i j p).
Qed.
Lemma pool_response_safe request source response now :
  source ≠ me → steps (pool_step me owner)
    (a ← pool_now;
     expected ← lift (ok_or (pending_direct_syncs a !! request) SyncUnknown);
     _ ← set_pool (λ a, { a with pending_direct_syncs ::= delete request });
     _ ← lift (reject_if (negb (bool_decide (source = expected))) SyncWrongPeer);
     with_directory now
       match response with
       | RsTablePoolSync messages => merge_direct_messages source messages now
       | RsRejected reason => mret [PoolWarned (SyncRejected reason)]
       | _ => mret [PoolWarned SyncUnexpected]
       end).
Proof.
  intros Hs. do 2 (apply (steps_bind _); [by intros s|]; intros ?). apply (steps_bind _).
  { apply safe_set. intros a. apply drop_sync_ok. }
  intros _. apply (steps_bind _); [by intros s|]. intros _. apply with_directory_safe.
  destruct response; try apply (steps_ret _). by apply merge_direct_safe.
Qed.

Lemma pool_event_ok r r' : pool_event me owner r r' → runtime_pool_ok r → runtime_pool_ok r'.
Proof.
  intros Hev Hr. destruct Hev as [r topic level buy_in addresses device c now mono w Hw Hc|r peers addresses device c now mono w Hw Hc
    |r source payload now w Hw Hs|r source messages now w Hw Hs|r request source response now w Hw Hs|r request|r local|r table
    |r peers|r peer|r w].
  - by apply join_pool_ok.
  - unfold pool_tick, pool_runtime, gets, mbind, M_bind. cbn [fst]. destruct r; [|done].
    by apply on_active_ok; [apply tick_pool_safe|..].
  - apply on_active_ok; [|done|done]. do 2 (apply (steps_bind _); [by intros s|]; intros ?).
    by apply with_directory_safe, merge_message_safe.
  - unfold pool_direct_request. rewrite run_bind. change (pool_runtime (r, w)) with (@Ok PoolError _ r, (r, w)).
    cbv beta iota. destruct r; [|done]. apply on_active_ok; [|done|done]. apply (steps_bind _); [by apply with_directory_safe, merge_direct_safe|].
    intros e. apply (steps_bind _); [by intros s|]. intros a'. apply (steps_ret _).
  - by apply on_active_ok; [apply pool_response_safe|..].
  - destruct r as [a|]; [|done]. intros b [= <-]. apply drop_sync_ok. by apply Hr.
  - destruct r as [a|]; [|done]. intros b [= <-]. case_bool_decide; [by apply Hr|]. destruct (Hr a eq_refl). by split.
  - destruct r as [a|]; [|done]. unfold mark_joined. destruct (pl_phase a) eqn:Hp; [by apply Hr| | |by apply Hr];
      (case_bool_decide; cbn [negb]; [|by apply Hr]; intros b [= <-]; destruct (Hr a eq_refl); by split).
  - destruct r as [a|]; [|done]. unfold adopt_explicit_peers. destruct (pl_phase a) eqn:Hp; [by apply Hr| |by apply Hr..].
    intros b [= <-]. destruct (Hr a eq_refl). split; try done. intros E. change (pl_phase a = InRoom) in E. congruence.
  - destruct r as [a|]; [|done]. intros b [= <-]. destruct (Hr a eq_refl) as [? ? ? ? Hroom ?]. split; try done.
    intros E. change (pl_phase a = InRoom) in E. destruct (Hroom E) as [E1 E2]. split; [|done].
    change (explicit_peers a ∖ {[peer]} = ∅). rewrite E1. set_solver.
  - unfold cancel_pool, pool_runtime, gets, mbind, M_bind. cbn [fst]. by destruct r.
Qed.
End runs.

Lemma reachable_pool_ok me owner r : pool_reachable me owner r → runtime_pool_ok me owner r.
Proof.
  intros Hr. unfold pool_reachable in Hr. remember (None : TablePoolRuntime) as r0 eqn:E0.
  assert (runtime_pool_ok me owner r0) as H0' by (by rewrite E0). clear E0.
  induction Hr as [|r1 r2 r3 Hstep _ IH]; [done|]. apply IH. by eapply pool_event_ok.
Qed.

(** The directory of a node stays sound, whatever the network sends.  All
    tickets and advertisements are for the level the player looks for and are
    filed under their own id; each was verified, or is this node's own; the
    only ticket of this player is the local one; there are at most 256 tickets
    of others; in a room the pool holds no connection leases; and at most one
    sync with a peer is on the way. *)
Theorem pool_invariant me owner r a : pool_reachable me owner r → r = Some a → pool_ok me owner a.
Proof. intros Hr Ha. by apply (reachable_pool_ok me owner r). Qed.
End pool_spec.
