(* ===== verification/PoolDecide.v ===== *)
(** * PoolDecide: which table a player ends up at

    The decisions of the pool runtime: which advertised table a player may
    join, that two players who each opened a table do not swap, who opens a
    table when there is none, and that looking for a table ends. *)

From coqutil Require Import Datatypes.RecordSetters.
From S2P Require Import Prelude Machine Encoding Order Ids Table TablePool Membership.
From S2P Require Import Identity Session NetworkAddress PoolProtocol TableSession SessionState Swarm SessionDelivery.
From S2P Require Import PoolRuntime PoolSpec.
Import OCamlLikeNotations.

Lemma min_by_in {A} (cmp : A → A → comparison) l m : min_by cmp l = Some m → m ∈ l.
Proof.
  destruct l as [|x l]; [done|]. intros [= <-]. revert x. induction l as [|y l IH]; intros x; [apply list_elem_of_here|].
  cbn [fold_left]. specialize (IH (match cmp x y with Gt => y | _ => x end)).
  apply elem_of_cons in IH as [->|IH]; [destruct (cmp x y)|]; set_solver.
Qed.
Lemma min_by_nonempty {A} (cmp : A → A → comparison) l : l ≠ [] → is_Some (min_by cmp l).
Proof. destruct l; [done|]. by eexists. Qed.

Lemma ord_ltb_trans `{OrdLaws A} (x y z : A) : ord_ltb x y = true → ord_ltb y z = true → ord_ltb x z = true.
Proof.
  intros Hxy Hyz. apply ord_leb_neq_ltb; [eapply ord_leb_trans; by apply ord_ltb_leb|]. intros ->.
  apply ord_ltb_leb in Hxy. by rewrite ord_ltb_not_leb, Hxy in Hyz.
Qed.
Lemma sorted_lookup {A} (R : relation A) l i j x y :
  StronglySorted R l → l !! i = Some x → l !! j = Some y → (i < j)%nat → R x y.
Proof.
  intros Hs. revert i j. induction Hs as [|z l _ IH Hall]; intros [|i] [|j] Hi Hj Hlt; try done; try lia; cbn in *.
  - injection Hi as ->. rewrite Forall_forall in Hall. apply Hall. by eapply list_elem_of_lookup_2.
  - apply (IH i j); [done|done|lia].
Qed.

Section decide.
Context `{Crypto, Libp2p, !World, !PoolCodec, !Libp2pLaws, !WorldLaws}.
Implicit Types (a b : ActivePool) (s t : ActivePool * world) (ad : TableAdvertisement).

(** A table that is advertised for the level, with a free seat. *)
Definition joinable (level : StakeLevel) (now : Z) ad : Prop :=
  advertisement_verify_at ad now = Ok tt ∧ ad_level ad = level ∧ ad_lifecycle ad ≠ Closing
  ∧ ad_members ad < TABLE_CAPACITY ∧ ad_waiting ad < WAITING_CAPACITY.
Lemma usable_joinable level now ad : advertisement_usable level now ad = true ↔ joinable level now ad.
Proof.
  unfold advertisement_usable, joinable. rewrite !andb_true_iff, negb_true_iff, !Z.ltb_lt, bool_decide_eq_true,
    bool_decide_eq_false, is_ok_true. split; [intros [[[[[[] ?] ?] ?] ?] ?]; done|intros (? & ? & ? & ? & ?)].
  split_and!; eauto.
Qed.
(** A table of another node. *)
Definition remote (me : PeerId) ad : Prop := ∃ p, peer_id_from_bytes (admission_peer_id ad) = Some p ∧ p ≠ me.
Lemma remote_admission_true me ad : is_remote_admission (admission_peer_id ad) me = true ↔ remote me ad.
Proof.
  unfold is_remote_admission, remote. destruct (peer_id_from_bytes _) as [p|]; [|naive_solver].
  rewrite negb_true_iff, bool_decide_eq_false. naive_solver.
Qed.

Lemma select_Some l level now ad : select_table_advertisement l level now = Some ad → ad ∈ l ∧ joinable level now ad.
Proof.
  unfold select_table_advertisement. intros Hs%min_by_in. apply list_elem_of_filter in Hs as [Hu Hin].
  split; [done|by apply usable_joinable].
Qed.
Lemma select_None l level now ad : select_table_advertisement l level now = None → ad ∈ l → ¬ joinable level now ad.
Proof.
  unfold select_table_advertisement. intros Hs Hin Hj%usable_joinable.
  destruct (min_by_nonempty compare_advertisements (filter (λ ad, advertisement_usable level now ad = true) l)) as [m Hm];
    [|congruence]. intros E. assert (ad ∈ filter (λ ad, advertisement_usable level now ad = true) l) as Hf
    by (by apply list_elem_of_filter). rewrite E in Hf. set_solver.
Qed.

(** ** The decision *)

(** Dialling does not touch the pool. *)
Lemma dial_best_pool peer l s : (dial_best peer l s).2.1 = s.1.
Proof.
  unfold dial_best. rewrite run_lift. destruct (try_collect _ _); [|done..]. rewrite run_lift.
  destruct (ok_or _ _); [|done..]. by rewrite pool_run_call.
Qed.
Lemma dial_advertisement_pool ad s : (dial_advertisement ad s).2.1 = s.1.
Proof.
  unfold dial_advertisement. rewrite run_lift. destruct (ok_or _ _); [|done..]. rewrite !pool_run_net.
  destruct (_ || _ || _); [done|apply dial_best_pool].
Qed.

(** What [decide_pool] may decide in a phase and a state. *)
Definition decision_ok (me : PeerId) (phase : PoolPhase) a (now mono : Z) (d : PoolDecision) : Prop :=
  match d with
  | PoolJoin ad =>
      ad ∈ btree_values (pl_advertisements a) ∧ joinable (tk_level (local_ticket a)) now ad
      ∧ ad_table_id ad ∉ rejected_tables a ∧ remote me ad
      ∧ (phase = Searching
         ∨ phase = InRoom ∧ ∃ local, local_advertisement a = Some local ∧ convergence_eligible local = true
             ∧ ad_table_id ad ≠ la_table_id local
             ∧ (2 <= ad_members ad ∨ ord_ltb (ad_table_id ad) (la_table_id local) = true))
  | PoolCreate table creator =>
      phase = Searching ∧ creator = tk_player_id (local_ticket a)
      ∧ (∀ ad, ad ∈ btree_values (pl_advertisements a) → joinable (tk_level (local_ticket a)) now ad → remote me ad →
           ad_table_id ad ∈ rejected_tables a)
      ∧ ∃ due, creator_due a now = Ok due ∧ due <= since mono (search_started_at a)
  end.

Lemma join_run ad s r t :
  (_ ← dial_advertisement ad; mret (Some (PoolJoin ad))) s = (Ok r, t) → r = Some (PoolJoin ad) ∧ t.1 = s.1.
Proof.
  rewrite run_bind. pose proof (dial_advertisement_pool ad s) as Hp. destruct (dial_advertisement ad s) as [[[]| |] u]; [|done..].
  intros [= <- <-]. done.
Qed.
Lemma convergence_sound now s d t :
  decide_singleton_convergence now s = (Ok (Some d), t) →
  (∃ ad, d = PoolJoin ad) ∧ decision_ok (local_peer_id s.2) InRoom s.1 now 0 d ∧ t.1 = s.1.
Proof.
  unfold decide_singleton_convergence. rewrite pool_run_now.
  destruct (local_advertisement s.1) as [local|] eqn:Hl; [|done]. destruct (convergence_eligible local) eqn:He; [|done].
  cbn [negb]. rewrite pool_run_net. destruct (select_table_advertisement _ _ _) as [ad|] eqn:Hs; [|done].
  intros [[= ->] Ht]%join_run. split; [by eexists|]. split; [|done].
  apply select_Some in Hs as [[Hc Hin]%list_elem_of_filter Hj]. unfold convergence_candidate in Hc.
  apply andb_true_iff in Hc as [[[Hr Hne]%andb_true_iff Hrej]%andb_true_iff Hsz].
  apply negb_true_iff, bool_decide_eq_false in Hne, Hrej. apply remote_admission_true in Hr.
  split_and!; try done. right. split; [done|]. exists local. split_and!; try done.
  apply orb_true_iff in Hsz as [?%Z.leb_le|?]; auto.
Qed.
Lemma search_sound now mono s d t :
  decide_next_action now mono s = (Ok (Some d), t) →
  decision_ok (local_peer_id s.2) Searching s.1 now mono d ∧ t.1 = s.1.
Proof.
  unfold decide_next_action. rewrite pool_run_now, pool_run_net.
  destruct (select_table_advertisement _ _ _) as [ad|] eqn:Hs.
  - intros [[= ->] Ht]%join_run. split; [|done]. apply select_Some in Hs as [[Hc Hin]%list_elem_of_filter Hj].
    apply andb_true_iff in Hc as [Hr Hrej]. apply negb_true_iff, bool_decide_eq_false in Hrej.
    apply remote_admission_true in Hr. split_and!; try done. by left.
  - rewrite run_lift. destruct (creator_due s.1 now) as [due| |] eqn:Hdue; [|done..].
    destruct (_ <? _) eqn:Hlt; [done|]. rewrite pool_run_call. intros [= <- <-]. split; [|done].
    split_and!; [done|done| |].
    + intros ad Hin Hj Hr. destruct (decide (ad_table_id ad ∈ rejected_tables s.1)) as [|Hn]; [done|]. exfalso.
      eapply select_None; [exact Hs| |exact Hj]. apply list_elem_of_filter. split; [|done].
      unfold search_candidate. rewrite bool_decide_false by done. apply andb_true_iff. split; [by apply remote_admission_true|done].
    + exists due. split; [done|]. by apply Z.ltb_ge in Hlt.
Qed.

(** ** The decision of a tick *)

(** What the timer does before it decides leaves the phase, the local table and
    the tables given up alone. *)
Definition unmoved s t : Prop :=
  pl_phase t.1 = pl_phase s.1 ∧ local_advertisement t.1 = local_advertisement s.1
  ∧ rejected_tables t.1 = rejected_tables s.1 ∧ local_peer_id t.2 = local_peer_id s.2.
#[local] Instance unmoved_preorder : PreOrder unmoved.
Proof. split; [by intros s|]. intros s t u (? & ? & ? & ?) (? & ? & ? & ?). unfold unmoved. split_and!; congruence. Qed.
Lemma unmoved_call {A} (f : world → A * world) : (∀ w, local_peer_id (f w).2 = local_peer_id w) → steps unmoved (pool_call f).
Proof. intros Hf s. unfold pool_call. specialize (Hf s.2). by destruct (f s.2). Qed.
Lemma unmoved_world {A} (m : M world PoolError A) :
  (∀ w, local_peer_id (m w).2 = local_peer_id w) → steps unmoved (in_world m).
Proof. intros Hf s. unfold in_world. specialize (Hf s.2). by destruct (m s.2). Qed.
Lemma unmoved_effect f : (∀ w, local_peer_id (f w) = local_peer_id w) → steps unmoved (pool_effect f).
Proof. intros Hf s. by split_and!; [..|apply Hf]. Qed.
Ltac unmoved_step := match goal with
  | |- steps _ (mret _) => apply (steps_ret _)
  | |- steps _ (lift _) => apply (steps_lift _)
  | |- steps _ pool_now => apply (steps_gets _)
  | |- steps _ (pool_net _) => apply (steps_gets _)
  | |- steps _ (for_each _ _) => apply (steps_for_each _); intros ?
  | |- steps _ (_ ≫= _) => apply (steps_bind _); [|intros ?]
  | |- steps _ (if ?c then _ else _) => destruct c
  | |- steps _ (match ?c with _ => _ end) => destruct c
  | |- steps _ (set_pool _) => by intros ?
  | |- steps _ (pool_call (dial _ _)) => apply unmoved_call; intros ?; apply peer_dial
  | |- steps _ (pool_call (send_request _ _)) => apply unmoved_call; intros ?; apply peer_send
  | |- steps _ (pool_call (gossip_publish _ _)) => apply unmoved_call; intros ?; apply peer_publish
  | |- steps _ (pool_effect (add_explicit_peer _)) => apply unmoved_effect; intros ?; apply peer_add_explicit
  | |- steps _ (pool_effect (retain_peer_connection _)) => apply unmoved_effect; intros ?; apply peer_retain
  | |- steps _ (in_world (issue_ticket _ _ _ _ _ _)) => apply unmoved_world; intros ?; apply issue_ticket_spec
  | |- steps _ (in_world (issue_advertisement _ _ _ _ _ _)) => apply unmoved_world; intros ?; apply issue_advertisement_spec
  end.
Definition before_decision (peers : list PeerId) (addresses : list Multiaddr) (device : list Z)
    (c : DeviceCertificate) (now mono : Z) : PoolM (list TablePoolEvent) :=
  _ ← set_pool (retain_valid now);
  _ ← synchronize_explicit_pool_peers;
  _ ← renew_ticket addresses device c now mono;
  published ← republish_ticket mono;
  _ ← republish_advertisement addresses device c now mono;
  _ ← schedule_direct_sync peers mono;
  mret published.
Lemma before_unmoved peers addresses device c now mono : steps unmoved (before_decision peers addresses device c now mono).
Proof.
  unfold before_decision, synchronize_explicit_pool_peers, synchronize_ticket_peer, dial_best, renew_ticket, republish_ticket,
    republish_advertisement, publish_pool, schedule_direct_sync, sync_peer. repeat unmoved_step.
Qed.
(** The phase the timer decides in: a join that took too long is over. *)
Definition phase_now a (mono : Z) : PoolPhase :=
  match pl_phase a with
  | PhaseJoining table started => if JOIN_ATTEMPT_TIMEOUT <=? since mono started then Searching else pl_phase a
  | p => p
  end.
Definition phase_after (d : PoolDecision) (mono : Z) : PoolPhase :=
  match d with PoolJoin ad => PhaseJoining (ad_table_id ad) mono | PoolCreate table _ => Creating table end.
(** The parts of the state a decision is about. *)
Definition decision_view a :=
  (local_ticket a, pl_tickets a, pl_advertisements a, rejected_tables a, search_started_at a, local_advertisement a).

Lemma decision_ok_view me phase a b now mono d :
  decision_view b = decision_view a → decision_ok me phase a now mono d → decision_ok me phase b now mono d.
Proof.
  intros [= E1 E2 E3 E4 E5 E6]. unfold decision_ok, creator_due. by rewrite E1, E2, E3, E4, E5, E6.
Qed.

Lemma expire_decides mono s :
  match expire_join mono s with
  | (Ok _, t) => t.2 = s.2 ∧ pl_phase t.1 = phase_now s.1 mono ∧ local_advertisement t.1 = local_advertisement s.1
      ∧ (∀ table started, pl_phase s.1 = PhaseJoining table started → phase_now s.1 mono = Searching →
           table ∈ rejected_tables t.1)
      ∧ rejected_tables s.1 ⊆ rejected_tables t.1
  | _ => False
  end.
Proof.
  unfold expire_join, phase_now. rewrite pool_run_now. destruct (pl_phase s.1) as [|table started|table|] eqn:Hp;
    [by split_and!; [|exact Hp|..]| |by split_and!; [|exact Hp|..]..]. destruct (_ <=? _) eqn:Ht.
  - rewrite pool_run_set. split_and!; [done|done|done| |].
    + intros tb st [= -> ->] _. change (tb ∈ {[tb]} ∪ rejected_tables s.1). set_solver.
    + change (rejected_tables s.1 ⊆ {[table]} ∪ rejected_tables s.1). set_solver.
  - split_and!; [done|exact Hp|done| |done]. by intros tb st [= -> ->].
Qed.
Lemma decide_pool_sound now mono s d t :
  decide_pool now mono s = (Ok (Some d), t) →
  decision_ok (local_peer_id s.2) (pl_phase s.1) s.1 now mono d ∧ t.1 = s.1.
Proof.
  unfold decide_pool. rewrite pool_run_now. destruct (pl_phase s.1) as [|table started|table|]; [|done|done|].
  - apply search_sound.
  - intros Hc. destruct (convergence_sound _ _ _ _ Hc) as ([ad ->] & Hok & Ht). by split.
Qed.
Lemma directory_view now s t events :
  push_directory_event_if_changed now s = (Ok events, t) → decision_view t.1 = decision_view s.1 ∧ pl_phase t.1 = pl_phase s.1.
Proof.
  unfold push_directory_event_if_changed. rewrite pool_run_now. case_bool_decide; [by intros [= <- <-]|].
  rewrite pool_run_set. by intros [= <- <-].
Qed.
Lemma follow_view d mono s t events :
  follow_decision (Some d) mono s = (Ok events, t) → decision_view t.1 = decision_view s.1 ∧ pl_phase t.1 = phase_after d mono.
Proof. destruct d; unfold follow_decision; rewrite pool_run_set; by intros [= <- <-]. Qed.

Definition after_decision (now mono : Z) (published : list TablePoolEvent)
    : PoolM (list TablePoolEvent * option PoolDecision) :=
  expired ← expire_join mono;
  decision ← decide_pool now mono;
  followed ← follow_decision decision mono;
  directory ← push_directory_event_if_changed now;
  mret (published ++ expired ++ followed ++ directory, decision).
Lemma tick_pool_splits peers addresses device c now mono s :
  tick_pool peers addresses device c now mono s
  = (published ← before_decision peers addresses device c now mono; after_decision now mono published) s.
Proof.
  unfold tick_pool, before_decision. rewrite !run_bind.
  destruct (set_pool (retain_valid now) s) as [[v| |] s1]; [|done..]. rewrite !run_bind.
  destruct (synchronize_explicit_pool_peers s1) as [[v1| |] s2]; [|done..]. rewrite !run_bind.
  destruct (renew_ticket _ _ _ _ _ s2) as [[v2| |] s3]; [|done..]. rewrite !run_bind.
  destruct (republish_ticket mono s3) as [[v3| |] s4]; [|done..]. rewrite !run_bind.
  destruct (republish_advertisement _ _ _ _ _ s4) as [[v4| |] s5]; [|done..]. rewrite !run_bind.
  by destruct (schedule_direct_sync _ _ s5) as [[v5| |] s6].
Qed.

Lemma tick_decides peers addresses device c now mono s events d s' :
  tick_pool peers addresses device c now mono s = (Ok (events, Some d), s') →
  ∃ u, local_peer_id u.2 = local_peer_id s.2 ∧ pl_phase u.1 = phase_now s.1 mono
    ∧ local_advertisement u.1 = local_advertisement s.1
    ∧ (∀ table started, pl_phase s.1 = PhaseJoining table started → phase_now s.1 mono = Searching →
         table ∈ rejected_tables u.1)
    ∧ rejected_tables s.1 ⊆ rejected_tables u.1
    ∧ decision_ok (local_peer_id s.2) (phase_now s.1 mono) u.1 now mono d
    ∧ decision_view s'.1 = decision_view u.1 ∧ pl_phase s'.1 = phase_after d mono.
Proof.
  rewrite tick_pool_splits, run_bind. destruct (before_unmoved peers addresses device c now mono s) as (Eph & Ela & Erj & Epe).
  destruct (before_decision _ _ _ _ _ _ s) as [[published| |] t]; [|done..]. cbn [snd] in *.
  unfold after_decision. rewrite run_bind. pose proof (expire_decides mono t) as Hx.
  destruct (expire_join mono t) as [[expired| |] u]; [|done..]. destruct Hx as (Ew & Ephu & Elau & Hrej & Hsub).
  assert (phase_now t.1 mono = phase_now s.1 mono) as Ep by (unfold phase_now; by rewrite Eph).
  rewrite run_bind. destruct (decide_pool now mono u) as [[[d'|]| |] v] eqn:Hd; [| |done..]; cycle 1.
  { rewrite run_bind. change (follow_decision None mono v) with (@Ok PoolError (list TablePoolEvent) [], v).
    cbv beta iota. rewrite run_bind. by destruct (push_directory_event_if_changed now v) as [[]]. }
  destruct (decide_pool_sound _ _ _ _ _ Hd) as [Hok Ev]. rewrite run_bind.
  destruct (follow_decision (Some d') mono v) as [[followed| |] x] eqn:Hf; [|done..]. rewrite run_bind.
  destruct (push_directory_event_if_changed now x) as [[directory| |] y] eqn:Hdir; [|done..]. intros [= _ <- <-].
  destruct (follow_view _ _ _ _ _ Hf) as [Ev1 Ep1], (directory_view _ _ _ _ Hdir) as [Ev2 Ep2].
  exists u. split_and!; [congruence|congruence|congruence| |by rewrite <-Erj| |congruence|congruence].
  - intros table started E1 E2. apply (Hrej table started); congruence.
  - by rewrite <-Ep, <-Ephu, <-Epe, <-Ew.
Qed.

(** The pool after the local table was refreshed, and its tick. *)
Lemma refreshed_pool (ad : option LocalTableAdvertisement) a :
  ∃ b, set_local_advertisement ad (Some a) = Some b ∧ local_advertisement b = ad ∧ pl_phase b = pl_phase a
    ∧ rejected_tables b = rejected_tables a.
Proof. unfold set_local_advertisement. case_bool_decide; eexists; (split; [reflexivity|]); done. Qed.
Lemma pool_tick_active peers addresses device c now mono a w events d r w' :
  pool_tick peers addresses device c now mono (Some a, w) = (Ok (events, Some d), (r, w')) →
  ∃ b, r = Some b ∧ tick_pool peers addresses device c now mono (a, w) = (Ok (events, Some d), (b, w')).
Proof.
  unfold pool_tick, pool_runtime, gets, on_active. rewrite run_bind. cbn [fst snd].
  destruct (tick_pool _ _ _ _ _ _ (a, w)) as [v [b w1]]. intros [= -> <- <-]. by exists b.
Qed.
Lemma decides_searching me a b now mono d table started :
  decision_ok me (phase_now a mono) b now mono d → pl_phase a = PhaseJoining table started → phase_now a mono = Searching.
Proof.
  intros Hok Hph. unfold phase_now in *. rewrite Hph in *. destruct (_ <=? _); [done|].
  destruct d; cbn [decision_ok] in Hok; [destruct Hok as (_ & _ & _ & _ & [?|[? _]])|destruct Hok as [? _]]; done.
Qed.

(** The player is alone at its table: it sits there with its own join claim,
    nobody else sits or waits, nobody has asked to join or to leave, nothing is
    being signed and no hand is played. *)
Definition alone (q : ActiveSession) : Prop :=
  ∃ m seat, membership q = Some m ∧ mp_seats (sp_proposal m) = [seat] ∧ seat_claim seat = ji_claim_id (local_join q)
    ∧ mp_waiting (sp_proposal m) = [] ∧ size (joins q) = 1%nat ∧ leaves q = ∅ ∧ local_leave q = None
    ∧ pending_membership q = None ∧ pending_roster q = None ∧ hand_active q = false.
Lemma can_converge_alone q : can_converge_singleton q = true → alone q.
Proof.
  unfold can_converge_singleton, alone. intros Hc. bool_props. destruct (membership q) as [m|]; [|done]. bool_props.
  destruct (mp_seats (sp_proposal m)) as [|seat [|? ?]] eqn:Hs; try done. bool_props. exists m, seat. by split_and!.
Qed.
Lemma advertised_alone q local :
  advertisement q = Some local → convergence_eligible local = true → alone q ∧ la_table_id local = as_table_id q.
Proof.
  unfold advertisement. intros (m & _ & Ha)%bind_Some. cbv zeta in Ha. destruct (negb _) in Ha; [done|].
  injection Ha as <-. cbn. intros Hc. split; [by apply can_converge_alone|done].
Qed.

(** C22: A player is only ever sent to a table that it can join.  The timer
    gives the pool the local table as the session advertises it and ticks the
    pool.  When the tick decides to join, the table is in the directory, its
    advertisement is valid now, for the player's level, not closing and with a
    free seat and a free place in the queue, it is the table of another node,
    and it is not among the tables the pool has marked as given up (a tick
    forgets none of the marks; they are cleared when a table admits the player).
    A player who has a table already leaves it only while its session shows that
    it is alone there, and only for another table with at least two players or
    with a smaller id.  A player who was joining a table decides again only
    after 20 seconds, marks that table as given up and does not decide for it.  A
    table is opened only when no other is left to join and the player's turn to
    open one has come. *)
Theorem pool_decision_sound (sess : option ActiveSession) peers addresses device c now mono a w events d r w' :
  pool_tick peers addresses device c now mono (set_local_advertisement (sess ≫= advertisement) (Some a), w)
    = (Ok (events, Some d), (r, w')) →
  ∃ b, r = Some b ∧ decision_ok (local_peer_id w) (phase_now a mono) b now mono d
    ∧ pl_phase b = phase_after d mono ∧ rejected_tables a ⊆ rejected_tables b
    ∧ (∀ table started, pl_phase a = PhaseJoining table started →
        JOIN_ATTEMPT_TIMEOUT <= since mono started ∧ table ∈ rejected_tables b
        ∧ ∀ ad, d = PoolJoin ad → ad_table_id ad ≠ table)
    ∧ (pl_phase a = InRoom → ∃ q ad, sess = Some q ∧ alone q ∧ d = PoolJoin ad ∧ ad_table_id ad ≠ as_table_id q
        ∧ (2 <= ad_members ad ∨ ord_ltb (ad_table_id ad) (as_table_id q) = true)).
Proof.
  intros Hp. destruct (refreshed_pool (sess ≫= advertisement) a) as (a1 & E1 & Ela & Eph & Erj).
  rewrite E1 in Hp. apply pool_tick_active in Hp as (b & -> & Ht).
  destruct (tick_decides _ _ _ _ _ _ _ _ _ _ Ht) as (u & _ & _ & Elu & Hrej & Hsub & Hok & Ev & Ep).
  cbn [fst snd] in *. assert (phase_now a1 mono = phase_now a mono) as Epn by (unfold phase_now; by rewrite Eph).
  assert (rejected_tables b = rejected_tables u.1) as Erb by (by injection Ev).
  rewrite Eph in Hrej. rewrite Epn in Hrej, Hok. rewrite Ela in Elu. exists b. split; [done|].
  split; [by eapply decision_ok_view|]. split; [done|]. split; [by rewrite Erb, <-Erj|]. split.
  - intros table started Hph. assert (phase_now a mono = Searching) as Es by (by eapply decides_searching).
    split; [|split; [rewrite Erb; by eapply Hrej|]].
    + unfold phase_now in Es. rewrite Hph in Es. destruct (_ <=? _) eqn:E; [by apply Z.leb_le|done].
    + intros ad -> E. destruct Hok as (_ & _ & Hn & _). apply Hn. rewrite E. by eapply Hrej.
  - intros Hph. unfold phase_now in Hok. rewrite Hph in Hok. destruct d as [ad|]; [|by destruct Hok].
    destruct Hok as (_ & _ & _ & _ & [?|(_ & local & El & Hc & Hne & Hlt)]); [done|].
    rewrite Elu in El. apply bind_Some in El as (q & -> & Hq). destruct (advertised_alone q local Hq Hc) as [Hal Eid].
    exists q, ad. by rewrite <-Eid.
Qed.

(** ** Two tables of one player each *)

(** A player alone at table [x] decides to go to table [y], where also one
    player is. *)
Definition singleton_move (x y : TableId) : Prop :=
  ∃ peers addresses device c now mono s events ad s' local,
    tick_pool peers addresses device c now mono s = (Ok (events, Some (PoolJoin ad)), s')
    ∧ pl_phase s.1 = InRoom ∧ local_advertisement s.1 = Some local
    ∧ la_table_id local = x ∧ ad_table_id ad = y ∧ ad_members ad < 2.
Lemma singleton_move_smaller x y : singleton_move x y → ord_ltb y x = true.
Proof.
  intros (peers & addresses & device & c & now & mono & s & events & ad & s' & local & Ht & Hph & Hl & <- & <- & Hm).
  destruct (tick_decides _ _ _ _ _ _ _ _ _ _ Ht) as (u & _ & _ & Hlu & _ & _ & (_ & _ & _ & _ & Hcase) & _).
  unfold phase_now in Hcase. rewrite Hph in Hcase. destruct Hcase as [?|(_ & l & E & _ & _ & Hlt)]; [done|].
  rewrite Hlu, Hl in E. injection E as <-. destruct Hlt as [?|?]; [lia|done].
Qed.

(** Players who each opened a table find together and do not chase each
    other.  Whatever such players know of the other tables, a player who is
    alone at a table moves to another table of one player only when its id is
    smaller, so along any sequence of such moves nobody comes back to a table
    that was left: two players do not swap tables, and there are no cycles. *)
Theorem singletons_do_not_cycle x : ¬ tc singleton_move x x.
Proof.
  assert (∀ y z, tc singleton_move y z → ord_ltb z y = true) as Hall.
  { induction 1 as [y z Hm%singleton_move_smaller|y z u Hm%singleton_move_smaller _ IH]; [done|].
    by eapply ord_ltb_trans. }
  intros Hx%Hall. by rewrite ord_ltb_irrefl in Hx.
Qed.

(** ** Who opens a table *)

Lemma creator_delay rank :
  0 <= rank <= u32_max →
  duration_checked_add FIRST_CREATOR_DELAY (duration_saturating_mul CREATOR_FALLBACK_INTERVAL rank)
  = Some (FIRST_CREATOR_DELAY + CREATOR_FALLBACK_INTERVAL * rank).
Proof.
  intros Hr. assert (FIRST_CREATOR_DELAY + CREATOR_FALLBACK_INTERVAL * rank <= DURATION_MAX
    ∧ CREATOR_FALLBACK_INTERVAL * rank <= DURATION_MAX) as [Hle Hle'].
  { unfold CREATOR_FALLBACK_INTERVAL, FIRST_CREATOR_DELAY, DURATION_MAX, seconds, u64_max, u32_max in *. lia. }
  unfold duration_checked_add, duration_saturating_mul. by rewrite Z.min_r, (proj2 (Z.leb_le _ _) Hle) by exact Hle'.
Qed.
Lemma creator_due_Ok a now due :
  creator_due a now = Ok due →
  ∃ rank x, rank_pool_tickets (btree_values (pl_tickets a)) (tk_level (local_ticket a)) now !! rank = Some x
    ∧ ticket_id x = ticket_id (local_ticket a) ∧ due = FIRST_CREATOR_DELAY + CREATOR_FALLBACK_INTERVAL * Z.of_nat rank.
Proof.
  unfold creator_due. intros Hd. apply bind_Ok in Hd as (rank & Hr%ok_or_Ok & Hd). apply bind_Ok in Hd as (k & Hk & Hd).
  destruct (_ <=? u32_max) eqn:Hle in Hk; [|done]. injection Hk as <-. apply Z.leb_le in Hle.
  apply position_Some in Hr as (x & Hx & E%bool_decide_eq_true). exists rank, x. split_and!; [done|done|].
  rewrite creator_delay in Hd by lia. by injection Hd as <-.
Qed.

(** The players who wait open a table one after the other.  Among players
    with the same tickets in their directories, the one with the smaller ticket
    id is at least two seconds ahead of the other, and nobody opens a table
    before four seconds have passed; so a table that is opened can be
    advertised before anyone else opens one. *)
Theorem creators_take_turns a b now due due' :
  pl_tickets a = pl_tickets b → tk_level (local_ticket a) = tk_level (local_ticket b) →
  ord_ltb (ticket_id (local_ticket a)) (ticket_id (local_ticket b)) = true →
  creator_due a now = Ok due → creator_due b now = Ok due' →
  FIRST_CREATOR_DELAY <= due ∧ due + CREATOR_FALLBACK_INTERVAL <= due'.
Proof.
  intros Et El Hlt Ha Hb. apply creator_due_Ok in Ha as (i & x & Hi & Ex & ->), Hb as (j & y & Hj & Ey & ->).
  rewrite Et, El in Hi. set (l := rank_pool_tickets _ _ _) in *.
  assert (StronglySorted (key_le ticket_id) l) as Hs by apply sort_by_key_sorted.
  assert (i < j)%nat; [|unfold FIRST_CREATOR_DELAY, CREATOR_FALLBACK_INTERVAL, seconds; lia].
  destruct (decide (i < j)%nat) as [|Hge]; [done|]. exfalso. rewrite <-Ex, <-Ey in Hlt.
  assert (ord_leb (ticket_id y) (ticket_id x) = true) as Hle.
  { destruct (decide (i = j)) as [->|Hne]; [simplify_eq; apply ord_leb_refl|].
    apply (sorted_lookup (key_le ticket_id) l j i y x Hs Hj Hi). lia. }
  rewrite ord_ltb_not_leb, Hle in Hlt. done.
Qed.

(** ** The end of a search *)

(** The addresses of a table end with the peer that is dialled. *)
Definition dialable ad : Prop := ∀ peer, peer_id_from_bytes (admission_peer_id ad) = Some peer →
  Forall (λ raw, is_Some (multiaddr_from_bytes raw) ∧ ∀ l, multiaddr_from_bytes raw = Some l → last l = Some (P2p peer))
    (admission_addresses ad).
Lemma dial_succeeds level now ad s :
  joinable level now ad → dialable ad → ∃ t, dial_advertisement ad s = (Ok tt, t).
Proof.
  intros (Hv & _) Hd. apply advertisement_verify_at_Ok in Hv as (_ & (_ & _ & _ & (p & [Hp Hc _ _]) & _) & _).
  unfold dial_advertisement. rewrite run_lift, Hp. cbn [ok_or]. rewrite !pool_run_net.
  destruct (_ || _ || _); [by eexists|]. unfold dial_best. specialize (Hd p Hp).
  assert (∃ l, try_collect (pool_dial_address p) (admission_addresses ad) = Ok l ∧ length l = length (admission_addresses ad))
    as (l & -> & Hl).
  { assert (∃ l, Forall2 (λ raw y, pool_dial_address p raw = Ok y) (admission_addresses ad) l) as [l Hl].
    { clear Hc. induction Hd as [|raw k [[m Hm] Hlast] _ [l IH]]; [by exists []|]. exists (removelast m :: l).
      constructor; [|done]. unfold pool_dial_address. rewrite Hm. cbn [ok_or mbind result_bind].
      by rewrite bool_decide_true by (by apply Hlast). }
    exists l. split; [by apply try_collect_Ok|]. symmetry. by eapply Forall2_length. }
  rewrite run_lift. assert (∃ m, preferred_dial_address l = Some m) as [m ->].
  { unfold preferred_dial_address. destruct (min_by_nonempty (λ x y, compare (dial_key x) (dial_key y)) (zip (seq 0 (length l)) l)) as [m ->].
    - intros E. apply (f_equal length) in E. rewrite length_zip, length_seq in E. cbn in E. lia.
    - by eexists. }
  cbn [ok_or]. rewrite run_lift, pool_run_call. by eexists.
Qed.

Lemma kept_size level now l m :
  (size (fold_left (keep_ticket level now) l m) <= size m + length l)%nat.
Proof.
  revert m. induction l as [|x l IH]; intros m; cbn [fold_left length]; [lia|]. etrans; [apply IH|].
  assert (size (keep_ticket level now m x) <= S (size m))%nat; [|lia]. unfold keep_ticket.
  destruct (_ || _); [lia|]. destruct (m !! tk_player_id x) eqn:E; [destruct (ord_ltb _ _); [|lia]|];
    rewrite map_size_insert, E; cbn [id]; lia.
Qed.
Lemma rank_length l level now : (length (rank_pool_tickets l level now) <= length l)%nat.
Proof.
  unfold rank_pool_tickets. rewrite length_sort_by_key. rewrite length_btree_values.
  etrans; [apply kept_size|]. rewrite map_size_empty. lia.
Qed.
(** The local ticket has a rank when it is valid. *)
Lemma local_ranked me owner a now :
  pool_ok me owner a → pl_tickets a !! ticket_id (local_ticket a) = Some (local_ticket a) →
  ticket_verify_at (local_ticket a) now = Ok tt →
  ∃ due, creator_due a now = Ok due ∧ due <= FIRST_CREATOR_DELAY + CREATOR_FALLBACK_INTERVAL * 256.
Proof.
  intros [[Eo _] Ht _ Hb _ _] Hin Hv. set (l := btree_values (pl_tickets a)).
  assert (∀ x, x ∈ l → ∃ id, pl_tickets a !! id = Some x) as Hl by (intros x Hx; by apply elem_of_btree_values in Hx).
  destruct (kept_spec (tk_level (local_ticket a)) now l) as [Hs Hc].
  destruct (Hc (local_ticket a)) as [x Hx]; [apply elem_of_btree_values; by eexists|by split|].
  destruct (Hs _ _ Hx) as [Ep (Hxin & _)]. destruct (Hl x Hxin) as [id Hid].
  assert (x = local_ticket a) as -> by (apply (Ht id x Hid); congruence).
  assert (local_ticket a ∈ rank_pool_tickets l (tk_level (local_ticket a)) now) as Hr by (by apply elem_of_rank).
  unfold creator_due. fold l. set (ranked := rank_pool_tickets _ _ _) in *.
  destruct (position _ ranked) as [i|] eqn:Hi.
  2: { apply position_None in Hi. rewrite Forall_forall in Hi. specialize (Hi _ Hr). cbn beta in Hi.
       by rewrite bool_decide_true in Hi. }
  assert (i <= 256)%nat as Hi256.
  { apply position_Some in Hi as (y & Hy & _). apply lookup_lt_Some in Hy.
    pose proof (rank_length l (tk_level (local_ticket a)) now) as Hlen. fold ranked in Hlen.
    assert (length l = size (pl_tickets a)) as El by (unfold l; by rewrite length_btree_values).
    rewrite map_size_delete_Some in Hb by (by eexists). unfold MAX_TICKETS in Hb. lia. }
  cbn [ok_or mbind result_bind]. assert (0 <= Z.of_nat i <= u32_max) as Hr32 by (unfold u32_max; lia).
  rewrite (proj2 (Z.leb_le _ _)) by lia. cbn [ok_or mbind result_bind]. rewrite creator_delay by done. eexists. split; [done|].
  unfold CREATOR_FALLBACK_INTERVAL, seconds. lia.
Qed.

(** C23: Looking for a table ends.  As long as the tables that could be joined
    can be dialled and the player's own ticket is valid and in the directory, a
    player who has been searching for four seconds and two seconds for each of
    the 256 tickets a directory may hold decides, to join a table or to open
    one. *)
Theorem search_ends me owner r a now mono w :
  pool_reachable me owner r → r = Some a → local_peer_id w = me →
  pl_tickets a !! ticket_id (local_ticket a) = Some (local_ticket a) → ticket_verify_at (local_ticket a) now = Ok tt →
  (∀ ad, ad ∈ btree_values (pl_advertisements a) → joinable (tk_level (local_ticket a)) now ad → dialable ad) →
  FIRST_CREATOR_DELAY + CREATOR_FALLBACK_INTERVAL * 256 <= since mono (search_started_at a) →
  ∃ d t, decide_next_action now mono (a, w) = (Ok (Some d), t).
Proof.
  intros Hr Ha Hw Hin Hv Hdial Hlong. assert (pool_ok me owner a) as Hok.
  { assert (runtime_pool_ok me owner r) as Hall; [|by apply Hall]. unfold pool_reachable in Hr. by apply (reachable_pool_ok me owner r). }
  unfold decide_next_action. rewrite pool_run_now, pool_run_net. cbn [fst snd].
  destruct (select_table_advertisement _ _ _) as [ad|] eqn:Hs.
  - apply select_Some in Hs as [[_ Hx]%list_elem_of_filter Hj]. rewrite run_bind.
    destruct (dial_succeeds _ now ad (a, w) Hj (Hdial ad Hx Hj)) as [t ->]. by eexists _, _.
  - rewrite run_lift. destruct (local_ranked me owner a now Hok Hin Hv) as (due & -> & Hdue).
    destruct (_ <? _) eqn:Hlt; [apply Z.ltb_lt in Hlt; lia|]. rewrite pool_run_call. by eexists _, _.
Qed.

(** ** An address that stops everyone *)

(** An address that goes on after the peer passes the check of endpoints, which
    looks at the last peer in it, but not the dialling code, which looks at the
    last part. *)
Lemma trailing_part_passes peer before part raw :
  multiaddr_from_bytes raw = Some (before ++ [P2p peer; part]) → p2p_peer part = None → (1 <= length raw <= 512)%nat →
  address_ok peer raw ∧ pool_dial_address peer raw = Err PoolAddressPeerMismatch.
Proof.
  intros Hraw Hpart Hlen. split.
  - split; [done|]. eexists. split; [exact Hraw|]. rewrite omap_app, last_app. cbn. by rewrite Hpart.
  - unfold pool_dial_address. rewrite Hraw. cbn [ok_or mbind result_bind].
    rewrite last_app. cbn [last]. rewrite bool_decide_false; [done|]. by intros [= ->].
Qed.
(** A table that advertises such an address and is the best one known makes
    every tick of a searching player fail, with nothing changed in its pool. *)
Lemma trailing_part_blocks_search now mono s ad peer raw rest before part :
  select_table_advertisement
    (filter (λ ad, search_candidate s.1 (local_peer_id s.2) ad = true) (btree_values (pl_advertisements s.1)))
    (tk_level (local_ticket s.1)) now = Some ad →
  peer_id_from_bytes (admission_peer_id ad) = Some peer → admission_addresses ad = raw :: rest →
  multiaddr_from_bytes raw = Some (before ++ [P2p peer; part]) → p2p_peer part = None → (1 <= length raw <= 512)%nat →
  is_connected s.2 peer = false → peer ≠ local_peer_id s.2 → should_initiate_peer_dial (local_peer_id s.2) peer = true →
  decide_next_action now mono s = (Err PoolAddressPeerMismatch, s).
Proof.
  intros Hs Hp Haddr Hraw Hpart Hlen Hc Hne Hinit. unfold decide_next_action. rewrite pool_run_now, pool_run_net, Hs.
  rewrite run_bind. unfold dial_advertisement. rewrite run_lift, Hp. cbn [ok_or]. rewrite !pool_run_net, Hc, Hinit.
  rewrite bool_decide_false by done. cbn [orb negb]. unfold dial_best. rewrite Haddr. cbn [try_collect].
  destruct (trailing_part_passes peer before part raw Hraw Hpart Hlen) as [_ ->]. done.
Qed.
End decide.
