(* ===== verification/PoolExample.v ===== *)
(** * PoolExample: two players look for a table

    The theorems on the pool runtime at concrete states. *)

From coqutil Require Import Datatypes.RecordSetters.
From S2P Require Import Prelude Machine Encoding Order Ids Table TablePool Membership Receipt Identity SignedReceipt.
From S2P Require Import Session NetworkAddress PoolProtocol TableSession SessionState Swarm SessionDelivery.
From S2P Require Import PoolRuntime PoolSpec PoolDecide.
Import OCamlLikeNotations.

#[local] Existing Instance toy_crypto.
#[local] Existing Instance toy_libp2p.
#[local] Existing Instance toy_libp2p_laws.

(** The world of a node is its peer id and the next random number. *)
#[local] Instance pool_world : World := {|
  world := Z * Z;
  local_peer_id := fst;
  is_connected := λ _ _, false;
  room_gossip_enabled := λ _, true;
  pool_gossip_enabled := λ _, true;
  add_peer_address := λ _ _ w, w;
  add_explicit_peer := λ _ w, w;
  remove_explicit_peer := λ _ w, w;
  retain_peer_connection := λ _ w, w;
  release_peer_connection := λ _ w, w;
  dial := λ _ _ w, (true, w);
  send_request := λ _ _ w, (w.2, (w.1, w.2 + 1));
  gossip_publish := λ _ _ w, (true, w);
  gossip_subscribe := λ _ w, (true, w);
  gossip_unsubscribe := λ _ w, w;
  fill_bytes := λ n w, (replicate n w.2, (w.1, w.2 + 1));
  hex_encode := λ _, "";
|}.
#[local] Instance pool_world_laws : WorldLaws.
Proof. by split. Qed.
#[local] Instance pool_codec : PoolCodec := {|
  encode_pool := λ _, Some [];
  decode_pool := λ _, None;
  encode_directory := λ l, Some [Z.of_nat (length l)];
|}.

(** Two players, on the peers 3 and 7. *)
Definition owner_of (peer : Z) : PlayerId := root_player_id [peer].
Definition cert_of (peer : Z) : DeviceCertificate := toy_cert peer (peer + 1).
Definition node_at (peer : Z) : @world toy_libp2p pool_world := (peer, peer).
Definition addresses_of (peer : Z) : list Multiaddr := [[Tcp 1; P2p peer]].
Definition searching (peer : Z) : TablePoolRuntime :=
  (join_pool "pool" pool_level 900000 (addresses_of peer) [peer + 1] (cert_of peer) 2000 0 (None, node_at peer)).2.1.
Definition own_ticket (r : TablePoolRuntime) : list TablePoolMessage :=
  match r with Some a => local_directory_messages a | None => [] end.
Definition receives_pool (peer from : Z) (messages : list TablePoolMessage) (r : TablePoolRuntime) : TablePoolRuntime :=
  (pool_direct_request from messages 3000 (r, node_at peer)).2.1.
(** Both have the ticket of the other. *)
Definition both (peer from : Z) : TablePoolRuntime := receives_pool peer from (own_ticket (searching from)) (searching peer).
(** A table of the player on peer 7. *)
Definition table_of (peer id members : Z) : option TableAdvertisement :=
  match advertisement_issue (repeat_id 32 id) pool_level members 0 Waiting 1 (replicate 32 9) (owner_of peer) [peer] [[1; peer]]
          2000 5000 (replicate 16 1) [peer + 1] (cert_of peer) with
  | Ok ad => Some ad
  | _ => None
  end.
Definition offered : TablePoolRuntime :=
  match table_of 7 5 2 with
  | Some ad => receives_pool 3 7 [Advertisement ad] (searching 3)
  | None => None
  end.
Definition tick_of (peer : Z) (now mono : Z) (a : ActivePool) :=
  tick_pool [] (addresses_of peer) [peer + 1] (cert_of peer) now mono (a, node_at peer).

(** ** These states can be reached *)
Lemma searching_reachable peer : pool_reachable peer (cert_player_id (cert_of peer)) (searching peer).
Proof. apply rtc_once. by apply pe_join. Qed.
Lemma receives_reachable peer owner from messages r :
  from ≠ peer → pool_reachable peer owner r → pool_reachable peer owner (receives_pool peer from messages r).
Proof. intros Hne Hr. eapply rtc_r; [exact Hr|]. by apply pe_request. Qed.
Lemma offered_reachable : pool_reachable 3 (cert_player_id (cert_of 3)) offered.
Proof.
  unfold offered. destruct (table_of 7 5 2); [|apply rtc_refl]. apply receives_reachable; [lia|apply searching_reachable].
Qed.

(** ** The theorems at these states *)
Definition pool_is {A} (f : ActivePool → A) (r : TablePoolRuntime) (v : A) : Prop := option_map f r = Some v.
Lemma pool_is_Some {A} (f : ActivePool → A) r v : pool_is f r v → ∃ a, r = Some a ∧ f a = v.
Proof. unfold pool_is. destruct r as [a|]; [|done]. intros [= E]. eauto. Qed.

Lemma pool_invariant_witness :
  ∃ a, offered = Some a ∧ size (pl_advertisements a) = 1%nat ∧ pool_ok 3 (cert_player_id (cert_of 3)) a.
Proof.
  assert (pool_is (λ a, size (pl_advertisements a)) offered 1%nat) as (a & Ha & E)%pool_is_Some by (vm_compute; reflexivity).
  exists a. exact (conj Ha (conj E (pool_invariant 3 _ offered a offered_reachable Ha))).
Defined.

(** The tick joins the table that was offered. *)
Definition joined_table (r : result PoolError (list TablePoolEvent * option PoolDecision)) : option TableId :=
  match r with Ok (_, Some (PoolJoin ad)) => Some (ad_table_id ad) | _ => None end.
Definition protocol_pool_tick (sess : option ActiveSession) (now mono : Z) (a : ActivePool) :=
  pool_tick [] (addresses_of 3) [3 + 1] (cert_of 3) now mono
    (set_local_advertisement (sess ≫= advertisement) (Some a), node_at 3).
(** Anna alone at table 9, which she opened; the pool has table 5. *)
Definition anna_alone : ActiveSession :=
  { (ActiveSession_new table_nine (cert_player_id anna.2) (intent_as anna 11) "room" None) with
    membership := Some (mkSignedProposal 1 (draft table_nine pool_level 1 None [mkSeatClaim 1 (intent_as anna 11)] [] [])
                          (ji_claim_id (intent_as anna 11)) (ji_attestation (intent_as anna 11))) }.
Definition seated : TablePoolRuntime := option_map (λ a, { a with pl_phase := InRoom }) offered.
Lemma pool_decision_sound_witness :
  (∃ a ad b, offered = Some a ∧ ad_table_id ad = repeat_id 32 5
     ∧ decision_ok 3 Searching b 4000 0 (PoolJoin ad) ∧ pl_phase b = PhaseJoining (repeat_id 32 5) 0)
  ∧ ∃ a ad, seated = Some a ∧ pl_phase a = InRoom ∧ ad_table_id ad = repeat_id 32 5
      ∧ alone anna_alone ∧ ad_table_id ad ≠ as_table_id anna_alone.
Proof.
  split.
  - assert (pool_is (λ a, (phase_now a 0, joined_table (protocol_pool_tick None 4000 0 a).1)) offered
      (Searching, Some (repeat_id 32 5))) as (a & Ha & [= Ep E])%pool_is_Some by (vm_compute; reflexivity).
    destruct (protocol_pool_tick None 4000 0 a) as [[[events [[ad|? ?]|]]|?|] [r w]] eqn:Ht; try discriminate E.
    injection E as E. destruct (pool_decision_sound None [] (addresses_of 3) [3 + 1] (cert_of 3) 4000 0 a (node_at 3) events
      (PoolJoin ad) r w Ht) as (b & _ & Hok & Hph & _). rewrite Ep in Hok. cbn [phase_after] in Hph. rewrite E in Hph.
    exists a, ad, b. exact (conj Ha (conj E (conj Hok Hph))).
  - assert (pool_is (λ a, (pl_phase a, joined_table (protocol_pool_tick (Some anna_alone) 4000 0 a).1)) seated
      (InRoom, Some (repeat_id 32 5))) as (a & Ha & [= Ep E])%pool_is_Some by (vm_compute; reflexivity).
    destruct (protocol_pool_tick (Some anna_alone) 4000 0 a) as [[[events [[ad|? ?]|]]|?|] [r w]] eqn:Ht; try discriminate E.
    injection E as E. destruct (pool_decision_sound (Some anna_alone) [] (addresses_of 3) [3 + 1] (cert_of 3) 4000 0 a (node_at 3) events
      (PoolJoin ad) r w Ht) as (_ & _ & _ & _ & _ & _ & Hroom).
    destruct (Hroom Ep) as (q & ad' & [= <-] & Hal & [= <-] & Hne & _).
    exists a, ad. exact (conj Ha (conj Ep (conj E (conj Hal Hne)))).
Defined.

(** The player on peer 3, alone at table 6, moves to table 5. *)
Definition alone_at (id : Z) : option LocalTableAdvertisement :=
  Some (mkLocalAdvertisement (repeat_id 32 id) 1 0 Waiting 1 (replicate 32 9) (owner_of 3) true).
Definition in_room (r : TablePoolRuntime) : option ActivePool :=
  option_map (λ a, { a with pl_phase := InRoom; local_advertisement := alone_at 6 }) r.
Definition neighbour : TablePoolRuntime :=
  match table_of 7 5 1 with
  | Some ad => in_room (receives_pool 3 7 [Advertisement ad] (searching 3))
  | None => None
  end.
Lemma singleton_moves : singleton_move (repeat_id 32 6) (repeat_id 32 5).
Proof.
  assert (pool_is (λ a, (pl_phase a, option_map la_table_id (local_advertisement a),
      match (tick_of 3 4000 0 a).1 with Ok (_, Some (PoolJoin ad)) => Some (ad_table_id ad, ad_members ad) | _ => None end))
    neighbour (InRoom, Some (repeat_id 32 6), Some (repeat_id 32 5, 1))) as (a & Ha & [= Ep El E])%pool_is_Some
    by (vm_compute; reflexivity).
  destruct (tick_of 3 4000 0 a) as [[[events [[ad|? ?]|]]|?|] s'] eqn:Ht; try discriminate E. injection E as E1 E2.
  destruct (local_advertisement a) as [local|] eqn:Hl; [|discriminate El]. injection El as El.
  exists [], (addresses_of 3), [3 + 1], (cert_of 3), 4000, 0, (a, node_at 3), events, ad, s', local.
  split; [exact Ht|]. split; [exact Ep|]. split; [exact Hl|]. split; [exact El|]. split; [exact E1|]. lia.
Qed.
(** Nobody takes it back to table 6. *)
Lemma singletons_do_not_cycle_witness :
  singleton_move (repeat_id 32 6) (repeat_id 32 5) ∧ ¬ tc singleton_move (repeat_id 32 6) (repeat_id 32 6).
Proof. split; [exact singleton_moves|exact (singletons_do_not_cycle (repeat_id 32 6))]. Defined.

(** Both players wait; the ticket of peer 7 comes first. *)
Lemma creators_take_turns_witness :
  ∃ a b, both 7 3 = Some a ∧ both 3 7 = Some b ∧ creator_due a 4000 = Ok (seconds 4) ∧ creator_due b 4000 = Ok (seconds 6)
    ∧ FIRST_CREATOR_DELAY <= seconds 4 ∧ seconds 4 + CREATOR_FALLBACK_INTERVAL <= seconds 6.
Proof.
  assert (option_map (λ a, (pl_tickets a, tk_level (local_ticket a))) (both 7 3)
    = option_map (λ a, (pl_tickets a, tk_level (local_ticket a))) (both 3 7)) as E by (vm_compute; reflexivity).
  assert (pool_is (λ a, creator_due a 4000) (both 7 3) (Ok (seconds 4))) as (a & Ha & Ea)%pool_is_Some by (vm_compute; reflexivity).
  assert (pool_is (λ a, creator_due a 4000) (both 3 7) (Ok (seconds 6))) as (b & Hb & Eb)%pool_is_Some by (vm_compute; reflexivity).
  assert (match both 7 3, both 3 7 with
          | Some a, Some b => ord_ltb (ticket_id (local_ticket a)) (ticket_id (local_ticket b))
          | _, _ => false
          end = true) as Hlt by (vm_compute; reflexivity).
  rewrite Ha, Hb in E, Hlt. injection E as E1 E2. exists a, b.
  exact (conj Ha (conj Hb (conj Ea (conj Eb (creators_take_turns a b 4000 (seconds 4) (seconds 6) E1 E2 Hlt Ea Eb))))).
Defined.

(** Nobody offers a table: after four seconds and two for each possible ticket
    the player opens one. *)
Lemma search_ends_witness :
  ∃ a d t, searching 3 = Some a ∧ decide_next_action 4000 (seconds 516) (a, node_at 3) = (Ok (Some d), t).
Proof.
  assert (pool_is (λ a, (bool_decide (pl_tickets a !! ticket_id (local_ticket a) = Some (local_ticket a)),
      ticket_verify_at (local_ticket a) 4000, btree_values (pl_advertisements a), search_started_at a))
    (searching 3) (true, Ok tt, [], 0)) as (a & Ha & [= Et Ev Ead Es])%pool_is_Some by (vm_compute; reflexivity).
  destruct (@search_ends toy_crypto toy_libp2p pool_world pool_codec toy_libp2p_laws pool_world_laws 3 _ (searching 3) a 4000
    (seconds 516) (node_at 3) (searching_reachable 3) Ha) as (d & t & Hd).
  - reflexivity.
  - apply bool_decide_eq_true in Et. exact Et.
  - exact Ev.
  - rewrite Ead. intros ad Hin. inversion Hin.
  - rewrite Es. vm_compute. discriminate.
  - exists a, d, t. exact (conj Ha Hd).
Defined.
