(* ===== verification/HandState.v ===== *)
(** * HandState: a hand as one player sees it (token-holdem-sidecar hand_runtime.rs)

    [ActiveHand] is the state the sidecar keeps for the hand being played: the
    keys, shuffles and shares of the card protocol, the betting engine and the
    signed actions it has committed, the messages still to be delivered, and
    the receipt being signed.  This file has the data and the functions that
    only read it; HandRuntime has the handlers that change it.

    A seat is a u8 from 1, an index a [nat] from 0.  The events carry the
    identifiers themselves where the code prints them. *)

From stdpp Require Import pretty.
From coqutil Require Import Datatypes.RecordSetters.
From S2P Require Import Prelude Machine Encoding Order Ids Table Membership Session NetworkAddress.
From S2P Require Import MentalPoker SessionState Swarm Cards Holdem PublicState Receipt Identity.
From S2P Require Import SignedReceipt HandAction ReceiptRuntime.
Import OCamlLikeNotations.

Definition MAX_HAND_MESSAGE_BYTES : Z := 256 * 1024.
Definition PUBLIC_HAND_STATE_DOMAIN : list Z := domain_bytes "token-holdem/public-hand-state/v1".
Definition COMBINED_TRANSCRIPT_DOMAIN : list Z := domain_bytes "token-holdem/combined-hand-transcript/v1".
Definition PUBLIC_RETRY_INTERVAL_TICKS : Z := 4.
Definition MAX_PUBLIC_MESSAGE_ATTEMPTS : Z := 1.
Definition DIRECT_RETRY_INTERVAL_TICKS : Z := 4.
Definition MAX_DIRECT_MESSAGE_ATTEMPTS : Z := 24.
Definition NON_OWNER_DIAL_FALLBACK_TICKS : Z := 4.
Definition MAX_EARLY_HAND_MESSAGES : nat := 128.
Definition TURN_ACTION_TIMEOUT_MS : Z := 30000.

(** What the methods report through [anyhow]. *)
Inductive HandError :=
  | NoHandSession | TopicSubscribeFailed | PreviousHandNotFinal | RosterEndpointMismatch
  | HandNumberZero | DealerOutOfRange | SeatNumberOutOfRange | ProgressOutOfRange
  | OtherHand | OtherRoster | HandSourceMissing | SourceNotAtTable | SeatZero | SeatUnknown
  | SourceNotOfSeat | SignerNotAtTable | HandMessageSize | HandMessageNotCbor | HandEncodingFailed
  | PacketConflict | PendingActionConflict | PendingSignatureConflict
  | ShareNotForLocal | ShareOfOtherCard | KeysNotAggregated | DeckNotReady | AggregateKeyMissing
  | KeySeatMissing | ShareSeatMissing | ShareSetMissing | EarlyMessagesFull
  | StaleAction | LeaveRequested | PeersDisconnected | HandFrozen | RevealPendingOrSettled
  | NotAllReady | BettingNotStarted | NotLocalTurn | SequenceOverflow | SequenceSkipped
  | SequenceNotNext | NotActor | DeviceMissing | ReplayNotBound | UnsupportedStreet
  | BoardCardMissing | HoleCardMissing | SettledTimeMissing | SettledPlayerUnknown
  | SettledDeviceMissing | ReceiptForOtherHand | ReceiptPlayerCount | ReceiptPlayerMissing
  | ReceiptCommitmentMismatch | ConsensusMissing | LocalOutcomeMissing | SignatureCountOutOfRange
  | LocalSeatMissing | RaiseOverflow | AbortOtherHand | BoundarySeatMissing | BoundarySeatInvalid
  | Mental (e : MentalPokerError) | Betting (e : HoldemError) | ActionRefused (e : SignedHandActionError)
  | ReceiptRefused (e : ReceiptError) | SignatureRefused (e : SignedReceiptError)
  | ConsensusRefused (e : ConsensusError).

(** ** What is shown to the user *)
Record VisibleCard := mkVisibleCard {
  vc_rank : Z;
  vc_suit : string;
}.
Definition visible_card (c : Card) : VisibleCard :=
  mkVisibleCard (card_rank c)
    match card_suit c with
    | Clubs => "club" | Diamonds => "diamond" | Hearts => "heart" | Spades => "spade"
    end.
Record VisibleSeat := mkVisibleSeat {
  vs_seat : Z;
  vs_player : PlayerId;
  vs_stack : Z;
  vs_committed : Z;
  vs_status : string;
  vs_last_action : option string;
}.
Record VisibleOutcome := mkVisibleOutcome {
  vo_seat : Z;
  vo_player : PlayerId;
  vo_starting : Z;
  vo_ending : Z;
  vo_delta : Z;
}.
Inductive HandEvent :=
  | HandProtocolStarted (table_id : list Z) (hand_number seat dealer_seat : Z) (players : list PlayerId)
      (level : string) (small big : Z) (buy_ins : list Z)
  | HandProtocolProgress (table_id : list Z) (hand_number : Z) (phase : string) (completed required : Z)
  | HandReady (table_id : list Z) (hand_number seat : Z) (cards : VisibleCard * VisibleCard)
      (transcript : list Z)
  | HandState (table_id : list Z) (hand_number sequence : Z) (street : string) (pot current_bet : Z)
      (next_seat : option Z) (local_seat to_call minimum_raise_to maximum_raise_to : Z)
      (can_act awaiting_reveal : bool) (action_timeout_ms : Z) (turn_deadline : option Z)
      (board : list VisibleCard) (seats : list VisibleSeat)
      (transcript public_state betting_state mental_transcript action_transcript : list Z)
  | HandActionConflict (table_id : list Z) (hand_number sequence : Z)
      (accepted_hash conflicting_hash : list Z)
  | HandSettled (table_id : list Z) (hand_number : Z) (outcomes : list VisibleOutcome)
      (transcript : list Z)
  | ReceiptConsensusProgress (table_id : list Z) (hand_number signed required : Z)
  | ReceiptFinalized (table_id : list Z) (hand_number : Z) (receipt : HandId) (local_delta signatures : Z)
  | HandSessionInterrupted (table_id : list Z) (hand_number : Z) (peer : list Z)
  | HandSessionResumed (table_id : list Z) (hand_number : Z) (peer : list Z)
  | HandLeft
  | HandWarning (e : HandError).

Inductive RevealReason := ForStreet | ForShowdown.
#[export] Instance RevealReason_eq_dec : EqDecision RevealReason.
Proof. solve_decision. Defined.
Inductive ActionOrigin := Local | Remote.
#[export] Instance ActionOrigin_eq_dec : EqDecision ActionOrigin.
Proof. solve_decision. Defined.
Record ActionConflictEvidence := mkConflict {
  cf_sequence : Z;
  cf_accepted_hash : list Z;
  cf_conflicting_hash : list Z;
}.
Record PendingReveal := mkPendingReveal {
  pr_reason : RevealReason;
  pr_indices : list Z;
}.
Record RetriedPublicMessage := mkRetriedPublic {
  rp_message : PublicMessage;
  rp_attempts : Z;
  rp_next_retry_tick : Z;
}.
Inductive ReliableHandMessage := ReliablePublic (m : PublicMessage) | ReliablePrivate (m : PrivateMessage).
#[export] Instance ReliableHandMessage_eq_dec : EqDecision ReliableHandMessage.
Proof. solve_decision. Defined.
Inductive BufferedInboundHandMessage :=
  | BufferedPublic (m : PublicMessage) | BufferedPrivate (m : PrivateMessage).
#[export] Instance BufferedInboundHandMessage_eq_dec : EqDecision BufferedInboundHandMessage.
Proof. solve_decision. Defined.
(** [into_control_request]. *)
Definition into_control_request (m : ReliableHandMessage) : ControlRequest :=
  match m with ReliablePublic m => RqHandPublic m | ReliablePrivate m => RqHandPrivate m end.

(** ** The place of the cards in the deck *)

(** [hole_indices], [board_indices] (a card is burnt before the flop, the turn
    and the river), [flop_indices], [turn_index], [river_index]. *)
Definition hole_indices (seat_index : nat) : list Z :=
  let first := u8_or_max (2 * seat_index) in [first; u8_saturating_add first 1].
Definition board_indices (player_count : nat) : list Z :=
  let base := u8_or_max (2 * player_count) in map (u8_saturating_add base) [1; 2; 3; 5; 7].
Definition flop_indices (player_count : nat) : list Z := take 3 (board_indices player_count).
Definition turn_index (player_count : nat) : Z := nth 3 (board_indices player_count) 0.
Definition river_index (player_count : nat) : Z := nth 4 (board_indices player_count) 0.

(** [street_name], [action_name], [timeout_action], [suit_tag]. *)
Definition street_name (s : Street) : string :=
  match s with
  | Preflop => "preflop" | Flop => "flop" | Turn => "turn" | River => "river"
  | Showdown => "showdown" | Complete => "complete"
  end.
Definition action_name (a : PlayerAction) : string :=
  match a with Fold => "fold" | Check => "check" | Call => "call" | RaiseTo _ => "raise" end.
Definition status_name (s : SeatStatus) : string :=
  match s with Active => "active" | Folded => "folded" | AllIn => "all_in" end.
Definition timeout_action (to_call : Chips) : PlayerAction :=
  if to_call =? Chips_ZERO then Check else Fold.
Definition suit_tag (s : Suit) : Z :=
  match s with Clubs => 0 | Diamonds => 1 | Hearts => 2 | Spades => 3 end.

(** [insert_consistent]: a second value for a key has to be the same. *)
Definition insert_consistent `{Countable K} {V} `{EqDecision V} (key : K) (value : V) (e : HandError)
    (m : gmap K V) : result HandError (gmap K V) :=
  match m !! key with
  | Some existing => if bool_decide (existing = value) then Ok m else Err e
  | None => Ok (<[key := value]> m)
  end.

(** [is_relayable_public_message]. *)
Definition is_relayable_public_message (m : PublicMessage) : bool :=
  match m with
  | CommunityRevealShare _ _ _ _ _ _ | ReceiptSignature _ _ _ _ _ | ActionCommitted _ _ _ _ _ => true
  | _ => false
  end.

(** [seat.checked_sub(1)] as an index. *)
Definition seat_index (seat : Z) : result HandError nat :=
  if seat =? 0 then Err SeatZero else Ok (Z.to_nat (seat - 1)).
(** The seat of a player, [None] also when it does not fit a u8. *)
Definition seat_of_player (players : list PlayerId) (p : PlayerId) : option Z :=
  i ← position (λ q, bool_decide (q = p)) players; u8_try_from (S i).

(** ** The state *)
Section state.
Context `{Crypto, Libp2p, Ziffle}.

Record RetriedDirectMessage := mkRetriedDirect {
  rd_peer : PeerId;
  rd_message : ReliableHandMessage;
  rd_attempts : Z;
  rd_next_retry_tick : Z;
}.
(** [BufferedInboundHandDelivery] is a source and a message. *)
Definition BufferedInboundHandDelivery : Type := PeerId * BufferedInboundHandMessage.

Record ActiveHand := mkActiveHand {
  ah_table : ReadyTable;
  ah_topic : string;
  ah_hand_number : Z;
  ah_dealer_index : nat;
  ah_engine : MentalPokerEngine;
  local_key : PlayerKeyMaterial;
  announcements : gmap Z KeyAnnouncement;
  verified_keys : option (list VerifiedPublicKey);
  ah_aggregate_key : option AggregatePublicKey;
  shuffle_packets : gmap Z ShufflePacket;
  shuffle_stage : Z;
  ah_deck : option VerifiedDeck;
  hole_distribution_started : bool;
  direct_outbox : list RetriedDirectMessage;
  direct_requests : gmap OutboundRequestId (PeerId * ReliableHandMessage);
  hole_shares : gmap Z (gmap Z RevealSharePacket);
  local_hole_cards : option (Card * Card);
  ready_seats : gset Z;
  public_shares : gmap Z (gmap Z RevealSharePacket);
  public_cards : gmap Z Card;
  pending_reveal : option PendingReveal;
  ah_hand : option HoldemHand;
  ah_sequence : Z;
  committed_actions : gmap Z SignedHandAction;
  pending_actions : gmap Z SignedHandAction;
  action_conflict : option ActionConflictEvidence;
  public_outbox : list RetriedPublicMessage;
  relayed_public_messages : gset (list Z);
  mental_transcript : ProtocolTranscript;
  action_transcript : list Z;
  last_action_at : option Z;
  turn_started_at : option Z;
  last_actions : gmap Z PlayerAction;
  receipt_consensus : option ReceiptConsensus;
  pending_receipt_signatures : gmap PlayerId (HandReceipt * ParticipantSignature);
  finalized_receipt : option CoSignedReceipt;
  finalized_receipt_exported : bool;
  boundary_exported : bool;
  safe_leave_requested : bool;
  disconnected_peers : gmap PeerId Z;
  settled : bool;
  tick_count : Z;
}.
Implicit Types a : ActiveHand.

(** ** Queries *)
Definition table_id a : list Z := rt_table_id (ah_table a).
Definition players a : list PlayerId := rt_players (ah_table a).
Definition player_count a : nat := length (players a).
Definition all_players_ready a : bool := (size (ready_seats a) =? player_count a)%nat.
Definition local_player a : result HandError PlayerId := expect (players a !! local_seat (ah_table a)).
Definition local_seat_u8 a : result HandError Z :=
  ok_or (u8_try_from (S (local_seat (ah_table a)))) SeatNumberOutOfRange.
Definition local_hole_indices a : list Z := hole_indices (local_seat (ah_table a)).
Definition hand_of a : result HandError HoldemHand := ok_or (ah_hand a) BettingNotStarted.

(** [progress]. *)
Definition progress a (phase : string) (completed : nat) : result HandError HandEvent :=
  completed ← ok_or (u8_try_from completed) ProgressOutOfRange;
  required ← ok_or (u8_try_from (player_count a)) ProgressOutOfRange;
  Ok (HandProtocolProgress (table_id a) (ah_hand_number a) phase completed required).

(** [verify_scope] and [verify_message_scope]. *)
Definition verify_scope a (scope : list Z * Z * list Z) : result HandError unit :=
  let '(table, hand_number, roster_hash) := scope in
  _ ← reject_if (negb (bool_decide (table = table_id a)) || negb (hand_number =? ah_hand_number a)) OtherHand;
  reject_if (negb (bool_decide (roster_hash = rt_roster_hash (ah_table a)))) OtherRoster.

(** [verify_seat_source], [verify_public_source]. *)
Definition verify_seat_source a (seat : Z) (source : PeerId) : result HandError unit :=
  index ← seat_index seat;
  expected ← ok_or (rt_peer_ids (ah_table a) !! index) SeatUnknown;
  reject_if (negb (bool_decide (expected = source))) SourceNotOfSeat.
Definition message_seat a (m : PublicMessage) : result HandError Z :=
  match m with
  | KeyAnnounced _ _ _ seat _ | Shuffle _ _ _ seat _ | CommunityRevealShare _ _ _ seat _ _
  | DealReady _ _ _ seat => Ok seat
  | ReceiptSignature _ _ _ _ s => ok_or (seat_of_player (players a) (signer s)) SignerNotAtTable
  | ActionCommitted _ _ _ _ x => Ok (act_seat x)
  end.
Definition verify_public_source a (source : option PeerId) (m : PublicMessage) : result HandError unit :=
  source ← ok_or source HandSourceMissing;
  _ ← reject_if (negb (bool_decide (source ∈ rt_peer_ids (ah_table a)))) SourceNotAtTable;
  if is_relayable_public_message m then Ok tt else
  seat ← message_seat a m;
  verify_seat_source a seat source.

(** [public_state_hash], [transcript_hash_bytes]. *)
Definition public_card_bytes (entry : Z * Card) : list Z :=
  [entry.1; card_rank entry.2; suit_tag (card_suit entry.2)].
Definition public_state_document a (h : HoldemHand) : list Z :=
  PUBLIC_HAND_STATE_DOMAIN ++ table_id a ++ be_bytes 8 (ah_hand_number a) ++ rt_roster_hash (ah_table a)
  ++ be_bytes 8 (ah_sequence a) ++ as_bytes (public_state_hash blake3 h) ++ blake3 (mental_transcript a)
  ++ blake3 (action_transcript a) ++ [as_u8 (Z.of_nat (size (public_cards a)))]
  ++ flat_map public_card_bytes (btree_entries (public_cards a)).
Definition hand_state_hash a : result HandError (list Z) :=
  h ← hand_of a; Ok (blake3 (public_state_document a h)).
Definition transcript_hash_bytes a : list Z :=
  blake3 (COMBINED_TRANSCRIPT_DOMAIN ++ blake3 (mental_transcript a) ++ blake3 (action_transcript a)).

(** [state_event]. *)
Definition visible_seat a (index : nat) (s : SeatState) : VisibleSeat :=
  let seat := default 0 (u8_try_from (S index)) in
  mkVisibleSeat seat (seat_player s) (stack s) (total_committed s) (status_name (status s))
    (action_name <$> last_actions a !! seat).
Definition undisturbed a : bool :=
  all_players_ready a && bool_decide (pending_reveal a = None) && bool_decide (action_conflict a = None)
  && bool_decide (disconnected_peers a = ∅) && negb (settled a).
Definition state_event a : result HandError HandEvent :=
  h ← hand_of a;
  local ← local_player a;
  s ← ok_or (seats h !! local_seat (ah_table a)) LocalSeatMissing;
  maximum ← ok_or (Chips_checked_add (street_committed s) (stack s)) RaiseOverflow;
  next ← map_err Betting (next_player h);
  let next_seat := p ← next; seat_of_player (players a) p in
  let board := map visible_card (omap (λ i, public_cards a !! i) (board_indices (player_count a))) in
  let deadline := if bool_decide (is_Some next_seat) && undisturbed a
                  then (λ t, u64_saturating_add t TURN_ACTION_TIMEOUT_MS) <$> turn_started_at a
                  else None in
  pot ← map_err Betting (pot h);
  seat ← local_seat_u8 a;
  to_call ← map_err Betting (amount_to_call h local);
  minimum ← map_err Betting (minimum_raise_to h);
  state ← hand_state_hash a;
  Ok (HandState (table_id a) (ah_hand_number a) (ah_sequence a) (street_name (street h)) pot
        (current_bet h) next_seat seat to_call minimum maximum
        (bool_decide (next = Some local) && undisturbed a)
        (bool_decide (is_Some (pending_reveal a))) TURN_ACTION_TIMEOUT_MS deadline board
        (imap (visible_seat a) (seats h)) (transcript_hash_bytes a) state
        (as_bytes (public_state_hash blake3 h)) (blake3 (mental_transcript a))
        (blake3 (action_transcript a))).

(** [receipt_progress]. *)
Definition receipt_progress a : result HandError HandEvent :=
  c ← ok_or (receipt_consensus a) ConsensusMissing;
  signed ← ok_or (u8_try_from (signature_count c)) SignatureCountOutOfRange;
  required ← ok_or (u8_try_from (player_count a)) ProgressOutOfRange;
  Ok (ReceiptConsensusProgress (table_id a) (ah_hand_number a) signed required).

(** [build_receipt]. *)
Definition table_match_id a : MatchId := Ident (take 16 (table_id a)).
Definition settled_outcome a (o : PlayerSettlement) : result HandError HandOutcome :=
  index ← ok_or (position (λ p, bool_decide (p = settled_player o)) (players a)) SettledPlayerUnknown;
  device ← ok_or (rt_devices (ah_table a) !! index) SettledDeviceMissing;
  Ok (mkOutcome (settled_player o) device (settled_starting o) (settled_ending o)).
Definition build_receipt a (settlement : HoldemSettlement) : result HandError HandReceipt :=
  settled_at ← ok_or (last_action_at a) SettledTimeMissing;
  outcomes ← try_collect (settled_outcome a) (settled_players settlement);
  map_err ReceiptRefused
    (settle (table_match_id a) (ah_hand_number a) (level_id (rt_level (ah_table a)))
       (Ident (transcript_hash_bytes a)) settled_at outcomes).

(** [validate_receipt_header]. *)
Definition check_receipt_player a (r : HandReceipt) (entry : nat * PlayerId) : result HandError unit :=
  let '(index, player) := entry in
  o ← ok_or (outcome_for r player) ReceiptPlayerMissing;
  device ← expect (rt_devices (ah_table a) !! index);
  if negb (bool_decide (out_device o = device)) then Err ReceiptCommitmentMismatch else
  buy_in ← expect (rt_buy_ins (ah_table a) !! index);
  reject_if (negb (out_starting o =? buy_in)) ReceiptCommitmentMismatch.
Definition validate_receipt_header a (r : HandReceipt) : result HandError unit :=
  _ ← reject_if (negb (bool_decide (match_id r = table_match_id a))
                 || negb (rc_hand_number r =? ah_hand_number a)
                 || negb (String.eqb (stake_level_id r) (level_id (rt_level (ah_table a)))))
        ReceiptForOtherHand;
  _ ← reject_if (negb (length (outcomes r) =? player_count a)%nat) ReceiptPlayerCount;
  try_each (check_receipt_player a r) (imap pair (players a)).

(** One card opened with the shares of all seats, for hole cards
    ([reveal_if_complete]) and public ones ([try_complete_public_reveal]). *)
Definition verify_seat_share a (deck : VerifiedDeck) (keys : list VerifiedPublicKey) (card_index : Z)
    (packets : gmap Z RevealSharePacket) (index : nat) : result HandError VerifiedRevealToken :=
  seat ← ok_or (u8_try_from (S index)) SeatNumberOutOfRange;
  packet ← ok_or (packets !! seat) ShareSeatMissing;
  key ← expect (keys !! index);
  map_err Mental (verify_reveal_share (ah_engine a) deck (Z.to_nat card_index) key packet).
Definition open_card a (card_index : Z) (packets : gmap Z RevealSharePacket) : result HandError Card :=
  keys ← ok_or (verified_keys a) KeysNotAggregated;
  deck ← ok_or (ah_deck a) DeckNotReady;
  shares ← try_collect (verify_seat_share a deck keys card_index packets) (seq 0 (player_count a));
  map_err Mental (reveal_holdem_card deck (Z.to_nat card_index) shares (player_count a)).

(** [reveal_if_complete], [reveal_local_hole_cards]. *)
Definition reveal_if_complete a (card_index : Z) : result HandError (option Card) :=
  match hole_shares a !! card_index with
  | None => Ok None
  | Some packets =>
      if negb (size packets =? player_count a)%nat then Ok None
      else card ← open_card a card_index packets; Ok (Some card)
  end.
Definition reveal_local_hole_cards a : result HandError (option (Card * Card)) :=
  match local_hole_indices a with
  | [i; j] =>
      first ← reveal_if_complete a i;
      second ← reveal_if_complete a j;
      Ok (f ← first; s ← second; Some (f, s))
  | _ => Panic
  end.

(** [automatic_local_action]: what the client does for its player, once the
    time for the turn is over or the player wants to leave. *)
Definition automatic_local_action a (now : Z) : result HandError (option PlayerAction) :=
  if negb (bool_decide (disconnected_peers a = ∅)) || bool_decide (is_Some (action_conflict a))
     || bool_decide (is_Some (pending_reveal a)) || settled a || negb (all_players_ready a)
  then Ok None else
  h ← hand_of a;
  next ← map_err Betting (next_player h);
  local ← local_player a;
  if negb (bool_decide (next = Some local)) then Ok None else
  if safe_leave_requested a then Ok (Some Fold) else
  match turn_started_at a with
  | None => Ok None
  | Some started =>
      if now <? u64_saturating_add started TURN_ACTION_TIMEOUT_MS then Ok None else
      to_call ← map_err Betting (amount_to_call h local);
      Ok (Some (timeout_action to_call))
  end.
End state.

(** [HandBoundary], [HandExecutionContext], [HandRuntime]. *)
Record HandBoundary := mkBoundary {
  hb_receipt_hash : list Z;
  hb_dealer_seat : PhysicalSeat;
}.
Record HandExecutionContext := mkExecution {
  ex_now : Z;
  ex_device : list Z;
  ex_certificate : DeviceCertificate;
}.
Record HandRuntime `{Crypto, Libp2p, Ziffle} := mkRuntime {
  hr_active : option ActiveHand;
  pending_exports : list CoSignedReceipt;
  early_messages : list BufferedInboundHandDelivery;
}.

(** The precondition of a local action (command.rs). *)
Record HandActionPrecondition := mkPrecondition {
  pc_table_id : string;
  pc_hand_number : Z;
  pc_sequence : Z;
  pc_public_state_hash : string;
}.
Definition precondition_matches (p : HandActionPrecondition) (table_id : string) (hand_number sequence : Z)
    (public_state_hash : string) : bool :=
  String.eqb (pc_table_id p) table_id && (pc_hand_number p =? hand_number) && (pc_sequence p =? sequence)
  && String.eqb (pc_public_state_hash p) public_state_hash.
