(* ===== verification/HandRuntime.v ===== *)
(** * HandRuntime: the handlers of a hand (token-holdem-sidecar hand_runtime.rs)

    The methods of [ActiveHand] and [HandRuntime] on the state of HandState:
    the card protocol ([drive]), betting actions ([commit_action]), reveals,
    settlement and the receipt, and the delivery of messages.  A handler is a
    method on [&mut self] with the swarm: the mutations made before an error
    stay.  CBOR is external ([HandCodec]), and so is the random source behind
    ziffle ([OsRandom]). *)

From stdpp Require Import pretty.
From coqutil Require Import Datatypes.RecordSetters.
From S2P Require Import Prelude Machine Encoding Order Ids Table Membership Session NetworkAddress.
From S2P Require Import MentalPoker SessionState Swarm Cards Holdem PublicState Receipt Identity.
From S2P Require Import SignedReceipt HandAction ReceiptRuntime HandState.
Import OCamlLikeNotations.

(** [cbor4ii::serde]. *)
Class HandCodec := {
  encode_public : PublicMessage → option (list Z);
  decode_public : list Z → option PublicMessage;
  encode_action : SignedHandAction → option (list Z);
}.
(** [OsRng], as a generator for ziffle. *)
Class OsRandom `{World, Ziffle} := {
  os_rng {A : Type} : (rng → A * rng) → world → A * world;
}.

(** A method of [ActiveHand] or of [HandRuntime] with the swarm. *)
Notation HandM := (M (ActiveHand * world) HandError).
Notation RuntimeM := (M (HandRuntime * world) HandError).

Section handlers.
Context `{Crypto, Libp2p, Ziffle, !World, !OsRandom, !HandCodec}.
Implicit Types (a : ActiveHand) (x : HandExecutionContext).

Definition hand_now : HandM ActiveHand := gets fst.
Definition set_hand (f : ActiveHand → ActiveHand) : HandM unit := modify (λ s, (f s.1, s.2)).
Definition net {A} (f : world → A) : HandM A := gets (λ s, f s.2).
Definition net_call {A} (f : world → A * world) : HandM A :=
  λ s, let '(v, w) := f s.2 in (Ok v, (s.1, w)).
(** A computation of the card protocol that draws random numbers. *)
Definition drawing {A} (m : M rng MentalPokerError A) : HandM A :=
  λ s, let '(r, w) := os_rng m s.2 in (map_err Mental r, (s.1, w)).
(** [match result { Ok(v) => .., Err(e) => .. }]. *)
Definition attempt {A} (m : HandM A) : HandM (A + HandError) :=
  λ s, match m s with
       | (Ok v, s) => (Ok (inl v), s)
       | (Err e, s) => (Ok (inr e), s)
       | (Panic, s) => (Panic, s)
       end.
(** The betting engine, in place. *)
Definition on_betting {A} (m : HM A) : HandM A :=
  λ s, match ah_hand s.1 with
       | None => (Err BettingNotStarted, s)
       | Some h => let '(r, h) := m h in (map_err Betting r, ({ s.1 with ah_hand := Some h }, s.2))
       end.
(** The receipt consensus, in place. *)
Definition on_consensus {A} (m : M ReceiptConsensus ConsensusError A) : HandM A :=
  λ s, match receipt_consensus s.1 with
       | None => (Err ConsensusMissing, s)
       | Some c => let '(r, c) := m c in
           (map_err ConsensusRefused r, ({ s.1 with receipt_consensus := Some c }, s.2))
       end.
Definition reading {A} (f : ActiveHand → result HandError A) : HandM A := λ s, (f s.1, s).

(** ** Delivery *)

(** [public_message_id], [publish_public]. *)
Definition public_message_id (m : PublicMessage) : result HandError (list Z) :=
  payload ← ok_or (encode_public m) HandEncodingFailed; Ok (blake3 payload).
Definition publish_public (topic : string) (m : PublicMessage) : HandM bool :=
  payload ← lift (ok_or (encode_public m) HandEncodingFailed);
  _ ← lift (reject_if (MAX_HAND_MESSAGE_BYTES <? Z.of_nat (length payload)) HandMessageSize);
  net_call (gossip_publish topic payload).

(** [dispatch_direct_messages]: one entry of the outbox is sent when its peer
    has no request under way, is connected, and the entry is due. *)
Definition dispatch_entry (connected : PeerId → bool) (tick : Z)
    (acc : gset PeerId * list RetriedDirectMessage * list (PeerId * ReliableHandMessage))
    (d : RetriedDirectMessage)
    : gset PeerId * list RetriedDirectMessage * list (PeerId * ReliableHandMessage) :=
  let '(busy, outbox, due) := acc in
  if negb (bool_decide (rd_peer d ∈ busy)) && connected (rd_peer d)
     && (rd_attempts d <? MAX_DIRECT_MESSAGE_ATTEMPTS) && (rd_next_retry_tick d <=? tick)
  then ({[rd_peer d]} ∪ busy,
        outbox ++ [mkRetriedDirect (rd_peer d) (rd_message d) (u8_saturating_add (rd_attempts d) 1)
                     (u32_saturating_add tick DIRECT_RETRY_INTERVAL_TICKS)],
        due ++ [(rd_peer d, rd_message d)])
  else (busy, outbox ++ [d], due).
Definition send_direct (entry : PeerId * ReliableHandMessage) : HandM unit :=
  request ← net_call (send_request entry.1 (into_control_request entry.2));
  set_hand (λ a, { a with direct_requests ::= λ m, <[request := entry]> m }).
Definition dispatch_direct_messages : HandM unit :=
  a ← hand_now;
  connected ← net is_connected;
  let busy : gset PeerId := list_to_set (map (λ e, e.2.1) (map_to_list (direct_requests a))) in
  let '(_, outbox, due) := fold_left (dispatch_entry connected (tick_count a)) (direct_outbox a)
                             (busy, [], []) in
  _ ← set_hand (λ a, { a with direct_outbox := outbox });
  for_each send_direct due.

(** [queue_direct_message], [retry_direct_messages]. *)
Definition queue_direct_message (peer : PeerId) (m : ReliableHandMessage) : HandM unit :=
  a ← hand_now;
  if existsb (λ d, bool_decide (rd_peer d = peer) && bool_decide (rd_message d = m)) (direct_outbox a)
  then mret tt else
  _ ← set_hand (λ a, { a with direct_outbox ::= λ l, l ++ [mkRetriedDirect peer m 0 (tick_count a)] });
  dispatch_direct_messages.
Definition retry_direct_messages : HandM unit := dispatch_direct_messages.

(** [publish_public_message], [queue_public_message],
    [relay_verified_public_message]. *)
Definition publish_public_message (m : PublicMessage) : HandM unit :=
  a ← hand_now;
  published ← publish_public (ah_topic a) m;
  set_hand (λ a, { a with public_outbox ::= λ l,
    l ++ [mkRetriedPublic m (if (published : bool) then 1 else 0)
            (u32_saturating_add (tick_count a) PUBLIC_RETRY_INTERVAL_TICKS)] }).
Definition queue_public_message (m : PublicMessage) : HandM unit :=
  message_id ← lift (public_message_id m);
  _ ← set_hand (λ a, { a with relayed_public_messages ::= λ s, {[message_id]} ∪ s });
  local ← net local_peer_id;
  a ← hand_now;
  _ ← for_each (λ peer, queue_direct_message peer (ReliablePublic m))
        (filter (λ peer, peer ≠ local) (rt_peer_ids (ah_table a)));
  publish_public_message m.
Definition relay_verified_public_message (m : PublicMessage) : HandM unit :=
  if negb (is_relayable_public_message m) then mret tt else
  message_id ← lift (public_message_id m);
  a ← hand_now;
  if bool_decide (message_id ∈ relayed_public_messages a) then mret tt else
  _ ← set_hand (λ a, { a with relayed_public_messages ::= λ s, {[message_id]} ∪ s });
  publish_public_message m.

(** [retry_public_messages]. *)
Definition public_due (tick : Z) (entry : nat * RetriedPublicMessage) : bool :=
  (rp_attempts entry.2 <? MAX_PUBLIC_MESSAGE_ATTEMPTS) && (rp_next_retry_tick entry.2 <=? tick).
Definition retry_public (entry : nat * RetriedPublicMessage) : HandM unit :=
  a ← hand_now;
  published ← publish_public (ah_topic a) (rp_message entry.2);
  a ← hand_now;
  pending ← lift (expect (public_outbox a !! entry.1));
  set_hand (λ a, { a with public_outbox ::= λ l,
    <[entry.1 := mkRetriedPublic (rp_message pending)
                   (if (published : bool) then u8_saturating_add (rp_attempts pending) 1 else rp_attempts pending)
                   (u32_saturating_add (tick_count a) PUBLIC_RETRY_INTERVAL_TICKS)]> l }).
Definition retry_public_messages : HandM unit :=
  a ← hand_now;
  _ ← for_each retry_public (filter (λ e, public_due (tick_count a) e = true) (imap pair (public_outbox a)));
  set_hand (λ a, { a with public_outbox ::= λ l,
    filter (λ p, rp_attempts p < MAX_PUBLIC_MESSAGE_ATTEMPTS) l }).

(** ** The receipt *)

(** [try_finalize_receipt]. *)
Definition try_finalize_receipt (now : Z) : HandM (list HandEvent) :=
  a ← hand_now;
  match receipt_consensus a with
  | None => mret []
  | Some c =>
      if cs_finalized c then mret [] else
      final ← on_consensus (consensus_try_finalize now);
      match final with
      | None => mret []
      | Some receipt =>
          local ← reading local_player;
          o ← lift (ok_or (outcome_for (co_receipt receipt) local) LocalOutcomeMissing);
          signatures ← lift (ok_or (u8_try_from (length (co_signatures receipt))) SignatureCountOutOfRange);
          _ ← set_hand (λ a, { a with finalized_receipt := Some receipt });
          mret [ReceiptFinalized (table_id a) (ah_hand_number a) (receipt_id blake3 (co_receipt receipt))
                  (delta o) signatures]
      end
  end.

(** [accept_receipt_signature]. *)
Definition accept_receipt_signature (r : HandReceipt) (s : ParticipantSignature) (now : Z)
    : HandM (list HandEvent) :=
  _ ← reading (λ a, validate_receipt_header a r);
  _ ← lift (map_err SignatureRefused (verify_for s r now));
  a ← hand_now;
  if bool_decide (receipt_consensus a = None) then
    signatures ← lift (insert_consistent (signer s) (r, s) PendingSignatureConflict
                         (pending_receipt_signatures a));
    _ ← set_hand (λ a, { a with pending_receipt_signatures := signatures });
    mret []
  else
    inserted ← on_consensus (consensus_accept r s now);
    events ← (if (inserted : bool) then e ← reading receipt_progress; mret [e] else mret []);
    final ← try_finalize_receipt now;
    mret (events ++ final).

(** [finish_settlement]. *)
Definition visible_outcome a (o : PlayerSettlement) : VisibleOutcome :=
  mkVisibleOutcome (default 0 (seat_of_player (players a) (settled_player o))) (settled_player o)
    (settled_starting o) (settled_ending o) (settled_delta o).
Definition accept_pending_signature (now : Z) (entry : HandReceipt * ParticipantSignature)
    : HandM (list HandEvent) :=
  r ← attempt (accept_receipt_signature entry.1 entry.2 now);
  mret match r with inl events => events | inr e => [HandWarning e] end.
Fixpoint collect_events {A} (f : A → HandM (list HandEvent)) (l : list A) : HandM (list HandEvent) :=
  match l with
  | [] => mret []
  | v :: l => first ← f v; rest ← collect_events f l; mret (first ++ rest)
  end.
Definition finish_settlement (settlement : HoldemSettlement) x : HandM (list HandEvent) :=
  _ ← set_hand (λ a, { a with settled := true; turn_started_at := None });
  a ← hand_now;
  receipt ← lift (build_receipt a settlement);
  '(consensus, signature) ← lift (map_err ConsensusRefused
                                (consensus_start receipt (ex_device x) (ex_certificate x) (ex_now x)));
  _ ← set_hand (λ a, { a with receipt_consensus := Some consensus });
  _ ← queue_public_message (ReceiptSignature (table_id a) (ah_hand_number a)
                              (rt_roster_hash (ah_table a)) receipt signature);
  state ← reading state_event;
  progress ← reading receipt_progress;
  let settled := HandSettled (table_id a) (ah_hand_number a)
                   (map (visible_outcome a) (settled_players settlement)) (transcript_hash_bytes a) in
  a ← hand_now;
  _ ← set_hand (λ a, { a with pending_receipt_signatures := ∅ });
  accepted ← collect_events (accept_pending_signature (ex_now x))
               (btree_values (pending_receipt_signatures a));
  final ← try_finalize_receipt (ex_now x);
  mret ([state; settled; progress] ++ accepted ++ final).

(** ** Reveals *)

(** [request_public_reveal]: the local shares of the cards, published. *)
Definition share_public_card (deck : VerifiedDeck) (seat : Z) (messages : list PublicMessage) (card_index : Z)
    : HandM (list PublicMessage) :=
  a ← hand_now;
  if bool_decide (is_Some (shares ← public_shares a !! card_index; shares !! seat)) then mret messages else
  packet ← drawing (create_reveal_share (ah_engine a) deck (Z.to_nat card_index) (local_key a));
  _ ← set_hand (λ a, { a with public_shares ::= λ m,
        <[card_index := <[seat := packet]> (default ∅ (m !! card_index))]> m });
  mret (messages ++ [CommunityRevealShare (table_id a) (ah_hand_number a) (rt_roster_hash (ah_table a))
                       seat card_index packet]).
Fixpoint fold_handler {A B} (f : B → A → HandM B) (acc : B) (l : list A) : HandM B :=
  match l with
  | [] => mret acc
  | v :: l => acc ← f acc v; fold_handler f acc l
  end.
(** [sort_unstable] and [dedup]. *)
Definition sorted_indices (indices : list Z) : list Z := btree_iter (list_to_set indices : gset Z).
Definition request_public_reveal (indices : list Z) (reason : RevealReason) : HandM unit :=
  let indices := sorted_indices indices in
  a ← hand_now;
  deck ← lift (ok_or (ah_deck a) DeckNotReady);
  seat ← reading local_seat_u8;
  messages ← fold_handler (share_public_card deck seat) [] indices;
  _ ← for_each queue_public_message messages;
  set_hand (λ a, { a with pending_reveal := Some (mkPendingReveal reason indices) }).

(** [try_complete_public_reveal]: open the cards whose shares are complete;
    [false] when some card still lacks a share. *)
Definition append_card_shares a (packets : gmap Z RevealSharePacket) (t : ProtocolTranscript) (index : nat)
    : result HandError ProtocolTranscript :=
  seat ← ok_or (u8_try_from (S index)) SeatNumberOutOfRange;
  packet ← ok_or (packets !! seat) ShareSeatMissing;
  Ok (append_reveal_share packet t).
Definition open_public_card (card_index : Z) : HandM bool :=
  a ← hand_now;
  if bool_decide (is_Some (public_cards a !! card_index)) then mret true else
  match public_shares a !! card_index with
  | None => mret false
  | Some packets =>
      if negb (size packets =? player_count a)%nat then mret false else
      card ← lift (open_card a card_index packets);
      transcript ← lift (try_fold (append_card_shares a packets) (mental_transcript a)
                           (seq 0 (player_count a)));
      _ ← set_hand (λ a, { a with mental_transcript := transcript;
                           public_cards ::= λ m, <[card_index := card]> m });
      mret true
  end.
Fixpoint open_public_cards (indices : list Z) : HandM bool :=
  match indices with
  | [] => mret true
  | i :: l => opened ← open_public_card i; if (opened : bool) then open_public_cards l else mret false
  end.
Definition showdown_hole a (entry : nat * SeatState) : result HandError (PlayerId * (Card * Card)) :=
  match hole_indices entry.1 with
  | [i; j] =>
      first ← ok_or (public_cards a !! i) HoleCardMissing;
      second ← ok_or (public_cards a !! j) HoleCardMissing;
      Ok (seat_player entry.2, (first, second))
  | _ => Panic
  end.
Definition showdown_cards a : result HandError (list Card * gmap PlayerId (Card * Card)) :=
  board ← try_collect (λ i, ok_or (public_cards a !! i) BoardCardMissing) (board_indices (player_count a));
  h ← hand_of a;
  holes ← try_collect (showdown_hole a) (filter (λ e, status e.2 ≠ Folded) (imap pair (seats h)));
  Ok (board, fold_left (λ m e, <[e.1 := e.2]> m) holes ∅).
Definition try_complete_public_reveal x : HandM (list HandEvent) :=
  a ← hand_now;
  match pending_reveal a with
  | None => mret []
  | Some pending =>
      opened ← open_public_cards (pr_indices pending);
      a ← hand_now;
      if negb opened || negb (forallb (λ i, bool_decide (is_Some (public_cards a !! i))) (pr_indices pending))
      then mret [] else
      _ ← set_hand (λ a, { a with pending_reveal := None });
      if bool_decide (pr_reason pending = ForStreet) then
        _ ← set_hand (λ a, { a with turn_started_at := Some (ex_now x) });
        e ← reading state_event; mret [e]
      else
        '(board, holes) ← reading showdown_cards;
        settlement ← on_betting (settle_showdown board holes);
        finish_settlement settlement x
  end.

(** ** Betting *)

(** [start_betting_hand]. *)
Definition start_betting_hand : HandM unit :=
  a ← hand_now;
  h ← lift (map_err Betting (start (rt_level (ah_table a)) (zip (players a) (rt_buy_ins (ah_table a)))
                               (ah_dealer_index a)));
  set_hand (λ a, { a with ah_hand := Some h }).

(** [handle_action_outcome]. *)
Definition showdown_indices (n : nat) (h : HoldemHand) : list Z :=
  board_indices n
  ++ flat_map (λ e, hole_indices e.1) (filter (λ e, status e.2 ≠ Folded) (imap pair (seats h))).
Definition street_indices (n : nat) (s : Street) : result HandError (list Z) :=
  match s with
  | Flop => Ok (flop_indices n)
  | Turn => Ok [turn_index n]
  | River => Ok [river_index n]
  | _ => Err UnsupportedStreet
  end.
Definition handle_action_outcome (outcome : ActionOutcome) x : HandM (list HandEvent) :=
  match outcome with
  | WaitingFor _ => e ← reading state_event; mret [e]
  | StreetAdvanced s _ =>
      _ ← set_hand (λ a, { a with last_actions := ∅; turn_started_at := None });
      a ← hand_now;
      indices ← lift (street_indices (player_count a) s);
      _ ← request_public_reveal indices ForStreet;
      e ← reading state_event; mret [e]
  | ShowdownReady =>
      _ ← set_hand (λ a, { a with turn_started_at := None });
      a ← hand_now;
      h ← lift (hand_of a);
      _ ← request_public_reveal (showdown_indices (player_count a) h) ForShowdown;
      e ← reading state_event; mret [e]
  | HandComplete settlement => finish_settlement settlement x
  end.

(** [append_action]. *)
Definition append_action (action : SignedHandAction) : HandM unit :=
  payload ← lift (ok_or (encode_action action) HandEncodingFailed);
  set_hand (λ a, { a with action_transcript ::= λ t, t ++ write_bytes payload }).

(** The player and the device of a seat, as looked up before a signature is
    verified. *)
Definition seat_identity a (seat : Z) : result HandError (PlayerId * DevicePublicKey) :=
  index ← seat_index seat;
  player ← ok_or (players a !! index) SeatUnknown;
  device ← ok_or (rt_devices (ah_table a) !! index) DeviceMissing;
  Ok (player, device).
Definition verify_action a (action : SignedHandAction) (sequence : Z) (state : list Z) (seat : Z)
    (identity : PlayerId * DevicePublicKey) (now : Z) : result HandError unit :=
  map_err ActionRefused
    (action_verify_for action (table_id a) (ah_hand_number a) (rt_roster_hash (ah_table a)) sequence
       state seat identity.1 identity.2 now).

(** [resolve_replayed_action]. *)
Definition action_payload_hash (action : SignedHandAction) : list Z := payload_hash (act_attestation action).
Definition resolve_replayed_action (sequence : Z) (accepted conflicting : SignedHandAction) (now : Z)
    : HandM (list HandEvent) :=
  _ ← lift (reject_if (negb (act_seat conflicting =? act_seat accepted)
                       || negb (bool_decide (act_player_id conflicting = act_player_id accepted))
                       || negb (bool_decide (expected_public_state_hash conflicting
                                             = expected_public_state_hash accepted))) ReplayNotBound);
  a ← hand_now;
  identity ← lift (seat_identity a (act_seat accepted));
  _ ← lift (verify_action a conflicting sequence (expected_public_state_hash accepted)
              (act_seat accepted) identity now);
  if bool_decide (action_payload_hash conflicting = action_payload_hash accepted) then mret [] else
  _ ← set_hand (λ a, { a with action_conflict :=
        Some (mkConflict sequence (action_payload_hash accepted) (action_payload_hash conflicting)) });
  mret [HandActionConflict (table_id a) (ah_hand_number a) sequence (action_payload_hash accepted)
          (action_payload_hash conflicting)].

(** [commit_action]. *)
Definition commit_action (sequence : Z) (action : SignedHandAction) (origin : ActionOrigin) x
    : HandM (list HandEvent) :=
  a ← hand_now;
  match committed_actions a !! sequence with
  | Some existing =>
      if bool_decide (existing = action) then mret []
      else resolve_replayed_action sequence existing action (ex_now x)
  | None =>
      _ ← lift (reject_if (bool_decide (is_Some (action_conflict a))) HandFrozen);
      next ← lift (expect (u64_checked_add (ah_sequence a) 1));
      _ ← lift (reject_if (negb (sequence =? next)) SequenceNotNext);
      let seat := act_seat action in
      identity ← lift (seat_identity a seat);
      state ← lift (hand_state_hash a);
      _ ← lift (verify_action a action sequence state seat identity (ex_now x));
      _ ← lift (reject_if (bool_decide (is_Some (pending_reveal a)) || settled a) RevealPendingOrSettled);
      outcome ← on_betting (act identity.1 (act_action action));
      _ ← set_hand (λ a, { a with ah_sequence := sequence; last_action_at := Some (act_issued_at action);
                           turn_started_at := Some (ex_now x);
                           last_actions ::= λ m, <[seat := act_action action]> m });
      _ ← append_action action;
      _ ← set_hand (λ a, { a with committed_actions ::= λ m, <[sequence := action]> m });
      _ ← (if bool_decide (origin = Local)
           then queue_public_message (ActionCommitted (table_id a) (ah_hand_number a)
                                        (rt_roster_hash (ah_table a)) sequence action)
           else mret tt);
      handle_action_outcome outcome x
  end.

(** [accept_or_defer_remote_action]. *)
Definition accept_or_defer_remote_action (sequence : Z) (action : SignedHandAction) x
    : HandM (list HandEvent) :=
  a ← hand_now;
  if sequence <=? ah_sequence a then commit_action sequence action Remote x else
  _ ← lift (reject_if (negb (sequence =? u64_saturating_add (ah_sequence a) 1)) SequenceSkipped);
  let seat := act_seat action in
  identity ← lift (seat_identity a seat);
  _ ← lift (verify_action a action sequence (expected_public_state_hash action) seat identity (ex_now x));
  h ← lift (hand_of a);
  next ← lift (map_err Betting (next_player h));
  _ ← lift (reject_if (negb (bool_decide (next = Some identity.1))) NotActor);
  state ← lift (hand_state_hash a);
  if bool_decide (is_Some (pending_reveal a)) || negb (bool_decide (state = expected_public_state_hash action))
  then
    pending ← lift (insert_consistent sequence action PendingActionConflict (pending_actions a));
    _ ← set_hand (λ a, { a with pending_actions := pending });
    mret []
  else commit_action sequence action Remote x.

(** [commit_deferred_actions]: every round takes an action out of
    [pending_actions], so one round more than their number is enough fuel. *)
Fixpoint commit_deferred_from (fuel : nat) x : HandM (list HandEvent) :=
  a ← hand_now;
  if bool_decide (is_Some (pending_reveal a)) || settled a then mret [] else
  let sequence := u64_saturating_add (ah_sequence a) 1 in
  match pending_actions a !! sequence with
  | None => mret []
  | Some action =>
      state ← lift (hand_state_hash a);
      if negb (bool_decide (state = expected_public_state_hash action)) then mret [] else
      match fuel with
      | O => lift Panic
      | S fuel =>
          _ ← set_hand (λ a, { a with pending_actions ::= delete sequence });
          events ← commit_action sequence action Remote x;
          rest ← commit_deferred_from fuel x;
          mret (events ++ rest)
      end
  end.
Definition commit_deferred_actions x : HandM (list HandEvent) :=
  a ← hand_now; commit_deferred_from (S (size (pending_actions a))) x.

(** [commit_local_action]. *)
Definition commit_local_action (action : PlayerAction) x : HandM (list HandEvent) :=
  a ← hand_now;
  _ ← lift (reject_if (negb (bool_decide (disconnected_peers a = ∅))) PeersDisconnected);
  _ ← lift (reject_if (bool_decide (is_Some (action_conflict a))) HandFrozen);
  _ ← lift (reject_if (bool_decide (is_Some (pending_reveal a)) || settled a) RevealPendingOrSettled);
  _ ← lift (reject_if (negb (all_players_ready a)) NotAllReady);
  h ← lift (hand_of a);
  next ← lift (map_err Betting (next_player h));
  local ← lift (local_player a);
  _ ← lift (reject_if (negb (bool_decide (next = Some local))) NotLocalTurn);
  sequence ← lift (ok_or (u64_checked_add (ah_sequence a) 1) SequenceOverflow);
  state ← lift (hand_state_hash a);
  seat ← lift (local_seat_u8 a);
  signed ← lift (map_err ActionRefused
             (action_issue (table_id a) (ah_hand_number a) (rt_roster_hash (ah_table a)) sequence state seat
                action (ex_now x) (ex_device x) (ex_certificate x)));
  commit_action sequence signed Local x.

(** ** The card protocol *)

(** [ensure_local_shuffle]. *)
Definition ensure_local_shuffle : HandM unit :=
  a ← hand_now;
  let next := u8_saturating_add (shuffle_stage a) 1 in
  if (player_count a <? Z.to_nat next)%nat || negb (Z.to_nat next =? S (local_seat (ah_table a)))%nat
     || bool_decide (is_Some (shuffle_packets a !! next))
  then mret tt else
  aggregate ← lift (ok_or (ah_aggregate_key a) AggregateKeyMissing);
  packet ← (if next =? 1 then drawing (initial_shuffle (ah_engine a) aggregate)
            else previous ← lift (ok_or (ah_deck a) DeckNotReady);
                 drawing (reshuffle (ah_engine a) aggregate previous));
  _ ← set_hand (λ a, { a with shuffle_packets ::= λ m, <[next := packet]> m });
  queue_public_message (Shuffle (table_id a) (ah_hand_number a) (rt_roster_hash (ah_table a)) next packet).

(** The first part of [drive]: the keys are complete. *)
Definition seat_announcement a (index : nat) : result HandError KeyAnnouncement :=
  seat ← ok_or (u8_try_from (S index)) SeatNumberOutOfRange;
  ok_or (announcements a !! seat) KeySeatMissing.
Definition verify_seat_key a (index : nat) : result HandError VerifiedPublicKey :=
  k ← seat_announcement a index;
  map_err Mental (verify_key_announcement (ah_engine a) k).
Definition append_seat_key a (t : ProtocolTranscript) (index : nat) : result HandError ProtocolTranscript :=
  k ← seat_announcement a index;
  Ok (append_key k t).
Definition aggregate_keys : HandM (list HandEvent) :=
  a ← hand_now;
  if bool_decide (is_Some (verified_keys a)) || negb (size (announcements a) =? player_count a)%nat
  then mret [] else
  verified ← lift (try_collect (verify_seat_key a) (seq 0 (player_count a)));
  aggregate ← lift (map_err Mental (aggregate_key verified));
  transcript ← lift (try_fold (append_seat_key a) (mental_transcript a) (seq 0 (player_count a)));
  _ ← set_hand (λ a, { a with mental_transcript := transcript; verified_keys := Some verified;
                       ah_aggregate_key := Some aggregate });
  e ← reading (λ a, progress a "shuffling" 0); mret [e].

(** The second part: the shuffles that have arrived, in the order of the
    seats.  A round advances the stage, so as many rounds as players are
    enough fuel. *)
Definition verify_next_shuffle a (next : Z) (packet : ShufflePacket) : result HandError VerifiedDeck :=
  aggregate ← ok_or (ah_aggregate_key a) AggregateKeyMissing;
  if next =? 1 then map_err Mental (verify_initial_shuffle (ah_engine a) aggregate packet)
  else previous ← ok_or (ah_deck a) DeckNotReady;
       map_err Mental (verify_reshuffle (ah_engine a) aggregate previous packet).
Fixpoint shuffle_rounds (fuel : nat) : HandM (list HandEvent) :=
  a ← hand_now;
  let next := u8_saturating_add (shuffle_stage a) 1 in
  match shuffle_packets a !! next with
  | None => mret []
  | Some packet =>
      match fuel with
      | O => lift Panic
      | S fuel =>
          verified ← lift (verify_next_shuffle a next packet);
          _ ← set_hand (λ a, { a with mental_transcript ::= append_shuffle packet;
                               ah_deck := Some verified; shuffle_stage := next });
          e ← reading (λ a, progress a "shuffling" (Z.to_nat next));
          if (player_count a <=? Z.to_nat next)%nat then mret [e] else
          _ ← ensure_local_shuffle;
          rest ← shuffle_rounds fuel;
          mret (e :: rest)
      end
  end.
Definition run_shuffles : HandM (list HandEvent) :=
  a ← hand_now;
  if bool_decide (ah_aggregate_key a = None) then mret [] else
  _ ← ensure_local_shuffle;
  shuffle_rounds (S (player_count a)).

(** [begin_hole_distribution]: a share of every hole card, for its owner only. *)
Definition share_hole_card (deck : VerifiedDeck) (from_seat : Z) (outbound : list (PeerId * PrivateMessage))
    (slot : nat * Z) : HandM (list (PeerId * PrivateMessage)) :=
  let '(owner, card_index) := slot in
  a ← hand_now;
  to_seat ← lift (ok_or (u8_try_from (S owner)) SeatNumberOutOfRange);
  packet ← drawing (create_reveal_share (ah_engine a) deck (Z.to_nat card_index) (local_key a));
  if (owner =? local_seat (ah_table a))%nat then
    _ ← set_hand (λ a, { a with hole_shares ::= λ m,
          <[card_index := <[from_seat := packet]> (default ∅ (m !! card_index))]> m });
    mret outbound
  else
    peer ← lift (expect (rt_peer_ids (ah_table a) !! owner));
    mret (outbound ++ [(peer, HoleRevealShare (table_id a) (ah_hand_number a) (rt_roster_hash (ah_table a))
                                from_seat to_seat card_index packet)]).
Definition hole_slots (n : nat) : list (nat * Z) :=
  flat_map (λ owner, map (pair owner) (hole_indices owner)) (seq 0 n).
Definition begin_hole_distribution : HandM unit :=
  a ← hand_now;
  deck ← lift (ok_or (ah_deck a) DeckNotReady);
  from_seat ← lift (local_seat_u8 a);
  outbound ← fold_handler (share_hole_card deck from_seat) [] (hole_slots (player_count a));
  _ ← for_each (λ e, queue_direct_message e.1 (ReliablePrivate e.2)) outbound;
  set_hand (λ a, { a with hole_distribution_started := true }).
Definition start_dealing : HandM (list HandEvent) :=
  a ← hand_now;
  if negb (Z.to_nat (shuffle_stage a) =? player_count a)%nat || hole_distribution_started a then mret [] else
  _ ← begin_hole_distribution;
  e ← reading (λ a, progress a "dealing" 0); mret [e].

(** The local hole cards are open: betting starts. *)
Definition reveal_hole : HandM (list HandEvent) :=
  a ← hand_now;
  if bool_decide (is_Some (local_hole_cards a)) || negb (hole_distribution_started a) then mret [] else
  cards ← lift (reveal_local_hole_cards a);
  match cards with
  | None => mret []
  | Some (first, second) =>
      _ ← set_hand (λ a, { a with local_hole_cards := Some (first, second) });
      _ ← start_betting_hand;
      seat ← reading local_seat_u8;
      _ ← set_hand (λ a, { a with ready_seats ::= λ s, {[seat]} ∪ s });
      _ ← queue_public_message (DealReady (table_id a) (ah_hand_number a) (rt_roster_hash (ah_table a)) seat);
      a ← hand_now;
      dealing ← lift (progress a "dealing" (size (ready_seats a)));
      state ← lift (state_event a);
      mret [HandReady (table_id a) (ah_hand_number a) seat (visible_card first, visible_card second)
              (transcript_hash_bytes a); dealing; state]
  end.

(** [ensure_turn_started]. *)
Definition awaits_turn a : result HandError bool :=
  match ah_hand a with
  | None => Ok false
  | Some h => next ← map_err Betting (next_player h); Ok (bool_decide (is_Some next))
  end.
Definition ensure_turn_started (now : Z) : HandM bool :=
  a ← hand_now;
  if bool_decide (is_Some (turn_started_at a)) || negb (bool_decide (disconnected_peers a = ∅))
     || bool_decide (is_Some (action_conflict a)) || bool_decide (is_Some (pending_reveal a))
     || settled a || negb (all_players_ready a)
  then mret false else
  awaits ← lift (awaits_turn a);
  if negb awaits then mret false else
  _ ← set_hand (λ a, { a with turn_started_at := Some now });
  mret true.

(** [drive]. *)
Definition drive x : HandM (list HandEvent) :=
  a ← hand_now;
  if bool_decide (is_Some (action_conflict a)) then mret [] else
  keys ← aggregate_keys;
  shuffles ← run_shuffles;
  dealing ← start_dealing;
  hole ← reveal_hole;
  public ← try_complete_public_reveal x;
  started ← ensure_turn_started (ex_now x);
  a ← hand_now;
  turn ← (if (started : bool) && bool_decide (is_Some (ah_hand a))
          then e ← reading state_event; mret [e] else mret []);
  mret (keys ++ shuffles ++ dealing ++ hole ++ public ++ turn).

(** ** Messages *)

(** The arms of [handle_public_message]. *)
Definition on_key_announcement (seat : Z) (k : KeyAnnouncement) : HandM (list HandEvent) :=
  a ← hand_now;
  _ ← lift (map_err Mental (verify_key_announcement (ah_engine a) k));
  keys ← lift (insert_consistent seat k PacketConflict (announcements a));
  _ ← set_hand (λ a, { a with announcements := keys });
  e ← reading (λ a, progress a "key_exchange" (size (announcements a))); mret [e].
Definition on_shuffle (seat : Z) (packet : ShufflePacket) : HandM (list HandEvent) :=
  a ← hand_now;
  packets ← lift (insert_consistent seat packet PacketConflict (shuffle_packets a));
  _ ← set_hand (λ a, { a with shuffle_packets := packets });
  mret [].
Definition on_community_share (seat card_index : Z) (packet : RevealSharePacket) : HandM (list HandEvent) :=
  a ← hand_now;
  index ← lift (seat_index seat);
  keys ← lift (ok_or (verified_keys a) KeysNotAggregated);
  key ← lift (ok_or (keys !! index) SeatUnknown);
  deck ← lift (ok_or (ah_deck a) DeckNotReady);
  _ ← lift (map_err Mental (verify_reveal_share (ah_engine a) deck (Z.to_nat card_index) key packet));
  shares ← lift (insert_consistent seat packet PacketConflict (default ∅ (public_shares a !! card_index)));
  _ ← set_hand (λ a, { a with public_shares ::= λ m, <[card_index := shares]> m });
  mret [].
Definition on_deal_ready (seat : Z) : HandM (list HandEvent) :=
  a ← hand_now;
  if bool_decide (seat ∈ ready_seats a) then mret [] else
  _ ← set_hand (λ a, { a with ready_seats ::= λ s, {[seat]} ∪ s });
  a ← hand_now;
  dealing ← lift (progress a "dealing" (size (ready_seats a)));
  state ← (if all_players_ready a && bool_decide (is_Some (ah_hand a))
           then e ← reading state_event; mret [e] else mret []);
  mret (dealing :: state).
Definition on_public_message (m : PublicMessage) x : HandM (list HandEvent) :=
  match m with
  | KeyAnnounced _ _ _ seat k => on_key_announcement seat k
  | Shuffle _ _ _ seat packet => on_shuffle seat packet
  | CommunityRevealShare _ _ _ seat card_index packet => on_community_share seat card_index packet
  | DealReady _ _ _ seat => on_deal_ready seat
  | ReceiptSignature _ _ _ receipt signature => accept_receipt_signature receipt signature (ex_now x)
  | ActionCommitted _ _ _ sequence action => accept_or_defer_remote_action sequence action x
  end.
(** [handle_public_message]. *)
Definition handle_public_message (source : option PeerId) (m : PublicMessage) x : HandM (list HandEvent) :=
  a ← hand_now;
  _ ← lift (verify_scope a (public_scope m));
  _ ← lift (verify_public_source a source m);
  events ← on_public_message m x;
  driven ← drive x;
  deferred ← commit_deferred_actions x;
  _ ← (if bool_decide (is_Some source) then relay_verified_public_message m else mret tt);
  mret (events ++ driven ++ deferred).

(** The match of [handle_private]. *)
Definition on_private_message (source : PeerId) (m : PrivateMessage) : HandM unit :=
  match m with
  | HoleRevealShare _ _ _ from_seat to_seat card_index packet =>
      a ← hand_now;
      _ ← lift (verify_scope a (private_scope m));
      _ ← lift (verify_seat_source a from_seat source);
      _ ← lift (reject_if (negb (Z.to_nat to_seat =? S (local_seat (ah_table a)))%nat) ShareNotForLocal);
      _ ← lift (reject_if (negb (bool_decide (card_index ∈ local_hole_indices a))) ShareOfOtherCard);
      shares ← lift (insert_consistent from_seat packet PacketConflict (default ∅ (hole_shares a !! card_index)));
      set_hand (λ a, { a with hole_shares ::= λ m, <[card_index := shares]> m })
  end.

(** ** Connections *)

(** [register_roster_addresses]. *)
Definition register_peer (w : world) (entry : PeerId * list Multiaddr) : world :=
  if bool_decide (entry.1 = local_peer_id w) then w
  else fold_left (λ w address, add_peer_address entry.1 address w) entry.2 w.
Definition register_roster_addresses (t : ReadyTable) : M world HandError unit :=
  λ w, if negb (length (rt_peer_ids t) =? length (rt_peer_addresses t))%nat then (Err RosterEndpointMismatch, w)
       else (Ok tt, fold_left register_peer (zip (rt_peer_ids t) (rt_peer_addresses t)) w).

(** [ensure_roster_connections]: one dial at a time; the player on the higher
    seat dials, the other one after four ticks. *)
Definition connect_peer (t : ReadyTable) (disconnected : gmap PeerId Z) (tick : Z) (local : PeerId)
    (acc : bool * world) (entry : nat * (PeerId * list Multiaddr)) : bool * world :=
  let '(dial_started, w) := acc in
  let '(remote_index, (peer, addresses)) := entry in
  if bool_decide (peer = local) then (dial_started, w) else
  let w := retain_peer_connection peer w in
  let owns_dial := (remote_index <? local_seat t)%nat in
  let fallback_due := match disconnected !! peer with
                      | Some at_ => NON_OWNER_DIAL_FALLBACK_TICKS <=? u32_saturating_sub tick at_
                      | None => false
                      end in
  if is_connected w peer || (negb owns_dial && negb fallback_due) || dial_started then (dial_started, w) else
  let '(dialled, w) := dial peer addresses w in
  ((if (dialled : bool) then true else dial_started), w).
Definition ensure_roster_connections a (w : world) : world :=
  (fold_left (connect_peer (ah_table a) (disconnected_peers a) (tick_count a) (local_peer_id w))
     (imap pair (zip (rt_peer_ids (ah_table a)) (rt_peer_addresses (ah_table a)))) (false, w)).2.

(** ** [HandRuntime] *)
Implicit Types r : HandRuntime.
Definition runtime : RuntimeM HandRuntime := gets fst.
Definition set_runtime (f : HandRuntime → HandRuntime) : RuntimeM unit := modify (λ s, (f s.1, s.2)).
Definition with_world {A} (m : M world HandError A) : RuntimeM A :=
  λ s, let '(v, w) := m s.2 in (v, (s.1, w)).
Definition with_active {A} (m : HandM A) : RuntimeM A :=
  λ s, match hr_active s.1 with
       | None => (Err NoHandSession, s)
       | Some a => let '(v, (a, w)) := m (a, s.2) in (v, ({ s.1 with hr_active := Some a }, w))
       end.

(** [initialize_hand]. *)
Definition transcript_context (t : ReadyTable) (hand_number : Z) : list Z :=
  string_bytes (String.append "token-holdem/table/" (String.append (hex_encode (rt_table_id t))
    (String.append "/hand/" (pretty (Z.to_N hand_number))))).
Definition fresh_active (t : ReadyTable) (topic : string) (hand_number : Z) (dealer : nat)
    (engine : MentalPokerEngine) (key : PlayerKeyMaterial) (seat : Z) : ActiveHand :=
  mkActiveHand t topic hand_number dealer engine key {[seat := announcement key]} None None ∅ 0 None false
    [] ∅ ∅ None ∅ ∅ ∅ None None 0 ∅ ∅ None [] ∅ transcript_default [] None None ∅ None ∅ None false false
    false ∅ false 0.
Definition start_hand x : HandM (list HandEvent) :=
  a ← hand_now;
  seat ← reading local_seat_u8;
  _ ← queue_public_message (KeyAnnounced (table_id a) (ah_hand_number a) (rt_roster_hash (ah_table a)) seat
                              (announcement (local_key a)));
  dealer ← lift (ok_or (u8_try_from (S (ah_dealer_index a))) SeatNumberOutOfRange);
  e ← reading (λ a, progress a "key_exchange" (size (announcements a)));
  let l := rt_level (ah_table a) in
  driven ← drive x;
  mret (HandProtocolStarted (table_id a) (ah_hand_number a) seat dealer (players a) (level_id l)
          (small_blind l) (big_blind l) (rt_buy_ins (ah_table a)) :: e :: driven).
Definition initialize_hand (t : ReadyTable) (topic : string) (hand_number : Z) (dealer : nat) x
    : M world HandError (ActiveHand * list HandEvent) :=
  _ ← lift (reject_if (hand_number =? 0) HandNumberZero);
  _ ← lift (reject_if (length (rt_players t) <=? dealer)%nat DealerOutOfRange);
  engine ← lift (map_err Mental (engine_new (transcript_context t hand_number)));
  key ← (λ w, let '(k, w) := os_rng (generate engine) w in (map_err Mental k, w));
  seat ← lift (ok_or (u8_try_from (S (local_seat t))) SeatNumberOutOfRange);
  λ w, let '(events, (a, w)) := start_hand x (fresh_active t topic hand_number dealer engine key seat, w) in
       ((events ← events; Ok (a, events)), w).

(** [should_buffer_next_hand], [buffer_early_message]. *)
Definition should_buffer_next_hand r (scope : list Z * Z * list Z) : bool :=
  match hr_active r with
  | None => true
  | Some a => bool_decide (is_Some (finalized_receipt a)) && bool_decide (scope.1.1 = table_id a)
              && (scope.1.2 =? u64_saturating_add (ah_hand_number a) 1)
  end.
Definition buffer_early_message (d : BufferedInboundHandDelivery) : RuntimeM unit :=
  r ← runtime;
  if bool_decide (d ∈ early_messages r) then mret tt else
  _ ← lift (reject_if (negb (length (early_messages r) <? MAX_EARLY_HAND_MESSAGES)%nat) EarlyMessagesFull);
  set_runtime (λ r, { r with early_messages ::= λ l, l ++ [d] }).

(** [handle_public], [handle_direct_public], [handle_private]. *)
Definition handle_public (topic : string) (source : option PeerId) (payload : list Z) x
    : RuntimeM (list HandEvent) :=
  r ← runtime;
  a ← lift (ok_or (hr_active r) NoHandSession);
  if negb (String.eqb topic (ah_topic a)) then mret [] else
  _ ← lift (reject_if ((length payload =? 0)%nat || (MAX_HAND_MESSAGE_BYTES <? Z.of_nat (length payload)))
              HandMessageSize);
  m ← lift (ok_or (decode_public payload) HandMessageNotCbor);
  with_active (handle_public_message source m x).
Definition handle_direct_public (source : PeerId) (m : PublicMessage) x : RuntimeM (list HandEvent) :=
  r ← runtime;
  if should_buffer_next_hand r (public_scope m)
  then _ ← buffer_early_message (source, BufferedPublic m); mret []
  else with_active (handle_public_message (Some source) m x).
Definition handle_private (source : PeerId) (m : PrivateMessage) x : RuntimeM (list HandEvent) :=
  r ← runtime;
  if should_buffer_next_hand r (private_scope m)
  then _ ← buffer_early_message (source, BufferedPrivate m); mret []
  else with_active (_ ← on_private_message source m; drive x).

(** [start]. *)
Definition replay_early x (d : BufferedInboundHandDelivery) : RuntimeM (list HandEvent) :=
  λ s, match (match d.2 with
              | BufferedPublic m => handle_direct_public d.1 m x
              | BufferedPrivate m => handle_private d.1 m x
              end) s with
       | (Ok events, s) => (Ok events, s)
       | (Err e, s) => (Ok [HandWarning e], s)
       | (Panic, s) => (Panic, s)
       end.
Fixpoint replay_all x (l : list BufferedInboundHandDelivery) : RuntimeM (list HandEvent) :=
  match l with
  | [] => mret []
  | d :: l => first ← replay_early x d; rest ← replay_all x l; mret (first ++ rest)
  end.
Definition hand_topic (t : ReadyTable) : string :=
  String.append TABLE_TOPIC_PREFIX (hex_encode (rt_table_id t)).
Definition subscribe_hand (topic : string) : M world HandError unit :=
  λ w, let '(ok, w) := gossip_subscribe topic w in
       ((if (ok : bool) then Ok tt else Err TopicSubscribeFailed), w).
Definition retire_previous : RuntimeM unit :=
  r ← runtime;
  match hr_active r with
  | None => mret tt
  | Some completed =>
      _ ← set_runtime (λ r, { r with hr_active := None });
      receipt ← lift (ok_or (finalized_receipt completed) PreviousHandNotFinal);
      if finalized_receipt_exported completed then mret tt
      else set_runtime (λ r, { r with pending_exports ::= λ l, l ++ [receipt] })
  end.
Definition start_runtime (t : ReadyTable) x : RuntimeM (list HandEvent) :=
  _ ← with_world (register_roster_addresses t);
  let topic := hand_topic t in
  _ ← with_world (subscribe_hand topic);
  '(a, events) ← with_world (initialize_hand t topic (rt_hand_number t) (SessionState.dealer_index t) x);
  _ ← retire_previous;
  r ← runtime;
  _ ← set_runtime (λ r, { r with hr_active := Some a; early_messages := [] });
  replayed ← replay_all x (early_messages r);
  mret (events ++ replayed).

(** [tick]. *)
Definition tick_hand x : HandM (list HandEvent) :=
  _ ← set_hand (λ a, { a with tick_count ::= λ t, u32_saturating_add t 1 });
  _ ← (λ s, (Ok tt, (s.1, ensure_roster_connections s.1 s.2)));
  _ ← retry_public_messages;
  _ ← retry_direct_messages;
  events ← drive x;
  automatic ← reading (λ a, automatic_local_action a (ex_now x));
  match automatic with
  | None => mret events
  | Some action =>
      committed ← commit_local_action action x;
      driven ← drive x;
      mret (events ++ committed ++ driven)
  end.
Definition tick_runtime x : RuntimeM (list HandEvent) :=
  r ← runtime;
  if bool_decide (hr_active r = None) then mret [] else with_active (tick_hand x).

(** [leave], [abort_for_signed_leave]. *)
Definition leave_hand : RuntimeM (option HandEvent) :=
  r ← runtime;
  match hr_active r with
  | None => mret None
  | Some a =>
      _ ← set_runtime (λ r, { r with hr_active := None });
      _ ← with_world (modify (gossip_unsubscribe (ah_topic a)));
      mret (Some HandLeft)
  end.
Definition abort_for_signed_leave (table : string) (hand_number : Z) : RuntimeM unit :=
  r ← runtime;
  a ← lift (ok_or (hr_active r) NoHandSession);
  _ ← lift (reject_if (negb (String.eqb (hex_encode (table_id a)) table && (ah_hand_number a =? hand_number)))
              AbortOtherHand);
  _ ← set_runtime (λ r, { r with hr_active := None });
  with_world (modify (gossip_unsubscribe (ah_topic a))).

(** [submit_action]. *)
Definition submit_action (expected : HandActionPrecondition) (action : PlayerAction) x
    : RuntimeM (list HandEvent) :=
  with_active (
    a ← hand_now;
    state ← reading hand_state_hash;
    _ ← lift (reject_if (negb (precondition_matches expected (hex_encode (table_id a)) (ah_hand_number a)
                                 (ah_sequence a) (hex_encode state))) StaleAction);
    _ ← lift (reject_if (safe_leave_requested a) LeaveRequested);
    events ← commit_local_action action x;
    driven ← drive x;
    mret (events ++ driven)).

(** [is_active], [request_safe_leave], [safe_leave_is_stalled]. *)
Definition is_active r : bool := bool_decide (is_Some (hr_active r)).
Definition request_safe_leave r : HandRuntime :=
  match hr_active r with
  | None => r
  | Some a => { r with hr_active := Some { a with safe_leave_requested := true } }
  end.
Definition safe_leave_is_stalled r : bool :=
  match hr_active r with
  | None => false
  | Some a => safe_leave_requested a && (negb (bool_decide (disconnected_peers a = ∅))
                                         || bool_decide (is_Some (action_conflict a)))
  end.

(** [handle_direct_failure], [handle_direct_response]: the answer to a request,
    [true] when it was one of this hand. *)
Definition same_delivery (entry : PeerId * ReliableHandMessage) (d : RetriedDirectMessage) : bool :=
  bool_decide (rd_peer d = entry.1) && bool_decide (rd_message d = entry.2).
(** [iter_mut().find(..)]: the first entry that passes is changed. *)
Fixpoint update_first {A} (p : A → bool) (f : A → A) (l : list A) : list A :=
  match l with
  | [] => []
  | v :: l => if p v then f v :: l else v :: update_first p f l
  end.
Definition failed_delivery (entry : PeerId * ReliableHandMessage) a : ActiveHand :=
  match List.find (same_delivery entry) (direct_outbox a) with
  | None => a
  | Some pending =>
      let retried d := mkRetriedDirect (rd_peer d) (rd_message d) (rd_attempts d)
                         (u32_saturating_add (tick_count a) DIRECT_RETRY_INTERVAL_TICKS) in
      let outbox := update_first (same_delivery entry) retried (direct_outbox a) in
      { a with direct_outbox :=
          if MAX_DIRECT_MESSAGE_ATTEMPTS <=? rd_attempts pending
          then filter (λ d, same_delivery entry d = false) outbox else outbox }
  end.
Definition handle_direct_failure (request : OutboundRequestId) : RuntimeM bool :=
  r ← runtime;
  match hr_active r with
  | None => mret false
  | Some a =>
      match direct_requests a !! request with
      | None => mret false
      | Some entry =>
          _ ← set_runtime (λ r, { r with hr_active :=
                Some (failed_delivery entry { a with direct_requests ::= delete request }) });
          mret true
      end
  end.
Definition acknowledged (entry : PeerId * ReliableHandMessage) a : ActiveHand :=
  { a with direct_outbox ::= filter (λ d, same_delivery entry d = false);
           direct_requests ::= filter (λ e, e.2 ≠ entry) }.
Definition handle_direct_response (request : OutboundRequestId) (accepted : bool) : RuntimeM bool :=
  if negb accepted then handle_direct_failure request else
  r ← runtime;
  match hr_active r with
  | None => mret false
  | Some a =>
      match direct_requests a !! request with
      | None => mret false
      | Some entry =>
          _ ← set_runtime (λ r, { r with hr_active :=
                Some (acknowledged entry { a with direct_requests ::= delete request }) });
          mret true
      end
  end.

(** [take_hand_boundary], [take_newly_finalized_receipts]. *)
Definition take_hand_boundary : RuntimeM (option HandBoundary) :=
  r ← runtime;
  match hr_active r with
  | None => mret None
  | Some a =>
      if boundary_exported a then mret None else
      match finalized_receipt a with
      | None => mret None
      | Some receipt =>
          seat ← lift (ok_or (rt_physical_seats (ah_table a) !! ah_dealer_index a) BoundarySeatMissing);
          dealer ← lift (map_err (λ _, BoundarySeatInvalid) (PhysicalSeat_new seat));
          _ ← set_runtime (λ r, { r with hr_active := Some { a with boundary_exported := true } });
          mret (Some (mkBoundary (as_bytes (receipt_id blake3 (co_receipt receipt))) dealer))
      end
  end.
Definition take_newly_finalized_receipts : RuntimeM (list CoSignedReceipt) :=
  r ← runtime;
  _ ← set_runtime (λ r, { r with pending_exports := [] });
  let receipts := pending_exports r in
  match hr_active r with
  | None => mret receipts
  | Some a =>
      if finalized_receipt_exported a then mret receipts else
      match finalized_receipt a with
      | None => mret receipts
      | Some receipt =>
          _ ← set_runtime (λ r, { r with hr_active := Some { a with finalized_receipt_exported := true } });
          mret (receipts ++ [receipt])
      end
  end.

(** [peer_disconnected], [peer_connected]. *)
Definition session_event (e : HandEvent) : HandM (list HandEvent) :=
  a ← hand_now;
  state ← (if bool_decide (is_Some (ah_hand a)) then s ← reading state_event; mret [s] else mret []);
  mret (e :: state).
Definition on_disconnect (peer : PeerId) : HandM (list HandEvent) :=
  a ← hand_now;
  if negb (bool_decide (peer ∈ rt_peer_ids (ah_table a))) then mret [] else
  local ← lift (expect (rt_peer_ids (ah_table a) !! local_seat (ah_table a)));
  if bool_decide (peer = local) then mret [] else
  _ ← set_hand (λ a, { a with disconnected_peers ::= λ m, <[peer := tick_count a]> m });
  if bool_decide (is_Some (disconnected_peers a !! peer)) then mret [] else
  _ ← set_hand (λ a, { a with turn_started_at := None });
  session_event (HandSessionInterrupted (table_id a) (ah_hand_number a) (peer_id_to_bytes peer)).
Definition on_reconnect (peer : PeerId) : HandM (list HandEvent) :=
  a ← hand_now;
  if bool_decide (disconnected_peers a !! peer = None) then mret [] else
  _ ← set_hand (λ a, { a with disconnected_peers ::= delete peer });
  session_event (HandSessionResumed (table_id a) (ah_hand_number a) (peer_id_to_bytes peer)).
Definition if_active (m : HandM (list HandEvent)) : RuntimeM (list HandEvent) :=
  r ← runtime; if bool_decide (hr_active r = None) then mret [] else with_active m.
Definition peer_disconnected (peer : PeerId) : RuntimeM (list HandEvent) := if_active (on_disconnect peer).
Definition peer_connected (peer : PeerId) : RuntimeM (list HandEvent) := if_active (on_reconnect peer).
End handlers.
