(* ===== verification/HandLog.v ===== *)
(** * HandLog: the betting of a hand as a function of its signed actions

    A player's sidecar never stores what happened in the betting: it stores
    the signed actions it has committed, and the betting engine they lead to.
    [replay] is that function, [outcomes_of] what each action did, and
    [opened] the cards the betting has opened so far: those of the streets it
    has reached, and at the showdown the hole cards of the players left. *)

From S2P Require Import Prelude Machine Encoding Order Ids Table Membership Session NetworkAddress.
From S2P Require Import MentalPoker SessionState Swarm Cards Holdem HoldemInv HoldemAct Showdown.
From S2P Require Import PublicState Receipt Identity SignedReceipt HandAction ReceiptRuntime.
From S2P Require Import HandState HandRuntime.

(** ** Replaying a log *)

Fixpoint replay (log : list SignedHandAction) : HM (list ActionOutcome) :=
  match log with
  | [] => mret []
  | x :: log =>
      out ← act (act_player_id x) (act_action x);
      outs ← replay log;
      mret (out :: outs)
  end.

Lemma replay_snoc log x h0 h h' outs out :
  replay log h0 = (Ok outs, h) → act (act_player_id x) (act_action x) h = (Ok out, h') →
  replay (log ++ [x]) h0 = (Ok (outs ++ [out]), h').
Proof.
  revert h0 outs. induction log as [|y log IH]; intros h0 outs Hr Ha; cbn [replay app] in *.
  { unfold mret, M_ret in Hr. simplify_eq. unfold mbind, M_bind. by rewrite Ha. }
  unfold mbind, M_bind in *. destruct (act _ _ h0) as [[o| |] h1]; [|done..].
  destruct (replay log h1) as [[os| |] h2] eqn:E; [|done..]. unfold mret, M_ret in Hr.
  injection Hr as <- <-. by rewrite (IH _ _ E Ha).
Qed.

(** A hand starts with a player to act. *)
Lemma start_betting l players dealer h :
  level_wf l → 2 * sum_with snd players <= u64_max → start l players dealer = Ok h → betting h.
Proof.
  intros Hl Hf Hs. rewrite start_checks in Hs. repeat case_decide; try done.
  rewrite post_blinds_code in Hs by done. simplify_eq. by apply posted_betting.
Qed.
Lemma start_seats l players dealer h :
  level_wf l → 2 * sum_with snd players <= u64_max → start l players dealer = Ok h →
  length (seats h) = length players.
Proof.
  intros Hl Hf Hs. rewrite start_checks in Hs. repeat case_decide; try done.
  rewrite post_blinds_code in Hs by done. simplify_eq.
  pose proof (same_table_length _ _ (posted_table l players dealer)) as E. unfold Holdem.player_count in E.
  rewrite E. cbn. by rewrite length_map.
Qed.

(** What the betting is at: waiting for an action, at the showdown, or over. *)
Inductive stage (outs : list ActionOutcome) (h : HoldemHand) : Prop :=
  | stage_betting : betting h → Forall goes_on outs → stage outs h
  | stage_showdown before : at_showdown h → outs = before ++ [ShowdownReady] → Forall goes_on before → stage outs h
  | stage_folded before st : street h = Complete → outs = before ++ [HandComplete st] → Forall goes_on before → stage outs h.

(** An action on a hand that waits for one: refused without effect, or the
    next stage. *)
Lemma act_stage p a h outs :
  betting h → Forall goes_on outs →
  match act p a h with
  | (Ok out, h') => stage (outs ++ [out]) h' ∧ same_table h h' ∧ (goes_on out → betting h')
  | (Err _, h') => h' = h
  | (Panic, _) => False
  end.
Proof.
  intros Hb Ho. pose proof (act_spec h p a Hb) as Hr. destruct Hr as [| |i s h1 out h' _ _ _ _ Hg _ Ht]; try done.
  assert (same_table h h') as Hs by (etrans; [apply Hg|apply Ht]).
  assert (goes_on out → betting h') as Hgo by (intros ?; by eapply accepted_measure).
  split_and!; [|done|done]. destruct (Ht) as [_ Hout]. destruct out as [q|st q| |st].
  - apply stage_betting; [by apply Hgo|]. apply Forall_app. split; [done|by repeat constructor].
  - apply stage_betting; [by apply Hgo|]. apply Forall_app. split; [done|by repeat constructor].
  - eapply stage_showdown; [|done|done]. apply Hout.
  - eapply stage_folded; [apply Hout|done|done].
Qed.

(** Replaying keeps the players at the table. *)
Lemma replay_table log h0 outs h :
  betting h0 → replay log h0 = (Ok outs, h) → (∀ before o, outs = before ++ [o] → Forall goes_on before) →
  same_table h0 h.
Proof.
  revert h0 outs. induction log as [|x log IH]; intros h0 outs Hb Hr Hg; cbn [replay] in Hr.
  { unfold mret, M_ret in Hr. by simplify_eq. }
  rewrite run_bind in Hr.
  pose proof (act_stage (act_player_id x) (act_action x) h0 [] Hb (List.Forall_nil _)) as Ha.
  destruct (act _ _ h0) as [[out| |] h1]; [|done..]. destruct Ha as (_ & Ht & Hgo).
  rewrite run_bind in Hr. destruct (replay log h1) as [[os| |] h2] eqn:E; [|done..].
  unfold mret, M_ret in Hr. injection Hr as <- <-. destruct log as [|y log].
  { cbn in E. unfold mret, M_ret in E. by simplify_eq. }
  destruct os as [|o os _] using rev_ind.
  { cbn [replay] in E. rewrite run_bind in E. destruct (act _ _ h1) as [[]]; [|done..]. rewrite run_bind in E.
    by destruct (replay log _) as [[]]. }
  assert (Forall goes_on (out :: os)) as [Ho Hos]%Forall_cons by (by apply (Hg (out :: os) o)).
  etrans; [exact Ht|]. eapply IH; [by apply Hgo|done|].
  intros before o' Eb. apply app_inj_2 in Eb as [-> _]; done.
Qed.

(** [settle_showdown] leaves the turn alone, also when it fails. *)
Definition keeps_turn {A} (m : HM A) : Prop := ∀ h, next_to_act (m h).2 = next_to_act h.
Lemma keeps_turn_bind {A B} (m : HM A) (f : A → HM B) :
  keeps_turn m → (∀ v, keeps_turn (f v)) → keeps_turn (m ≫= f).
Proof.
  intros Hm Hf h. specialize (Hm h). unfold mbind, M_bind. destruct (m h) as [[v| |] h']; simpl in *; [|done..].
  by rewrite Hf.
Qed.
Lemma keeps_turn_for_each {A} (f : A → HM unit) l : (∀ v, keeps_turn (f v)) → keeps_turn (for_each f l).
Proof. intros Hf. induction l as [|v l IH]; cbn [for_each]; [done|]. by apply keeps_turn_bind. Qed.
Lemma keeps_turn_lift {A} (r : result HoldemError A) : keeps_turn (lift r).
Proof. done. Qed.

Lemma update_seat_turn i f : keeps_turn (update_seat i f).
Proof. done. Qed.
Lemma award_turn p n : keeps_turn (award p n).
Proof.
  unfold award. apply keeps_turn_bind; [done|]. intros h. destruct (list_find _ _) as [[i s]|]; [|done].
  apply keeps_turn_bind; [done|]. intros v. apply update_seat_turn.
Qed.
Lemma award_split_turn n ps : keeps_turn (award_split n ps).
Proof.
  unfold award_split. cbv zeta. case_match; [done|].
  apply keeps_turn_bind; [apply keeps_turn_for_each; intros v; apply award_turn|]. intros _.
  apply keeps_turn_bind; [done|]. intros h. apply keeps_turn_for_each. intros v. apply award_turn.
Qed.
Lemma settle_layers_turn c ranks prev ts : keeps_turn (settle_layers c ranks prev ts).
Proof.
  revert prev. induction ts as [|t ts IH]; intros prev; cbn [settle_layers]; [done|].
  apply keeps_turn_bind; [|done]. unfold settle_layer. apply keeps_turn_bind; [done|]. intros h. cbv zeta.
  repeat (apply keeps_turn_bind; [done|]; intros ?). destruct (eligible_for _ _ _).
  - repeat case_match; try done. apply award_turn.
  - repeat (apply keeps_turn_bind; [done|]; intros ?). apply award_split_turn.
Qed.
Lemma settle_showdown_turn board holes : keeps_turn (settle_showdown board holes).
Proof.
  unfold settle_showdown. repeat (apply keeps_turn_bind; [done|]; intros ?).
  apply keeps_turn_bind; [apply settle_layers_turn|]. intros _. by repeat (apply keeps_turn_bind; [done|]; intros ?).
Qed.

(** ** The log of a hand *)
Section log.
Context `{Crypto, Libp2p, Ziffle, !HandCodec}.
Implicit Types a : ActiveHand.

(** The committed actions in order. *)
Definition action_log a : list SignedHandAction :=
  omap (λ k, committed_actions a !! k) (seqZ 1 (ah_sequence a)).
(** The hand the players sat down to. *)
Definition first_deal a : result HoldemError HoldemHand :=
  start (rt_level (ah_table a)) (zip (players a) (rt_buy_ins (ah_table a))) (ah_dealer_index a).
Definition replayed a : result HoldemError (list ActionOutcome * HoldemHand) :=
  h0 ← first_deal a;
  let '(r, h) := replay (action_log a) h0 in outs ← r; Ok (outs, h).
(** The cards the betting has opened. *)
Definition outcome_indices (n : nat) (h : HoldemHand) (out : ActionOutcome) : list Z :=
  match out with
  | StreetAdvanced s _ => match street_indices n s with Ok l => l | _ => [] end
  | ShowdownReady => showdown_indices n h
  | _ => []
  end.
Definition opened a : list Z :=
  match replayed a with
  | Ok (outs, h) => flat_map (outcome_indices (player_count a) h) outs
  | _ => []
  end.
(** What an action adds to the transcript. *)
Definition action_frame (x : SignedHandAction) : list Z := write_bytes (default [] (encode_action x)).
End log.
