(* ===== verification/HandInv.v ===== *)
(** * HandInv: what holds of a hand at every moment

    [hand_ok] is the invariant of [ActiveHand]: the committed actions are
    numbered from 1 without gaps, each is signed by the device of its seat for
    the public state it was committed in, the betting engine is the replay of
    the log, cards are open only when the betting has opened them, the receipt
    is that of the settlement, and the outbox sends every share to those who
    may see it.  [later] is how two states of the same hand are related. *)

From coqutil Require Import Datatypes.RecordSetters.
From S2P Require Import Prelude Machine Encoding Order Ids Table Membership Session NetworkAddress.
From S2P Require Import MentalPoker SessionState Swarm Cards Holdem HoldemInv HoldemAct Showdown.
From S2P Require Import PublicState Receipt Identity SignedReceipt HandAction ReceiptRuntime.
From S2P Require Import HandState HandRuntime HandLog.
Import OCamlLikeNotations.

(** Serialising an action into memory does not fail. *)
Class HandCodecLaws `{HandCodec} : Prop := {
  encode_action_total : ∀ x, is_Some (encode_action x);
}.

(** Where the betting stands, what of it is still to be revealed, and whether
    the hand is settled. *)
Inductive phase (pending : option PendingReveal) (done : bool) (outs : list ActionOutcome)
    (hl h : HoldemHand) : Prop :=
  | ph_betting :
      betting hl → Forall goes_on outs → h = hl → done = false →
      (∀ p, pending = Some p → pr_reason p = ForStreet) → phase pending done outs hl h
  | ph_showdown before :
      at_showdown hl → outs = before ++ [ShowdownReady] → Forall goes_on before → h = hl → done = false →
      (∀ p, pending = Some p → pr_reason p = ForShowdown) → phase pending done outs hl h
  | ph_settled before board holes r :
      at_showdown hl → outs = before ++ [ShowdownReady] → Forall goes_on before →
      settle_showdown board holes hl = (r, h) → pending = None → phase pending done outs hl h
  | ph_folded before st :
      street hl = Complete → outs = before ++ [HandComplete st] → Forall goes_on before → h = hl →
      pending = None → done = true → phase pending done outs hl h.

Section invariant.
Context `{Crypto, Libp2p, Ziffle, !HandCodec}.
Implicit Types a b : ActiveHand.

(** ** Two states of a hand *)
Definition frozen a b : Prop :=
  committed_actions b = committed_actions a ∧ ah_sequence b = ah_sequence a ∧ ah_hand b = ah_hand a
  ∧ public_cards b = public_cards a ∧ pending_reveal b = pending_reveal a ∧ settled b = settled a.

Record later a b : Prop := {
  lt_table : ah_table b = ah_table a;
  lt_number : ah_hand_number b = ah_hand_number a;
  lt_dealer : ah_dealer_index b = ah_dealer_index a;
  lt_sequence : ah_sequence a <= ah_sequence b;
  lt_log : committed_actions a ⊆ committed_actions b;
  lt_mental : mental_transcript a `prefix_of` mental_transcript b;
  lt_opened : opened a ⊆ opened b;
  lt_cards : public_cards a ⊆ public_cards b;
  lt_settled : settled a = true → settled b = true;
  lt_final : is_Some (finalized_receipt a) → finalized_receipt b = finalized_receipt a;
  lt_conflict : is_Some (action_conflict a) → is_Some (action_conflict b) ∧ frozen a b;
}.

#[global] Instance later_preorder : PreOrder later.
Proof.
  split.
  - intros a. by split.
  - intros a b c [] []. split; try by etrans.
    + auto.
    + intros Hf. rewrite <-lt_final0 by done. apply lt_final1. by rewrite lt_final0.
    + intros (Hb & E)%lt_conflict0. destruct (lt_conflict1 Hb) as [Hc E'].
      split; [done|]. unfold frozen in *. naive_solver congruence.
Qed.

(** ** The parts of the invariant *)
Definition chips_ok (t : ReadyTable) : Prop :=
  level_wf (rt_level t) ∧ length (rt_buy_ins t) = length (rt_players t)
  ∧ 2 * sum_with snd (zip (rt_players t) (rt_buy_ins t)) <= u64_max.

(** The log has no gaps, and the transcript is its encoding. *)
Definition log_ok a : Prop :=
  0 <= ah_sequence a <= u64_max
  ∧ (∀ k, is_Some (committed_actions a !! k) ↔ 1 <= k <= ah_sequence a)
  ∧ action_transcript a = flat_map action_frame (action_log a).

(** The betting engine is the replay of the log. *)
Definition hand_follows a : Prop :=
  match ah_hand a with
  | None => ah_sequence a = 0 ∧ pending_reveal a = None ∧ settled a = false
  | Some h => is_Some (local_hole_cards a) ∧ ∃ outs hl, replayed a = Ok (outs, hl)
      ∧ phase (pending_reveal a) (settled a) outs hl h
  end.

(** An action signed by the device of its seat, for its place in the log. *)
Definition signed_for a (k : Z) (x : SignedHandAction) (now : Z) : Prop :=
  ∃ identity, seat_identity a (act_seat x) = Ok identity
    ∧ verify_action a x k (expected_public_state_hash x) (act_seat x) identity now = Ok tt.

(** Every action of the log was verified, in a state of the hand with the
    actions before it and with the public state it names. *)
Definition chain_ok a : Prop := ∀ k x, committed_actions a !! k = Some x →
  (∃ now, signed_for a k x now)
  ∧ ∃ b, later b a ∧ log_ok b ∧ ah_sequence b = k - 1
      ∧ hand_state_hash b = Ok (expected_public_state_hash x).

(** Cards are opened, and asked for, when the betting allows. *)
Definition reveals_ok a : Prop :=
  (∀ p, pending_reveal a = Some p → pr_indices p ⊆ opened a)
  ∧ (∀ i, is_Some (public_cards a !! i) → i ∈ opened a).

(** A conflict is two actions of the same device for the same place. *)
Definition conflict_ok a : Prop := ∀ e, action_conflict a = Some e → ∃ x y now,
  committed_actions a !! cf_sequence e = Some x ∧ signed_for a (cf_sequence e) y now
  ∧ act_seat y = act_seat x ∧ expected_public_state_hash y = expected_public_state_hash x
  ∧ action_payload_hash x = cf_accepted_hash e ∧ action_payload_hash y = cf_conflicting_hash e
  ∧ cf_accepted_hash e ≠ cf_conflicting_hash e.

(** What a hand was settled with: the pot of the last player left, or the
    showdown with the cards that are open. *)
Definition settlement_of a (st : HoldemSettlement) : Prop :=
  ∃ outs hl, replayed a = Ok (outs, hl)
    ∧ (last outs = Some (HandComplete st)
       ∨ last outs = Some ShowdownReady ∧ at_showdown hl
         ∧ ∃ b board holes, later b a ∧ ah_hand b = Some hl ∧ showdown_cards b = Ok (board, holes)
             ∧ (settle_showdown board holes hl).1 = Ok st).
Definition receipt_ok a : Prop :=
  (∀ c, receipt_consensus a = Some c → settled a = true ∧ consensus_ok c
     ∧ ∃ b st, later b a ∧ settlement_of b st ∧ build_receipt b st = Ok (cs_receipt c))
  ∧ (∀ r, finalized_receipt a = Some r → ∃ c now, receipt_consensus a = Some c ∧ cs_finalized c = true
     ∧ co_receipt r = cs_receipt c ∧ cosigned_verify r now = Ok tt).

(** Who may be sent what: a share of a hole card goes to its owner, a public
    share only of an opened card. *)
Definition may_send a (peer : PeerId) (m : ReliableHandMessage) : Prop :=
  match m with
  | ReliablePrivate (HoleRevealShare _ _ _ _ to_seat card_index _) =>
      ∃ owner, to_seat = Z.of_nat (S owner) ∧ rt_peer_ids (ah_table a) !! owner = Some peer
        ∧ card_index ∈ hole_indices owner
  | ReliablePublic (CommunityRevealShare _ _ _ _ card_index _) => card_index ∈ opened a
  | ReliablePublic _ => True
  end.
Definition delivery_key (d : RetriedDirectMessage) : PeerId * ReliableHandMessage := (rd_peer d, rd_message d).
Definition outbox_ok a : Prop :=
  NoDup (map delivery_key (direct_outbox a))
  ∧ Forall (λ d, 0 <= rd_attempts d <= MAX_DIRECT_MESSAGE_ATTEMPTS ∧ may_send a (rd_peer d) (rd_message d))
      (direct_outbox a)
  ∧ (∀ i e, direct_requests a !! i = Some e → may_send a e.1 e.2)
  ∧ (∀ i j e e', direct_requests a !! i = Some e → direct_requests a !! j = Some e' → e.1 = e'.1 → i = j).

(** All but the phase of the betting. *)
Record rest_ok a : Prop := {
  ok_chips : chips_ok (ah_table a);
  ok_log : log_ok a;
  ok_chain : chain_ok a;
  ok_reveals : reveals_ok a;
  ok_conflict : conflict_ok a;
  ok_receipt : receipt_ok a;
  ok_outbox : outbox_ok a;
}.
Record hand_ok a : Prop := {
  ok_rest :> rest_ok a;
  ok_hand : hand_follows a;
}.
Definition moves a b : Prop := hand_ok b ∧ later a b.

(** ** Changes elsewhere *)

(** The fields of the log. *)
Definition log_core a :=
  (ah_table a, ah_hand_number a, ah_dealer_index a, ah_sequence a, committed_actions a, action_transcript a).
Lemma log_core_same a b :
  log_core b = log_core a →
  ah_table b = ah_table a ∧ ah_hand_number b = ah_hand_number a ∧ ah_dealer_index b = ah_dealer_index a
  ∧ ah_sequence b = ah_sequence a ∧ committed_actions b = committed_actions a
  ∧ action_transcript b = action_transcript a ∧ action_log b = action_log a
  ∧ replayed b = replayed a ∧ opened b = opened a.
Proof.
  intros [= Et En Ed Es Ec Ex].
  assert (action_log b = action_log a) as El by (unfold action_log; by rewrite Es, Ec).
  assert (replayed b = replayed a) as Er.
  { unfold replayed, first_deal, players. by rewrite El, Et, Ed. }
  split_and!; try done. unfold opened, player_count, players. by rewrite Er, Et.
Qed.

(** What an earlier state was, a later one can still tell. *)
Lemma signed_for_later a b k x now : later a b → signed_for a k x now → signed_for b k x now.
Proof.
  intros Hl (identity & Hi & Hv). exists identity. unfold seat_identity, verify_action, players, table_id in *.
  by rewrite (lt_table _ _ Hl), (lt_number _ _ Hl).
Qed.
Lemma chain_later a b :
  later a b → chain_ok a →
  (∀ k x, committed_actions b !! k = Some x → committed_actions a !! k = None →
     (∃ now, signed_for b k x now)
     ∧ ∃ c, later c b ∧ log_ok c ∧ ah_sequence c = k - 1
         ∧ hand_state_hash c = Ok (expected_public_state_hash x)) →
  chain_ok b.
Proof.
  intros Hl Ha Hnew k x Hx. destruct (committed_actions a !! k) as [y|] eqn:Hy; [|by apply Hnew].
  assert (x = y) as -> by (pose proof (lookup_weaken _ _ _ _ Hy (lt_log _ _ Hl)); congruence).
  destruct (Ha k y Hy) as ((now & Hs) & c & Hc & ?). split.
  - exists now. by eapply signed_for_later.
  - exists c. split; [by etrans|done].
Qed.
Lemma receipt_frame a b :
  later a b → receipt_consensus b = receipt_consensus a → finalized_receipt b = finalized_receipt a →
  receipt_ok a → receipt_ok b.
Proof.
  intros Hl Hc Hf [Ha Ha']. split; [|by rewrite Hc, Hf].
  rewrite Hc. intros c E. destruct (Ha c E) as (Hs & Hk & d & st & Hd & ?).
  split; [by apply (lt_settled _ _ Hl)|]. split; [done|]. exists d, st. split; [by etrans|done].
Qed.

(** A step that leaves the log alone. *)
Lemma moves_same_log a b :
  rest_ok a → log_core b = log_core a →
  mental_transcript a `prefix_of` mental_transcript b → public_cards a ⊆ public_cards b →
  (settled a = true → settled b = true) → (is_Some (finalized_receipt a) → finalized_receipt b = finalized_receipt a) →
  action_conflict b = action_conflict a → (is_Some (action_conflict a) → frozen a b) →
  later a b ∧ (reveals_ok b → (later a b → receipt_ok b) → outbox_ok b → rest_ok b).
Proof.
  intros [Hp1 Hp2 Hp3 Hp4 Hp5 Hp6 Hp7] E Hm Hcards Hs Hf Hconf Hfz.
  destruct (log_core_same a b E) as (Et & En & Ed & Eq & Ec & Ex & El & _ & Eo).
  assert (later a b) as Hl.
  { split; try done; [lia|by rewrite Ec|by rewrite Eo|]. rewrite Hconf. auto. }
  split; [done|]. intros Hrv Hrc Ho. split; [by rewrite Et| | |done| |by apply Hrc|done].
  - destruct Hp2 as (? & ? & ?). unfold log_ok. by rewrite Eq, Ec, Ex, El.
  - apply (chain_later a b); [done|done|]. rewrite Ec. congruence.
  - intros e He. rewrite Hconf in He. destruct (Hp5 e He) as (x & y & now & Hx & Hy & ?).
    exists x, y, now. rewrite Ec. split_and!; [done|by eapply signed_for_later|naive_solver..].
Qed.

(** The fields the invariant is about: those of the game, the receipt. *)
Definition game_core a :=
  (log_core a, mental_transcript a, public_cards a, settled a, action_conflict a, ah_hand a,
   pending_reveal a, local_hole_cards a).
Definition core a := (game_core a, finalized_receipt a, receipt_consensus a).

Lemma game_same a b :
  game_core b = game_core a →
  log_core b = log_core a ∧ mental_transcript b = mental_transcript a ∧ public_cards b = public_cards a
  ∧ settled b = settled a ∧ action_conflict b = action_conflict a ∧ ah_hand b = ah_hand a
  ∧ pending_reveal b = pending_reveal a ∧ local_hole_cards b = local_hole_cards a.
Proof. unfold game_core. generalize (log_core a), (log_core b). naive_solver. Qed.
Lemma core_same a b :
  core b = core a → game_core b = game_core a ∧ finalized_receipt b = finalized_receipt a
    ∧ receipt_consensus b = receipt_consensus a.
Proof. unfold core. generalize (game_core a), (game_core b). naive_solver. Qed.

Lemma game_follows a b : game_core b = game_core a → hand_follows a → hand_follows b.
Proof.
  intros (E & _ & _ & Es & _ & Eh & Ep & Eo)%game_same Hh. unfold hand_follows in *.
  destruct (log_core_same a b E) as (_ & _ & _ & Eq & _ & _ & _ & Er & _). by rewrite Eh, Eq, Ep, Es, Eo, Er.
Qed.
(** A step of the receipt or of the outboxes. *)
Lemma rest_receipt a b :
  rest_ok a → game_core b = game_core a →
  (is_Some (finalized_receipt a) → finalized_receipt b = finalized_receipt a) →
  (later a b → receipt_ok b) → outbox_ok b → rest_ok b ∧ later a b.
Proof.
  intros Ha (E & Em & Ec & Es & Ek & Eh & Ep & _)%game_same Hf Hr Ho.
  destruct (log_core_same a b E) as (_ & _ & _ & Eq & Ecm & _ & _ & _ & Eop).
  destruct (moves_same_log a b Ha E) as [Hl Hb];
    [by rewrite Em|by rewrite Ec|by rewrite Es|done|done|intros _; unfold frozen; by split_and!|].
  split; [|done]. apply Hb; [|done|done]. unfold reveals_ok. rewrite Ep, Eop, Ec. apply Ha.
Qed.
Lemma moves_receipt a b :
  hand_ok a → game_core b = game_core a →
  (is_Some (finalized_receipt a) → finalized_receipt b = finalized_receipt a) →
  (later a b → receipt_ok b) → outbox_ok b → moves a b.
Proof.
  intros [Hr Hh] E Hf Hrc Ho. destruct (rest_receipt a b Hr E Hf Hrc Ho) as [? ?].
  split; [|done]. split; [done|by apply (game_follows a b)].
Qed.
Lemma rest_frame a b : rest_ok a → core b = core a → outbox_ok b → rest_ok b ∧ later a b.
Proof.
  intros Ha (E & Ef & Er)%core_same Ho. apply rest_receipt; [done|done|done| |done].
  intros Hl. by apply (receipt_frame a b), Ha.
Qed.
Lemma moves_frame a b : hand_ok a → core b = core a → outbox_ok b → moves a b.
Proof.
  intros Ha (E & Ef & Er)%core_same Ho. apply moves_receipt; [done|done|done| |done].
  intros Hl. apply (receipt_frame a b); [done|done|done|apply Ha].
Qed.
Lemma core_later a b : core b = core a → later a b.
Proof.
  intros ((E & Em & Ec & Es & Ek & Eh & Ep & _)%game_same & Ef & Er)%core_same.
  destruct (log_core_same a b E) as (Et & En & Ed & Eq & Ecm & _ & _ & _ & Eop).
  split; try done; [lia|by rewrite Ecm|by rewrite Em|by rewrite Eop|by rewrite Ec|by rewrite Es|].
  rewrite Ek. intros Hk. split; [done|]. unfold frozen. split_and!; done.
Qed.
Lemma hand_moves_trans a b c : moves a b → moves b c → moves a c.
Proof. intros [_ ?] [? ?]. split; [done|by etrans]. Qed.
End invariant.
