(* ===== verification/HandDelivery.v ===== *)
(** * HandDelivery: the outboxes of a hand

    The rules by which a method keeps an invariant, and the first invariant
    proved with them: queueing, sending and retrying messages change the
    outboxes only, and keep them within their bounds. *)

From coqutil Require Import Datatypes.RecordSetters.
From S2P Require Import Prelude Machine Encoding Order Ids Table Membership Session NetworkAddress.
From S2P Require Import MentalPoker SessionState Swarm Cards Holdem HoldemInv HoldemAct Showdown.
From S2P Require Import PublicState Receipt Identity SignedReceipt HandAction ReceiptRuntime.
From S2P Require Import HandState HandRuntime HandLog HandInv.
Import OCamlLikeNotations.

(** ** Methods that keep an invariant *)

(** [P] is the invariant, [R] how the state may change; a change outside the
    [core] that keeps the outboxes in order is always allowed. *)
Class Keeping `{Crypto, Libp2p, Ziffle, !HandCodec} (P : ActiveHand → Prop)
    (R : ActiveHand → ActiveHand → Prop) : Prop := {
  kp_trans : ∀ a b c, R a b → R b c → R a c;
  kp_post : ∀ a b, R a b → P b;
  kp_outbox : ∀ a, P a → outbox_ok a;
  kp_frame : ∀ a b, P a → core b = core a → outbox_ok b → R a b;
}.

Section rules.
Context `{Crypto, Libp2p, Ziffle, !World, !OsRandom, !HandCodec}.
Implicit Types (a b : ActiveHand) (s : ActiveHand * world).

(** Running a method step by step. *)
Lemma run_now {B} (f : ActiveHand → HandM B) s : (hand_now ≫= f) s = f s.1 s.
Proof. done. Qed.
Lemma run_set {B} g (f : unit → HandM B) s : (set_hand g ≫= f) s = f tt (g s.1, s.2).
Proof. done. Qed.
Lemma run_update g s : set_hand g s = (Ok tt, (g s.1, s.2)).
Proof. done. Qed.
Lemma run_reading {A B} (g : ActiveHand → result HandError A) (f : A → HandM B) s :
  (reading g ≫= f) s = match g s.1 with Ok v => f v s | Err e => (Err e, s) | Panic => (Panic, s) end.
Proof. unfold reading, mbind, M_bind. by destruct (g s.1). Qed.
Lemma run_for_each {A} (f : A → HandM unit) v l s :
  for_each f (v :: l) s = match f v s with
                          | (Ok _, s) => for_each f l s
                          | (Err e, s) => (Err e, s)
                          | (Panic, s) => (Panic, s)
                          end.
Proof. cbn [for_each]. unfold mbind, M_bind. by destruct (f v s) as [[] ?]. Qed.

Definition delivers a b : Prop := core b = core a ∧ outbox_ok b.
#[global] Instance delivers_keeping : Keeping outbox_ok delivers.
Proof.
  split; [|by intros ?? []|done|by split].
  intros a b c [E _] [E' ?]. split; [by rewrite E', E|done].
Qed.
#[global] Instance moves_keeping : Keeping hand_ok moves.
Proof. split; [apply hand_moves_trans|by intros ?? []|intros a Ha; apply Ha|by apply moves_frame]. Qed.

(** The hand is not frozen. *)
Definition live a : Prop := hand_ok a ∧ action_conflict a = None.
Definition live_moves a b : Prop := moves a b ∧ action_conflict b = None.
#[global] Instance live_keeping : Keeping live live_moves.
Proof.
  split.
  - intros a b c [? _] [? ?]. split; [by eapply hand_moves_trans|done].
  - intros a b [[? ?] ?]. by split.
  - intros a [Ha _]. apply Ha.
  - intros a b [Ha Hc] E Ho. split; [by apply moves_frame|].
    assert (action_conflict b = action_conflict a) as -> by (by apply core_same in E as (E%game_same & _); naive_solver). done.
Qed.

Section keeping.
Context (P : ActiveHand → Prop) (R : ActiveHand → ActiveHand → Prop) `{!Keeping P R}.

Definition keeps {A} (h : HandM A) : Prop := ∀ s, P s.1 → R s.1 (h s).2.1.

Lemma kp_refl a : P a → R a a.
Proof. intros Ha. apply kp_frame; [done|done|by eapply kp_outbox]. Qed.
Lemma keeps_ret {A} (v : A) : keeps (mret v).
Proof. intros s Hs. by apply kp_refl. Qed.
Lemma keeps_lift {A} (r : result HandError A) : keeps (lift r).
Proof. intros s Hs. by apply kp_refl. Qed.
Lemma keeps_bind {A B} (h : HandM A) (f : A → HandM B) : keeps h → (∀ v, keeps (f v)) → keeps (h ≫= f).
Proof.
  intros Hh Hf s Hs. apply Hh in Hs as Hm. unfold mbind, M_bind.
  destruct (h s) as [[v| |] s']; simpl in *; [|done..].
  eapply kp_trans; [exact Hm|]. apply Hf. by eapply kp_post.
Qed.
Lemma keeps_bind_lift {A B} (r : result HandError A) (f : A → HandM B) :
  (∀ v, r = Ok v → keeps (f v)) → keeps (lift r ≫= f).
Proof. intros Hf s Hs. unfold mbind, M_bind, lift. destruct r; simpl; [by apply Hf|by apply kp_refl..]. Qed.
(** Reading the state: the rest may use what holds of it now. *)
Lemma keeps_now {B} (f : ActiveHand → HandM B) :
  (∀ s, P s.1 → R s.1 (f s.1 s).2.1) → keeps (hand_now ≫= f).
Proof. intros Hf s Hs. by apply Hf. Qed.
Lemma keeps_read {B} (f : ActiveHand → HandM B) : (∀ a, keeps (f a)) → keeps (hand_now ≫= f).
Proof. intros Hf s Hs. by apply Hf. Qed.
Lemma keeps_hand : keeps hand_now.
Proof. intros s Hs. by apply kp_refl. Qed.
Lemma keeps_reading {A} (f : ActiveHand → result HandError A) : keeps (reading f).
Proof. intros s Hs. by apply kp_refl. Qed.
Lemma keeps_net {A} (f : world → A) : keeps (net f).
Proof. intros s Hs. by apply kp_refl. Qed.
Lemma keeps_net_call {A} (f : world → A * world) : keeps (net_call f).
Proof. intros s Hs. unfold net_call. destruct (f s.2). by apply kp_refl. Qed.
Lemma keeps_drawing {A} (m : M rng MentalPokerError A) : keeps (drawing m).
Proof. intros s Hs. unfold drawing. destruct (os_rng m s.2). by apply kp_refl. Qed.
Lemma keeps_set g : (∀ a, P a → R a (g a)) → keeps (set_hand g).
Proof. intros Hg s Hs. by apply Hg. Qed.
Lemma keeps_frame g :
  (∀ a, core (g a) = core a) → (∀ a, outbox_ok a → outbox_ok (g a)) → keeps (set_hand g).
Proof. intros Hc Ho. apply keeps_set. intros a Ha. apply kp_frame; [done|done|]. by eapply Ho, kp_outbox. Qed.
Lemma keeps_for_each {A} (f : A → HandM unit) l : (∀ v, keeps (f v)) → keeps (for_each f l).
Proof. intros Hf. induction l as [|v l IH]; cbn [for_each]; [apply keeps_ret|]. by apply keeps_bind. Qed.
Lemma keeps_collect {A} (f : A → HandM (list HandEvent)) l : (∀ v, keeps (f v)) → keeps (collect_events f l).
Proof.
  intros Hf. induction l as [|v l IH]; cbn [collect_events]; [apply keeps_ret|].
  apply keeps_bind; [done|]. intros e. apply keeps_bind; [done|]. intros l'. apply keeps_ret.
Qed.
Lemma keeps_attempt {A} (h : HandM A) : keeps h → keeps (attempt h).
Proof. intros Hh s Hs. apply Hh in Hs. unfold attempt. by destruct (h s) as [[] ?]. Qed.
End keeping.

(** What only delivers messages is allowed everywhere. *)
Lemma keeps_delivers P R `{!Keeping P R} {A} (h : HandM A) : keeps outbox_ok delivers h → keeps P R h.
Proof.
  intros Hh s Hs. destruct (Hh s) as [E Ho]; [by eapply kp_outbox|]. by eapply kp_frame.
Qed.
End rules.

(** The rules, for the invariant at hand, and those that need no thought. *)
Ltac keep_bind := match goal with |- keeps ?P ?R _ => apply (keeps_bind P R) end.
Ltac keep_bind_lift := match goal with |- keeps ?P ?R _ => apply (keeps_bind_lift P R) end.
Ltac keep_now := match goal with |- keeps ?P ?R _ => apply (keeps_now P R) end.
Ltac keep_read := match goal with |- keeps ?P ?R _ => apply (keeps_read P R) end.
Ltac keep_frame := match goal with |- keeps ?P ?R _ => apply (keeps_frame P R) end.
Ltac keep_delivers := match goal with |- keeps ?P ?R _ => apply (keeps_delivers P R) end.
Ltac keep_auto :=
  repeat match goal with
    | |- keeps ?P ?R ?h => solve [auto with keep nocore]
    | |- keeps ?P ?R (mbind _ hand_now) => apply (keeps_read P R); intros ?
    | |- keeps ?P ?R (mbind _ _) => apply (keeps_bind P R); [|intros ?]
    | |- keeps ?P ?R (mret _) => apply (keeps_ret P R)
    | |- keeps ?P ?R (lift _) => apply (keeps_lift P R)
    | |- keeps ?P ?R (reading _) => apply (keeps_reading P R)
    | |- keeps ?P ?R hand_now => apply (keeps_hand P R)
    | |- keeps ?P ?R (net _) => apply (keeps_net P R)
    | |- keeps ?P ?R (net_call _) => apply (keeps_net_call P R)
    | |- keeps ?P ?R (drawing _) => apply (keeps_drawing P R)
    | |- keeps ?P ?R (for_each _ _) => apply (keeps_for_each P R); intros ?
    | |- keeps ?P ?R (collect_events _ _) => apply (keeps_collect P R); intros ?
    | |- keeps ?P ?R (attempt _) => apply (keeps_attempt P R)
    | |- keeps ?P ?R (set_hand _) =>
        apply (keeps_frame P R); [intros ?; reflexivity|intros ? Houtbox; exact Houtbox]
    | |- keeps ?P ?R (match ?v with _ => _ end) => destruct v
  end.
Create HintDb keep.

Section delivery.
Context `{Crypto, Libp2p, Ziffle, !World, !OsRandom, !HandCodec}.
Implicit Types (a b : ActiveHand) (s : ActiveHand * world).
#[local] Notation quiet := (keeps outbox_ok delivers).

(** ** Direct messages *)

Lemma may_send_core a b peer m : core b = core a → may_send a peer m → may_send b peer m.
Proof.
  intros E Hm. pose proof (core_later a b E) as Hl. destruct m as [[]|[]]; try done; simpl in *.
  - by apply (lt_opened _ _ Hl).
  - by rewrite (lt_table _ _ Hl).
Qed.

(** One pass over the outbox: the entries stay, with one more attempt for
    those that are sent, and at most one is sent to a peer. *)
Lemma dispatch_fold connected tick (S : PeerId → ReliableHandMessage → Prop) l busy outbox due :
  let ok d := 0 <= rd_attempts d <= MAX_DIRECT_MESSAGE_ATTEMPTS ∧ S (rd_peer d) (rd_message d) in
  Forall ok outbox → Forall ok l →
  ∃ busy' outbox' sent, fold_left (dispatch_entry connected tick) l (busy, outbox, due) = (busy', outbox', due ++ sent)
    ∧ map delivery_key outbox' = map delivery_key outbox ++ map delivery_key l ∧ Forall ok outbox'
    ∧ NoDup (map fst sent) ∧ ∀ e, e ∈ sent → e.1 ∉ busy ∧ S e.1 e.2.
Proof.
  intros ok. revert busy outbox due. induction l as [|d l IH]; intros busy outbox due Ho Hl; cbn [fold_left map].
  { exists busy, outbox, []. rewrite !app_nil_r. split_and!; [done..|constructor|set_solver]. }
  apply Forall_cons in Hl as [Hd Hl]. unfold dispatch_entry at 2.
  destruct (negb _ && _ && _ && _) eqn:Hsend.
  - rewrite !andb_true_iff, negb_true_iff, bool_decide_eq_false, Z.ltb_lt in Hsend. destruct Hsend as [[[Hb _] Ha] _].
    match goal with |- context [fold_left _ l ({[rd_peer d]} ∪ busy, outbox ++ [?d'], _)] => set (e := d') end.
    assert (ok e) as He.
    { destruct Hd as [? ?]. split; [|done]. simpl. unfold u8_saturating_add, MAX_DIRECT_MESSAGE_ATTEMPTS in *.
      unfold u8_max. lia. }
    destruct (IH ({[rd_peer d]} ∪ busy) (outbox ++ [e]) (due ++ [(rd_peer d, rd_message d)]))
      as (busy' & outbox' & sent & -> & Hk & Hok & Hnd & Hs); [by apply Forall_app; split; [|apply Forall_singleton]|done|].
    exists busy', outbox', ((rd_peer d, rd_message d) :: sent). split_and!.
    + by rewrite <-(assoc_L (++)).
    + by rewrite Hk, map_app, <-(assoc_L (++)).
    + done.
    + cbn [map]. constructor; [|done]. intros (e' & E & He')%list_elem_of_fmap.
      destruct (Hs e' He') as [Hn _]. apply Hn. simpl in E. rewrite <-E. set_solver.
    + intros e' [->|He']%elem_of_cons; [split; [done|apply Hd]|]. destruct (Hs e' He'). set_solver.
  - destruct (IH busy (outbox ++ [d]) due) as (busy' & outbox' & sent & -> & Hk & Hok & Hnd & Hs);
      [by apply Forall_app; split; [|apply Forall_singleton]|done|].
    exists busy', outbox', sent. split_and!; [done| |done..]. by rewrite Hk, map_app, <-(assoc_L (++)).
Qed.

(** Recording the request of a peer that had none. *)
Lemma request_ok a i (e : PeerId * ReliableHandMessage) :
  outbox_ok a → may_send a e.1 e.2 → (∀ j e', direct_requests a !! j = Some e' → e'.1 ≠ e.1) →
  outbox_ok { a with direct_requests ::= λ m, <[i := e]> m }.
Proof.
  intros (Hk & Ho & Hr & Hu) He Hfree. split_and!; [exact Hk|exact Ho| |]; cbn.
  - intros j e' [[<- <-]|[_ ?]]%lookup_insert_Some; [exact He|by eapply Hr].
  - intros j k e1 e2 [[<- <-]|[Hj H1']]%lookup_insert_Some [[<- <-]|[Hk' H2']]%lookup_insert_Some E.
    + done.
    + by destruct (Hfree _ _ H2').
    + by destruct (Hfree _ _ H1').
    + by eapply Hu.
Qed.

Lemma send_all l s :
  outbox_ok s.1 → NoDup (map fst l) →
  (∀ e, e ∈ l → may_send s.1 e.1 e.2 ∧ ∀ j e', direct_requests s.1 !! j = Some e' → e'.1 ≠ e.1) →
  delivers s.1 (for_each send_direct l s).2.1.
Proof.
  revert s. induction l as [|e l IH]; intros s Hs Hnd Hl; cbn [for_each map] in *; [by split|].
  apply NoDup_cons in Hnd as [Hn Hnd]. destruct (Hl e) as [He Hfree]; [set_solver|].
  destruct (send_request e.1 (into_control_request e.2) s.2) as [i w] eqn:Hq.
  pose proof (request_ok s.1 i e Hs He Hfree) as Ho.
  set (b := { s.1 with direct_requests ::= λ m, <[i := e]> m }) in *.
  assert (send_direct e s = (Ok tt, (b, w))) as Es.
  { unfold send_direct, net_call, set_hand, modify, mbind, M_bind. by rewrite Hq. }
  unfold mbind, M_bind. rewrite Es. assert (core b = core s.1) as Ec by done.
  destruct (IH (b, w)) as [E ?]; [done|done| |split; [by rewrite E|done]].
  intros e' He'. destruct (Hl e') as [Hm Hf]; [set_solver|]. split; [by eapply may_send_core|].
  cbn. intros j e2 [[<- <-]|[_ ?]]%lookup_insert_Some; [|by eapply Hf].
  intros E. apply Hn. rewrite E. by apply (list_elem_of_fmap_2 fst).
Qed.

Lemma dispatch_quiet : quiet dispatch_direct_messages.
Proof.
  intros s Hs.
  destruct (dispatch_fold (is_connected s.2) (tick_count s.1) (may_send s.1) (direct_outbox s.1)
    (list_to_set (map (λ e, e.2.1) (map_to_list (direct_requests s.1)))) [] [])
    as (busy & outbox & sent & Ef & Hk & Hok & Hnd & Hsent); [constructor|apply Hs|].
  cbn [app map] in *. set (b := { s.1 with direct_outbox := outbox }).
  assert (dispatch_direct_messages s = for_each send_direct sent (b, s.2)) as ->.
  { unfold dispatch_direct_messages, hand_now, net, gets, set_hand, modify, mbind, M_bind. by rewrite Ef. }
  assert (core b = core s.1) as Ec by done. destruct Hs as (Hd & _ & Hr & Hu).
  assert (outbox_ok b) as Hb.
  { split_and!; [|exact Hok|exact Hr|exact Hu]. change (NoDup (map delivery_key outbox)). by rewrite Hk. }
  destruct (send_all sent (b, s.2)) as [E ?]; [done|done| |split; [by rewrite E|done]].
  intros e He. destruct (Hsent e He) as [Hbusy Hm]. split; [exact Hm|]. intros j e' Hj Ee.
  apply Hbusy, elem_of_list_to_set. rewrite <-Ee. apply (list_elem_of_fmap_2 (λ e : _ * (_ * _), e.2.1) _ (j, e')).
  by apply elem_of_map_to_list.
Qed.

Lemma queue_direct_delivers peer m s :
  outbox_ok s.1 → may_send s.1 peer m → delivers s.1 (queue_direct_message peer m s).2.1.
Proof.
  intros Hs Hm. unfold queue_direct_message, hand_now, gets, mbind, M_bind. cbv beta iota.
  destruct (existsb _ _) eqn:Hx; [by split|]. cbn.
  match goal with |- context [dispatch_direct_messages (?b, _)] => set (c := b) end.
  assert (core c = core s.1) as Ec by done. destruct Hs as (Hd & Ho & Hr & Hu).
  assert (outbox_ok c) as Hc.
  { split_and!; [| |exact Hr|exact Hu]; cbn.
    - rewrite map_app. apply NoDup_app. split_and!; [done| |apply NoDup_singleton].
      intros e (d & -> & Hd')%list_elem_of_fmap [= E1 E2]%list_elem_of_singleton.
      assert (existsb (λ d, bool_decide (rd_peer d = peer) && bool_decide (rd_message d = m)) (direct_outbox s.1) = true);
        [|congruence]. apply existsb_exists. exists d. split; [by apply list_elem_of_In|].
      by rewrite !bool_decide_true.
    - apply Forall_app. split; [exact Ho|]. repeat constructor; cbn; [lia|done|exact Hm]. }
  destruct (dispatch_quiet (c, s.2) Hc) as [E ?]. split; [by rewrite E|done].
Qed.

(** ** Gossip *)
Lemma publish_public_quiet topic m : quiet (publish_public topic m).
Proof. unfold publish_public. keep_auto. Qed.
Lemma publish_public_message_quiet m : quiet (publish_public_message m).
Proof. unfold publish_public_message. keep_auto. apply publish_public_quiet. Qed.

Lemma queue_public_delivers m s :
  outbox_ok s.1 → (∀ peer, may_send s.1 peer (ReliablePublic m)) →
  delivers s.1 (queue_public_message m s).2.1.
Proof.
  intros Hs Hm. destruct (public_message_id m) as [id| |] eqn:Hid;
    [|unfold queue_public_message; rewrite Hid; by split..].
  set (c := { s.1 with relayed_public_messages ::= λ ids, {[id]} ∪ ids }).
  set (peers := filter (λ peer, peer ≠ local_peer_id s.2) (rt_peer_ids (ah_table s.1))).
  assert (queue_public_message m s = (for_each (λ peer, queue_direct_message peer (ReliablePublic m)) peers
    ≫= λ _, publish_public_message m) (c, s.2)) as ->.
  { unfold queue_public_message. rewrite Hid. reflexivity. }
  assert (delivers s.1 c) as Hc by (by split).
  assert (∀ l t, delivers s.1 t.1 →
    delivers s.1 ((for_each (λ peer, queue_direct_message peer (ReliablePublic m)) l ≫= λ _,
      publish_public_message m) t).2.1) as Hall; [|by apply (Hall peers (c, s.2))].
  clear Hc c peers. intros l. induction l as [|peer l IH]; intros t [E Ho]; cbn [for_each].
  - change (delivers s.1 (publish_public_message m t).2.1).
    destruct (publish_public_message_quiet m t Ho) as [E' ?]. split; [by rewrite E', E|done].
  - pose proof (queue_direct_delivers peer (ReliablePublic m) t Ho) as [E' Ho'].
    { by eapply may_send_core, Hm. }
    unfold mbind, M_bind in *. destruct (queue_direct_message _ _ t) as [[v| |] t']; cbn in *.
    + apply IH. split; [by rewrite E', E|done].
    + split; [by rewrite E', E|done].
    + split; [by rewrite E', E|done].
Qed.
Lemma queue_public_quiet m :
  (∀ a peer, may_send a peer (ReliablePublic m)) → quiet (queue_public_message m).
Proof. intros Hm s Hs. by apply queue_public_delivers. Qed.

Lemma relay_quiet m : quiet (relay_verified_public_message m).
Proof.
  unfold relay_verified_public_message. case_match; [keep_auto|].
  keep_bind; [keep_auto|]. intros id. keep_read. intros a.
  case_bool_decide; [keep_auto|].
  keep_bind; [keep_auto|]. intros _. apply publish_public_message_quiet.
Qed.

Lemma retry_public_messages_quiet : quiet retry_public_messages.
Proof. unfold retry_public_messages, retry_public. keep_auto; apply publish_public_quiet. Qed.
End delivery.
#[export] Hint Extern 0 (Keeping _ _) => apply _ : keep.
