(* ===== verification/HandLoops.v ===== *)
(** * HandLoops: the loops of the hand runtime end

    [drive] verifies shuffles as long as the next one has arrived, and after a
    message the deferred actions are committed as long as the next one fits.
    In HandRuntime both loops have fuel; here the fuel is shown to be enough,
    so that the model never stops a loop that the code would continue. *)

From coqutil Require Import Datatypes.RecordSetters.
From S2P Require Import Prelude Machine Encoding Order Ids Table Membership Session NetworkAddress.
From S2P Require Import MentalPoker SessionState Swarm Cards Holdem PublicState Receipt Identity.
From S2P Require Import SignedReceipt HandAction ReceiptRuntime HandState HandRuntime HandDelivery.
Import OCamlLikeNotations.

Section loops.
Context `{Crypto, Libp2p, Ziffle, !World, !OsRandom, !HandCodec}.
Implicit Types (a b : ActiveHand) (s : ActiveHand * world) (x : HandExecutionContext).

(** What the loops count with, and nothing else they call changes. *)
Definition counters a := (ah_table a, shuffle_stage a, pending_actions a).
Definition quiet {A} (m : HandM A) : Prop := ∀ s, counters (m s).2.1 = counters s.1.

Lemma quiet_ret {A} (v : A) : quiet (mret v).
Proof. by intros s. Qed.
Lemma quiet_lift {A} (r : result HandError A) : quiet (lift r).
Proof. by intros s. Qed.
Lemma quiet_reading {A} (f : ActiveHand → result HandError A) : quiet (reading f).
Proof. by intros s. Qed.
Lemma quiet_net {A} (f : world → A) : quiet (net f).
Proof. by intros s. Qed.
Lemma quiet_now : quiet hand_now.
Proof. by intros s. Qed.
Lemma quiet_net_call {A} (f : world → A * world) : quiet (net_call f).
Proof. intros s. unfold net_call. by destruct (f s.2). Qed.
Lemma quiet_drawing {A} (m : M rng MentalPokerError A) : quiet (drawing m).
Proof. intros s. unfold drawing. by destruct (os_rng m s.2). Qed.
Lemma quiet_set g : (∀ a, counters (g a) = counters a) → quiet (set_hand g).
Proof. intros Hg s. apply Hg. Qed.
Lemma quiet_bind {A B} (m : HandM A) (f : A → HandM B) : quiet m → (∀ v, quiet (f v)) → quiet (m ≫= f).
Proof.
  intros Hm Hf s. rewrite run_bind. specialize (Hm s). destruct (m s) as [[v| |] t]; [|done..].
  cbn [fst snd] in *. by rewrite Hf.
Qed.
Lemma quiet_for_each {A} (f : A → HandM unit) l : (∀ v, quiet (f v)) → quiet (for_each f l).
Proof. intros Hf. induction l as [|v l IH]; cbn [for_each]; [apply quiet_ret|]. by apply quiet_bind. Qed.
Lemma quiet_fold {A B} (f : B → A → HandM B) acc l : (∀ acc v, quiet (f acc v)) → quiet (fold_handler f acc l).
Proof. intros Hf. revert acc. induction l as [|v l IH]; intros acc; cbn [fold_handler]; [apply quiet_ret|]. by apply quiet_bind. Qed.
Lemma quiet_collect {A} (f : A → HandM (list HandEvent)) l : (∀ v, quiet (f v)) → quiet (collect_events f l).
Proof.
  intros Hf. induction l as [|v l IH]; cbn [collect_events]; [apply quiet_ret|].
  apply quiet_bind; [done|]. intros first. apply quiet_bind; [done|]. intros rest. apply quiet_ret.
Qed.
Lemma quiet_attempt {A} (m : HandM A) : quiet m → quiet (attempt m).
Proof. intros Hm s. specialize (Hm s). unfold attempt. by destruct (m s) as [[] ?]. Qed.
Lemma quiet_betting {A} (m : HM A) : quiet (on_betting m).
Proof. intros s. unfold on_betting. destruct (ah_hand s.1) as [h|]; [|done]. by destruct (m h). Qed.
Lemma quiet_consensus {A} (m : M ReceiptConsensus ConsensusError A) : quiet (on_consensus m).
Proof. intros s. unfold on_consensus. destruct (receipt_consensus s.1) as [c|]; [|done]. by destruct (m c). Qed.

Ltac quiet_step := match goal with
  | |- quiet (_ ≫= _) => apply quiet_bind; [|intros ?]
  | |- quiet (match ?v with _ => _ end) => destruct v
  | |- quiet (set_hand _) => apply quiet_set; by intros ?
  | |- quiet (mret _) => apply quiet_ret
  | |- quiet (lift _) => apply quiet_lift
  | |- quiet (reading _) => apply quiet_reading
  | |- quiet hand_now => apply quiet_now
  | |- quiet (net _) => apply quiet_net
  | |- quiet (net_call _) => apply quiet_net_call
  | |- quiet (drawing _) => apply quiet_drawing
  | |- quiet (on_betting _) => apply quiet_betting
  | |- quiet (on_consensus _) => apply quiet_consensus
  | |- quiet (attempt _) => apply quiet_attempt
  | |- quiet (for_each _ _) => apply quiet_for_each; intros ?
  | |- quiet (fold_handler _ _ _) => apply quiet_fold; intros ? ?
  | |- quiet (collect_events _ _) => apply quiet_collect; intros ?
  end.
Ltac quiet_auto := repeat quiet_step; auto.

Lemma dispatch_counts : quiet dispatch_direct_messages.
Proof. unfold dispatch_direct_messages, send_direct. quiet_auto. Qed.
Lemma publish_counts m : quiet (publish_public_message m).
Proof. unfold publish_public_message, publish_public. quiet_auto. Qed.
Lemma queue_counts m : quiet (queue_public_message m).
Proof.
  unfold queue_public_message, queue_direct_message. quiet_auto; [apply dispatch_counts|apply publish_counts].
Qed.
Lemma finalize_counts now : quiet (try_finalize_receipt now).
Proof. unfold try_finalize_receipt. quiet_auto. Qed.
Lemma accept_counts r sg now : quiet (accept_receipt_signature r sg now).
Proof. unfold accept_receipt_signature. quiet_auto. apply finalize_counts. Qed.
Lemma finish_counts st x : quiet (finish_settlement st x).
Proof.
  unfold finish_settlement, accept_pending_signature.
  quiet_auto; [apply queue_counts|apply accept_counts|apply finalize_counts].
Qed.
Lemma request_counts indices reason : quiet (request_public_reveal indices reason).
Proof. unfold request_public_reveal, share_public_card. quiet_auto. apply queue_counts. Qed.
Lemma outcome_counts out x : quiet (handle_action_outcome out x).
Proof. unfold handle_action_outcome. quiet_auto; try apply request_counts. apply finish_counts. Qed.
Lemma commit_counts k action origin x : quiet (commit_action k action origin x).
Proof.
  unfold commit_action, resolve_replayed_action, append_action.
  quiet_auto; [apply queue_counts|apply outcome_counts..].
Qed.
Lemma local_shuffle_counts : quiet ensure_local_shuffle.
Proof. unfold ensure_local_shuffle. quiet_auto; apply queue_counts. Qed.

(** ** Loops without fuel *)

(** [loop { .. }]: a round gives its events and whether the loop goes on. *)
Inductive loop_run (round : HandM (list HandEvent * bool))
    : ActiveHand * world → result HandError (list HandEvent) * (ActiveHand * world) → Prop :=
  | loop_stop s events t : round s = (Ok (events, false), t) → loop_run round s (Ok events, t)
  | loop_error s e t : round s = (Err e, t) → loop_run round s (Err e, t)
  | loop_panic s t : round s = (Panic, t) → loop_run round s (Panic, t)
  | loop_next s events t rest u :
      round s = (Ok (events, true), t) → loop_run round t (rest, u) →
      loop_run round s ((rest ← rest; Ok (events ++ rest)), u).

Definition shuffle_round : HandM (list HandEvent * bool) :=
  a ← hand_now;
  let next := u8_saturating_add (shuffle_stage a) 1 in
  match shuffle_packets a !! next with
  | None => mret ([], false)
  | Some packet =>
      verified ← lift (verify_next_shuffle a next packet);
      _ ← set_hand (λ a, { a with mental_transcript ::= append_shuffle packet;
                           ah_deck := Some verified; shuffle_stage := next });
      e ← reading (λ a, progress a "shuffling" (Z.to_nat next));
      if (player_count a <=? Z.to_nat next)%nat then mret ([e], false) else
      _ ← ensure_local_shuffle;
      mret ([e], true)
  end.
Definition deferred_round x : HandM (list HandEvent * bool) :=
  a ← hand_now;
  if bool_decide (is_Some (pending_reveal a)) || settled a then mret ([], false) else
  let sequence := u64_saturating_add (ah_sequence a) 1 in
  match pending_actions a !! sequence with
  | None => mret ([], false)
  | Some action =>
      state ← lift (hand_state_hash a);
      if negb (bool_decide (state = expected_public_state_hash action)) then mret ([], false) else
      _ ← set_hand (λ a, { a with pending_actions ::= delete sequence });
      events ← commit_action sequence action Remote x;
      mret (events, true)
  end.

(** A loop with fuel [f] follows its rounds. *)
Definition follows (f : nat → HandM (list HandEvent)) (round : HandM (list HandEvent * bool)) : Prop := ∀ n s,
  match round s with
  | (Ok (events, false), t) => f (S n) s = (Ok events, t)
  | (Ok (events, true), t) => f (S n) s = (rest ← f n; mret (events ++ rest)) t
  | (Err e, t) => f (S n) s = (Err e, t)
  | (Panic, t) => f (S n) s = (Panic, t)
  end.
Lemma shuffle_follows : follows shuffle_rounds shuffle_round.
Proof.
  intros n s. unfold shuffle_round. cbn [shuffle_rounds]. rewrite !run_now.
  destruct (shuffle_packets s.1 !! _) as [packet|]; [|done]. rewrite !run_lift.
  destruct (verify_next_shuffle _ _ _) as [verified| |]; [|done..]. rewrite !run_set, !run_reading.
  destruct (progress _ _ _) as [e| |]; [|done..]. destruct (_ <=? _)%nat; [done|]. rewrite !run_bind.
  by destruct (ensure_local_shuffle _) as [[[]| |] t].
Qed.
Lemma deferred_follows x : follows (λ n, commit_deferred_from n x) (deferred_round x).
Proof.
  intros n s. unfold deferred_round. cbn [commit_deferred_from]. rewrite !run_now. destruct (_ || _); [done|].
  destruct (pending_actions s.1 !! _) as [action|]; [|done]. rewrite !run_lift.
  destruct (hand_state_hash s.1) as [state| |]; [|done..]. destruct (negb _); [done|]. rewrite !run_set, !run_bind.
  by destruct (commit_action _ _ _ _ _) as [[events| |] t].
Qed.

(** With a measure that every round which goes on decreases, fuel beyond the
    measure is enough. *)
Lemma measured_loop f round (inv : ActiveHand → Prop) (measure : ActiveHand → nat) :
  follows f round →
  (∀ s events t, inv s.1 → round s = (Ok (events, true), t) → inv t.1 ∧ (measure t.1 < measure s.1)%nat) →
  ∀ n s, inv s.1 → (measure s.1 < n)%nat → loop_run round s (f n s).
Proof.
  intros Hf Hround n. induction n as [|n IH]; intros s Hs Hn; [lia|]. specialize (Hf n s).
  destruct (round s) as [[[events []]| |] t] eqn:E; rewrite Hf; [|by econstructor..].
  destruct (Hround s events t Hs E) as [Ht Hlt]. rewrite run_bind. specialize (IH t Ht ltac:(lia)).
  destruct (f n t) as [rest u] eqn:Er. replace (_ : result _ _ * _) with (rest ← rest; Ok (events ++ rest), u) by (by destruct rest).
  by eapply loop_next.
Qed.

Lemma shuffle_round_advances s events t :
  0 <= shuffle_stage s.1 → (player_count s.1 <= 255)%nat → shuffle_round s = (Ok (events, true), t) →
  ah_table t.1 = ah_table s.1 ∧ shuffle_stage t.1 = shuffle_stage s.1 + 1
  ∧ shuffle_stage t.1 < Z.of_nat (player_count s.1).
Proof.
  intros Hst Hn. unfold shuffle_round. rewrite run_now. set (next := u8_saturating_add (shuffle_stage s.1) 1).
  destruct (shuffle_packets s.1 !! next) as [packet|]; [|done]. rewrite run_lift.
  destruct (verify_next_shuffle _ _ _) as [verified| |]; [|done..]. rewrite run_set, run_reading.
  destruct (progress _ _ _) as [e| |]; [|done..]. destruct (_ <=? _)%nat eqn:Hle; [done|]. apply Nat.leb_gt in Hle.
  rewrite run_bind. pose proof local_shuffle_counts as Hq.
  match goal with |- context [ensure_local_shuffle ?u] => specialize (Hq u); destruct (ensure_local_shuffle u) as [[[]| |] v] end;
    [|done..].
  intros [= _ <-]. cbn [snd] in Hq. injection Hq as Et Es _.
  change (shuffle_stage v.1 = next) in Es. split_and!; [exact Et|..]; rewrite Es; unfold next, u8_saturating_add, u8_max in *; lia.
Qed.
Lemma deferred_round_removes x s events t :
  deferred_round x s = (Ok (events, true), t) → (size (pending_actions t.1) < size (pending_actions s.1))%nat.
Proof.
  unfold deferred_round. rewrite run_now. destruct (_ || _); [done|]. set (k := u64_saturating_add _ 1).
  destruct (pending_actions s.1 !! k) as [action|] eqn:Hk; [|done]. rewrite run_lift.
  destruct (hand_state_hash s.1) as [state| |]; [|done..]. destruct (negb _); [done|]. rewrite run_set, run_bind.
  pose proof (commit_counts k action Remote x) as Hq.
  match goal with |- context [commit_action _ _ _ _ ?u] => specialize (Hq u); destruct (commit_action _ _ _ _ u) as [[ev| |] v] end;
    [|done..].
  intros [= _ <-]. cbn [snd] in Hq. injection Hq as _ _ Ep. change (pending_actions v.1 = delete k (pending_actions s.1)) in Ep.
  rewrite Ep, map_size_delete_Some by (by eexists).
  assert (size (pending_actions s.1) ≠ 0%nat) by (intros E%map_size_empty_inv; rewrite E in Hk; done). lia.
Qed.

(** C35: The loops of the runtime end.  Verifying the shuffles that have
    arrived, and committing the actions that were deferred, are loops without a
    counter in the code; in every state with at most 255 players each of them
    stops after finitely many rounds, and what HandRuntime computes with its
    fuel is the result of that loop. *)
Theorem hand_loops_end x s :
  0 <= shuffle_stage s.1 → (player_count s.1 <= 255)%nat →
  loop_run shuffle_round s (shuffle_rounds (S (player_count s.1)) s)
  ∧ loop_run (deferred_round x) s (commit_deferred_actions x s).
Proof.
  intros Hst Hn. split.
  - apply (measured_loop shuffle_rounds shuffle_round
      (λ a, 0 <= shuffle_stage a ∧ (player_count a <= 255)%nat) (λ a, player_count a - Z.to_nat (shuffle_stage a))%nat);
      [apply shuffle_follows| |done|lia].
    intros t events u [Ht Hc] E. destruct (shuffle_round_advances t events u Ht Hc E) as (Et & Es & Hlt).
    assert (player_count u.1 = player_count t.1) as -> by (unfold player_count, players; by rewrite Et). lia.
  - apply (measured_loop (λ n, commit_deferred_from n x) (deferred_round x) (λ _, True) (λ a, size (pending_actions a)));
      [apply deferred_follows| |done|lia].
    intros t events u _ E. split; [done|by eapply deferred_round_removes].
Qed.
End loops.
