(* ===== verification/HandSafe.v ===== *)
(** * HandSafe: the handlers keep the invariant of a hand

    [hand_ok] through the card protocol, the reveals, the betting, the
    settlement and the receipt.  While a hand is frozen by a conflict the
    handlers of the game do nothing; those that act on it only when it is not
    are stated for [live] hands. *)

From coqutil Require Import Datatypes.RecordSetters.
From S2P Require Import Prelude Machine Encoding Order Ids Table Membership Session NetworkAddress.
From S2P Require Import MentalPoker SessionState Swarm Cards Holdem HoldemInv HoldemAct Showdown.
From S2P Require Import PublicState Receipt Identity SignedReceipt HandAction ReceiptRuntime.
From S2P Require Import HandState HandRuntime HandLog HandInv HandDelivery.
Import OCamlLikeNotations.

(** Invariants that say nothing more of the receipt than [hand_ok]. *)
Class GameKeeping `{Crypto, Libp2p, Ziffle, !HandCodec} (P : ActiveHand → Prop)
    (R : ActiveHand → ActiveHand → Prop) : Prop := {
  gk_keeping :: Keeping P R;
  gk_hand : ∀ a, P a → hand_ok a;
  gk_receipt : ∀ a b, P a → game_core b = game_core a → moves a b → R a b;
}.
#[global] Instance moves_game `{Crypto, Libp2p, Ziffle, !HandCodec} : GameKeeping hand_ok moves.
Proof. split; [apply _|done|done]. Qed.
#[global] Instance live_game `{Crypto, Libp2p, Ziffle, !HandCodec} : GameKeeping live live_moves.
Proof.
  split; [apply _|by intros ? []|]. intros a b [_ Hc] E%game_same Hm. split; [done|].
  destruct E as (_ & _ & _ & _ & -> & _). done.
Qed.

Section receipts.
Context `{Crypto, Libp2p, Ziffle, !World, !OsRandom, !HandCodec}.
Implicit Types (a b : ActiveHand) (s : ActiveHand * world) (x : HandExecutionContext).
Context (P : ActiveHand → Prop) (R : ActiveHand → ActiveHand → Prop) `{!GameKeeping P R}.

(** ** The receipt *)

Lemma try_finalize_cases now c :
  match consensus_try_finalize now c with
  | (Ok (Some r), c') => cosigned_verify r now = Ok tt ∧ co_receipt r = cs_receipt c
      ∧ c' = mkConsensus (cs_receipt c) (cs_signatures c) true
  | (_, c') => c' = c
  end.
Proof.
  unfold consensus_try_finalize, gets, lift, modify, mbind, M_bind, id. cbv beta iota.
  destruct (cs_finalized c || _); [done|]. destruct (cosigned_verify _ now) as [[]| |] eqn:Hv; done.
Qed.

(** Replacing the consensus by one that continues it. *)
Lemma consensus_moves a c c' r :
  hand_ok a → receipt_consensus a = Some c → consensus_ok c' → cs_receipt c' = cs_receipt c →
  (cs_finalized c = true → cs_finalized c' = true) →
  (r = finalized_receipt a
   ∨ cs_finalized c = false ∧ cs_finalized c' = true
     ∧ ∃ f now, r = Some f ∧ co_receipt f = cs_receipt c ∧ cosigned_verify f now = Ok tt) →
  moves a { a with receipt_consensus := Some c'; finalized_receipt := r }.
Proof.
  intros Ha Hc Hk Er Hfin Hr. destruct (ok_receipt _ Ha) as [Hcons Hfinal].
  destruct (Hcons c Hc) as (Hs & _ & d & st & Hd & Hst & Hb).
  apply moves_receipt; [done|done| | |apply Ha].
  - intros [f Hf]. destruct Hr as [->|(Hcf & _)]; [done|].
    destruct (Hfinal f Hf) as (c0 & ? & Hc0 & ? & _). congruence.
  - intros Hl. split; cbn.
    + intros c0 [= <-]. split; [exact Hs|]. split; [exact Hk|]. exists d, st. rewrite Er.
      split; [by etrans|done].
    + intros f Hf. destruct Hr as [->|(_ & Hc' & f' & now & -> & Ef & Hv)].
      * destruct (Hfinal f Hf) as (c0 & now & Hc0 & Hfz & Ef & Hv). assert (c0 = c) as -> by congruence.
        exists c', now. rewrite Er. split_and!; [done|by apply Hfin|done|done].
      * injection Hf as <-. exists c', now. rewrite Er. done.
Qed.

Lemma try_finalize_keeps now : keeps P R (try_finalize_receipt now).
Proof.
  unfold try_finalize_receipt. keep_now. intros s Hp. pose proof (gk_hand _ Hp) as Hs.
  destruct (receipt_consensus s.1) as [c|] eqn:Hc; [|by apply (kp_refl P R)].
  destruct (cs_finalized c) eqn:Hcf; [by apply (kp_refl P R)|].
  destruct (proj1 (ok_receipt _ Hs) c Hc) as (_ & Hk & _).
  unfold on_consensus at 1, mbind, M_bind. rewrite Hc.
  pose proof (try_finalize_cases now c) as Hcase.
  assert (R s.1 { s.1 with receipt_consensus := Some c }) as Hsame.
  { apply gk_receipt; [done|done|]. apply (consensus_moves s.1 c c (finalized_receipt s.1)); auto. }
  destruct (consensus_try_finalize now c) as [[[r|]| |] c']; [|by subst c'; exact Hsame..].
  destruct Hcase as (Hv & Er & ->). set (c' := mkConsensus (cs_receipt c) (cs_signatures c) true).
  assert (consensus_ok c') as Hk' by (by destruct Hk; split).
  assert (R s.1 { s.1 with receipt_consensus := Some c' }) as Hm.
  { apply gk_receipt; [done|done|]. apply (consensus_moves s.1 c c' (finalized_receipt s.1)); auto. }
  cbn [map_err]. unfold reading, lift, set_hand, modify. cbn.
  destruct (local_player _); [|exact Hm..]. destruct (ok_or _ _); [|exact Hm..]. destruct (ok_or _ _); [|exact Hm..].
  apply gk_receipt; [done|done|]. apply (consensus_moves s.1 c c' (Some r)); [done..|]. right. eauto 8.
Qed.

Lemma accept_receipt_keeps r sg now : keeps P R (accept_receipt_signature r sg now).
Proof.
  unfold accept_receipt_signature. keep_bind; [keep_auto|]. intros _. keep_bind; [keep_auto|]. intros _.
  keep_read. intros a. case_bool_decide; [keep_auto|].
  keep_bind; [|intros inserted; keep_auto; apply try_finalize_keeps].
  intros s Hp. pose proof (gk_hand _ Hp) as Hs. unfold on_consensus.
  destruct (receipt_consensus s.1) as [c|] eqn:Hc; [|by apply (kp_refl P R)].
  destruct (proj1 (ok_receipt _ Hs) c Hc) as (_ & Hk & _).
  destruct (consensus_accept_ok r sg now c Hk) as (Hk' & Er & Ef & _).
  destruct (consensus_accept r sg now c) as [v c']. cbn in *.
  apply gk_receipt; [done|done|].
  apply (consensus_moves s.1 c c' (finalized_receipt s.1)); [done..|congruence|by left].
Qed.
Lemma pending_signature_keeps now e : keeps P R (accept_pending_signature now e).
Proof. unfold accept_pending_signature. keep_auto. apply accept_receipt_keeps. Qed.
End receipts.

Section game.
Context `{Crypto, !CryptoLaws, Libp2p, Ziffle, !World, !OsRandom, !HandCodec}.
Implicit Types (a b : ActiveHand) (s : ActiveHand * world) (x : HandExecutionContext).
#[local] Notation keeps_live := (keeps live live_moves).

(** A step of the game that commits no action. *)
Lemma game_moves a b :
  rest_ok a → action_conflict a = None → action_conflict b = None → log_core b = log_core a →
  mental_transcript a `prefix_of` mental_transcript b → public_cards a ⊆ public_cards b →
  (settled a = true → settled b = true) → finalized_receipt b = finalized_receipt a →
  receipt_consensus b = receipt_consensus a →
  reveals_ok b → hand_follows b → outbox_ok b → live_moves a b.
Proof.
  intros Ha Hka Hkb E Hm Hc Hs Hf Hr Hrv Hh Ho.
  destruct (moves_same_log a b Ha E) as [Hl Hb]; [done|done|done|by rewrite Hf|congruence| |].
  { rewrite Hka. by intros []. }
  split; [|done]. split; [|done]. split; [|done]. apply Hb; [done| |done].
  intros _. apply (receipt_frame a b); [done|done|done|apply Ha].
Qed.

(** ** The settlement *)

(** From the settlement of the betting engine to the receipt. *)
Lemma finish_settlement_moves st x s :
  rest_ok s.1 → action_conflict s.1 = None → receipt_consensus s.1 = None → settlement_of s.1 st →
  hand_follows { s.1 with settled := true; turn_started_at := None } →
  live_moves s.1 (finish_settlement st x s).2.1.
Proof.
  intros Ha Hk Hc Hst Hh. set (b := { s.1 with settled := true; turn_started_at := None }) in *.
  assert (live_moves s.1 b) as Hb by (by apply game_moves; try done; apply Ha).
  unfold finish_settlement. rewrite run_set, run_now. cbn [fst snd]. fold b.
  rewrite run_lift. destruct (build_receipt b st) as [r| |] eqn:Hr; [|exact Hb..].
  rewrite run_lift. destruct (consensus_start _ _ _ _) as [[c sg]| |] eqn:Hcs; [|exact Hb..]. cbn [map_err].
  rewrite run_set. cbn [fst snd].
  apply consensus_start_ok in Hcs as (Hcok & Ecr & _).
  assert (live_moves s.1 { b with receipt_consensus := Some c }) as Hlive.
  { eapply (kp_trans (P:=live)); [exact Hb|].
    apply gk_receipt; [by destruct Hb as [[? ?] ?]|done|]. apply moves_receipt; [apply Hb|done|done| |apply Ha].
    intros Hl. split; cbn.
    - intros c0 [= <-]. split; [done|]. split; [done|]. exists b, st. rewrite Ecr. split_and!; [done| |done].
      destruct Hst as (outs & hl & Er & Hcase). exists outs, hl. split; [exact Er|].
      destruct Hcase as [?|(? & ? & c1 & board & holes & ? & ?)]; [by left|]. right.
      split_and!; [done|done|]. exists c1, board, holes. split; [|done]. etrans; [done|apply Hb].
    - intros f Hf. destruct (proj2 (ok_receipt _ Ha) f Hf) as (c0 & _ & Hc0 & _). congruence. }
  eapply (kp_trans (P:=live)); [exact Hlive|].
  match goal with |- live_moves ?b' (?h (_, ?w)).2.1 => enough (keeps live live_moves h) as Hkeep;
    [apply (Hkeep (b', w)); by destruct Hlive as [[? ?] ?]|] end.
  keep_bind; [keep_delivers; by apply queue_public_quiet|]. intros _. keep_auto.
  - apply pending_signature_keeps; apply _.
  - apply try_finalize_keeps; apply _.
Qed.

(** ** Reveals *)

(** Creating and publishing the local shares. *)
Lemma fold_handler_keeps {A B} P R `{!Keeping P R} (f : B → A → HandM B) acc l :
  (∀ acc v, keeps P R (f acc v)) → keeps P R (fold_handler f acc l).
Proof.
  intros Hf. revert acc. induction l as [|v l IH]; intros acc; cbn [fold_handler]; [keep_auto|].
  keep_bind; [apply Hf|apply IH].
Qed.
Lemma shared_cards deck seat l acc s :
  outbox_ok s.1 →
  let '(r, t) := fold_handler (share_public_card deck seat) acc l s in
  delivers s.1 t.1 ∧ ∀ messages, r = Ok messages → ∀ m, m ∈ messages → m ∈ acc
    ∨ ∃ table n roster i packet, m = CommunityRevealShare table n roster seat i packet ∧ i ∈ l.
Proof.
  intros Hs. revert acc s Hs. induction l as [|i l IH]; intros acc s Hs; cbn [fold_handler].
  { split; [by split|]. intros ms [= <-]. by left. }
  rewrite run_bind.
  assert (delivers s.1 (share_public_card deck seat acc i s).2.1
    ∧ ∀ ms, (share_public_card deck seat acc i s).1 = Ok ms → ∀ m, m ∈ ms → m ∈ acc
      ∨ ∃ table n roster packet, m = CommunityRevealShare table n roster seat i packet) as [Hd Hms].
  { unfold share_public_card. rewrite run_now. case_bool_decide.
    { split; [by split|]. intros ms [= <-]. by left. }
    rewrite run_bind. unfold drawing. destruct (os_rng _ s.2) as [[p| |] w]; [|by split..]. cbn [map_err].
    rewrite run_set. split; [by split|]. intros ms [= <-] m.
    rewrite elem_of_app, list_elem_of_singleton. intros [?| ->]; eauto 8. }
  destruct (share_public_card deck seat acc i s) as [[ms| |] t]; cbn in Hd, Hms; [|by split..].
  specialize (IH ms t (proj2 Hd)). destruct (fold_handler _ ms l t) as [r t']. destruct IH as [Hd' Hin].
  split; [by eapply (kp_trans (P:=outbox_ok))|]. intros ms' -> m Hm.
  destruct (Hin ms' eq_refl m Hm) as [Hm'|(? & ? & ? & j & ? & -> & Hj)]; [|right; set_solver].
  destruct (Hms ms eq_refl m Hm') as [?|(? & ? & ? & ? & ->)]; [by left|right]. do 5 eexists. split; [done|set_solver].
Qed.
Lemma queue_all (ms : list PublicMessage) s :
  outbox_ok s.1 → (∀ m peer, m ∈ ms → may_send s.1 peer (ReliablePublic m)) →
  delivers s.1 (for_each queue_public_message ms s).2.1.
Proof.
  revert s. induction ms as [|m ms IH]; intros s Hs Hm; [by split|].
  rewrite run_for_each. destruct (queue_public_delivers m s Hs) as [E Ho]; [intros; apply Hm; set_solver|].
  destruct (queue_public_message m s) as [[v| |] t]; cbn [fst snd] in *; [|by split..].
  eapply (kp_trans (P:=outbox_ok)); [by split|].
  apply IH; [done|]. intros. eapply may_send_core; [done|]. apply Hm. set_solver.
Qed.
Lemma sorted_indices_elem l i : i ∈ sorted_indices l ↔ i ∈ l.
Proof. unfold sorted_indices. by rewrite elem_of_btree_iter, elem_of_list_to_set. Qed.

Lemma request_reveal_moves indices reason s :
  live s.1 → indices ⊆ opened s.1 →
  hand_follows { s.1 with pending_reveal := Some (mkPendingReveal reason (sorted_indices indices)) } →
  live_moves s.1 (request_public_reveal indices reason s).2.1.
Proof.
  intros Hs Hi Hh. assert (delivers s.1 s.1) as Hrefl by (split; [done|apply Hs]).
  unfold request_public_reveal. rewrite run_now, run_lift.
  destruct (ok_or _ _) as [deck| |]; [|by apply (kp_refl live live_moves)..].
  rewrite run_reading. destruct (local_seat_u8 s.1) as [seat| |]; [|by apply (kp_refl live live_moves)..].
  rewrite run_bind. pose proof (shared_cards deck seat (sorted_indices indices) [] s) as Hsh.
  destruct (fold_handler _ [] _ s) as [[ms| |] t]; destruct Hsh as [[Et Ht] Hms]; try apply Hs; cycle 1.
  { by apply (kp_frame (P:=live)). } { by apply (kp_frame (P:=live)). }
  rewrite run_bind. pose proof (queue_all ms t Ht) as Hq.
  destruct (for_each queue_public_message ms t) as [v u]. destruct Hq as [Eu Hu].
  { intros m peer Hm. destruct (Hms ms eq_refl m Hm) as [?|(? & ? & ? & i & ? & -> & Hin)]; [set_solver|].
    apply (may_send_core s.1 t.1); [done|]. simpl. apply Hi. by apply sorted_indices_elem. }
  assert (core u.1 = core s.1) as E by (cbn in Eu; by rewrite Eu).
  destruct v; [|by apply (kp_frame (P:=live))..].
  set (pending := Some (mkPendingReveal reason (sorted_indices indices))) in *.
  set (b := { u.1 with pending_reveal := pending }). change (live_moves s.1 b).
  apply core_same in E as (E & Ef & Er). apply game_same in E as (El & Em & Ec & Es & Ek & Eh & _ & Eo).
  pose proof (log_core_same _ _ El) as (_ & _ & _ & Eq & _ & _ & _ & Erp & Eop).
  apply (game_moves s.1 b); [apply Hs|apply Hs|exact (eq_trans Ek (proj2 Hs))|exact El| | | |exact Ef|exact Er| | |exact Hu].
  - change (mental_transcript b) with (mental_transcript u.1). by rewrite Em.
  - change (public_cards b) with (public_cards u.1). by rewrite Ec.
  - change (settled b) with (settled u.1). by rewrite Es.
  - unfold reveals_ok. change (opened b) with (opened u.1). change (public_cards b) with (public_cards u.1).
    change (pending_reveal b) with pending. rewrite Eop, Ec. split; [|apply (ok_reveals _ (proj1 Hs))].
    intros p [= <-] i Hin. by apply Hi, sorted_indices_elem.
  - unfold hand_follows in *. change (ah_hand b) with (ah_hand u.1). change (replayed b) with (replayed u.1).
    change (local_hole_cards b) with (local_hole_cards u.1). change (ah_sequence b) with (ah_sequence u.1).
    change (settled b) with (settled u.1). rewrite Eh, Es, Eo, Eq, Erp. exact Hh.
Qed.

(** Opening cards extends the transcript and the open cards, nothing else. *)
Lemma append_shares_prefix a packets t l t' :
  try_fold (append_card_shares a packets) t l = Ok t' → t `prefix_of` t'.
Proof.
  revert t. induction l as [|i l IH]; intros t Ht; cbn [try_fold] in Ht; [by simplify_eq|].
  apply bind_Ok in Ht as (u & Hu & Ht). etrans; [|by apply IH].
  unfold append_card_shares in Hu. repeat apply bind_Ok in Hu as (? & _ & Hu). simplify_eq.
  by apply prefix_app_r.
Qed.
Lemma open_card_moves i s :
  live s.1 → i ∈ opened s.1 →
  ∃ m c, (open_public_card i s).2.1 = { s.1 with mental_transcript := m; public_cards := c }
    ∧ live_moves s.1 { s.1 with mental_transcript := m; public_cards := c }.
Proof.
  intros Hs Hi. assert (∃ m c, s.1 = { s.1 with mental_transcript := m; public_cards := c }
    ∧ live_moves s.1 { s.1 with mental_transcript := m; public_cards := c }) as Hsame.
  { exists (mental_transcript s.1), (public_cards s.1).
    assert (s.1 = { s.1 with mental_transcript := mental_transcript s.1; public_cards := public_cards s.1 }) as <-
      by (by destruct s.1). split; [done|by apply (kp_refl live live_moves)]. }
  unfold open_public_card. rewrite run_now. case_bool_decide as Hn; [exact Hsame|].
  destruct (public_shares s.1 !! i) as [packets|]; [|exact Hsame]. case_match; [exact Hsame|].
  rewrite run_lift. destruct (open_card s.1 i packets) as [card| |]; [|exact Hsame..].
  rewrite run_lift. destruct (try_fold _ _ _) as [m| |] eqn:Hm; [|exact Hsame..]. rewrite run_set.
  exists m, (<[i := card]> (public_cards s.1)). split; [done|].
  set (b := { s.1 with mental_transcript := m; public_cards := <[i := card]> (public_cards s.1) }).
  apply (game_moves s.1 b); [apply Hs|apply Hs|apply Hs|done| | |done|done|done| |apply Hs|apply Hs].
  - exact (append_shares_prefix _ _ _ _ _ Hm).
  - apply insert_subseteq. by apply eq_None_not_Some.
  - destruct (ok_reveals _ (proj1 Hs)) as [Hp Hc]. split; [exact Hp|]. intros j [v Hj].
    change (<[i := card]> (public_cards s.1) !! j = Some v) in Hj.
    apply lookup_insert_Some in Hj as [[<- _]|[_ Hj]]; [exact Hi|by apply Hc].
Qed.
Lemma open_cards_moves l s :
  live s.1 → l ⊆ opened s.1 →
  ∃ m c, (open_public_cards l s).2.1 = { s.1 with mental_transcript := m; public_cards := c }
    ∧ live_moves s.1 { s.1 with mental_transcript := m; public_cards := c }.
Proof.
  revert s. induction l as [|i l IH]; intros s Hs Hl; cbn [open_public_cards].
  { exists (mental_transcript s.1), (public_cards s.1).
    assert (s.1 = { s.1 with mental_transcript := mental_transcript s.1; public_cards := public_cards s.1 }) as <-
      by (by destruct s.1). split; [done|by apply (kp_refl live live_moves)]. }
  destruct (open_card_moves i s Hs) as (m & c & E & Hm); [set_solver|].
  rewrite run_bind. destruct (open_public_card i s) as [[o| |] t]; cbn [fst snd] in E; [|by eauto..].
  destruct o; [|by exists m, c]. destruct (IH t) as (m' & c' & E' & Hm').
  - rewrite E. by apply (kp_post (P:=live)) in Hm.
  - rewrite E. intros j Hj. apply (lt_opened _ _ (proj2 (proj1 Hm))). set_solver.
  - exists m', c'. rewrite E', E in *. split; [done|]. eapply (kp_trans (P:=live)); [exact Hm|exact Hm'].
Qed.

(** The phase of a hand with a reveal under way. *)
Lemma follows_pending a p :
  hand_follows a → pending_reveal a = Some p →
  ∃ h outs, ah_hand a = Some h ∧ is_Some (local_hole_cards a) ∧ replayed a = Ok (outs, h) ∧ settled a = false
    ∧ (pr_reason p = ForStreet ∧ betting h ∧ Forall goes_on outs
       ∨ pr_reason p = ForShowdown ∧ at_showdown h
         ∧ ∃ before, outs = before ++ [ShowdownReady] ∧ Forall goes_on before).
Proof.
  unfold hand_follows. intros Hh Hp. destruct (ah_hand a) as [h|]; [|naive_solver].
  destruct Hh as (Hlh & outs & hl & Hr & Hph). rewrite Hp in Hph. exists h, outs.
  destruct Hph as [Hb Hg -> Hd Hreason|before Hb -> Hg -> Hd Hreason|??????????|??????]; [| |done|done].
  - split_and!; [done..|]. left. split_and!; [by apply Hreason|done..].
  - split_and!; [done..|]. right. split_and!; [by apply Hreason|done|eauto].
Qed.

(** The reveal is complete: play goes on. *)
Lemma reveal_done_moves a p t :
  live a → pending_reveal a = Some p → live_moves a { a with pending_reveal := None; turn_started_at := t }.
Proof.
  intros Ha Hp. destruct (follows_pending a p (ok_hand _ (proj1 Ha)) Hp) as (h & outs & Hh & Hlh & Hr & Hd & Hcase).
  set (b := { a with pending_reveal := None; turn_started_at := t }).
  apply (game_moves a b); [apply Ha|apply Ha|apply Ha|done|done|done|done|done|done| | |apply Ha].
  - split; [done|]. apply (ok_reveals _ (proj1 Ha)).
  - unfold hand_follows. change (ah_hand b) with (ah_hand a). rewrite Hh. split; [exact Hlh|].
    exists outs, h. split; [exact Hr|]. change (settled b) with (settled a). rewrite Hd.
    destruct Hcase as [(_ & ? & ?)|(_ & ? & before & ? & ?)]; [by apply ph_betting|by eapply ph_showdown].
Qed.

(** The showdown. *)
Lemma settle_moves a x w h outs before board holes :
  live a → pending_reveal a = None → settled a = false → ah_hand a = Some h → is_Some (local_hole_cards a) →
  replayed a = Ok (outs, h) → at_showdown h → outs = before ++ [ShowdownReady] → Forall goes_on before →
  showdown_cards a = Ok (board, holes) →
  live_moves a ((settlement ← on_betting (settle_showdown board holes); finish_settlement settlement x) (a, w)).2.1.
Proof.
  intros Ha Hp Hd Hh Hlh Hr Hs Ho Hg Hc. rewrite run_bind. unfold on_betting. cbn [fst snd]. rewrite Hh.
  destruct (settle_showdown board holes h) as [r h'] eqn:Hst. set (b := { a with ah_hand := Some h' }).
  assert (∀ d, phase None d outs h h') as Hph by (intros d; by eapply ph_settled).
  assert (live_moves a b) as Hb.
  { apply (game_moves a b); [apply Ha|apply Ha|apply Ha|done|done|done|done|done|done| | |apply Ha].
    - apply (ok_reveals _ (proj1 Ha)).
    - split; [exact Hlh|]. exists outs, h. split; [exact Hr|]. change (pending_reveal b) with (pending_reveal a).
      rewrite Hp. apply Hph. }
  destruct r as [st| |]; [|exact Hb..]. cbn [map_err]. eapply (kp_trans (P:=live)); [exact Hb|].
  destruct Hb as [[Hbok Hl] Hk]. apply (finish_settlement_moves st x (b, w)); [apply Hbok|done| | |].
  - change (receipt_consensus a = None). destruct (receipt_consensus a) as [c|] eqn:E; [|done].
    destruct (proj1 (ok_receipt _ (proj1 Ha)) c E). congruence.
  - exists outs, h. split; [exact Hr|]. right. rewrite Ho, last_snoc. split_and!; [done|done|].
    exists a, board, holes. split_and!; [done|done|done|]. by rewrite Hst.
  - split; [exact Hlh|]. exists outs, h. split; [exact Hr|].
    change (phase (pending_reveal a) true outs h h'). rewrite Hp. apply Hph.
Qed.

Lemma try_complete_live x : keeps_live (try_complete_public_reveal x).
Proof.
  unfold try_complete_public_reveal. keep_now. intros s Hs.
  destruct (pending_reveal s.1) as [p|] eqn:Hp; [|by apply (kp_refl live live_moves)].
  destruct (open_cards_moves (pr_indices p) s Hs) as (m & c & E & Hm); [by apply (ok_reveals _ (proj1 Hs))|].
  rewrite run_bind. destruct (open_public_cards _ s) as [[o| |] t]; cbn [fst snd] in E; [|cbn [fst snd]; by rewrite E..].
  set (b := { s.1 with mental_transcript := m; public_cards := c }) in *. rewrite run_now.
  case_match; [cbn; by rewrite E|]. pose proof (kp_post (P:=live) _ _ Hm) as Hb.
  eapply (kp_trans (P:=live)); [exact Hm|].
  destruct (follows_pending b p (ok_hand _ (proj1 Hb)) Hp) as (h & outs & Hh & Hlh & Hr & Hd & Hcase).
  rewrite run_set. case_bool_decide as Hreason.
  - rewrite run_set, run_reading. cbn [fst snd]. rewrite E.
    pose proof (reveal_done_moves b p (Some (ex_now x)) Hb Hp) as Hd'. destruct (state_event _); exact Hd'.
  - destruct Hcase as [(? & _)|(_ & Hsd & before & Ho & Hg)]; [done|].
    rewrite run_reading. cbn [fst snd]. rewrite E. set (b' := { b with pending_reveal := None }).
    assert (live_moves b b') as Hb'.
    { assert (b' = { b with pending_reveal := None; turn_started_at := turn_started_at b }) as -> by (by destruct s.1).
      by apply (reveal_done_moves b p). }
    destruct (showdown_cards b') as [[board holes]| |] eqn:Hc; [|exact Hb'..].
    eapply (kp_trans (P:=live)); [exact Hb'|].
    by apply (settle_moves b' x t.2 h outs before board holes); [apply (kp_post (P:=live) _ _ Hb')|..].
Qed.

(** ** The card protocol *)

(** A step that only extends the transcript of the card protocol. *)
Lemma mental_moves a b :
  live a → mental_transcript a `prefix_of` mental_transcript b →
  core { b with mental_transcript := mental_transcript a } = core a → outbox_ok b → live_moves a b.
Proof.
  intros Ha Hm E Ho. apply core_same in E as (E & Ef & Er).
  apply game_same in E as (El & _ & Ec & Es & Ek & Eh & Ep & Eo).
  assert (log_core b = log_core a) as El' by exact El.
  pose proof (log_core_same _ _ El') as (_ & _ & _ & Eq & _ & _ & _ & Erp & Eop).
  change (public_cards b = public_cards a) in Ec. change (settled b = settled a) in Es.
  change (action_conflict b = action_conflict a) in Ek. change (ah_hand b = ah_hand a) in Eh.
  change (pending_reveal b = pending_reveal a) in Ep. change (local_hole_cards b = local_hole_cards a) in Eo.
  apply (game_moves a b); [apply Ha|apply Ha|by rewrite Ek; apply Ha|done|done|by rewrite Ec|by rewrite Es
    |exact Ef|exact Er| | |done].
  - unfold reveals_ok. rewrite Ep, Eop, Ec. apply (ok_reveals _ (proj1 Ha)).
  - pose proof (ok_hand _ (proj1 Ha)) as Hh. unfold hand_follows in *. by rewrite Eh, Eq, Ep, Es, Eo, Erp.
Qed.

Lemma append_keys_prefix a t l t' : try_fold (append_seat_key a) t l = Ok t' → t `prefix_of` t'.
Proof.
  revert t. induction l as [|i l IH]; intros t Ht; cbn [try_fold] in Ht; [by simplify_eq|].
  apply bind_Ok in Ht as (u & Hu & Ht). etrans; [|by apply IH].
  unfold append_seat_key in Hu. repeat apply bind_Ok in Hu as (? & _ & Hu). simplify_eq. by apply prefix_app_r.
Qed.
Lemma aggregate_keys_live : keeps_live aggregate_keys.
Proof.
  unfold aggregate_keys. keep_now. intros s Hs. case_match; [by apply (kp_refl live live_moves)|].
  rewrite run_lift. destruct (try_collect _ _) as [keys| |]; [|by apply (kp_refl live live_moves)..].
  rewrite run_lift. destruct (map_err Mental _) as [agg| |]; [|by apply (kp_refl live live_moves)..].
  rewrite run_lift. destruct (try_fold _ _ _) as [t| |] eqn:Ht; [|by apply (kp_refl live live_moves)..].
  rewrite run_set. match goal with |- live_moves _ (_ (?b, _)).2.1 => assert (live_moves s.1 b) as Hb end.
  { apply mental_moves; [done| |done|apply Hs]. exact (append_keys_prefix _ _ _ _ Ht). }
  rewrite run_reading. by destruct (progress _ _ _).
Qed.

Lemma ensure_local_shuffle_quiet : keeps outbox_ok delivers ensure_local_shuffle.
Proof.
  unfold ensure_local_shuffle. keep_auto; by apply queue_public_quiet.
Qed.
Lemma shuffle_rounds_live fuel : keeps_live (shuffle_rounds fuel).
Proof.
  induction fuel as [|fuel IH]; cbn [shuffle_rounds]; keep_now; intros s Hs.
  { destruct (shuffle_packets _ !! _); by apply (kp_refl live live_moves). }
  destruct (shuffle_packets _ !! _) as [packet|]; [|by apply (kp_refl live live_moves)].
  rewrite run_lift. destruct (verify_next_shuffle _ _ _) as [deck| |]; [|by apply (kp_refl live live_moves)..].
  rewrite run_set. match goal with |- live_moves _ (_ (?b, _)).2.1 => assert (live_moves s.1 b) as Hb end.
  { apply mental_moves; [done| |done|apply Hs]. apply prefix_app_r. done. }
  rewrite run_reading. destruct (progress _ _ _); [|exact Hb..]. case_match; [exact Hb|].
  eapply (kp_trans (P:=live)); [exact Hb|].
  match goal with |- live_moves ?b' (?h (_, ?w)).2.1 => enough (keeps_live h) as Hk;
    [apply (Hk (b', w)); by apply (kp_post (P:=live) _ _ Hb)|] end.
  keep_bind; [keep_delivers; apply ensure_local_shuffle_quiet|]. intros _. keep_auto.
Qed.
Lemma run_shuffles_live : keeps_live run_shuffles.
Proof.
  unfold run_shuffles. keep_read. intros a. case_bool_decide; [keep_auto|].
  keep_bind; [keep_delivers; apply ensure_local_shuffle_quiet|]. intros _. apply shuffle_rounds_live.
Qed.

(** The shares of the hole cards, each for its owner. *)
Lemma u8_try_from_eq n z : u8_try_from n = Some z → z = Z.of_nat n.
Proof. unfold u8_try_from. by case_match; intros [= <-]. Qed.
Lemma shared_holes deck from slots acc s :
  outbox_ok s.1 → Forall (λ e : nat * Z, e.2 ∈ hole_indices e.1) slots →
  Forall (λ e : PeerId * PrivateMessage, may_send s.1 e.1 (ReliablePrivate e.2)) acc →
  let '(r, t) := fold_handler (share_hole_card deck from) acc slots s in
  delivers s.1 t.1 ∧ ∀ out, r = Ok out → Forall (λ e, may_send s.1 e.1 (ReliablePrivate e.2)) out.
Proof.
  revert acc s. induction slots as [|[owner i] slots IH]; intros acc s Hs Hsl Hacc; cbn [fold_handler].
  { split; [by split|]. by intros out [= <-]. }
  apply Forall_cons in Hsl as [Hi Hsl]. rewrite run_bind.
  assert (delivers s.1 (share_hole_card deck from acc (owner, i) s).2.1
    ∧ ∀ out, (share_hole_card deck from acc (owner, i) s).1 = Ok out →
        Forall (λ e, may_send s.1 e.1 (ReliablePrivate e.2)) out) as [Hd Hout].
  { unfold share_hole_card. rewrite run_now, run_lift. destruct (u8_try_from _) as [seat|] eqn:Hseat; [|by split].
    apply u8_try_from_eq in Hseat. cbn [ok_or]. rewrite run_bind. unfold drawing.
    destruct (os_rng _ s.2) as [[p| |] w]; [|by split..]. cbn [map_err].
    destruct (owner =? _)%nat.
    - rewrite run_set. split; [by split|]. by intros out [= <-].
    - unfold lift, expect, mbind, M_bind. destruct (rt_peer_ids _ !! owner) as [peer|] eqn:Hpeer; [|by split].
      split; [by split|]. intros out [= <-]. apply Forall_app. split; [done|]. apply Forall_singleton. simpl. eauto. }
  destruct (share_hole_card _ _ _ _ s) as [[out| |] t]; cbn [fst snd] in *; [|by split..].
  specialize (IH out t (proj2 Hd) Hsl). destruct (fold_handler _ out slots t) as [r u]. destruct IH as [Hd' Hin].
  { eapply Forall_impl; [by apply Hout|]. intros e. apply may_send_core, Hd. }
  split; [by eapply (kp_trans (P:=outbox_ok))|]. intros out' Ho. eapply Forall_impl; [by apply Hin|].
  intros e. apply may_send_core. symmetry. apply Hd.
Qed.
Lemma queue_all_direct (l : list (PeerId * PrivateMessage)) s :
  outbox_ok s.1 → Forall (λ e, may_send s.1 e.1 (ReliablePrivate e.2)) l →
  delivers s.1 (for_each (λ e, queue_direct_message e.1 (ReliablePrivate e.2)) l s).2.1.
Proof.
  revert s. induction l as [|e l IH]; intros s Hs Hl; [by split|]. apply Forall_cons in Hl as [He Hl].
  rewrite run_for_each. destruct (queue_direct_delivers e.1 (ReliablePrivate e.2) s Hs He) as [E Ho].
  destruct (queue_direct_message _ _ s) as [[v| |] t]; cbn [fst snd] in *; [|by split..].
  eapply (kp_trans (P:=outbox_ok)); [by split|]. apply IH; [done|].
  eapply Forall_impl; [exact Hl|]. intros e'. by apply may_send_core.
Qed.
Lemma hole_slots_ok n : Forall (λ e : nat * Z, e.2 ∈ hole_indices e.1) (hole_slots n).
Proof.
  unfold hole_slots. induction (seq 0 n) as [|i l IH]; [constructor|]. cbn [flat_map]. apply Forall_app.
  split; [|done]. apply Forall_forall. intros e (j & -> & Hj)%list_elem_of_fmap. done.
Qed.
Lemma start_dealing_quiet : keeps outbox_ok delivers start_dealing.
Proof.
  unfold start_dealing. keep_read. intros a. case_match; [keep_auto|]. keep_bind; [|intros _; keep_auto].
  unfold begin_hole_distribution. keep_now. intros s Hs.
  rewrite run_lift. destruct (ok_or _ _) as [deck| |]; [|by split..].
  rewrite run_lift. destruct (local_seat_u8 s.1) as [from| |]; [|by split..]. rewrite run_bind.
  pose proof (shared_holes deck from (hole_slots (player_count s.1)) [] s Hs (hole_slots_ok _) ltac:(constructor)) as Hsh.
  destruct (fold_handler _ _ _ s) as [[out| |] t]; destruct Hsh as [Hd Hout]; [|exact Hd..].
  rewrite run_bind. pose proof (queue_all_direct out t (proj2 Hd)) as Hq.
  destruct (for_each _ out t) as [v u]. cbn [fst snd] in Hq. destruct Hq as [E Ho].
  { eapply Forall_impl; [by apply Hout|]. intros e. apply may_send_core, Hd. }
  assert (delivers s.1 u.1) as Hu by (by eapply (kp_trans (P:=outbox_ok))). destruct v; exact Hu.
Qed.

(** The local hole cards are open, and betting starts. *)
Lemma empty_log a : ah_sequence a = 0 → action_log a = [].
Proof. intros E. unfold action_log. by rewrite E. Qed.
Lemma reveal_hole_live : keeps_live reveal_hole.
Proof.
  unfold reveal_hole. keep_now. intros s Hs.
  destruct (bool_decide _ || _) eqn:Hguard; [by apply (kp_refl live live_moves)|].
  apply orb_false_elim in Hguard as [Hn _]. rewrite bool_decide_eq_false, <-eq_None_not_Some in Hn.
  pose proof (ok_hand _ (proj1 Hs)) as Hh. unfold hand_follows in Hh.
  destruct (ah_hand s.1) as [h|] eqn:Eh; [destruct Hh as [[? ?] _]; congruence|]. destruct Hh as (Eq & Ep & Ed).
  rewrite run_lift. destruct (reveal_local_hole_cards s.1) as [[[c1 c2]|]| |]; [|by apply (kp_refl live live_moves)..].
  rewrite run_set. set (b := { s.1 with local_hole_cards := Some (c1, c2) }).
  assert (live_moves s.1 b) as Hb.
  { apply (game_moves s.1 b); [apply Hs|apply Hs|apply Hs|done|done|done|done|done|done| | |apply Hs].
    - apply (ok_reveals _ (proj1 Hs)).
    - unfold hand_follows. change (ah_hand b) with (ah_hand s.1). by rewrite Eh. }
  unfold start_betting_hand. rewrite run_bind, run_now, run_lift. change (fst (b, s.2)) with b.
  destruct (start _ _ _) as [h| |] eqn:Hst; [|exact Hb..]. cbn [map_err].
  rewrite run_update. cbv beta iota. set (c := { b with ah_hand := Some h }).
  change ({ (b, s.2).1 with ah_hand := Some h }) with c.
  assert (live_moves b c) as Hc.
  { pose proof (kp_post (P:=live) _ _ Hb) as Hbl.
    apply (game_moves b c); [apply Hbl|apply Hbl|apply Hbl|done|done|done|done|done|done| | |apply Hbl].
    - apply (ok_reveals _ (proj1 Hbl)).
    - split; [by eexists|]. exists [], h. split.
      + unfold replayed. change (first_deal c) with (start (rt_level (ah_table b)) (zip (players b)
          (rt_buy_ins (ah_table b))) (ah_dealer_index b)). rewrite Hst.
        change (action_log c) with (action_log s.1). by rewrite (empty_log s.1) by done.
      + change (phase (pending_reveal s.1) (settled s.1) [] h h). rewrite Ep, Ed.
        destruct (ok_chips _ (proj1 Hs)) as (Hlv & _ & Hsum). apply ph_betting; [|constructor|done|done|done].
        by eapply start_betting. }
  eapply (kp_trans (P:=live)); [exact Hb|]. eapply (kp_trans (P:=live)); [exact Hc|].
  match goal with |- live_moves ?b' (?h (_, ?w)).2.1 => enough (keeps_live h) as Hk;
    [apply (Hk (b', w)); by apply (kp_post (P:=live) _ _ Hc)|] end.
  keep_auto. keep_delivers. by apply queue_public_quiet.
Qed.

Lemma ensure_turn_quiet now : keeps outbox_ok delivers (ensure_turn_started now).
Proof. unfold ensure_turn_started. keep_auto. Qed.

Lemma drive_keeps P R `{!GameKeeping P R} x :
  (∀ a b, P a → live_moves a b → R a b) → keeps P R (drive x).
Proof.
  intros Hlive. unfold drive. keep_now. intros s Hs.
  case_bool_decide as Hc; [by apply (kp_refl P R)|]. apply eq_None_not_Some in Hc.
  apply Hlive; [done|].
  match goal with |- live_moves _ (?h _).2.1 => enough (keeps_live h) as Hk;
    [apply Hk; split; [by apply gk_hand|done]|] end.
  keep_bind; [apply aggregate_keys_live|]. intros keys. keep_bind; [apply run_shuffles_live|]. intros shuffles.
  keep_bind; [keep_delivers; apply start_dealing_quiet|]. intros dealing.
  keep_bind; [apply reveal_hole_live|]. intros hole. keep_bind; [apply try_complete_live|]. intros public.
  keep_bind; [keep_delivers; apply ensure_turn_quiet|]. intros started. keep_auto.
Qed.
Lemma drive_safe x : keeps hand_ok moves (drive x).
Proof. apply (drive_keeps hand_ok moves). by intros a b _ []. Qed.
End game.
