(* ===== verification/HandBet.v ===== *)
(** * HandBet: committing an action keeps the invariant of a hand

    The log grows by the verified action, the betting engine by its step, and
    what the step opens is asked for; two actions of one device for the same
    place freeze the hand. *)

From coqutil Require Import Datatypes.RecordSetters.
From S2P Require Import Prelude Machine Encoding Order Ids Table Membership Session NetworkAddress.
From S2P Require Import MentalPoker SessionState Swarm Cards Holdem HoldemInv HoldemAct Showdown.
From S2P Require Import PublicState Receipt Identity SignedReceipt HandAction ReceiptRuntime.
From S2P Require Import HandState HandRuntime HandLog HandInv HandDelivery HandSafe.
Import OCamlLikeNotations.

(** An action while nothing is to be revealed and the hand is not settled. *)
Lemma act_in_phase outs hl h p action :
  phase None false outs hl h →
  match act p action h with
  | (Ok out, h') => h = hl ∧ betting hl ∧ Forall goes_on outs ∧ stage (outs ++ [out]) h' ∧ (goes_on out → betting h')
  | (Err _, h') => h' = h
  | (Panic, _) => False
  end.
Proof.
  assert (next_to_act h = None → act p action h = (Err NoActionExpected, h)) as Hnone.
  { intros Hn. unfold act, gets, lift, mbind, M_bind, id. by rewrite Hn. }
  intros [Hb Hg -> _ _|before Hb -> Hg -> _ _|before board holes r Hb -> Hg Hst _|??????]; [| | |done].
  - pose proof (act_stage p action hl outs Hb Hg) as Hs. destruct (act p action hl) as [[out| |] h']; [|done..].
    destruct Hs as (? & _ & ?). done.
  - rewrite Hnone; [done|]. apply Hb.
  - rewrite Hnone; [done|]. pose proof (settle_showdown_turn board holes hl) as Ht. rewrite Hst in Ht.
    cbn in Ht. rewrite Ht. apply Hb.
Qed.

Section betting.
Context `{Crypto, !CryptoLaws, Libp2p, Ziffle, !World, !OsRandom, !HandCodec, !HandCodecLaws}.
Implicit Types (a b : ActiveHand) (s : ActiveHand * world) (x : HandExecutionContext).

(** ** The log grows *)

Lemma log_snoc a b (x : SignedHandAction) :
  log_ok a → ah_sequence b = ah_sequence a + 1 →
  committed_actions b = <[ah_sequence a + 1 := x]> (committed_actions a) → action_log b = action_log a ++ [x].
Proof.
  intros (Hpos & Hdom & _) Eq Ec. unfold action_log. rewrite Eq, Ec, Z.add_1_r.
  unfold seqZ. rewrite Z2Nat.inj_succ, seq_S, fmap_app, omap_app by lia. f_equal.
  - assert (Forall (λ k, k <= ah_sequence a) ((λ i : nat, Z.of_nat i + 1) <$> seq 0 (Z.to_nat (ah_sequence a)))) as Hf.
    { apply Forall_fmap, Forall_seq. intros j Hj. simpl. lia. }
    apply list_omap_ext, Forall_Forall2_diag. eapply Forall_impl; [exact Hf|]. intros k Hk.
    cbn beta in Hk. rewrite lookup_insert_ne; [done|lia].
  - simpl. replace (Z.of_nat (Z.to_nat (ah_sequence a)) + 1) with (Z.succ (ah_sequence a)) by lia.
    by rewrite lookup_insert_eq.
Qed.

Lemma opened_snoc a b outs out h h' :
  ah_table b = ah_table a → replayed a = Ok (outs, h) → replayed b = Ok (outs ++ [out], h') → Forall goes_on outs →
  opened a ⊆ opened b ∧ outcome_indices (player_count b) h' out ⊆ opened b.
Proof.
  intros Et Ha Hb Hg. unfold opened. rewrite Ha, Hb, flat_map_app.
  assert (player_count b = player_count a) as -> by (unfold player_count, players; by rewrite Et).
  assert (flat_map (outcome_indices (player_count a) h') outs = flat_map (outcome_indices (player_count a) h) outs) as ->.
  { clear Ha Hb. induction Hg as [|o outs Ho _ IH]; [done|]. cbn [flat_map]. rewrite IH. f_equal. by destruct o. }
  split; [set_solver|]. cbn [flat_map]. rewrite app_nil_r. set_solver.
Qed.

(** The state after a verified, legal action: everything but what follows from
    its outcome. *)
Section commit.
Context (a b : ActiveHand) (k : Z) (x : SignedHandAction) (identity : PlayerId * DevicePublicKey)
  (state : list Z) (now : Z) (outs : list ActionOutcome) (h h' : HoldemHand) (out : ActionOutcome).
Hypothesis Ha : hand_ok a.
Hypothesis Hlive : action_conflict a = None.
Hypothesis Hk : k = ah_sequence a + 1 ∧ k <= u64_max.
Hypothesis Hid : seat_identity a (act_seat x) = Ok identity.
Hypothesis Hstate : hand_state_hash a = Ok state.
Hypothesis Hverify : verify_action a x k state (act_seat x) identity now = Ok tt.
Hypothesis Hreplay : replayed a = Ok (outs, h).
Hypothesis Hgo : Forall goes_on outs.
Hypothesis Hact : act identity.1 (act_action x) h = (Ok out, h').
Hypothesis Hb_table : ah_table b = ah_table a ∧ ah_hand_number b = ah_hand_number a
  ∧ ah_dealer_index b = ah_dealer_index a.
Hypothesis Hb_log : ah_sequence b = k ∧ committed_actions b = <[k := x]> (committed_actions a)
  ∧ action_transcript b = action_transcript a ++ action_frame x.
Hypothesis Hb_game : mental_transcript b = mental_transcript a ∧ public_cards b = public_cards a
  ∧ settled b = settled a ∧ action_conflict b = None ∧ pending_reveal a = None ∧ pending_reveal b = None.
Hypothesis Hb_receipt : receipt_consensus b = receipt_consensus a ∧ finalized_receipt b = finalized_receipt a.
Hypothesis Hb_outbox : direct_outbox b = direct_outbox a ∧ direct_requests b = direct_requests a.

Lemma verified_action :
  act_player_id x = identity.1 ∧ expected_public_state_hash x = state.
Proof.
  pose proof Hverify as Hv. unfold verify_action in Hv. apply map_err_Ok, action_verify_for_Ok in Hv. naive_solver.
Qed.
Lemma commit_replayed : replayed b = Ok (outs ++ [out], h').
Proof.
  destruct Hb_table as (Et & _ & Ed). destruct Hb_log as (Eq & Ec & _).
  pose proof Hreplay as Hr. unfold replayed in *. assert (first_deal b = first_deal a) as ->
    by (unfold first_deal, players; by rewrite Et, Ed).
  apply bind_Ok in Hr as (h0 & -> & Hr). cbn [mbind result_bind].
  rewrite (log_snoc a b x) by (try apply Ha; destruct Hk; congruence).
  destruct (replay (action_log a) h0) as [[o| |] h1] eqn:E; [|done..]. cbn in Hr. injection Hr as -> ->.
  rewrite (replay_snoc _ x h0 h h' outs out E); [done|]. by rewrite (proj1 verified_action).
Qed.
Lemma commit_later : later a b.
Proof.
  destruct Hb_table as (Et & En & Ed), Hb_log as (Eq & Ec & _), Hb_game as (Em & Ecd & Es & Ek & _), Hb_receipt as [_ Ef].
  destruct (ok_log _ Ha) as (_ & Hdom & _).
  destruct Hk as [Hk1 Hk2].
  split; try done; [lia| |by rewrite Em| |by rewrite Ecd|by rewrite Es|rewrite Hlive; by intros []].
  - rewrite Ec. apply insert_subseteq. destruct (committed_actions a !! k) eqn:E; [|done].
    assert (1 <= k <= ah_sequence a) by (apply Hdom; eauto). lia.
  - by apply (opened_snoc a b outs out h h' Et Hreplay commit_replayed).
Qed.
Lemma commit_rest : rest_ok b.
Proof.
  pose proof commit_later as Hl.
  destruct Hb_table as (Et & En & Ed), Hb_log as (Eq & Ec & Ex), Hb_game as (Em & Ecd & Es & Ek & _ & Ep),
    Hb_receipt as [Er Ef], Hb_outbox as [Eo Eq'].
  destruct (ok_log _ Ha) as (Hpos & Hdom & Htr), Hk as [Hk1 Hk2]. split.
  - rewrite Et. apply Ha.
  - split; [lia|]. split.
    + intros j. rewrite Ec, Eq. destruct (decide (j = k)) as [->|Hne].
      * rewrite lookup_insert_eq. split; [lia|by eexists].
      * rewrite lookup_insert_ne by done. rewrite Hdom. lia.
    + rewrite Ex, (log_snoc a b x), flat_map_app by (try apply Ha; congruence). rewrite Htr. f_equal.
      cbn [flat_map]. by rewrite app_nil_r.
  - apply (chain_later a b); [done|apply Ha|]. intros j y Hj Hn. rewrite Ec in Hj.
    apply lookup_insert_Some in Hj as [[<- <-]|[_ ?]]; [|congruence]. destruct verified_action as [_ Est]. split.
    + exists now. eapply signed_for_later; [done|]. exists identity. split; [done|]. by rewrite Est.
    + exists a. split_and!; [done|apply Ha|lia|]. by rewrite Est.
  - unfold reveals_ok. rewrite Ep, Ecd. split; [done|]. intros i Hi. apply (lt_opened _ _ Hl).
    by apply (ok_reveals _ Ha).
  - intros e He. congruence.
  - apply (receipt_frame a b); [done|done|done|apply Ha].
  - destruct (ok_outbox _ Ha) as (Hnd & Hall & Hreq & Huniq). unfold outbox_ok. rewrite Eo, Eq'.
    assert (∀ peer m, may_send a peer m → may_send b peer m) as Hms.
    { intros peer m Hm. destruct m as [[]|[]]; try done; simpl in *; [by apply (lt_opened _ _ Hl)|by rewrite Et]. }
    split_and!; [done| |intros; by eapply Hms, Hreq|done].
    eapply Forall_impl; [exact Hall|]. intros d [? ?]. split; [done|by apply Hms].
Qed.
End commit.

(** ** Publishing succeeds *)
Definition succeeds {A} (m : HandM A) : Prop := ∀ s, ∃ v, (m s).1 = Ok v.
Lemma succeeds_bind {A B} (m : HandM A) (f : A → HandM B) :
  succeeds m → (∀ v, succeeds (f v)) → succeeds (m ≫= f).
Proof.
  intros Hm Hf s. destruct (Hm s) as [v Hv]. rewrite run_bind.
  destruct (m s) as [r t]. cbn in Hv. subst r. apply Hf.
Qed.
Lemma succeeds_for_each {A} (f : A → HandM unit) l : (∀ v, succeeds (f v)) → succeeds (for_each f l).
Proof.
  intros Hf. induction l as [|v l IH]; intros s; [by eexists|]. rewrite run_for_each.
  destruct (Hf v s) as [u Hu]. destruct (f v s) as [r t]. cbn in Hu. subst r. apply IH.
Qed.
Lemma dispatch_succeeds : succeeds dispatch_direct_messages.
Proof.
  intros s. unfold dispatch_direct_messages. rewrite run_now. unfold net, gets. rewrite run_bind.
  destruct (fold_left _ _ _) as [[busy outbox] due]. rewrite run_set. apply succeeds_for_each.
  intros e t. unfold send_direct, net_call, mbind, M_bind. destruct (send_request _ _ _). by eexists.
Qed.
(** The message has an encoding that fits. *)
Definition publishes (m : PublicMessage) : Prop :=
  ∃ payload, encode_public m = Some payload ∧ Z.of_nat (length payload) <= MAX_HAND_MESSAGE_BYTES.
Lemma queue_public_succeeds m : publishes m → succeeds (queue_public_message m).
Proof.
  intros (payload & Hp & Hlen). unfold queue_public_message, public_message_id. rewrite Hp.
  apply succeeds_bind; [by eexists|]. intros id. apply succeeds_bind; [by eexists|]. intros _.
  apply succeeds_bind; [by eexists|]. intros local. apply succeeds_bind; [by eexists|]. intros a.
  apply succeeds_bind.
  { apply succeeds_for_each. intros peer s. unfold queue_direct_message. rewrite run_now.
    case_match; [by eexists|]. rewrite run_set. apply dispatch_succeeds. }
  intros _. unfold publish_public_message. apply succeeds_bind; [by eexists|]. intros b.
  apply succeeds_bind; [|intros published; by eexists]. unfold publish_public. rewrite Hp.
  intros s. rewrite run_lift. cbn [ok_or]. rewrite run_lift, (proj2 (Z.ltb_ge _ _) Hlen). cbn [reject_if].
  unfold net_call. destruct (gossip_publish _ _ _). by eexists.
Qed.

(** ** What follows an action *)

Definition reason_of (out : ActionOutcome) : option RevealReason :=
  match out with
  | WaitingFor _ | StreetAdvanced _ _ => Some ForStreet
  | ShowdownReady => Some ForShowdown
  | HandComplete _ => None
  end.
Section outcome.
Context (a : ActiveHand) (outs : list ActionOutcome) (out : ActionOutcome) (h : HoldemHand).
Hypothesis Ha : rest_ok a.
Hypothesis Hlive : action_conflict a = None.
Hypothesis Hpending : pending_reveal a = None.
Hypothesis Hsettled : settled a = false.
Hypothesis Hhand : ah_hand a = Some h.
Hypothesis Hhole : is_Some (local_hole_cards a).
Hypothesis Hreplay : replayed a = Ok (outs ++ [out], h).
Hypothesis Hgo : Forall goes_on outs.
Hypothesis Hstage : stage (outs ++ [out]) h.
Hypothesis Hbetting : goes_on out → betting h.
Hypothesis Hopened : outcome_indices (player_count a) h out ⊆ opened a.

Lemma outcome_follows reason pending :
  reason_of out = Some reason → (∀ p, pending = Some p → pr_reason p = reason) →
  hand_follows { a with pending_reveal := pending }.
Proof.
  intros Hr Hp. unfold hand_follows. set (c := { a with pending_reveal := pending }).
  change (ah_hand c) with (ah_hand a). rewrite Hhand. split; [exact Hhole|].
  exists (outs ++ [out]), h. split; [exact Hreplay|]. change (phase pending (settled a) (outs ++ [out]) h h).
  rewrite Hsettled. destruct out as [q|st q| |st]; simplify_eq/=.
  - apply ph_betting; [by apply Hbetting|by apply Forall_app; repeat constructor|done|done|done].
  - apply ph_betting; [by apply Hbetting|by apply Forall_app; repeat constructor|done|done|done].
  - eapply ph_showdown; [|done|done|done|done|done].
    destruct Hstage as [_ Hall|? ? _ _|? ? ? E _]; [|done|by apply app_inj_2 in E as [_ [=]]].
    apply Forall_app in Hall as [_ Hall]. by inversion Hall.
Qed.
Lemma outcome_live reason : reason_of out = Some reason → live a.
Proof.
  intros Hr. split; [|done]. split; [done|].
  assert (a = { a with pending_reveal := None }) as ->; [|by eapply outcome_follows].
  rewrite <-Hpending at 1. clear. by destruct a.
Qed.
(** The cards of a street, or of the showdown, are asked for. *)
Lemma outcome_reveals b w reason indices :
  reason_of out = Some reason → core b = core a → outbox_ok b → indices = outcome_indices (player_count a) h out →
  live_moves a ((_ ← request_public_reveal indices reason; e ← reading state_event; mret [e]) (b, w)).2.1.
Proof.
  intros Hr E Ho Hi. pose proof (outcome_live reason Hr) as Hl.
  assert (live_moves a b) as Hab by (by apply (kp_frame (P:=live))).
  eapply (kp_trans (P:=live)); [exact Hab|]. rewrite run_bind.
  pose proof (request_reveal_moves indices reason (b, w)) as Hq. cbn [fst] in Hq.
  assert (live_moves b (request_public_reveal indices reason (b, w)).2.1) as Hm.
  { apply Hq; [by apply (kp_post (P:=live) _ _ Hab)| |].
    - apply core_same in E as (E%game_same & _). destruct E as [El _].
      destruct (log_core_same _ _ El) as (_ & _ & _ & _ & _ & _ & _ & _ & ->). by rewrite Hi.
    - set (pending := Some _). apply (game_follows { a with pending_reveal := pending }).
      + apply core_same in E as (E%game_same & _). destruct E as (El & Em & Ec & Es & Ek & Eh & _ & Eo).
        unfold game_core. set (c := { b with pending_reveal := pending }). set (d := { a with pending_reveal := pending }).
        change (log_core c) with (log_core b). change (log_core d) with (log_core a).
        change (mental_transcript c) with (mental_transcript b). change (mental_transcript d) with (mental_transcript a).
        change (public_cards c) with (public_cards b). change (public_cards d) with (public_cards a).
        change (settled c) with (settled b). change (settled d) with (settled a).
        change (action_conflict c) with (action_conflict b). change (action_conflict d) with (action_conflict a).
        change (ah_hand c) with (ah_hand b). change (ah_hand d) with (ah_hand a).
        change (local_hole_cards c) with (local_hole_cards b). change (local_hole_cards d) with (local_hole_cards a).
        by rewrite El, Em, Ec, Es, Ek, Eh, Eo.
      + eapply outcome_follows; [done|]. by intros p [= <-]. }
  destruct (request_public_reveal _ _ _) as [[[]| |] t]; [|exact Hm..]. rewrite run_reading. by destruct (state_event _).
Qed.

Lemma outcome_moves x w : receipt_consensus a = None → live_moves a (handle_action_outcome out x (a, w)).2.1.
Proof.
  intros Hc. enough (∀ o, out = o → live_moves a (handle_action_outcome o x (a, w)).2.1) as Hall by (by apply Hall).
  intros [q|st q| |st] Eout; cbn [handle_action_outcome].
  - rewrite run_reading. pose proof (kp_refl live live_moves a (outcome_live ForStreet ltac:(by rewrite Eout))).
    by destruct (state_event _).
  - rewrite run_set, run_now. cbn [fst snd]. set (b := { a with last_actions := ∅; turn_started_at := None }).
    rewrite run_lift. change (player_count b) with (player_count a).
    destruct (street_indices (player_count a) st) as [l| |] eqn:Hl;
      [|apply (kp_frame (P:=live)); [by eapply outcome_live; rewrite Eout|done|apply Ha]..].
    apply (outcome_reveals b w ForStreet); [by rewrite Eout|done|apply Ha|]. rewrite Eout. simpl. by rewrite Hl.
  - rewrite run_set, run_now. cbn [fst snd]. set (b := { a with turn_started_at := None }).
    rewrite run_lift. unfold hand_of. change (ah_hand b) with (ah_hand a). rewrite Hhand. cbn [ok_or].
    apply (outcome_reveals b w ForShowdown); [by rewrite Eout|done|apply Ha|by rewrite Eout].
  - apply (finish_settlement_moves st x (a, w)); [done|done|done| |].
    + exists (outs ++ [HandComplete st]), h. rewrite last_snoc. split; [by rewrite <-Eout|by left].
    + cbn [fst]. unfold hand_follows. set (b := { a with settled := true; turn_started_at := None }).
      change (ah_hand b) with (ah_hand a). rewrite Hhand. split; [exact Hhole|].
      exists (outs ++ [out]), h. split; [exact Hreplay|]. change (phase (pending_reveal a) true (outs ++ [out]) h h).
      rewrite Hpending. destruct Hstage as [_ Hall|? ? E _|before ? ? E Hg].
      * rewrite Eout in Hall. apply Forall_app in Hall as [_ Hall]. by inversion Hall.
      * rewrite Eout in E. by apply app_inj_2 in E as [_ [=]].
      * by eapply ph_folded.
Qed.
End outcome.

(** ** Actions *)

(** A second action for the same place freezes the hand. *)
Lemma conflict_moves a e (x y : SignedHandAction) now :
  hand_ok a → committed_actions a !! cf_sequence e = Some x → signed_for a (cf_sequence e) y now →
  act_seat y = act_seat x → expected_public_state_hash y = expected_public_state_hash x →
  action_payload_hash x = cf_accepted_hash e → action_payload_hash y = cf_conflicting_hash e →
  cf_accepted_hash e ≠ cf_conflicting_hash e →
  moves a { a with action_conflict := Some e }.
Proof.
  intros Ha Hx Hy Hs He Ex Ey Hne. set (b := { a with action_conflict := Some e }).
  assert (later a b) as Hl by (by split).
  split; [|done]. split; [|apply Ha]. split; try apply Ha.
  - apply (chain_later a b); [done|apply Ha|]. change (committed_actions b) with (committed_actions a). congruence.
  - intros e' [= <-]. exists x, y, now. split_and!; [exact Hx|by eapply signed_for_later|done..].
  - apply (receipt_frame a b); [done|done|done|apply Ha].
Qed.

Lemma resolve_safe k accepted conflicting now s :
  hand_ok s.1 → committed_actions s.1 !! k = Some accepted →
  moves s.1 (resolve_replayed_action k accepted conflicting now s).2.1.
Proof.
  intros Hs Hk. assert (moves s.1 s.1) as Hrefl by (by apply (kp_refl hand_ok moves)).
  unfold resolve_replayed_action. rewrite run_lift. destruct (reject_if _ _) as [[]| |] eqn:Hrej; [|exact Hrefl..].
  rewrite run_now, run_lift. destruct (seat_identity s.1 _) as [identity| |] eqn:Hid; [|exact Hrefl..].
  rewrite run_lift. destruct (verify_action _ _ _ _ _ _ _) as [[]| |] eqn:Hv; [|exact Hrefl..].
  unfold reject_if in Hrej. destruct (_ || _) eqn:Hor in Hrej; [done|]. clear Hrej.
  apply orb_false_elim in Hor as [Hor Hstate]. apply orb_false_elim in Hor as [Hseat _].
  apply negb_false_iff, Z.eqb_eq in Hseat. apply negb_false_iff, bool_decide_eq_true in Hstate.
  case_bool_decide as Hne; [exact Hrefl|]. rewrite run_set.
  apply (conflict_moves s.1 (mkConflict k (action_payload_hash accepted) (action_payload_hash conflicting))
    accepted conflicting now); [done|done| |done|done|done|done|by apply not_eq_sym].
  exists identity. by rewrite Hseat, Hstate.
Qed.

(** The state right after the action is in the log. *)
Definition committed_state a (k : Z) (action : SignedHandAction) (h : HoldemHand) (payload : list Z) (now : Z)
    : ActiveHand :=
  { a with ah_hand := Some h; ah_sequence := k; last_action_at := Some (act_issued_at action);
           turn_started_at := Some now; last_actions ::= λ m, <[act_seat action := act_action action]> m;
           action_transcript ::= λ t, t ++ write_bytes payload;
           committed_actions ::= λ m, <[k := action]> m }.

(** A committed action and what follows from it. *)
Section committed.
Context (a : ActiveHand) (k : Z) (action : SignedHandAction) (identity : PlayerId * DevicePublicKey)
  (state : list Z) (now : Z) (outs : list ActionOutcome) (h h' : HoldemHand) (out : ActionOutcome) (payload : list Z).
Hypothesis Ha : hand_ok a.
Hypothesis Hlive : action_conflict a = None.
Hypothesis Hk : k = ah_sequence a + 1 ∧ k <= u64_max.
Hypothesis Hid : seat_identity a (act_seat action) = Ok identity.
Hypothesis Hstate : hand_state_hash a = Ok state.
Hypothesis Hverify : verify_action a action k state (act_seat action) identity now = Ok tt.
Hypothesis Hreplay : replayed a = Ok (outs, h).
Hypothesis Hgo : Forall goes_on outs.
Hypothesis Hact : act identity.1 (act_action action) h = (Ok out, h').
Hypothesis Hpayload : encode_action action = Some payload.
Hypothesis Hpending : pending_reveal a = None.
Hypothesis Hsettled : settled a = false.
Hypothesis Hhole : is_Some (local_hole_cards a).
Hypothesis Hstage : stage (outs ++ [out]) h'.
Hypothesis Hbetting : goes_on out → betting h'.
Let b := committed_state a k action h' payload now.

Lemma committed_moves c x w :
  core c = core b → outbox_ok c →
  moves a (handle_action_outcome out x (c, w)).2.1 ∧ later b (handle_action_outcome out x (c, w)).2.1.
Proof.
  intros E Ho.
  assert (action_transcript b = action_transcript a ++ action_frame action) as Etr
    by (unfold action_frame; by rewrite Hpayload).
  assert (later a b) as Hab by (eapply (commit_later a b); done).
  assert (rest_ok b) as Hb by (eapply (commit_rest a b); done).
  assert (replayed b = Ok (outs ++ [out], h')) as Hr by (eapply (commit_replayed a b); done).
  destruct (rest_frame b c Hb E Ho) as [Hc Hbc].
  apply core_same in E as (E & Ef & Er). apply game_same in E as (El & _ & _ & Es & Ek & Eh & Ep & Ehl).
  destruct (log_core_same _ _ El) as (Et & _ & _ & _ & _ & _ & _ & Erp & Eop).
  assert (live_moves c (handle_action_outcome out x (c, w)).2.1) as [[? ?] ?];
    [|assert (later b (handle_action_outcome out x (c, w)).2.1) by (by etrans); split; [split; [done|by etrans]|done]].
  apply (outcome_moves c outs out h'); [done|exact (eq_trans Ek Hlive)
    |exact (eq_trans Ep Hpending)|exact (eq_trans Es Hsettled)|exact Eh|by rewrite Ehl|by rewrite Erp|done|done|done| |].
  - rewrite Eop. unfold player_count, players. rewrite Et. apply (opened_snoc a b outs out h h'); [done|done|done|done].
  - rewrite Er. change (receipt_consensus a = None). destruct (receipt_consensus a) as [cs|] eqn:Ecs; [|done].
    destruct (proj1 (ok_receipt _ Ha) cs Ecs). congruence.
Qed.
Lemma commit_publish_moves origin x s :
  s.1 = b →
  (origin = Local → publishes (ActionCommitted (table_id a) (ah_hand_number a) (rt_roster_hash (ah_table a)) k action)) →
  let r := (((if bool_decide (origin = Local)
              then queue_public_message (ActionCommitted (table_id a) (ah_hand_number a)
                     (rt_roster_hash (ah_table a)) k action)
              else mret tt) ≫= λ _, handle_action_outcome out x) s).2.1 in
  moves a r ∧ later b r.
Proof.
  intros Es Hpub. assert (outbox_ok b) as Ho.
  { assert (action_transcript b = action_transcript a ++ action_frame action) as Etr
      by (unfold action_frame; by rewrite Hpayload).
    assert (rest_ok b) as Hb by (eapply (commit_rest a b); done). apply Hb. }
  case_bool_decide as Hl.
  - rewrite run_bind. destruct (queue_public_succeeds _ (Hpub Hl) s) as [v Hv].
    destruct (queue_public_delivers (ActionCommitted (table_id a) (ah_hand_number a) (rt_roster_hash (ah_table a)) k action)
      s) as [E Ho']; [by rewrite Es|done|].
    destruct (queue_public_message _ s) as [r t]. cbn [fst snd] in *. subst r. rewrite Es in E.
    destruct t as [c w]. by apply committed_moves.
  - rewrite run_bind. cbv beta iota. unfold mret, M_ret. destruct s as [c w]. cbn [fst snd] in *. subst c.
    by apply committed_moves.
Qed.
End committed.

Lemma commit_action_safe k action origin x s :
  hand_ok s.1 →
  (origin = Local → publishes (ActionCommitted (table_id s.1) (ah_hand_number s.1)
                                 (rt_roster_hash (ah_table s.1)) k action)) →
  moves s.1 (commit_action k action origin x s).2.1.
Proof.
  intros Hs Hpub. assert (moves s.1 s.1) as Hrefl by (by apply (kp_refl hand_ok moves)).
  unfold commit_action. rewrite run_now. destruct (committed_actions s.1 !! k) as [existing|] eqn:Hk.
  { case_bool_decide; [exact Hrefl|by apply resolve_safe]. }
  rewrite run_lift. unfold reject_if at 1. case_bool_decide as Hcf; [exact Hrefl|]. apply eq_None_not_Some in Hcf.
  rewrite run_lift. unfold expect. destruct (u64_checked_add _ 1) as [n|] eqn:Hn; [|exact Hrefl].
  rewrite run_lift. unfold reject_if at 1. destruct (k =? n) eqn:Hkn; [|exact Hrefl]. cbn [negb]. apply Z.eqb_eq in Hkn as ->.
  rewrite run_lift. destruct (seat_identity s.1 _) as [identity| |] eqn:Hid; [|exact Hrefl..].
  rewrite run_lift. destruct (hand_state_hash s.1) as [state| |] eqn:Hst; [|exact Hrefl..].
  rewrite run_lift. destruct (verify_action _ _ _ _ _ _ _) as [[]| |] eqn:Hv; [|exact Hrefl..].
  rewrite run_lift. unfold reject_if at 1. case_bool_decide as Hp; [exact Hrefl|]. cbn [orb].
  destruct (settled s.1) eqn:Hd; [exact Hrefl|]. apply eq_None_not_Some in Hp.
  assert (n = ah_sequence s.1 + 1 ∧ n <= u64_max) as Ek.
  { unfold u64_checked_add, checked_add_w in Hn. destruct (_ <=? _) eqn:Hle; [|done]. apply Z.leb_le in Hle. by simplify_eq. }
  pose proof (ok_hand _ Hs) as Hh. unfold hand_follows in Hh.
  destruct (ah_hand s.1) as [h|] eqn:Eh; [|unfold hand_state_hash, hand_of in Hst; by rewrite Eh in Hst].
  destruct Hh as (Hlh & outs & hl & Hr & Hph). rewrite Hp, Hd in Hph.
  pose proof (act_in_phase _ _ _ identity.1 (act_action action) Hph) as Hact.
  rewrite run_bind. unfold on_betting at 1. rewrite Eh.
  destruct (act identity.1 (act_action action) h) as [[out| |] h'] eqn:Ea; [|subst h'|done]; cycle 1.
  { apply (kp_frame (P:=hand_ok)); [done| |apply Hs]. rewrite <-Eh. clear. by destruct s.1. }
  destruct Hact as (-> & Hbet & Hg & Hstage & Hbet'). cbn [map_err].
  rewrite run_set. unfold append_action. rewrite run_bind.
  destruct (encode_action_total action) as [payload Hpay]. rewrite run_lift, Hpay. cbn [ok_or].
  rewrite run_update. cbv beta iota. rewrite run_set. cbn [fst snd].
  set (b := committed_state s.1 n action h' payload (ex_now x)).
  eapply proj1, (commit_publish_moves s.1 n action identity state (ex_now x) outs hl h' out payload); try done.
Qed.
(** A verified and legal action is in the log afterwards. *)
Lemma commit_action_appends action origin x s identity state h :
  let k := ah_sequence s.1 + 1 in
  hand_ok s.1 → k <= u64_max → action_conflict s.1 = None → pending_reveal s.1 = None → settled s.1 = false →
  ah_hand s.1 = Some h → seat_identity s.1 (act_seat action) = Ok identity → hand_state_hash s.1 = Ok state →
  verify_action s.1 action k state (act_seat action) identity (ex_now x) = Ok tt →
  is_ok (act identity.1 (act_action action) h).1 = true →
  (origin = Local → publishes (ActionCommitted (table_id s.1) (ah_hand_number s.1)
                                 (rt_roster_hash (ah_table s.1)) k action)) →
  committed_actions (commit_action k action origin x s).2.1 !! k = Some action.
Proof.
  intros k Hs Hmax Hcf Hp Hd Eh Hid Hst Hv Hl Hpub. unfold commit_action. rewrite run_now.
  assert (committed_actions s.1 !! k = None) as ->.
  { apply eq_None_not_Some. destruct (ok_log _ Hs) as (_ & -> & _). lia. }
  rewrite run_lift, Hcf. cbn [reject_if bool_decide]. rewrite bool_decide_false by (by intros []). cbn [reject_if].
  rewrite run_lift. unfold u64_checked_add, checked_add_w. fold k. rewrite (proj2 (Z.leb_le _ _) Hmax). cbn [expect].
  rewrite run_lift, Z.eqb_refl. cbn [negb reject_if]. rewrite run_lift, Hid, run_lift, Hst, run_lift, Hv.
  rewrite run_lift, Hp, Hd, bool_decide_false by (by intros []). cbn [orb reject_if].
  pose proof (ok_hand _ Hs) as Hh. unfold hand_follows in Hh. rewrite Eh, Hp, Hd in Hh.
  destruct Hh as (Hlh & outs & hl & Hr & Hph).
  pose proof (act_in_phase _ _ _ identity.1 (act_action action) Hph) as Hact.
  rewrite run_bind. unfold on_betting at 1. rewrite Eh.
  destruct (act identity.1 (act_action action) h) as [[out| |] h'] eqn:Ea; [|done..].
  destruct Hact as (-> & Hbet & Hg & Hstage & Hbet'). cbn [map_err].
  rewrite run_set. unfold append_action. rewrite run_bind.
  destruct (encode_action_total action) as [payload Hpay]. rewrite run_lift, Hpay. cbn [ok_or].
  rewrite run_update. cbv beta iota. rewrite run_set. cbn [fst snd].
  eapply lookup_weaken; [|eapply lt_log, (commit_publish_moves s.1 k action identity state (ex_now x) outs hl h' out payload)];
    try done. exact (lookup_insert_eq _ _ _).
Qed.
(** An action that [commit_action] has added to the log passed its guards. *)
Lemma commit_action_inv k action origin x s :
  committed_actions s.1 !! k = None →
  committed_actions (commit_action k action origin x s).2.1 !! k ≠ None →
  k = ah_sequence s.1 + 1 ∧ k <= u64_max
  ∧ ∃ identity state, seat_identity s.1 (act_seat action) = Ok identity ∧ hand_state_hash s.1 = Ok state
      ∧ verify_action s.1 action k state (act_seat action) identity (ex_now x) = Ok tt.
Proof.
  intros Hk. unfold commit_action. rewrite run_now, Hk.
  rewrite run_lift. destruct (reject_if _ _); [|done..].
  rewrite run_lift. unfold expect. destruct (u64_checked_add _ 1) as [n|] eqn:Hn; [|done].
  rewrite run_lift. unfold reject_if at 1. destruct (k =? n) eqn:Hkn; [|done]. cbn [negb]. apply Z.eqb_eq in Hkn as ->.
  rewrite run_lift. destruct (seat_identity s.1 _) as [identity| |] eqn:Hid; [|done..].
  rewrite run_lift. destruct (hand_state_hash s.1) as [state| |] eqn:Hst; [|done..].
  rewrite run_lift. destruct (verify_action _ _ _ _ _ _ _) as [[]| |] eqn:Hv; [|done..]. intros _.
  unfold u64_checked_add, checked_add_w in Hn. destruct (_ <=? _) eqn:Hle; [|done]. apply Z.leb_le in Hle.
  injection Hn as <-. split_and!; [done|done|]. by exists identity, state.
Qed.
Lemma remote_action_safe k action x : keeps hand_ok moves (commit_action k action Remote x).
Proof. intros s Hs. by apply commit_action_safe. Qed.
Lemma accept_or_defer_safe k action x : keeps hand_ok moves (accept_or_defer_remote_action k action x).
Proof. unfold accept_or_defer_remote_action. keep_auto; apply remote_action_safe. Qed.
Lemma commit_deferred_safe x : keeps hand_ok moves (commit_deferred_actions x).
Proof.
  unfold commit_deferred_actions. keep_read. intros a. generalize (S (size (pending_actions a))). intros fuel.
  induction fuel as [|fuel IH]; cbn [commit_deferred_from]; keep_auto. apply remote_action_safe.
Qed.

(** The messages for the actions of this device fit. *)
Definition actions_fit (t : ReadyTable) (n : Z) x : Prop := ∀ k doc seat action y,
  is_u64 k → is_u8 seat → action_amount_fits action →
  action_issue (rt_table_id t) n (rt_roster_hash t) k (blake3 doc) seat action (ex_now x) (ex_device x)
    (ex_certificate x) = Ok y →
  publishes (ActionCommitted (rt_table_id t) n (rt_roster_hash t) k y).
Definition fit x a : Prop := hand_ok a ∧ actions_fit (ah_table a) (ah_hand_number a) x.
Definition fit_moves x a b : Prop := moves a b ∧ actions_fit (ah_table b) (ah_hand_number b) x.
Lemma fit_later x a b : fit x a → moves a b → fit_moves x a b.
Proof. intros [_ Hf] Hm. split; [done|]. destruct Hm as [_ Hl]. by rewrite (lt_table _ _ Hl), (lt_number _ _ Hl). Qed.
#[global] Instance fit_game x : GameKeeping (fit x) (fit_moves x).
Proof.
  assert (Keeping (fit x) (fit_moves x)).
  { split.
    - intros a b c [? _] [? ?]. split; [by eapply hand_moves_trans|done].
    - intros a b [[? _] ?]. by split.
    - intros a [Ha _]. apply Ha.
    - intros a b Ha E Ho. apply fit_later; [done|]. by apply moves_frame; [apply Ha|..]. }
  split; [apply _|by intros ? []|]. intros a b Ha _ Hm. by apply fit_later.
Qed.

Lemma commit_local_fit action x :
  action_amount_fits action → keeps (fit x) (fit_moves x) (commit_local_action action x).
Proof.
  intros Ham. unfold commit_local_action. keep_now. intros s Hs.
  assert (fit_moves x s.1 s.1) as Hrefl by (by apply (kp_refl (fit x) (fit_moves x))).
  do 4 (rewrite run_lift; destruct (reject_if _ _); [|exact Hrefl..]).
  rewrite run_lift. destruct (hand_of s.1); [|exact Hrefl..]. rewrite run_lift. destruct (map_err _ _); [|exact Hrefl..].
  rewrite run_lift. destruct (local_player s.1); [|exact Hrefl..]. rewrite run_lift. destruct (reject_if _ _); [|exact Hrefl..].
  rewrite run_lift. destruct (u64_checked_add _ _) as [k|] eqn:Hk; [|exact Hrefl]. cbn [ok_or].
  rewrite run_lift. destruct (hand_state_hash s.1) as [state| |] eqn:Hst; [|exact Hrefl..].
  rewrite run_lift. destruct (local_seat_u8 s.1) as [seat| |] eqn:Hseat; [|exact Hrefl..].
  rewrite run_lift. destruct (action_issue _ _ _ _ _ _ _ _ _ _) as [y| |] eqn:Hy; [|exact Hrefl..]. cbn [map_err].
  apply fit_later; [done|]. apply commit_action_safe; [apply Hs|]. intros _.
  unfold hand_state_hash in Hst. apply bind_Ok in Hst as (h & _ & [= <-]).
  apply (proj2 Hs k (public_state_document s.1 h) seat action y); [| |done|done].
  - unfold u64_checked_add, checked_add_w in Hk. case_match eqn:Hle; [|done]. injection Hk as <-. apply Z.leb_le in Hle.
    destruct (ok_log _ (proj1 Hs)) as [? _]. unfold is_u64. lia.
  - unfold local_seat_u8, u8_try_from in Hseat. case_match eqn:Hle; [|done]. cbn in Hseat. injection Hseat as <-.
    apply Z.leb_le in Hle. unfold is_u8. lia.
Qed.
End betting.
