(* ===== verification/HandSteps.v ===== *)
(** * HandSteps: every run of the hand runtime

    The invariant through the messages, the timer and the connections, and the
    runs of [HandRuntime] as a step relation over all its methods, whatever the
    network delivers and in whatever order. *)

From coqutil Require Import Datatypes.RecordSetters.
From S2P Require Import Prelude Machine Encoding Order Ids Table Membership Session NetworkAddress.
From S2P Require Import MentalPoker SessionState Swarm Cards Holdem HoldemInv HoldemAct Showdown.
From S2P Require Import PublicState Receipt Identity SignedReceipt HandAction ReceiptRuntime.
From S2P Require Import HandState HandRuntime HandLog HandInv HandDelivery HandSafe HandBet.
Import OCamlLikeNotations.

Section messages.
Context `{Crypto, !CryptoLaws, Libp2p, Ziffle, !World, !OsRandom, !HandCodec, !HandCodecLaws}.
Implicit Types (a b : ActiveHand) (s : ActiveHand * world) (x : HandExecutionContext).
#[local] Notation safe := (keeps hand_ok moves).

Lemma on_public_message_safe m x : safe (on_public_message m x).
Proof.
  destruct m; cbn [on_public_message].
  - unfold on_key_announcement. keep_auto.
  - unfold on_shuffle. keep_auto.
  - unfold on_community_share. keep_auto.
  - unfold on_deal_ready. keep_auto.
  - apply (accept_receipt_keeps hand_ok moves).
  - apply accept_or_defer_safe.
Qed.
Lemma handle_public_message_safe source m x : safe (handle_public_message source m x).
Proof.
  unfold handle_public_message. keep_auto.
  - apply on_public_message_safe.
  - apply drive_safe.
  - apply commit_deferred_safe.
  - keep_delivers. apply relay_quiet.
Qed.
Lemma on_private_message_safe source m x : safe (_ ← on_private_message source m; drive x).
Proof.
  keep_bind; [|intros _; apply drive_safe]. destruct m. cbn [on_private_message]. keep_auto.
Qed.

Lemma timeout_fits a now action : automatic_local_action a now = Ok (Some action) → action_amount_fits action.
Proof.
  unfold automatic_local_action. case_match; [done|]. intros Ha.
  apply bind_Ok in Ha as (h & _ & Ha). apply bind_Ok in Ha as (next & _ & Ha).
  apply bind_Ok in Ha as (local & _ & Ha). case_match; [done|]. case_match; [by simplify_eq|].
  case_match; [|done]. case_match; [done|]. apply bind_Ok in Ha as (to_call & _ & Ha). simplify_eq.
  unfold timeout_action. by case_match.
Qed.
Lemma tick_hand_fit x : keeps (fit x) (fit_moves x) (tick_hand x).
Proof.
  unfold tick_hand. keep_bind; [keep_auto|]. intros _.
  keep_bind; [intros s Hs; by apply (kp_refl (fit x) (fit_moves x))|]. intros _.
  keep_bind; [keep_delivers; apply retry_public_messages_quiet|]. intros _.
  keep_bind; [keep_delivers; apply dispatch_quiet|]. intros _.
  assert (keeps (fit x) (fit_moves x) (drive x)) as Hdrive.
  { intros s Hs. apply fit_later; [done|]. apply drive_safe, Hs. }
  keep_bind; [done|]. intros events s Hs. rewrite run_reading.
  destruct (automatic_local_action s.1 (ex_now x)) as [[action|]| |] eqn:Ha;
    [|by apply (kp_refl (fit x) (fit_moves x))..].
  apply timeout_fits in Ha.
  match goal with |- fit_moves _ _ (?h _).2.1 => enough (keeps (fit x) (fit_moves x) h) as Hk by (by apply Hk) end.
  keep_auto. by apply commit_local_fit.
Qed.
Lemma submit_fit expected action x :
  action_amount_fits action →
  keeps (fit x) (fit_moves x)
    (a ← hand_now;
     state ← reading hand_state_hash;
     _ ← lift (reject_if (negb (precondition_matches expected (hex_encode (table_id a)) (ah_hand_number a)
                                  (ah_sequence a) (hex_encode state))) StaleAction);
     _ ← lift (reject_if (safe_leave_requested a) LeaveRequested);
     events ← commit_local_action action x;
     driven ← drive x;
     mret (events ++ driven)).
Proof.
  intros Ham. keep_auto; [by apply commit_local_fit|].
  intros s Hs. apply fit_later; [done|]. apply drive_safe, Hs.
Qed.

Lemma on_disconnect_safe peer : safe (on_disconnect peer).
Proof. unfold on_disconnect, session_event. keep_auto. Qed.
Lemma on_reconnect_safe peer : safe (on_reconnect peer).
Proof. unfold on_reconnect, session_event. keep_auto. Qed.

(** ** Answers to requests *)
Lemma update_first_keys entry f l :
  (∀ d, delivery_key (f d) = delivery_key d) →
  map delivery_key (update_first (same_delivery entry) f l) = map delivery_key l.
Proof.
  intros Hf. induction l as [|d l IH]; [done|]. cbn [update_first]. case_match; cbn [map]; by rewrite ?Hf, ?IH.
Qed.
Lemma update_first_Forall (P : RetriedDirectMessage → Prop) p f l :
  (∀ d, P d → P (f d)) → Forall P l → Forall P (update_first p f l).
Proof.
  intros Hf. induction 1 as [|d l Hd Hl IH]; [constructor|]. cbn [update_first]. case_match; constructor; auto.
Qed.
Lemma filter_keys (Q : RetriedDirectMessage → Prop) `{!∀ d, Decision (Q d)} l :
  NoDup (map delivery_key l) → NoDup (map delivery_key (filter Q l)).
Proof.
  induction l as [|d l IH]; [done|]. cbn [map]. intros [Hn Hnd]%NoDup_cons. rewrite filter_cons.
  case_decide; [|by apply IH]. cbn [map]. constructor; [|by apply IH]. contradict Hn.
  apply list_elem_of_fmap in Hn as (e & -> & He). apply (list_elem_of_fmap_2 delivery_key).
  by apply list_elem_of_filter in He as [_ ?].
Qed.
Lemma filter_Forall {A} (P Q : A → Prop) `{!∀ d, Decision (Q d)} l : Forall P l → Forall P (filter Q l).
Proof. rewrite !Forall_forall. intros Hl d [_ Hd]%list_elem_of_filter. auto. Qed.
Lemma request_removed_ok a i : outbox_ok a → outbox_ok { a with direct_requests ::= delete i }.
Proof.
  intros (Hk & Ho & Hr & Hu). split_and!; [exact Hk|exact Ho| |]; cbn.
  - intros j e [_ Hj]%lookup_delete_Some. by eapply Hr.
  - intros j k e e' [_ Hj]%lookup_delete_Some [_ Hk']%lookup_delete_Some. by eapply Hu.
Qed.
Lemma failed_delivery_moves entry a : hand_ok a → moves a (failed_delivery entry a).
Proof.
  intros Ha. unfold failed_delivery. destruct (List.find _ _) as [d|]; [|by apply (kp_refl hand_ok moves)].
  apply moves_frame; [done|done|]. destruct (ok_outbox _ Ha) as (Hk & Ho & Hr & Hu).
  match goal with |- context [if _ then filter _ ?l else _] => set (outbox := l) end.
  assert (NoDup (map delivery_key outbox)) as Hk' by (unfold outbox; by rewrite update_first_keys).
  assert (Forall (λ d, 0 <= rd_attempts d <= MAX_DIRECT_MESSAGE_ATTEMPTS ∧ may_send a (rd_peer d) (rd_message d)) outbox)
    as Ho' by (by apply update_first_Forall).
  split_and!; [| |exact Hr|exact Hu].
  - match goal with |- context [if ?c then _ else _] => destruct c end; [by apply filter_keys|done].
  - match goal with |- context [if ?c then _ else _] => destruct c end; [by apply filter_Forall|done].
Qed.
Lemma acknowledged_moves entry a : hand_ok a → moves a (acknowledged entry a).
Proof.
  intros Ha. apply moves_frame; [done|done|]. destruct (ok_outbox _ Ha) as (Hk & Ho & Hr & Hu).
  split_and!; [by apply filter_keys|by apply filter_Forall| |]; cbn.
  - intros i e [Hi _]%map_lookup_filter_Some. by eapply Hr.
  - intros i j e e' [Hi _]%map_lookup_filter_Some [Hj _]%map_lookup_filter_Some. by eapply Hu.
Qed.
End messages.

(** ** The runtime *)
Section runtime.
Context `{Crypto, !CryptoLaws, Libp2p, Ziffle, !World, !OsRandom, !HandCodec, !HandCodecLaws}.
Implicit Types (a b : ActiveHand) (x : HandExecutionContext) (r : HandRuntime) (s : HandRuntime * world).

Record runtime_ok r : Prop := {
  ro_hand : ∀ a, hr_active r = Some a → hand_ok a;
  ro_early : NoDup (early_messages r) ∧ (length (early_messages r) <= MAX_EARLY_HAND_MESSAGES)%nat;
}.
(** The hand goes on, or is gone. *)
Definition continues r r' : Prop :=
  runtime_ok r' ∧ ∀ b, hr_active r' = Some b → ∃ a, hr_active r = Some a ∧ later a b.
Lemma continues_refl r : runtime_ok r → continues r r.
Proof. split; [done|]. intros b Hb. by exists b. Qed.
Lemma continues_trans r1 r2 r3 : continues r1 r2 → continues r2 r3 → continues r1 r3.
Proof.
  intros [_ Hc] [Hok Hc']. split; [done|]. intros b (a & Ha & Hl)%Hc'. apply Hc in Ha as (a0 & ? & ?).
  exists a0. split; [done|by etrans].
Qed.

Definition carries {A} (m : RuntimeM A) : Prop := ∀ s, runtime_ok s.1 → continues s.1 (m s).2.1.
Lemma carries_ret {A} (v : A) : carries (mret v).
Proof. intros s Hs. by apply continues_refl. Qed.
Lemma carries_lift {A} (v : result HandError A) : carries (lift v).
Proof. intros s Hs. by apply continues_refl. Qed.
Lemma carries_bind {A B} (m : RuntimeM A) (f : A → RuntimeM B) : carries m → (∀ v, carries (f v)) → carries (m ≫= f).
Proof.
  intros Hm Hf s Hs. apply Hm in Hs as Hc. unfold mbind, M_bind.
  destruct (m s) as [[v| |] t]; cbn [fst snd] in *; [|done..].
  eapply continues_trans; [done|]. apply Hf, Hc.
Qed.
Lemma carries_runtime {B} (f : HandRuntime → RuntimeM B) :
  (∀ s, runtime_ok s.1 → continues s.1 (f s.1 s).2.1) → carries (runtime ≫= f).
Proof. intros Hf s Hs. by apply Hf. Qed.
Lemma carries_read {B} (f : HandRuntime → RuntimeM B) : (∀ r, carries (f r)) → carries (runtime ≫= f).
Proof. intros Hf s Hs. by apply Hf. Qed.
Lemma carries_world {A} (m : M world HandError A) : carries (with_world m).
Proof. intros s Hs. unfold with_world. destruct (m s.2). by apply continues_refl. Qed.
Lemma carries_active {A} (m : HandM A) : keeps hand_ok moves m → carries (with_active m).
Proof.
  intros Hm s Hs. unfold with_active. destruct (hr_active s.1) as [a|] eqn:Ha; [|by apply continues_refl].
  pose proof (Hm (a, s.2) (ro_hand _ Hs a Ha)) as [Hb Hl]. destruct (m (a, s.2)) as [v [b w]]. cbn [fst snd] in *.
  split.
  - split; [|apply Hs]. by intros b' [= <-].
  - intros b' [= <-]. by exists a.
Qed.
(** Replacing the hand by a later one, or dropping it. *)
Lemma continues_set r a b : runtime_ok r → hr_active r = Some a → moves a b → continues r { r with hr_active := Some b }.
Proof.
  intros Hr Ha [Hb Hl]. split.
  - split; [|apply Hr]. by intros b' [= <-].
  - intros b' [= <-]. by exists a.
Qed.
Lemma continues_drop r : runtime_ok r → continues r { r with hr_active := None }.
Proof. intros Hr. split; [|done]. split; [done|apply Hr]. Qed.
Lemma continues_exports r l : runtime_ok r → continues r { r with pending_exports := l }.
Proof. intros Hr. split; [by split; apply Hr|]. intros b Hb. by exists b. Qed.

Lemma buffer_carries d : carries (buffer_early_message d).
Proof.
  unfold buffer_early_message. apply carries_runtime. intros s Hs. case_bool_decide as Hin; [by apply continues_refl|].
  unfold lift, reject_if, mbind, M_bind. destruct (_ <? _)%nat eqn:Hlen; [|by apply continues_refl].
  apply Nat.ltb_lt in Hlen. destruct (ro_early _ Hs) as [Hnd Hle]. split.
  - split; [apply Hs|]. split.
    + apply NoDup_app. split_and!; [done|intros e He ->%list_elem_of_singleton; done|apply NoDup_singleton].
    + change (length (early_messages s.1 ++ [d]) <= MAX_EARLY_HAND_MESSAGES)%nat.
      rewrite length_app. cbn [length]. lia.
  - intros b Hb. by exists b.
Qed.
Lemma handle_direct_public_carries source m x : carries (handle_direct_public source m x).
Proof.
  unfold handle_direct_public. apply carries_read. intros r. case_match.
  - apply carries_bind; [apply buffer_carries|]. intros _. apply carries_ret.
  - apply carries_active, handle_public_message_safe.
Qed.
Lemma handle_private_carries source m x : carries (handle_private source m x).
Proof.
  unfold handle_private. apply carries_read. intros r. case_match.
  - apply carries_bind; [apply buffer_carries|]. intros _. apply carries_ret.
  - apply carries_active, on_private_message_safe.
Qed.
Lemma handle_public_carries topic source payload x : carries (handle_public topic source payload x).
Proof.
  unfold handle_public. apply carries_read. intros r. apply carries_bind; [apply carries_lift|]. intros a.
  case_match; [apply carries_ret|]. repeat (apply carries_bind; [apply carries_lift|]; intros ?).
  apply carries_active, handle_public_message_safe.
Qed.
Lemma replay_all_carries x l : carries (replay_all x l).
Proof.
  induction l as [|d l IH]; cbn [replay_all]; [apply carries_ret|]. apply carries_bind.
  - intros s Hs. unfold replay_early.
    assert (carries (match d.2 with
                     | BufferedPublic m => handle_direct_public d.1 m x
                     | BufferedPrivate m => handle_private d.1 m x
                     end)) as Hd by (case_match; [apply handle_direct_public_carries|apply handle_private_carries]).
    apply Hd in Hs. by destruct (_ s) as [[] ?].
  - intros e. apply carries_bind; [done|]. intros e'. apply carries_ret.
Qed.

(** The first state of a hand. *)
Lemma fresh_ok t topic n d engine key seat : chips_ok t → hand_ok (fresh_active t topic n d engine key seat).
Proof.
  intros Ht. split; [|done]. split; [done| | | |done|by split|].
  - split; [done|]. split; [|done]. intros k. split; [by intros []|]. cbn. lia.
  - by intros k y Hy.
  - split; [done|]. by intros i [].
  - split_and!; [constructor|constructor|done|done].
Qed.
Lemma start_hand_safe x : keeps hand_ok moves (start_hand x).
Proof.
  unfold start_hand. keep_auto; [|apply drive_safe]. keep_delivers. by apply queue_public_quiet.
Qed.
Lemma initialize_ok t topic n d x w a events w' :
  chips_ok t → initialize_hand t topic n d x w = (Ok (a, events), w') → hand_ok a ∧ ah_table a = t.
Proof.
  intros Ht. unfold initialize_hand, lift, mbind, M_bind. intros Hi.
  do 2 (destruct (reject_if _ _); [|done..]). destruct (map_err _ _) as [engine| |]; [|done..].
  destruct (os_rng _ w) as [[key| |] w1]; [|done..]. cbn [map_err] in Hi.
  destruct (ok_or _ _) as [seat| |]; [|done..].
  pose proof (start_hand_safe x (fresh_active t topic n d engine key seat, w1)) as Hs. cbn [fst] in Hs.
  destruct (start_hand x _) as [ev [b w2]]. destruct Hs as [Hb Hl]; [by apply fresh_ok|].
  destruct ev; [|done..]. cbn in Hi. simplify_eq. split; [done|]. exact (lt_table _ _ Hl).
Qed.
Lemma start_runtime_ok t x s : chips_ok t → runtime_ok s.1 → runtime_ok (start_runtime t x s).2.1.
Proof.
  intros Ht Hs. unfold start_runtime. rewrite run_bind. unfold with_world at 1.
  destruct (register_roster_addresses t s.2) as [[[]| |] w1]; [|done..].
  rewrite run_bind. unfold with_world at 1. destruct (subscribe_hand _ _) as [[[]| |] w2]; [|done..].
  rewrite run_bind. unfold with_world at 1.
  destruct (initialize_hand _ _ _ _ _ _) as [[[a events]| |] w3] eqn:Hi; [|done..].
  apply initialize_ok in Hi as [Ha _]; [|done]. cbn [fst snd]. rewrite run_bind.
  assert (runtime_ok (retire_previous (s.1, w3)).2.1) as Hr.
  { unfold retire_previous, runtime, gets, mbind, M_bind. cbn [fst].
    destruct (hr_active s.1) as [c|] eqn:Hc; [|done]. cbn.
    destruct (finalized_receipt c); [|apply (continues_drop s.1 Hs)..]. cbn.
    destruct (finalized_receipt_exported c); [apply (continues_drop s.1 Hs)|]. split; [done|apply Hs]. }
  destruct (retire_previous (s.1, w3)) as [[[]| |] u]; cbn [fst snd] in *; [|done..].
  set (r := { u.1 with hr_active := Some a; early_messages := [] }).
  assert (runtime_ok r) as Hok by (split; [by intros b [= <-]|split; [constructor|cbn; lia]]).
  pose proof (replay_all_carries x (early_messages u.1) (r, u.2) Hok) as [Hfin _].
  unfold runtime, gets, set_runtime, modify, mbind, M_bind. cbn [fst snd]. fold r.
  by destruct (replay_all _ _ _) as [[] ?].
Qed.

(** ** Runs *)

(** The messages for the actions of the hand under way fit. *)
Definition runtime_fits r x : Prop := ∀ a, hr_active r = Some a → actions_fit (ah_table a) (ah_hand_number a) x.

(** What can happen while a hand is played. *)
Inductive hand_event : HandRuntime → HandRuntime → Prop :=
  | ev_tick r x w : runtime_fits r x → hand_event r (tick_runtime x (r, w)).2.1
  | ev_public r topic source payload x w : hand_event r (handle_public topic source payload x (r, w)).2.1
  | ev_direct_public r source m x w : hand_event r (handle_direct_public source m x (r, w)).2.1
  | ev_private r source m x w : hand_event r (handle_private source m x (r, w)).2.1
  | ev_submit r expected action x w :
      runtime_fits r x → action_amount_fits action → hand_event r (submit_action expected action x (r, w)).2.1
  | ev_safe_leave r : hand_event r (request_safe_leave r)
  | ev_leave r w : hand_event r (leave_hand (r, w)).2.1
  | ev_abort r table n w : hand_event r (abort_for_signed_leave table n (r, w)).2.1
  | ev_response r request accepted w : hand_event r (handle_direct_response request accepted (r, w)).2.1
  | ev_failure r request w : hand_event r (handle_direct_failure request (r, w)).2.1
  | ev_boundary r w : hand_event r (take_hand_boundary (r, w)).2.1
  | ev_export r w : hand_event r (take_newly_finalized_receipts (r, w)).2.1
  | ev_disconnected r peer w : hand_event r (peer_disconnected peer (r, w)).2.1
  | ev_connected r peer w : hand_event r (peer_connected peer (r, w)).2.1.
(** ... and the start of a hand at a table whose chips fit. *)
Inductive runtime_step : HandRuntime → HandRuntime → Prop :=
  | step_event r r' : hand_event r r' → runtime_step r r'
  | step_start r t x w : chips_ok t → runtime_step r (start_runtime t x (r, w)).2.1.
Definition idle_runtime : HandRuntime := mkRuntime _ _ _ None [] [].
Definition reachable r : Prop := rtc runtime_step idle_runtime r.

Lemma active_fit_continues {A} (m : HandM A) r x w :
  keeps (fit x) (fit_moves x) m → runtime_ok r → runtime_fits r x → continues r (with_active m (r, w)).2.1.
Proof.
  intros Hm Hr Hf. unfold with_active. cbn [fst snd]. destruct (hr_active r) as [a|] eqn:Ha; [|by apply continues_refl].
  destruct (Hm (a, w)) as [Hmv _]; [split; [by apply Hr|by apply Hf]|].
  destruct (m (a, w)) as [v [b w']]. by apply (continues_set r a b).
Qed.
Lemma failure_continues request r w : runtime_ok r → continues r (handle_direct_failure request (r, w)).2.1.
Proof.
  intros Hr. unfold handle_direct_failure, runtime, gets, mbind, M_bind. cbn [fst].
  destruct (hr_active r) as [a|] eqn:Ha; [|by apply continues_refl].
  destruct (direct_requests a !! request) as [entry|]; [|by apply continues_refl].
  apply (continues_set r a); [done|done|]. eapply hand_moves_trans; [|apply failed_delivery_moves].
  - apply moves_frame; [by apply Hr|done|]. apply request_removed_ok. by apply Hr.
  - apply (moves_frame a); [by apply Hr|done|]. apply request_removed_ok. by apply Hr.
Qed.
Lemma response_continues request accepted r w :
  runtime_ok r → continues r (handle_direct_response request accepted (r, w)).2.1.
Proof.
  intros Hr. unfold handle_direct_response. destruct accepted; [|by apply failure_continues].
  unfold runtime, gets, mbind, M_bind. cbn [fst negb]. destruct (hr_active r) as [a|] eqn:Ha; [|by apply continues_refl].
  destruct (direct_requests a !! request) as [entry|]; [|by apply continues_refl].
  apply (continues_set r a); [done|done|]. eapply hand_moves_trans; [|apply acknowledged_moves].
  - apply moves_frame; [by apply Hr|done|]. apply request_removed_ok. by apply Hr.
  - apply (moves_frame a); [by apply Hr|done|]. apply request_removed_ok. by apply Hr.
Qed.

Lemma if_active_carries (m : HandM (list HandEvent)) : keeps hand_ok moves m → carries (if_active m).
Proof.
  intros Hm. unfold if_active. apply carries_read. intros r. destruct (bool_decide _); [apply carries_ret|].
  by apply carries_active.
Qed.

Lemma hand_event_continues r r' : hand_event r r' → runtime_ok r → continues r r'.
Proof.
  intros Hev Hr. destruct Hev.
  - unfold tick_runtime, runtime, gets, mbind, M_bind. cbn [fst]. case_bool_decide; [by apply continues_refl|].
    by apply (active_fit_continues _ r x); [apply tick_hand_fit|..].
  - by apply (handle_public_carries _ _ _ _ (r, w)).
  - by apply (handle_direct_public_carries _ _ _ (r, w)).
  - by apply (handle_private_carries _ _ _ (r, w)).
  - by apply (active_fit_continues _ r x); [apply submit_fit|..].
  - unfold request_safe_leave. destruct (hr_active r) as [a|] eqn:Ha; [|by apply continues_refl].
    apply (continues_set r a); [done|done|]. apply moves_frame; [by apply Hr|done|]. exact (ok_outbox _ (ro_hand _ Hr a Ha)).
  - unfold leave_hand, runtime, gets, mbind, M_bind. cbn [fst]. destruct (hr_active r); [|by apply continues_refl].
    by apply continues_drop.
  - unfold abort_for_signed_leave, runtime, gets, lift, mbind, M_bind. cbn [fst].
    destruct (hr_active r); [|by apply continues_refl]. cbn [ok_or].
    destruct (reject_if _ _); [by apply continues_drop|by apply continues_refl..].
  - by apply response_continues.
  - by apply failure_continues.
  - unfold take_hand_boundary, runtime, gets, lift, mbind, M_bind. cbn [fst].
    destruct (hr_active r) as [a|] eqn:Ha; [|by apply continues_refl].
    destruct (boundary_exported a), (finalized_receipt a); try by apply continues_refl.
    destruct (ok_or _ _); [|by apply continues_refl..]. destruct (map_err _ _); [|by apply continues_refl..].
    apply (continues_set r a); [done|done|]. apply moves_frame; [by apply Hr|done|]. exact (ok_outbox _ (ro_hand _ Hr a Ha)).
  - unfold take_newly_finalized_receipts, runtime, gets, set_runtime, modify, mbind, M_bind. cbn [fst snd].
    pose proof (continues_exports r [] Hr) as He. destruct (hr_active r) as [a|] eqn:Ha; [|exact He].
    destruct (finalized_receipt_exported a); [exact He|]. destruct (finalized_receipt a); [|exact He].
    eapply continues_trans; [exact He|]. apply (continues_set _ a); [apply He|exact Ha|].
    apply moves_frame; [by apply Hr|done|]. exact (ok_outbox _ (ro_hand _ Hr a Ha)).
  - by apply (if_active_carries _ (on_disconnect_safe peer) (r, w)).
  - by apply (if_active_carries _ (on_reconnect_safe peer) (r, w)).
Qed.

Lemma reachable_ok r : reachable r → runtime_ok r.
Proof.
  unfold reachable. intros Hr. remember idle_runtime as r0 eqn:E0. assert (runtime_ok r0) as H0'.
  { subst r0. split; [done|]. split; [constructor|cbn; lia]. }
  clear E0. induction Hr as [|r1 r2 r3 Hstep _ IH]; [done|]. apply IH. destruct Hstep as [? ? Hev|? t x w Ht].
  - by apply hand_event_continues in Hev as [? _].
  - by apply (start_runtime_ok t x (_, w)).
Qed.
(** Two states of the same hand along a run without a new start. *)
Lemma events_later r r' a b :
  reachable r → rtc hand_event r r' → hr_active r = Some a → hr_active r' = Some b → later a b.
Proof.
  intros Hr%reachable_ok Hev Ha Hb.
  assert (continues r r') as [_ Hc].
  { clear Ha Hb. induction Hev as [|r1 r2 r3 Hs _ IH]; [by apply continues_refl|].
    apply hand_event_continues in Hs; [|done]. eapply continues_trans; [done|]. apply IH, Hs. }
  destruct (Hc b Hb) as (a' & Ha' & ?). congruence.
Qed.
End runtime.
