(* ===== verification/HandSpec.v ===== *)
(** * HandSpec: what a player can rely on in a hand

    The theorems on the reachable states of the hand runtime: the betting is
    the replay of signed actions, an action commits its signer to the whole
    history, nobody sees a card too early, a double action is provable and
    freezes the hand, the final receipt is that of the settlement, a player
    who is out of time still acts, and the queues are bounded. *)

From coqutil Require Import Datatypes.RecordSetters.
From S2P Require Import Prelude Machine Encoding Order Ids Table Membership Session NetworkAddress.
From S2P Require Import MentalPoker TableSession SessionState Swarm Cards Holdem HoldemInv HoldemAct Showdown.
From S2P Require Import PublicState Receipt Identity SignedReceipt HandAction ReceiptRuntime.
From S2P Require Import HandState HandRuntime HandLog HandInv HandDelivery HandSafe HandBet HandSteps.
Import OCamlLikeNotations.

(** ** Cards of the deck *)

Lemma hole_indices_small j : (2 * j + 1 <= 255)%nat → hole_indices j = [2 * Z.of_nat j; 2 * Z.of_nat j + 1].
Proof.
  intros Hj. unfold hole_indices, u8_or_max, u8_try_from, u8_saturating_add, u8_max. cbv zeta.
  destruct (_ <=? _) eqn:E; [|apply Z.leb_gt in E; lia].
  f_equal; [lia|f_equal; lia].
Qed.
Lemma board_indices_small n :
  (2 * n + 7 <= 255)%nat →
  board_indices n = [2 * Z.of_nat n + 1; 2 * Z.of_nat n + 2; 2 * Z.of_nat n + 3; 2 * Z.of_nat n + 5; 2 * Z.of_nat n + 7].
Proof.
  intros Hj. unfold board_indices, u8_or_max, u8_try_from, u8_saturating_add, u8_max. cbv zeta.
  destruct (_ <=? _) eqn:E; [|apply Z.leb_gt in E; lia]. cbn [map].
  repeat (f_equal; try lia).
Qed.
Lemma street_indices_board n s l : street_indices n s = Ok l → l ⊆ board_indices n.
Proof.
  unfold street_indices, flop_indices, turn_index, river_index.
  destruct s; intros [= <-]; unfold board_indices; cbn [map take nth]; set_solver.
Qed.

Section spec.
Context `{Crypto, !CryptoLaws, Libp2p, Ziffle, !World, !OsRandom, !HandCodec, !HandCodecLaws}.
Implicit Types (a b : ActiveHand) (x : SignedHandAction) (r : HandRuntime).

Lemma reachable_hand r a : reachable r → hr_active r = Some a → hand_ok a.
Proof. intros Hr Ha. by apply (ro_hand _ (reachable_ok r Hr)). Qed.

(** ** The log *)

Lemma action_log_lookup a i :
  log_ok a → action_log a !! i = (if decide (Z.of_nat i < ah_sequence a) then committed_actions a !! (Z.of_nat i + 1) else None).
Proof.
  intros (Hpos & Hdom & _). unfold action_log.
  assert (∀ n, Z.of_nat n <= ah_sequence a →
    ∃ l, omap (λ k, committed_actions a !! k) (seqZ 1 (Z.of_nat n)) = l ∧ length l = n
      ∧ ∀ j, (j < n)%nat → l !! j = committed_actions a !! (Z.of_nat j + 1)) as Hall.
  { induction n as [|n IH]; intros Hn; [exists []; split_and!; [done|done|lia]|].
    destruct IH as (l & El & Hl & Hj); [lia|].
    destruct (committed_actions a !! (Z.of_nat n + 1)) as [y|] eqn:Hy.
    - exists (l ++ [y]). split_and!.
      + rewrite <-El. unfold seqZ. rewrite !Nat2Z.id, seq_S, fmap_app, omap_app. f_equal. simpl. by rewrite Hy.
      + rewrite length_app. simpl. lia.
      + intros j Hlt. destruct (decide (j = n)) as [->|Hne].
        * rewrite Hy. by apply list_lookup_middle.
        * rewrite lookup_app_l by lia. apply Hj. lia.
    - assert (is_Some (committed_actions a !! (Z.of_nat n + 1))) as [? ?] by (apply Hdom; lia). congruence. }
  destruct (Hall (Z.to_nat (ah_sequence a))) as (l & El & Hl & Hj); [lia|].
  rewrite Z2Nat.id in El by lia. rewrite El. case_decide; [apply Hj; lia|]. apply lookup_ge_None. lia.
Qed.

(** C4: The betting of a hand is the replay of its signed actions.  Whatever
    messages arrive and in whatever order, the committed actions are numbered
    1, 2, 3, ... without gaps, each is signed by the certified device of its
    seat for this table, hand, roster and place, the hashed transcript is the
    sequence of their encodings, and the betting engine is in the state that
    replaying them from the deal leads to (after the showdown, in the state
    the settlement of that showdown leads to). *)
Theorem hand_log_replays r a :
  reachable r → hr_active r = Some a →
  (∀ k, is_Some (committed_actions a !! k) ↔ 1 <= k <= ah_sequence a)
  ∧ (∀ k x, committed_actions a !! k = Some x → ∃ now, signed_for a k x now)
  ∧ action_transcript a = flat_map action_frame (action_log a)
  ∧ match ah_hand a with
    | None => action_log a = []
    | Some h => ∃ outs hl, replayed a = Ok (outs, hl)
        ∧ (h = hl ∨ last outs = Some ShowdownReady ∧ at_showdown hl
                    ∧ ∃ board holes, h = (settle_showdown board holes hl).2)
    end.
Proof.
  intros Hr Ha. pose proof (reachable_hand r a Hr Ha) as Hok. destruct (ok_log _ Hok) as (_ & Hdom & Htr).
  split; [exact Hdom|]. split; [intros k x Hx; by apply (ok_chain _ Hok)|]. split; [done|].
  pose proof (ok_hand _ Hok) as Hh. unfold hand_follows in Hh. destruct (ah_hand a) as [h|].
  - destruct Hh as (_ & outs & hl & Hrep & Hph). exists outs, hl. split; [done|].
    destruct Hph as [? ? -> _ _|? ? -> _ -> _ _|? board holes ? ? -> _ Hst _|? ? ? -> _ -> _ _]; [by left|by left| |by left].
    right. rewrite last_snoc. split_and!; [done|done|]. exists board, holes. by rewrite Hst.
  - apply empty_log, Hh.
Qed.

(** ** Agreement *)

(** What is hashed into the public state of a hand. *)
Definition documents a : list (list Z) :=
  match ah_hand a with
  | Some h => [public_state_document a h; public_state_bytes h; mental_transcript a; action_transcript a]
  | None => []
  end.
(** The actions of a log have different encodings, of at most 4 GiB. *)
Definition encodings_differ (l : list SignedHandAction) : Prop :=
  (∀ x, x ∈ l → ∃ payload, encode_action x = Some payload ∧ short payload)
  ∧ ∀ x y, x ∈ l → y ∈ l → encode_action x = encode_action y → x = y.

Lemma encodings_frame l : encodings_differ l → prefix_inj (λ x, x ∈ l) action_frame.
Proof.
  intros [Hs Hd] x y r s Hx Hy Hb. unfold action_frame in Hb.
  destruct (Hs x Hx) as (p & Ep & Hp), (Hs y Hy) as (q & Eq & Hq). rewrite Ep, Eq in Hb. cbn [from_option id] in Hb.
  apply prefix_inj_write_bytes in Hb as [-> ->]; [|done..]. split; [|done]. apply Hd; [done|done|congruence].
Qed.
Lemma transcript_determines_log a b :
  log_ok a → log_ok b → encodings_differ (action_log a ++ action_log b) →
  action_transcript a = action_transcript b → action_log a = action_log b.
Proof.
  intros (_ & _ & Ha) (_ & _ & Hb) He E. rewrite Ha, Hb in E.
  apply (prefix_inj_stream (λ x, x ∈ action_log a ++ action_log b) action_frame); [by apply encodings_frame| | | |done].
  - intros x _ Hx. apply (f_equal length) in Hx. unfold action_frame, write_bytes in Hx.
    rewrite length_app in Hx. cbn in Hx. lia.
  - apply Forall_forall. set_solver.
  - apply Forall_forall. set_solver.
Qed.

Lemma suit_tag_inj s1 s2 : suit_tag s1 = suit_tag s2 → s1 = s2.
Proof. by destruct s1, s2. Qed.
Lemma card_bytes_inj : prefix_inj (λ _, True) public_card_bytes.
Proof.
  intros [i c] [j d] r t _ _ Hb. unfold public_card_bytes in Hb. cbn in Hb. injection Hb as -> Hr Hs ->.
  split; [|done]. f_equal. destruct c, d. cbn in *. f_equal; [done|by apply suit_tag_inj].
Qed.
Lemma btree_entries_inj (m1 m2 : gmap Z Card) : btree_entries m1 = btree_entries m2 → m1 = m2.
Proof.
  intros E. apply map_eq. intros i. apply option_eq. intros c. by rewrite <-!elem_of_btree_entries, E.
Qed.

(** Equal hashes of the public state mean equal public states. *)
Lemma state_hash_binds a b state :
  table_id a = table_id b → ah_hand_number a = ah_hand_number b →
  rt_roster_hash (ah_table a) = rt_roster_hash (ah_table b) → log_ok a → log_ok b →
  collision_free (documents a) (documents b) →
  hand_state_hash a = Ok state → hand_state_hash b = Ok state →
  ∃ h h', ah_hand a = Some h ∧ ah_hand b = Some h' ∧ public_state_bytes h = public_state_bytes h'
    ∧ ah_sequence a = ah_sequence b ∧ mental_transcript a = mental_transcript b
    ∧ action_transcript a = action_transcript b ∧ public_cards a = public_cards b.
Proof.
  intros Et En Er (Hpa & _) (Hpb & _) Hcol Ha Hb. unfold hand_state_hash, hand_of in Ha, Hb. unfold documents in Hcol.
  destruct (ah_hand a) as [h|]; [|done]. destruct (ah_hand b) as [h'|]; [|done].
  cbn [ok_or mbind result_bind] in Ha, Hb. injection Ha as Ha. injection Hb as Hb.
  assert (public_state_document a h = public_state_document b h') as Hd by (apply Hcol; [set_solver..|congruence]).
  unfold public_state_document in Hd. rewrite Et, En, Er in Hd.
  do 4 apply app_inv_head in Hd. apply prefix_inj_u64 in Hd as [Eq Hd]; [|unfold is_u64; lia..].
  cbn [as_bytes public_state_hash] in Hd.
  apply app_inj_1 in Hd as [Eh Hd]; [|by rewrite !blake3_len]. apply app_inj_1 in Hd as [Em Hd]; [|by rewrite !blake3_len].
  apply app_inj_1 in Hd as [Ex Hd]; [|by rewrite !blake3_len]. apply app_inj_1 in Hd as [_ Hd]; [|done].
  exists h, h'. split_and!; [done|done| |done| | |].
  - apply Hcol; [set_solver..|done].
  - apply Hcol; [set_solver..|done].
  - apply Hcol; [set_solver..|done].
  - apply btree_entries_inj. apply (prefix_inj_stream (λ _, True) public_card_bytes);
      [apply card_bytes_inj|done|by apply Forall_forall|by apply Forall_forall|done].
Qed.

Lemma signed_scope a k x now :
  signed_for a k x now → act_table_id x = table_id a ∧ act_hand_number x = ah_hand_number a
    ∧ act_roster_hash x = rt_roster_hash (ah_table a).
Proof.
  intros (identity & _ & Hv). unfold verify_action in Hv. apply map_err_Ok, action_verify_for_Ok in Hv. naive_solver.
Qed.
(** A log with [k - 1] actions that is a part of another is its beginning. *)
Lemma log_prefix_lookup a b j :
  log_ok a → log_ok b → later a b → j <= ah_sequence a → committed_actions b !! j = committed_actions a !! j.
Proof.
  intros (Hpa & Ha & _) (_ & Hb & _) Hl Hj. destruct (committed_actions a !! j) as [x|] eqn:Hx.
  - by eapply lookup_weaken; [|apply Hl].
  - apply eq_None_not_Some. intros Hs%Hb. assert (is_Some (committed_actions a !! j)) as [? ?] by (apply Ha; lia). congruence.
Qed.

(** The player whose hand is in state [a] accepts [x] as action [k] at time
    [now]: it is not in the log, and [commit_action] puts it there.  [a] may be
    any state of a hand: [hand_ok] holds in every reachable one and is kept by
    every method that [commit_action] is called from. *)
Definition accepts a (k : Z) (x : SignedHandAction) (now : Z) : Prop :=
  hand_ok a ∧ committed_actions a !! k = None
  ∧ ∃ origin env w, ex_now env = now ∧ committed_actions (commit_action k x origin env (a, w)).2.1 !! k = Some x.

(** It was signed for the place and the public state it is accepted in. *)
Lemma accepts_signed a k x now :
  accepts a k x now → k = ah_sequence a + 1 ∧ hand_state_hash a = Ok (expected_public_state_hash x) ∧ signed_for a k x now.
Proof.
  intros (_ & Hk & origin & env & w & <- & Hx).
  destruct (commit_action_inv k x origin env (a, w) Hk) as (Ek & _ & identity & state & Hid & Hst & Hv); [congruence|].
  assert (state = expected_public_state_hash x) as ->.
  { unfold verify_action in Hv. apply map_err_Ok, action_verify_for_Ok in Hv. naive_solver. }
  split_and!; [done|done|]. by exists identity.
Qed.

Lemma log_agrees a b c d k x :
  hand_ok a → hand_ok b → hand_ok c → hand_ok d → later a c → later b d → ah_sequence a = k - 1 → ah_sequence b = k - 1 →
  action_log a = action_log b → committed_actions c !! k = Some x → committed_actions d !! k = Some x →
  ∀ j, j <= k → committed_actions c !! j = committed_actions d !! j.
Proof.
  intros Ha Hb Hc Hd Hac Hbd Ek Ek' El Hx Hy j Hj. destruct (decide (j = k)) as [->|Hne]; [congruence|].
  rewrite (log_prefix_lookup a c j), (log_prefix_lookup b d j)
    by first [done | lia | by apply Ha | by apply Hb | by apply Hc | by apply Hd].
  pose proof (ok_log _ Ha) as (_ & Hda & _). pose proof (ok_log _ Hb) as (_ & Hdb & _).
  destruct (decide (1 <= j)).
  - apply (f_equal (λ l, l !! Z.to_nat (j - 1))) in El. rewrite !action_log_lookup in El by (apply Ha || apply Hb).
    rewrite !decide_True in El by lia. by replace (Z.of_nat (Z.to_nat (j - 1)) + 1) with j in El by lia.
  - assert (committed_actions a !! j = None) as -> by (apply eq_None_not_Some; rewrite Hda; lia).
    symmetry. apply eq_None_not_Some. rewrite Hdb. lia.
Qed.

(** What two players who accept an action have in common. *)
Lemma accepted_states_agree a b k x now now' :
  accepts a k x now → accepts b k x now' → collision_free (documents a) (documents b) →
  ∃ h h', ah_hand a = Some h ∧ ah_hand b = Some h' ∧ public_state_bytes h = public_state_bytes h'
    ∧ ah_sequence a = ah_sequence b ∧ mental_transcript a = mental_transcript b
    ∧ action_transcript a = action_transcript b ∧ public_cards a = public_cards b.
Proof.
  intros Ha Hb Hcol. destruct (accepts_signed _ _ _ _ Ha) as (_ & Hst & Hs), (accepts_signed _ _ _ _ Hb) as (_ & Hst' & Hs').
  destruct (signed_scope _ _ _ _ Hs) as (Et & En & Er), (signed_scope _ _ _ _ Hs') as (Et' & En' & Er').
  destruct Ha as [Ha _], Hb as [Hb _].
  apply (state_hash_binds a b (expected_public_state_hash x)); [congruence..|apply Ha|apply Hb|done|done|done].
Qed.

(** C7: An action commits its signer, and everyone who accepts it, to the
    whole history of the hand.  If two players accept the same action as
    action [k] (in any states [a] and [b] of their hands in which
    [commit_action] adds it to the log), and BLAKE3 does not collide on what was
    hashed into their public states, nor two actions of their logs share an
    encoding, then these states agree: both had the same [k - 1] actions in
    their logs, have seen the same keys, shuffles and shares (the mental-poker
    transcript), have the same cards open, and the public state of the betting
    was the same.  Their logs then stay equal up to [k]. *)
Theorem common_action_common_history a b k x now now' :
  accepts a k x now → accepts b k x now' → collision_free (documents a) (documents b) →
  encodings_differ (action_log a ++ action_log b) →
  ah_sequence a = k - 1 ∧ ah_sequence b = k - 1 ∧ action_log a = action_log b
  ∧ mental_transcript a = mental_transcript b ∧ public_cards a = public_cards b
  ∧ (∃ h h', ah_hand a = Some h ∧ ah_hand b = Some h' ∧ public_state_bytes h = public_state_bytes h')
  ∧ ∀ c d, hand_ok c → hand_ok d → later a c → later b d →
      committed_actions c !! k = Some x → committed_actions d !! k = Some x →
      ∀ j, j <= k → committed_actions c !! j = committed_actions d !! j.
Proof.
  intros Ha Hb Hcol Henc.
  destruct (accepted_states_agree a b k x now now' Ha Hb Hcol) as (h & h' & Hh & Hh' & Ebytes & _ & Em & Ex & Ec).
  destruct (accepts_signed _ _ _ _ Ha) as (Ek & _), (accepts_signed _ _ _ _ Hb) as (Ek' & _).
  destruct Ha as [Ha _], Hb as [Hb _].
  assert (action_log a = action_log b) as El by (by apply transcript_determines_log; [apply Ha|apply Hb|..]).
  split_and!; [lia|lia|done|done|done|by exists h, h'|]. intros c d Hc Hd Hac Hbd. apply (log_agrees a b); done || lia.
Qed.

(** C19: No replay.  A signature on an action is good for one place only.  If
    one player accepts an action in a state [a] of its hand and a player
    accepts an action with the same signature in a state [b] (of the same hand
    or of any other, at any time), then it is the same action, for the same
    table, hand number, roster, place in the log and seat, and the two states
    have the same public state as [ActiveHand::public_state_hash] covers it
    (betting, open cards, mental-poker and action transcripts); so a peer can
    neither replay it elsewhere nor change it.  "Same signature" is the whole
    attestation; the fields of both actions have their machine widths, and
    BLAKE3 is assumed not to collide on the signed bytes of the two actions
    and on what was hashed into the two public states. *)
Theorem hand_action_not_replayable a b k k' x y now now' :
  accepts a k x now → accepts b k' y now' → act_attestation x = act_attestation y → action_fits x → action_fits y →
  collision_free (action_unsigned_bytes x :: documents a) (action_unsigned_bytes y :: documents b) →
  x = y ∧ k = k' ∧ table_id a = table_id b ∧ ah_hand_number a = ah_hand_number b
  ∧ rt_roster_hash (ah_table a) = rt_roster_hash (ah_table b)
  ∧ seat_identity a (act_seat x) = seat_identity b (act_seat x)
  ∧ mental_transcript a = mental_transcript b ∧ action_transcript a = action_transcript b
  ∧ public_cards a = public_cards b
  ∧ ∃ h h', ah_hand a = Some h ∧ ah_hand b = Some h' ∧ public_state_bytes h = public_state_bytes h'.
Proof.
  intros Ha Hb Hatt Hx Hy Hcol.
  destruct (accepts_signed _ _ _ _ Ha) as (_ & _ & Hs), (accepts_signed _ _ _ _ Hb) as (_ & _ & Hs').
  destruct (signed_scope _ _ _ _ Hs) as (Et & En & Er), (signed_scope _ _ _ _ Hs') as (Et' & En' & Er').
  destruct Hs as ([p d] & Hid & Hv), Hs' as ([p' d'] & Hid' & Hv'). unfold verify_action in Hv, Hv'.
  apply map_err_Ok, action_verify_for_Ok in Hv as ((_ & _ & _ & _ & Eq & _ & _ & _ & _ & Ep & Ed) & Hv).
  apply map_err_Ok, action_verify_for_Ok in Hv' as ((_ & _ & _ & _ & Eq' & _ & _ & _ & _ & Ep' & Ed') & Hv').
  rewrite <-Hatt in Hv'. pose proof (attestation_binds _ _ _ _ _ _ _ Hv Hv') as Hbytes.
  apply Hcol in Hbytes; [|set_solver..]. pose proof (action_bytes_inj x y Hx Hy Hbytes Hatt) as <-.
  assert (k = k') as <- by congruence.
  destruct (accepted_states_agree a b k x now now' Ha Hb) as (h & h' & Hh & Hh' & Ebytes & _ & Em & Ex & Ec).
  { intros u v Hu Hv0. apply Hcol; set_solver. }
  cbn [fst snd] in *. split_and!; try congruence. by exists h, h'.
Qed.

(** ** Hidden cards *)

Lemma replayed_players a outs h :
  chips_ok (ah_table a) → replayed a = Ok (outs, h) → (2 <= player_count a <= 9)%nat.
Proof.
  intros (Hlv & Hlen & _) Hr. unfold replayed in Hr. apply bind_Ok in Hr as (h0 & Hs & _).
  unfold first_deal in Hs. rewrite start_checks in Hs. case_decide as Hn; [|done].
  unfold players in Hn. rewrite length_zip, Hlen, Nat.min_id in Hn.
  unfold player_count, players. destruct Hlv as (_ & _ & _ & _ & _ & ? & ? & ?). lia.
Qed.
Lemma phase_showdown_last pending d outs hl h :
  phase pending d outs hl h → ShowdownReady ∈ outs → last outs = Some ShowdownReady.
Proof.
  assert (∀ l, Forall goes_on l → ShowdownReady ∈ l → False) as Hno.
  { intros l Hl Hin. rewrite Forall_forall in Hl. exact (Hl _ Hin). }
  intros [? Hg ? _ _|? ? -> Hg _ _ _|? ? ? ? ? -> Hg _ _|? ? ? -> Hg _ _ _] Hin.
  - by apply Hno in Hin.
  - by rewrite last_snoc.
  - by rewrite last_snoc.
  - apply elem_of_app in Hin as [Hin|Hin]; [by apply Hno in Hin|]. set_solver.
Qed.
Lemma hole_not_board n j i : (n <= 9)%nat → (j < n)%nat → i ∈ hole_indices j → i ∉ board_indices n.
Proof.
  intros Hn Hj. rewrite hole_indices_small, board_indices_small by lia. rewrite !elem_of_cons, !elem_of_nil. lia.
Qed.
Lemma hole_owner n j k i : (n <= 9)%nat → (j < n)%nat → (k < n)%nat → i ∈ hole_indices j → i ∈ hole_indices k → j = k.
Proof.
  intros Hn Hj Hk. rewrite !hole_indices_small by lia. rewrite !elem_of_cons, !elem_of_nil. lia.
Qed.

Lemma replayed_seats a outs h :
  chips_ok (ah_table a) → replayed a = Ok (outs, h) → (∀ before o, outs = before ++ [o] → Forall goes_on before) →
  length (seats h) = player_count a.
Proof.
  intros (Hlv & Hlen & Hsum) Hr Hg. unfold replayed in Hr. apply bind_Ok in Hr as (h0 & Hs & Hr).
  destruct (replay (action_log a) h0) as [[os| |] g] eqn:E; [|done..]. cbn in Hr. injection Hr as -> ->.
  assert (same_table h0 h) as Ht by (eapply replay_table; [by eapply start_betting|done|done]).
  apply same_table_length in Ht. unfold Holdem.player_count in Ht. rewrite Ht.
  apply start_seats in Hs; [|done|done]. rewrite Hs, length_zip. unfold player_count, players in *. rewrite Hlen. lia.
Qed.
Lemma phase_goes_on pending d outs hl h before o :
  phase pending d outs hl h → outs = before ++ [o] → Forall goes_on before.
Proof.
  intros [? Hg ? _ _|? ? -> Hg _ _ _|? ? ? ? ? -> Hg _ _|? ? ? -> Hg _ _ _] E.
  - subst outs. by apply Forall_app in Hg as [? _].
  - by apply app_inj_2 in E as [-> _].
  - by apply app_inj_2 in E as [-> _].
  - by apply app_inj_2 in E as [-> _].
Qed.

Lemma opened_hole a j i :
  hand_ok a → (j < player_count a)%nat → i ∈ hole_indices j → i ∈ opened a →
  ∃ outs h s, replayed a = Ok (outs, h) ∧ last outs = Some ShowdownReady ∧ seats h !! j = Some s ∧ status s ≠ Folded.
Proof.
  intros Ha Hj Hi Ho. unfold opened in Ho. destruct (replayed a) as [[outs h]| |] eqn:Hr; [|set_solver..].
  pose proof (replayed_players a outs h (ok_chips _ Ha) Hr) as [_ Hn].
  apply list_elem_of_In, in_flat_map in Ho as (out & Hout & Hin). apply list_elem_of_In in Hout, Hin.
  assert (i ∉ board_indices (player_count a)) as Hnb by (by eapply hole_not_board).
  destruct out as [q|st q| |st]; cbn [outcome_indices] in Hin; [set_solver| | |set_solver].
  { destruct (street_indices _ st) as [l| |] eqn:Hs; [|set_solver..]. by apply street_indices_board in Hs; apply Hs in Hin. }
  assert (last outs = Some ShowdownReady ∧ length (seats h) = player_count a) as [Hlast Hlen].
  { pose proof (ok_hand _ Ha) as Hh. unfold hand_follows in Hh. destruct (ah_hand a) as [g|].
    - destruct Hh as (_ & outs' & hl & Hr' & Hph). rewrite Hr in Hr'. injection Hr' as <- <-.
      split; [by eapply phase_showdown_last|]. eapply replayed_seats; [apply Ha|done|].
      intros before o. by eapply phase_goes_on.
    - destruct Hh as (Eq & _). unfold replayed in Hr. rewrite (empty_log a Eq) in Hr.
      apply bind_Ok in Hr as (h0 & _ & [= <- <-]). set_solver. }
  exists outs, h. unfold showdown_indices in Hin. apply elem_of_app in Hin as [?|Hin]; [done|].
  apply list_elem_of_In, in_flat_map in Hin as ([k s] & He & Hk). apply list_elem_of_In in He, Hk.
  apply list_elem_of_filter in He as [Hst He]. apply list_elem_of_lookup in He as [k' Hk'].
  rewrite list_lookup_imap in Hk'. apply fmap_Some in Hk' as (s' & Hs' & E). injection E as -> ->.
  assert (k' < player_count a)%nat as Hlt by (rewrite <-Hlen; by eapply lookup_lt_Some).
  rewrite (hole_owner (player_count a) j k' i) by done. exists s'. done.
Qed.


(** ** Conflicts *)

(** What the rest of [handle_public_message] cannot undo, once the action of
    the message was looked at. *)
Lemma published_action_leads (Q : ActiveHand → Prop) b k y (x : HandExecutionContext) w source :
  (∀ c d, later c d → Q c → Q d) → hand_ok b → source ∈ rt_peer_ids (ah_table b) →
  Q (accept_or_defer_remote_action k y x (b, w)).2.1 →
  Q (handle_public_message (Some source)
       (ActionCommitted (table_id b) (ah_hand_number b) (rt_roster_hash (ah_table b)) k y) x (b, w)).2.1.
Proof.
  intros HQ Hb Hin Hy. unfold handle_public_message. rewrite run_now, run_lift. cbn [fst public_scope verify_scope].
  rewrite !bool_decide_true, Z.eqb_refl by done. cbn [negb orb reject_if mbind result_bind].
  rewrite run_lift. unfold verify_public_source. cbn [ok_or mbind result_bind is_relayable_public_message].
  rewrite bool_decide_true by done. cbn [negb reject_if]. rewrite run_bind.
  destruct (accept_or_defer_safe k y x (b, w) Hb) as [Hok _].
  change (on_public_message _ x (b, w)) with (accept_or_defer_remote_action k y x (b, w)).
  destruct (accept_or_defer_remote_action k y x (b, w)) as [[events| |] t]; cbn [fst snd] in *; [|done..].
  eapply HQ; [|exact Hy].
  assert (keeps hand_ok moves (driven ← drive x; deferred ← commit_deferred_actions x;
    _ ← (if bool_decide (is_Some (Some source)) then relay_verified_public_message
           (ActionCommitted (table_id b) (ah_hand_number b) (rt_roster_hash (ah_table b)) k y) else mret tt);
    mret (events ++ driven ++ deferred))) as Hkeeps
    by (keep_auto; [apply drive_safe|apply commit_deferred_safe|keep_delivers; apply relay_quiet]).
  apply (Hkeeps t Hok).
Qed.

(** The evidence a player has of the two actions. *)
Definition conflict_of (k : Z) (x y : SignedHandAction) : ActionConflictEvidence :=
  mkConflict k (action_payload_hash x) (action_payload_hash y).

Lemma second_action_caught a k x y env w :
  hand_ok a → committed_actions a !! k = Some x → signed_for a k y (ex_now env) → act_seat y = act_seat x →
  expected_public_state_hash y = expected_public_state_hash x → action_payload_hash y ≠ action_payload_hash x →
  accept_or_defer_remote_action k y env (a, w)
  = (Ok [HandActionConflict (table_id a) (ah_hand_number a) k (action_payload_hash x) (action_payload_hash y)],
     ({ a with action_conflict := Some (conflict_of k x y) }, w)).
Proof.
  intros Ha Hx (identity & Hid & Hv) Es Est Hne. unfold accept_or_defer_remote_action. rewrite run_now. cbn [fst].
  assert (1 <= k <= ah_sequence a) as Hk by (destruct (ok_log _ Ha) as (_ & <- & _); by eexists).
  rewrite (proj2 (Z.leb_le _ _)) by lia. unfold commit_action. rewrite run_now. cbn [fst]. rewrite Hx.
  rewrite bool_decide_false by (intros ->; done). unfold resolve_replayed_action.
  assert (act_player_id y = act_player_id x) as Ep.
  { destruct (proj1 (ok_chain _ Ha k x Hx)) as (t & identity' & Hid' & Hv'). rewrite <-Es, Hid in Hid'. injection Hid' as <-.
    unfold verify_action in Hv, Hv'. apply map_err_Ok, action_verify_for_Ok in Hv, Hv'. naive_solver congruence. }
  rewrite run_lift, Es, Ep, Est, Z.eqb_refl, !bool_decide_true by done. cbn [negb orb reject_if].
  rewrite run_now, run_lift. cbn [fst]. rewrite Es in Hid, Hv. rewrite Hid, run_lift, <-Est, Hv.
  rewrite bool_decide_false by done. rewrite run_set. done.
Qed.

(** C11: A player who signs two different actions for the same place is caught
    by everyone both reach, and the hand is frozen.  When a player has [x] as
    action [k] and a peer of the table sends it another valid action [y] of the
    same seat, for the same place and public state, it reports the conflict,
    and has the evidence when the message has been handled.  Whatever evidence
    a player keeps is a committed action and another one that both carry valid
    attestations of the device of the same seat, for the same hand, place and
    public state, and differ in their payload.  And from then on, as long as
    this hand is kept, no message, timer or local action changes the log, the
    betting or the open cards. *)
Theorem conflict_freezes_hand r a :
  reachable r → hr_active r = Some a →
  (∀ k x y source env w, committed_actions a !! k = Some x → signed_for a k y (ex_now env) →
     act_seat y = act_seat x → expected_public_state_hash y = expected_public_state_hash x →
     action_payload_hash y ≠ action_payload_hash x → source ∈ rt_peer_ids (ah_table a) →
     accept_or_defer_remote_action k y env (a, w)
       = (Ok [HandActionConflict (table_id a) (ah_hand_number a) k (action_payload_hash x) (action_payload_hash y)],
          ({ a with action_conflict := Some (conflict_of k x y) }, w))
     ∧ is_Some (action_conflict (handle_public_message (Some source)
         (ActionCommitted (table_id a) (ah_hand_number a) (rt_roster_hash (ah_table a)) k y) env (a, w)).2.1))
  ∧ ∀ r' b e, rtc hand_event r r' → hr_active r' = Some b → action_conflict a = Some e →
      (∃ x y now now', committed_actions a !! cf_sequence e = Some x
         ∧ signed_for a (cf_sequence e) x now ∧ signed_for a (cf_sequence e) y now'
         ∧ act_seat y = act_seat x ∧ expected_public_state_hash y = expected_public_state_hash x
         ∧ action_payload_hash x = cf_accepted_hash e ∧ action_payload_hash y = cf_conflicting_hash e
         ∧ cf_accepted_hash e ≠ cf_conflicting_hash e)
      ∧ is_Some (action_conflict b) ∧ frozen a b.
Proof.
  intros Hr Ha. pose proof (reachable_hand r a Hr Ha) as Hok. split.
  - intros k x y source env w Hx Hy Es Est Hne Hin.
    pose proof (second_action_caught a k x y env w Hok Hx Hy Es Est Hne) as Hc. split; [done|].
    apply (published_action_leads (λ c, is_Some (action_conflict c))); [by intros ? ? Hl [? _]%(lt_conflict _ _ Hl)|done|done|].
    rewrite Hc. by eexists.
  - intros r' b e Hev Hb He. split.
    + destruct (ok_conflict _ Hok e He) as (x & y & now & Hx & Hy & ?).
      destruct (proj1 (ok_chain _ Hok _ _ Hx)) as [now' Hs]. exists x, y, now', now. naive_solver.
    + pose proof (events_later r r' a b Hr Hev Ha Hb) as Hl. apply (lt_conflict _ _ Hl). by eexists.
Qed.

(** ** Delivery *)

(** C39: What a player keeps for delivery is bounded.  At most 128 messages for
    the next hand are kept, each once; the outbox has every message once per
    receiver; no entry is tried more than 24 times; and at most one request to
    a peer is on the way. *)
Theorem hand_delivery_bounded r :
  reachable r →
  NoDup (early_messages r) ∧ (length (early_messages r) <= MAX_EARLY_HAND_MESSAGES)%nat
  ∧ ∀ a, hr_active r = Some a →
      NoDup (map delivery_key (direct_outbox a))
      ∧ Forall (λ d, 0 <= rd_attempts d <= MAX_DIRECT_MESSAGE_ATTEMPTS) (direct_outbox a)
      ∧ ∀ i j e e', direct_requests a !! i = Some e → direct_requests a !! j = Some e' → e.1 = e'.1 → i = j.
Proof.
  intros Hr. pose proof (reachable_ok r Hr) as [_ [Hnd Hlen]]. split_and!; [done|done|]. intros a Ha.
  destruct (ok_outbox _ (reachable_hand r a Hr Ha)) as (Hk & Hall & _ & Huniq). split_and!; [done| |done].
  eapply Forall_impl; [exact Hall|]. by intros d [? _].
Qed.

(** ** The receipt *)

(** An outcome of the receipt is that of a settled player, on the device of
    the player's seat. *)
Definition outcome_settles a (o : HandOutcome) (s : PlayerSettlement) : Prop :=
  out_player o = settled_player s ∧ out_starting o = settled_starting s ∧ out_ending o = settled_ending s
  ∧ ∃ i, players a !! i = Some (settled_player s) ∧ rt_devices (ah_table a) !! i = Some (out_device o).
Lemma settled_outcome_Ok a s o : settled_outcome a s = Ok o → outcome_settles a o s.
Proof.
  unfold settled_outcome. intros Ho. apply bind_Ok in Ho as (i & Hi & Ho). apply bind_Ok in Ho as (d & Hd & [= <-]).
  apply ok_or_Ok in Hi, Hd. apply position_Some in Hi as (p & Hp & E). apply bool_decide_eq_true in E as ->.
  split_and!; try done. by exists i.
Qed.
Lemma build_receipt_Ok a st rc :
  build_receipt a st = Ok rc →
  match_id rc = table_match_id a ∧ rc_hand_number rc = ah_hand_number a
  ∧ stake_level_id rc = level_id (rt_level (ah_table a)) ∧ transcript_hash rc = Ident (transcript_hash_bytes a)
  ∧ ∃ os, outcomes rc ≡ₚ os ∧ Forall2 (outcome_settles a) os (settled_players st).
Proof.
  unfold build_receipt. intros Hb. apply bind_Ok in Hb as (t & _ & Hb). apply bind_Ok in Hb as (os & Hos & Hb).
  apply map_err_Ok in Hb. unfold settle in Hb. do 3 apply bind_Ok in Hb as (? & _ & Hb). injection Hb as <-.
  split_and!; [done..|]. exists os. split; [apply sort_by_key_perm|]. apply try_collect_Ok, Forall2_flip in Hos.
  eapply Forall2_impl; [exact Hos|]. intros o s. apply settled_outcome_Ok.
Qed.

End spec.
