(* ===== verification/HandLive.v ===== *)
(** * HandLive: a hand moves on

    What the runtime does succeeds when it should: a legal action of the local
    player is signed, logged, and logged by the peers that see the same hand; a
    player who is out of time still acts. *)

From coqutil Require Import Datatypes.RecordSetters.
From S2P Require Import Prelude Machine Encoding Order Ids Table Membership Session NetworkAddress.
From S2P Require Import MentalPoker TableSession SessionState Swarm Cards Holdem HoldemInv HoldemAct Showdown.
From S2P Require Import PublicState Receipt Identity SignedReceipt HandAction ReceiptRuntime.
From S2P Require Import HandState HandRuntime HandLog HandInv HandDelivery HandSafe HandBet HandSteps HandSpec.
Import OCamlLikeNotations.

(** The player whose turn it is may take the action. *)
Definition may_take (h : HoldemHand) (p : PlayerId) (action : PlayerAction) : Prop :=
  ∃ i s, next_to_act h = Some i ∧ seats h !! i = Some s ∧ seat_player s = p ∧ legal h s action.
#[export] Instance may_take_dec h p action : Decision (may_take h p action).
Proof.
  destruct (next_to_act h) as [i|] eqn:Hi; [|right; intros (? & ? & ? & _); congruence].
  destruct (seats h !! i) as [s|] eqn:Hs; [|right; intros (? & ? & ? & ? & _); congruence].
  destruct (decide (seat_player s = p ∧ legal h s action)) as [[]|Hn]; [left; by exists i, s|].
  right. intros (? & ? & ? & ? & ?). apply Hn. naive_solver congruence.
Defined.

Lemma may_take_next h p action : may_take h p action → next_player h = Ok (Some p).
Proof. intros (i & s & Hi & Hs & <- & _). unfold next_player. by rewrite Hi, Hs. Qed.
Lemma may_take_act h p action : betting h → may_take h p action → is_ok (act p action h).1 = true.
Proof.
  intros Hb (i & s & Hi & Hs & Hp & Hl).
  destruct (act_spec h p action Hb) as [j t Hj Ht Hne|j t e Hj Ht ? Hnl _|]; [..|done]; by simplify_eq.
Qed.
(** Folding is always allowed, checking when nothing is to be called. *)
Lemma timeout_may_take h p to_call :
  betting h → next_player h = Ok (Some p) → amount_to_call h p = Ok to_call → may_take h p (timeout_action to_call).
Proof.
  intros Hb Hn Hc. unfold next_player in Hn. destruct (next_to_act h) as [i|] eqn:Hi; [|done].
  destruct (seats h !! i) as [s|] eqn:Hs; [|done]. cbn in Hn. injection Hn as Hp. exists i, s. split_and!; [done..|].
  unfold timeout_action. destruct (to_call =? Chips_ZERO) eqn:Hz; [|done]. apply Z.eqb_eq in Hz. cbn [legal].
  unfold amount_to_call in Hc. apply bind_Ok in Hc as (t & Ht%ok_or_Ok & Hc). injection Hc as Hc.
  apply find_first_Some in Ht as [Hin Htp]. apply bool_decide_eq_true in Htp.
  pose proof (bt_core _ Hb) as Hcore.
  assert (t = s) as ->.
  { apply (NoDup_key_eq seat_player (seats h)); [apply Hcore|done|by eapply list_elem_of_lookup_2|congruence]. }
  assert (street_committed s <= current_bet h).
  { pose proof (hc_seats _ Hcore) as Hall. rewrite Forall_forall in Hall.
    destruct (Hall s Hin) as (_ & _ & _ & _ & ? & _). done. }
  unfold u64_saturating_sub, Chips_ZERO in *. lia.
Qed.

Section live.
Context `{Crypto, !CryptoLaws, Libp2p, Ziffle, !World, !OsRandom, !HandCodec, !HandCodecLaws}.
Implicit Types (a b : ActiveHand) (x : HandExecutionContext) (r : HandRuntime).

(** The execution context is that of the device of the local seat, with a
    certificate that is valid now. *)
Definition own_device a x : Prop :=
  players a !! local_seat (ah_table a) = Some (cert_player_id (ex_certificate x))
  ∧ rt_devices (ah_table a) !! local_seat (ah_table a) = Some (cert_device (ex_certificate x))
  ∧ cert_device (ex_certificate x) = device_public_key (ex_device x)
  ∧ verify_at (ex_certificate x) (ex_now x) = Ok tt.
Definition local_number a : Z := Z.of_nat (S (local_seat (ah_table a))).

Lemma undisturbed_true a :
  undisturbed a = true →
  all_players_ready a = true ∧ pending_reveal a = None ∧ action_conflict a = None ∧ disconnected_peers a = ∅
  ∧ settled a = false.
Proof.
  unfold undisturbed. intros Hu. repeat (apply andb_true_iff in Hu as [Hu ?]).
  repeat match goal with E : bool_decide _ = true |- _ => apply bool_decide_eq_true in E end.
  split_and!; try done. by apply negb_true_iff.
Qed.
Lemma undisturbed_betting a h : hand_ok a → undisturbed a = true → ah_hand a = Some h → next_to_act h ≠ None → betting h.
Proof.
  intros Ha (_ & Hp & _ & _ & Hd)%undisturbed_true Eh Hn. pose proof (ok_hand _ Ha) as Hh. unfold hand_follows in Hh.
  rewrite Eh, Hp, Hd in Hh. destruct Hh as (_ & outs & hl & _ & Hph).
  destruct Hph as [? ? -> _ _|? Hsd ? ? -> _ _|? board holes ? Hsd _ _ Hst _|??????]; [done| | |done].
  - by destruct (sd_closed _ Hsd).
  - pose proof (settle_showdown_turn board holes hl) as Ht. rewrite Hst in Ht. cbn in Ht. rewrite Ht in Hn.
    by destruct (sd_closed _ Hsd).
Qed.
Lemma may_take_waiting h p action : may_take h p action → next_to_act h ≠ None.
Proof. intros (i & s & -> & _). done. Qed.

(** The seat number of the local player fits, as a hand has at most nine. *)
Lemma local_seat_fits a h p :
  hand_ok a → ah_hand a = Some h → players a !! local_seat (ah_table a) = Some p →
  local_seat_u8 a = Ok (local_number a) ∧ local_number a ≠ 0 ∧ seat_index (local_number a) = Ok (local_seat (ah_table a)).
Proof.
  intros Ha Eh Hp. pose proof (ok_hand _ Ha) as Hh. unfold hand_follows in Hh. rewrite Eh in Hh.
  destruct Hh as (_ & outs & hl & Hr & _). destruct (replayed_players a outs hl (ok_chips _ Ha) Hr) as [_ Hn].
  apply lookup_lt_Some in Hp. unfold player_count in Hn. unfold local_number. split_and!; [|lia|].
  - unfold local_seat_u8, u8_try_from. destruct (_ <=? _) eqn:E; [done|]. unfold u8_max in E. apply Z.leb_gt in E. lia.
  - unfold seat_index. destruct (_ =? 0) eqn:E; [apply Z.eqb_eq in E; lia|]. f_equal. lia.
Qed.

(** What the local player signs is accepted at every seat's check of it. *)
Lemma local_action_signed a x h action k state :
  hand_ok a → ah_hand a = Some h → own_device a x →
  ∃ y, action_issue (table_id a) (ah_hand_number a) (rt_roster_hash (ah_table a)) k state (local_number a)
         action (ex_now x) (ex_device x) (ex_certificate x) = Ok y
    ∧ act_action y = action ∧ act_seat y = local_number a ∧ expected_public_state_hash y = state
    ∧ ∀ now, verify_at (ex_certificate x) now = Ok tt →
        action_verify_for y (table_id a) (ah_hand_number a) (rt_roster_hash (ah_table a)) k state (local_number a)
          (cert_player_id (ex_certificate x)) (cert_device (ex_certificate x)) now = Ok tt.
Proof.
  intros Ha Eh (Hp & Hd & Hk & Hv). destruct (local_seat_fits a h _ Ha Eh Hp) as (_ & Hne & _).
  pose proof (λ now Hnow, proj2 (hand_action_roundtrip (table_id a) (ah_hand_number a) (rt_roster_hash (ah_table a))
    k state (local_number a) action (ex_now x) (ex_device x) (ex_certificate x) now Hv Hk Hnow) Hne) as Hissue.
  destruct (Hissue (ex_now x) Hv) as (y & Ey & Eact & Hy). exists y. split_and!; [done|done|..].
  - by apply action_verify_for_Ok in Hy as ((_ & _ & _ & _ & _ & _ & ? & _) & _).
  - by apply action_verify_for_Ok in Hy as ((_ & _ & _ & _ & _ & ? & _) & _).
  - intros now Hnow. destruct (Hissue now Hnow) as (z & Ez & _ & Hz). rewrite Ey in Ez. by injection Ez as <-.
Qed.

Lemma seat_identity_at a seat i p d :
  seat_index seat = Ok i → players a !! i = Some p → rt_devices (ah_table a) !! i = Some d →
  seat_identity a seat = Ok (p, d).
Proof. intros Hs Hp Hd. unfold seat_identity. by rewrite Hs; cbn; rewrite Hp; cbn; rewrite Hd. Qed.
Lemma hand_state_hash_is a h : ah_hand a = Some h → hand_state_hash a = Ok (blake3 (public_state_document a h)).
Proof. intros E. unfold hand_state_hash, hand_of. by rewrite E. Qed.

Lemma commit_local_commits a h action x w y :
  let k := ah_sequence a + 1 in
  hand_ok a → own_device a x → actions_fit (ah_table a) (ah_hand_number a) x → action_amount_fits action →
  undisturbed a = true → k <= u64_max → ah_hand a = Some h → may_take h (cert_player_id (ex_certificate x)) action →
  action_issue (table_id a) (ah_hand_number a) (rt_roster_hash (ah_table a)) k (blake3 (public_state_document a h))
    (local_number a) action (ex_now x) (ex_device x) (ex_certificate x) = Ok y →
  committed_actions (commit_local_action action x (a, w)).2.1 !! k = Some y.
Proof.
  intros k Ha Hown Hfit Ham Hu Hmax Eh Hmay Hy. pose proof Hown as (Hp & Hd & Hk & Hv).
  destruct (undisturbed_true a Hu) as (Hrdy & Hpr & Hcf & Hdc & Hset).
  destruct (local_seat_fits a h _ Ha Eh Hp) as (Hu8 & Hne & Hidx).
  destruct (local_action_signed a x h action k (blake3 (public_state_document a h)) Ha Eh Hown)
    as (y' & Ey & Eact & Eseat & Est & Hver). rewrite Hy in Ey. injection Ey as <-.
  unfold commit_local_action. rewrite run_now. cbn [fst].
  rewrite run_lift, Hdc, bool_decide_true by done. cbn [negb reject_if].
  rewrite run_lift, Hcf, bool_decide_false by (by intros []). cbn [reject_if].
  rewrite run_lift, Hpr, Hset, bool_decide_false by (by intros []). cbn [orb reject_if].
  rewrite run_lift, Hrdy. cbn [negb reject_if]. rewrite run_lift. unfold hand_of at 1. rewrite Eh. cbn [ok_or].
  rewrite run_lift, (may_take_next _ _ _ Hmay). cbn [map_err]. rewrite run_lift. unfold local_player. rewrite Hp. cbn [expect].
  rewrite run_lift, bool_decide_true by done. cbn [negb reject_if]. rewrite run_lift. unfold u64_checked_add, checked_add_w.
  fold k. rewrite (proj2 (Z.leb_le _ _) Hmax). cbn [ok_or]. rewrite run_lift, (hand_state_hash_is a h Eh).
  rewrite run_lift, Hu8, run_lift, Hy. cbn [map_err].
  apply (commit_action_appends y Local x (a, w) (cert_player_id (ex_certificate x), cert_device (ex_certificate x))
    (blake3 (public_state_document a h)) h); try done.
  - cbn [fst]. rewrite Eseat. by eapply seat_identity_at.
  - by apply hand_state_hash_is.
  - cbn [fst]. unfold verify_action. rewrite Eseat. cbn [fst snd]. fold k. by rewrite (Hver _ Hv).
  - cbn [fst]. rewrite Eact. apply may_take_act; [|done].
    apply (undisturbed_betting a h); [done|done|done|by eapply may_take_waiting].
  - intros _. apply (Hfit k (public_state_document a h) (local_number a) action y); [| |done|done].
    + destruct (ok_log _ Ha) as (? & _). unfold is_u64. subst k. lia.
    + unfold local_seat_u8, u8_try_from in Hu8. destruct (_ <=? _) eqn:E in Hu8; [|done]. apply Z.leb_le in E.
      unfold local_number, is_u8, u8_max in *. lia.
Qed.
(** A peer of the table in the same state of the hand. *)
Record same_view a b : Prop := {
  sv_scope : table_id b = table_id a ∧ ah_hand_number b = ah_hand_number a
    ∧ rt_roster_hash (ah_table b) = rt_roster_hash (ah_table a);
  sv_seats : players b = players a ∧ rt_devices (ah_table b) = rt_devices (ah_table a);
  sv_state : ah_sequence b = ah_sequence a ∧ ah_hand b = ah_hand a ∧ hand_state_hash b = hand_state_hash a;
  sv_open : pending_reveal b = None ∧ action_conflict b = None ∧ settled b = false;
}.

Lemma remote_action_commits a b h x x' w y :
  let k := ah_sequence a + 1 in
  hand_ok a → hand_ok b → own_device a x → same_view a b → undisturbed a = true → k <= u64_max → ah_hand a = Some h →
  may_take h (cert_player_id (ex_certificate x)) (act_action y) →
  act_seat y = local_number a → expected_public_state_hash y = blake3 (public_state_document a h) →
  action_verify_for y (table_id a) (ah_hand_number a) (rt_roster_hash (ah_table a)) k
    (blake3 (public_state_document a h)) (local_number a) (cert_player_id (ex_certificate x))
    (cert_device (ex_certificate x)) (ex_now x') = Ok tt →
  committed_actions (accept_or_defer_remote_action k y x' (b, w)).2.1 !! k = Some y.
Proof.
  intros k Ha Hb (Hp & Hd & _) [(Et & En & Er) [Epl Edv] (Eq & Ehd & Est) (Hpr & Hcf & Hset)] Hu Hmax Eh Hmay Hseat Hhash Hv.
  destruct (local_seat_fits a h _ Ha Eh Hp) as (_ & _ & Hidx).
  rewrite (hand_state_hash_is a h Eh) in Est. rewrite Eh in Ehd.
  set (identity := (cert_player_id (ex_certificate x), cert_device (ex_certificate x))).
  assert (seat_identity b (act_seat y) = Ok identity) as Hid.
  { rewrite Hseat. eapply seat_identity_at; [done|by rewrite Epl|by rewrite Edv]. }
  assert (verify_action b y k (expected_public_state_hash y) (act_seat y) identity (ex_now x') = Ok tt) as Hver.
  { unfold verify_action. cbn [identity fst snd]. by rewrite Et, En, Er, Hseat, Hhash, Hv. }
  unfold accept_or_defer_remote_action. rewrite run_now. cbn [fst].
  rewrite (proj2 (Z.leb_gt _ _)) by (subst k; lia). rewrite run_lift. unfold u64_saturating_add. rewrite Eq. fold k.
  rewrite Z.min_r, Z.eqb_refl by done. cbn [negb reject_if]. rewrite run_lift, Hid, run_lift, Hver, run_lift.
  unfold hand_of. rewrite Ehd. cbn [ok_or]. rewrite run_lift, (may_take_next _ _ _ Hmay). cbn [map_err].
  rewrite run_lift, bool_decide_true by done. cbn [negb reject_if]. rewrite run_lift, Est.
  rewrite Hpr, bool_decide_false, bool_decide_true by (done || by intros []). cbn [orb negb]. subst k. rewrite <-Eq in *.
  apply (commit_action_appends y Remote x' (b, w) identity (blake3 (public_state_document a h)) h); try done.
  - by rewrite Hhash in Hver.
  - cbn [fst]. apply may_take_act; [|done]. apply (undisturbed_betting a h); [done|done|done|by eapply may_take_waiting].
Qed.

Lemma published_action_commits b k y x w source :
  hand_ok b → source ∈ rt_peer_ids (ah_table b) →
  committed_actions (accept_or_defer_remote_action k y x (b, w)).2.1 !! k = Some y →
  committed_actions (handle_public_message (Some source)
    (ActionCommitted (table_id b) (ah_hand_number b) (rt_roster_hash (ah_table b)) k y) x (b, w)).2.1 !! k = Some y.
Proof.
  intros Hb Hin. apply (published_action_leads (λ c, committed_actions c !! k = Some y)); [|done|done].
  intros c d Hl Hc. eapply lookup_weaken; [exact Hc|]. by apply lt_log.
Qed.

(** C12: At an undisturbed table a legal action of the player whose turn it is
    gets through.  Let everybody be ready and connected, no reveal be under
    way, no conflict be recorded and the hand not be settled ([undisturbed]),
    and fewer than 2^64 - 1 actions be committed.  With the device of the seat
    and a valid certificate, [commit_local_action] signs the action and puts it
    in the log, and every player at the table who sees the hand in the same
    state ([same_view], so without a reveal, conflict or settlement of its own)
    logs the same signed action when the message arrives, from whichever peer
    it comes, as long as the certificate is valid then. *)
Theorem local_action_spreads r r' a b h action x x' w w' source :
  reachable r → reachable r' → hr_active r = Some a → hr_active r' = Some b →
  own_device a x → actions_fit (ah_table a) (ah_hand_number a) x → action_amount_fits action →
  undisturbed a = true → ah_sequence a < u64_max → ah_hand a = Some h →
  may_take h (cert_player_id (ex_certificate x)) action →
  same_view a b → source ∈ rt_peer_ids (ah_table b) → verify_at (ex_certificate x) (ex_now x') = Ok tt →
  let k := ah_sequence a + 1 in
  ∃ y, act_action y = action
    ∧ committed_actions (commit_local_action action x (a, w)).2.1 !! k = Some y
    ∧ committed_actions (handle_public_message (Some source)
        (ActionCommitted (table_id a) (ah_hand_number a) (rt_roster_hash (ah_table a)) k y) x' (b, w')).2.1 !! k = Some y.
Proof.
  intros Hr Hr' Ea Eb Hown Hfit Ham Hu Hlt Eh Hmay Hview Hin Hv k.
  pose proof (reachable_hand r a Hr Ea) as Ha. pose proof (reachable_hand r' b Hr' Eb) as Hb.
  destruct (local_action_signed a x h action k (blake3 (public_state_document a h)) Ha Eh Hown)
    as (y & Ey & Eact & Eseat & Est & Hver).
  exists y. split; [done|]. split; [apply (commit_local_commits a h action); done || lia|].
  destruct (sv_scope _ _ Hview) as (<- & <- & <-). apply published_action_commits; [done|done|].
  apply (remote_action_commits a b h x x' w' y); try done; [lia|by rewrite Eact|by apply Hver].
Qed.

(** A player who is out of time, or wants to leave, still acts.  Whenever
    [automatic_local_action] asks for an action it is a fold or a check that is
    allowed, and [commit_local_action], which the timer calls with it, puts it
    in the log; so a silent player does not stop the hand. *)
Theorem timeout_acts r a x w action :
  reachable r → hr_active r = Some a → own_device a x → actions_fit (ah_table a) (ah_hand_number a) x →
  ah_sequence a < u64_max → automatic_local_action a (ex_now x) = Ok (Some action) →
  (action = Fold ∨ action = Check)
  ∧ ∃ y, act_action y = action ∧ act_seat y = local_number a
      ∧ committed_actions (commit_local_action action x (a, w)).2.1 !! (ah_sequence a + 1) = Some y.
Proof.
  intros Hr Ea Hown Hfit Hlt Hauto. pose proof (reachable_hand r a Hr Ea) as Ha.
  pose proof (timeout_fits _ _ _ Hauto) as Ham. unfold automatic_local_action in Hauto.
  destruct (_ || _) eqn:Hdist in Hauto; [done|].
  assert (undisturbed a = true) as Hu.
  { unfold undisturbed. apply orb_false_elim in Hdist as [[[[E1 E2]%orb_false_elim E3]%orb_false_elim E4]%orb_false_elim E5].
    apply negb_false_iff in E1, E5. apply bool_decide_eq_false, eq_None_not_Some in E2, E3.
    by rewrite E1, E4, E5, !bool_decide_true. }
  apply bind_Ok in Hauto as (h & Eh%ok_or_Ok & Hauto). apply bind_Ok in Hauto as (next & Hn%map_err_Ok & Hauto).
  apply bind_Ok in Hauto as (p & Hp & Hauto). pose proof Hown as (Hown' & _). unfold local_player in Hp. rewrite Hown' in Hp.
  injection Hp as <-. case_bool_decide as Hnext; [|done]. cbn [negb] in Hauto. subst next.
  assert (betting h) as Hb.
  { apply (undisturbed_betting a h); [done|done|done|]. intros E. unfold next_player in Hn. by rewrite E in Hn. }
  assert (may_take h (cert_player_id (ex_certificate x)) action ∧ (action = Fold ∨ action = Check)) as [Hmay Hfc].
  { destruct (safe_leave_requested a).
    - injection Hauto as <-. split; [|by left]. unfold next_player in Hn. destruct (next_to_act h) as [i|] eqn:Hi; [|done].
      destruct (seats h !! i) as [s|] eqn:Hs; [|done]. injection Hn as Hs'. exists i, s. by split_and!.
    - destruct (turn_started_at a); [|done]. case_match; [done|]. apply bind_Ok in Hauto as (c & Hc%map_err_Ok & [= <-]).
      split; [by apply timeout_may_take|]. unfold timeout_action. case_match; [by right|by left]. }
  split; [done|].
  destruct (local_action_signed a x h action (ah_sequence a + 1) (blake3 (public_state_document a h)) Ha Eh Hown)
    as (y & Ey & Eact & Eseat & _). exists y. split_and!; [done..|].
  apply (commit_local_commits a h action); done || lia.
Qed.
End live.
