(* ===== verification/HandExample.v ===== *)
(** * HandExample: a hand of two players

    Two runtimes play a hand against each other over a toy network: the
    theorems of HandSpec, HandLive and HandLoops are applied to the states
    they go through. *)

From coqutil Require Import Datatypes.RecordSetters.
From S2P Require Import Prelude Machine Encoding Order Ids Table Membership Session NetworkAddress.
From S2P Require Import MentalPoker TableSession SessionState Swarm Cards Holdem HoldemInv HoldemAct Showdown.
From S2P Require Import PublicState Receipt Identity SignedReceipt HandAction ReceiptRuntime.
From S2P Require Import HandState HandRuntime HandLog HandInv HandDelivery HandSafe HandBet HandSteps.
From S2P Require Import HandSpec HandLive HandLoops.
Import OCamlLikeNotations.

(** ** The toy network *)

#[local] Existing Instance toy_crypto.
#[local] Existing Instance toy_crypto_laws.
#[local] Existing Instance toy_libp2p.
#[local] Existing Instance toy_ziffle.

(** The world of a node: its peer id and the next random number.  Nobody is
    connected, so that what is to be sent stays in the outbox. *)
#[local] Instance node_world : World := {|
  world := Z * Z;
  local_peer_id := fst;
  is_connected := λ _ _, false;
  room_gossip_enabled := λ _, false;
  pool_gossip_enabled := λ _, false;
  add_peer_address := λ _ _ w, w;
  add_explicit_peer := λ _ w, w;
  remove_explicit_peer := λ _ w, w;
  retain_peer_connection := λ _ w, w;
  release_peer_connection := λ _ w, w;
  dial := λ _ _ w, (false, w);
  send_request := λ _ _ w, (w.2, (w.1, w.2 + 1));
  gossip_publish := λ _ _ w, (false, w);
  gossip_subscribe := λ _ w, (true, w);
  gossip_unsubscribe := λ _ w, w;
  fill_bytes := λ n w, (replicate n w.2, w);
  hex_encode := λ _, "table";
|}.
#[local] Instance node_random : OsRandom := {|
  os_rng A m w := let '(v, r) := m w.2 in (v, (w.1, r));
|}.
#[local] Instance node_codec : HandCodec := {|
  encode_public := λ _, Some [];
  decode_public := λ _, None;
  encode_action := λ x, Some (action_unsigned_bytes x);
|}.
#[local] Instance node_codec_laws : HandCodecLaws.
Proof. split. intros x. by eexists. Qed.

(** ** Two players *)

Definition root_of (seat : nat) : Z := Z.of_nat seat + 1.
Definition device_of (seat : nat) : Z := Z.of_nat seat + 3.
Definition peer_of (seat : nat) : Z := Z.of_nat seat + 11.
Definition two_table (seat : nat) : ReadyTable :=
  mkReadyTable (replicate 32 9) (replicate 32 8) 1 example_level seat 0 [1; 4]
    [root_player_id [root_of 0]; root_player_id [root_of 1]]
    [device_public_key [device_of 0]; device_public_key [device_of 1]]
    [peer_of 0; peer_of 1] [[]; []] [800000; 900000].
Definition at_time (seat : nat) (now : Z) : HandExecutionContext :=
  mkExecution now [device_of seat] (toy_cert (root_of seat) (device_of seat)).
Definition node (seat : nat) : @world toy_libp2p node_world := (peer_of seat, 100 * Z.of_nat (S seat)).

Definition begin (seat : nat) : HandRuntime := (start_runtime (two_table seat) (at_time seat 2000) (idle_runtime, node seat)).2.1.
Definition deliver (seat from : nat) (now : Z) (r : HandRuntime) (m : ReliableHandMessage) : HandRuntime :=
  match m with
  | ReliablePublic m => (handle_direct_public (peer_of from) m (at_time seat now) (r, node seat)).2.1
  | ReliablePrivate m => (handle_private (peer_of from) m (at_time seat now) (r, node seat)).2.1
  end.
Definition outbox (r : HandRuntime) : list ReliableHandMessage :=
  match hr_active r with Some a => map rd_message (direct_outbox a) | None => [] end.
(** Everything either side still has to send arrives at the other. *)
Definition exchange (now : Z) (rs : HandRuntime * HandRuntime) : HandRuntime * HandRuntime :=
  (fold_left (deliver 0 1 now) (outbox rs.2) rs.1, fold_left (deliver 1 0 now) (outbox rs.1) rs.2).
Definition dealt : HandRuntime * HandRuntime := Nat.iter 5 (exchange 3000) (begin 0, begin 1).

(** The player on the seat chooses an action. *)
Definition choose (seat : nat) (action : PlayerAction) (now : Z) (r : HandRuntime) : HandRuntime :=
  match hr_active r with
  | Some a => (submit_action (mkPrecondition "table" 1 (ah_sequence a) "table") action (at_time seat now) (r, node seat)).2.1
  | None => r
  end.
Definition plays (seat : nat) (action : PlayerAction) (now : Z) (rs : HandRuntime * HandRuntime)
    : HandRuntime * HandRuntime :=
  Nat.iter 2 (exchange now)
    (if decide (seat = 0%nat) then (choose 0 action now rs.1, rs.2) else (rs.1, choose 1 action now rs.2)).
(** The small blind calls and the big blind checks: the flop is open.  Then
    the big blind bets everything and is called. *)
Definition called : HandRuntime * HandRuntime := plays 0 Call 4000 dealt.
Definition flop : HandRuntime * HandRuntime := plays 1 Check 5000 called.
Definition finished : HandRuntime * HandRuntime := plays 0 Call 7000 (plays 1 (RaiseTo 780000) 6000 flop).

(** ** These states can be reached *)

Lemma node_fits t n x : actions_fit t n x.
Proof. intros k doc seat action y _ _ _ _. by exists []. Qed.
Lemma two_table_chips seat : chips_ok (two_table seat).
Proof. split; [apply example_level_wf|]. split; [done|]. vm_compute. congruence. Qed.

Lemma event_reachable r r' : reachable r → hand_event r r' → reachable r'.
Proof. intros Hr He. eapply rtc_r; [exact Hr|by apply step_event]. Qed.
Lemma begin_reachable seat : reachable (begin seat).
Proof. apply rtc_once, step_start, two_table_chips. Qed.
Lemma deliver_event seat from now r m : hand_event r (deliver seat from now r m).
Proof. destruct m; constructor. Qed.
Lemma deliver_reachable seat from now l r : reachable r → reachable (fold_left (deliver seat from now) l r).
Proof.
  revert r. induction l as [|m l IH]; intros r Hr; [done|]. apply IH. eapply event_reachable; [exact Hr|apply deliver_event].
Qed.
Lemma choose_reachable seat action now r : action_amount_fits action → reachable r → reachable (choose seat action now r).
Proof.
  intros Ha Hr. unfold choose. destruct (hr_active r); [|done]. eapply event_reachable; [exact Hr|].
  apply ev_submit; [intros b _; apply node_fits|done].
Qed.
Definition both_reachable (rs : HandRuntime * HandRuntime) : Prop := reachable rs.1 ∧ reachable rs.2.
Lemma exchange_reachable now n rs : both_reachable rs → both_reachable (Nat.iter n (exchange now) rs).
Proof.
  intros Hr. induction n as [|n IH]; [done|]. destruct IH as [H1 H2]. split; by apply deliver_reachable.
Qed.
Lemma plays_reachable seat action now rs : action_amount_fits action → both_reachable rs → both_reachable (plays seat action now rs).
Proof.
  intros Ha [H1 H2]. apply exchange_reachable. case_decide; (split; [|]); try done; by apply choose_reachable.
Qed.
Lemma dealt_reachable : both_reachable dealt.
Proof. apply exchange_reachable. split; apply begin_reachable. Qed.
Lemma called_reachable : both_reachable called.
Proof. apply plays_reachable; [done|]. apply dealt_reachable. Qed.
Lemma flop_reachable : both_reachable flop.
Proof. apply plays_reachable; [done|]. apply called_reachable. Qed.
Lemma finished_reachable : both_reachable finished.
Proof.
  apply plays_reachable; [done|]. apply plays_reachable; [|apply flop_reachable]. apply example_u64. reflexivity.
Qed.

(** ** The theorems at these states *)

(** What holds of the hand of a runtime, by computation. *)
Definition hand_is {A} (f : ActiveHand → A) (r : HandRuntime) (v : A) : Prop := option_map f (hr_active r) = Some v.
Lemma hand_is_active {A} (f : ActiveHand → A) r v : hand_is f r v → ∃ a, hr_active r = Some a ∧ f a = v.
Proof. unfold hand_is. destruct (hr_active r) as [a|]; [|done]. intros [= E]. eauto. Qed.

Lemma hand_log_replays_witness :
  ∃ a, hr_active flop.1 = Some a ∧ ah_sequence a = 2
    ∧ (∀ k, is_Some (committed_actions a !! k) ↔ 1 <= k <= 2)
    ∧ action_transcript a = flat_map action_frame (action_log a).
Proof.
  assert (hand_is ah_sequence flop.1 2) as (a & Ha & E)%hand_is_active by (vm_compute; reflexivity).
  destruct (hand_log_replays flop.1 a (proj1 flop_reachable) Ha) as (Hk & _ & Ht & _).
  exists a. rewrite E in Hk. exact (conj Ha (conj E (conj Hk Ht))).
Defined.

(** The big blind's check, the second action: both players accept it, the
    signer at once and the other three seconds later. *)
Definition the_check : option SignedHandAction := a ← hr_active flop.1; committed_actions a !! 2.
Definition takes (x : SignedHandAction) (seat : nat) (now : Z) (origin : ActionOrigin) (a : ActiveHand) : bool :=
  bool_decide (committed_actions a !! 2 = None)
  && bool_decide (committed_actions (commit_action 2 x origin (at_time seat now) (a, node seat)).2.1 !! 2 = Some x).
Lemma takes_accepts x seat now origin r a :
  reachable r → hr_active r = Some a → takes x seat now origin a = true → accepts a 2 x now.
Proof.
  intros Hr Ha [H1%bool_decide_eq_true H2%bool_decide_eq_true]%andb_true_iff.
  split; [exact (reachable_hand r a Hr Ha)|]. split; [exact H1|]. by exists origin, (at_time seat now), (node seat).
Qed.
(** The toy hash does not collide on what they hash. *)
Definition hashes_differ (l k : list (list Z)) : bool :=
  forallb (λ x, forallb (λ y, implb (bool_decide (blake3 x = blake3 y)) (bool_decide (x = y))) k) l.
Lemma hashes_differ_free l k : hashes_differ l k = true → collision_free l k.
Proof.
  intros Hd x y Hx%list_elem_of_In Hy%list_elem_of_In E. unfold hashes_differ in Hd. rewrite forallb_forall in Hd.
  specialize (Hd x Hx). rewrite forallb_forall in Hd. specialize (Hd y Hy).
  rewrite (bool_decide_true _ E) in Hd. by apply bool_decide_eq_true in Hd.
Qed.
Definition frames_differ (l : list SignedHandAction) : bool :=
  forallb (λ x, match encode_action x with Some payload => Z.of_nat (length payload) <=? u32_max | None => false end
                && forallb (λ y, implb (bool_decide (encode_action x = encode_action y)) (bool_decide (x = y))) l) l.
Lemma frames_differ_encodings l : frames_differ l = true → encodings_differ l.
Proof.
  intros Hd. unfold frames_differ in Hd. rewrite forallb_forall in Hd. split.
  - intros x [Hx _]%list_elem_of_In%Hd%andb_true_iff. destruct (encode_action x) as [payload|]; [|discriminate Hx].
    exists payload. split; [reflexivity|by apply Z.leb_le].
  - intros x y [_ Hx]%list_elem_of_In%Hd%andb_true_iff Hy%list_elem_of_In E. rewrite forallb_forall in Hx.
    specialize (Hx y Hy). rewrite (bool_decide_true _ E) in Hx. by apply bool_decide_eq_true in Hx.
Qed.
Definition called_check (x : SignedHandAction) (a b : ActiveHand) : bool :=
  takes x 0 8000 Remote a && (takes x 1 5000 Local b && (bool_decide (act_action x = Check) && (bool_decide (action_fits x)
  && (hashes_differ (action_unsigned_bytes x :: documents a) (action_unsigned_bytes x :: documents b)
  && frames_differ (action_log a ++ action_log b))))).
Lemma called_check_holds :
  ∃ x a b, hr_active called.1 = Some a ∧ hr_active called.2 = Some b ∧ called_check x a b = true.
Proof.
  assert ((x ← the_check; a ← hr_active called.1; b ← hr_active called.2; Some (called_check x a b)) = Some true) as E
    by (vm_compute; reflexivity).
  revert E. destruct the_check as [x|]; [|discriminate]. destruct (hr_active called.1) as [a|]; [|discriminate].
  destruct (hr_active called.2) as [b|]; [|discriminate]. cbn [mbind option_bind].
  intros [= E]. exists x, a, b. exact (conj eq_refl (conj eq_refl E)).
Qed.
Lemma called_accepts :
  ∃ a b x, hr_active called.1 = Some a ∧ hr_active called.2 = Some b ∧ act_action x = Check ∧ action_fits x
    ∧ accepts a 2 x 8000 ∧ accepts b 2 x 5000
    ∧ collision_free (action_unsigned_bytes x :: documents a) (action_unsigned_bytes x :: documents b)
    ∧ encodings_differ (action_log a ++ action_log b).
Proof.
  destruct called_check_holds as (x & a & b & Ha & Hb & E). unfold called_check in E.
  apply andb_true_iff in E as [E1 E]. apply andb_true_iff in E as [E2 E].
  apply andb_true_iff in E as [E3%bool_decide_eq_true E]. apply andb_true_iff in E as [E4%bool_decide_eq_true E].
  apply andb_true_iff in E as [E5%hashes_differ_free E6%frames_differ_encodings].
  exists a, b, x. split; [exact Ha|]. split; [exact Hb|]. split; [exact E3|]. split; [exact E4|].
  split; [exact (takes_accepts x 0 8000 Remote called.1 a (proj1 called_reachable) Ha E1)|].
  split; [exact (takes_accepts x 1 5000 Local called.2 b (proj2 called_reachable) Hb E2)|]. exact (conj E5 E6).
Qed.
Lemma common_action_common_history_witness :
  ∃ a b x, hr_active called.1 = Some a ∧ hr_active called.2 = Some b ∧ act_action x = Check
    ∧ accepts a 2 x 8000 ∧ accepts b 2 x 5000
    ∧ action_log a = action_log b ∧ mental_transcript a = mental_transcript b ∧ public_cards a = public_cards b.
Proof.
  destruct called_accepts as (a & b & x & Ha & Hb & Hx & _ & Ka & Kb & Hc & He).
  destruct (common_action_common_history a b 2 x 8000 5000 Ka Kb) as (_ & _ & Hl & Hm & Hp & _).
  - intros u v Hu Hv. apply Hc; apply elem_of_cons; by right.
  - exact He.
  - exists a, b, x. exact (conj Ha (conj Hb (conj Hx (conj Ka (conj Kb (conj Hl (conj Hm Hp))))))).
Defined.
(** The two players' tables are records of their own (each has its own seat);
    the one signature fits both only because the hand is the same. *)
Lemma hand_action_not_replayable_witness :
  ∃ a b x, hr_active called.1 = Some a ∧ hr_active called.2 = Some b
    ∧ local_seat (ah_table a) = 0%nat ∧ local_seat (ah_table b) = 1%nat
    ∧ accepts a 2 x 8000 ∧ accepts b 2 x 5000
    ∧ rt_roster_hash (ah_table a) = rt_roster_hash (ah_table b)
    ∧ mental_transcript a = mental_transcript b ∧ action_transcript a = action_transcript b.
Proof.
  destruct called_accepts as (a & b & x & Ha & Hb & _ & Hf & Ka & Kb & Hc & _).
  destruct (hand_action_not_replayable a b 2 2 x x 8000 5000 Ka Kb eq_refl Hf Hf Hc)
    as (_ & _ & _ & _ & Hr & _ & Hm & Ht & _).
  assert (hand_is (λ a, local_seat (ah_table a)) called.1 0%nat) as (a' & Ha' & Sa)%hand_is_active by (vm_compute; reflexivity).
  assert (hand_is (λ a, local_seat (ah_table a)) called.2 1%nat) as (b' & Hb' & Sb)%hand_is_active by (vm_compute; reflexivity).
  rewrite Ha in Ha'. injection Ha' as <-. rewrite Hb in Hb'. injection Hb' as <-.
  exists a, b, x. exact (conj Ha (conj Hb (conj Sa (conj Sb (conj Ka (conj Kb (conj Hr (conj Hm Ht)))))))).
Defined.


(** The player on seat 2, who has checked, also signs a fold for that place. *)
Definition second_action : option SignedHandAction :=
  a ← hr_active flop.2; x ← committed_actions a !! 2;
  match action_issue (act_table_id x) 1 (act_roster_hash x) 2 (expected_public_state_hash x) 2 Fold 5000 [device_of 1]
          (toy_cert (root_of 1) (device_of 1)) with
  | Ok y => Some y
  | _ => None
  end.
Definition caught : HandRuntime :=
  match second_action with
  | Some y => deliver 0 1 6000 flop.1 (ReliablePublic (ActionCommitted (replicate 32 9) 1 (replicate 32 8) 2 y))
  | None => flop.1
  end.
Lemma caught_reachable : reachable caught.
Proof.
  unfold caught. destruct second_action; [|exact (proj1 flop_reachable)].
  eapply event_reachable; [exact (proj1 flop_reachable)|apply deliver_event].
Qed.
(** The timer goes on. *)
Definition ticked (seat : nat) (now : Z) (r : HandRuntime) : HandRuntime := (tick_runtime (at_time seat now) (r, node seat)).2.1.
Lemma ticked_event seat now r : hand_event r (ticked seat now r).
Proof. apply ev_tick. intros a _. apply node_fits. Qed.

(** The second action is valid for the first player, who has the check. *)
Definition fold_check (a : ActiveHand) (y x : SignedHandAction) : bool :=
  match seat_identity a (act_seat y) with
  | Ok identity => is_ok (verify_action a y 2 (expected_public_state_hash y) (act_seat y) identity 6000)
  | _ => false
  end
  && (bool_decide (act_seat y = act_seat x)
  && (bool_decide (expected_public_state_hash y = expected_public_state_hash x)
  && (negb (bool_decide (action_payload_hash y = action_payload_hash x))
  && bool_decide (peer_of 1 ∈ rt_peer_ids (ah_table a))))).
Lemma fold_check_holds :
  ∃ a y x, hr_active flop.1 = Some a ∧ second_action = Some y ∧ committed_actions a !! 2 = Some x ∧ fold_check a y x = true.
Proof.
  assert ((a ← hr_active flop.1; y ← second_action; x ← committed_actions a !! 2; Some (fold_check a y x)) = Some true) as E
    by (vm_compute; reflexivity).
  revert E. destruct (hr_active flop.1) as [a|]; [|discriminate]. destruct second_action as [y|]; [|discriminate].
  cbn [mbind option_bind]. destruct (committed_actions a !! 2) as [x|] eqn:Hx; [|discriminate]. cbn [mbind option_bind].
  intros [= E]. exists a, y, x. exact (conj eq_refl (conj eq_refl (conj Hx E))).
Qed.
Lemma conflict_freezes_hand_witness :
  (∃ a y, hr_active flop.1 = Some a ∧ second_action = Some y
     ∧ is_Some (action_conflict (handle_public_message (Some (peer_of 1))
         (ActionCommitted (table_id a) (ah_hand_number a) (rt_roster_hash (ah_table a)) 2 y) (at_time 0 6000)
         (a, node 0)).2.1))
  ∧ ∃ a b e, hr_active caught = Some a ∧ hr_active (ticked 0 90000 caught) = Some b ∧ action_conflict a = Some e
      ∧ cf_sequence e = 2 ∧ is_Some (action_conflict b) ∧ frozen a b.
Proof.
  split.
  - destruct fold_check_holds as (a & y & x & Ha & Hy & Hx & E). unfold fold_check in E.
    apply andb_true_iff in E as [E1 E]. apply andb_true_iff in E as [E2%bool_decide_eq_true E].
    apply andb_true_iff in E as [E3%bool_decide_eq_true E].
    apply andb_true_iff in E as [E4%negb_true_iff%bool_decide_eq_false E5%bool_decide_eq_true].
    destruct (seat_identity a (act_seat y)) as [identity|e0|] eqn:Hid; [|discriminate E1|discriminate E1].
    apply is_ok_true in E1 as [[] E1].
    destruct (conflict_freezes_hand flop.1 a (proj1 flop_reachable) Ha) as [Hcaught _].
    destruct (Hcaught 2 x y (peer_of 1) (at_time 0 6000) (node 0) Hx) as [_ Hc];
      [exists identity; exact (conj Hid E1)|exact E2|exact E3|exact E4|exact E5|].
    exists a, y. exact (conj Ha (conj Hy Hc)).
  - assert (hand_is (λ a, option_map cf_sequence (action_conflict a)) caught (Some 2)) as (a & Ha & Ee)%hand_is_active
      by (vm_compute; reflexivity).
    assert (hand_is ah_sequence (ticked 0 90000 caught) 2) as (b & Hb & _)%hand_is_active by (vm_compute; reflexivity).
    destruct (action_conflict a) as [e|] eqn:He; [|discriminate Ee]. injection Ee as Ee.
    destruct (conflict_freezes_hand caught a caught_reachable Ha) as [_ Hfrozen].
    destruct (Hfrozen (ticked 0 90000 caught) b e (rtc_once _ _ (ticked_event 0 90000 caught)) Hb He) as (_ & Hc & Hf).
    exists a, b, e. exact (conj Ha (conj Hb (conj He (conj Ee (conj Hc Hf))))).
Defined.

Lemma hand_delivery_bounded_witness :
  ∃ a, hr_active flop.1 = Some a ∧ length (direct_outbox a) = 9%nat ∧ NoDup (map delivery_key (direct_outbox a)).
Proof.
  assert (hand_is (λ a, length (direct_outbox a)) flop.1 9%nat) as (a & Ha & E)%hand_is_active by (vm_compute; reflexivity).
  destruct (hand_delivery_bounded flop.1 (proj1 flop_reachable)) as (_ & _ & Hall).
  exists a. exact (conj Ha (conj E (proj1 (Hall a Ha)))).
Defined.


(** It is the turn of the small blind; both see the same hand. *)
Definition view (a : ActiveHand) :=
  (table_id a, ah_hand_number a, rt_roster_hash (ah_table a), players a, rt_devices (ah_table a),
   (ah_sequence a, ah_hand a, hand_state_hash a)).
Lemma dealt_views : option_map view (hr_active dealt.2) = option_map view (hr_active dealt.1).
Proof. vm_compute. reflexivity. Qed.
Lemma dealt_own_device a : hr_active dealt.1 = Some a → own_device a (at_time 0 40000).
Proof.
  intros Ha. assert (hand_is ah_table dealt.1 (two_table 0)) as (b & Hb & E)%hand_is_active by (vm_compute; reflexivity).
  rewrite Ha in Hb. injection Hb as <-. unfold own_device, players. rewrite E. split_and!; vm_compute; reflexivity.
Qed.

(** The small blind may call. *)
Definition first_turn (action : PlayerAction) (a : ActiveHand) : bool :=
  undisturbed a && (ah_sequence a =? 0)
  && match ah_hand a with Some h => bool_decide (may_take h (root_player_id [root_of 0]) action) | None => false end.
Definition waits (a : ActiveHand) : bool :=
  bool_decide (pending_reveal a = None) && bool_decide (action_conflict a = None) && negb (settled a).
Lemma dealt_same_view :
  ∃ a b, hr_active dealt.1 = Some a ∧ hr_active dealt.2 = Some b ∧ same_view a b
    ∧ rt_peer_ids (ah_table b) = [11; 12] ∧ first_turn Call a = true.
Proof.
  assert (hand_is (first_turn Call) dealt.1 true) as (a & Ha & Ef)%hand_is_active by (vm_compute; reflexivity).
  assert (hand_is (λ b, (waits b, rt_peer_ids (ah_table b))) dealt.2 (true, [11; 12])) as (b & Hb & [= Ew Ep])%hand_is_active
    by (vm_compute; reflexivity).
  pose proof dealt_views as E. rewrite Ha, Hb in E. injection E as E1 E2 E3 E4 E5 E6 E7 E8.
  unfold waits in Ew. apply andb_true_iff in Ew as [[Ew1 Ew2]%andb_true_iff Ew3].
  apply bool_decide_eq_true in Ew1, Ew2. apply negb_true_iff in Ew3.
  exists a, b. split; [exact Ha|]. split; [exact Hb|]. split; [|exact (conj Ep Ef)].
  split; [exact (conj E1 (conj E2 E3))|exact (conj E4 E5)|exact (conj E6 (conj E7 E8))|exact (conj Ew1 (conj Ew2 Ew3))].
Qed.
Lemma local_action_spreads_witness :
  ∃ a b y, hr_active dealt.1 = Some a ∧ hr_active dealt.2 = Some b ∧ act_action y = Call
    ∧ committed_actions (commit_local_action Call (at_time 0 40000) (a, node 0)).2.1 !! 1 = Some y
    ∧ committed_actions (handle_public_message (Some 12)
        (ActionCommitted (table_id a) (ah_hand_number a) (rt_roster_hash (ah_table a)) 1 y) (at_time 1 41000)
        (b, node 1)).2.1 !! 1 = Some y.
Proof.
  destruct dealt_same_view as (a & b & Ha & Hb & Hv & Ep & Ef). unfold first_turn in Ef.
  apply andb_true_iff in Ef as [[Hu Eq%Z.eqb_eq]%andb_true_iff Hm]. destruct (ah_hand a) as [h|] eqn:Eh; [|discriminate Hm].
  apply bool_decide_eq_true in Hm.
  destruct (local_action_spreads dealt.1 dealt.2 a b h Call (at_time 0 40000) (at_time 1 41000) (node 0) (node 1) 12
    (proj1 dealt_reachable) (proj2 dealt_reachable) Ha Hb (dealt_own_device a Ha) (node_fits _ _ _) I Hu) as (y & Hy).
  - rewrite Eq. reflexivity.
  - exact Eh.
  - exact Hm.
  - exact Hv.
  - rewrite Ep. apply elem_of_cons. right. apply elem_of_cons. left. reflexivity.
  - vm_compute. reflexivity.
  - rewrite Eq in Hy. exists a, b, y. exact (conj Ha (conj Hb Hy)).
Defined.

(** Half a minute later the small blind, who has to call, is folded. *)
Lemma timeout_acts_witness :
  ∃ a y, hr_active dealt.1 = Some a ∧ automatic_local_action a 40000 = Ok (Some Fold) ∧ act_action y = Fold
    ∧ committed_actions (commit_local_action Fold (at_time 0 40000) (a, node 0)).2.1 !! 1 = Some y.
Proof.
  assert (hand_is (λ a, (ah_sequence a, automatic_local_action a 40000)) dealt.1 (0, Ok (Some Fold)))
    as (a & Ha & [= Eq Eauto])%hand_is_active by (vm_compute; reflexivity).
  destruct (timeout_acts dealt.1 a (at_time 0 40000) (node 0) Fold (proj1 dealt_reachable) Ha (dealt_own_device a Ha)
    (node_fits _ _ _)) as (_ & y & Hact & _ & Hy).
  - rewrite Eq. reflexivity.
  - exact Eauto.
  - rewrite Eq in Hy. exists a, y. exact (conj Ha (conj Eauto (conj Hact Hy))).
Defined.

(** The second player has the keys and the first shuffle. *)
Definition shuffling : HandRuntime := (exchange 3000 (begin 0, begin 1)).2.
Lemma hand_loops_end_witness :
  ∃ a, hr_active shuffling = Some a
    ∧ loop_run shuffle_round (a, node 1) (shuffle_rounds 3 (a, node 1))
    ∧ loop_run (deferred_round (at_time 1 3000)) (a, node 1) (commit_deferred_actions (at_time 1 3000) (a, node 1)).
Proof.
  assert (hand_is (λ a, (shuffle_stage a, player_count a)) shuffling (0, 2%nat))
    as (a & Ha & [= Es Ec])%hand_is_active by (vm_compute; reflexivity).
  destruct (hand_loops_end (at_time 1 3000) (a, node 1)) as [H1 H2].
  - cbn [fst]. rewrite Es. reflexivity.
  - cbn [fst]. rewrite Ec. lia.
  - cbn [fst] in H1. rewrite Ec in H1. exists a. exact (conj Ha (conj H1 H2)).
Defined.

(** Starting a hand while another is not finished fails, and the hand that was
    being played is gone. *)
Lemma start_drops_unfinished_hand :
  (start_runtime (two_table 0) (at_time 0 6000) (flop.1, node 0)).1 = Err PreviousHandNotFinal
  ∧ hr_active (start_runtime (two_table 0) (at_time 0 6000) (flop.1, node 0)).2.1 = None.
Proof. split; vm_compute; reflexivity. Qed.
