(* ===== verification/ConnectionLease.v ===== *)
(** * ConnectionLease: which connections are kept alive (connection_lease.rs)

    The behaviour knows the peers whose connections must be kept; every
    connection has a handler with its own flag.  The two only communicate by
    queued notifications, so a handler may lag behind.  The swarm that drives
    them is external: its documented calls are the steps of [step]. *)

From S2P Require Import Prelude.

Section lease.
Context {PeerId ConnectionId : Type} `{Countable PeerId} `{Countable ConnectionId}.

(** The order in which a [HashSet] is iterated is not specified. *)
Context (iter : gset ConnectionId → list ConnectionId).
Hypothesis iter_perm : ∀ ids, iter ids ≡ₚ elements ids.

Inductive LeaseCommand := SetRetained (retained : bool).
Record NotifyHandler := mkNotify {
  notify_peer_id : PeerId;
  notify_connection : ConnectionId;
  notify_event : LeaseCommand;
}.
Record ConnectionLeaseBehaviour := mkBehaviour {
  retained_peers : gset PeerId;
  connections : gmap PeerId (gset ConnectionId);
  pending_events : list NotifyHandler;
}.
Record ConnectionLeaseHandler := ConnectionLeaseHandler_new { retained : bool }.

(** [notify_peer]. *)
Definition notify_peer (peer : PeerId) (flag : bool) (b : ConnectionLeaseBehaviour)
    : ConnectionLeaseBehaviour :=
  let connection_ids := iter (default ∅ (connections b !! peer)) in
  mkBehaviour (retained_peers b) (connections b)
    (pending_events b ++ map (λ c, mkNotify peer c (SetRetained flag)) connection_ids).

(** [retain_peer] and [release_peer]. *)
Definition retain_peer (peer : PeerId) (b : ConnectionLeaseBehaviour) : ConnectionLeaseBehaviour :=
  if bool_decide (peer ∈ retained_peers b) then b
  else notify_peer peer true
         (mkBehaviour ({[peer]} ∪ retained_peers b) (connections b) (pending_events b)).
Definition release_peer (peer : PeerId) (b : ConnectionLeaseBehaviour) : ConnectionLeaseBehaviour :=
  if bool_decide (peer ∈ retained_peers b)
  then notify_peer peer false
         (mkBehaviour (retained_peers b ∖ {[peer]}) (connections b) (pending_events b))
  else b.
Definition is_peer_retained (peer : PeerId) (b : ConnectionLeaseBehaviour) : bool :=
  bool_decide (peer ∈ retained_peers b).

(** [handle_established_inbound_connection] and the outbound one. *)
Definition handle_established (peer : PeerId) (b : ConnectionLeaseBehaviour)
    : ConnectionLeaseHandler :=
  ConnectionLeaseHandler_new (bool_decide (peer ∈ retained_peers b)).

(** [on_swarm_event], the two events it reacts to. *)
Inductive FromSwarm :=
  | ConnectionEstablished (peer : PeerId) (c : ConnectionId)
  | ConnectionClosed (peer : PeerId) (c : ConnectionId) (remaining_established : nat).
Definition on_swarm_event (e : FromSwarm) (b : ConnectionLeaseBehaviour) : ConnectionLeaseBehaviour :=
  match e with
  | ConnectionEstablished peer c =>
      mkBehaviour (retained_peers b)
        (<[peer := {[c]} ∪ default ∅ (connections b !! peer)]> (connections b)) (pending_events b)
  | ConnectionClosed peer c remaining =>
      mkBehaviour (retained_peers b)
        (if (remaining =? 0)%nat then delete peer (connections b)
         else match connections b !! peer with
              | Some ids => <[peer := ids ∖ {[c]}]> (connections b)
              | None => connections b
              end) (pending_events b)
  end.

(** [poll] of the behaviour: the oldest notification. *)
Definition poll (b : ConnectionLeaseBehaviour) : option NotifyHandler * ConnectionLeaseBehaviour :=
  match pending_events b with
  | [] => (None, b)
  | e :: rest => (Some e, mkBehaviour (retained_peers b) (connections b) rest)
  end.

(** The handler: [on_behaviour_event], [connection_keep_alive]. *)
Definition on_behaviour_event (e : LeaseCommand) (h : ConnectionLeaseHandler)
    : ConnectionLeaseHandler :=
  match e with SetRetained flag => ConnectionLeaseHandler_new flag end.
Definition connection_keep_alive (h : ConnectionLeaseHandler) : bool := retained h.

(** ** The swarm *)

(** The live connections with their peers and handlers, and every connection
    id handed out so far (they are never reused). *)
Record swarm := mkSwarm {
  behaviour : ConnectionLeaseBehaviour;
  handlers : gmap ConnectionId (PeerId * ConnectionLeaseHandler);
  used : gset ConnectionId;
}.
Definition initial : swarm := mkSwarm (mkBehaviour ∅ ∅ []) ∅ ∅.

Definition remaining (peer : PeerId) (hs : gmap ConnectionId (PeerId * ConnectionLeaseHandler)) : nat :=
  size (filter (λ kv, kv.2.1 = peer) hs).

(** A notification reaches its handler, unless the connection is gone. *)
Definition deliver (s : swarm) : swarm :=
  let '(event, b) := poll (behaviour s) in
  match event with
  | None => s
  | Some e =>
      mkSwarm b (alter (λ ph, (ph.1, on_behaviour_event (notify_event e) ph.2))
                   (notify_connection e) (handlers s)) (used s)
  end.

Inductive step : swarm → swarm → Prop :=
  | step_retain s p :
      step s (mkSwarm (retain_peer p (behaviour s)) (handlers s) (used s))
  | step_release s p :
      step s (mkSwarm (release_peer p (behaviour s)) (handlers s) (used s))
  | step_establish s p c :
      c ∉ used s →
      step s (mkSwarm (on_swarm_event (ConnectionEstablished p c) (behaviour s))
                (<[c := (p, handle_established p (behaviour s))]> (handlers s)) ({[c]} ∪ used s))
  | step_close s p c h :
      handlers s !! c = Some (p, h) →
      step s (mkSwarm (on_swarm_event (ConnectionClosed p c (remaining p (delete c (handlers s))))
                         (behaviour s)) (delete c (handlers s)) (used s))
  | step_deliver s : step s (deliver s).
Definition reachable (s : swarm) : Prop := rtc step initial s.

(** The flag of connection [c] once the queued notifications are delivered. *)
Definition settled (c : ConnectionId) (events : list NotifyHandler) (h : ConnectionLeaseHandler)
    : ConnectionLeaseHandler :=
  fold_left (λ h e, if decide (notify_connection e = c) then on_behaviour_event (notify_event e) h else h)
    events h.

Record lease_inv (s : swarm) : Prop := {
  li_connections : ∀ p c, c ∈ default ∅ (connections (behaviour s) !! p) ↔
    ∃ h, handlers s !! c = Some (p, h);
  li_no_leak : ∀ p, connections (behaviour s) !! p ≠ Some ∅;
  li_flags : ∀ p c h, handlers s !! c = Some (p, h) →
    retained (settled c (pending_events (behaviour s)) h) = is_peer_retained p (behaviour s);
  li_used : ∀ c, is_Some (handlers s !! c) → c ∈ used s;
  li_pending : ∀ e, e ∈ pending_events (behaviour s) → notify_connection e ∈ used s;
}.

Lemma settled_app c l k h : settled c (l ++ k) h = settled c k (settled c l h).
Proof. apply fold_left_app. Qed.

Lemma settled_notify c p flag cs h :
  settled c (map (λ c', mkNotify p c' (SetRetained flag)) cs) h
  = if decide (c ∈ cs) then ConnectionLeaseHandler_new flag else h.
Proof.
  revert h. induction cs as [|c' cs IH]; intros h; [done|]. cbn [map settled fold_left].
  change (fold_left _ ?l ?x) with (settled c l x). rewrite IH. simpl.
  repeat case_decide; set_solver.
Qed.

Lemma settled_other c events h :
  (∀ e, e ∈ events → notify_connection e ≠ c) → settled c events h = h.
Proof.
  revert h. induction events as [|e events IH]; intros h He; [done|]. cbn [settled fold_left].
  rewrite decide_False by (apply He; set_solver). apply IH. set_solver.
Qed.

Lemma notify_inv s p flag peers :
  lease_inv s → (∀ q, q ∈ peers ↔ (if decide (q = p) then flag = true else q ∈ retained_peers (behaviour s))) →
  lease_inv (mkSwarm (notify_peer p flag
    (mkBehaviour peers (connections (behaviour s)) (pending_events (behaviour s)))) (handlers s) (used s)).
Proof.
  intros [Hc Hl Hf Hu Hp] Hpeers. split; simpl; [done|done| |done|].
  - intros q c h Hh. rewrite settled_app, settled_notify. unfold is_peer_retained; simpl.
    assert (c ∈ iter (default ∅ (connections (behaviour s) !! p)) ↔ q = p) as Hin.
    { rewrite iter_perm, elem_of_elements, Hc. split; [intros [h' Hh']; congruence|intros <-; eauto]. }
    case_decide as Hci; simpl.
    + apply Hin in Hci as ->. symmetry. destruct flag; simpl.
      * apply bool_decide_true, Hpeers. by rewrite decide_True.
      * apply bool_decide_false. rewrite Hpeers, decide_True by done. done.
    + rewrite (Hf q c h Hh). unfold is_peer_retained. apply bool_decide_ext.
      rewrite Hpeers, decide_False; [done|]. tauto.
  - intros e [He|He]%elem_of_app; [auto|]. apply list_elem_of_fmap in He as (c & -> & Hci). simpl.
    rewrite iter_perm, elem_of_elements, Hc in Hci. destruct Hci as [h Hh]. eauto.
Qed.

Lemma establish_inv s p c :
  lease_inv s → c ∉ used s →
  lease_inv (mkSwarm (on_swarm_event (ConnectionEstablished p c) (behaviour s))
    (<[c := (p, handle_established p (behaviour s))]> (handlers s)) ({[c]} ∪ used s)).
Proof.
  intros [Hc Hl Hf Hu Hp] Hnew.
  assert (handlers s !! c = None) as Hnone.
  { apply eq_None_not_Some. intros Hs. by apply Hnew, Hu. }
  split; simpl.
  - intros q c'. destruct (decide (q = p)) as [->|Hq].
    + rewrite lookup_insert_eq. simpl. rewrite elem_of_union, elem_of_singleton, Hc.
      destruct (decide (c' = c)) as [->|Hcc].
      * rewrite lookup_insert_eq. split; [eauto|by left].
      * rewrite lookup_insert_ne by done. naive_solver.
    + rewrite lookup_insert_ne, Hc by done. destruct (decide (c' = c)) as [->|Hcc].
      * rewrite lookup_insert_eq, Hnone. naive_solver.
      * by rewrite lookup_insert_ne.
  - intros q. destruct (decide (q = p)) as [->|Hq];
      [rewrite lookup_insert_eq; intros [=]; set_solver|by rewrite lookup_insert_ne].
  - intros q c' h. rewrite lookup_insert_Some. intros [[<- [= <- <-]]|[Hne Hh]]; [|by apply Hf].
    rewrite settled_other; [done|]. intros e He <-. by apply Hnew, Hp.
  - intros c' Hc'. apply lookup_insert_is_Some' in Hc' as [->|Hs]; [set_solver|].
    apply elem_of_union_r. auto.
  - intros e He. apply elem_of_union_r. auto.
Qed.

Lemma remaining_zero p hs : remaining p hs = 0%nat ↔ ∀ c h, hs !! c ≠ Some (p, h).
Proof.
  unfold remaining. rewrite map_size_empty_iff. split.
  - intros He c h Hc. assert (filter (λ kv, kv.2.1 = p) hs !! c = Some (p, h)) as Hf
      by (by apply map_lookup_filter_Some). by rewrite He, lookup_empty in Hf.
  - intros Hn. apply map_empty. intros c. apply eq_None_not_Some. intros [[q h] Hq].
    apply map_lookup_filter_Some in Hq as [Hq Hqp]. simpl in Hqp. subst q. by apply (Hn c h).
Qed.

Lemma close_inv s p c h :
  lease_inv s → handlers s !! c = Some (p, h) →
  lease_inv (mkSwarm (on_swarm_event (ConnectionClosed p c (remaining p (delete c (handlers s))))
    (behaviour s)) (delete c (handlers s)) (used s)).
Proof.
  intros [Hc Hl Hf Hu Hp] Hh.
  assert (c ∈ default ∅ (connections (behaviour s) !! p)) as Hin by (apply Hc; eauto).
  destruct (connections (behaviour s) !! p) as [ids|] eqn:Hids; simpl in Hin; [|set_solver].
  assert (∀ c', c' ∈ ids ∖ {[c]} ↔ ∃ h', delete c (handlers s) !! c' = Some (p, h')) as Hrest.
  { intros c'. rewrite elem_of_difference, elem_of_singleton. specialize (Hc p c'). rewrite Hids in Hc.
    simpl in Hc. rewrite Hc. setoid_rewrite lookup_delete_Some. naive_solver. }
  assert (∀ q, q ≠ p → ∀ c', (∃ h', delete c (handlers s) !! c' = Some (q, h'))
                         ↔ ∃ h', handlers s !! c' = Some (q, h')) as Hother.
  { intros q Hq c'. setoid_rewrite lookup_delete_Some. split; [naive_solver|].
    intros [h' Hh']. exists h'. split; [|done]. intros ->. congruence. }
  split; simpl.
  - intros q c'. destruct (Nat.eqb_spec (remaining p (delete c (handlers s))) 0) as [Hz|Hz].
    + destruct (decide (q = p)) as [->|Hq].
      * rewrite lookup_delete_eq. simpl. split; [set_solver|]. intros [h' Hh'].
        by apply (proj1 (remaining_zero _ _) Hz) in Hh'.
      * rewrite lookup_delete_ne, Hc by done. by rewrite Hother.
    + rewrite Hids. destruct (decide (q = p)) as [->|Hq].
      * rewrite lookup_insert_eq. apply Hrest.
      * rewrite lookup_insert_ne, Hc by done. by rewrite Hother.
  - intros q. destruct (Nat.eqb_spec (remaining p (delete c (handlers s))) 0) as [Hz|Hz].
    + destruct (decide (q = p)) as [->|Hq]; [by rewrite lookup_delete_eq|by rewrite lookup_delete_ne].
    + rewrite Hids. destruct (decide (q = p)) as [->|Hq]; [|by rewrite lookup_insert_ne].
      rewrite lookup_insert_eq. intros [= He]. apply Hz, remaining_zero. intros c' h' Hc'.
      assert (c' ∈ ids ∖ {[c]}) as Hx by (apply Hrest; eauto). rewrite He in Hx. set_solver.
  - intros q c' h' [Hne Hh']%lookup_delete_Some. by apply Hf.
  - intros c' [x Hx]. apply lookup_delete_Some in Hx as [_ Hx]. eauto.
  - done.
Qed.

Lemma deliver_inv s : lease_inv s → lease_inv (deliver s).
Proof.
  intros Hi. pose proof Hi as [Hc Hl Hf Hu Hp]. unfold deliver, poll.
  destruct (pending_events (behaviour s)) as [|e rest] eqn:He; [done|].
  assert (∀ c q, (∃ h, alter (λ ph, (ph.1, on_behaviour_event (notify_event e) ph.2))
                   (notify_connection e) (handlers s) !! c = Some (q, h))
                 ↔ ∃ h, handlers s !! c = Some (q, h)) as Hlive.
  { intros c q. setoid_rewrite lookup_alter. case_decide; [|done]. subst c.
    destruct (handlers s !! notify_connection e) as [[q' h']|]; simpl; naive_solver. }
  split; simpl.
  - intros q c. by rewrite Hlive, Hc.
  - done.
  - intros q c h. rewrite lookup_alter. case_decide as Hce.
    + subst c. destruct (handlers s !! notify_connection e) as [[q' h']|] eqn:Hh; [|done].
      intros [= <- <-]. specialize (Hf _ _ _ Hh). cbn [settled fold_left] in Hf.
      rewrite decide_True in Hf by done. exact Hf.
    + intros Hh. specialize (Hf _ _ _ Hh). cbn [settled fold_left] in Hf.
      rewrite decide_False in Hf by done. exact Hf.
  - intros c [[q h] Hs]. destruct (proj1 (Hlive c q)) as [h' Hh']; eauto.
  - intros e' He'. apply Hp. by right.
Qed.

Lemma reachable_inv s : reachable s → lease_inv s.
Proof.
  intros Hr. unfold reachable in Hr.
  assert (∀ a b, lease_inv a → step a b → lease_inv b) as Hstep.
  { intros a b Ha Hs. destruct Hs as [s' p|s' p|s' p c Hn|s' p c h Hh|s'].
    - unfold retain_peer. case_bool_decide; [by destruct s'|]. apply notify_inv; [done|].
      intros q. case_decide; set_solver.
    - unfold release_peer. case_bool_decide; [|by destruct s'].
      apply notify_inv; [done|]. intros q. case_decide; set_solver.
    - by apply establish_inv.
    - by eapply close_inv.
    - by apply deliver_inv. }
  assert (lease_inv initial) as Hinit.
  { split; simpl; [|by intros p; rewrite lookup_empty|by intros p c h; rewrite lookup_empty| |set_solver].
    - intros p c. rewrite !lookup_empty. simpl. split; [set_solver|by intros [h ?]].
    - intros c [x Hx]. by rewrite lookup_empty in Hx. }
  remember initial as s0. clear Heqs0. induction Hr; eauto.
Qed.

Lemma deliver_pending s : pending_events (behaviour (deliver s)) = tail (pending_events (behaviour s)).
Proof. unfold deliver, poll. by destruct (pending_events (behaviour s)) as [|e rest] eqn:He. Qed.
Lemma deliver_retained s : retained_peers (behaviour (deliver s)) = retained_peers (behaviour s).
Proof. unfold deliver, poll. by destruct (pending_events (behaviour s)) as [|e rest] eqn:He. Qed.

Lemma drained n s :
  lease_inv s → length (pending_events (behaviour s)) = n →
  lease_inv (Nat.iter n deliver s) ∧ pending_events (behaviour (Nat.iter n deliver s)) = []
  ∧ retained_peers (behaviour (Nat.iter n deliver s)) = retained_peers (behaviour s).
Proof.
  revert s. induction n as [|n IH]; intros s Hi Hn.
  - split; [done|]. split; [by apply nil_length_inv|done].
  - rewrite Nat.iter_succ_r. destruct (IH (deliver s)) as (H1 & H2 & H3).
    + by apply deliver_inv.
    + rewrite deliver_pending. destruct (pending_events (behaviour s)); simpl in *; lia.
    + by rewrite H3, deliver_retained.
Qed.

(** C38: Leases converge.  Whatever the order in which peers are retained and
    released, connections open and close and notifications are delivered,
    once the queued notifications have been delivered every live connection
    is kept alive exactly when its peer is retained, also one that was opened
    while notifications were under way; and the table of connections holds
    the live ones and nothing else. *)
Theorem leases_converge s :
  reachable s →
  let s' := Nat.iter (length (pending_events (behaviour s))) deliver s in
  pending_events (behaviour s') = []
  ∧ retained_peers (behaviour s') = retained_peers (behaviour s)
  ∧ (∀ p c h, handlers s' !! c = Some (p, h) →
       connection_keep_alive h = is_peer_retained p (behaviour s'))
  ∧ (∀ p c, c ∈ default ∅ (connections (behaviour s') !! p) ↔ ∃ h, handlers s' !! c = Some (p, h))
  ∧ ∀ p, connections (behaviour s') !! p ≠ Some ∅.
Proof.
  intros Hr%reachable_inv s'. destruct (drained _ s Hr eq_refl) as ([Hc Hl Hf _ _] & Hp & Hret).
  fold s' in Hc, Hl, Hf, Hp, Hret. split_and!; try done.
  intros p c h Hh. rewrite <-(Hf p c h Hh), Hp. done.
Qed.
End lease.

(** ** Witness: a connection opens, is retained, and a second one opens before
    the notification is delivered *)
Definition lease_path : swarm (PeerId:=nat) (ConnectionId:=nat) :=
  mkSwarm (on_swarm_event (ConnectionEstablished 1%nat 11%nat)
             (retain_peer elements 1%nat
                (on_swarm_event (ConnectionEstablished 1%nat 10%nat) (behaviour initial))))
    (<[11%nat := (1%nat, ConnectionLeaseHandler_new true)]>
       (<[10%nat := (1%nat, ConnectionLeaseHandler_new false)]> ∅))
    ({[11%nat]} ∪ ({[10%nat]} ∪ ∅)).

Lemma lease_path_reachable : reachable elements lease_path.
Proof.
  eapply rtc_l; [by apply (step_establish _ _ 1%nat 10%nat), not_elem_of_empty|].
  eapply rtc_l; [by apply (step_retain _ _ 1%nat)|].
  eapply rtc_l; [apply (step_establish _ _ 1%nat 11%nat); simpl; set_solver|]. apply rtc_refl.
Qed.

Lemma leases_converge_witness :
  let s' := Nat.iter (length (pending_events (behaviour lease_path))) deliver lease_path in
  pending_events (behaviour s') = []
  ∧ retained_peers (behaviour s') = retained_peers (behaviour lease_path)
  ∧ (∀ p c h, handlers s' !! c = Some (p, h) →
       connection_keep_alive h = is_peer_retained p (behaviour s'))
  ∧ (∀ p c, c ∈ default ∅ (connections (behaviour s') !! p) ↔ ∃ h, handlers s' !! c = Some (p, h))
  ∧ ∀ p, connections (behaviour s') !! p ≠ Some ∅.
Proof. apply (leases_converge elements); [done|apply lease_path_reachable]. Defined.
