(* ===== verification/ArchiveStore.v ===== *)
(** * ArchiveStore: the replicated receipt store (archive_store.rs)

    [P2pRemoteEventStore] implements the port [RemoteEventStore] of the
    application layer over volunteer archive peers.  The network client is
    external, the class [ArchiveReplicaClient]: it answers one request per
    peer, with whatever an untrusted peer sends. *)

From S2P Require Import Prelude Machine Ids Receipt Identity SignedReceipt UseCases Wire.

(** A request either fails or is answered. *)
Class ArchiveReplicaClient (PeerId : Type) := {
  put_replica : PeerId → ArchiveRequest → StoreError + ArchiveResponse;
  get_replica : PeerId → ContentAddress → StoreError + ArchiveFetchResponse;
}.

Record P2pRemoteEventStore (PeerId : Type) := mkP2pStore {
  archive_peers : list PeerId;
  requested_replication_seconds : Z;
}.
Arguments mkP2pStore {PeerId} _ _.
Arguments archive_peers {PeerId} _.
Arguments requested_replication_seconds {PeerId} _.

(** [P2pRemoteEventStore::new]. *)
Definition P2pRemoteEventStore_new {PeerId} (archive_peers : list PeerId) (seconds : Z)
    : result StoreError (P2pRemoteEventStore PeerId) :=
  _ ← reject_if (length archive_peers =? 0)%nat (Unavailable "没有配置志愿归档节点");
  _ ← reject_if (seconds =? 0) (Rejected "副本保留时间不能为零");
  Ok (mkP2pStore archive_peers seconds).

(** The body of the loop of [put]: the confirmed replicas (u16) and the last error. *)
Definition count_replica (address : ContentAddress) (acc : Z * option StoreError)
    (response : StoreError + ArchiveResponse) : Z * option StoreError :=
  match response with
  | inr acceptance =>
      if bool_decide (response_address acceptance = address) then (u16_saturating_add acc.1 1, acc.2)
      else (acc.1, Some IntegrityMismatch)
  | inl error => (acc.1, Some error)
  end.
Definition p2p_put `{Crypto, ArchiveReplicaClient PeerId} (store : P2pRemoteEventStore PeerId)
    (content : list Z) : result StoreError ReplicatedContent :=
  let address := from_content content in
  let responses := map (λ peer, put_replica peer
    (mkArchiveRequest address content (requested_replication_seconds store))) (archive_peers store) in
  let '(confirmed, last_error) := fold_left (count_replica address) responses (0, None) in
  if confirmed =? 0 then Err (default (Unavailable "所有志愿归档节点均未确认副本") last_error)
  else Ok (mkReplicated address confirmed).

(** The loop of [get]: the flags and the last error, with the early return. *)
Fixpoint scan_replicas `{Crypto} (address : ContentAddress) (mismatch absent : bool)
    (last_error : option StoreError) (responses : list (StoreError + ArchiveFetchResponse))
    : result StoreError (option (list Z)) :=
  match responses with
  | [] =>
      if mismatch then Err IntegrityMismatch
      else if absent then Ok None
      else Err (default (Unavailable "所有志愿归档节点均不可用") last_error)
  | inr response :: rest =>
      if negb (bool_decide (fetch_address response = address))
      then scan_replicas address true absent last_error rest
      else match fetch_content response with
           | Some content =>
               if bool_decide (from_content content = address) then Ok (Some content)
               else scan_replicas address true absent last_error rest
           | None => scan_replicas address mismatch true last_error rest
           end
  | inl error :: rest => scan_replicas address mismatch absent (Some error) rest
  end.
Definition p2p_get `{Crypto, ArchiveReplicaClient PeerId} (store : P2pRemoteEventStore PeerId)
    (address : ContentAddress) : result StoreError (option (list Z)) :=
  scan_replicas address false false None
    (map (λ peer, get_replica peer address) (archive_peers store)).

(** The store is an implementation of the port. *)
Definition p2p_store `{Crypto, ArchiveReplicaClient PeerId} (store : P2pRemoteEventStore PeerId)
    : RemoteEventStore := {| put := p2p_put store; get := p2p_get store |}.

(** ** Putting *)
Section archive.
Context `{Crypto} {PeerId : Type} `{!ArchiveReplicaClient PeerId}.
Implicit Types store : P2pRemoteEventStore PeerId.

(** The peers that acknowledge the address of [content]. *)
Definition acknowledges store (content : list Z) (peer : PeerId) : bool :=
  match put_replica peer (mkArchiveRequest (from_content content) content
                            (requested_replication_seconds store)) with
  | inr acceptance => bool_decide (response_address acceptance = from_content content)
  | inl _ => false
  end.
Definition acknowledgements store (content : list Z) : Z :=
  Z.of_nat (length (filter (λ p, acknowledges store content p = true) (archive_peers store))).

Notation ask store content := (λ peer, put_replica peer
  (mkArchiveRequest (from_content content) content (requested_replication_seconds store))).

Lemma count_replica_ack store content p acc :
  (count_replica (from_content content) acc (ask store content p)).1
  = if acknowledges store content p then u16_saturating_add acc.1 1 else acc.1.
Proof. unfold count_replica, acknowledges. destruct (put_replica p _); [done|]. by case_bool_decide. Qed.

Lemma count_replicas_spec store content peers acc :
  0 <= acc.1 <= u16_max →
  (fold_left (count_replica (from_content content)) (map (ask store content) peers) acc).1
  = Z.min u16_max
      (acc.1 + Z.of_nat (length (filter (λ p, acknowledges store content p = true) peers))).
Proof.
  revert acc. induction peers as [|p peers IH]; intros acc Hn; [simpl; lia|].
  cbn [map fold_left]. pose proof (count_replica_ack store content p acc) as Hp.
  rewrite filter_cons. destruct (acknowledges store content p) eqn:Hack;
    rewrite IH by (rewrite Hp; unfold u16_saturating_add, u16_max in *; lia); rewrite Hp.
  - rewrite decide_True by done. cbn [length]. unfold u16_saturating_add, u16_max in *. lia.
  - rewrite decide_False by congruence. done.
Qed.

Lemma p2p_put_Ok store content r :
  p2p_put store content = Ok r ↔
  0 < acknowledgements store content
  ∧ r = mkReplicated (from_content content) (Z.min u16_max (acknowledgements store content)).
Proof.
  unfold p2p_put. pose proof (count_replicas_spec store content (archive_peers store) (0, None)
    ltac:(unfold u16_max; simpl; lia)) as Hc.
  destruct (fold_left _ _ _) as [n e]. simpl in Hc. rewrite Z.add_0_l in Hc.
  fold (acknowledgements store content) in Hc.
  assert (0 <= acknowledgements store content) by (unfold acknowledgements; lia).
  destruct (Z.eqb_spec n 0) as [Hz|Hz]; unfold u16_max in *.
  - split; [done|]. intros [? _]. lia.
  - rewrite Hc in *. split; [intros [= <-]; split; [lia|done]|]. by intros [_ ->].
Qed.

(** Over the peer-to-peer store, a receipt is published exactly when all
    signatures verify, it serializes, and enough volunteer peers acknowledged
    exactly its address: answers for another address and failed requests are
    not counted, and the store itself never reports a foreign address. *)
Theorem publish_over_p2p store to_json policy receipt now r :
  @publish_receipt _ (p2p_store store) to_json policy receipt now = Ok r ↔
  cosigned_verify receipt now = Ok tt
  ∧ ∃ content, to_json receipt = Ok content
      ∧ 0 < acknowledgements store content
      ∧ minimum_confirmed_replicas policy <= Z.min u16_max (acknowledgements store content)
      ∧ r = mkReplicated (from_content content) (Z.min u16_max (acknowledgements store content)).
Proof.
  rewrite (@publish_receipt_Ok _ (p2p_store store)). cbn [put p2p_store].
  setoid_rewrite p2p_put_Ok. split.
  - intros (Hv & content & Hj & [Ha ->] & _ & Hm). split; [done|]. by exists content.
  - intros (Hv & content & Hj & Ha & Hm & ->). split; [done|]. by exists content.
Qed.

(** ** Getting *)

(** The content of an answer that can be trusted: it hashes to the address. *)
Definition good_answer (address : ContentAddress) (response : StoreError + ArchiveFetchResponse)
    : option (list Z) :=
  match response with
  | inr r => if bool_decide (fetch_address r = address)
             then content ← fetch_content r;
                  if bool_decide (from_content content = address) then Some content else None
             else None
  | inl _ => None
  end.
(** An answer with the wrong address or the wrong content. *)
Definition bad_answer (address : ContentAddress) (response : StoreError + ArchiveFetchResponse) : bool :=
  match response with
  | inr r => negb (bool_decide (fetch_address r = address))
             || match fetch_content r with
                | Some content => negb (bool_decide (from_content content = address))
                | None => false
                end
  | inl _ => false
  end.
(** The peer does not have the content. *)
Definition absent_answer (address : ContentAddress) (response : StoreError + ArchiveFetchResponse) : bool :=
  match response with
  | inr r => bool_decide (fetch_address r = address) && bool_decide (fetch_content r = None)
  | inl _ => false
  end.
Definition last_failure (e : option StoreError) (responses : list (StoreError + ArchiveFetchResponse))
    : option StoreError :=
  fold_left (λ e r, match r with inl x => Some x | inr _ => e end) responses e.

Lemma scan_replicas_cases address m a e responses :
  scan_replicas address m a e responses
  = match head (omap (good_answer address) responses) with
    | Some content => Ok (Some content)
    | None => if m || existsb (bad_answer address) responses then Err IntegrityMismatch
              else if a || existsb (absent_answer address) responses then Ok None
              else Err (default (Unavailable "所有志愿归档节点均不可用") (last_failure e responses))
    end.
Proof.
  revert m a e. induction responses as [|[err|r] rest IH]; intros m a e; cbn [scan_replicas].
  - simpl. by rewrite !orb_false_r.
  - by rewrite IH.
  - simpl omap. unfold bad_answer at 1, absent_answer at 1. simpl.
    case_bool_decide as Ha; simpl; [|rewrite IH; by rewrite orb_true_r].
    destruct (fetch_content r) as [content|]; simpl.
    + case_bool_decide; simpl; [done|]. rewrite IH. by rewrite orb_true_r.
    + rewrite IH. simpl. by rewrite orb_true_r.
Qed.

Lemma good_answer_Some address response content :
  good_answer address response = Some content → from_content content = address.
Proof.
  destruct response as [|r]; simpl; [done|]. case_bool_decide; [|done].
  destruct (fetch_content r); simpl; [|done]. by case_bool_decide; intros [= <-].
Qed.

(** Archive peers cannot lie.  [get] returns only content that hashes to
    the address it was asked for; it finds the content as soon as one peer
    answers with it, whatever the others answer; a forged answer is reported
    as such and never as absence; absence needs a peer that says so. *)
Theorem p2p_get_spec store address :
  let answers := map (λ peer, get_replica peer address) (archive_peers store) in
  (∀ content, p2p_get store address = Ok (Some content) →
     from_content content = address ∧ ∃ r, r ∈ answers ∧ good_answer address r = Some content)
  ∧ ((∃ content, p2p_get store address = Ok (Some content)) ↔
     ∃ r, r ∈ answers ∧ is_Some (good_answer address r))
  ∧ (p2p_get store address = Ok None ↔
     (∀ r, r ∈ answers → good_answer address r = None ∧ bad_answer address r = false)
     ∧ ∃ r, r ∈ answers ∧ absent_answer address r = true)
  ∧ ((∀ r, r ∈ answers → good_answer address r = None) →
     (∃ r, r ∈ answers ∧ bad_answer address r = true) →
     p2p_get store address = Err IntegrityMismatch).
Proof.
  intros answers. unfold p2p_get. fold answers. rewrite scan_replicas_cases. cbn [orb].
  destruct (head (omap (good_answer address) answers)) as [content|] eqn:Hh.
  - apply head_Some in Hh as [rest Hr].
    assert (content ∈ omap (good_answer address) answers) as Hin by (rewrite Hr; left).
    apply list_elem_of_omap in Hin as (r & Hr1 & Hr2). split; [|split; [|split]].
    + intros content' [= <-]. split; [by eapply good_answer_Some|eauto].
    + split; [intros _; by eauto|eauto].
    + split; [done|]. intros [Hn _]. destruct (Hn r Hr1). congruence.
    + intros Hn. rewrite Hn in Hr2; done.
  - apply head_None in Hh.
    assert (∀ r, r ∈ answers → good_answer address r = None) as Hnone.
    { intros r Hr. apply eq_None_not_Some. intros [content Hc].
      assert (content ∈ omap (good_answer address) answers) as Hin by (apply list_elem_of_omap; eauto).
      rewrite Hh in Hin. set_solver. }
    split; [by intros; repeat case_match|]. split.
    + split; [intros [? ?]; by repeat case_match|]. intros (r & Hr & [content Hc]).
      rewrite Hnone in Hc; done.
    + split; [|intros _ (r & Hr & Hbr); by rewrite (proj2 (existsb_exists _ _)
                   (ex_intro _ r (conj (proj1 (list_elem_of_In _ _) Hr) Hbr)))].
      destruct (existsb (bad_answer address) answers) eqn:Hb.
      * split; [done|]. intros [Hn _]. apply existsb_exists in Hb as (r & Hr%list_elem_of_In & Hbr).
        destruct (Hn r Hr). congruence.
      * assert (∀ r, r ∈ answers → bad_answer address r = false) as Hgood.
        { intros r Hr. apply not_true_is_false. intros Hbr. apply not_true_iff_false in Hb. apply Hb.
          apply existsb_exists. exists r. by rewrite <-list_elem_of_In. }
        destruct (existsb (absent_answer address) answers) eqn:Ha.
        -- split; [|done]. intros _. split; [by auto|].
           apply existsb_exists in Ha as (r & Hr%list_elem_of_In & ?). eauto.
        -- split; [done|]. intros [_ (r & Hr & Har)]. apply not_true_iff_false in Ha. destruct Ha.
           apply existsb_exists. exists r. by rewrite <-list_elem_of_In.
Qed.
End archive.
