(* ===== verification/ArchiveNode.v ===== *)
(** * ArchiveNode: the volunteer archive (token-holdem-sidecar archive_runtime.rs)

    A volunteer keeps co-signed receipts and encrypted recovery packages in a
    directory.  [Disk] is the directory as [std::fs] shows it: the files, the
    directories, and how the operating system answers the calls to come.  A
    call may fail, a write may stop half-way, and another process may create
    the target of a rename first: [fs::rename] then replaces that file ([Done],
    which looks as if there had been no race) or, where the system refuses to
    replace it, fails ([Raced]).  The hex codec and the JSON codec are external
    classes. *)

From coqutil Require Import Datatypes.RecordSetters.
From S2P Require Import Prelude Machine Encoding Order Ids Receipt Identity SignedReceipt UseCases Wire.
Import OCamlLikeNotations.

Definition MAX_ARCHIVE_CONTENT_BYTES : Z := 256 * 1024.
Definition MAX_ARCHIVE_ENTRIES : Z := 100000.
Definition MAX_PLAYER_ARCHIVES : Z := 20000.
Definition MAX_RECOVERY_ENVELOPE_BYTES : Z := 64 * 1024.
Definition MAX_RECOVERY_ENTRIES : Z := 100000.
Definition MAX_REPLICATION_SECONDS : Z := 365 * 24 * 60 * 60.
Definition DEFAULT_REPLICATION_SECONDS : Z := 30 * 24 * 60 * 60.
Definition ARCHIVE_ACCEPT_DOMAIN : list Z := domain_bytes "token-holdem/archive-accept/v1".
Definition ARCHIVE_FETCH_DOMAIN : list Z := domain_bytes "token-holdem/archive-fetch/v1".
Definition ARCHIVE_LIST_DOMAIN : list Z := domain_bytes "token-holdem/archive-list/v1".
Definition RECOVERY_ACCEPT_DOMAIN : list Z := domain_bytes "token-holdem/recovery-accept/v1".
Definition RECOVERY_FETCH_DOMAIN : list Z := domain_bytes "token-holdem/recovery-fetch/v1".

Inductive IoCall := CreateDir | Canonicalize | OpenFile | WriteFile | SyncFile | ReadFile | ReadDir | RenameFile | RemoveFile.
Inductive ArchiveError :=
  | NodeDisabled | NotArchiveRequest
  | ContentSize | ReplicationPeriod | ContentAddressMismatch | NotReceipt | ReceiptRefused (e : SignedReceiptError)
  | ArchiveFull | RecoveryFull | DiskConflict | RetentionOverflow | ObjectCorrupt | TooManyPlayerArchives
  | AddressNotHex | AddressLength | NodeKeyLength | LocatorZero | EnvelopeSize
  | Io (c : IoCall)
  | ReceiptNotSerializable | NoArchivePeers | ReplicaCount
  | UploadMissing | FetchMissing | ListMissing | RecoveryUploadMissing | RecoveryFetchMissing.

(** ** Names *)

(** The crate [hex]. *)
Class HexCodec := {
  to_hex : list Z → list Z;
  from_hex : list Z → option (list Z);
}.
(** [Display] of [ContentAddress]: [{byte:02x}] for each byte. *)
Definition hex_digit (d : Z) : Z := if d <? 10 then 48 + d else 87 + d.
Definition display_hex (bytes : list Z) : list Z := flat_map (λ b, [hex_digit (b / 16); hex_digit (b mod 16)]) bytes.
Definition is_hex_digit (c : Z) : bool :=
  ((48 <=? c) && (c <=? 57)) || ((65 <=? c) && (c <=? 70)) || ((97 <=? c) && (c <=? 102)).
(** What [hex] documents: it writes lower-case digits, reads what it writes,
    and refuses every other character. *)
Class HexLaws `{HexCodec} : Prop := {
  hex_lower : ∀ bytes, to_hex bytes = display_hex bytes;
  hex_decodes : ∀ bytes, Forall is_byte bytes → from_hex (display_hex bytes) = Some bytes;
  hex_refuses : ∀ s, existsb (λ c, negb (is_hex_digit c)) s = true → from_hex s = None;
}.

(** [str::trim]: without the white space at both ends. *)
Definition skip_white (l : list Z) : option (list Z) :=
  match l with
  | [] => None
  | a :: l => if blank_bytes [a] then Some l else
      match l with
      | [] => None
      | b :: l => if blank_bytes [a; b] then Some l else
          match l with
          | [] => None
          | c :: l => if blank_bytes [a; b; c] then Some l else None
          end
      end
  end.
Fixpoint trim_start (fuel : nat) (l : list Z) : list Z :=
  match fuel with
  | O => l
  | S fuel => match skip_white l with Some l => trim_start fuel l | None => l end
  end.
Fixpoint trim_end (l : list Z) : list Z :=
  match l with
  | [] => []
  | a :: r => if blank_bytes l then [] else a :: trim_end r
  end.
Definition trim (l : list Z) : list Z := trim_end (trim_start (length l) l).

(** ** The directory *)
Inductive Dir := RootDir | ObjectsDir | PlayersDir | RecoveryDir | PlayerDir (player : list Z).
#[export] Instance Dir_eq_dec : EqDecision Dir.
Proof. solve_decision. Defined.
#[export] Instance Dir_countable : Countable Dir.
Proof.
  refine (inj_countable'
    (λ d, match d with RootDir => inl 0%nat | ObjectsDir => inl 1%nat | PlayersDir => inl 2%nat
                     | RecoveryDir => inl 3%nat | PlayerDir p => inr p end)
    (λ c, match c with inl 0%nat => RootDir | inl 1%nat => ObjectsDir | inl 2%nat => PlayersDir
                     | inl _ => RecoveryDir | inr p => PlayerDir p end) _).
  by intros [].
Defined.
Notation Path := (Dir * list Z)%type.

(** How the operating system answers one call: it is done; it fails, a write
    after [written] bytes; or, for a rename, another process has created the
    target with [other] in it and the system refuses to replace it. *)
Inductive Answer := Done | Failed (written : nat) | Raced (other : list Z).
Record Disk := mkDisk {
  files : gmap Path (list Z);
  dirs : gset Dir;
  answers : list Answer;        (* of the calls to come; then all are done *)
  nonces : list (list Z);       (* what [OsRng] gives next; then zeros *)
}.
Notation DiskM := (M Disk ArchiveError).
(** The order of [fs::read_dir], which depends on the platform. *)
Class DirOrder := { dir_order : list (list Z) → list (list Z) }.
Class DirOrderLaws `{DirOrder} : Prop := { dir_order_perm : ∀ l, dir_order l ≡ₚ l }.

Section disk.
Implicit Types (p : Path) (d : Disk).

Definition next_answer : DiskM Answer :=
  λ d, match answers d with [] => (Ok Done, d) | o :: rest => (Ok o, { d with answers := rest }) end.
Definition random_bytes (n : nat) : DiskM (list Z) :=
  λ d, match nonces d with
       | [] => (Ok (replicate n 0), d)
       | b :: rest => (Ok (take n (b ++ replicate n 0)), { d with nonces := rest })
       end.
Definition attempt {A} (c : IoCall) (m : DiskM A) : DiskM A :=
  o ← next_answer; match o with Done => m | _ => lift (Err (Io c)) end.
Definition set_disk (f : Disk → Disk) : DiskM unit := modify f.

(** [Path::exists], [fs::create_dir_all], [fs::read], [fs::remove_file]. *)
Definition path_exists p : DiskM bool := gets (λ d, bool_decide (is_Some (files d !! p))).
Definition parent_dirs (dir : Dir) : gset Dir :=
  match dir with PlayerDir _ => {[RootDir; PlayersDir; dir]} | _ => {[RootDir; dir]} end.
Definition create_dir_all (dir : Dir) : DiskM unit :=
  attempt CreateDir (set_disk (λ d, { d with dirs ::= λ s, parent_dirs dir ∪ s })).
Definition read_file p : DiskM (list Z) :=
  attempt ReadFile (c ← gets (λ d, files d !! p); lift (ok_or c (Io ReadFile))).
Definition remove_file p : DiskM unit :=
  attempt RemoveFile
    (c ← gets (λ d, files d !! p); _ ← lift (ok_or c (Io RemoveFile));
     set_disk (λ d, { d with files ::= delete p })).

(** [OpenOptions::new().create_new(true).write(true).open(..)], [write_all],
    [sync_all], [fs::rename]. *)
Definition create_new p : DiskM unit :=
  attempt OpenFile
    (d ← gets id;
     _ ← lift (reject_if (bool_decide (is_Some (files d !! p)) || negb (bool_decide (p.1 ∈ dirs d))) (Io OpenFile));
     set_disk (λ d, { d with files ::= <[p := []]> })).
Definition write_all p (content : list Z) : DiskM unit :=
  o ← next_answer;
  match o with
  | Done => set_disk (λ d, { d with files ::= <[p := content]> })
  | Failed n => _ ← set_disk (λ d, { d with files ::= <[p := take n content]> }); lift (Err (Io WriteFile))
  | Raced _ => lift (Err (Io WriteFile))
  end.
Definition sync_all : DiskM unit := attempt SyncFile (mret tt).
(** The result of [fs::rename] is inspected by the caller.  A rename that is
    [Done] replaces a file that is at the target, whoever put it there. *)
Definition rename (source target : Path) : DiskM bool :=
  o ← next_answer;
  match o with
  | Done => c ← gets (λ d, files d !! source);
            match c with
            | Some c => _ ← set_disk (λ d, { d with files ::= λ m, <[target := c]> (delete source m) }); mret true
            | None => mret false
            end
  | Failed _ => mret false
  | Raced other => _ ← set_disk (λ d, { d with files ::= <[target := other]> }); mret false
  end.

(** The names in a directory, in the order the system lists them. *)
Context `{DirOrder}.
Definition dir_names d (dir : Dir) : list (list Z) :=
  dir_order (map (λ e : Path * list Z, e.1.2) (filter (λ e : Path * list Z, e.1.1 = dir) (map_to_list (files d)))).
Definition read_dir (dir : Dir) : DiskM (list (list Z)) :=
  attempt ReadDir
    (d ← gets id; _ ← lift (reject_if (negb (bool_decide (dir ∈ dirs d))) (Io ReadDir)); mret (dir_names d dir)).
(** [read_dir(..).take(max + 1).count()]. *)
Definition count_entries (dir : Dir) (max : Z) : DiskM Z :=
  names ← read_dir dir; mret (Z.min (max + 1) (Z.of_nat (length names))).

(** [atomic_write_if_absent]. *)
Definition TMP_PREFIX : list Z := string_bytes ".tmp-".
Definition settle_rename (moved : bool) (temporary p : Path) (content : list Z) : DiskM unit :=
  if moved then mret tt else
  present ← path_exists p;
  if (present : bool) then
    existing ← read_file p;
    _ ← remove_file temporary;
    lift (reject_if (negb (bool_decide (existing = content))) DiskConflict)
  else
    _ ← (λ d, (Ok tt, (remove_file temporary d).2));
    lift (Err (Io RenameFile)).
Definition atomic_write_if_absent `{HexCodec} p (content : list Z) : DiskM unit :=
  present ← path_exists p;
  if (present : bool) then
    existing ← read_file p;
    lift (reject_if (negb (bool_decide (existing = content))) DiskConflict)
  else
    _ ← create_dir_all p.1;
    nonce ← random_bytes 8;
    let temporary := (p.1, TMP_PREFIX ++ to_hex nonce) in
    _ ← create_new temporary;
    _ ← write_all temporary content;
    _ ← sync_all;
    moved ← rename temporary p;
    settle_rename moved temporary p content.
End disk.

(** [Vec::vec_dedup]: one of each run of equal neighbours. *)
Fixpoint vec_dedup {A} `{EqDecision A} (l : list A) : list A :=
  match l with
  | x :: (y :: _) as rest => if bool_decide (x = y) then vec_dedup rest else x :: vec_dedup rest
  | _ => l
  end.

(** ** What a node signs *)
Section documents.
Context `{Crypto}.
Definition acceptance_signing_bytes (address : ContentAddress) (until : Z) : list Z :=
  ARCHIVE_ACCEPT_DOMAIN ++ as_bytes address ++ be_bytes 8 until.
Definition optional_hash (content : option (list Z)) : list Z :=
  match content with Some c => 1 :: blake3 c | None => [0] end.
Definition fetch_signing_bytes (address : ContentAddress) (content : option (list Z)) : list Z :=
  ARCHIVE_FETCH_DOMAIN ++ as_bytes address ++ optional_hash content.
Definition list_signing_bytes (player : PlayerId) (addresses : list ContentAddress) : list Z :=
  ARCHIVE_LIST_DOMAIN ++ as_bytes player ++ be_bytes 4 (as_u32 (Z.of_nat (length addresses)))
  ++ flat_map as_bytes addresses.
Definition recovery_acceptance_signing_bytes (locator : Locator) (until : Z) : list Z :=
  RECOVERY_ACCEPT_DOMAIN ++ locator ++ be_bytes 8 until.
Definition recovery_fetch_signing_bytes (locator : Locator) (content : option (list Z)) : list Z :=
  RECOVERY_FETCH_DOMAIN ++ locator ++ optional_hash content.
End documents.

(** [validate_recovery_locator], [validate_recovery_object]. *)
Definition validate_recovery_locator (locator : Locator) : result ArchiveError unit :=
  reject_if (bool_decide (locator = replicate 32 0)) LocatorZero.
Definition validate_recovery_object (locator : Locator) (envelope : list Z) : result ArchiveError unit :=
  _ ← validate_recovery_locator locator;
  reject_if ((length envelope =? 0)%nat || (MAX_RECOVERY_ENVELOPE_BYTES <? Z.of_nat (length envelope))) EnvelopeSize.

(** [parse_content_address]. *)
Definition parse_content_address `{HexCodec} (value : list Z) : result ArchiveError ContentAddress :=
  decoded ← ok_or (from_hex (trim value)) AddressNotHex;
  _ ← reject_if (negb (length decoded =? 32)%nat) AddressLength;
  Ok (Ident decoded).

(** ** [VolunteerArchive] *)

(** [serde_json] on receipts. *)
Class ReceiptJson := {
  receipt_to_json : CoSignedReceipt → option (list Z);
  receipt_from_json : list Z → option CoSignedReceipt;
}.

(** The root is fixed; the signing key is its seed. *)
Record VolunteerArchive := mkArchive { signer_seed : list Z }.

Section node.
Context `{Crypto, !HexCodec, !DirOrder, !ReceiptJson}.
Implicit Types node : VolunteerArchive.

Definition KEY_PATH : Path := (RootDir, string_bytes "archive-signing-key").
Definition object_path (address : ContentAddress) : Path := (ObjectsDir, display_hex (as_bytes address)).
Definition player_dir (player : PlayerId) : Dir := PlayerDir (to_hex (as_bytes player)).
Definition index_path (player : PlayerId) (address : ContentAddress) : Path :=
  (player_dir player, display_hex (as_bytes address)).
Definition recovery_path (locator : Locator) : Path := (RecoveryDir, to_hex locator).

(** [VolunteerArchive::open]; the canonical root is a directory, since it was
    just created. *)
Definition archive_open : DiskM VolunteerArchive :=
  _ ← create_dir_all RootDir;
  _ ← attempt Canonicalize (mret tt);
  _ ← create_dir_all ObjectsDir;
  _ ← create_dir_all PlayersDir;
  _ ← create_dir_all RecoveryDir;
  present ← path_exists KEY_PATH;
  if (present : bool) then
    bytes ← read_file KEY_PATH;
    _ ← lift (reject_if (negb (length bytes =? 32)%nat) NodeKeyLength);
    mret (mkArchive bytes)
  else
    seed ← random_bytes 32;
    _ ← atomic_write_if_absent KEY_PATH seed;
    mret (mkArchive seed).
Definition archive_public_key node : list Z := verifying_key (signer_seed node).

Definition accepted_until (now seconds : Z) : result ArchiveError Z :=
  ok_or (u64_checked_add now (Z.min u64_max (seconds * 1000))) RetentionOverflow.
Definition index_receipt (address : ContentAddress) (player : PlayerId) : DiskM unit :=
  _ ← create_dir_all (player_dir player);
  atomic_write_if_absent (index_path player address) (string_bytes "1").
(** A directory takes a new entry only below its limit. *)
Definition check_capacity (p : Path) (max : Z) (full : ArchiveError) : DiskM unit :=
  present ← path_exists p;
  if (present : bool) then mret tt else
  entries ← count_entries p.1 max;
  lift (reject_if (max <=? entries) full).

(** [put], [fetch], [list]. *)
Definition archive_put node (request : ArchiveRequest) (now : Z) : DiskM ArchiveResponse :=
  let content := request_content request in
  let address := request_address request in
  _ ← lift (reject_if ((length content =? 0)%nat || (MAX_ARCHIVE_CONTENT_BYTES <? Z.of_nat (length content))) ContentSize);
  _ ← lift (reject_if ((requested_seconds request =? 0) || (MAX_REPLICATION_SECONDS <? requested_seconds request))
              ReplicationPeriod);
  _ ← lift (reject_if (negb (bool_decide (from_content content = address))) ContentAddressMismatch);
  receipt ← lift (ok_or (receipt_from_json content) NotReceipt);
  _ ← lift (map_err ReceiptRefused (cosigned_verify receipt now));
  _ ← check_capacity (object_path address) MAX_ARCHIVE_ENTRIES ArchiveFull;
  _ ← atomic_write_if_absent (object_path address) content;
  _ ← for_each (λ o, index_receipt address (out_player o)) (outcomes (co_receipt receipt));
  until ← lift (accepted_until now (requested_seconds request));
  mret (mkArchiveResponse address until (archive_public_key node)
          (sign (signer_seed node) (acceptance_signing_bytes address until))).
Definition archive_fetch node (address : ContentAddress) : DiskM ArchiveFetchResponse :=
  present ← path_exists (object_path address);
  content ← (if (present : bool) then
               content ← read_file (object_path address);
               _ ← lift (reject_if ((MAX_ARCHIVE_CONTENT_BYTES <? Z.of_nat (length content))
                                    || negb (bool_decide (from_content content = address))) ObjectCorrupt);
               mret (Some content)
             else mret None);
  mret (mkFetchResponse address content (archive_public_key node)
          (sign (signer_seed node) (fetch_signing_bytes address content))).
(** The loop of [list], over the entries after [addresses] were read. *)
Fixpoint list_entries (names : list (list Z)) (addresses : list ContentAddress) : DiskM (list ContentAddress) :=
  match names with
  | [] => mret addresses
  | name :: names =>
      _ ← lift (reject_if (MAX_PLAYER_ARCHIVES <=? Z.of_nat (length addresses)) TooManyPlayerArchives);
      _ ← attempt ReadDir (mret tt);
      address ← lift (parse_content_address name);
      list_entries names (addresses ++ [address])
  end.
Definition archive_list node (player : PlayerId) : DiskM ArchiveListResponse :=
  present ← gets (λ d, bool_decide (player_dir player ∈ dirs d));
  addresses ← (if (present : bool) then
                 names ← read_dir (player_dir player);
                 list_entries (take (Z.to_nat (MAX_PLAYER_ARCHIVES + 1)) names) []
               else mret []);
  let addresses := vec_dedup (sort_by_key id addresses) in
  mret (mkListResponse player addresses (archive_public_key node)
          (sign (signer_seed node) (list_signing_bytes player addresses))).

(** [put_recovery], [fetch_recovery]. *)
Definition archive_put_recovery node (request : RecoveryStoreRequest) (now : Z) : DiskM RecoveryStoreResponse :=
  let locator := store_locator request in
  _ ← lift (validate_recovery_object locator (store_envelope request));
  _ ← lift (reject_if ((store_seconds request =? 0) || (MAX_REPLICATION_SECONDS <? store_seconds request))
              ReplicationPeriod);
  _ ← check_capacity (recovery_path locator) MAX_RECOVERY_ENTRIES RecoveryFull;
  _ ← atomic_write_if_absent (recovery_path locator) (store_envelope request);
  until ← lift (accepted_until now (store_seconds request));
  mret (mkRecoveryStored locator until (archive_public_key node)
          (sign (signer_seed node) (recovery_acceptance_signing_bytes locator until))).
Definition archive_fetch_recovery node (locator : Locator) : DiskM RecoveryFetchResponse :=
  _ ← lift (validate_recovery_locator locator);
  present ← path_exists (recovery_path locator);
  envelope ← (if (present : bool) then
                content ← read_file (recovery_path locator);
                _ ← lift (validate_recovery_object locator content);
                mret (Some content)
              else mret None);
  mret (mkRecoveryFetched locator envelope (archive_public_key node)
          (sign (signer_seed node) (recovery_fetch_signing_bytes locator envelope))).
End node.
