(* ===== verification/ArchiveKeep.v ===== *)
(** * ArchiveKeep: what a volunteer archive keeps

    The node's directory only grows: whatever fails, and whatever other
    processes do, no request changes or removes a file that was there
    ([disk_le]).  A receipt that was accepted is found again under its address
    and in the index of each of its players. *)

From coqutil Require Import Datatypes.RecordSetters.
From S2P Require Import Prelude Machine Encoding Order Ids Receipt Identity SignedReceipt UseCases Wire ArchiveNode.
Import OCamlLikeNotations.

Definition is_temp (name : list Z) : bool := bool_decide (take 5 name = TMP_PREFIX).

(** ** Names *)
Lemma hex_digit_range d : 0 <= d < 16 → 48 <= hex_digit d <= 57 ∨ 97 <= hex_digit d <= 102.
Proof. unfold hex_digit. case_match; bool_props; lia. Qed.
Lemma hex_digit_inj d e : 0 <= d < 16 → 0 <= e < 16 → hex_digit d = hex_digit e → d = e.
Proof. unfold hex_digit. repeat case_match; bool_props; lia. Qed.
Lemma byte_nibbles b : is_byte b → 0 <= b / 16 < 16 ∧ 0 <= b mod 16 < 16.
Proof. unfold is_byte. intros ?. pose proof (Z.mod_pos_bound b 16). split; [|lia]. split; [apply Z.div_pos; lia|apply Z.div_lt_upper_bound; lia]. Qed.
Lemma display_hex_inj l k : Forall is_byte l → Forall is_byte k → display_hex l = display_hex k → l = k.
Proof.
  intros Hl. revert k. induction Hl as [|b l Hb Hl IH]; intros [|c k] Hk Heq; try done.
  apply Forall_cons in Hk as [Hc Hk]. cbn in Heq. injection Heq as E1 E2 E3.
  destruct (byte_nibbles b Hb), (byte_nibbles c Hc).
  apply hex_digit_inj in E1; [|done..]. apply hex_digit_inj in E2; [|done..]. f_equal; [|by apply IH].
  rewrite (Z.div_mod b 16), (Z.div_mod c 16) by lia. congruence.
Qed.
Lemma display_hex_digits l : Forall is_byte l → Forall (λ c, 48 <= c <= 57 ∨ 97 <= c <= 102) (display_hex l).
Proof.
  induction 1 as [|b l Hb _ IH]; cbn; [done|]. destruct (byte_nibbles b Hb).
  repeat (constructor; [by apply hex_digit_range|]). done.
Qed.
Lemma display_not_temp l : Forall is_byte l → is_temp (display_hex l) = false.
Proof.
  intros Hl%display_hex_digits. unfold is_temp. apply bool_decide_eq_false. intros E.
  assert (take 1 (display_hex l) = [46]) as E1.
  { change [46] with (take 1 TMP_PREFIX). rewrite <-E, take_take. done. }
  destruct (display_hex l) as [|c r]; [done|]. injection E1 as ->. apply Forall_cons in Hl as [? _]. lia.
Qed.
Lemma temp_named nonce : is_temp (TMP_PREFIX ++ nonce) = true.
Proof. unfold is_temp. by apply bool_decide_eq_true. Qed.

(** Names of hexadecimal digits have no white space around them. *)
Lemma digit_not_blank c l : 33 <= c <= 127 → blank_bytes (c :: l) = false.
Proof.
  intros ?. cbn [blank_bytes]. replace (_ || (c =? 32)) with false by (symmetry; bool_props; lia).
  destruct l as [|b l]; [done|]. replace (c =? 194) with false by lia. cbn [andb].
  destruct l as [|e l]; [done|].
  replace (c =? 225) with false by lia. replace (c =? 226) with false by lia. replace (c =? 227) with false by lia. done.
Qed.
Lemma trim_digits l : Forall (λ c, 33 <= c <= 127) l → trim l = l.
Proof.
  intros Hl. unfold trim. assert (∀ fuel, trim_start fuel l = l) as ->.
  { intros [|fuel]; [done|]. cbn [trim_start]. destruct Hl as [|c l Hc Hl]; [done|]. unfold skip_white.
    rewrite digit_not_blank by done. destruct l as [|b l]; [done|]. rewrite digit_not_blank by done.
    destruct l as [|e l]; [done|]. by rewrite digit_not_blank. }
  induction Hl as [|c l Hc Hl IH]; [done|]. cbn [trim_end]. by rewrite digit_not_blank, IH.
Qed.
Lemma parse_display `{HexLaws} (a : ContentAddress) :
  Forall is_byte (as_bytes a) → length (as_bytes a) = 32%nat → parse_content_address (display_hex (as_bytes a)) = Ok a.
Proof.
  intros Ha Hlen. unfold parse_content_address. rewrite trim_digits, hex_decodes by
    (done || (eapply Forall_impl; [by apply display_hex_digits|]; intros; simpl in *; lia)).
  cbn [ok_or mbind result_bind]. rewrite Hlen. cbn. by destruct a.
Qed.
(** The name of a temporary file is not an address. *)
Lemma trim_keeps_head c l : 33 <= c <= 127 → trim (c :: l) = c :: trim_end l.
Proof.
  intros Hc. unfold trim. assert (skip_white (c :: l) = None) as E.
  { unfold skip_white. rewrite digit_not_blank by done. destruct l as [|b l]; [done|]. rewrite digit_not_blank by done.
    destruct l as [|e l]; [done|]. by rewrite digit_not_blank. }
  cbn [length trim_start]. rewrite E. cbn [trim_end]. by rewrite digit_not_blank.
Qed.
Lemma parse_temp `{HexLaws} name : is_temp name = true → parse_content_address name = Err AddressNotHex.
Proof.
  intros Ht. apply bool_decide_eq_true in Ht. unfold parse_content_address.
  destruct name as [|c name]; [discriminate Ht|]. cbn [take] in Ht. injection Ht as -> _.
  rewrite trim_keeps_head by done. by rewrite hex_refuses.
Qed.

(** ** Calls of the file system *)
Definition disk_le (d e : Disk) : Prop := files d ⊆ files e ∧ dirs d ⊆ dirs e.
#[export] Instance disk_le_preorder : PreOrder disk_le.
Proof. split; [by intros d|]. intros d e f [? ?] [? ?]. split; by etrans. Qed.
(** The same files and directories; other answers of the system to come. *)
Definition disk_eq (d e : Disk) : Prop := files e = files d ∧ dirs e = dirs d.
Lemma disk_eq_le d e : disk_eq d e → disk_le d e.
Proof. intros [Ef Ed]. split; [by rewrite Ef|by rewrite Ed]. Qed.

Lemma next_answer_run d : ∃ o e, next_answer d = (Ok o, e) ∧ disk_eq d e.
Proof. unfold next_answer. destruct (answers d) as [|o l]; [exists Done|exists o]; by eexists. Qed.
Lemma random_run n d : ∃ b e, random_bytes n d = (Ok b, e) ∧ disk_eq d e.
Proof. unfold random_bytes. destruct (nonces d) as [|b l]; do 2 eexists; done. Qed.
Lemma attempt_run {A} c (m : DiskM A) d : ∃ e, disk_eq d e ∧ (attempt c m d = (Err (Io c), e) ∨ attempt c m d = m e).
Proof.
  unfold attempt. destruct (next_answer_run d) as (o & e & E & He). rewrite run_bind, E. exists e. split; [done|].
  destruct o; auto.
Qed.
Lemma create_dir_le dir : steps disk_le (create_dir_all dir).
Proof.
  intros d. unfold create_dir_all. destruct (attempt_run CreateDir (set_disk (λ d, { d with dirs ::= λ s, parent_dirs dir ∪ s })) d)
    as (e & He & [->| ->]); [by apply disk_eq_le|]. etrans; [by apply disk_eq_le|]. split; [done|]. cbn. set_solver.
Qed.
Lemma create_dir_files dir d : files (create_dir_all dir d).2 = files d.
Proof.
  unfold create_dir_all. destruct (attempt_run CreateDir (set_disk (λ d, { d with dirs ::= λ s, parent_dirs dir ∪ s })) d)
    as (e & [He _] & [->| ->]); done.
Qed.
Lemma read_file_run p d : ∃ e, disk_eq d e ∧ (read_file p d).2 = e ∧ (∀ c, (read_file p d).1 = Ok c → files d !! p = Some c).
Proof.
  unfold read_file. match goal with |- context [attempt ?c ?m d] => destruct (attempt_run c m d) as (e & He & [-> | ->]) end;
    exists e; split; [done| |done|]; [done|]. destruct He as [<- _]. rewrite run_bind. cbn.
  destruct (files e !! p); cbn; [|done]. split; [done|]. by intros ? [= ->].
Qed.

(** ** Writing a file *)

(** Only the files [p] and [t] change, and directories are not removed. *)
Definition touches (p t : Path) (d e : Disk) : Prop :=
  (∀ q, q ≠ p → q ≠ t → files e !! q = files d !! q) ∧ dirs d ⊆ dirs e.
#[export] Instance touches_preorder p t : PreOrder (touches p t).
Proof.
  split; [by intros d|]. intros d e f [Hf Hd] [Hf' Hd']. split; [|by etrans]. intros q Hp Ht. by rewrite Hf', Hf.
Qed.
Lemma disk_eq_touches p t d e : disk_eq d e → touches p t d e.
Proof. intros [Ef Ed]. split; [by intros; rewrite Ef|by rewrite Ed]. Qed.
Lemma touches_attempt {A} p t c (m : DiskM A) : steps (touches p t) m → steps (touches p t) (attempt c m).
Proof.
  intros Hm d. destruct (attempt_run c m d) as (e & He & [-> | ->]); [by apply disk_eq_touches|].
  etrans; [by apply disk_eq_touches|apply Hm].
Qed.
Lemma touches_next p t : steps (touches p t) next_answer.
Proof. intros d. destruct (next_answer_run d) as (o & e & -> & He). by apply disk_eq_touches. Qed.
Lemma touches_insert p t q c : q = p ∨ q = t → steps (touches p t) (set_disk (λ d, { d with files ::= <[q := c]> })).
Proof. intros Hq d. split; [|done]. intros r Hp Ht. cbn. rewrite lookup_insert_ne; [done|]. intros ->. by destruct Hq. Qed.
Lemma touches_remove p t q : q = p ∨ q = t → steps (touches p t) (remove_file q).
Proof.
  intros Hq. apply touches_attempt. do 2 (apply (steps_bind _); [by intros d|]; intros ?). intros d. split; [|done].
  intros r Hp Ht. cbn. rewrite lookup_delete_ne; [done|]. intros ->. by destruct Hq.
Qed.
Lemma touches_read p t q : steps (touches p t) (read_file q).
Proof. intros d. destruct (read_file_run q d) as (e & He & -> & _). by apply disk_eq_touches. Qed.
Lemma touches_rename p t : steps (touches p t) (rename t p).
Proof.
  apply (steps_bind _); [apply touches_next|]. intros [|n|c]; [|by intros d|].
  - apply (steps_bind _); [by intros d|]. intros [c|]; [|by intros d]. apply (steps_bind _); [|by intros ? d].
    intros d. split; [|done]. intros q Hp Ht. cbn. by rewrite lookup_insert_ne, lookup_delete_ne.
  - apply (steps_bind _); [by apply touches_insert; left|by intros ? d].
Qed.
Lemma touches_settle p t moved content : steps (touches p t) (settle_rename moved t p content).
Proof.
  unfold settle_rename. destruct moved; [by intros d|]. apply (steps_bind _); [by intros d|]. intros [].
  - apply (steps_bind _); [apply touches_read|]. intros existing. apply (steps_bind _); [by apply touches_remove; right|].
    by intros ? d.
  - apply (steps_bind _); [|by intros ? d]. intros d. apply (touches_remove p t t); by right.
Qed.
Lemma touches_write p t q content : q = p ∨ q = t → steps (touches p t) (write_all q content).
Proof.
  intros Hq. apply (steps_bind _); [apply touches_next|]. intros [|n|c]; [by apply touches_insert| |by intros d].
  apply (steps_bind _); [by apply touches_insert|by intros ? d].
Qed.
Lemma touches_create_new p t q : q = p ∨ q = t → steps (touches p t) (create_new q).
Proof. intros Hq. apply touches_attempt. do 2 (apply (steps_bind _); [by intros d|]; intros ?). by apply touches_insert. Qed.
Lemma touches_create_dir p t dir : steps (touches p t) (create_dir_all dir).
Proof. apply touches_attempt. intros d. split; [done|]. cbn. set_solver. Qed.

(** When it succeeds, the file is there. *)
Lemma write_all_Ok q content d e : write_all q content d = (Ok tt, e) → files e !! q = Some content.
Proof.
  unfold write_all. rewrite run_bind. destruct (next_answer_run d) as (o & d' & -> & _). destruct o; intros [= <-].
  apply lookup_insert_eq.
Qed.
Lemma settle_Ok p t content d moved e f :
  p ≠ t → rename t p d = (Ok moved, e) → files d !! t = Some content → settle_rename moved t p content e = (Ok tt, f) →
  files f !! p = Some content.
Proof.
  intros Hne Hr Ht Hs. destruct moved; cbn [settle_rename] in Hs.
  - injection Hs as <-. unfold rename in Hr. rewrite run_bind in Hr.
    destruct (next_answer_run d) as (o & d' & E & [Ef _]). rewrite E in Hr. destruct o; [|discriminate Hr..].
    rewrite run_bind in Hr. cbn in Hr. rewrite Ef, Ht in Hr. injection Hr as <-. apply lookup_insert_eq.
  - unfold settle_rename, path_exists in Hs. rewrite run_bind in Hs. cbn [gets] in Hs. case_bool_decide; [|discriminate Hs].
    rewrite run_bind in Hs. destruct (read_file_run p e) as (e' & [Ef _] & E2 & Hok).
    destruct (read_file p e) as [[c|?|] u]; [|discriminate Hs..]. cbn in E2. subst u. specialize (Hok c eq_refl).
    rewrite run_bind in Hs. pose proof (touches_remove t t t (or_introl eq_refl) e') as [Hrm _].
    destruct (remove_file t e') as [[[]|?|] g]; [|discriminate Hs..]. unfold lift, reject_if in Hs.
    destruct (bool_decide (c = content)) eqn:Hb; [|discriminate Hs]. apply bool_decide_eq_true in Hb. injection Hs as <-.
    cbn in Hrm. rewrite Hrm by done. by rewrite Ef, Hok, Hb.
Qed.

Section write.
Context `{HexCodec}.

(** The temporary file of a write. *)
Definition temp_of (p : Path) (nonce : list Z) : Path := (p.1, TMP_PREFIX ++ to_hex nonce).
(** The write of a new file, after its directory was made. *)
Lemma write_new_run p content d r e nonce :
  is_temp p.2 = false →
  (_ ← create_new (temp_of p nonce); _ ← write_all (temp_of p nonce) content; _ ← sync_all;
   moved ← rename (temp_of p nonce) p; settle_rename moved (temp_of p nonce) p content) d = (r, e) →
  touches p (temp_of p nonce) d e ∧ (r = Ok tt → files e !! p = Some content)
  ∧ (files d !! temp_of p nonce = None ∨ files e = files d).
Proof.
  intros Hp Hrun. set (t := temp_of p nonce) in *.
  assert (p ≠ t) as Hne. { intros E. pose proof (temp_named (to_hex nonce)) as Ht. change (is_temp t.2 = true) in Ht. congruence. }
  split; [|split].
  - replace e with ((_ ← create_new t; _ ← write_all t content; _ ← sync_all;
      moved ← rename t p; settle_rename moved t p content) d).2 by (by rewrite Hrun).
    generalize d. clear Hrun. change (steps (touches p t) (_ ← create_new t; _ ← write_all t content; _ ← sync_all;
      moved ← rename t p; settle_rename moved t p content)).
    apply (steps_bind _); [apply touches_create_new; by right|]. intros _.
    apply (steps_bind _); [apply touches_write; by right|]. intros _.
    apply (steps_bind _); [by apply touches_attempt; intros ?|]. intros _.
    apply (steps_bind _); [apply touches_rename|]. intros moved. apply touches_settle.
  - intros ->. rewrite run_bind in Hrun. destruct (create_new t d) as [[[]|?|] d1]; [|discriminate Hrun..].
    rewrite run_bind in Hrun. destruct (write_all t content d1) as [[[]|?|] d2] eqn:Hw; [|discriminate Hrun..].
    apply write_all_Ok in Hw. rewrite run_bind in Hrun. destruct (attempt_run SyncFile (mret tt) d2) as (d3 & [Ef _] & Hs).
    destruct Hs as [Hs|Hs]; fold sync_all in Hs; rewrite Hs in Hrun; [discriminate Hrun|]. rewrite <-Ef in Hw. cbn [mret M_ret] in Hrun.
    rewrite run_bind in Hrun. destruct (rename t p d3) as [[moved|?|] d4] eqn:Hr; [|discriminate Hrun..].
    by eapply settle_Ok.
  - rewrite run_bind in Hrun. unfold create_new in Hrun at 1.
    match type of Hrun with context [attempt ?c ?m d] => destruct (attempt_run c m d) as (d1 & [Ef _] & [E|E]); rewrite E in Hrun end.
    { injection Hrun as _ <-. by right. }
    rewrite run_bind in Hrun. cbn [gets id] in Hrun. destruct (files d1 !! t) eqn:Ht; [|left; by rewrite <-Ef].
    right. rewrite run_bind in Hrun. unfold lift at 1, reject_if at 1 in Hrun. rewrite bool_decide_true in Hrun by done.
    cbn in Hrun. injection Hrun as _ <-. done.
Qed.
Lemma atomic_write_run p content d r e :
  is_temp p.2 = false → atomic_write_if_absent p content d = (r, e) →
  disk_le d e ∧ (r = Ok tt → files e !! p = Some content).
Proof.
  intros Hp Hrun. unfold atomic_write_if_absent, path_exists in Hrun. rewrite run_bind in Hrun. cbn [gets] in Hrun.
  case_bool_decide as Hpres.
  - rewrite run_bind in Hrun. destruct (read_file_run p d) as (d' & Heq & E2 & Hok).
    destruct (read_file p d) as [[c|?|] u]; cbn in E2; subst u; [|by injection Hrun as <- <-; split; [apply disk_eq_le|]..].
    unfold lift, reject_if in Hrun. destruct (bool_decide (c = content)) eqn:Hb; injection Hrun as <- <-;
      (split; [by apply disk_eq_le|]); [|done]. apply bool_decide_eq_true in Hb as <-. intros _.
    destruct Heq as [-> _]. by apply Hok.
  - rewrite run_bind in Hrun. pose proof (create_dir_le p.1 d) as Hcd. pose proof (create_dir_files p.1 d) as Hcf.
    destruct (create_dir_all p.1 d) as [[[]|?|] d1]; cbn [snd] in Hcd, Hcf; [|by injection Hrun as <- <-..].
    rewrite run_bind in Hrun. destruct (random_run 8 d1) as (nonce & d2 & E & Heq). rewrite E in Hrun.
    destruct (write_new_run p content d2 r e nonce Hp Hrun) as ([Ht Hd] & Hok & Hfresh). split; [|done].
    destruct Heq as [Ef Ed]. rewrite Ed in Hd. split; [|destruct Hcd; by etrans].
    apply map_subseteq_spec. intros q c Hq. rewrite Ef, Hcf in *. destruct Hfresh as [Hn| ->]; [|done].
    rewrite Ht; [done|..]; intros ->; [|congruence]. apply Hpres. by exists c.
Qed.
Lemma atomic_write_le p content : is_temp p.2 = false → steps disk_le (atomic_write_if_absent p content).
Proof. intros Hp d. destruct (atomic_write_if_absent p content d) eqn:E. by eapply atomic_write_run. Qed.
End write.

(** ** The node *)

(** The bytes of the identifiers, which are arrays in the source. *)
Definition bytes_ok {t} (i : ident t) : Prop := Forall is_byte (as_bytes i) ∧ length (as_bytes i) = 32%nat.
Definition receipt_ids_ok (c : CoSignedReceipt) : Prop := Forall (λ o, bytes_ok (out_player o)) (outcomes (co_receipt c)).

Section node_keeps.
Context `{Crypto, !CryptoLaws, !HexCodec, !HexLaws, !DirOrder, !DirOrderLaws, !ReceiptJson}.
Implicit Types (node : VolunteerArchive) (d e : Disk).

Lemma le_read p : steps disk_le (read_file p).
Proof. intros d. destruct (read_file_run p d) as (e & He & -> & _). by apply disk_eq_le. Qed.
Lemma le_attempt {A} c (m : DiskM A) : steps disk_le m → steps disk_le (attempt c m).
Proof.
  intros Hm d. destruct (attempt_run c m d) as (e & He & [-> | ->]); [by apply disk_eq_le|].
  etrans; [by apply disk_eq_le|apply Hm].
Qed.
Lemma le_capacity p max full : steps disk_le (check_capacity p max full).
Proof.
  apply (steps_bind _); [by intros d|]. intros []; [by intros d|]. apply (steps_bind _); [|by intros ? d].
  apply (steps_bind _); [|by intros ? d]. apply le_attempt.
  do 2 (apply (steps_bind _); [by intros d|]; intros ?). by intros d.
Qed.
Lemma le_index address player : bytes_ok address → steps disk_le (index_receipt address player).
Proof.
  intros [Ha _]. apply (steps_bind _); [apply create_dir_le|]. intros _. apply atomic_write_le. by apply display_not_temp.
Qed.

Ltac le_auto := repeat match goal with
  | |- steps _ (lift _) => apply (steps_lift _)
  | |- steps _ (gets _) => apply (steps_gets _)
  | |- steps _ (path_exists _) => apply (steps_gets _)
  | |- steps _ (mret _) => apply (steps_ret _)
  | |- steps _ (read_file _) => apply le_read
  | |- steps _ (check_capacity _ _ _) => apply le_capacity
  | |- steps _ (attempt _ _) => apply le_attempt
  | |- steps _ (_ ≫= _) => apply (steps_bind _); [|intros ?]
  | |- steps _ (if ?c then _ else _) => destruct c
  end.
Lemma put_le node request now : bytes_ok (request_address request) → steps disk_le (archive_put node request now).
Proof.
  intros Ha. unfold archive_put. le_auto.
  - apply atomic_write_le. by apply display_not_temp, Ha.
  - apply (steps_for_each _). intros o. by apply le_index.
Qed.
Lemma fetch_le node address : steps disk_le (archive_fetch node address).
Proof. unfold archive_fetch. le_auto. Qed.
Lemma list_entries_le names acc : steps disk_le (list_entries names acc).
Proof. revert acc. induction names as [|n names IH]; intros acc; cbn [list_entries]; le_auto. apply IH. Qed.
Lemma list_le node player : steps disk_le (archive_list node player).
Proof. unfold archive_list, read_dir. le_auto. apply list_entries_le. Qed.
Lemma put_recovery_le node request now : Forall is_byte (store_locator request) → steps disk_le (archive_put_recovery node request now).
Proof.
  intros Hl. unfold archive_put_recovery. le_auto. apply atomic_write_le. cbn. rewrite hex_lower. by apply display_not_temp.
Qed.
Lemma fetch_recovery_le node locator : steps disk_le (archive_fetch_recovery node locator).
Proof. unfold archive_fetch_recovery. le_auto. Qed.

(** ** An accepted receipt *)

(** A loop that succeeds has run its body on every element. *)
Lemma for_each_each {S E A} (R : relation S) `{!PreOrder R} (f : A → M S E unit) l s t x :
  (∀ y, steps R (f y)) → for_each f l s = (Ok tt, t) → x ∈ l → ∃ u v, R s u ∧ f x u = (Ok tt, v) ∧ R v t.
Proof.
  intros Hf. revert s. induction l as [|y l IH]; intros s Hl Hx; [by apply elem_of_nil in Hx|].
  cbn [for_each] in Hl. rewrite run_bind in Hl. destruct (f y s) as [[[]|?|] s'] eqn:Hy; [|discriminate Hl..].
  pose proof (Hf y s) as Hs. rewrite Hy in Hs. cbn [snd] in Hs.
  pose proof (steps_for_each R f l Hf s') as Hr. rewrite Hl in Hr. cbn [snd] in Hr. apply elem_of_cons in Hx as [->|Hx].
  - exists s, s'. done.
  - destruct (IH s' Hl Hx) as (u & v & Hu & Hv & Ht). exists u, v. split; [by etrans|done].
Qed.
Lemma index_written address player d e :
  bytes_ok address → index_receipt address player d = (Ok tt, e) →
  files e !! index_path player address = Some (string_bytes "1") ∧ player_dir player ∈ dirs e.
Proof.
  intros [Ha _] Hi. unfold index_receipt in Hi. rewrite run_bind in Hi. unfold create_dir_all in Hi.
  match type of Hi with context [attempt ?c ?m d] => destruct (attempt_run c m d) as (d1 & [Ef _] & [E|E]); rewrite E in Hi end; [done|].
  cbn [set_disk modify] in Hi. apply atomic_write_run in Hi as [[_ Hd] Hok]; [|by apply display_not_temp].
  split; [by apply Hok|]. apply Hd. cbn. set_solver.
Qed.

(** What the acceptance of [request] by [node] means for the disk. *)
Record accepted node (request : ArchiveRequest) (now : Z) (a : ArchiveResponse) (d : Disk) : Prop := {
  acc_address : from_content (request_content request) = request_address request;
  acc_size : Z.of_nat (length (request_content request)) <= MAX_ARCHIVE_CONTENT_BYTES;
  acc_object : files d !! object_path (request_address request) = Some (request_content request);
  acc_receipt : ∃ receipt, receipt_from_json (request_content request) = Some receipt ∧ cosigned_verify receipt now = Ok tt
    ∧ ∀ o, o ∈ outcomes (co_receipt receipt) →
        files d !! index_path (out_player o) (request_address request) = Some (string_bytes "1")
        ∧ player_dir (out_player o) ∈ dirs d;
  acc_answer : response_address a = request_address request ∧ response_node_key a = archive_public_key node
    ∧ now < accepted_until_unix_ms a <= u64_max
    ∧ response_node_signature a
      = sign (signer_seed node) (acceptance_signing_bytes (response_address a) (accepted_until_unix_ms a));
}.
Lemma accepted_until_Ok now seconds until : 0 < seconds → accepted_until now seconds = Ok until → now < until <= u64_max.
Proof.
  unfold accepted_until. intros ? [-> ?]%ok_or_Ok%checked_add_w_Some. split; [|done].
  assert (0 < Z.min u64_max (seconds * 1000)); [|lia]. apply Z.min_glb_lt; [done|lia].
Qed.
Lemma put_accepts node request now d a e :
  bytes_ok (request_address request) → 0 <= requested_seconds request →
  archive_put node request now d = (Ok a, e) → accepted node request now a e.
Proof.
  intros Ha Hpos Hp. unfold archive_put in Hp. cbv zeta in Hp.
  rewrite run_lift in Hp. destruct (reject_if _ ContentSize) as [[]|?|] eqn:E1; [|discriminate Hp..].
  rewrite run_lift in Hp. destruct (reject_if _ ReplicationPeriod) as [[]|?|] eqn:E2; [|discriminate Hp..].
  rewrite run_lift in Hp. destruct (reject_if _ ContentAddressMismatch) as [[]|?|] eqn:E3; [|discriminate Hp..].
  rewrite run_lift in Hp. destruct (ok_or _ NotReceipt) as [receipt|?|] eqn:E4; [|discriminate Hp..].
  rewrite run_lift in Hp. destruct (map_err _ _) as [[]|?|] eqn:E5; [|discriminate Hp..].
  rewrite run_bind in Hp. destruct (check_capacity _ _ _ d) as [[[]|?|] d1]; [|discriminate Hp..].
  rewrite run_bind in Hp. destruct (atomic_write_if_absent _ _ d1) as [[[]|?|] d2] eqn:Hw; [|discriminate Hp..].
  rewrite run_bind in Hp. destruct (for_each _ _ d2) as [[[]|?|] d3] eqn:Hf; [|discriminate Hp..].
  rewrite run_lift in Hp. destruct (accepted_until _ _) as [until|?|] eqn:E6; [|discriminate Hp..]. injection Hp as <- <-.
  apply reject_if_Ok in E1, E2, E3. apply ok_or_Ok in E4. apply map_err_Ok in E5. bool_props.
  apply atomic_write_run in Hw as [_ Hobj]; [|by apply display_not_temp, Ha]. specialize (Hobj eq_refl).
  pose proof (steps_for_each disk_le (λ o, index_receipt (request_address request) (out_player o)) (outcomes (co_receipt receipt))
    (λ o, le_index _ (out_player o) Ha) d2) as Hle. rewrite Hf in Hle. destruct Hle as [Hle _].
  split; [done|lia| |exists receipt; split_and!; try done|].
  - by eapply lookup_weaken.
  - intros o Ho. destruct (for_each_each disk_le _ _ d2 d3 o (λ o, le_index _ (out_player o) Ha) Hf Ho) as (u & v & _ & Hi & [Hv Hd]).
    apply index_written in Hi as [Hi Hi']; [|done]. split; [by eapply lookup_weaken|by apply Hd].
  - split_and!; try done; eapply accepted_until_Ok; try done; lia.
Qed.
Lemma accepted_le node request now a d e : disk_le d e → accepted node request now a d → accepted node request now a e.
Proof.
  intros [Hf Hd] [? ? Hobj (c & Hc & Hv & Hi) ?]. split; [done..| | |done]; [by eapply lookup_weaken|].
  exists c. split_and!; [done..|]. intros o Ho. destruct (Hi o Ho). split; [by eapply lookup_weaken|by apply Hd].
Qed.

(** ** Reading back *)

(** When the system does not fail, a stored object is returned. *)
Lemma fetch_returns node address content d :
  answers d = [] → files d !! object_path address = Some content →
  Z.of_nat (length content) <= MAX_ARCHIVE_CONTENT_BYTES → from_content content = address →
  archive_fetch node address d
  = (Ok (mkFetchResponse address (Some content) (archive_public_key node)
           (sign (signer_seed node) (fetch_signing_bytes address (Some content)))), d).
Proof.
  intros Hq Hf Hlen Ha. unfold archive_fetch. rewrite run_bind. unfold path_exists, gets at 1.
  rewrite bool_decide_true by (rewrite Hf; by eexists). rewrite run_bind.
  unfold read_file, attempt, next_answer. rewrite run_bind, run_bind, Hq, run_bind. unfold gets at 1. rewrite Hf.
  unfold ok_or, lift. rewrite run_bind. unfold lift, reject_if. rewrite bool_decide_true by done.
  replace (MAX_ARCHIVE_CONTENT_BYTES <? _) with false by lia. done.
Qed.
(** Only content with the right hash is returned, on any disk. *)
Lemma fetch_sound node address d a e :
  archive_fetch node address d = (Ok a, e) →
  fetch_address a = address ∧ (∀ content, fetch_content a = Some content → from_content content = address).
Proof.
  unfold archive_fetch. rewrite run_bind. unfold path_exists, gets at 1. case_bool_decide; rewrite run_bind.
  - rewrite run_bind. destruct (read_file _ d) as [[c|?|] d1]; [|done..]. rewrite run_lift.
    destruct (reject_if _ _) as [[]|?|] eqn:Hr; [|done..]. apply reject_if_Ok in Hr. bool_props.
    intros [= <- <-]. cbn. split; [done|]. by intros ? [= <-].
  - intros [= <- <-]. done.
Qed.

Lemma list_entries_Ok names acc d l e :
  list_entries names acc d = (Ok l, e) → Z.of_nat (length acc) <= MAX_PLAYER_ARCHIVES →
  Z.of_nat (length l) <= MAX_PLAYER_ARCHIVES
  ∧ ∃ k, l = acc ++ k ∧ Forall2 (λ name a, parse_content_address name = Ok a) names k.
Proof.
  revert acc d. induction names as [|n names IH]; intros acc d; cbn [list_entries].
  - intros [= <- <-] ?. split; [done|]. exists []. by rewrite app_nil_r.
  - rewrite run_lift. destruct (reject_if _ _) as [[]|?|] eqn:Hr; [|done..]. apply reject_if_Ok in Hr. bool_props.
    rewrite run_bind. destruct (attempt _ _ d) as [[[]|?|] d1]; [|done..]. rewrite run_lift.
    destruct (parse_content_address n) as [a|?|] eqn:Hp; [|done..]. intros Hl _.
    apply IH in Hl as (? & k & -> & Hk); [|rewrite length_app; cbn; lia]. split; [done|].
    exists (a :: k). rewrite <-app_assoc. split; [done|]. by constructor.
Qed.
Lemma elem_of_vec_dedup `{EqDecision A} (x : A) l : x ∈ vec_dedup l ↔ x ∈ l.
Proof.
  induction l as [|y [|z l] IH]; [done..|]. change (vec_dedup (y :: z :: l)) with
    (if bool_decide (y = z) then vec_dedup (z :: l) else y :: vec_dedup (z :: l)).
  case_bool_decide as E; [subst z|]; set_solver.
Qed.
Lemma dir_names_elem d dir name : name ∈ dir_names d dir ↔ is_Some (files d !! (dir, name)).
Proof.
  unfold dir_names. rewrite dir_order_perm, list_elem_of_fmap. split.
  - intros (((dir' & n) & c) & -> & Hin). apply list_elem_of_filter in Hin as [Hd Hin]. cbn in Hd. subst dir'.
    exists c. by apply elem_of_map_to_list.
  - intros [c Hc]. exists ((dir, name), c). split; [done|]. apply list_elem_of_filter. split; [done|]. by apply elem_of_map_to_list.
Qed.
(** An index that can be read has an address for each of its files. *)
Lemma list_reads node player d a e :
  player_dir player ∈ dirs d → archive_list node player d = (Ok a, e) →
  list_player a = player ∧ ∀ name, is_Some (files d !! (player_dir player, name)) →
    ∃ x, parse_content_address name = Ok x ∧ x ∈ list_addresses a.
Proof.
  intros Hd. unfold archive_list. rewrite run_bind. unfold gets at 1. rewrite bool_decide_true by done.
  rewrite run_bind, run_bind. unfold read_dir.
  match goal with |- context [attempt ?c ?m d] => destruct (attempt_run c m d) as (d1 & [Ef Ed] & [E|E]); rewrite E end; [done|].
  rewrite run_bind. unfold gets at 1. change (id d1) with d1. rewrite run_lift. unfold reject_if at 1. rewrite bool_decide_true by (by rewrite Ed).
  cbn [negb mret M_ret id]. set (names := dir_names d1 (player_dir player)).
  destruct (list_entries _ _ d1) as [[l|?|] d2] eqn:Hl; [|done..]. intros [= <- <-]. cbn. split; [done|]. intros name Hf.
  apply list_entries_Ok in Hl as (Hmax & k & -> & Hk); [|done]. cbn [app] in *. rewrite firstn_all2 in Hk.
  - assert (name ∈ names) as Hin by (unfold names; rewrite dir_names_elem, Ef; done).
    apply list_elem_of_lookup in Hin as [i Hi]. destruct (Forall2_lookup_l _ _ _ _ _ Hk Hi) as (x & Hx & Hparse).
    exists x. split; [done|]. rewrite elem_of_vec_dedup, sort_by_key_perm. by eapply list_elem_of_lookup_2.
  - apply Forall2_length in Hk. rewrite length_take in Hk. lia.
Qed.
Lemma list_has node player address d a e :
  bytes_ok address → is_Some (files d !! index_path player address) → player_dir player ∈ dirs d →
  archive_list node player d = (Ok a, e) → list_player a = player ∧ address ∈ list_addresses a.
Proof.
  intros [Hb Hlen] Hf Hd Hl. destruct (list_reads _ _ _ _ _ Hd Hl) as [Hp Hall]. split; [done|].
  destruct (Hall _ Hf) as (x & Hx & Hin). rewrite parse_display in Hx by done. by injection Hx as <-.
Qed.
(** When the system does not fail, a directory of addresses can be read. *)
Lemma list_entries_complete names acc d :
  answers d = [] → Forall (λ n, ∃ a, parse_content_address n = Ok a) names →
  Z.of_nat (length acc + length names) <= MAX_PLAYER_ARCHIVES → ∃ l, list_entries names acc d = (Ok l, d).
Proof.
  intros Hq. revert acc. induction names as [|n names IH]; intros acc Hp Hmax; cbn [list_entries]; [by eexists|].
  apply Forall_cons in Hp as [[a Ha] Hp]. rewrite run_lift. unfold reject_if.
  replace (MAX_PLAYER_ARCHIVES <=? _) with false by (cbn in Hmax; lia). rewrite run_bind.
  unfold attempt. rewrite run_bind. unfold next_answer. rewrite Hq. cbn [mret M_ret]. rewrite run_lift, Ha.
  apply IH; [done|]. rewrite length_app. cbn in *. lia.
Qed.
(** A temporary file that a failed write left behind blocks the index. *)
Lemma leftover_blocks_list node player d name :
  is_temp name = true → is_Some (files d !! (player_dir player, name)) → player_dir player ∈ dirs d →
  is_ok (archive_list node player d).1 = false.
Proof.
  intros Ht Hf Hd. destruct (archive_list node player d) as [[a|?|] e] eqn:Hl; [|done..].
  destruct (list_reads _ _ _ _ _ Hd Hl) as [_ Hall]. destruct (Hall _ Hf) as (x & Hx & _). by rewrite parse_temp in Hx.
Qed.
End node_keeps.
