(* ===== verification/ArchiveRuntime.v ===== *)
(** * ArchiveRuntime: keeping receipts on archive nodes (archive_runtime.rs)

    [ArchiveRuntime] publishes co-signed receipts and encrypted recovery
    packages to the configured archive nodes, counts their signed
    acceptances, and reads receipts back.  Nothing a node sends is trusted: an
    answer counts only when it is signed by the key the node has used since it
    was configured, and a receipt only when it hashes to its address and is
    signed by all its players.  The state monad is over the runtime and the
    swarm.  The same process may serve as a node ([ArchiveNode]). *)

From coqutil Require Import Datatypes.RecordSetters.
From S2P Require Import Prelude Machine Encoding Order Ids Receipt Identity SignedReceipt UseCases Wire.
From S2P Require Import Session ArchiveNode Swarm.
Import OCamlLikeNotations.

(** Why an answer does not count, and what is reported. *)
Inductive NodeSignatureError :=
  | NodeKeySize | NodeKeyChanged | NodeSignatureSize | NodeKeyInvalid | NodeSignatureInvalid.
Inductive ArchiveReason :=
  | NotConfigured | PeerRejected (reason : string) | TransportFailed (error : string)
  | AcceptanceInvalid | NodeSignature (e : NodeSignatureError) | FetchedOtherAddress | FetchedHashMismatch
  | FetchedNotReceipt | FetchedReceiptRefused (e : SignedReceiptError) | ListInvalid
  | LocatorMismatch | EnvelopeRefused (e : ArchiveError) | ResponseMismatch
  | TooFewReplicas (required confirmed : Z) | NoNodeHasIt | IndexEmpty.
Inductive ArchiveEvent :=
  | ArchiveNodeReady (public_key : list Z)
  | ArchivePeersConfigured (peers : list (list Z)) (minimum : Z)
  | ReceiptArchivePending (a : ContentAddress) (required : Z)
  | ReceiptArchived (a : ContentAddress) (replicas : Z)
  | ReceiptArchiveFailed (a : ContentAddress) (r : ArchiveReason)
  | ReceiptFetched (a : ContentAddress) (receipt_id : list Z) (hand_number : Z)
  | ArchiveIndexReceived (player : PlayerId) (addresses : Z)
  | RecoveryBackupPending (locator : Locator) (required : Z)
  | RecoveryBackupStored (locator : Locator) (replicas : Z)
  | RecoveryBackupFailed (locator : Locator) (r : ArchiveReason)
  | RecoveryBackupFetched (locator : Locator)
  | ArchiveWarning (r : ArchiveReason).

Inductive PendingRequest :=
  | PendingPut (a : ContentAddress)
  | PendingGet (a : ContentAddress)
  | PendingList (player : PlayerId)
  | PendingRecoveryPut (locator : Locator)
  | PendingRecoveryGet (locator : Locator).
#[export] Instance PendingRequest_eq_dec : EqDecision PendingRequest.
Proof. solve_decision. Defined.

Record PendingUpload `{Libp2p} := mkUpload {
  up_remaining : nat;
  up_required : Z;
  up_confirmed : gset PeerId;
  up_finished : bool;
}.
Record PendingFetch := mkFetch {
  fe_remaining : nat;
  fe_finished : bool;
}.
Record PendingListing := mkListing {
  li_remaining : nat;
  li_received : gset ContentAddress;
}.

Record ArchiveRuntime `{Libp2p} := mkArchiveRuntime {
  ar_node : option VolunteerArchive;
  ar_peers : list PeerId;
  ar_minimum : Z;
  ar_pending : gmap OutboundRequestId PendingRequest;
  uploads : gmap ContentAddress PendingUpload;
  fetches : gmap ContentAddress PendingFetch;
  listings : gmap PlayerId PendingListing;
  recovery_uploads : gmap Locator PendingUpload;
  recovery_fetches : gmap Locator PendingFetch;
  recovered_envelopes : gmap Locator (list (list Z));
  pinned_keys : gmap PeerId (list Z);
  verified_receipts : gmap ContentAddress CoSignedReceipt;
  archived_addresses : gset ContentAddress;
}.
Notation ArchiveM := (M (ArchiveRuntime * world) ArchiveError).

Section archive_runtime.
Context `{Crypto, Libp2p, !World, !HexCodec, !DirOrder, !ReceiptJson}.
Implicit Types (r : ArchiveRuntime) (address : ContentAddress) (locator : Locator) (peer : PeerId).

Definition the_archive : ArchiveM ArchiveRuntime := gets fst.
Definition set_archive (f : ArchiveRuntime → ArchiveRuntime) : ArchiveM unit := modify (λ s, (f s.1, s.2)).

(** [new], [node_ready_event], [is_configured_peer]. *)
Definition archive_new (node : option VolunteerArchive) : ArchiveRuntime :=
  mkArchiveRuntime _ node [] 1 ∅ ∅ ∅ ∅ ∅ ∅ ∅ ∅ ∅ ∅.
Definition archive_runtime_new (directory : bool) : DiskM ArchiveRuntime :=
  if directory then node ← archive_open; mret (archive_new (Some node)) else mret (archive_new None).
Definition node_ready_event r : option ArchiveEvent :=
  match ar_node r with Some node => Some (ArchiveNodeReady (archive_public_key node)) | None => None end.
Definition is_configured_peer r peer : bool := bool_decide (peer ∈ ar_peers r).

(** [configure_peers]: everything that is under way is forgotten. *)
Definition configure_peers (peers : list PeerId) (minimum : Z) : ArchiveM ArchiveEvent :=
  let peers := btree_iter (list_to_set peers : gset PeerId) in
  _ ← lift (reject_if (length peers =? 0)%nat NoArchivePeers);
  _ ← lift (reject_if ((minimum =? 0) || (Z.of_nat (length peers) <? minimum)) ReplicaCount);
  _ ← set_archive (λ r, { r with ar_peers := peers; ar_minimum := minimum; ar_pending := ∅; uploads := ∅;
                            fetches := ∅; listings := ∅; recovery_uploads := ∅; recovery_fetches := ∅;
                            recovered_envelopes := ∅; pinned_keys := ∅ });
  mret (ArchivePeersConfigured (map peer_id_to_bytes peers) minimum).

(** ** Asking *)

(** One request to every configured peer. *)
Definition ask_peer (request : ControlRequest) (pending : PendingRequest) peer : ArchiveM unit :=
  id ← (λ s, let '(id, w) := send_request peer request s.2 in (Ok id, (s.1, w)));
  set_archive (λ r, { r with ar_pending ::= <[id := pending]> }).
Definition ask_peers (request : ControlRequest) (pending : PendingRequest) : ArchiveM unit :=
  r ← the_archive; for_each (ask_peer request pending) (ar_peers r).

(** [publish_receipt]. *)
Definition new_upload r : PendingUpload := mkUpload _ (length (ar_peers r)) (ar_minimum r) ∅ false.
Definition publish_receipt (receipt : CoSignedReceipt) (now : Z) : ArchiveM (list ArchiveEvent) :=
  _ ← lift (map_err ReceiptRefused (cosigned_verify receipt now));
  content ← lift (ok_or (receipt_to_json receipt) ReceiptNotSerializable);
  _ ← lift (reject_if (MAX_ARCHIVE_CONTENT_BYTES <? Z.of_nat (length content)) ContentSize);
  let address := from_content content in
  _ ← set_archive (λ r, { r with verified_receipts ::= <[address := receipt]> });
  r ← the_archive;
  if (length (ar_peers r) =? 0)%nat then mret [ReceiptArchiveFailed address NotConfigured] else
  _ ← ask_peers (RqArchive (mkArchiveRequest address content DEFAULT_REPLICATION_SECONDS)) (PendingPut address);
  _ ← set_archive (λ r, { r with uploads ::= <[address := new_upload r]> });
  mret [ReceiptArchivePending address (ar_minimum r)].

(** [sync_player], [start_fetch], [fetch_receipt]. *)
Definition sync_player (player : PlayerId) : ArchiveM (list ArchiveEvent) :=
  r ← the_archive;
  if (length (ar_peers r) =? 0)%nat then mret [ArchiveWarning NotConfigured] else
  _ ← ask_peers (RqListPlayerArchives player) (PendingList player);
  _ ← set_archive (λ r, { r with listings ::= <[player := mkListing (length (ar_peers r)) ∅]> });
  mret [].
Definition start_fetch address : ArchiveM unit :=
  _ ← ask_peers (RqFetchArchive address) (PendingGet address);
  set_archive (λ r, { r with fetches ::= <[address := mkFetch (length (ar_peers r)) false]> }).
Definition fetch_receipt address : ArchiveM (list ArchiveEvent) :=
  r ← the_archive;
  if bool_decide (is_Some (verified_receipts r !! address)) then mret [] else
  if bool_decide (is_Some (fetches r !! address)) then mret [] else
  if (length (ar_peers r) =? 0)%nat then mret [ArchiveWarning NotConfigured] else
  _ ← start_fetch address; mret [].

(** [publish_recovery], [fetch_recovery]. *)
Definition forget_pending (pending : PendingRequest) (m : gmap OutboundRequestId PendingRequest) :=
  filter (λ e : OutboundRequestId * PendingRequest, e.2 ≠ pending) m.
Definition publish_recovery locator (envelope : list Z) : ArchiveM (list ArchiveEvent) :=
  _ ← lift (validate_recovery_object locator envelope);
  r ← the_archive;
  if (length (ar_peers r) =? 0)%nat then mret [RecoveryBackupFailed locator NotConfigured] else
  _ ← set_archive (λ r, { r with ar_pending ::= forget_pending (PendingRecoveryPut locator) });
  _ ← ask_peers (RqStoreRecovery (mkRecoveryRequest locator envelope MAX_REPLICATION_SECONDS))
        (PendingRecoveryPut locator);
  _ ← set_archive (λ r, { r with recovery_uploads ::= <[locator := new_upload r]> });
  mret [RecoveryBackupPending locator (ar_minimum r)].
Definition fetch_recovery locator : ArchiveM (list ArchiveEvent) :=
  _ ← lift (validate_recovery_locator locator);
  r ← the_archive;
  if (length (ar_peers r) =? 0)%nat then mret [RecoveryBackupFailed locator NotConfigured] else
  if match recovery_fetches r !! locator with Some f => negb (fe_finished f) | None => false end then mret [] else
  _ ← set_archive (λ r, { r with recovery_fetches ::= delete locator; recovered_envelopes ::= delete locator });
  _ ← ask_peers (RqFetchRecovery locator) (PendingRecoveryGet locator);
  _ ← set_archive (λ r, { r with recovery_fetches ::= <[locator := mkFetch (length (ar_peers r)) false]> });
  mret [].

(** [take_recovered_envelope], [recovery_fetch_is_exhausted],
    [cancel_recovery_fetch]. *)
Definition take_recovered_envelope locator r : option (list Z) * ArchiveRuntime :=
  match recovered_envelopes r !! locator with
  | Some (envelope :: rest) =>
      (Some envelope,
       { r with recovered_envelopes ::= match rest with [] => delete locator | _ => <[locator := rest]> end })
  | _ => (None, r)
  end.
Definition recovery_fetch_is_exhausted r locator : bool :=
  match recovery_fetches r !! locator with Some f => (fe_remaining f =? 0)%nat | None => true end.
Definition cancel_recovery_fetch locator r : ArchiveRuntime :=
  { r with ar_pending ::= forget_pending (PendingRecoveryGet locator); recovery_fetches ::= delete locator;
           recovered_envelopes ::= delete locator }.

(** [serve_request]: the node answers. *)
Definition serve_request r (request : ControlRequest) (now : Z) : DiskM ControlResponse :=
  match ar_node r with
  | None => lift (Err NodeDisabled)
  | Some node =>
      match request with
      | RqArchive request => a ← archive_put node request now; mret (RsArchive a)
      | RqFetchArchive address => a ← archive_fetch node address; mret (RsArchiveFetch a)
      | RqListPlayerArchives player => a ← archive_list node player; mret (RsArchiveList a)
      | RqStoreRecovery request => a ← archive_put_recovery node request now; mret (RsRecoveryStored a)
      | RqFetchRecovery locator => a ← archive_fetch_recovery node locator; mret (RsRecoveryFetch a)
      | _ => lift (Err NotArchiveRequest)
      end
  end.

(** ** Answers *)

(** [verify_node_signature]: a node keeps its key. *)
Definition check_node_signature (pinned : option (list Z)) (key message signature : list Z)
    : result NodeSignatureError unit :=
  _ ← reject_if (negb (length key =? 32)%nat) NodeKeySize;
  _ ← reject_if (match pinned with Some k => negb (bool_decide (k = key)) | None => false end) NodeKeyChanged;
  _ ← reject_if (negb (length signature =? 64)%nat) NodeSignatureSize;
  _ ← reject_if (negb (key_valid key)) NodeKeyInvalid;
  reject_if (negb (verify_sig key message signature)) NodeSignatureInvalid.
Definition verify_node_signature peer (key message signature : list Z) : ArchiveM (result NodeSignatureError unit) :=
  r ← the_archive;
  let checked := check_node_signature (pinned_keys r !! peer) key message signature in
  _ ← (if is_ok checked then set_archive (λ r, { r with pinned_keys ::= <[peer := key]> }) else mret tt);
  mret checked.

(** [finish_put_attempt], [finish_recovery_put_attempt]: one answer less to
    wait for. *)
Definition attempted (u : PendingUpload) (confirmed : option PeerId) : PendingUpload :=
  mkUpload _ (up_remaining u - 1) (up_required u)
    (match confirmed with Some peer => {[peer]} ∪ up_confirmed u | None => up_confirmed u end) (up_finished u).
Definition finish_upload (u : PendingUpload) : PendingUpload :=
  mkUpload _ (up_remaining u) (up_required u) (up_confirmed u) true.
Definition enough (u : PendingUpload) : bool := up_required u <=? Z.of_nat (size (up_confirmed u)).
Definition replicas (u : PendingUpload) : Z := Z.min u16_max (Z.of_nat (size (up_confirmed u))).
Definition shortfall (u : PendingUpload) (reason : option ArchiveReason) : ArchiveReason :=
  default (TooFewReplicas (up_required u) (Z.of_nat (size (up_confirmed u)))) reason.
Definition finish_put_attempt address (confirmed : option PeerId) (reason : option ArchiveReason)
    : ArchiveM (list ArchiveEvent) :=
  r ← the_archive;
  u ← lift (ok_or (uploads r !! address) UploadMissing);
  let u := attempted u confirmed in
  if negb (up_finished u) && enough u then
    _ ← set_archive (λ r, { r with uploads ::= <[address := finish_upload u]>;
                                   archived_addresses ::= λ s, {[address]} ∪ s });
    mret [ReceiptArchived address (replicas u)]
  else if negb (up_finished u) && (up_remaining u =? 0)%nat then
    _ ← set_archive (λ r, { r with uploads ::= <[address := finish_upload u]> });
    mret [ReceiptArchiveFailed address (shortfall u reason)]
  else
    _ ← set_archive (λ r, { r with uploads ::= <[address := u]> });
    mret [].
Definition finish_recovery_put_attempt locator (confirmed : option PeerId) (reason : option ArchiveReason)
    : ArchiveM (list ArchiveEvent) :=
  r ← the_archive;
  u ← lift (ok_or (recovery_uploads r !! locator) RecoveryUploadMissing);
  let u := attempted u confirmed in
  if enough u && bool_decide (is_Some confirmed) then
    _ ← set_archive (λ r, { r with recovery_uploads ::= <[locator := finish_upload u]> });
    mret [RecoveryBackupStored locator (replicas u)]
  else if negb (up_finished u) && (up_remaining u =? 0)%nat then
    _ ← set_archive (λ r, { r with recovery_uploads ::= <[locator := finish_upload u]> });
    mret [RecoveryBackupFailed locator (shortfall u reason)]
  else
    _ ← set_archive (λ r, { r with recovery_uploads ::= <[locator := u]> });
    mret [].

(** [finish_fetch_attempt], [finish_list_attempt], [finish_recovery_fetch_attempt]. *)
Definition finish_fetch_attempt address (reason : option ArchiveReason) : ArchiveM (list ArchiveEvent) :=
  r ← the_archive;
  f ← lift (ok_or (fetches r !! address) FetchMissing);
  let remaining := (fe_remaining f - 1)%nat in
  if negb (fe_finished f) && (remaining =? 0)%nat then
    _ ← set_archive (λ r, { r with fetches ::= <[address := mkFetch remaining true]> });
    mret [ArchiveWarning (default NoNodeHasIt reason)]
  else
    _ ← set_archive (λ r, { r with fetches ::= <[address := mkFetch remaining (fe_finished f)]> });
    mret [].
Definition finish_list_attempt (player : PlayerId) (reason : option ArchiveReason) : ArchiveM (list ArchiveEvent) :=
  r ← the_archive;
  l ← lift (ok_or (listings r !! player) ListMissing);
  let remaining := (li_remaining l - 1)%nat in
  _ ← set_archive (λ r, { r with listings ::= <[player := mkListing remaining (li_received l)]> });
  if (remaining =? 0)%nat && bool_decide (li_received l = ∅)
  then mret [ArchiveWarning (default IndexEmpty reason)] else mret [].
Definition finish_recovery_fetch_attempt locator (reason : option ArchiveReason) : ArchiveM (list ArchiveEvent) :=
  r ← the_archive;
  f ← lift (ok_or (recovery_fetches r !! locator) RecoveryFetchMissing);
  let remaining := (fe_remaining f - 1)%nat in
  if negb (fe_finished f) && (remaining =? 0)%nat then
    _ ← set_archive (λ r, { r with recovery_fetches ::= <[locator := mkFetch remaining true]> });
    match recovered_envelopes r !! locator with
    | Some (_ :: _) => mret []
    | _ => mret [RecoveryBackupFailed locator (default NoNodeHasIt reason)]
    end
  else
    _ ← set_archive (λ r, { r with recovery_fetches ::= <[locator := mkFetch remaining (fe_finished f)]> });
    mret [].

(** [handle_put_response], [handle_recovery_put_response]. *)
Definition handle_put_response peer address (a : ArchiveResponse) (now : Z) : ArchiveM (list ArchiveEvent) :=
  if negb (bool_decide (response_address a = address)) || (accepted_until_unix_ms a <=? now)
  then finish_put_attempt address None (Some AcceptanceInvalid) else
  checked ← verify_node_signature peer (response_node_key a)
              (acceptance_signing_bytes (response_address a) (accepted_until_unix_ms a)) (response_node_signature a);
  match checked with
  | Err e => finish_put_attempt address None (Some (NodeSignature e))
  | _ => finish_put_attempt address (Some peer) None
  end.
Definition handle_recovery_put_response peer locator (a : RecoveryStoreResponse) (now : Z) : ArchiveM (list ArchiveEvent) :=
  if negb (bool_decide (stored_locator a = locator)) || (stored_until a <=? now)
  then finish_recovery_put_attempt locator None (Some AcceptanceInvalid) else
  checked ← verify_node_signature peer (stored_node_key a)
              (recovery_acceptance_signing_bytes locator (stored_until a)) (stored_node_signature a);
  match checked with
  | Err e => finish_recovery_put_attempt locator None (Some (NodeSignature e))
  | _ => finish_recovery_put_attempt locator (Some peer) None
  end.

(** [handle_fetch_response]: an accepted receipt ends the fetch. *)
Definition accept_fetched address (receipt : CoSignedReceipt) : ArchiveM (list ArchiveEvent) :=
  _ ← set_archive (λ r, { r with verified_receipts ::= <[address := receipt]>;
                                 archived_addresses ::= λ s, {[address]} ∪ s;
                                 fetches ::= alter (λ f, mkFetch (fe_remaining f) true) address });
  mret [ReceiptFetched address (as_bytes (receipt_id blake3 (co_receipt receipt)))
          (rc_hand_number (co_receipt receipt))].
Definition check_fetched address (content : list Z) (now : Z) : result ArchiveReason CoSignedReceipt :=
  _ ← reject_if ((MAX_ARCHIVE_CONTENT_BYTES <? Z.of_nat (length content))
                 || negb (bool_decide (from_content content = address))) FetchedHashMismatch;
  receipt ← ok_or (receipt_from_json content) FetchedNotReceipt;
  _ ← map_err FetchedReceiptRefused (cosigned_verify receipt now);
  Ok receipt.
Definition handle_fetch_response peer address (a : ArchiveFetchResponse) (now : Z) : ArchiveM (list ArchiveEvent) :=
  if negb (bool_decide (fetch_address a = address)) then finish_fetch_attempt address (Some FetchedOtherAddress) else
  checked ← verify_node_signature peer (fetch_node_key a) (fetch_signing_bytes (fetch_address a) (fetch_content a))
              (fetch_node_signature a);
  match checked with
  | Err e => finish_fetch_attempt address (Some (NodeSignature e))
  | _ =>
      match fetch_content a with
      | None => finish_fetch_attempt address None
      | Some content =>
          match check_fetched address content now with
          | Ok receipt => accept_fetched address receipt
          | Err reason => finish_fetch_attempt address (Some reason)
          | Panic => lift Panic
          end
      end
  end.

(** [handle_list_response]: addresses that are new are fetched. *)
Fixpoint new_addresses r (received : gset ContentAddress) (addresses : list ContentAddress)
    : gset ContentAddress * list ContentAddress :=
  match addresses with
  | [] => (received, [])
  | a :: addresses =>
      let '(all, fresh) := new_addresses r ({[a]} ∪ received) addresses in
      (all, if negb (bool_decide (a ∈ received)) && negb (bool_decide (is_Some (verified_receipts r !! a)))
               && negb (bool_decide (is_Some (fetches r !! a)))
            then a :: fresh else fresh)
  end.
Definition merge_list (player : PlayerId) (addresses : list ContentAddress) : ArchiveM (list ContentAddress) :=
  r ← the_archive;
  match listings r !! player with
  | None => mret []
  | Some l =>
      let '(all, fresh) := new_addresses r (li_received l) addresses in
      _ ← set_archive (λ r, { r with listings ::= <[player := mkListing (li_remaining l - 1) all]> });
      mret fresh
  end.
Definition handle_list_response peer (player : PlayerId) (a : ArchiveListResponse) : ArchiveM (list ArchiveEvent) :=
  if negb (bool_decide (list_player a = player)) || (MAX_PLAYER_ARCHIVES <? Z.of_nat (length (list_addresses a)))
  then finish_list_attempt player (Some ListInvalid) else
  let addresses := vec_dedup (sort_by_key id (list_addresses a)) in
  checked ← verify_node_signature peer (list_node_key a) (list_signing_bytes player addresses) (list_node_signature a);
  match checked with
  | Err e => finish_list_attempt player (Some (NodeSignature e))
  | _ =>
      fresh ← merge_list player addresses;
      _ ← for_each start_fetch fresh;
      r ← the_archive;
      let count := match listings r !! player with Some l => size (li_received l) | None => 0%nat end in
      mret [ArchiveIndexReceived player (Z.min u32_max (Z.of_nat count))]
  end.

(** [handle_recovery_fetch_response]. *)
Definition accept_envelope locator (envelope : list Z) : ArchiveM (list ArchiveEvent) :=
  _ ← set_archive (λ r, { r with recovered_envelopes ::=
        λ m, <[locator := default [] (m !! locator) ++ [envelope]]> m });
  r ← the_archive;
  f ← lift (ok_or (recovery_fetches r !! locator) RecoveryFetchMissing);
  let remaining := (fe_remaining f - 1)%nat in
  _ ← set_archive (λ r, { r with recovery_fetches ::= <[locator := mkFetch remaining (remaining =? 0)%nat]> });
  mret [RecoveryBackupFetched locator].
Definition handle_recovery_fetch_response peer locator (a : RecoveryFetchResponse) : ArchiveM (list ArchiveEvent) :=
  if negb (bool_decide (recovered_locator a = locator))
  then finish_recovery_fetch_attempt locator (Some LocatorMismatch) else
  checked ← verify_node_signature peer (recovered_node_key a)
              (recovery_fetch_signing_bytes locator (recovered_envelope a)) (recovered_node_signature a);
  match checked with
  | Err e => finish_recovery_fetch_attempt locator (Some (NodeSignature e))
  | _ =>
      match recovered_envelope a with
      | None => finish_recovery_fetch_attempt locator None
      | Some envelope =>
          match validate_recovery_object locator envelope with
          | Err e => finish_recovery_fetch_attempt locator (Some (EnvelopeRefused e))
          | _ => accept_envelope locator envelope
          end
      end
  end.

(** [finish_mismatched_response], [handle_failure]: the attempt of a request
    that has no useful answer. *)
Definition finish_attempt (p : PendingRequest) (reason : ArchiveReason) : ArchiveM (list ArchiveEvent) :=
  match p with
  | PendingPut address => finish_put_attempt address None (Some reason)
  | PendingGet address => finish_fetch_attempt address (Some reason)
  | PendingList player => finish_list_attempt player (Some reason)
  | PendingRecoveryPut locator => finish_recovery_put_attempt locator None (Some reason)
  | PendingRecoveryGet locator => finish_recovery_fetch_attempt locator (Some reason)
  end.
(** [handle_response]. *)
Definition on_response (p : PendingRequest) peer (response : ControlResponse) (now : Z) : ArchiveM (list ArchiveEvent) :=
  match p, response with
  | PendingPut address, RsArchive a => handle_put_response peer address a now
  | PendingGet address, RsArchiveFetch a => handle_fetch_response peer address a now
  | PendingList player, RsArchiveList a => handle_list_response peer player a
  | PendingRecoveryPut locator, RsRecoveryStored a => handle_recovery_put_response peer locator a now
  | PendingRecoveryGet locator, RsRecoveryFetch a => handle_recovery_fetch_response peer locator a
  | _, RsRejected reason => finish_attempt p (PeerRejected reason)
  | _, _ => finish_attempt p ResponseMismatch
  end.
Definition take_pending (id : OutboundRequestId) : ArchiveM (option PendingRequest) :=
  r ← the_archive;
  _ ← set_archive (λ r, { r with ar_pending ::= delete id });
  mret (ar_pending r !! id).
Definition archive_response (id : OutboundRequestId) peer (response : ControlResponse) (now : Z)
    : ArchiveM (option (list ArchiveEvent)) :=
  pending ← take_pending id;
  match pending with
  | None => mret None
  | Some p => events ← on_response p peer response now; mret (Some events)
  end.
Definition archive_failure (id : OutboundRequestId) (error : string) : ArchiveM (option (list ArchiveEvent)) :=
  pending ← take_pending id;
  match pending with
  | None => mret None
  | Some p => events ← finish_attempt p (TransportFailed error); mret (Some events)
  end.
Definition is_archived r address : bool := bool_decide (address ∈ archived_addresses r).
End archive_runtime.
