(* ===== verification/ArchiveInv.v ===== *)
(** * ArchiveInv: the invariant of the archive client

    [archive_inv] says what the runtime knows about its nodes: every request
    under way belongs to a configured node and to an upload, fetch or listing
    that counts it; a confirmation is the signature of a configured node; a
    receipt is stored under its hash and signed by all its players.  Within an
    operation the books may be open for one request: [open] may have requests
    before its state is there, and the answer of [extra] is being counted.

    libp2p numbers its requests: an id is used once, and the answer comes from
    the peer that was asked ([RequestLog]). *)

From coqutil Require Import Datatypes.RecordSetters.
From S2P Require Import Prelude Machine Encoding Order Ids Receipt Identity SignedReceipt UseCases Wire.
From S2P Require Import Session ArchiveNode Swarm ArchiveRuntime.
Import OCamlLikeNotations.

(** The requests a swarm has sent, with the peer of each. *)
Class RequestLog `{World} := { request_log : world → gmap OutboundRequestId PeerId }.
Class RequestLogLaws `{RequestLog} : Prop := {
  log_fresh : ∀ p m w, request_log w !! (send_request p m w).1 = None;
  log_send : ∀ p m w, request_log (send_request p m w).2 = <[(send_request p m w).1 := p]> (request_log w);
}.

(** ** Counting the requests under way *)
Section counting.
Context `{Libp2p}.
Implicit Types m : gmap OutboundRequestId PendingRequest.

Definition count (m : gmap OutboundRequestId PendingRequest) (p : PendingRequest) : nat :=
  size (filter (λ e : OutboundRequestId * PendingRequest, e.2 = p) m).
Definition one (o : option PendingRequest) (p : PendingRequest) : nat := if bool_decide (o = Some p) then 1 else 0.

Lemma count_empty p : count ∅ p = 0%nat.
Proof. unfold count. by rewrite map_filter_empty, map_size_empty. Qed.
Lemma count_insert m id p q : m !! id = None → count (<[id := p]> m) q = (count m q + one (Some p) q)%nat.
Proof.
  intros Hn. unfold count, one. case_bool_decide as E.
  - injection E as ->. rewrite map_filter_insert_True by done. rewrite map_size_insert_None; [lia|].
    apply map_lookup_filter_None. by left.
  - rewrite map_filter_insert_False by (cbn; congruence). rewrite delete_id by done. lia.
Qed.
Lemma count_delete m id p q : m !! id = Some p → count m q = (count (delete id m) q + one (Some p) q)%nat.
Proof.
  intros Hp. rewrite <-(insert_delete_id m id p Hp) at 1. rewrite count_insert; [done|]. apply lookup_delete_eq.
Qed.
Lemma count_forget m p q : count (forget_pending p m) q = if bool_decide (p = q) then 0%nat else count m q.
Proof.
  unfold count, forget_pending. rewrite map_filter_filter. case_bool_decide as E.
  - subst q. apply map_size_empty_iff, map_empty. intros id. apply map_lookup_filter_None. right. cbn. tauto.
  - f_equal. apply map_filter_strong_ext. intros id x. cbn. naive_solver.
Qed.

End counting.
Arguments count {_} _ _ : simpl never.
Arguments one _ _ : simpl never.

Section invariant.
Context `{Crypto, Libp2p, !World, !RequestLog, !RequestLogLaws, !HexCodec, !DirOrder, !ReceiptJson}.
Implicit Types (r : ArchiveRuntime) (w : world) (s : ArchiveRuntime * world).

(** ** What is kept *)

(** [p] has signed [message until] for some [until], with the key it has used. *)
Definition has_signed r (message : Z → list Z) (p : PeerId) : Prop :=
  ∃ key until sig, pinned_keys r !! p = Some key ∧ verify_sig key (message until) sig = true.
Record upload_ok r (message : Z → list Z) (waiting : nat) (u : PendingUpload) : Prop := {
  uo_confirmed : ∀ p, p ∈ up_confirmed u → p ∈ ar_peers r ∧ has_signed r message p;
  uo_required : up_required u = ar_minimum r;
  uo_open : up_finished u = false → enough u = false ∧ (0 < up_remaining u <= waiting)%nat;
}.
Definition receipt_sound (a : ContentAddress) (c : CoSignedReceipt) : Prop :=
  (∃ now, cosigned_verify c now = Ok tt)
  ∧ ∃ content, from_content content = a ∧ (receipt_to_json c = Some content ∨ receipt_from_json content = Some c).
Definition has_state r (p : PendingRequest) : Prop :=
  match p with
  | PendingPut a => is_Some (uploads r !! a)
  | PendingGet a => is_Some (fetches r !! a)
  | PendingList player => is_Some (listings r !! player)
  | PendingRecoveryPut l => is_Some (recovery_uploads r !! l)
  | PendingRecoveryGet l => is_Some (recovery_fetches r !! l)
  end.

Record archive_inv (open extra : option PendingRequest) s : Prop := {
  ai_minimum : 1 <= ar_minimum s.1 ∧ (ar_peers s.1 ≠ [] → ar_minimum s.1 <= Z.of_nat (length (ar_peers s.1)));
  ai_pending : ∀ id p, ar_pending s.1 !! id = Some p →
    (∃ peer, request_log s.2 !! id = Some peer ∧ peer ∈ ar_peers s.1) ∧ (open = Some p ∨ has_state s.1 p);
  ai_extra : ∀ p, extra = Some p → has_state s.1 p;
  ai_uploads : ∀ a u, uploads s.1 !! a = Some u →
    upload_ok s.1 (acceptance_signing_bytes a) (count (ar_pending s.1) (PendingPut a) + one extra (PendingPut a)) u
    ∧ is_Some (verified_receipts s.1 !! a);
  ai_recovery_uploads : ∀ l u, recovery_uploads s.1 !! l = Some u →
    upload_ok s.1 (recovery_acceptance_signing_bytes l)
      (count (ar_pending s.1) (PendingRecoveryPut l) + one extra (PendingRecoveryPut l)) u;
  ai_fetches : ∀ a f, fetches s.1 !! a = Some f → fe_finished f = false →
    (0 < fe_remaining f <= count (ar_pending s.1) (PendingGet a) + one extra (PendingGet a))%nat;
  ai_recovery_fetches : ∀ l f, recovery_fetches s.1 !! l = Some f →
    fe_finished f = (fe_remaining f =? 0)%nat
    ∧ (fe_remaining f <= count (ar_pending s.1) (PendingRecoveryGet l) + one extra (PendingRecoveryGet l))%nat;
  ai_receipts : ∀ a c, verified_receipts s.1 !! a = Some c → receipt_sound a c;
  ai_archived : ∀ a, a ∈ archived_addresses s.1 → is_Some (verified_receipts s.1 !! a);
  ai_envelopes : ∀ l es, recovered_envelopes s.1 !! l = Some es → Forall (λ e, validate_recovery_object l e = Ok tt) es;
}.
Notation archive_ok := (archive_inv None None).

(** ** Asking all peers *)
Definition with_pending r (m : gmap OutboundRequestId PendingRequest) : ArchiveRuntime := { r with ar_pending := m }.
(** From [s] to [s'] the requests [p] were sent to [peers]. *)
Record asked (p : PendingRequest) (peers : list PeerId) s s' : Prop := {
  ask_runtime : s'.1 = with_pending s.1 (ar_pending s'.1);
  ask_count : ∀ q, count (ar_pending s'.1) q = (count (ar_pending s.1) q + length peers * one (Some p) q)%nat;
  ask_new : ∀ id q, ar_pending s'.1 !! id = Some q →
    ar_pending s.1 !! id = Some q ∨ (q = p ∧ ∃ peer, request_log s'.2 !! id = Some peer ∧ peer ∈ peers);
  ask_log : request_log s.2 ⊆ request_log s'.2;
}.
Definition pending_logged s : Prop := ∀ id, is_Some (ar_pending s.1 !! id) → is_Some (request_log s.2 !! id).
Lemma with_pending_eta r m m' : with_pending (with_pending r m) m' = with_pending r m'.
Proof. by destruct r. Qed.
Lemma with_pending_id r : r = with_pending r (ar_pending r).
Proof. by destruct r. Qed.

Lemma ask_peer_run request p peer s :
  pending_logged s → ∃ s', ask_peer request p peer s = (Ok tt, s') ∧ asked p [peer] s s' ∧ pending_logged s'.
Proof.
  intros Hlog. unfold ask_peer. rewrite run_bind. pose proof (log_fresh peer request s.2) as Hf.
  pose proof (log_send peer request s.2) as Hs. destruct (send_request peer request s.2) as [id w]. cbn [fst snd] in *.
  assert (ar_pending s.1 !! id = None) as Hn.
  { apply eq_None_not_Some. intros Hi%Hlog. rewrite Hf in Hi. by destruct Hi. }
  unfold pending_logged in *. destruct s as [[] w0]. cbn in *. eexists. split; [reflexivity|]. split; [split; cbn|].
  - done.
  - intros q. rewrite count_insert by done. lia.
  - intros i q Hi. apply lookup_insert_Some in Hi as [[<- <-]|[_ Hi]]; [|by left]. right. split; [done|].
    exists peer. rewrite Hs, lookup_insert_eq. split; [done|set_solver].
  - rewrite Hs. by apply insert_subseteq.
  - intros i. cbn. rewrite Hs. destruct (decide (id = i)) as [<-|Hne]; [intros _; rewrite lookup_insert_eq; by eexists|].
    rewrite !lookup_insert_ne by done. apply Hlog.
Qed.
Lemma ask_each_run request p peers s :
  pending_logged s → ∃ s', for_each (ask_peer request p) peers s = (Ok tt, s') ∧ asked p peers s s' ∧ pending_logged s'.
Proof.
  revert s. induction peers as [|peer peers IH]; intros s Hlog.
  { exists s. split; [done|]. split; [|done]. split; [apply with_pending_id|cbn; lia|by left|done]. }
  cbn [for_each]. rewrite run_bind. destruct (ask_peer_run request p peer s Hlog) as (u & -> & Hu & Hul).
  destruct (IH u Hul) as (s' & -> & Ha & Hsl). exists s'. split; [done|]. split; [|done]. destruct Hu, Ha. split.
  - rewrite ask_runtime1. rewrite ask_runtime0 at 1. by rewrite with_pending_eta.
  - intros q. rewrite ask_count1, ask_count0. cbn. lia.
  - intros id q Hi. destruct (ask_new1 id q Hi) as [Hu|(-> & x & Hx & Hin)].
    + destruct (ask_new0 id q Hu) as [?|(-> & x & Hx & Hin)]; [by left|]. right. split; [done|]. exists x.
      split; [by eapply lookup_weaken|set_solver].
    + right. split; [done|]. exists x. split; [done|set_solver].
  - by etrans.
Qed.
Lemma inv_logged open extra s : archive_inv open extra s → pending_logged s.
Proof. intros Hi id [p Hp]. destruct (ai_pending _ _ _ Hi id p Hp) as [(peer & Hl & _) _]. by exists peer. Qed.
Lemma ask_peers_run request p open extra s :
  archive_inv open extra s → ∃ s', ask_peers request p s = (Ok tt, s') ∧ asked p (ar_peers s.1) s s'.
Proof.
  intros Hi. unfold ask_peers. rewrite run_bind. cbn [the_archive gets].
  destruct (ask_each_run request p (ar_peers s.1) s (inv_logged _ _ _ Hi)) as (s' & -> & Ha & _). by exists s'.
Qed.
Lemma asked_inv p open s s' :
  open = None ∨ open = Some p → archive_inv open None s → asked p (ar_peers s.1) s s' → archive_inv (Some p) None s'.
Proof.
  intros Hopen Hi [Hr Hc Hn Hl]. destruct s' as [r' w']. cbn [fst snd] in *. set (m' := ar_pending r') in *. rewrite Hr.
  assert (∀ q, (count (ar_pending s.1) q <= count m' q)%nat) as Hle by (intros; rewrite Hc; lia).
  destruct Hi. split; cbn; unfold constant; try done.
  - intros id q Hq. destruct (Hn id q Hq) as [Hold|(-> & peer & Hp & Hin)]; [|split; [by exists peer|by left]].
    destruct (ai_pending0 id q Hold) as [(peer & Hp & Hin) Hst]. split.
    + exists peer. split; [by eapply lookup_weaken|done].
    + destruct Hst as [->|Hst]; [left; by destruct Hopen|by right; destruct q].
  - intros a u Hu. destruct (ai_uploads0 a u Hu) as [[] ?]. split; [|done]. split; [done..|].
    intros Hf. specialize (Hle (PendingPut a)). destruct (uo_open0 Hf). split; [done|]. lia.
  - intros l u Hu. destruct (ai_recovery_uploads0 l u Hu) as []. split; [done..|].
    intros Hf. specialize (Hle (PendingRecoveryPut l)). destruct (uo_open0 Hf). split; [done|]. lia.
  - intros a f Hf Hu. specialize (Hle (PendingGet a)). specialize (ai_fetches0 a f Hf Hu). lia.
  - intros l f Hf. specialize (Hle (PendingRecoveryGet l)). destruct (ai_recovery_fetches0 l f Hf). split; [done|]. lia.
Qed.

(** ** Counting an answer *)

(** An upload after one more answer, with the answer [n] others are waited
    for. *)
Section attempts.
Context r (message : Z → list Z) (n : nat) (u : PendingUpload) (confirmed : option PeerId).
Hypothesis Hu : upload_ok r message (n + 1) u.
Hypothesis Hc : ∀ p, confirmed = Some p → p ∈ ar_peers r ∧ has_signed r message p.

Lemma attempted_confirmed p : p ∈ up_confirmed (attempted u confirmed) → p ∈ ar_peers r ∧ has_signed r message p.
Proof.
  cbn. destruct confirmed as [q|]; [|apply Hu]. intros [Hp|Hp]%elem_of_union; [|by apply Hu].
  apply elem_of_singleton in Hp as ->. by apply Hc.
Qed.
Lemma finished_ok : upload_ok r message n (finish_upload (attempted u confirmed)).
Proof. split; [apply attempted_confirmed|apply Hu|done]. Qed.
Lemma attempted_ok :
  up_finished u = true ∨ (enough (attempted u confirmed) = false ∧ up_remaining (attempted u confirmed) ≠ 0%nat) →
  upload_ok r message n (attempted u confirmed).
Proof.
  intros Hcase. split; [apply attempted_confirmed|apply Hu|]. cbn. intros Hf. destruct Hcase as [?|[He Hr]]; [congruence|].
  split; [done|]. cbn in Hr. destruct (uo_open _ _ _ _ Hu Hf). lia.
Qed.
End attempts.

(** Only some fields of the runtime matter for an upload. *)
Lemma upload_ok_mono r r' message n n' u :
  ar_peers r' = ar_peers r → ar_minimum r' = ar_minimum r → pinned_keys r ⊆ pinned_keys r' → (n <= n')%nat →
  upload_ok r message n u → upload_ok r' message n' u.
Proof.
  intros Hp Hm Hk Hn [Hc Hr Ho]. split; [|by rewrite Hm|].
  - intros p Hin. destruct (Hc p Hin) as (? & key & until & sig & Hkey & Hsig). rewrite Hp. split; [done|].
    exists key, until, sig. split; [by eapply lookup_weaken|done].
  - intros Hf. destruct (Ho Hf). split; [done|]. lia.
Qed.
Lemma one_same p : one (Some p) p = 1%nat.
Proof. unfold one. by rewrite bool_decide_true. Qed.
Lemma one_other p q : p ≠ q → one (Some p) q = 0%nat.
Proof. intros ?. unfold one. rewrite bool_decide_false; congruence. Qed.
Lemma one_none p : one None p = 0%nat.
Proof. done. Qed.

(** The books are open for [p] at most. *)
Definition only (o : option PendingRequest) (p : PendingRequest) : Prop := ∀ q, o = Some q → q = p.
Lemma only_none p : only None p.
Proof. done. Qed.
Lemma only_some p : only (Some p) p.
Proof. by intros q [= ->]. Qed.
Lemma one_only o p q : only o p → p ≠ q → one o q = 0%nat.
Proof. intros Ho Hne. unfold one. rewrite bool_decide_false; [done|]. intros ->. by apply Hne, eq_sym, Ho. Qed.

(** The books are closed with the new state of the upload. *)
Lemma close_upload open extra a u b s :
  archive_inv open extra s → only open (PendingPut a) → only extra (PendingPut a) → is_Some (verified_receipts s.1 !! a) →
  upload_ok s.1 (acceptance_signing_bytes a) (count (ar_pending s.1) (PendingPut a)) u →
  archive_ok ({ s.1 with uploads ::= <[a := u]>; archived_addresses ::= λ x, if b : bool then {[a]} ∪ x else x }, s.2).
Proof.
  intros Hi Hopen Hextra Hv Hu. destruct s as [[] w], Hi. cbn in *. split; cbn; try done.
  - intros id p Hp. destruct (ai_pending0 id p Hp) as [? [->%Hopen|Hst]]; (split; [done|]); right; [by eexists; apply lookup_insert_eq|].
    destruct p as [a'| | | |]; cbn in *; try done. rewrite lookup_insert_is_Some. destruct (decide (a = a')); auto.
  - intros a' u'. rewrite one_none, Nat.add_0_r. intros [[<- <-]|[Hne Hu']]%lookup_insert_Some;
      [split; [by eapply upload_ok_mono; [..|exact Hu]|done]|].
    destruct (ai_uploads0 a' u' Hu') as [Hok ?]. rewrite (one_only extra (PendingPut a)), Nat.add_0_r in Hok by (done || congruence).
    split; [by eapply upload_ok_mono; [..|exact Hok]|done].
  - intros l u' Hu'. specialize (ai_recovery_uploads0 l u' Hu'). rewrite (one_only extra (PendingPut a)) in ai_recovery_uploads0 by (done || congruence).
    by eapply upload_ok_mono; [..|exact ai_recovery_uploads0].
  - intros a' f' Hf Hx. specialize (ai_fetches0 a' f' Hf Hx). rewrite (one_only extra (PendingPut a)) in ai_fetches0 by done. done.
  - intros l' f' Hf. specialize (ai_recovery_fetches0 l' f' Hf). rewrite (one_only extra (PendingPut a)) in ai_recovery_fetches0 by done. done.
  - intros a' Ha'. destruct b; [|auto]. apply elem_of_union in Ha' as [->%elem_of_singleton|?]; auto.
Qed.
Ltac up_mono H := eapply upload_ok_mono; [..|exact H]; try done; lia.
Lemma close_recovery_upload open extra l u s :
  archive_inv open extra s → only open (PendingRecoveryPut l) → only extra (PendingRecoveryPut l) →
  upload_ok s.1 (recovery_acceptance_signing_bytes l) (count (ar_pending s.1) (PendingRecoveryPut l)) u →
  archive_ok ({ s.1 with recovery_uploads ::= <[l := u]> }, s.2).
Proof.
  intros Hi Hopen Hextra Hu. destruct s as [[] w], Hi. cbn in *. split; cbn; try done.
  - intros id p Hp. destruct (ai_pending0 id p Hp) as [? [->%Hopen|Hst]]; (split; [done|]); right; [by eexists; apply lookup_insert_eq|].
    destruct p as [| | |l'|]; cbn in *; try done. rewrite lookup_insert_is_Some. destruct (decide (l = l')); auto.
  - intros a u' Hu'. destruct (ai_uploads0 a u' Hu') as [Hok ?]. rewrite (one_only extra (PendingRecoveryPut l)) in Hok by (done || congruence). split; [up_mono Hok|done].
  - intros l' u'. rewrite one_none, Nat.add_0_r. intros [[<- <-]|[Hne Hu']]%lookup_insert_Some; [up_mono Hu|].
    specialize (ai_recovery_uploads0 l' u' Hu'). rewrite (one_only extra (PendingRecoveryPut l)) in ai_recovery_uploads0 by (done || congruence). up_mono ai_recovery_uploads0.
  - intros a' f' Hf Hx. specialize (ai_fetches0 a' f' Hf Hx). rewrite (one_only extra (PendingRecoveryPut l)) in ai_fetches0 by done. done.
  - intros l' f' Hf. specialize (ai_recovery_fetches0 l' f' Hf). rewrite (one_only extra (PendingRecoveryPut l)) in ai_recovery_fetches0 by done. done.
Qed.
Lemma close_fetch open extra a f s :
  archive_inv open extra s → only open (PendingGet a) → only extra (PendingGet a) →
  (fe_finished f = false → (0 < fe_remaining f <= count (ar_pending s.1) (PendingGet a))%nat) →
  archive_ok ({ s.1 with fetches ::= <[a := f]> }, s.2).
Proof.
  intros Hi Hopen Hextra Hu. destruct s as [[] w], Hi. cbn in *. split; cbn; try done.
  - intros id p Hp. destruct (ai_pending0 id p Hp) as [? [->%Hopen|Hst]]; (split; [done|]); right; [by eexists; apply lookup_insert_eq|].
    destruct p as [|a'| | |]; cbn in *; try done. rewrite lookup_insert_is_Some. destruct (decide (a = a')); auto.
  - intros a' u' Hu'. destruct (ai_uploads0 a' u' Hu') as [Hok ?]. rewrite (one_only extra (PendingGet a)) in Hok by (done || congruence). split; [up_mono Hok|done].
  - intros l u' Hu'. specialize (ai_recovery_uploads0 l u' Hu'). rewrite (one_only extra (PendingGet a)) in ai_recovery_uploads0 by (done || congruence). up_mono ai_recovery_uploads0.
  - intros a' f'. rewrite one_none, Nat.add_0_r. intros [[<- <-]|[Hne Hf']]%lookup_insert_Some; [done|].
    specialize (ai_fetches0 a' f' Hf'). by rewrite (one_only extra (PendingGet a)), Nat.add_0_r in ai_fetches0 by (done || congruence).
  - intros l' f' Hf. specialize (ai_recovery_fetches0 l' f' Hf). rewrite (one_only extra (PendingGet a)) in ai_recovery_fetches0 by done. done.
Qed.
Lemma close_recovery_fetch open extra l f s :
  archive_inv open extra s → only open (PendingRecoveryGet l) → only extra (PendingRecoveryGet l) →
  fe_finished f = (fe_remaining f =? 0)%nat → (fe_remaining f <= count (ar_pending s.1) (PendingRecoveryGet l))%nat →
  archive_ok ({ s.1 with recovery_fetches ::= <[l := f]> }, s.2).
Proof.
  intros Hi Hopen Hextra Hu Hn. destruct s as [[] w], Hi. cbn in *. split; cbn; try done.
  - intros id p Hp. destruct (ai_pending0 id p Hp) as [? [->%Hopen|Hst]]; (split; [done|]); right; [by eexists; apply lookup_insert_eq|].
    destruct p as [| | | |l']; cbn in *; try done. rewrite lookup_insert_is_Some. destruct (decide (l = l')); auto.
  - intros a' u' Hu'. destruct (ai_uploads0 a' u' Hu') as [Hok ?]. rewrite (one_only extra (PendingRecoveryGet l)) in Hok by (done || congruence). split; [up_mono Hok|done].
  - intros l' u' Hu'. specialize (ai_recovery_uploads0 l' u' Hu'). rewrite (one_only extra (PendingRecoveryGet l)) in ai_recovery_uploads0 by (done || congruence). up_mono ai_recovery_uploads0.
  - intros a' f' Hf Hx. specialize (ai_fetches0 a' f' Hf Hx). rewrite (one_only extra (PendingRecoveryGet l)) in ai_fetches0 by done. done.
  - intros l' f'. rewrite one_none, Nat.add_0_r. intros [[<- <-]|[Hne Hf']]%lookup_insert_Some; [done|].
    specialize (ai_recovery_fetches0 l' f' Hf'). by rewrite (one_only extra (PendingRecoveryGet l)), Nat.add_0_r in ai_recovery_fetches0 by (done || congruence).
Qed.
Lemma close_list open extra player l s :
  archive_inv open extra s → only open (PendingList player) → only extra (PendingList player) → archive_ok ({ s.1 with listings ::= <[player := l]> }, s.2).
Proof.
  intros Hi Hopen Hextra. destruct s as [[] w], Hi. cbn in *. split; cbn; try done.
  - intros id p Hp. destruct (ai_pending0 id p Hp) as [? [->%Hopen|Hst]]; (split; [done|]); right; [by eexists; apply lookup_insert_eq|].
    destruct p as [| |q| |]; cbn in *; try done. rewrite lookup_insert_is_Some. destruct (decide (player = q)); auto.
  - intros a' u' Hu'. destruct (ai_uploads0 a' u' Hu') as [Hok ?]. rewrite (one_only extra (PendingList player)) in Hok by (done || congruence). split; [up_mono Hok|done].
  - intros l' u' Hu'. specialize (ai_recovery_uploads0 l' u' Hu'). rewrite (one_only extra (PendingList player)) in ai_recovery_uploads0 by (done || congruence). up_mono ai_recovery_uploads0.
  - intros a' f' Hf Hx. specialize (ai_fetches0 a' f' Hf Hx). rewrite (one_only extra (PendingList player)) in ai_fetches0 by done. done.
  - intros l' f' Hf. specialize (ai_recovery_fetches0 l' f' Hf). rewrite (one_only extra (PendingList player)) in ai_recovery_fetches0 by done. done.
Qed.
(** Taking a request out opens the books for its answer. *)
Lemma take_opens id p s :
  archive_ok s → ar_pending s.1 !! id = Some p → archive_inv None (Some p) ({ s.1 with ar_pending ::= delete id }, s.2).
Proof.
  intros Hi Hp. assert (∀ q, count (ar_pending s.1) q + one None q = count (delete id (ar_pending s.1)) q + one (Some p) q)%nat
    as Hc by (intros q; rewrite one_none, Nat.add_0_r; by apply count_delete).
  destruct s as [[] w], Hi. cbn in *. split; cbn; try done.
  - intros i q. rewrite lookup_delete_Some. intros [_ Hq]. by destruct (ai_pending0 i q Hq).
  - intros q [= <-]. destruct (ai_pending0 id p Hp) as [_ [?|Hst]]; [done|]. by destruct p.
  - intros a u Hu. destruct (ai_uploads0 a u Hu) as [Hok ?]. rewrite Hc in Hok. split; [up_mono Hok|done].
  - intros l u Hu. specialize (ai_recovery_uploads0 l u Hu). rewrite Hc in ai_recovery_uploads0. up_mono ai_recovery_uploads0.
  - intros a f Hf Hx. specialize (ai_fetches0 a f Hf Hx). by rewrite Hc in ai_fetches0.
  - intros l f Hf. specialize (ai_recovery_fetches0 l f Hf). by rewrite Hc in ai_recovery_fetches0.
Qed.
End invariant.
Notation archive_ok := (archive_inv None None).
