(* ===== verification/ArchiveClient.v ===== *)
(** * ArchiveClient: every operation of the client keeps its books

    One lemma per operation of [ArchiveRuntime]: from the invariant of
    [ArchiveInv] it reaches the invariant again, and the handlers of answers
    and failures return a result ([settles]). *)

From coqutil Require Import Datatypes.RecordSetters.
From S2P Require Import Prelude Machine Encoding Order Ids Receipt Identity SignedReceipt UseCases Wire.
From S2P Require Import Session ArchiveNode ArchiveKeep Swarm ArchiveRuntime ArchiveInv.
Import OCamlLikeNotations.

(** ** Verifying a receipt does not abort *)
Lemma np_bind {E A B} (r : result E A) (f : A → result E B) : not_panic r → (∀ v, not_panic (f v)) → not_panic (r ≫= f).
Proof. destruct r; cbn; auto. Qed.
Lemma np_reject {E} b (e : E) : not_panic (reject_if b e).
Proof. by destruct b. Qed.
Lemma np_ok_or {E A} (o : option A) (e : E) : not_panic (ok_or o e).
Proof. by destruct o. Qed.
Lemma np_map_err {E F A} (f : E → F) (r : result E A) : not_panic r → not_panic (map_err f r).
Proof. by destruct r. Qed.
Lemma np_fold {E A B} (f : B → A → result E B) acc l : (∀ b x, not_panic (f b x)) → not_panic (try_fold f acc l).
Proof. intros Hf. revert acc. induction l as [|x l IH]; intros acc; cbn [try_fold]; [done|]. by apply np_bind. Qed.
Lemma np_each {E A} (f : A → result E unit) l : (∀ x, not_panic (f x)) → not_panic (try_each f l).
Proof. intros Hf. induction l as [|x l IH]; cbn [try_each]; [done|]. by apply np_bind. Qed.
Ltac np_auto := repeat (cbv zeta; match goal with
  | |- not_panic (reject_if _ _) => apply np_reject
  | |- not_panic (ok_or _ _) => apply np_ok_or
  | |- not_panic (map_err _ _) => apply np_map_err
  | |- not_panic (_ ≫= _) => apply np_bind; [|intros ?]
  | |- not_panic (try_fold _ _ _) => apply np_fold; intros ? ?
  | |- not_panic (Ok _) => done
  | |- not_panic (Err _) => done
  | |- not_panic (match ?x with _ => _ end) => destruct x
  end).
Lemma receipt_validate_total r : not_panic (receipt_validate r).
Proof.
  unfold receipt_validate. np_auto.
  - induction (outcomes r) as [|x [|y l] IH]; [done..|].
    cbn [check_player_order] in *. by repeat case_match.
  - unfold add_outcome. np_auto.
Qed.
Lemma cosigned_verify_total `{Crypto} c now : not_panic (cosigned_verify c now).
Proof.
  unfold cosigned_verify, check_participant, verify_for, validate_receipt_time, verify_at, verify_device_signature.
  np_auto; apply receipt_validate_total.
Qed.

Section archive_spec.
Context `{Crypto, Libp2p, !World, !RequestLog, !RequestLogLaws, !HexCodec, !DirOrder, !ReceiptJson}.
Implicit Types (r : ArchiveRuntime) (w : world) (s : ArchiveRuntime * world).

(** ** Attempts *)

(** A handler that answers, and keeps the books. *)
Definition settles {A} (m : ArchiveM A) (s : ArchiveRuntime * world) : Prop :=
  ∃ v s', m s = (Ok v, s') ∧ archive_ok s'.

Lemma run_archive {B} (f : ArchiveRuntime → ArchiveM B) s : (the_archive ≫= f) s = f s.1 s.
Proof. done. Qed.
Lemma run_set_archive {B} g (f : unit → ArchiveM B) s : (set_archive g ≫= f) s = f tt (g s.1, s.2).
Proof. done. Qed.
Lemma run_found {A B} (o : option A) e v (f : A → ArchiveM B) s : o = Some v → (lift (ok_or o e) ≫= f) s = f v s.
Proof. by intros ->. Qed.

(** The upload and the report after an answer. *)
Definition put_result (u : PendingUpload) (a : ContentAddress) (reason : option ArchiveReason) : PendingUpload * list ArchiveEvent :=
  if negb (up_finished u) && enough u then (finish_upload u, [ReceiptArchived a (replicas u)])
  else if negb (up_finished u) && (up_remaining u =? 0)%nat
  then (finish_upload u, [ReceiptArchiveFailed a (shortfall u reason)]) else (u, []).
Lemma put_result_ok r message n u confirmed a reason :
  upload_ok r message (n + 1) u → (∀ p, confirmed = Some p → p ∈ ar_peers r ∧ has_signed r message p) →
  upload_ok r message n (put_result (attempted u confirmed) a reason).1.
Proof.
  intros Hu Hc. unfold put_result. change (up_finished (attempted u confirmed)) with (up_finished u).
  destruct (up_finished u) eqn:Hf; cbn [negb andb].
  { apply attempted_ok; [done..|]. by left. }
  destruct (enough _) eqn:He; [by apply finished_ok|]. destruct (_ =? _)%nat eqn:Hr; [by apply finished_ok|].
  bool_props. apply attempted_ok; [done..|]. by right.
Qed.
Lemma finish_put_run a confirmed reason s :
  archive_inv None (Some (PendingPut a)) s →
  (∀ p, confirmed = Some p → p ∈ ar_peers s.1 ∧ has_signed s.1 (acceptance_signing_bytes a) p) →
  ∃ u s', uploads s.1 !! a = Some u ∧ archive_ok s'
    ∧ finish_put_attempt a confirmed reason s = (Ok (put_result (attempted u confirmed) a reason).2, s')
    ∧ uploads s'.1 !! a = Some (put_result (attempted u confirmed) a reason).1
    ∧ pinned_keys s'.1 = pinned_keys s.1 ∧ ar_peers s'.1 = ar_peers s.1 ∧ ar_minimum s'.1 = ar_minimum s.1
    ∧ (negb (up_finished u) && enough (attempted u confirmed) = true → a ∈ archived_addresses s'.1).
Proof.
  intros Hi Hc. destruct (ai_extra _ _ _ Hi _ eq_refl) as [u Hu]. exists u.
  destruct (ai_uploads _ _ _ Hi a u Hu) as [Hok Hv]. rewrite one_same in Hok.
  pose proof (put_result_ok _ _ _ u confirmed a reason Hok Hc) as Hres.
  pose proof (λ b, close_upload _ _ a _ b s Hi (only_none _) (only_some _) Hv Hres) as Hclose. unfold finish_put_attempt.
  rewrite run_archive, (run_found _ _ u) by done. unfold put_result in *.
  change (up_finished (attempted u confirmed)) with (up_finished u) in *.
  destruct (negb (up_finished u) && enough _) eqn:Hb; [specialize (Hclose true)|specialize (Hclose false)];
    [|destruct (negb (up_finished u) && (up_remaining _ =? 0)%nat)]; eexists; (split; [done|]);
    destruct s as [[] w]; (split; [exact Hclose|]); cbn; rewrite lookup_insert_eq; split_and!; try done.
  intros _. by apply elem_of_union_l, elem_of_singleton_2.
Qed.
Lemma finish_recovery_put_run l confirmed reason s :
  archive_inv None (Some (PendingRecoveryPut l)) s →
  (∀ p, confirmed = Some p → p ∈ ar_peers s.1 ∧ has_signed s.1 (recovery_acceptance_signing_bytes l) p) →
  settles (finish_recovery_put_attempt l confirmed reason) s.
Proof.
  intros Hi Hc. destruct (ai_extra _ _ _ Hi _ eq_refl) as [u Hu].
  pose proof (ai_recovery_uploads _ _ _ Hi l u Hu) as Hok. rewrite one_same in Hok.
  unfold settles, finish_recovery_put_attempt. rewrite run_archive, (run_found _ _ u) by done.
  change (up_finished (attempted u confirmed)) with (up_finished u).
  destruct (enough _ && _) eqn:Hb.
  { do 2 eexists. split; [reflexivity|]. apply (close_recovery_upload _ _ l _ s Hi (only_none _) (only_some _)). by apply finished_ok. }
  destruct (negb _ && _) eqn:Hr; do 2 eexists; (split; [reflexivity|]); apply (close_recovery_upload _ _ l _ s Hi (only_none _) (only_some _)).
  - by apply finished_ok.
  - apply attempted_ok; [done..|]. destruct (up_finished u) eqn:Hf; [by left|]. right. cbn [negb andb] in Hr. bool_props.
    split; [|done]. destruct confirmed as [p|]; [|apply (uo_open _ _ _ _ Hok Hf)].
    destruct Hb as [?|Hb]; [done|]. bool_props. by destruct Hb; eexists.
Qed.
Lemma finish_fetch_run a reason s :
  archive_inv None (Some (PendingGet a)) s → settles (finish_fetch_attempt a reason) s.
Proof.
  intros Hi. destruct (ai_extra _ _ _ Hi _ eq_refl) as [f Hf]. pose proof (ai_fetches _ _ _ Hi a f Hf) as Hok.
  rewrite one_same in Hok. unfold settles, finish_fetch_attempt. rewrite run_archive, (run_found _ _ f) by done.
  destruct (negb _ && _) eqn:Hb; do 2 eexists; (split; [reflexivity|]); apply (close_fetch _ _ a _ s Hi (only_none _) (only_some _)); [done|]. cbn.
  intros Hx. specialize (Hok Hx). rewrite Hx in Hb. cbn [negb andb] in Hb. bool_props. lia.
Qed.
Lemma finish_list_run player reason s :
  archive_inv None (Some (PendingList player)) s → settles (finish_list_attempt player reason) s.
Proof.
  intros Hi. destruct (ai_extra _ _ _ Hi _ eq_refl) as [l Hl].
  unfold settles, finish_list_attempt. rewrite run_archive, (run_found _ _ l), run_set_archive by done.
  destruct (_ && _); do 2 eexists; (split; [reflexivity|]); exact (close_list _ _ player _ s Hi (only_none _) (only_some _)).
Qed.
Lemma recovery_fetch_closes l f s :
  archive_inv None (Some (PendingRecoveryGet l)) s → recovery_fetches s.1 !! l = Some f →
  let remaining := (fe_remaining f - 1)%nat in
  archive_ok ({ s.1 with recovery_fetches ::= <[l := mkFetch remaining (remaining =? 0)%nat]> }, s.2).
Proof.
  intros Hi Hf. destruct (ai_recovery_fetches _ _ _ Hi l f Hf) as [_ Hle]. rewrite one_same in Hle.
  apply (close_recovery_fetch _ _ l _ s Hi (only_none _) (only_some _)); [done|]. cbn. lia.
Qed.
Lemma finish_recovery_fetch_run l reason s :
  archive_inv None (Some (PendingRecoveryGet l)) s → settles (finish_recovery_fetch_attempt l reason) s.
Proof.
  intros Hi. destruct (ai_extra _ _ _ Hi _ eq_refl) as [f Hf].
  destruct (ai_recovery_fetches _ _ _ Hi l f Hf) as [Hfin _].
  pose proof (recovery_fetch_closes l f s Hi Hf) as Hclose. cbv zeta in Hclose.
  unfold settles, finish_recovery_fetch_attempt. rewrite run_archive, (run_found _ _ f) by done.
  destruct (negb _ && _) eqn:Hb.
  - bool_props. replace (fe_remaining f - 1 =? 0)%nat with true in Hclose by (symmetry; by apply Nat.eqb_eq).
    rewrite run_set_archive. destruct (recovered_envelopes _ !! _) as [[|]|]; do 2 eexists; (split; [reflexivity|]); done.
  - do 2 eexists. split; [reflexivity|]. replace (fe_finished f) with (fe_remaining f - 1 =? 0)%nat; [done|].
    rewrite Hfin in *. destruct (fe_remaining f) as [|[|n]]; done.
Qed.
Lemma finish_attempt_run p reason s : archive_inv None (Some p) s → settles (finish_attempt p reason) s.
Proof.
  intros Hi. destruct p; cbn [finish_attempt].
  - destruct (finish_put_run a None (Some reason) s Hi) as (u & s' & _ & ? & ? & _); [done|]. by do 2 eexists.
  - by apply finish_fetch_run.
  - by apply finish_list_run.
  - by apply finish_recovery_put_run.
  - by apply finish_recovery_fetch_run.
Qed.

(** ** Signatures of nodes *)
Lemma check_signature_Ok pinned key message sig :
  check_node_signature pinned key message sig = Ok tt →
  verify_sig key message sig = true ∧ (pinned = None ∨ pinned = Some key).
Proof.
  unfold check_node_signature. intros Hc. inv_ok. bool_props. split; [done|]. destruct pinned as [k|]; [|by left].
  bool_props. right. congruence.
Qed.
Lemma check_signature_total pinned key message sig : check_node_signature pinned key message sig ≠ Panic.
Proof. unfold check_node_signature, reject_if, mbind, result_bind. by repeat case_match. Qed.
Definition pin (peer : PeerId) (key : list Z) s : ArchiveRuntime * world := ({ s.1 with pinned_keys ::= <[peer := key]> }, s.2).
Lemma pin_inv open extra peer key s :
  archive_inv open extra s → pinned_keys s.1 !! peer = None ∨ pinned_keys s.1 !! peer = Some key →
  archive_inv open extra (pin peer key s).
Proof.
  intros Hi Hk. assert (pinned_keys s.1 ⊆ <[peer := key]> (pinned_keys s.1)) as Hsub.
  { destruct Hk as [Hk|Hk]; [by apply insert_subseteq|]. by rewrite insert_id. }
  destruct s as [[] w], Hi. unfold pin. cbn in *. split; cbn; try done.
  - intros a u Hu. destruct (ai_uploads a u Hu) as [Hok ?]. split; [|done]. by eapply upload_ok_mono; [..|exact Hok].
  - intros l u Hu. by eapply upload_ok_mono; [..|exact (ai_recovery_uploads l u Hu)].
Qed.
(** Either nothing is learnt, or the key is pinned and has signed. *)
Lemma verify_run {B} peer key message sig (f : result NodeSignatureError unit → ArchiveM B) s :
  (∃ e, (verify_node_signature peer key message sig ≫= f) s = f (Err e) s)
  ∨ ((verify_node_signature peer key message sig ≫= f) s = f (Ok tt) (pin peer key s) ∧ verify_sig key message sig = true
     ∧ (pinned_keys s.1 !! peer = None ∨ pinned_keys s.1 !! peer = Some key)).
Proof.
  unfold verify_node_signature. destruct (check_node_signature (pinned_keys s.1 !! peer) key message sig) as [[]|e|] eqn:Hc.
  - right. apply check_signature_Ok in Hc as Hc'. split; [|done]. rewrite run_bind, run_archive. cbv zeta. by rewrite Hc.
  - left. exists e. rewrite run_bind, run_archive. cbv zeta. by rewrite Hc.
  - by apply check_signature_total in Hc.
Qed.
Lemma pin_signed peer key message until sig s :
  verify_sig key (message until) sig = true → has_signed (pin peer key s).1 message peer.
Proof. intros Hs. exists key, until, sig. split; [|done]. destruct s as [[] w]. apply lookup_insert_eq. Qed.

(** ** Answers *)
(** The answer to a request to keep [a] is one attempt, with the node as a
    replica if it has signed. *)
Definition attempts a (c : option PeerId) (m : ArchiveM (list ArchiveEvent)) s : Prop :=
  ∃ reason t, m s = finish_put_attempt a c reason t ∧ archive_inv None (Some (PendingPut a)) t
    ∧ (∀ p, c = Some p → p ∈ ar_peers t.1 ∧ has_signed t.1 (acceptance_signing_bytes a) p)
    ∧ uploads t.1 = uploads s.1.
Lemma put_response_attempts peer a x now s :
  archive_inv None (Some (PendingPut a)) s → peer ∈ ar_peers s.1 →
  attempts a None (handle_put_response peer a x now) s ∨ attempts a (Some peer) (handle_put_response peer a x now) s.
Proof.
  intros Hi Hp. unfold handle_put_response. destruct (_ || _) eqn:Hg; [left; by do 2 eexists|]. bool_props.
  unfold attempts. match goal with |- context [(verify_node_signature ?p ?k ?m ?sg ≫= ?f) s] =>
    destruct (verify_run p k m sg f s) as [[e ->]|(-> & Hs & Hk)] end; [left; by do 2 eexists|]. right. do 2 eexists.
  split; [reflexivity|]. split; [by apply pin_inv|]. split; [|by destruct s as [[] ?]].
  intros q [= <-]. split; [by destruct s as [[] w]|].
  eapply (pin_signed _ _ (acceptance_signing_bytes a)). by replace a with (response_address x).
Qed.
Lemma attempts_settle a c m s : attempts a c m s → settles m s.
Proof.
  intros (reason & t & E & Hi & Hc & _). destruct (finish_put_run a c reason t Hi Hc) as (u & s' & _ & ? & E' & _).
  unfold settles. rewrite E, E'. by do 2 eexists.
Qed.
Lemma put_response_run peer a x now s :
  archive_inv None (Some (PendingPut a)) s → peer ∈ ar_peers s.1 → settles (handle_put_response peer a x now) s.
Proof. intros Hi Hp. destruct (put_response_attempts peer a x now s Hi Hp); by eapply attempts_settle. Qed.
Lemma recovery_put_response_run peer l x now s :
  archive_inv None (Some (PendingRecoveryPut l)) s → peer ∈ ar_peers s.1 → settles (handle_recovery_put_response peer l x now) s.
Proof.
  intros Hi Hp. unfold handle_recovery_put_response. destruct (_ || _) eqn:Hg; [by apply finish_recovery_put_run|].
  bool_props. unfold settles.
  destruct (verify_run peer (stored_node_key x) (recovery_acceptance_signing_bytes l (stored_until x))
    (stored_node_signature x) (λ checked, match checked with
      | Err e => finish_recovery_put_attempt l None (Some (NodeSignature e)) | _ => finish_recovery_put_attempt l (Some peer) None end) s)
    as [[e ->]|(-> & Hs & Hk)]; [by apply finish_recovery_put_run|].
  apply finish_recovery_put_run; [by apply pin_inv|]. intros q [= <-]. split; [by destruct s as [[] w]|].
  by eapply (pin_signed _ _ (recovery_acceptance_signing_bytes l)).
Qed.

(** A fetched receipt is kept, and ends its fetch. *)
Lemma accept_fetched_run a receipt s :
  archive_inv None (Some (PendingGet a)) s → receipt_sound a receipt → settles (accept_fetched a receipt) s.
Proof.
  intros Hi Hr. unfold settles, accept_fetched. rewrite run_set_archive. do 2 eexists. split; [reflexivity|].
  destruct (ai_extra _ _ _ Hi _ eq_refl) as [f Hf].
  pose proof (close_fetch _ _ a (mkFetch (fe_remaining f) true) s Hi (only_none _) (only_some _) ltac:(done)) as Hc.
  destruct s as [[] w], Hc. cbn in *. split; cbn; try done.
  - intros id p Hp. destruct (ai_pending id p Hp) as [? [?|Hst]]; [done|]. split; [done|]. right. destruct p; cbn in *; try done.
    revert Hst. rewrite lookup_insert_is_Some, lookup_alter_is_Some. intros [->|[_ ?]]; [by exists f|done].
  - intros a' u Hu. destruct (ai_uploads a' u Hu) as [Hok Hv]. split; [by eapply upload_ok_mono; [..|exact Hok]|].
    rewrite lookup_insert_is_Some. destruct (decide (a = a')); auto.
  - intros l u Hu. by eapply upload_ok_mono; [..|exact (ai_recovery_uploads l u Hu)].
  - intros a' f' Hf'. apply lookup_alter_Some in Hf' as [(<- & g & Hg & ->)|[Hne Hf']]; [done|].
    apply ai_fetches. by rewrite lookup_insert_ne.
  - intros a' c [[<- <-]|[_ Hc]]%lookup_insert_Some; auto.
  - intros a' Ha. rewrite lookup_insert_is_Some. apply elem_of_union in Ha as [->%elem_of_singleton|Ha]; [by left|].
    destruct (decide (a = a')); auto.
Qed.
Lemma check_fetched_Ok a content now receipt : check_fetched a content now = Ok receipt → receipt_sound a receipt.
Proof.
  unfold check_fetched. intros Hc. inv_ok. bool_props.
  match goal with Hv : cosigned_verify _ _ = Ok ?x |- _ => destruct x end.
  split; [by eexists|]. eexists. split; [done|]. by right.
Qed.
Lemma check_fetched_total a content now : not_panic (check_fetched a content now).
Proof. unfold check_fetched. np_auto. apply cosigned_verify_total. Qed.
Lemma fetch_response_run peer a x now s :
  archive_inv None (Some (PendingGet a)) s → settles (handle_fetch_response peer a x now) s.
Proof.
  intros Hi. unfold handle_fetch_response. destruct (negb _); [by apply finish_fetch_run|]. unfold settles.
  match goal with |- context [(verify_node_signature ?p ?k ?m ?sg ≫= ?f) s] =>
    destruct (verify_run p k m sg f s) as [[e ->]|(-> & Hs & Hk)] end; [by apply finish_fetch_run|].
  pose proof (pin_inv _ _ _ _ _ Hi Hk) as Hi'.
  destruct (fetch_content x) as [content|]; [|by apply finish_fetch_run].
  pose proof (check_fetched_total a content now) as Ht. destruct (check_fetched a content now) as [receipt|reason|] eqn:Hc; [| |done].
  - apply accept_fetched_run; [done|]. by eapply check_fetched_Ok.
  - by apply finish_fetch_run.
Qed.

(** ** New fetches *)
Lemma start_fetch_run a s :
  archive_ok s → ar_peers s.1 ≠ [] → ∃ s', start_fetch a s = (Ok tt, s') ∧ archive_ok s' ∧ ar_peers s'.1 = ar_peers s.1.
Proof.
  intros Hi Hp. unfold start_fetch. rewrite run_bind.
  destruct (ask_peers_run (RqFetchArchive a) (PendingGet a) _ _ s Hi) as (t & -> & Ha).
  pose proof (asked_inv _ None _ _ (or_introl eq_refl) Hi Ha) as Ht. eexists. split; [reflexivity|].
  destruct Ha as [Er Hc _ _]. assert (ar_peers t.1 = ar_peers s.1) as Ep by (rewrite Er; by destruct s as [[] ?]).
  split; [|destruct t as [[] ?]; exact Ep].
  pose proof (close_fetch _ _ a (mkFetch (length (ar_peers t.1)) false) t Ht (only_some _) (only_none _)) as Hclose.
  assert (0 < length (ar_peers s.1))%nat as Hpos by (destruct (ar_peers s.1); [done|cbn; lia]).
  rewrite <-Ep in Hpos, Hc. specialize (Hc (PendingGet a)). rewrite one_same in Hc.
  destruct t as [[] w]. apply Hclose. cbn in *. lia.
Qed.
Lemma start_fetches_run l s :
  archive_ok s → ar_peers s.1 ≠ [] → ∃ s', for_each start_fetch l s = (Ok tt, s') ∧ archive_ok s'.
Proof.
  revert s. induction l as [|a l IH]; intros s Hi Hp; [by exists s|]. cbn [for_each]. rewrite run_bind.
  destruct (start_fetch_run a s Hi Hp) as (t & -> & Ht & Ep). apply IH; [done|]. by rewrite Ep.
Qed.
Lemma list_response_run peer player x s :
  archive_inv None (Some (PendingList player)) s → peer ∈ ar_peers s.1 → settles (handle_list_response peer player x) s.
Proof.
  intros Hi Hp. unfold handle_list_response. destruct (_ || _); [by apply finish_list_run|]. cbv zeta. unfold settles.
  match goal with |- context [(verify_node_signature ?p ?k ?m ?sg ≫= ?f) s] =>
    destruct (verify_run p k m sg f s) as [[e ->]|(-> & Hs & Hk)] end; [by apply finish_list_run|].
  pose proof (pin_inv _ _ _ _ _ Hi Hk) as Hi'. set (t := pin peer (list_node_key x) s) in *.
  assert (ar_peers t.1 ≠ []) as Hne. { subst t. destruct s as [[] w]. cbn in *. intros ->. by apply elem_of_nil in Hp. }
  clearbody t. destruct (ai_extra _ _ _ Hi' _ eq_refl) as [l Hl].
  rewrite run_bind. unfold merge_list. rewrite run_archive, Hl. destruct (new_addresses _ _ _) as [all fresh].
  rewrite run_set_archive. cbn [mret M_ret]. rewrite run_bind.
  pose proof (close_list _ _ player (mkListing (li_remaining l - 1) all) t Hi' (only_none _) (only_some _)) as Hc.
  match type of Hc with archive_inv _ _ ?u => destruct (start_fetches_run fresh u Hc) as (s' & -> & Hs') end;
    [by destruct t as [[] ?]|]. rewrite run_archive. by do 2 eexists.
Qed.
Lemma accept_envelope_run l envelope s :
  archive_inv None (Some (PendingRecoveryGet l)) s → validate_recovery_object l envelope = Ok tt →
  settles (accept_envelope l envelope) s.
Proof.
  intros Hi Hv. unfold settles, accept_envelope. rewrite run_set_archive.
  match goal with |- context [(the_archive ≫= _) ?u] => set (t := u) end.
  assert (archive_inv None (Some (PendingRecoveryGet l)) t) as Ht.
  { subst t. destruct s as [[] w], Hi. cbn in *. split; cbn; try done.
    - intros a u Hu. destruct (ai_uploads a u Hu) as [Hok ?]. split; [|done]. by eapply upload_ok_mono; [..|exact Hok].
    - intros l' u Hu. by eapply upload_ok_mono; [..|exact (ai_recovery_uploads l' u Hu)].
    - intros l' es [[<- <-]|[_ Hes]]%lookup_insert_Some; [|auto]. apply Forall_app. split; [|by repeat constructor].
      destruct (recovered_envelopes !! l) eqn:E; cbn; [by eapply ai_envelopes|done]. }
  clearbody t. rewrite run_archive. destruct (ai_extra _ _ _ Ht _ eq_refl) as [f Hf]. rewrite (run_found _ _ f) by done.
  rewrite run_set_archive. do 2 eexists. split; [reflexivity|]. by apply recovery_fetch_closes.
Qed.
Lemma recovery_fetch_response_run peer l x s :
  archive_inv None (Some (PendingRecoveryGet l)) s → settles (handle_recovery_fetch_response peer l x) s.
Proof.
  intros Hi. unfold handle_recovery_fetch_response. destruct (negb _); [by apply finish_recovery_fetch_run|]. unfold settles.
  match goal with |- context [(verify_node_signature ?p ?k ?m ?sg ≫= ?f) s] =>
    destruct (verify_run p k m sg f s) as [[e ->]|(-> & Hs & Hk)] end; [by apply finish_recovery_fetch_run|].
  pose proof (pin_inv _ _ _ _ _ Hi Hk) as Hi'.
  destruct (recovered_envelope x) as [envelope|]; [|by apply finish_recovery_fetch_run].
  assert (not_panic (validate_recovery_object l envelope)) as Ht by (unfold validate_recovery_object, validate_recovery_locator; np_auto).
  destruct (validate_recovery_object l envelope) as [[]|e|] eqn:Hv; [by apply accept_envelope_run|by apply finish_recovery_fetch_run|done].
Qed.
Lemma on_response_run p peer response now s :
  archive_inv None (Some p) s → peer ∈ ar_peers s.1 → settles (on_response p peer response now) s.
Proof.
  intros Hi Hp. destruct p, response; cbn [on_response]; try (by apply finish_attempt_run).
  - by apply put_response_run.
  - by apply fetch_response_run.
  - by apply list_response_run.
  - by apply recovery_put_response_run.
  - by apply recovery_fetch_response_run.
Qed.

(** ** Requests of the user *)

(** All configured peers are asked, and the books are open for the request. *)
Lemma ask_opens request p open s :
  archive_inv open None s → only open p → ∃ t, ask_peers request p s = (Ok tt, t) ∧ archive_inv (Some p) None t
    ∧ t.1 = with_pending s.1 (ar_pending t.1) ∧ (length (ar_peers t.1) <= count (ar_pending t.1) p)%nat.
Proof.
  intros Hi Ho. destruct (ask_peers_run request p _ _ s Hi) as (t & E & Ha). exists t. split; [done|].
  split; [|split]; [|apply Ha|].
  - apply (asked_inv p open s t); [|done..]. destruct open as [q|]; [|by left]. right. f_equal. by apply Ho.
  - destruct Ha as [Er Hc _ _]. rewrite Hc, one_same. replace (ar_peers t.1) with (ar_peers s.1); [lia|].
    rewrite Er. by destruct s as [[] ?].
Qed.
Lemma new_upload_ok r message n :
  1 <= ar_minimum r → ar_peers r ≠ [] → (length (ar_peers r) <= n)%nat → upload_ok r message n (new_upload r).
Proof.
  intros Hm Hp Hn. split; cbn; [set_solver|done|]. intros _. split; [unfold enough; cbn; rewrite size_empty; apply Z.leb_gt; lia|].
  destruct (ar_peers r); [done|]. cbn in *. lia.
Qed.
Lemma peers_asked r m : ar_peers (with_pending r m) = ar_peers r ∧ verified_receipts (with_pending r m) = verified_receipts r.
Proof. by destruct r. Qed.
Lemma keep_receipt_inv a c s :
  archive_ok s → receipt_sound a c → archive_ok ({ s.1 with verified_receipts ::= <[a := c]> }, s.2).
Proof.
  intros Hi Hc. destruct s as [[] w], Hi. cbn in *. split; cbn; try done.
  - intros a' u Hu. destruct (ai_uploads a' u Hu) as [Hok ?]. split; [by eapply upload_ok_mono; [..|exact Hok]|].
    rewrite lookup_insert_is_Some. destruct (decide (a = a')); auto.
  - intros l u Hu. by eapply upload_ok_mono; [..|exact (ai_recovery_uploads l u Hu)].
  - intros a' c' [[<- <-]|[_ ?]]%lookup_insert_Some; auto.
  - intros a' Ha. rewrite lookup_insert_is_Some. destruct (decide (a = a')); auto.
Qed.
Lemma publish_receipt_ok receipt now s : archive_ok s → archive_ok (publish_receipt receipt now s).2.
Proof.
  intros Hi. unfold publish_receipt. rewrite run_lift. destruct (map_err _ _) as [[]|?|] eqn:Hv; [|done..]. apply map_err_Ok in Hv.
  rewrite run_lift. destruct (ok_or _ _) as [content|?|] eqn:Hj; [|done..]. apply ok_or_Ok in Hj.
  rewrite run_lift. destruct (reject_if _ _) as [[]|?|]; [|done..]. cbv zeta. rewrite run_set_archive, run_archive.
  set (a := from_content content).
  assert (archive_ok ({ s.1 with verified_receipts ::= <[a := receipt]> }, s.2)) as Hi1.
  { apply keep_receipt_inv; [done|]. split; [by eexists|]. exists content. by split; [|left]. }
  assert (is_Some (verified_receipts { s.1 with verified_receipts ::= <[a := receipt]> } !! a)) as Hr.
  { destruct s as [[] ?]. cbn. rewrite lookup_insert_eq. by eexists. }
  set (r := { s.1 with verified_receipts ::= <[a := receipt]> }) in *. clearbody r. generalize dependent s.2. clear s Hi.
  intros w Hi1. cbn [fst snd].
  destruct (_ =? 0)%nat eqn:Hp; [done|]. bool_props.
  destruct (ask_opens (RqArchive (mkArchiveRequest a content DEFAULT_REPLICATION_SECONDS)) (PendingPut a) None (r, w) Hi1 (only_none _))
    as (u & Hask & Hu & Er & Hn). rewrite run_bind, Hask, run_set_archive. cbn [mret M_ret snd fst] in *.
  destruct (peers_asked r (ar_pending u.1)) as [Ep Ev]. rewrite <-Er in Ep, Ev.
  pose proof (close_upload _ _ a (new_upload u.1) false u Hu (only_some _) (only_none _)) as Hc. rewrite Ev in Hc.
  destruct u as [[] ?]. apply Hc; [done|]. apply new_upload_ok; [apply Hu| |done]. rewrite Ep. by intros E%(f_equal length).
Qed.
(** The books of one kind of request may be forgotten. *)
Lemma forget_inv p s r :
  archive_ok s → ar_pending r = forget_pending p (ar_pending s.1) → ar_peers r = ar_peers s.1 → ar_minimum r = ar_minimum s.1 →
  pinned_keys r = pinned_keys s.1 → verified_receipts r = verified_receipts s.1 → archived_addresses r = archived_addresses s.1 →
  (∀ q, q ≠ p → has_state s.1 q → has_state r q) →
  (∀ a u, uploads r !! a = Some u → uploads s.1 !! a = Some u ∧ PendingPut a ≠ p) →
  (∀ l u, recovery_uploads r !! l = Some u → recovery_uploads s.1 !! l = Some u ∧ PendingRecoveryPut l ≠ p) →
  (∀ a f, fetches r !! a = Some f → fetches s.1 !! a = Some f ∧ PendingGet a ≠ p) →
  (∀ l f, recovery_fetches r !! l = Some f → recovery_fetches s.1 !! l = Some f ∧ PendingRecoveryGet l ≠ p) →
  recovered_envelopes r ⊆ recovered_envelopes s.1 → archive_ok (r, s.2).
Proof.
  intros [] Em Ep En Ek Ev Ea Hst Hu Hru Hf Hrf He. cbn in *.
  assert (∀ q, p ≠ q → count (ar_pending r) q = count (ar_pending s.1) q) as Hc.
  { intros q Hne. rewrite Em, count_forget. by rewrite bool_decide_false. }
  split; cbn; rewrite ?Ep, ?En, ?Ev, ?Ea; try done.
  - intros id q Hq. rewrite Em in Hq. apply map_lookup_filter_Some in Hq as [Hq Hne]. cbn in Hne.
    destruct (ai_pending id q Hq) as [? [?|?]]; [done|]. split; [done|]. right. auto.
  - intros a u Hau. destruct (Hu a u Hau) as [Hau' Hne]. destruct (ai_uploads a u Hau') as [Hok ?]. split; [|done].
    rewrite Hc by congruence. eapply upload_ok_mono; [..|exact Hok]; try done. by rewrite Ek.
  - intros l u Hlu. destruct (Hru l u Hlu) as [Hlu' Hne]. pose proof (ai_recovery_uploads l u Hlu') as Hok.
    rewrite Hc by congruence. eapply upload_ok_mono; [..|exact Hok]; try done. by rewrite Ek.
  - intros a f Haf. destruct (Hf a f Haf) as [Haf' Hne]. rewrite Hc by congruence. by apply ai_fetches.
  - intros l f Hlf. destruct (Hrf l f Hlf) as [Hlf' Hne]. rewrite Hc by congruence. by apply ai_recovery_fetches.
  - intros l es Hes. eapply ai_envelopes. by eapply lookup_weaken.
Qed.
Lemma cancel_ok l s : archive_ok s → archive_ok (cancel_recovery_fetch l s.1, s.2).
Proof.
  intros Hi. apply (forget_inv (PendingRecoveryGet l) s _ Hi); destruct s as [[] w]; cbn; try done.
  - intros [| | | |l'] Hne Hst; cbn in *; try done. rewrite lookup_delete_ne; [done|congruence].
  - intros l' f Hf. apply lookup_delete_Some in Hf as [? ?]. split; [done|congruence].
  - apply delete_subseteq.
Qed.
(** The state [publish_recovery] leaves does not depend on the previous upload
    of the package: it could as well be dropped first. *)
Definition drop_upload (l : Locator) r : ArchiveRuntime :=
  { r with ar_pending ::= forget_pending (PendingRecoveryPut l); recovery_uploads ::= delete l }.
Lemma drop_upload_ok l s : archive_ok s → archive_ok (drop_upload l s.1, s.2).
Proof.
  intros Hi. apply (forget_inv (PendingRecoveryPut l) s _ Hi); destruct s as [[] w]; cbn; try done.
  - intros [| | |l'|] Hne Hst; cbn in *; try done. rewrite lookup_delete_ne; [done|congruence].
  - intros l' f Hf. apply lookup_delete_Some in Hf as [? ?]. split; [done|congruence].
Qed.
Lemma publish_recovery_ok l envelope s : archive_ok s → archive_ok (publish_recovery l envelope s).2.
Proof.
  intros Hi. unfold publish_recovery. rewrite run_lift. destruct (validate_recovery_object _ _) as [[]|?|]; [|done..].
  rewrite run_archive. destruct (_ =? 0)%nat eqn:Hp; [done|]. bool_props. rewrite run_set_archive, run_bind.
  unfold ask_peers. rewrite run_archive. pose proof (drop_upload_ok l s Hi) as Hd.
  pose proof (inv_logged _ _ _ Hd) as Hlog. unfold pending_logged in Hlog.
  destruct s as [r w]. cbn [fst snd] in *.
  set (r1 := { r with ar_pending ::= forget_pending (PendingRecoveryPut l) }).
  destruct (ask_each_run (RqStoreRecovery (mkRecoveryRequest l envelope MAX_REPLICATION_SECONDS)) (PendingRecoveryPut l)
    (ar_peers r1) (r1, w)) as (t & -> & Ha & _); [destruct r; exact Hlog|].
  rewrite run_set_archive. cbn [mret M_ret snd].
  assert (archive_inv (Some (PendingRecoveryPut l)) None ({ t.1 with recovery_uploads ::= delete l }, t.2)) as Ht.
  { apply (asked_inv _ None (drop_upload l r, w)); [by left|done|]. destruct Ha as [Er Hc Hn Hl]. destruct t as [t1 t2].
    cbn [fst snd] in *. rewrite Er in *. destruct r. by split. }
  assert (ar_peers t.1 = ar_peers r) as Ep by (rewrite (ask_runtime _ _ _ _ Ha); by destruct r).
  pose proof (ask_count _ _ _ _ Ha (PendingRecoveryPut l)) as Hn. rewrite one_same in Hn.
  replace (ar_peers r1) with (ar_peers t.1) in Hn by (rewrite Ep; by destruct r).
  pose proof (close_recovery_upload _ _ l (new_upload t.1) _ Ht (only_some _) (only_none _)) as Hc.
  assert (upload_ok t.1 (recovery_acceptance_signing_bytes l) (count (ar_pending t.1) (PendingRecoveryPut l)) (new_upload t.1)) as Hup.
  { apply new_upload_ok; [|rewrite Ep; by intros E%(f_equal length)|lia].
    pose proof (ai_minimum _ _ _ Ht) as [Hm _]. by destruct t as [[] ?]. }
  destruct t as [[] t2]. cbn in Hc. rewrite insert_delete_eq in Hc. apply Hc. by eapply upload_ok_mono; [..|exact Hup].
Qed.
Lemma drop_fetch_inv l s :
  archive_ok s →
  archive_inv (Some (PendingRecoveryGet l)) None
    ({ s.1 with recovery_fetches ::= delete l; recovered_envelopes ::= delete l }, s.2).
Proof.
  intros Hi. destruct s as [[] w], Hi. cbn in *. split; cbn; try done.
  - intros id p Hp. destruct (ai_pending id p Hp) as [? [?|Hst]]; [done|]. split; [done|].
    destruct p as [| | | |l']; cbn in *; auto. destruct (decide (l = l')) as [<-|?]; [by left|]. right. by rewrite lookup_delete_ne.
  - intros a u Hu. destruct (ai_uploads a u Hu) as [Hok ?]. split; [|done]. by eapply upload_ok_mono; [..|exact Hok].
  - intros l' u Hu. by eapply upload_ok_mono; [..|exact (ai_recovery_uploads l' u Hu)].
  - intros l' f [_ Hf]%lookup_delete_Some. by apply ai_recovery_fetches.
  - intros l' es [_ Hf]%lookup_delete_Some. by apply ai_envelopes.
Qed.
Lemma fetch_recovery_ok l s : archive_ok s → archive_ok (fetch_recovery l s).2.
Proof.
  intros Hi. unfold fetch_recovery. rewrite run_lift. destruct (validate_recovery_locator _) as [[]|?|]; [|done..].
  rewrite run_archive. destruct (_ =? 0)%nat eqn:Hp; [done|]. bool_props.
  match goal with |- archive_ok ((if ?b then _ else _) _).2 => destruct b; [done|] end.
  rewrite run_set_archive, run_bind. pose proof (drop_fetch_inv l s Hi) as Hd.
  destruct (ask_opens (RqFetchRecovery l) (PendingRecoveryGet l) _ _ Hd (only_some _)) as (t & -> & Ht & Er & Hn).
  assert (length (ar_peers t.1) ≠ 0%nat) as Hne.
  { rewrite Er. by destruct s as [[] ?]. }
  rewrite run_set_archive. cbn [mret M_ret snd].
  pose proof (close_recovery_fetch _ _ l (mkFetch (length (ar_peers t.1)) false) t Ht (only_some _) (only_none _)) as Hc.
  destruct t as [[] ?]. apply Hc; [|done]. symmetry. by apply Nat.eqb_neq.
Qed.
Lemma sync_player_ok player s : archive_ok s → archive_ok (sync_player player s).2.
Proof.
  intros Hi. unfold sync_player. rewrite run_archive. destruct (_ =? 0)%nat eqn:Hp; [done|].
  rewrite run_bind. destruct (ask_opens (RqListPlayerArchives player) (PendingList player) _ _ Hi (only_none _)) as (t & -> & Ht & _).
  rewrite run_set_archive. exact (close_list _ _ player _ t Ht (only_some _) (only_none _)).
Qed.
Lemma fetch_receipt_ok a s : archive_ok s → archive_ok (fetch_receipt a s).2.
Proof.
  intros Hi. unfold fetch_receipt. rewrite run_archive. do 2 (case_bool_decide; [done|]). destruct (_ =? 0)%nat eqn:Hp; [done|].
  bool_props. rewrite run_bind. destruct (start_fetch_run a s Hi) as (t & -> & Ht & _); [by intros E%(f_equal length)|done].
Qed.
Lemma take_envelope_ok l s : archive_ok s → archive_ok ((take_recovered_envelope l s.1).2, s.2).
Proof.
  intros Hi. unfold take_recovered_envelope.
  destruct (recovered_envelopes s.1 !! l) as [[|e es]|] eqn:He; [by destruct s| |by destruct s].
  pose proof (ai_envelopes _ _ _ Hi l _ He) as Hes. apply Forall_cons in Hes as [_ Hes]. clear He.
  destruct s as [[] w], Hi. cbn in *. split; cbn; try done.
  - intros a u Hu. destruct (ai_uploads a u Hu) as [Hok ?]. split; [|done]. by eapply upload_ok_mono; [..|exact Hok].
  - intros l' u Hu. by eapply upload_ok_mono; [..|exact (ai_recovery_uploads l' u Hu)].
  - intros l' x Hx. destruct es as [|e' es]; [apply lookup_delete_Some in Hx as [_ Hx]; by apply ai_envelopes|].
    apply lookup_insert_Some in Hx as [[<- <-]|[_ Hx]]; [done|by apply ai_envelopes].
Qed.
Lemma configure_ok peers minimum s : 0 <= minimum → archive_ok s → archive_ok (configure_peers peers minimum s).2.
Proof.
  intros Hm Hi. unfold configure_peers. cbv zeta. rewrite run_lift. destruct (reject_if _ NoArchivePeers) as [[]|?|]; [|done..].
  rewrite run_lift. destruct (reject_if _ ReplicaCount) as [[]|?|] eqn:Hc; [|done..]. apply reject_if_Ok in Hc. bool_props.
  rewrite run_set_archive. cbn [mret M_ret snd]. destruct s as [[] w], Hi. cbn in *. split; cbn; unfold constant; try done.
  split; [lia|]. intros _. lia.
Qed.
Lemma response_settles id peer response now s :
  archive_ok s → request_log s.2 !! id = Some peer → settles (archive_response id peer response now) s.
Proof.
  intros Hi Hlog. unfold settles, archive_response, take_pending. rewrite run_bind, run_archive, run_set_archive. cbn [mret M_ret].
  destruct (ar_pending s.1 !! id) as [p|] eqn:Hp.
  - pose proof (take_opens id p s Hi Hp) as Ht. destruct (ai_pending _ _ _ Hi id p Hp) as [(peer' & Hlog' & Hin) _].
    assert (peer' = peer) as -> by congruence. rewrite run_bind.
    match type of Ht with archive_inv _ _ ?t => destruct (on_response_run p peer response now t Ht) as (v & s' & -> & Hs') end;
      [by destruct s as [[] ?]|]. by do 2 eexists.
  - do 2 eexists. split; [reflexivity|]. destruct s as [[] ?]. cbn in *. by rewrite delete_id.
Qed.
Lemma failure_settles id error s : archive_ok s → settles (archive_failure id error) s.
Proof.
  intros Hi. unfold settles, archive_failure, take_pending. rewrite run_bind, run_archive, run_set_archive. cbn [mret M_ret].
  destruct (ar_pending s.1 !! id) as [p|] eqn:Hp.
  - pose proof (take_opens id p s Hi Hp) as Ht. rewrite run_bind.
    match type of Ht with archive_inv _ _ ?t => destruct (finish_attempt_run p (TransportFailed error) t Ht) as (v & s' & -> & Hs') end.
    by do 2 eexists.
  - do 2 eexists. split; [reflexivity|]. destruct s as [[] ?]. cbn in *. by rewrite delete_id.
Qed.
End archive_spec.
