(* ===== verification/ArchiveSpec.v ===== *)
(** * ArchiveSpec: the theorems on the archive

    The client: its invariant holds in every reachable state, every answer is
    handled, and a receipt is reported as archived only when enough nodes have
    signed for it.  The node: its files stay, and what was accepted is found.
    Together: the answer of an honest node counts. *)

From coqutil Require Import Datatypes.RecordSetters.
From S2P Require Import Prelude Machine Encoding Order Ids Receipt Identity SignedReceipt UseCases Wire.
From S2P Require Import Session ArchiveNode ArchiveKeep Swarm ArchiveRuntime ArchiveInv ArchiveClient.
Import OCamlLikeNotations.

(** Ed25519 signatures have 64 bytes. *)
Class SignatureLength `{Crypto} : Prop := { sign_len : ∀ k m, length (sign k m) = 64%nat }.

Section archive.
Context `{Crypto, !CryptoLaws, !SignatureLength, Libp2p, !World, !RequestLog, !RequestLogLaws}.
Context `{!HexCodec, !HexLaws, !DirOrder, !DirOrderLaws, !ReceiptJson}.
Implicit Types (r : ArchiveRuntime) (w : world) (s t : ArchiveRuntime * world) (d e : Disk).

(** ** The client *)

(** One event of a client: a command, the answer to a request by the peer that
    was asked, a failed request, or anything else that happens in the swarm. *)
Inductive archive_step : ArchiveRuntime * world → ArchiveRuntime * world → Prop :=
  | st_configure peers minimum s : 0 <= minimum → archive_step s (configure_peers peers minimum s).2
  | st_publish receipt now s : archive_step s (publish_receipt receipt now s).2
  | st_sync player s : archive_step s (sync_player player s).2
  | st_fetch a s : archive_step s (fetch_receipt a s).2
  | st_publish_recovery l envelope s : archive_step s (publish_recovery l envelope s).2
  | st_fetch_recovery l s : archive_step s (fetch_recovery l s).2
  | st_take l s : archive_step s ((take_recovered_envelope l s.1).2, s.2)
  | st_cancel l s : archive_step s (cancel_recovery_fetch l s.1, s.2)
  | st_response id peer response now s :
      request_log s.2 !! id = Some peer → archive_step s (archive_response id peer response now s).2
  | st_failure id error s : archive_step s (archive_failure id error s).2
  | st_swarm r w w' : request_log w ⊆ request_log w' → archive_step (r, w) (r, w').
Definition archive_reachable s : Prop := ∃ node w, rtc archive_step (archive_new node, w) s.

Lemma archive_new_ok node w : archive_ok (archive_new node, w).
Proof. by split. Qed.
Lemma swarm_ok r w w' : request_log w ⊆ request_log w' → archive_ok (r, w) → archive_ok (r, w').
Proof.
  intros Hw []. split; try done. intros id p Hp. destruct (ai_pending id p Hp) as [(peer & Hl & Hin) ?]. split; [|done].
  exists peer. split; [by eapply lookup_weaken|done].
Qed.
Lemma settles_ok {A} (m : ArchiveM A) s : settles m s → archive_ok (m s).2.
Proof. by intros (v & s' & -> & Hs). Qed.
Lemma step_ok s t : archive_step s t → archive_ok s → archive_ok t.
Proof.
  destruct 1; intros Hi.
  - by apply configure_ok.
  - by apply publish_receipt_ok.
  - by apply sync_player_ok.
  - by apply fetch_receipt_ok.
  - by apply publish_recovery_ok.
  - by apply fetch_recovery_ok.
  - by apply take_envelope_ok.
  - by apply cancel_ok.
  - by apply settles_ok, response_settles.
  - by apply settles_ok, failure_settles.
  - by eapply swarm_ok.
Qed.
Lemma reachable_archive_ok s : archive_reachable s → archive_ok s.
Proof.
  intros (node & w & Hr). pose proof (archive_new_ok node w) as Hi. revert Hi. induction Hr as [x|x y z Hxy _ IH]; [done|].
  intros Hx. apply IH. by eapply step_ok.
Qed.

(** C31: The archive client keeps its books.  In every state it can reach, each
    request under way was sent to a configured node and belongs to an upload, a
    fetch or a listing; a node counts as a replica of a receipt only if it is
    configured and has signed for its address with the key it has used since;
    an upload that is not finished has too few replicas and waits for at least
    one answer that is still to come; every receipt is filed under the hash of
    its content and was verified; and what counts as archived is at hand. *)
Theorem archive_invariant s : archive_reachable s → archive_inv None None s.
Proof. apply reachable_archive_ok. Qed.

(** Archiving comes to an end.  Whatever a node answers, and whatever
    request fails, the handler returns a result and not an error; and when no
    request for an object is under way any more, its upload or fetch is
    finished, so a result was reported. *)
Theorem archive_requests_settle s : archive_reachable s →
  (∀ id peer response now, request_log s.2 !! id = Some peer → ∃ events t, archive_response id peer response now s = (Ok events, t))
  ∧ (∀ id error, ∃ events t, archive_failure id error s = (Ok events, t))
  ∧ (∀ a u, uploads s.1 !! a = Some u → count (ar_pending s.1) (PendingPut a) = 0%nat → up_finished u = true)
  ∧ (∀ l u, recovery_uploads s.1 !! l = Some u → count (ar_pending s.1) (PendingRecoveryPut l) = 0%nat → up_finished u = true)
  ∧ (∀ a f, fetches s.1 !! a = Some f → count (ar_pending s.1) (PendingGet a) = 0%nat → fe_finished f = true)
  ∧ (∀ l f, recovery_fetches s.1 !! l = Some f → count (ar_pending s.1) (PendingRecoveryGet l) = 0%nat → fe_finished f = true).
Proof.
  intros Hi%reachable_archive_ok. split_and!.
  - intros id peer response now Hlog. destruct (response_settles id peer response now s Hi Hlog) as (v & t & E & _). eauto.
  - intros id error. destruct (failure_settles id error s Hi) as (v & t & E & _). eauto.
  - intros a u Hu Hc. apply not_false_is_true. intros Hf. destruct (ai_uploads _ _ _ Hi a u Hu) as [[_ _ Ho] _].
    destruct (Ho Hf). rewrite Hc, one_none in *. lia.
  - intros l u Hu Hc. apply not_false_is_true. intros Hf. destruct (ai_recovery_uploads _ _ _ Hi l u Hu) as [_ _ Ho].
    destruct (Ho Hf). rewrite Hc, one_none in *. lia.
  - intros a f Hf Hc. apply not_false_is_true. intros Hx. pose proof (ai_fetches _ _ _ Hi a f Hf Hx). rewrite Hc, one_none in *. lia.
  - intros l f Hf Hc. destruct (ai_recovery_fetches _ _ _ Hi l f Hf) as [-> Hle]. rewrite Hc, one_none in Hle.
    apply Nat.eqb_eq. lia.
Qed.

(** ** What is reported as archived *)
Definition no_archived {A} (events : A → list ArchiveEvent) (m : ArchiveM A) : Prop :=
  ∀ s v t, m s = (Ok v, t) → ∀ a n, ReceiptArchived a n ∉ events v.
Lemma no_archived_bind {A B} (ev : B → list ArchiveEvent) (m : ArchiveM A) (f : A → ArchiveM B) :
  (∀ v, no_archived ev (f v)) → no_archived ev (m ≫= f).
Proof. intros Hf s v t. rewrite run_bind. destruct (m s) as [[x| |] u]; [|done..]. apply Hf. Qed.
Lemma no_archived_ret {A} (ev : A → list ArchiveEvent) v : (∀ a n, ReceiptArchived a n ∉ ev v) → no_archived ev (mret v).
Proof. by intros Hv s x t [= <- <-]. Qed.
Lemma no_archived_lift {A} (ev : A → list ArchiveEvent) res : (∀ v, res = Ok v → ∀ a n, ReceiptArchived a n ∉ ev v) → no_archived ev (lift res).
Proof. intros Hv s x t. destruct res; [|done..]. intros [= <- <-]. by apply Hv. Qed.
Ltac na_auto := repeat match goal with
  | |- no_archived _ (_ ≫= _) => apply no_archived_bind; intros ?
  | |- no_archived _ (mret _) => apply no_archived_ret; intros ? ?; set_solver
  | |- no_archived _ (lift Panic) => by apply no_archived_lift
  | |- no_archived _ (match ?x with _ => _ end) => destruct x
  end.
Lemma other_attempts p reason : (∀ a, p ≠ PendingPut a) → no_archived id (finish_attempt p reason).
Proof.
  intros Hp. destruct p; cbn [finish_attempt]; [by destruct (Hp a)|..];
    unfold finish_fetch_attempt, finish_list_attempt, finish_recovery_put_attempt, finish_recovery_fetch_attempt; cbv zeta; na_auto.
Qed.
Lemma other_responses p peer response now : (∀ a, p ≠ PendingPut a) → no_archived id (on_response p peer response now).
Proof.
  intros Hp. destruct p as [a|a|player|l|l], response; cbn [on_response]; try (by apply other_attempts); [by destruct (Hp a)|..];
    unfold handle_fetch_response, handle_list_response, handle_recovery_put_response, handle_recovery_fetch_response,
      finish_fetch_attempt, finish_list_attempt, finish_recovery_put_attempt, finish_recovery_fetch_attempt, accept_fetched,
      accept_envelope; cbv zeta; na_auto.
Qed.

Lemma put_answers peer a response now s :
  archive_inv None (Some (PendingPut a)) s → peer ∈ ar_peers s.1 →
  attempts a None (on_response (PendingPut a) peer response now) s ∨ attempts a (Some peer) (on_response (PendingPut a) peer response now) s.
Proof.
  intros Hi Hp. destruct response; cbn [on_response finish_attempt]; try (left; by do 2 eexists). by apply put_response_attempts.
Qed.
(** The attempt with its report. *)
Lemma attempt_reports a c m s v s' b n :
  attempts a c m s → m s = (Ok v, s') → ReceiptArchived b n ∈ v →
  b = a ∧ ∃ u, uploads s'.1 !! a = Some u ∧ enough u = true ∧ n = replicas u ∧ archive_ok s' ∧ a ∈ archived_addresses s'.1.
Proof.
  intros (reason & t & E & Hi & Hc & _) Hm Hin. destruct (finish_put_run a c reason t Hi Hc) as (u & s1 & _ & Hok & E' & Hup & _ & _ & _ & Har).
  rewrite E, E' in Hm. injection Hm as <- <-. unfold put_result in *. change (up_finished (attempted u c)) with (up_finished u) in *.
  destruct (negb (up_finished u) && enough _) eqn:Hb.
  - cbn in Hin. apply list_elem_of_singleton in Hin. injection Hin as -> ->. split; [done|]. eexists. split; [exact Hup|].
    bool_props. by split_and!; try apply Har.
  - destruct (negb (up_finished u) && (up_remaining _ =? 0)%nat); cbn in Hin; [by apply list_elem_of_singleton in Hin|by apply elem_of_nil in Hin].
Qed.
(** Taking a request in a response. *)
Lemma response_run id peer response now s events s' :
  archive_ok s → request_log s.2 !! id = Some peer → archive_response id peer response now s = (Ok (Some events), s') →
  ∃ p, ar_pending s.1 !! id = Some p ∧ archive_inv None (Some p) ({ s.1 with ar_pending ::= delete id }, s.2)
    ∧ peer ∈ ar_peers { s.1 with ar_pending ::= delete id }
    ∧ on_response p peer response now ({ s.1 with ar_pending ::= delete id }, s.2) = (Ok events, s').
Proof.
  intros Hi Hlog. unfold archive_response, take_pending. rewrite run_bind, run_archive, run_set_archive. cbn [mret M_ret].
  destruct (ar_pending s.1 !! id) as [p|] eqn:Hp; [|done]. intros Hrun. exists p. split; [done|]. split; [by apply take_opens|].
  destruct (ai_pending _ _ _ Hi id p Hp) as [(peer' & Hlog' & Hin) _]. split; [destruct s as [[] ?]; cbn in *; congruence|].
  rewrite run_bind in Hrun. destruct (on_response _ _ _ _ _) as [[v| |] u]; [|done..]. by injection Hrun as <- <-.
Qed.

(** C28: A receipt is reported as archived only when it is.  The report counts
    distinct nodes, at least as many as the user asked for; each of them is a
    configured node and has signed, with the one key it has used in this
    configuration, that it keeps exactly this content; and the receipt itself
    is at hand and was verified. *)
Theorem archived_means_replicated id peer response now s s' events a n :
  archive_reachable s → request_log s.2 !! id = Some peer →
  archive_response id peer response now s = (Ok (Some events), s') → ReceiptArchived a n ∈ events →
  ∃ nodes : gset PeerId,
    ar_minimum s'.1 <= Z.of_nat (size nodes) ∧ n = Z.min u16_max (Z.of_nat (size nodes))
    ∧ (∀ p, p ∈ nodes → p ∈ ar_peers s'.1 ∧ ∃ key until sig, pinned_keys s'.1 !! p = Some key
        ∧ verify_sig key (acceptance_signing_bytes a until) sig = true)
    ∧ a ∈ archived_addresses s'.1
    ∧ ∃ receipt content verified_at, verified_receipts s'.1 !! a = Some receipt ∧ cosigned_verify receipt verified_at = Ok tt
        ∧ from_content content = a ∧ (receipt_to_json receipt = Some content ∨ receipt_from_json content = Some receipt).
Proof.
  intros Hi%reachable_archive_ok Hlog Hrun Hin.
  destruct (response_run _ _ _ _ _ _ _ Hi Hlog Hrun) as (p & Hp & Ht & Hpeer & Hon).
  destruct p as [b|b|player|l|l];
    [|exfalso; eapply other_responses; [|exact Hon|exact Hin]; done..].
  assert (b = a ∧ ∃ u, uploads s'.1 !! b = Some u ∧ enough u = true ∧ n = replicas u ∧ archive_ok s' ∧ b ∈ archived_addresses s'.1)
    as (-> & u & Hu & He & -> & Hok & Har).
  { destruct (put_answers _ _ response now _ Ht Hpeer) as [Ha|Ha];
      destruct (attempt_reports _ _ _ _ _ _ _ _ Ha Hon Hin) as (-> & u & Hu); split; eauto. }
  destruct (ai_uploads _ _ _ Hok a u Hu) as [[Hc Hr _] [receipt Hv]]. exists (up_confirmed u). unfold enough in He. bool_props.
  split; [lia|]. split; [done|]. split; [exact Hc|]. split; [done|]. destruct (ai_receipts _ _ _ Hok a receipt Hv) as [[at' Hvt] (content & Hco & Hj)].
  by exists receipt, content, at'.
Qed.

(** ** A node and a client *)

(** What a node signs with its key is accepted, unless another key is known. *)
Lemma signature_checks pinned seed message :
  pinned = None ∨ pinned = Some (verifying_key seed) →
  check_node_signature pinned (verifying_key seed) message (sign seed message) = Ok tt.
Proof.
  intros Hp. unfold check_node_signature. rewrite verifying_key_len, sign_len, verifying_key_valid, sign_verifies. cbn.
  destruct Hp as [->| ->]; [done|]. by rewrite bool_decide_true.
Qed.

(** The answer of an honest node counts.  When a node has accepted the
    content that a client wants to be kept, and the client knows no other key
    of this node, then the answer, handled before the promised time is over,
    makes the node a replica; and when that is enough, the client reports the
    receipt as archived. *)
Theorem honest_answer_counts node request now d x e id peer s u now' :
  bytes_ok (request_address request) → 0 <= requested_seconds request → archive_put node request now d = (Ok x, e) →
  archive_reachable s → request_log s.2 !! id = Some peer → ar_pending s.1 !! id = Some (PendingPut (request_address request)) →
  uploads s.1 !! request_address request = Some u → up_finished u = false →
  (pinned_keys s.1 !! peer = None ∨ pinned_keys s.1 !! peer = Some (archive_public_key node)) →
  now' < accepted_until_unix_ms x →
  ∃ events s' u', archive_response id peer (RsArchive x) now' s = (Ok (Some events), s')
    ∧ uploads s'.1 !! request_address request = Some u' ∧ up_confirmed u' = {[peer]} ∪ up_confirmed u
    ∧ (up_required u <= Z.of_nat (size ({[peer]} ∪ up_confirmed u)) →
       events = [ReceiptArchived (request_address request) (Z.min u16_max (Z.of_nat (size ({[peer]} ∪ up_confirmed u))))]
       ∧ request_address request ∈ archived_addresses s'.1).
Proof.
  intros Hb Hsec Hput Hi%reachable_archive_ok Hlog Hp Hu Hf Hk Hnow. set (a := request_address request) in *.
  destruct (put_accepts _ _ _ _ _ _ Hb Hsec Hput) as [_ _ _ _ (Ea & Ek & _ & Es)]. fold a in Ea.
  destruct (response_settles id peer (RsArchive x) now' s Hi Hlog) as (v & s' & Hrun & _).
  assert (∃ events, v = Some events) as [events ->].
  { revert Hrun. unfold archive_response, take_pending. rewrite run_bind, run_archive, run_set_archive. cbn [mret M_ret].
    rewrite Hp, run_bind. destruct (on_response _ _ _ _ _) as [[ev| |] ?]; [|done..]. intros [= <- _]. by eexists. }
  destruct (response_run _ _ _ _ _ _ _ Hi Hlog Hrun) as (p & Hp' & Ht & Hpeer & Hon).
  rewrite Hp in Hp'. injection Hp' as <-. cbn [on_response] in Hon.
  set (t := ({ s.1 with ar_pending ::= delete id }, s.2)) in *. change (peer ∈ ar_peers t.1) in Hpeer.
  assert (uploads t.1 = uploads s.1 ∧ pinned_keys t.1 = pinned_keys s.1) as [Etu Etk] by (by destruct s as [[] ?]). clearbody t.
  unfold handle_put_response in Hon. rewrite Ea, bool_decide_true in Hon by done.
  replace (accepted_until_unix_ms x <=? now') with false in Hon by lia. cbn [negb orb] in Hon.
  assert (check_node_signature (pinned_keys t.1 !! peer) (response_node_key x)
    (acceptance_signing_bytes a (accepted_until_unix_ms x)) (response_node_signature x) = Ok tt) as Hcheck.
  { rewrite Ek, Es, Etk, Ea. by apply signature_checks. }
  unfold verify_node_signature in Hon. rewrite run_bind, run_archive in Hon. cbv zeta in Hon. rewrite Hcheck in Hon.
  change (finish_put_attempt a (Some peer) None (pin peer (response_node_key x) t) = (Ok events, s')) in Hon.
  apply check_signature_Ok in Hcheck as [Hsig Hpin].
  destruct (finish_put_run a (Some peer) None (pin peer (response_node_key x) t)) as (u1 & s1 & Hu1 & _ & Hfin & Hup & _ & _ & _ & Har).
  { by apply pin_inv. }
  { intros q [= <-]. split; [by destruct t as [[] ?]|]. by eapply (pin_signed _ _ (acceptance_signing_bytes a)). }
  assert (u1 = u) as ->. { replace (uploads (pin peer (response_node_key x) t).1) with (uploads s.1) in Hu1 by (rewrite <-Etu; by destruct t as [[] ?]). congruence. }
  rewrite Hfin in Hon. injection Hon as <- <-. do 3 eexists. split; [exact Hrun|]. split; [exact Hup|].
  unfold put_result in *. change (up_finished (attempted u (Some peer))) with (up_finished u) in *. rewrite Hf in *. cbn [negb andb] in *.
  split; [by repeat case_match|]. intros He.
  assert (enough (attempted u (Some peer)) = true) as E by (unfold enough; cbn; by apply Z.leb_le).
  rewrite E in *. split; [done|by apply Har].
Qed.

(** ** The node *)

(** The identifiers of a request are arrays of 32 bytes. *)
Definition request_ids_ok (request : ControlRequest) : Prop :=
  match request with
  | RqArchive q => bytes_ok (request_address q)
  | RqStoreRecovery q => Forall is_byte (store_locator q)
  | _ => True
  end.
Lemma serve_le r request now : request_ids_ok request → steps disk_le (serve_request r request now).
Proof.
  intros Hok. unfold serve_request. destruct (ar_node r) as [node|]; [|apply (steps_lift _)].
  destruct request; try apply (steps_lift _); (apply (steps_bind _); [|intros ?; apply (steps_ret _)]).
  - by apply put_le.
  - apply fetch_le.
  - apply list_le.
  - by apply put_recovery_le.
  - apply fetch_recovery_le.
Qed.

(** C29: An archive node loses nothing.  Whatever is asked of it, and whatever
    calls of the operating system fail half-way or are overtaken by another
    process, every file that was in its directory is still there afterwards,
    with the same content. *)
Theorem archive_keeps_files r request now d p content :
  request_ids_ok request → files d !! p = Some content → files (serve_request r request now d).2 !! p = Some content.
Proof. intros Hok Hp. destruct (serve_le r request now Hok d) as [Hf _]. by eapply lookup_weaken. Qed.

(** Another process of the node may run in between; the system answers as it
    likes. *)
Inductive node_step : Disk → Disk → Prop :=
  | ns_serve r request now d : request_ids_ok request → node_step d (serve_request r request now d).2
  | ns_system d l n : node_step d { d with answers := l; nonces := n }.
Lemma node_steps_le d e : rtc node_step d e → disk_le d e.
Proof.
  induction 1 as [d|d e f Hde _ IH]; [done|]. etrans; [|exact IH].
  destruct Hde as [r request now d Hok|d l n]; [by apply serve_le|by destruct d].
Qed.

(** C30: What a node has accepted is found again.  After a node has accepted a
    receipt and any number of further requests, with any failures, a request
    for its address returns the content as soon as the system works, with a
    signature of the node that a client accepts; and the index of each player
    of the receipt, if it can be read, has the address. *)
Theorem archived_receipt_found node r request now d x e f :
  ar_node r = Some node → bytes_ok (request_address request) → 0 <= requested_seconds request →
  serve_request r (RqArchive request) now d = (Ok x, e) → rtc node_step e f →
  (∀ later, answers f = [] → ∃ a, serve_request r (RqFetchArchive (request_address request)) later f = (Ok (RsArchiveFetch a), f)
     ∧ fetch_address a = request_address request ∧ fetch_content a = Some (request_content request)
     ∧ check_node_signature None (fetch_node_key a) (fetch_signing_bytes (fetch_address a) (fetch_content a)) (fetch_node_signature a) = Ok tt)
  ∧ ∃ receipt, receipt_from_json (request_content request) = Some receipt ∧ cosigned_verify receipt now = Ok tt
    ∧ ∀ o later a g, o ∈ outcomes (co_receipt receipt) →
        serve_request r (RqListPlayerArchives (out_player o)) later f = (Ok (RsArchiveList a), g) →
        list_player a = out_player o ∧ request_address request ∈ list_addresses a.
Proof.
  intros Hn Hb Hsec Hs Hsteps. unfold serve_request in Hs. rewrite Hn, run_bind in Hs.
  destruct (archive_put node request now d) as [[y| |] e'] eqn:Hput; [|done..]. injection Hs as <- <-.
  pose proof (put_accepts _ _ _ _ _ _ Hb Hsec Hput) as Hacc.
  destruct (accepted_le _ _ _ _ _ _ (node_steps_le _ _ Hsteps) Hacc) as [Ea Hlen Hobj (receipt & Hj & Hv & Hidx) _]. split.
  - intros later Hq. unfold serve_request. rewrite Hn, run_bind, (fetch_returns node _ _ f Hq Hobj Hlen Ea).
    eexists. split; [reflexivity|]. split_and!; [done..|]. cbn. apply signature_checks. by left.
  - exists receipt. split_and!; [done..|]. intros o later a g Ho. destruct (Hidx o Ho) as [Hi Hd]. unfold serve_request.
    rewrite Hn, run_bind. destruct (archive_list node (out_player o) f) as [[z| |] g'] eqn:Hl; [|done..]. intros [= <- <-].
    by apply (list_has node _ _ f _ g').
Qed.

(** ** Two behaviours that are not intended *)

(** A fetch that has failed at all nodes is never tried again: a later request
    for the same receipt does nothing and reports nothing. *)
Lemma failed_fetch_not_retried a f s :
  fetches s.1 !! a = Some f → verified_receipts s.1 !! a = None → fetch_receipt a s = (Ok [], s).
Proof.
  intros Hf Hv. unfold fetch_receipt. rewrite run_archive, bool_decide_false by (rewrite Hv; by intros [? ?]).
  by rewrite bool_decide_true by (by exists f).
Qed.
End archive.
