(* ===== verification/ArchiveExample.v ===== *)
(** * ArchiveExample: a client and an archive node

    The theorems on the archive at concrete states: a client publishes a
    receipt to one node, the node keeps it, and its answer is counted. *)

From coqutil Require Import Datatypes.RecordSetters.
From S2P Require Import Prelude Machine Encoding Order Ids Table TablePool Receipt Identity SignedReceipt UseCases Wire.
From S2P Require Import Session ArchiveNode ArchiveKeep Swarm ArchiveRuntime ArchiveInv ArchiveClient ArchiveSpec.
Import OCamlLikeNotations.

(** ** Small instances of the external code *)
#[local] Instance archive_crypto : Crypto := {|
  blake3 := toy_blake3;
  verifying_key := toy_key;
  key_valid := λ k, bool_decide (length k = 32%nat);
  sign := λ k m, toy_key k ++ toy_blake3 m;
  verify_sig := λ k m s, bool_decide (s = k ++ toy_blake3 m);
|}.
Lemma toy_key_length k : length (toy_key k) = 32%nat.
Proof. unfold toy_key. rewrite length_take, length_app, length_replicate. lia. Qed.
#[local] Instance archive_crypto_laws : CryptoLaws.
Proof.
  split; intros; cbn; [done|apply toy_key_length|apply bool_decide_true, toy_key_length|by apply bool_decide_true].
Qed.
#[local] Instance archive_signature_length : SignatureLength.
Proof. split. intros k m. cbn. by rewrite length_app, toy_key_length. Qed.

Definition hex_value (c : Z) : option Z :=
  if (48 <=? c) && (c <=? 57) then Some (c - 48)
  else if (65 <=? c) && (c <=? 70) then Some (c - 55)
  else if (97 <=? c) && (c <=? 102) then Some (c - 87) else None.
Fixpoint hex_parse (s : list Z) : option (list Z) :=
  match s with
  | [] => Some []
  | [_] => None
  | a :: b :: s =>
      match hex_value a, hex_value b, hex_parse s with
      | Some x, Some y, Some l => Some (16 * x + y :: l)
      | _, _, _ => None
      end
  end.
#[local] Instance hex_codec : HexCodec := {| to_hex := display_hex; from_hex := hex_parse |}.
Lemma hex_value_digit d : 0 <= d < 16 → hex_value (hex_digit d) = Some d.
Proof.
  intros Hd. unfold hex_digit, hex_value. destruct (d <? 10) eqn:E; bool_props.
  - rewrite (proj2 (andb_true_iff _ _)) by (split; apply Z.leb_le; lia). f_equal. lia.
  - rewrite (proj2 (andb_false_iff (48 <=? 87 + d) _)) by (right; apply Z.leb_gt; lia).
    rewrite (proj2 (andb_false_iff (65 <=? 87 + d) _)) by (right; apply Z.leb_gt; lia).
    rewrite (proj2 (andb_true_iff _ _)) by (split; apply Z.leb_le; lia). f_equal. lia.
Qed.
Lemma hex_value_none c : is_hex_digit c = false → hex_value c = None.
Proof. unfold is_hex_digit, hex_value. intros [[-> ->]%orb_false_iff ->]%orb_false_iff. done. Qed.
#[local] Instance hex_codec_laws : HexLaws.
Proof.
  split; [done| |].
  - induction 1 as [|b l Hb _ IH]; [done|]. destruct (byte_nibbles b Hb). cbn [from_hex hex_codec] in *.
    change (display_hex (b :: l)) with (hex_digit (b / 16) :: hex_digit (b mod 16) :: display_hex l). cbn [hex_parse].
    rewrite !hex_value_digit, IH by done. do 2 f_equal. symmetry. apply Z.div_mod. lia.
  - cbn. fix IH 1. intros [|a [|b s]]; [done|done|]. cbn [existsb hex_parse].
    destruct (is_hex_digit a) eqn:Ea; cbn [negb orb]; [|by rewrite hex_value_none].
    destruct (is_hex_digit b) eqn:Eb; cbn [negb orb]; [|by rewrite (hex_value_none b); destruct (hex_value a)].
    intros Hs. rewrite (IH s Hs). by destruct (hex_value a), (hex_value b).
Qed.
#[local] Instance dir_order_same : DirOrder := {| dir_order := λ l, l |}.
#[local] Instance dir_order_same_laws : DirOrderLaws.
Proof. by split. Qed.

#[local] Existing Instance toy_libp2p.
(** The world is the requests sent so far. *)
#[local] Instance archive_world : World := {|
  world := gmap Z Z;
  local_peer_id := λ _, 0;
  is_connected := λ _ _, true;
  room_gossip_enabled := λ _, true;
  pool_gossip_enabled := λ _, true;
  add_peer_address := λ _ _ w, w;
  add_explicit_peer := λ _ w, w;
  remove_explicit_peer := λ _ w, w;
  retain_peer_connection := λ _ w, w;
  release_peer_connection := λ _ w, w;
  dial := λ _ _ w, (true, w);
  send_request := λ p _ w, (fresh (dom w), <[fresh (dom w) := p]> w);
  gossip_publish := λ _ _ w, (true, w);
  gossip_subscribe := λ _ w, (true, w);
  gossip_unsubscribe := λ _ w, w;
  fill_bytes := λ n w, (replicate n 0, w);
  hex_encode := λ _, "";
|}.
#[local] Instance archive_log : RequestLog := {| request_log := λ w : world, w |}.
#[local] Instance archive_log_laws : RequestLogLaws.
Proof. split; [|done]. intros p m w. apply not_elem_of_dom, is_fresh. Qed.

(** ** A receipt and its node *)
Definition cert (root device : Z) : DeviceCertificate :=
  match issue_device_certificate [root] (device_public_key [device]) "laptop" 1000 900000 with
  | Ok c => c | _ => example_certificate
  end.
Definition signed_receipt : CoSignedReceipt :=
  mkCoSigned toy_receipt
    [mkParticipant (cert 2 4) (sign [4] (signature_message toy_receipt));
     mkParticipant (cert 1 3) (sign [3] (signature_message toy_receipt))].
#[local] Instance toy_json : ReceiptJson := {|
  receipt_to_json := λ c, if bool_decide (co_receipt c = toy_receipt) then Some [1] else None;
  receipt_from_json := λ b, if bool_decide (b = [1]) then Some signed_receipt else None;
|}.
Definition the_node : VolunteerArchive := mkArchive [5].
Definition empty_disk : Disk := mkDisk ∅ {[RootDir; ObjectsDir; PlayersDir; RecoveryDir]} [] [].
Definition node_runtime : ArchiveRuntime := archive_new (Some the_node).
Definition the_address : ContentAddress := from_content [1].
Definition the_request : ArchiveRequest := mkArchiveRequest the_address [1] DEFAULT_REPLICATION_SECONDS.
Lemma the_address_ok : bytes_ok the_address.
Proof. split; [|done]. apply (bool_decide_unpack _). vm_compute. exact I. Qed.

(** The first request, and the peer 7. *)
Definition req0 : @OutboundRequestId toy_libp2p := 0.
Definition peer7 : @PeerId toy_libp2p := 7.

(** A client with the peer 7 as its only node, which has published. *)
Definition client0 : ArchiveRuntime * @world toy_libp2p archive_world := (archive_new None, ∅).
Definition client1 := (configure_peers [peer7] 1 client0).2.
Definition client2 := (publish_receipt signed_receipt 6000 client1).2.
Lemma client2_reachable : archive_reachable client2.
Proof.
  exists None, ∅. apply (rtc_l _ _ client1); [unfold client1; by apply st_configure|].
  apply rtc_once. unfold client2. apply st_publish.
Qed.
Definition answer : option ArchiveResponse :=
  match (archive_put the_node the_request 6000 empty_disk).1 with Ok a => Some a | _ => None end.
Definition kept : Disk := (serve_request node_runtime (RqArchive the_request) 6000 empty_disk).2.

(** ** The theorems at these states *)
Lemma archive_invariant_witness :
  archive_inv None None client2 ∧ count (ar_pending client2.1) (PendingPut the_address) = 1%nat.
Proof. split; [exact (archive_invariant client2 client2_reachable)|vm_compute; reflexivity]. Defined.

Lemma client2_log : request_log client2.2 !! req0 = Some peer7.
Proof. vm_compute. reflexivity. Qed.
Lemma archive_requests_settle_witness :
  ∃ events t, archive_response req0 peer7 RsAccepted 6001 client2 = (Ok events, t).
Proof. exact (proj1 (archive_requests_settle client2 client2_reachable) req0 peer7 RsAccepted 6001 client2_log). Defined.

(** The node accepts, and its answer is enough. *)
Lemma node_accepts : ∃ x e, archive_put the_node the_request 6000 empty_disk = (Ok x, e) ∧ 6001 < accepted_until_unix_ms x.
Proof.
  assert (match (archive_put the_node the_request 6000 empty_disk).1 with
          | Ok x => 6001 <? accepted_until_unix_ms x | _ => false end = true) as E by (vm_compute; reflexivity).
  destruct (archive_put the_node the_request 6000 empty_disk) as [[x|?|] e]; [|discriminate E..].
  exists x, e. split; [reflexivity|]. by apply Z.ltb_lt.
Qed.
Definition first_upload : @PendingUpload toy_libp2p := mkUpload _ 1 1 ∅ false.
Lemma client2_upload : uploads client2.1 !! the_address = Some first_upload.
Proof. vm_compute. reflexivity. Qed.
Lemma client2_pending : ar_pending client2.1 !! req0 = Some (PendingPut the_address).
Proof. vm_compute. reflexivity. Qed.
Lemma honest_answer_counts_witness :
  ∃ x e events s', archive_put the_node the_request 6000 empty_disk = (Ok x, e)
    ∧ archive_response req0 peer7 (RsArchive x) 6001 client2 = (Ok (Some events), s')
    ∧ events = [ReceiptArchived the_address 1] ∧ the_address ∈ archived_addresses s'.1.
Proof.
  destruct node_accepts as (x & e & Hx & Hlt).
  destruct (honest_answer_counts the_node the_request 6000 empty_disk x e req0 peer7 client2 first_upload 6001
    the_address_ok ltac:(done) Hx client2_reachable client2_log client2_pending client2_upload eq_refl
    (or_introl eq_refl) Hlt) as (events & s' & u' & Hrun & _ & _ & Henough).
  destruct Henough as [Hev Har]; [vm_compute; discriminate|].
  exists x, e, events, s'. exact (conj Hx (conj Hrun (conj Hev Har))).
Defined.

(** The same answer, as a report. *)
Definition client3 : result ArchiveError (option (list ArchiveEvent)) * (ArchiveRuntime * @world toy_libp2p archive_world) :=
  match answer with
  | Some x => archive_response req0 peer7 (RsArchive x) 6001 client2
  | None => (Ok None, client2)
  end.
Lemma archived_means_replicated_witness :
  ∃ events s' (nodes : gset (@PeerId toy_libp2p)), client3 = (Ok (Some events), s') ∧ ReceiptArchived the_address 1 ∈ events
    ∧ ar_minimum s'.1 <= Z.of_nat (size nodes) ∧ the_address ∈ archived_addresses s'.1.
Proof.
  assert (match answer with Some x => true | None => false end = true) as Ea by (vm_compute; reflexivity).
  assert (client3.1 = Ok (Some [ReceiptArchived the_address 1])) as E by (vm_compute; reflexivity).
  unfold client3 in *. destruct answer as [x|]; [|discriminate Ea].
  destruct (archive_response req0 peer7 (RsArchive x) 6001 client2) as [v s'] eqn:Hrun. cbn [fst] in E. subst v.
  destruct (archived_means_replicated req0 peer7 (RsArchive x) 6001 client2 s' [ReceiptArchived the_address 1] the_address 1
    client2_reachable client2_log Hrun ltac:(by apply list_elem_of_singleton)) as (nodes & Hmin & _ & _ & Har & _).
  exists [ReceiptArchived the_address 1], s', nodes.
  split; [reflexivity|]. split; [by apply list_elem_of_singleton|exact (conj Hmin Har)].
Defined.

(** A write that fails half-way does not hurt what is there. *)
Definition failing : Disk := { kept with answers := [Done; Failed 0] }.
Lemma archive_keeps_files_witness :
  files (serve_request node_runtime (RqArchive the_request) 7000 failing).2 !! object_path the_address = Some [1].
Proof. apply (archive_keeps_files node_runtime (RqArchive the_request) 7000 failing); [exact the_address_ok|vm_compute; reflexivity]. Defined.

Lemma archived_receipt_found_witness :
  ∃ x a, serve_request node_runtime (RqArchive the_request) 6000 empty_disk = (Ok x, kept)
    ∧ serve_request node_runtime (RqFetchArchive the_address) 9000 kept = (Ok (RsArchiveFetch a), kept)
    ∧ fetch_content a = Some [1].
Proof.
  assert (is_ok (serve_request node_runtime (RqArchive the_request) 6000 empty_disk).1 = true) as E by (vm_compute; reflexivity).
  assert (answers kept = []) as Hq by (vm_compute; reflexivity). unfold kept in *.
  destruct (serve_request node_runtime (RqArchive the_request) 6000 empty_disk) as [[x|?|] e] eqn:Hs; [|discriminate E..].
  cbn [snd] in *. destruct (archived_receipt_found the_node node_runtime the_request 6000 empty_disk x e e eq_refl the_address_ok ltac:(done)
    Hs (rtc_refl _ _)) as [Hfetch _]. destruct (Hfetch 9000 Hq) as (a & Ha & _ & Hc & _). exists x, a. exact (conj eq_refl (conj Ha Hc)).
Defined.

(** A write of the index that fails leaves its temporary file, and with it the
    index of this player can no longer be read, though the system works. *)
Definition interrupted : Disk :=
  let d := (serve_request node_runtime (RqArchive the_request) 6000
              { empty_disk with answers := replicate 9 Done ++ [Failed 0] }).2 in { d with answers := [] }.
Lemma interrupted_index_blocks :
  ∃ o, o ∈ outcomes toy_receipt
    ∧ (serve_request node_runtime (RqListPlayerArchives (out_player o)) 9000 interrupted).1 = Err AddressNotHex.
Proof.
  exists (nth 0 (outcomes toy_receipt) (mkOutcome (repeat_id 32 0) (repeat_id 32 0) 0 0)).
  split; [by left|vm_compute; reflexivity].
Qed.
