(* ===== verification/Command.v ===== *)
(** * Command: the commands of the worker (token-holdem-sidecar command.rs)

    A command is one line of JSON.  The decoder that serde derives is external;
    the checks around it (length, form of the request id) are modelled.  What
    the code relies on of serde's tagged enums is [command_tag]: when the JSON
    of a line has a string [type], that string is the type of the command. *)

From S2P Require Import Prelude Machine.

Definition MAX_COMMAND_LINE_BYTES : Z := 64 * 1024.

Record HandActionPrecondition := mkPrecondition {
  pre_table_id : string;
  pre_hand_number : Z;
  pre_sequence : Z;
  pre_public_state_hash : string;
}.
(** [HandActionPrecondition::matches]. *)
Definition precondition_matches (self : HandActionPrecondition) (table_id : string)
    (hand_number sequence : Z) (public_state_hash : string) : bool :=
  bool_decide (pre_table_id self = table_id) && (pre_hand_number self =? hand_number)
  && (pre_sequence self =? sequence) && bool_decide (pre_public_state_hash self = public_state_hash).

Inductive TokenSnapshotSource := CodexAppServerAccountUsage | LegacyAgentProfileObservation.

(** [SidecarCommand]. *)
Inductive SidecarCommand :=
  | TokenSnapshot (lifetime_tokens : Z) (username display_name account_identifier : option string)
      (observed_at_unix_ms : Z) (source : option TokenSnapshotSource)
  | CmdDial (address : string)
  | UseRelay (address : string)
  | ConfigureDiscovery (addresses : list string) (namespace : option string)
  | AddExternalAddress (address : string)
  | JoinPublicPool (level_id : string) (buy_in : Z)
  | CancelPublicPool
  | EnsureIdentity (request_id : option string) (expected_account_fingerprint recovery_secret device_label : string)
  | CreateIdentity (request_id : option string) (expected_account_fingerprint recovery_secret device_label : string)
  | RestoreIdentity (request_id : option string)
      (expected_account_fingerprint recovery_envelope recovery_secret device_label : string)
  | RestoreRemoteIdentity (request_id : option string)
      (expected_account_fingerprint recovery_secret device_label : string)
  | CreateFriendRoom (level_id : string) (buy_in : Z)
  | JoinFriendRoom (invite_code : string) (buy_in : Z)
  | ConfigureArchiveNodes (addresses : list string) (minimum_confirmed_replicas : Z)
  | SyncStatistics
  | FetchArchivedReceipt (address : string)
  | SubmitAction (request_id : option string) (expected : HandActionPrecondition) (action : string)
      (amount : option Z)
  | LeaveTable (request_id : option string)
  | CmdShutdown.

(** [SidecarCommand::request_id], [SidecarCommand::command_type]. *)
Definition request_id (self : SidecarCommand) : option string :=
  match self with
  | EnsureIdentity r _ _ _ | CreateIdentity r _ _ _ | RestoreIdentity r _ _ _ _
  | RestoreRemoteIdentity r _ _ _ | SubmitAction r _ _ _ | LeaveTable r => r
  | _ => None
  end.
Definition command_type (self : SidecarCommand) : string :=
  match self with
  | TokenSnapshot _ _ _ _ _ _ => "token_snapshot"
  | CmdDial _ => "dial"
  | UseRelay _ => "use_relay"
  | ConfigureDiscovery _ _ => "configure_discovery"
  | AddExternalAddress _ => "add_external_address"
  | JoinPublicPool _ _ => "join_public_pool"
  | CancelPublicPool => "cancel_public_pool"
  | EnsureIdentity _ _ _ _ => "ensure_identity"
  | CreateIdentity _ _ _ _ => "create_identity"
  | RestoreIdentity _ _ _ _ _ => "restore_identity"
  | RestoreRemoteIdentity _ _ _ _ => "restore_remote_identity"
  | CreateFriendRoom _ _ => "create_friend_room"
  | JoinFriendRoom _ _ => "join_friend_room"
  | ConfigureArchiveNodes _ _ => "configure_archive_nodes"
  | SyncStatistics => "sync_statistics"
  | FetchArchivedReceipt _ => "fetch_archived_receipt"
  | SubmitAction _ _ _ _ => "submit_action"
  | LeaveTable _ => "leave_table"
  | CmdShutdown => "shutdown"
  end%string.
Definition is_shutdown (self : SidecarCommand) : bool :=
  match self with CmdShutdown => true | _ => false end.

(** [is_canonical_uuid]: 36 bytes, hexadecimal but for the dashes. *)
Definition is_ascii_hexdigit (b : Z) : bool :=
  ((48 <=? b) && (b <=? 57)) || ((65 <=? b) && (b <=? 70)) || ((97 <=? b) && (b <=? 102)).
Definition uuid_byte_ok (entry : nat * Z) : bool :=
  let '(index, byte) := entry in
  match index with
  | 8%nat | 13%nat | 18%nat | 23%nat => byte =? 45
  | _ => is_ascii_hexdigit byte
  end.
Definition is_canonical_uuid (value : string) : bool :=
  (string_len value =? 36)
  && forallb uuid_byte_ok (zip (seq 0 (length (string_bytes value))) (string_bytes value)).

(** serde_json: the value type and its accessors, the writer, the parser, and
    the decoders that are derived for the types of the protocol. *)
Record AttachFrame := mkAttachFrame { protocol_version : Z }.
Class SerdeJson := {
  Value : Type;
  Value_eq_dec :: EqDecision Value;
  json_get : Value → string → option Value;
  json_as_str : Value → option string;
  json_as_u64 : Value → option Z;
  value_from_str : string → option Value;
  value_to_string : Value → option string;
  command_from_str : string → option SidecarCommand;
  attach_from_value : Value → option AttachFrame;
  restart_from_value : Value → option (list string * list Value);
  json_warning : string → Value;
  json_restarting : Value;
}.
Definition json_type `{SerdeJson} (v : Value) : option string := json_get v "type" ≫= json_as_str.
Definition json_str `{SerdeJson} (v : Value) (key : string) : option string := json_get v key ≫= json_as_str.
Definition json_u64 `{SerdeJson} (v : Value) (key : string) : option Z := json_get v key ≫= json_as_u64.

Class SerdeJsonLaws `{SerdeJson} : Prop := {
  command_tag : ∀ line v t c,
    value_from_str line = Some v → json_type v = Some t → command_from_str line = Some c → t = command_type c;
}.

Inductive SidecarCommandError :=
  | CommandTooLong (maximum actual : Z) | CommandInvalidJson | InvalidRequestId.

(** [decode_command_line]. *)
Definition decode_command_line `{SerdeJson} (line : string) : result SidecarCommandError SidecarCommand :=
  reject_if (MAX_COMMAND_LINE_BYTES <? string_len line) (CommandTooLong MAX_COMMAND_LINE_BYTES (string_len line));;
  command ← ok_or (command_from_str line) CommandInvalidJson;
  reject_if (match request_id command with Some r => negb (is_canonical_uuid r) | None => false end)
    InvalidRequestId;;
  mret command.

(** ** What is accepted *)

(** The commands that carry a request id, and the types of commands. *)
Lemma command_type_not_runtime c :
  command_type c ∉ ["runtime_attach"; "runtime_restart"; "runtime_shutdown"]%string.
Proof. rewrite !not_elem_of_cons. destruct c; repeat split; try done; apply not_elem_of_nil. Qed.
Lemma command_type_shutdown c : command_type c = "shutdown"%string ↔ c = CmdShutdown.
Proof. by destruct c. Qed.

(** The form of a request id, as a regular expression: groups of 8, 4, 4, 4
    and 12 hexadecimal digits with dashes between. *)
Definition uuid_shape : list nat := [8; 4; 4; 4; 12]%nat.
Definition joined (groups : list (list Z)) : list Z :=
  match groups with [] => [] | g :: gs => g ++ concat (map (cons 45) gs) end.
Definition uuid_groups (groups : list (list Z)) : Prop :=
  map length groups = uuid_shape ∧ Forall (Forall (λ b, is_ascii_hexdigit b = true)) groups.

Lemma length_string_bytes s : length (string_bytes s) = String.length s.
Proof. induction s; simpl; congruence. Qed.

Lemma list_of_length {A} (l : list A) n : length l = S n → ∃ x k, l = x :: k ∧ length k = n.
Proof. destruct l; [done|]. intros [= ?]. eauto. Qed.

(** A request id is canonical if and only if it consists of five groups of
    hexadecimal digits of the lengths 8, 4, 4, 4 and 12, joined by dashes. *)
Lemma canonical_uuid_spec s :
  is_canonical_uuid s = true ↔ ∃ groups, uuid_groups groups ∧ string_bytes s = joined groups.
Proof.
  unfold is_canonical_uuid, string_len. rewrite <-length_string_bytes. set (l := string_bytes s). clearbody l.
  rewrite andb_true_iff, Z.eqb_eq. split.
  - intros [Hlen Hall]. assert (length l = 36%nat) as Hl by lia. clear Hlen.
    do 36 (apply list_of_length in Hl as (? & ? & -> & Hl)). apply nil_length_inv in Hl as ->.
    cbn in Hall. bool_props.
    match goal with |- ∃ g, _ ∧ ?a0 :: ?a1 :: ?a2 :: ?a3 :: ?a4 :: ?a5 :: ?a6 :: ?a7 :: _ :: ?b0 :: ?b1 :: ?b2 :: ?b3 :: _
        :: ?c0 :: ?c1 :: ?c2 :: ?c3 :: _ :: ?d0 :: ?d1 :: ?d2 :: ?d3 :: _ :: ?tl = _ =>
      exists [[a0; a1; a2; a3; a4; a5; a6; a7]; [b0; b1; b2; b3]; [c0; c1; c2; c3]; [d0; d1; d2; d3]; tl] end.
    subst. split; [split; [done|repeat constructor; done]|done].
  - intros (groups & [Hmap Hhex] & ->).
    destruct groups as [|g0 [|g1 [|g2 [|g3 [|g4 [|]]]]]]; try done. injection Hmap as H0 H1 H2 H3 H4.
    repeat match goal with H : length ?g = S _ |- _ =>
      apply list_of_length in H as (? & ? & -> & H) | H : length ?g = O |- _ => apply nil_length_inv in H as -> end.
    rewrite !Forall_cons in Hhex. destruct_and!. split; [done|]. cbn.
    repeat (apply andb_true_iff; split); done.
Qed.

Section decode.
Context `{SerdeJson}.

Lemma decode_Ok line c :
  decode_command_line line = Ok c ↔
  string_len line <= MAX_COMMAND_LINE_BYTES ∧ command_from_str line = Some c
  ∧ ∀ r, request_id c = Some r → is_canonical_uuid r = true.
Proof.
  unfold decode_command_line. rewrite guard_Ok, reject_if_Ok, Z.ltb_ge, bind_ok_or. split.
  - intros (Hl & c' & Hc & Hr). apply guard_Ok in Hr as [Hr [= ->]]. rewrite reject_if_Ok in Hr.
    split_and!; [done|done|]. intros r Heq. rewrite Heq in Hr. by apply negb_false_iff.
  - intros (Hl & Hc & Hr). split; [done|]. exists c. split; [done|]. apply guard_Ok. split; [|done].
    apply reject_if_Ok. destruct (request_id c); [|done]. by rewrite (Hr _ eq_refl).
Qed.
End decode.
