(* ===== verification/RuntimeProtocol.v ===== *)
(** * RuntimeProtocol: the journal of the shared runtime (token-holdem-sidecar runtime_protocol.rs)

    One supervisor process owns the worker that plays; any number of windows
    attach to it.  The journal numbers the worker's events, keeps the recent
    ones within bounds, and keeps a projection of the current session (one
    slot per kind of fact), so that a window that attaches late is replayed
    what it needs.  [parse_runtime_client_line] decides what a window may ask. *)

From coqutil Require Import Datatypes.RecordSetters.
From S2P Require Import Prelude Machine Order Command.
Import OCamlLikeNotations.

Definition RUNTIME_PROTOCOL_VERSION : Z := 7.
Definition EVENT_LIMIT : Z := 4096.
Definition EVENT_BYTES_LIMIT : Z := 8 * 1024 * 1024.
Definition WORKER_ARGUMENT_LIMIT : Z := 64.
Definition BOOTSTRAP_COMMAND_LIMIT : Z := 64.

(** [str] is ordered by its bytes. *)
#[export] Instance string_ord : Ord string := λ s t, compare (string_bytes s) (string_bytes t).
#[export] Instance string_ord_laws : OrdLaws string.
Proof. apply (ord_laws_inj string_bytes); [apply string_bytes_inj|done]. Qed.

Inductive RuntimeClientRequest :=
  | Attach
  | ForwardWorkerCommand (encoded : string)
  | RestartRuntime (worker_args bootstrap_commands : list string)
  | ShutdownRuntime.

Inductive RestartError :=
  | TooManyArguments | ArgumentSize | DaemonArgument
  | TooManyCommands | InvalidBootstrap (e : SidecarCommandError) | BootstrapShutdown.
Inductive RuntimeProtocolError :=
  | RuntimeTooLong (maximum actual : Z)
  | RuntimeInvalidJson
  | MissingType
  | IncompatibleVersion (expected actual : Z)
  | WorkerShutdownForbidden
  | InvalidRestart (e : RestartError)
  | InvalidWorkerCommand (e : SidecarCommandError).

(** A match on string literals with or-patterns. *)
Definition one_of (t : string) (names : list string) : bool := existsb (String.eqb t) names.

Section runtime.
Context `{SerdeJson}.

Record RuntimeEvent := mkRuntimeEvent {
  re_generation : Z;
  re_sequence : Z;
  re_event : Value;
}.
#[export] Instance RuntimeEvent_eq_dec : EqDecision RuntimeEvent.
Proof. solve_decision. Defined.

Inductive RuntimeServerFrame :=
  | RuntimeAttached (protocol_version : Z) (runtime_id : string) (worker_pid : option Z)
      (generation latest_sequence earliest_sequence : Z) (history_truncated : bool)
  | FrameEvent (generation sequence : Z) (event : Value)
  | RuntimeReplayComplete (generation latest_sequence : Z)
  | RuntimeError (code : string).
(** [From<RuntimeEvent> for RuntimeServerFrame]. *)
Definition frame_of_event (value : RuntimeEvent) : RuntimeServerFrame :=
  FrameEvent (re_generation value) (re_sequence value) (re_event value).

Record StoredRuntimeEvent := mkStored {
  st_value : RuntimeEvent;
  st_encoded_bytes : Z;
}.

(** ** The projection of the session *)
Notation Slots := (gmap string RuntimeEvent).

Definition hand_scope (event : RuntimeEvent) : option (string * Z) :=
  table ← json_str (re_event event) "table_id";
  hand ← json_u64 (re_event event) "hand_number";
  Some (table, hand).
Definition hand_progress_order (event : RuntimeEvent) : option Z :=
  phase ← json_str (re_event event) "phase";
  if String.eqb phase "key_exchange" then Some 0
  else if String.eqb phase "shuffling" then Some 1
  else if String.eqb phase "dealing" then Some 2
  else None.

Definition remove_slots (names : list string) (slots : Slots) : Slots := foldl (λ m k, delete k m) slots names.
Definition pool_slots : list string := ["pool"; "pool_directory"; "pool_phase"]%string.
Definition room_slots : list string :=
  ["friend_room"; "room_entered"; "room_snapshot"; "membership"; "roster"; "next_hand"; "safe_leave"]%string.
Definition hand_slots : list string :=
  ["hand_started"; "hand_progress"; "hand_ready"; "hand_state"; "hand_terminal"; "receipt"; "interruption"]%string.
Definition clear_pool : Slots → Slots := remove_slots pool_slots.
Definition clear_room : Slots → Slots := remove_slots room_slots.
Definition clear_hand : Slots → Slots := remove_slots hand_slots.

Definition should_replace_hand (slots : Slots) (event : RuntimeEvent) : bool :=
  match slots !! "hand_started"%string with
  | None => true
  | Some current =>
      match hand_scope current, hand_scope event with
      | Some (current_table, current_hand), Some (incoming_table, incoming_hand) =>
          bool_decide (current_table = incoming_table) && (current_hand <? incoming_hand)
      | _, _ => true
      end
  end.
Definition belongs_to_projected_hand (slots : Slots) (event : RuntimeEvent) : bool :=
  match slots !! "hand_started"%string with
  | None => true
  | Some started =>
      match hand_scope started, hand_scope event with
      | Some projected, Some incoming => bool_decide (projected = incoming)
      | _, _ => true
      end
  end.
Definition slot_scope (slots : Slots) (slot : string) : option (string * Z) := (slots !! slot) ≫= hand_scope.
Definition completed (event : RuntimeEvent) : Z := default 0 (json_u64 (re_event event) "completed").
Definition should_store_hand_progress (slots : Slots) (event : RuntimeEvent) : bool :=
  if negb (belongs_to_projected_hand slots event) then false
  else if match hand_scope event with
          | Some scope => existsb (λ slot, bool_decide (slot_scope slots slot = Some scope))
                            ["hand_ready"; "hand_state"; "hand_terminal"]%string
          | None => false
          end then false
  else match slots !! "hand_progress"%string with
  | None => true
  | Some current =>
      if negb (bool_decide (hand_scope current = hand_scope event)) then true
      else match hand_progress_order current, hand_progress_order event with
      | Some current_order, Some incoming_order =>
          if incoming_order <? current_order then false
          else negb (incoming_order =? current_order) || (completed current <=? completed event)
      | _, _ => true
      end
  end.

(** [SessionEventProjection::observe]. *)
Definition observe (slots : Slots) (event : RuntimeEvent) : Slots :=
  let store (slot : string) (m : Slots) := <[slot := event]> m in
  match json_type (re_event event) with
  | None => slots
  | Some t =>
      let named := one_of t in
      if named ["identity_ready"]%string then
        store "identity"%string
          (if bool_decide ((slots !! "identity"%string) ≫= (λ entry, json_get (re_event entry) "player_id")
                           = json_get (re_event event) "player_id")
           then slots else delete "statistics"%string slots)
      else if named ["identity_cleared"]%string then remove_slots ["identity"; "statistics"]%string slots
      else if named ["statistics_updated"]%string then store "statistics"%string slots
      else if named ["pool_joined"]%string then store "pool"%string (clear_pool slots)
      else if named ["pool_directory_updated"]%string then store "pool_directory"%string slots
      else if named ["pool_joining_table"; "pool_join_attempt_expired"; "pool_creating_table"; "pool_table_joined"]%string
        then store "pool_phase"%string slots
      else if named ["pool_cancelled"]%string then clear_pool slots
      else if named ["friend_room_created"; "friend_room_joining"; "friend_room_joined"]%string
        then store "friend_room"%string slots
      else if named ["room_entered"]%string then store "room_entered"%string (clear_hand (clear_room slots))
      else if named ["room_snapshot"]%string then
        let slots := store "room_snapshot"%string slots in
        if bool_decide (json_str (re_event event) "local_role" = Some "leaving"%string) then slots
        else delete "safe_leave"%string slots
      else if named ["membership_confirmation"]%string then store "membership"%string slots
      else if named ["hand_roster_confirmation"]%string then store "roster"%string slots
      else if named ["next_hand_ready"]%string then store "next_hand"%string slots
      else if named ["safe_leave_requested"; "safe_leave_forced"]%string then store "safe_leave"%string slots
      else if named ["safe_leave_completed"]%string then clear_hand (clear_room (clear_pool slots))
      else if named ["room_closed"]%string then clear_hand (clear_room slots)
      else if named ["hand_protocol_started"]%string then
        if should_replace_hand slots event then store "hand_started"%string (clear_hand slots) else slots
      else if named ["hand_protocol_progress"]%string then
        if should_store_hand_progress slots event then store "hand_progress"%string slots else slots
      else if named ["hand_ready"]%string then
        if belongs_to_projected_hand slots event
        then store "hand_ready"%string (delete "hand_progress"%string slots) else slots
      else if named ["hand_state"]%string then
        if belongs_to_projected_hand slots event
        then store "hand_state"%string (delete "hand_progress"%string slots) else slots
      else if named ["hand_action_conflict"; "hand_settled"]%string then
        if belongs_to_projected_hand slots event
        then store "hand_terminal"%string (delete "hand_progress"%string slots) else slots
      else if named ["receipt_consensus_progress"; "receipt_finalized"]%string then
        if belongs_to_projected_hand slots event then store "receipt"%string slots else slots
      else if named ["hand_session_interrupted"; "hand_session_resumed"]%string then
        if belongs_to_projected_hand slots event then store "interruption"%string slots else slots
      else if named ["hand_left"; "hand_aborted_for_leave"]%string then clear_hand slots
      else slots
  end.

(** ** The journal *)
Record JournalSnapshot := mkSnapshot {
  sn_runtime_id : string;
  sn_generation : Z;
  sn_latest_sequence : Z;
  sn_earliest_sequence : Z;
  sn_history_truncated : bool;
  sn_events : list RuntimeEvent;
}.

Record EventJournal := mkJournal {
  runtime_id : string;
  generation : Z;
  generation_first_sequence : Z;
  latest_sequence : Z;
  encoded_bytes : Z;
  events : list StoredRuntimeEvent;
  session_projection : Slots;
  pool_active : bool;
  room_active : bool;
  hand_active : bool;
}.

Definition journal_new (runtime_id : string) : EventJournal :=
  mkJournal runtime_id 1 1 0 0 [] ∅ false false false.

(** [EventJournal::update_busy_state]. *)
Definition update_busy_state (t : string) (self : EventJournal) : EventJournal :=
  let named := one_of t in
  if named ["pool_joined"]%string then { self with pool_active := true }
  else if named ["friend_room_created"; "friend_room_joining"; "friend_room_joined"; "room_entered"; "room_snapshot"]%string
    then { self with room_active := true }
  else if named ["pool_cancelled"]%string then { self with pool_active := false }
  else if named ["safe_leave_completed"]%string
    then { self with pool_active := false; room_active := false; hand_active := false }
  else if named ["room_closed"]%string then { self with room_active := false; hand_active := false }
  else if named ["hand_protocol_started"; "hand_ready"; "hand_state"]%string
    then { self with hand_active := true; room_active := true }
  else if named ["hand_left"; "hand_aborted_for_leave"]%string then { self with hand_active := false }
  else self.

(** The loop of [append] that drops the oldest events. *)
Fixpoint trim_events (bytes : Z) (stored : list StoredRuntimeEvent) : Z * list StoredRuntimeEvent :=
  match stored with
  | [] => (bytes, [])
  | removed :: rest =>
      if (EVENT_LIMIT <? Z.of_nat (length stored)) || (EVENT_BYTES_LIMIT <? bytes)
      then trim_events (u64_saturating_sub bytes (st_encoded_bytes removed)) rest
      else (bytes, stored)
  end.

(** [EventJournal::append]. *)
Definition append (event : Value) : M EventJournal RuntimeProtocolError RuntimeEvent :=
  event_type ← lift (ok_or (json_type event) MissingType);
  encoded ← lift (ok_or (value_to_string event) RuntimeInvalidJson);
  let bytes := string_len encoded in
  lift (reject_if (MAX_COMMAND_LINE_BYTES <? bytes) (RuntimeTooLong MAX_COMMAND_LINE_BYTES bytes));;
  modify (update_busy_state event_type);;
  modify (λ self, { self with latest_sequence := u64_saturating_add (latest_sequence self) 1 });;
  value ← gets (λ self, mkRuntimeEvent (generation self) (latest_sequence self) event);
  modify (λ self, { self with session_projection := observe (session_projection self) value });;
  modify (λ self, { self with events := events self ++ [mkStored value bytes];
                              encoded_bytes := u64_saturating_add (encoded_bytes self) bytes });;
  modify (λ self, let '(kept_bytes, kept) := trim_events (encoded_bytes self) (events self) in
                  { self with events := kept; encoded_bytes := kept_bytes });;
  mret value.

(** [EventJournal::reset_generation], [EventJournal::is_busy]. *)
Definition reset_generation (self : EventJournal) : EventJournal :=
  { self with generation := u64_saturating_add (generation self) 1;
              generation_first_sequence := u64_saturating_add (latest_sequence self) 1;
              encoded_bytes := 0; events := []; session_projection := ∅;
              pool_active := false; room_active := false; hand_active := false }.
Definition is_busy (self : EventJournal) : bool := pool_active self || room_active self || hand_active self.

(** [EventJournal::snapshot]. *)
Definition collect_by_sequence (m : gmap Z RuntimeEvent) (l : list RuntimeEvent) : gmap Z RuntimeEvent :=
  foldl (λ m e, <[re_sequence e := e]> m) m l.
Definition snapshot (self : EventJournal) : JournalSnapshot :=
  let earliest := match events self with
    | [] => u64_saturating_add (latest_sequence self) 1
    | entry :: _ => re_sequence (st_value entry)
    end in
  let replay := collect_by_sequence ∅ (btree_values (session_projection self)) in
  let replay := collect_by_sequence replay (map st_value (events self)) in
  mkSnapshot (runtime_id self) (generation self) (latest_sequence self) earliest
    (generation_first_sequence self <? earliest) (btree_values replay).

(** ** Requests of a window *)

(** [validate_worker_args]. *)
Definition validate_argument (argument : string) : result RuntimeProtocolError unit :=
  reject_if ((string_len argument =? 0) || (4096 <? string_len argument)) (InvalidRestart ArgumentSize);;
  reject_if (String.eqb argument "--daemon") (InvalidRestart DaemonArgument).
Definition validate_worker_args (worker_args : list string) : result RuntimeProtocolError unit :=
  reject_if (WORKER_ARGUMENT_LIMIT <? Z.of_nat (length worker_args)) (InvalidRestart TooManyArguments);;
  try_each validate_argument worker_args.

(** [validate_bootstrap_commands]. *)
Definition validate_bootstrap_command (command : Value) : result RuntimeProtocolError string :=
  encoded ← ok_or (value_to_string command) RuntimeInvalidJson;
  parsed ← map_err (λ e, InvalidRestart (InvalidBootstrap e)) (decode_command_line encoded);
  reject_if (is_shutdown parsed) (InvalidRestart BootstrapShutdown);;
  mret encoded.
Definition validate_bootstrap_commands (commands : list Value) : result RuntimeProtocolError (list string) :=
  reject_if (BOOTSTRAP_COMMAND_LIMIT <? Z.of_nat (length commands)) (InvalidRestart TooManyCommands);;
  try_collect validate_bootstrap_command commands.

(** [parse_runtime_client_line]. *)
Definition parse_runtime_client_line (line : string) : result RuntimeProtocolError RuntimeClientRequest :=
  reject_if (MAX_COMMAND_LINE_BYTES <? string_len line) (RuntimeTooLong MAX_COMMAND_LINE_BYTES (string_len line));;
  value ← ok_or (value_from_str line) RuntimeInvalidJson;
  message_type ← ok_or (json_type value) MissingType;
  if String.eqb message_type "runtime_attach" then
    frame ← ok_or (attach_from_value value) RuntimeInvalidJson;
    reject_if (negb (protocol_version frame =? RUNTIME_PROTOCOL_VERSION))
      (IncompatibleVersion RUNTIME_PROTOCOL_VERSION (protocol_version frame));;
    mret Attach
  else if String.eqb message_type "runtime_restart" then
    '(worker_args, bootstrap) ← ok_or (restart_from_value value) RuntimeInvalidJson;
    validate_worker_args worker_args;;
    bootstrap_commands ← validate_bootstrap_commands bootstrap;
    mret (RestartRuntime worker_args bootstrap_commands)
  else if String.eqb message_type "runtime_shutdown" then mret ShutdownRuntime
  else
    command ← map_err InvalidWorkerCommand (decode_command_line line);
    reject_if (is_shutdown command) WorkerShutdownForbidden;;
    mret (ForwardWorkerCommand line).
End runtime.
