(* ===== verification/JournalSpec.v ===== *)
(** * JournalSpec: what the journal of the runtime promises

    The abstract view of a journal is the history of the current generation:
    all its events, numbered from a first sequence number.  The journal
    refines it: it keeps the longest suffix that fits its bounds, the
    projection of the whole history and three flags.  A window that attaches
    is replayed exactly that. *)

From coqutil Require Import Datatypes.RecordSetters.
From S2P Require Import Prelude Machine Order Command RuntimeProtocol.
Import OCamlLikeNotations.

Section journal.
Context `{SerdeJson}.

(** ** The abstract history *)
Record History := mkHistory {
  h_generation : Z;
  h_first : Z;
  h_events : list RuntimeEvent;
}.
Definition encoded_len (v : Value) : Z := match value_to_string v with Some s => string_len s | None => 0 end.
(** What the journal takes: an object with a string [type] whose text is short enough. *)
Definition acceptable (v : Value) : bool :=
  bool_decide (is_Some (json_type v)) && bool_decide (is_Some (value_to_string v))
  && (encoded_len v <=? MAX_COMMAND_LINE_BYTES).
Definition next_event (h : History) (v : Value) : RuntimeEvent :=
  mkRuntimeEvent (h_generation h) (h_first h + Z.of_nat (length (h_events h))) v.

Inductive JournalOp := OpAppend (v : Value) | OpReset.
Definition spec_step (h : History) (op : JournalOp) : History :=
  match op with
  | OpAppend v => if acceptable v then mkHistory (h_generation h) (h_first h) (h_events h ++ [next_event h v]) else h
  | OpReset => mkHistory (h_generation h + 1) (h_first h + Z.of_nat (length (h_events h))) []
  end.
Definition journal_step (j : EventJournal) (op : JournalOp) : EventJournal :=
  match op with OpAppend v => (append v j).2 | OpReset => reset_generation j end.
Definition history_of (ops : list JournalOp) : History := foldl spec_step (mkHistory 1 1 []) ops.
Definition journal_after (id : string) (ops : list JournalOp) : EventJournal :=
  foldl journal_step (journal_new id) ops.

(** ** Bounds: the longest suffix that fits *)
Definition stored (e : RuntimeEvent) : StoredRuntimeEvent := mkStored e (encoded_len (re_event e)).
Definition bytes_of (l : list StoredRuntimeEvent) : Z := sum_with st_encoded_bytes l.
Definition fits (l : list StoredRuntimeEvent) : Prop :=
  Z.of_nat (length l) <= EVENT_LIMIT ∧ bytes_of l <= EVENT_BYTES_LIMIT.
Definition longest_fitting (whole l : list StoredRuntimeEvent) : Prop :=
  l `suffix_of` whole ∧ fits l ∧ ∀ k, k `suffix_of` whole → fits k → k `suffix_of` l.

Lemma longest_fitting_nil : longest_fitting [] [].
Proof. split; [done|]. split; [by split; cbn|]. done. Qed.

Lemma fits_app l k : (∀ x, x ∈ l ++ k → 0 <= st_encoded_bytes x) → fits (l ++ k) → fits l ∧ fits k.
Proof.
  intros Hn [Hl Hb]. unfold fits, bytes_of in *. rewrite sum_with_app in Hb. rewrite length_app in Hl.
  assert (0 <= sum_with st_encoded_bytes l) by (apply sum_with_nonneg; set_solver).
  assert (0 <= sum_with st_encoded_bytes k) by (apply sum_with_nonneg; set_solver). lia.
Qed.

Lemma trim_events_spec l :
  (∀ x, x ∈ l → 0 <= st_encoded_bytes x) →
  ∃ k, trim_events (bytes_of l) l = (bytes_of k, k) ∧ longest_fitting l k.
Proof.
  induction l as [|x l IH]; intros Hn; cbn [trim_events].
  - exists []. split; [done|]. split; [done|]. split; [split; [done|by unfold bytes_of]|]. done.
  - destruct (_ || _) eqn:Hover.
    + assert (u64_saturating_sub (bytes_of (x :: l)) (st_encoded_bytes x) = bytes_of l) as ->.
      { unfold u64_saturating_sub, bytes_of. rewrite sum_with_cons.
        assert (0 <= sum_with st_encoded_bytes l) by (apply sum_with_nonneg; set_solver). lia. }
      destruct IH as (k & Hk & Hsuf & Hfit & Hmax); [set_solver|]. exists k. split; [done|].
      split; [by apply suffix_cons_r|]. split; [done|]. intros k' Hk' Hf'.
      destruct k' as [|y k']; [apply suffix_nil|]. apply suffix_cons_inv in Hk' as [Heq|Hk']; [|by apply Hmax].
      rewrite Heq in Hf'. destruct Hf' as [Hf1 Hf2]. bool_props; lia.
    + exists (x :: l). split; [done|]. split; [done|]. split; [|done]. split; bool_props; lia.
Qed.

Lemma longest_fitting_snoc whole l k x :
  (∀ y, y ∈ whole ++ [x] → 0 <= st_encoded_bytes y) →
  longest_fitting whole l → longest_fitting (l ++ [x]) k → longest_fitting (whole ++ [x]) k.
Proof.
  intros Hn (Hs & Hf & Hm) (Hs' & Hf' & Hm'). split; [|split; [done|]].
  - etrans; [exact Hs'|]. by apply suffix_app.
  - intros k' Hk' Hfit. apply Hm'; [|done].
    destruct k' as [|y k' _] using rev_ind; [apply suffix_nil|].
    pose proof (suffix_snoc_inv_1 _ _ _ _ Hk') as ->. pose proof (suffix_snoc_inv_2 _ _ _ _ Hk') as Hk''.
    apply suffix_app. apply Hm; [done|]. apply (fits_app k' [x]); [|done].
    intros z Hz. apply Hn. by eapply elem_of_suffix.
Qed.

(** ** The flags: the last event that matters decides *)
Definition active_after (on off types : list string) : bool :=
  match last (filter (λ t, one_of t (on ++ off)) types) with
  | Some t => one_of t on
  | None => false
  end.
Definition pool_on : list string := ["pool_joined"]%string.
Definition pool_off : list string := ["pool_cancelled"; "safe_leave_completed"]%string.
Definition room_on : list string :=
  ["friend_room_created"; "friend_room_joining"; "friend_room_joined"; "room_entered"; "room_snapshot";
   "hand_protocol_started"; "hand_ready"; "hand_state"]%string.
Definition room_off : list string := ["safe_leave_completed"; "room_closed"]%string.
Definition hand_on : list string := ["hand_protocol_started"; "hand_ready"; "hand_state"]%string.
Definition hand_off : list string :=
  ["safe_leave_completed"; "room_closed"; "hand_left"; "hand_aborted_for_leave"]%string.

Lemma one_of_app t l k : one_of t (l ++ k) = one_of t l || one_of t k.
Proof. unfold one_of. apply existsb_app. Qed.
Definition switched (t : string) (on off : list string) (b : bool) : bool :=
  if one_of t on then true else if one_of t off then false else b.
Lemma active_after_snoc on off ts t :
  active_after on off (ts ++ [t]) = switched t on off (active_after on off ts).
Proof.
  unfold active_after, switched. rewrite filter_app, filter_cons, filter_nil, one_of_app.
  destruct (one_of t on) eqn:E1, (one_of t off) eqn:E2; simpl; rewrite ?last_snoc, ?app_nil_r; done.
Qed.

Ltac by_name t :=
  unfold switched, one_of;
  repeat (cbn [existsb]; match goal with |- context [String.eqb t ?n] =>
    destruct (String.eqb_spec t n); [subst t; reflexivity|] end); reflexivity.
Lemma update_busy_pool t j : pool_active (update_busy_state t j) = switched t pool_on pool_off (pool_active j).
Proof. destruct j. unfold update_busy_state, pool_on, pool_off. by_name t. Qed.
Lemma update_busy_room t j : room_active (update_busy_state t j) = switched t room_on room_off (room_active j).
Proof. destruct j. unfold update_busy_state, room_on, room_off. by_name t. Qed.
Lemma update_busy_hand t j : hand_active (update_busy_state t j) = switched t hand_on hand_off (hand_active j).
Proof. destruct j. unfold update_busy_state, hand_on, hand_off. by_name t. Qed.
Lemma update_busy_rest t j :
  let j' := update_busy_state t j in
  generation j' = generation j ∧ generation_first_sequence j' = generation_first_sequence j
  ∧ latest_sequence j' = latest_sequence j ∧ encoded_bytes j' = encoded_bytes j ∧ events j' = events j
  ∧ session_projection j' = session_projection j.
Proof. destruct j. cbv zeta. unfold update_busy_state. repeat case_match; done. Qed.

(** ** Refinement *)
Definition types_of (l : list RuntimeEvent) : list string := omap (λ e, json_type (re_event e)) l.
Record history_ok (h : History) : Prop := {
  ho_events : ∀ i e, h_events h !! i = Some e →
    re_sequence e = h_first h + Z.of_nat i ∧ re_generation e = h_generation h ∧ acceptable (re_event e) = true;
}.
Record journal_of (h : History) (j : EventJournal) : Prop := {
  jo_generation : generation j = h_generation h;
  jo_first : generation_first_sequence j = h_first h;
  jo_latest : latest_sequence j = h_first h + Z.of_nat (length (h_events h)) - 1;
  jo_events : longest_fitting (map stored (h_events h)) (events j);
  jo_bytes : encoded_bytes j = bytes_of (events j);
  jo_projection : session_projection j = foldl observe ∅ (h_events h);
  jo_pool : pool_active j = active_after pool_on pool_off (types_of (h_events h));
  jo_room : room_active j = active_after room_on room_off (types_of (h_events h));
  jo_hand : hand_active j = active_after hand_on hand_off (types_of (h_events h));
}.

Lemma encoded_len_nonneg v : 0 <= encoded_len v.
Proof. unfold encoded_len, string_len. destruct (value_to_string v); lia. Qed.
Lemma stored_nonneg l x : x ∈ map stored l → 0 <= st_encoded_bytes x.
Proof. intros (e & -> & _)%list_elem_of_fmap. apply encoded_len_nonneg. Qed.

(** A refused event changes nothing. *)
Lemma append_refused v j : acceptable v = false → ∃ e, append v j = (Err e, j).
Proof.
  unfold append, acceptable, encoded_len. rewrite run_lift.
  destruct (json_type v) as [t|]; [|by eexists]. cbn [ok_or]. rewrite run_lift.
  destruct (value_to_string v) as [s|]; [|by eexists]. cbn [ok_or]. rewrite run_lift.
  rewrite !bool_decide_eq_true_2 by eauto. simpl. intros Hlen.
  assert ((MAX_COMMAND_LINE_BYTES <? string_len s) = true) as -> by (bool_props; lia). by eexists.
Qed.

(** An accepted one goes through the whole body. *)
Lemma append_accepted v j t :
  acceptable v = true → json_type v = Some t →
  append v j =
    let busy := update_busy_state t j in
    let value := mkRuntimeEvent (generation j) (u64_saturating_add (latest_sequence j) 1) v in
    let all := events j ++ [stored value] in
    let bytes := u64_saturating_add (encoded_bytes j) (encoded_len v) in
    (Ok value, { busy with latest_sequence := re_sequence value;
                           session_projection := observe (session_projection j) value;
                           events := (trim_events bytes all).2;
                           encoded_bytes := (trim_events bytes all).1 }).
Proof.
  intros Hacc Ht. unfold acceptable in Hacc. unfold append, stored, encoded_len in *.
  rewrite run_lift, Ht. cbn [ok_or re_event re_sequence].
  rewrite run_lift. destruct (value_to_string v) as [s|] eqn:Es; [|rewrite andb_false_r in Hacc; done].
  cbn [ok_or]. rewrite run_lift.
  assert ((MAX_COMMAND_LINE_BYTES <? string_len s) = false) as -> by (bool_props; lia).
  destruct (update_busy_rest t j) as (Hg & _ & Hl & Hb & He & Hp). revert Hg Hl Hb He Hp.
  unfold reject_if. destruct j, (update_busy_state t _) eqn:E.
  cbn. intros -> -> -> -> ->.
  unfold mbind, M_bind, result_bind, modify, gets, mret, M_ret. rewrite E. cbn.
  unfold constant. cbn. destruct (trim_events _ _). done.
Qed.

Lemma fits_no_overflow l v : fits l → acceptable v = true →
  u64_saturating_add (bytes_of l) (encoded_len v) = bytes_of l + encoded_len v.
Proof.
  intros [_ Hf] Ha. unfold acceptable, EVENT_BYTES_LIMIT, MAX_COMMAND_LINE_BYTES in *. bool_props.
  unfold u64_saturating_add, u64_max. lia.
Qed.

Lemma append_simulates h j v :
  history_ok h → journal_of h j → latest_sequence j < u64_max → acceptable v = true →
  (append v j).1 = Ok (next_event h v) ∧ journal_of (spec_step h (OpAppend v)) (append v j).2.
Proof.
  intros _ Hj Hlt Ha. assert (∃ t, json_type v = Some t) as [t Ht].
  { unfold acceptable in Ha. bool_props. by destruct (json_type v); [eauto|]. }
  rewrite (append_accepted v j t Ha Ht). cbv zeta. cbn [spec_step fst snd]. rewrite Ha.
  assert (mkRuntimeEvent (generation j) (u64_saturating_add (latest_sequence j) 1) v = next_event h v) as ->.
  { unfold next_event. rewrite (jo_generation h j Hj). f_equal. unfold u64_saturating_add.
    rewrite (jo_latest h j Hj) in *. lia. }
  destruct Hj as [Hg Hfi Hl He Hb Hp Hpo Hro Hha].
  rewrite Hb, fits_no_overflow by (done || apply He).
  set (x := stored (next_event h v)).
  assert (bytes_of (events j) + encoded_len v = bytes_of (events j ++ [x])) as ->
    by (unfold bytes_of; rewrite sum_with_app, sum_with_cons, sum_with_nil; simpl; lia).
  assert (∀ y, y ∈ map stored (h_events h) ++ [x] → 0 <= st_encoded_bytes y) as Hn.
  { intros y [Hy|Hy%list_elem_of_singleton]%elem_of_app; [by eapply stored_nonneg|].
    subst y. apply encoded_len_nonneg. }
  destruct (trim_events_spec (events j ++ [x])) as (k & -> & Hk).
  { intros y Hy. apply Hn. eapply elem_of_suffix; [exact Hy|]. apply suffix_app, He. }
  pose proof (longest_fitting_snoc _ _ _ _ Hn He Hk) as Hk'.
  pose proof (update_busy_pool t j) as Up. pose proof (update_busy_room t j) as Ur.
  pose proof (update_busy_hand t j) as Uh. destruct (update_busy_rest t j) as (Ug & Uf & _).
  split; [done|]. destruct (update_busy_state t j). cbn in *. unfold constant.
  assert (types_of (h_events h ++ [next_event h v]) = types_of (h_events h) ++ [t]) as Hty.
  { unfold types_of. rewrite omap_app. simpl. by rewrite Ht. }
  split; cbn -[types_of]; rewrite ?Hty, ?active_after_snoc, ?length_app, ?map_app, ?foldl_snoc; cbn;
    try congruence; [lia|exact Hk'].
Qed.

Lemma reset_simulates h j :
  journal_of h j → latest_sequence j < u64_max → generation j < u64_max →
  journal_of (spec_step h OpReset) (reset_generation j).
Proof.
  intros [] Hlt Hgt. destruct j. cbn in *. unfold constant. unfold u64_saturating_add.
  split; cbn; try done; try lia; apply longest_fitting_nil.
Qed.

Lemma spec_step_ok h op : history_ok h → history_ok (spec_step h op).
Proof.
  intros [Hev]. destruct op as [v|]; cbn; [|by split].
  destruct (acceptable v) eqn:Ha; [|by split]. split. cbn. intros i e [Hi|[Hi He]]%lookup_app_Some; [by apply Hev|].
  apply list_lookup_singleton_Some in He as [Hi' <-]. cbn. split_and!; [lia|done|done].
Qed.

Lemma simulates_step h j op :
  history_ok h → journal_of h j → latest_sequence j < u64_max → generation j < u64_max →
  journal_of (spec_step h op) (journal_step j op).
Proof.
  intros Hh Hj Hl Hg. destruct op as [v|]; [|by apply reset_simulates]. simpl journal_step.
  destruct (acceptable v) eqn:Ha; [by apply append_simulates|].
  cbn. rewrite Ha. by destruct (append_refused v j Ha) as [e ->].
Qed.

(** The counters of a journal are bounded by the number of operations. *)
Lemma spec_counters ops :
  let h := history_of ops in
  1 <= h_first h ∧ 1 <= h_generation h <= 1 + Z.of_nat (length ops)
  ∧ h_first h + Z.of_nat (length (h_events h)) <= 1 + Z.of_nat (length ops).
Proof.
  unfold history_of. induction ops as [|op ops IH] using rev_ind; cbn; [lia|].
  rewrite foldl_snoc, length_app. cbn. set (h := foldl _ _ _) in *. clearbody h.
  destruct op as [v|]; cbn; [destruct (acceptable v); cbn; rewrite ?length_app; cbn|]; lia.
Qed.

Lemma history_of_ok ops : history_ok (history_of ops).
Proof.
  unfold history_of. induction ops as [|op ops IH] using rev_ind; [by split|].
  rewrite foldl_snoc. by apply spec_step_ok.
Qed.

Lemma journal_simulates id ops :
  Z.of_nat (length ops) < u64_max → journal_of (history_of ops) (journal_after id ops).
Proof.
  unfold history_of, journal_after. induction ops as [|op ops IH] using rev_ind; intros Hlen.
  - split; cbn; try done; apply longest_fitting_nil.
  - rewrite !foldl_snoc. rewrite length_app in Hlen. cbn in Hlen.
    specialize (IH ltac:(lia)). pose proof (history_of_ok ops) as Hok. pose proof (spec_counters ops) as Hc.
    unfold history_of in Hok, Hc. cbv zeta in Hc. apply simulates_step; [done|done| |].
    + rewrite (jo_latest _ _ IH). lia.
    + rewrite (jo_generation _ _ IH). lia.
Qed.

(** C32: The journal refines the history of its generation.  After any
    sequence of fewer than 2^64 - 1 appends and resets: the events of the
    generation are numbered consecutively, across generations without a gap;
    the journal stores exactly the longest suffix of them that has at most
    4096 events and 8 MiB; its projection is that of the whole history, also
    of the part it has dropped; it is busy exactly when the last event that
    matters for the pool, the room or the hand says so.  The next event is
    accepted exactly when it has a type and fits in 64 KiB, and it gets the
    next number; a refused event changes nothing. *)
Theorem journal_refines_history id ops :
  Z.of_nat (length ops) < u64_max →
  let h := history_of ops in
  let j := journal_after id ops in
  history_ok h ∧ journal_of h j
  ∧ ∀ v, (acceptable v = true → (append v j).1 = Ok (next_event h v))
       ∧ (acceptable v = false → ∃ e, append v j = (Err e, j)).
Proof.
  intros Hlen h j. pose proof (journal_simulates id ops Hlen) as Hj. pose proof (history_of_ok ops) as Hh.
  split; [done|]. split; [done|]. intros v. split; [|apply append_refused]. intros Ha.
  apply (append_simulates h j v Hh Hj); [|done]. unfold j. rewrite (jo_latest _ _ Hj). fold h.
  pose proof (spec_counters ops) as Hc. cbv zeta in Hc. fold h in Hc. lia.
Qed.

(** ** What a window is replayed *)
Notation Slots := (gmap string RuntimeEvent).
(** Where the content of a slot comes from: it was there, or it is the event
    and the slot was open to it. *)
Definition slot_open (slots : Slots) (e : RuntimeEvent) (k : string) : Prop :=
  (k = "hand_started"%string → should_replace_hand slots e = true)
  ∧ (k = "hand_progress"%string → should_store_hand_progress slots e = true).
Definition from (slots : Slots) (e : RuntimeEvent) (m : Slots) : Prop :=
  ∀ k x, m !! k = Some x → slots !! k = Some x ∨ (x = e ∧ slot_open slots e k).
Lemma from_delete slots e m k : from slots e m → from slots e (delete k m).
Proof. intros Hm k' x [_ Hx]%lookup_delete_Some. by apply Hm. Qed.
Lemma from_store slots e m k : slot_open slots e k → from slots e m → from slots e (<[k := e]> m).
Proof. intros Hk Hm k' x [[<- ->]|[_ Hx]]%lookup_insert_Some; [by right|by apply Hm]. Qed.
Lemma from_remove slots e m names : from slots e m → from slots e (remove_slots names m).
Proof.
  unfold remove_slots. revert m. induction names as [|n names IH]; intros m Hm; [done|].
  cbn. by apply IH, from_delete.
Qed.
Ltac keep_from :=
  lazymatch goal with
  | |- from _ _ (if ?c then _ else _) => let E := fresh "E" in destruct c eqn:E; keep_from
  | |- from _ _ (<[_ := _]> _) => apply from_store; [split; intros; congruence|keep_from]
  | |- from _ _ (delete _ _) => apply from_delete; keep_from
  | |- from _ _ (remove_slots _ _) => apply from_remove; keep_from
  | |- _ => by intros ? ? ?; left
  end.
Lemma observe_from slots e : from slots e (observe slots e).
Proof.
  unfold observe. destruct (json_type (re_event e)); [|keep_from].
  cbv zeta. unfold clear_pool, clear_room, clear_hand.
  repeat (lazymatch goal with |- from _ _ (if ?c then _ else _) => destruct c; [keep_from|] end). keep_from.
Qed.

Lemma projection_in_history l slot e : foldl observe ∅ l !! slot = Some e → e ∈ l.
Proof.
  induction l as [|x l IH] using rev_ind; [done|]. rewrite foldl_snoc. intros He.
  apply elem_of_app. apply observe_from in He as [He|[-> _]]; [left; by apply IH|right; set_solver].
Qed.

Definition seq_inj (l : list RuntimeEvent) : Prop :=
  ∀ x y, x ∈ l → y ∈ l → re_sequence x = re_sequence y → x = y.
Lemma history_seq_inj h : history_ok h → seq_inj (h_events h).
Proof.
  intros [Hev] x y [i Hi]%list_elem_of_lookup [k Hk]%list_elem_of_lookup Heq.
  destruct (Hev i x Hi) as [Hx _], (Hev k y Hk) as [Hy _].
  assert (i = k) as -> by lia. congruence.
Qed.

Lemma collect_lookup all m l n e :
  seq_inj all → (∀ x, x ∈ l → x ∈ all) → (∀ i x, m !! i = Some x → x ∈ all ∧ re_sequence x = i) →
  collect_by_sequence m l !! n = Some e ↔ (re_sequence e = n ∧ (e ∈ l ∨ m !! n = Some e)).
Proof.
  intros Hinj. unfold collect_by_sequence. revert m. induction l as [|x l IH]; intros m Hl Hm; cbn.
  { split; [|set_solver]. intros He. split; [by apply Hm in He as [_ ?]|by right]. }
  rewrite IH; [|set_solver|].
  - rewrite lookup_insert_Some, elem_of_cons. split.
    + intros [Hn [He|[[Hx ->]|[Hne He]]]]; auto.
    + intros [Hn [[->|He]|He]]; [by auto|by auto|].
      split; [done|]. right. destruct (decide (re_sequence x = n)) as [Hx|Hx]; [|by auto].
      left. split; [done|]. apply Hinj; [set_solver|by apply Hm in He as [??]|congruence].
  - intros i y [[<- <-]|[_ Hy]]%lookup_insert_Some; [|by apply Hm]. split; [set_solver|done].
Qed.

Definition earlier (a b : RuntimeEvent) : Prop := re_sequence a < re_sequence b.
Lemma values_sorted (m : gmap Z RuntimeEvent) :
  (∀ n e, m !! n = Some e → re_sequence e = n) → StronglySorted earlier (btree_values m).
Proof.
  intros Hm. unfold btree_values. pose proof (btree_entries_sorted m) as Hs.
  assert (∀ p, p ∈ btree_entries m → re_sequence p.2 = p.1) as Hk.
  { intros [n e] Hp%elem_of_btree_entries. by apply Hm. }
  revert Hs Hk. generalize (btree_entries m). intros l Hs Hk.
  induction Hs as [|p l Hs IH Hp]; cbn; constructor; [apply IH; set_solver|].
  apply Forall_forall. intros e (q & -> & Hq)%list_elem_of_fmap. pose proof (proj1 (Forall_forall _ _) Hp q Hq) as Hpq.
  unfold earlier. rewrite !Hk by set_solver. apply ord_ltb_lt in Hpq. unfold compare, Z_ord in Hpq.
  by apply Z.compare_lt_iff.
Qed.

(** The stored events are those from the earliest one on. *)
Lemma stored_values h j :
  journal_of h j → ∃ dropped, h_events h = dropped ++ map st_value (events j).
Proof.
  intros Hj. destruct (jo_events h j Hj) as [[d Hd] _].
  exists (map st_value d). rewrite <-map_app, <-Hd, map_map. by rewrite map_id.
Qed.

Section view.
Context (h : History) (j : EventJournal) (Hok : history_ok h) (Hj : journal_of h j)
  (Hlt : latest_sequence j < u64_max).
Let s : JournalSnapshot := snapshot j.

Lemma replay_lookup n e :
  collect_by_sequence (collect_by_sequence ∅ (btree_values (session_projection j)))
    (map st_value (events j)) !! n = Some e
  ↔ (re_sequence e = n ∧ (e ∈ map st_value (events j) ∨ ∃ slot, session_projection j !! slot = Some e)).
Proof.
  destruct (stored_values h j Hj) as [dropped Hd].
  assert (∀ x, x ∈ btree_values (session_projection j) → x ∈ h_events h) as Hp.
  { intros x [slot Hx]%elem_of_btree_values. rewrite (jo_projection h j Hj) in Hx. by eapply projection_in_history. }
  pose proof (history_seq_inj h Hok) as Hinj.
  assert (∀ i x, collect_by_sequence ∅ (btree_values (session_projection j)) !! i = Some x ↔
    (re_sequence x = i ∧ (x ∈ btree_values (session_projection j) ∨ (∅ : gmap Z RuntimeEvent) !! i = Some x))) as Hc
    by (intros i x; by apply (collect_lookup (h_events h))).
  rewrite (collect_lookup (h_events h)); [|done|rewrite Hd; set_solver|].
  - rewrite Hc, lookup_empty, elem_of_btree_values. naive_solver.
  - intros i x [Hn [Hx|Hx]]%Hc; [split; [by apply Hp|done]|by rewrite lookup_empty in Hx].
Qed.

Lemma earliest_eq dropped :
  h_events h = dropped ++ map st_value (events j) →
  sn_earliest_sequence s = h_first h + Z.of_nat (length dropped).
Proof.
  intros Hd. unfold s, snapshot. cbn. destruct (events j) as [|x l] eqn:E.
  - rewrite app_nil_r in Hd. pose proof (jo_latest h j Hj) as Hl. rewrite Hd in Hl.
    unfold u64_saturating_add. lia.
  - destruct (ho_events h Hok (length dropped) (st_value x)) as [-> _]; [|done].
    rewrite Hd, lookup_app_r by lia. by rewrite Nat.sub_diag.
Qed.

Lemma earliest_spec e :
  e ∈ h_events h → sn_earliest_sequence s <= re_sequence e ↔ e ∈ map st_value (events j).
Proof.
  destruct (stored_values h j Hj) as [dropped Hd]. rewrite (earliest_eq _ Hd).
  intros [i Hi]%list_elem_of_lookup. destruct (ho_events h Hok i e Hi) as [-> _].
  rewrite Hd in Hi. split.
  - intros Hle. rewrite lookup_app_r in Hi by lia. by eapply list_elem_of_lookup_2.
  - intros [k Hk]%list_elem_of_lookup.
    assert (h_events h !! (length dropped + k)%nat = Some e) as Hk'
      by (rewrite Hd, lookup_app_r by lia; by rewrite Nat.add_comm, Nat.add_sub).
    destruct (ho_events h Hok _ _ Hk') as [He _]. rewrite <-Hd in Hi.
    destruct (ho_events h Hok _ _ Hi) as [He' _]. lia.
Qed.

Lemma last_stored e : last (h_events h) = Some e → e ∈ map st_value (events j).
Proof.
  intros Hlast. destruct (jo_events h j Hj) as (_ & _ & Hmax).
  apply last_Some in Hlast as [l Hl].
  assert (acceptable (re_event e) = true) as Ha.
  { apply (ho_events h Hok (length l) e). rewrite Hl. by rewrite lookup_app_r, Nat.sub_diag by lia. }
  apply (elem_of_suffix [e]); [set_solver|]. assert ([stored e] `suffix_of` events j) as [d Hd].
  { apply Hmax; [rewrite Hl, map_app; by exists (map stored l)|]. unfold acceptable in Ha. bool_props.
    split; [cbn; unfold EVENT_LIMIT; lia|]. unfold bytes_of. rewrite sum_with_cons, sum_with_nil. cbn.
    unfold EVENT_BYTES_LIMIT, MAX_COMMAND_LINE_BYTES in *. lia. }
  rewrite Hd, map_app. by exists (map st_value d).
Qed.
End view.

(** A window that attaches is replayed the session in order.  In any
    reachable journal, the events of the snapshot are strictly increasing in
    their number, and they are exactly the events of the current generation
    that are stored (all from [earliest_sequence] on, the latest one among
    them) or that the projection of the whole history holds.  The snapshot
    says that the history is truncated exactly when an event of the
    generation is no longer stored. *)
Theorem snapshot_replays id ops :
  Z.of_nat (length ops) < u64_max →
  let h := history_of ops in
  let s := snapshot (journal_after id ops) in
  sn_generation s = h_generation h ∧ StronglySorted earlier (sn_events s)
  ∧ (∀ e, e ∈ sn_events s ↔ e ∈ h_events h
       ∧ (sn_earliest_sequence s <= re_sequence e ∨ ∃ slot, foldl observe ∅ (h_events h) !! slot = Some e))
  ∧ (∀ e, last (h_events h) = Some e → e ∈ sn_events s)
  ∧ (sn_history_truncated s = true ↔ ∃ e, e ∈ h_events h ∧ re_sequence e < sn_earliest_sequence s).
Proof.
  intros Hlen h s. set (j := journal_after id ops).
  assert (journal_of h j) as Hj by by apply journal_simulates. assert (history_ok h) as Hok by apply history_of_ok.
  assert (latest_sequence j < u64_max) as Hlt.
  { rewrite (jo_latest h j Hj). pose proof (spec_counters ops) as Hc. cbv zeta in Hc. fold h in Hc. lia. }
  assert (∀ e, e ∈ sn_events s ↔ e ∈ map st_value (events j) ∨ ∃ slot, session_projection j !! slot = Some e) as Hin.
  { intros e. unfold s, snapshot. cbn [sn_events]. fold j. rewrite elem_of_btree_values.
    setoid_rewrite (replay_lookup h j Hok Hj Hlt). naive_solver. }
  destruct (stored_values h j Hj) as [dropped Hd].
  split_and!.
  - apply (jo_generation h j Hj).
  - apply values_sorted. intros n e [Hn _]%(replay_lookup h j Hok Hj Hlt). exact Hn.
  - intros e. rewrite Hin, <-(jo_projection h j Hj). split.
    + intros [He|[slot He]].
      * assert (e ∈ h_events h) by (rewrite Hd; set_solver). split; [done|]. left. by apply (earliest_spec h j).
      * split; [|by eauto]. rewrite (jo_projection h j Hj) in He. by eapply projection_in_history.
    + intros [He [Hle|Hp]]; [left; by apply (earliest_spec h j)|by right].
  - intros e He. apply Hin. left. by apply (last_stored h j).
  - change (sn_history_truncated s) with (generation_first_sequence j <? sn_earliest_sequence (snapshot j)).
    change s with (snapshot j).
    rewrite Z.ltb_lt, (jo_first h j Hj), (earliest_eq h j Hok Hj Hlt dropped Hd). split.
    + intros Hpos. destruct dropped as [|e d]; [cbn in Hpos; lia|]. exists e. split; [rewrite Hd; set_solver|].
      destruct (ho_events h Hok 0 e) as [-> _]; [by rewrite Hd|]. cbn. lia.
    + intros (e & [i Hi]%list_elem_of_lookup & Hlt'). destruct (ho_events h Hok i e Hi) as [He _]. lia.
Qed.

(** ** The projected hand *)
Definition betting_slots : list string := ["hand_ready"; "hand_state"; "hand_terminal"]%string.
(** Every slot of the hand belongs to the hand that was started, and the
    progress of the card protocol is not shown once its hand is being played. *)
Definition projected_ok (m : Slots) : Prop :=
  (∀ started scope slot x scope', m !! "hand_started"%string = Some started → hand_scope started = Some scope →
     slot ∈ hand_slots → m !! slot = Some x → hand_scope x = Some scope' → scope' = scope)
  ∧ (∀ p scope slot, m !! "hand_progress"%string = Some p → hand_scope p = Some scope →
       slot ∈ betting_slots → slot_scope m slot ≠ Some scope).
(** How the slots of a hand move in one step: a started hand is replaced only
    by a later hand of the same table, and progress of the same hand does not
    go back. *)
Definition moves_forward (m m' : Slots) : Prop :=
  (∀ y x T n T' n', m !! "hand_started"%string = Some y → m' !! "hand_started"%string = Some x → x ≠ y →
     hand_scope y = Some (T, n) → hand_scope x = Some (T', n') → T' = T ∧ n < n')
  ∧ (∀ y x oy ox, m !! "hand_progress"%string = Some y → m' !! "hand_progress"%string = Some x →
       hand_scope x = hand_scope y → hand_progress_order y = Some oy → hand_progress_order x = Some ox →
       oy <= ox ∧ (oy = ox → completed y <= completed x)).

Lemma projected_ok_delete m k : projected_ok m → projected_ok (delete k m).
Proof.
  intros [H1 H2]. split.
  - intros y s slot x s' [_ Hy]%lookup_delete_Some Hs Hslot [_ Hx]%lookup_delete_Some. by eapply H1.
  - intros p s slot [_ Hp]%lookup_delete_Some Hs Hslot. unfold slot_scope.
    destruct (delete k m !! slot) eqn:E; [|done]. apply lookup_delete_Some in E as [_ E].
    specialize (H2 p s slot Hp Hs Hslot). unfold slot_scope in H2. by rewrite E in H2.
Qed.
Lemma projected_ok_remove m names : projected_ok m → projected_ok (remove_slots names m).
Proof.
  unfold remove_slots. revert m. induction names as [|k names IH]; intros m Hm; [done|].
  cbn. by apply IH, projected_ok_delete.
Qed.
Lemma projected_ok_other m k e : k ∉ hand_slots → projected_ok m → projected_ok (<[k := e]> m).
Proof.
  intros Hk [H1 H2]. assert (∀ slot, slot ∈ hand_slots → <[k := e]> m !! slot = m !! slot) as Hl
    by (intros slot Hs; rewrite lookup_insert_ne; [done|set_solver]).
  split.
  - intros y s slot x s'. rewrite Hl by (unfold hand_slots; set_solver). intros Hy Hs Hslot. rewrite Hl by done. by eapply H1.
  - intros p s slot. rewrite Hl by (unfold hand_slots; set_solver). intros Hp Hs Hslot. unfold slot_scope.
    rewrite Hl by (unfold betting_slots in Hslot; unfold hand_slots; set_solver). by eapply H2.
Qed.
Lemma lookup_remove_slots names m k : k ∈ names → remove_slots names m !! k = None.
Proof.
  unfold remove_slots. revert m. induction names as [|n names IH]; intros m Hk; [set_solver|].
  cbn. destruct (decide (k ∈ names)) as [Hin|Hin]; [by apply IH|].
  assert (k = n) as -> by set_solver. clear IH Hk.
  assert (∀ m' : Slots, m' !! n = None → foldl (λ m k, delete k m) m' names !! n = None) as Hkeep.
  { clear. induction names as [|x names IH]; intros m' Hm'; [done|]. cbn. apply IH.
    apply lookup_delete_None. by right. }
  apply Hkeep, lookup_delete_eq.
Qed.
Lemma projected_ok_started m e : projected_ok (<["hand_started"%string := e]> (clear_hand m)).
Proof.
  assert (∀ slot, slot ∈ hand_slots → slot ≠ "hand_started"%string →
    <["hand_started"%string := e]> (clear_hand m) !! slot = None) as Hl.
  { intros slot Hs Hne. rewrite lookup_insert_ne by done. by apply lookup_remove_slots. }
  split.
  - intros y s slot x s'. rewrite lookup_insert_eq. intros [= <-] Hs Hslot.
    destruct (decide (slot = "hand_started"%string)) as [->|Hne]; [rewrite lookup_insert_eq|by rewrite Hl].
    intros [= <-]. congruence.
  - intros p s slot Hp. rewrite Hl in Hp by (done || (unfold hand_slots; set_solver)). done.
Qed.

Lemma belongs_scope m e started scope scope' :
  belongs_to_projected_hand m e = true → m !! "hand_started"%string = Some started →
  hand_scope started = Some scope → hand_scope e = Some scope' → scope' = scope.
Proof.
  unfold belongs_to_projected_hand. intros Hb Hst Hs He. rewrite Hst, Hs, He in Hb. by bool_props.
Qed.
Lemma projected_ok_member m k e :
  belongs_to_projected_hand m e = true → k ≠ "hand_started"%string → k ≠ "hand_progress"%string →
  m !! "hand_progress"%string = None ∨ k ∉ betting_slots →
  projected_ok m → projected_ok (<[k := e]> m).
Proof.
  intros Hb Hk Hk' Hor [H1 H2]. split.
  - intros y s slot x s'. rewrite lookup_insert_ne by done. intros Hy Hs Hslot.
    intros [[_ <-]|[_ Hx]]%lookup_insert_Some; [by eapply belongs_scope|by eapply H1].
  - intros p s slot. rewrite lookup_insert_ne by done. intros Hp Hs Hslot. unfold slot_scope.
    rewrite lookup_insert_ne; [by eapply H2|]. destruct Hor as [Hn|Hn]; [congruence|set_solver].
Qed.
Lemma projected_ok_betting m k e :
  belongs_to_projected_hand m e = true → k ∈ betting_slots →
  projected_ok m → projected_ok (<[k := e]> (delete "hand_progress"%string m)).
Proof.
  intros Hb Hk Hm. unfold betting_slots in Hk. apply projected_ok_member; [|set_solver|set_solver| |].
  - revert Hb. unfold belongs_to_projected_hand. by rewrite lookup_delete_ne.
  - left. apply lookup_delete_eq.
  - by apply projected_ok_delete.
Qed.
Lemma should_store_spec m e :
  should_store_hand_progress m e = true →
  belongs_to_projected_hand m e = true
  ∧ (∀ scope slot, hand_scope e = Some scope → slot ∈ betting_slots → slot_scope m slot ≠ Some scope)
  ∧ (∀ y oy ox, m !! "hand_progress"%string = Some y → hand_scope e = hand_scope y →
       hand_progress_order y = Some oy → hand_progress_order e = Some ox →
       oy <= ox ∧ (oy = ox → completed y <= completed e)).
Proof.
  unfold should_store_hand_progress. destruct (belongs_to_projected_hand m e); [|done]. cbn [negb].
  destruct (match hand_scope e with Some _ => _ | None => _ end) eqn:Hex; [done|]. intros Hst. split; [done|]. split.
  - intros scope slot He Hslot Heq. rewrite He in Hex. apply not_true_iff_false in Hex. apply Hex.
    apply existsb_exists. exists slot. split; [by apply list_elem_of_In|by apply bool_decide_eq_true].
  - intros y oy ox Hy Hsc Hoy Hox. rewrite Hy, bool_decide_eq_true_2 in Hst by done. cbn [negb] in Hst.
    rewrite Hoy, Hox in Hst. destruct (ox <? oy) eqn:Elt; [done|]. bool_props; lia.
Qed.
Lemma projected_ok_progress m e :
  should_store_hand_progress m e = true → projected_ok m → projected_ok (<["hand_progress"%string := e]> m).
Proof.
  intros (Hb & Hno & _)%should_store_spec [H1 H2]. split.
  - intros y s slot x s'. rewrite lookup_insert_ne by done. intros Hy Hs Hslot.
    intros [[_ <-]|[_ Hx]]%lookup_insert_Some; [by eapply belongs_scope|by eapply H1].
  - intros p s slot. rewrite lookup_insert_eq. intros [= <-] Hs Hslot. unfold slot_scope.
    rewrite lookup_insert_ne; [by apply Hno|unfold betting_slots in Hslot; set_solver].
Qed.

Ltac not_hand_slot := unfold hand_slots; rewrite !not_elem_of_cons; repeat split; try done; apply not_elem_of_nil.
Ltac keep_projected :=
  lazymatch goal with
  | |- projected_ok (if ?c then _ else _) => let E := fresh "E" in destruct c eqn:E; keep_projected
  | |- projected_ok (<["hand_started"%string := _]> _) => apply projected_ok_started
  | |- projected_ok (<["hand_progress"%string := _]> _) => by apply projected_ok_progress
  | |- projected_ok (<[_ := _]> (delete "hand_progress"%string _)) =>
      apply projected_ok_betting; [done|unfold betting_slots; set_solver|done]
  | |- projected_ok (<[_ := _]> _) =>
      first [apply projected_ok_other; [not_hand_slot|keep_projected]
            |apply projected_ok_member; [done|done|done|right; unfold betting_slots; set_solver|keep_projected]]
  | |- projected_ok (delete _ _) => apply projected_ok_delete; keep_projected
  | |- projected_ok (remove_slots _ _) => apply projected_ok_remove; keep_projected
  | |- _ => done
  end.
Lemma observe_projected_ok m e : projected_ok m → projected_ok (observe m e).
Proof.
  intros Hm. unfold observe. destruct (json_type (re_event e)); [|done].
  cbv zeta. unfold clear_pool, clear_room.
  repeat (lazymatch goal with |- projected_ok (if ?c then _ else _) => destruct c; [unfold clear_hand; keep_projected|] end).
  done.
Qed.

Lemma observe_moves_forward m e : moves_forward m (observe m e).
Proof.
  split.
  - intros y x T n T' n' Hy [Hx|[-> [Hr _]]]%observe_from Hne HTy HTx; [congruence|].
    specialize (Hr eq_refl). unfold should_replace_hand in Hr. rewrite Hy, HTy, HTx in Hr. bool_props.
    split; [done|lia].
  - intros y x oy ox Hy [Hx|[-> [_ Hs]]]%observe_from Hsc Hoy Hox.
    + assert (x = y) as -> by congruence. assert (oy = ox) as -> by congruence. done.
    + destruct (should_store_spec m e (Hs eq_refl)) as (_ & _ & Hord). by apply Hord.
Qed.

(** The projected hand is one hand, and it moves forward.  Whatever
    events arrive, late or for other hands: every slot of the hand belongs to
    the hand that was started, and the progress of the card protocol is not
    shown beside cards, bets or a result of the same hand.  With the next
    event a started hand gives way only to a later hand of its table (or is
    cleared), and progress of the same hand never goes back to an earlier
    phase or a smaller count. *)
Theorem projected_hand_consistent (l : list RuntimeEvent) (e : RuntimeEvent) :
  projected_ok (foldl observe ∅ l) ∧ moves_forward (foldl observe ∅ l) (observe (foldl observe ∅ l) e).
Proof.
  split; [|apply observe_moves_forward]. induction l as [|x l IH] using rev_ind; [by split|].
  rewrite foldl_snoc. by apply observe_projected_ok.
Qed.
End journal.

(** ** What a window can ask *)
Section requests.
Context `{SerdeJsonLaws}.

Definition argument_ok (a : string) : Prop := 1 <= string_len a <= 4096 ∧ a ≠ "--daemon"%string.
Definition forwardable (line : string) : Prop := ∃ c, decode_command_line line = Ok c ∧ c ≠ CmdShutdown.
Definition has_type (line : string) : Prop := ∃ v t, value_from_str line = Some v ∧ json_type v = Some t.

Lemma is_shutdown_spec c : is_shutdown c = false ↔ c ≠ CmdShutdown.
Proof. by destruct c. Qed.
Lemma worker_args_Ok args u :
  validate_worker_args args = Ok u ↔ Z.of_nat (length args) <= WORKER_ARGUMENT_LIMIT ∧ Forall argument_ok args.
Proof.
  unfold validate_worker_args. rewrite guard_Ok, reject_if_Ok, Z.ltb_ge, try_each_Ok.
  assert (∀ a v, validate_argument a = Ok v ↔ argument_ok a) as Ha.
  { intros a v. unfold validate_argument, argument_ok. rewrite guard_Ok, !reject_if_Ok, orb_false_iff, Z.eqb_neq, Z.ltb_ge.
    destruct (String.eqb_spec a "--daemon"); unfold string_len in *; naive_solver lia. }
  assert (Forall (λ a, validate_argument a = Ok tt) args ↔ Forall argument_ok args) as ->; [|done].
  apply Forall_proper; [intros a; apply Ha|done].
Qed.
Lemma bootstrap_Ok commands encoded :
  validate_bootstrap_commands commands = Ok encoded →
  Z.of_nat (length encoded) <= BOOTSTRAP_COMMAND_LIMIT ∧ Forall forwardable encoded.
Proof.
  unfold validate_bootstrap_commands. rewrite guard_Ok, reject_if_Ok, Z.ltb_ge, try_collect_Ok. intros [Hlen Hall].
  rewrite <-(Forall2_length _ _ _ Hall). split; [done|]. clear Hlen.
  induction Hall as [|v y l k Hv _ IH]; constructor; [|done]. clear IH.
  unfold validate_bootstrap_command in Hv. inv_ok. rewrite is_shutdown_spec in *. by eexists.
Qed.

Lemma parse_forward line enc :
  parse_runtime_client_line line = Ok (ForwardWorkerCommand enc) ↔ enc = line ∧ has_type line ∧ forwardable line.
Proof.
  unfold parse_runtime_client_line, has_type, forwardable.
  rewrite guard_Ok, reject_if_Ok, Z.ltb_ge. repeat setoid_rewrite bind_ok_or. split.
  - intros (_ & v & Hv & t & Ht & Hp). repeat case_code; inv_ok; repeat case_match; inv_ok; try done.
    rewrite is_shutdown_spec in *. eauto 10.
  - intros (-> & (v & t & Hv & Ht) & c & Hc & Hn). pose proof (proj1 (decode_Ok _ _) Hc) as (Hlen & Hcs & _).
    pose proof (command_tag line v t c Hv Ht Hcs) as ->. pose proof (command_type_not_runtime c) as Hrt.
    rewrite !not_elem_of_cons in Hrt. destruct Hrt as (H1 & H2 & H3 & _).
    split; [done|]. exists v. split; [done|]. exists (command_type c). split; [done|].
    apply String.eqb_neq in H1, H2, H3. rewrite H1, H2, H3, Hc. cbn.
    by rewrite (proj2 (is_shutdown_spec c) Hn).
Qed.

(** No window can stop the worker behind the back of the others, and
    nothing else is held back.  A line is forwarded to the worker if and only
    if it has a [type] and is a command other than [shutdown], and it is
    forwarded unchanged; a line that is the [shutdown] command is refused; a
    restart is accepted only with at most 64 arguments of 1 to 4096 bytes,
    none of them [--daemon], and at most 64 bootstrap commands, each of them a
    command other than [shutdown]. *)
Theorem requests_checked line :
  (∀ enc, parse_runtime_client_line line = Ok (ForwardWorkerCommand enc) ↔ enc = line ∧ has_type line ∧ forwardable line)
  ∧ (decode_command_line line = Ok CmdShutdown → is_ok (parse_runtime_client_line line) = false)
  ∧ (∀ args commands, parse_runtime_client_line line = Ok (RestartRuntime args commands) →
       Z.of_nat (length args) <= WORKER_ARGUMENT_LIMIT ∧ Forall argument_ok args
       ∧ Z.of_nat (length commands) <= BOOTSTRAP_COMMAND_LIMIT ∧ Forall forwardable commands).
Proof.
  split; [apply parse_forward|]. split.
  - intros Hd. apply not_true_iff_false. intros [r Hp]%is_ok_true.
    unfold parse_runtime_client_line in Hp. rewrite Hd in Hp. apply decode_Ok in Hd as (_ & Hc & _).
    inv_ok. match goal with Hv : value_from_str line = Some ?v, Ht : json_type ?v = Some ?t |- _ =>
      pose proof (command_tag line v t _ Hv Ht Hc) as -> end.
    cbn in *. done.
  - intros args commands Hp. unfold parse_runtime_client_line in Hp.
    inv_ok. repeat (repeat case_match; inv_ok; try done).
    match goal with Hw : validate_worker_args _ = Ok _ |- _ => apply worker_args_Ok in Hw as [??] end.
    split_and!; try done; by eapply bootstrap_Ok.
Qed.
End requests.
