(* ===== verification/Supervisor.v ===== *)
(** * Supervisor: the process that owns the worker (token-holdem-sidecar runtime_supervisor.rs)

    The supervisor starts the worker, publishes its events through the journal
    and a broadcast channel, and carries out what the attached windows ask.
    One task, the actor, owns the worker and is the only writer of the journal;
    one task per window replays a snapshot and then follows the broadcast.
    Processes, their pipes and the formatting of messages are external. *)

From coqutil Require Import Datatypes.RecordSetters.
From S2P Require Import Prelude Machine Order Command RuntimeProtocol.
Import OCamlLikeNotations.

(** ** The command line *)
Definition DEFAULT_IDLE_TIMEOUT : Z := 30 * 60.

(** An [OsString]: its text, or, when it is not Unicode, its lossy text. *)
Inductive OsString := Unicode (text : string) | NotUnicode (lossy : string).
Definition to_string_lossy (a : OsString) : string := match a with Unicode s | NotUnicode s => s end.

Record SupervisorConfig := mkConfig {
  cf_pipe_name : string;
  cf_worker_executable : string;
  cf_worker_args : list string;
  cf_bootstrap_commands : list string;
  cf_idle_timeout : Z;
}.

Inductive ArgumentError :=
  | WorkerArgumentNotUnicode | PipeNameInvalid | WorkerExecutableEmpty | IdleTimeoutNotInteger
  | IdleTimeoutRange | UnknownArgument | PipeNameMissing | PipePrefix | PipeSuffix
  | WorkerArgsRefused (e : RuntimeProtocolError).

(** [str::strip_prefix], [str::parse::<u64>]. *)
Fixpoint strip_prefix (p s : string) : option string :=
  match p, s with
  | EmptyString, _ => Some s
  | String a p, String b s => if Ascii.eqb a b then strip_prefix p s else None
  | String _ _, EmptyString => None
  end.
Lemma strip_prefix_Some p s r : strip_prefix p s = Some r ↔ s = (p ++ r)%string.
Proof.
  revert s. induction p as [|a p IH]; intros s; [split; [by intros [= ->]|by intros ->]|].
  destruct s as [|b s]; cbn; [done|]. destruct (Ascii.eqb_spec a b) as [->|Hne].
  - rewrite IH. split; [by intros ->|by intros [= ->]].
  - split; [done|]. intros [= <- _]. done.
Qed.
Fixpoint parse_digits (acc : Z) (l : list Z) : option Z :=
  match l with
  | [] => Some acc
  | b :: l =>
      if (48 <=? b) && (b <=? 57) then
        let acc := acc * 10 + (b - 48) in
        if acc <=? u64_max then parse_digits acc l else None
      else None
  end.
Definition parse_u64 (s : string) : option Z :=
  match string_bytes s with
  | [] => None
  | [43] => None
  | b :: l => if b =? 43 then parse_digits 0 l else parse_digits 0 (b :: l)
  end.

(** [validate_pipe_name]. *)
Definition PIPE_PREFIX : string := "\\.\pipe\token-holdem-runtime-v7-".
Definition validate_pipe_name (pipe_name : string) : result ArgumentError unit :=
  suffix ← ok_or (strip_prefix PIPE_PREFIX pipe_name) PipePrefix;
  reject_if ((string_len suffix <? 12) || (64 <? string_len suffix)
             || negb (forallb is_ascii_hexdigit (string_bytes suffix))) PipeSuffix.

(** The loop of [parse_supervisor_args] and what it has read so far. *)
Record ParsedArgs := mkParsed {
  pa_pipe_name : option string;
  pa_worker_executable : string;
  pa_idle_timeout : Z;
  pa_worker_args : list string;
  pa_in_worker_args : bool;
}.
Definition parse_argument (st : ParsedArgs) (argument : OsString) : result ArgumentError ParsedArgs :=
  if pa_in_worker_args st then
    match argument with
    | Unicode text => mret { st with pa_worker_args := pa_worker_args st ++ [text] }
    | NotUnicode _ => Err WorkerArgumentNotUnicode
    end
  else if match argument with Unicode text => String.eqb text "--" | NotUnicode _ => false end then
    mret { st with pa_in_worker_args := true }
  else
    let value := to_string_lossy argument in
    match strip_prefix "--pipe-name=" value with
    | Some raw =>
        reject_if (String.eqb raw "" || match pa_pipe_name st with Some _ => true | None => false end) PipeNameInvalid;;
        mret { st with pa_pipe_name := Some raw }
    | None =>
    match strip_prefix "--worker-executable=" value with
    | Some raw =>
        reject_if (String.eqb raw "") WorkerExecutableEmpty;;
        mret { st with pa_worker_executable := raw }
    | None =>
    match strip_prefix "--idle-timeout-seconds=" value with
    | Some raw =>
        seconds ← ok_or (parse_u64 raw) IdleTimeoutNotInteger;
        reject_if (negb ((1 <=? seconds) && (seconds <=? 24 * 60 * 60))) IdleTimeoutRange;;
        mret { st with pa_idle_timeout := seconds }
    | None => Err UnknownArgument
    end end end.
Definition parse_supervisor_args (arguments : list OsString) (default_worker : string)
    (bootstrap_commands : list string) : result ArgumentError SupervisorConfig :=
  st ← try_fold parse_argument (mkParsed None default_worker DEFAULT_IDLE_TIMEOUT [] false) arguments;
  pipe_name ← ok_or (pa_pipe_name st) PipeNameMissing;
  validate_pipe_name pipe_name;;
  map_err WorkerArgsRefused (validate_worker_args (pa_worker_args st));;
  mret (mkConfig pipe_name (pa_worker_executable st) (pa_worker_args st) bootstrap_commands (pa_idle_timeout st)).

(** ** The actor *)

(** Processes and their standard input. *)
Inductive WaitOutcome := Exited | WaitError | TimedOut.
Class Os := {
  os : Type;
  Child : Type;
  is_file : string → os → bool;
  spawn : string → list string → os → option Child * os;
  child_id : Child → option Z;
  stdin_write : Child → string → os → bool * os;
  stdin_flush : Child → os → bool * os;
  stdin_shutdown : Child → os → os;
  wait_timeout : Child → os → WaitOutcome * os;
  child_kill : Child → os → bool * os;
  child_wait : Child → os → bool * os;
}.

Inductive SupervisorError :=
  | ExecutableMissing | SpawnFailed | WorkerNotStarted | WriteFailed | WaitFailed | KillFailed | ReapFailed
  | PublishFailed (e : RuntimeProtocolError).
Inductive ExitReport := ReportExited | ReportUnknown | ReportKilled | ReportKillFailed.
Inductive WarningReason :=
  | CannotStart (e : SupervisorError) | InvalidEvent (e : SupervisorError) | InvalidOutput
  | BootstrapFailed (e : SupervisorError) | UnexpectedExit (report : ExitReport) (read_error : option string).
(** The text of a warning. *)
Class Describe := { describe : WarningReason → string }.

Section actor.
Context `{SerdeJson, Os, Describe}.

Record ManagedWorker := mkWorker {
  mw_child : Child;
  mw_generation : Z;
  mw_bootstrapped : bool;
}.
(** What the actor shares and owns: its configuration, the journal, the
    events sent to the broadcast channel, the worker and the published id of
    its process. *)
Record Supervisor := mkSupervisor {
  sp_config : SupervisorConfig;
  sp_journal : EventJournal;
  sp_broadcast : list RuntimeEvent;
  sp_worker : option ManagedWorker;
  sp_worker_pid : option Z;
  sp_os : os;
}.
Notation SupM := (M Supervisor SupervisorError).

Definition on_os {A} (f : os → A * os) : SupM A :=
  λ s, let '(a, o) := f (sp_os s) in (Ok a, { s with sp_os := o }).
(** A result that is looked at, not propagated. *)
Definition attempt {A} (m : SupM A) : SupM (result SupervisorError A) := λ s, let '(r, s') := m s in (Ok r, s').
Definition check (b : bool) (e : SupervisorError) : SupM unit := lift (reject_if (negb b) e).

(** [publish_event], [publish_warning], [current_generation], [update_worker_status]. *)
Definition publish_event (event : Value) : SupM unit := λ s,
  let '(r, j) := append event (sp_journal s) in
  let s := { s with sp_journal := j } in
  match r with
  | Ok e => (Ok tt, { s with sp_broadcast := sp_broadcast s ++ [e] })
  | Err e => (Err (PublishFailed e), s)
  | Panic => (Panic, s)
  end.
Definition publish_warning (reason : WarningReason) : SupM unit :=
  _ ← attempt (publish_event (json_warning (describe reason))); mret tt.
Definition current_generation : SupM Z := gets (λ s, sn_generation (snapshot (sp_journal s))).
Definition update_worker_status (worker : option ManagedWorker) : SupM unit :=
  modify (λ s, { s with sp_worker_pid := worker ≫= λ w, child_id (mw_child w) }).
Definition set_worker (worker : option ManagedWorker) : SupM unit := modify (λ s, { s with sp_worker := worker }).

(** [ensure_worker_executable], [spawn_worker].  The tasks that read the
    worker's output are its [WorkerOutput]s below. *)
Definition ensure_worker_executable (path : string) : SupM unit :=
  present ← gets (λ s, is_file path (sp_os s)); check present ExecutableMissing.
Definition spawn_worker (generation : Z) : SupM ManagedWorker :=
  config ← gets sp_config;
  ensure_worker_executable (cf_worker_executable config);;
  child ← on_os (spawn (cf_worker_executable config) (cf_worker_args config));
  child ← lift (ok_or child SpawnFailed);
  mret (mkWorker child generation false).

(** [ensure_worker]. *)
Definition ensure_worker : SupM unit :=
  worker ← gets sp_worker;
  match worker with
  | Some _ => mret tt
  | None =>
      generation ← current_generation;
      w ← spawn_worker generation;
      set_worker (Some w);;
      update_worker_status (Some w)
  end.

(** [write_worker_line], [write_bootstrap_commands]. *)
Definition write_worker_line (w : ManagedWorker) (encoded : string) : SupM unit :=
  ok ← on_os (stdin_write (mw_child w) encoded); check ok WriteFailed;;
  ok ← on_os (stdin_write (mw_child w) (String (Ascii.ascii_of_nat 10) "")); check ok WriteFailed;;
  ok ← on_os (stdin_flush (mw_child w)); check ok WriteFailed.
Definition write_bootstrap_commands (w : ManagedWorker) (commands : list string) : SupM unit :=
  for_each (write_worker_line w) commands.

(** [stop_worker]: ask, wait, kill. *)
Definition SHUTDOWN_LINE : string :=
  let q := String (Ascii.ascii_of_nat 34) "" in "{" ++ q ++ "type" ++ q ++ ":" ++ q ++ "shutdown" ++ q ++ "}".
Definition stop_worker (w : ManagedWorker) : SupM unit :=
  _ ← attempt (write_worker_line w SHUTDOWN_LINE);
  outcome ← on_os (wait_timeout (mw_child w));
  match outcome with
  | Exited => mret tt
  | WaitError => lift (Err WaitFailed)
  | TimedOut =>
      ok ← on_os (child_kill (mw_child w)); check ok KillFailed;;
      ok ← on_os (child_wait (mw_child w)); check ok ReapFailed
  end.
Definition stop_current : SupM unit :=
  worker ← gets sp_worker;
  match worker with Some w => stop_worker w | None => mret tt end.

(** [inspect_unexpected_worker_exit]. *)
Definition inspect_unexpected_worker_exit (w : ManagedWorker) : SupM ExitReport :=
  _ ← on_os (λ o, (tt, stdin_shutdown (mw_child w) o));
  outcome ← on_os (wait_timeout (mw_child w));
  match outcome with
  | Exited => mret ReportExited
  | WaitError => mret ReportUnknown
  | TimedOut =>
      killed ← on_os (child_kill (mw_child w));
      if (killed : bool) then _ ← on_os (child_wait (mw_child w)); mret ReportKilled else mret ReportKillFailed
  end.

(** [runtime_actor]: its start, its requests and the outputs of workers. *)
Definition actor_start : SupM unit :=
  generation ← current_generation;
  started ← attempt (spawn_worker generation);
  match started with
  | Ok w => set_worker (Some w);; update_worker_status (Some w)
  | Err e => publish_warning (CannotStart e);; update_worker_status None
  | Panic => lift Panic
  end.

Inductive ActorRequest :=
  | RqEnsure
  | RqForward (encoded : string)
  | RqRestart (worker_args bootstrap_commands : list string)
  | RqShutdown.
(** The answer to a request; after [RqShutdown] the actor ends. *)
Definition actor_request (request : ActorRequest) : SupM unit :=
  match request with
  | RqEnsure => ensure_worker
  | RqForward encoded =>
      ensure_worker;;
      worker ← gets sp_worker;
      w ← lift (ok_or worker WorkerNotStarted);
      write_worker_line w encoded
  | RqRestart worker_args bootstrap_commands =>
      modify (λ s, { s with sp_journal := reset_generation (sp_journal s) });;
      publish_event json_restarting;;
      stopped ← attempt stop_current;
      set_worker None;;
      update_worker_status None;;
      lift stopped;;
      modify (λ s, { s with sp_config := { sp_config s with cf_worker_args := worker_args;
                                                            cf_bootstrap_commands := bootstrap_commands } });;
      ensure_worker
  | RqShutdown =>
      stopped ← attempt stop_current;
      set_worker None;;
      update_worker_status None;;
      lift stopped
  end.

Inductive WorkerOutput :=
  | OutEvent (generation : Z) (line : string)
  | OutClosed (generation : Z) (read_error : option string).
(** A worker that has reported [ready] is given the bootstrap commands, once. *)
Definition bootstrap_worker (generation : Z) : SupM unit :=
  worker ← gets sp_worker;
  match worker with
  | Some w =>
      if (mw_generation w =? generation) && negb (mw_bootstrapped w) then
        commands ← gets (λ s, cf_bootstrap_commands (sp_config s));
        written ← attempt (write_bootstrap_commands w commands);
        set_worker (Some { w with mw_bootstrapped := is_ok written });;
        match written with Err e => publish_warning (BootstrapFailed e) | _ => mret tt end
      else mret tt
  | None => mret tt
  end.
Definition actor_output (output : WorkerOutput) : SupM unit :=
  match output with
  | OutEvent generation line =>
      active ← current_generation;
      if negb (generation =? active) then mret tt
      else match value_from_str line with
      | Some event =>
          let ready := bool_decide (json_type event = Some "ready"%string) in
          published ← attempt (publish_event event);
          match published with Err e => publish_warning (InvalidEvent e) | _ => mret tt end;;
          if ready then bootstrap_worker generation else mret tt
      | None => publish_warning InvalidOutput
      end
  | OutClosed generation read_error =>
      worker ← gets sp_worker;
      match worker with
      | Some closed =>
          if mw_generation closed =? generation then
            set_worker None;;
            update_worker_status None;;
            modify (λ s, { s with sp_journal := reset_generation (sp_journal s) });;
            report ← inspect_unexpected_worker_exit closed;
            publish_warning (UnexpectedExit report read_error)
          else mret tt
      | None => mret tt
      end
  end.

(** ** The task of a window: [handle_client_inner] *)

(** The first line must attach. *)
Definition handshake (first_line : string) : option RuntimeServerFrame :=
  match parse_runtime_client_line first_line with
  | Ok Attach => None
  | Ok _ => Some (RuntimeError "attach_required")
  | _ => Some (RuntimeError "invalid_attach")
  end.

(** The frames of the replay. *)
Definition replay_frames (s : JournalSnapshot) (worker_pid : option Z) : list RuntimeServerFrame :=
  [RuntimeAttached RUNTIME_PROTOCOL_VERSION (sn_runtime_id s) worker_pid (sn_generation s) (sn_latest_sequence s)
     (sn_earliest_sequence s) (sn_history_truncated s)]
  ++ map frame_of_event (sn_events s)
  ++ [RuntimeReplayComplete (sn_generation s) (sn_latest_sequence s)].

(** A live event is sent on when it is newer than what was delivered. *)
Definition deliver (delivered_sequence : Z) (event : RuntimeEvent) : Z * list RuntimeServerFrame :=
  if delivered_sequence <? re_sequence event then (re_sequence event, [frame_of_event event])
  else (delivered_sequence, []).

(** A line of an attached window: the request to the actor, or an error frame. *)
Inductive ClientAction := AskActor (r : ActorRequest) | AskActorAndLeave (r : ActorRequest) | Answer (f : RuntimeServerFrame).
Definition client_line (line : string) : ClientAction :=
  match parse_runtime_client_line line with
  | Ok (ForwardWorkerCommand encoded) => AskActor (RqForward encoded)
  | Ok (RestartRuntime worker_args bootstrap_commands) => AskActor (RqRestart worker_args bootstrap_commands)
  | Ok ShutdownRuntime => AskActorAndLeave RqShutdown
  | Ok Attach => Answer (RuntimeError "already_attached")
  | _ => Answer (RuntimeError "invalid_request")
  end.
(** [send_actor_result]. *)
Definition actor_result_frames (r : result SupervisorError unit) : list RuntimeServerFrame :=
  match r with Ok _ => [] | _ => [RuntimeError "runtime_operation_failed"] end.
End actor.

(** ** Leases and the idle monitor *)
Record Leases := mkLeases { client_count : Z; last_detached_unix_ms : Z }.
(** [ClientLease::acquire], its [drop], and the test of [idle_monitor]. *)
Definition lease_acquire (l : Leases) : Leases := { l with client_count := client_count l + 1 }.
Definition lease_drop (now : Z) (l : Leases) : Leases :=
  let previous := client_count l in
  let l := { l with client_count := client_count l - 1 } in
  if previous <=? 1 then { l with last_detached_unix_ms := now } else l.
Definition idle_due `{SerdeJson} (idle_timeout_ms now : Z) (l : Leases) (j : EventJournal) : bool :=
  if negb (client_count l =? 0) || is_busy j then false
  else Z.min idle_timeout_ms u64_max <=? u64_saturating_sub now (last_detached_unix_ms l).
