(* ===== verification/SupervisorSpec.v ===== *)
(** * SupervisorSpec: what the supervisor promises to its windows

    [stream_step] interleaves the actor's writing of the journal and sending
    to the broadcast channel, one step each, with the task of a window; a
    window that follows gets every later event once and in order.  Every
    handler of the actor is such a sequence of steps, and a worker that has
    been replaced can no longer be heard. *)

From coqutil Require Import Datatypes.RecordSetters.
From S2P Require Import Prelude Machine Order Command RuntimeProtocol JournalSpec Supervisor.
Import OCamlLikeNotations.

(** [EVENT_BROADCAST_CAPACITY]. *)
Definition EVENT_BROADCAST_CAPACITY : Z := 4096.

Section stream.
Context `{SerdeJson}.

(** The journal, the event that has been appended but not yet sent, and the
    channel. *)
Record Stream := mkStream {
  sm_journal : EventJournal;
  sm_unsent : list RuntimeEvent;
  sm_broadcast : list RuntimeEvent;
}.
(** A window: not attached; subscribed, with its position in the channel; or
    following, with the number its replay ended with, its position, the
    number delivered last, and the frames it has been sent since the replay. *)
Inductive Window :=
  | Outside
  | Subscribed (cursor : nat)
  | Following (first : Z) (cursor : nat) (delivered : Z) (live : list RuntimeServerFrame).

(** The window takes the next event of the channel: [deliver] says what is sent. *)
Definition received (first : Z) (cursor : nat) (delivered : Z) (live : list RuntimeServerFrame) (e : RuntimeEvent) : Window :=
  let '(delivered', frames) := deliver delivered e in Following first (S cursor) delivered' (live ++ frames).

Inductive stream_step : Stream * Window → Stream * Window → Prop :=
  | step_append v e j' st w : append v (sm_journal st) = (Ok e, j') →
      stream_step (st, w) (mkStream j' (sm_unsent st ++ [e]) (sm_broadcast st), w)
  | step_reset st w :
      stream_step (st, w) (mkStream (reset_generation (sm_journal st)) (sm_unsent st) (sm_broadcast st), w)
  | step_send e rest st w : sm_unsent st = e :: rest →
      stream_step (st, w) (mkStream (sm_journal st) rest (sm_broadcast st ++ [e]), w)
  | step_subscribe st : stream_step (st, Outside) (st, Subscribed (length (sm_broadcast st)))
  | step_attach st cursor :
      stream_step (st, Subscribed cursor) (st, Following (sn_latest_sequence (snapshot (sm_journal st))) cursor
                                                (sn_latest_sequence (snapshot (sm_journal st))) [])
  | step_receive st first cursor delivered live e :
      sm_broadcast st !! cursor = Some e →
      Z.of_nat (length (sm_broadcast st)) - Z.of_nat cursor <= EVENT_BROADCAST_CAPACITY →
      stream_step (st, Following first cursor delivered live) (st, received first cursor delivered live e)
  | step_leave st w : stream_step (st, w) (st, Outside).

Definition stream_start (id : string) : Stream * Window := (mkStream (journal_new id) [] [], Outside).

(** ** The invariant *)
Definition numbered (log : list RuntimeEvent) : Prop :=
  ∀ i e, log !! i = Some e → re_sequence e = Z.of_nat i + 1.
Definition window_ok (log : list RuntimeEvent) (sent : nat) (w : Window) : Prop :=
  match w with
  | Outside => True
  | Subscribed cursor => (cursor <= sent)%nat
  | Following first cursor delivered live =>
      (cursor <= sent)%nat ∧ 0 <= first ∧ delivered = Z.max first (Z.of_nat cursor) ∧ delivered <= Z.of_nat (length log)
      ∧ live = map frame_of_event (take (Z.to_nat (delivered - first)) (drop (Z.to_nat first) log))
  end.
Definition stream_ok (x : Stream * Window) : Prop :=
  let '(st, w) := x in
  ∃ log, numbered log ∧ log = sm_broadcast st ++ sm_unsent st
    ∧ latest_sequence (sm_journal st) = Z.of_nat (length log)
    ∧ window_ok log (length (sm_broadcast st)) w.

Lemma append_Ok_fields v j e j' :
  append v j = (Ok e, j') →
  latest_sequence j' = u64_saturating_add (latest_sequence j) 1 ∧ re_sequence e = latest_sequence j'
  ∧ generation j' = generation j.
Proof.
  intros Ha. destruct (acceptable v) eqn:Hacc.
  - assert (∃ t, json_type v = Some t) as [t Ht].
    { unfold acceptable in Hacc. bool_props. by destruct (json_type v); [eauto|]. }
    rewrite (append_accepted v j t Hacc Ht) in Ha. cbv zeta in Ha. injection Ha as <- <-.
    destruct (update_busy_rest t j) as (Hg & _). destruct (update_busy_state t j). cbn in *. unfold constant.
    split_and!; done.
  - destruct (append_refused v j Hacc) as [e' Hr]. by rewrite Ha in Hr.
Qed.

Lemma window_ok_grow log e sent w : window_ok log sent w → window_ok (log ++ [e]) sent w.
Proof.
  destruct w as [|c|first c d live]; [done..|]. cbn. intros (Hc & Hf & Hd & Hl & Hv). rewrite length_app.
  split_and!; [done|done|done|lia|]. rewrite drop_app_le by lia. rewrite take_app_le; [done|].
  rewrite length_drop. lia.
Qed.
Lemma window_ok_sent log sent sent' w : (sent <= sent')%nat → window_ok log sent w → window_ok log sent' w.
Proof. destruct w; cbn; [done|lia|]. intros ? (? & ? & ? & ? & ?). split_and!; [lia|done..]. Qed.

Definition below_max (x : Stream * Window) : Prop := latest_sequence (sm_journal x.1) < u64_max.
Lemma step_below_max x y : stream_step x y → below_max y → below_max x.
Proof.
  unfold below_max. intros Hs. inversion Hs; subst; cbn in *; try done.
  match goal with Ha : append _ _ = _ |- _ => apply append_Ok_fields in Ha as (-> & _) end.
  unfold u64_saturating_add. lia.
Qed.

Lemma receive_ok log sent first cursor delivered live e :
  numbered log → (sent <= length log)%nat → log !! cursor = Some e → (cursor < sent)%nat →
  window_ok log sent (Following first cursor delivered live) →
  window_ok log sent (received first cursor delivered live e).
Proof.
  intros Hn Hs He Hlt (_ & Hf & Hd & Hl & Hv). pose proof (Hn cursor e He) as Hseq.
  unfold received, deliver. destruct (delivered <? re_sequence e) eqn:E; cbn; bool_props.
  - assert (Z.of_nat cursor = delivered) as Hc by lia. split_and!; [lia|done|lia|lia|].
    rewrite Hseq, Hc. replace (Z.to_nat (delivered + 1 - first)) with (S (Z.to_nat (delivered - first))) by lia.
    rewrite Hv, (take_S_r _ _ e) by (rewrite lookup_drop, <-He; f_equal; lia). by rewrite map_app.
  - split_and!; [lia|done|lia|lia|by rewrite app_nil_r].
Qed.

Ltac split4 := refine (conj _ (conj _ (conj _ _))).
Lemma stream_step_ok x y : stream_step x y → below_max x → stream_ok x → stream_ok y.
Proof.
  intros Hs Hb. destruct Hs as [v e j' st w Ha|st w|e rest st w Hu|st|st c|st f c d l e He Hcap|st w]; cbn;
    intros (log & Hn & Hlog & Hlat & Hw).
  - destruct (append_Ok_fields _ _ _ _ Ha) as (Hl & He & _). unfold below_max in Hb. cbn in Hb.
    assert (latest_sequence j' = Z.of_nat (length log) + 1) as Hl' by (rewrite Hl; unfold u64_saturating_add; lia).
    exists (log ++ [e]). split4; [|by rewrite Hlog, app_assoc|rewrite Hl', length_app; cbn; lia|by apply window_ok_grow].
    intros i x [Hi|[Hi Hx]]%lookup_app_Some; [by apply Hn|].
    apply list_lookup_singleton_Some in Hx as [Hi' <-]. lia.
  - exists log. split4; [done|done|by destruct (sm_journal st)|done].
  - exists log. split4; [done|by rewrite Hlog, Hu, <-app_assoc|done|].
    eapply window_ok_sent; [|exact Hw]. rewrite length_app. lia.
  - exists log. done.
  - exists log. split4; [done|done|done|]. cbn in *. rewrite Hlat.
    assert (length (sm_broadcast st) <= length log)%nat by (rewrite Hlog, length_app; lia).
    split_and!; [done|lia|lia|lia|]. by rewrite Z.sub_diag.
  - exists log. split4; [done|done|done|]. apply receive_ok; [done| | | |done].
    + rewrite Hlog, length_app. lia.
    + rewrite Hlog. by apply lookup_app_l_Some.
    + by eapply lookup_lt_Some.
  - exists log. done.
Qed.

Lemma stream_reach_ok id x : rtc stream_step (stream_start id) x → below_max x → stream_ok x.
Proof.
  intros Hr. remember (stream_start id) as x0 eqn:E. assert (below_max x0 → stream_ok x0) as H0.
  { intros _. subst. exists []. split_and!; done. }
  clear E. induction Hr as [x|x y z Hs Hr IH]; [done|]. apply IH. intros Hb.
  assert (below_max x) as Hbx by (by eapply step_below_max). exact (stream_step_ok x y Hs Hbx (H0 Hbx)).
Qed.

(** C33: A window that follows the runtime gets every event once and in order.
    The actor appends to the journal and sends to the channel in separate
    steps, and a window subscribes, takes its snapshot and receives in
    between, in any interleaving.  As long as fewer than 2^64 - 1 events have
    been numbered: the frames the window has been sent since its snapshot are
    those of events of the channel, one frame each, numbered consecutively from
    the one after the snapshot to the one delivered last, across restarts of
    the worker; and once it has read the channel and
    nothing is left to send, it is at the latest event of the journal. *)
Theorem window_follows_exactly_once id st first cursor delivered live :
  rtc stream_step (stream_start id) (st, Following first cursor delivered live) →
  latest_sequence (sm_journal st) < u64_max →
  first <= delivered <= latest_sequence (sm_journal st)
  ∧ (∃ sent, live = map frame_of_event sent ∧ map re_sequence sent = seqZ (first + 1) (delivered - first)
       ∧ ∀ e, e ∈ sent → e ∈ sm_broadcast st)
  ∧ (sm_unsent st = [] → cursor = length (sm_broadcast st) → delivered = latest_sequence (sm_journal st)).
Proof.
  intros Hr Hb. destruct (stream_reach_ok id _ Hr Hb) as (log & Hn & Hlog & Hlat & Hc & Hf & Hd & Hl & Hv).
  set (sent := take (Z.to_nat (delivered - first)) (drop (Z.to_nat first) log)) in Hv.
  assert (length sent = Z.to_nat (delivered - first)) as Hlen by (unfold sent; rewrite length_take, length_drop; lia).
  split_and!; [lia|lia| |].
  - exists sent. split; [done|]. split.
    + apply list_eq. intros i. rewrite list_lookup_fmap. destruct (decide (i < length sent)%nat) as [Hi|Hi].
      * unfold sent. rewrite lookup_take_lt, lookup_drop by lia.
        destruct (log !! (Z.to_nat first + i)%nat) as [e|] eqn:He; [|apply lookup_ge_None in He; lia].
        cbn. rewrite (Hn _ _ He). rewrite lookup_seqZ_lt by lia. f_equal. lia.
      * rewrite (lookup_ge_None_2 sent) by lia. by rewrite lookup_seqZ_ge by lia.
    + intros e He. apply list_elem_of_lookup in He as [i Hi]. assert (i < length sent)%nat by (by eapply lookup_lt_Some).
      unfold sent in Hi. rewrite lookup_take_lt, lookup_drop, Hlog, lookup_app_l in Hi by lia. by eapply list_elem_of_lookup_2.
  - intros Hu Hcu. rewrite Hu, app_nil_r in Hlog. rewrite Hlat, Hlog. rewrite Hlog in Hl. lia.
Qed.
End stream.

(** ** The actor *)
Section actor.
Context `{SerdeJson, Os, Describe}.

Lemma append_cases v j :
  (∃ e j', append v j = (Ok e, j')) ∨ (∃ e, append v j = (Err e, j)).
Proof.
  destruct (acceptable v) eqn:Ha.
  - assert (∃ t, json_type v = Some t) as [t Ht].
    { unfold acceptable in Ha. bool_props. by destruct (json_type v); [eauto|]. }
    left. rewrite (append_accepted v j t Ha Ht). cbv zeta. eauto.
  - right. by apply append_refused.
Qed.

Notation SupM := (M Supervisor SupervisorError).

(** Reasoning about all runs of a handler. *)
Section runs.
Context (R : relation Supervisor) `{!PreOrder R}.
Lemma steps_attempt {A} (m : SupM A) : steps R m → steps R (attempt m).
Proof. intros Hm s. unfold attempt. specialize (Hm s). by destruct (m s). Qed.
Lemma steps_modify (f : Supervisor → Supervisor) : (∀ s, R s (f s)) → steps R (modify (E:=SupervisorError) f).
Proof. intros Hf s. apply Hf. Qed.
End runs.

(** What the actor does to the journal and the channel is a sequence of steps
    of the stream, in which every appended event is sent at once. *)
Definition view (s : Supervisor) : Stream := mkStream (sp_journal s) [] (sp_broadcast s).
Definition streams (s s' : Supervisor) : Prop := ∀ w, rtc stream_step (view s, w) (view s', w).
#[local] Instance streams_preorder : PreOrder streams.
Proof. split; [by intros s w|]. intros s1 s2 s3 H12 H23 w. etrans; [apply H12|apply H23]. Qed.

(** Handlers that leave the worker and the generation alone. *)
Definition same_worker (s s' : Supervisor) : Prop :=
  generation (sp_journal s') = generation (sp_journal s) ∧ sp_worker s' = sp_worker s.
#[local] Instance same_worker_preorder : PreOrder same_worker.
Proof. split; [by split|]. intros s1 s2 s3 [] []. split; congruence. Qed.

Ltac run_steps :=
  repeat lazymatch goal with
  | |- steps _ (_ ≫= _) => apply steps_bind; [apply _| |intros ?]
  | |- steps _ (attempt _) => apply steps_attempt
  | |- steps _ (mret _) => apply steps_ret; apply _
  | |- steps _ (lift _) => apply steps_lift; apply _
  | |- steps _ (gets _) => apply steps_gets; apply _
  | |- steps _ (for_each _ _) => apply steps_for_each; [apply _|intros ?]
  end.

Lemma publish_event_streams v : steps streams (publish_event v).
Proof.
  intros s w. unfold publish_event, view. destruct (append_cases v (sp_journal s)) as [(e & j' & Ha)|[e Ha]]; rewrite Ha; cbn.
  - destruct s. cbn in *. unfold constant. eapply rtc_l; [eapply step_append; exact Ha|].
    eapply rtc_once. cbn. by eapply (step_send e []).
  - destruct s. cbn in *. unfold constant. done.
Qed.
Lemma publish_event_same v : steps same_worker (publish_event v).
Proof.
  intros s. unfold publish_event. destruct (append_cases v (sp_journal s)) as [(e & j' & Ha)|[e Ha]]; rewrite Ha; cbn.
  - destruct (append_Ok_fields _ _ _ _ Ha) as (_ & _ & Hg). destruct s. cbn in *. unfold constant. by split.
  - destruct s. by split.
Qed.
Lemma on_os_streams {A} (f : os → A * os) : steps streams (on_os f).
Proof. intros s w. unfold on_os. destruct (f (sp_os s)). by destruct s. Qed.
Lemma on_os_same {A} (f : os → A * os) : steps same_worker (on_os f).
Proof. intros s. unfold on_os. destruct (f (sp_os s)). by destruct s. Qed.
Lemma quiet_streams (f : Supervisor → Supervisor) :
  (∀ s, sp_journal (f s) = sp_journal s ∧ sp_broadcast (f s) = sp_broadcast s) →
  steps streams (modify (E:=SupervisorError) f).
Proof. intros Hf s w. destruct (Hf s) as [Hj Hb]. unfold view. cbn. by rewrite Hj, Hb. Qed.
Lemma reset_streams : steps streams (modify (E:=SupervisorError) (λ s, { s with sp_journal := reset_generation (sp_journal s) })).
Proof. intros s w. destruct s. apply rtc_once. cbn. unfold constant. apply step_reset. Qed.

Ltac quiet := apply quiet_streams; intros []; done.
Lemma spawn_worker_streams g : steps streams (spawn_worker g).
Proof. unfold spawn_worker, ensure_worker_executable, check. run_steps. apply on_os_streams. Qed.
Lemma ensure_worker_streams : steps streams ensure_worker.
Proof.
  unfold ensure_worker, current_generation, set_worker, update_worker_status. run_steps.
  destruct v; run_steps; [apply spawn_worker_streams|quiet..].
Qed.
Lemma write_worker_line_streams w l : steps streams (write_worker_line w l).
Proof. unfold write_worker_line, check. run_steps; apply on_os_streams. Qed.
Lemma stop_current_streams : steps streams stop_current.
Proof.
  unfold stop_current, stop_worker, check. run_steps. destruct v; run_steps; [apply write_worker_line_streams|apply on_os_streams|].
  case_match; run_steps; apply on_os_streams.
Qed.
Lemma publish_warning_streams r : steps streams (publish_warning r).
Proof. unfold publish_warning. run_steps. apply publish_event_streams. Qed.

Lemma actor_request_streams r : steps streams (actor_request r).
Proof.
  destruct r; unfold actor_request, set_worker, update_worker_status; run_steps;
    solve [apply ensure_worker_streams | apply write_worker_line_streams | apply stop_current_streams
          | apply publish_event_streams | apply reset_streams | quiet].
Qed.
Lemma actor_output_streams o : steps streams (actor_output o).
Proof.
  destruct o as [g line|g err]; unfold actor_output, current_generation, set_worker, update_worker_status.
  - run_steps. case_match; [run_steps|]. case_match; [|apply publish_warning_streams].
    run_steps; [apply publish_event_streams|case_match; run_steps; apply publish_warning_streams|].
    case_match; run_steps. unfold bootstrap_worker, write_bootstrap_commands, set_worker. run_steps.
    case_match; run_steps. case_match; run_steps; [apply write_worker_line_streams|quiet|].
    case_match; run_steps; apply publish_warning_streams.
  - run_steps. case_match; run_steps. case_match; run_steps; [quiet|quiet|apply reset_streams| |apply publish_warning_streams].
    unfold inspect_unexpected_worker_exit. run_steps; [apply on_os_streams..|]. case_match; run_steps; [apply on_os_streams|].
    case_match; run_steps; apply on_os_streams.
Qed.

(** ** Workers and generations *)

Lemma spawn_worker_same g : steps same_worker (spawn_worker g).
Proof. unfold spawn_worker, ensure_worker_executable, check. run_steps. apply on_os_same. Qed.
Lemma spawn_worker_generation g s w : (spawn_worker g s).1 = Ok w → mw_generation w = g.
Proof.
  unfold spawn_worker, ensure_worker_executable, check, gets, on_os, lift, mbind, M_bind. destruct (is_file _ _); cbn; [|done].
  destruct (spawn _ _ _) as [[c|] o]; cbn; [|done]. by intros [= <-].
Qed.
Lemma write_worker_line_same w l : steps same_worker (write_worker_line w l).
Proof. unfold write_worker_line, check. run_steps; apply on_os_same. Qed.
Lemma stop_current_same : steps same_worker stop_current.
Proof.
  unfold stop_current, stop_worker, check. run_steps. destruct v; run_steps; [apply write_worker_line_same|apply on_os_same|].
  case_match; run_steps; apply on_os_same.
Qed.
Lemma publish_warning_same r : steps same_worker (publish_warning r).
Proof. unfold publish_warning. run_steps. apply publish_event_same. Qed.
Lemma inspect_same w : steps same_worker (inspect_unexpected_worker_exit w).
Proof.
  unfold inspect_unexpected_worker_exit. run_steps; [apply on_os_same..|]. case_match; run_steps; [apply on_os_same|].
  case_match; run_steps; apply on_os_same.
Qed.

(** [w0] is the worker, or it belongs to an earlier generation than the
    journal and than any later worker. *)
Definition current_or_past (w0 : ManagedWorker) (s : Supervisor) : Prop :=
  mw_generation w0 <= generation (sp_journal s)
  ∧ ((∃ w, sp_worker s = Some w ∧ mw_child w = mw_child w0 ∧ mw_generation w = mw_generation w0)
     ∨ (mw_generation w0 < generation (sp_journal s) ∧ ∀ w, sp_worker s = Some w → mw_generation w0 < mw_generation w)).
Definition worker_ok (s : Supervisor) : Prop :=
  ∀ w, sp_worker s = Some w → mw_generation w <= generation (sp_journal s).
(** How the actor moves, as long as generations do not run out. *)
Definition advances (s s' : Supervisor) : Prop :=
  generation (sp_journal s') < u64_max →
  generation (sp_journal s) <= generation (sp_journal s')
  ∧ (worker_ok s → worker_ok s') ∧ (∀ w0, current_or_past w0 s → current_or_past w0 s').
#[local] Instance advances_preorder : PreOrder advances.
Proof.
  split; [by intros s _; split_and!|]. intros s1 s2 s3 H12 H23 Hb.
  destruct (H23 Hb) as (Hg & Hw & Hp). destruct H12 as (Hg' & Hw' & Hp'); [lia|]. split_and!; [lia|by auto|by auto].
Qed.

Lemma same_worker_advances s s' : same_worker s s' → advances s s'.
Proof. intros [Hg Hw] _. unfold worker_ok, current_or_past. rewrite Hg, Hw. split_and!; [lia|done|done]. Qed.
Lemma steps_same {A} (m : SupM A) : steps same_worker m → steps advances m.
Proof. intros Hm s. apply same_worker_advances, Hm. Qed.
(** The worker is gone, and with it its generation. *)
Lemma worker_gone_advances s s' :
  sp_worker s' = None → generation (sp_journal s') = u64_saturating_add (generation (sp_journal s)) 1 →
  worker_ok s' ∧ advances s s'.
Proof.
  intros Hw Hg. unfold advances, worker_ok, current_or_past. rewrite Hw, Hg. unfold u64_saturating_add.
  split; [done|]. intros Hlt. split_and!; [lia|done|]. intros w0 [Hle _]. split; [lia|]. right. split; [lia|done].
Qed.
Lemma reset_advances s : advances s { s with sp_journal := reset_generation (sp_journal s) }.
Proof.
  destruct s as [c j b w p o]. unfold advances, worker_ok, current_or_past. destruct j. cbn. unfold constant, u64_saturating_add.
  cbn. intros Hlt. split_and!; [lia|intros Hw w' Hw'; specialize (Hw w' Hw'); lia|].
  intros w0 [Hle [Hl|[Hr Hr']]]; (split; [lia|]); [by left|right; split; [lia|done]].
Qed.
(** A worker is started only when there is none, for the current generation. *)
Lemma ensure_worker_advances : steps advances ensure_worker.
Proof.
  unfold ensure_worker. apply steps_read. intros s. destruct (sp_worker s) as [w|] eqn:Ew; [reflexivity|].
  pose proof (spawn_worker_same (generation (sp_journal s)) s) as Hs.
  pose proof (spawn_worker_generation (generation (sp_journal s)) s) as Hg.
  unfold current_generation, gets, mbind, M_bind. cbn.
  destruct (spawn_worker _ s) as [[w| |] s'] eqn:Es; [|by apply same_worker_advances..]. cbn in *.
  destruct Hs as [Hj Hw]. specialize (Hg w eq_refl). intros Hlt. destruct s'. cbn in *. unfold constant in *.
  unfold worker_ok, current_or_past. cbn. rewrite Hj in *. split_and!; [lia|intros _ ? [= <-]; lia|].
  intros w0 [Hle [(w1 & Hw1 & _)|[Hr _]]]; [congruence|]. split; [done|]. right. split; [done|]. intros ? [= <-]. lia.
Qed.

Lemma restart_advances args commands : steps advances (actor_request (RqRestart args commands)).
Proof.
  intros s. cbn [actor_request]. rewrite run_bind. cbn [modify].
  set (s1 := { s with sp_journal := reset_generation (sp_journal s) }).
  assert (generation (sp_journal s1) = u64_saturating_add (generation (sp_journal s)) 1) as Hg1
    by (by destruct s as [? [] ? ? ? ?]).
  rewrite run_bind. pose proof (publish_event_same json_restarting s1) as [Hg2 Hw2].
  destruct (publish_event json_restarting s1) as [[u|e|] s2] eqn:E2; cbn in Hg2, Hw2.
  2,3: cbn; etrans; [apply reset_advances|by apply same_worker_advances].
  rewrite run_bind. pose proof (stop_current_same s2) as [Hg3 _]. unfold attempt.
  destruct (stop_current s2) as [r3 s3]. cbn in Hg3. rewrite run_bind. unfold set_worker. cbn [modify].
  set (s4 := { s3 with sp_worker := None }).
  assert (sp_worker s4 = None ∧ generation (sp_journal s4) = u64_saturating_add (generation (sp_journal s)) 1) as [Hw4 Hg4].
  { split; [by destruct s3|]. transitivity (generation (sp_journal s3)); [by destruct s3|]. rewrite Hg3, Hg2. exact Hg1. }
  etrans; [by apply worker_gone_advances|].
  assert (∀ f : Supervisor → Supervisor, (∀ x, same_worker x (f x)) → steps advances (modify (E:=SupervisorError) f)) as Hm
    by (intros f Hf; apply steps_same; intros x; apply Hf).
  revert s4 Hw4 Hg4. intros s4 _ _. unfold update_worker_status.
  match goal with |- advances s4 (?m s4).2 => enough (steps advances m) as Hrest by apply Hrest end.
  run_steps; [by apply Hm; intros []|by apply Hm; intros []|apply ensure_worker_advances].
Qed.

Lemma actor_request_advances r : r ≠ RqShutdown → steps advances (actor_request r).
Proof.
  destruct r; [intros _; apply ensure_worker_advances| |intros _; apply restart_advances|done].
  intros _. cbn [actor_request]. run_steps; [apply ensure_worker_advances|apply steps_same, write_worker_line_same].
Qed.

Lemma bootstrap_advances g : steps advances (bootstrap_worker g).
Proof.
  unfold bootstrap_worker. apply steps_read. intros s. destruct (sp_worker s) as [w|] eqn:Ew; [|reflexivity].
  case_match; [|reflexivity]. rewrite run_bind. cbn [gets]. rewrite run_bind.
  pose proof (steps_for_each same_worker (write_worker_line w) (cf_bootstrap_commands (sp_config s))
    (λ l, write_worker_line_same w l) s) as [Hg1 Hw1]. unfold attempt, write_bootstrap_commands.
  destruct (for_each _ _ s) as [r1 s1]. cbn in Hg1, Hw1. rewrite run_bind. unfold set_worker. cbn [modify].
  etrans; [|apply steps_same; case_match; run_steps; apply publish_warning_same].
  intros _. unfold worker_ok, current_or_past. destruct s1. cbn in *. unfold constant. rewrite Hg1, Ew. destruct w. cbn.
  split_and!; [done|intros Hok ? [= <-]; by apply (Hok _ eq_refl)|].
  intros w0 [Hle [(? & [= <-] & Hc & Hgen)|[Hr Hr']]]; (split; [done|]); [left; by eexists|right; split; [done|]].
  intros ? [= <-]. by apply (Hr' _ eq_refl).
Qed.

Lemma actor_output_advances o : steps advances (actor_output o).
Proof.
  destruct o as [g line|g err]; unfold actor_output.
  - unfold current_generation. run_steps. case_match; [run_steps|]. case_match; [|apply steps_same, publish_warning_same].
    run_steps; [apply steps_same, publish_event_same|apply steps_same; case_match; run_steps; apply publish_warning_same|].
    case_match; run_steps. apply bootstrap_advances.
  - apply steps_read. intros s. destruct (sp_worker s) as [w|] eqn:Ew; [|reflexivity]. case_match; [|reflexivity].
    unfold set_worker, update_worker_status. rewrite run_bind. cbn [modify]. rewrite run_bind. cbn [modify]. rewrite run_bind. cbn [modify].
    match goal with |- advances s (?m ?s3).2 => set (s' := s3); enough (steps advances m) as Hrest end.
    + etrans; [|apply Hrest]. apply worker_gone_advances; unfold s'; by destruct s as [? [] ? ? ? ?].
    + apply steps_same. run_steps; [apply inspect_same|apply publish_warning_same].
Qed.

(** The actor's loop: a request other than [RqShutdown], which ends it, or an
    output of a worker, also of one that has been replaced. *)
Inductive actor_step (s : Supervisor) : Supervisor → Prop :=
  | act_request r : r ≠ RqShutdown → actor_step s (actor_request r s).2
  | act_output o : actor_step s (actor_output o s).2.
Lemma actor_steps_advance s s' : rtc actor_step s s' → advances s s'.
Proof.
  induction 1 as [s|s s1 s' Hs _ IH]; [done|]. etrans; [|exact IH].
  destruct Hs; [by apply actor_request_advances|apply actor_output_advances].
Qed.

Lemma actor_start_ok s : sp_worker s = None → worker_ok (actor_start s).2.
Proof.
  intros Hn. unfold actor_start, current_generation. rewrite run_bind. cbn [gets]. rewrite run_bind. unfold attempt.
  set (g := sn_generation _). pose proof (spawn_worker_same g s) as [Hg Hw]. pose proof (spawn_worker_generation g s) as Hgen.
  destruct (spawn_worker g s) as [[w|e|] s1] eqn:E1; cbn in Hg, Hw, Hgen.
  - specialize (Hgen w eq_refl). destruct s1. cbn in *. unfold constant. intros ? [= <-]. cbn.
    rewrite Hgen. unfold set_worker, update_worker_status. rewrite run_bind. cbn. unfold constant. unfold g in *. cbn in *. lia.
  - unfold update_worker_status. rewrite run_bind. pose proof (publish_warning_same (CannotStart e) s1) as [Hg2 Hw2].
    destruct (publish_warning _ s1) as [[u|e'|] s2]; cbn in *; intros w; [destruct s2; cbn in *|..]; congruence.
  - intros w. cbn. congruence.
Qed.

Lemma past_worker_silent w0 s :
  current_or_past w0 s → (∀ w, sp_worker s = Some w → mw_generation w ≠ mw_generation w0) →
  ∀ line err, actor_output (OutEvent (mw_generation w0) line) s = (Ok tt, s)
    ∧ actor_output (OutClosed (mw_generation w0) err) s = (Ok tt, s).
Proof.
  intros [_ [(w & Hw & _ & Hg)|[Hlt Hlater]]] Hne line err; [by destruct (Hne w Hw)|].
  unfold actor_output, current_generation. rewrite !run_bind. cbn [gets]. split.
  - assert ((mw_generation w0 =? sn_generation (snapshot (sp_journal s))) = false) as -> by (apply Z.eqb_neq; cbn; lia). done.
  - destruct (sp_worker s) as [w|] eqn:Ew; [|done]. specialize (Hne w eq_refl).
    assert ((mw_generation w =? mw_generation w0) = false) as -> by (by apply Z.eqb_neq). done.
Qed.

(** A worker that has been replaced can no longer be heard, and no
    generation has two workers.  From any state of the supervisor in which
    [w0] is the worker, after any further requests and outputs (restarts,
    crashes, failed starts and writes among them): a worker of the same
    generation is the same process; and once the worker is gone or another
    one, every line that [w0] still writes, and the end of its output, leave
    the supervisor exactly as it was. *)
Theorem replaced_worker_silent s0 s s' w0 :
  sp_worker s0 = None → rtc actor_step (actor_start s0).2 s → rtc actor_step s s' →
  generation (sp_journal s') < u64_max → sp_worker s = Some w0 →
  (∀ w, sp_worker s' = Some w → mw_generation w = mw_generation w0 → mw_child w = mw_child w0)
  ∧ ((∀ w, sp_worker s' = Some w → mw_generation w ≠ mw_generation w0) →
     ∀ line err, actor_output (OutEvent (mw_generation w0) line) s' = (Ok tt, s')
       ∧ actor_output (OutClosed (mw_generation w0) err) s' = (Ok tt, s')).
Proof.
  intros Hnone Hr Hr' Hmax Hw0. destruct (actor_steps_advance _ _ Hr' Hmax) as (Hge & _ & Hpast).
  destruct (actor_steps_advance _ _ Hr) as (_ & Hok & _); [lia|].
  specialize (Hok (actor_start_ok s0 Hnone)). specialize (Hpast w0).
  assert (current_or_past w0 s') as Hp.
  { apply Hpast. split; [by apply Hok|]. left. by exists w0. }
  split; [|by apply past_worker_silent].
  intros w Hw Heq. destruct Hp as [_ [(w1 & Hw1 & Hc & _)|[_ Hlater]]]; [congruence|].
  specialize (Hlater w Hw). lia.
Qed.
End actor.

(** ** The command line *)
Definition pipe_name_ok (name : string) : Prop :=
  ∃ suffix, name = (PIPE_PREFIX ++ suffix)%string ∧ 12 <= string_len suffix <= 64
    ∧ Forall (λ b, is_ascii_hexdigit b = true) (string_bytes suffix).
Lemma pipe_name_Ok name : validate_pipe_name name = Ok tt ↔ pipe_name_ok name.
Proof.
  unfold validate_pipe_name, pipe_name_ok. rewrite bind_ok_or. setoid_rewrite strip_prefix_Some.
  setoid_rewrite reject_if_Ok. setoid_rewrite orb_false_iff. setoid_rewrite orb_false_iff.
  setoid_rewrite Z.ltb_ge. setoid_rewrite negb_false_iff. setoid_rewrite forallb_forall. setoid_rewrite Forall_forall.
  setoid_rewrite list_elem_of_In. naive_solver.
Qed.

Definition timeout_ok (st : ParsedArgs) : Prop := 1 <= pa_idle_timeout st <= 24 * 60 * 60.
Lemma parse_timeout_ok l st0 st : try_fold parse_argument st0 l = Ok st → timeout_ok st0 → timeout_ok st.
Proof.
  revert st0. induction l as [|a l IH]; intros st0 Hf H0; cbn in Hf; [by injection Hf as <-|].
  apply bind_Ok in Hf as (st1 & Ha & Hl). apply (IH st1 Hl). clear IH Hl. unfold parse_argument, timeout_ok in *.
  destruct (pa_in_worker_args st0); [destruct a; inv_ok; by destruct st0|].
  destruct (match a with Unicode _ => _ | NotUnicode _ => _ end); [inv_ok; by destruct st0|]. cbv zeta in Ha.
  destruct (strip_prefix "--pipe-name=" _); [inv_ok; by destruct st0|].
  destruct (strip_prefix "--worker-executable=" _); [inv_ok; by destruct st0|].
  destruct (strip_prefix "--idle-timeout-seconds=" _); inv_ok. destruct st0. cbn. unfold constant. bool_props. lia.
Qed.

(** A configuration that is accepted names a pipe of this protocol, waits
    between a second and a day, and has checked arguments for the worker. *)
Lemma supervisor_args_ok `{SerdeJsonLaws} arguments default_worker bootstrap config :
  parse_supervisor_args arguments default_worker bootstrap = Ok config →
  pipe_name_ok (cf_pipe_name config) ∧ 1 <= cf_idle_timeout config <= 24 * 60 * 60
  ∧ Z.of_nat (length (cf_worker_args config)) <= WORKER_ARGUMENT_LIMIT ∧ Forall argument_ok (cf_worker_args config)
  ∧ cf_bootstrap_commands config = bootstrap.
Proof.
  unfold parse_supervisor_args. intros Hp. inv_ok. cbn.
  match goal with Hv : validate_worker_args _ = Ok _ |- _ => apply worker_args_Ok in Hv as [Hlen Hargs] end.
  match goal with Hn : validate_pipe_name _ = Ok ?u |- _ => destruct u; apply pipe_name_Ok in Hn end.
  match goal with Hf : try_fold _ _ _ = Ok _ |- _ => apply parse_timeout_ok in Hf; [destruct Hf|done] end.
  split_and!; done.
Qed.
