(* ===== verification/SupervisorExample.v ===== *)
(** * SupervisorExample: journals and a supervisor that run

    A small JSON: a value is a list of named strings and numbers.  The instance
    shows that the hypotheses of [JournalSpec] can hold and lets journals be
    evaluated.  Processes are numbered; every operation on them succeeds.  The
    witnesses of [SupervisorSpec] run the actor and a window. *)

From coqutil Require Import Datatypes.RecordSetters.
From S2P Require Import Prelude Machine Order Command RuntimeProtocol JournalSpec Supervisor SupervisorSpec.
Import OCamlLikeNotations.

(** ** Journals *)

Inductive ToyJson := TStr (s : string) | TNum (n : Z) | TObj (members : list (string * (string + Z))).
#[export] Instance ToyJson_eq_dec : EqDecision ToyJson.
Proof. solve_decision. Defined.

(** The text of a value is its type; texts are read back as commands. *)
Definition toy_get (v : ToyJson) (key : string) : option ToyJson :=
  match v with
  | TObj members =>
      (λ m, match m.2 with inl s => TStr s | inr n => TNum n end)
        <$> find_first (λ m, String.eqb m.1 key) members
  | _ => None
  end.
Definition toy_str (v : ToyJson) : option string := match v with TStr s => Some s | _ => None end.
Definition toy_commands : list SidecarCommand := [SyncStatistics; CancelPublicPool; CmdShutdown].
Definition toy_parse (line : string) : option ToyJson :=
  if String.eqb line "" then None else Some (TObj [("type"%string, inl line)]).
#[export] Instance toy_json : SerdeJson := {|
  Value := ToyJson;
  json_get := toy_get;
  json_as_str := toy_str;
  json_as_u64 := λ v, match v with TNum n => Some n | _ => None end;
  value_from_str := toy_parse;
  value_to_string := λ v, toy_get v "type" ≫= toy_str;
  command_from_str := λ line, find_first (λ c, String.eqb (command_type c) line) toy_commands;
  attach_from_value := λ _, Some (mkAttachFrame 7);
  restart_from_value := λ _, Some (["--volunteer-consent=granted"%string], [TObj [("type"%string, inl "sync_statistics"%string)]]);
  json_warning := λ message, TObj [("type"%string, inl "warning"%string); ("message"%string, inl message)];
  json_restarting := TObj [("type"%string, inl "sidecar_restarting"%string)];
|}.
#[export] Instance toy_json_laws : SerdeJsonLaws.
Proof.
  split. intros line v t c Hv Ht Hc. unfold value_from_str, toy_json, toy_parse in Hv. destruct (String.eqb line "") eqn:E; [done|].
  injection Hv as <-. cbv in Ht. injection Ht as <-.
  unfold command_from_str in Hc. apply find_first_Some in Hc as [_ Hc]. symmetry. by apply String.eqb_eq.
Qed.

Definition ev (t : string) (members : list (string * (string + Z))) : Value := TObj (("type"%string, inl t) :: members).
Definition identity_ready (player : string) : Value := ev "identity_ready" [("player_id"%string, inl player)].
Definition statistics (n : Z) : Value := ev "statistics_updated" [("completed_hands"%string, inr n)].

Lemma journal_refines_history_witness :
  let ops := [OpAppend (ev "pool_joined" []); OpAppend (TStr "no object"); OpReset; OpAppend (ev "ready" [])] in
  journal_of (history_of ops) (journal_after "runtime" ops)
  ∧ map (λ s, (re_generation (st_value s), re_sequence (st_value s))) (events (journal_after "runtime" ops)) = [(2, 2)].
Proof. split; [|reflexivity]. apply (journal_refines_history "runtime"). reflexivity. Defined.

Lemma snapshot_replays_witness :
  let ops := [OpAppend (ev "pool_joined" []); OpAppend (ev "pool_cancelled" [])] in
  StronglySorted earlier (sn_events (snapshot (journal_after "runtime" ops)))
  ∧ map re_sequence (sn_events (snapshot (journal_after "runtime" ops))) = [1; 2].
Proof. split; [|reflexivity]. apply (snapshot_replays "runtime"). reflexivity. Defined.

Lemma requests_checked_witness :
  parse_runtime_client_line "shutdown" = Err WorkerShutdownForbidden
  ∧ parse_runtime_client_line "sync_statistics" = Ok (ForwardWorkerCommand "sync_statistics")
  ∧ (∃ args commands, parse_runtime_client_line "runtime_restart" = Ok (RestartRuntime args commands)
       ∧ Forall argument_ok args ∧ Forall forwardable commands)
  ∧ is_ok (parse_runtime_client_line "shutdown") = false.
Proof.
  split; [reflexivity|]. split; [reflexivity|]. split.
  - do 2 eexists. split; [reflexivity|].
    destruct (requests_checked "runtime_restart") as (_ & _ & Hr). split; eapply Hr; reflexivity.
  - apply (requests_checked "shutdown"). reflexivity.
Defined.

(** The tests of the module: a window that attaches after 4097 warnings still
    gets the room; a late phase does not hide the bets. *)
Definition warnings (n : nat) : list JournalOp := replicate n (OpAppend (json_warning "x")).
Definition types_replayed (ops : list JournalOp) : list string :=
  types_of (filter (λ e, json_type (re_event e) ≠ Some "warning"%string) (sn_events (snapshot (journal_after "runtime" ops)))).
Definition hand (t : string) (members : list (string * (string + Z))) : JournalOp :=
  OpAppend (ev t (("table_id"%string, inl "table-a"%string) :: ("hand_number"%string, inr 3) :: members)).
Example truncated_journal_replays_session :
  types_replayed ([OpAppend (identity_ready "a"); OpAppend (ev "pool_joined" []); OpAppend (ev "room_entered" []);
     hand "hand_protocol_started" []] ++ warnings 4097)
  = ["identity_ready"; "pool_joined"; "room_entered"; "hand_protocol_started"]%string.
Proof. vm_compute. reflexivity. Qed.
Example late_phase_ignored :
  types_replayed ([hand "hand_protocol_started" []; hand "hand_ready" []; hand "hand_state" [];
     hand "hand_protocol_progress" [("phase"%string, inl "key_exchange"%string)]] ++ warnings 4097)
  = ["hand_protocol_started"; "hand_ready"; "hand_state"]%string.
Proof. vm_compute. reflexivity. Qed.

(** What a window projects from a replay: it applies the same rules to the
    events it receives.  The worker reports [identity_ready] again when a
    backup of the identity is confirmed, after the statistics; once both are
    older than the stored suffix, the window sees the statistics first, then
    an identity that is new to it, and drops the statistics. *)
Definition replayed_projection (ops : list JournalOp) : gmap string RuntimeEvent :=
  foldl observe ∅ (sn_events (snapshot (journal_after "runtime" ops))).
Definition confirmed_backup : list JournalOp :=
  [OpAppend (identity_ready "a"); OpAppend (statistics 99); OpAppend (identity_ready "a")] ++ warnings 4097.
Example replay_loses_statistics :
  (is_Some (session_projection (journal_after "runtime" confirmed_backup) !! "statistics"%string))
  ∧ replayed_projection confirmed_backup !! "statistics"%string = None.
Proof. vm_compute. split; [by eexists|reflexivity]. Qed.

(** ** A supervisor *)

#[export] Instance toy_os : Os := {|
  os := Z;
  Child := Z;
  is_file := λ _ _, true;
  spawn := λ _ _ o, (Some o, o + 1);
  child_id := λ c, Some c;
  stdin_write := λ _ _ o, (true, o);
  stdin_flush := λ _ o, (true, o);
  stdin_shutdown := λ _ o, o;
  wait_timeout := λ _ o, (Exited, o);
  child_kill := λ _ o, (true, o);
  child_wait := λ _ o, (true, o);
|}.
#[export] Instance toy_describe : Describe := {| describe := λ _, "warning"%string |}.

Definition toy_config : SupervisorConfig :=
  mkConfig (PIPE_PREFIX ++ "aabbccddeeff") "token-holdem-sidecar" [] [] DEFAULT_IDLE_TIMEOUT.
Definition toy_supervisor : Supervisor := mkSupervisor toy_config (journal_new "runtime") [] None None 100.
Definition started : Supervisor := (actor_start toy_supervisor).2.
Definition restarted : Supervisor := (actor_request (RqRestart [] []) started).2.
Definition first_worker : ManagedWorker := mkWorker 100 1 false.

(** After a restart the worker is process 101 of generation 2, and process
    100 is not heard. *)
Lemma replaced_worker_silent_witness :
  sp_worker restarted = Some (mkWorker 101 2 false)
  ∧ actor_output (OutEvent 1 "hand_state") restarted = (Ok tt, restarted).
Proof.
  split; [reflexivity|].
  refine (proj1 (proj2 (replaced_worker_silent toy_supervisor started restarted first_worker _ _ _ _ _) _
    "hand_state"%string None)).
  - reflexivity.
  - apply rtc_refl.
  - apply rtc_once. apply act_request. done.
  - reflexivity.
  - reflexivity.
  - intros w [= <-]. done.
Defined.

(** A window subscribes while an event is appended but not sent, takes its
    snapshot, and is sent the next event once. *)
Definition joined_event : RuntimeEvent := mkRuntimeEvent 1 1 (ev "pool_joined" []).
Definition left_event : RuntimeEvent := mkRuntimeEvent 1 2 (ev "pool_cancelled" []).
Definition j1 : EventJournal := (append (ev "pool_joined" []) (journal_new "runtime")).2.
Definition j2 : EventJournal := (append (ev "pool_cancelled" []) j1).2.
Lemma toy_stream :
  rtc stream_step (stream_start "runtime")
    (mkStream j2 [] [joined_event; left_event], Following 1 2 2 [frame_of_event left_event]).
Proof.
  eapply rtc_l; [apply (step_append (ev "pool_joined" []) joined_event j1); reflexivity|].
  eapply rtc_l; [apply step_subscribe|].
  eapply rtc_l; [apply step_attach|].
  eapply rtc_l; [eapply step_send; reflexivity|].
  eapply rtc_l; [eapply step_receive; [reflexivity|cbn; unfold EVENT_BROADCAST_CAPACITY; lia]|].
  eapply rtc_l; [apply (step_append (ev "pool_cancelled" []) left_event j2); reflexivity|].
  eapply rtc_l; [eapply step_send; reflexivity|].
  eapply rtc_l; [eapply step_receive; [reflexivity|cbn; unfold EVENT_BROADCAST_CAPACITY; lia]|].
  apply rtc_refl.
Qed.
Lemma window_follows_exactly_once_witness :
  (∃ sent, [frame_of_event left_event] = map frame_of_event sent ∧ map re_sequence sent = seqZ (1 + 1) (2 - 1))
  ∧ 2 = latest_sequence j2.
Proof.
  destruct (window_follows_exactly_once "runtime" (mkStream j2 [] [joined_event; left_event]) 1 2 2 [frame_of_event left_event])
    as (_ & (sent & Hs & Hseq & _) & Hlast); [exact toy_stream|reflexivity|].
  split; [by exists sent|]. apply Hlast; reflexivity.
Defined.

(** The tests of the module. *)
Example supervisor_args_example :
  parse_supervisor_args [Unicode ("--pipe-name=" ++ PIPE_PREFIX ++ "aabbccddeeff"); Unicode "--idle-timeout-seconds=30";
                         Unicode "--"; Unicode "--volunteer-consent=granted"] "token-holdem-sidecar.exe" []
  = Ok (mkConfig (PIPE_PREFIX ++ "aabbccddeeff") "token-holdem-sidecar.exe" ["--volunteer-consent=granted"%string] [] 30).
Proof. reflexivity. Qed.
Example daemon_worker_refused :
  is_ok (parse_supervisor_args [Unicode ("--pipe-name=" ++ PIPE_PREFIX ++ "aabbccddeeff"); Unicode "--"; Unicode "--daemon"]
           "token-holdem-sidecar.exe" []) = false.
Proof. reflexivity. Qed.
