(* ===== verification/Volunteer.v ===== *)
(** * Volunteer: helping others to connect (token-holdem-sidecar volunteer.rs, volunteer_runtime.rs)

    A host serves discovery and relays only with its user's consent and when
    network and power allow it; the runtime tracks whether the host can be
    reached and what it relays, and reports it.  The events of libp2p's
    AutoNAT, UPnP and relay behaviours are those the code matches on; the
    text of an address is external. *)

From coqutil Require Import Datatypes.RecordSetters.
From S2P Require Import Prelude Machine Order Ids Identity Session NetworkAddress.
Import OCamlLikeNotations.

(** ** The policy *)
Inductive VolunteerConsent := Undecided | Granted | Declined.
Inductive HostNetworkCost := Unmetered | Metered | CostUnknown.
Inductive PowerSource := Ac | Battery | PowerUnknown.
Inductive VolunteerInputError := ConsentInvalid (s : string) | NetworkCostInvalid (s : string) | PowerSourceInvalid (s : string).

Definition consent_as_str (c : VolunteerConsent) : string :=
  match c with Undecided => "undecided" | Granted => "granted" | Declined => "declined" end.
Definition consent_from_str (value : string) : result VolunteerInputError VolunteerConsent :=
  if String.eqb value "undecided" then Ok Undecided
  else if String.eqb value "granted" then Ok Granted
  else if String.eqb value "declined" then Ok Declined
  else Err (ConsentInvalid value).
Definition network_cost_as_str (c : HostNetworkCost) : string :=
  match c with Unmetered => "unmetered" | Metered => "metered" | CostUnknown => "unknown" end.
Definition network_cost_from_str (value : string) : result VolunteerInputError HostNetworkCost :=
  if String.eqb value "unmetered" then Ok Unmetered
  else if String.eqb value "metered" then Ok Metered
  else if String.eqb value "unknown" then Ok CostUnknown
  else Err (NetworkCostInvalid value).
Definition power_source_as_str (p : PowerSource) : string :=
  match p with Ac => "ac" | Battery => "battery" | PowerUnknown => "unknown" end.
Definition power_source_from_str (value : string) : result VolunteerInputError PowerSource :=
  if String.eqb value "ac" then Ok Ac
  else if String.eqb value "battery" then Ok Battery
  else if String.eqb value "unknown" then Ok PowerUnknown
  else Err (PowerSourceInvalid value).

Record VolunteerInputs := mkInputs {
  vi_consent : VolunteerConsent;
  vi_network_cost : HostNetworkCost;
  vi_power_source : PowerSource;
}.
Definition inputs_default : VolunteerInputs := mkInputs Undecided CostUnknown PowerUnknown.

Inductive VolunteerBlockReason :=
  | Eligible | ConsentRequired | BlockDeclined | MeteredNetwork | BatteryPower | HostConditionsUnknown.
Definition block_reason_as_str (r : VolunteerBlockReason) : string :=
  match r with
  | Eligible => "eligible" | ConsentRequired => "consent_required" | BlockDeclined => "declined"
  | MeteredNetwork => "metered_network" | BatteryPower => "battery_power"
  | HostConditionsUnknown => "host_conditions_unknown"
  end.

Record VolunteerDecision := mkDecision {
  enable_discovery_server : bool;
  enable_relay_server : bool;
  enable_upnp : bool;
  vd_reason : VolunteerBlockReason;
}.
Definition decision_disabled (reason : VolunteerBlockReason) : VolunteerDecision := mkDecision false false false reason.

(** [VolunteerPolicy::evaluate]. *)
Definition evaluate (inputs : VolunteerInputs) : VolunteerDecision :=
  match vi_consent inputs with
  | Undecided => decision_disabled ConsentRequired
  | Declined => decision_disabled BlockDeclined
  | Granted =>
      if match vi_network_cost inputs with Metered => true | _ => false end then decision_disabled MeteredNetwork
      else if match vi_power_source inputs with Battery => true | _ => false end then decision_disabled BatteryPower
      else if match vi_network_cost inputs with CostUnknown => true | _ => false end
           || match vi_power_source inputs with PowerUnknown => true | _ => false end
      then mkDecision true false true HostConditionsUnknown
      else mkDecision true true true Eligible
  end.

(** ** The runtime *)
Inductive Reachability := ReachUnknown | ReachPrivate | ReachPublic.
Definition reachability_as_str (r : Reachability) : string :=
  match r with ReachUnknown => "unknown" | ReachPrivate => "private" | ReachPublic => "public" end.

Record RelayServerLimits := mkLimits {
  rl_max_reservations : Z;
  rl_max_reservations_per_peer : Z;
  rl_reservation_duration : Z;
  rl_max_circuits : Z;
  rl_max_circuits_per_peer : Z;
  rl_max_circuit_duration : Z;
  rl_max_circuit_bytes : Z;
}.

Record VolunteerStatus := mkStatus {
  vs_consent : string; vs_network_cost : string; vs_power_source : string; vs_policy_reason : string;
  vs_reachability : string; vs_reachability_evidence : string; vs_role : string;
  vs_discovery_server_enabled : bool; vs_relay_server_enabled : bool; vs_upnp_enabled : bool;
  vs_active_reservations : Z; vs_active_circuits : Z; vs_max_reservations : Z; vs_max_circuits : Z;
  vs_max_circuit_duration_seconds : Z; vs_max_circuit_bytes : Z;
}.

Class MultiaddrText `{Libp2p} := {
  addr_to_string : Multiaddr → string;
  addr_from_str : string → option Multiaddr;
}.

Section volunteer.
Context `{MultiaddrText}.

(** The events of the libp2p behaviours. *)
Inductive AutonatEvent := StatusChanged (new : Reachability) | OtherAutonat.
Inductive UpnpEvent :=
  | NewExternalAddr (a : Multiaddr) | ExpiredExternalAddr (a : Multiaddr) | GatewayNotFound | NonRoutableGateway.
Inductive RelayServerEvent :=
  | ReservationReqAccepted (src : PeerId) (renewed : bool)
  | ReservationReqDenied (src : PeerId)
  | ReservationClosed (src : PeerId)
  | ReservationTimedOut (src : PeerId)
  | CircuitReqAccepted (src dst : PeerId)
  | CircuitReqDenied (src dst : PeerId)
  | CircuitClosed (src dst : PeerId)
  | ReservationFailed (src : PeerId)
  | CircuitFailed (src dst : PeerId)
  | RelayStatusChanged.

Inductive VolunteerEvent :=
  | EvStatus (s : VolunteerStatus)
  | RelayServerReservation (peer : PeerId) (action : string)
  | RelayServerCircuit (source destination : PeerId) (action : string).

Record VolunteerRuntime := mkVolunteer {
  v_inputs : VolunteerInputs;
  v_decision : VolunteerDecision;
  discovery_server_enabled : bool;
  relay_server_enabled : bool;
  upnp_enabled : bool;
  assume_public : bool;
  autonat_status : Reachability;
  confirmed_public_addresses : gset string;
  active_reservations : gset PeerId;
  active_circuits : gmap (PeerId * PeerId) Z;
  v_limits : RelayServerLimits;
}.
Definition volunteer_new (inputs : VolunteerInputs) (decision : VolunteerDecision)
    (discovery relay upnp assume : bool) (limits : RelayServerLimits) : VolunteerRuntime :=
  mkVolunteer inputs decision discovery relay upnp assume ReachUnknown ∅ ∅ ∅ limits.

Definition saturating_u16 (value : Z) : Z := if value <=? u16_max then value else u16_max.
Definition active_circuit_count (self : VolunteerRuntime) : Z := sum_with snd (map_to_list (active_circuits self)).

Definition reachability (self : VolunteerRuntime) : Reachability :=
  if assume_public self
     || match autonat_status self with ReachPublic => true | _ => false end
     || negb (bool_decide (confirmed_public_addresses self = ∅))
  then ReachPublic else autonat_status self.
Definition reachability_evidence (self : VolunteerRuntime) : string :=
  if assume_public self then "dedicated_node"
  else if negb (bool_decide (confirmed_public_addresses self = ∅)) then "confirmed_external_address"
  else match autonat_status self with
       | ReachPublic => "autonat" | ReachPrivate => "autonat_private" | ReachUnknown => "none"
       end.
Definition role (self : VolunteerRuntime) : string :=
  if negb (discovery_server_enabled self) && negb (relay_server_enabled self) then "disabled"
  else match reachability self, discovery_server_enabled self, relay_server_enabled self with
  | ReachPublic, true, true => "active_discovery_relay"
  | ReachPublic, true, false => "active_discovery"
  | _, _, true => "relay_candidate"
  | _, _, _ => "discovery_candidate"
  end.
Definition status (self : VolunteerRuntime) : VolunteerStatus :=
  mkStatus (consent_as_str (vi_consent (v_inputs self))) (network_cost_as_str (vi_network_cost (v_inputs self)))
    (power_source_as_str (vi_power_source (v_inputs self))) (block_reason_as_str (vd_reason (v_decision self)))
    (reachability_as_str (reachability self)) (reachability_evidence self) (role self)
    (discovery_server_enabled self) (relay_server_enabled self) (upnp_enabled self)
    (saturating_u16 (Z.of_nat (size (active_reservations self)))) (saturating_u16 (active_circuit_count self))
    (saturating_u16 (rl_max_reservations (v_limits self))) (saturating_u16 (rl_max_circuits (v_limits self)))
    (rl_max_circuit_duration (v_limits self)) (rl_max_circuit_bytes (v_limits self)).

Definition remember_confirmed_address (address : Multiaddr) (self : VolunteerRuntime) : VolunteerRuntime :=
  if is_public_direct_address address
  then { self with confirmed_public_addresses ::= union {[addr_to_string address]} } else self.
Definition forget_confirmed_address (address : Multiaddr) (self : VolunteerRuntime) : VolunteerRuntime :=
  { self with confirmed_public_addresses ::= λ s, s ∖ {[addr_to_string address]} }.

(** The handlers: the new state, and what is reported. *)
Definition on_autonat (event : AutonatEvent) (self : VolunteerRuntime) : option VolunteerEvent * VolunteerRuntime :=
  match event with
  | StatusChanged new =>
      let self := { self with autonat_status := new } in (Some (EvStatus (status self)), self)
  | OtherAutonat => (None, self)
  end.
Definition on_upnp (event : UpnpEvent) (self : VolunteerRuntime) : VolunteerEvent * VolunteerRuntime :=
  let self := match event with
    | NewExternalAddr a => remember_confirmed_address a self
    | ExpiredExternalAddr a => forget_confirmed_address a self
    | GatewayNotFound | NonRoutableGateway => self
    end in
  (EvStatus (status self), self).
Definition on_external_address_confirmed (address : Multiaddr) (self : VolunteerRuntime) : VolunteerEvent * VolunteerRuntime :=
  let self := remember_confirmed_address address self in (EvStatus (status self), self).
Definition on_external_address_expired (address : Multiaddr) (self : VolunteerRuntime) : VolunteerEvent * VolunteerRuntime :=
  let self := forget_confirmed_address address self in (EvStatus (status self), self).

(** The effect of a relay event on the circuits. *)
Definition open_circuit (key : PeerId * PeerId) (m : gmap (PeerId * PeerId) Z) : gmap (PeerId * PeerId) Z :=
  <[key := default 0 (m !! key) + 1]> m.
Definition close_circuit (key : PeerId * PeerId) (m : gmap (PeerId * PeerId) Z) : gmap (PeerId * PeerId) Z :=
  match m !! key with
  | Some count =>
      let count := u64_saturating_sub count 1 in
      if count =? 0 then delete key m else <[key := count]> m
  | None => m
  end.
(** [on_relay_server]. *)
Definition on_relay_server (event : RelayServerEvent) (self : VolunteerRuntime) : list VolunteerEvent * VolunteerRuntime :=
  let answer (detail : VolunteerEvent) (self : VolunteerRuntime) := ([detail; EvStatus (status self)], self) in
  match event with
  | ReservationReqAccepted src renewed =>
      answer (RelayServerReservation src (if renewed then "renewed" else "accepted"))
        { self with active_reservations ::= union {[src]} }
  | ReservationReqDenied src => answer (RelayServerReservation src "denied") self
  | ReservationClosed src =>
      answer (RelayServerReservation src "closed") { self with active_reservations ::= λ s, s ∖ {[src]} }
  | ReservationTimedOut src =>
      answer (RelayServerReservation src "timed_out") { self with active_reservations ::= λ s, s ∖ {[src]} }
  | CircuitReqAccepted src dst =>
      answer (RelayServerCircuit src dst "accepted") { self with active_circuits ::= open_circuit (src, dst) }
  | CircuitReqDenied src dst => answer (RelayServerCircuit src dst "denied") self
  | CircuitClosed src dst =>
      answer (RelayServerCircuit src dst "closed") { self with active_circuits ::= close_circuit (src, dst) }
  | ReservationFailed src => answer (RelayServerReservation src "failed") self
  | CircuitFailed src dst => answer (RelayServerCircuit src dst "failed") self
  | RelayStatusChanged => ([EvStatus (status self)], self)
  end.
End volunteer.

(** ** What is promised *)

(** A word is accepted exactly when it is the name of a value. *)
Lemma volunteer_words :
  (∀ s c, consent_from_str s = Ok c ↔ s = consent_as_str c)
  ∧ (∀ s c, network_cost_from_str s = Ok c ↔ s = network_cost_as_str c)
  ∧ (∀ s p, power_source_from_str s = Ok p ↔ s = power_source_as_str p).
Proof.
  split_and!; intros s x; unfold consent_from_str, network_cost_from_str, power_source_from_str;
    (split; [|by intros ->; destruct x]);
    repeat (match goal with |- context [String.eqb s ?w] => destruct (String.eqb_spec s w); [by intros [= <-]|] end); done.
Qed.

(** Nothing is served without consent, on a metered network or on battery;
    traffic is relayed only when the conditions are known to be good. *)
Lemma volunteer_policy i :
  (enable_discovery_server (evaluate i) = true ↔
     vi_consent i = Granted ∧ vi_network_cost i ≠ Metered ∧ vi_power_source i ≠ Battery)
  ∧ (enable_relay_server (evaluate i) = true ↔
       vi_consent i = Granted ∧ vi_network_cost i = Unmetered ∧ vi_power_source i = Ac)
  ∧ enable_upnp (evaluate i) = enable_discovery_server (evaluate i)
  ∧ (vd_reason (evaluate i) = Eligible ↔ enable_relay_server (evaluate i) = true).
Proof. destruct i as [[] [] []]; cbn; naive_solver. Qed.

Section accounts.
Context `{MultiaddrText}.

(** The circuits of a pair of peers and the reservation of a peer, counted
    from the events alone. *)
Definition circuits_after (key : PeerId * PeerId) (n : Z) (e : RelayServerEvent) : Z :=
  match e with
  | CircuitReqAccepted src dst => if bool_decide ((src, dst) = key) then n + 1 else n
  | CircuitClosed src dst => if bool_decide ((src, dst) = key) then Z.max 0 (n - 1) else n
  | _ => n
  end.
Definition reserved_after (p : PeerId) (b : bool) (e : RelayServerEvent) : bool :=
  match e with
  | ReservationReqAccepted src _ => bool_decide (src = p) || b
  | ReservationClosed src | ReservationTimedOut src => negb (bool_decide (src = p)) && b
  | _ => b
  end.
Definition relay_runs (v : VolunteerRuntime) (es : list RelayServerEvent) : VolunteerRuntime :=
  foldl (λ v e, (on_relay_server e v).2) v es.
Definition positive (m : gmap (PeerId * PeerId) Z) : Prop := ∀ k n, m !! k = Some n → 0 < n.

Lemma open_circuit_spec key m : positive m →
  positive (open_circuit key m)
  ∧ ∀ k, default 0 (open_circuit key m !! k) = if bool_decide (key = k) then default 0 (m !! k) + 1 else default 0 (m !! k).
Proof.
  intros Hp. unfold open_circuit. split.
  - intros k n [[<- <-]|[_ Hk]]%lookup_insert_Some; [|by eapply Hp].
    destruct (m !! key) as [n|] eqn:E; cbn; [|lia]. specialize (Hp _ _ E). lia.
  - intros k. case_bool_decide as Hk; [subst; by rewrite lookup_insert_eq|by rewrite lookup_insert_ne].
Qed.
Lemma close_circuit_spec key m : positive m →
  positive (close_circuit key m)
  ∧ ∀ k, default 0 (close_circuit key m !! k)
         = if bool_decide (key = k) then Z.max 0 (default 0 (m !! k) - 1) else default 0 (m !! k).
Proof.
  intros Hp. unfold close_circuit, u64_saturating_sub. destruct (m !! key) as [n|] eqn:E.
  2: { split; [done|]. intros k. case_bool_decide; [subst; by rewrite E|done]. }
  specialize (Hp key n E) as Hn. destruct (Z.max 0 (n - 1) =? 0) eqn:E0; bool_props; split.
  - intros k x [_ Hk]%lookup_delete_Some. by eapply Hp.
  - intros k. case_bool_decide; [subst; rewrite lookup_delete_eq, E; cbn; lia|by rewrite lookup_delete_ne].
  - intros k x [[<- <-]|[_ Hk]]%lookup_insert_Some; [lia|by eapply Hp].
  - intros k. case_bool_decide; [subst; by rewrite lookup_insert_eq, E|by rewrite lookup_insert_ne].
Qed.

(** The runtime's books agree with the events: for every pair of peers the
    number of circuits is what the events say (a close without an open is
    ignored), no pair is kept with none, a peer has a reservation exactly when
    its last event says so, and reachability is not touched. *)
Lemma relay_accounts (v : VolunteerRuntime) es :
  positive (active_circuits v) →
  positive (active_circuits (relay_runs v es))
  ∧ (∀ k, default 0 (active_circuits (relay_runs v es) !! k) = foldl (circuits_after k) (default 0 (active_circuits v !! k)) es)
  ∧ (∀ p, bool_decide (p ∈ active_reservations (relay_runs v es))
          = foldl (reserved_after p) (bool_decide (p ∈ active_reservations v)) es)
  ∧ reachability (relay_runs v es) = reachability v.
Proof.
  revert v. induction es as [|e es IH]; intros v Hp; [done|]. cbn [relay_runs foldl].
  assert (positive (active_circuits (on_relay_server e v).2)
    ∧ (∀ k, default 0 (active_circuits (on_relay_server e v).2 !! k) = circuits_after k (default 0 (active_circuits v !! k)) e)
    ∧ (∀ p, bool_decide (p ∈ active_reservations (on_relay_server e v).2)
            = reserved_after p (bool_decide (p ∈ active_reservations v)) e)
    ∧ reachability (on_relay_server e v).2 = reachability v) as (Hp' & Hc & Hr & Hreach).
  { destruct v. destruct e; cbn in *; try done; split_and!; try done;
      try (by apply open_circuit_spec); try (by apply close_circuit_spec);
      intros p; repeat case_bool_decide; set_solver. }
  destruct (IH _ Hp') as (IH1 & IH2 & IH3 & IH4). split_and!; [done| | |].
  - intros k. rewrite <-Hc. apply IH2.
  - intros p. rewrite <-Hr. apply IH3.
  - rewrite <-Hreach. exact IH4.
Qed.
End accounts.
