(* ===== verification/Discovery.v ===== *)
(** * Discovery: finding peers and relays (token-holdem-sidecar discovery_runtime.rs, relay_runtime.rs)

    [DiscoveryRuntime] registers at the rendezvous nodes it knows and asks them
    for peers; [RelayRuntime] keeps reservations at a few relays.  What nodes
    answer is not trusted: it is bounded, filtered and normalized.  The swarm,
    its rendezvous client and listeners are operations on the abstract world;
    times are nanoseconds of a monotonic clock. *)

From coqutil Require Import Datatypes.RecordSetters.
From S2P Require Import Prelude Machine Encoding Order Ids Identity Session NetworkAddress Volunteer.
From S2P Require Import SessionState ArchiveNode Swarm.
Import OCamlLikeNotations.

Definition MAX_RENDEZVOUS_NODES : Z := 8.
Definition MAX_DISCOVERED_PEERS : Z := 256.
Definition MAX_ADDRESSES_PER_PEER : nat := 8.
Definition DISCOVERY_INTERVAL : Z := seconds 20.
Definition RECONNECT_INTERVAL : Z := seconds 10.
Definition RENDEZVOUS_REGISTRATION_TTL_SECONDS : Z := 120.
Definition MAX_RELAY_NODES : Z := 4.
Definition RESERVATION_RETRY_INTERVAL : Z := seconds 10.

(** The rendezvous client, the routing table and the listeners of the swarm. *)
Class Rendezvous `{World} := {
  Namespace : Type;
  Namespace_eq_dec :: EqDecision Namespace;
  namespace_new : list Z → option Namespace;
  Cookie : Type;
  ListenerId : Type;
  rendezvous_discover : Namespace → option Cookie → Z → PeerId → world → world;
  rendezvous_register : Namespace → PeerId → Z → world → bool * world;
  kad_add_address : PeerId → Multiaddr → world → world;
  kad_bootstrap : world → world;
  swarm_add_external_address : Multiaddr → world → world;
  listen_on : Multiaddr → world → option ListenerId * world;
  remove_listener : ListenerId → world → world;
  (** the last instant of the platform's clock *)
  instant_max : Z;
}.

Inductive DiscoveryError :=
  | NodeCount | NamespaceInvalid | NamespaceTooLong | NodeAddressInvalid (raw : string) | NodeAddressNoPeer (raw : string)
  | AddressOfOtherPeer | AddressMalformed | AddressNotPublishable
  | RelayAddressInvalid | RelayAddressNoPeer | RelayIsSelf | TooManyRelays | ReservationRefused.

(** ** Addresses *)
Section addresses.
Context `{Libp2p}.
Definition is_p2p (protocol : Protocol PeerId) : bool := match protocol with P2p _ => true | _ => false end.
(** [peer_id_from_address]: the first one. *)
Definition peer_id_from_address (address : Multiaddr) : option PeerId := head (omap p2p_peer address).
(** [Multiaddr::pop]. *)
Definition addr_pop (address : Multiaddr) : Multiaddr := take (length address - 1) address.
(** [normalized_peer_address], [peer_service_address], [direct_dial_address]. *)
Definition without_peer (address : Multiaddr) (expected_peer_id : PeerId) : option Multiaddr :=
  match last address with
  | Some (P2p peer_id) => if bool_decide (peer_id = expected_peer_id) then Some (addr_pop address) else None
  | _ => Some address
  end.
Definition normalized_peer_address (address : Multiaddr) (expected_peer_id : PeerId) : option Multiaddr :=
  address ← without_peer address expected_peer_id;
  if (length address =? 0)%nat then None else Some address.
Definition with_peer_id (address : Multiaddr) (peer_id : PeerId) : option Multiaddr :=
  if existsb is_circuit address then None else
  match last address with
  | Some (P2p found) => if bool_decide (found = peer_id) then Some address else None
  | _ => Some (address ++ [P2p peer_id])
  end.
Definition peer_service_address (address : Multiaddr) (expected_peer_id : PeerId) : option Multiaddr :=
  address ← with_peer_id address expected_peer_id;
  if is_public_direct_address address then Some address else None.
Definition direct_dial_address (address : Multiaddr) (expected_peer_id : PeerId) : option Multiaddr :=
  address ← without_peer address expected_peer_id;
  if is_public_direct_address address then Some address else None.
End addresses.

(** [normalize_namespace]. *)
Definition ascii_lowercase (b : Z) : Z := if (65 <=? b) && (b <=? 90) then b + 32 else b.
Definition is_ascii_alphanumeric (b : Z) : bool :=
  ((48 <=? b) && (b <=? 57)) || ((65 <=? b) && (b <=? 90)) || ((97 <=? b) && (b <=? 122)).
Definition normalize_namespace (value : string) : result DiscoveryError (list Z) :=
  let normalized := map ascii_lowercase (trim (string_bytes value)) in
  reject_if ((length normalized =? 0)%nat || (64 <? length normalized)%nat
    || negb (forallb (λ b, is_ascii_alphanumeric b || (b =? 45) || (b =? 95) || (b =? 47)) normalized)) NamespaceInvalid;;
  mret normalized.

Section discovery.
Context `{Rendezvous, !MultiaddrText}.

Record RendezvousNode := mkNode {
  rn_address : Multiaddr;
  rn_namespace : Namespace;
  rn_cookie : option Cookie;
  last_discovery : option Z;
  registration_pending : bool;
  register_again_at : option Z;
  last_dial_attempt : option Z;
}.
Definition new_node (address : Multiaddr) (namespace : Namespace) : RendezvousNode :=
  mkNode address namespace None None false None None.
Record DiscoveryRuntime := mkDiscovery {
  nodes : gmap PeerId RendezvousNode;
  discovered_peers : gset PeerId;
  disc_namespace : option Namespace;
}.
Definition discovery_default : DiscoveryRuntime := mkDiscovery ∅ ∅ None.

Inductive DiscoveryEvent :=
  | DiscoveryConfigured (configured : list PeerId) (namespace : Namespace)
  | AdvertisedAddressAdded (address : Multiaddr)
  | RendezvousRegistered (node : PeerId) (address : option Multiaddr) (namespace : Namespace) (ttl_seconds : Z)
  | RendezvousCandidateAdded (node : PeerId) (address : Multiaddr)
  | PeersDiscovered (node : PeerId) (peers : Z)
  | DiscoveryWarning (node : PeerId).

Notation DiscM := (M (DiscoveryRuntime * world) DiscoveryError).
Definition the_discovery : DiscM DiscoveryRuntime := gets fst.
Definition set_discovery (f : DiscoveryRuntime → DiscoveryRuntime) : DiscM unit := modify (λ s, (f s.1, s.2)).
Definition set_node (peer : PeerId) (f : RendezvousNode → RendezvousNode) : DiscM unit :=
  set_discovery (λ r, { r with nodes ::= alter f peer }).
Definition disc_net {A} (f : world → A) : DiscM A := gets (λ s, f s.2).
Definition disc_do (f : world → world) : DiscM unit := modify (λ s, (s.1, f s.2)).
Definition disc_call {A} (f : world → A * world) : DiscM A :=
  λ s, let '(a, w) := f s.2 in (Ok a, (s.1, w)).

(** [request_discovery], [try_register], [register_all], [try_dial]. *)
Definition request_discovery (now : Z) (peer : PeerId) : DiscM unit :=
  r ← the_discovery;
  match nodes r !! peer with
  | None => mret tt
  | Some node =>
      disc_do (rendezvous_discover (rn_namespace node) (rn_cookie node) MAX_DISCOVERED_PEERS peer);;
      set_node peer (λ n, { n with last_discovery := Some now })
  end.
Definition try_register (peer : PeerId) : DiscM unit :=
  r ← the_discovery;
  match nodes r !! peer with
  | None => mret tt
  | Some node =>
      if registration_pending node then mret tt
      else
        registered ← disc_call (rendezvous_register (rn_namespace node) peer RENDEZVOUS_REGISTRATION_TTL_SECONDS);
        if (registered : bool) then set_node peer (λ n, { n with registration_pending := true }) else mret tt
  end.
Definition if_connected (f : PeerId → DiscM unit) (peer : PeerId) : DiscM unit :=
  connected ← disc_net (λ w, is_connected w peer);
  if (connected : bool) then f peer else mret tt.
Definition node_keys (r : DiscoveryRuntime) : list PeerId := map fst (btree_entries (nodes r)).
Definition register_all : DiscM unit :=
  r ← the_discovery; for_each (if_connected try_register) (node_keys r).
Definition try_dial (now : Z) (peer : PeerId) : DiscM unit :=
  r ← the_discovery;
  match nodes r !! peer with
  | None => mret tt
  | Some node =>
      set_node peer (λ n, { n with last_dial_attempt := Some now });;
      match direct_dial_address (rn_address node) peer with
      | None => mret tt
      | Some address => _ ← disc_call (dial peer [address]); mret tt
      end
  end.
Definition discover_and_register (now : Z) (peer : PeerId) : DiscM unit :=
  request_discovery now peer;; try_register peer.

(** [configure]: the namespace and the discovered peers are replaced before
    the addresses are read. *)
Definition parse_node (parsed : gmap PeerId Multiaddr) (raw : string) : result DiscoveryError (gmap PeerId Multiaddr) :=
  address ← ok_or (addr_from_str raw) (NodeAddressInvalid raw);
  peer ← ok_or (peer_id_from_address address) (NodeAddressNoPeer raw);
  mret (match parsed !! peer with Some _ => parsed | None => <[peer := address]> parsed end).
Definition add_node (now : Z) (namespace : Namespace) (entry : PeerId * Multiaddr) : DiscM unit :=
  let '(peer, address) := entry in
  disc_do (kad_add_address peer address);;
  set_discovery (λ r, { r with nodes ::= <[peer := new_node address namespace]> });;
  connected ← disc_net (λ w, is_connected w peer);
  if (connected : bool) then mret tt else try_dial now peer.
Definition configure (now : Z) (addresses : list string) (namespace : string) : DiscM (list DiscoveryEvent) :=
  lift (reject_if ((length addresses =? 0)%nat || (MAX_RENDEZVOUS_NODES <? Z.of_nat (length addresses))) NodeCount);;
  normalized ← lift (normalize_namespace namespace);
  namespace ← lift (ok_or (namespace_new normalized) NamespaceTooLong);
  set_discovery (λ r, { r with disc_namespace := Some namespace });;
  r ← the_discovery;
  for_each (λ peer, disc_do (remove_explicit_peer peer)) (btree_iter (discovered_peers r));;
  set_discovery (λ r, { r with discovered_peers := ∅ });;
  parsed ← lift (try_fold parse_node ∅ addresses);
  set_discovery (λ r, { r with nodes := ∅ });;
  for_each (add_node now namespace) (btree_entries parsed);;
  disc_do kad_bootstrap;;
  for_each (if_connected (discover_and_register now)) (map fst (btree_entries parsed));;
  mret [DiscoveryConfigured (map fst (btree_entries parsed)) namespace].

(** [observe_rendezvous_service]. *)
Definition observe_rendezvous_service (now : Z) (peer : PeerId) (addresses : list Multiaddr) : DiscM (list DiscoveryEvent) :=
  local ← disc_net local_peer_id;
  r ← the_discovery;
  if bool_decide (peer = local) || bool_decide (is_Some (nodes r !! peer))
     || (MAX_RENDEZVOUS_NODES <=? Z.of_nat (size (nodes r))) then mret []
  else match disc_namespace r with
  | None => mret []
  | Some namespace =>
  match head (omap (λ a, peer_service_address a peer) (take MAX_ADDRESSES_PER_PEER addresses)) with
  | None => mret []
  | Some address =>
      disc_do (kad_add_address peer address);;
      set_discovery (λ r, { r with nodes ::= <[peer := new_node address namespace]> });;
      if_connected (discover_and_register now) peer;;
      mret [RendezvousCandidateAdded peer address]
  end end.

(** [add_external_address]. *)
Definition add_external_address (address : Multiaddr) : DiscM (list DiscoveryEvent) :=
  local ← disc_net local_peer_id;
  address ← lift (match last address with
    | Some (P2p peer) => if bool_decide (peer = local) then Ok (addr_pop address) else Err AddressOfOtherPeer
    | _ => Ok address
    end);
  lift (reject_if ((length address =? 0)%nat || existsb is_p2p address) AddressMalformed);;
  lift (reject_if (negb (is_publishable_address address)) AddressNotPublishable);;
  disc_do (swarm_add_external_address address);;
  register_all;;
  mret [AdvertisedAddressAdded address].

(** [on_connected], [on_external_address_confirmed], [is_configured_node],
    [forget_unreachable_peer], [on_disconnected]. *)
Definition discovery_on_connected (now : Z) (peer : PeerId) : DiscM unit :=
  r ← the_discovery;
  (if bool_decide (is_Some (nodes r !! peer)) then discover_and_register now peer else mret tt);;
  local ← disc_net local_peer_id;
  if bool_decide (peer ∈ discovered_peers r) && should_initiate_peer_dial local peer
  then disc_do (add_explicit_peer peer) else mret tt.
Definition discovery_address_confirmed : DiscM unit := register_all.
Definition is_configured_node (r : DiscoveryRuntime) (peer : PeerId) : bool := bool_decide (is_Some (nodes r !! peer)).
Definition forget_unreachable_peer (peer : PeerId) : DiscM bool :=
  r ← the_discovery;
  if bool_decide (peer ∈ discovered_peers r) then
    set_discovery (λ r, { r with discovered_peers ::= λ s, s ∖ {[peer]} });;
    disc_do (remove_explicit_peer peer);;
    mret true
  else mret false.
Definition discovery_on_disconnected (peer : PeerId) : DiscM unit :=
  set_node peer (λ n, { n with registration_pending := false; register_again_at := None }).

(** [tick]. *)
Definition none_or_since (last : option Z) (now interval : Z) : bool :=
  match last with None => true | Some last => interval <=? since now last end.
Definition due_nodes (p : RendezvousNode → bool) (connected : bool) : DiscM (list PeerId) :=
  r ← the_discovery;
  disc_net (λ w, map fst (filter (λ e, p e.2 && bool_decide (is_connected w e.1 = connected)) (btree_entries (nodes r)))).
Definition discovery_tick (now : Z) : DiscM unit :=
  reconnect ← due_nodes (λ n, none_or_since (last_dial_attempt n) now RECONNECT_INTERVAL) false;
  for_each (try_dial now) reconnect;;
  due ← due_nodes (λ n, none_or_since (last_discovery n) now DISCOVERY_INTERVAL) true;
  for_each (request_discovery now) due;;
  registrations ← due_nodes (λ n, negb (registration_pending n)
    && match register_again_at n with None => true | Some deadline => deadline <=? now end) true;
  for_each try_register registrations.

(** [Instant + Duration] panics when the sum is not representable. *)
Definition instant_add (now duration : Z) : result DiscoveryError Z :=
  if now + duration <=? instant_max then Ok (now + duration) else Panic.

(** [handle_event]: the events of the rendezvous client. *)
Record Registration := mkRegistration {
  rg_namespace : Namespace;
  rg_peer : PeerId;
  rg_addresses : list Multiaddr;
}.
Inductive RendezvousEvent :=
  | Discovered (node : PeerId) (registrations : list Registration) (cookie : Cookie)
  | DiscoverFailed (node : PeerId)
  | Registered (node : PeerId) (ttl : Z) (namespace : Namespace)
  | RegisterFailed (node : PeerId)
  | Expired (peer : PeerId).

Definition registration_addresses (reg : Registration) : list Multiaddr :=
  filter is_publishable_address
    (omap (λ a, normalized_peer_address a (rg_peer reg)) (take MAX_ADDRESSES_PER_PEER (rg_addresses reg))).
(** One registration of the loop; the count is a [u16]. *)
Definition take_registration (expected : Namespace) (node : PeerId) (count : Z) (reg : Registration) : DiscM Z :=
  local ← disc_net local_peer_id;
  r ← the_discovery;
  let peer := rg_peer reg in
  let addresses := registration_addresses reg in
  if negb (bool_decide (rg_namespace reg = expected)) || bool_decide (peer = local) || bool_decide (peer = node)
     || (length addresses =? 0)%nat
     || (negb (bool_decide (peer ∈ discovered_peers r)) && (MAX_DISCOVERED_PEERS <=? Z.of_nat (size (discovered_peers r))))
  then mret count
  else
    for_each (λ a, disc_do (kad_add_address peer a)) addresses;;
    let should_dial := should_initiate_peer_dial local peer in
    connected ← disc_net (λ w, is_connected w peer);
    (if connected && should_dial then disc_do (add_explicit_peer peer)
     else if (should_dial : bool) then _ ← disc_call (dial peer addresses); mret tt
     else mret tt);;
    set_discovery (λ r, { r with discovered_peers ::= union {[peer]} });;
    mret (u16_saturating_add count 1).
Fixpoint take_registrations (expected : Namespace) (node : PeerId) (count : Z) (l : list Registration) : DiscM Z :=
  match l with
  | [] => mret count
  | reg :: l => count ← take_registration expected node count reg; take_registrations expected node count l
  end.
Definition discovery_handle_event (now : Z) (event : RendezvousEvent) : DiscM (list DiscoveryEvent) :=
  match event with
  | Discovered node registrations cookie =>
      r ← the_discovery;
      match nodes r !! node with
      | None => mret [DiscoveryWarning node]
      | Some known =>
          set_node node (λ n, { n with rn_cookie := Some cookie; last_discovery := Some now });;
          count ← take_registrations (rn_namespace known) node 0 (take (Z.to_nat MAX_DISCOVERED_PEERS) registrations);
          mret [PeersDiscovered node count]
      end
  | DiscoverFailed node =>
      set_node node (λ n, { n with rn_cookie := None; last_discovery := None });;
      mret [DiscoveryWarning node]
  | Registered node ttl namespace =>
      r ← the_discovery;
      match nodes r !! node with
      | Some known =>
          again ← lift (instant_add now (seconds (Z.max (ttl / 2) 30)));
          set_node node (λ n, { n with registration_pending := false; register_again_at := Some again });;
          mret [RendezvousRegistered node (Some (rn_address known)) namespace ttl]
      | None => mret [RendezvousRegistered node None namespace ttl]
      end
  | RegisterFailed node =>
      r ← the_discovery;
      match nodes r !! node with
      | Some _ =>
          again ← lift (instant_add now (seconds 60));
          set_node node (λ n, { n with registration_pending := false; register_again_at := Some again })
      | None => mret tt
      end;;
      mret [DiscoveryWarning node]
  | Expired peer =>
      set_discovery (λ r, { r with discovered_peers ::= λ s, s ∖ {[peer]} });;
      disc_do (remove_explicit_peer peer);;
      mret []
  end.
End discovery.

(** ** Reservations at circuit relays (relay_runtime.rs)

    At most four relays are used; a relay whose reservation has not been
    accepted is asked again every ten seconds, on a fresh listener. *)

Inductive RelaySource := Explicit | Identify.

Section relay.
Context `{Rendezvous, !MultiaddrText}.

Record RelayCandidate := mkCandidate {
  rc_address : Multiaddr;
  listener_id : option ListenerId;
  reservation_requested_at : Z;
  reservation_accepted : bool;
}.
Notation RelayRuntime := (gmap PeerId RelayCandidate).

Inductive RelayEvent :=
  | CandidateAdded (peer : PeerId) (address : Multiaddr) (source : RelaySource)
  | ReservationRequested (peer : PeerId) (address : Multiaddr)
  | ReservationAccepted (peer : PeerId) (address : option Multiaddr) (renewal : bool) (duration data : option Z)
  | CircuitEstablished (peer : PeerId) (inbound : bool) (duration data : option Z)
  | RelayWarning.

Notation RelayM := (M (RelayRuntime * world) DiscoveryError).
Definition the_relays : RelayM RelayRuntime := gets fst.
Definition set_relays (f : RelayRuntime → RelayRuntime) : RelayM unit :=
  modify (λ s, (f s.1, s.2)).
Definition relay_call {A} (f : world → A * world) : RelayM A :=
  λ s, let '(a, w) := f s.2 in (Ok a, (s.1, w)).

(** [request_reservation]: listen on the address through the relay. *)
Definition request_reservation (address : Multiaddr) : RelayM (option ListenerId) :=
  relay_call (listen_on (address ++ [P2pCircuit])).

(** [add_candidate], [add_explicit], [observe_identified]. *)
Definition add_candidate (now : Z) (peer : PeerId) (address : Multiaddr) (source : RelaySource) : RelayM (list RelayEvent) :=
  local ← gets (λ s, local_peer_id s.2);
  lift (reject_if (bool_decide (peer = local)) RelayIsSelf);;
  relays ← the_relays;
  match relays !! peer with
  | Some _ => mret []
  | None =>
      lift (reject_if (MAX_RELAY_NODES <=? Z.of_nat (size relays)) TooManyRelays);;
      listener ← request_reservation address;
      listener ← lift (ok_or listener ReservationRefused);
      set_relays (<[peer := mkCandidate address (Some listener) now false]>);;
      mret [CandidateAdded peer address source; ReservationRequested peer address]
  end.
Definition add_explicit (now : Z) (raw : string) : RelayM (list RelayEvent) :=
  address ← lift (ok_or (addr_from_str raw) RelayAddressInvalid);
  peer ← lift (ok_or (peer_id_from_address address) RelayAddressNoPeer);
  add_candidate now peer address Explicit.
Definition observe_identified (now : Z) (peer : PeerId) (addresses : list Multiaddr) : RelayM (list RelayEvent) :=
  relays ← the_relays;
  if bool_decide (is_Some (relays !! peer)) || (MAX_RELAY_NODES <=? Z.of_nat (size relays)) then mret []
  else match find_first is_public_direct_address
               (omap (λ a, with_peer_id a peer) (take MAX_ADDRESSES_PER_PEER addresses)) with
  | None => mret []
  | Some address => add_candidate now peer address Identify
  end.

(** [handle_client_event]; a limit is its duration in seconds and its bytes. *)
Definition Limit : Type := option (option Z * option Z).
Inductive RelayClientEvent :=
  | ClientReservationAccepted (relay : PeerId) (renewal : bool) (limit : Limit)
  | OutboundCircuit (relay : PeerId) (limit : Limit)
  | InboundCircuit (src : PeerId) (limit : Limit).
Definition limit_duration (l : Limit) : option Z := l ≫= fst.
Definition limit_data (l : Limit) : option Z := l ≫= snd.
Definition accept_reservation (c : RelayCandidate) : RelayCandidate := { c with reservation_accepted := true }.
Definition handle_client_event (event : RelayClientEvent) : RelayM RelayEvent :=
  match event with
  | ClientReservationAccepted relay renewal limit =>
      relays ← the_relays;
      set_relays (alter accept_reservation relay);;
      mret (ReservationAccepted relay (rc_address <$> relays !! relay) renewal (limit_duration limit) (limit_data limit))
  | OutboundCircuit relay limit => mret (CircuitEstablished relay false (limit_duration limit) (limit_data limit))
  | InboundCircuit src limit => mret (CircuitEstablished src true (limit_duration limit) (limit_data limit))
  end.

(** [on_disconnected], [on_dial_failure], [is_candidate]. *)
Definition relay_on_disconnected (peer : PeerId) : RelayM unit :=
  set_relays (alter (λ c, { c with reservation_accepted := false }) peer).
Definition relay_on_dial_failure (peer : PeerId) : RelayM unit := relay_on_disconnected peer.
Definition is_candidate (relays : RelayRuntime) (peer : PeerId) : bool := bool_decide (is_Some (relays !! peer)).

(** [tick]. *)
Definition relay_due (now : Z) (c : RelayCandidate) : bool :=
  negb (reservation_accepted c) && (RESERVATION_RETRY_INTERVAL <=? since now (reservation_requested_at c)).
Definition retry_reservation (now : Z) (peer : PeerId) : RelayM (list RelayEvent) :=
  relays ← the_relays;
  match relays !! peer with
  | None => mret []
  | Some candidate =>
      match listener_id candidate with
      | Some l => modify (λ s, (s.1, remove_listener l s.2))
      | None => mret tt
      end;;
      set_relays (<[peer := { candidate with listener_id := None; reservation_requested_at := now }]>);;
      listener ← request_reservation (rc_address candidate);
      match listener with
      | Some l =>
          set_relays (alter (λ c, { c with listener_id := Some l }) peer);;
          mret [ReservationRequested peer (rc_address candidate)]
      | None => mret [RelayWarning]
      end
  end.
Fixpoint retry_reservations (now : Z) (due : list PeerId) : RelayM (list RelayEvent) :=
  match due with
  | [] => mret []
  | peer :: due =>
      first ← retry_reservation now peer;
      rest ← retry_reservations now due;
      mret (first ++ rest)
  end.
Definition relay_tick (now : Z) : RelayM (list RelayEvent) :=
  relays ← the_relays;
  retry_reservations now (map fst (filter (λ e, relay_due now e.2) (btree_entries relays))).
End relay.
