(* ===== verification/DiscoverySpec.v ===== *)
(** * DiscoverySpec: bounds on what the network can make a host remember

    [discovery_step] and [relay_step] are the handlers of the two runtimes
    under arbitrary answers of nodes and changes of the swarm. *)

From coqutil Require Import Datatypes.RecordSetters.
From S2P Require Import Prelude Machine Encoding Order Ids Identity Session NetworkAddress Volunteer.
From S2P Require Import SessionState ArchiveNode Swarm Discovery.
Import OCamlLikeNotations.

(** The calls of the discovery runtime keep the peer id, and do not by
    themselves open or close a connection (that happens when the swarm is
    polled). *)
Class RendezvousLaws `{Rendezvous} : Prop := {
  rz_world :: WorldLaws;
  rz_discover : ∀ n c m p w, local_peer_id (rendezvous_discover n c m p w) = local_peer_id w;
  rz_register : ∀ n p t w, local_peer_id (rendezvous_register n p t w).2 = local_peer_id w;
  rz_kad_add : ∀ p a w, local_peer_id (kad_add_address p a w) = local_peer_id w;
  rz_kad_bootstrap : ∀ w, local_peer_id (kad_bootstrap w) = local_peer_id w;
  rz_external : ∀ a w, local_peer_id (swarm_add_external_address a w) = local_peer_id w;
  rz_listen : ∀ a w, local_peer_id (listen_on a w).2 = local_peer_id w;
  rz_remove : ∀ l w, local_peer_id (remove_listener l w) = local_peer_id w;
  rz_dial_connected : ∀ p l w, is_connected (dial p l w).2 = is_connected w;
  rz_discover_connected : ∀ n c m p w, is_connected (rendezvous_discover n c m p w) = is_connected w;
  rz_register_connected : ∀ n p t w, is_connected (rendezvous_register n p t w).2 = is_connected w;
}.

(** An invariant, as a relation between the states of a run. *)
Definition keeping {S} (I : S → Prop) : relation S := λ s s', I s → I s'.
#[export] Instance keeping_preorder {S} (I : S → Prop) : PreOrder (keeping I).
Proof. split; [by intros s HI|]. intros s1 s2 s3 H12 H23 HI. auto. Qed.

Section runs.
Context {S E : Type} (R : relation S) `{!PreOrder R}.
Lemma steps_lift_bind {A B} (r : result E A) (f : A → M S E B) :
  (∀ v, r = Ok v → steps R (f v)) → steps R (lift r ≫= f).
Proof. intros Hf s. rewrite run_lift. destruct r as [v| |]; [by apply (Hf v)|done..]. Qed.
Lemma steps_for_each_in {A} (f : A → M S E unit) l : (∀ v, v ∈ l → steps R (f v)) → steps R (for_each f l).
Proof.
  induction l as [|v l IH]; intros Hf; cbn [for_each]; [by apply steps_ret|].
  apply steps_bind; [done|apply Hf; set_solver|]. intros _. apply IH. set_solver.
Qed.
End runs.

Section discovery.
Context `{RendezvousLaws, !MultiaddrText}.
Notation DiscM := (M (DiscoveryRuntime * world) DiscoveryError).
Notation DState := (DiscoveryRuntime * world)%type.

(** ** Bounds *)
Definition disc_inv (s : DState) : Prop :=
  Z.of_nat (size (nodes s.1)) <= MAX_RENDEZVOUS_NODES
  ∧ Z.of_nat (size (discovered_peers s.1)) <= MAX_DISCOVERED_PEERS
  ∧ local_peer_id s.2 ∉ discovered_peers s.1.
(** A run that adds no node and no peer, at most marks nodes. *)
Definition marks (s s' : DState) : Prop :=
  dom (nodes s'.1) = dom (nodes s.1) ∧ discovered_peers s'.1 = discovered_peers s.1
  ∧ disc_namespace s'.1 = disc_namespace s.1 ∧ local_peer_id s'.2 = local_peer_id s.2.
#[local] Instance marks_preorder : PreOrder marks.
Proof.
  split; [by intros s; unfold marks; split_and!|].
  intros s1 s2 s3 (? & ? & ? & ?) (? & ? & ? & ?). unfold marks. split_and!; congruence.
Qed.
Lemma marks_keeping s s' : marks s s' → keeping disc_inv s s'.
Proof.
  intros (Hn & Hd & _ & Hl) (Hi1 & Hi2 & Hi3). unfold disc_inv. rewrite Hd, Hl. split_and!; [|done|done].
  by rewrite <-size_dom, Hn, size_dom.
Qed.

Ltac run_steps :=
  repeat lazymatch goal with
  | |- steps _ (_ ≫= _) => apply steps_bind; [apply _| |intros ?]
  | |- steps _ (mret _) => apply steps_ret; apply _
  | |- steps _ (lift _) => apply steps_lift; apply _
  | |- steps _ (gets _) => apply steps_gets; apply _
  | |- steps _ the_discovery => apply steps_gets; apply _
  | |- steps _ (disc_net _) => apply steps_gets; apply _
  | |- steps _ (for_each _ _) => apply steps_for_each; [apply _|intros ?]
  end.
Lemma set_node_marks peer f : steps marks (set_node peer f).
Proof. intros [r w]. unfold set_node, set_discovery, modify, marks. destruct r. cbn. split_and!; [|done..]. apply dom_alter_L. Qed.
Lemma disc_do_marks f : (∀ w, local_peer_id (f w) = local_peer_id w) → steps marks (disc_do f).
Proof. intros Hf [r w]. unfold marks. cbn. split_and!; [done..|apply Hf]. Qed.
Lemma disc_call_marks {A} (f : world → A * world) : (∀ w, local_peer_id (f w).2 = local_peer_id w) → steps marks (disc_call f).
Proof. intros Hf [r w]. unfold disc_call. specialize (Hf w). cbn. destruct (f w). unfold marks. cbn in *. by split_and!. Qed.
Lemma request_discovery_marks now p : steps marks (request_discovery now p).
Proof.
  unfold request_discovery. run_steps. case_match; run_steps; [apply disc_do_marks; intros; apply rz_discover|apply set_node_marks].
Qed.
Lemma try_register_marks p : steps marks (try_register p).
Proof.
  unfold try_register. run_steps. case_match; run_steps. case_match; run_steps; [apply disc_call_marks; intros; apply rz_register|].
  case_match; run_steps. apply set_node_marks.
Qed.
Lemma try_dial_marks now p : steps marks (try_dial now p).
Proof.
  unfold try_dial. run_steps. case_match; run_steps; [apply set_node_marks|].
  case_match; run_steps. apply disc_call_marks. intros. apply peer_dial.
Qed.
Lemma if_connected_marks f p : (∀ q, steps marks (f q)) → steps marks (if_connected f p).
Proof. intros Hf. unfold if_connected. run_steps. case_match; [apply Hf|run_steps]. Qed.
Lemma discover_and_register_marks now p : steps marks (discover_and_register now p).
Proof. unfold discover_and_register. run_steps; [apply request_discovery_marks|apply try_register_marks]. Qed.
Lemma register_all_marks : steps marks register_all.
Proof. unfold register_all. run_steps. apply if_connected_marks, try_register_marks. Qed.
Lemma discovery_tick_marks now : steps marks (discovery_tick now).
Proof.
  unfold discovery_tick, due_nodes. run_steps; [apply try_dial_marks|apply request_discovery_marks|apply try_register_marks].
Qed.
Lemma steps_marks_keep {A} (m : DiscM A) : steps marks m → steps (keeping disc_inv) m.
Proof. intros Hm s. apply marks_keeping, Hm. Qed.

(** ** The handlers that add *)
Definition within (parsed : gmap PeerId Multiaddr) (s : DState) : Prop :=
  dom (nodes s.1) ⊆ dom parsed ∧ discovered_peers s.1 = ∅.
Lemma within_inv parsed s : Z.of_nat (size parsed) <= MAX_RENDEZVOUS_NODES → within parsed s → disc_inv s.
Proof.
  intros Hsize [Hn Hd]. unfold disc_inv. rewrite Hd, size_empty. split_and!; [|unfold MAX_DISCOVERED_PEERS; lia|set_solver].
  apply subseteq_size in Hn. rewrite !size_dom in Hn. lia.
Qed.
Lemma marks_within {A} parsed (m : DiscM A) : steps marks m → steps (keeping (within parsed)) m.
Proof. intros Hm s. destruct (Hm s) as (Hn & Hd & _). unfold keeping, within. by rewrite Hn, Hd. Qed.
Lemma add_node_within now namespace parsed entry :
  entry ∈ btree_entries parsed → steps (keeping (within parsed)) (add_node now namespace entry).
Proof.
  destruct entry as [peer address]. intros Hin%elem_of_btree_entries%elem_of_dom_2. unfold add_node. run_steps.
  - apply marks_within, disc_do_marks, rz_kad_add.
  - intros [r w] [Hn Hd]. destruct r. cbn in *. split; [|done]. cbn. rewrite dom_insert_L. set_solver.
  - case_match; run_steps. apply marks_within, try_dial_marks.
Qed.
Lemma parse_nodes_size l acc m :
  try_fold parse_node acc l = Ok m → (size m <= size acc + length l)%nat.
Proof.
  revert acc. induction l as [|raw l IH]; intros acc; cbn; [intros [= <-]; lia|].
  intros (acc' & Ha & Hl)%bind_Ok. apply IH in Hl. unfold parse_node in Ha. inv_ok.
  destruct (acc !! _) eqn:E; [lia|]. rewrite map_size_insert_None in Hl by done. lia.
Qed.

Lemma set_discovery_keep f : (∀ r w, disc_inv (r, w) → disc_inv (f r, w)) → steps (keeping disc_inv) (set_discovery f).
Proof. intros Hf [r w] Hi. by apply Hf. Qed.
Lemma configure_keeps now addresses namespace : steps (keeping disc_inv) (configure now addresses namespace).
Proof.
  unfold configure. apply steps_lift_bind; [apply _|]. intros _ Hlen%reject_if_Ok.
  apply steps_lift_bind; [apply _|]. intros normalized _. apply steps_lift_bind; [apply _|]. intros ns _.
  apply steps_bind; [apply _|apply set_discovery_keep; by intros [] w Hi|intros _].
  apply steps_bind; [apply _|run_steps|intros r0].
  apply steps_bind; [apply _|apply steps_marks_keep; run_steps; apply disc_do_marks; intros; apply peer_remove_explicit|intros _].
  intros [r w] (Hi & _ & _). rewrite run_bind. unfold set_discovery. cbn [modify]. rewrite run_lift.
  destruct (try_fold parse_node ∅ addresses) as [parsed|e|] eqn:Hparsed.
  2,3: destruct r; unfold disc_inv; cbn in *; unfold constant; rewrite size_empty; split_and!; [done|unfold MAX_DISCOVERED_PEERS; lia|set_solver].
  apply parse_nodes_size in Hparsed. rewrite map_size_empty in Hparsed.
  apply (within_inv parsed); [bool_props; lia|]. rewrite run_bind. cbn [modify].
  match goal with |- within parsed ((?m : DiscM _) ?s).2 =>
    enough (steps (keeping (within parsed)) m) as Hm by (apply (Hm s); by destruct r) end.
  apply steps_bind; [apply _| |intros _; run_steps].
  - apply steps_for_each_in; [apply _|]. intros entry He. by apply add_node_within.
  - apply marks_within, disc_do_marks, rz_kad_bootstrap.
  - apply marks_within, if_connected_marks, discover_and_register_marks.
Qed.

Lemma observe_service_keeps now peer addresses : steps (keeping disc_inv) (observe_rendezvous_service now peer addresses).
Proof.
  intros [r w] Hi. unfold observe_rendezvous_service, disc_net, the_discovery. rewrite run_bind. cbn [gets]. rewrite run_bind.
  cbn [gets fst snd]. destruct (_ || _) eqn:Hg; [exact Hi|]. destruct (disc_namespace r) as [ns|]; [|exact Hi].
  destruct (head _) as [address|]; [|exact Hi]. rewrite run_bind. unfold disc_do. cbn [modify fst snd]. rewrite run_bind.
  unfold set_discovery at 1. cbn [modify fst snd]. bool_props.
  match goal with |- disc_inv ((?m : DiscM _) ?s).2 =>
    enough (steps (keeping disc_inv) m) as Hm; [apply (Hm s)|] end.
  - destruct Hi as (Hi1 & Hi2 & Hi3). destruct r. unfold disc_inv. cbn in *. rewrite rz_kad_add. split_and!; [|done|done].
    rewrite map_size_insert_None; [|by apply eq_None_not_Some]. lia.
  - run_steps. apply steps_marks_keep, if_connected_marks, discover_and_register_marks.
Qed.

Lemma insert_peer_keeps peer s :
  disc_inv s → peer ≠ local_peer_id s.2 →
  peer ∈ discovered_peers s.1 ∨ Z.of_nat (size (discovered_peers s.1)) < MAX_DISCOVERED_PEERS →
  disc_inv ({ s.1 with discovered_peers ::= union {[peer]} }, s.2).
Proof.
  intros (Hi1 & Hi2 & Hi3) Hne Hor. destruct s as [[ns d n] w]. unfold disc_inv. cbn in *. split_and!; [done| |set_solver].
  destruct (decide (peer ∈ d)) as [Hin|Hin]; [by replace ({[peer]} ∪ d) with d by set_solver|].
  rewrite size_union, size_singleton by set_solver. destruct Hor; [done|lia].
Qed.
Lemma take_registration_keeps expected node count reg : steps (keeping disc_inv) (take_registration expected node count reg).
Proof.
  intros s Hi. unfold take_registration, disc_net, the_discovery. rewrite run_bind. cbn [gets]. rewrite run_bind. cbn [gets].
  cbv zeta. destruct (_ || _) eqn:Hg; [exact Hi|].
  assert (rg_peer reg ≠ local_peer_id s.2
    ∧ (rg_peer reg ∈ discovered_peers s.1 ∨ Z.of_nat (size (discovered_peers s.1)) < MAX_DISCOVERED_PEERS)) as [Hne Hor].
  { rewrite !orb_false_iff, andb_false_iff in Hg. destruct Hg as [[[[_ Hl] _] _] Hcap]. bool_props. split; [done|].
    destruct Hcap; bool_props; [by left|right; lia]. }
  rewrite run_bind.
  pose proof (steps_for_each marks (λ a, disc_do (kad_add_address (rg_peer reg) a)) (registration_addresses reg)
    (λ a, disc_do_marks _ (rz_kad_add _ _)) s) as Hm1.
  destruct (for_each _ _ s) as [[u|e|] s1] eqn:E1; cbn [snd] in Hm1; [|by apply (marks_keeping s)..].
  rewrite run_bind. unfold disc_net. cbn [gets]. rewrite run_bind.
  match goal with |- disc_inv (match ?m s1 with _ => _ end).2 =>
    assert (steps marks m) as Hm2 by (repeat case_match; run_steps;
      [apply disc_do_marks, peer_add_explicit|apply disc_call_marks; intros; apply peer_dial]) end.
  specialize (Hm2 s1). match goal with |- disc_inv (match ?x with _ => _ end).2 => destruct x as [[v|e|] s2] eqn:E2 end.
  all: cbn [snd] in Hm2; assert (marks s s2) as (Hn & Hd & Hns & Hl) by (etrans; [exact Hm1|exact Hm2]).
  2,3: apply (marks_keeping s s2 (conj Hn (conj Hd (conj Hns Hl))) Hi).
  pose proof (marks_keeping s s2 (conj Hn (conj Hd (conj Hns Hl))) Hi) as Hi2.
  apply (insert_peer_keeps (rg_peer reg) s2); [exact Hi2|by rewrite Hl|by rewrite Hd].
Qed.

Lemma remove_peer_keeps peer : steps (keeping disc_inv) (set_discovery (λ r, { r with discovered_peers ::= λ s, s ∖ {[peer]} })).
Proof.
  apply set_discovery_keep. intros [ns d n] w (Hi1 & Hi2 & Hi3). unfold disc_inv. cbn in *.
  assert (size (d ∖ {[peer]}) <= size d)%nat by (apply subseteq_size; set_solver).
  split_and!; [done|lia|set_solver].
Qed.
Lemma handle_event_keeps now event : steps (keeping disc_inv) (discovery_handle_event now event).
Proof.
  assert (∀ f, steps (keeping disc_inv) (disc_do (remove_explicit_peer f))) as Hrem
    by (intros f; apply steps_marks_keep, disc_do_marks, peer_remove_explicit).
  destruct event; unfold discovery_handle_event; run_steps.
  - case_match; run_steps; [apply steps_marks_keep, set_node_marks|].
    generalize 0. generalize (take (Z.to_nat MAX_DISCOVERED_PEERS) registrations).
    intros l. induction l as [|reg l IH]; intros count; cbn [take_registrations]; run_steps; [apply take_registration_keeps|apply IH].
  - apply steps_marks_keep, set_node_marks.
  - case_match; run_steps. apply steps_marks_keep, set_node_marks.
  - case_match; run_steps. apply steps_marks_keep, set_node_marks.
  - apply remove_peer_keeps.
  - apply Hrem.
Qed.

(** ** Runs *)

(** Commands of the user, events of the swarm, timers, and changes of the
    swarm that keep its peer id. *)
Inductive discovery_step (s : DState) : DState → Prop :=
  | ds_configure now addresses namespace : discovery_step s (configure now addresses namespace s).2
  | ds_observe now peer addresses : discovery_step s (observe_rendezvous_service now peer addresses s).2
  | ds_external address : discovery_step s (add_external_address address s).2
  | ds_connected now peer : discovery_step s (discovery_on_connected now peer s).2
  | ds_confirmed : discovery_step s (discovery_address_confirmed s).2
  | ds_forget peer : discovery_step s (forget_unreachable_peer peer s).2
  | ds_disconnected peer : discovery_step s (discovery_on_disconnected peer s).2
  | ds_tick now : discovery_step s (discovery_tick now s).2
  | ds_event now event : discovery_step s (discovery_handle_event now event s).2
  | ds_swarm w : local_peer_id w = local_peer_id s.2 → discovery_step s (s.1, w).

Lemma discovery_step_keeps s s' : discovery_step s s' → keeping disc_inv s s'.
Proof.
  intros Hs. destruct Hs as [now l n|now p l|a|now p| |p|p|now|now e|w Hw].
  - apply configure_keeps.
  - apply observe_service_keeps.
  - apply steps_marks_keep. unfold add_external_address. run_steps; [apply disc_do_marks, rz_external|apply register_all_marks].
  - apply steps_marks_keep. unfold discovery_on_connected. run_steps; [case_match; [apply discover_and_register_marks|run_steps]|].
    case_match; run_steps. apply disc_do_marks, peer_add_explicit.
  - apply steps_marks_keep, register_all_marks.
  - unfold forget_unreachable_peer. match goal with |- keeping _ _ (?m s).2 => enough (steps (keeping disc_inv) m) as Hm by apply Hm end.
    run_steps. case_match; run_steps; [apply remove_peer_keeps|apply steps_marks_keep, disc_do_marks, peer_remove_explicit].
  - apply steps_marks_keep, set_node_marks.
  - apply steps_marks_keep, discovery_tick_marks.
  - apply handle_event_keeps.
  - intros (Hi1 & Hi2 & Hi3). unfold disc_inv. cbn. rewrite Hw. by split_and!.
Qed.

(** What rendezvous nodes answer cannot grow the runtime.  Under any
    commands, events, answers of nodes and changes of connections, the runtime
    knows at most 8 rendezvous nodes and remembers at most 256 discovered
    peers, and never counts itself among them. *)
Theorem discovery_bounded w s :
  rtc discovery_step (discovery_default, w) s → disc_inv s.
Proof.
  intros Hr. assert (disc_inv (discovery_default, w)) as H0'.
  { unfold disc_inv, discovery_default, MAX_RENDEZVOUS_NODES, MAX_DISCOVERED_PEERS. cbn. rewrite map_size_empty, size_empty.
    split_and!; [lia|lia|set_solver]. }
  revert H0'. induction Hr as [x|x y z Hs _ IH]; [done|]. intros Hi. apply IH. by apply (discovery_step_keeps x).
Qed.

(** ** A tick leaves nothing undone *)

(** A call that marks one node and keeps the connections. *)
Definition touches (f : PeerId → DiscM unit) (g : RendezvousNode → RendezvousNode) : Prop :=
  ∀ q s, ∃ s', f q s = (Ok tt, s') ∧ is_connected s'.2 = is_connected s.2
    ∧ ∀ p, nodes s'.1 !! p = (if decide (p = q) then g else id) <$> nodes s.1 !! p.
Lemma touches_all f g l s : touches f g → (∀ n, g (g n) = g n) →
  ∃ s', for_each f l s = (Ok tt, s') ∧ is_connected s'.2 = is_connected s.2
    ∧ ∀ p, nodes s'.1 !! p = (if decide (p ∈ l) then g else id) <$> nodes s.1 !! p.
Proof.
  intros Hf Hg. revert s. induction l as [|q l IH]; intros s; cbn [for_each].
  { exists s. split_and!; [done|done|]. intros p. rewrite decide_False by set_solver. by destruct (nodes s.1 !! p). }
  destruct (Hf q s) as (s1 & E1 & Hc1 & Hn1). destruct (IH s1) as (s2 & E2 & Hc2 & Hn2).
  exists s2. rewrite run_bind, E1. split_and!; [done|congruence|]. intros p. rewrite Hn2, Hn1.
  destruct (decide (p = q)) as [->|Hpq].
  - rewrite (decide_True (P:=q ∈ q :: l)) by set_solver. destruct (nodes s.1 !! q); [|done]. cbn.
    destruct (decide (q ∈ l)); [by rewrite Hg|done].
  - assert (p ∈ q :: l ↔ p ∈ l) as Hin by set_solver. destruct (nodes s.1 !! p); [|done]. cbn.
    destruct (decide (p ∈ l)), (decide (p ∈ q :: l)); try done; set_solver.
Qed.
Definition dialled (now : Z) (n : RendezvousNode) : RendezvousNode := { n with last_dial_attempt := Some now }.
Definition asked (now : Z) (n : RendezvousNode) : RendezvousNode := { n with last_discovery := Some now }.
Lemma lookup_touch (m : gmap PeerId RendezvousNode) g q p :
  alter g q m !! p = (if decide (p = q) then g else id) <$> m !! p.
Proof.
  destruct (decide (p = q)) as [->|Hne]; [by rewrite lookup_alter_eq|]. rewrite lookup_alter_ne by done. by destruct (m !! p).
Qed.
Lemma untouched s g q : nodes s !! q = None → ∀ p, nodes s !! p = (if decide (p = q) then g else id) <$> nodes s !! p.
Proof. intros Hq p. destruct (decide (p = q)) as [->|]; [by rewrite Hq|by destruct (nodes s !! p)]. Qed.
Lemma try_dial_touches now : touches (try_dial now) (dialled now).
Proof.
  intros q [r w]. unfold try_dial, the_discovery. rewrite run_bind. cbn [gets fst]. destruct (nodes r !! q) as [n|] eqn:Eq.
  2: { exists (r, w). split_and!; [done|done|]. by apply untouched. }
  rewrite run_bind. unfold set_node, set_discovery. cbn [modify fst snd]. destruct (direct_dial_address _ _) as [a|].
  - rewrite run_bind. unfold disc_call. cbn [snd]. pose proof (rz_dial_connected q [a] w) as Hc.
    destruct (dial q [a] w) as [b w1]. eexists. split_and!; [reflexivity|done|]. intros p. destruct r. apply lookup_touch.
  - eexists. split_and!; [reflexivity|done|]. intros p. destruct r. apply lookup_touch.
Qed.
Lemma request_discovery_touches now : touches (request_discovery now) (asked now).
Proof.
  intros q [r w]. unfold request_discovery, the_discovery. rewrite run_bind. cbn [gets fst]. destruct (nodes r !! q) as [n|] eqn:Eq.
  2: { exists (r, w). split_and!; [done|done|]. by apply untouched. }
  rewrite run_bind. unfold set_node, set_discovery, disc_do. cbn [modify fst snd].
  eexists. split_and!; [reflexivity|apply rz_discover_connected|]. intros p. destruct r. apply lookup_touch.
Qed.
(** Registering changes neither when a node was asked nor when it was dialled. *)
Definition same_times (s s' : DState) : Prop :=
  ∀ p n', nodes s'.1 !! p = Some n' → ∃ n, nodes s.1 !! p = Some n
    ∧ last_discovery n' = last_discovery n ∧ last_dial_attempt n' = last_dial_attempt n.
#[local] Instance same_times_preorder : PreOrder same_times.
Proof.
  split; [intros s p n Hn; by exists n|]. intros s1 s2 s3 H12 H23 p n3 Hn3.
  destruct (H23 p n3 Hn3) as (n2 & Hn2 & ? & ?). destruct (H12 p n2 Hn2) as (n1 & Hn1 & ? & ?).
  exists n1. split_and!; [done|congruence|congruence].
Qed.
Lemma try_register_times p : steps same_times (try_register p).
Proof.
  unfold try_register. run_steps. case_match; run_steps. case_match; run_steps.
  - intros [r0 w0]. unfold disc_call. cbn. destruct (rendezvous_register _ _ _ w0). intros q n' Hq. by exists n'.
  - case_match; run_steps. intros [[ns d n0] w0] q n' Hq. cbn in Hq. rewrite lookup_touch in Hq.
    destruct (ns !! q) as [m|] eqn:Em; [|done]. exists m. split; [done|]. injection Hq as <-. destruct m. by case_decide.
Qed.

(** After a tick, every connected node has been asked for peers within the
    last 20 seconds, and every other node has been dialled within the last
    10. *)
Lemma tick_leaves_nothing_due now s s' :
  discovery_tick now s = (Ok tt, s') → ∀ p n, nodes s'.1 !! p = Some n →
  (is_connected s.2 p = true → none_or_since (last_discovery n) now DISCOVERY_INTERVAL = false)
  ∧ (is_connected s.2 p = false → none_or_since (last_dial_attempt n) now RECONNECT_INTERVAL = false).
Proof.
  unfold discovery_tick, due_nodes, the_discovery, disc_net. repeat first [rewrite run_bind|progress cbn [gets]].
  set (l1 := map fst _). destruct (touches_all (try_dial now) (dialled now) l1 s) as (s1 & -> & Hc1 & Hn1);
    [apply try_dial_touches|by intros []|]. repeat first [rewrite run_bind|progress cbn [gets]].
  set (l2 := map fst _). destruct (touches_all (request_discovery now) (asked now) l2 s1) as (s2 & -> & Hc2 & Hn2);
    [apply request_discovery_touches|by intros []|]. repeat first [rewrite run_bind|progress cbn [gets]].
  intros E p n Hp. match type of E with for_each _ ?l _ = _ =>
    pose proof (steps_for_each same_times try_register l try_register_times s2) as Hreg end.
  rewrite E in Hreg. destruct (Hreg p n Hp) as (n2 & Hp2 & -> & ->). clear E Hreg Hp.
  rewrite Hn2 in Hp2. destruct (nodes s1.1 !! p) as [n1|] eqn:Hp1; [|done]. injection Hp2 as <-.
  assert (nodes s1.1 !! p = Some n1) as Hp1' by done. rewrite Hn1 in Hp1. destruct (nodes s.1 !! p) as [n0|] eqn:Hp0; [|done].
  injection Hp1 as <-. assert (∀ i, 0 < i → none_or_since (Some now) now i = false) as Hnow
    by (intros i Hi; unfold none_or_since, since; apply Z.leb_gt; lia).
  split; intros Hconn.
  - destruct (decide (p ∈ l2)) as [Hin|Hin]; [apply (Hnow DISCOVERY_INTERVAL); done|].
    apply not_true_iff_false. intros Hdue. destruct Hin. unfold l2. apply list_elem_of_fmap.
    eexists (p, _). split; [done|]. apply list_elem_of_filter. split; [|by apply elem_of_btree_entries].
    cbn in *. rewrite Hdue, Hc1, Hconn. done.
  - assert (last_dial_attempt ((if decide (p ∈ l2) then asked now else id) ((if decide (p ∈ l1) then dialled now else id) n0))
      = last_dial_attempt ((if decide (p ∈ l1) then dialled now else id) n0)) as -> by (by repeat case_decide; destruct n0).
    destruct (decide (p ∈ l1)) as [Hin|Hin]; [apply (Hnow RECONNECT_INTERVAL); done|].
    apply not_true_iff_false. intros Hdue. destruct Hin. unfold l1. apply list_elem_of_fmap.
    eexists (p, _). split; [done|]. apply list_elem_of_filter. split; [|by apply elem_of_btree_entries].
    cbn in *. rewrite Hdue, Hconn. done.
Qed.
End discovery.

(** ** Relays *)
Section relays.
Context `{RendezvousLaws, !MultiaddrText}.
Notation RState := (gmap PeerId RelayCandidate * world)%type.
Notation RelayM := (M RState DiscoveryError).

(** At most four relays, never this host, and each is listened to or was
    asked in vain. *)
Definition relay_inv (s : RState) : Prop :=
  Z.of_nat (size s.1) <= MAX_RELAY_NODES ∧ s.1 !! local_peer_id s.2 = None.
Definition same_relays (s s' : RState) : Prop := dom s'.1 = dom s.1 ∧ local_peer_id s'.2 = local_peer_id s.2.
#[local] Instance same_relays_preorder : PreOrder same_relays.
Proof. split; [by intros s|]. intros s1 s2 s3 [] []. split; congruence. Qed.
Lemma same_relays_keep s s' : same_relays s s' → keeping relay_inv s s'.
Proof.
  intros [Hd Hl] [Hs Hn]. split; [by rewrite <-size_dom, Hd, size_dom|].
  apply not_elem_of_dom. rewrite Hd, Hl. by apply not_elem_of_dom.
Qed.
Lemma request_reservation_same a : steps same_relays (request_reservation a).
Proof.
  intros [r w]. unfold request_reservation, relay_call. cbn. pose proof (rz_listen (a ++ [P2pCircuit]) w) as Hl.
  destruct (listen_on _ w). by split.
Qed.
Lemma set_relays_same f : (∀ m, dom (f m) = dom m) → steps same_relays (set_relays f).
Proof. intros Hf [r w]. by split; [apply Hf|]. Qed.
Lemma add_candidate_keeps now peer address source : steps (keeping relay_inv) (add_candidate now peer address source).
Proof.
  intros [r w] Hi. unfold add_candidate, the_relays. rewrite run_bind. cbn [gets snd]. rewrite run_lift.
  destruct (bool_decide (peer = local_peer_id w)) eqn:Hp; [exact Hi|]. cbn [reject_if]. rewrite run_bind. cbn [gets fst].
  destruct (r !! peer) eqn:Er; [exact Hi|]. rewrite run_lift.
  destruct (MAX_RELAY_NODES <=? Z.of_nat (size r)) eqn:Hsz; [exact Hi|]. cbn [reject_if]. rewrite run_bind.
  pose proof (request_reservation_same address (r, w)) as Hs.
  unfold request_reservation, relay_call in *. cbn [snd] in *. destruct (listen_on _ w) as [[l|] w1]; [|by apply (same_relays_keep (r, w))].
  destruct Hs as [_ Hl]. cbn in *. bool_props. destruct Hi as [Hi1 Hi2].
  set (r1 := <[peer := mkCandidate address (Some l) now false]> r). change (relay_inv (r1, w1)). split; cbn in *.
  - unfold r1. rewrite map_size_insert_None by done. lia.
  - unfold r1. rewrite Hl. rewrite lookup_insert_ne; [done|congruence].
Qed.
Lemma retry_same now peer : steps same_relays (retry_reservation now peer).
Proof.
  intros s. unfold retry_reservation, the_relays. rewrite run_bind. cbn [gets]. destruct (s.1 !! peer) as [c|] eqn:Ec; [|done].
  rewrite run_bind.
  assert (∀ m : RelayM unit, m = (match listener_id c with Some l => modify (λ s, (s.1, remove_listener l s.2)) | None => mret tt end) →
    ∃ w', m s = (Ok tt, (s.1, w')) ∧ local_peer_id w' = local_peer_id s.2) as Hrm.
  { intros m ->. destruct s as [r w]. destruct (listener_id c); eexists; (split; [reflexivity|]); [apply rz_remove|done]. }
  edestruct Hrm as (w' & -> & Hw'); [reflexivity|]. rewrite run_bind. unfold set_relays at 1. cbn [modify fst snd].
  match goal with |- same_relays s ((?m : RelayM _) ?s1).2 =>
    assert (same_relays s s1) as Hs1; [|etrans; [exact Hs1|]; enough (steps same_relays m) as Hm by apply Hm] end.
  - split; [|done]. cbn. rewrite dom_insert_L. apply elem_of_dom_2 in Ec. set_solver.
  - apply steps_bind; [apply _|apply request_reservation_same|]. intros [l|]; [|apply steps_ret; apply _].
    apply steps_bind; [apply _|apply set_relays_same; intros; apply dom_alter_L|intros _; apply steps_ret; apply _].
Qed.
Lemma relay_tick_same now : steps same_relays (relay_tick now).
Proof.
  unfold relay_tick, the_relays. apply steps_bind; [apply _|apply steps_gets; apply _|]. intros relays.
  generalize (map fst (filter (λ e, relay_due now e.2) (btree_entries relays))). intros l.
  induction l as [|p l IH]; cbn [retry_reservations]; [apply steps_ret; apply _|].
  apply steps_bind; [apply _|apply retry_same|]. intros a. apply steps_bind; [apply _|apply IH|intros b; apply steps_ret; apply _].
Qed.

Inductive relay_step (s : RState) : RState → Prop :=
  | rs_explicit now raw : relay_step s (add_explicit now raw s).2
  | rs_identified now peer addresses : relay_step s (observe_identified now peer addresses s).2
  | rs_client event : relay_step s (handle_client_event event s).2
  | rs_disconnected peer : relay_step s (relay_on_disconnected peer s).2
  | rs_dial_failure peer : relay_step s (relay_on_dial_failure peer s).2
  | rs_tick now : relay_step s (relay_tick now s).2
  | rs_swarm w : local_peer_id w = local_peer_id s.2 → relay_step s (s.1, w).

(** The host uses at most four relays, and never itself. *)
Lemma relay_bounded w s : rtc relay_step (∅, w) s → relay_inv s.
Proof.
  intros Hr. assert (relay_inv (∅, w)) as Hi0 by (split; [by cbn; rewrite map_size_empty|done]). revert Hi0.
  induction Hr as [x|x y z Hs _ IH]; [done|]. intros Hi. apply IH. clear IH.
  destruct Hs as [now raw|now p l|e|p|p|now|w' Hw].
  - revert Hi. unfold add_explicit. rewrite run_lift. destruct (ok_or _ _); [|done..]. rewrite run_lift.
    destruct (ok_or _ _); [|done..]. apply add_candidate_keeps.
  - revert Hi. unfold observe_identified, the_relays. rewrite run_bind. cbn [gets]. repeat case_match; try done. apply add_candidate_keeps.
  - apply (same_relays_keep x); [|done]. destruct e; cbn; [|done..].
    split; [apply dom_alter_L|done].
  - apply (same_relays_keep x); [|done]. split; [apply dom_alter_L|done].
  - apply (same_relays_keep x); [|done]. split; [apply dom_alter_L|done].
  - apply (same_relays_keep x); [apply relay_tick_same|done].
  - destruct Hi. split; [done|]. cbn. by rewrite Hw.
Qed.
End relays.
