(* ===== verification/DiscoveryExample.v ===== *)
(** * DiscoveryExample: a host that discovers

    The toy endpoint of [Session]; the world is the set of connected peers.
    The text of an address is the digit of a port and the digits of the peers
    on the way. *)

From S2P Require Import Prelude Machine Encoding Order Ids Identity Session NetworkAddress Volunteer.
From S2P Require Import SessionState ArchiveNode Swarm Discovery DiscoverySpec.

#[local] Existing Instance toy_libp2p.
#[local] Existing Instance toy_libp2p_laws.

Definition peer0 : PeerId := 7.
#[local] Instance disc_world : World := {|
  world := gset Z;
  local_peer_id := λ _, peer0;
  is_connected := λ w p, bool_decide (p ∈ w);
  room_gossip_enabled := λ _, true;
  pool_gossip_enabled := λ _, true;
  add_peer_address := λ _ _ w, w;
  add_explicit_peer := λ _ w, w;
  remove_explicit_peer := λ _ w, w;
  retain_peer_connection := λ _ w, w;
  release_peer_connection := λ _ w, w;
  dial := λ _ _ w, (true, w);
  send_request := λ _ _ w, (0, w);
  gossip_publish := λ _ _ w, (true, w);
  gossip_subscribe := λ _ w, (true, w);
  gossip_unsubscribe := λ _ w, w;
  fill_bytes := λ n w, (replicate n 0, w);
  hex_encode := λ _, ""%string;
|}.
#[local] Instance disc_rendezvous : Rendezvous := {|
  Namespace := list Z;
  namespace_new := λ l, if (length l <=? 255)%nat then Some l else None;
  Cookie := Z;
  ListenerId := Z;
  rendezvous_discover := λ _ _ _ _ w, w;
  rendezvous_register := λ _ _ _ w, (true, w);
  kad_add_address := λ _ _ w, w;
  kad_bootstrap := λ w, w;
  swarm_add_external_address := λ _ w, w;
  listen_on := λ _ w, (Some 0, w);
  remove_listener := λ _ w, w;
  instant_max := (2 ^ 63 - 1) * 1000000000 + 999999999;
|}.
#[local] Instance disc_rendezvous_laws : RendezvousLaws.
Proof. split; done. Qed.
#[local] Instance disc_text : MultiaddrText := {|
  addr_to_string := λ _, ""%string;
  addr_from_str := λ s, match string_bytes s with
    | [] => None
    | port :: peers => Some (Ip4 8 8 8 8 :: Tcp port :: map P2p peers)
    end;
|}.

Definition lobby : string := "Lobby ".
Definition two_nodes : DiscoveryRuntime * world := (configure 0 ["1A"; "2B"]%string lobby (discovery_default, ∅)).2.
Definition crowd : list Registration :=
  map (λ i, mkRegistration (string_bytes "lobby") (100 + Z.of_nat i : PeerId) [[Ip4 9 9 9 9; Tcp 1]]) (seq 0 300).
Definition crowded : DiscoveryRuntime * world :=
  (discovery_handle_event 5 (Discovered (65 : PeerId) crowd (0 : Cookie)) two_nodes).2.

(** A node that reports 300 peers gets 256 of them remembered. *)
Lemma discovery_bounded_witness :
  size (nodes crowded.1) = 2%nat ∧ size (discovered_peers crowded.1) = 256%nat ∧ disc_inv crowded.
Proof.
  split; [vm_compute; reflexivity|]. split; [vm_compute; reflexivity|].
  apply (discovery_bounded ∅). eapply rtc_l; [apply (ds_configure _ 0 ["1A"; "2B"]%string lobby)|].
  eapply rtc_once. apply (ds_event _ 5).
Defined.

(** A configuration with one unreadable address is refused, but not undone:
    the new namespace stays, the discovered peers are gone, and the nodes of
    the old namespace are still used. *)
Definition half : result DiscoveryError (list DiscoveryEvent) * (DiscoveryRuntime * world) :=
  configure 9 ["3C"; ""]%string "arena" crowded.
Example failed_configure_half_applied :
  is_ok half.1 = false ∧ disc_namespace half.2.1 = Some (string_bytes "arena")
  ∧ discovered_peers half.2.1 = ∅ ∧ size (nodes half.2.1) = 2%nat
  ∧ (rn_namespace <$> nodes half.2.1 !! (65 : PeerId)) = Some (string_bytes "lobby").
Proof. vm_compute. split_and!; reflexivity. Qed.

(** A node that answers a registration with an enormous lifetime stops the
    process where instants count signed 64-bit seconds. *)
Example huge_ttl_panics :
  (discovery_handle_event (seconds 5) (Registered (65 : PeerId) u64_max (string_bytes "lobby")) two_nodes).1 = Panic.
Proof. vm_compute. reflexivity. Qed.

(** Namespaces are trimmed and lower case. *)
Example namespace_normalized : normalize_namespace " Token_Poker/1 " = Ok (string_bytes "token_poker/1").
Proof. reflexivity. Qed.
