(* ===== verification/Recovery.v ===== *)
(** * Recovery: recovery packages and protocol codes (recovery.rs, code.rs)

    A recovery package is the seed of a root identity, encrypted under a
    passphrase and bound to the account it was made for; a protocol code is a
    CBOR payload in Base64 behind a prefix.  Argon2, XChaCha20-Poly1305, CBOR
    and Base64 are external; random bytes are arguments.  Strings are their
    UTF-8 bytes. *)

From S2P Require Import Prelude Machine Encoding Order Ids Identity Command ArchiveNode ArchiveKeep.

(** ** External functions *)
Class RecoveryCrypto := {
  argon2 : list Z → list Z → option (list Z);                      (* password, salt *)
  aead_encrypt : list Z → list Z → list Z → list Z → option (list Z);  (* key, nonce, message, associated data *)
  aead_decrypt : list Z → list Z → list Z → list Z → option (list Z);
}.
(** What the libraries document: passwords and salts of the sizes used here
    derive a key, what is encrypted is decrypted, and a text that decrypts was
    made with the same associated data, under the key it was encrypted with. *)
Class RecoveryCryptoLaws `{RecoveryCrypto} : Prop := {
  argon2_total : ∀ p s, Z.of_nat (length p) < 2 ^ 32 → length s = 16%nat → is_Some (argon2 p s);
  aead_total : ∀ k n m a, length m = 32%nat → is_Some (aead_encrypt k n m a);
  aead_opens : ∀ k n m a c, aead_encrypt k n m a = Some c → aead_decrypt k n c a = Some m;
  aead_bound : ∀ k n m a c a' m', aead_encrypt k n m a = Some c → aead_decrypt k n c a' = Some m' → a' = a;
}.

Definition RECOVERY_AAD_V1 : list Z := string_bytes "token-holdem/recovery-envelope/v1".
Definition RECOVERY_AAD_V2_DOMAIN : list Z := domain_bytes "token-holdem/recovery-envelope/v2".
Definition RECOVERY_LOCATOR_DOMAIN : list Z := domain_bytes "token-holdem/recovery-locator/v1".

Record RecoveryEnvelope := mkEnvelope {
  env_version : Z;
  env_salt : list Z;
  env_nonce : list Z;
  env_ciphertext : list Z;
}.
#[export] Instance RecoveryEnvelope_eq_dec : EqDecision RecoveryEnvelope.
Proof. solve_decision. Defined.

Inductive RecoveryError :=
  | RecoverySecretTooShort | RecoveryVersion (v : Z) | KeyDerivationFailed | EncryptionFailed
  | DecryptionFailed | InvalidPlaintext | InvalidAccountFingerprint.

(** [str::chars().count()]: the bytes that do not continue a character. *)
Definition char_count (l : list Z) : Z :=
  Z.of_nat (length (filter (λ b, negb ((128 <=? b) && (b <? 192))) l)).

(** [validate_recovery_secret], [validate_account_fingerprint]. *)
Definition validate_recovery_secret (value : list Z) : result RecoveryError unit :=
  reject_if (char_count value <? 12) RecoverySecretTooShort.
Definition validate_account_fingerprint (fingerprint : list Z) : result RecoveryError unit :=
  reject_if (negb (length fingerprint =? 64)%nat || negb (forallb is_ascii_hexdigit fingerprint)) InvalidAccountFingerprint.

(** [account_bound_aad]. *)
Definition to_ascii_lowercase (b : Z) : Z := if (65 <=? b) && (b <=? 90) then b + 32 else b.
Definition account_bound_aad (fingerprint : list Z) : result RecoveryError (list Z) :=
  validate_account_fingerprint fingerprint;;
  mret (RECOVERY_AAD_V2_DOMAIN ++ map to_ascii_lowercase fingerprint).

Section envelopes.
Context `{Crypto, RecoveryCrypto}.

(** [derive_recovery_locator]. *)
Definition derive_recovery_locator (fingerprint secret : list Z) : result RecoveryError (list Z) :=
  validate_recovery_secret secret;;
  validate_account_fingerprint fingerprint;;
  ok_or (argon2 secret (take 16 (blake3 (RECOVERY_LOCATOR_DOMAIN ++ fingerprint)))) KeyDerivationFailed.

(** [RecoveryEnvelope::seal_with_aad], [seal], [seal_for_account]. *)
Definition seal_with_aad (seed secret : list Z) (version : Z) (aad salt nonce : list Z) : result RecoveryError RecoveryEnvelope :=
  validate_recovery_secret secret;;
  key ← ok_or (argon2 secret salt) KeyDerivationFailed;
  ciphertext ← ok_or (aead_encrypt key nonce seed aad) EncryptionFailed;
  mret (mkEnvelope version salt nonce ciphertext).
Definition seal (seed secret salt nonce : list Z) : result RecoveryError RecoveryEnvelope :=
  seal_with_aad seed secret 1 RECOVERY_AAD_V1 salt nonce.
Definition seal_for_account (seed secret fingerprint salt nonce : list Z) : result RecoveryError RecoveryEnvelope :=
  aad ← account_bound_aad fingerprint;
  seal_with_aad seed secret 2 aad salt nonce.

(** [open_with_aad], [open], [open_for_account]. *)
Definition open_with_aad (self : RecoveryEnvelope) (secret aad : list Z) : result RecoveryError (list Z) :=
  validate_recovery_secret secret;;
  key ← ok_or (argon2 secret (env_salt self)) KeyDerivationFailed;
  plaintext ← ok_or (aead_decrypt key (env_nonce self) (env_ciphertext self) aad) DecryptionFailed;
  reject_if (negb (length plaintext =? 32)%nat) InvalidPlaintext;;
  mret plaintext.
Definition open (self : RecoveryEnvelope) (secret : list Z) : result RecoveryError (list Z) :=
  reject_if (negb (env_version self =? 1)) (RecoveryVersion (env_version self));;
  open_with_aad self secret RECOVERY_AAD_V1.
Definition open_for_account (self : RecoveryEnvelope) (secret fingerprint : list Z) : result RecoveryError (list Z) :=
  reject_if (negb (env_version self =? 2)) (RecoveryVersion (env_version self));;
  aad ← account_bound_aad fingerprint;
  open_with_aad self secret aad.
End envelopes.

(** ** Protocol codes *)
Inductive ProtocolCodeError :=
  | CodeEncodingFailed | CodeTooLong (maximum actual : Z) | InvalidPrefix | InvalidBase64 | InvalidPayload.
Class Cbor (T : Type) := { cbor_to_vec : T → option (list Z); cbor_from_slice : list Z → option T }.
Class CborLaws (T : Type) `{Cbor T} : Prop := {
  cbor_roundtrip : ∀ v p, cbor_to_vec v = Some p → cbor_from_slice p = Some v;
}.
(** Base64 without padding, in the alphabet for URLs. *)
Class Base64 := { b64_encode : list Z → list Z; b64_decode : list Z → option (list Z) }.
Class Base64Laws `{Base64} : Prop := {
  b64_roundtrip : ∀ l, b64_decode (b64_encode l) = Some l;
  b64_printable : ∀ l, Forall (λ c, 33 <= c <= 127) (b64_encode l);
}.
Fixpoint strip_byte_prefix (p l : list Z) : option (list Z) :=
  match p, l with
  | [], _ => Some l
  | a :: p, b :: l => if a =? b then strip_byte_prefix p l else None
  | _ :: _, [] => None
  end.

Section codes.
Context {T : Type} `{Cbor T, Base64}.

(** [encode_payload], [encode_payload_code], [encode_code]. *)
Definition encode_payload (value : T) : result ProtocolCodeError (list Z) := ok_or (cbor_to_vec value) CodeEncodingFailed.
Definition encode_payload_code (prefix payload : list Z) : list Z := prefix ++ b64_encode payload.
Definition encode_code (prefix : list Z) (value : T) : result ProtocolCodeError (list Z) :=
  payload ← encode_payload value; mret (encode_payload_code prefix payload).

(** [decode_payload], [decode_code_with_payload], [decode_code]. *)
Definition decode_payload (payload : list Z) : result ProtocolCodeError T := ok_or (cbor_from_slice payload) InvalidPayload.
Definition decode_code_with_payload (prefix code : list Z) (maximum : Z) : result ProtocolCodeError (T * list Z) :=
  let normalized := trim code in
  reject_if (maximum <? Z.of_nat (length normalized)) (CodeTooLong maximum (Z.of_nat (length normalized)));;
  encoded ← ok_or (strip_byte_prefix prefix normalized) InvalidPrefix;
  payload ← ok_or (b64_decode encoded) InvalidBase64;
  value ← decode_payload payload;
  mret (value, payload).
Definition decode_code (prefix code : list Z) (maximum : Z) : result ProtocolCodeError T :=
  '(value, _) ← decode_code_with_payload prefix code maximum; mret value.
End codes.

(** ** Codes are read back *)
Section code_laws.
Context {T : Type} `{CborLaws T, Base64Laws}.

Lemma strip_byte_prefix_app p l : strip_byte_prefix p (p ++ l) = Some l.
Proof. induction p as [|a p IH]; cbn; [done|]. by rewrite Z.eqb_refl. Qed.

(** What is encoded under a printable prefix is decoded again, also with white
    space around it, as long as the code is not too long; a code of another
    kind is refused. *)
Lemma code_roundtrip prefix (v : T) code maximum :
  Forall (λ c, 33 <= c <= 127) prefix → encode_code prefix v = Ok code → Z.of_nat (length code) <= maximum →
  ∃ payload, encode_payload v = Ok payload ∧ decode_code_with_payload prefix code maximum = Ok (v, payload)
    ∧ decode_code prefix code maximum = Ok v.
Proof.
  intros Hp He Hlen. unfold encode_code in He. apply bind_Ok in He as (payload & Hpay & [= <-]).
  exists payload. split; [done|]. assert (decode_code_with_payload prefix (encode_payload_code prefix payload) maximum = Ok (v, payload)) as Hd.
  { unfold decode_code_with_payload, encode_payload_code in *. rewrite trim_digits by (apply Forall_app; split; [done|apply b64_printable]).
    cbv zeta. rewrite (proj2 (Z.ltb_ge _ _)) by done. cbn [reject_if mbind result_bind]. rewrite strip_byte_prefix_app. cbn.
    rewrite b64_roundtrip. cbn. unfold decode_payload, encode_payload in *. apply ok_or_Ok in Hpay.
    by rewrite (cbor_roundtrip v payload Hpay). }
  split; [done|]. unfold decode_code. by rewrite Hd.
Qed.
End code_laws.

(** ** Packages open for their account only *)
Section envelope_laws.
Context `{CryptoLaws, RecoveryCryptoLaws}.

Definition fingerprint_ok (l : list Z) : Prop := length l = 64%nat ∧ Forall (λ b, is_ascii_hexdigit b = true) l.
Definition same_account (a b : list Z) : Prop := map to_ascii_lowercase a = map to_ascii_lowercase b.
Lemma fingerprint_Ok l u : validate_account_fingerprint l = Ok u ↔ fingerprint_ok l.
Proof.
  unfold validate_account_fingerprint, fingerprint_ok. rewrite reject_if_Ok, orb_false_iff, !negb_false_iff, Nat.eqb_eq.
  by rewrite forallb_forall, Forall_forall; setoid_rewrite list_elem_of_In.
Qed.
Lemma account_aad_Ok l aad :
  account_bound_aad l = Ok aad ↔ fingerprint_ok l ∧ aad = RECOVERY_AAD_V2_DOMAIN ++ map to_ascii_lowercase l.
Proof. unfold account_bound_aad. rewrite guard_Ok, fingerprint_Ok. split; [intros [? [= <-]]; done|intros [? ->]; done]. Qed.
Lemma aad_inj l k : RECOVERY_AAD_V2_DOMAIN ++ map to_ascii_lowercase l = RECOVERY_AAD_V2_DOMAIN ++ map to_ascii_lowercase k → same_account l k.
Proof. apply app_inv_head. Qed.

(** A recovery package can be made for every account with a passphrase of at
    least twelve characters; it opens with that passphrase for that account
    and gives the identity back, the passphrase does not open it for any other account, and
    it is not taken for a package without an account. *)
Theorem recovery_package_bound seed secret fingerprint salt nonce :
  length seed = 32%nat → length salt = 16%nat → 12 <= char_count secret → Z.of_nat (length secret) < 2 ^ 32 → fingerprint_ok fingerprint →
  ∃ package, seal_for_account seed secret fingerprint salt nonce = Ok package
    ∧ open_for_account package secret fingerprint = Ok seed
    ∧ (∀ other root, open_for_account package secret other = Ok root → same_account other fingerprint)
    ∧ is_ok (open package secret) = false.
Proof.
  intros Hseed Hsalt Hsec Hlen Hfp.
  assert (∃ aad, account_bound_aad fingerprint = Ok aad) as [aad Haad] by (eexists; by apply account_aad_Ok).
  destruct (argon2_total secret salt Hlen Hsalt) as [key Hkey]. destruct (aead_total key nonce seed aad Hseed) as [c Hc].
  assert (validate_recovery_secret secret = Ok tt) as Hvs by (unfold validate_recovery_secret; apply reject_if_Ok, Z.ltb_ge; done).
  exists (mkEnvelope 2 salt nonce c). split_and!; [| | |done].
  - unfold seal_for_account, seal_with_aad. rewrite Haad. cbn. rewrite Hvs. cbn. rewrite Hkey. cbn. by rewrite Hc.
  - unfold open_for_account, open_with_aad. rewrite Haad. cbn. rewrite Hvs. cbn. rewrite Hkey. cbn.
    rewrite (aead_opens _ _ _ _ _ Hc). cbn. by rewrite Hseed.
  - intros other root Ho. unfold open_for_account, open_with_aad in Ho. inv_ok. cbn in *. simplify_eq.
    match goal with Ha : account_bound_aad other = Ok _, Hd : aead_decrypt _ _ _ _ = Some _ |- _ =>
      apply account_aad_Ok in Ha as [_ ->]; apply account_aad_Ok in Haad as [_ ->]; pose proof (aead_bound _ _ _ _ _ _ _ Hc Hd) as Heq end.
    by apply aad_inj.
Qed.

(** The locator of a package can be derived exactly when the package can be
    made. *)
Lemma locator_derived secret fingerprint :
  Z.of_nat (length secret) < 2 ^ 32 →
  is_ok (derive_recovery_locator fingerprint secret) = true ↔ 12 <= char_count secret ∧ fingerprint_ok fingerprint.
Proof.
  intros Hlen. rewrite is_ok_true. unfold derive_recovery_locator, validate_recovery_secret. split.
  - intros [l Hl]. inv_ok. match goal with Hv : validate_account_fingerprint _ = Ok _ |- _ => apply fingerprint_Ok in Hv end.
    bool_props. done.
  - intros [Hs Hf]. destruct (argon2_total secret (take 16 (blake3 (RECOVERY_LOCATOR_DOMAIN ++ fingerprint))) Hlen) as [k Hk].
    { rewrite length_take, blake3_len. done. }
    exists k. rewrite (proj2 (Z.ltb_ge _ _)) by done. cbn [reject_if mbind result_bind].
    rewrite (proj2 (fingerprint_Ok fingerprint tt)) by done. cbn [mbind result_bind]. by rewrite Hk.
Qed.
End envelope_laws.
