(* ===== verification/Startup.v ===== *)
(** * Startup: the options of the worker process (token-holdem-sidecar main.rs)

    The command line of the sidecar: flags, options with a value in the next
    argument, and options of the form [--name=value].  Arguments are Unicode;
    paths are their text. *)

From coqutil Require Import Datatypes.RecordSetters.
From S2P Require Import Prelude Machine Encoding Order Ids Identity Session NetworkAddress Volunteer Supervisor SessionState Discovery.
Import OCamlLikeNotations.

Inductive StartupError :=
  | GivenTwice (option : string) | ValueMissing (option : string) | ValueEmptyOrTwice (option : string)
  | NotInteger (option : string) | OutOfRange (option : string) (minimum maximum : Z)
  | TooManyAddresses (option : string) | AddressInvalid (option : string)
  | ListenWithPeer | ExternalInvalid | ExternalNotPublic | AddressRepeated
  | InputInvalid (e : VolunteerInputError) | UnknownArgument (a : string)
  | ReservationsPerPeer | CircuitsPerPeer.

(** [RelayServerLimits::default]; durations are whole seconds. *)
Definition limits_default : RelayServerLimits :=
  mkLimits 64 1 (60 * 60) 16 2 (2 * 60 * 60) (64 * 1024 * 1024).

(** [parse_bounded_usize], [parse_bounded_u64]: a [usize] has 64 bits. *)
Definition parse_bounded (label raw : string) (minimum maximum : Z) : result StartupError Z :=
  value ← ok_or (parse_u64 raw) (NotInteger label);
  reject_if (negb ((minimum <=? value) && (value <=? maximum))) (OutOfRange label minimum maximum);;
  mret value.

Section startup.
Context `{MultiaddrText}.

Record StartupOptions := mkOptions {
  archive_directory : option string;
  listen_addresses : list Multiaddr;
  external_addresses : list Multiaddr;
  enable_rendezvous_server : bool;
  enable_relay_server : bool;
  enable_upnp : bool;
  so_assume_public : bool;
  daemon : bool;
  volunteer_inputs : VolunteerInputs;
  relay_limits : RelayServerLimits;
  node_key_file : option string;
}.
Definition options_default : StartupOptions :=
  mkOptions None [] [] false false false false false inputs_default limits_default None.

(** [StartupOptions::node_identity_path]: a file, or the file
    [libp2p-identity-key] of a directory. *)
Inductive NodeKeyPath := KeyFile (path : string) | KeyInDirectory (directory : string).
Definition node_identity_path (self : StartupOptions) : option NodeKeyPath :=
  match node_key_file self with
  | Some path => Some (KeyFile path)
  | None => KeyInDirectory <$> archive_directory self
  end.

(** [push_listen_address], [push_external_address]. *)
Definition push_listen_address (addresses : list Multiaddr) (raw : string) : result StartupError (list Multiaddr) :=
  reject_if (8 <=? length addresses)%nat (TooManyAddresses "--listen");;
  address ← ok_or (addr_from_str raw) (AddressInvalid "--listen");
  reject_if (existsb is_p2p address) ListenWithPeer;;
  reject_if (bool_decide (address ∈ addresses)) AddressRepeated;;
  mret (addresses ++ [address]).
Definition push_external_address (addresses : list Multiaddr) (raw : string) : result StartupError (list Multiaddr) :=
  reject_if (8 <=? length addresses)%nat (TooManyAddresses "--external-address");;
  address ← ok_or (addr_from_str raw) (AddressInvalid "--external-address");
  reject_if ((length address =? 0)%nat || existsb is_p2p address) ExternalInvalid;;
  reject_if (negb (is_publishable_address address)) ExternalNotPublic;;
  reject_if (bool_decide (address ∈ addresses)) AddressRepeated;;
  mret (addresses ++ [address]).
Definition listen_at (raw : string) (o : StartupOptions) : result StartupError StartupOptions :=
  l ← push_listen_address (listen_addresses o) raw; mret { o with listen_addresses := l }.
Definition external_at (raw : string) (o : StartupOptions) : result StartupError StartupOptions :=
  l ← push_external_address (external_addresses o) raw; mret { o with external_addresses := l }.
(** [replace(..).is_some()]. *)
Definition archive_in (e : StartupError) (directory : string) (o : StartupOptions) : result StartupError StartupOptions :=
  reject_if (bool_decide (is_Some (archive_directory o))) e;; mret { o with archive_directory := Some directory }.
Definition key_in (e : StartupError) (path : string) (o : StartupOptions) : result StartupError StartupOptions :=
  reject_if (bool_decide (is_Some (node_key_file o))) e;; mret { o with node_key_file := Some path }.

(** ** [parse_startup_options] *)

(** The flags. *)
Definition once (given : bool) (option : string) (o : StartupOptions) : result StartupError StartupOptions :=
  reject_if given (GivenTwice option);; mret o.
Definition parse_flag (argument : string) (o : StartupOptions) : option (result StartupError StartupOptions) :=
  if String.eqb argument "--rendezvous-server" then
    Some (once (enable_rendezvous_server o) argument { o with enable_rendezvous_server := true })
  else if String.eqb argument "--relay-server" then
    Some (once (enable_relay_server o) argument { o with enable_relay_server := true })
  else if String.eqb argument "--upnp" then Some (once (enable_upnp o) argument { o with enable_upnp := true })
  else if String.eqb argument "--public-node" then
    Some (once (so_assume_public o) argument { o with so_assume_public := true })
  else if String.eqb argument "--daemon" then Some (once (daemon o) argument { o with daemon := true })
  else None.

(** The options whose value is the next argument. *)
Definition parse_valued (argument value : string) (o : StartupOptions) : option (result StartupError StartupOptions) :=
  if String.eqb argument "--archive-dir" then Some (archive_in (GivenTwice argument) value o)
  else if String.eqb argument "--listen" then Some (listen_at value o)
  else if String.eqb argument "--external-address" then Some (external_at value o)
  else if String.eqb argument "--node-key-file" then Some (key_in (GivenTwice argument) value o)
  else None.
Definition takes_value (argument : string) : bool :=
  String.eqb argument "--archive-dir" || String.eqb argument "--listen"
  || String.eqb argument "--external-address" || String.eqb argument "--node-key-file".

(** The options [--name=value], in the order in which they are tried. *)
Definition set_limits (f : RelayServerLimits → RelayServerLimits) (o : StartupOptions) : StartupOptions :=
  { o with relay_limits ::= f }.
Definition set_inputs (f : VolunteerInputs → VolunteerInputs) (o : StartupOptions) : StartupOptions :=
  { o with volunteer_inputs ::= f }.
Definition nonempty (value : string) (e : StartupError) : result StartupError unit := reject_if (String.eqb value "") e.
Definition assignments : list (string * (string → StartupOptions → result StartupError StartupOptions)) := [
  ("--volunteer-consent=", λ raw o, c ← map_err InputInvalid (consent_from_str raw);
     mret (set_inputs (λ i, { i with vi_consent := c }) o));
  ("--network-cost=", λ raw o, c ← map_err InputInvalid (network_cost_from_str raw);
     mret (set_inputs (λ i, { i with vi_network_cost := c }) o));
  ("--power-source=", λ raw o, p ← map_err InputInvalid (power_source_from_str raw);
     mret (set_inputs (λ i, { i with vi_power_source := p }) o));
  ("--relay-max-reservations=", λ raw o, n ← parse_bounded "--relay-max-reservations" raw 1 512;
     mret (set_limits (λ l, { l with rl_max_reservations := n }) o));
  ("--relay-max-reservations-per-peer=", λ raw o, n ← parse_bounded "--relay-max-reservations-per-peer" raw 1 16;
     mret (set_limits (λ l, { l with rl_max_reservations_per_peer := n }) o));
  ("--relay-max-circuits=", λ raw o, n ← parse_bounded "--relay-max-circuits" raw 1 128;
     mret (set_limits (λ l, { l with rl_max_circuits := n }) o));
  ("--relay-max-circuits-per-peer=", λ raw o, n ← parse_bounded "--relay-max-circuits-per-peer" raw 1 16;
     mret (set_limits (λ l, { l with rl_max_circuits_per_peer := n }) o));
  ("--relay-reservation-seconds=", λ raw o, n ← parse_bounded "--relay-reservation-seconds" raw 60 259200;
     mret (set_limits (λ l, { l with rl_reservation_duration := n }) o));
  ("--relay-circuit-seconds=", λ raw o, n ← parse_bounded "--relay-circuit-seconds" raw 60 86400;
     mret (set_limits (λ l, { l with rl_max_circuit_duration := n }) o));
  ("--relay-circuit-bytes=", λ raw o, n ← parse_bounded "--relay-circuit-bytes" raw (64 * 1024) (1024 * 1024 * 1024);
     mret (set_limits (λ l, { l with rl_max_circuit_bytes := n }) o));
  ("--archive-dir=", λ raw o, nonempty raw (ValueEmptyOrTwice "--archive-dir");;
     archive_in (ValueEmptyOrTwice "--archive-dir") raw o);
  ("--listen=", λ raw o, listen_at raw o);
  ("--external-address=", λ raw o, external_at raw o);
  ("--node-key-file=", λ raw o, nonempty raw (ValueEmptyOrTwice "--node-key-file");;
     key_in (ValueEmptyOrTwice "--node-key-file") raw o)
]%string.
Fixpoint parse_assignment (l : list (string * (string → StartupOptions → result StartupError StartupOptions)))
    (argument : string) (o : StartupOptions) : result StartupError StartupOptions :=
  match l with
  | [] => Err (UnknownArgument argument)
  | (prefix, set) :: l =>
      match strip_prefix prefix argument with
      | Some raw => set raw o
      | None => parse_assignment l argument o
      end
  end.

Fixpoint parse_arguments (arguments : list string) (o : StartupOptions) : result StartupError StartupOptions :=
  match arguments with
  | [] => Ok o
  | argument :: rest =>
      match parse_flag argument o with
      | Some r => o ← r; parse_arguments rest o
      | None =>
          if takes_value argument then
            match rest with
            | [] => Err (ValueMissing argument)
            | value :: rest =>
                o ← default (Err (UnknownArgument argument)) (parse_valued argument value o);
                parse_arguments rest o
            end
          else o ← parse_assignment assignments argument o; parse_arguments rest o
      end
  end.
Definition parse_startup_options (arguments : list string) : result StartupError StartupOptions :=
  o ← parse_arguments arguments options_default;
  reject_if (rl_max_reservations (relay_limits o) <? rl_max_reservations_per_peer (relay_limits o)) ReservationsPerPeer;;
  reject_if (rl_max_circuits (relay_limits o) <? rl_max_circuits_per_peer (relay_limits o)) CircuitsPerPeer;;
  mret o.

(** ** What is accepted *)

(** The addresses of one kind: at most eight, all different, none with a peer. *)
Definition addresses_ok (l : list Multiaddr) : Prop :=
  (length l <= 8)%nat ∧ NoDup l ∧ Forall (λ a, existsb is_p2p a = false) l.
Definition limits_ok (l : RelayServerLimits) : Prop :=
  1 <= rl_max_reservations l <= 512 ∧ 1 <= rl_max_reservations_per_peer l <= 16
  ∧ 1 <= rl_max_circuits l <= 128 ∧ 1 <= rl_max_circuits_per_peer l <= 16
  ∧ 60 <= rl_reservation_duration l <= 259200 ∧ 60 <= rl_max_circuit_duration l <= 86400
  ∧ 65536 <= rl_max_circuit_bytes l <= 1073741824.
Definition options_ok (o : StartupOptions) : Prop :=
  limits_ok (relay_limits o) ∧ addresses_ok (listen_addresses o) ∧ addresses_ok (external_addresses o)
  ∧ Forall (λ a, a ≠ [] ∧ is_publishable_address a = true) (external_addresses o).
Definition keeps_ok (r : result StartupError StartupOptions) : Prop := ∀ o, r = Ok o → options_ok o.

Lemma options_default_ok : options_ok options_default.
Proof. unfold options_ok, limits_ok, addresses_ok; cbn. split_and!; (lia || constructor). Qed.

Lemma parse_bounded_Ok label raw lo hi n : parse_bounded label raw lo hi = Ok n → lo <= n <= hi.
Proof. unfold parse_bounded. intros Hp. inv_ok. bool_props. lia. Qed.

Lemma addresses_push l a : addresses_ok l → (length l < 8)%nat → existsb is_p2p a = false → a ∉ l → addresses_ok (l ++ [a]).
Proof.
  intros (? & ? & ?) ???. unfold addresses_ok. rewrite length_app, NoDup_app, Forall_app. cbn.
  split_and!; try done; [lia|set_solver|apply NoDup_singleton|by repeat constructor].
Qed.
Lemma listen_at_ok raw o : options_ok o → keeps_ok (listen_at raw o).
Proof.
  intros (? & ? & ? & ?) o' Ho. unfold listen_at, push_listen_address in Ho. inv_ok. bool_props.
  split_and!; try done. cbn. by apply addresses_push.
Qed.
Lemma external_at_ok raw o : options_ok o → keeps_ok (external_at raw o).
Proof.
  intros (? & ? & ? & ?) o' Ho. unfold external_at, push_external_address in Ho. inv_ok. bool_props.
  split_and!; try done; cbn; [by apply addresses_push|]. apply Forall_app. split; [done|]. repeat constructor; [by intros ->|done].
Qed.
(** A setter of the table keeps the options in order. *)
Lemma assignments_ok : Forall (λ e, ∀ raw o, options_ok o → keeps_ok (e.2 raw o)) assignments.
Proof.
  unfold assignments. repeat (apply Forall_cons; split); [..|apply Forall_nil; exact I]; cbn [snd]; intros raw o Ho;
    try (by apply listen_at_ok); try (by apply external_at_ok);
    destruct Ho as (Hl & ? & ? & ?); intros o' Hr; unfold nonempty, archive_in, key_in in Hr; inv_ok; split_and!; try done;
    match goal with Hp : parse_bounded _ _ _ _ = Ok _ |- _ => apply parse_bounded_Ok in Hp end;
    destruct o as [? ? ? ? ? ? ? ? ? [] ?]; unfold limits_ok in *; cbn in *; unfold constant; lia.
Qed.
Lemma parse_assignment_ok l argument o :
  Forall (λ e, ∀ raw o, options_ok o → keeps_ok (e.2 raw o)) l → options_ok o → keeps_ok (parse_assignment l argument o).
Proof.
  intros Hl Ho. induction Hl as [|[prefix set] l Hs Hl IH]; [by intros ?|]. cbn. destruct (strip_prefix prefix argument); [by apply Hs|done].
Qed.
Lemma parse_flag_ok argument o r : options_ok o → parse_flag argument o = Some r → keeps_ok r.
Proof. intros (? & ? & ? & ?) Hr o' ->. unfold parse_flag, once in Hr. case_all; inv_ok; split_and!; done. Qed.
Lemma parse_valued_ok argument value o : options_ok o → keeps_ok (default (Err (UnknownArgument argument)) (parse_valued argument value o)).
Proof.
  intros Ho o' Hr. unfold parse_valued in Hr. repeat case_match; cbn in Hr; try done;
    try (by eapply listen_at_ok); try (by eapply external_at_ok);
    destruct Ho as (? & ? & ? & ?); unfold archive_in, key_in in Hr; inv_ok; split_and!; done.
Qed.
Lemma parse_arguments_ok n : ∀ arguments o, (length arguments <= n)%nat → options_ok o → keeps_ok (parse_arguments arguments o).
Proof.
  induction n as [|n IH]; intros [|argument rest] o Hn Ho; cbn in Hn; try lia; [by intros ? [= <-]..|].
  intros o' Hp. cbn [parse_arguments] in Hp. destruct (parse_flag argument o) as [r|] eqn:Hf.
  { apply bind_Ok in Hp as (o1 & -> & Hp). eapply (IH rest o1); [lia| |done]. by eapply parse_flag_ok. }
  destruct (takes_value argument).
  - destruct rest as [|value rest]; [done|]. apply bind_Ok in Hp as (o1 & H1 & Hp). cbn in Hn.
    eapply (IH rest o1); [lia| |done]. by eapply parse_valued_ok.
  - apply bind_Ok in Hp as (o1 & H1 & Hp). eapply (IH rest o1); [lia| |done]. by eapply parse_assignment_ok; [apply assignments_ok|..].
Qed.

(** A command line that is accepted gives every limit of the relay server a
    value in its range, with the limits per peer below the totals, and at most
    eight listening and eight public addresses, all different and none that
    names a peer. *)
Theorem startup_options_ok arguments o :
  parse_startup_options arguments = Ok o →
  options_ok o
  ∧ rl_max_reservations_per_peer (relay_limits o) <= rl_max_reservations (relay_limits o)
  ∧ rl_max_circuits_per_peer (relay_limits o) <= rl_max_circuits (relay_limits o).
Proof.
  unfold parse_startup_options. intros Hp. inv_ok. bool_props. split; [|done].
  eapply parse_arguments_ok; [reflexivity|apply options_default_ok|done].
Qed.

(** ** What the arguments say *)

(** The options of a command line, without the values that follow some. *)
Fixpoint options_of (arguments : list string) : list string :=
  match arguments with
  | [] => []
  | a :: rest => a :: if takes_value a then match rest with [] => [] | _ :: rest => options_of rest end else options_of rest
  end.
Definition asked (flag : string) (arguments : list string) : bool := existsb (λ a, String.eqb a flag) (options_of arguments).
(** The value that is given last, or [v]. *)
Definition value_of {A} (prefix : string) (parse : string → result VolunteerInputError A) (v : A) (a : string) : A :=
  match strip_prefix prefix a with Some raw => match parse raw with Ok x => x | _ => v end | None => v end.
Definition last_value {A} (prefix : string) (parse : string → result VolunteerInputError A) (v : A) (arguments : list string) : A :=
  foldl (value_of prefix parse) v (options_of arguments).
Definition inputs_given (arguments : list string) : VolunteerInputs :=
  mkInputs (last_value "--volunteer-consent=" consent_from_str Undecided arguments)
    (last_value "--network-cost=" network_cost_from_str CostUnknown arguments)
    (last_value "--power-source=" power_source_from_str PowerUnknown arguments).

(** The part of the options that decides what is served, and how one option
    changes it. *)
Record Choices := mkChoices {
  ch_rendezvous : bool; ch_relay : bool; ch_upnp : bool; ch_public : bool; ch_daemon : bool; ch_inputs : VolunteerInputs }.
Definition choices (o : StartupOptions) : Choices :=
  mkChoices (enable_rendezvous_server o) (enable_relay_server o) (enable_upnp o) (so_assume_public o) (daemon o) (volunteer_inputs o).
Definition choose (c : Choices) (a : string) : Choices :=
  mkChoices (ch_rendezvous c || String.eqb a "--rendezvous-server") (ch_relay c || String.eqb a "--relay-server")
    (ch_upnp c || String.eqb a "--upnp") (ch_public c || String.eqb a "--public-node") (ch_daemon c || String.eqb a "--daemon")
    (mkInputs (value_of "--volunteer-consent=" consent_from_str (vi_consent (ch_inputs c)) a)
       (value_of "--network-cost=" network_cost_from_str (vi_network_cost (ch_inputs c)) a)
       (value_of "--power-source=" power_source_from_str (vi_power_source (ch_inputs c)) a)).

Lemma parse_flag_choice a o o' : parse_flag a o = Some (Ok o') → choices o' = choose (choices o) a.
Proof.
  unfold parse_flag, once. repeat match goal with |- context [String.eqb a ?w] => destruct (String.eqb_spec a w) as [->|?] end;
    intros Ho; try done; injection Ho as Ho; inv_ok; destruct o as [? ? ? [] [] [] [] [] [? ? ?] ? ?]; try done.
Qed.
(** An option that is neither a flag nor a volunteer input changes nothing. *)
Lemma parse_valued_choice a value o o' :
  parse_valued a value o = Some (Ok o') → choices o' = choose (choices o) a.
Proof.
  unfold parse_valued, listen_at, external_at, archive_in, key_in.
  repeat match goal with |- context [String.eqb a ?w] => destruct (String.eqb_spec a w) as [->|?] end;
    intros Ho; try done; injection Ho as Ho; inv_ok; destruct o as [? ? ? [] [] [] [] [] [? ? ?] ? ?]; done.
Qed.
Lemma assignment_choice : Forall (λ e, ∀ raw o o', e.2 raw o = Ok o' → choices o' = choose (choices o) (e.1 ++ raw)%string) assignments.
Proof.
  unfold assignments. repeat (apply Forall_cons; split); [..|apply Forall_nil; exact I]; cbn [fst snd]; intros raw o o' Ho;
    unfold nonempty, archive_in, key_in, listen_at, external_at in Ho; inv_ok; destruct o as [? ? ? [] [] [] [] [] [? ? ?] ? ?];
    unfold choices, choose, value_of, String.append; cbn; unfold constant;
    repeat match goal with Hp : _ raw = Ok _ |- _ => rewrite Hp; clear Hp end; done.
Qed.
Lemma parse_assignment_choice l a o o' :
  Forall (λ e, ∀ raw o o', e.2 raw o = Ok o' → choices o' = choose (choices o) (e.1 ++ raw)%string) l →
  parse_assignment l a o = Ok o' → choices o' = choose (choices o) a.
Proof.
  intros Hl. induction Hl as [|[prefix set] l Hs Hl IH]; [done|]. cbn. destruct (strip_prefix prefix a) as [raw|] eqn:E; [|done].
  apply strip_prefix_Some in E as ->. apply Hs.
Qed.
Lemma flag_takes_none a o r : parse_flag a o = Some r → takes_value a = false.
Proof.
  unfold parse_flag. by repeat match goal with |- context [String.eqb a ?w] => destruct (String.eqb_spec a w) as [->|?]; [done|] end.
Qed.
Lemma parse_choices n : ∀ arguments o o', (length arguments <= n)%nat → parse_arguments arguments o = Ok o' →
  choices o' = foldl choose (choices o) (options_of arguments).
Proof.
  induction n as [|n IH]; intros [|a rest] o o' Hn Hp; cbn in Hn; try lia; [by injection Hp as <-..|].
  cbn [parse_arguments options_of] in *. destruct (parse_flag a o) as [r|] eqn:Hf.
  { apply bind_Ok in Hp as (o1 & -> & Hp). cbn [foldl]. rewrite <-(parse_flag_choice _ _ _ Hf).
    rewrite (flag_takes_none _ _ _ Hf).
    apply IH; [lia|done]. }
  destruct (takes_value a).
  - destruct rest as [|value rest]; [done|]. apply bind_Ok in Hp as (o1 & H1 & Hp). cbn in Hn.
    destruct (parse_valued a value o) as [r|] eqn:Hv; [|done]. cbn in H1. subst r. cbn [foldl].
    rewrite <-(parse_valued_choice _ _ _ _ Hv). apply IH; [lia|done].
  - apply bind_Ok in Hp as (o1 & H1 & Hp). cbn [foldl]. rewrite <-(parse_assignment_choice _ _ _ _ assignment_choice H1). apply IH; [lia|done].
Qed.
Lemma foldl_choose l : ∀ c, foldl choose c l =
  mkChoices (ch_rendezvous c || existsb (λ a, String.eqb a "--rendezvous-server") l) (ch_relay c || existsb (λ a, String.eqb a "--relay-server") l)
    (ch_upnp c || existsb (λ a, String.eqb a "--upnp") l) (ch_public c || existsb (λ a, String.eqb a "--public-node") l)
    (ch_daemon c || existsb (λ a, String.eqb a "--daemon") l)
    (mkInputs (foldl (value_of "--volunteer-consent=" consent_from_str) (vi_consent (ch_inputs c)) l)
       (foldl (value_of "--network-cost=" network_cost_from_str) (vi_network_cost (ch_inputs c)) l)
       (foldl (value_of "--power-source=" power_source_from_str) (vi_power_source (ch_inputs c)) l)).
Proof.
  induction l as [|a l IH]; intros c; [cbn; rewrite !orb_false_r; by destruct c as [? ? ? ? ? []]|].
  cbn [foldl existsb]. rewrite IH. cbn [choose ch_rendezvous ch_relay ch_upnp ch_public ch_daemon ch_inputs vi_consent vi_network_cost vi_power_source].
  by rewrite !orb_assoc.
Qed.
(** The parser reads what is there: a flag is set exactly when it is among the
    options, and an input is the one given last. *)
Lemma parsed_choices arguments o :
  parse_startup_options arguments = Ok o →
  choices o = mkChoices (asked "--rendezvous-server" arguments) (asked "--relay-server" arguments) (asked "--upnp" arguments)
                (asked "--public-node" arguments) (asked "--daemon" arguments) (inputs_given arguments).
Proof.
  unfold parse_startup_options. intros Hp. inv_ok.
  match goal with Ha : parse_arguments _ _ = Ok _ |- _ => rewrite (parse_choices _ _ _ _ (le_n _) Ha) end.
  by rewrite foldl_choose.
Qed.
End startup.
