(* ===== verification/SidecarState.v ===== *)
(** * SidecarState: the state of the worker process (token-holdem-sidecar main.rs)

    [RuntimeState] owns the runtimes of the other files, the player's identity
    and what is known of the account.  A function of main.rs on [&mut swarm]
    and [&mut state] is a method on [Process]: the state, the archive
    directory and the world.  Standard output, the clocks, listeners and
    response channels are external ([Host]), and so are the Unicode tables
    behind [str::to_lowercase] and the texts of errors. *)

From coqutil Require Import Datatypes.RecordSetters.
From S2P Require Import Prelude Machine Encoding Order Ids Table TablePool Receipt Identity SignedReceipt UseCases.
From S2P Require Import Session NetworkAddress HandAction MentalPoker Room PoolProtocol Swarm SessionState SessionRuntime SessionDelivery.
From S2P Require Import HandState HandRuntime PoolRuntime ArchiveNode ArchiveRuntime Command Volunteer Discovery Recovery.
Import OCamlLikeNotations.

Definition DEVICE_CERTIFICATE_LIFETIME_MS : Z := 365 * 24 * 60 * 60 * 1000.
Definition FRIEND_INVITE_LIFETIME_MS : Z := 30 * 60 * 1000.
Definition RECOVERY_CODE_PREFIX : list Z := string_bytes "THR1-".
Definition FRIEND_INVITE_PREFIX : list Z := string_bytes "TH1-".
Definition MAX_RECOVERY_CODE_BYTES : Z := 16384.
Definition MAX_INVITE_CODE_BYTES : Z := 16384.
Definition MIN_RECOVERY_SECRET_CHARS : Z := 12.
Definition MAX_RECOVERY_SECRET_CHARS : Z := 256.
Definition DEFAULT_DISCOVERY_NAMESPACE : string := "token-holdem/v1".
Definition TABLE_POOL_TOPIC_PREFIX : string := "/token-holdem/table-pool/3/".

(** What the functions report through [anyhow]. *)
Inductive MainError :=
  | StdoutFailed | SignalFailed | ClockInvalid | ResponseNotSent
  | AddressTextInvalid | AddressWithoutPeer | AddressNotOfPeer | DialFailed | ArchiveNodeCount | NoDialableAddress
  | AccountIdentifierInvalid | NoObservation | ObservationFromFuture | NoAccountBinding | AccountChanged
  | IdentityOfOtherAccount | RestorePending | IdentityLoaded | NotIdle | SecretLength | IdentityMissing
  | CertificateLifetimeOverflow | PayloadNotOfIdentity | RestoreMissing | EnvelopeMissing | RestoreExhausted (e : MainError)
  | RestoreCandidateRefused (e : MainError)
  | AlreadyAtTable | AtTableCannotCancel | NothingToCancel | NothingToLeave | BuyInAboveTokens | BuyInOutsideLevel
  | LevelIdInvalid | LevelUnknown | InviteLifetimeOverflow | InvitePeerInvalid | TicketMissing | SessionOpen
  | RaiseWithoutTarget | ActionUnknown
  | FromLevel (e : StakeLevelError) | FromPool (e : PoolError) | FromRoom (e : RoomError) | FromHand (e : HandError)
  | FromArchive (e : ArchiveError) | FromDiscovery (e : DiscoveryError) | FromRecovery (e : RecoveryError)
  | FromCode (e : ProtocolCodeError) | FromCertificate (e : CertificateError) | FromInvite (e : FriendRoomInviteError)
  | FromStatistics (e : StatisticsError).

(** The messages for the user. *)
Inductive Notice :=
  | CommandNotExecuted (e : MainError) | CommandNotDecoded (e : SidecarCommandError) | CommandNotRead
  | RecoverableFault (text : string)
  | PoolMessageDropped (e : MainError) | RoomMessageDropped (e : MainError) | HandMessageDropped (e : MainError)
  | PoolRequestRefused (e : MainError) | RoomRequestRefused (e : MainError) | HandRequestRefused (e : MainError)
  | RemoteRestoreFailed (e : MainError) | PeerRefused (reason : string) | DeliveryFailed (peer : list Z) (error : string)
  | RoomUnreachable (room : TableId) (summary : string) | BootstrapUnreachable.
Inductive FailureText := ErrorText (e : MainError) | AccountSwitched | ArchiveFailure (r : ArchiveReason)
  | CandidatesExhausted (e : MainError).

(** [RecentHand]. *)
Record RecentHand := mkRecentHand {
  rh_address : ContentAddress;
  rh_receipt_id : list Z;
  rh_hand_number : Z;
  rh_level_id : string;
  rh_players : Z;
  rh_settled_at : Z;
  rh_delta : Z;
  rh_archived : bool;
}.

(** [SidecarEvent]. *)
Inductive SidecarEvent :=
  | EvReady (peer : list Z) (protocol_version : string)
  | TokenSnapshotAccepted (lifetime_tokens : Z) (username display_name : option string) (fingerprint : list Z)
      (observed_at : Z) (source : TokenSnapshotSource)
  | IdentityReady (request_id : option string) (fingerprint : list Z) (secret_confirmed : option bool)
      (player : PlayerId) (device : DevicePublicKey) (device_label : string) (expires_at : Z)
      (recovery_envelope : list Z) (remote_replicas : Z)
  | IdentityCleared
  | CommandFailed (request_id command_type : string) (message : FailureText)
  | CommandConfirmed (request_id command_type : string)
  | ListenAddress (address : string)
  | PeerConnected (peer connection remote : list Z) (established : Z)
  | PeerDisconnected (peer connection remote : list Z) (remaining : Z) (reason : string) (retained : bool)
  | FriendRoomCreated (invite_code : list Z) (room : TableId) (buy_in expires_at : Z)
  | FriendRoomJoining (room : TableId) (host : list Z)
  | FriendRoomJoined (room : TableId) (host : list Z)
  | StatisticsUpdated (s : PlayerStatistics) (won_hands lost_hands split_hands : Z) (recent : list RecentHand)
  | SidecarWarning (n : Notice)
  | ShutdownComplete.

(** ** Texts *)

(** The string of some bytes; [str::trim] of a string. *)
Definition byte_ascii (b : Z) : Ascii.ascii := Ascii.ascii_of_N (Z.to_N b).
Fixpoint bytes_string (l : list Z) : string :=
  match l with [] => EmptyString | b :: l => String (byte_ascii b) (bytes_string l) end.
Definition trim_string (s : string) : string := bytes_string (trim (string_bytes s)).

(** [validate_recovery_secret] of main.rs. *)
Definition check_recovery_secret (secret : list Z) : result MainError unit :=
  reject_if (negb ((MIN_RECOVERY_SECRET_CHARS <=? char_count secret) && (char_count secret <=? MAX_RECOVERY_SECRET_CHARS)))
    SecretLength.

(** [normalize_level_id], [table_pool_topic], [stake_level]. *)
Definition normalize_level_id (level_id : string) : result MainError string :=
  let normalized := map ascii_lowercase (trim (string_bytes level_id)) in
  reject_if ((length normalized =? 0)%nat || (64 <? length normalized)%nat
    || negb (forallb (λ b, is_ascii_alphanumeric b || (b =? 45) || (b =? 95)) normalized)) LevelIdInvalid;;
  mret (bytes_string normalized).
Definition table_pool_topic (level_id : string) : result MainError string :=
  normalized ← normalize_level_id level_id; mret (String.append TABLE_POOL_TOPIC_PREFIX normalized).
Definition stake_level (level_id : string) : result MainError StakeLevel :=
  normalized ← normalize_level_id level_id;
  level ← map_err FromLevel (public_stake_level normalized);
  ok_or level LevelUnknown.

(** [str::contains] and [summarize_dial_error]. *)
Definition contains (s part : string) : bool := match String.index 0 part s with Some _ => true | None => false end.
Definition summarize_dial_error (error : string) : string :=
  if contains error "timed out" || contains error "超时" then "连接超时"
  else if contains error "10061" || contains error "refused" || contains error "拒绝" then "对方拒绝连接"
  else if contains error "10048" || contains error "in use" || contains error "使用一次" then "本机端口正忙"
  else "网络协商失败".

(** ** Addresses *)
Section addresses.
Context `{Libp2p}.

(** [is_dialable_address], [remember_address], [forget_address],
    [first_peer_id], [strip_trailing_peer]. *)
Definition is_dialable_address (address : Multiaddr) : bool :=
  forallb (λ protocol, match protocol with
    | Ip4 a b c d => negb (ipv4_is_unspecified a b c d)
    | Ip6 s => negb (ipv6_is_unspecified s)
    | _ => true
    end) address.
Definition remember_address (target : list Multiaddr) (address : Multiaddr) : list Multiaddr :=
  if is_dialable_address address && negb (bool_decide (address ∈ target)) then target ++ [address] else target.
Definition forget_address (target : list Multiaddr) (address : Multiaddr) : list Multiaddr :=
  filter (λ candidate, candidate ≠ address) target.
Definition first_peer_id (address : Multiaddr) : option PeerId := peer_id_from_address address.
Definition strip_trailing_peer (address : Multiaddr) (expected_peer_id : PeerId) : result MainError Multiaddr :=
  match last address with
  | Some (P2p peer) => if bool_decide (peer = expected_peer_id) then Ok (addr_pop address) else Err AddressNotOfPeer
  | _ => Err AddressNotOfPeer
  end.

(** The loop of [collect_session_addresses]: the address with the local peer
    at its end, at most eight of them. *)
Definition local_address (local : PeerId) (address : Multiaddr) : option Multiaddr :=
  if negb (is_dialable_address address) then None else
  match last address with
  | Some (P2p peer) => if bool_decide (peer = local) then Some address else None
  | _ => Some (address ++ [P2p local])
  end.
Fixpoint collect_addresses (local : PeerId) (found : list Multiaddr) (l : list Multiaddr) : list Multiaddr :=
  match l with
  | [] => found
  | address :: l =>
      match local_address local address with
      | None => collect_addresses local found l
      | Some dialable =>
          let found := if bool_decide (dialable ∈ found) then found else found ++ [dialable] in
          if (length found =? 8)%nat then found else collect_addresses local found l
      end
  end.
End addresses.

(** ** The state *)
Section state.
Context `{Crypto, Libp2p, Ziffle, !World, !OsRandom, !HandCodec, !RoomCodec, !PoolCodec, !HexCodec, !DirOrder, !ReceiptJson}.
Context `{!Rendezvous, !MultiaddrText}.

(** What [emit] writes. *)
Inductive Output :=
  | OutSidecar (e : SidecarEvent) | OutPool (e : TablePoolEvent) | OutRoom (e : TableSessionEvent) | OutHand (e : HandEvent)
  | OutHandNotice (n : Notice) | OutArchive (e : ArchiveEvent) | OutDiscovery (e : DiscoveryEvent)
  | OutRelay (e : RelayEvent) | OutVolunteer (e : VolunteerEvent).

Class Host := {
  ResponseChannel : Type;
  write_event : Output → world → bool * world;
  unix_time : world → option Z * world;
  instant_now : world → Z * world;
  connected_peers : world → list PeerId;
  listeners : world → list Multiaddr;
  dial_multiaddr : Multiaddr → world → bool * world;
  is_peer_connection_retained : world → PeerId → bool;
  send_response : ResponseChannel → ControlResponse → world → bool * world;
  hop_protocol_name : string;
  to_lowercase : list Z → list Z;
  error_text : MainError → string;
  fault_text : string → MainError → string;
}.

Record ActiveIdentity := mkIdentity {
  id_fingerprint : list Z;
  id_player : PlayerId;
  id_device : list Z;
  id_certificate : DeviceCertificate;
  id_envelope : list Z;
  id_locator : list Z;
  id_payload : list Z;
  id_replicas : Z;
}.
Record PendingRemoteRestore := mkRestore {
  pr_request_id : option string;
  pr_fingerprint : list Z;
  pr_locator : list Z;
  pr_secret : list Z;
  pr_device_label : string;
}.
Record LocalTokenObservation := mkObservation {
  lifetime_tokens : Z;
  ob_fingerprint : list Z;
  identity_binding_available : bool;
  observed_at_unix_ms : Z;
}.
Record RuntimeState := mkState {
  st_identity : option ActiveIdentity;
  pending_remote_restore : option PendingRemoteRestore;
  token_observation : option LocalTokenObservation;
  st_listen_addresses : list Multiaddr;
  st_external_addresses : list Multiaddr;
  pending_room_joins : gmap PeerId TableId;
  st_pool : TablePoolRuntime;
  st_session : option ActiveSession;
  st_hand : HandRuntime;
  st_archive : ArchiveRuntime;
  st_discovery : DiscoveryRuntime;
  st_relay : gmap PeerId RelayCandidate;
  st_volunteer : VolunteerRuntime;
}.
Definition state_new (archive : ArchiveRuntime) (volunteer : VolunteerRuntime) : RuntimeState :=
  mkState None None None [] [] ∅ None None (mkRuntime _ _ _ None [] []) archive discovery_default ∅ volunteer.

(** The state, the archive directory and the world. *)
Record Process := mkProcess {
  ps_state : RuntimeState;
  ps_disk : Disk;
  ps_world : world;
}.
End state.
Notation MainM := (M Process MainError).
