(* ===== verification/SidecarEvents.v ===== *)
(** * SidecarEvents: what the worker does with the events of its runtimes (token-holdem-sidecar main.rs)

    The runtimes return events; the worker writes them to standard output and
    reacts: an identity is restored when its package arrives, a receipt is
    archived, a hand starts when its roster is ready, and its end is told to
    the session.  The functions call each other; [process_table_session_events]
    and [process_archive_events] take a bound on the depth, and one is enough
    ([session_depth], [archive_depth] in SidecarInv). *)

From coqutil Require Import Datatypes.RecordSetters.
From S2P Require Import Prelude Machine Encoding Order Ids Table TablePool Receipt Identity SignedReceipt UseCases.
From S2P Require Import Wire Session NetworkAddress HandAction MentalPoker Room PoolProtocol Swarm SessionState SessionRuntime SessionDelivery.
From S2P Require Import HandState HandRuntime PoolRuntime ArchiveNode ArchiveRuntime Command Volunteer Discovery Recovery SidecarState.
Import OCamlLikeNotations.

Section events.
Context `{Crypto, Libp2p, Ziffle, !World, !OsRandom, !HandCodec, !RoomCodec, !PoolCodec, !HexCodec, !DirOrder, !ReceiptJson}.
Context `{!Rendezvous, !MultiaddrText, !Host, !RecoveryCrypto, !Cbor RecoveryEnvelope, !Cbor FriendRoomInvite, !Base64}.

(** ** The parts of the process *)
Definition the_state : MainM RuntimeState := gets ps_state.
Definition set_state (f : RuntimeState → RuntimeState) : MainM unit := modify (λ p, { p with ps_state ::= f }).
Definition look {A} (f : world → A) : MainM A := gets (λ p, f (ps_world p)).
Definition swarm_do (f : world → world) : MainM unit := modify (λ p, { p with ps_world ::= f }).
Definition in_world {A} (f : world → A * world) : MainM A :=
  λ p, let '(v, w) := f (ps_world p) in (Ok v, { p with ps_world := w }).
(** [match m { Ok(v) => .., Err(e) => .. }]. *)
Definition attempt {A} (m : MainM A) : MainM (A + MainError) :=
  λ p, match m p with
       | (Ok v, p) => (Ok (inl v), p)
       | (Err e, p) => (Ok (inr e), p)
       | (Panic, p) => (Panic, p)
       end.

(** A method of one of the runtimes, with the swarm. *)
Definition on_part {T E A} (get : RuntimeState → T) (set : T → RuntimeState → RuntimeState) (inj : E → MainError)
    (m : M (T * world) E A) : MainM A :=
  λ p, let '(v, (t, w)) := m (get (ps_state p), ps_world p) in
       (map_err inj v, mkProcess (set t (ps_state p)) (ps_disk p) w).
Definition on_pool {A} : M (TablePoolRuntime * world) PoolError A → MainM A :=
  on_part st_pool (λ t s, { s with st_pool := t }) FromPool.
Definition on_hand {A} : M (HandRuntime * world) HandError A → MainM A :=
  on_part st_hand (λ t s, { s with st_hand := t }) FromHand.
Definition on_archive {A} : M (ArchiveRuntime * world) ArchiveError A → MainM A :=
  on_part st_archive (λ t s, { s with st_archive := t }) FromArchive.
Definition on_discovery {A} : M (DiscoveryRuntime * world) DiscoveryError A → MainM A :=
  on_part st_discovery (λ t s, { s with st_discovery := t }) FromDiscovery.
Definition on_relay {A} : M (gmap PeerId RelayCandidate * world) DiscoveryError A → MainM A :=
  on_part st_relay (λ t s, { s with st_relay := t }) FromDiscovery.
(** The session runtime: [if_none] is what a method does without a session. *)
Definition room_part {A} (if_none : result RoomError A) (m : M (ActiveSession * world) RoomError A)
    : M (option ActiveSession * world) RoomError A :=
  λ s, match s.1 with
       | None => (if_none, s)
       | Some a => let '(v, (a, w)) := m (a, s.2) in (v, (Some a, w))
       end.
Definition on_room {A} (if_none : result RoomError A) (m : M (ActiveSession * world) RoomError A) : MainM A :=
  on_part st_session (λ t s, { s with st_session := t }) FromRoom (room_part if_none m).
(** A new session replaces the one before; a failed one leaves it. *)
Definition enter_room (m : M world RoomError (ActiveSession * list TableSessionEvent)) : MainM (list TableSessionEvent) :=
  λ p, match m (ps_world p) with
       | (Ok (a, events), w) => (Ok events, mkProcess { ps_state p with st_session := Some a } (ps_disk p) w)
       | (Err e, w) => (Err (FromRoom e), { p with ps_world := w })
       | (Panic, w) => (Panic, { p with ps_world := w })
       end.
(** [close] of the session. *)
Definition close_room : MainM (option TableSessionEvent) :=
  s ← the_state;
  match st_session s with
  | None => mret None
  | Some a =>
      set_state (λ s, { s with st_session := None });;
      event ← in_world (SessionDelivery.close a);
      mret (Some event)
  end.

(** ** Output and time *)

(** [emit], [unix_time_ms], [Instant::now]. *)
Definition emit (o : Output) : MainM unit :=
  written ← in_world (write_event o); lift (reject_if (negb written) StdoutFailed).
Definition emit_all (l : list Output) : MainM unit := for_each emit l.
Definition emit_option (o : option Output) : MainM unit := match o with Some e => emit e | None => mret tt end.
Definition unix_time_ms : MainM Z := time ← in_world unix_time; lift (ok_or time ClockInvalid).
Definition now_monotonic : MainM Z := in_world instant_now.
Definition need_identity : MainM ActiveIdentity := s ← the_state; lift (ok_or (st_identity s) IdentityMissing).

(** ** The account and the identity *)

(** [account_fingerprint]. *)
Definition present (value : option string) : option (list Z) :=
  match trim ∘ string_bytes <$> value with Some (b :: l) => Some (b :: l) | _ => None end.
(** [char::is_control] for some character of the text. *)
Fixpoint has_control (l : list Z) : bool :=
  match l with
  | [] => false
  | b :: rest =>
      (b <? 32) || (b =? 127) || ((b =? 194) && match rest with c :: _ => (128 <=? c) && (c <? 160) | [] => false end)
      || has_control rest
  end.
Definition account_binding (source : TokenSnapshotSource) (account username display_name : option (list Z))
    : option (list Z * list Z) :=
  match account, source with
  | Some value, _ => Some (string_bytes "codex-account-id", to_lowercase value)
  | None, CodexAppServerAccountUsage => None
  | None, LegacyAgentProfileObservation =>
      match username with
      | Some value => Some (string_bytes "username", map ascii_lowercase value)
      | None => (λ value, (string_bytes "display-name", value)) <$> display_name
      end
  end.
Definition fingerprint_document (binding : option (list Z * list Z)) : list Z :=
  domain_bytes "token-holdem/local-codex-profile/v1"
  ++ match binding with
     | Some (kind, value) => kind ++ be_bytes 4 (as_u32 (Z.of_nat (length value))) ++ value
     | None => string_bytes "unavailable"
     end.
Definition account_fingerprint (source : TokenSnapshotSource) (account_identifier username display_name : option string)
    : result MainError (list Z * bool) :=
  let account := present account_identifier in
  reject_if (match account with Some v => (512 <? length v)%nat || has_control v | None => false end) AccountIdentifierInvalid;;
  let binding := account_binding source account (present username) (present display_name) in
  mret (display_hex (blake3 (fingerprint_document binding)), bool_decide (is_Some binding)).

(** [identity_account_fingerprint], [checked_identity_account]. *)
Definition identity_account_fingerprint : MainM (list Z) :=
  s ← the_state;
  observation ← lift (ok_or (token_observation s) NoObservation);
  now ← unix_time_ms;
  lift (reject_if (u64_saturating_add now 60000 <? observed_at_unix_ms observation) ObservationFromFuture);;
  lift (reject_if (negb (identity_binding_available observation)) NoAccountBinding);;
  mret (ob_fingerprint observation).
Definition checked_identity_account (expected : list Z) : MainM (list Z) :=
  actual ← identity_account_fingerprint;
  lift (reject_if (negb (bool_decide (expected = actual))) AccountChanged);;
  mret actual.

(** [ensure_identity_slot_is_empty], [ensure_identity_replaceable]. *)
Definition ensure_identity_slot_is_empty : MainM unit :=
  s ← the_state;
  lift (reject_if (bool_decide (is_Some (pending_remote_restore s))) RestorePending);;
  lift (reject_if (bool_decide (is_Some (st_identity s))) IdentityLoaded).
Definition idle (s : RuntimeState) : bool :=
  bool_decide (st_session s = None) && negb (HandRuntime.is_active (st_hand s)) && bool_decide (st_pool s = None)
  && bool_decide (pending_room_joins s = ∅).
Definition ensure_identity_replaceable : MainM unit := s ← the_state; lift (reject_if (negb (idle s)) NotIdle).

(** [activate_identity], [create_identity], [restore_identity]. *)
Definition activate_identity (root : list Z) (envelope : RecoveryEnvelope) (locator payload fingerprint : list Z)
    (device_label : string) (now : Z) : MainM ActiveIdentity :=
  device ← in_world (fill_bytes 32);
  expires_at ← lift (ok_or (u64_checked_add now DEVICE_CERTIFICATE_LIFETIME_MS) CertificateLifetimeOverflow);
  certificate ← lift (map_err FromCertificate
    (issue_device_certificate root (device_public_key device) (trim_string device_label) now expires_at));
  decoded ← lift (map_err FromCode (decode_payload payload));
  lift (reject_if (negb (bool_decide (decoded = envelope))) PayloadNotOfIdentity);;
  mret (mkIdentity fingerprint (root_player_id root) device certificate
          (encode_payload_code RECOVERY_CODE_PREFIX payload) locator payload 0).
Definition create_identity (secret : list Z) (device_label : string) (fingerprint : list Z) (now : Z) : MainM ActiveIdentity :=
  lift (check_recovery_secret secret);;
  locator ← lift (map_err FromRecovery (derive_recovery_locator fingerprint secret));
  root ← in_world (fill_bytes 32);
  salt ← in_world (fill_bytes 16);
  nonce ← in_world (fill_bytes 24);
  envelope ← lift (map_err FromRecovery (seal_for_account root secret fingerprint salt nonce));
  payload ← lift (map_err FromCode (encode_payload envelope));
  activate_identity root envelope locator payload fingerprint device_label now.
Definition restore_identity (code secret : list Z) (device_label : string) (fingerprint : list Z) (now : Z) : MainM ActiveIdentity :=
  lift (check_recovery_secret secret);;
  '(envelope, payload) ← lift (map_err FromCode (decode_code_with_payload RECOVERY_CODE_PREFIX code MAX_RECOVERY_CODE_BYTES));
  root ← lift (map_err FromRecovery (open_for_account envelope secret fingerprint));
  locator ← lift (map_err FromRecovery (derive_recovery_locator fingerprint secret));
  activate_identity root envelope locator payload fingerprint device_label now.

(** [emit_identity_ready], [fail_remote_restore], [reconcile_account]. *)
Definition emit_identity_ready (identity : ActiveIdentity) (request_id : option string) (confirmed : option bool) : MainM unit :=
  emit (OutSidecar (IdentityReady request_id (id_fingerprint identity) confirmed (id_player identity)
    (device_public_key (id_device identity)) (label (id_certificate identity)) (expires_at_unix_ms (id_certificate identity))
    (id_envelope identity) (id_replicas identity))).
Definition fail_remote_restore (message : FailureText) : MainM unit :=
  s ← the_state;
  match pending_remote_restore s with
  | None => mret tt
  | Some pending =>
      set_state (λ s, { s with pending_remote_restore := None; st_archive ::= cancel_recovery_fetch (pr_locator pending) });;
      match pr_request_id pending with
      | Some request_id => emit (OutSidecar (CommandFailed request_id "restore_remote_identity" message))
      | None => mret tt
      end
  end.
Definition reconcile_account (fingerprint : list Z) : MainM unit :=
  s ← the_state;
  if match token_observation s with None => true | Some o => bool_decide (ob_fingerprint o = fingerprint) end then mret tt else
  ensure_identity_replaceable;;
  fail_remote_restore AccountSwitched;;
  set_state (λ s, { s with st_identity := None });;
  emit (OutSidecar IdentityCleared).

(** ** Statistics *)

(** [emit_statistics]: the hands of the player, the latest twenty in detail. *)
Record HandTally := mkTally { won_hands : Z; lost_hands : Z; split_hands : Z }.
Definition tally (t : HandTally) (d : Z) : HandTally :=
  match Z.compare d 0 with
  | Gt => { t with won_hands ::= λ n, u64_saturating_add n 1 }
  | Lt => { t with lost_hands ::= λ n, u64_saturating_add n 1 }
  | Eq => { t with split_hands ::= λ n, u64_saturating_add n 1 }
  end.
Definition recent_hand (archive : ArchiveRuntime) (player : PlayerId) (entry : ContentAddress * CoSignedReceipt) : option RecentHand :=
  let r := co_receipt entry.2 in
  outcome ← outcome_for r player;
  Some (mkRecentHand entry.1 (as_bytes (receipt_id blake3 r)) (rc_hand_number r) (stake_level_id r)
          (u8_or_max (length (outcomes r))) (settled_at_unix_ms r) (delta outcome) (is_archived archive entry.1)).
Definition statistics_event (archive : ArchiveRuntime) (player : PlayerId) : result MainError SidecarEvent :=
  let receipts := btree_entries (verified_receipts archive) in
  statistics ← map_err FromStatistics (derive player (map (co_receipt ∘ snd) receipts));
  let hands := omap (recent_hand archive player) receipts in
  let t := fold_left tally (map rh_delta hands) (mkTally 0 0 0) in
  mret (StatisticsUpdated statistics (won_hands t) (lost_hands t) (split_hands t)
          (take 20 (sort_by_key (λ h, - rh_settled_at h) hands))).
Definition emit_statistics : MainM unit :=
  s ← the_state;
  match st_identity s with
  | None => mret tt
  | Some identity => event ← lift (statistics_event (st_archive s) (id_player identity)); emit (OutSidecar event)
  end.

(** ** The archive *)

(** The loop of [process_archive_events]: whether the identity has changed, and
    whether the package that is waited for has arrived. *)
Definition awaits_package (s : RuntimeState) (locator : Locator) : bool :=
  match pending_remote_restore s with Some pending => bool_decide (pr_locator pending = locator) | None => false end.
Definition count_replicas (locator : Locator) (replicas : Z) (s : RuntimeState) : bool * RuntimeState :=
  match st_identity s with
  | Some identity =>
      if bool_decide (id_locator identity = locator) && negb (id_replicas identity =? replicas)
      then (true, { s with st_identity := Some { identity with id_replicas := replicas } }) else (false, s)
  | None => (false, s)
  end.
Definition observe_archive_event (acc : bool * bool) (event : ArchiveEvent) : MainM (bool * bool) :=
  s ← the_state;
  acc ← match event with
    | RecoveryBackupStored locator replicas =>
        let '(changed, _) := count_replicas locator replicas s in
        set_state (λ s, (count_replicas locator replicas s).2);;
        mret (acc.1 || changed, acc.2)
    | RecoveryBackupFetched locator => mret (acc.1, acc.2 || awaits_package s locator)
    | RecoveryBackupFailed locator reason =>
        if awaits_package s locator then fail_remote_restore (ArchiveFailure reason);; mret acc else mret acc
    | _ => mret acc
    end;
  emit (OutArchive event);;
  mret acc.
Fixpoint observe_archive_events (acc : bool * bool) (events : list ArchiveEvent) : MainM (bool * bool) :=
  match events with
  | [] => mret acc
  | event :: events => acc ← observe_archive_event acc event; observe_archive_events acc events
  end.

Section with_archive_events.
(** [process_archive_events], for the calls inside. *)
Context (process_archive_events : list ArchiveEvent → MainM unit).

(** [publish_identity_recovery], [sync_statistics]. *)
Definition publish_identity_recovery_with : MainM unit :=
  s ← the_state;
  match st_identity s with
  | None => mret tt
  | Some identity =>
      events ← on_archive (publish_recovery (id_locator identity) (id_payload identity));
      process_archive_events events
  end.
Definition sync_statistics_with : MainM unit :=
  identity ← need_identity;
  events ← on_archive (sync_player (id_player identity));
  process_archive_events events.

(** [complete_remote_restore]. *)
Definition open_recovered (pending : PendingRemoteRestore) (payload : list Z) : MainM ActiveIdentity :=
  envelope ← lift (map_err FromCode (decode_payload payload));
  fingerprint ← checked_identity_account (pr_fingerprint pending);
  root ← lift (map_err FromRecovery (open_for_account envelope (pr_secret pending) fingerprint));
  now ← unix_time_ms;
  activate_identity root envelope (pr_locator pending) payload fingerprint (pr_device_label pending) now.
Definition refuse_candidate {A} (locator : Locator) (e : MainError) : MainM A :=
  s ← the_state;
  if recovery_fetch_is_exhausted (st_archive s) locator then
    fail_remote_restore (CandidatesExhausted e);; lift (Err (RestoreExhausted e))
  else lift (Err (RestoreCandidateRefused e)).
Definition take_envelope (locator : Locator) : MainM (option (list Z)) :=
  λ p, let '(envelope, archive) := take_recovered_envelope locator (st_archive (ps_state p)) in
       (Ok envelope, { p with ps_state ::= λ s, { s with st_archive := archive } }).
Definition complete_remote_restore_with : MainM unit :=
  ensure_identity_replaceable;;
  s ← the_state;
  pending ← lift (ok_or (pending_remote_restore s) RestoreMissing);
  let locator := pr_locator pending in
  payload ← take_envelope locator;
  payload ← lift (ok_or payload EnvelopeMissing);
  opened ← attempt (open_recovered pending payload);
  match opened with
  | inr e => refuse_candidate locator e
  | inl identity =>
      set_state (λ s, { s with st_archive ::= cancel_recovery_fetch locator; pending_remote_restore := None });;
      emit_identity_ready identity (pr_request_id pending) (Some true);;
      set_state (λ s, { s with st_identity := Some identity });;
      publish_identity_recovery_with;;
      sync_statistics_with
  end.
End with_archive_events.

(** [process_archive_events]. *)
Definition report_identity_status : MainM unit :=
  s ← the_state;
  match st_identity s with Some identity => emit_identity_ready identity None None | None => mret tt end.
Fixpoint process_archive_events (depth : nat) (events : list ArchiveEvent) : MainM unit :=
  '(changed, ready) ← observe_archive_events (false, false) events;
  (if (changed : bool) then report_identity_status else mret tt);;
  (if (ready : bool) then
     match depth with
     | O => lift Panic
     | S depth =>
         restored ← attempt (complete_remote_restore_with (process_archive_events depth));
         match restored with
         | inl _ => mret tt
         | inr e => emit (OutSidecar (SidecarWarning (RemoteRestoreFailed e)))
         end
     end
   else mret tt);;
  emit_statistics.
(** One restore at most happens during the processing of some events. *)
Definition archive_depth_bound : nat := 1.
Definition archived (events : list ArchiveEvent) : MainM unit := process_archive_events archive_depth_bound events.
Definition publish_identity_recovery : MainM unit := publish_identity_recovery_with archived.
Definition sync_statistics : MainM unit := sync_statistics_with archived.

(** ** The pool *)

(** [process_pool_events]: a session that still waits for an answer of the
    table that was given up is closed. *)
Definition is_stale_join (s : RuntimeState) (table : TableId) : bool :=
  match st_session s with
  | Some a => match local_role a with Joining => bool_decide (as_table_id a = table) | _ => false end
  | None => false
  end.
Definition process_pool_event (event : TablePoolEvent) : MainM unit :=
  match event with
  | JoinAttemptExpired table =>
      s ← the_state;
      if is_stale_join s table then closed ← close_room; emit_option (OutRoom <$> closed) else mret tt
  | _ => mret tt
  end;;
  emit (OutPool event).
Definition process_pool_events (events : list TablePoolEvent) : MainM unit := for_each process_pool_event events.

(** ** Sessions and hands *)

(** [complete_local_leave]. *)
Definition complete_local_leave : MainM unit :=
  left ← on_hand leave_hand;
  emit_option (OutHand <$> left);;
  closed ← close_room;
  emit_option (OutRoom <$> closed);;
  cancelled ← on_pool cancel_pool;
  emit_option (OutPool <$> cancelled).

(** The loop of [process_table_session_events]. *)
Definition process_room_event (event : TableSessionEvent) : MainM unit :=
  match event with
  | HandAbortedForLeave table number _ _ => on_hand (abort_for_signed_leave (hex_encode (as_bytes table)) number)
  | _ => mret tt
  end;;
  emit (OutRoom event).
(** The pool learns that the session has its place. *)
Definition admitted (a : ActiveSession) : bool :=
  local_admission_acknowledged a || match local_role a with RoleWaiting | Seated | Playing => true | _ => false end.
Definition mark_admitted : MainM unit :=
  s ← the_state;
  match st_session s with
  | Some a =>
      if admitted a then
        let '(joined, pool) := mark_joined (as_table_id a) (st_pool s) in
        set_state (λ s, { s with st_pool := pool });;
        match joined with
        | Some (event, peers) =>
            on_room (Ok tt) (on_session (SessionRuntime.adopt_explicit_peers peers));;
            emit (OutPool event)
        | None => mret tt
        end
      else mret tt
  | None => mret tt
  end.

(** [process_hand_events], given how the events of the session are processed. *)
Definition archive_receipt (receipt : CoSignedReceipt) : MainM unit :=
  now ← unix_time_ms;
  events ← on_archive (publish_receipt receipt now);
  archived events.
Definition process_hand_events_with (process_room : list TableSessionEvent → MainM unit) (events : list HandEvent) : MainM unit :=
  emit_all (OutHand <$> events);;
  receipts ← on_hand take_newly_finalized_receipts;
  for_each archive_receipt receipts;;
  boundary ← on_hand take_hand_boundary;
  match boundary with
  | None => mret tt
  | Some b =>
      now ← now_monotonic;
      events ← on_room (Err NotInRoom) (on_session (finish_hand_boundary (hb_receipt_hash b) (hb_dealer_seat b) now));
      process_room events
  end.

(** [process_table_session_events]. *)
Fixpoint process_table_session_events (depth : nat) (events : list TableSessionEvent) : MainM unit :=
  for_each process_room_event events;;
  mark_admitted;;
  completed ← on_room (Ok false) (on_session take_leave_completed);
  if (completed : bool) then complete_local_leave else
  ready ← on_room (Ok None) (on_session take_ready_table);
  match ready with
  | None => mret tt
  | Some table =>
      match depth with
      | O => lift Panic
      | S depth =>
          identity ← need_identity;
          now ← unix_time_ms;
          events ← on_hand (start_runtime table (mkExecution now (id_device identity) (id_certificate identity)));
          process_hand_events_with (process_table_session_events depth) events
      end
  end.
(** One hand at most starts during the processing of some events. *)
Definition room_depth_bound : nat := 1.
Definition room_processed (events : list TableSessionEvent) : MainM unit := process_table_session_events room_depth_bound events.
Definition process_hand_events (events : list HandEvent) : MainM unit := process_hand_events_with room_processed events.

(** The context of a handler of the hand. *)
Definition execution : MainM HandExecutionContext :=
  now ← unix_time_ms;
  identity ← need_identity;
  mret (mkExecution now (id_device identity) (id_certificate identity)).
End events.
