(* ===== verification/SidecarCommands.v ===== *)
(** * SidecarCommands: the commands and the tick of the worker (token-holdem-sidecar main.rs)

    [handle_command] executes a command of the user interface,
    [protocol_tick] moves the protocols on. *)

From coqutil Require Import Datatypes.RecordSetters.
From S2P Require Import Prelude Machine Encoding Order Ids Table TablePool Receipt Identity SignedReceipt UseCases.
From S2P Require Import Wire Session NetworkAddress HandAction Holdem MentalPoker Room PoolProtocol Swarm SessionState SessionRuntime SessionDelivery.
From S2P Require Import HandState HandRuntime PoolRuntime ArchiveNode ArchiveRuntime Command Volunteer Discovery Recovery SidecarState SidecarEvents.
Import OCamlLikeNotations.

Section commands.
Context `{Crypto, Libp2p, Ziffle, !World, !OsRandom, !HandCodec, !RoomCodec, !PoolCodec, !HexCodec, !DirOrder, !ReceiptJson}.
Context `{!Rendezvous, !MultiaddrText, !Host, !RecoveryCrypto, !Cbor RecoveryEnvelope, !Cbor FriendRoomInvite, !Base64}.

(** A computation of the session runtime on the swarm alone. *)
Definition room_world {A} (m : M world RoomError A) : MainM A :=
  λ p, let '(v, w) := m (ps_world p) in (map_err FromRoom v, { p with ps_world := w }).

(** ** Addresses *)

(** [collect_session_addresses], [direct_pool_sync_peers], [dial_address]. *)
Definition collect_session_addresses : MainM (list Multiaddr) :=
  s ← the_state;
  bound ← look listeners;
  local ← look local_peer_id;
  let found := collect_addresses local [] (st_external_addresses s ++ st_listen_addresses s ++ bound) in
  lift (reject_if (length found =? 0)%nat NoDialableAddress);;
  mret found.
Definition pool_peer (s : RuntimeState) (peer : PeerId) : bool :=
  negb (is_configured_node (st_discovery s) peer) && negb (is_candidate (st_relay s) peer)
  && negb (is_configured_peer (st_archive s) peer)
  && negb match st_session s with Some a => manages_peer a peer | None => false end.
Definition direct_pool_sync_peers : MainM (list PeerId) :=
  s ← the_state; look (λ w, filter (λ peer, pool_peer s peer = true) (connected_peers w)).
Definition dial_address (address : string) : MainM unit :=
  multiaddr ← lift (ok_or (addr_from_str address) AddressTextInvalid);
  match first_peer_id multiaddr with Some peer => swarm_do (kad_add_address peer multiaddr) | None => mret tt end;;
  dialled ← in_world (dial_multiaddr multiaddr);
  lift (reject_if (negb dialled) DialFailed).

(** [configure_archive_nodes]. *)
Definition add_archive_node (value : string) : MainM PeerId :=
  address ← lift (ok_or (addr_from_str value) AddressTextInvalid);
  peer ← lift (ok_or (first_peer_id address) AddressWithoutPeer);
  swarm_do (kad_add_address peer address);;
  connected ← look (λ w, is_connected w peer);
  (if (connected : bool) then mret tt
   else direct ← lift (strip_trailing_peer address peer); _ ← in_world (dial peer [direct]); mret tt);;
  mret peer.
Fixpoint add_archive_nodes (addresses : list string) : MainM (list PeerId) :=
  match addresses with
  | [] => mret []
  | value :: addresses => peer ← add_archive_node value; peers ← add_archive_nodes addresses; mret (peer :: peers)
  end.
Definition configure_archive_nodes (addresses : list string) (minimum : Z) : MainM unit :=
  lift (reject_if ((length addresses =? 0)%nat || (16 <? length addresses)%nat) ArchiveNodeCount);;
  peers ← add_archive_nodes addresses;
  event ← on_archive (configure_peers peers minimum);
  emit (OutArchive event);;
  s ← the_state;
  if bool_decide (is_Some (st_identity s)) then publish_identity_recovery;; sync_statistics else mret tt.

(** ** Entering a table *)

(** [validate_local_buy_in]. *)
Definition validate_local_buy_in (buy_in : Z) : MainM unit :=
  s ← the_state;
  lift (reject_if (bool_decide (is_Some (pending_remote_restore s))) RestorePending);;
  match st_identity s with
  | Some identity =>
      account ← identity_account_fingerprint;
      lift (reject_if (negb (bool_decide (id_fingerprint identity = account))) IdentityOfOtherAccount)
  | None => mret tt
  end;;
  observation ← lift (ok_or (token_observation s) NoObservation);
  now ← unix_time_ms;
  lift (reject_if (u64_saturating_add now 60000 <? observed_at_unix_ms observation) ObservationFromFuture);;
  lift (reject_if (lifetime_tokens observation <? buy_in) BuyInAboveTokens).
Definition ensure_no_table (e : MainError) : MainM unit :=
  s ← the_state; lift (reject_if (bool_decide (is_Some (st_session s)) || HandRuntime.is_active (st_hand s)) e).
Definition cancel_matching : MainM unit := cancelled ← on_pool cancel_pool; emit_option (OutPool <$> cancelled).

(** [join_public_pool]. *)
Definition join_public_pool (level_id : string) (buy_in : Z) : MainM unit :=
  ensure_no_table AlreadyAtTable;;
  validate_local_buy_in buy_in;;
  identity ← need_identity;
  level ← lift (stake_level level_id);
  addresses ← collect_session_addresses;
  topic ← lift (table_pool_topic level_id);
  now ← unix_time_ms;
  mono ← now_monotonic;
  events ← on_pool (join_pool topic level buy_in addresses (id_device identity) (id_certificate identity) now mono);
  process_pool_events events.

(** [create_friend_room]. *)
Definition create_friend_room (level_id : string) (buy_in : Z) : MainM unit :=
  ensure_no_table AlreadyAtTable;;
  cancel_matching;;
  validate_local_buy_in buy_in;;
  identity ← need_identity;
  level ← lift (stake_level level_id);
  addresses ← collect_session_addresses;
  now ← unix_time_ms;
  expires_at ← lift (ok_or (u64_checked_add now FRIEND_INVITE_LIFETIME_MS) InviteLifetimeOverflow);
  secret ← in_world (fill_bytes 32);
  local ← look local_peer_id;
  invite ← lift (map_err FromInvite
    (invite_issue secret (peer_id_to_bytes local) (map multiaddr_to_bytes addresses) level now expires_at
       (id_device identity) (id_certificate identity)));
  code ← lift (map_err FromCode (encode_code FRIEND_INVITE_PREFIX invite));
  emit (OutSidecar (FriendRoomCreated code (room_id invite) buy_in expires_at));;
  ticket ← room_world (issue_local_session_ticket level buy_in addresses (id_device identity) (id_certificate identity) now);
  mono ← now_monotonic;
  events ← enter_room (create (room_id invite) (id_player identity) ticket (id_device identity) (id_certificate identity) now mono);
  room_processed events.

(** [join_friend_room]. *)
Definition announce_join (host : PeerId) (room : TableId) : MainM unit :=
  connected ← look (λ w, is_connected w host);
  if (connected : bool) then emit (OutSidecar (FriendRoomJoined room (peer_id_to_bytes host)))
  else set_state (λ s, { s with pending_room_joins ::= <[host := room]> });;
       emit (OutSidecar (FriendRoomJoining room (peer_id_to_bytes host))).
Definition join_friend_room (invite_code : string) (buy_in : Z) : MainM unit :=
  ensure_no_table AlreadyAtTable;;
  cancel_matching;;
  validate_local_buy_in buy_in;;
  need_identity;;
  invite ← lift (map_err FromCode (decode_code FRIEND_INVITE_PREFIX (string_bytes invite_code) MAX_INVITE_CODE_BYTES));
  now ← unix_time_ms;
  lift (map_err FromInvite (invite_verify_at invite now));;
  lift (reject_if ((buy_in <? minimum_buy_in (inv_level invite)) || (maximum_buy_in (inv_level invite) <? buy_in)) BuyInOutsideLevel);;
  host ← lift (ok_or (peer_id_from_bytes (host_session_peer_id invite)) InvitePeerInvalid);
  addresses ← collect_session_addresses;
  identity ← need_identity;
  now ← unix_time_ms;
  ticket ← room_world (issue_local_session_ticket (inv_level invite) buy_in addresses (id_device identity) (id_certificate identity) now);
  mono ← now_monotonic;
  events ← enter_room (join (room_id invite) (host_player_id invite) (host_session_peer_id invite)
                         (host_session_addresses invite) ticket (id_device identity) (id_certificate identity) now mono);
  room_processed events;;
  announce_join host (room_id invite).

(** ** The tick *)

(** [process_pool_decision]. *)
Definition migrate_room (decision : PoolDecision) : MainM (list PeerId) :=
  s ← the_state;
  match decision, st_session s with
  | PoolJoin _, Some a =>
      set_state (λ s, { s with st_session := None });;
      '(event, peers) ← in_world (migrate_to_pool a);
      emit (OutRoom event);;
      mret peers
  | _, _ => mret []
  end.
Definition adopt_migrated (peers : list PeerId) : MainM unit :=
  match peers with
  | [] => mret tt
  | _ => on_pool (λ s, let '(r, t) := PoolRuntime.adopt_explicit_peers peers s.1 in (r, (t, s.2)))
  end.
Definition follow_advertisement (ad : TableAdvertisement) (ticket : PoolTicket) (identity : ActiveIdentity) (now mono : Z)
    : MainM (list TableSessionEvent) :=
  peer ← lift (ok_or (peer_id_from_bytes (admission_peer_id ad)) InvitePeerInvalid);
  events ← enter_room (join (ad_table_id ad) (creator_player_id ad) (admission_peer_id ad) (admission_addresses ad) ticket
                         (id_device identity) (id_certificate identity) now mono);
  set_state (λ s, { s with st_pool ::= transfer_explicit_peer peer });;
  mret events.
Definition process_pool_decision (decision : PoolDecision) : MainM unit :=
  peers ← migrate_room decision;
  s ← the_state;
  lift (reject_if (bool_decide (is_Some (st_session s))) SessionOpen);;
  adopt_migrated peers;;
  s ← the_state;
  pool ← lift (ok_or (st_pool s) TicketMissing);
  let ticket := local_ticket pool in
  identity ← need_identity;
  now ← unix_time_ms;
  mono ← now_monotonic;
  events ← match decision with
    | PoolCreate table creator =>
        enter_room (create table creator ticket (id_device identity) (id_certificate identity) now mono)
    | PoolJoin ad => follow_advertisement ad ticket identity now mono
    end;
  room_processed events.

(** [protocol_tick]. *)
Definition tick_the_pool (addresses : list Multiaddr) (now mono : Z) : MainM unit :=
  peers ← direct_pool_sync_peers;
  set_state (λ s, { s with st_pool ::= set_local_advertisement (st_session s ≫= advertisement) });;
  identity ← need_identity;
  '(events, decision) ← on_pool (pool_tick peers addresses (id_device identity) (id_certificate identity) now mono);
  process_pool_events events;;
  match decision with Some d => process_pool_decision d | None => mret tt end.
Definition tick_the_room (addresses : list Multiaddr) : MainM unit :=
  now ← unix_time_ms;
  mono ← now_monotonic;
  identity ← need_identity;
  events ← on_room (Ok []) (tick addresses (id_device identity) (id_certificate identity) now mono);
  room_processed events.
Definition tick_the_hand : MainM unit :=
  x ← execution;
  events ← on_hand (tick_runtime x);
  process_hand_events events.
Definition force_leave : MainM unit :=
  s ← the_state;
  mono ← now_monotonic;
  events ← on_room (Ok []) (on_session (force_local_leave_if_due (safe_leave_is_stalled (st_hand s)) mono));
  room_processed events.
Definition protocol_tick : MainM unit :=
  mono ← now_monotonic;
  on_discovery (discovery_tick mono);;
  relays ← on_relay (relay_tick mono);
  emit_all (OutRelay <$> relays);;
  s ← the_state;
  if bool_decide (st_identity s = None) then mret tt else
  now ← unix_time_ms;
  mono ← now_monotonic;
  addresses ← collect_session_addresses;
  tick_the_pool addresses now mono;;
  tick_the_room addresses;;
  tick_the_hand;;
  force_leave.

(** ** At the table *)

(** [submit_hand_action], [leave_table]. *)
Definition parse_action (action : string) (amount : option Z) : result MainError PlayerAction :=
  if String.eqb action "fold" then Ok Fold
  else if String.eqb action "check" then Ok Check
  else if String.eqb action "call" then Ok Call
  else if String.eqb action "raise" then target ← ok_or amount RaiseWithoutTarget; Ok (RaiseTo target)
  else Err ActionUnknown.
Definition to_precondition (p : Command.HandActionPrecondition) : HandState.HandActionPrecondition :=
  HandState.mkPrecondition (pre_table_id p) (pre_hand_number p) (pre_sequence p) (pre_public_state_hash p).
Definition submit_hand_action (expected : Command.HandActionPrecondition) (action : string) (amount : option Z) : MainM unit :=
  action ← lift (parse_action action amount);
  identity ← need_identity;
  now ← unix_time_ms;
  events ← on_hand (submit_action (to_precondition expected) action (mkExecution now (id_device identity) (id_certificate identity)));
  process_hand_events events.
Definition leave_table : MainM unit :=
  s ← the_state;
  if bool_decide (is_Some (st_session s)) then
    identity ← need_identity;
    now ← unix_time_ms;
    mono ← now_monotonic;
    events ← on_room (Err NotInRoom) (request_leave (id_device identity) (id_certificate identity) now mono);
    set_state (λ s, { s with st_hand ::= request_safe_leave });;
    room_processed events
  else
    cancelled ← on_pool cancel_pool;
    match cancelled with
    | Some event => emit (OutPool event)
    | None => lift (Err NothingToLeave)
    end.

(** ** [handle_command] *)

(** [TokenSnapshot]. *)
Definition token_snapshot (tokens : Z) (username display_name account_identifier : option string) (observed_at : Z)
    (source : option TokenSnapshotSource) : MainM unit :=
  let source := default LegacyAgentProfileObservation source in
  '(fingerprint, bound) ← lift (account_fingerprint source account_identifier username display_name);
  reconcile_account fingerprint;;
  emit (OutSidecar (TokenSnapshotAccepted tokens username display_name fingerprint observed_at source));;
  set_state (λ s, { s with token_observation := Some (mkObservation tokens fingerprint bound observed_at) }).
(** The identity is announced, kept, backed up and its receipts fetched. *)
Definition install_identity (identity : ActiveIdentity) (request_id : option string) : MainM unit :=
  emit_identity_ready identity request_id (Some true);;
  set_state (λ s, { s with st_identity := Some identity });;
  publish_identity_recovery;;
  sync_statistics.
(** [EnsureIdentity]. *)
Definition ensure_identity (request_id : option string) (expected secret : list Z) (device_label : string) : MainM unit :=
  fingerprint ← checked_identity_account expected;
  s ← the_state;
  lift (reject_if (bool_decide (is_Some (pending_remote_restore s))) RestorePending);;
  lift (check_recovery_secret secret);;
  match st_identity s with
  | Some identity =>
      lift (reject_if (negb (bool_decide (id_fingerprint identity = fingerprint))) IdentityOfOtherAccount);;
      envelope ← lift (map_err FromCode (decode_payload (id_payload identity)));
      emit_identity_ready identity request_id (Some (is_ok (open_for_account envelope secret fingerprint)))
  | None =>
      now ← unix_time_ms;
      identity ← create_identity secret device_label fingerprint now;
      install_identity identity request_id
  end.
(** [CreateIdentity], [RestoreIdentity], [RestoreRemoteIdentity]. *)
Definition create_identity_command (request_id : option string) (expected secret : list Z) (device_label : string) : MainM unit :=
  ensure_identity_slot_is_empty;;
  fingerprint ← checked_identity_account expected;
  now ← unix_time_ms;
  identity ← create_identity secret device_label fingerprint now;
  install_identity identity request_id.
Definition restore_identity_command (request_id : option string) (expected code secret : list Z) (device_label : string) : MainM unit :=
  ensure_identity_replaceable;;
  s ← the_state;
  lift (reject_if (bool_decide (is_Some (pending_remote_restore s))) RestorePending);;
  fingerprint ← checked_identity_account expected;
  now ← unix_time_ms;
  identity ← restore_identity code secret device_label fingerprint now;
  install_identity identity request_id.
Definition restore_remote_identity (request_id : option string) (expected secret : list Z) (device_label : string) : MainM unit :=
  ensure_identity_replaceable;;
  s ← the_state;
  lift (reject_if (bool_decide (is_Some (pending_remote_restore s))) RestorePending);;
  lift (check_recovery_secret secret);;
  fingerprint ← checked_identity_account expected;
  locator ← lift (map_err FromRecovery (derive_recovery_locator fingerprint secret));
  events ← on_archive (fetch_recovery locator);
  set_state (λ s, { s with pending_remote_restore := Some (mkRestore request_id fingerprint locator secret device_label) });;
  archived events.

Definition handle_command (command : SidecarCommand) : MainM unit :=
  match command with
  | TokenSnapshot tokens username display_name account observed_at source =>
      token_snapshot tokens username display_name account observed_at source
  | CmdDial address => dial_address address
  | UseRelay address =>
      mono ← now_monotonic; events ← on_relay (add_explicit mono address); emit_all (OutRelay <$> events)
  | ConfigureDiscovery addresses namespace =>
      mono ← now_monotonic;
      events ← on_discovery (configure mono addresses (default DEFAULT_DISCOVERY_NAMESPACE namespace));
      emit_all (OutDiscovery <$> events)
  | AddExternalAddress address =>
      address ← lift (ok_or (addr_from_str address) AddressTextInvalid);
      events ← on_discovery (add_external_address address);
      emit_all (OutDiscovery <$> events)
  | JoinPublicPool level_id buy_in => join_public_pool level_id buy_in
  | CancelPublicPool =>
      s ← the_state;
      lift (reject_if (bool_decide (is_Some (st_session s))) AtTableCannotCancel);;
      cancelled ← on_pool cancel_pool;
      event ← lift (ok_or cancelled NothingToCancel);
      emit (OutPool event)
  | EnsureIdentity request_id expected secret label => ensure_identity request_id (string_bytes expected) (string_bytes secret) label
  | CreateIdentity request_id expected secret label =>
      create_identity_command request_id (string_bytes expected) (string_bytes secret) label
  | RestoreIdentity request_id expected code secret label =>
      restore_identity_command request_id (string_bytes expected) (string_bytes code) (string_bytes secret) label
  | RestoreRemoteIdentity request_id expected secret label =>
      restore_remote_identity request_id (string_bytes expected) (string_bytes secret) label
  | CreateFriendRoom level_id buy_in => create_friend_room level_id buy_in
  | JoinFriendRoom code buy_in => join_friend_room code buy_in
  | ConfigureArchiveNodes addresses minimum => configure_archive_nodes addresses minimum
  | SyncStatistics => sync_statistics
  | FetchArchivedReceipt address =>
      address ← lift (map_err FromArchive (parse_content_address (string_bytes address)));
      events ← on_archive (fetch_receipt address);
      archived events
  | SubmitAction _ expected action amount => submit_hand_action expected action amount
  | LeaveTable _ => leave_table
  | CmdShutdown => lift Panic
  end.
End commands.
