(* ===== verification/SidecarNetwork.v ===== *)
(** * SidecarNetwork: the events of the network and the loop of the worker (token-holdem-sidecar main.rs)

    [handle_network_event] passes the events of the swarm to the runtimes and
    answers requests; [main_step] is one turn of the event loop, which never
    stops for an error of a handler.  [RelayRuntime::on_connected] does
    nothing and is left out. *)

From coqutil Require Import Datatypes.RecordSetters.
From S2P Require Import Prelude Machine Encoding Order Ids Table TablePool Receipt Identity SignedReceipt UseCases.
From S2P Require Import Wire Session NetworkAddress HandAction MentalPoker Room PoolProtocol Swarm SessionState SessionRuntime SessionDelivery.
From S2P Require Import HandState HandRuntime PoolRuntime ArchiveNode ArchiveRuntime Command Volunteer Supervisor Discovery Recovery.
From S2P Require Import SidecarState SidecarEvents SidecarCommands.
Import OCamlLikeNotations.

(** ** Repeated faults *)
Definition RECOVERABLE_FAULT_REPEAT_INTERVAL : Z := seconds 5.
Record RecoverableFaultThrottle := mkThrottle { last_message : option string; last_emitted_at : option Z }.
Definition throttle_default : RecoverableFaultThrottle := mkThrottle None None.
(** [should_emit]. *)
Definition should_emit (self : RecoverableFaultThrottle) (message : string) (now : Z) : bool * RecoverableFaultThrottle :=
  let is_repeated := bool_decide (last_message self = Some message)
    && match last_emitted_at self with Some at_ => since now at_ <? RECOVERABLE_FAULT_REPEAT_INTERVAL | None => false end in
  if is_repeated then (false, self) else (true, mkThrottle (Some message) (Some now)).

Section network.
Context `{Crypto, Libp2p, Ziffle, !World, !OsRandom, !HandCodec, !RoomCodec, !PoolCodec, !HexCodec, !DirOrder, !ReceiptJson}.
Context `{!Rendezvous, !MultiaddrText, !Host, !RecoveryCrypto, !Cbor RecoveryEnvelope, !Cbor FriendRoomInvite, !Base64, !SerdeJson}.

(** [SwarmEvent]: a status of autonat comes with the address it confirms. *)
Inductive NatEvent := NatPublic (address : Multiaddr) | NatOther (e : AutonatEvent).
Inductive SwarmEvent :=
  | NewListenAddr (address : Multiaddr)
  | ExpiredListenAddr (address : Multiaddr)
  | ExternalAddrConfirmed (address : Multiaddr)
  | ExternalAddrExpired (address : Multiaddr)
  | ConnectionEstablished (peer : PeerId) (connection remote : list Z) (established : Z)
  | ConnectionClosed (peer : PeerId) (connection remote : list Z) (remaining : Z) (cause : option string)
  | OnRendezvous (e : RendezvousEvent)
  | OnAutonat (e : NatEvent)
  | OnUpnp (e : UpnpEvent)
  | OnRelayServer (e : RelayServerEvent)
  | OnRelayClient (e : RelayClientEvent)
  | Identified (peer : PeerId) (protocols : list string) (listen_addrs : list Multiaddr)
  | GossipMessage (topic : string) (source : option PeerId) (data : list Z)
  | Requested (peer : PeerId) (request : ControlRequest) (channel : ResponseChannel)
  | Responded (peer : PeerId) (request : OutboundRequestId) (response : ControlResponse)
  | OutboundFailure (peer : PeerId) (request : OutboundRequestId) (error : string)
  | OutgoingConnectionError (peer : option PeerId) (error : string)
  | OtherSwarmEvent.

Definition on_volunteer {A} (f : VolunteerRuntime → A * VolunteerRuntime) : MainM A :=
  λ p, let '(v, r) := f (st_volunteer (ps_state p)) in (Ok v, { p with ps_state ::= λ s, { s with st_volunteer := r } }).
(** A handler whose error is reported and not returned. *)
Definition or_notice {A} (m : MainM A) (process : A → MainM unit) (notice : MainError → Output) : MainM unit :=
  outcome ← attempt m;
  match outcome with inl v => process v | inr e => emit (notice e) end.

(** ** Connections *)

(** The arms [NewListenAddr], [ConnectionEstablished], [ConnectionClosed]. *)
Definition publish_address (address : Multiaddr) : MainM unit :=
  if is_publishable_address address then
    swarm_do (swarm_add_external_address address);; on_discovery discovery_address_confirmed
  else mret tt.
Definition on_listen_address (address : Multiaddr) : MainM unit :=
  set_state (λ s, { s with st_listen_addresses ::= λ l, remember_address l address });;
  publish_address address;;
  emit (OutSidecar (ListenAddress (addr_to_string address))).
Definition announce_joined (peer : PeerId) : MainM unit :=
  s ← the_state;
  match pending_room_joins s !! peer with
  | Some room =>
      set_state (λ s, { s with pending_room_joins ::= delete peer });;
      emit (OutSidecar (FriendRoomJoined room (peer_id_to_bytes peer)))
  | None => mret tt
  end.
Definition some_hand_events (events : list HandEvent) : MainM unit :=
  match events with [] => mret tt | _ => process_hand_events events end.
Definition on_connection_established (peer : PeerId) (connection remote : list Z) (established : Z) : MainM unit :=
  emit (OutSidecar (PeerConnected (peer_id_to_bytes peer) connection remote established));;
  announce_joined peer;;
  events ← on_hand (HandRuntime.peer_connected peer);
  some_hand_events events;;
  on_room (Ok tt) (on_session (SessionRuntime.peer_connected peer));;
  s ← the_state;
  (if is_configured_peer (st_archive s) peer && bool_decide (is_Some (st_identity s)) then sync_statistics else mret tt);;
  mono ← now_monotonic;
  on_discovery (discovery_on_connected mono peer).
Definition on_connection_closed (peer : PeerId) (connection remote : list Z) (remaining : Z) (cause : option string) : MainM unit :=
  if negb (remaining =? 0) then mret tt else
  retained ← look (λ w, is_peer_connection_retained w peer);
  emit (OutSidecar (PeerDisconnected (peer_id_to_bytes peer) connection remote remaining (default "远端正常关闭"%string cause) retained));;
  events ← on_hand (HandRuntime.peer_disconnected peer);
  some_hand_events events;;
  mono ← now_monotonic;
  on_room (Ok tt) (on_session (SessionRuntime.peer_disconnected peer mono));;
  on_discovery (discovery_on_disconnected peer);;
  on_relay (relay_on_disconnected peer).
(** The arm [OutgoingConnectionError]. *)
Definition on_outgoing_error (peer : option PeerId) (error : string) : MainM unit :=
  s ← the_state;
  let room := peer ≫= λ p, pending_room_joins s !! p in
  match peer with
  | Some p => set_state (λ s, { s with pending_room_joins ::= delete p })
  | None => mret tt
  end;;
  forgotten ← match peer with Some p => on_discovery (forget_unreachable_peer p) | None => mret false end;
  if (forgotten : bool) then mret tt else
  match peer with Some p => on_relay (relay_on_dial_failure p) | None => mret tt end;;
  match room with
  | Some room => emit (OutSidecar (SidecarWarning (RoomUnreachable room (summarize_dial_error error))))
  | None =>
      s ← the_state;
      if match peer with Some p => is_configured_node (st_discovery s) p || is_candidate (st_relay s) p | None => false end
      then emit (OutSidecar (SidecarWarning BootstrapUnreachable)) else mret tt
  end.

(** ** Services *)

(** The arms [Identify], [Autonat], [RelayServer]. *)
Definition on_identified (peer : PeerId) (protocols : list string) (addresses : list Multiaddr) : MainM unit :=
  mono ← now_monotonic;
  (if existsb (String.eqb "/rendezvous/1.0.0") protocols then
     events ← on_discovery (observe_rendezvous_service mono peer addresses); emit_all (OutDiscovery <$> events)
   else mret tt);;
  (if existsb (String.eqb hop_protocol_name) protocols then
     events ← on_relay (observe_identified mono peer addresses); emit_all (OutRelay <$> events)
   else mret tt).
Definition on_nat (e : NatEvent) : MainM unit :=
  match e with NatPublic address => publish_address address | NatOther _ => mret tt end;;
  event ← on_volunteer (on_autonat match e with NatPublic _ => StatusChanged ReachPublic | NatOther e => e end);
  emit_option (OutVolunteer <$> event).

(** ** Messages *)

(** The arm of gossip: the pool, then the session, then the hand. *)
Definition on_gossip (topic : string) (source : option PeerId) (data : list Z) : MainM unit :=
  s ← the_state;
  if PoolRuntime.handles_topic (st_pool s) topic then
    now ← unix_time_ms;
    or_notice (on_pool (pool_message source data now)) process_pool_events (λ e, OutSidecar (SidecarWarning (PoolMessageDropped e)))
  else if match st_session s with Some a => SessionRuntime.handles_topic a topic | None => false end then
    match st_identity s with
    | None => mret tt
    | Some identity =>
        now ← unix_time_ms;
        mono ← now_monotonic;
        or_notice (on_room (Err NotInRoom) (on_session
            (SessionRuntime.handle_message source data (id_device identity) (id_certificate identity) now mono)))
          room_processed (λ e, OutSidecar (SidecarWarning (RoomMessageDropped e)))
    end
  else if String.prefix TABLE_TOPIC_PREFIX topic then
    match st_identity s with
    | None => mret tt
    | Some identity =>
        now ← unix_time_ms;
        or_notice (on_hand (handle_public topic source data (mkExecution now (id_device identity) (id_certificate identity))))
          process_hand_events (λ e, OutHandNotice (HandMessageDropped e))
    end
  else mret tt.

(** The requests: what is answered.  An error of a handler becomes a refusal;
    an error while its events are processed, a missing identity or an invalid
    clock leave the request without an answer. *)
Definition answered {A} (m : MainM A) (answer : A → MainM ControlResponse) (notice : MainError → Output) : MainM ControlResponse :=
  outcome ← attempt m;
  match outcome with
  | inl v => answer v
  | inr e => emit (notice e);; mret (RsRejected (error_text e))
  end.
Definition serve_at (request : ControlRequest) (now : Z) : MainM ControlResponse :=
  λ p, match serve_request (st_archive (ps_state p)) request now (ps_disk p) with
       | (Ok response, d) => (Ok response, { p with ps_disk := d })
       | (Err e, d) => (Ok (RsRejected (error_text (FromArchive e))), { p with ps_disk := d })
       | (Panic, d) => (Panic, { p with ps_disk := d })
       end.
Definition serve_archive (request : ControlRequest) : MainM ControlResponse := now ← unix_time_ms; serve_at request now.
Definition accepted {A} (process : A → MainM unit) (v : A) : MainM ControlResponse := process v;; mret RsAccepted.
Definition answer_request (peer : PeerId) (request : ControlRequest) : MainM ControlResponse :=
  match request with
  | RqTablePoolSync messages =>
      now ← unix_time_ms;
      answered (on_pool (pool_direct_request peer messages now))
        (λ '(events, messages), process_pool_events events;; mret (RsTablePoolSync messages))
        (λ e, OutSidecar (SidecarWarning (PoolRequestRefused e)))
  | RqTableSession payload =>
      identity ← need_identity;
      now ← unix_time_ms;
      mono ← now_monotonic;
      answered (on_room (Err NotInRoom) (on_session
          (SessionRuntime.handle_message (Some peer) payload (id_device identity) (id_certificate identity) now mono)))
        (accepted room_processed) (λ e, OutSidecar (SidecarWarning (RoomRequestRefused e)))
  | RqHandPublic message =>
      x ← execution;
      answered (on_hand (handle_direct_public peer message x)) (accepted process_hand_events) (λ e, OutHandNotice (HandRequestRefused e))
  | RqHandPrivate message =>
      x ← execution;
      answered (on_hand (handle_private peer message x)) (accepted process_hand_events) (λ e, OutHandNotice (HandRequestRefused e))
  | RqArchive _ | RqFetchArchive _ | RqListPlayerArchives _ | RqStoreRecovery _ | RqFetchRecovery _ => serve_archive request
  | RqFriendRoom _ => mret (RsRejected "当前 sidecar 不接受该控制请求")
  end.
Definition on_request (peer : PeerId) (request : ControlRequest) (channel : ResponseChannel) : MainM unit :=
  response ← answer_request peer request;
  sent ← in_world (send_response channel response);
  lift (reject_if (negb sent) ResponseNotSent).

(** The responses, and requests that have failed. *)
Definition is_accepted (response : ControlResponse) : bool := match response with RsAccepted => true | _ => false end.
Definition on_response (peer : PeerId) (id : OutboundRequestId) (response : ControlResponse) : MainM unit :=
  s ← the_state;
  if owns_direct_request (st_pool s) id then
    now ← unix_time_ms;
    events ← on_pool (pool_direct_response id peer response now);
    process_pool_events events
  else
    by_session ← on_room (Ok false) (on_session (SessionRuntime.handle_direct_response id (is_accepted response)));
    on_hand (HandRuntime.handle_direct_response id (is_accepted response));;
    now ← unix_time_ms;
    events ← on_archive (archive_response id peer response now);
    match events, response with
    | Some events, _ => archived events
    | None, RsRejected reason =>
        emit (if (by_session : bool) then OutSidecar (SidecarWarning (PeerRefused reason)) else OutHandNotice (PeerRefused reason))
    | None, _ => mret tt
    end.
Definition on_outbound_failure (peer : PeerId) (id : OutboundRequestId) (error : string) : MainM unit :=
  by_pool ← on_pool (λ s, let '(b, t) := pool_direct_failure id s.1 in (Ok b, (t, s.2)));
  if (by_pool : bool) then mret tt else
  events ← on_archive (archive_failure id error);
  match events with
  | Some events => archived events
  | None =>
      by_session ← on_room (Ok false) (on_session (SessionRuntime.handle_direct_failure id));
      if (by_session : bool) then mret tt else
      by_hand ← on_hand (HandRuntime.handle_direct_failure id);
      if (by_hand : bool) then mret tt else emit (OutHandNotice (DeliveryFailed (peer_id_to_bytes peer) error))
  end.

(** [handle_network_event]. *)
Definition handle_network_event (event : SwarmEvent) : MainM unit :=
  match event with
  | NewListenAddr address => on_listen_address address
  | ExpiredListenAddr address => set_state (λ s, { s with st_listen_addresses ::= λ l, forget_address l address })
  | ExternalAddrConfirmed address =>
      set_state (λ s, { s with st_external_addresses ::= λ l, remember_address l address });;
      on_discovery discovery_address_confirmed;;
      event ← on_volunteer (on_external_address_confirmed address);
      emit (OutVolunteer event)
  | ExternalAddrExpired address =>
      set_state (λ s, { s with st_external_addresses ::= λ l, forget_address l address });;
      event ← on_volunteer (on_external_address_expired address);
      emit (OutVolunteer event)
  | ConnectionEstablished peer connection remote established => on_connection_established peer connection remote established
  | ConnectionClosed peer connection remote remaining cause => on_connection_closed peer connection remote remaining cause
  | OnRendezvous e =>
      mono ← now_monotonic; events ← on_discovery (discovery_handle_event mono e); emit_all (OutDiscovery <$> events)
  | OnAutonat e => on_nat e
  | OnUpnp e => event ← on_volunteer (on_upnp e); emit (OutVolunteer event)
  | OnRelayServer e => events ← on_volunteer (on_relay_server e); emit_all (OutVolunteer <$> events)
  | OnRelayClient e => event ← on_relay (handle_client_event e); emit (OutRelay event)
  | Identified peer protocols addresses => on_identified peer protocols addresses
  | GossipMessage topic source data => on_gossip topic source data
  | Requested peer request channel => on_request peer request channel
  | Responded peer id response => on_response peer id response
  | OutboundFailure peer id error => on_outbound_failure peer id error
  | OutgoingConnectionError peer error => on_outgoing_error peer error
  | OtherSwarmEvent => mret tt
  end.

(** ** The loop *)

(** What the loop selects: a line of standard input, an event of the swarm, a
    tick, or the signal to stop, which may fail. *)
Inductive Input :=
  | Line (line : string) | LineFailed | InputClosed
  | Network (e : SwarmEvent) | Tick | Interrupted | InterruptFailed.

(** A command line: [None] when the process is to stop. *)
Definition confirm (request_id : option string) (event : string → SidecarEvent) : MainM unit :=
  match request_id with Some id => emit (OutSidecar (event id)) | None => mret tt end.
Definition run_command (command : SidecarCommand) : MainM unit :=
  outcome ← attempt (handle_command command);
  match outcome with
  | inl _ => confirm (request_id command) (λ id, CommandConfirmed id (command_type command))
  | inr e =>
      confirm (request_id command) (λ id, CommandFailed id (command_type command) (ErrorText e));;
      emit (OutSidecar (SidecarWarning (CommandNotExecuted e)))
  end.
Definition run_line (line : string) : MainM bool :=
  if trim_is_empty line then mret true else
  match decode_command_line line with
  | Ok CmdShutdown => emit (OutSidecar ShutdownComplete);; mret false
  | Ok command => run_command command;; mret true
  | Err e => emit (OutSidecar (SidecarWarning (CommandNotDecoded e)));; mret true
  | Panic => lift Panic
  end.

(** [report_recoverable_fault]. *)
Definition report_recoverable_fault (throttle : RecoverableFaultThrottle) (scope : string) (e : MainError)
    : MainM RecoverableFaultThrottle :=
  let message := fault_text scope e in
  now ← now_monotonic;
  let '(shown, throttle) := should_emit throttle message now in
  (if (shown : bool) then emit (OutSidecar (SidecarWarning (RecoverableFault message))) else mret tt);;
  mret throttle.
Definition recoverable (throttle : RecoverableFaultThrottle) (scope : string) (m : MainM unit) : MainM RecoverableFaultThrottle :=
  outcome ← attempt m;
  match outcome with inl _ => mret throttle | inr e => report_recoverable_fault throttle scope e end.

(** One turn of the loop: the throttle, or [None] when the process stops. *)
Definition main_step (throttle : RecoverableFaultThrottle) (input : Input) : MainM (option RecoverableFaultThrottle) :=
  match input with
  | Line line => running ← run_line line; mret (if (running : bool) then Some throttle else None)
  | LineFailed => emit (OutSidecar (SidecarWarning CommandNotRead));; mret (Some throttle)
  | InputClosed => mret None
  | Network e => t ← recoverable throttle "网络事件" (handle_network_event e); mret (Some t)
  | Tick => t ← recoverable throttle "协议轮询" protocol_tick; mret (Some t)
  | Interrupted => emit (OutSidecar ShutdownComplete);; mret None
  | InterruptFailed => lift (Err SignalFailed)
  end.
(** The loop ends with the first error, panic or stop. *)
Fixpoint main_loop (throttle : RecoverableFaultThrottle) (inputs : list Input) : MainM unit :=
  match inputs with
  | [] => mret tt
  | input :: inputs =>
      next ← main_step throttle input;
      match next with Some throttle => main_loop throttle inputs | None => mret tt end
  end.
End network.
