(* ===== verification/SidecarStart.v ===== *)
(** * SidecarStart: how the worker starts (token-holdem-sidecar node_identity.rs and main.rs, token-holdem-network behaviour.rs)

    A node that is given a place for its key has the same peer id after every
    start: the key is read from its file, or made and written to it.  The file
    is on the [Disk] of ArchiveNode; libp2p's key pairs and their protobuf
    encoding are external ([NodeKeys]).  [build_swarm] decides which behaviours
    run with which parameters; the libp2p builder makes the swarm from that
    ([SwarmBuilder]).  [start_worker] is [main] up to its loop, [worker_main]
    the whole of it. *)

From coqutil Require Import Datatypes.RecordSetters.
From S2P Require Import Prelude Machine Encoding Order Ids Table TablePool Receipt Identity SignedReceipt UseCases.
From S2P Require Import Wire Session NetworkAddress HandAction MentalPoker Room PoolProtocol Swarm SessionState SessionRuntime SessionDelivery.
From S2P Require Import HandState HandRuntime PoolRuntime ArchiveNode ArchiveKeep ArchiveRuntime Command Volunteer Supervisor Discovery Recovery.
From S2P Require Import Startup SidecarState SidecarEvents SidecarCommands SidecarNetwork.
Import OCamlLikeNotations.

(** ** The key of the node *)
Definition MAX_NODE_KEY_BYTES : Z := 4 * 1024.
Inductive NodeKeyError := KeyIo (e : ArchiveError) | KeyNotEncodable | KeyLength | KeyEncoding.

(** [libp2p::identity::Keypair]: a key pair comes from random bytes. *)
Class NodeKeys := {
  Keypair : Type;
  generate_ed25519 : list Z → Keypair;
  to_protobuf_encoding : Keypair → option (list Z);
  from_protobuf_encoding : list Z → option Keypair;
}.
(** What libp2p documents: an encoded key is decoded to itself; the encoding
    of a generated key has a few dozen bytes. *)
Class NodeKeysLaws `{NodeKeys} : Prop := {
  key_decodes : ∀ k b, to_protobuf_encoding k = Some b → from_protobuf_encoding b = Some k;
  key_short : ∀ seed b, to_protobuf_encoding (generate_ed25519 seed) = Some b →
    0 < Z.of_nat (length b) <= MAX_NODE_KEY_BYTES;
}.

Notation KeyM := (M Disk NodeKeyError).

Section node_identity.
Context `{NodeKeys, !HexCodec}.
Implicit Types (p : Path) (d : Disk).

Definition on_disk {A} (m : DiskM A) : KeyM A := λ d, let '(r, d) := m d in (map_err KeyIo r, d).

(** [read_key], [temporary_path]. *)
Definition read_key p : KeyM Keypair :=
  encoded ← on_disk (read_file p);
  lift (reject_if ((length encoded =? 0)%nat || (MAX_NODE_KEY_BYTES <? Z.of_nat (length encoded))) KeyLength);;
  lift (ok_or (from_protobuf_encoding encoded) KeyEncoding).
Definition temporary_path (parent : Dir) : KeyM Path :=
  nonce ← on_disk (random_bytes 8);
  mret (parent, string_bytes ".libp2p-key-" ++ to_hex nonce ++ string_bytes ".tmp").

(** The part of [load_or_create] after the test that there is no file yet. *)
Definition forget_temporary p : KeyM unit := λ d, (Ok tt, (remove_file p d).2).
Definition create_key p : KeyM Keypair :=
  on_disk (create_dir_all p.1);;
  seed ← on_disk (random_bytes 32);
  let keypair := generate_ed25519 seed in
  encoded ← lift (ok_or (to_protobuf_encoding keypair) KeyNotEncodable);
  temporary ← temporary_path p.1;
  on_disk (create_new temporary);;
  on_disk (write_all temporary encoded);;
  on_disk sync_all;;
  moved ← on_disk (rename temporary p);
  if (moved : bool) then mret keypair else
  present ← on_disk (path_exists p);
  forget_temporary temporary;;
  if (present : bool) then read_key p else lift (Err (KeyIo (Io RenameFile))).
Definition load_or_create p : KeyM Keypair :=
  present ← on_disk (path_exists p);
  if (present : bool) then read_key p else create_key p.

(** The file holds the key. *)
Definition holds p (k : Keypair) d : Prop :=
  ∃ b, files d !! p = Some b ∧ 0 < Z.of_nat (length b) <= MAX_NODE_KEY_BYTES ∧ from_protobuf_encoding b = Some k.

Lemma on_disk_run {A} (m : DiskM A) d v e : on_disk m d = (Ok v, e) → m d = (Ok v, e).
Proof. unfold on_disk. destruct (m d) as [[]]; by intros [= -> ->]. Qed.
Lemma read_key_run p d k e : read_key p d = (Ok k, e) → holds p k e ∧ files e = files d.
Proof.
  unfold read_key. intros Hr. inv_run. match goal with Hf : on_disk _ _ = _ |- _ => apply on_disk_run in Hf; rename Hf into Hrd end.
  destruct (read_file_run p d) as (e' & [Ef _] & E2 & Hok). rewrite Hrd in E2, Hok. cbn in E2. subst e'. split; [|done].
  repeat match goal with
  | Hg : ok_or _ _ = Ok _ |- _ => apply ok_or_Ok in Hg
  | Hg : reject_if _ _ = Ok _ |- _ => apply reject_if_Ok in Hg
  end. bool_props. eexists. split_and!; [rewrite Ef; by apply Hok|lia|lia|done].
Qed.
(** With a working disk, the key of the file is read. *)
Lemma read_key_holds p k d : holds p k d → answers d = [] → read_key p d = (Ok k, d).
Proof.
  intros (b & Hb & Hl & Hk) Ha.
  assert (on_disk (read_file p) d = (Ok b, d)) as E.
  { unfold on_disk, read_file, ArchiveNode.attempt, next_answer. rewrite run_bind, Ha. cbn. rewrite run_bind. cbn. by rewrite Hb. }
  assert ((length b =? 0)%nat || (MAX_NODE_KEY_BYTES <? Z.of_nat (length b)) = false) as Hg
    by (apply orb_false_iff; split; [apply Nat.eqb_neq|apply Z.ltb_ge]; lia).
  unfold read_key. rewrite run_bind, E, run_lift, Hg. cbn. unfold lift. by rewrite Hk.
Qed.
Lemma rename_true t p d e : rename t p d = (Ok true, e) → ∃ c, files d !! t = Some c ∧ files e !! p = Some c.
Proof.
  unfold rename. rewrite run_bind. destruct (next_answer_run d) as (o & d' & -> & [Ef _]).
  destruct o; [|done..]. rewrite run_bind. cbn. rewrite Ef. destruct (files d !! t) as [c|]; [|done].
  intros [= <-]. exists c. split; [done|apply lookup_insert_eq].
Qed.
Lemma sync_all_run d e : sync_all d = (Ok tt, e) → files e = files d.
Proof. unfold sync_all. destruct (attempt_run SyncFile (mret tt) d) as (e' & [Ef _] & [-> | ->]); by intros [= <-]. Qed.
Lemma create_key_run `{!NodeKeysLaws} p d k e : create_key p d = (Ok k, e) → holds p k e.
Proof.
  unfold create_key. intros Hr. inv_run.
  repeat match goal with Hf : on_disk _ _ = (Ok _, _) |- _ => apply on_disk_run in Hf end.
  match goal with Hw : write_all _ _ _ = (Ok ?u, _) |- _ => destruct u; apply write_all_Ok in Hw; rename Hw into Hwr end.
  match goal with Hs : sync_all _ = (Ok ?u, _) |- _ => destruct u; apply sync_all_run in Hs; rewrite <-Hs in Hwr end.
  match type of Hr with (if ?m then _ else _) _ = _ => destruct m end.
  - injection Hr as <- <-. match goal with Hm : rename _ _ _ = _ |- _ => apply rename_true in Hm as (c & Hc & Hp) end.
    match goal with Hg : ok_or _ _ = Ok _ |- _ => apply ok_or_Ok in Hg; rename Hg into Henc end.
    rewrite Hwr in Hc. injection Hc as <-. eexists. split_and!; [exact Hp|by eapply key_short..|by apply key_decodes].
  - inv_run. case_match; [|done]. by apply read_key_run in Hr as [? _].
Qed.

(** A node keeps its key.  When [load_or_create] returns a key, the file
    holds it, so every later start on the same files whose calls succeed
    returns the same key and leaves the files alone; a file that exists is
    never written, whatever the calls of the system do. *)
Theorem node_key_persists `{!NodeKeysLaws} p d :
  match load_or_create p d with
  | (Ok k, e) => ∀ later, files later = files e → answers later = [] → load_or_create p later = (Ok k, later)
  | _ => True
  end ∧ (is_Some (files d !! p) → files (load_or_create p d).2 = files d).
Proof.
  split.
  - destruct (load_or_create p d) as [[k| |] e] eqn:Hr; [|done..]. intros later Hf Ha. unfold load_or_create, path_exists in *.
    assert (holds p k e) as (b & Hb & Hh).
    { inv_run. match goal with Hx : on_disk _ _ = _ |- _ => injection Hx as <- <- end.
      case_match; [by apply read_key_run in Hr as [? _]|by eapply create_key_run]. }
    rewrite <-Hf in Hb. rewrite run_bind. cbn. rewrite bool_decide_true by (by eexists). apply read_key_holds; [by exists b|done].
  - intros Hs. unfold load_or_create, path_exists. rewrite run_bind. cbn. rewrite bool_decide_true by done. unfold read_key, on_disk. rewrite run_bind.
    destruct (read_file_run p d) as (e & [Ef _] & E2 & _). destruct (read_file p d) as [[b|u|] e']; cbn in E2 |- *; subst e'; try done.
    rewrite run_lift. by case_match.
Qed.
End node_identity.

(** ** The swarm *)

(** [NetworkConfig], and what [build_swarm] hands to the libp2p builder. *)
Definition ACTIVE_CONNECTION_IDLE_TIMEOUT : Z := 15 * 60.
Definition CONTROL_REQUEST_TIMEOUT : Z := 30.
Definition RENDEZVOUS_SERVER_MIN_TTL_SECONDS : Z := 60.
Definition RENDEZVOUS_SERVER_MAX_TTL_SECONDS : Z := 7200.
Definition CONTROL_PROTOCOL : string := "/token-holdem/control/11".
Definition IDENTIFY_PROTOCOL : string := "/token-holdem/12.0.0".
Definition PROTOCOL_VERSION : string := "12".
Inductive NetworkBuildError := BuildTransport | BuildBehaviour | BuildGossipsub | BuildAddress.

Section swarm.
Context `{NodeKeys}.
Record NetworkConfig := mkNetwork {
  nc_rendezvous_server : bool;
  nc_relay_server : bool;
  nc_upnp : bool;
  nc_relay_limits : RelayServerLimits;
  nc_identity : option Keypair;
}.
Record SwarmPlan := mkPlan {
  sp_keypair : Keypair;
  sp_gossip_heartbeat : Z;
  sp_gossip_strict : bool;
  sp_kademlia_server : bool;
  sp_rendezvous_server : option (Z * Z);       (* the shortest and the longest lifetime *)
  sp_relay_server : option RelayServerLimits;
  sp_upnp : bool;
  sp_control : string * Z;                     (* protocol and timeout *)
  sp_identify : string;
  sp_ping_interval : Z;
  sp_idle_timeout : Z;
}.
Definition plan_of (config : NetworkConfig) (keypair : Keypair) : SwarmPlan := {|
  sp_keypair := keypair;
  sp_gossip_heartbeat := 2;
  sp_gossip_strict := true;
  sp_kademlia_server := nc_rendezvous_server config;
  sp_rendezvous_server :=
    if nc_rendezvous_server config then Some (RENDEZVOUS_SERVER_MIN_TTL_SECONDS, RENDEZVOUS_SERVER_MAX_TTL_SECONDS) else None;
  sp_relay_server := if nc_relay_server config then Some (nc_relay_limits config) else None;
  sp_upnp := nc_upnp config;
  sp_control := (CONTROL_PROTOCOL, CONTROL_REQUEST_TIMEOUT);
  sp_identify := IDENTIFY_PROTOCOL;
  sp_ping_interval := 20;
  sp_idle_timeout := ACTIVE_CONNECTION_IDLE_TIMEOUT;
|}.
End swarm.

(** The builder of libp2p, and the place of a key file on the disk. *)
Class SwarmBuilder `{NodeKeys, World} := {
  swarm_of_plan : SwarmPlan → world → option NetworkBuildError * world;
  key_location : string → Path;
}.

(** ** [main] *)
Inductive StartError :=
  | FromOptions (e : StartupError) | FromNodeKey (e : NodeKeyError) | FromNetwork (e : NetworkBuildError)
  | FromArchiveNode (e : ArchiveError) | FromWorker (e : MainError).

Section start.
Context `{Crypto, Libp2p, Ziffle, !World, !OsRandom, !HandCodec, !RoomCodec, !PoolCodec, !HexCodec, !DirOrder, !ReceiptJson}.
Context `{!Rendezvous, !MultiaddrText, !Host, !RecoveryCrypto, !Cbor RecoveryEnvelope, !Cbor FriendRoomInvite, !Base64, !SerdeJson}.
Context `{!NodeKeys, !SwarmBuilder}.
Notation StartM := (M (Disk * world) StartError).

Definition start_disk {E A} (inj : E → StartError) (m : M Disk E A) : StartM A :=
  λ s, let '(r, d) := m s.1 in (map_err inj r, (d, s.2)).
Definition start_world {A} (f : world → A * world) : StartM A := λ s, let '(v, w) := f s.2 in (Ok v, (s.1, w)).

(** [build_swarm], [listen]. *)
Definition build_swarm (config : NetworkConfig) : StartM SwarmPlan :=
  keypair ← match nc_identity config with
    | Some keypair => mret keypair
    | None => seed ← start_world (fill_bytes 32); mret (generate_ed25519 seed)
    end;
  let plan := plan_of config keypair in
  failed ← start_world (swarm_of_plan plan);
  match failed with None => mret plan | Some e => lift (Err (FromNetwork e)) end.
Definition listen_address (address : Multiaddr) : StartM unit :=
  listener ← start_world (listen_on address); _ ← lift (ok_or listener (FromNetwork BuildTransport)); mret tt.
Definition listen : StartM unit :=
  quic ← lift (ok_or (addr_from_str "/ip4/0.0.0.0/udp/0/quic-v1") (FromNetwork BuildAddress));
  tcp ← lift (ok_or (addr_from_str "/ip4/0.0.0.0/tcp/0") (FromNetwork BuildAddress));
  listen_address quic;;
  listen_address tcp.

(** What the options and the policy enable. *)
Definition servers (o : StartupOptions) : bool * bool * bool :=
  let decision := evaluate (volunteer_inputs o) in
  (enable_rendezvous_server o || enable_discovery_server decision,
   enable_relay_server o || Volunteer.enable_relay_server decision,
   enable_upnp o || Volunteer.enable_upnp decision).
Definition key_path (path : NodeKeyPath) : Path :=
  match path with
  | KeyFile file => key_location file
  | KeyInDirectory _ => (RootDir, string_bytes "libp2p-identity-key")
  end.
Definition network_identity (o : StartupOptions) : StartM (option Keypair) :=
  match node_identity_path o with
  | Some path => k ← start_disk FromNodeKey (load_or_create (key_path path)); mret (Some k)
  | None => mret None
  end.
Definition start_worker (o : StartupOptions) : StartM (SwarmPlan * RuntimeState) :=
  let '(discovery, relay, upnp) := servers o in
  identity ← network_identity o;
  plan ← build_swarm (mkNetwork discovery relay upnp (relay_limits o) identity);
  match listen_addresses o with [] => listen | l => for_each listen_address l end;;
  for_each (λ address, start_world (λ w, (tt, swarm_add_external_address address w))) (external_addresses o);;
  let volunteer := volunteer_new (volunteer_inputs o) (evaluate (volunteer_inputs o)) discovery relay upnp
                     (so_assume_public o) (relay_limits o) in
  archive ← start_disk FromArchiveNode (archive_runtime_new (bool_decide (is_Some (archive_directory o))));
  mret (plan, { state_new archive volunteer with st_external_addresses := external_addresses o }).

(** The first events. *)
Definition announce : MainM unit :=
  local ← look local_peer_id;
  emit (OutSidecar (EvReady (peer_id_to_bytes local) PROTOCOL_VERSION));;
  s ← the_state;
  emit_option (OutArchive <$> node_ready_event (st_archive s));;
  emit (OutVolunteer (EvStatus (status (st_volunteer s)))).
(** A daemon does not read standard input. *)
Definition is_line (input : Input) : bool := match input with Line _ | LineFailed | InputClosed => true | _ => false end.
Definition heard (o : StartupOptions) (inputs : list Input) : list Input :=
  List.filter (λ input, negb (daemon o && is_line input)) inputs.
Definition worker_main (arguments : list string) (inputs : list Input) (d : Disk) (w : world) : result StartError unit * (Disk * world) :=
  match parse_startup_options arguments with
  | Err e => (Err (FromOptions e), (d, w))
  | Panic => (Panic, (d, w))
  | Ok o =>
      match start_worker o (d, w) with
      | (Err e, s) => (Err e, s)
      | (Panic, s) => (Panic, s)
      | (Ok (_, state), (d, w)) =>
          let '(r, p) := (announce;; main_loop throttle_default (heard o inputs)) (mkProcess state d w) in
          (map_err FromWorker r, (ps_disk p, ps_world p))
      end
  end.

(** ** What runs after a start *)
Lemma build_swarm_run config s plan s' :
  build_swarm config s = (Ok plan, s') →
  plan = plan_of config (sp_keypair plan) ∧ (∀ k, nc_identity config = Some k → sp_keypair plan = k) ∧ s'.1 = s.1.
Proof.
  unfold build_swarm, start_world. intros Hr. apply bind_run in Hr as (key & u & Hk & Hr).
  apply bind_run in Hr as (failed & v & Hb & Hr). destruct (swarm_of_plan _ _) as [x y]. injection Hb as <- <-.
  destruct x; [done|]. injection Hr as <- <-. split; [done|]. destruct (nc_identity config) as [k|].
  - injection Hk as <- <-. split; [by intros ? [= <-]|done].
  - inv_run. match goal with Hf : (let '(_, _) := ?f in _) = _ |- _ => destruct f; injection Hf as <- <- end. done.
Qed.

(** C37: A worker runs the servers it was asked to run.  When it has started on
    a command line, it is a rendezvous server exactly if the arguments have
    --rendezvous-server, or the consent given last is "granted" and the network
    and power given last are not "metered" and not "battery"; it is a relay
    exactly if they have --relay-server, or consent is granted and network and
    power are given as "unmetered" and "ac"; UPnP likewise.  Without such
    arguments nothing is served.  A relay has limits in their ranges, per peer
    at most the total; the state reports the servers that run; the node has the
    key of its key file, where it has one; and nobody is at a table. *)
Theorem startup_as_asked arguments d w :
  match parse_startup_options arguments with
  | Ok o =>
      match (start_worker o (d, w)).1 with
      | Ok (plan, s) =>
          let i := inputs_given arguments in
          let willing := vi_consent i = Granted ∧ vi_network_cost i ≠ Metered ∧ vi_power_source i ≠ Battery in
          (is_Some (sp_rendezvous_server plan) ↔ asked "--rendezvous-server" arguments = true ∨ willing)
          ∧ (is_Some (sp_relay_server plan) ↔
               asked "--relay-server" arguments = true
               ∨ vi_consent i = Granted ∧ vi_network_cost i = Unmetered ∧ vi_power_source i = Ac)
          ∧ (sp_upnp plan = true ↔ asked "--upnp" arguments = true ∨ willing)
          ∧ (∀ limits, sp_relay_server plan = Some limits →
               limits_ok limits ∧ rl_max_reservations_per_peer limits <= rl_max_reservations limits
               ∧ rl_max_circuits_per_peer limits <= rl_max_circuits limits)
          ∧ (discovery_server_enabled (st_volunteer s), relay_server_enabled (st_volunteer s), upnp_enabled (st_volunteer s))
            = (bool_decide (is_Some (sp_rendezvous_server plan)), bool_decide (is_Some (sp_relay_server plan)), sp_upnp plan)
          ∧ (∀ path, node_identity_path o = Some path → (load_or_create (key_path path) d).1 = Ok (sp_keypair plan))
          ∧ idle s = true ∧ st_identity s = None
      | _ => True
      end
  | _ => True
  end.
Proof.
  destruct (parse_startup_options arguments) as [o| |] eqn:Hp; [|done..]. pose proof (parsed_choices _ _ Hp) as Hch.
  injection Hch as Ec1 Ec2 Ec3 _ _ Ei. apply startup_options_ok in Hp as ((Hl & _) & Hr & Hc).
  destruct (start_worker o (d, w)) as [[[plan s]| |] s'] eqn:E; [|done..]. cbn [fst]. unfold start_worker in E.
  destruct (servers o) as [[ds rs] up] eqn:Es. injection Es as Ed Er Eu.
  apply bind_run in E as (key & u & Hk & E). apply bind_run in E as (plan' & v & Hb & E).
  apply bind_run in E as (? & ? & _ & E). apply bind_run in E as (? & ? & _ & E). apply bind_run in E as (archive & ? & _ & E).
  injection E as -> <- <-. apply build_swarm_run in Hb as (Hplan & Hkey & _).
  destruct (volunteer_policy (volunteer_inputs o)) as (Hd & Hrel & Hup & _). rewrite <-Ei, <-Ec1, <-Ec2, <-Ec3.
  rewrite Hplan. cbn. split_and!.
  - rewrite <-Hd, <-orb_true_iff, Ed. by destruct ds; split; [|by intros _|intros [? ?]|].
  - rewrite <-Hrel, <-orb_true_iff, Er. by destruct rs; split; [|by intros _|intros [? ?]|].
  - by rewrite <-Hd, <-Hup, <-orb_true_iff, Eu.
  - destruct rs; [|done]. by intros limits [= <-].
  - by destruct ds, rs.
  - intros path Hpath. unfold network_identity in Hk. rewrite Hpath in Hk. inv_run. unfold start_disk in *. cbn in *.
    destruct (load_or_create (key_path path) d) as [[k| |] e]; cbn in *; simplify_eq. by rewrite (Hkey _ eq_refl).
  - reflexivity.
  - reflexivity.
Qed.
End start.

(** ** Examples *)

(** Keys that are their seed, encoded with a byte in front. *)
Definition toy_keys : NodeKeys := {|
  Keypair := list Z;
  generate_ed25519 := λ seed, take 32 seed;
  to_protobuf_encoding := λ k, Some (8 :: k);
  from_protobuf_encoding := λ b, match b with _ :: k => Some k | [] => None end;
|}.
Definition toy_key_hex : HexCodec := {| to_hex := display_hex; from_hex := λ _, None |}.
Lemma toy_keys_laws : @NodeKeysLaws toy_keys.
Proof.
  split; [by intros k b [= <-]|]. intros seed b [= <-]. pose proof (firstn_le_length 32 seed). unfold MAX_NODE_KEY_BYTES. cbn in *. lia.
Qed.
Definition toy_key_path : Path := (RootDir, string_bytes "libp2p-identity-key").
Definition fresh_disk (seed : Z) : Disk := mkDisk ∅ ∅ [] [[seed]; [seed]].
Lemma node_key_persists_witness :
  let k : list Z := 7 :: replicate 31 0 in
  let later := mkDisk {[toy_key_path := 8 :: k]} ∅ [] [[9]] in
  @load_or_create toy_keys toy_key_hex toy_key_path later = (Ok k, later).
Proof.
  intros k later. pose proof (proj1 (@node_key_persists toy_keys toy_key_hex toy_keys_laws toy_key_path (fresh_disk 7))) as Hp.
  refine (Hp later _ _); vm_compute; reflexivity.
Defined.

(** [fs::rename] replaces a file that exists.  Two workers that both find no
    key file create one each: the second replaces the key the first already
    uses, and the first has another peer id after its next start. *)
Definition with_nonces (l : list (list Z)) (d : Disk) : Disk := { d with nonces := l }.
Example concurrent_start_replaces_key :
  let create := @create_key toy_keys toy_key_hex toy_key_path in
  let '(first, d1) := create (fresh_disk 7) in
  let '(second, d2) := create (with_nonces [[5]; [5]] d1) in
  first = Ok (7 :: replicate 31 0) ∧ second = Ok (5 :: replicate 31 0)
  ∧ (@load_or_create toy_keys toy_key_hex toy_key_path d2).1 = second.
Proof. vm_compute. split_and!; reflexivity. Qed.
