(* ===== verification/SidecarInv.v ===== *)
(** * SidecarInv: the identity under the events of the runtimes

    The invariant that ties the loaded identity to the observed account, the
    relations that the methods of SidecarEvents keep, and the depth of the
    nested processing of events. *)

From coqutil Require Import Datatypes.RecordSetters.
From S2P Require Import Prelude Machine Encoding Order Ids Table TablePool Receipt Identity SignedReceipt UseCases.
From S2P Require Import Wire Session NetworkAddress HandAction MentalPoker Room PoolProtocol Swarm SessionState SessionRuntime SessionDelivery.
From S2P Require Import HandState HandRuntime PoolRuntime ArchiveNode ArchiveRuntime Command Volunteer Supervisor Discovery Recovery.
From S2P Require Import SidecarState SidecarEvents SidecarCommands SidecarNetwork.
Import OCamlLikeNotations.

(** Relations between the states before and after a method. *)
Section parts.
Context `{Crypto, Libp2p, Ziffle, !World, !OsRandom, !HandCodec, !RoomCodec, !PoolCodec, !HexCodec, !DirOrder, !ReceiptJson}.
Context `{!Rendezvous, !MultiaddrText, !Host, !RecoveryCrypto, !Cbor RecoveryEnvelope, !Cbor FriendRoomInvite, !Base64, !SerdeJson}.
Context (R : relation Process) `{!PreOrder R}.
Lemma attempt_steps {A} (m : MainM A) : steps R m → steps R (SidecarEvents.attempt m).
Proof. intros Hm p. unfold SidecarEvents.attempt. specialize (Hm p). by destruct (m p) as [[]]. Qed.
Lemma steps_post {A B} (P : A → Prop) (m : MainM A) (f : A → MainM B) :
  (∀ p v p', m p = (Ok v, p') → P v) → steps R m → (∀ v, P v → steps R (f v)) → steps R (m ≫= f).
Proof.
  intros HP Hm Hf p. rewrite run_bind. specialize (Hm p). destruct (m p) as [[v| |] q] eqn:E; [|done..].
  etrans; [exact Hm|]. eapply Hf, HP, E.
Qed.
End parts.

Create HintDb owner.
Create HintDb asleep.
Create HintDb room.
(** Take a method apart along its code; the leaves are hints. *)
Ltac take_apart leaf :=
  repeat lazymatch goal with
  | |- steps _ (_ ≫= _) => first [solve [leaf]|apply steps_bind; [apply _| |intros ?]]
  | |- steps _ (mret _) => apply steps_ret; apply _
  | |- steps _ (lift _) => apply steps_lift; apply _
  | |- steps _ (gets _) => apply steps_gets; apply _
  | |- steps _ the_state => apply steps_gets; apply _
  | |- steps _ (look _) => apply steps_gets; apply _
  | |- steps _ (for_each _ _) => apply steps_for_each; [apply _|intros ?]
  | |- steps _ (SidecarEvents.attempt _) => apply attempt_steps
  | |- steps _ (match ?x with _ => _ end) => destruct x
  | |- steps _ _ => solve [leaf]
  end.
Ltac owner_steps := take_apart ltac:(eauto 3 with owner nocore).
Ltac asleep_steps := take_apart ltac:(eauto 3 with asleep nocore).
Ltac room_steps := take_apart ltac:(eauto 3 with room nocore).

Section spec.
Context `{Crypto, Libp2p, Ziffle, !World, !OsRandom, !HandCodec, !RoomCodec, !PoolCodec, !HexCodec, !DirOrder, !ReceiptJson}.
Context `{!Rendezvous, !MultiaddrText, !Host, !RecoveryCrypto, !Cbor RecoveryEnvelope, !Cbor FriendRoomInvite, !Base64, !SerdeJson}.
Implicit Types (p : Process) (s : RuntimeState).

(** ** The invariant *)

(** Who the player is; the number of backups may change. *)
Definition owner s : option (list Z * PlayerId * list Z * DeviceCertificate) :=
  (λ i, (id_fingerprint i, id_player i, id_device i, id_certificate i)) <$> st_identity s.
(** No identity, and no table. *)
Definition asleep s : Prop :=
  st_identity s = None ∧ st_session s = None ∧ hr_active (st_hand s) = None ∧ st_pool s = None ∧ pending_room_joins s = ∅.
Definition of_account s (fingerprint : list Z) : Prop :=
  ∃ o, token_observation s = Some o ∧ ob_fingerprint o = fingerprint.
(** An identity with the certificate for its device. *)
Definition identity_ok (i : ActiveIdentity) : Prop :=
  cert_player_id (id_certificate i) = id_player i ∧ cert_device (id_certificate i) = device_public_key (id_device i).
Record account_inv s : Prop := {
  inv_identity : ∀ i, st_identity s = Some i → of_account s (id_fingerprint i) ∧ identity_ok i;
  inv_pending : ∀ r, pending_remote_restore s = Some r → of_account s (pr_fingerprint r);
  inv_asleep : st_identity s = None → asleep s;
}.

(** ** Methods that leave the identity alone *)
Definition same_owner : relation Process := λ p p',
  owner (ps_state p') = owner (ps_state p) ∧ token_observation (ps_state p') = token_observation (ps_state p)
  ∧ (pending_remote_restore (ps_state p') = pending_remote_restore (ps_state p) ∨ pending_remote_restore (ps_state p') = None).
Definition stays_asleep : relation Process := λ p p', asleep (ps_state p) → asleep (ps_state p').
Definition keeps_inv : relation Process := λ p p', account_inv (ps_state p) → account_inv (ps_state p').
#[export] Instance same_owner_preorder : PreOrder same_owner.
Proof.
  split; [intros p; unfold same_owner; auto|]. intros p1 p2 p3 (Ho1 & Ht1 & Hab) (Ho2 & Ht2 & Hbc).
  split_and!; [congruence..|]. destruct Hbc as [->|]; auto.
Qed.
#[export] Instance stays_asleep_preorder : PreOrder stays_asleep.
Proof. split; [intros p Hp; exact Hp|]. intros p1 p2 p3 Hab Hbc ?. auto. Qed.
#[export] Instance keeps_inv_preorder : PreOrder keeps_inv.
Proof. split; [intros p Hp; exact Hp|]. intros p1 p2 p3 Hab Hbc ?. auto. Qed.

Lemma owner_identity s s' i : owner s' = owner s → st_identity s' = Some i →
  ∃ i0, st_identity s = Some i0 ∧ id_fingerprint i = id_fingerprint i0 ∧ id_player i = id_player i0
    ∧ id_device i = id_device i0 ∧ id_certificate i = id_certificate i0.
Proof. unfold owner. intros Ho Hi. rewrite Hi in Ho. destruct (st_identity s) as [i0|]; [|done]. cbn in Ho. injection Ho as ????. eexists. split_and!; eauto. Qed.
Lemma quiet_keeps_inv p p' : same_owner p p' → stays_asleep p p' → keeps_inv p p'.
Proof.
  intros (Ho & Hob & Hpr) Hz Hinv. destruct Hinv as [Hi Hp Ha]. constructor.
  - intros i Hi'. destruct (owner_identity _ _ _ Ho Hi') as (i0 & Hi0 & Hf & Hpl & Hd & Hc).
    destruct (Hi i0 Hi0) as ((o & ? & ?) & ? & ?). split; [|by split; congruence].
    exists o. split; congruence.
  - intros r Hr. destruct Hpr as [Hpr|Hpr]; [|congruence]. destruct (Hp r) as (o & ? & ?); [congruence|]. exists o. split; congruence.
  - intros Hn. apply Hz, Ha. unfold owner in Ho. rewrite Hn in Ho. by destruct (st_identity (ps_state p)).
Qed.
Lemma steps_keeps {A} (m : MainM A) : steps same_owner m → steps stays_asleep m → steps keeps_inv m.
Proof. intros Ho Ha p. by apply quiet_keeps_inv. Qed.

(** ** The parts *)
Ltac solve_owner := unfold same_owner, owner; cbn; auto.
Lemma in_world_owner {A} (f : world → A * world) : steps same_owner (in_world f).
Proof. intros p. unfold in_world. destruct (f _). destruct p. solve_owner. Qed.
Lemma swarm_do_owner f : steps same_owner (swarm_do f).
Proof. intros p. destruct p. solve_owner. Qed.
Lemma part_owner_gen {T E A} get set inj (m : M (T * world) E A) :
  (∀ t s, st_identity (set t s) = st_identity s ∧ token_observation (set t s) = token_observation s
    ∧ pending_remote_restore (set t s) = pending_remote_restore s) → steps same_owner (on_part get set inj m).
Proof.
  intros Hset p. unfold on_part. destruct (m _) as [v [t w]]. cbn. destruct (Hset t (ps_state p)) as (? & ? & ?).
  unfold same_owner, owner. cbn. split_and!; [by f_equal|done|auto].
Qed.
Lemma on_pool_owner {A} (m : M (TablePoolRuntime * world) PoolError A) : steps same_owner (on_pool m).
Proof. by apply part_owner_gen. Qed.
Lemma on_hand_owner {A} (m : M (HandRuntime * world) HandError A) : steps same_owner (on_hand m).
Proof. by apply part_owner_gen. Qed.
Lemma on_archive_owner {A} (m : M (ArchiveRuntime * world) ArchiveError A) : steps same_owner (on_archive m).
Proof. by apply part_owner_gen. Qed.
Lemma on_discovery_owner {A} (m : M (DiscoveryRuntime * world) DiscoveryError A) : steps same_owner (on_discovery m).
Proof. by apply part_owner_gen. Qed.
Lemma on_relay_owner {A} (m : M (gmap PeerId RelayCandidate * world) DiscoveryError A) : steps same_owner (on_relay m).
Proof. by apply part_owner_gen. Qed.
Lemma on_room_owner {A} n (m : M (ActiveSession * world) RoomError A) : steps same_owner (on_room n m).
Proof. by apply part_owner_gen. Qed.

Lemma set_state_owner f :
  (∀ s, st_identity (f s) = st_identity s ∧ token_observation (f s) = token_observation s
    ∧ (pending_remote_restore (f s) = pending_remote_restore s ∨ pending_remote_restore (f s) = None)) → steps same_owner (set_state f).
Proof. intros Hf p. destruct p as [s d w]. destruct (Hf s) as (? & ? & ?). unfold same_owner, owner. cbn. split_and!; [by f_equal|done..]. Qed.
Lemma enter_room_owner m : steps same_owner (SidecarEvents.enter_room m).
Proof. intros p. unfold SidecarEvents.enter_room. destruct p as [[] d w]. cbn. destruct (m w) as [[[a e]| |] w']; solve_owner. Qed.
Lemma room_world_owner {A} (m : M world RoomError A) : steps same_owner (room_world m).
Proof. intros p. unfold room_world. destruct p. cbn. destruct (m _). solve_owner. Qed.
Lemma on_volunteer_owner {A} (f : VolunteerRuntime → A * VolunteerRuntime) : steps same_owner (on_volunteer f).
Proof. intros p. unfold on_volunteer. destruct p as [[] d w]. cbn. destruct (f _). solve_owner. Qed.
Lemma take_envelope_owner l : steps same_owner (take_envelope l).
Proof. intros p. unfold take_envelope. destruct p as [[] d w]. cbn. destruct (take_recovered_envelope _ _). solve_owner. Qed.
Lemma serve_at_owner request now : steps same_owner (serve_at request now).
Proof. intros p. unfold serve_at. destruct p. cbn. destruct (serve_request _ _ _ _) as [[] d]; solve_owner. Qed.
#[local] Hint Resolve in_world_owner swarm_do_owner on_pool_owner on_hand_owner on_archive_owner on_discovery_owner
  on_relay_owner on_room_owner enter_room_owner room_world_owner on_volunteer_owner take_envelope_owner serve_at_owner : owner.
#[local] Hint Extern 3 (steps same_owner (set_state _)) =>
  apply set_state_owner; let s := fresh "s" in intros s; destruct s; cbn; auto : owner.

(** The same for a process without an identity. *)
Definition pool_sleeps {A} (m : M (TablePoolRuntime * world) PoolError A) : Prop := ∀ w, (m (None, w)).2.1 = None.
Definition hand_sleeps {A} (m : M (HandRuntime * world) HandError A) : Prop :=
  ∀ r w, hr_active r = None → hr_active (m (r, w)).2.1 = None.
Lemma in_world_asleep {A} (f : world → A * world) : steps stays_asleep (in_world f).
Proof. intros p Hp. unfold in_world. destruct p. cbn in *. destruct (f _). exact Hp. Qed.
Lemma swarm_do_asleep f : steps stays_asleep (swarm_do f).
Proof. intros p Hp. destruct p. exact Hp. Qed.
Lemma on_pool_asleep {A} (m : M (TablePoolRuntime * world) PoolError A) : pool_sleeps m → steps stays_asleep (on_pool m).
Proof.
  intros Hm p (? & ? & ? & Hp & ?). unfold on_pool, on_part. rewrite Hp. specialize (Hm (ps_world p)). destruct (m _) as [v [t w]].
  unfold asleep. cbn in *. by split_and!.
Qed.
Lemma on_hand_asleep {A} (m : M (HandRuntime * world) HandError A) : hand_sleeps m → steps stays_asleep (on_hand m).
Proof.
  intros Hm p (? & ? & Hh & ? & ?). unfold on_hand, on_part. specialize (Hm _ (ps_world p) Hh). destruct (m _) as [v [t w]].
  unfold asleep. cbn in *. by split_and!.
Qed.
Lemma part_asleep_gen {T E A} get set inj (m : M (T * world) E A) :
  (∀ t s, asleep s → asleep (set t s)) → steps stays_asleep (on_part get set inj m).
Proof. intros Hset p Hp. unfold on_part. destruct (m _) as [v [t w]]. by apply Hset. Qed.
Lemma on_archive_asleep {A} (m : M (ArchiveRuntime * world) ArchiveError A) : steps stays_asleep (on_archive m).
Proof. by apply part_asleep_gen. Qed.
Lemma on_discovery_asleep {A} (m : M (DiscoveryRuntime * world) DiscoveryError A) : steps stays_asleep (on_discovery m).
Proof. by apply part_asleep_gen. Qed.
Lemma on_relay_asleep {A} (m : M (gmap PeerId RelayCandidate * world) DiscoveryError A) : steps stays_asleep (on_relay m).
Proof. by apply part_asleep_gen. Qed.
Lemma on_room_asleep {A} n (m : M (ActiveSession * world) RoomError A) : steps stays_asleep (on_room n m).
Proof. intros p (? & Hs & ? & ? & ?). unfold on_room, on_part, room_part. rewrite Hs. unfold asleep. cbn. by split_and!. Qed.
Lemma set_state_asleep f : (∀ s, asleep s → asleep (f s)) → steps stays_asleep (set_state f).
Proof. intros Hf p Hp. destruct p. by apply Hf. Qed.
Lemma on_volunteer_asleep {A} (f : VolunteerRuntime → A * VolunteerRuntime) : steps stays_asleep (on_volunteer f).
Proof. intros p Hp. unfold on_volunteer. destruct p as [[] d w]. cbn in *. destruct (f _). exact Hp. Qed.
Lemma serve_at_asleep request now : steps stays_asleep (serve_at request now).
Proof. intros p Hp. unfold serve_at. destruct p. cbn in *. destruct (serve_request _ _ _ _) as [[] d]; exact Hp. Qed.
Lemma need_identity_asleep {B} (f : ActiveIdentity → MainM B) : steps stays_asleep (need_identity ≫= f).
Proof. intros p Hp. pose proof Hp as [Hi _]. unfold need_identity, the_state, mbind, M_bind, gets, lift. cbn. rewrite Hi. exact Hp. Qed.
(** What is done for a loaded identity only. *)
Lemma if_identity_asleep {B} (f : RuntimeState → option ActiveIdentity → MainM B) :
  (∀ s, steps stays_asleep (f s None)) → steps stays_asleep (the_state ≫= λ s, f s (st_identity s)).
Proof. intros Hf p Hp. pose proof Hp as [Hi _]. unfold the_state, mbind, M_bind, gets. cbn. rewrite Hi. by apply Hf. Qed.
#[local] Hint Resolve in_world_asleep swarm_do_asleep on_archive_asleep on_discovery_asleep on_relay_asleep on_room_asleep
  on_volunteer_asleep serve_at_asleep need_identity_asleep : asleep.
#[local] Hint Extern 3 (steps stays_asleep (set_state _)) =>
  apply set_state_asleep; let s := fresh "s" in intros s (? & ? & ? & ? & ?); destruct s; unfold asleep; cbn in *; subst; cbn; rewrite ?delete_empty; auto : asleep.

(** ** Output, time and the identity *)
Lemma emit_owner o : steps same_owner (emit o).
Proof. unfold emit. owner_steps. Qed.
Lemma emit_asleep o : steps stays_asleep (emit o).
Proof. unfold emit. asleep_steps. Qed.
#[local] Hint Resolve emit_owner : owner.
#[local] Hint Resolve emit_asleep : asleep.
Lemma emit_all_owner l : steps same_owner (emit_all l).
Proof. unfold emit_all. owner_steps. Qed.
Lemma emit_all_asleep l : steps stays_asleep (emit_all l).
Proof. unfold emit_all. asleep_steps. Qed.
Lemma emit_option_owner o : steps same_owner (emit_option o).
Proof. unfold emit_option. owner_steps. Qed.
Lemma emit_option_asleep o : steps stays_asleep (emit_option o).
Proof. unfold emit_option. asleep_steps. Qed.
Lemma unix_time_owner : steps same_owner unix_time_ms.
Proof. unfold unix_time_ms. owner_steps. Qed.
Lemma unix_time_asleep : steps stays_asleep unix_time_ms.
Proof. unfold unix_time_ms. asleep_steps. Qed.
Lemma monotonic_owner : steps same_owner now_monotonic.
Proof. unfold now_monotonic. owner_steps. Qed.
Lemma monotonic_asleep : steps stays_asleep now_monotonic.
Proof. unfold now_monotonic. asleep_steps. Qed.
Lemma need_identity_owner : steps same_owner need_identity.
Proof. unfold need_identity. owner_steps. Qed.
Lemma need_identity_sleeps : steps stays_asleep need_identity.
Proof. unfold need_identity. asleep_steps. Qed.
#[local] Hint Resolve emit_all_owner emit_option_owner unix_time_owner monotonic_owner need_identity_owner : owner.
#[local] Hint Resolve emit_all_asleep emit_option_asleep unix_time_asleep monotonic_asleep need_identity_sleeps : asleep.
Lemma account_owner : steps same_owner identity_account_fingerprint.
Proof. unfold identity_account_fingerprint. owner_steps. Qed.
Lemma account_asleep : steps stays_asleep identity_account_fingerprint.
Proof. unfold identity_account_fingerprint. asleep_steps. Qed.
#[local] Hint Resolve account_owner : owner.
#[local] Hint Resolve account_asleep : asleep.
Lemma checked_account_owner expected : steps same_owner (checked_identity_account expected).
Proof. unfold checked_identity_account. owner_steps. Qed.
Lemma checked_account_asleep expected : steps stays_asleep (checked_identity_account expected).
Proof. unfold checked_identity_account. asleep_steps. Qed.
Lemma slot_empty_owner : steps same_owner ensure_identity_slot_is_empty.
Proof. unfold ensure_identity_slot_is_empty. owner_steps. Qed.
Lemma replaceable_owner : steps same_owner ensure_identity_replaceable.
Proof. unfold ensure_identity_replaceable. owner_steps. Qed.
Lemma activate_owner root envelope locator payload fp dl now :
  steps same_owner (activate_identity root envelope locator payload fp dl now).
Proof. unfold activate_identity. owner_steps. Qed.
Lemma activate_asleep root envelope locator payload fp dl now :
  steps stays_asleep (activate_identity root envelope locator payload fp dl now).
Proof. unfold activate_identity. asleep_steps. Qed.
#[local] Hint Resolve checked_account_owner slot_empty_owner replaceable_owner activate_owner : owner.
#[local] Hint Resolve checked_account_asleep activate_asleep : asleep.
Lemma create_owner secret dl fp now : steps same_owner (create_identity secret dl fp now).
Proof. unfold create_identity. owner_steps. Qed.
Lemma create_asleep secret dl fp now : steps stays_asleep (create_identity secret dl fp now).
Proof. unfold create_identity. asleep_steps. Qed.
Lemma restore_owner code secret dl fp now : steps same_owner (restore_identity code secret dl fp now).
Proof. unfold restore_identity. owner_steps. Qed.
Lemma restore_asleep code secret dl fp now : steps stays_asleep (restore_identity code secret dl fp now).
Proof. unfold restore_identity. asleep_steps. Qed.
Lemma ready_owner i r c : steps same_owner (emit_identity_ready i r c).
Proof. apply emit_owner. Qed.
Lemma ready_asleep i r c : steps stays_asleep (emit_identity_ready i r c).
Proof. apply emit_asleep. Qed.
Lemma fail_restore_owner m : steps same_owner (fail_remote_restore m).
Proof. unfold fail_remote_restore. owner_steps. Qed.
Lemma fail_restore_asleep m : steps stays_asleep (fail_remote_restore m).
Proof. unfold fail_remote_restore. asleep_steps. Qed.
Lemma statistics_owner : steps same_owner emit_statistics.
Proof. unfold emit_statistics. owner_steps. Qed.
Lemma statistics_asleep : steps stays_asleep emit_statistics.
Proof. unfold emit_statistics. asleep_steps. Qed.
Lemma report_status_owner : steps same_owner report_identity_status.
Proof. unfold report_identity_status. owner_steps. Qed.
Lemma report_status_asleep : steps stays_asleep report_identity_status.
Proof. unfold report_identity_status. asleep_steps. Qed.
#[local] Hint Resolve create_owner restore_owner ready_owner fail_restore_owner statistics_owner report_status_owner : owner.
#[local] Hint Resolve create_asleep restore_asleep ready_asleep fail_restore_asleep statistics_asleep report_status_asleep : asleep.

(** ** Events of the archive *)
Lemma count_replicas_owner l n : steps same_owner (set_state (λ s, (count_replicas l n s).2)).
Proof.
  intros p. destruct p as [[] d w]. unfold count_replicas, same_owner, owner. cbn.
  case_match; cbn; [|auto]. case_match; cbn; [|auto]. by destruct a; auto.
Qed.
Lemma count_replicas_asleep l n : steps stays_asleep (set_state (λ s, (count_replicas l n s).2)).
Proof. apply set_state_asleep. intros s Hs. pose proof Hs as [Hi _]. unfold count_replicas. rewrite Hi. exact Hs. Qed.
#[local] Hint Resolve count_replicas_owner : owner.
#[local] Hint Resolve count_replicas_asleep : asleep.
Lemma observe_archive_owner acc e : steps same_owner (observe_archive_event acc e).
Proof. unfold observe_archive_event. destruct e; owner_steps. Qed.
Lemma observe_archive_asleep acc e : steps stays_asleep (observe_archive_event acc e).
Proof. unfold observe_archive_event. destruct e; asleep_steps. Qed.
Lemma observe_all_owner l : ∀ acc, steps same_owner (observe_archive_events acc l).
Proof. induction l as [|e l IH]; intros acc; cbn [observe_archive_events]; [apply steps_ret, _|]. apply steps_bind; [apply _|apply observe_archive_owner|apply IH]. Qed.
Lemma observe_all_asleep l : ∀ acc, steps stays_asleep (observe_archive_events acc l).
Proof. induction l as [|e l IH]; intros acc; cbn [observe_archive_events]; [apply steps_ret, _|]. apply steps_bind; [apply _|apply observe_archive_asleep|apply IH]. Qed.

(** An event that a package has arrived is what starts a restore, and only
    while one is waited for. *)
Definition not_fetched (e : ArchiveEvent) : Prop := match e with RecoveryBackupFetched _ => False | _ => True end.
Lemma observe_ready acc e p acc' p' : observe_archive_event acc e p = (Ok acc', p') →
  acc'.2 = true → acc.2 = true ∨ (¬ not_fetched e ∧ is_Some (pending_remote_restore (ps_state p))).
Proof.
  unfold observe_archive_event. intros Hrun Hready. unfold the_state in Hrun. apply bind_run in Hrun as (s & u & [= <- <-] & Hrun).
  apply bind_run in Hrun as (b & u & Hb & Hrun). apply bind_run in Hrun as (? & ? & _ & [= -> _]).
  destruct e; try (injection Hb as -> _; by left).
  - repeat case_match; inv_run; cbn in *; auto.
  - case_match; inv_run; auto.
  - injection Hb as <- _. cbn in Hready. apply orb_true_iff in Hready as [?|Hr]; [by left|right]. split; [by intros []|].
    unfold awaits_package in Hr. by destruct (pending_remote_restore _).
Qed.

Lemma same_owner_pending p p' : same_owner p p' → is_Some (pending_remote_restore (ps_state p')) → is_Some (pending_remote_restore (ps_state p)).
Proof. intros (_ & _ & [->| ->]); [done|by intros [? [=]]]. Qed.
Lemma observe_all_ready l : ∀ acc p acc' p', observe_archive_events acc l p = (Ok acc', p') → acc'.2 = true →
  acc.2 = true ∨ (¬ Forall not_fetched l ∧ is_Some (pending_remote_restore (ps_state p))).
Proof.
  induction l as [|e l IH]; intros acc p acc' p' Hrun Hready; cbn [observe_archive_events] in Hrun; [injection Hrun as <- _; auto|].
  apply bind_run in Hrun as (b & q & Hb & Hrun). pose proof (observe_archive_owner acc e p) as Ho. rewrite Hb in Ho. cbn in Ho.
  destruct (IH _ _ _ _ Hrun Hready) as [Hb2|[Hl Hp]].
  - destruct (observe_ready _ _ _ _ _ Hb Hb2) as [?|[He Hp]]; [by left|right]. split; [|done]. by intros [? ?]%Forall_cons.
  - right. split; [by intros [? ?]%Forall_cons|]. by eapply same_owner_pending.
Qed.
(** Events without an arrival are only shown. *)
Lemma shown_steps (R : relation Process) `{!PreOrder R} l : Forall not_fetched l →
  (∀ acc, steps R (observe_archive_events acc l)) → steps R report_identity_status → steps R emit_statistics →
  ∀ depth, steps R (process_archive_events depth l).
Proof.
  intros Hl Hobs Hrep Hstat depth. destruct depth; cbn [process_archive_events];
    (apply (steps_post R (λ acc, acc.2 = false));
     [intros p [c r] p' Hrun; cbn; destruct r; [|done]; by destruct (observe_all_ready l _ _ _ _ Hrun eq_refl) as [[=]|[Hn _]]
     |apply Hobs|intros [c r] Hr; cbn in Hr; subst r]);
    (apply steps_bind; [apply _|destruct c; [done|apply steps_ret, _]|intros _];
     apply steps_bind; [apply _|apply steps_ret, _|intros _; done]).
Qed.
Lemma shown_owner l depth : Forall not_fetched l → steps same_owner (process_archive_events depth l).
Proof. intros Hl. apply shown_steps; [apply _|done|apply observe_all_owner|apply report_status_owner|apply statistics_owner]. Qed.
Lemma shown_asleep l depth : Forall not_fetched l → steps stays_asleep (process_archive_events depth l).
Proof. intros Hl. apply shown_steps; [apply _|done|apply observe_all_asleep|apply report_status_asleep|apply statistics_asleep]. Qed.

(** What the calls of the worker return: no arrivals. *)
Definition silent {A} (m : M (ArchiveRuntime * world) ArchiveError A) (P : A → Prop) : Prop :=
  ∀ u v u', m u = (Ok v, u') → P v.
Lemma on_archive_silent {A} (m : M (ArchiveRuntime * world) ArchiveError A) P p v p' :
  silent m P → on_archive m p = (Ok v, p') → P v.
Proof. intros Hm. unfold on_archive, on_part. destruct (m _) as [[] [t w]] eqn:E; cbn; [|done..]. intros [= <- _]. by eapply Hm. Qed.
Ltac solve_silent := intros ? ? ? Hrun; repeat (inv_run; try case_match); simplify_eq; repeat constructor.
Lemma publish_recovery_silent l e : silent (publish_recovery l e) (Forall not_fetched).
Proof. unfold publish_recovery. solve_silent. Qed.
Lemma sync_player_silent player : silent (sync_player player) (Forall not_fetched).
Proof. unfold sync_player. solve_silent. Qed.
Lemma publish_receipt_silent receipt now : silent (publish_receipt receipt now) (Forall not_fetched).
Proof. unfold publish_receipt. solve_silent. Qed.
Lemma fetch_receipt_silent a : silent (fetch_receipt a) (Forall not_fetched).
Proof. unfold fetch_receipt. solve_silent. Qed.
Lemma fetch_recovery_silent l : silent (fetch_recovery l) (Forall not_fetched).
Proof. unfold fetch_recovery. solve_silent. Qed.

(** A call whose events are processed. *)
Lemma archive_call_steps (R : relation Process) `{!PreOrder R} (m : M (ArchiveRuntime * world) ArchiveError (list ArchiveEvent))
    (rec : list ArchiveEvent → MainM unit) :
  silent m (Forall not_fetched) → steps R (on_archive m) → (∀ l, Forall not_fetched l → steps R (rec l)) → steps R (on_archive m ≫= rec).
Proof. intros Hm Ha Hr. eapply (steps_post R (Forall not_fetched)); [|done|done]. intros p v p' Hrun. by eapply on_archive_silent. Qed.
Section publishing.
Context (R : relation Process) `{!PreOrder R} (rec : list ArchiveEvent → MainM unit).
Context (Harch : ∀ A (m : M (ArchiveRuntime * world) ArchiveError A), steps R (on_archive m)) (Hrec : ∀ l, Forall not_fetched l → steps R (rec l)).
Lemma publish_identity_steps : steps R (publish_identity_recovery_with rec).
Proof.
  unfold publish_identity_recovery_with. apply steps_bind; [apply _|apply steps_gets, _|intros s]. destruct (st_identity s); [|apply steps_ret, _].
  apply archive_call_steps; [apply _|apply publish_recovery_silent|apply Harch|done].
Qed.
Lemma sync_steps : steps R need_identity → steps R (sync_statistics_with rec).
Proof.
  intros Hn. unfold sync_statistics_with. apply steps_bind; [apply _|done|intros i].
  apply archive_call_steps; [apply _|apply sync_player_silent|apply Harch|done].
Qed.
End publishing.
Lemma publish_identity_owner : steps same_owner publish_identity_recovery.
Proof. apply publish_identity_steps; [apply _|intros; apply on_archive_owner|intros; by apply shown_owner]. Qed.
Lemma publish_identity_asleep : steps stays_asleep publish_identity_recovery.
Proof. apply publish_identity_steps; [apply _|intros; apply on_archive_asleep|intros; by apply shown_asleep]. Qed.
Lemma sync_owner : steps same_owner sync_statistics.
Proof. apply sync_steps; [apply _|intros; apply on_archive_owner|intros; by apply shown_owner|apply need_identity_owner]. Qed.
Lemma sync_asleep : steps stays_asleep sync_statistics.
Proof. apply sync_steps; [apply _|intros; apply on_archive_asleep|intros; by apply shown_asleep|apply need_identity_sleeps]. Qed.
#[local] Hint Resolve publish_identity_owner sync_owner : owner.
#[local] Hint Resolve publish_identity_asleep sync_asleep : asleep.

(** ** A new identity *)
Definition at_account (fingerprint : list Z) p : Prop := account_inv (ps_state p) ∧ of_account (ps_state p) fingerprint.
Lemma same_owner_account p p' fp : same_owner p p' → of_account (ps_state p) fp → of_account (ps_state p') fp.
Proof. intros (_ & Ho & _) (o & ? & ?). exists o. split; congruence. Qed.
Lemma quiet_then {A B} fp (m : MainM A) (f : A → MainM B) :
  steps same_owner m → steps stays_asleep m → (∀ v p, at_account fp p → account_inv (ps_state (f v p).2)) →
  ∀ p, at_account fp p → account_inv (ps_state ((m ≫= f) p).2).
Proof.
  intros Ho Ha Hf p [Hi Hfp]. rewrite run_bind. pose proof (steps_keeps m Ho Ha p Hi) as Hi'. specialize (Ho p).
  destruct (m p) as [[v| |] q]; [|done..]. cbn in *. apply Hf. split; [done|by eapply same_owner_account].
Qed.
Lemma checked_then {B} expected (f : list Z → MainM B) :
  (∀ fp p, at_account fp p → account_inv (ps_state (f fp p).2)) → steps keeps_inv (checked_identity_account expected ≫= f).
Proof.
  intros Hf p Hi. rewrite run_bind. pose proof (steps_keeps _ (checked_account_owner expected) (checked_account_asleep expected) p Hi) as Hi'.
  pose proof (checked_account_owner expected p) as Ho. destruct (checked_identity_account expected p) as [[fp| |] q] eqn:E; [|done..].
  cbn in *. apply Hf. split; [done|]. eapply same_owner_account; [exact Ho|].
  unfold checked_identity_account, identity_account_fingerprint, the_state in E. inv_run.
  match goal with Hob : ok_or (token_observation _) _ = Ok ?o |- _ => apply ok_or_Ok in Hob; by exists o end.
Qed.
Lemma activate_run root envelope locator payload fp dl now p i p' :
  activate_identity root envelope locator payload fp dl now p = (Ok i, p') → id_fingerprint i = fp ∧ identity_ok i.
Proof.
  unfold activate_identity. intros Hrun. inv_run. split; [done|].
  match goal with Hc : map_err _ (issue_device_certificate _ _ _ _ _) = Ok _ |- _ => apply map_err_Ok in Hc; unfold issue_device_certificate in Hc end.
  inv_ok. by split.
Qed.
Lemma create_run secret dl fp now p i p' : create_identity secret dl fp now p = (Ok i, p') → id_fingerprint i = fp ∧ identity_ok i.
Proof. unfold create_identity. intros Hrun. inv_run. by eapply activate_run. Qed.
Lemma restore_run code secret dl fp now p i p' : restore_identity code secret dl fp now p = (Ok i, p') → id_fingerprint i = fp ∧ identity_ok i.
Proof. unfold restore_identity. intros Hrun. inv_run. by eapply activate_run. Qed.
(** The identity of the account that was observed takes the slot. *)
Lemma install_then {B} i (f : unit → MainM B) p :
  identity_ok i → (∀ v, steps keeps_inv (f v)) → at_account (id_fingerprint i) p →
  account_inv (ps_state ((set_state (λ s, { s with st_identity := Some i }) ≫= f) p).2).
Proof.
  intros Hok Hf [[Hi Hp Ha] Hfp]. rewrite run_bind. apply Hf. destruct p as [[] d w]. cbn in *. constructor; cbn; [|done..].
  intros i' [= <-]. by split.
Qed.

(** ** The package of a remote restore *)
Lemma open_recovered_owner pending payload : steps same_owner (open_recovered pending payload).
Proof. unfold open_recovered. owner_steps. Qed.
Lemma open_recovered_asleep pending payload : steps stays_asleep (open_recovered pending payload).
Proof. unfold open_recovered. asleep_steps. Qed.
#[local] Hint Resolve open_recovered_owner : owner.
#[local] Hint Resolve open_recovered_asleep : asleep.
Lemma open_recovered_run pending payload p i p' : open_recovered pending payload p = (Ok i, p') →
  of_account (ps_state p') (id_fingerprint i) ∧ identity_ok i.
Proof.
  intros Hrun. pose proof (open_recovered_owner pending payload p) as Ho. rewrite Hrun in Ho. cbn in Ho.
  unfold open_recovered in Hrun. inv_run. match goal with Ha : activate_identity _ _ _ _ _ _ _ _ = _ |- _ => apply activate_run in Ha as [-> ?] end.
  split; [|done]. eapply same_owner_account; [exact Ho|].
  match goal with Hc : checked_identity_account _ _ = _ |- _ =>
    unfold checked_identity_account, identity_account_fingerprint, the_state in Hc end. inv_run.
  match goal with Hob : ok_or (token_observation _) _ = Ok ?o |- _ => apply ok_or_Ok in Hob; by exists o end.
Qed.
Lemma refuse_owner {A} l e : steps same_owner (refuse_candidate (A:=A) l e).
Proof. unfold refuse_candidate. owner_steps. Qed.
Lemma refuse_asleep {A} l e : steps stays_asleep (refuse_candidate (A:=A) l e).
Proof. unfold refuse_candidate. asleep_steps. Qed.
Lemma replaceable_asleep : steps stays_asleep ensure_identity_replaceable.
Proof. unfold ensure_identity_replaceable. asleep_steps. Qed.
Lemma take_envelope_asleep l : steps stays_asleep (take_envelope l).
Proof. intros p Hp. unfold take_envelope. destruct p as [[] d w]. cbn in *. destruct (take_recovered_envelope _ _). exact Hp. Qed.
#[local] Hint Resolve refuse_owner : owner.
#[local] Hint Resolve refuse_asleep replaceable_asleep take_envelope_asleep : asleep.

Lemma attempt_then {A B} (m : MainM A) (f : A + MainError → MainM B) :
  steps same_owner m → steps stays_asleep m →
  (∀ p v p', account_inv (ps_state p') → m p = (Ok v, p') → account_inv (ps_state (f (inl v) p').2)) →
  (∀ e, steps keeps_inv (f (inr e))) → steps keeps_inv (SidecarEvents.attempt m ≫= f).
Proof.
  intros Ho Ha Hok Herr p Hi. rewrite run_bind. unfold SidecarEvents.attempt. pose proof (steps_keeps m Ho Ha p Hi) as Hi'.
  destruct (m p) as [[v|e|] q] eqn:E; cbn in *; [by eapply Hok|by apply Herr|done].
Qed.
Lemma keeps_quiet {A B} (m : MainM A) (f : A → MainM B) :
  steps same_owner m → steps stays_asleep m → (∀ v, steps keeps_inv (f v)) → steps keeps_inv (m ≫= f).
Proof. intros Ho Ha Hf. apply steps_bind; [apply _|by apply steps_keeps|done]. Qed.
Ltac quiet := apply keeps_quiet; [solve [owner_steps]|solve [asleep_steps]|intros ?].
Lemma complete_restore_keeps rec : (∀ l, Forall not_fetched l → steps keeps_inv (rec l)) →
  steps keeps_inv (complete_remote_restore_with rec).
Proof.
  intros Hrec. unfold complete_remote_restore_with. do 5 quiet. apply attempt_then; [owner_steps|asleep_steps| |].
  - intros p i q Hi Hrun. apply open_recovered_run in Hrun as [Hfp Hok].
    apply (quiet_then (id_fingerprint i)); [owner_steps|asleep_steps| |by split].
    intros _ p1 Hp1. apply (quiet_then (id_fingerprint i)); [owner_steps|asleep_steps| |done].
    intros _ p2 Hp2. apply install_then; [done| |done]. intros _.
    assert (∀ A (m : M (ArchiveRuntime * world) ArchiveError A), steps keeps_inv (on_archive m)) as Ha
      by (intros; apply steps_keeps; [apply on_archive_owner|apply on_archive_asleep]).
    apply steps_bind; [apply _|by apply publish_identity_steps; [apply _|..]|intros _].
    apply sync_steps; [apply _|done|done|]. apply steps_keeps; [apply need_identity_owner|apply need_identity_sleeps].
  - intros e. apply steps_keeps; [owner_steps|asleep_steps].
Qed.
Lemma process_archive_keeps depth l : steps keeps_inv (process_archive_events depth l).
Proof.
  revert l. induction depth as [|depth IH]; intros l; cbn [process_archive_events];
    (apply keeps_quiet; [apply observe_all_owner|apply observe_all_asleep|intros [c r]];
     apply keeps_quiet; [owner_steps|asleep_steps|intros _];
     apply steps_bind; [apply _| |intros _; apply steps_keeps; [owner_steps|asleep_steps]]);
    (destruct r; [|apply steps_ret, _]); [apply steps_lift, _|].
  apply steps_bind; [apply _|apply attempt_steps, complete_restore_keeps; intros; apply IH|].
  intros [?|e]; [apply steps_ret, _|apply steps_keeps; [owner_steps|asleep_steps]].
Qed.

(** ** The depth of the processing *)
Lemma bind_ext {A B} (m : MainM A) (f g : A → MainM B) p :
  (∀ v q, m p = (Ok v, q) → f v q = g v q) → (m ≫= f) p = (m ≫= g) p.
Proof. intros Hfg. rewrite !run_bind. destruct (m p) as [[v| |] q]; [|done..]. by apply Hfg. Qed.
Definition no_restore p : Prop := pending_remote_restore (ps_state p) = None.
Lemma quiet_no_restore {A} (m : MainM A) p v q : steps same_owner m → no_restore p → m p = (Ok v, q) → no_restore q.
Proof. intros Ho Hp E. specialize (Ho p). rewrite E in Ho. destruct Ho as (_ & _ & [Hq|Hq]); cbn in Hq; unfold no_restore; congruence. Qed.
Section depth.
Context (rec rec' : list ArchiveEvent → MainM unit).
Context (Hrec : ∀ l p, no_restore p → rec l p = rec' l p) (Howner : ∀ l, Forall not_fetched l → steps same_owner (rec l)).
Lemma archive_call_ext (m : M (ArchiveRuntime * world) ArchiveError (list ArchiveEvent)) p :
  no_restore p → (on_archive m ≫= rec) p = (on_archive m ≫= rec') p.
Proof. intros Hp. apply bind_ext. intros v q E. apply Hrec. by eapply quiet_no_restore; [apply on_archive_owner| |]. Qed.
Lemma publish_ext p : no_restore p → publish_identity_recovery_with rec p = publish_identity_recovery_with rec' p.
Proof. intros Hp. apply bind_ext. intros s q [= <- <-]. destruct (st_identity _); [|done]. by apply archive_call_ext. Qed.
Lemma sync_ext p : no_restore p → sync_statistics_with rec p = sync_statistics_with rec' p.
Proof. intros Hp. apply bind_ext. intros i q E. apply archive_call_ext. by eapply quiet_no_restore; [apply need_identity_owner| |]. Qed.
Lemma publish_no_restore p v q : no_restore p → publish_identity_recovery_with rec p = (Ok v, q) → no_restore q.
Proof. apply quiet_no_restore, publish_identity_steps; [apply _|intros; apply on_archive_owner|done]. Qed.
Lemma complete_restore_ext p : complete_remote_restore_with rec p = complete_remote_restore_with rec' p.
Proof.
  unfold complete_remote_restore_with. do 6 (apply bind_ext; intros ? ? _). case_match; [|done].
  apply bind_ext. intros u1 p1 E1. assert (no_restore p1) by (injection E1 as <- <-; done).
  apply bind_ext. intros u2 p2 E2. assert (no_restore p2) by (by eapply quiet_no_restore; [apply ready_owner| |]).
  apply bind_ext. intros u3 p3 E3. assert (no_restore p3) by (injection E3 as <- <-; by destruct p2 as [[] ? ?]).
  rewrite run_bind, publish_ext, <-run_bind by done. rewrite !run_bind.
  destruct (publish_identity_recovery_with rec' p3) as [[u| |] p4] eqn:E4; [|done..]. apply sync_ext.
  eapply publish_no_restore; [|rewrite publish_ext by done; exact E4]; done.
Qed.
End depth.
Lemma no_restore_depth l : ∀ n k p, no_restore p → process_archive_events n l p = process_archive_events k l p.
Proof.
  intros n k p Hp. destruct n, k; cbn [process_archive_events]; try done; apply bind_ext; intros [c r] q E;
    destruct r; try done; by destruct (observe_all_ready l _ _ _ _ E eq_refl) as [[=]|[_ [? Hs]]]; rewrite Hp in Hs.
Qed.

(** The processing of the events of the archive starts at most one restore,
    and the events of that restore start no other: a bound of one on the depth
    of the recursion gives the same run as every larger bound, whatever the
    nodes have sent. *)
Theorem archive_depth depth l p : process_archive_events (S depth) l p = process_archive_events archive_depth_bound l p.
Proof.
  unfold archive_depth_bound. cbn [process_archive_events]. apply bind_ext. intros [c r] q _. apply bind_ext. intros _ q1 _.
  rewrite !(run_bind (if r then _ else _)). destruct r; [|done]. rewrite !run_bind. unfold SidecarEvents.attempt.
  rewrite (complete_restore_ext (process_archive_events depth) (process_archive_events 0)); [done| |].
  - intros. by apply no_restore_depth.
  - intros. by apply shown_owner.
Qed.

(** ** The pool, the session and the hand *)

(** Their methods do not wake a runtime that is not in use. *)
Lemma pool_cancel_sleeps : pool_sleeps cancel_pool.
Proof. by intros w. Qed.
Lemma pool_message_sleeps source data now : pool_sleeps (pool_message source data now).
Proof. by intros w. Qed.
Lemma pool_request_sleeps peer messages now : pool_sleeps (pool_direct_request peer messages now).
Proof. by intros w. Qed.
Lemma pool_response_sleeps id peer response now : pool_sleeps (pool_direct_response id peer response now).
Proof. by intros w. Qed.
Lemma pool_failure_sleeps id : pool_sleeps (λ u, let '(b, t) := pool_direct_failure id u.1 in (Ok b, (t, u.2))).
Proof. by intros w. Qed.
Lemma pool_adopt_sleeps peers : pool_sleeps (λ u, let '(r, t) := PoolRuntime.adopt_explicit_peers peers u.1 in (r, (t, u.2))).
Proof. by intros w. Qed.
Ltac solve_hand_sleeps := intros [? ? ?] w Hr; cbn in Hr; subst; done.
Lemma hand_connected_sleeps peer : hand_sleeps (HandRuntime.peer_connected peer).
Proof. solve_hand_sleeps. Qed.
Lemma hand_disconnected_sleeps peer : hand_sleeps (HandRuntime.peer_disconnected peer).
Proof. solve_hand_sleeps. Qed.
Lemma hand_leave_sleeps : hand_sleeps leave_hand.
Proof. solve_hand_sleeps. Qed.
Lemma hand_abort_sleeps table n : hand_sleeps (abort_for_signed_leave table n).
Proof. solve_hand_sleeps. Qed.
Lemma hand_receipts_sleeps : hand_sleeps take_newly_finalized_receipts.
Proof. solve_hand_sleeps. Qed.
Lemma hand_boundary_sleeps : hand_sleeps take_hand_boundary.
Proof. solve_hand_sleeps. Qed.
Lemma hand_failure_sleeps id : hand_sleeps (HandRuntime.handle_direct_failure id).
Proof. solve_hand_sleeps. Qed.
Lemma hand_response_sleeps id b : hand_sleeps (HandRuntime.handle_direct_response id b).
Proof. destruct b; [solve_hand_sleeps|apply hand_failure_sleeps]. Qed.
#[local] Hint Resolve on_pool_asleep on_hand_asleep pool_cancel_sleeps pool_message_sleeps pool_request_sleeps
  pool_response_sleeps pool_failure_sleeps pool_adopt_sleeps hand_connected_sleeps hand_disconnected_sleeps hand_leave_sleeps
  hand_abort_sleeps hand_receipts_sleeps hand_boundary_sleeps hand_failure_sleeps hand_response_sleeps : asleep.

Lemma close_room_owner : steps same_owner close_room.
Proof. unfold close_room. owner_steps. Qed.
Lemma close_room_asleep : steps stays_asleep close_room.
Proof. unfold close_room. asleep_steps. Qed.
#[local] Hint Resolve close_room_owner : owner.
#[local] Hint Resolve close_room_asleep : asleep.
Lemma pool_events_owner l : steps same_owner (process_pool_events l).
Proof. unfold process_pool_events, process_pool_event. owner_steps. Qed.
Lemma pool_events_asleep l : steps stays_asleep (process_pool_events l).
Proof. unfold process_pool_events, process_pool_event. asleep_steps. Qed.
Lemma complete_leave_owner : steps same_owner complete_local_leave.
Proof. unfold complete_local_leave. owner_steps. Qed.
Lemma complete_leave_asleep : steps stays_asleep complete_local_leave.
Proof. unfold complete_local_leave. asleep_steps. Qed.
Lemma room_event_owner e : steps same_owner (process_room_event e).
Proof. unfold process_room_event. owner_steps. Qed.
Lemma room_event_asleep e : steps stays_asleep (process_room_event e).
Proof. unfold process_room_event. asleep_steps. Qed.
Lemma mark_admitted_owner : steps same_owner mark_admitted.
Proof. unfold mark_admitted. owner_steps. Qed.
Lemma mark_admitted_asleep : steps stays_asleep mark_admitted.
Proof.
  intros p Hp. pose proof Hp as (_ & Hs & _). unfold mark_admitted, the_state, mbind, M_bind, gets. cbn. rewrite Hs. exact Hp.
Qed.
Lemma archive_receipt_owner receipt : steps same_owner (archive_receipt receipt).
Proof.
  unfold archive_receipt. apply steps_bind; [apply _|owner_steps|intros now].
  apply archive_call_steps; [apply _|apply publish_receipt_silent|owner_steps|intros; by apply shown_owner].
Qed.
Lemma archive_receipt_asleep receipt : steps stays_asleep (archive_receipt receipt).
Proof.
  unfold archive_receipt. apply steps_bind; [apply _|asleep_steps|intros now].
  apply archive_call_steps; [apply _|apply publish_receipt_silent|asleep_steps|intros; by apply shown_asleep].
Qed.
#[local] Hint Resolve pool_events_owner complete_leave_owner room_event_owner mark_admitted_owner archive_receipt_owner : owner.
#[local] Hint Resolve pool_events_asleep complete_leave_asleep room_event_asleep mark_admitted_asleep archive_receipt_asleep : asleep.

Lemma hand_events_owner rec l : (∀ l, steps same_owner (rec l)) → steps same_owner (process_hand_events_with rec l).
Proof. intros Hrec. unfold process_hand_events_with. owner_steps. Qed.
Lemma hand_events_asleep rec l : (∀ l, steps stays_asleep (rec l)) → steps stays_asleep (process_hand_events_with rec l).
Proof. intros Hrec. unfold process_hand_events_with. asleep_steps. Qed.
Lemma room_events_owner depth : ∀ l, steps same_owner (process_table_session_events depth l).
Proof. induction depth as [|depth IH]; intros l; cbn [process_table_session_events]; owner_steps. by apply hand_events_owner. Qed.
Lemma room_events_asleep depth : ∀ l, steps stays_asleep (process_table_session_events depth l).
Proof. induction depth as [|depth IH]; intros l; cbn [process_table_session_events]; asleep_steps. Qed.
Lemma room_processed_owner l : steps same_owner (room_processed l).
Proof. apply room_events_owner. Qed.
Lemma room_processed_asleep l : steps stays_asleep (room_processed l).
Proof. apply room_events_asleep. Qed.
Lemma process_hand_owner l : steps same_owner (process_hand_events l).
Proof. apply hand_events_owner, room_processed_owner. Qed.
Lemma process_hand_asleep l : steps stays_asleep (process_hand_events l).
Proof. apply hand_events_asleep, room_processed_asleep. Qed.
Lemma execution_owner : steps same_owner execution.
Proof. unfold execution. owner_steps. Qed.
Lemma execution_asleep {B} (f : HandExecutionContext → MainM B) : steps stays_asleep (execution ≫= f).
Proof.
  intros p Hp. unfold execution. rewrite !run_bind. pose proof (unix_time_asleep p Hp) as Hq. destruct (unix_time_ms p) as [[now| |] q]; [|done..].
  cbn in Hq. rewrite run_bind. pose proof Hq as [Hi _]. unfold need_identity, the_state, mbind, M_bind, gets, lift. cbn. rewrite Hi. exact Hq.
Qed.
#[local] Hint Resolve room_processed_owner process_hand_owner execution_owner : owner.
#[local] Hint Resolve room_processed_asleep process_hand_asleep execution_asleep : asleep.

(** ** The depth of the processing of sessions *)
Definition same_room : relation Process := λ p p', st_session (ps_state p') = st_session (ps_state p).
#[local] Instance same_room_preorder : PreOrder same_room.
Proof. split; [by intros p|]. intros p1 p2 p3 Hab Hbc. unfold same_room in *. congruence. Qed.
Lemma in_world_room {A} (f : world → A * world) : steps same_room (in_world f).
Proof. intros p. unfold in_world. destruct p. cbn. by destruct (f _). Qed.
Lemma part_room {T E A} get set inj (m : M (T * world) E A) :
  (∀ t s, st_session (set t s) = st_session s) → steps same_room (on_part get set inj m).
Proof. intros Hset p. unfold on_part. destruct (m _) as [v [t w]]. apply Hset. Qed.
Lemma on_hand_room {A} (m : M (HandRuntime * world) HandError A) : steps same_room (on_hand m).
Proof. by apply part_room. Qed.
Lemma on_archive_room {A} (m : M (ArchiveRuntime * world) ArchiveError A) : steps same_room (on_archive m).
Proof. by apply part_room. Qed.
Lemma set_state_room f : (∀ s, st_session (f s) = st_session s) → steps same_room (set_state f).
Proof. intros Hf p. destruct p. apply Hf. Qed.
Lemma take_envelope_room l : steps same_room (take_envelope l).
Proof. intros p. unfold take_envelope. destruct p as [[] d w]. cbn. by destruct (take_recovered_envelope _ _). Qed.
Lemma count_replicas_room l n : steps same_room (set_state (λ s, (count_replicas l n s).2)).
Proof. apply set_state_room. intros []. unfold count_replicas. cbn. by repeat case_match. Qed.
#[local] Hint Resolve in_world_room on_hand_room on_archive_room take_envelope_room count_replicas_room : room.
#[local] Hint Extern 3 (steps same_room (set_state _)) => apply set_state_room; by intros [] : room.
Lemma emit_room o : steps same_room (emit o).
Proof. unfold emit. room_steps. Qed.
#[local] Hint Resolve emit_room : room.
Lemma observe_all_room l : ∀ acc, steps same_room (observe_archive_events acc l).
Proof.
  induction l as [|e l IH]; intros acc; cbn [observe_archive_events]; [apply steps_ret, _|]. apply steps_bind; [apply _| |apply IH].
  unfold observe_archive_event, fail_remote_restore. destruct e; room_steps.
Qed.
Lemma complete_restore_room rec : (∀ l, steps same_room (rec l)) → steps same_room (complete_remote_restore_with rec).
Proof.
  intros Hrec. unfold complete_remote_restore_with, publish_identity_recovery_with, sync_statistics_with, ensure_identity_replaceable,
    open_recovered, checked_identity_account, identity_account_fingerprint, unix_time_ms, activate_identity, refuse_candidate,
    fail_remote_restore, emit_identity_ready, need_identity. room_steps.
Qed.
Lemma process_archive_room depth : ∀ l, steps same_room (process_archive_events depth l).
Proof.
  assert (steps same_room report_identity_status) by (unfold report_identity_status, emit_identity_ready; room_steps).
  assert (steps same_room emit_statistics) by (unfold emit_statistics; room_steps).
  induction depth as [|depth IH]; intros l; cbn [process_archive_events];
    (apply steps_bind; [apply _|apply observe_all_room|intros [c r]]); room_steps.
  by apply complete_restore_room.
Qed.
Lemma archive_receipt_room r : steps same_room (archive_receipt r).
Proof. unfold archive_receipt, unix_time_ms, archived. room_steps. apply process_archive_room. Qed.
#[local] Hint Resolve archive_receipt_room : room.

Definition no_ready p : Prop := ∀ a, st_session (ps_state p) = Some a → ready_table a = None.
Lemma same_room_ready {A} (m : MainM A) p v q : steps same_room m → no_ready p → m p = (Ok v, q) → no_ready q.
Proof. intros Hm Hp E a Ha. specialize (Hm p). rewrite E in Hm. unfold same_room in Hm. cbn in Hm. apply Hp. congruence. Qed.
Lemma on_session_ready {A} n (h : Handler A) p v q :
  (∀ a, ready_table a = None → ready_table (h a).2 = None) → no_ready p → on_room n (on_session h) p = (Ok v, q) → no_ready q.
Proof.
  intros Hh Hp E a Ha. unfold on_room, on_part, room_part, on_session in E. destruct (st_session (ps_state p)) as [b|] eqn:Hb; cbn in E.
  - specialize (Hh b (Hp b Hb)). destruct (h b) as [r b']. injection E as _ <-. cbn in Ha. injection Ha as <-. exact Hh.
  - injection E as _ <-. destruct p as [[] ? ?]. cbn in *. discriminate Ha.
Qed.
Lemma adopt_ready peers a : ready_table (SessionRuntime.adopt_explicit_peers peers a).2 = ready_table a.
Proof. by destruct a. Qed.
Lemma boundary_ready h d mono a : ready_table (finish_hand_boundary h d mono a).2 = ready_table a.
Proof.
  destruct a. unfold finish_hand_boundary, get, snapshot_now. unfold mbind, M_bind, gets, lift, modify, reject_if, ok_or, mret, M_ret.
  cbn. repeat case_match; simplify_eq; try done; cbn in *; by repeat case_match.
Qed.
Lemma mark_admitted_ready p v q : no_ready p → mark_admitted p = (Ok v, q) → no_ready q.
Proof.
  intros Hp E. unfold mark_admitted, the_state in E. apply bind_run in E as (s & u & [= <- <-] & E).
  destruct (st_session (ps_state p)) as [a|] eqn:Ha; [|by injection E as <- <-]. destruct (admitted a); [|by injection E as <- <-].
  destruct (mark_joined _ _) as [joined pool]. apply bind_run in E as ([] & p1 & E1 & E).
  assert (no_ready p1) by (injection E1 as <-; intros b Hb; apply Hp; by destruct p as [[] ? ?]).
  destruct joined as [[event peers]|]; [|by injection E as <- <-]. apply bind_run in E as ([] & p2 & E2 & E).
  eapply same_room_ready; [apply emit_room| |exact E]. eapply on_session_ready; [|done|exact E2].
  intros b Hb. by rewrite adopt_ready.
Qed.
Lemma room_loop_ready l p v q : no_ready p → for_each process_room_event l p = (Ok v, q) → no_ready q.
Proof. apply same_room_ready. apply steps_for_each; [apply _|]. intros e. unfold process_room_event. room_steps. Qed.
Lemma take_ready_run p r q : no_ready p → on_room (Ok None) (on_session take_ready_table) p = (Ok r, q) → r = None.
Proof.
  intros Hp E. unfold on_room, on_part, room_part, on_session in E.
  destruct (st_session (ps_state p)) as [a|] eqn:Ha; [|by injection E as <- _]. specialize (Hp a Ha).
  assert ((take_ready_table a).1 = Ok None) as Ht.
  { destruct a. cbn in Hp. subst. unfold take_ready_table, get, mbind, M_bind, gets, modify. cbn. by destruct (bool_decide _). }
  cbn in E. destruct (take_ready_table a) as [v b]. cbn in Ht. subst v. by injection E as <- _.
Qed.
(** Up to the question whether a table is ready. *)
Lemma no_ready_depth n k l p : no_ready p → process_table_session_events n l p = process_table_session_events k l p.
Proof.
  intros Hp. destruct n, k; cbn [process_table_session_events]; try done; apply bind_ext; intros v1 p1 E1;
    pose proof (room_loop_ready _ _ _ _ Hp E1) as H1r; apply bind_ext; intros v2 p2 E2; pose proof (mark_admitted_ready _ _ _ H1r E2) as H2r;
    apply bind_ext; intros c p3 E3; (destruct c; [done|]);
    (assert (no_ready p3) as H3r by (eapply on_session_ready; [|exact H2r|exact E3]; by intros []));
    apply bind_ext; intros r p4 E4; by rewrite (take_ready_run _ _ _ H3r E4).
Qed.

Lemma hand_events_ext rec rec' l p : (∀ l p, no_ready p → rec l p = rec' l p) → no_ready p →
  process_hand_events_with rec l p = process_hand_events_with rec' l p.
Proof.
  intros Hrec Hp. unfold process_hand_events_with.
  apply bind_ext. intros v1 p1 E1. assert (no_ready p1) by (eapply same_room_ready; [|exact Hp|exact E1]; unfold emit_all; room_steps).
  apply bind_ext. intros v2 p2 E2. assert (no_ready p2) by (by eapply same_room_ready; [apply on_hand_room| |]).
  apply bind_ext. intros v3 p3 E3. assert (no_ready p3) by (eapply same_room_ready; [|eassumption|exact E3]; room_steps).
  apply bind_ext. intros b p4 E4. assert (no_ready p4) by (by eapply same_room_ready; [apply on_hand_room| |]).
  destruct b; [|done]. apply bind_ext. intros v5 p5 E5. assert (no_ready p5) by (by eapply same_room_ready; [apply in_world_room| |]).
  apply bind_ext. intros v6 p6 E6. apply Hrec. eapply on_session_ready; [|done|exact E6]. intros a Ha. by rewrite boundary_ready.
Qed.
Lemma taken_no_ready p r q : on_room (Ok None) (on_session take_ready_table) p = (Ok (Some r), q) → no_ready q.
Proof.
  intros E. unfold on_room, on_part, room_part, on_session in E. destruct p as [[] d w]. cbn in E. destruct st_session as [a|]; [|done].
  destruct a. unfold take_ready_table, get, mbind, M_bind, gets, modify in E. cbn in E. destruct (bool_decide _); [|done].
  injection E as _ <-. intros a. cbn. by intros [= <-].
Qed.

Lemma session_depth_any n k l p : process_table_session_events (S n) l p = process_table_session_events (S k) l p.
Proof.
  cbn [process_table_session_events]. do 3 (apply bind_ext; intros ? ? _). case_match; [done|].
  apply bind_ext. intros r p1 E1. destruct r as [t|]; [|done]. apply taken_no_ready in E1.
  apply bind_ext. intros i p2 E2. assert (no_ready p2) by (eapply same_room_ready; [|exact E1|exact E2]; unfold need_identity; room_steps).
  apply bind_ext. intros now p3 E3. assert (no_ready p3) by (eapply same_room_ready; [|done|exact E3]; unfold unix_time_ms; room_steps).
  apply bind_ext. intros l' p4 E4. assert (no_ready p4) by (by eapply same_room_ready; [apply on_hand_room| |]).
  apply hand_events_ext; [|done]. intros. by apply no_ready_depth.
Qed.
(** The processing of the events of the session starts at most one hand: when
    that hand is over at once, its end is processed without another start.  A
    bound of one on the depth of the recursion gives the same run as every
    larger bound. *)
Theorem session_depth depth l p :
  process_table_session_events (S depth) l p = process_table_session_events room_depth_bound l p.
Proof. apply session_depth_any. Qed.
End spec.

#[export] Hint Resolve in_world_owner swarm_do_owner on_pool_owner on_hand_owner on_archive_owner on_discovery_owner on_relay_owner on_room_owner enter_room_owner room_world_owner on_volunteer_owner take_envelope_owner serve_at_owner emit_owner emit_all_owner emit_option_owner unix_time_owner monotonic_owner need_identity_owner account_owner checked_account_owner slot_empty_owner replaceable_owner activate_owner create_owner restore_owner ready_owner fail_restore_owner statistics_owner report_status_owner count_replicas_owner publish_identity_owner sync_owner open_recovered_owner refuse_owner close_room_owner pool_events_owner complete_leave_owner room_event_owner mark_admitted_owner archive_receipt_owner room_processed_owner process_hand_owner execution_owner : owner.
#[export] Hint Resolve in_world_asleep swarm_do_asleep on_archive_asleep on_discovery_asleep on_relay_asleep on_room_asleep on_volunteer_asleep serve_at_asleep need_identity_asleep emit_asleep emit_all_asleep emit_option_asleep unix_time_asleep monotonic_asleep need_identity_sleeps account_asleep checked_account_asleep activate_asleep create_asleep restore_asleep ready_asleep fail_restore_asleep statistics_asleep report_status_asleep count_replicas_asleep publish_identity_asleep sync_asleep open_recovered_asleep refuse_asleep replaceable_asleep take_envelope_asleep on_pool_asleep on_hand_asleep pool_cancel_sleeps pool_message_sleeps pool_request_sleeps pool_response_sleeps pool_failure_sleeps pool_adopt_sleeps hand_connected_sleeps hand_disconnected_sleeps hand_leave_sleeps hand_abort_sleeps hand_receipts_sleeps hand_boundary_sleeps hand_failure_sleeps hand_response_sleeps close_room_asleep pool_events_asleep complete_leave_asleep room_event_asleep mark_admitted_asleep archive_receipt_asleep room_processed_asleep process_hand_asleep execution_asleep : asleep.
#[export] Hint Extern 3 (steps same_owner (set_state _)) =>
  apply set_state_owner; let s := fresh "s" in intros s; destruct s; cbn; auto : owner.
#[export] Hint Extern 3 (steps stays_asleep (set_state _)) =>
  apply set_state_asleep; let s := fresh "s" in intros s (? & ? & ? & ? & ?); destruct s; unfold asleep; cbn in *; subst; cbn; rewrite ?delete_empty; auto : asleep.
