(* ===== verification/SidecarSpec.v ===== *)
(** * SidecarSpec: the player's identity and the worker's loop

    Which account the loaded identity belongs to, when it may change, what it
    takes to enter a table, and that no error of a handler stops the process. *)

From coqutil Require Import Datatypes.RecordSetters.
From S2P Require Import Prelude Machine Encoding Order Ids Table TablePool Receipt Identity SignedReceipt UseCases.
From S2P Require Import Wire Session NetworkAddress HandAction MentalPoker Room PoolProtocol Swarm SessionState SessionRuntime SessionDelivery.
From S2P Require Import HandState HandRuntime PoolRuntime ArchiveNode ArchiveRuntime Command Volunteer Supervisor Discovery Recovery.
From S2P Require Import Startup SidecarState SidecarEvents SidecarCommands SidecarNetwork SidecarStart SidecarInv.
Import OCamlLikeNotations.

Section spec.
Context `{Crypto, Libp2p, Ziffle, !World, !OsRandom, !HandCodec, !RoomCodec, !PoolCodec, !HexCodec, !DirOrder, !ReceiptJson}.
Context `{!Rendezvous, !MultiaddrText, !Host, !RecoveryCrypto, !Cbor RecoveryEnvelope, !Cbor FriendRoomInvite, !Base64, !SerdeJson}.
Implicit Types (p : Process) (s : RuntimeState).

(** ** Commands that leave the identity alone *)
Lemma collect_owner : steps same_owner collect_session_addresses.
Proof. unfold collect_session_addresses. owner_steps. Qed.
Lemma collect_asleep : steps stays_asleep collect_session_addresses.
Proof. unfold collect_session_addresses. asleep_steps. Qed.
Lemma direct_peers_owner : steps same_owner direct_pool_sync_peers.
Proof. unfold direct_pool_sync_peers. owner_steps. Qed.
Lemma direct_peers_asleep : steps stays_asleep direct_pool_sync_peers.
Proof. unfold direct_pool_sync_peers. asleep_steps. Qed.
Lemma dial_owner a : steps same_owner (dial_address a).
Proof. unfold dial_address. owner_steps. Qed.
Lemma dial_asleep a : steps stays_asleep (dial_address a).
Proof. unfold dial_address. asleep_steps. Qed.
Lemma add_nodes_owner l : steps same_owner (add_archive_nodes l).
Proof. induction l as [|a l IH]; cbn [add_archive_nodes]; unfold add_archive_node; owner_steps. Qed.
Lemma add_nodes_asleep l : steps stays_asleep (add_archive_nodes l).
Proof. induction l as [|a l IH]; cbn [add_archive_nodes]; unfold add_archive_node; asleep_steps. Qed.
#[local] Hint Resolve collect_owner direct_peers_owner dial_owner add_nodes_owner : owner.
#[local] Hint Resolve collect_asleep direct_peers_asleep dial_asleep add_nodes_asleep : asleep.
Lemma configure_nodes_owner l n : steps same_owner (configure_archive_nodes l n).
Proof. unfold configure_archive_nodes. owner_steps. Qed.
Lemma configure_nodes_asleep l n : steps stays_asleep (configure_archive_nodes l n).
Proof. unfold configure_archive_nodes. asleep_steps. Qed.
Lemma buy_in_owner n : steps same_owner (validate_local_buy_in n).
Proof. unfold validate_local_buy_in. owner_steps. Qed.
Lemma buy_in_asleep n : steps stays_asleep (validate_local_buy_in n).
Proof. unfold validate_local_buy_in. asleep_steps. Qed.
Lemma no_table_owner e : steps same_owner (ensure_no_table e).
Proof. unfold ensure_no_table. owner_steps. Qed.
Lemma no_table_asleep e : steps stays_asleep (ensure_no_table e).
Proof. unfold ensure_no_table. asleep_steps. Qed.
Lemma cancel_owner : steps same_owner cancel_matching.
Proof. unfold cancel_matching. owner_steps. Qed.
Lemma cancel_asleep : steps stays_asleep cancel_matching.
Proof. unfold cancel_matching. asleep_steps. Qed.
Lemma announce_join_owner h r : steps same_owner (announce_join h r).
Proof. unfold announce_join. owner_steps. Qed.
#[local] Hint Resolve configure_nodes_owner buy_in_owner no_table_owner cancel_owner announce_join_owner : owner.
#[local] Hint Resolve configure_nodes_asleep buy_in_asleep no_table_asleep cancel_asleep : asleep.
Lemma join_pool_owner l n : steps same_owner (join_public_pool l n).
Proof. unfold join_public_pool. owner_steps. Qed.
Lemma join_pool_asleep l n : steps stays_asleep (join_public_pool l n).
Proof. unfold join_public_pool. asleep_steps. Qed.
Lemma create_room_owner l n : steps same_owner (create_friend_room l n).
Proof. unfold create_friend_room. owner_steps. Qed.
Lemma create_room_asleep l n : steps stays_asleep (create_friend_room l n).
Proof. unfold create_friend_room. asleep_steps. Qed.
Lemma join_room_owner c n : steps same_owner (join_friend_room c n).
Proof. unfold join_friend_room. owner_steps. Qed.
Lemma join_room_asleep c n : steps stays_asleep (join_friend_room c n).
Proof. unfold join_friend_room. asleep_steps. Qed.
Lemma submit_owner e a n : steps same_owner (submit_hand_action e a n).
Proof. unfold submit_hand_action. owner_steps. Qed.
Lemma submit_asleep e a n : steps stays_asleep (submit_hand_action e a n).
Proof. unfold submit_hand_action. asleep_steps. Qed.
Lemma leave_owner : steps same_owner leave_table.
Proof. unfold leave_table. owner_steps. Qed.
Lemma leave_asleep : steps stays_asleep leave_table.
Proof. unfold leave_table. asleep_steps. Qed.
#[local] Hint Resolve join_pool_owner create_room_owner join_room_owner submit_owner leave_owner : owner.
#[local] Hint Resolve join_pool_asleep create_room_asleep join_room_asleep submit_asleep leave_asleep : asleep.

(** ** The tick *)
Lemma decision_owner d : steps same_owner (process_pool_decision d).
Proof. unfold process_pool_decision, migrate_room, adopt_migrated, follow_advertisement. owner_steps. Qed.
Lemma decision_asleep d : steps stays_asleep (process_pool_decision d).
Proof. unfold process_pool_decision, migrate_room, adopt_migrated. asleep_steps. Qed.
#[local] Hint Resolve decision_owner : owner.
Lemma tick_owner : steps same_owner protocol_tick.
Proof. unfold protocol_tick, tick_the_pool, tick_the_room, tick_the_hand, force_leave. owner_steps. Qed.
Lemma tick_asleep : steps stays_asleep protocol_tick.
Proof.
  unfold protocol_tick. do 3 (apply steps_bind; [apply _|asleep_steps|intros ?]). apply steps_bind; [apply _|asleep_steps|intros ?].
  intros p Hp. pose proof Hp as [Hi _]. unfold the_state, mbind, M_bind, gets. cbn. rewrite Hi. exact Hp.
Qed.
#[local] Hint Resolve tick_owner : owner.
#[local] Hint Resolve tick_asleep : asleep.

(** ** Events of the network *)
Lemma publish_address_owner a : steps same_owner (publish_address a).
Proof. unfold publish_address. owner_steps. Qed.
Lemma publish_address_asleep a : steps stays_asleep (publish_address a).
Proof. unfold publish_address. asleep_steps. Qed.
#[local] Hint Resolve publish_address_owner : owner.
#[local] Hint Resolve publish_address_asleep : asleep.
Lemma established_owner peer c r n : steps same_owner (on_connection_established peer c r n).
Proof. unfold on_connection_established, announce_joined, some_hand_events. owner_steps. Qed.
Lemma established_asleep peer c r n : steps stays_asleep (on_connection_established peer c r n).
Proof. unfold on_connection_established, announce_joined, some_hand_events. asleep_steps. Qed.
Lemma closed_owner peer c r n e : steps same_owner (on_connection_closed peer c r n e).
Proof. unfold on_connection_closed, some_hand_events. owner_steps. Qed.
Lemma closed_asleep peer c r n e : steps stays_asleep (on_connection_closed peer c r n e).
Proof. unfold on_connection_closed, some_hand_events. asleep_steps. Qed.
Lemma outgoing_owner peer e : steps same_owner (on_outgoing_error peer e).
Proof. unfold on_outgoing_error. owner_steps. Qed.
Lemma outgoing_asleep peer e : steps stays_asleep (on_outgoing_error peer e).
Proof. unfold on_outgoing_error. asleep_steps. Qed.
Lemma identified_owner peer l a : steps same_owner (on_identified peer l a).
Proof. unfold on_identified. owner_steps. Qed.
Lemma identified_asleep peer l a : steps stays_asleep (on_identified peer l a).
Proof. unfold on_identified. asleep_steps. Qed.
Lemma nat_owner e : steps same_owner (on_nat e).
Proof. unfold on_nat. owner_steps. Qed.
Lemma nat_asleep e : steps stays_asleep (on_nat e).
Proof. unfold on_nat. asleep_steps. Qed.
Lemma gossip_owner t src d : steps same_owner (on_gossip t src d).
Proof. unfold on_gossip, or_notice. owner_steps. Qed.
Lemma gossip_asleep t src d : steps stays_asleep (on_gossip t src d).
Proof.
  intros p Hp. pose proof Hp as (Hi & Hs & _ & Hpo & _). unfold on_gossip, the_state. rewrite run_bind. cbn. rewrite Hi, Hs, Hpo. cbn.
  destruct (String.prefix _ _); exact Hp.
Qed.
Lemma answer_owner peer r : steps same_owner (answer_request peer r).
Proof. unfold answer_request, answered, accepted, serve_archive. owner_steps. Qed.
Lemma answer_asleep peer r : steps stays_asleep (answer_request peer r).
Proof. unfold answer_request, answered, serve_archive. destruct r; asleep_steps. Qed.
#[local] Hint Resolve answer_owner : owner.
#[local] Hint Resolve answer_asleep : asleep.
Lemma request_owner peer r c : steps same_owner (on_request peer r c).
Proof. unfold on_request. owner_steps. Qed.
Lemma request_asleep peer r c : steps stays_asleep (on_request peer r c).
Proof. unfold on_request. asleep_steps. Qed.
#[local] Hint Resolve established_owner closed_owner outgoing_owner identified_owner nat_owner gossip_owner request_owner : owner.
#[local] Hint Resolve established_asleep closed_asleep outgoing_asleep identified_asleep nat_asleep gossip_asleep request_asleep : asleep.

(** The answers of archive nodes may complete a restore. *)
Lemma archived_keeps l : steps keeps_inv (archived l).
Proof. apply process_archive_keeps. Qed.
Lemma quiet_keeps {A} (m : MainM A) : steps same_owner m → steps stays_asleep m → steps keeps_inv m.
Proof. apply steps_keeps. Qed.
Ltac quiet := apply keeps_quiet; [solve [owner_steps]|solve [asleep_steps]|intros ?].
Ltac all_quiet := apply quiet_keeps; [solve [owner_steps]|solve [asleep_steps]].
Lemma response_keeps peer id r : steps keeps_inv (on_response peer id r).
Proof.
  unfold on_response. quiet. case_match; [all_quiet|]. do 4 quiet. repeat case_match; try all_quiet. apply archived_keeps.
Qed.
Lemma failure_keeps peer id e : steps keeps_inv (on_outbound_failure peer id e).
Proof. unfold on_outbound_failure. quiet. case_match; [all_quiet|]. quiet. case_match; [apply archived_keeps|all_quiet]. Qed.
Lemma network_keeps e : steps keeps_inv (handle_network_event e).
Proof.
  unfold handle_network_event, on_listen_address. destruct e; try all_quiet; [apply response_keeps|apply failure_keeps].
Qed.

(** ** Commands that change the identity *)
Lemma emit_state o p : ps_state (emit o p).2 = ps_state p.
Proof. unfold emit, in_world. rewrite run_bind. destruct p. cbn. by destruct (write_event _ _). Qed.
(** A restore that is given up leaves the rest of the state. *)
Lemma fail_restore_state m p : let s' := ps_state (fail_remote_restore m p).2 in
  pending_remote_restore s' = None ∧ st_identity s' = st_identity (ps_state p) ∧ token_observation s' = token_observation (ps_state p)
  ∧ st_session s' = st_session (ps_state p) ∧ st_hand s' = st_hand (ps_state p) ∧ st_pool s' = st_pool (ps_state p)
  ∧ pending_room_joins s' = pending_room_joins (ps_state p).
Proof.
  unfold fail_remote_restore, the_state. rewrite run_bind. cbn. destruct (pending_remote_restore (ps_state p)) as [r|] eqn:Hr; [|done].
  rewrite run_bind. cbn. destruct p as [[] d w]. cbn in *. destruct (pr_request_id r); [|done]. cbv zeta. by rewrite emit_state.
Qed.
Definition fits_account (fp : list Z) s : Prop :=
  (∀ i, st_identity s = Some i → id_fingerprint i = fp) ∧ (∀ r, pending_remote_restore s = Some r → pr_fingerprint r = fp).
Lemma idle_spec s : idle s = true → st_session s = None ∧ hr_active (st_hand s) = None ∧ st_pool s = None ∧ pending_room_joins s = ∅.
Proof.
  unfold idle, HandRuntime.is_active. intros Hs. bool_props. split_and!; try done. destruct (hr_active _); [|done].
  by match goal with Hn : ¬ is_Some _ |- _ => destruct Hn end.
Qed.
Lemma reconcile_run fp p : account_inv (ps_state p) →
  account_inv (ps_state (reconcile_account fp p).2)
  ∧ ((reconcile_account fp p).1 = Ok tt → fits_account fp (ps_state (reconcile_account fp p).2)).
Proof.
  intros Hinv. pose proof Hinv as [Hi Hp Ha]. unfold reconcile_account, the_state. rewrite run_bind. cbn.
  destruct (match token_observation (ps_state p) with None => true | Some o => bool_decide (ob_fingerprint o = fp) end) eqn:Hm; cbn.
  { split; [done|]. intros _. split.
    - intros i Hs. destruct (Hi i Hs) as ((o & Ho & Hf) & _). rewrite Ho in Hm. apply bool_decide_eq_true in Hm. by rewrite <-Hf.
    - intros r Hr. destruct (Hp r Hr) as (o & Ho & Hf). rewrite Ho in Hm. apply bool_decide_eq_true in Hm. by rewrite <-Hf. }
  unfold ensure_identity_replaceable, the_state. rewrite !run_bind. cbn. unfold lift, reject_if.
  destruct (idle (ps_state p)) eqn:Hidle; cbn; [|done]. apply idle_spec in Hidle as (Hs & Hh & Hpl & Hj).
  rewrite run_bind. pose proof (fail_restore_state AccountSwitched p) as (Hr & Hi' & Ho' & Hs' & Hh' & Hp' & Hj').
  pose proof (steps_keeps _ (fail_restore_owner AccountSwitched) (fail_restore_asleep AccountSwitched) p Hinv) as Hq.
  destruct (fail_remote_restore AccountSwitched p) as [[[]| |] q]; [|done..]. cbn in *.
  rewrite run_bind. cbn. rewrite emit_state. destruct q as [[] d w]. cbn in *. subst. split; [|by split].
  constructor; cbn; [done..|]. intros _. unfold asleep. cbn. split_and!; first [done|congruence].
Qed.
Lemma observe_inv tokens fp bound at_ s : account_inv s → fits_account fp s →
  account_inv { s with token_observation := Some (mkObservation tokens fp bound at_) }.
Proof.
  intros [Hi Hp Ha] [Hfi Hfp]. destruct s. cbn in *. constructor; cbn; [| |done].
  - intros i Hs. split; [|by apply Hi]. eexists. split; [done|]. cbn. symmetry. by apply Hfi.
  - intros r Hr. eexists. split; [done|]. cbn. symmetry. by apply Hfp.
Qed.
Lemma snapshot_keeps t u d a o src : steps keeps_inv (token_snapshot t u d a o src).
Proof.
  unfold token_snapshot. intros p Hinv. rewrite run_lift. destruct (account_fingerprint _ _ _ _) as [[fp bound]|e|]; [|done..].
  rewrite run_bind. destruct (reconcile_run fp p Hinv) as [Hq Hfit]. destruct (reconcile_account fp p) as [[[]| |] q]; [|done..]. cbn in *.
  specialize (Hfit eq_refl). rewrite run_bind. match goal with |- context [emit ?e q] => pose proof (emit_state e q) as Hst; destruct (emit e q) as [[[]| |] q'] end;
    cbn in *; rewrite <-Hst in *; try done. destruct q'. cbn in *. by apply observe_inv.
Qed.

Lemma slot_empty_asleep : steps stays_asleep ensure_identity_slot_is_empty.
Proof. unfold ensure_identity_slot_is_empty. asleep_steps. Qed.
#[local] Hint Resolve slot_empty_asleep : asleep.
(** The new identity is that of the account; then it takes the slot. *)
Lemma install_keeps i r p : identity_ok i → at_account (id_fingerprint i) p → account_inv (ps_state (install_identity i r p).2).
Proof.
  intros Hok Hat. unfold install_identity. apply (quiet_then (id_fingerprint i)); [owner_steps|asleep_steps| |done].
  intros _ q Hq. apply install_then; [done| |done]. intros _. all_quiet.
Qed.
Lemma made_keeps fp (make : MainM ActiveIdentity) r p :
  (∀ p i q, make p = (Ok i, q) → id_fingerprint i = fp ∧ identity_ok i) → steps same_owner make → steps stays_asleep make →
  at_account fp p → account_inv (ps_state ((make ≫= λ i, install_identity i r) p).2).
Proof.
  intros Hmake Ho Ha [Hi Hfp]. rewrite run_bind. pose proof (steps_keeps _ Ho Ha p Hi) as Hq. specialize (Ho p).
  destruct (make p) as [[i| |] q] eqn:E; [|done..]. cbn in *. destruct (Hmake _ _ _ E) as [Hf Hok].
  apply install_keeps; [done|]. split; [done|]. rewrite Hf. by eapply same_owner_account.
Qed.
Lemma now_then fp (f : Z → MainM unit) p : (∀ now q, at_account fp q → account_inv (ps_state (f now q).2)) →
  at_account fp p → account_inv (ps_state ((unix_time_ms ≫= f) p).2).
Proof. intros Hf. apply quiet_then; [owner_steps|asleep_steps|done]. Qed.
Lemma create_command_keeps r e c d : steps keeps_inv (create_identity_command r e c d).
Proof.
  unfold create_identity_command. quiet. apply checked_then. intros fp p Hp. apply (now_then fp); [|done]. intros now q Hq.
  apply (made_keeps fp); [apply create_run|owner_steps|asleep_steps|done].
Qed.
Lemma restore_command_keeps r e c k d : steps keeps_inv (restore_identity_command r e c k d).
Proof.
  unfold restore_identity_command. do 3 quiet. apply checked_then. intros fp p Hp. apply (now_then fp); [|done]. intros now q Hq.
  apply (made_keeps fp); [apply restore_run|owner_steps|asleep_steps|done].
Qed.
Lemma ensure_keeps r e c d : steps keeps_inv (ensure_identity r e c d).
Proof.
  unfold ensure_identity. apply checked_then. intros fp p Hp. apply (quiet_then fp); [owner_steps|asleep_steps| |done]. intros s q Hq.
  do 2 (apply (quiet_then fp); [owner_steps|asleep_steps| |done]; clear q Hq; intros _ q Hq).
  destruct (st_identity s); [destruct Hq as [Hq _]; revert q Hq; match goal with |- ∀ q, _ → account_inv (ps_state (?m q).2) =>
    change (steps keeps_inv m) end; all_quiet|].
  apply (now_then fp); [|done]. clear q Hq. intros now q Hq. apply (made_keeps fp); [apply create_run|owner_steps|asleep_steps|done].
Qed.
Lemma remote_keeps r e c d : steps keeps_inv (restore_remote_identity r e c d).
Proof.
  unfold restore_remote_identity. do 4 quiet. apply checked_then. intros fp p Hp.
  do 2 (apply (quiet_then fp); [owner_steps|asleep_steps| |done]; clear p Hp; intros ? p Hp).
  rewrite run_bind. apply archived_keeps. destruct Hp as [[Hi Hpe Ha] Ho]. destruct p as [[] dd w]. cbn in *. constructor; cbn; [done| |done].
  intros ? [= <-]. done.
Qed.

(** ** The process *)
Lemma command_keeps c : steps keeps_inv (handle_command c).
Proof.
  unfold handle_command. destruct c; try all_quiet; [apply snapshot_keeps|apply ensure_keeps|apply create_command_keeps
    |apply restore_command_keeps|apply remote_keeps|].
  do 2 quiet. apply archived_keeps.
Qed.
Lemma recoverable_keeps t scope m : steps keeps_inv m → steps keeps_inv (recoverable t scope m).
Proof.
  intros Hm. unfold recoverable, report_recoverable_fault. apply steps_bind; [apply _|by apply attempt_steps|].
  intros [?|e]; [apply steps_ret, _|all_quiet].
Qed.
Lemma main_step_keeps t i : steps keeps_inv (main_step t i).
Proof.
  unfold main_step. destruct i; try all_quiet.
  - apply steps_bind; [apply _| |intros ?; apply steps_ret, _]. unfold run_line. case_match; [all_quiet|]. case_match; [|all_quiet..].
    case_match; try all_quiet; (apply steps_bind; [apply _| |intros ?; apply steps_ret, _]); unfold run_command;
      (apply steps_bind; [apply _|apply attempt_steps, command_keeps|intros [?|e]; unfold confirm; all_quiet]).
  - apply steps_bind; [apply _|apply recoverable_keeps, network_keeps|intros ?; apply steps_ret, _].
  - apply steps_bind; [apply _|apply recoverable_keeps; all_quiet|intros ?; apply steps_ret, _].
Qed.
Lemma main_loop_keeps l : ∀ t, steps keeps_inv (main_loop t l).
Proof.
  induction l as [|i l IH]; intros t; cbn [main_loop]; [apply steps_ret, _|]. apply steps_bind; [apply _|apply main_step_keeps|].
  intros [t'|]; [apply IH|apply steps_ret, _].
Qed.
Lemma announce_keeps : steps keeps_inv announce.
Proof. unfold announce. all_quiet. Qed.

(** ** A player at a table keeps the identity *)
Definition same_idle : relation Process := λ p p', idle (ps_state p') = idle (ps_state p).
#[local] Instance same_idle_preorder : PreOrder same_idle.
Proof. split; [by intros p|]. intros p1 p2 p3 Hab Hbc. unfold same_idle in *. congruence. Qed.
Lemma in_world_idle {A} (f : world → A * world) : steps same_idle (in_world f).
Proof. intros p. unfold in_world. destruct p. cbn. by destruct (f _). Qed.
Lemma on_archive_idle {A} (m : M (ArchiveRuntime * world) ArchiveError A) : steps same_idle (on_archive m).
Proof. intros p. unfold on_archive, on_part. destruct (m _) as [v [t w]]. by destruct p as [[] ? ?]. Qed.
Lemma on_room_idle {A} n (m : M (ActiveSession * world) RoomError A) : steps same_idle (on_room n m).
Proof.
  intros p. unfold on_room, on_part, room_part. destruct p as [[] d w]. cbn. destruct st_session as [a|]; cbn; [|done].
  destruct (m _) as [v [a' w']]. done.
Qed.
Lemma on_hand_idle {A} (m : M (HandRuntime * world) HandError A) :
  (∀ r w, HandRuntime.is_active (m (r, w)).2.1 = HandRuntime.is_active r) → steps same_idle (on_hand m).
Proof.
  intros Hm p. unfold on_hand, on_part. destruct p as [[] d w]. cbn. specialize (Hm st_hand w). destruct (m _) as [v [t w']]. cbn in *.
  unfold same_idle, idle. cbn. unfold constant. by rewrite Hm.
Qed.
Lemma on_pool_idle {A} (m : M (TablePoolRuntime * world) PoolError A) :
  (∀ r w, (m (r, w)).2.1 = None ↔ r = None) → steps same_idle (on_pool m).
Proof.
  intros Hm p. unfold on_pool, on_part. destruct p as [[] d w]. cbn. specialize (Hm st_pool w). destruct (m _) as [v [t w']]. cbn in *.
  unfold same_idle, idle. cbn. unfold constant. by rewrite (bool_decide_ext _ _ Hm).
Qed.
Lemma set_state_idle f : (∀ s, idle (f s) = idle s) → steps same_idle (set_state f).
Proof. intros Hf p. destruct p. apply Hf. Qed.
Lemma count_replicas_idle l n : steps same_idle (set_state (λ s, (count_replicas l n s).2)).
Proof. apply set_state_idle. intros []. unfold count_replicas. cbn. by repeat case_match. Qed.
Lemma hand_failure_active id r w : HandRuntime.is_active (HandRuntime.handle_direct_failure id (r, w)).2.1 = HandRuntime.is_active r.
Proof.
  destruct r as [[a|] ? ?]; [|done]. unfold HandRuntime.handle_direct_failure, runtime, mbind, M_bind, gets. cbn.
  by destruct (direct_requests a !! id).
Qed.
Lemma hand_response_active id b r w : HandRuntime.is_active (HandRuntime.handle_direct_response id b (r, w)).2.1 = HandRuntime.is_active r.
Proof.
  destruct b; [|apply hand_failure_active]. destruct r as [[a|] ? ?]; [|done].
  unfold HandRuntime.handle_direct_response, runtime, mbind, M_bind, gets. cbn. by destruct (direct_requests a !! id).
Qed.
Lemma emit_idle o : steps same_idle (emit o).
Proof. intros p. unfold same_idle. by rewrite emit_state. Qed.
Lemma observe_all_idle l : ∀ acc, steps same_idle (observe_archive_events acc l).
Proof.
  induction l as [|e l IH]; intros acc; cbn [observe_archive_events]; [apply steps_ret, _|]. apply steps_bind; [apply _| |apply IH].
  unfold observe_archive_event, fail_remote_restore.
  destruct e; take_apart ltac:(first [apply emit_idle|apply count_replicas_idle|apply set_state_idle; by intros []]).
Qed.

Definition seated_ok {A} (m : MainM A) : Prop :=
  ∀ p, account_inv (ps_state p) → idle (ps_state p) = false → owner (ps_state (m p).2) = owner (ps_state p).
Lemma seated_owner {A} (m : MainM A) : steps same_owner m → seated_ok m.
Proof. intros Hm p _ _. apply Hm. Qed.
Lemma seated_then {A B} (m : MainM A) (f : A → MainM B) :
  seated_ok m → (∀ v q, owner (ps_state (f v q).2) = owner (ps_state q)) → seated_ok (m ≫= f).
Proof.
  intros Hm Hf p Hi Hn. rewrite run_bind. specialize (Hm p Hi Hn). destruct (m p) as [[v| |] q]; [|done..]. cbn in *.
  rewrite Hf. exact Hm.
Qed.
Lemma seated_bind {A B} (m : MainM A) (f : A → MainM B) : seated_ok m → (∀ v, steps same_owner (f v)) → seated_ok (m ≫= f).
Proof. intros Hm Hf. apply seated_then; [done|]. intros v q. apply Hf. Qed.
Lemma seated_pre {A B} (m : MainM A) (f : A → MainM B) :
  steps same_owner m → steps stays_asleep m → steps same_idle m → (∀ v, seated_ok (f v)) → seated_ok (m ≫= f).
Proof.
  intros Ho Ha Hid Hf p Hi Hn. rewrite run_bind. pose proof (steps_keeps m Ho Ha p Hi) as Hi'. specialize (Ho p). specialize (Hid p).
  destruct (m p) as [[v| |] q]; cbn in *; [|by destruct Ho..]. rewrite Hf; [by destruct Ho|done|]. unfold same_idle in Hid. cbn in Hid. congruence.
Qed.
Lemma seated_attempt {A} (m : MainM A) : seated_ok m → seated_ok (SidecarEvents.attempt m).
Proof. intros Hm p Hi Hn. specialize (Hm p Hi Hn). unfold SidecarEvents.attempt. by destruct (m p) as [[]]. Qed.
(** What begins with the test for a table does nothing at a table. *)
Lemma seated_guard {A} (f : () → MainM A) : seated_ok (ensure_identity_replaceable ≫= f).
Proof.
  intros p _ Hn. unfold ensure_identity_replaceable, the_state, mbind, M_bind, gets, lift, reject_if. cbn. by rewrite Hn.
Qed.
Lemma archived_seated l : seated_ok (archived l).
Proof.
  unfold archived, archive_depth_bound. cbn [process_archive_events].
  apply seated_pre; [apply observe_all_owner|apply observe_all_asleep|apply observe_all_idle|intros [c r]].
  apply seated_pre; [owner_steps|asleep_steps| |intros _].
  { destruct c; [|apply steps_ret, _]. unfold report_identity_status, emit_identity_ready.
    take_apart ltac:(apply emit_idle). }
  apply seated_bind; [|intros _; owner_steps]. destruct r; [|apply seated_owner; owner_steps].
  apply seated_bind; [|intros [?|e]; owner_steps]. apply seated_attempt, seated_guard.
Qed.

Ltac seated_quiet := apply seated_owner; solve [owner_steps].
Lemma response_seated peer id r : seated_ok (on_response peer id r).
Proof.
  unfold on_response. apply seated_pre; [owner_steps|asleep_steps|apply steps_gets, _|intros s]. case_match; [seated_quiet|].
  apply seated_pre; [owner_steps|asleep_steps|apply on_room_idle|intros ?].
  apply seated_pre; [owner_steps|asleep_steps|apply on_hand_idle; intros; apply hand_response_active|intros ?].
  apply seated_pre; [owner_steps|asleep_steps|unfold unix_time_ms; take_apart ltac:(apply in_world_idle)|intros ?].
  apply seated_pre; [owner_steps|asleep_steps|apply on_archive_idle|intros ?].
  repeat case_match; try seated_quiet. apply archived_seated.
Qed.
Lemma failure_seated peer id e : seated_ok (on_outbound_failure peer id e).
Proof.
  unfold on_outbound_failure. apply seated_pre; [owner_steps|asleep_steps|apply on_pool_idle; by intros [] w|intros b].
  case_match; [seated_quiet|]. apply seated_pre; [owner_steps|asleep_steps|apply on_archive_idle|intros ?].
  case_match; [apply archived_seated|seated_quiet].
Qed.
Lemma network_seated e : seated_ok (handle_network_event e).
Proof. unfold handle_network_event, on_listen_address. destruct e; try seated_quiet; [apply response_seated|apply failure_seated]. Qed.
Lemma snapshot_seated t u d a o src : seated_ok (token_snapshot t u d a o src).
Proof.
  unfold token_snapshot. intros p Hi Hn. rewrite run_lift. destruct (account_fingerprint _ _ _ _) as [[fp bound]|e|]; [|done..].
  apply seated_then; [| |done..].
  - clear p Hi Hn. intros p Hi Hn. unfold reconcile_account, the_state. rewrite run_bind. cbn. case_match; [done|]. by apply seated_guard.
  - intros _ q. rewrite run_bind. match goal with |- context [emit ?e q] => pose proof (emit_state e q) as Hst; destruct (emit e q) as [[[]| |] q'] end;
      cbn in *; by rewrite <-Hst.
Qed.

Lemma seated_has_identity p : account_inv (ps_state p) → idle (ps_state p) = false → is_Some (st_identity (ps_state p)).
Proof.
  intros [_ _ Ha] Hn. destruct (st_identity (ps_state p)) as [i|]; [done|]. destruct (Ha eq_refl) as (_ & Hs & Hh & Hp & Hj).
  unfold idle, HandRuntime.is_active in Hn. by rewrite Hs, Hh, Hp, Hj in Hn.
Qed.
Lemma ensure_seated r e c d : seated_ok (ensure_identity r e c d).
Proof.
  unfold ensure_identity. apply seated_pre; [owner_steps|asleep_steps| |intros fp].
  { unfold checked_identity_account, identity_account_fingerprint, unix_time_ms. take_apart ltac:(apply in_world_idle). }
  intros p Hi Hn. destruct (seated_has_identity p Hi Hn) as [i Hid]. unfold the_state. rewrite run_bind. cbn. rewrite Hid.
  match goal with |- owner (ps_state (?m p).2) = _ => assert (steps same_owner m) as Hm by owner_steps; apply Hm end.
Qed.
Lemma create_seated r e c d : seated_ok (create_identity_command r e c d).
Proof.
  intros p Hi Hn. destruct (seated_has_identity p Hi Hn) as [i Hid]. unfold create_identity_command, ensure_identity_slot_is_empty, the_state.
  rewrite !run_bind. cbn. rewrite Hid. by destruct (pending_remote_restore (ps_state p)).
Qed.
Lemma fetch_seated a : seated_ok (handle_command (FetchArchivedReceipt a)).
Proof.
  cbn. apply seated_pre; [owner_steps|asleep_steps|apply steps_lift, _|intros ?].
  apply seated_pre; [owner_steps|asleep_steps|apply on_archive_idle|intros ?]. apply archived_seated.
Qed.
Lemma command_seated c : seated_ok (handle_command c).
Proof.
  destruct c; try apply fetch_seated; unfold handle_command; try seated_quiet; [apply snapshot_seated|apply ensure_seated|apply create_seated
    |apply seated_guard|apply seated_guard].
Qed.
Lemma recoverable_seated t scope m : seated_ok m → seated_ok (recoverable t scope m).
Proof.
  intros Hm. unfold recoverable, report_recoverable_fault. apply seated_bind; [by apply seated_attempt|]. intros [?|e]; owner_steps.
Qed.
Lemma main_step_seated t i : seated_ok (main_step t i).
Proof.
  unfold main_step. destruct i; try seated_quiet.
  - apply seated_bind; [|intros ?; owner_steps]. unfold run_line. case_match; [seated_quiet|]. case_match; [|seated_quiet..].
    case_match; try seated_quiet; (apply seated_bind; [|intros ?; owner_steps]); unfold run_command;
      (apply seated_bind; [apply seated_attempt, command_seated|intros [?|e]; unfold confirm; owner_steps]).
  - apply seated_bind; [apply recoverable_seated, network_seated|intros ?; owner_steps].
  - apply seated_bind; [apply recoverable_seated, seated_owner, tick_owner|intros ?; owner_steps].
Qed.

(** ** The theorems *)

(** The process stops because it is told to. *)
Definition stops (input : Input) : Prop :=
  match input with
  | InputClosed | Interrupted => True
  | Line line => decode_command_line line = Ok CmdShutdown
  | _ => False
  end.
(** What a turn of the loop runs, before its error is dealt with. *)
Definition handler (input : Input) : MainM unit :=
  match input with
  | Line line =>
      if trim_is_empty line then mret tt else
      match decode_command_line line with
      | Ok CmdShutdown | Err _ => mret tt
      | Ok command => handle_command command
      | Panic => lift Panic
      end
  | Network e => handle_network_event e
  | Tick => protocol_tick
  | _ => mret tt
  end.
Definition warning (n : Notice) : Output := OutSidecar (SidecarWarning n).
(** What is written when a command has run with result [r]. *)
Definition command_report (c : SidecarCommand) (r : result MainError unit) : list Output :=
  let answer f := match request_id c with Some id => [OutSidecar (f id)] | None => [] end in
  match r with
  | Err e => answer (λ id, CommandFailed id (command_type c) (ErrorText e)) ++ [warning (CommandNotExecuted e)]
  | _ => answer (λ id, CommandConfirmed id (command_type c))
  end.
(** The fault [e] is reported, unless the same text was less than five seconds
    ago. *)
Definition fault_report (scope : string) (throttle t : RecoverableFaultThrottle) (e : MainError) (p q : Process) : Prop :=
  ∃ now p1, now_monotonic p = (Ok now, p1) ∧
    let text := fault_text scope e in
    (t = mkThrottle (Some text) (Some now) ∧ emit_all [warning (RecoverableFault text)] p1 = (Ok tt, q))
    ∨ (last_message throttle = Some text ∧ (∃ before, last_emitted_at throttle = Some before ∧ since now before < seconds 5)
       ∧ t = throttle ∧ q = p1).
(** What a line has left behind. *)
Definition line_reported (line : string) (p q : Process) : Prop :=
  let '(r, p1) := handler (Line line) p in
  if trim_is_empty line then q = p else
  match decode_command_line line with
  | Ok c => r ≠ Panic ∧ emit_all (command_report c r) p1 = (Ok tt, q)
  | Err e => emit_all [warning (CommandNotDecoded e)] p = (Ok tt, q)
  | Panic => False
  end.
(** The turn on [input] from [p] has gone on with throttle [t] and process [q]. *)
Definition turn_reported (throttle t : RecoverableFaultThrottle) (input : Input) (p q : Process) : Prop :=
  let '(r, p1) := handler input p in
  match input with
  | Network _ => match r with Ok _ => t = throttle ∧ q = p1 | Err e => fault_report "网络事件" throttle t e p1 q | Panic => False end
  | Tick => match r with Ok _ => t = throttle ∧ q = p1 | Err e => fault_report "协议轮询" throttle t e p1 q | Panic => False end
  | Line line => t = throttle ∧ line_reported line p q
  | LineFailed => t = throttle ∧ emit_all [warning CommandNotRead] p = (Ok tt, q)
  | _ => False
  end.

Lemma emit_result o p : (emit o p).1 = Ok tt ∨ (emit o p).1 = Err StdoutFailed.
Proof. unfold emit, in_world. rewrite run_bind. destruct p. cbn. destruct (write_event _ _) as [[] w]; cbn; auto. Qed.
Lemma emit_one o p : emit_all [o] p = emit o p.
Proof. unfold emit_all. cbn [for_each]. rewrite run_bind. destruct (emit o p) as [[[]| |] q]; done. Qed.
Lemma emit_two o o' p : emit_all [o; o'] p = (emit o;; emit o') p.
Proof.
  unfold emit_all. cbn [for_each]. rewrite !run_bind. destruct (emit o p) as [[[]| |] q]; [|done..].
  rewrite run_bind. destruct (emit o' q) as [[[]| |] q']; done.
Qed.
Lemma recoverable_turn throttle scope m p :
  let '(r, p1) := m p in
  match recoverable throttle scope m p with
  | (Ok t, q) => match r with Ok _ => t = throttle ∧ q = p1 | Err e => fault_report scope throttle t e p1 q | Panic => False end
  | (Err e, _) => e = StdoutFailed
  | (Panic, _) => r = Panic
  end.
Proof.
  unfold recoverable, SidecarEvents.attempt. rewrite run_bind. destruct (m p) as [[[]|e|] p1]; [done| |done]. cbn beta iota.
  unfold report_recoverable_fault, fault_report. rewrite run_bind.
  destruct (now_monotonic p1) as [r p2] eqn:E. assert (∃ now, r = Ok now) as [now ->].
  { unfold now_monotonic, in_world in E. destruct (instant_now _). injection E as <- _. by eexists. }
  cbv beta iota. unfold should_emit. destruct (bool_decide _ && _) eqn:Hr.
  - rewrite run_bind. cbn. exists now, p2. split; [done|]. right. apply andb_true_iff in Hr as [Hm%bool_decide_eq_true Ht].
    split; [done|]. destruct (last_emitted_at throttle) as [before|]; [|done]. apply Z.ltb_lt in Ht. split; [by exists before|done].
  - rewrite run_bind. pose proof (emit_result (OutSidecar (SidecarWarning (RecoverableFault (fault_text scope e)))) p2) as He.
    destruct (emit _ p2) as [[[]|e'|] q] eqn:Hem; cbn in He; [|by destruct He as [|[= ->]]|by destruct He].
    rewrite <-emit_one in Hem. exists now, p2. split; [done|]. left. split; [done|exact Hem].
Qed.
Lemma command_turn c p :
  let '(r, p1) := handle_command c p in
  match run_command c p with
  | (Ok _, q) => r ≠ Panic ∧ emit_all (command_report c r) p1 = (Ok tt, q)
  | (Err e, _) => e = StdoutFailed
  | (Panic, _) => r = Panic
  end.
Proof.
  unfold run_command, SidecarEvents.attempt, command_report, confirm. rewrite run_bind.
  destruct (handle_command c p) as [[[]|e|] p1]; [| |done]; cbv beta iota; destruct (request_id c) as [id|]; cbn [app];
    rewrite ?emit_one, ?emit_two.
  - pose proof (emit_result (OutSidecar (CommandConfirmed id (command_type c))) p1) as He.
    destruct (emit _ p1) as [[[]|e'|] q]; cbn in He; [done|by destruct He as [|[= ->]]|by destruct He].
  - done.
  - rewrite run_bind. set (o1 := OutSidecar (CommandFailed _ _ _)). pose proof (emit_result o1 p1) as He.
    destruct (emit o1 p1) as [[[]|e'|] q] eqn:E1; cbn in He; [|by destruct He as [|[= ->]]|by destruct He].
    pose proof (emit_result (warning (CommandNotExecuted e)) q) as He'. fold (warning (CommandNotExecuted e)).
    rewrite run_bind, E1. destruct (emit _ q) as [[[]|e'|] q']; cbn in He'; [done|by destruct He' as [|[= ->]]|by destruct He'].
  - rewrite run_bind. cbn [mret]. pose proof (emit_result (warning (CommandNotExecuted e)) p1) as He'. fold (warning (CommandNotExecuted e)).
    cbv beta iota. unfold mret, M_ret. destruct (emit _ p1) as [[[]|e'|] q']; cbn in He'; [done|by destruct He' as [|[= ->]]|by destruct He'].
Qed.

Lemma emit_turn o p :
  match emit o p with (Ok _, q) => emit_all [o] p = (Ok tt, q) | (Err e, _) => e = StdoutFailed | (Panic, _) => False end.
Proof.
  rewrite emit_one. pose proof (emit_result o p) as He. destruct (emit o p) as [[[]|e|] q]; cbn in He; [done|by destruct He as [|[= ->]]|by destruct He].
Qed.
Lemma line_turn line p :
  match run_line line p with
  | (Ok true, q) => line_reported line p q
  | (Ok false, _) => decode_command_line line = Ok CmdShutdown
  | (Err e, _) => e = StdoutFailed
  | (Panic, _) => (handler (Line line) p).1 = Panic
  end.
Proof.
  unfold run_line, line_reported, handler. destruct (trim_is_empty line); [done|].
  destruct (decode_command_line line) as [c|e|]; [| |done].
  - assert (c = CmdShutdown ∨ c ≠ CmdShutdown) as [->|Hc] by (destruct c; auto).
    { rewrite run_bind. pose proof (emit_turn (OutSidecar ShutdownComplete) p) as He.
      by destruct (emit _ p) as [[[]|e|] q]. }
    replace (match c with CmdShutdown => _ | _ => _ end) with (run_command c;; mret true) by (by destruct c).
    replace (match c with CmdShutdown => _ | _ => _ end) with (handle_command c) by (by destruct c).
    rewrite run_bind. pose proof (command_turn c p) as Ht. destruct (handle_command c p) as [r p1].
    by destruct (run_command c p) as [[[]|e|] q].
  - rewrite run_bind. pose proof (emit_turn (warning (CommandNotDecoded e)) p) as He. fold (warning (CommandNotDecoded e)).
    by destruct (emit _ p) as [[[]|e'|] q].
Qed.

(** C27: No error stops the process, and none is lost.  A turn of the event
    loop ends the process only when it is told to (the command to shut down,
    the end of the input, an interrupt), when standard output or the signal
    handler fails, or when a handler panics.  Otherwise it goes on, and after
    the handler it has written exactly this: for a command the answer to its
    request id, if it has one, and a warning if it failed; a warning for a
    line that is no command or cannot be read; for an error of the network or
    of the tick a warning, unless the same warning was given less than five
    seconds before. *)
Theorem process_survives throttle input p :
  match main_step throttle input p with
  | (Ok (Some t), q) => turn_reported throttle t input p q
  | (Ok None, _) => stops input
  | (Err e, _) => e = StdoutFailed ∨ input = InterruptFailed
  | (Panic, _) => (handler input p).1 = Panic
  end.
Proof.
  unfold turn_reported. destruct input as [line| | |e| | |]; cbn [main_step stops].
  - rewrite run_bind. pose proof (line_turn line p) as Ht. destruct (handler (Line line) p) as [r p1] eqn:Eh.
    destruct (run_line line p) as [[[]|e|] q]; [done|done|by left|done].
  - rewrite run_bind. pose proof (emit_turn (warning CommandNotRead) p) as He. fold (warning CommandNotRead).
    destruct (emit _ p) as [[[]|e|] q]; [done|by left|done].
  - done.
  - rewrite run_bind. pose proof (recoverable_turn throttle "网络事件" (handle_network_event e) p) as Ht. unfold handler.
    destruct (handle_network_event e p) as [r p1]. destruct (recoverable _ _ _ p) as [[t|e'|] q]; [done|by left|done].
  - rewrite run_bind. pose proof (recoverable_turn throttle "协议轮询" protocol_tick p) as Ht. unfold handler.
    destruct (protocol_tick p) as [r p1]. destruct (recoverable _ _ _ p) as [[t|e'|] q]; [done|by left|done].
  - rewrite run_bind. pose proof (emit_turn (OutSidecar ShutdownComplete) p) as He. destruct (emit _ p) as [[[]|e|] q]; [done|by left|done].
  - by right.
Qed.

(** ** Entering a table *)

(** The buy-in is covered by the tokens of the account of the identity. *)
Definition covered (buy_in : Z) s : Prop :=
  ∃ i o, st_identity s = Some i ∧ token_observation s = Some o ∧ id_fingerprint i = ob_fingerprint o
    ∧ identity_binding_available o = true ∧ buy_in <= lifetime_tokens o.
Definition covered_if_ok {A} (buy_in : Z) (m : MainM A) p : Prop :=
  match (m p).1 with Ok _ => covered buy_in (ps_state p) | _ => True end.
Lemma covered_owner p q n : same_owner p q → covered n (ps_state q) → covered n (ps_state p).
Proof.
  intros (Ho & Ht & _) (i & o & Hi & Hob & Hf & Hb & Hn). destruct (owner_identity _ _ _ Ho Hi) as (i0 & Hi0 & Hf0 & _).
  exists i0, o. split_and!; congruence.
Qed.
Lemma buy_in_run n p v q : validate_local_buy_in n p = (Ok v, q) → is_Some (st_identity (ps_state p)) → covered n (ps_state p).
Proof.
  unfold validate_local_buy_in, the_state. intros Hrun [i Hi]. apply bind_run in Hrun as (s & u & [= <- <-] & Hrun). rewrite Hi in Hrun.
  unfold identity_account_fingerprint, the_state in Hrun. inv_run. bool_props.
  repeat match goal with
  | Hg : ok_or _ _ = Ok _ |- _ => apply ok_or_Ok in Hg
  | Hg : reject_if _ _ = Ok _ |- _ => apply reject_if_Ok in Hg
  end. simplify_eq. bool_props. exists i. eexists. split_and!; try done.
Qed.
(** A method that checks the buy-in and then asks for the identity. *)
Lemma covered_then {A} n (f : ActiveIdentity → MainM A) p :
  covered_if_ok n (validate_local_buy_in n ≫= λ _, need_identity ≫= f) p.
Proof.
  unfold covered_if_ok. destruct ((validate_local_buy_in n ≫= λ _, need_identity ≫= f) p) as [[v| |] q] eqn:E; cbn; [|done..].
  apply bind_run in E as (u & p1 & E1 & E). pose proof (buy_in_owner n p) as Ho. rewrite E1 in Ho. cbn in Ho.
  apply bind_run in E as (i & p2 & E2 & E). unfold need_identity, the_state in E2. inv_run.
  match goal with Hg : ok_or _ _ = Ok _ |- _ => apply ok_or_Ok in Hg; rename Hg into Hid end.
  destruct Ho as (Ho & _). destruct (owner_identity _ _ _ Ho Hid) as (i0 & Hi0 & _). eapply buy_in_run; [exact E1|by eexists].
Qed.
Lemma covered_pre {A B} n (m : MainM A) (f : A → MainM B) p :
  steps same_owner m → (∀ v q, covered_if_ok n (f v) q) → covered_if_ok n (m ≫= f) p.
Proof.
  intros Hm Hf. unfold covered_if_ok. rewrite run_bind. specialize (Hm p). destruct (m p) as [[v| |] q]; [|done..]. cbn in Hm.
  specialize (Hf v q). unfold covered_if_ok in Hf. case_match; try done. by eapply covered_owner.
Qed.

(** C26: Nobody plays with more than the account has.  Whoever enters the public
    pool, opens a room for friends or follows an invitation has an identity of
    the account that was observed last, that account is known by an identifier,
    and the buy-in is at most its lifetime tokens: otherwise the command
    fails. *)
Theorem buy_in_covered level code buy_in p :
  covered_if_ok buy_in (join_public_pool level buy_in) p
  ∧ covered_if_ok buy_in (create_friend_room level buy_in) p
  ∧ covered_if_ok buy_in (join_friend_room code buy_in) p.
Proof.
  unfold join_public_pool, create_friend_room, join_friend_room.
  split_and!; repeat first [apply covered_then|apply covered_pre; [solve [owner_steps]|intros ? ?]].
Qed.

(** ** Statistics *)
Lemma derive_count player rs : ∀ st st', try_fold (add_receipt player) st rs = Ok st' → completed_hands st <= u64_max →
  completed_hands st' = completed_hands st + Z.of_nat (length (player_deltas player rs)) ∧ completed_hands st' <= u64_max.
Proof.
  induction rs as [|r rs IH]; intros st st' Hrun Hst; cbn in Hrun; [injection Hrun as <-; unfold player_deltas; cbn; lia|].
  apply bind_Ok in Hrun as (st1 & H1r & Hrun). unfold player_deltas. cbn [omap list_omap]. unfold add_receipt in H1r.
  destruct (outcome_for r player) as [o|]; [|injection H1r as <-; by apply IH].
  assert (completed_hands st1 = completed_hands st + 1 ∧ completed_hands st + 1 <= u64_max) as [Hc Hle].
  { inv_ok. match goal with Hadd : u64_checked_add _ _ = Some _ |- _ => apply checked_add_w_Some in Hadd as [-> ?] end. case_match; inv_ok; done. }
  destruct (IH _ _ Hrun) as [-> Hb]; [lia|]. fold (player_deltas player rs). cbn [map length]. rewrite Hc in *. unfold player_deltas in *. lia.
Qed.
Definition count_of (f : Z → bool) (ds : list Z) : Z := Z.of_nat (length (List.filter f ds)).
Lemma tally_counts ds : ∀ t, 0 <= won_hands t → 0 <= lost_hands t → 0 <= split_hands t →
  won_hands t + lost_hands t + split_hands t + Z.of_nat (length ds) <= u64_max →
  let t' := fold_left tally ds t in
  won_hands t' = won_hands t + count_of (Z.ltb 0) ds ∧ lost_hands t' = lost_hands t + count_of (Z.gtb 0) ds
  ∧ split_hands t' = split_hands t + count_of (Z.eqb 0) ds.
Proof.
  induction ds as [|d ds IH]; intros [wn ls sp] Hw Hl Hs Hb; cbn in *; [unfold count_of; cbn; lia|].
  unfold tally at 2 4 6. cbn [won_hands lost_hands split_hands]. unfold u64_saturating_add, count_of in *. cbn [List.filter].
  assert (Z.min u64_max (wn + 1) = wn + 1 ∧ Z.min u64_max (ls + 1) = ls + 1 ∧ Z.min u64_max (sp + 1) = sp + 1) as (Ew & El & Es) by lia.
  destruct (Z.compare_spec d 0);
    [replace (0 <? d) with false by lia; replace (0 >? d) with false by lia; replace (0 =? d) with true by lia
    |replace (0 <? d) with false by lia; replace (0 >? d) with true by lia; replace (0 =? d) with false by lia
    |replace (0 <? d) with true by lia; replace (0 >? d) with false by lia; replace (0 =? d) with false by lia];
    cbn; rewrite ?Ew, ?El, ?Es; edestruct IH as (-> & -> & ->); cbn; lia.
Qed.
Lemma hands_deltas archive player l :
  map rh_delta (omap (recent_hand archive player) l) = player_deltas player (map (co_receipt ∘ snd) l).
Proof.
  unfold player_deltas. induction l as [|e l IH]; cbn; [done|]. unfold recent_hand at 1.
  destruct (outcome_for (co_receipt e.2) player); cbn; [|exact IH]. by f_equal.
Qed.

Lemma derive_no_panic player rs : ∀ st, not_panic (try_fold (add_receipt player) st rs).
Proof.
  induction rs as [|r rs IH]; intros st; cbn; [done|].
  destruct (add_receipt player st r) as [st'|e|] eqn:E; cbn; [apply IH|done|]. exfalso. revert E. unfold add_receipt, ok_or.
  repeat (case_match; cbn; try done).
Qed.
(** The sorted hands: later ones first. *)
Definition not_later : relation RecentHand := λ h k, rh_settled_at k <= rh_settled_at h.
Lemma hands_sorted (l : list RecentHand) : StronglySorted not_later (sort_by_key (λ h, - rh_settled_at h) l).
Proof.
  induction (sort_by_key_sorted (λ h, - rh_settled_at h) l) as [|h k _ IH Hall]; constructor; [done|].
  eapply Forall_impl; [exact Hall|]. intros u. unfold key_le, ord_leb, compare, Z_ord, not_later. cbn.
  destruct (Z.compare_spec (- rh_settled_at h) (- rh_settled_at u)); intros; (done || lia).
Qed.
(** The beginning of a sorted list, and what is cut off. *)
Lemma newest_first (l : list RecentHand) n :
  let recent := take n (sort_by_key (λ h, - rh_settled_at h) l) in
  StronglySorted not_later recent
  ∧ ∃ rest, recent ++ rest ≡ₚ l ∧ ∀ h k, h ∈ recent → k ∈ rest → rh_settled_at k <= rh_settled_at h.
Proof.
  pose proof (hands_sorted l) as Hs. rewrite <-(take_drop n) in Hs. apply StronglySorted_app in Hs as (Hc & Ht & _).
  split; [done|]. eexists. split; [rewrite take_drop; apply sort_by_key_perm|]. intros h k Hh Hk. by apply Hc.
Qed.
(** A line of the list shows the receipt [e] as the player has it. *)
Definition shows (archive : ArchiveRuntime) (player : PlayerId) (h : RecentHand) (e : ContentAddress * CoSignedReceipt) : Prop :=
  rh_address h = e.1 ∧ rh_hand_number h = rc_hand_number (co_receipt e.2) ∧ rh_level_id h = stake_level_id (co_receipt e.2)
  ∧ rh_settled_at h = settled_at_unix_ms (co_receipt e.2) ∧ rh_archived h = is_archived archive e.1
  ∧ ∃ o, outcome_for (co_receipt e.2) player = Some o ∧ rh_delta h = delta o.
Definition played_by (player : PlayerId) (e : ContentAddress * CoSignedReceipt) : Prop :=
  is_Some (outcome_for (co_receipt e.2) player).
#[local] Instance played_by_dec player e : Decision (played_by player e).
Proof. unfold played_by. apply _. Defined.
Lemma hands_show archive player l :
  Forall2 (shows archive player) (omap (recent_hand archive player) l) (filter (played_by player) l).
Proof.
  induction l as [|e l IH]; [constructor|]. rewrite filter_cons. cbn [omap list_omap]. unfold recent_hand at 1.
  destruct (outcome_for (co_receipt e.2) player) as [o|] eqn:E; cbn.
  - rewrite decide_True by (unfold played_by; by rewrite E). constructor; [|done]. unfold shows. cbn. split_and!; try done. by exists o.
  - rewrite decide_False by (unfold played_by; rewrite E; by intros [? ?]). done.
Qed.
Lemma counts_partition ds : count_of (Z.ltb 0) ds + count_of (Z.gtb 0) ds + count_of (Z.eqb 0) ds = Z.of_nat (length ds).
Proof.
  unfold count_of. induction ds as [|d ds IH]; cbn [List.filter]; [done|].
  destruct (Z.ltb_spec 0 d), (Z.gtb_spec 0 d), (Z.eqb_spec 0 d); cbn [length]; lia.
Qed.

(** C36: The statistics add up.  What is shown of the verified receipts counts
    every hand of the player once: the hands won, lost and split are those with
    a gain, a loss and neither, and they add up to the completed hands.  The
    recent hands are the twenty latest of the player's hands, or all of them,
    from the latest on: each line shows one verified receipt of the player, no
    receipt twice, and a receipt that is not shown is not later than one that
    is. *)
Theorem statistics_add_up archive player :
  let receipts := btree_entries (verified_receipts archive) in
  let ds := player_deltas player (map (co_receipt ∘ snd) receipts) in
  match statistics_event archive player with
  | Ok (StatisticsUpdated st won lost split recent) =>
      won = count_of (Z.ltb 0) ds ∧ lost = count_of (Z.gtb 0) ds ∧ split = count_of (Z.eqb 0) ds
      ∧ won + lost + split = completed_hands st ∧ completed_hands st = Z.of_nat (length ds)
      ∧ length recent = Nat.min 20 (length ds)
      ∧ StronglySorted (λ h k, rh_settled_at k <= rh_settled_at h) recent
      ∧ ∃ all rest, Forall2 (shows archive player) all (filter (played_by player) receipts)
          ∧ recent ++ rest ≡ₚ all
          ∧ ∀ h k, h ∈ recent → k ∈ rest → rh_settled_at k <= rh_settled_at h
  | Ok _ | Panic => False
  | Err _ => True
  end.
Proof.
  intros receipts ds. unfold statistics_event. fold receipts.
  unfold derive. pose proof (derive_no_panic player (map (co_receipt ∘ snd) receipts) (mkStatistics 0 0 0 0 0 0)) as Hn.
  destruct (try_fold _ _ _) as [st|e|] eqn:E; cbn [map_err mbind result_bind]; [|done..].
  apply derive_count in E as [Hc Hb]; [|cbn; unfold u64_max; lia]. fold ds in Hc. cbn in Hc.
  rewrite hands_deltas. fold ds. pose proof (tally_counts ds (mkTally 0 0 0)) as Ht. cbn in Ht.
  destruct Ht as (-> & -> & ->); [lia..|]. cbn [mret]. pose proof (counts_partition ds).
  destruct (newest_first (omap (recent_hand archive player) receipts) 20) as (Hs & rest & Hp & Hr).
  split_and!; [lia..| |exact Hs|].
  - rewrite length_take, (Permutation_length (sort_by_key_perm _ _)), <-(length_map rh_delta), hands_deltas. fold ds. lia.
  - exists (omap (recent_hand archive player) receipts), rest. split_and!; [apply hands_show|done|done].
Qed.
End spec.

(** ** From the start *)
Section started.
Context `{Crypto, Libp2p, Ziffle, !World, !OsRandom, !HandCodec, !RoomCodec, !PoolCodec, !HexCodec, !DirOrder, !ReceiptJson}.
Context `{!Rendezvous, !MultiaddrText, !Host, !RecoveryCrypto, !Cbor RecoveryEnvelope, !Cbor FriendRoomInvite, !Base64, !SerdeJson}.
Context `{!NodeKeys, !SwarmBuilder}.

(** The process after some inputs, when it has started. *)
Definition reached (o : StartupOptions) (d : Disk) (w : world) (inputs : list Input) : option Process :=
  match start_worker o (d, w) with
  | (Ok (_, s), (d, w)) => Some ((announce;; main_loop throttle_default (heard o inputs)) (mkProcess s d w)).2
  | _ => None
  end.
Lemma start_worker_fresh o u plan s u' : start_worker o u = (Ok (plan, s), u') → account_inv s.
Proof.
  unfold start_worker. destruct (servers o) as [[? ?] ?]. intros Hr. do 5 apply bind_run in Hr as (? & ? & _ & Hr).
  injection Hr as _ <- _. constructor; by cbn.
Qed.
Lemma reached_inv o d w inputs p : reached o d w inputs = Some p → account_inv (ps_state p).
Proof.
  unfold reached. destruct (start_worker o (d, w)) as [[[plan s]| |] [d' w']] eqn:E; [|done..]. apply start_worker_fresh in E.
  intros [= <-]. assert (steps keeps_inv (announce;; main_loop throttle_default (heard o inputs))) as Hk; [|by apply Hk].
  apply steps_bind; [apply _| |intros ?; apply main_loop_keeps]. apply announce_keeps.
Qed.

(** C24: The identity belongs to the account.  After any start and any inputs
    (commands, events of the network, ticks, in any order, and whatever the
    network, the clock, the disk and standard output do) the identity that is
    loaded is the one of the account that was observed last, with a certificate
    of its own player for its own device; a restore that is under way is for
    that account too; and without an identity there is no table, no hand, no
    search for a table and no room that is being joined. *)
Theorem identity_of_account o d w inputs :
  match ps_state <$> reached o d w inputs with
  | None => True
  | Some s =>
      (∀ i, st_identity s = Some i → of_account s (id_fingerprint i) ∧ identity_ok i)
      ∧ (∀ r, pending_remote_restore s = Some r → of_account s (pr_fingerprint r))
      ∧ (st_identity s = None → asleep s)
  end.
Proof. destruct (reached o d w inputs) eqn:E; [|done]. apply reached_inv in E as []. by split_and!. Qed.

(** C25: A player at a table keeps the identity.  In every process that can be
    reached, an input of any kind leaves player, account, device and
    certificate as they are unless the process is idle: no session, no hand,
    no ticket in the pool and no room that is being joined. *)
Theorem seated_identity_fixed o d w inputs throttle input :
  match reached o d w inputs with
  | None => True
  | Some p => idle (ps_state p) = true ∨ owner (ps_state (main_step throttle input p).2) = owner (ps_state p)
  end.
Proof.
  destruct (reached o d w inputs) as [p|] eqn:E; [|done]. destruct (idle (ps_state p)) eqn:Hn; [by left|right].
  apply main_step_seated; [by eapply reached_inv|done].
Qed.
End started.
